(* ===== verification/_CoqProject ===== *)
-Q . S2P
Prelude.v
Varint.v
Text.v
Record.v
Float.v
ValueOrder.v
Format.v
Coerce.v
ValueProperties.v
Functions.v
FunctionProperties.v
Tokenizer.v
TokenizerProperties.v
Ast.v
Grammar.v
Statements.v
GrammarProperties.v
Printer.v
PrintTokens.v
PrintParse.v
PrintExpr.v
PrintSelect.v
PrintLex.v
PrintProperties.v
Header.v
Freelist.v
Vfs.v
Journal.v
Wal.v
Lock.v
Shm.v
Checkpoint.v
PageCache.v
Pager.v
Commit.v
Transactions.v
WalCommit.v
Open.v
Allocator.v
BtreePage.v
LeafPage.v
LeafDelete.v
LeafSearch.v
Btree.v
Tree.v
TreeSplit.v
Overflow.v
TableTree.v
Table.v
TableDelete.v
Cursor.v
CursorScan.v
CursorSeek.v
TableProperties.v
IndexBtree.v
IndexScan.v
IndexProperties.v
Program.v
Vm.v
VmCursor.v
Sorter.v
SorterProperties.v
Exec.v
Codegen.v
CodegenExpr.v
Eval.v
CodegenState.v
CodegenRun.v
CodegenCond.v
CodegenValue.v
CodegenCall.v
CodegenSelect.v
CodegenSeek.v
CodegenAggregate.v
CodegenEntry.v
ExecRun.v
CodegenRows.v
CodegenLoop.v
SelectTable.v
SelectProperties.v
