(* ===== verification/Prelude.v ===== *)
(** * sqlite-rs: a verification development

    sqlite-rs is a Rust implementation of SQLite's file format and SQL dialect.
    This library models it from the bytes of its files up to the rows a SELECT
    returns: the record format, the files and locks, the journals, the pager,
    table and index b-trees, the tokenizer, parser and printer, values and
    scalar functions, the code generator for expressions and single-table
    SELECTs, and the virtual machine that runs its programs.

    ** How the parts fit together

    A table is a b-tree of pages ([src/btree.rs], [src/btree/table]); its leaf
    cells carry records ([src/record]) whose payload may continue on overflow
    pages.  An index is a b-tree of keys ([src/btree/index.rs]).  The b-tree
    code reads and writes pages through the pager ([src/pager.rs]), which keeps
    the pages of the open transaction in a map of dirty pages, caches clean
    ones, allocates from the freelist ([src/pager/freelist.rs]) and commits
    through a rollback journal ([src/pager/journal.rs]) or a write-ahead log
    ([src/pager/wal.rs], [src/pager/checkpoint.rs]).  Connections of different
    processes exclude each other with byte-range locks ([src/vfs/lock.rs]) and
    announce readers in the wal-index ([src/vfs/shm.rs]).  A statement's text is
    cut into tokens ([src/parser/tokenizer.rs]) and parsed into a syntax tree
    ([src/parser/grammar.rs], [ast.rs]), from which the code generator
    ([src/codegen.rs], [src/codegen/expr], [src/codegen/select]) makes a program;
    the machine ([src/vdbe]) runs it one instruction at a time over registers
    and cursors, the cursors over the b-trees.

    ** How the code is translated

    A pure function is a Gallina function; [Result] is [result], [?] its bind.
    A method on [&mut self] is a function in the monad [M S E], which returns
    the new state also when it fails, so that changes made before an error are
    kept.  Bytes and machine integers are [Z], a slice is a list; reads out of
    range give [None] as [slice::get] does, and wrapping and saturating
    arithmetic is written out ([wrap], [sat_add], [sat_sub], [sat_mul]).
    Loops that are not structural take fuel.  Where the source counts the rounds
    itself, the fuel is that count and running out is the source's error; the
    loops of the cursors and of the parser, which the source does not count, end
    in an outcome of their own when it runs out ([BtDiverged], [PfDiverged]), and
    theorems show that this does not occur; the remaining searches get at least
    the length of what they search.  The operating system's locks are the class
    [Fcntl] with the laws of POSIX record locks, instantiated by [LockTable];
    the host's byte order is the class [Host]; the alphabetic and numeric
    classes of Unicode are the class [Unicode]; random nonces and salts, and the
    wal-index values a checkpoint reads, are arguments.  Doubles are their 64
    bits.  The code generator runs in the monad [G] over its emitter and
    registers.  What is generated for subqueries ([sub], [hoist],
    [materialize]) and what the opcodes outside the model do ([other_op]) are
    arguments of the definitions that use them.

    ** Files

    - [Prelude]: results, the state monad, lists as byte buffers, big-endian
      integers, saturating arithmetic.
    - [Varint], [Text], [Record]: [src/record]: varints, UTF-8 and UTF-16,
      serial types, encoder and the full and partial decoders.
    - [Float], [ValueOrder], [Format], [Coerce]: doubles, the orders of values
      and keys, rendering, affinities, casts and arithmetic
      ([src/record/collation.rs], [src/vdbe/compare.rs], [coerce.rs],
      [affinity.rs], [cast.rs], [src/format.rs]); [ValueProperties].
    - [Functions]: [src/vdbe/functions.rs]: scalar functions, LIKE and GLOB;
      [FunctionProperties].
    - [Tokenizer], [Ast], [Grammar], [Statements], [Printer]: [src/parser]: the
      tokenizer, the trees, expressions and SELECT, other statements, the
      printer; [TokenizerProperties], [GrammarProperties].  [PrintTokens],
      [PrintParse], [PrintExpr], [PrintSelect], [PrintLex] and
      [PrintProperties] show that printed queries parse back.
    - [Header], [Freelist]: [src/header.rs], [src/pager/freelist.rs].
    - [Vfs]: [src/vfs/memory.rs], [src/vfs/page_source.rs]: files as byte lists
      with a log of changes, which crash theorems cut anywhere.
    - [Journal], [Wal], [Checkpoint]: the two journals and the backfill.
    - [Lock], [Shm]: the lock ladder and the reader slots of the wal-index.
    - [PageCache], [Pager]: [src/pager.rs]: cache, reads, transactions, commits,
      mode switches, allocation; [Commit], [Transactions], [WalCommit], [Open]
      and [Allocator] hold the theorems about them.
    - [BtreePage], [LeafPage], [LeafDelete], [LeafSearch]: one b-tree page:
      cell pointers, freeblocks, in-place edits, searches.
    - [Btree]: descent, overflow chains, insertion with splits, deletion with
      collapse ([src/btree/table/insert.rs], [delete.rs]).
    - [Tree], [TreeSplit], [Overflow], [Table], [TableDelete]: the invariant
      relating a tree of pages with its overflow chains to sorted rows and to a
      finite map, and what insertion and deletion do to it.
    - [Cursor], [CursorScan], [CursorSeek]: [TableCursor], its scans and
      lookups; [TableTree], [TableProperties]: the theorems about tables.
    - [IndexBtree], [IndexScan], [IndexProperties]: [src/btree/index.rs],
      [index/insert.rs], [index/delete.rs]: the index cursor, insertion and
      deletion; index trees as lists of entries, scans and seeks.
    - [Program], [Vm], [VmCursor], [Sorter], [Exec]: [src/vdbe]: programs and
      aggregates, the machine's state and its register and control opcodes,
      cursor opcodes, the sorter, the execution loop; [SorterProperties] on the
      bounded sorter, [ExecRun] on runs of programs.
    - [Codegen], [CodegenExpr]: [src/codegen.rs], [src/codegen/expr]: emitter,
      labels, registers and scopes; conditions and values.  [Eval] is a reference
      evaluator of expressions; [CodegenState], [CodegenRun], [CodegenCond],
      [CodegenValue] and [CodegenCall] show that compiled code computes it.
    - [CodegenSelect], [CodegenSeek], [CodegenAggregate], [CodegenEntry]:
      [src/codegen/select]: result columns, ORDER BY and LIMIT, scans, index
      seeks, aggregates, whole programs.  [CodegenRows], [CodegenLoop],
      [SelectTable] and [SelectProperties] lead from there to what a compiled
      SELECT returns.

    ** What the theorems show

    - Formats: encoders and decoders are inverse, decoders total, the partial
      decoders agree with the full one.
    - Crash safety: a rollback-journal commit cut between any two of its file
      operations or inside a write to the journal, its writes to the main file
      torn or lost, recovers to the old database, or is refused when the
      journal's header itself is cut; a log cut anywhere shows the last complete
      commit; opening shows the database the main file, journal and log stand
      for.
    - Isolation: the lock ladder excludes writers in every reachable state of
      any number of processes; a checkpoint keeps every announced reader's
      snapshot.
    - Pager: reads after writes, rollback, commit and page allocation against
      their abstract meaning; the cache refines a least-recently-used list.
    - Tables: [insert_row] and [delete_row] implement insertion into and
      deletion from a finite map through any number of splits and collapses,
      under the conditions below; scans and lookups read that map back; a cursor
      move returns on any pages.
    - Indexes: the cursor returns every entry in both directions, and from a
      sought key on exactly the entries not less than it; its moves return on
      any pages.
    - Values and functions: one order with a sort key, what the operators compute
      on 64-bit integers, numeric prefixes, LIKE and GLOB against their declarative meaning.
    - Syntax: tokens partition the source; the parser is total with as much
      fuel as there are tokens and keeps its depth counter; printed queries
      parse back.
    - Queries: a SELECT over one table that no index shortens, compiled and run
      over the b-tree, returns the projections of the rows its WHERE accepts, in
      order, cut to LIMIT and OFFSET; a SELECT without FROM returns its values;
      the bounded sorter of ORDER BY with LIMIT returns the first rows of the
      full sort; every call for a row returns within the step limit.
    - Several theorems state defects: closed counterexamples or theorems whose
      conclusion is what the code does where a comment says otherwise.  They
      back the findings of the manifest.

    ** Bounds and fuel

    Page sizes are 512 to 65536 as the header parser enforces.  Tree heights are
    limited by [MAX_PAGES_VISITED], as in the source.  Cursor steps get
    [budget] rounds, log scans the length of the log, journal recovery its
    record count.  Insertion assumes that the halves of a leaf split by cell
    count fit their pages ([leaf_room]); [even_rows_have_room] gives a class of
    tables where they do, and [uneven_split_destroys_rows] shows what happens
    where they do not.  Deletion is about tables that do not use page 1
    ([collapse_into_page1_overflows]) and pages of at most 32768 bytes.  Crash
    theorems assume that the completed writes to a journal are in place in the
    order they were made.  The parser's fuel is the number of tokens, the
    expression compiler's three times the size of the expression, a program's
    the [MAX_STEPS] of the source.  The theorem on SELECTs is about [covered]
    expressions (no subqueries and no anonymous parameters) and
    statements for which [plain_scan] holds (no shorter access path applies).

    ** Not modelled

    - A page edit that fails halfway leaves its buffer partly written in the
      source; the model returns the error without the partial buffer.
    - The POSIX file system behind [src/vfs/unix.rs] and [src/sys], and the
      command line ([src/bin]): input and output.
    - The schema tables and the reader of stored CREATE statements
      ([src/btree/master.rs], [src/schema]): table descriptions are arguments.
    - Joins, subqueries, views and CTEs, data-changing statements, DDL, PRAGMA,
      ANALYZE and EXPLAIN in the code generator, the planner's cost model, and
      the opcodes only they use, the index opcodes among them: [other_op].
    - Whether insertion into an index keeps its keys sorted through splits: the
      operations are modelled and run, the theorems are about reading. *)

From stdpp Require Import prelude gmap list numbers.
From Stdlib Require Import ZArith Lia.

Local Open Scope Z_scope.

Declare Scope sqlite_scope.
Delimit Scope sqlite_scope with sqlite.

(** ** Fallible code: Rust's [Result] *)

Inductive result (E A : Type) : Type :=
| Ok (a : A)
| Err (e : E).
Arguments Ok {E A} _.
Arguments Err {E A} _.

#[global] Instance result_ret {E} : MRet (result E) := fun A a => Ok a.
#[global] Instance result_bind {E} : MBind (result E) :=
  fun A B f m => match m with Ok a => f a | Err e => Err e end.
#[global] Instance result_fmap {E} : FMap (result E) :=
  fun A B f m => match m with Ok a => Ok (f a) | Err e => Err e end.

(** [Result::map_err] and [Option::ok_or]. *)
Definition map_err {E F A} (f : E -> F) (m : result E A) : result F A :=
  match m with Ok a => Ok a | Err e => Err (f e) end.

Definition ok_or {E A} (o : option A) (e : E) : result E A :=
  match o with Some a => Ok a | None => Err e end.

Definition is_ok {E A} (m : result E A) : bool :=
  match m with Ok _ => true | Err _ => false end.

#[global] Instance result_eq_dec {E A} `{EqDecision E, EqDecision A} :
  EqDecision (result E A).
Proof. solve_decision. Defined.

Lemma bind_ok {E A B} (m : result E A) (f : A -> result E B) (b : B) :
  (m ≫= f) = Ok b -> exists a, m = Ok a /\ f a = Ok b.
Proof. destruct m as [a|e]; simpl; [eauto | discriminate]. Qed.

Lemma bind_assoc {E A B C} (m : result E A) (f : A -> result E B) (g : B -> result E C) :
  ((m ≫= f) ≫= g) = (m ≫= (fun a => f a ≫= g)).
Proof. by destruct m. Qed.

(** ** Stateful fallible code

    A method on [&mut self] that returns a [Result] is a function of the state
    that returns the result and the state it leaves, also when it fails: [?]
    propagates the error and keeps every change made before it. *)

Definition M (S E A : Type) : Type := S -> result E A * S.

#[global] Instance M_ret {S E} : MRet (M S E) := fun A a s => (Ok a, s).
#[global] Instance M_bind {S E} : MBind (M S E) :=
  fun A B f m s => match m s with (Ok a, s') => f a s' | (Err e, s') => (Err e, s') end.

Definition get_st {S E} : M S E S := fun s => (Ok s, s).
Definition modify {S E} (f : S -> S) : M S E unit := fun s => (Ok tt, f s).
Definition lift {S E A} (r : result E A) : M S E A := fun s => (r, s).
Definition throw {S E A} (e : E) : M S E A := fun s => (Err e, s).
Definition map_err_M {S E F A} (f : E -> F) (m : M S E A) : M S F A :=
  fun s => let '(r, s') := m s in (map_err f r, s').

(** Runs an operation on a component of the state. *)
Definition zoom {S T E A} (get : S -> T) (set : S -> T -> S) (m : M T E A) : M S E A :=
  fun s => let '(r, t) := m (get s) in (r, set s t).

(** [let result = body; cleanup?; result]. *)
Definition then_always {S E A} (body : M S E A) (cleanup : M S E unit) : M S E A :=
  fun s => let '(result, s') := body s in (_ ← cleanup; lift result) s'.

(** [for x in xs { body(x)?; }]. *)
Fixpoint for_each {S E A} (xs : list A) (body : A -> M S E unit) : M S E unit :=
  match xs with
  | [] => mret tt
  | x :: xs => _ ← body x; for_each xs body
  end.

Lemma M_bind_ok {S E A B} (m : M S E A) (f : A -> M S E B) s a s' :
  m s = (Ok a, s') -> (m ≫= f) s = f a s'.
Proof. unfold mbind, M_bind. by intros ->. Qed.

Lemma M_bind_err {S E A B} (m : M S E A) (f : A -> M S E B) s e s' :
  m s = (Err e, s') -> (m ≫= f) s = (Err e, s').
Proof. unfold mbind, M_bind. by intros ->. Qed.

Lemma M_bind_inv {S E A B} (m : M S E A) (f : A -> M S E B) s b s' :
  (m ≫= f) s = (Ok b, s') -> exists a s1, m s = (Ok a, s1) /\ f a s1 = (Ok b, s').
Proof. unfold mbind, M_bind. destruct (m s) as [[a|e] s1]; [eauto|done]. Qed.

(** ** Machine integers, as [Z] in their range *)

Definition U8_MAX : Z := 255.
Definition U16_MAX : Z := 65535.
Definition U32_MAX : Z := 4294967295.
Definition U64_MAX : Z := 18446744073709551615.
Definition I64_MIN : Z := -9223372036854775808.
Definition I64_MAX : Z := 9223372036854775807.

Definition is_u8 (z : Z) : Prop := 0 <= z < 256.
Definition is_u16 (z : Z) : Prop := 0 <= z < 65536.
Definition is_u32 (z : Z) : Prop := 0 <= z < 4294967296.
Definition is_u64 (z : Z) : Prop := 0 <= z < 18446744073709551616.
Definition is_i64 (z : Z) : Prop :=
  -9223372036854775808 <= z < 9223372036854775808.

(** Wrap-around of a [w]-bit unsigned integer, and the two's-complement
    reading of a [w]-bit word ([as i8], [as i64], ...). *)
Definition wrap (w : Z) (z : Z) : Z := z mod 2 ^ w.
Definition to_signed (w : Z) (z : Z) : Z :=
  let u := z mod 2 ^ w in if u <? 2 ^ (w - 1) then u else u - 2 ^ w.

(** [saturating_add] and friends on [usize]/[u64] and on [u32]. *)
Definition sat_add (a b : Z) : Z := Z.min (a + b) U64_MAX.
Definition sat_mul (a b : Z) : Z := Z.min (a * b) U64_MAX.
Definition sat_sub (a b : Z) : Z := Z.max (a - b) 0.
Definition sat_add32 (a b : Z) : Z := Z.min (a + b) U32_MAX.

(** [checked_add] on [usize]. *)
Definition checked_add (a b : Z) : option Z :=
  if a + b <=? U64_MAX then Some (a + b) else None.

(** [<<] on [u64]: the bits shifted past the top are lost. *)
Definition shl64 (a k : Z) : Z := Z.land (Z.shiftl a k) U64_MAX.

Ltac sat := unfold sat_add, sat_mul, sat_sub, sat_add32, checked_add,
  is_u8, is_u16, is_u32, is_u64, is_i64,
  U8_MAX, U16_MAX, U32_MAX, U64_MAX, I64_MIN, I64_MAX in *.

Lemma sat_add_small a b : a + b <= U64_MAX -> sat_add a b = a + b.
Proof. apply Z.min_l. Qed.
Lemma sat_mul_small a b : a * b <= U64_MAX -> sat_mul a b = a * b.
Proof. apply Z.min_l. Qed.
Lemma sat_sub_small a b : b <= a -> sat_sub a b = a - b.
Proof. intros. apply Z.max_l. lia. Qed.

(** ** Byte buffers: Rust slices with [usize] offsets

    A buffer is a list of bytes; every access goes through the
    bounds-checked [get] family, as the source does. *)

Definition len {A} (l : list A) : Z := Z.of_nat (length l).

(** [buf.get(i)], [buf.get(a..b)], [buf.get(a..)], [buf.get(..b)]. *)
Definition get_at {A} (l : list A) (i : Z) : option A :=
  if (0 <=? i) && (i <? len l) then l !! Z.to_nat i else None.

Definition get_range {A} (l : list A) (a b : Z) : option (list A) :=
  if (0 <=? a) && (a <=? b) && (b <=? len l)
  then Some (take (Z.to_nat (b - a)) (drop (Z.to_nat a) l)) else None.

Definition get_from {A} (l : list A) (a : Z) : option (list A) :=
  if (0 <=? a) && (a <=? len l) then Some (drop (Z.to_nat a) l) else None.

(** [buf.get_mut(off..off+bs.len())] followed by [copy_from_slice(bs)]. *)
Definition set_range {A} (l : list A) (off : Z) (bs : list A) : option (list A) :=
  if (0 <=? off) && (off + len bs <=? len l)
  then Some (take (Z.to_nat off) l ++ bs ++ drop (Z.to_nat (off + len bs)) l)
  else None.

(** [vec![0u8; n]]. *)
Definition zeros (n : Z) : list Z := replicate (Z.to_nat n) 0.

Definition bytes_ok (l : list Z) : Prop := Forall is_u8 l.

(** The same bytes from [off] on. *)
Definition same_from {A} (off : Z) (b b' : list A) : Prop :=
  len b' = len b /\ forall lo hi, off <= lo -> get_range b' lo hi = get_range b lo hi.

(** *** Lengths *)

Lemma len_nonneg {A} (l : list A) : 0 <= len l.
Proof. unfold len. lia. Qed.

Lemma len_app {A} (l k : list A) : len (l ++ k) = len l + len k.
Proof. unfold len. rewrite length_app. lia. Qed.

Lemma len_nil {A} : len (@nil A) = 0.
Proof. done. Qed.

Lemma len_cons {A} (x : A) (l : list A) : len (x :: l) = 1 + len l.
Proof. unfold len. simpl. lia. Qed.

Lemma len_zeros n : 0 <= n -> len (zeros n) = n.
Proof. unfold len, zeros. rewrite length_replicate. lia. Qed.

Lemma len_map {A B} (f : A -> B) (l : list A) : len (f <$> l) = len l.
Proof. unfold len. by rewrite length_fmap. Qed.

Lemma len_rev {A} (l : list A) : len (rev l) = len l.
Proof. unfold len. by rewrite length_rev. Qed.

Lemma len_take {A} (l : list A) n : 0 <= n <= len l -> len (take (Z.to_nat n) l) = n.
Proof. unfold len. intros. rewrite length_take. lia. Qed.

Lemma len_drop {A} (l : list A) n : 0 <= n <= len l -> len (drop (Z.to_nat n) l) = len l - n.
Proof. unfold len. intros. rewrite length_drop. lia. Qed.

Lemma len_0_nil {A} (l : list A) : len l = 0 -> l = [].
Proof. destruct l; [done|]. rewrite len_cons. pose proof (len_nonneg l). lia. Qed.

Create Rewrite HintDb len.
#[export] Hint Rewrite @len_app @len_nil @len_cons @len_map @len_rev : len.

(** *** When an access succeeds *)

Lemma get_range_Some {A} (l : list A) a b :
  0 <= a -> a <= b -> b <= len l ->
  get_range l a b = Some (take (Z.to_nat (b - a)) (drop (Z.to_nat a) l)).
Proof.
  intros. unfold get_range.
  rewrite (proj2 (Z.leb_le 0 a)), (proj2 (Z.leb_le a b)), (proj2 (Z.leb_le b (len l)))
    by lia. done.
Qed.

Lemma get_range_inv {A} (l k : list A) a b :
  get_range l a b = Some k ->
  0 <= a <= b /\ b <= len l /\ len k = b - a /\
  k = take (Z.to_nat (b - a)) (drop (Z.to_nat a) l).
Proof.
  unfold get_range. destruct (_ && _) eqn:E; [|done]. intros [= <-].
  apply andb_true_iff in E as [[?%Z.leb_le ?%Z.leb_le]%andb_true_iff ?%Z.leb_le].
  repeat split; try lia. unfold len in *.
  rewrite length_take, length_drop. lia.
Qed.

Lemma get_range_None {A} (l : list A) a b :
  0 <= a -> a <= b -> len l < b -> get_range l a b = None.
Proof.
  intros. unfold get_range. rewrite (proj2 (Z.leb_gt b (len l))) by lia.
  by rewrite andb_false_r.
Qed.

Lemma get_at_Some {A} (l : list A) i :
  0 <= i < len l -> get_at l i = l !! Z.to_nat i.
Proof.
  intros. unfold get_at.
  by rewrite (proj2 (Z.leb_le 0 i)), (proj2 (Z.ltb_lt i (len l))) by lia.
Qed.

Lemma get_at_lookup {A} (l : list A) i :
  0 <= i -> get_at l i = l !! Z.to_nat i.
Proof.
  intros. unfold get_at. rewrite (proj2 (Z.leb_le 0 i)) by lia. simpl.
  destruct (Z.ltb_spec i (len l)); [done|].
  symmetry. apply lookup_ge_None. unfold len in *. lia.
Qed.

Lemma get_from_Some {A} (l : list A) a :
  0 <= a <= len l -> get_from l a = Some (drop (Z.to_nat a) l).
Proof.
  intros. unfold get_from.
  by rewrite (proj2 (Z.leb_le 0 a)), (proj2 (Z.leb_le a (len l))) by lia.
Qed.

Lemma get_from_app {A} (l k : list A) : get_from (l ++ k) (len l) = Some k.
Proof.
  rewrite get_from_Some by (rewrite len_app; pose proof (len_nonneg k);
    pose proof (len_nonneg l); lia).
  f_equal. unfold len. rewrite Nat2Z.id. by rewrite drop_app_length.
Qed.

Lemma get_range_app3 {A} (l1 l2 l3 : list A) a b :
  a = len l1 -> b = len l1 + len l2 ->
  get_range (l1 ++ l2 ++ l3) a b = Some l2.
Proof.
  intros -> ->.
  pose proof (len_nonneg l1). pose proof (len_nonneg l2). pose proof (len_nonneg l3).
  rewrite get_range_Some by (autorewrite with len; lia).
  f_equal. replace (len l1 + len l2 - len l1) with (len l2) by lia.
  unfold len. rewrite !Nat2Z.id, drop_app_length. by rewrite take_app_length.
Qed.

Lemma get_range_app_prefix {A} (l1 l2 : list A) b :
  b = len l1 -> get_range (l1 ++ l2) 0 b = Some l1.
Proof. intros ->. by apply (get_range_app3 [] l1 l2). Qed.

Lemma get_range_app_suffix {A} (l1 l2 : list A) a b :
  a = len l1 -> b = len l1 + len l2 -> get_range (l1 ++ l2) a b = Some l2.
Proof. intros. rewrite <- (app_nil_r l2) at 1. by apply get_range_app3. Qed.

Lemma get_range_full {A} (l : list A) b : b = len l -> get_range l 0 b = Some l.
Proof. intros. rewrite <- (app_nil_r l) at 1. by apply get_range_app_prefix. Qed.

(** A range read inside the left or the right half of a concatenation. *)
Lemma get_range_app_l {A} (l k : list A) a b :
  b <= len l -> get_range (l ++ k) a b = get_range l a b.
Proof.
  intros Hb. unfold get_range. rewrite len_app. pose proof (len_nonneg k).
  destruct (Z.leb_spec 0 a), (Z.leb_spec a b); simpl; try done.
  rewrite (proj2 (Z.leb_le b (len l))), (proj2 (Z.leb_le b (len l + len k))) by lia.
  f_equal. unfold len in *. rewrite drop_app_le by lia.
  rewrite take_app_le; [done|]. rewrite length_drop. lia.
Qed.

Lemma get_range_app_r {A} (l k : list A) a b :
  len l <= a -> get_range (l ++ k) a b = get_range k (a - len l) (b - len l).
Proof.
  intros Ha. unfold get_range. rewrite len_app. pose proof (len_nonneg l).
  destruct (Z.leb_spec 0 a); [|lia].
  rewrite (proj2 (Z.leb_le 0 (a - len l))) by lia. simpl.
  destruct (Z.leb_spec a b), (Z.leb_spec (a - len l) (b - len l)); try lia; simpl; [|done].
  destruct (Z.leb_spec b (len l + len k)), (Z.leb_spec (b - len l) (len k)); try lia; [|done].
  f_equal. replace (b - len l - (a - len l)) with (b - a) by lia. f_equal.
  unfold len in *. rewrite drop_app_ge by lia. f_equal. lia.
Qed.

Lemma bytes_ok_app l k : bytes_ok (l ++ k) <-> bytes_ok l /\ bytes_ok k.
Proof. apply Forall_app. Qed.

Lemma bytes_ok_zeros n : bytes_ok (zeros n).
Proof. apply Forall_replicate. sat. lia. Qed.

Lemma bytes_ok_get_range l a b k : bytes_ok l -> get_range l a b = Some k -> bytes_ok k.
Proof.
  intros H (_ & _ & _ & ->)%get_range_inv. by apply Forall_take, Forall_drop.
Qed.

(** A boolean test of [bytes_ok], for concrete buffers. *)
Definition bytes_okb (l : list Z) : bool := forallb (fun b => (0 <=? b) && (b <? 256)) l.

Lemma bytes_okb_ok l : bytes_okb l = true -> bytes_ok l.
Proof.
  unfold bytes_okb. rewrite forallb_forall. intros H. apply Forall_forall. intros b Hb.
  specialize (H b Hb). sat. lia.
Qed.

(** *** Writing a range, and reading over it *)

Lemma set_range_Some {A} (l : list A) off bs :
  0 <= off -> off + len bs <= len l ->
  set_range l off bs =
  Some (take (Z.to_nat off) l ++ bs ++ drop (Z.to_nat (off + len bs)) l).
Proof.
  intros. unfold set_range.
  by rewrite (proj2 (Z.leb_le 0 off)), (proj2 (Z.leb_le (off + len bs) (len l))) by lia.
Qed.

Lemma set_range_inv {A} (l l' : list A) off bs :
  set_range l off bs = Some l' ->
  0 <= off /\ off + len bs <= len l /\
  l' = take (Z.to_nat off) l ++ bs ++ drop (Z.to_nat (off + len bs)) l.
Proof.
  unfold set_range. destruct (_ && _) eqn:E; [|done]. intros [= <-].
  apply andb_true_iff in E as [?%Z.leb_le ?%Z.leb_le]. done.
Qed.

Lemma set_range_None {A} (l : list A) off bs :
  len l < off + len bs -> set_range l off bs = None.
Proof.
  intros. unfold set_range. rewrite (proj2 (Z.leb_gt (off + len bs) (len l))) by lia.
  by rewrite andb_false_r.
Qed.

Lemma set_range_len {A} (l l' : list A) off bs :
  set_range l off bs = Some l' -> len l' = len l.
Proof.
  intros (? & ? & ->)%set_range_inv. pose proof (len_nonneg bs).
  rewrite !len_app, len_take, len_drop by lia. lia.
Qed.

Lemma get_range_set_eq {A} (l l' : list A) off bs b :
  set_range l off bs = Some l' -> b = off + len bs -> get_range l' off b = Some bs.
Proof.
  intros (? & ? & ->)%set_range_inv ->. pose proof (len_nonneg bs).
  apply get_range_app3; rewrite len_take by lia; lia.
Qed.

Lemma get_range_set_ne {A} (l l' : list A) off bs a b :
  set_range l off bs = Some l' -> b <= off \/ off + len bs <= a ->
  get_range l' a b = get_range l a b.
Proof.
  intros (? & ? & ->)%set_range_inv Hd. pose proof (len_nonneg bs).
  destruct (Z_le_gt_dec a b) as [Hab|Hab]; cycle 1.
  { unfold get_range. rewrite (proj2 (Z.leb_gt a b)) by lia.
    by rewrite !andb_false_r. }
  destruct Hd as [Hd|Hd].
  - rewrite get_range_app_l by (rewrite len_take by lia; lia).
    unfold get_range. rewrite len_take by lia.
    destruct (Z.leb_spec 0 a); simpl; [|done].
    rewrite (proj2 (Z.leb_le a b)), (proj2 (Z.leb_le b off)), (proj2 (Z.leb_le b (len l)))
      by lia. f_equal.
    rewrite skipn_firstn_comm, take_take. f_equal. lia.
  - rewrite !get_range_app_r by (rewrite ?len_take by lia; lia).
    rewrite len_take by lia. unfold get_range. rewrite len_drop by lia.
    destruct (Z.leb_spec 0 a); [|lia].
    rewrite (proj2 (Z.leb_le 0 (a - off - len bs))),
      (proj2 (Z.leb_le (a - off - len bs) (b - off - len bs))), (proj2 (Z.leb_le a b)) by lia.
    destruct (Z.leb_spec (b - off - len bs) (len l - (off + len bs))),
      (Z.leb_spec b (len l)); try lia; [|done].
    f_equal. rewrite drop_drop. f_equal; [lia|]. f_equal. lia.
Qed.

Lemma get_at_range {A} (l : list A) i :
  get_at l i = match get_range l i (i + 1) with Some [x] => Some x | _ => None end.
Proof.
  unfold get_at, get_range.
  destruct (Z.leb_spec 0 i); simpl; [|done].
  rewrite (proj2 (Z.leb_le i (i + 1))) by lia. simpl.
  destruct (Z.ltb_spec i (len l)), (Z.leb_spec (i + 1) (len l)); try lia; [|done].
  replace (Z.to_nat (i + 1 - i)) with 1%nat by lia.
  destruct (lookup_lt_is_Some_2 l (Z.to_nat i)) as [x Hx]; [unfold len in *; lia|].
  rewrite Hx. by rewrite (drop_S _ _ _ Hx).
Qed.

Lemma set_range_bytes_ok l l' off bs :
  set_range l off bs = Some l' -> bytes_ok l -> bytes_ok bs -> bytes_ok l'.
Proof.
  intros (_ & _ & ->)%set_range_inv Hl Hb. unfold bytes_ok.
  by repeat apply Forall_app_2; [apply Forall_take| |apply Forall_drop].
Qed.

(** ** Big-endian integers: [to_be_bytes] and [from_be_bytes] *)

Fixpoint be_encode (n : nat) (z : Z) : list Z :=
  match n with
  | O => []
  | S m => Z.shiftr z (8 * Z.of_nat m) mod 256 :: be_encode m z
  end.

Definition be_decode (l : list Z) : Z := fold_left (fun acc b => acc * 256 + b) l 0.

Definition le_decode (l : list Z) : Z := be_decode (rev l).

Lemma len_be_encode n z : len (be_encode n z) = Z.of_nat n.
Proof. induction n; [done|]. cbn [be_encode]. rewrite len_cons, IHn. lia. Qed.

Lemma length_be_encode n z : length (be_encode n z) = n.
Proof. pose proof (len_be_encode n z). unfold len in *. lia. Qed.

#[export] Hint Rewrite len_be_encode : len.

Lemma be_encode_ok n z : bytes_ok (be_encode n z).
Proof.
  induction n; [constructor|]. cbn [be_encode]. constructor; [|done].
  sat. pose proof (Z.mod_pos_bound (Z.shiftr z (8 * Z.of_nat n)) 256). lia.
Qed.

Lemma be_fold_acc l acc :
  fold_left (fun a b => a * 256 + b) l acc = acc * 256 ^ len l + be_decode l.
Proof.
  revert acc. induction l as [|x l IH]; intros acc; unfold be_decode; simpl.
  { rewrite len_nil. lia. }
  rewrite IH, (IH (0 * 256 + x)), len_cons.
  rewrite (Z.pow_add_r 256 1 (len l)) by (pose proof (len_nonneg l); lia). lia.
Qed.

Lemma be_decode_cons x l : be_decode (x :: l) = x * 256 ^ len l + be_decode l.
Proof. unfold be_decode at 1. simpl. by rewrite be_fold_acc, Z.add_0_l. Qed.

Lemma be_decode_nil : be_decode [] = 0.
Proof. done. Qed.

Lemma be_decode_app l k : be_decode (l ++ k) = be_decode l * 256 ^ len k + be_decode k.
Proof. unfold be_decode. rewrite fold_left_app. by rewrite be_fold_acc. Qed.

Lemma be_decode_bound l : bytes_ok l -> 0 <= be_decode l < 256 ^ len l.
Proof.
  induction 1 as [|x l Hx Hl IH]; [by rewrite be_decode_nil|].
  rewrite be_decode_cons, len_cons.
  rewrite (Z.pow_add_r 256 1 (len l)) by (pose proof (len_nonneg l); lia). sat. nia.
Qed.

Lemma pow_256 n : 256 ^ Z.of_nat n = 2 ^ (8 * Z.of_nat n).
Proof. change 256 with (2 ^ 8). rewrite <- Z.pow_mul_r by lia. done. Qed.

Lemma be_decode_encode n z : be_decode (be_encode n z) = z mod 2 ^ (8 * Z.of_nat n).
Proof.
  induction n as [|n IH]; [by rewrite Z.mod_1_r|].
  cbn [be_encode]. rewrite be_decode_cons, IH, len_be_encode, pow_256.
  rewrite Z.shiftr_div_pow2 by lia.
  replace (8 * Z.of_nat (S n)) with (8 * Z.of_nat n + 8) by lia.
  rewrite Z.pow_add_r by lia. change (2 ^ 8) with 256.
  pose proof (Z.pow_pos_nonneg 2 (8 * Z.of_nat n)).
  rewrite Z.rem_mul_r by lia. lia.
Qed.

Lemma be_roundtrip n z :
  0 <= z < 2 ^ (8 * Z.of_nat n) -> be_decode (be_encode n z) = z.
Proof. intros. rewrite be_decode_encode. by apply Z.mod_small. Qed.

Lemma be_encode_decode l : bytes_ok l -> be_encode (length l) (be_decode l) = l.
Proof.
  induction 1 as [|x l Hx Hl IH]; [done|]. cbn [length be_encode].
  pose proof (be_decode_bound l Hl) as Hb. unfold len in *.
  rewrite pow_256 in Hb. rewrite be_decode_cons. unfold len. rewrite pow_256.
  f_equal.
  - rewrite Z.shiftr_div_pow2, Z.div_add_l by lia.
    rewrite Z.div_small, Z.add_0_r by lia. by apply Z.mod_small.
  - etrans; [|exact IH]. clear Hx Hl Hb IH.
    assert (forall m k d x, (m <= k)%nat ->
      be_encode m (x * 2 ^ (8 * Z.of_nat k) + d) = be_encode m d) as Hgen; cycle 1.
    { intros. by apply Hgen. }
    induction m as [|m IHm]; intros k d y Hmk; [done|]. cbn [be_encode].
    f_equal; [|apply IHm; lia].
    rewrite !Z.shiftr_div_pow2 by lia.
    replace (8 * Z.of_nat k) with (8 * Z.of_nat (k - S m) + 8 + 8 * Z.of_nat m) by lia.
    rewrite !Z.pow_add_r by lia. change (2 ^ 8) with 256.
    rewrite !Z.mul_assoc, Z.div_add_l by lia.
    rewrite Z.add_comm. by rewrite Z.mod_add by lia.
Qed.

(** A big-endian field at a fixed offset of a buffer. *)
Definition read_be (n : nat) (buf : list Z) (off : Z) : option Z :=
  be_decode <$> get_range buf off (off + Z.of_nat n).

Lemma read_be_set_eq n buf buf' off z :
  set_range buf off (be_encode n z) = Some buf' -> 0 <= z < 2 ^ (8 * Z.of_nat n) ->
  read_be n buf' off = Some z.
Proof.
  intros H Hz. unfold read_be.
  erewrite get_range_set_eq by (try done; by rewrite len_be_encode).
  simpl. by rewrite be_roundtrip.
Qed.

Lemma read_be_set_ne n buf buf' off bs o :
  set_range buf off bs = Some buf' -> o + Z.of_nat n <= off \/ off + len bs <= o ->
  read_be n buf' o = read_be n buf o.
Proof. intros. unfold read_be. by erewrite get_range_set_ne. Qed.

Lemma read_be_bound n buf off z :
  bytes_ok buf -> read_be n buf off = Some z -> 0 <= z < 2 ^ (8 * Z.of_nat n).
Proof.
  intros Hok. unfold read_be. intros (k & Hk & ->)%fmap_Some.
  pose proof (bytes_ok_get_range _ _ _ _ Hok Hk) as Hkok.
  apply get_range_inv in Hk as (? & ? & Hl & _).
  pose proof (be_decode_bound k Hkok). rewrite <- pow_256.
  by replace (Z.of_nat n) with (len k) by lia.
Qed.

(** *** A run of big-endian 32-bit fields *)

Definition be32s (fields : list Z) : list Z := concat (map (be_encode 4) fields).

Lemma len_be32s fields : len (be32s fields) = 4 * len fields.
Proof.
  induction fields as [|v fields IH]; [done|]. unfold be32s in *. cbn [map concat].
  rewrite len_app, len_cons, IH, len_be_encode. lia.
Qed.

Lemma be32s_app f1 f2 : be32s (f1 ++ f2) = be32s f1 ++ be32s f2.
Proof. unfold be32s. by rewrite map_app, concat_app. Qed.

Lemma be32s_range fields rest i v a b :
  fields !! i = Some v -> a = 4 * Z.of_nat i -> b = a + 4 ->
  get_range (be32s fields ++ rest) a b = Some (be_encode 4 v).
Proof.
  intros Hi -> ->. rewrite <- (take_drop_middle _ _ _ Hi).
  pose proof (lookup_lt_Some _ _ _ Hi).
  rewrite be32s_app. change (be32s (v :: ?l)) with (be_encode 4 v ++ be32s l).
  rewrite <- !app_assoc. apply get_range_app3; rewrite ?len_be32s, ?len_be_encode; unfold len;
    rewrite length_take; lia.
Qed.

(** ** Bit operations as arithmetic *)

Lemma lor_shiftl_add a b k :
  0 <= k -> 0 <= b < 2 ^ k -> Z.lor (Z.shiftl a k) b = a * 2 ^ k + b.
Proof.
  intros Hk Hb. rewrite <- Z.shiftl_mul_pow2 by lia.
  symmetry. apply Z.add_nocarry_lor. apply Z.bits_inj_0. intros n.
  destruct (Z_lt_le_dec n 0); [by rewrite Z.testbit_neg_r|].
  rewrite Z.land_spec. destruct (Z_lt_le_dec n k).
  - by rewrite Z.shiftl_spec_low by lia.
  - rewrite <- (Z.mod_small b (2 ^ k)) by lia.
    rewrite Z.mod_pow2_bits_high by lia. by rewrite andb_false_r.
Qed.

Lemma land_127 z : Z.land z 127 = z mod 128.
Proof. change 127 with (Z.ones 7). by rewrite Z.land_ones by lia. Qed.

Lemma land_255 z : Z.land z 255 = z mod 256.
Proof. change 255 with (Z.ones 8). by rewrite Z.land_ones by lia. Qed.

Lemma land_u64 z : Z.land z U64_MAX = z mod 18446744073709551616.
Proof. unfold U64_MAX. change 18446744073709551615 with (Z.ones 64). by rewrite Z.land_ones by lia. Qed.

Lemma lor_128 z : 0 <= z < 128 -> Z.lor z 128 = z + 128.
Proof.
  intros. rewrite Z.lor_comm. change 128 with (Z.shiftl 1 7) at 1.
  rewrite lor_shiftl_add by lia. lia.
Qed.

(** Shifting a [u64] left by one group and or-ing the next group in, when
    nothing falls off the top. *)
Lemma shl64_lor r b k :
  0 <= k -> 0 <= r -> 0 <= b < 2 ^ k -> r * 2 ^ k < 18446744073709551616 ->
  Z.lor (shl64 r k) b = r * 2 ^ k + b.
Proof.
  intros. unfold shl64. rewrite land_u64, Z.shiftl_mul_pow2 by lia.
  rewrite Z.mod_small by nia. rewrite <- (lor_shiftl_add r b k) by lia.
  by rewrite Z.shiftl_mul_pow2 by lia.
Qed.

(** The continuation bit of a byte. *)
Lemma land_128_zero b : is_u8 b -> (Z.land b 128 =? 0) = (b <? 128).
Proof.
  sat. intros Hb. assert (b = 128 * (b / 128) + b mod 128) as E by (apply Z.div_mod; lia).
  pose proof (Z.mod_pos_bound b 128 ltac:(lia)).
  assert (b / 128 = 0 \/ b / 128 = 1) as [Hq|Hq] by lia.
  - rewrite (proj2 (Z.ltb_lt b 128)) by lia. apply Z.eqb_eq.
    apply Z.bits_inj_0. intros n. rewrite Z.land_spec.
    destruct (decide (n = 7)) as [->|Hn].
    + rewrite <- (Z.mod_small b (2 ^ 7)) by lia.
      by rewrite Z.mod_pow2_bits_high by lia.
    + change 128 with (2 ^ 7). rewrite Z.pow2_bits_false by lia. apply andb_false_r.
  - rewrite (proj2 (Z.ltb_ge b 128)) by lia. apply Z.eqb_neq. intros H0.
    apply (f_equal (fun z => Z.testbit z 7)) in H0. revert H0.
    rewrite Z.land_spec, Z.bits_0. change 128 with (2 ^ 7) at 1.
    rewrite Z.pow2_bits_true by lia. rewrite andb_true_r. intros H7.
    assert (Z.testbit b 7 = true) as H7'; [|congruence].
    apply Z.testbit_true; [lia|]. change (2 ^ 7) with 128. by rewrite Hq.
Qed.
