(* ===== verification/Varint.v ===== *)
(** * Varints ([src/record/varint.rs], [src/record/encode.rs])

    The variable-length integers of the SQLite file format: decoder,
    encoder and encoded size, with the round trip, the minimality of the
    encoding and the behaviour on truncated input. *)

From stdpp Require Import prelude list numbers.
From Stdlib Require Import ZArith Lia.
From S2P Require Import Prelude.

Local Open Scope Z_scope.

(** [RecordError] of [src/record/error.rs]. *)
Inductive RecordError : Type :=
| UnexpectedEof (offset : Z)
| HeaderTooShort (declared varint_len : Z)
| HeaderOverrun (offset header_len : Z)
| TrailingData (trailing : Z)
| InvalidUtf8
| InvalidUtf16.

#[global] Instance RecordError_eq_dec : EqDecision RecordError.
Proof. solve_decision. Defined.

(** ** Decoding *)

(** The loop [for i in 0..8] of [decode_varint] with [n] iterations left,
    and the ninth byte after it. *)
Fixpoint decode_varint_loop (n : nat) (buf : list Z) (i res : Z)
  : result RecordError (Z * Z) :=
  match n with
  | O =>
    byte ← ok_or (get_at buf 8) (UnexpectedEof 8);
    Ok (Z.lor (shl64 res 8) byte, 9)
  | S n' =>
    byte ← ok_or (get_at buf i) (UnexpectedEof i);
    let res' := Z.lor (shl64 res 7) (Z.land byte 127) in
    if Z.land byte 128 =? 0 then Ok (res', i + 1)
    else decode_varint_loop n' buf (i + 1) res'
  end.

Definition decode_varint (buf : list Z) : result RecordError (Z * Z) :=
  decode_varint_loop 8 buf 0 0.

(** ** Encoding *)

(** [while groups < 8 && value >= (1 << (7 * groups)) { groups += 1 }];
    [fuel] bounds the iterations, and 8 is enough since [groups] stops at 8. *)
Fixpoint varint_groups (fuel : nat) (groups value : Z) : Z :=
  match fuel with
  | O => groups
  | S fuel' =>
    if (groups <? 8) && (2 ^ (7 * groups) <=? value)
    then varint_groups fuel' (groups + 1) value else groups
  end.

(** The bytes of the short form: [groups] seven-bit groups, the most
    significant first, the continuation bit on all but the last. *)
Fixpoint short_groups (groups : nat) (value : Z) : list Z :=
  match groups with
  | O => []
  | S g =>
    let byte := Z.land (Z.shiftr value (7 * Z.of_nat g)) 127 in
    (if Nat.eqb g 0 then byte else Z.lor byte 128) :: short_groups g value
  end.

(** The eight leading bytes of the nine-byte form, all with the
    continuation bit. *)
Fixpoint long_groups (n : nat) (top56 : Z) : list Z :=
  match n with
  | O => []
  | S g => Z.lor (Z.land (Z.shiftr top56 (7 * Z.of_nat g)) 127) 128 :: long_groups g top56
  end.

Definition encode_varint (value : Z) : list Z :=
  if value <? 2 ^ 56 then
    short_groups (Z.to_nat (varint_groups 8 1 value)) value
  else
    long_groups 8 (Z.shiftr value 8) ++ [Z.land value 255].

(** [write_varint_into(value, out)]: append to the caller's buffer. *)
Definition write_varint_into (value : Z) (out : list Z) : list Z :=
  out ++ encode_varint value.

Definition varint_len (value : Z) : Z :=
  if value <? 2 ^ 56 then varint_groups 8 1 value else 9.

(** ** The group count *)

Lemma varint_groups_spec fuel g v :
  1 <= g <= 8 -> (8 <= Z.to_nat g + fuel)%nat -> 0 <= v ->
  let r := varint_groups fuel g v in
  g <= r <= 8 /\ (r < 8 -> v < 2 ^ (7 * r)) /\ (g < r -> 2 ^ (7 * (r - 1)) <= v).
Proof.
  revert g. induction fuel as [|fuel IH]; intros g Hg Hf Hv; simpl.
  { split; [lia|]. split; intros; lia. }
  destruct (Z.ltb_spec g 8), (Z.leb_spec (2 ^ (7 * g)) v); simpl;
    try (split; [lia|]; split; intros; lia).
  destruct (IH (g + 1)) as (H1 & H2 & H3); [lia|lia|done|]. simpl in *.
  split; [lia|]. split; [done|]. intros _.
  destruct (Z.eq_dec (varint_groups fuel (g + 1) v) (g + 1)) as [->|]; [|apply H3; lia].
  by replace (g + 1 - 1) with g by lia.
Qed.

Lemma varint_groups_bound v :
  0 <= v < 2 ^ 56 ->
  1 <= varint_groups 8 1 v <= 8 /\ v < 2 ^ (7 * varint_groups 8 1 v) /\
  (1 < varint_groups 8 1 v -> 2 ^ (7 * (varint_groups 8 1 v - 1)) <= v).
Proof.
  intros Hv. destruct (varint_groups_spec 8 1 v) as (H1 & H2 & H3); [lia|lia|lia|].
  cbv zeta in *. split; [done|]. split; [|done].
  destruct (Z.eq_dec (varint_groups 8 1 v) 8) as [E|]; [rewrite E; lia|apply H2; lia].
Qed.

Lemma length_short_groups g v : length (short_groups g v) = g.
Proof. induction g; simpl; congruence. Qed.

Lemma length_long_groups g v : length (long_groups g v) = g.
Proof. induction g; simpl; congruence. Qed.

Lemma short_groups_ok g v : bytes_ok (short_groups g v).
Proof.
  induction g; [constructor|]. cbn [short_groups]. constructor; [|done].
  rewrite land_127. pose proof (Z.mod_pos_bound (Z.shiftr v (7 * Z.of_nat g)) 128).
  destruct (g =? 0)%nat; [sat; lia|]. rewrite lor_128 by lia. sat. lia.
Qed.

Lemma long_groups_ok g v : bytes_ok (long_groups g v).
Proof.
  induction g; [constructor|]. cbn [long_groups]. constructor; [|done].
  rewrite land_127. pose proof (Z.mod_pos_bound (Z.shiftr v (7 * Z.of_nat g)) 128).
  rewrite lor_128 by lia. sat. lia.
Qed.

Lemma encode_varint_ok v : bytes_ok (encode_varint v).
Proof.
  unfold encode_varint. destruct (v <? 2 ^ 56); [apply short_groups_ok|].
  apply Forall_app. split; [apply long_groups_ok|]. constructor; [|constructor].
  rewrite land_255. sat. pose proof (Z.mod_pos_bound v 256). lia.
Qed.

Lemma len_encode_varint v : 0 <= v -> len (encode_varint v) = varint_len v.
Proof.
  intros Hv. unfold encode_varint, varint_len.
  destruct (Z.ltb_spec v (2 ^ 56)).
  - unfold len. rewrite length_short_groups.
    pose proof (varint_groups_bound v ltac:(lia)) as (? & _). lia.
  - unfold len. by rewrite length_app, length_long_groups.
Qed.

Lemma varint_len_bound v : 0 <= v -> 1 <= varint_len v <= 9.
Proof.
  intros Hv. unfold varint_len. destruct (Z.ltb_spec v (2 ^ 56)); [|lia].
  pose proof (varint_groups_bound v ltac:(lia)) as (? & _). lia.
Qed.

Lemma encode_varint_nonempty v : 0 <= v -> 1 <= len (encode_varint v) <= 9.
Proof. intros. rewrite len_encode_varint by done. by apply varint_len_bound. Qed.

(** ** The round trip *)

Lemma get_at_app_r {A} (pre suf : list A) i :
  i = len pre -> get_at (pre ++ suf) i = head suf.
Proof.
  intros ->. rewrite get_at_lookup by apply len_nonneg. unfold len.
  rewrite Nat2Z.id, lookup_app_r, Nat.sub_diag by done. by destruct suf.
Qed.

(** One seven-bit group appended to the bits read so far. *)
Lemma group_step v m :
  0 <= v < 18446744073709551616 -> 0 <= m ->
  Z.lor (shl64 (Z.shiftr v (7 * (m + 1))) 7) (Z.shiftr v (7 * m) mod 128) =
  Z.shiftr v (7 * m).
Proof.
  intros Hv Hm. rewrite !Z.shiftr_div_pow2 by lia.
  replace (7 * (m + 1)) with (7 * m + 7) by lia. rewrite Z.pow_add_r by lia.
  pose proof (Z.pow_pos_nonneg 2 (7 * m)).
  rewrite <- Z.div_div by lia. change (2 ^ 7) with 128.
  set (q := v / 2 ^ (7 * m)).
  assert (0 <= q <= v) by (unfold q; split; [apply Z.div_pos|apply Z.div_le_upper_bound]; nia).
  pose proof (Z.mod_pos_bound q 128). pose proof (Z.div_mod q 128).
  pose proof (Z.div_pos q 128).
  rewrite shl64_lor; change (2 ^ 7) with 128; lia.
Qed.

Lemma decode_short_groups g n pre rest v :
  (g <= n)%nat -> (1 <= g)%nat -> 0 <= v < 18446744073709551616 ->
  len pre + Z.of_nat n = 8 ->
  decode_varint_loop n (pre ++ short_groups g v ++ rest) (len pre)
    (Z.shiftr v (7 * Z.of_nat g)) = Ok (v, len pre + Z.of_nat g).
Proof.
  revert n pre. induction g as [|g IH]; intros n pre Hgn Hg Hv Hn; [lia|].
  destruct n as [|n]; [lia|]. cbn [decode_varint_loop].
  rewrite get_at_app_r by done. cbn [short_groups app head ok_or mbind result_bind].
  pose proof (group_step v (Z.of_nat g) Hv ltac:(lia)) as Hs.
  replace (Z.of_nat g + 1) with (Z.of_nat (S g)) in Hs by lia.
  set (bits := Z.shiftr v (7 * Z.of_nat g)) in *.
  pose proof (Z.mod_pos_bound bits 128 ltac:(lia)).
  rewrite land_127. destruct g as [|g].
  - cbn [Nat.eqb]. rewrite land_127, Z.mod_mod, Hs by lia.
    rewrite land_128_zero by (sat; lia). rewrite (proj2 (Z.ltb_lt _ _)) by lia.
    unfold bits. rewrite Z.shiftr_0_r. done.
  - change (Nat.eqb (S g) 0) with false. cbn match.
    rewrite lor_128 by lia. rewrite land_128_zero by (sat; lia).
    rewrite (proj2 (Z.ltb_ge _ _)) by lia.
    rewrite land_127. replace ((bits mod 128 + 128) mod 128) with (bits mod 128) by
      (rewrite <- (Z.mul_1_l 128) at 3; rewrite Z.mod_add, Z.mod_mod; lia).
    rewrite Hs.
    replace (pre ++ (bits mod 128 + 128) :: short_groups (S g) v ++ rest)
      with ((pre ++ [bits mod 128 + 128]) ++ short_groups (S g) v ++ rest)
      by (by rewrite <- app_assoc).
    replace (len pre + 1) with (len (pre ++ [bits mod 128 + 128]))
      by (autorewrite with len; lia).
    rewrite IH; [|lia|lia|done|autorewrite with len; lia].
    f_equal. f_equal. autorewrite with len. lia.
Qed.

Lemma decode_long_groups g n pre v b rest :
  (g = n)%nat -> 0 <= v < 72057594037927936 -> len pre + Z.of_nat n = 8 -> is_u8 b ->
  decode_varint_loop n (pre ++ long_groups g v ++ b :: rest) (len pre)
    (Z.shiftr v (7 * Z.of_nat g)) = Ok (v * 256 + b, 9).
Proof.
  revert n pre. induction g as [|g IH]; intros n pre <- Hv Hn Hb.
  - cbn [decode_varint_loop]. change (long_groups 0 v ++ b :: rest) with (b :: rest).
    rewrite get_at_app_r by lia. cbn [head ok_or mbind result_bind].
    rewrite Z.shiftr_0_r. sat.
    by rewrite shl64_lor by (change (2 ^ 8) with 256; lia).
  - cbn [decode_varint_loop].
    rewrite get_at_app_r by done. cbn [long_groups app head ok_or mbind result_bind].
    pose proof (group_step v (Z.of_nat g) ltac:(lia) ltac:(lia)) as Hs.
    replace (Z.of_nat g + 1) with (Z.of_nat (S g)) in Hs by lia.
    set (bits := Z.shiftr v (7 * Z.of_nat g)) in *.
    pose proof (Z.mod_pos_bound bits 128 ltac:(lia)).
    rewrite !land_127, lor_128 by lia. rewrite land_128_zero by (sat; lia).
    rewrite (proj2 (Z.ltb_ge _ _)) by lia.
    replace ((bits mod 128 + 128) mod 128) with (bits mod 128) by
      (rewrite <- (Z.mul_1_l 128) at 3; rewrite Z.mod_add, Z.mod_mod; lia).
    rewrite Hs.
    replace (pre ++ (bits mod 128 + 128) :: long_groups g v ++ b :: rest)
      with ((pre ++ [bits mod 128 + 128]) ++ long_groups g v ++ b :: rest)
      by (by rewrite <- app_assoc).
    replace (len pre + 1) with (len (pre ++ [bits mod 128 + 128]))
      by (autorewrite with len; lia).
    apply IH; [done|done|autorewrite with len; lia|done].
Qed.

Lemma decode_encode_varint v rest :
  is_u64 v -> decode_varint (encode_varint v ++ rest) = Ok (v, varint_len v).
Proof.
  sat. intros Hv. unfold decode_varint, encode_varint, varint_len.
  destruct (Z.ltb_spec v (2 ^ 56)) as [Hlt|Hge].
  - pose proof (varint_groups_bound v ltac:(lia)) as (H1 & H2 & H3).
    set (g := varint_groups 8 1 v) in *.
    pose proof (decode_short_groups (Z.to_nat g) 8 [] rest v) as H.
    rewrite Z2Nat.id in H by lia.
    assert (Z.shiftr v (7 * g) = 0) as Hz.
    { rewrite Z.shiftr_div_pow2 by lia. apply Z.div_small. lia. }
    rewrite Hz in H. apply H; [lia|lia|lia|done].
  - rewrite <- app_assoc. rewrite land_255.
    rewrite Z.shiftr_div_pow2 by lia. change (2 ^ 8) with 256.
    assert (0 <= v / 256 < 72057594037927936) as Hq
      by (split; [apply Z.div_pos|apply Z.div_lt_upper_bound]; lia).
    pose proof (decode_long_groups 8 8 [] (v / 256) (v mod 256) rest eq_refl Hq eq_refl) as H.
    assert (Z.shiftr (v / 256) (7 * Z.of_nat 8) = 0) as Hz.
    { rewrite Z.shiftr_div_pow2 by lia. apply Z.div_small. lia. }
    rewrite Hz in H. etrans; [apply H; sat; apply Z.mod_pos_bound; lia|].
    f_equal. f_equal. pose proof (Z.div_mod v 256). lia.
Qed.

(** The same on a buffer that holds the encoding at an offset. *)
Lemma decode_varint_at_offset pre v rest :
  is_u64 v ->
  exists suf, get_from (pre ++ encode_varint v ++ rest) (len pre) = Some suf /\
    decode_varint suf = Ok (v, varint_len v).
Proof.
  intros. exists (encode_varint v ++ rest).
  split; [apply get_from_app|by apply decode_encode_varint].
Qed.

(** ** Totality and bounds of the decoder *)

Lemma shl64_range r k : 0 <= shl64 r k < 18446744073709551616.
Proof. unfold shl64. rewrite land_u64. apply Z.mod_pos_bound. lia. Qed.

Lemma lor_range64 a b :
  0 <= a < 18446744073709551616 -> 0 <= b < 18446744073709551616 ->
  0 <= Z.lor a b < 18446744073709551616.
Proof.
  intros Ha Hb. split; [apply Z.lor_nonneg; lia|].
  destruct (decide (Z.lor a b = 0)) as [->|Hne]; [lia|].
  assert (0 <= Z.lor a b) by (apply Z.lor_nonneg; lia).
  apply (Z.log2_lt_cancel (Z.lor a b) (2 ^ 64)).
  rewrite Z.log2_lor, Z.log2_pow2 by lia.
  assert (forall z, 0 <= z < 18446744073709551616 -> Z.log2 z < 64) as Hl.
  { intros z Hz. destruct (decide (z = 0)) as [->|]; [done|].
    apply Z.log2_lt_pow2; lia. }
  apply Z.max_lub_lt; by apply Hl.
Qed.

Lemma decode_varint_loop_spec n buf i res :
  bytes_ok buf -> 0 <= i -> i + Z.of_nat n = 8 ->
  match decode_varint_loop n buf i res with
  | Ok (v, k) => is_u64 v /\ i < k <= 9 /\ k <= len buf
  | Err e => exists j, e = UnexpectedEof j /\ i <= j <= 8 /\ len buf <= j
  end.
Proof.
  intros Hb. revert i res.
  assert (forall i, 0 <= i -> match get_at buf i with
     | Some b => is_u8 b /\ i < len buf | None => len buf <= i end) as Hget.
  { intros i Hi. unfold get_at.
    rewrite (proj2 (Z.leb_le 0 i)) by lia. simpl.
    destruct (Z.ltb_spec i (len buf)); [|lia].
    destruct (lookup_lt_is_Some_2 buf (Z.to_nat i)) as [x Hx]; [unfold len in *; lia|].
    rewrite Hx. split; [|lia]. by eapply Forall_lookup_1. }
  induction n as [|n IH]; intros i res Hi Hn; cbn [decode_varint_loop].
  - pose proof (Hget 8 ltac:(lia)) as H8.
    destruct (get_at buf 8) as [b|]; cbn [ok_or mbind result_bind].
    + sat. split; [|lia]. apply lor_range64; [apply shl64_range|lia].
    + exists 8. split; [done|lia].
  - pose proof (Hget i ltac:(lia)) as H8.
    destruct (get_at buf i) as [b|]; cbn [ok_or mbind result_bind].
    + destruct (_ =? 0).
      * sat. split; [|lia]. apply lor_range64; [apply shl64_range|].
        rewrite land_127. pose proof (Z.mod_pos_bound b 128). lia.
      * specialize (IH (i + 1) (Z.lor (shl64 res 7) (Z.land b 127)) ltac:(lia) ltac:(lia)).
        destruct (decode_varint_loop n _ _ _) as [[v k]|e]; [sat; lia|].
        destruct IH as (j & -> & ? & ?). exists j. split; [done|lia].
    + exists i. split; [done|lia].
Qed.

Lemma decode_varint_spec buf :
  bytes_ok buf ->
  match decode_varint buf with
  | Ok (v, k) => is_u64 v /\ 1 <= k <= 9 /\ k <= len buf
  | Err e => exists j, e = UnexpectedEof j /\ 0 <= j <= 8 /\ len buf <= j
  end.
Proof.
  intros Hb. pose proof (decode_varint_loop_spec 8 buf 0 0 Hb) as H.
  unfold decode_varint. destruct (decode_varint_loop 8 buf 0 0) as [[v k]|e].
  - destruct H as (? & ? & ?); [lia|lia|]. split; [done|lia].
  - by apply H.
Qed.

Lemma decode_varint_loop_small n buf i res v k :
  0 <= i -> i + Z.of_nat n = 8 -> 0 <= res < 2 ^ (7 * i) ->
  decode_varint_loop n buf i res = Ok (v, k) -> i <= 8 ->
  k <= 8 -> 0 <= v < 2 ^ (7 * k).
Proof.
  revert i res. induction n as [|n IH]; intros i res Hi Hn Hres; cbn [decode_varint_loop].
  - intros (b & _ & [= <- <-])%bind_ok. lia.
  - intros (b & _ & H)%bind_ok Hi8 Hk. revert H. cbv zeta.
    assert (0 <= Z.lor (shl64 res 7) (Z.land b 127) < 2 ^ (7 * (i + 1))) as Hnext.
    { rewrite land_127. pose proof (Z.mod_pos_bound b 128 ltac:(lia)).
      assert (2 ^ (7 * i) <= 2 ^ 49) by (apply Z.pow_le_mono_r; lia).
      replace (7 * (i + 1)) with (7 * i + 7) by lia.
      rewrite Z.pow_add_r by lia.
      rewrite shl64_lor; change (2 ^ 7) with 128; lia. }
    destruct (_ =? 0); [intros [= <- <-]; done|].
    intros H. eapply IH; [| |exact Hnext|exact H| |]; lia.
Qed.

(** ** Properties *)

(** Decoding the encoding of any [u64], whatever bytes follow it in the
    buffer, gives back the value and consumes exactly the bytes the encoder
    emitted; so a varint can be read in the middle of a record or a cell. *)
Theorem varint_roundtrip v rest :
  is_u64 v ->
  decode_varint (encode_varint v ++ rest) = Ok (v, len (encode_varint v)).
Proof.
  intros Hv. rewrite len_encode_varint by (sat; lia).
  by apply decode_encode_varint.
Qed.

Example varint_roundtrip_witness :
  decode_varint (encode_varint 72057594037927936 ++ [7]) =
  Ok (72057594037927936, len (encode_varint 72057594037927936)).
Proof. apply varint_roundtrip. sat. lia. Defined.

(** The encoder is minimal and the decoder never reads past its input:
    every buffer that decodes to [v] after [k] bytes has [k] at least the
    length of the encoding of [v] and at most the length of the buffer, and
    when decoding fails it is because the buffer ended before the varint
    did. *)
Theorem varint_minimal_and_bounded buf :
  bytes_ok buf ->
  match decode_varint buf with
  | Ok (v, k) => is_u64 v /\ len (encode_varint v) <= k <= 9 /\ k <= len buf
  | Err e => exists j, e = UnexpectedEof j /\ len buf <= j <= 8
  end.
Proof.
  intros Hb. pose proof (decode_varint_spec buf Hb) as H.
  pose proof (decode_varint_loop_small 8 buf 0 0) as Hs. unfold decode_varint in *.
  destruct (decode_varint_loop 8 buf 0 0) as [[v k]|e].
  - destruct H as (Hv & Hk & Hl). split; [done|]. split; [|done]. split; [|lia].
    rewrite len_encode_varint by (sat; lia). unfold varint_len.
    destruct (Z_le_gt_dec k 8) as [Hk8|Hk8].
    + destruct (Hs v k) as [Hv0 Hvk]; [lia|done|done|done|done|done|].
      assert (2 ^ (7 * k) <= 2 ^ 56) by (apply Z.pow_le_mono_r; lia).
      rewrite (proj2 (Z.ltb_lt v (2 ^ 56))) by lia.
      destruct (varint_groups_bound v ltac:(lia)) as (Hg & _ & Hmin).
      set (g := varint_groups 8 1 v) in *.
      destruct (Z_le_gt_dec g k); [done|].
      assert (2 ^ (7 * k) <= 2 ^ (7 * (g - 1))) by (apply Z.pow_le_mono_r; lia).
      lia.
    + pose proof (varint_len_bound v ltac:(sat; lia)). unfold varint_len in *. lia.
  - destruct H as (j & -> & ? & ?). exists j. split; [done|lia].
Qed.

Example varint_minimal_and_bounded_witness :
  match decode_varint [129; 0; 5] with
  | Ok (v, k) => is_u64 v /\ len (encode_varint v) <= k <= 9 /\ k <= len [129; 0; 5]
  | Err e => exists j, e = UnexpectedEof j /\ len [129; 0; 5] <= j <= 8
  end.
Proof.
  apply varint_minimal_and_bounded. repeat constructor; sat; lia.
Defined.
