(* ===== verification/Text.v ===== *)
(** * Strings of the Rust standard library that the record format uses

    A [str] is a list of Unicode scalar values; [as_bytes], [from_utf8],
    [encode_utf16] and [char::decode_utf16] are the standard UTF-8 and
    UTF-16 codecs, with their round trips. *)

From stdpp Require Import prelude list numbers.
From Stdlib Require Import ZArith Lia.
From Stdlib Require Ascii String.
From S2P Require Import Prelude.

Local Open Scope Z_scope.

(** A [char]: a code point that is not a surrogate. *)
Definition is_char (c : Z) : Prop := 0 <= c < 55296 \/ 57344 <= c < 1114112.
Definition is_charb (c : Z) : bool :=
  ((0 <=? c) && (c <? 55296)) || ((57344 <=? c) && (c <? 1114112)).

Abbreviation str := (list Z).
Definition str_ok (s : str) : Prop := Forall is_char s.

(** A string literal. *)
Export String.StringSyntax.
Definition lit (s : String.string) : str := map (fun a => Z.of_N (Ascii.N_of_ascii a)) (String.list_ascii_of_string s).
Arguments lit _%_string_scope.

(** ** UTF-8 *)

Definition utf8_encode_char (c : Z) : list Z :=
  if c <? 128 then [c]
  else if c <? 2048 then [192 + c / 64; 128 + c mod 64]
  else if c <? 65536 then [224 + c / 4096; 128 + (c / 64) mod 64; 128 + c mod 64]
  else [240 + c / 262144; 128 + (c / 4096) mod 64; 128 + (c / 64) mod 64; 128 + c mod 64].

(** [s.as_bytes()]. *)
Fixpoint as_bytes (s : str) : list Z :=
  match s with [] => [] | c :: s' => utf8_encode_char c ++ as_bytes s' end.

Definition is_cont (b : Z) : bool := (128 <=? b) && (b <? 192).

(** [std::str::from_utf8]: accepts exactly the well-formed sequences (no
    overlong form, no surrogate, nothing above U+10FFFF). *)
Fixpoint from_utf8 (bs : list Z) : option str :=
  match bs with
  | [] => Some []
  | b0 :: r0 =>
    if b0 <? 128 then cons b0 <$> from_utf8 r0
    else if b0 <? 192 then None
    else match r0 with
    | [] => None
    | b1 :: r1 =>
      if negb (is_cont b1) then None
      else if b0 <? 224 then
        let c := (b0 - 192) * 64 + (b1 - 128) in
        if 128 <=? c then cons c <$> from_utf8 r1 else None
      else match r1 with
      | [] => None
      | b2 :: r2 =>
        if negb (is_cont b2) then None
        else if b0 <? 240 then
          let c := (b0 - 224) * 4096 + (b1 - 128) * 64 + (b2 - 128) in
          if (2048 <=? c) && is_charb c then cons c <$> from_utf8 r2 else None
        else match r2 with
        | [] => None
        | b3 :: r3 =>
          if negb (is_cont b3) then None
          else if b0 <? 248 then
            let c := (b0 - 240) * 262144 + (b1 - 128) * 4096 + (b2 - 128) * 64 + (b3 - 128) in
            if (65536 <=? c) && is_charb c then cons c <$> from_utf8 r3 else None
          else None
        end
      end
    end
  end.

(** [String::from_utf8_lossy]: a maximal prefix of a sequence that cannot be
    completed becomes one U+FFFD. *)
Definition in_bytes (lo hi b : Z) : bool := (lo <=? b) && (b <=? hi).
Definition second_ok (b0 b1 : Z) : bool :=
  if b0 =? 224 then in_bytes 160 191 b1 else if b0 =? 237 then in_bytes 128 159 b1
  else if b0 =? 240 then in_bytes 144 191 b1 else if b0 =? 244 then in_bytes 128 143 b1
  else is_cont b1.

Fixpoint from_utf8_lossy (bs : list Z) : str :=
  match bs with
  | [] => []
  | b0 :: r0 =>
    if b0 <? 128 then b0 :: from_utf8_lossy r0
    else if negb (in_bytes 194 244 b0) then 65533 :: from_utf8_lossy r0
    else match r0 with
    | [] => [65533]
    | b1 :: r1 =>
      if negb (second_ok b0 b1) then 65533 :: from_utf8_lossy r0
      else if b0 <? 224 then (b0 - 192) * 64 + (b1 - 128) :: from_utf8_lossy r1
      else match r1 with
      | [] => [65533]
      | b2 :: r2 =>
        if negb (is_cont b2) then 65533 :: from_utf8_lossy r1
        else if b0 <? 240 then (b0 - 224) * 4096 + (b1 - 128) * 64 + (b2 - 128) :: from_utf8_lossy r2
        else match r2 with
        | [] => [65533]
        | b3 :: r3 =>
          if negb (is_cont b3) then 65533 :: from_utf8_lossy r2
          else (b0 - 240) * 262144 + (b1 - 128) * 4096 + (b2 - 128) * 64 + (b3 - 128) :: from_utf8_lossy r3
        end
      end
    end
  end.

(** ** UTF-16 *)

Definition utf16_encode_char (c : Z) : list Z :=
  if c <? 65536 then [c]
  else [55296 + (c - 65536) / 1024; 56320 + (c - 65536) mod 1024].

(** [s.encode_utf16()]. *)
Fixpoint encode_utf16 (s : str) : list Z :=
  match s with [] => [] | c :: s' => utf16_encode_char c ++ encode_utf16 s' end.

(** [char::decode_utf16(units).collect::<Result<String, _>>()]: an unpaired
    surrogate is an error. *)
Fixpoint char_decode_utf16 (us : list Z) : option str :=
  match us with
  | [] => Some []
  | u :: r =>
    if (u <? 55296) || (57344 <=? u) then cons u <$> char_decode_utf16 r
    else if 56320 <=? u then None
    else match r with
    | [] => None
    | u2 :: r2 =>
      if (56320 <=? u2) && (u2 <? 57344)
      then cons ((u - 55296) * 1024 + (u2 - 56320) + 65536) <$> char_decode_utf16 r2
      else None
    end
  end.

(** ** Round trips *)

Ltac zdm a b := pose proof (Z.div_mod a b ltac:(lia)); pose proof (Z.mod_pos_bound a b ltac:(lia)).

Ltac zbool := repeat first
  [ rewrite (proj2 (Z.ltb_lt _ _)) by lia
  | rewrite (proj2 (Z.ltb_ge _ _)) by lia
  | rewrite (proj2 (Z.leb_le _ _)) by lia
  | rewrite (proj2 (Z.leb_gt _ _)) by lia ]; cbn [andb orb negb].

Lemma is_charb_true c : is_char c -> is_charb c = true.
Proof. unfold is_char, is_charb. lia. Qed.

Lemma is_cont_mod z : is_cont (128 + z mod 64) = true.
Proof. zdm z 64. unfold is_cont. lia. Qed.

Lemma from_utf8_char c rest :
  is_char c -> from_utf8 (utf8_encode_char c ++ rest) = cons c <$> from_utf8 rest.
Proof.
  intros Hc. pose proof (is_charb_true c Hc) as Hcb. unfold is_char in Hc. unfold utf8_encode_char.
  zdm c 64. zdm c 4096. zdm c 262144. zdm (c / 64) 64. zdm (c / 4096) 64.
  assert (c / 64 / 64 = c / 4096) by (rewrite Z.div_div; [done|lia|lia]).
  assert (c / 4096 / 64 = c / 262144) by (rewrite Z.div_div; [done|lia|lia]).
  destruct (Z.ltb_spec c 128); [cbn; by zbool|].
  destruct (Z.ltb_spec c 2048); [|destruct (Z.ltb_spec c 65536)];
    cbn [from_utf8 app]; rewrite ?is_cont_mod.
  - zbool. replace ((192 + c / 64 - 192) * 64 + (128 + c mod 64 - 128)) with c by lia.
    by zbool.
  - zbool. replace ((224 + c / 4096 - 224) * 4096 + (128 + (c / 64) mod 64 - 128) * 64 +
      (128 + c mod 64 - 128)) with c by lia. rewrite Hcb. by zbool.
  - zbool. replace ((240 + c / 262144 - 240) * 262144 + (128 + (c / 4096) mod 64 - 128) * 4096 +
      (128 + (c / 64) mod 64 - 128) * 64 + (128 + c mod 64 - 128)) with c by lia.
    rewrite Hcb. by zbool.
Qed.

Lemma from_utf8_as_bytes s : str_ok s -> from_utf8 (as_bytes s) = Some s.
Proof.
  induction 1 as [|c s Hc Hs IH]; [done|]. cbn [as_bytes].
  by rewrite from_utf8_char, IH.
Qed.

Lemma as_bytes_ok s : str_ok s -> bytes_ok (as_bytes s).
Proof.
  induction 1 as [|c s Hc Hs IH]; [constructor|]. cbn [as_bytes].
  apply Forall_app. split; [|done]. unfold is_char in Hc. unfold utf8_encode_char.
  zdm c 64. zdm c 4096. zdm c 262144. zdm (c / 64) 64. zdm (c / 4096) 64.
  destruct (Z.ltb_spec c 128); [|destruct (Z.ltb_spec c 2048);
    [|destruct (Z.ltb_spec c 65536)]]; repeat constructor; sat; lia.
Qed.

Lemma decode_utf16_char c rest :
  is_char c -> char_decode_utf16 (utf16_encode_char c ++ rest) = cons c <$> char_decode_utf16 rest.
Proof.
  intros Hc. unfold is_char in Hc. unfold utf16_encode_char.
  destruct (Z.ltb_spec c 65536).
  - cbn [char_decode_utf16 app].
    assert ((c <? 55296) || (57344 <=? c) = true) as -> by lia. done.
  - zdm (c - 65536) 1024. cbn [char_decode_utf16 app]. zbool.
    by replace ((55296 + (c - 65536) / 1024 - 55296) * 1024 +
      (56320 + (c - 65536) mod 1024 - 56320) + 65536) with c by lia.
Qed.

Lemma decode_encode_utf16 s : str_ok s -> char_decode_utf16 (encode_utf16 s) = Some s.
Proof.
  induction 1 as [|c s Hc Hs IH]; [done|]. cbn [encode_utf16].
  by rewrite decode_utf16_char, IH.
Qed.

Lemma encode_utf16_ok s : str_ok s -> Forall is_u16 (encode_utf16 s).
Proof.
  induction 1 as [|c s Hc Hs IH]; [constructor|]. cbn [encode_utf16].
  apply Forall_app. split; [|done]. unfold is_char in Hc. unfold utf16_encode_char.
  zdm (c - 65536) 1024.
  destruct (Z.ltb_spec c 65536); repeat constructor; sat; lia.
Qed.

(** ** Lossy decoding *)

Lemma in_bytes_true lo hi b : lo <= b <= hi -> in_bytes lo hi b = true.
Proof. unfold in_bytes. lia. Qed.

Lemma lossy_char c rest : is_char c -> from_utf8_lossy (utf8_encode_char c ++ rest) = c :: from_utf8_lossy rest.
Proof.
  intros Hc. unfold is_char in Hc. unfold utf8_encode_char. zdm c 64. zdm c 4096. zdm c 262144. zdm (c / 64) 64. zdm (c / 4096) 64.
  assert (c / 64 / 64 = c / 4096) by (rewrite Z.div_div; [done|lia|lia]).
  assert (c / 4096 / 64 = c / 262144) by (rewrite Z.div_div; [done|lia|lia]).
  destruct (Z.ltb_spec c 128); [cbn; by zbool|].
  destruct (Z.ltb_spec c 2048); [|destruct (Z.ltb_spec c 65536)]; cbn [from_utf8_lossy app]; zbool;
    rewrite (in_bytes_true 194 244) by lia; cbn [negb].
  - assert (second_ok (192 + c / 64) (128 + c mod 64) = true) as -> by (unfold second_ok; rewrite is_cont_mod; repeat (case_match; [lia|]); done).
    cbn [negb]. f_equal. lia.
  - assert (second_ok (224 + c / 4096) (128 + (c / 64) mod 64) = true) as ->.
    { unfold second_ok, in_bytes. rewrite is_cont_mod. repeat (case_match; [lia|]). done. }
    rewrite is_cont_mod. cbn [negb]. f_equal. lia.
  - assert (second_ok (240 + c / 262144) (128 + (c / 4096) mod 64) = true) as ->.
    { unfold second_ok, in_bytes. rewrite is_cont_mod. repeat (case_match; [lia|]). done. }
    rewrite !is_cont_mod. cbn [negb]. f_equal. lia.
Qed.

Lemma lossy_as_bytes s : str_ok s -> from_utf8_lossy (as_bytes s) = s.
Proof. induction 1 as [|c s Hc Hs IH]; [done|]. cbn [as_bytes]. by rewrite lossy_char, IH. Qed.

(** Whatever the bytes, the result is text. *)
Lemma lossy_ok bs : bytes_ok bs -> str_ok (from_utf8_lossy bs).
Proof.
  assert (is_char 65533) as Hr by (unfold is_char; lia).
  remember (length bs) as n eqn:En. assert (length bs <= n)%nat as Hn by lia. clear En. revert bs Hn.
  induction n as [|n IH]; intros [|b0 r0] Hn Hb; cbn [length] in Hn; [constructor|lia|constructor|]. cbn [from_utf8_lossy].
  apply Forall_cons_1 in Hb as [Hb0 Hb]. assert (str_ok (from_utf8_lossy r0)) as K0 by (apply IH; [lia|done]). unfold is_u8 in Hb0.
  destruct (Z.ltb_spec b0 128); [constructor; [unfold is_char; lia|done]|].
  destruct (in_bytes 194 244 b0) eqn:E0; cbn [negb]; [|by constructor]. unfold in_bytes in E0.
  destruct r0 as [|b1 r1]; [by repeat constructor|]. apply Forall_cons_1 in Hb as [Hb1 Hb]. cbn [length] in Hn.
  destruct (second_ok b0 b1) eqn:E1; cbn [negb]; [|by constructor]. unfold second_ok, in_bytes, is_cont in E1.
  assert (str_ok (from_utf8_lossy r1)) as K1 by (apply IH; [lia|done]).
  destruct (Z.ltb_spec b0 224); [constructor; [unfold is_char; repeat case_match; lia|done]|].
  destruct r1 as [|b2 r2]; [by repeat constructor|]. apply Forall_cons_1 in Hb as [Hb2 Hb]. cbn [length] in Hn.
  destruct (is_cont b2) eqn:E2; cbn [negb]; [|by constructor]. unfold is_cont in E2.
  assert (str_ok (from_utf8_lossy r2)) as K2 by (apply IH; [lia|done]).
  destruct (Z.ltb_spec b0 240); [constructor; [unfold is_char; repeat case_match; lia|done]|].
  destruct r2 as [|b3 r3]; [by repeat constructor|]. apply Forall_cons_1 in Hb as [Hb3 Hb]. cbn [length] in Hn.
  destruct (is_cont b3) eqn:E3; cbn [negb]; [|by constructor]. unfold is_cont in E3.
  constructor; [unfold is_char; repeat case_match; lia|]. apply IH; [lia|done].
Qed.
