(* ===== verification/Record.v ===== *)
(** * The record format ([src/record/])

    Column values, the encoder ([encode.rs]) and the decoders ([decode.rs]):
    whole record, single column, column prefix and column selection. *)

From stdpp Require Import prelude list numbers.
From Stdlib Require Import ZArith Lia.
From S2P Require Import Prelude Varint Text.

Local Open Scope Z_scope.

(** ** Values ([value.rs])

    An [f64] is its 64-bit pattern; a [str] is its list of [char]s. *)

Inductive Value : Type :=
| Null
| Integer (i : Z)
| Real (bits : Z)
| VText (s : str)
| Blob (b : list Z).

Inductive TextEncoding : Type := Utf8 | Utf16Le | Utf16Be.

#[global] Instance Value_eq_dec : EqDecision Value.
Proof. solve_decision. Defined.
#[global] Instance TextEncoding_eq_dec : EqDecision TextEncoding.
Proof. solve_decision. Defined.

(** [f64::is_nan] on the bit pattern: exponent all ones, mantissa non-zero. *)
Definition f64_is_nan (bits : Z) : bool :=
  9218868437227405312 <? Z.land bits 9223372036854775807.

(** The values the type system admits. *)
Definition value_ok (v : Value) : Prop :=
  match v with
  | Null => True
  | Integer i => is_i64 i
  | Real b => is_u64 b
  | VText s => str_ok s
  | Blob b => bytes_ok b
  end.

(** ** Encoding ([encode.rs]) *)

Definition I24_MIN : Z := -8388608.
Definition I24_MAX : Z := 8388607.
Definition I48_MIN : Z := -140737488355328.
Definition I48_MAX : Z := 140737488355327.

Definition in_range (lo hi i : Z) : bool := (lo <=? i) && (i <=? hi).

Definition integer_serial_type (i : Z) : Z :=
  if i =? 0 then 8
  else if i =? 1 then 9
  else if in_range (-128) 127 i then 1
  else if in_range (-32768) 32767 i then 2
  else if in_range I24_MIN I24_MAX i then 3
  else if in_range (-2147483648) 2147483647 i then 4
  else if in_range I48_MIN I48_MAX i then 5
  else 6.

Definition integer_body_len (serial_type : Z) : Z :=
  match serial_type with
  | 1 => 1 | 2 => 2 | 3 => 3 | 4 => 4 | 5 => 5 | 6 => 8 | _ => 0
  end.

Definition write_integer_body_into (i serial_type : Z) (out : list Z) : list Z :=
  match serial_type with
  | 1 => out ++ be_encode 1 i
  | 2 => out ++ be_encode 2 i
  | 3 => out ++ drop 5 (be_encode 8 i)
  | 4 => out ++ be_encode 4 i
  | 5 => out ++ drop 2 (be_encode 8 i)
  | 6 => out ++ be_encode 8 i
  | _ => out
  end.

Definition encoded_text_len (s : str) (encoding : TextEncoding) : Z :=
  match encoding with
  | Utf8 => len (as_bytes s)
  | Utf16Le | Utf16Be => sat_mul (len (encode_utf16 s)) 2
  end.

Definition write_text_body_into (s : str) (encoding : TextEncoding) (out : list Z) : list Z :=
  match encoding with
  | Utf8 => out ++ as_bytes s
  | Utf16Le => out ++ mjoin ((fun u => rev (be_encode 2 u)) <$> encode_utf16 s)
  | Utf16Be => out ++ mjoin (be_encode 2 <$> encode_utf16 s)
  end.

Definition blob_serial_type (n : Z) : Z := sat_add 12 (sat_mul 2 n).
Definition text_serial_type (n : Z) : Z := sat_add 13 (sat_mul 2 n).

Definition serial_type_and_body_len (v : Value) (encoding : TextEncoding) : Z * Z :=
  match v with
  | Null => (0, 0)
  | Integer i => let st := integer_serial_type i in (st, integer_body_len st)
  | Real _ => (7, 8)
  | Blob b => (blob_serial_type (len b), len b)
  | VText s => let n := encoded_text_len s encoding in (text_serial_type n, n)
  end.

Definition write_body_into (v : Value) (serial_type : Z) (encoding : TextEncoding)
    (out : list Z) : list Z :=
  match v with
  | Null => out
  | Integer i => write_integer_body_into i serial_type out
  | Real r => out ++ be_encode 8 r
  | Blob b => out ++ b
  | VText s => write_text_body_into s encoding out
  end.

(** [while varint_len(header_len) + header_body_len != header_len
    { header_len += 1 }]; nine steps are enough (see [header_len_loop_spec]). *)
Fixpoint header_len_loop (fuel : nat) (header_body_len header_len : Z) : Z :=
  match fuel with
  | O => header_len
  | S f =>
    if sat_add (varint_len header_len) header_body_len =? header_len then header_len
    else header_len_loop f header_body_len (sat_add header_len 1)
  end.

(** [encode_record_into(values, encoding, out, serial_types)]: both buffers
    are cleared first, so their previous contents do not matter. *)
Definition encode_record_into (values : list Value) (encoding : TextEncoding)
    (out : list Z) (serial_types : list (Z * Z)) : list Z * list (Z * Z) :=
  let serial_types := (fun v => serial_type_and_body_len v encoding) <$> values in
  let header_body_len :=
    fold_left (fun acc p => sat_add acc (varint_len (fst p))) serial_types 0 in
  let header_len := header_len_loop 9 header_body_len (sat_add header_body_len 1) in
  let out := write_varint_into header_len [] in
  let out := fold_left (fun o p => write_varint_into (fst p) o) serial_types out in
  let out := fold_left (fun o q => write_body_into (fst q) (fst (snd q)) encoding o)
               (zip values serial_types) out in
  (out, serial_types).

Definition encode_record (values : list Value) (encoding : TextEncoding) : list Z :=
  fst (encode_record_into values encoding [] []).

(** ** Decoding ([decode.rs]) *)

Definition serial_type_len (serial_type : Z) : Z :=
  match serial_type with
  | 0 | 8 | 9 | 10 | 11 => 0
  | 1 => 1 | 2 => 2 | 3 => 3 | 4 => 4 | 5 => 6 | 6 | 7 => 8
  | n => if n mod 2 =? 0 then (n - 12) mod 18446744073709551616 / 2
         else (n - 13) mod 18446744073709551616 / 2
  end.

Definition decode_varint_at (buf : list Z) (pos : Z) : result RecordError (Z * Z) :=
  slice ← ok_or (get_from buf pos) (UnexpectedEof pos);
  map_err (fun e => match e with
                    | UnexpectedEof offset => UnexpectedEof (sat_add pos offset)
                    | other => other
                    end) (decode_varint slice).

(** [take] of [decode.rs] (named [take_bytes]: [take] is the list prefix). *)
Definition take_bytes (buf : list Z) (pos n : Z) : result RecordError (list Z) :=
  e ← ok_or (checked_add pos n) (UnexpectedEof pos);
  ok_or (get_range buf pos e) (UnexpectedEof pos).

Definition take_array (n : Z) (buf : list Z) (pos : Z) : result RecordError (list Z) :=
  b ← take_bytes buf pos n;
  if len b =? n then Ok b else Err (UnexpectedEof pos).

(** Pairs of bytes as UTF-16 units ([as_chunks::<2>]). *)
Fixpoint chunks2 (unit_from_bytes : list Z -> Z) (bs : list Z) : list Z :=
  match bs with
  | a :: b :: r => unit_from_bytes [a; b] :: chunks2 unit_from_bytes r
  | _ => []
  end.

Definition decode_utf16 (bytes : list Z) (unit_from_bytes : list Z -> Z)
  : result RecordError str :=
  if negb (len bytes mod 2 =? 0) then Err InvalidUtf16
  else ok_or (char_decode_utf16 (chunks2 unit_from_bytes bytes)) InvalidUtf16.

Definition decode_text (bytes : list Z) (encoding : TextEncoding) : result RecordError str :=
  match encoding with
  | Utf8 => ok_or (from_utf8 bytes) InvalidUtf8
  | Utf16Le => decode_utf16 bytes le_decode
  | Utf16Be => decode_utf16 bytes be_decode
  end.

Definition decode_serial_value (serial_type : Z) (buf : list Z) (pos : Z)
    (encoding : TextEncoding) : result RecordError (Value * Z) :=
  match serial_type with
  | 0 => Ok (Null, 0)
  | 1 => b ← take_array 1 buf pos; Ok (Integer (to_signed 8 (be_decode b)), 1)
  | 2 => b ← take_array 2 buf pos; Ok (Integer (to_signed 16 (be_decode b)), 2)
  | 3 =>
    b ← take_array 3 buf pos;
    let b0 := nth 0 b 0 in
    let v := Z.lor (Z.lor (Z.shiftl b0 16) (Z.shiftl (nth 1 b 0) 8)) (nth 2 b 0) in
    let v := if negb (Z.land b0 128 =? 0) then v - 2 ^ 24 else v in
    Ok (Integer v, 3)
  | 4 => b ← take_array 4 buf pos; Ok (Integer (to_signed 32 (be_decode b)), 4)
  | 5 =>
    b ← take_array 6 buf pos;
    let b0 := nth 0 b 0 in
    let v := fold_left (fun v byte => Z.lor (Z.shiftl v 8) byte) b 0 in
    let v := if negb (Z.land b0 128 =? 0) then v - 2 ^ 48 else v in
    Ok (Integer v, 6)
  | 6 => b ← take_array 8 buf pos; Ok (Integer (to_signed 64 (be_decode b)), 8)
  | 7 =>
    b ← take_array 8 buf pos;
    let value := be_decode b in
    if f64_is_nan value then Ok (Null, 8) else Ok (Real value, 8)
  | 8 => Ok (Integer 0, 0)
  | 9 => Ok (Integer 1, 0)
  | 10 | 11 => Ok (Null, 0)
  | n =>
    if n mod 2 =? 0 then
      let l := (n - 12) mod 18446744073709551616 / 2 in
      bytes ← take_bytes buf pos l; Ok (Blob bytes, l)
    else
      let l := (n - 13) mod 18446744073709551616 / 2 in
      bytes ← take_bytes buf pos l;
      text ← decode_text bytes encoding; Ok (VText text, l)
  end.

(** The header prologue shared by every decoder: the header length and where
    the serial types start. *)
Definition header_bounds (payload : list Z) : result RecordError (Z * Z) :=
  '(header_len, n) ← decode_varint_at payload 0;
  if header_len <? n then Err (HeaderTooShort header_len n) else Ok (header_len, n).

(** One serial type of the header, with the overrun check. *)
Definition header_entry (payload : list Z) (header_len pos : Z) : result RecordError (Z * Z) :=
  '(serial_type, l) ← decode_varint_at payload pos;
  if header_len <? sat_add pos l then Err (HeaderOverrun pos header_len)
  else Ok (serial_type, sat_add pos l).

(** [while pos < header_len] of [decode_record]: the serial types in order.
    [fuel] bounds the iterations; one more than the payload length is enough
    ([serial_types_loop_fuel]), because every iteration consumes a byte. *)
Fixpoint serial_types_loop (fuel : nat) (payload : list Z) (header_len pos : Z)
  : result RecordError (list Z) :=
  match fuel with
  | O => Ok []
  | S f =>
    if pos <? header_len then
      '(serial_type, pos') ← header_entry payload header_len pos;
      rest ← serial_types_loop f payload header_len pos';
      Ok (serial_type :: rest)
    else Ok []
  end.

(** The column bodies, back to back from [body_pos]. *)
Fixpoint decode_bodies (serial_types : list Z) (payload : list Z) (body_pos : Z)
    (encoding : TextEncoding) : result RecordError (list Value * Z) :=
  match serial_types with
  | [] => Ok ([], body_pos)
  | st :: sts =>
    '(value, l) ← decode_serial_value st payload body_pos encoding;
    '(values, e) ← decode_bodies sts payload (sat_add body_pos l) encoding;
    Ok (value :: values, e)
  end.

Definition decode_record (payload : list Z) (encoding : TextEncoding)
  : result RecordError (list Value) :=
  '(header_len, n) ← header_bounds payload;
  serial_types ← serial_types_loop (S (length payload)) payload header_len n;
  '(values, body_pos) ← decode_bodies serial_types payload header_len encoding;
  if body_pos =? len payload then Ok values
  else Err (TrailingData (sat_sub (len payload) body_pos)).

(** The same walk, pairing each serial type with its body offset. *)
Fixpoint parse_header_loop (fuel : nat) (payload : list Z) (header_len pos body_pos : Z)
  : result RecordError (list (Z * Z)) :=
  match fuel with
  | O => Ok []
  | S f =>
    if pos <? header_len then
      '(serial_type, pos') ← header_entry payload header_len pos;
      rest ← parse_header_loop f payload header_len pos'
               (sat_add body_pos (serial_type_len serial_type));
      Ok ((serial_type, body_pos) :: rest)
    else Ok []
  end.

Definition parse_header (payload : list Z) : result RecordError (list (Z * Z)) :=
  '(header_len, n) ← header_bounds payload;
  parse_header_loop (S (length payload)) payload header_len n header_len.

Definition decode_column (payload : list Z) (idx : Z) (encoding : TextEncoding)
  : result RecordError Value :=
  entries ← parse_header payload;
  match get_at entries idx with
  | Some (serial_type, offset) =>
    '(value, _) ← decode_serial_value serial_type payload offset encoding; Ok value
  | None => Ok Null
  end.

Definition record_column_count (payload : list Z) : result RecordError Z :=
  entries ← parse_header payload; Ok (len entries).

Fixpoint decode_entries (entries : list (Z * Z)) (payload : list Z) (encoding : TextEncoding)
  : result RecordError (list Value) :=
  match entries with
  | [] => Ok []
  | (serial_type, offset) :: rest =>
    '(value, _) ← decode_serial_value serial_type payload offset encoding;
    values ← decode_entries rest payload encoding;
    Ok (value :: values)
  end.

Definition decode_record_upto (payload : list Z) (max_columns : Z) (encoding : TextEncoding)
  : result RecordError (list Value) :=
  entries ← parse_header payload;
  let n := Z.min max_columns (len entries) in
  decode_entries (take (Z.to_nat n) entries) payload encoding.

(** [decode_single_column]: stops the walk at column [idx]. *)
Fixpoint single_column_loop (fuel : nat) (payload : list Z) (idx : Z) (encoding : TextEncoding)
    (header_len pos body_pos col : Z) : result RecordError Value :=
  match fuel with
  | O => Ok Null
  | S f =>
    if pos <? header_len then
      '(serial_type, pos') ← header_entry payload header_len pos;
      if col =? idx then
        '(value, _) ← decode_serial_value serial_type payload body_pos encoding; Ok value
      else single_column_loop f payload idx encoding header_len pos'
             (sat_add body_pos (serial_type_len serial_type)) (sat_add col 1)
    else Ok Null
  end.

Definition decode_single_column (payload : list Z) (idx : Z) (encoding : TextEncoding)
  : result RecordError Value :=
  '(header_len, n) ← header_bounds payload;
  single_column_loop (S (length payload)) payload idx encoding header_len n header_len 0.

Fixpoint decode_wanted (wanted : list Z) (entries : list (Z * Z)) (payload : list Z)
    (encoding : TextEncoding) : result RecordError (list Value) :=
  match wanted with
  | [] => Ok []
  | idx :: rest =>
    value ← match get_at entries idx with
            | Some (serial_type, offset) =>
              '(v, _) ← decode_serial_value serial_type payload offset encoding; Ok v
            | None => Ok Null
            end;
    values ← decode_wanted rest entries payload encoding;
    Ok (value :: values)
  end.

Definition decode_record_only (payload : list Z) (wanted : list Z) (encoding : TextEncoding)
  : result RecordError (list Value) :=
  match wanted with
  | [only] => v ← decode_single_column payload only encoding; Ok [v]
  | _ =>
    entries ← parse_header payload;
    decode_wanted wanted entries payload encoding
  end.

(** ** Serial types of 12 and more *)

Lemma serial_type_len_ge12 n :
  12 <= n -> serial_type_len n =
    if n mod 2 =? 0 then (n - 12) mod 18446744073709551616 / 2
    else (n - 13) mod 18446744073709551616 / 2.
Proof.
  intros. destruct n as [|p|p]; try lia.
  do 4 (destruct p as [p|p|]; try lia; try reflexivity).
Qed.

Lemma decode_serial_value_ge12 n buf pos enc :
  12 <= n -> decode_serial_value n buf pos enc =
    if n mod 2 =? 0 then
      bytes ← take_bytes buf pos (serial_type_len n);
      Ok (Blob bytes, serial_type_len n)
    else
      bytes ← take_bytes buf pos (serial_type_len n);
      text ← decode_text bytes enc; Ok (VText text, serial_type_len n).
Proof.
  intros Hn. rewrite serial_type_len_ge12 by done.
  transitivity (if n mod 2 =? 0 then
      bytes ← take_bytes buf pos ((n - 12) mod 18446744073709551616 / 2);
      Ok (Blob bytes, (n - 12) mod 18446744073709551616 / 2)
    else
      bytes ← take_bytes buf pos ((n - 13) mod 18446744073709551616 / 2);
      text ← decode_text bytes enc; Ok (VText text, (n - 13) mod 18446744073709551616 / 2));
    [|by destruct (n mod 2 =? 0)].
  destruct n as [|p|p]; try lia.
  do 4 (destruct p as [p|p|]; try lia; try reflexivity).
Qed.

(** The encoded length a decoder reports is the one the header walk uses. *)
Lemma decode_serial_value_len st buf pos enc v l :
  decode_serial_value st buf pos enc = Ok (v, l) -> l = serial_type_len st.
Proof.
  destruct (Z_lt_le_dec st 0) as [Hneg|Hst].
  { destruct st; try lia. cbn [decode_serial_value serial_type_len].
    destruct (_ =? 0).
    - intros (b & _ & H)%bind_ok. by simplify_eq.
    - intros (b & _ & (t & _ & H)%bind_ok)%bind_ok. by simplify_eq. }
  destruct (Z_lt_le_dec st 12) as [Hlt|Hge].
  - assert (exists k, st = Z.of_nat k /\ (k < 12)%nat) as (k & -> & Hk)
      by (exists (Z.to_nat st); lia).
    do 12 (destruct k as [|k]; [cbn [decode_serial_value serial_type_len Z.of_nat Pos.of_succ_nat Pos.succ];
      first [ intros [= <- <-]; reflexivity
            | intros (b & _ & H)%bind_ok; cbv zeta in H;
              repeat case_match; simplify_eq; reflexivity ]|]). lia.
  - rewrite decode_serial_value_ge12 by done. destruct (st mod 2 =? 0).
    + intros (b & _ & H)%bind_ok. by simplify_eq.
    + intros (b & _ & (t & _ & H)%bind_ok)%bind_ok. by simplify_eq.
Qed.

(** ** Reading back what was written *)

Lemma take_bytes_app pre b rest :
  len pre + len b <= U64_MAX ->
  take_bytes (pre ++ b ++ rest) (len pre) (len b) = Ok b.
Proof.
  intros H. unfold take_bytes, checked_add.
  rewrite (proj2 (Z.leb_le _ _)) by lia. cbn.
  by rewrite get_range_app3.
Qed.

Lemma take_array_app n pre b rest :
  n = len b -> len pre + len b <= U64_MAX ->
  take_array n (pre ++ b ++ rest) (len pre) = Ok b.
Proof.
  intros -> H. unfold take_array. rewrite take_bytes_app by done. cbn.
  by rewrite Z.eqb_refl.
Qed.

Lemma to_signed_mod n i :
  let h := 2 ^ (8 * Z.of_nat (S n) - 1) in
  - h <= i < h -> to_signed (8 * Z.of_nat (S n)) (i mod 2 ^ (8 * Z.of_nat (S n))) = i.
Proof.
  cbv zeta. intros Hi. unfold to_signed. set (w := 8 * Z.of_nat (S n)) in *.
  assert (2 ^ w = 2 * 2 ^ (w - 1)) as Hw.
  { replace w with (1 + (w - 1)) at 1 by lia. rewrite Z.pow_add_r by lia. done. }
  rewrite Z.mod_mod by lia.
  destruct (Z_lt_le_dec i 0).
  - replace (i mod 2 ^ w) with (i + 2 ^ w); cycle 1.
    { symmetry. rewrite <- (Z.mod_small (i + 2 ^ w) (2 ^ w)) by lia.
      rewrite <- (Z.mul_1_l (2 ^ w)) at 2. by rewrite Z.mod_add by lia. }
    destruct (Z.ltb_spec (i + 2 ^ w) (2 ^ (w - 1))); lia.
  - rewrite Z.mod_small by lia. destruct (Z.ltb_spec i (2 ^ (w - 1))); lia.
Qed.

Lemma signed_roundtrip n i :
  let h := 2 ^ (8 * Z.of_nat (S n) - 1) in
  - h <= i < h -> to_signed (8 * Z.of_nat (S n)) (be_decode (be_encode (S n) i)) = i.
Proof. intros h Hi. rewrite be_decode_encode. by apply to_signed_mod. Qed.

(** The two places where [decode.rs] assembles an integer by hand. *)
Lemma shift_or_decode b acc :
  bytes_ok b -> 0 <= acc ->
  fold_left (fun v byte => Z.lor (Z.shiftl v 8) byte) b acc = acc * 256 ^ len b + be_decode b.
Proof.
  intros Hb Hacc. rewrite <- be_fold_acc. revert acc Hacc.
  induction Hb as [|x b Hx Hb IH]; intros acc Hacc; [done|].
  cbn [fold_left]. sat. rewrite lor_shiftl_add by lia. change (2 ^ 8) with 256.
  apply IH. lia.
Qed.

Lemma shift_or_decode3 b0 b1 b2 :
  is_u8 b0 -> is_u8 b1 -> is_u8 b2 ->
  Z.lor (Z.lor (Z.shiftl b0 16) (Z.shiftl b1 8)) b2 = be_decode [b0; b1; b2].
Proof.
  sat. intros. replace (Z.shiftl b0 16) with (Z.shiftl (Z.shiftl b0 8) 8)
    by (by rewrite Z.shiftl_shiftl by lia).
  rewrite <- Z.shiftl_lor, !lor_shiftl_add by lia. unfold be_decode. simpl. lia.
Qed.

(** Sign extension from the top bit of the first byte. *)
Lemma hand_sign_extend m i :
  let w := 8 * Z.of_nat (S m) in
  - 2 ^ (w - 1) <= i < 2 ^ (w - 1) ->
  let b := be_encode (S m) i in
  (if negb (Z.land (nth 0 b 0) 128 =? 0) then be_decode b - 2 ^ w else be_decode b) = i.
Proof.
  intros w Hi b. pose proof (signed_roundtrip m i Hi) as Hs. fold w b in Hs.
  unfold to_signed in Hs. pose proof (be_encode_ok (S m) i) as Hok. fold b in Hok.
  pose proof (be_decode_bound b Hok) as Hb.
  assert (256 ^ len b = 2 ^ w) as Hw.
  { unfold b. rewrite len_be_encode, pow_256. done. }
  rewrite Hw in Hb. rewrite (Z.mod_small (be_decode b)) in Hs by lia.
  rewrite land_128_zero by (unfold b in *; cbn [be_encode nth] in *; by inversion Hok).
  replace (nth 0 b 0 <? 128) with (be_decode b <? 2 ^ (w - 1)).
  { destruct (be_decode b <? 2 ^ (w - 1)); simpl; lia. }
  clear Hs. unfold b in *. cbn [be_encode nth]. cbn [be_encode] in Hok.
  set (x := Z.shiftr i _ mod 256) in *. inversion Hok as [|? ? Hx Hl]; subst.
  rewrite be_decode_cons. pose proof (be_decode_bound _ Hl) as Hd.
  rewrite len_be_encode, pow_256 in *.
  replace (2 ^ (w - 1)) with (128 * 2 ^ (8 * Z.of_nat m)).
  2:{ change 128 with (2 ^ 7). rewrite <- Z.pow_add_r by lia. f_equal. lia. }
  destruct (Z.ltb_spec x 128), (Z.ltb_spec (x * 2 ^ (8 * Z.of_nat m) +
    be_decode (be_encode m i)) (128 * 2 ^ (8 * Z.of_nat m))); try done; nia.
Qed.

(** ** One value *)

(** The body bytes of a value, and the value a reader gets back: the format
    has no NaN, a NaN body reads as NULL. *)
Definition body_of (v : Value) (enc : TextEncoding) : list Z :=
  write_body_into v (fst (serial_type_and_body_len v enc)) enc [].

Definition canon (v : Value) : Value :=
  match v with Real b => if f64_is_nan b then Null else Real b | _ => v end.

Lemma write_body_app v st enc out :
  write_body_into v st enc out = out ++ write_body_into v st enc [].
Proof.
  destruct v; cbn [write_body_into]; rewrite ?app_nil_r; try done.
  - unfold write_integer_body_into. repeat case_match; by rewrite ?app_nil_l, ?app_nil_r.
  - by destruct enc.
Qed.

Lemma in_range_true lo hi i : in_range lo hi i = true <-> lo <= i <= hi.
Proof. unfold in_range. lia. Qed.

(** The serial type the encoder picks for an integer is the narrowest: the
    cases of [integer_serial_type] as arithmetic. *)
Lemma integer_serial_type_cases i (P : Z -> Prop) :
  is_i64 i ->
  (i = 0 -> P 8) -> (i = 1 -> P 9) ->
  (-128 <= i <= 127 -> P 1) -> (-32768 <= i <= 32767 -> P 2) ->
  (-8388608 <= i <= 8388607 -> P 3) -> (-2147483648 <= i <= 2147483647 -> P 4) ->
  (-140737488355328 <= i <= 140737488355327 -> P 5) -> P 6 ->
  P (integer_serial_type i).
Proof.
  intros Hi H0 H1 H2 H3 H4 H5 H6 H7. unfold integer_serial_type.
  unfold I24_MIN, I24_MAX, I48_MIN, I48_MAX.
  destruct (Z.eqb_spec i 0); [auto|]. destruct (Z.eqb_spec i 1); [auto|].
  repeat (destruct (in_range _ _ _) eqn:?; [apply in_range_true in Heqb; eauto|]; clear Heqb).
  done.
Qed.

Lemma decode_integer pre i rest enc :
  is_i64 i -> len pre + 8 <= U64_MAX ->
  decode_serial_value (integer_serial_type i)
    (pre ++ write_integer_body_into i (integer_serial_type i) [] ++ rest) (len pre) enc =
  Ok (Integer i, len (write_integer_body_into i (integer_serial_type i) [])).
Proof.
  intros Hi Hpre. apply integer_serial_type_cases; [done|intros; subst; done|intros; subst; done|..];
    intros; cbn [decode_serial_value write_integer_body_into app].
  - rewrite (take_array_app 1) by (rewrite ?len_be_encode; lia).
    cbn [mbind result_bind]. rewrite (signed_roundtrip 0) by (simpl; lia). done.
  - rewrite (take_array_app 2) by (rewrite ?len_be_encode; lia).
    cbn [mbind result_bind]. rewrite (signed_roundtrip 1) by (simpl; lia). done.
  - change (drop 5 (be_encode 8 i)) with (be_encode 3 i).
    rewrite (take_array_app 3) by (rewrite ?len_be_encode; lia).
    cbn [mbind result_bind]. pose proof (hand_sign_extend 2 i ltac:(simpl; lia)) as Hh.
    pose proof (be_encode_ok 3 i) as Hok. cbv zeta in *.
    revert Hh Hok. generalize (len_be_encode 3 i) as Hl.
    set (b := be_encode 3 i). intros Hl Hh Hok.
    destruct b as [|b0 [|b1 [|b2 [|]]]];
      try (exfalso; unfold len in Hl; simpl in Hl; lia).
    apply Forall_cons_iff in Hok as [Hb0 [Hb1 [Hb2 _]%Forall_cons_iff]%Forall_cons_iff].
    cbn [nth] in *. rewrite shift_or_decode3 by done.
    change (8 * Z.of_nat 3) with 24 in Hh. by rewrite Hh.
  - rewrite (take_array_app 4) by (rewrite ?len_be_encode; lia).
    cbn [mbind result_bind]. rewrite (signed_roundtrip 3) by (simpl; lia). done.
  - change (drop 2 (be_encode 8 i)) with (be_encode 6 i).
    rewrite (take_array_app 6) by (rewrite ?len_be_encode; lia).
    cbn [mbind result_bind]. pose proof (hand_sign_extend 5 i ltac:(simpl; lia)) as Hh.
    cbv zeta in *. rewrite shift_or_decode by (done || apply be_encode_ok).
    rewrite Z.mul_0_l, Z.add_0_l. change (8 * Z.of_nat 6) with 48 in Hh. by rewrite Hh.
  - rewrite (take_array_app 8) by (rewrite ?len_be_encode; lia).
    cbn [mbind result_bind]. rewrite (signed_roundtrip 7) by (sat; simpl; lia). done.
Qed.

Lemma join_fmap_cons {A} (f : A -> list Z) u us :
  mjoin (f <$> u :: us) = f u ++ mjoin (f <$> us).
Proof. done. Qed.

Lemma chunks2_be us : Forall is_u16 us -> chunks2 be_decode (mjoin (be_encode 2 <$> us)) = us.
Proof.
  induction 1 as [|u us Hu Hus IH]; [done|]. rewrite join_fmap_cons.
  change (be_encode 2 u ++ ?r) with
    (Z.shiftr u 8 mod 256 :: Z.shiftr u 0 mod 256 :: r).
  cbn [chunks2]. rewrite IH. f_equal.
  change [Z.shiftr u 8 mod 256; Z.shiftr u 0 mod 256] with (be_encode 2 u).
  apply be_roundtrip. sat. simpl. lia.
Qed.

Lemma chunks2_le us :
  Forall is_u16 us -> chunks2 le_decode (mjoin ((fun u => rev (be_encode 2 u)) <$> us)) = us.
Proof.
  induction 1 as [|u us Hu Hus IH]; [done|]. rewrite join_fmap_cons.
  change (rev (be_encode 2 u) ++ ?r) with
    (Z.shiftr u 0 mod 256 :: Z.shiftr u 8 mod 256 :: r).
  cbn [chunks2]. rewrite IH. f_equal. unfold le_decode.
  change (rev [Z.shiftr u 0 mod 256; Z.shiftr u 8 mod 256]) with (be_encode 2 u).
  apply be_roundtrip. sat. simpl. lia.
Qed.

Lemma len_join2 {A} (f : A -> list Z) (us : list A) :
  (forall u, len (f u) = 2) -> len (mjoin (f <$> us)) = 2 * len us.
Proof.
  intros Hf. induction us as [|u us IH]; [done|].
  rewrite join_fmap_cons, len_app, len_cons, Hf. lia.
Qed.

Lemma decode_text_roundtrip s enc :
  str_ok s -> decode_text (write_text_body_into s enc []) enc = Ok s.
Proof.
  intros Hs. pose proof (encode_utf16_ok s Hs) as Hu.
  destruct enc; cbn [decode_text write_text_body_into]; rewrite app_nil_l.
  - by rewrite from_utf8_as_bytes.
  - unfold decode_utf16. rewrite (len_join2 (fun u => rev (be_encode 2 u)))
      by (intros; by rewrite len_rev, len_be_encode).
    rewrite (Z.mul_comm 2), Z.mod_mul by lia. simpl.
    by rewrite chunks2_le, decode_encode_utf16.
  - unfold decode_utf16. rewrite (len_join2 (be_encode 2)) by (intros; by rewrite len_be_encode).
    rewrite (Z.mul_comm 2), Z.mod_mul by lia. simpl.
    by rewrite chunks2_be, decode_encode_utf16.
Qed.

Lemma len_text_body s enc :
  2 * len (write_text_body_into s enc []) <= U64_MAX ->
  encoded_text_len s enc = len (write_text_body_into s enc []).
Proof.
  destruct enc; cbn [encoded_text_len write_text_body_into]; rewrite app_nil_l; [done|..];
    rewrite (len_join2 _) by (intros; rewrite ?len_rev, len_be_encode; done); sat; lia.
Qed.

Lemma var_serial_type c n :
  (c = 12 \/ c = 13) -> 0 <= n -> 13 + 2 * n <= U64_MAX ->
  sat_add c (sat_mul 2 n) = c + 2 * n /\
  ((c + 2 * n) mod 2 =? 0) = (c =? 12) /\ serial_type_len (c + 2 * n) = n.
Proof.
  intros Hc Hn Hmax. split; [sat; lia|].
  assert ((c + 2 * n) mod 2 = c mod 2) as Hm by (rewrite (Z.mul_comm 2), Z.mod_add; lia).
  split; [rewrite Hm; by destruct Hc; subst|].
  rewrite serial_type_len_ge12, Hm by lia. sat.
  destruct Hc; subst; simpl; rewrite Z.mod_small by lia.
  - replace (12 + 2 * n - 12) with (n * 2) by lia. by rewrite Z.div_mul.
  - replace (13 + 2 * n - 13) with (n * 2) by lia. by rewrite Z.div_mul.
Qed.

(** A body that is memory-sized: its serial type does not saturate. *)
Definition body_fits (v : Value) (enc : TextEncoding) : Prop :=
  13 + 2 * len (body_of v enc) <= U64_MAX.

Lemma decode_value pre v rest enc :
  value_ok v -> body_fits v enc -> len pre + len (body_of v enc) + 8 <= U64_MAX ->
  decode_serial_value (fst (serial_type_and_body_len v enc))
    (pre ++ body_of v enc ++ rest) (len pre) enc = Ok (canon v, len (body_of v enc)).
Proof.
  unfold body_fits, body_of. intros Hv Hfit Hlen.
  pose proof (len_nonneg pre). destruct v as [|i|r|s|b];
    cbn [serial_type_and_body_len write_body_into fst value_ok] in *; cbv zeta in *.
  - done.
  - apply decode_integer; [done|].
    pose proof (len_nonneg (write_integer_body_into i (integer_serial_type i) [])). lia.
  - cbn [decode_serial_value]. rewrite app_nil_l in *.
    rewrite len_be_encode in Hlen.
    rewrite (take_array_app 8) by (rewrite ?len_be_encode; sat; lia).
    cbn [mbind result_bind]. rewrite be_roundtrip by (sat; simpl; lia). cbn [canon].
    by destruct (f64_is_nan r).
  - pose proof (len_nonneg (write_text_body_into s enc [])).
    rewrite len_text_body by (sat; lia). unfold text_serial_type.
    destruct (var_serial_type 13 (len (write_text_body_into s enc []))) as (-> & Hm & Hl);
      [lia|done|done|].
    rewrite decode_serial_value_ge12, Hm, Hl by lia. cbn [Z.eqb Pos.eqb].
    rewrite take_bytes_app by lia. cbn [mbind result_bind].
    by rewrite decode_text_roundtrip.
  - rewrite app_nil_l in *. pose proof (len_nonneg b). unfold blob_serial_type.
    destruct (var_serial_type 12 (len b)) as (-> & Hm & Hl); [lia|done|done|].
    rewrite decode_serial_value_ge12, Hm, Hl by lia. cbn [Z.eqb Pos.eqb].
    by rewrite take_bytes_app by lia.
Qed.

Lemma serial_type_u64 v enc : is_u64 (fst (serial_type_and_body_len v enc)).
Proof.
  destruct v as [|i|r|s|b]; cbn [serial_type_and_body_len fst]; cbv zeta; try (sat; lia).
  - unfold integer_serial_type.
    repeat match goal with |- context [if ?b then _ else _] => destruct b end; sat; lia.
  - unfold text_serial_type, sat_mul. sat.
    assert (0 <= encoded_text_len s enc) by
      (destruct enc; cbn [encoded_text_len]; sat; pose proof (len_nonneg (as_bytes s));
       pose proof (len_nonneg (encode_utf16 s)); lia). lia.
  - unfold blob_serial_type. sat. pose proof (len_nonneg b). lia.
Qed.

(** ** The header length *)

Lemma varint_len_mono a b : 0 <= a <= b -> varint_len a <= varint_len b.
Proof.
  intros Hab. unfold varint_len.
  destruct (Z.ltb_spec a (2 ^ 56)), (Z.ltb_spec b (2 ^ 56)); try lia;
    [|destruct (varint_groups_bound a ltac:(lia)) as (? & _); lia].
  destruct (varint_groups_bound a ltac:(lia)) as (Ha & _ & Hmin).
  destruct (varint_groups_bound b ltac:(lia)) as (Hb & Hlt & _).
  destruct (Z_le_gt_dec (varint_groups 8 1 a) (varint_groups 8 1 b)); [done|].
  assert (2 ^ (7 * varint_groups 8 1 b) <= 2 ^ (7 * (varint_groups 8 1 a - 1)))
    by (apply Z.pow_le_mono_r; lia). lia.
Qed.

(** The loop never steps over the fixed point, and reaches it within the
    nine steps the widest varint allows. *)
Lemma header_len_loop_spec fuel hb h :
  0 <= hb -> hb + 18 <= U64_MAX -> hb < h -> h <= hb + varint_len h ->
  hb + 9 - h < Z.of_nat fuel ->
  let r := header_len_loop fuel hb h in r = hb + varint_len r /\ h <= r <= hb + 9.
Proof.
  revert h. induction fuel as [|fuel IH]; intros h Hhb Hmax Hlt Hle Hf.
  { pose proof (varint_len_bound h ltac:(lia)). lia. }
  cbn [header_len_loop]. pose proof (varint_len_bound h ltac:(lia)).
  replace (sat_add (varint_len h) hb) with (hb + varint_len h) by (sat; lia).
  destruct (Z.eqb_spec (hb + varint_len h) h) as [E|E]; [cbv zeta; lia|].
  replace (sat_add h 1) with (h + 1) by (sat; lia).
  pose proof (varint_len_mono h (h + 1) ltac:(lia)).
  destruct (IH (h + 1)) as [H1 H2]; lia.
Qed.

(** ** Layout of an encoded record *)

Definition types_of (values : list Value) (enc : TextEncoding) : list Z :=
  (fun v => fst (serial_type_and_body_len v enc)) <$> values.

Definition header_bytes (types : list Z) : list Z := mjoin (encode_varint <$> types).

Definition bodies_of (values : list Value) (enc : TextEncoding) : list Z :=
  mjoin ((fun v => body_of v enc) <$> values).

Definition total_header_len (types : list Z) : Z :=
  let hb := len (header_bytes types) in header_len_loop 9 hb (sat_add hb 1).

Lemma header_bytes_cons t ts : header_bytes (t :: ts) = encode_varint t ++ header_bytes ts.
Proof. done. Qed.

Lemma bodies_of_cons v vs enc : bodies_of (v :: vs) enc = body_of v enc ++ bodies_of vs enc.
Proof. done. Qed.

Lemma header_body_len_fold sts acc :
  Forall is_u64 (fst <$> sts) -> 0 <= acc ->
  acc + len (header_bytes (fst <$> sts)) <= U64_MAX ->
  fold_left (fun a (p : Z * Z) => sat_add a (varint_len (fst p))) sts acc =
  acc + len (header_bytes (fst <$> sts)).
Proof.
  revert acc. induction sts as [|[t l] sts IH]; intros acc Hu Hacc Hmax.
  { cbn. rewrite len_nil. lia. }
  cbn [fold_left fst]. rewrite fmap_cons, header_bytes_cons, len_app in *.
  apply Forall_cons_iff in Hu as [Ht Hu]. cbn [fst] in *.
  rewrite len_encode_varint in * by (sat; lia).
  pose proof (varint_len_bound t ltac:(sat; lia)).
  pose proof (len_nonneg (header_bytes (fst <$> sts))).
  replace (sat_add acc (varint_len t)) with (acc + varint_len t) by (sat; lia).
  rewrite IH; [lia|done|lia|lia].
Qed.

Lemma write_types_fold (sts : list (Z * Z)) out :
  fold_left (fun o p => write_varint_into (fst p) o) sts out =
  out ++ header_bytes (fst <$> sts).
Proof.
  revert out. induction sts as [|[t l] sts IH]; intros out; [by rewrite app_nil_r|].
  cbn [fold_left]. rewrite IH, fmap_cons, header_bytes_cons.
  unfold write_varint_into. by rewrite <- app_assoc.
Qed.

Lemma write_bodies_fold values enc out :
  fold_left (fun o q => write_body_into (fst q) (fst (snd q)) enc o)
    (zip values ((fun v => serial_type_and_body_len v enc) <$> values)) out =
  out ++ bodies_of values enc.
Proof.
  revert out. induction values as [|v vs IH]; intros out; [by rewrite app_nil_r|].
  rewrite fmap_cons. cbn [zip zip_with fold_left fst snd]. rewrite IH, bodies_of_cons.
  rewrite write_body_app. by rewrite <- app_assoc.
Qed.

Lemma types_of_fst values enc :
  fst <$> ((fun v => serial_type_and_body_len v enc) <$> values) = types_of values enc.
Proof. unfold types_of. by rewrite <- list_fmap_compose. Qed.

Lemma types_of_u64 values enc : Forall is_u64 (types_of values enc).
Proof. apply Forall_fmap, Forall_true. intros v. apply serial_type_u64. Qed.

(** A record that fits in memory: nothing in the encoder saturates. *)
Definition record_fits (values : list Value) (enc : TextEncoding) : Prop :=
  128 + len (header_bytes (types_of values enc)) + 2 * len (bodies_of values enc) <= U64_MAX.

Lemma encode_record_layout values enc :
  record_fits values enc ->
  encode_record values enc =
  encode_varint (total_header_len (types_of values enc)) ++
  header_bytes (types_of values enc) ++ bodies_of values enc.
Proof.
  unfold record_fits. intros Hfit. pose proof (len_nonneg (bodies_of values enc)).
  unfold encode_record, encode_record_into. cbn [fst].
  rewrite write_bodies_fold, write_types_fold, header_body_len_fold;
    rewrite ?types_of_fst; [|apply types_of_u64|lia|lia].
  rewrite Z.add_0_l. unfold write_varint_into. rewrite app_nil_l, <- app_assoc. done.
Qed.

Lemma total_header_len_spec types :
  len (header_bytes types) + 18 <= U64_MAX ->
  let h := total_header_len types in
  h = len (header_bytes types) + varint_len h /\ 0 < h <= len (header_bytes types) + 9.
Proof.
  intros Hmax. pose proof (len_nonneg (header_bytes types)). unfold total_header_len.
  cbv zeta. replace (sat_add (len (header_bytes types)) 1)
    with (len (header_bytes types) + 1) by (sat; lia).
  destruct (header_len_loop_spec 9 (len (header_bytes types)) (len (header_bytes types) + 1))
    as [H1 H2]; [done|done|lia| |lia|lia].
  pose proof (varint_len_bound (len (header_bytes types) + 1) ltac:(lia)). lia.
Qed.

(** ** Decoding the header of an encoded record *)

Lemma decode_varint_at_app pre v rest :
  is_u64 v -> decode_varint_at (pre ++ encode_varint v ++ rest) (len pre) = Ok (v, varint_len v).
Proof.
  intros. unfold decode_varint_at. rewrite get_from_app. cbn [ok_or mbind result_bind].
  by rewrite decode_encode_varint.
Qed.

Lemma header_entry_app pre v rest header_len :
  is_u64 v -> len pre + varint_len v <= header_len -> header_len <= U64_MAX ->
  header_entry (pre ++ encode_varint v ++ rest) header_len (len pre) =
  Ok (v, len pre + varint_len v).
Proof.
  intros Hv Hh Hmax. unfold header_entry. rewrite decode_varint_at_app by done. cbn [mbind result_bind].
  replace (sat_add (len pre) (varint_len v)) with (len pre + varint_len v) by (sat; lia).
  by rewrite (proj2 (Z.ltb_ge _ _)) by lia.
Qed.

Lemma serial_types_loop_app types pre rest fuel :
  Forall is_u64 types -> (length types < fuel)%nat ->
  len pre + len (header_bytes types) <= U64_MAX ->
  serial_types_loop fuel (pre ++ header_bytes types ++ rest)
    (len pre + len (header_bytes types)) (len pre) = Ok types.
Proof.
  intros Hu. revert pre fuel. induction Hu as [|t ts Ht Hts IH]; intros pre fuel Hf Hmax;
    destruct fuel as [|fuel]; simpl in Hf; try lia; cbn [serial_types_loop].
  - rewrite (proj2 (Z.ltb_ge _ _)); [done|]. cbn. rewrite len_nil. lia.
  - rewrite header_bytes_cons, len_app in *.
    rewrite len_encode_varint in * by (sat; lia).
    pose proof (varint_len_bound t ltac:(sat; lia)).
    pose proof (len_nonneg (header_bytes ts)).
    rewrite (proj2 (Z.ltb_lt _ _)) by lia.
    rewrite <- app_assoc. rewrite header_entry_app by (try done; lia).
    cbn [mbind result_bind].
    replace (len pre + varint_len t) with (len (pre ++ encode_varint t))
      by (rewrite len_app, len_encode_varint by (sat; lia); lia).
    rewrite (app_assoc pre).
    replace (len pre + (varint_len t + len (header_bytes ts)))
      with (len (pre ++ encode_varint t) + len (header_bytes ts))
      by (rewrite len_app, len_encode_varint by (sat; lia); lia).
    rewrite IH; [done|lia|].
    rewrite len_app, len_encode_varint by (sat; lia). lia.
Qed.

Lemma length_header_bytes types :
  Forall is_u64 types -> (length types <= length (header_bytes types))%nat.
Proof.
  induction 1 as [|t ts Ht Hts IH]; [done|].
  rewrite header_bytes_cons, length_app. cbn [length].
  pose proof (encode_varint_nonempty t ltac:(sat; lia)) as [H1 _]. unfold len in H1. lia.
Qed.

Lemma decode_bodies_app values enc pre :
  Forall value_ok values ->
  len pre + 2 * len (bodies_of values enc) + 64 <= U64_MAX ->
  decode_bodies (types_of values enc) (pre ++ bodies_of values enc) (len pre) enc =
  Ok (canon <$> values, len pre + len (bodies_of values enc)).
Proof.
  intros Hok. revert pre. induction Hok as [|v vs Hv Hvs IH]; intros pre Hmax.
  { cbn. rewrite len_nil. by rewrite Z.add_0_r. }
  rewrite bodies_of_cons, len_app in *.
  pose proof (len_nonneg (body_of v enc)). pose proof (len_nonneg (bodies_of vs enc)).
  pose proof (len_nonneg pre).
  cbn [types_of fmap list_fmap decode_bodies].
  rewrite decode_value by (try done; unfold body_fits; lia). cbn [mbind result_bind].
  replace (sat_add (len pre) (len (body_of v enc))) with (len (pre ++ body_of v enc))
    by (rewrite len_app; sat; lia).
  rewrite app_assoc. fold (types_of vs enc). rewrite IH by (rewrite len_app; lia).
  cbn [mbind result_bind]. rewrite len_app. by rewrite <- Z.add_assoc.
Qed.

Lemma header_bounds_app h rest :
  is_u64 h -> varint_len h <= h -> header_bounds (encode_varint h ++ rest) = Ok (h, varint_len h).
Proof.
  intros Hh Hle. unfold header_bounds.
  pose proof (decode_varint_at_app [] h rest Hh) as H. cbn [app] in H.
  change (len []) with 0 in H. rewrite H. cbn [mbind result_bind].
  by rewrite (proj2 (Z.ltb_ge _ _)) by lia.
Qed.

(** ** The decoders agree *)

Fixpoint offsets (body_pos : Z) (types : list Z) : list (Z * Z) :=
  match types with
  | [] => []
  | st :: sts => (st, body_pos) :: offsets (sat_add body_pos (serial_type_len st)) sts
  end.

Lemma parse_header_loop_types fuel payload hl pos bp :
  parse_header_loop fuel payload hl pos bp =
  offsets bp <$> serial_types_loop fuel payload hl pos.
Proof.
  revert pos bp. induction fuel as [|fuel IH]; intros pos bp; [done|].
  cbn [parse_header_loop serial_types_loop]. destruct (pos <? hl); [|done].
  destruct (header_entry payload hl pos) as [[st pos']|e]; [|done].
  cbn [mbind result_bind]. rewrite IH.
  by destruct (serial_types_loop fuel payload hl pos').
Qed.

Lemma length_offsets bp types : length (offsets bp types) = length types.
Proof. revert bp. induction types; intros; simpl; auto. Qed.

(** What the header walk finds in a record that decodes. *)
Definition column_at (payload : list Z) (enc : TextEncoding) (e : option (Z * Z))
  : result RecordError Value :=
  match e with
  | Some (st, off) => '(v, _) ← decode_serial_value st payload off enc; Ok v
  | None => Ok Null
  end.

Lemma decode_bodies_column types payload bp enc vs e i :
  decode_bodies types payload bp enc = Ok (vs, e) ->
  column_at payload enc (offsets bp types !! i) = Ok (nth i vs Null).
Proof.
  revert bp vs i. induction types as [|st sts IH]; intros bp vs i; cbn [decode_bodies offsets].
  { intros [= <- <-]. by destruct i. }
  intros ([v l] & Hd & ([vs' e'] & Hb & H)%bind_ok)%bind_ok. simplify_eq.
  pose proof (decode_serial_value_len _ _ _ _ _ _ Hd) as ->.
  destruct i as [|i]; [|exact (IH _ _ i Hb)]. cbn [column_at lookup list_lookup nth].
  by rewrite Hd.
Qed.

Lemma decode_bodies_length types payload bp enc vs e :
  decode_bodies types payload bp enc = Ok (vs, e) -> length vs = length types.
Proof.
  revert bp vs. induction types as [|st sts IH]; intros bp vs; cbn [decode_bodies].
  { by intros [= <- <-]. }
  intros ([v l] & Hd & ([vs' e'] & Hb & H)%bind_ok)%bind_ok. simplify_eq.
  cbn. f_equal. by eapply IH.
Qed.

Lemma decode_bodies_entries types payload bp enc vs e k :
  decode_bodies types payload bp enc = Ok (vs, e) ->
  decode_entries (take k (offsets bp types)) payload enc = Ok (take k vs).
Proof.
  revert bp vs k. induction types as [|st sts IH]; intros bp vs k; cbn [decode_bodies offsets].
  { intros [= <- <-]. by destruct k. }
  intros ([v l] & Hd & ([vs' e'] & Hb & H)%bind_ok)%bind_ok. simplify_eq.
  pose proof (decode_serial_value_len _ _ _ _ _ _ Hd) as ->.
  destruct k as [|k]; [done|]. cbn [take decode_entries]. rewrite Hd.
  cbn [mbind result_bind]. by rewrite (IH _ _ k Hb).
Qed.

(** The header walk of a record that decodes. *)
Lemma decode_record_parts payload enc vs :
  decode_record payload enc = Ok vs ->
  exists hl n types,
    header_bounds payload = Ok (hl, n) /\
    serial_types_loop (S (length payload)) payload hl n = Ok types /\
    decode_bodies types payload hl enc = Ok (vs, len payload).
Proof.
  unfold decode_record.
  intros ([hl n] & Hh & (types & Ht & ([vs' e] & Hb & H)%bind_ok)%bind_ok)%bind_ok.
  destruct (Z.eqb_spec e (len payload)); [|done]. simplify_eq. eauto 10.
Qed.

Lemma parse_header_of_record payload enc vs :
  decode_record payload enc = Ok vs ->
  exists hl types, parse_header payload = Ok (offsets hl types) /\
    decode_bodies types payload hl enc = Ok (vs, len payload).
Proof.
  intros (hl & n & types & Hh & Ht & Hb)%decode_record_parts.
  exists hl, types. split; [|done]. unfold parse_header. rewrite Hh. cbn [mbind result_bind].
  by rewrite parse_header_loop_types, Ht.
Qed.

(** The single-column walk stops early but returns the same column. *)
Lemma single_column_loop_spec fuel payload idx enc hl pos bp col entries :
  parse_header_loop fuel payload hl pos bp = Ok entries ->
  0 <= col <= idx -> col + Z.of_nat fuel <= U64_MAX ->
  single_column_loop fuel payload idx enc hl pos bp col =
  column_at payload enc (entries !! Z.to_nat (idx - col)).
Proof.
  revert pos bp col entries.
  induction fuel as [|fuel IH]; intros pos bp col entries; cbn [parse_header_loop single_column_loop].
  { by intros [= <-]. }
  destruct (pos <? hl); [|by intros [= <-]].
  intros ([st pos'] & -> & (rest & Hr & [= <-])%bind_ok)%bind_ok Hcol Hmax.
  cbn [mbind result_bind]. destruct (Z.eqb_spec col idx) as [->|Hne].
  - by replace (Z.to_nat (idx - idx)) with 0%nat by lia.
  - replace (sat_add col 1) with (col + 1) by (sat; lia).
    rewrite (IH _ _ (col + 1) rest Hr) by lia.
    by replace (Z.to_nat (idx - col)) with (S (Z.to_nat (idx - (col + 1)))) by lia.
Qed.

Lemma decode_wanted_spec wanted entries payload enc vs :
  (forall i, column_at payload enc (entries !! i) = Ok (nth i vs Null)) ->
  Forall (fun i => 0 <= i) wanted ->
  decode_wanted wanted entries payload enc = Ok ((fun i => nth (Z.to_nat i) vs Null) <$> wanted).
Proof.
  intros Hcol. induction 1 as [|i w Hi Hw IH]; [done|]. cbn [decode_wanted].
  rewrite get_at_lookup by done. pose proof (Hcol (Z.to_nat i)) as Hc.
  unfold column_at in Hc. destruct (entries !! Z.to_nat i) as [[st off]|]; rewrite Hc;
    cbn [mbind result_bind]; by rewrite IH.
Qed.

(** ** Termination of the header walk *)

Lemma header_entry_progress payload hl pos st pos' :
  bytes_ok payload -> len payload <= U64_MAX -> 0 <= pos ->
  header_entry payload hl pos = Ok (st, pos') -> pos < pos' <= len payload.
Proof.
  intros Hok Hmax Hpos. unfold header_entry, decode_varint_at.
  intros ([t l] & H & H')%bind_ok. apply bind_ok in H as (slice & Hs & Hd).
  unfold get_from in Hs. destruct (_ && _) eqn:Hin; [|done]. cbn in Hs. simplify_eq.
  apply andb_true_iff in Hin as [_ Hin%Z.leb_le].
  pose proof (decode_varint_spec (drop (Z.to_nat pos) payload) (Forall_drop _ _ _ Hok)) as Hv.
  destruct (decode_varint _) as [[t' l']|e]; [|done]. cbn in Hd. simplify_eq.
  destruct Hv as (_ & ? & ?). rewrite len_drop in * by lia.
  destruct (hl <? sat_add pos l); [done|]. simplify_eq. sat. lia.
Qed.

Lemma serial_types_loop_fuel f1 f2 payload hl pos :
  bytes_ok payload -> len payload <= U64_MAX -> 0 <= pos ->
  len payload - pos < Z.of_nat f1 -> len payload - pos < Z.of_nat f2 ->
  (0 < f1)%nat -> (0 < f2)%nat ->
  serial_types_loop f1 payload hl pos = serial_types_loop f2 payload hl pos.
Proof.
  intros Hok Hmax. revert f2 pos.
  induction f1 as [|f1 IH]; intros f2 pos Hpos H1 H2 Hp1 Hp2; [lia|].
  destruct f2 as [|f2]; [lia|]. cbn [serial_types_loop]. destruct (pos <? hl); [|done].
  destruct (header_entry payload hl pos) as [[st pos']|e] eqn:He; [|done].
  cbn [mbind result_bind]. pose proof (header_entry_progress _ _ _ _ _ Hok Hmax Hpos He).
  by rewrite (IH f2 pos') by lia.
Qed.

(** ** Properties *)

(** C26. Encoding then decoding a record gives the values back, under every
    text encoding: the only change is that a NaN reads as NULL, which the
    format has no representation for. *)
Theorem record_roundtrip values enc :
  Forall value_ok values -> record_fits values enc ->
  decode_record (encode_record values enc) enc = Ok (canon <$> values).
Proof.
  intros Hok Hfit. rewrite encode_record_layout by done. unfold record_fits in Hfit.
  set (types := types_of values enc) in *. set (h := total_header_len types).
  pose proof (len_nonneg (bodies_of values enc)). pose proof (len_nonneg (header_bytes types)).
  destruct (total_header_len_spec types ltac:(lia)) as [Hh Hb]. fold h in Hh, Hb.
  assert (is_u64 h) as Hu by (sat; lia).
  pose proof (varint_len_bound h ltac:(lia)). unfold decode_record.
  rewrite header_bounds_app by (try done; lia). cbn [mbind result_bind].
  set (p := encode_varint h ++ header_bytes types ++ bodies_of values enc).
  pose proof (serial_types_loop_app types (encode_varint h) (bodies_of values enc)
    (S (length p)) (types_of_u64 _ _)) as Ht. fold p in Ht.
  pose proof (decode_bodies_app values enc (encode_varint h ++ header_bytes types) Hok) as Hv.
  rewrite <- app_assoc in Hv. fold p types in Hv.
  rewrite len_encode_varint in Ht by lia.
  rewrite len_app, len_encode_varint in Hv by lia.
  replace (varint_len h + len (header_bytes types)) with h in Ht, Hv by lia.
  rewrite Ht; [|unfold p; rewrite !length_app;
    pose proof (length_header_bytes types (types_of_u64 _ _)); lia|lia].
  cbn [mbind result_bind]. rewrite Hv by lia. cbn [mbind result_bind].
  unfold p. rewrite !len_app, len_encode_varint by lia.
  by rewrite (proj2 (Z.eqb_eq _ _)) by lia.
Qed.

Example record_roundtrip_witness :
  decode_record (encode_record [Null; Integer (-70000); VText [104; 233]; Blob [1; 2]] Utf16Le)
    Utf16Le = Ok (canon <$> [Null; Integer (-70000); VText [104; 233]; Blob [1; 2]]).
Proof.
  apply record_roundtrip; [|vm_compute; intros H; discriminate H].
  repeat constructor; unfold is_char; sat; lia.
Defined.

(** C39. The partial decoders agree with the whole-record decoder: on every
    payload [decode_record] accepts, selecting columns (with the early-exit
    walk for a single one), decoding a prefix, decoding one column and
    counting columns all give the corresponding part of its result, with
    NULL for a column past the end. *)
Theorem partial_decoders_agree payload enc vs wanted n i :
  decode_record payload enc = Ok vs ->
  Forall (fun j => 0 <= j) wanted -> 0 <= n -> 0 <= i -> len payload < U64_MAX ->
  decode_record_only payload wanted enc = Ok ((fun j => nth (Z.to_nat j) vs Null) <$> wanted) /\
  decode_record_upto payload n enc = Ok (take (Z.to_nat n) vs) /\
  decode_column payload i enc = Ok (nth (Z.to_nat i) vs Null) /\
  record_column_count payload = Ok (len vs).
Proof.
  intros Hd Hw Hn Hi Hmax.
  pose proof (parse_header_of_record payload enc vs Hd) as (hl & types & Hp & Hb).
  pose proof (fun j => decode_bodies_column _ _ _ _ _ _ j Hb) as Hcol.
  pose proof (decode_bodies_length _ _ _ _ _ _ Hb) as Hl.
  split; [|split; [|split]].
  - destruct wanted as [|j [|j' w]]; [unfold decode_record_only; by rewrite Hp| |].
    + apply Forall_cons_iff in Hw as [Hj _]. unfold decode_record_only, decode_single_column.
      unfold parse_header in Hp. apply bind_ok in Hp as ([hl' k] & -> & Hloop).
      cbn [mbind result_bind].
      erewrite single_column_loop_spec; [|exact Hloop|lia|unfold len in Hmax; lia].
      rewrite Z.sub_0_r, Hcol. done.
    + unfold decode_record_only. rewrite Hp. cbn [mbind result_bind].
      by apply decode_wanted_spec.
  - unfold decode_record_upto. rewrite Hp. cbn [mbind result_bind].
    unfold len. rewrite length_offsets.
    erewrite decode_bodies_entries by done. f_equal.
    destruct (Z_le_gt_dec n (Z.of_nat (length types))).
    + by rewrite Z.min_l by lia.
    + rewrite Z.min_r by lia. rewrite !take_ge; [done|lia|lia].
  - unfold decode_column. rewrite Hp. cbn [mbind result_bind].
    rewrite get_at_lookup by done. apply Hcol.
  - unfold record_column_count. rewrite Hp. cbn [mbind result_bind].
    unfold len. by rewrite length_offsets, Hl.
Qed.

Example partial_decoders_agree_witness :
  let p := encode_record [Integer 7; VText [97]; Blob [1]] Utf8 in
  let vs := [Integer 7; VText [97]; Blob [1]] in
  decode_record_only p [2; 0; 9] Utf8 = Ok ((fun j => nth (Z.to_nat j) vs Null) <$> [2; 0; 9]) /\
  decode_record_upto p 2 Utf8 = Ok (take (Z.to_nat 2) vs) /\
  decode_column p 1 Utf8 = Ok (nth (Z.to_nat 1) vs Null) /\
  record_column_count p = Ok (len vs).
Proof.
  apply (partial_decoders_agree _ _ _ [2; 0; 9] 2 1); [reflexivity| |lia|lia|reflexivity].
  repeat constructor; lia.
Defined.

(** The header walk terminates: on any payload and declared header
    length, the loop of [decode_record] reaches its end within one iteration
    per payload byte, so a larger iteration bound never changes its result
    (an implausible declared length cannot make it spin). *)
Theorem header_walk_terminates payload hl pos fuel :
  bytes_ok payload -> len payload <= U64_MAX -> 0 <= pos ->
  (length payload < fuel)%nat ->
  serial_types_loop fuel payload hl pos =
  serial_types_loop (S (length payload)) payload hl pos.
Proof.
  intros Hok Hmax Hpos Hf.
  apply serial_types_loop_fuel; try done; try lia; unfold len; lia.
Qed.

Example header_walk_terminates_witness :
  serial_types_loop 1000 [255; 1; 2] 300000 1 =
  serial_types_loop (S (length [255; 1; 2])) [255; 1; 2] 300000 1.
Proof.
  apply header_walk_terminates; [|vm_compute; discriminate|lia|vm_compute; lia].
  repeat constructor; sat; lia.
Defined.

(** [integer_body_len], which sizes the output buffer, disagrees with the
    body the encoder writes for exactly one serial type: a 48-bit integer
    (serial type 5) takes six bytes and is counted as five. *)
Theorem integer_body_len_short_by_one i :
  is_i64 i ->
  len (write_integer_body_into i (integer_serial_type i) []) =
  integer_body_len (integer_serial_type i) +
    (if integer_serial_type i =? 5 then 1 else 0).
Proof.
  intros Hi. apply (integer_serial_type_cases i (fun t =>
    len (write_integer_body_into i t []) = integer_body_len t + (if t =? 5 then 1 else 0)));
    done.
Qed.

Example integer_body_len_short_by_one_witness :
  len (write_integer_body_into 4294967296 (integer_serial_type 4294967296) []) =
  integer_body_len (integer_serial_type 4294967296) +
    (if integer_serial_type 4294967296 =? 5 then 1 else 0).
Proof. apply integer_body_len_short_by_one. sat. lia. Defined.
