(* ===== verification/Float.v ===== *)
(** * Double-precision numbers

    Rust's [f64] as the source uses it, on 64-bit patterns: comparison,
    rounding to nearest (ties to even), conversions to and from [i64], and the
    four operations.  A finite number is an integer multiple of [2^-1074], so
    its exact value is an integer in that unit ([f64_num]), and every rounding
    operation is one rounding of an exact rational ([round_mag]). *)

From stdpp Require Import prelude list numbers.
From Stdlib Require Import ZArith Lia.
From S2P Require Import Prelude Varint Text Record.

Local Open Scope Z_scope.

(** ** Patterns and values *)

Definition SIGN_BIT : Z := 9223372036854775808.
Definition INF_MAG : Z := 9218868437227405312.
(** The unit: [1.0] is [2^1074] units. *)
Definition UNIT : Z := 2 ^ 1074.

Definition f64_neg (x : Z) : bool := SIGN_BIT <=? x.
Definition f64_mag (x : Z) : Z := x mod SIGN_BIT.
Definition f64_with_sign (neg : bool) (mag : Z) : Z := if neg then SIGN_BIT + mag else mag.

(** The value of a magnitude: subnormal, or [1.m * 2^e]. *)
Definition mag_num (mag : Z) : Z :=
  if mag <? 2 ^ 52 then mag else (2 ^ 52 + mag mod 2 ^ 52) * 2 ^ (mag / 2 ^ 52 - 1).

(** The value in units; an infinity comes out beyond every finite number. *)
Definition f64_num (x : Z) : Z := let v := mag_num (f64_mag x) in if f64_neg x then - v else v.

Definition f64_is_infinite (x : Z) : bool := f64_mag x =? INF_MAG.
Definition f64_is_finite (x : Z) : bool := f64_mag x <? INF_MAG.

(** [f64::partial_cmp]; both zeros have the value 0. *)
Definition f64_cmp (x y : Z) : option comparison :=
  if f64_is_nan x || f64_is_nan y then None else Some (f64_num x ?= f64_num y).
Definition f64_eqb (x y : Z) : bool := match f64_cmp x y with Some Eq => true | _ => false end.
Definition f64_ltb (x y : Z) : bool := match f64_cmp x y with Some Lt => true | _ => false end.
Definition f64_leb (x y : Z) : bool := match f64_cmp x y with Some Lt | Some Eq => true | _ => false end.

(** ** Rounding *)

Definition round_half_even (n d : Z) : Z :=
  let q := n / d in let r := n mod d in
  match 2 * r ?= d with Lt => q | Gt => q + 1 | Eq => if Z.even q then q else q + 1 end.

(** The magnitude nearest to [n / d] units: the exponent that leaves 53 bits,
    the rounded significand [m], and the pattern [k * 2^52 + m], which is also
    right when [m] carries to [2^53]. *)
Definition round_exp (n d : Z) : Z := Z.max 0 (Z.log2 (n / d) - 52).
Definition round_mag (n d : Z) : Z :=
  let k := round_exp n d in
  let m := round_half_even n (d * 2 ^ k) in
  Z.min INF_MAG (k * 2 ^ 52 + m).

(** A signed rational [n / d] units, [d > 0]; zero gets the sign [zero_neg]. *)
Definition f64_round (zero_neg : bool) (n d : Z) : Z :=
  if n =? 0 then f64_with_sign zero_neg 0 else f64_with_sign (n <? 0) (round_mag (Z.abs n) d).

(** [i as f64]. *)
Definition f64_of_i64 (i : Z) : Z := f64_round false (i * UNIT) 1.

Definition I64_MIN : Z := -9223372036854775808.
Definition I64_MAX : Z := 9223372036854775807.

(** [r as i64]: towards zero, saturating, 0 for a NaN. *)
Definition f64_to_i64 (x : Z) : Z :=
  if f64_is_nan x then 0 else Z.max I64_MIN (Z.min I64_MAX (Z.quot (f64_num x) UNIT)).

(** ** Operations; a NaN result is the canonical quiet one. *)

Definition F64_NAN : Z := 9221120237041090560.
Definition f64_opp (x : Z) : Z := f64_with_sign (negb (f64_neg x)) (f64_mag x).

Definition f64_add (x y : Z) : Z :=
  if f64_is_nan x || f64_is_nan y then F64_NAN
  else if f64_is_infinite x then if f64_is_infinite y && xorb (f64_neg x) (f64_neg y) then F64_NAN else x
  else if f64_is_infinite y then y
  else f64_round (f64_neg x && f64_neg y) (f64_num x + f64_num y) 1.
Definition f64_sub (x y : Z) : Z := f64_add x (f64_opp y).

Definition f64_mul (x y : Z) : Z :=
  let sign := xorb (f64_neg x) (f64_neg y) in
  if f64_is_nan x || f64_is_nan y then F64_NAN
  else if f64_is_infinite x || f64_is_infinite y then
    if (f64_mag x =? 0) || (f64_mag y =? 0) then F64_NAN else f64_with_sign sign INF_MAG
  else f64_round sign (f64_num x * f64_num y) UNIT.

Definition f64_div (x y : Z) : Z :=
  let sign := xorb (f64_neg x) (f64_neg y) in
  if f64_is_nan x || f64_is_nan y then F64_NAN
  else if f64_is_infinite x then if f64_is_infinite y then F64_NAN else f64_with_sign sign INF_MAG
  else if f64_is_infinite y then f64_with_sign sign 0
  else if f64_mag y =? 0 then if f64_mag x =? 0 then F64_NAN else f64_with_sign sign INF_MAG
  else f64_round sign (f64_num x * UNIT * Z.sgn (f64_num y)) (Z.abs (f64_num y)).

Example one_half : f64_num 4602678819172646912 * 2 = UNIT. Proof. by vm_compute. Qed.
Example tenth_plus_fifth : f64_add (f64_div (f64_of_i64 1) (f64_of_i64 10)) (f64_div (f64_of_i64 1) (f64_of_i64 5)) = 4599075939470750516.
Proof. by vm_compute. Qed.
Example max_rounds_up : f64_of_i64 I64_MAX = f64_mul (f64_of_i64 (2 ^ 32)) (f64_of_i64 (2 ^ 31)).
Proof. by vm_compute. Qed.

(** ** Exactness *)

Lemma f64_is_nan_mag x : f64_is_nan x = (INF_MAG <? f64_mag x).
Proof.
  unfold f64_is_nan, f64_mag. change 9223372036854775807 with (Z.ones 63). by rewrite Z.land_ones.
Qed.

Lemma f64_mag_bounds x : 0 <= f64_mag x < SIGN_BIT.
Proof. apply Z.mod_pos_bound. reflexivity. Qed.

Lemma with_sign_mag neg mag : 0 <= mag < SIGN_BIT -> f64_mag (f64_with_sign neg mag) = mag.
Proof.
  intros Hm. unfold f64_mag, f64_with_sign. destruct neg; [|by apply Z.mod_small].
  replace (SIGN_BIT + mag) with (mag + 1 * SIGN_BIT) by lia. rewrite Z_mod_plus_full. by apply Z.mod_small.
Qed.

Lemma with_sign_neg neg mag : 0 <= mag < SIGN_BIT -> f64_neg (f64_with_sign neg mag) = neg.
Proof. intros Hm. unfold f64_neg, f64_with_sign. destruct neg; [apply Z.leb_le|apply Z.leb_gt]; lia. Qed.

(** The pattern of exponent [k] and significand [m]. *)
Lemma mag_num_pattern k m : 0 <= k -> 0 <= m <= 2 ^ 53 -> (k = 0 \/ 2 ^ 52 <= m) -> mag_num (k * 2 ^ 52 + m) = m * 2 ^ k.
Proof.
  intros Hk Hm Hc. unfold mag_num. destruct (Z.ltb_spec (k * 2 ^ 52 + m) (2 ^ 52)) as [Hlt|Hge].
  { assert (k = 0) as -> by lia. lia. }
  destruct (decide (m = 2 ^ 53)) as [->|Hne].
  - replace (k * 2 ^ 52 + 2 ^ 53) with (0 + (k + 2) * 2 ^ 52) by lia. rewrite Z_mod_plus_full, Z_div_plus_full by lia.
    change (0 mod 2 ^ 52) with 0. change (0 / 2 ^ 52) with 0. replace (0 + (k + 2) - 1) with (Z.succ k) by lia. rewrite Z.pow_succ_r by lia. lia.
  - replace (k * 2 ^ 52 + m) with (m - 2 ^ 52 + (k + 1) * 2 ^ 52) by lia. rewrite Z_mod_plus_full, Z_div_plus_full by lia.
    rewrite Z.mod_small, Z.div_small by lia. replace (0 + (k + 1) - 1) with k by lia. lia.
Qed.

(** A number with at most 53 significant bits. *)
Definition representable (v : Z) : Prop := exists m e, 0 <= m < 2 ^ 53 /\ 0 <= e /\ v = m * 2 ^ e.

Lemma mag_num_representable mag : 0 <= mag -> representable (mag_num mag).
Proof.
  intros H0. unfold mag_num. destruct (Z.ltb_spec mag (2 ^ 52)) as [Hlt|Hge].
  - exists mag, 0. lia.
  - pose proof (Z.mod_pos_bound mag (2 ^ 52) ltac:(lia)). exists (2 ^ 52 + mag mod 2 ^ 52), (mag / 2 ^ 52 - 1). split; [lia|].
    split; [|done]. assert (1 <= mag / 2 ^ 52) by (apply Z.div_le_lower_bound; lia). lia.
Qed.

Lemma round_exact_div n d : 0 < d -> n mod d = 0 -> round_half_even n d = n / d.
Proof. intros Hd Hr. unfold round_half_even. rewrite Hr. destruct (Z.compare_spec (2 * 0) d); lia. Qed.

(** Rounding does not change a representable number in range. *)
Lemma round_mag_exact v d : representable v -> 0 < v < 2 ^ 2098 -> 0 < d ->
  0 <= round_mag (v * d) d < INF_MAG /\ mag_num (round_mag (v * d) d) = v.
Proof.
  intros (m & e & Hm & He & Hv) Hr Hd. unfold round_mag, round_exp. rewrite Z.div_mul by lia.
  assert (0 < m) as Hm0 by (destruct (decide (m = 0)) as [->|]; lia).
  assert (Z.log2 v = Z.log2 m + e) as Hlog by (rewrite Hv, Z.log2_mul_pow2 by lia; lia).
  assert (Z.log2 m < 53) by (apply Z.log2_lt_pow2; lia). pose proof (Z.log2_nonneg m).
  set (k := Z.max 0 (Z.log2 v - 52)). assert (0 <= k <= e) as Hk by lia.
  set (q := m * 2 ^ (e - k)).
  assert (v = q * 2 ^ k) as Hq by (unfold q; rewrite <- Z.mul_assoc, <- Z.pow_add_r by lia; rewrite Hv; do 2 f_equal; lia).
  assert (0 < 2 ^ k) as Hpk by (apply Z.pow_pos_nonneg; lia).
  pose proof (Z.log2_spec v ltac:(lia)) as [Hl1 Hl2].
  assert (Z.log2 v <= 2097) by (apply Z.lt_succ_r, Z.log2_lt_pow2; lia).
  assert (q <= 2 ^ 53 - 1) as Hq53.
  { assert (q < 2 ^ 53); [|lia]. apply Z.mul_lt_mono_pos_r with (p := 2 ^ k); [done|]. rewrite <- Hq, <- Z.pow_add_r by lia.
    eapply Z.lt_le_trans; [exact Hl2|]. apply Z.pow_le_mono_r; lia. }
  assert (k = 0 \/ 2 ^ 52 <= q) as Hc.
  { destruct (decide (k = 0)); [by left|right]. apply Z.mul_le_mono_pos_r with (p := 2 ^ k); [done|].
    rewrite <- Hq, <- Z.pow_add_r by lia. eapply Z.le_trans; [|exact Hl1]. apply Z.pow_le_mono_r; lia. }
  assert (0 <= q) by (unfold q; apply Z.mul_nonneg_nonneg; [lia|apply Z.pow_nonneg; lia]).
  assert (round_half_even (v * d) (d * 2 ^ k) = q) as ->.
  { replace (v * d) with (q * (d * 2 ^ k)) by (rewrite Hq; ring). rewrite round_exact_div; [by apply Z.div_mul; lia|lia|by apply Z.mod_mul; lia]. }
  assert (k * 2 ^ 52 + q < INF_MAG) by (unfold INF_MAG; lia). rewrite Z.min_r by lia. split; [lia|].
  rewrite mag_num_pattern by lia. done.
Qed.

Lemma f64_round_exact zn v d : representable (Z.abs v) -> Z.abs v < 2 ^ 2098 -> 0 < d ->
  f64_num (f64_round zn (v * d) d) = v /\ f64_is_finite (f64_round zn (v * d) d) = true.
Proof.
  intros Hr Hv Hd. unfold f64_round. destruct (Z.eqb_spec (v * d) 0) as [E|E].
  { assert (v = 0) as -> by nia. unfold f64_num, f64_is_finite. rewrite with_sign_mag, with_sign_neg by (unfold SIGN_BIT; lia). by destruct zn. }
  assert (0 < Z.abs v) by nia. rewrite Z.abs_mul, (Z.abs_eq d) by lia.
  destruct (round_mag_exact (Z.abs v) d Hr ltac:(lia) Hd) as [Hb He].
  unfold f64_num, f64_is_finite. rewrite with_sign_mag, with_sign_neg by (unfold SIGN_BIT, INF_MAG in *; lia). rewrite He.
  split; [|apply Z.ltb_lt; lia]. destruct (Z.ltb_spec (v * d) 0); nia.
Qed.

(** Beyond the largest double, rounding gives infinity. *)
Lemma round_mag_overflow n d : 0 < d -> 2 ^ 2098 * d <= n -> round_mag n d = INF_MAG.
Proof.
  intros Hd Hn. unfold round_mag, round_exp. assert (2 ^ 2098 <= n / d) as Hq by (apply Z.div_le_lower_bound; lia).
  assert (0 < n / d) as Hq0 by (eapply Z.lt_le_trans; [|exact Hq]; by apply Z.pow_pos_nonneg).
  assert (2098 <= Z.log2 (n / d)) as Hl by (apply Z.log2_le_pow2; done).
  rewrite Z.max_r by lia. set (k := Z.log2 (n / d) - 52) in *.
  assert (0 < 2 ^ k) as Hk by (apply Z.pow_pos_nonneg; lia).
  assert (2 ^ 52 <= n / (d * 2 ^ k)) as Hm.
  { rewrite <- Z.div_div by lia. apply Z.div_le_lower_bound; [done|]. rewrite <- Z.pow_add_r by lia.
    replace (k + 52) with (Z.log2 (n / d)) by lia. by apply Z.log2_spec. }
  assert (n / (d * 2 ^ k) <= round_half_even n (d * 2 ^ k)) as Hr by (unfold round_half_even; repeat case_match; lia).
  apply Z.min_l. unfold INF_MAG. lia.
Qed.

(** Below half the least double, rounding gives zero. *)
Lemma round_mag_underflow n d : 0 <= n -> 2 * n < d -> round_mag n d = 0.
Proof.
  intros Hn Hd. unfold round_mag, round_exp. rewrite Z.div_small by lia. change (Z.max 0 (Z.log2 0 - 52)) with 0.
  unfold round_half_even. rewrite Z.mul_1_r, Z.div_small, Z.mod_small by lia.
  destruct (Z.compare_spec (2 * n) d); [lia| |lia]. reflexivity.
Qed.

(** ** Integers *)

Lemma UNIT_pos : 0 < UNIT.
Proof. reflexivity. Qed.

Lemma representable_unit i : representable (Z.abs i) -> representable (Z.abs (i * UNIT)).
Proof.
  intros (m & e & Hm & He & E). exists m, (e + 1074). split; [done|]. split; [lia|].
  rewrite Z.abs_mul, E, (Z.abs_eq UNIT) by (pose proof UNIT_pos; lia). unfold UNIT. rewrite Z.pow_add_r by lia. ring.
Qed.

Lemma small_representable i : Z.abs i <= 2 ^ 53 -> representable (Z.abs i).
Proof.
  intros Hi. destruct (decide (Z.abs i = 2 ^ 53)) as [->|]; [exists (2 ^ 52), 1; lia|]. exists (Z.abs i), 0. lia.
Qed.

(** An integer with at most 53 significant bits converts exactly. *)
Lemma of_i64_exact i : is_i64 i -> representable (Z.abs (i * UNIT)) ->
  f64_num (f64_of_i64 i) = i * UNIT /\ f64_is_finite (f64_of_i64 i) = true.
Proof.
  intros Hi Hr. unfold f64_of_i64. rewrite <- (Z.mul_1_r (i * UNIT)) at 1 3. apply f64_round_exact; [done| |done].
  rewrite Z.abs_mul, (Z.abs_eq UNIT) by (pose proof UNIT_pos; lia). change (2 ^ 2098) with (2 ^ 1024 * UNIT).
  apply Z.mul_lt_mono_pos_r; [apply UNIT_pos|]. unfold is_i64 in Hi. assert (2 ^ 64 < 2 ^ 1024) by reflexivity. lia.
Qed.

Lemma abs_f64_num x : Z.abs (f64_num x) = mag_num (f64_mag x).
Proof.
  unfold f64_num. assert (0 <= mag_num (f64_mag x)); [|destruct (f64_neg x); lia].
  destruct (mag_num_representable (f64_mag x)) as (m & e & ? & ? & ->); [apply f64_mag_bounds|].
  apply Z.mul_nonneg_nonneg; [lia|apply Z.pow_nonneg; lia].
Qed.

(** A number of magnitude [2^53] or more is an integer. *)
Lemma large_is_integer v : representable v -> 2 ^ 53 * UNIT <= v -> v mod UNIT = 0.
Proof.
  intros (m & e & Hm & He & ->) Hv. assert (1074 <= e) as He'.
  { destruct (decide (1074 <= e)) as [|Hlt]; [done|exfalso].
    assert (m * 2 ^ e < 2 ^ 53 * 2 ^ 1074); [|unfold UNIT in Hv; lia].
    eapply Z.lt_le_trans; [apply Z.mul_lt_mono_pos_r with (m := 2 ^ 53); [by apply Z.pow_pos_nonneg; lia|lia]|].
    apply Z.mul_le_mono_nonneg_l; [lia|]. apply Z.pow_le_mono_r; lia. }
  replace e with (e - 1074 + 1074) by lia. rewrite Z.pow_add_r, Z.mul_assoc by lia. apply Z.mod_mul. pose proof UNIT_pos. unfold UNIT in *. lia.
Qed.
