(* ===== verification/ValueOrder.v ===== *)
(** * Comparison of values ([src/record/collation.rs], [src/vdbe/compare.rs],
      [src/vdbe/value.rs], and the key order of [src/btree/index.rs])

    The order the engine sorts and compares by, the three-valued operators
    built on it, and the order the index b-trees use.  The engine's order is
    proved to be the lexicographic order of a key computed from each value
    alone ([sort_key]), so it is a total preorder. *)

From stdpp Require Import prelude list numbers.
From Stdlib Require Import ZArith Lia.
From S2P Require Import Prelude Varint Text Record Float.

Local Open Scope Z_scope.

(** ** Total preorders given by a comparison function *)

Class TotalPreorder {A} (ok : A -> Prop) (cmp : A -> A -> comparison) : Prop := {
  cmp_flip : forall x y, ok x -> ok y -> cmp y x = CompOpp (cmp x y);
  cmp_trans : forall x y z, ok x -> ok y -> ok z -> cmp x y <> Gt -> cmp y z <> Gt -> cmp x z <> Gt }.

Section Preorder.
Context {A} (ok : A -> Prop) (cmp : A -> A -> comparison) `{!TotalPreorder ok cmp}.

Lemma cmp_refl x : ok x -> cmp x x = Eq.
Proof using All. intros Hx. pose proof (cmp_flip x x Hx Hx). by destruct (cmp x x). Qed.

Lemma cmp_lt_trans x y z : ok x -> ok y -> ok z -> cmp x y = Lt -> cmp y z <> Gt -> cmp x z = Lt.
Proof using All.
  intros Hx Hy Hz H1 H2. assert (cmp x z <> Gt) as H3 by (eapply (cmp_trans x y z); [done..|by rewrite H1|done]).
  destruct (cmp x z) eqn:E; [exfalso|done|done].
  pose proof (cmp_flip x z Hx Hz) as E1. pose proof (cmp_flip x y Hx Hy) as E2. rewrite E in E1. rewrite H1 in E2.
  apply (cmp_trans y z x Hy Hz Hx H2); [by rewrite E1|by rewrite E2].
Qed.

Lemma cmp_eq_l x y z : ok x -> ok y -> ok z -> cmp x y = Eq -> cmp x z = cmp y z.
Proof using All.
  intros Hx Hy Hz E. pose proof (cmp_flip x y Hx Hy) as E'. rewrite E in E'. cbn in E'.
  destruct (cmp y z) eqn:E2.
  - pose proof (cmp_trans x y z Hx Hy Hz ltac:(by rewrite E) ltac:(by rewrite E2)).
    pose proof (cmp_flip y z Hy Hz) as E3. rewrite E2 in E3.
    pose proof (cmp_trans z y x Hz Hy Hx ltac:(by rewrite E3) ltac:(by rewrite E')) as H4.
    pose proof (cmp_flip x z Hx Hz) as E4. rewrite E4 in H4. by destruct (cmp x z).
  - destruct (cmp x z) eqn:E4; [|done|].
    + pose proof (cmp_flip x z Hx Hz) as E5. rewrite E4 in E5. pose proof (cmp_lt_trans y z x Hy Hz Hx E2 ltac:(by rewrite E5)). congruence.
    + pose proof (cmp_trans x y z Hx Hy Hz ltac:(by rewrite E) ltac:(by rewrite E2)). congruence.
  - pose proof (cmp_flip y z Hy Hz) as E3. rewrite E2 in E3. cbn in E3.
    pose proof (cmp_lt_trans z y x Hz Hy Hx E3 ltac:(by rewrite E')) as E4.
    pose proof (cmp_flip z x Hz Hx) as E5. by rewrite E5, E4.
Qed.
End Preorder.

(** ** Byte strings *)

(** [Ord] on slices of bytes. *)
Fixpoint list_cmp (a b : list Z) : comparison :=
  match a, b with
  | [], [] => Eq
  | [], _ :: _ => Lt
  | _ :: _, [] => Gt
  | x :: a, y :: b => match x ?= y with Eq => list_cmp a b | c => c end
  end.

Lemma list_cmp_eq a : forall b, list_cmp a b = Eq <-> a = b.
Proof.
  induction a as [|x a IH]; intros [|y b]; cbn; try done. destruct (Z.compare_spec x y) as [->|?|?].
  - rewrite IH. split; [by intros ->|by intros [= ->]].
  - split; [done|intros [= -> _]; lia].
  - split; [done|intros [= -> _]; lia].
Qed.

#[global] Instance list_cmp_total : TotalPreorder (fun _ => True) list_cmp.
Proof.
  split.
  - intros x. induction x as [|a x IH]; intros [|b y] _ _; cbn; try done.
    rewrite (Z.compare_antisym a b). destruct (a ?= b); cbn; [by apply IH|done|done].
  - intros x. induction x as [|a x IH]; intros [|b y] [|c z] _ _ _; cbn; try done.
    destruct (Z.compare_spec a b), (Z.compare_spec b c), (Z.compare_spec a c); try done; try lia; [by apply IH].
Qed.

(** An order computed from a key is a total preorder. *)
Lemma preorder_by_key {A} (ok : A -> Prop) cmp (key : A -> list Z) :
  (forall x y, ok x -> ok y -> cmp x y = list_cmp (key x) (key y)) -> TotalPreorder ok cmp.
Proof.
  intros Hk. split.
  - intros x y Hx Hy. rewrite !Hk by done. by apply cmp_flip.
  - intros x y z Hx Hy Hz. rewrite !Hk by done. by apply cmp_trans.
Qed.

(** ** Collations *)

Inductive Collation : Type := CBinary | CNoCase | CRTrim.

Definition to_ascii_lowercase (b : Z) : Z := if (65 <=? b) && (b <=? 90) then b + 32 else b.

(** [trim_end_matches]. *)
Fixpoint trim_end_matches (s : str) (c : Z) : str :=
  match s with
  | [] => []
  | x :: s => match trim_end_matches s c with [] => if x =? c then [] else [x] | t => x :: t end
  end.

Definition compare_text (a b : str) (collation : Collation) : comparison :=
  match collation with
  | CBinary => list_cmp (as_bytes a) (as_bytes b)
  | CNoCase => list_cmp (map to_ascii_lowercase (as_bytes a)) (map to_ascii_lowercase (as_bytes b))
  | CRTrim => list_cmp (as_bytes (trim_end_matches a 32)) (as_bytes (trim_end_matches b 32))
  end.

(** ** The engine's order *)

Definition value_rank (v : Value) : Z :=
  match v with Null => 0 | Integer _ | Real _ => 1 | VText _ => 2 | Blob _ => 3 end.

(** [9223372036854775808.0] and its opposite. *)
Definition F64_TWO63 : Z := 4890909195324358656.
Definition F64_MINUS_TWO63 : Z := 14114281232179134464.

Definition compare_int_real (i r : Z) : comparison :=
  if f64_is_nan r then Lt
  else if f64_ltb r F64_MINUS_TWO63 then Gt
  else if f64_leb F64_TWO63 r then Lt
  else
    let y := f64_to_i64 r in
    if i <? y then Lt else if y <? i then Gt
    else default Eq (f64_cmp (f64_of_i64 i) r).

Definition compare_real (x y : Z) : comparison :=
  match f64_is_nan x, f64_is_nan y with
  | true, true => Eq
  | true, false => Gt
  | false, true => Lt
  | false, false => default Eq (f64_cmp x y)
  end.

Definition compare (a b : Value) (collation : Collation) : comparison :=
  if negb (value_rank a =? value_rank b) then value_rank a ?= value_rank b
  else match a, b with
  | Null, Null => Eq
  | Integer x, Integer y => x ?= y
  | Real x, Real y => compare_real x y
  | Integer x, Real y => compare_int_real x y
  | Real x, Integer y => CompOpp (compare_int_real y x)
  | VText x, VText y => compare_text x y collation
  | Blob x, Blob y => list_cmp x y
  | _, _ => Eq
  end.

(** ** Operators with NULL *)

Definition is_null (v : Value) : bool := match v with Null => true | _ => false end.
Definition comparison_eqb (c d : comparison) : bool := match c, d with Eq, Eq | Lt, Lt | Gt, Gt => true | _, _ => false end.

Definition sql_eq (a b : Value) (collation : Collation) : option bool :=
  if is_null a || is_null b then None else Some (comparison_eqb (compare a b collation) Eq).
Definition sql_lt (a b : Value) (collation : Collation) : option bool :=
  if is_null a || is_null b then None else Some (comparison_eqb (compare a b collation) Lt).
Definition sql_is (a b : Value) (collation : Collation) : bool :=
  match a, b with
  | Null, Null => true
  | Null, _ | _, Null => false
  | _, _ => comparison_eqb (compare a b collation) Eq
  end.
Definition sql_is_not (a b : Value) (collation : Collation) : bool := negb (sql_is a b collation).
Definition sql_not (a : option bool) : option bool := negb <$> a.
Definition sql_and (a b : option bool) : option bool :=
  match a, b with
  | Some false, _ | _, Some false => Some false
  | Some true, Some true => Some true
  | _, _ => None
  end.
Definition sql_or (a b : option bool) : option bool :=
  match a, b with
  | Some true, _ | _, Some true => Some true
  | Some false, Some false => Some false
  | _, _ => None
  end.

(** ** The order of the index b-trees *)

Definition compare_values (a b : Value) : comparison :=
  if negb (value_rank a =? value_rank b) then value_rank a ?= value_rank b
  else match a, b with
  | Null, Null => Eq
  | Integer x, Integer y => x ?= y
  | Real x, Real y => default Eq (f64_cmp x y)
  | Integer x, Real y => default Eq (f64_cmp (f64_of_i64 x) y)
  | Real x, Integer y => default Eq (f64_cmp x (f64_of_i64 y))
  | VText x, VText y => list_cmp (as_bytes x) (as_bytes y)
  | Blob x, Blob y => list_cmp x y
  | _, _ => Eq
  end.

Fixpoint compare_zip (a b : list Value) : option comparison :=
  match a, b with
  | x :: a, y :: b => match compare_values x y with Eq => compare_zip a b | c => Some c end
  | _, _ => None
  end.

Definition compare_keys (a b : list Value) : comparison := default (len a ?= len b) (compare_zip a b).

(** ** Numbers compare by their exact values *)

Lemma mag_num_max mag : 0 <= mag <= INF_MAG -> mag_num mag <= 2 ^ 2098.
Proof.
  intros Hm. unfold mag_num. destruct (Z.ltb_spec mag (2 ^ 52)); [assert (2 ^ 52 < 2 ^ 2098) by reflexivity; lia|].
  destruct (decide (mag = INF_MAG)) as [->|Hne]; [by vm_compute|].
  pose proof (Z.mod_pos_bound mag (2 ^ 52) ltac:(lia)). assert (mag / 2 ^ 52 < 2047) by (apply Z.div_lt_upper_bound; unfold INF_MAG in *; lia).
  change (2 ^ 2098) with (2 ^ 53 * 2 ^ 2045). apply Z.mul_le_mono_nonneg; [lia|lia|by apply Z.pow_nonneg|]. apply Z.pow_le_mono_r; lia.
Qed.

Definition NAN_KEY : Z := 2 ^ 2099.
Definition real_key (r : Z) : Z := if f64_is_nan r then NAN_KEY else f64_num r.

Lemma num_below_nan r : f64_is_nan r = false -> - NAN_KEY < f64_num r < NAN_KEY.
Proof.
  intros Hn. rewrite f64_is_nan_mag in Hn. apply Z.ltb_ge in Hn. pose proof (f64_mag_bounds r).
  pose proof (mag_num_max (f64_mag r) ltac:(lia)). pose proof (abs_f64_num r). assert (2 ^ 2098 < NAN_KEY) by reflexivity. lia.
Qed.

Lemma int_below_nan i : is_i64 i -> - NAN_KEY < i * UNIT < NAN_KEY.
Proof.
  intros Hi. unfold is_i64 in Hi. assert (2 ^ 64 * UNIT < NAN_KEY) by reflexivity. pose proof UNIT_pos.
  assert (- (2 ^ 64) * UNIT < i * UNIT < 2 ^ 64 * UNIT) by (split; apply Z.mul_lt_mono_pos_r; lia). lia.
Qed.

(** Truncation towards zero, in a unit [U]. *)
Lemma quot_bounds v U : 0 < U -> exists t, v = Z.quot v U * U + t /\ ((0 <= v /\ 0 <= t < U) \/ (v <= 0 /\ - U < t <= 0)).
Proof.
  intros HU. exists (Z.rem v U). split; [rewrite (Z.quot_rem' v U) at 1; lia|].
  destruct (Z.le_ge_cases 0 v); [left|right]; (split; [done|]).
  - apply Z.rem_bound_pos; lia.
  - pose proof (Z.rem_bound_pos (- v) U ltac:(lia) HU) as Hb. rewrite Z.rem_opp_l in Hb by lia. lia.
Qed.

Lemma quot_facts v U lo hi i : 0 < U -> lo <= 0 <= hi -> lo * U <= v < (hi + 1) * U ->
  lo <= Z.quot v U <= hi /\ (i < Z.quot v U -> i * U < v) /\ (Z.quot v U < i -> v < i * U) /\
  (v mod U = 0 -> v = Z.quot v U * U) /\ (forall k, 0 <= k -> Z.abs v < k * U -> Z.abs (Z.quot v U) <= k).
Proof.
  intros HU Hlh Hv. destruct (quot_bounds v U HU) as (t & Et & Ht). set (y := Z.quot v U) in *. clearbody y.
  split; [nia|]. split; [nia|]. split; [nia|]. split.
  - intros Hm. apply Z.mod_divide in Hm as [q Hq]; [|lia]. assert (t = (q - y) * U) by nia. assert (q - y = 0) by nia. nia.
  - intros k Hk Ha. nia.
Qed.

(** [compare_int_real] is exact although one of its steps rounds. *)
Lemma compare_int_real_exact i r : is_i64 i -> compare_int_real i r = (i * UNIT ?= real_key r).
Proof.
  intros Hi. unfold compare_int_real, real_key. destruct (f64_is_nan r) eqn:En; [symmetry; apply Z.compare_lt_iff, int_below_nan, Hi|].
  unfold f64_ltb, f64_leb, f64_cmp. rewrite En.
  change (f64_is_nan F64_MINUS_TWO63) with false. change (f64_is_nan F64_TWO63) with false. cbn [orb].
  change (f64_num F64_MINUS_TWO63) with (I64_MIN * UNIT). change (f64_num F64_TWO63) with ((I64_MAX + 1) * UNIT).
  set (v := f64_num r). pose proof UNIT_pos as HU. unfold is_i64 in Hi.
  assert (I64_MIN * UNIT <= i * UNIT < (I64_MAX + 1) * UNIT) as Hiu
    by (split; [apply Z.mul_le_mono_pos_r|apply Z.mul_lt_mono_pos_r]; unfold I64_MIN, I64_MAX; lia).
  destruct (Z.ltb_spec v (I64_MIN * UNIT)) as [E1|E1].
  { rewrite (proj2 (Z.compare_lt_iff _ _) E1). symmetry. apply Z.compare_gt_iff. lia. }
  replace (match v ?= I64_MIN * UNIT with Lt => true | _ => false end) with false
    by (destruct (Z.compare_spec v (I64_MIN * UNIT)); [done|lia|done]).
  destruct (Z.leb_spec ((I64_MAX + 1) * UNIT) v) as [E2|E2].
  { symmetry. rewrite (proj2 (Z.compare_lt_iff (i * UNIT) v)) by lia. destruct (Z.compare_spec ((I64_MAX + 1) * UNIT) v); [done|done|lia]. }
  rewrite (proj2 (Z.compare_gt_iff _ _) E2).
  destruct (quot_facts v UNIT I64_MIN I64_MAX i HU ltac:(done) (conj E1 E2)) as (Hy & Hlt & Hgt & Hint & Hsm).
  unfold f64_to_i64. rewrite En. fold v. rewrite Z.min_r, Z.max_r by lia.
  destruct (Z.ltb_spec i (Z.quot v UNIT)) as [H1|H1]; [symmetry; by apply Z.compare_lt_iff, Hlt|].
  destruct (Z.ltb_spec (Z.quot v UNIT) i) as [H2|H2]; [symmetry; by apply Z.compare_gt_iff, Hgt|].
  assert (i = Z.quot v UNIT) as Hiq by lia.
  assert (representable (Z.abs (i * UNIT))) as Hr.
  { pose proof (abs_f64_num r) as Hab. fold v in Hab. pose proof (mag_num_representable (f64_mag r) (proj1 (f64_mag_bounds r))) as Hmr. rewrite <- Hab in Hmr.
    destruct (Z.lt_ge_cases (Z.abs v) (2 ^ 53 * UNIT)) as [Hs|Hs].
    - apply representable_unit, small_representable. rewrite Hiq. by apply Hsm.
    - rewrite Hiq, <- Hint; [done|]. pose proof (large_is_integer _ Hmr Hs) as Hm. apply Z.mod_divide; [lia|].
      apply Z.mod_divide in Hm; [|lia]. by apply Z.divide_abs_r. }
  destruct (of_i64_exact i Hi Hr) as [Enum Efin]. rewrite Enum. rewrite f64_is_nan_mag.
  unfold f64_is_finite in Efin. apply Z.ltb_lt in Efin. rewrite (proj2 (Z.ltb_ge _ _)) by lia. done.
Qed.

Lemma compare_real_exact x y : compare_real x y = (real_key x ?= real_key y).
Proof.
  unfold compare_real, real_key, f64_cmp. destruct (f64_is_nan x) eqn:Ex, (f64_is_nan y) eqn:Ey; cbn [orb default from_option].
  - by rewrite Z.compare_refl.
  - symmetry. apply Z.compare_gt_iff. by apply num_below_nan.
  - symmetry. apply Z.compare_lt_iff. by apply num_below_nan.
  - done.
Qed.

(** ** The key of a value *)

Definition text_key (collation : Collation) (s : str) : list Z :=
  match collation with
  | CBinary => as_bytes s
  | CNoCase => map to_ascii_lowercase (as_bytes s)
  | CRTrim => as_bytes (trim_end_matches s 32)
  end.

(** The class first, then the exact number, the folded text or the bytes. *)
Definition sort_key (collation : Collation) (v : Value) : list Z :=
  value_rank v ::
  match v with
  | Null => []
  | Integer i => [i * UNIT]
  | Real r => [real_key r]
  | VText s => text_key collation s
  | Blob b => b
  end.

Lemma compare_sort_key a b collation : value_ok a -> value_ok b -> compare a b collation = list_cmp (sort_key collation a) (sort_key collation b).
Proof.
  intros Ha Hb. unfold compare, sort_key. cbn [list_cmp]. destruct (Z.eqb_spec (value_rank a) (value_rank b)) as [E|E]; cbn [negb].
  - rewrite E, Z.compare_refl. destruct a as [|i|r|s|l], b as [|j|q|t|k]; try done; cbn [list_cmp value_ok] in *.
    + rewrite (Zmult_compare_compat_r i j UNIT) by (pose proof UNIT_pos; lia). by destruct (i * UNIT ?= j * UNIT).
    + rewrite compare_int_real_exact by done. by destruct (i * UNIT ?= real_key q).
    + rewrite compare_int_real_exact by done. rewrite (Z.compare_antisym (j * UNIT)). by destruct (j * UNIT ?= real_key r).
    + rewrite compare_real_exact. by destruct (real_key r ?= real_key q).
    + by destruct collation.
  - destruct (Z.compare_spec (value_rank a) (value_rank b)); done.
Qed.

#[global] Instance compare_total collation : TotalPreorder value_ok (fun a b => compare a b collation).
Proof. apply (preorder_by_key _ _ (sort_key collation)). intros x y Hx Hy. by apply compare_sort_key. Qed.

(** ** The order of keys *)

(** Lexicographic extension of a comparison; a proper prefix comes first. *)
Section Lexicographic.
Context {A} (cmp : A -> A -> comparison).

Fixpoint lex_cmp (a b : list A) : comparison :=
  match a, b with
  | [], [] => Eq
  | [], _ :: _ => Lt
  | _ :: _, [] => Gt
  | x :: a, y :: b => match cmp x y with Eq => lex_cmp a b | c => c end
  end.

#[global] Instance lex_cmp_total (ok : A -> Prop) `{!TotalPreorder ok cmp} : TotalPreorder (Forall ok) lex_cmp.
Proof.
  split.
  - intros x. induction x as [|a x IH]; intros [|b y] Hx Hy; cbn; try done.
    apply Forall_cons_1 in Hx as [Ha Hx]. apply Forall_cons_1 in Hy as [Hb Hy].
    pose proof (cmp_flip a b Ha Hb) as E. rewrite E. destruct (cmp a b); cbn; [by apply IH|done|done].
  - intros x. induction x as [|a x IH]; intros [|b y] [|c z] Hx Hy Hz; cbn; try done.
    apply Forall_cons_1 in Hx as [Ha Hx]. apply Forall_cons_1 in Hy as [Hb Hy]. apply Forall_cons_1 in Hz as [Hc Hz].
    destruct (cmp a b) eqn:E1; [|destruct (cmp b c) eqn:E2|done].
    + rewrite (cmp_eq_l ok cmp a b c Ha Hb Hc E1). destruct (cmp b c); [by apply IH|done|done].
    + intros _ _. by rewrite (cmp_lt_trans ok cmp a b c Ha Hb Hc E1 ltac:(by rewrite E2)).
    + intros _ _. by rewrite (cmp_lt_trans ok cmp a b c Ha Hb Hc E1 ltac:(by rewrite E2)).
    + done.
Qed.
End Lexicographic.

Lemma compare_keys_lex a : forall b, compare_keys a b = lex_cmp compare_values a b.
Proof.
  unfold compare_keys. induction a as [|x a IH]; intros [|y b]; try done; cbn [compare_zip lex_cmp default from_option].
  - destruct (compare_values x y) eqn:E; try done. rewrite !len_cons, <- IH. destruct (compare_zip a b); cbn [default from_option]; [done|].
    destruct (Z.compare_spec (len a) (len b)), (Z.compare_spec (1 + len a) (1 + len b)); first [done|lia].
Qed.

(** The values on which the two orders agree: no NaN, and integers that a
    double holds exactly. *)
Definition index_ok (v : Value) : Prop :=
  value_ok v /\ match v with Real r => f64_is_nan r = false | Integer i => Z.abs i <= 2 ^ 53 | _ => True end.

Lemma compare_values_engine a b : index_ok a -> index_ok b -> compare_values a b = compare a b CBinary.
Proof.
  intros [Ha Ha'] [Hb Hb']. unfold compare_values, compare. destruct (negb _); [done|].
  assert (forall i, is_i64 i -> Z.abs i <= 2 ^ 53 -> f64_is_nan (f64_of_i64 i) = false /\ f64_num (f64_of_i64 i) = i * UNIT) as Hof.
  { intros i Hi Hs. destruct (of_i64_exact i Hi (representable_unit _ (small_representable _ Hs))) as [E1 E2]. split; [|done].
    rewrite f64_is_nan_mag. unfold f64_is_finite in E2. apply Z.ltb_lt in E2. apply Z.ltb_ge. lia. }
  destruct a as [|i|r|s|l], b as [|j|q|t|k]; try done; cbn [value_ok] in *.
  - rewrite compare_int_real_exact by done. destruct (Hof i Ha Ha') as [E1 E2]. unfold f64_cmp, real_key. by rewrite E1, E2, Hb'.
  - rewrite compare_int_real_exact by done. destruct (Hof j Hb Hb') as [E1 E2]. unfold f64_cmp, real_key. rewrite E1, E2, Ha'.
    cbn [orb default from_option]. by rewrite (Z.compare_antisym (j * UNIT)).
  - by rewrite compare_real_exact; unfold f64_cmp, real_key; rewrite Ha', Hb'.
Qed.

#[global] Instance compare_values_total : TotalPreorder index_ok compare_values.
Proof.
  apply (preorder_by_key _ _ (sort_key CBinary)). intros x y Hx Hy. rewrite compare_values_engine by done.
  apply compare_sort_key; [apply Hx|apply Hy].
Qed.

(** Keys without reals: every integer, text and blob. *)
Definition exact_ok (v : Value) : Prop := value_ok v /\ match v with Real _ => False | _ => True end.

Lemma compare_values_exact a b : exact_ok a -> exact_ok b -> compare_values a b = compare a b CBinary.
Proof. intros [Ha Ha'] [Hb Hb']. unfold compare_values, compare. destruct (negb _); [done|]. by destruct a, b. Qed.

#[global] Instance compare_values_total_exact : TotalPreorder exact_ok compare_values.
Proof.
  apply (preorder_by_key _ _ (sort_key CBinary)). intros x y Hx Hy. rewrite compare_values_exact by done.
  apply compare_sort_key; [apply Hx|apply Hy].
Qed.
