(* ===== verification/Format.v ===== *)
(** * Rendering of values ([src/format.rs])

    Decimal text of integers, [format_real], blobs as hexadecimal, and the
    list, query and CSV renderings of a value. *)

From stdpp Require Import prelude list numbers.
From Stdlib Require Import ZArith Lia.
From S2P Require Import Prelude Varint Text Record Float.

Local Open Scope Z_scope.

(** ** Decimal integers ([i64::to_string]) *)

Fixpoint digits_loop (fuel : nat) (n : Z) : str :=
  match fuel with
  | O => [48 + n mod 10]
  | S fuel => if n <? 10 then [48 + n] else digits_loop fuel (n / 10) ++ [48 + n mod 10]
  end.

Definition decimal (n : Z) : str := digits_loop (Z.to_nat (Z.log2 n)) n.
Definition to_string (i : Z) : str := if i <? 0 then 45 :: decimal (- i) else decimal i.

(** ** Reals *)

(** The largest [e], from [fuel + lo - 1] down to [lo], with [10^e <= n / d]. *)
Fixpoint decimal_exponent (fuel : nat) (lo n d : Z) : Z :=
  match fuel with
  | O => lo
  | S fuel =>
    let e := lo + Z.of_nat fuel in
    if (if 0 <=? e then d * 10 ^ e <=? n else d <=? n * 10 ^ (- e)) then e else decimal_exponent fuel lo n d
  end.

(** [format!("{:.14e}", ax)] on a positive finite number: 15 significant
    digits, rounded from the exact value with ties to even, and the exponent.
    Finite doubles lie between [10^-324] and [10^309]. *)
Definition scientific (ax : Z) : str * Z :=
  let n := f64_num ax in
  let e := decimal_exponent 634 (-324) n UNIT in
  let p := 14 - e in
  let m := if 0 <=? p then round_half_even (n * 10 ^ p) UNIT else round_half_even n (UNIT * 10 ^ (- p)) in
  if m =? 10 ^ 15 then (decimal (10 ^ 14), e + 1) else (decimal m, e).

Fixpoint trim_trailing_zeros (s : str) : str :=
  match s with
  | [] => []
  | x :: s => match trim_trailing_zeros s with [] => if x =? 48 then [] else [x] | t => x :: t end
  end.

(** [{:02}]. *)
Definition two_digits (n : Z) : str := if n <? 10 then 48 :: decimal n else decimal n.

Definition real_body (digits : str) (exp : Z) : str :=
  if negb ((-4 <=? exp) && (exp <? 15)) then
    let mantissa_trimmed := trim_trailing_zeros (drop 1 digits) in
    let mantissa_part := take 1 digits ++ lit "." ++ (match mantissa_trimmed with [] => lit "0" | t => t end) in
    mantissa_part ++ lit "e" ++ (if 0 <=? exp then lit "+" else lit "-") ++ two_digits (Z.abs exp)
  else if 0 <=? exp then
    let split := Z.to_nat (exp + 1) in
    let frac_part := trim_trailing_zeros (drop split digits) in
    take split digits ++ lit "." ++ (match frac_part with [] => lit "0" | t => t end)
  else
    lit "0." ++ repeat 48 (Z.to_nat (Z.abs exp - 1)) ++ trim_trailing_zeros digits.

Definition format_real (x : Z) : str :=
  if f64_eqb x 0 then if f64_neg x then lit "-0.0" else lit "0.0"
  else if f64_is_nan x then lit "NULL"
  else
    let neg := f64_neg x in
    let ax := f64_mag x in
    if f64_is_infinite ax then if neg then lit "-9.0e+999" else lit "9.0e+999"
    else
      let '(digits, exp) := scientific ax in
      let body := real_body digits exp in
      if neg then lit "-" ++ body else body.

(** ** Blobs *)

Definition hex_digit (n : Z) : Z := if n <? 10 then 48 + n else 55 + n.
Definition format_blob (b : list Z) : str :=
  lit "X'" ++ flat_map (fun byte => [hex_digit (byte / 16); hex_digit (byte mod 16)]) b ++ lit "'".

(** ** Values *)

Definition format_list_value (v : Value) : str :=
  match v with
  | Null => lit "NULL"
  | Integer i => to_string i
  | Real r => format_real r
  | VText s => s
  | Blob b => format_blob b
  end.

Fixpoint truncate_at_nul (bytes : list Z) : list Z :=
  match bytes with
  | [] => []
  | b :: bytes => if b =? 0 then [] else b :: truncate_at_nul bytes
  end.

Definition format_query_value (v : Value) : list Z :=
  match v with
  | Null => []
  | Integer i => as_bytes (to_string i)
  | Real r => as_bytes (format_real r)
  | VText s => truncate_at_nul (as_bytes s)
  | Blob b => truncate_at_nul b
  end.

Definition write_query_value (buf : list Z) (v : Value) : list Z :=
  match v with
  | Null => buf
  | Integer i => buf ++ as_bytes (to_string i)
  | Real r => buf ++ as_bytes (format_real r)
  | VText s => buf ++ truncate_at_nul (as_bytes s)
  | Blob b => buf ++ truncate_at_nul b
  end.

(** ** CSV *)

Definition csv_char_forces_quote (c : Z) : bool :=
  negb ((33 <=? c) && (c <=? 126)) || (c =? 34) || (c =? 39) || (c =? 44).

Fixpoint double_quotes (s : str) : str :=
  match s with
  | [] => []
  | c :: s => if c =? 34 then 34 :: c :: double_quotes s else c :: double_quotes s
  end.

Definition csv_quote (s : str) : str :=
  let needs_quote := match s with [] => true | _ => existsb csv_char_forces_quote s end in
  if negb needs_quote then s else 34 :: double_quotes s ++ [34].

Definition format_csv_value (v : Value) : str :=
  match v with
  | Null => []
  | Integer i => to_string i
  | Real r => format_real r
  | VText s => csv_quote s
  | Blob b => csv_quote (format_blob b)
  end.

Definition write_csv_value (buf : str) (v : Value) : str :=
  match v with
  | Null => buf
  | Integer i => buf ++ to_string i
  | Real r => buf ++ format_real r
  | VText s => buf ++ csv_quote s
  | Blob b => buf ++ csv_quote (format_blob b)
  end.

Example format_integers :
  map to_string [0; 7; 42; -130; 9223372036854775807; -9223372036854775808]
  = [lit "0"; lit "7"; lit "42"; lit "-130"; lit "9223372036854775807"; lit "-9223372036854775808"].
Proof. by vm_compute. Qed.

(** The cases of the source's test. *)
Example format_reals :
  map format_real [4614253070214989087; 4607182418800017408; 9101173739030090499; 4547007122018943789; 4816244402031689728;
    4831355200913801216; 4831355200913801208; 4532020583610935537; 13836183955189006336; 0; SIGN_BIT]
  = [lit "3.14"; lit "1.0"; lit "2.5e+300"; lit "0.0001"; lit "100000000000000.0"; lit "1.0e+15"; lit "999999999999999.0"; lit "1.0e-05";
     lit "-2.5"; lit "0.0"; lit "-0.0"].
Proof. by vm_compute. Qed.
