(* ===== verification/Coerce.v ===== *)
(** * Conversions and arithmetic on values ([src/vdbe/coerce.rs],
      [src/vdbe/affinity.rs], [src/vdbe/cast.rs])

    The longest numeric prefix of a text, checked arithmetic that promotes to
    REAL on overflow, bit operations and shifts, column affinity, and [CAST]. *)

From stdpp Require Import prelude list numbers.
From Stdlib Require Import ZArith Lia.
From S2P Require Import Prelude Varint Text Record Float ValueOrder Format.

Local Open Scope Z_scope.

(** ** Parsing numbers (Rust's [str::parse]) *)

Definition is_ascii_digit (c : Z) : bool := (48 <=? c) && (c <=? 57).
Definition is_ascii_whitespace (c : Z) : bool := (c =? 32) || (c =? 9) || (c =? 10) || (c =? 12) || (c =? 13).

(** [char::is_whitespace]. *)
Definition is_whitespace (c : Z) : bool :=
  ((9 <=? c) && (c <=? 13)) || (c =? 32) || (c =? 133) || (c =? 160) || (c =? 5760) || ((8192 <=? c) && (c <=? 8202)) ||
  (c =? 8232) || (c =? 8233) || (c =? 8239) || (c =? 8287) || (c =? 12288).

Fixpoint trim_start (s : str) : str := match s with c :: r => if is_whitespace c then trim_start r else s | [] => [] end.
Fixpoint trim_end (s : str) : str :=
  match s with
  | [] => []
  | c :: r => match trim_end r with [] => if is_whitespace c then [] else [c] | t => c :: t end
  end.
Definition trim (s : str) : str := trim_end (trim_start s).

(** The value of a string of digits. *)
Fixpoint digits_value (acc : Z) (s : str) : Z := match s with [] => acc | c :: s => digits_value (acc * 10 + (c - 48)) s end.

Definition parse_sign (s : str) : bool * str :=
  match s with c :: r => if c =? 45 then (true, r) else if c =? 43 then (false, r) else (false, s) | [] => (false, []) end.

(** [s.parse::<i64>()]. *)
Definition parse_i64 (s : str) : option Z :=
  let '(neg, ds) := parse_sign s in
  match ds with
  | [] => None
  | _ =>
    if forallb is_ascii_digit ds then
      let v := if neg then - digits_value 0 ds else digits_value 0 ds in
      if (I64_MIN <=? v) && (v <=? I64_MAX) then Some v else None
    else None
  end.

Fixpoint span_digits (s : str) : str * str :=
  match s with
  | c :: r => if is_ascii_digit c then let '(ds, rest) := span_digits r in (c :: ds, rest) else ([], s)
  | [] => ([], [])
  end.

(** The magnitude nearest to [m * 10^e]. *)
Definition nearest_decimal (m e : Z) : Z :=
  if 0 <=? e then round_mag (m * 10 ^ e * UNIT) 1 else round_mag (m * UNIT) (10 ^ (- e)).

(** The double nearest to [m * 10^e], without the power of ten when the bits of
    [m] already show that the number is beyond [10^400] or below [10^-400]
    ([decimal_f64_nearest]). *)
Definition decimal_f64 (neg : bool) (m e : Z) : Z :=
  if m =? 0 then f64_with_sign neg 0
  else if 400 <? e + Z.log2 m / 4 then f64_with_sign neg INF_MAG
  else if e + Z.log2 m / 3 <? -402 then f64_with_sign neg 0
  else f64_with_sign neg (nearest_decimal m e).

(** [s.parse::<f64>()] on decimal literals; the names of infinities and NaN,
    which it also reads, are not finite and no caller uses them. *)
Definition parse_f64 (s : str) : option Z :=
  let '(neg, s1) := parse_sign s in
  let '(ip, s2) := span_digits s1 in
  let '(fp, s3) := match s2 with c :: r => if c =? 46 then span_digits r else ([], s2) | [] => ([], []) end in
  match ip ++ fp with
  | [] => None
  | ds =>
    let finish e := Some (decimal_f64 neg (digits_value 0 ds) (e - len fp)) in
    match s3 with
    | [] => finish 0
    | c :: r =>
      if (c =? 101) || (c =? 69) then
        let '(eneg, es) := parse_sign r in
        match es with
        | [] => None
        | _ => if forallb is_ascii_digit es then finish (if eneg then - digits_value 0 es else digits_value 0 es) else None
        end
      else None
    end
  end.

(** ** [coerce.rs] *)

Fixpoint count_while (pred : Z -> bool) (b : list Z) : Z :=
  match b with c :: b => if pred c then 1 + count_while pred b else 0 | [] => 0 end.

(** [b.get(pos)]. *)
Definition at_pos (b : list Z) (pos : Z) : option Z := b !! Z.to_nat pos.

(** The new position. *)
Definition skip_while (b : list Z) (pos : Z) (pred : Z -> bool) : Z := sat_add pos (count_while pred (drop (Z.to_nat pos) b)).

Definition is_byte (o : option Z) (c : Z) : bool := match o with Some x => x =? c | None => false end.
Definition is_sign (o : option Z) : bool := is_byte o 43 || is_byte o 45.

(** The optional point and fraction digits at [i], after [int_len] digits. *)
Definition scan_fraction (b : list Z) (i int_len : Z) : Z * bool :=
  if is_byte (at_pos b i) 46 then
    let j := skip_while b (sat_add i 1) is_ascii_digit in
    let frac_len := sat_sub j (sat_add i 1) in
    if (0 <? int_len) || (0 <? frac_len) then (j, true) else (i, false)
  else (i, false).

(** The optional exponent at [end_]. *)
Definition scan_exponent (b : list Z) (end_ : Z) (is_float : bool) : Z * bool :=
  if is_byte (at_pos b end_) 101 || is_byte (at_pos b end_) 69 then
    let j := sat_add end_ 1 in
    let j := if is_sign (at_pos b j) then sat_add j 1 else j in
    let j' := skip_while b j is_ascii_digit in
    let exp_digits := sat_sub j' j in
    if 0 <? exp_digits then (j', true) else (end_, is_float)
  else (end_, is_float).

Definition scan_number_prefix (s : str) : option (Z * Z * bool) :=
  let b := as_bytes s in
  let start := skip_while b 0 is_ascii_whitespace in
  let i := if is_sign (at_pos b start) then sat_add start 1 else start in
  let i' := skip_while b i is_ascii_digit in
  let int_len := sat_sub i' i in
  let '(end_, is_float) := scan_fraction b i' int_len in
  if (int_len =? 0) && negb is_float then None
  else let '(end_, is_float) := scan_exponent b end_ is_float in Some (start, end_, is_float).

(** [&s[start..end]] of a range of ASCII bytes. *)
Definition ascii_slice (s : str) (start end_ : Z) : str := take (Z.to_nat (end_ - start)) (drop (Z.to_nat start) (as_bytes s)).

Definition coerce_text_to_numeric (s : str) : Value :=
  match scan_number_prefix s with
  | None => Integer 0
  | Some (start, end_, is_float) =>
    let literal := ascii_slice s start end_ in
    let as_real := match parse_f64 literal with Some r => Real r | None => Integer 0 end in
    if is_float : bool then as_real
    else match parse_i64 literal with Some i => Integer i | None => as_real end
  end.

Definition as_numeric (v : Value) : Value :=
  match v with
  | Integer _ | Real _ => v
  | VText s => coerce_text_to_numeric s
  | Null | Blob _ => Integer 0
  end.

Definition to_f64 (v : Value) : Z := match v with Integer i => f64_of_i64 i | Real r => r | _ => 0 end.

(** [i64]'s checked operations. *)
Definition in_i64 (z : Z) : bool := (I64_MIN <=? z) && (z <=? I64_MAX).
Definition i64_checked (z : Z) : option Z := if in_i64 z then Some z else None.

Definition arith (a b : Value) (int_op : Z -> Z -> option Z) (float_op : Z -> Z -> Z) : Value :=
  match as_numeric a, as_numeric b with
  | Integer x, Integer y =>
    match int_op x y with Some v => Integer v | None => Real (float_op (f64_of_i64 x) (f64_of_i64 y)) end
  | x, y => Real (float_op (to_f64 x) (to_f64 y))
  end.

Definition checked_add (a b : Value) : Value := arith a b (fun x y => i64_checked (x + y)) f64_add.
Definition checked_sub (a b : Value) : Value := arith a b (fun x y => i64_checked (x - y)) f64_sub.
Definition checked_mul (a b : Value) : Value := arith a b (fun x y => i64_checked (x * y)) f64_mul.

Definition checked_div (a b : Value) : Value :=
  match as_numeric a, as_numeric b with
  | Integer x, Integer y =>
    if y =? 0 then Null
    else match i64_checked (Z.quot x y) with Some v => Integer v | None => Real (f64_div (f64_of_i64 x) (f64_of_i64 y)) end
  | x, y => if f64_eqb (to_f64 y) 0 then Null else Real (f64_div (to_f64 x) (to_f64 y))
  end.

Definition cast_to_i64 (v : Value) : Z :=
  match v with
  | Integer i => i
  | Real r => f64_to_i64 r
  | VText s => match coerce_text_to_numeric s with Integer i => i | Real r => f64_to_i64 r | _ => 0 end
  | Null | Blob _ => 0
  end.

Definition is_real (v : Value) : bool := match v with Real _ => true | _ => false end.

(** [checked_rem] of [i64] fails on a zero divisor and on [MIN % -1]. *)
Definition checked_rem (a b : Value) : Value :=
  let na := as_numeric a in let nb := as_numeric b in
  let x := cast_to_i64 na in let y := cast_to_i64 nb in
  if y =? 0 then Null
  else
    let result := if (x =? I64_MIN) && (y =? -1) then 0 else Z.rem x y in
    if is_real na || is_real nb then Real (f64_of_i64 result) else Integer result.

Definition bit_and (a b : Value) : Value := Integer (Z.land (cast_to_i64 (as_numeric a)) (cast_to_i64 (as_numeric b))).
Definition bit_or (a b : Value) : Value := Integer (Z.lor (cast_to_i64 (as_numeric a)) (cast_to_i64 (as_numeric b))).
Definition bit_not (a : Value) : Value := Integer (Z.lnot (cast_to_i64 (as_numeric a))).

(** The shift runs on [u64] and converts back. *)
Definition shift (a b : Z) (leftward : bool) : Z :=
  let '(n, leftward) := if b <? 0 then (if -64 <? b then - b else 64, negb leftward) else (b, leftward) in
  if 64 <=? n then if 0 <=? a then 0 else -1
  else
    let ua := wrap 64 a in
    let not64 z := wrap 64 (Z.lnot z) in
    let result :=
      if leftward then wrap 64 (Z.shiftl ua n)
      else if 0 <=? a then Z.shiftr ua n
      else not64 (Z.shiftr (not64 ua) n) in
    to_signed 64 result.

Definition shift_left (a b : Value) : Value := Integer (shift (cast_to_i64 (as_numeric a)) (cast_to_i64 (as_numeric b)) true).
Definition shift_right (a b : Value) : Value := Integer (shift (cast_to_i64 (as_numeric a)) (cast_to_i64 (as_numeric b)) false).

Definition as_text (v : Value) : str :=
  match v with
  | Null => []
  | Integer i => to_string i
  | Real r => format_real r
  | VText s => s
  | Blob b => from_utf8_lossy b
  end.

Definition concat (a b : Value) : Value := VText (as_text a ++ as_text b).

(** ** [affinity.rs] *)

Inductive Affinity : Type := AffText | AffNumeric | AffInteger | AffReal | AffBlob.
#[global] Instance Affinity_eq_dec : EqDecision Affinity.
Proof. solve_decision. Defined.

Definition to_ascii_uppercase (c : Z) : Z := if (97 <=? c) && (c <=? 122) then c - 32 else c.

Fixpoint starts_with (s p : str) : bool :=
  match p, s with
  | [], _ => true
  | c :: p, d :: s => (c =? d) && starts_with s p
  | _ :: _, [] => false
  end.
Fixpoint contains (s p : str) : bool := starts_with s p || match s with [] => false | _ :: s => contains s p end.

Definition affinity_of (declared_type : str) : Affinity :=
  let upper := map to_ascii_uppercase declared_type in
  if contains upper (lit "INT") then AffInteger
  else if contains upper (lit "CHAR") || contains upper (lit "CLOB") || contains upper (lit "TEXT") then AffText
  else if contains upper (lit "BLOB") || match upper with [] => true | _ => false end then AffBlob
  else if contains upper (lit "REAL") || contains upper (lit "FLOA") || contains upper (lit "DOUB") then AffReal
  else AffNumeric.

Definition to_p4_byte (a : Affinity) : Z :=
  match a with AffBlob => 65 | AffText => 66 | AffNumeric => 67 | AffInteger => 68 | AffReal => 69 end.
Definition from_p4_byte (byte : Z) : Affinity :=
  if byte =? 66 then AffText else if byte =? 67 then AffNumeric else if byte =? 68 then AffInteger else if byte =? 69 then AffReal else AffBlob.
Definition is_numeric (a : Affinity) : bool := match a with AffNumeric | AffInteger | AffReal => true | _ => false end.

Definition comparison_affinity (lhs rhs : option Affinity) : Affinity :=
  match lhs, rhs with
  | Some a, Some b => if is_numeric a || is_numeric b then AffNumeric else AffBlob
  | Some a, None | None, Some a => a
  | None, None => AffBlob
  end.

Definition parse_well_formed_number (s : str) : option Value :=
  let trimmed := trim s in
  match trimmed with
  | [] => None
  | _ =>
    match parse_i64 trimmed with
    | Some i => Some (Integer i)
    | None => match parse_f64 trimmed with Some r => if f64_is_finite r then Some (Real r) else None | None => None end
    end
  end.

Definition apply_affinity (value : Value) (affinity : Affinity) : Value :=
  match affinity with
  | AffBlob => value
  | AffText => match value with Integer i => VText (to_string i) | Real r => VText (format_real r) | _ => value end
  | _ =>
    let value := match value with VText s => default value (parse_well_formed_number s) | _ => value end in
    if decide (affinity = AffReal) then match value with Integer i => Real (f64_of_i64 i) | _ => value end else value
  end.

(** ** [cast.rs] *)

Definition cast_to_text (value : Value) : Value :=
  match value with
  | VText _ => value
  | Integer i => VText (to_string i)
  | Real r => VText (format_real r)
  | Blob bytes => VText (from_utf8_lossy bytes)
  | Null => Null
  end.

Definition cast_to_blob (value : Value) : Value :=
  match value with
  | Blob _ => value
  | VText s => Blob (as_bytes s)
  | Integer i => Blob (as_bytes (to_string i))
  | Real r => Blob (as_bytes (format_real r))
  | Null => Null
  end.

Definition real_to_i64 (r : Z) : Z := f64_to_i64 r.
Definition integer_from_numeric (numeric : Value) : Value :=
  match numeric with Integer i => Integer i | Real r => Integer (real_to_i64 r) | _ => Integer 0 end.
Definition cast_to_integer (value : Value) : Value :=
  match value with
  | Integer _ => value
  | Real r => Integer (real_to_i64 r)
  | VText s => integer_from_numeric (coerce_text_to_numeric s)
  | Blob bytes => integer_from_numeric (coerce_text_to_numeric (from_utf8_lossy bytes))
  | Null => Null
  end.

Definition real_from_numeric (numeric : Value) : Value :=
  match numeric with Real r => Real r | Integer i => Real (f64_of_i64 i) | _ => Real 0 end.
Definition cast_to_real (value : Value) : Value :=
  match value with
  | Real _ => value
  | Integer i => Real (f64_of_i64 i)
  | VText s => real_from_numeric (coerce_text_to_numeric s)
  | Blob bytes => real_from_numeric (coerce_text_to_numeric (from_utf8_lossy bytes))
  | Null => Null
  end.

(** [r.fract() == 0.0]: false for infinities and NaN. *)
Definition fract_is_zero (r : Z) : bool := f64_is_finite r && (Z.rem (f64_num r) UNIT =? 0).
Definition in_i64_range (r : Z) : bool := f64_leb F64_MINUS_TWO63 r && f64_ltb r F64_TWO63.

Definition downgrade_whole_reals (numeric : Value) : Value :=
  match numeric with
  | Real r => if fract_is_zero r && f64_is_finite r && in_i64_range r then Integer (real_to_i64 r) else numeric
  | _ => numeric
  end.
Definition cast_to_numeric (value : Value) : Value :=
  match value with
  | Integer _ | Real _ => value
  | VText s => downgrade_whole_reals (coerce_text_to_numeric s)
  | Blob bytes => downgrade_whole_reals (coerce_text_to_numeric (from_utf8_lossy bytes))
  | Null => Null
  end.

Definition cast_to (value : Value) (target : Affinity) : Value :=
  match value with
  | Null => Null
  | _ =>
    match target with
    | AffText => cast_to_text value
    | AffBlob => cast_to_blob value
    | AffInteger => cast_to_integer value
    | AffReal => cast_to_real value
    | AffNumeric => cast_to_numeric value
    end
  end.

(** The cases of the source's tests. *)
Example coerce_samples :
  map coerce_text_to_numeric [lit "123abc"; lit "3.14xyz"; lit "abc"; lit ""; lit "  -7"; lit ".5"; lit "1e3"; lit "1e"; lit "9223372036854775808"]
  = [Integer 123; Real 4614253070214989087; Integer 0; Integer 0; Integer (-7); Real 4602678819172646912; Real 4652007308841189376; Integer 1; Real F64_TWO63].
Proof. by vm_compute. Qed.

Example affinity_samples :
  map affinity_of [lit "INTEGER"; lit "varchar(10)"; lit ""; lit "double"; lit "DECIMAL(10,5)"; lit "floating point"]
  = [AffInteger; AffText; AffBlob; AffReal; AffNumeric; AffInteger].
Proof. by vm_compute. Qed.

(** ** Decimal text *)

Lemma digits_value_app s : forall acc t, digits_value acc (s ++ t) = digits_value (digits_value acc s) t.
Proof. induction s as [|c s IH]; intros acc t; cbn; [done|apply IH]. Qed.

Lemma digits_loop_ok fuel : forall n, 0 <= n < 2 ^ (Z.of_nat fuel + 1) ->
  digits_value 0 (digits_loop fuel n) = n /\ forallb is_ascii_digit (digits_loop fuel n) = true /\ digits_loop fuel n <> [].
Proof.
  induction fuel as [|fuel IH]; intros n Hn; cbn [digits_loop].
  { change (2 ^ (Z.of_nat 0 + 1)) with 2 in Hn. rewrite Z.mod_small by lia. cbn [digits_value forallb]. unfold is_ascii_digit.
    rewrite !(proj2 (Z.leb_le _ _)) by lia. split; [lia|done]. }
  destruct (Z.ltb_spec n 10) as [H10|H10].
  - cbn [digits_value forallb]. unfold is_ascii_digit. rewrite !(proj2 (Z.leb_le _ _)) by lia. split; [lia|done].
  - replace (Z.of_nat (S fuel) + 1) with (Z.succ (Z.of_nat fuel + 1)) in Hn by lia. rewrite Z.pow_succ_r in Hn by lia.
    pose proof (Z.div_mod n 10 ltac:(lia)) as Hd. pose proof (Z.mod_pos_bound n 10 ltac:(lia)) as Hm.
    destruct (IH (n / 10) ltac:(lia)) as (H1 & H2 & H3). rewrite digits_value_app, H1, forallb_app, H2. cbn [digits_value forallb].
    unfold is_ascii_digit. rewrite !(proj2 (Z.leb_le _ _)) by lia. split; [lia|]. split; [done|by destruct (digits_loop fuel (n / 10))].
Qed.

Lemma decimal_ok n : 0 <= n -> digits_value 0 (decimal n) = n /\ forallb is_ascii_digit (decimal n) = true /\ decimal n <> [].
Proof.
  intros Hn. apply digits_loop_ok. split; [done|]. rewrite Z2Nat.id by apply Z.log2_nonneg.
  destruct (decide (n = 0)) as [->|]; [done|]. rewrite Z.add_1_r. apply Z.log2_spec. lia.
Qed.

Lemma parse_to_string i : is_i64 i -> parse_i64 (to_string i) = Some i.
Proof.
  intros Hi. unfold parse_i64, to_string. destruct (Z.ltb_spec i 0) as [H0|H0].
  - destruct (decimal_ok (- i) ltac:(lia)) as (H1 & H2 & H3). cbn [parse_sign]. rewrite Z.eqb_refl.
    destruct (decimal (- i)) as [|c l] eqn:E; [done|]. rewrite H2, H1. unfold is_i64, I64_MIN, I64_MAX in *.
    rewrite !(proj2 (Z.leb_le _ _)) by lia. f_equal. lia.
  - destruct (decimal_ok i H0) as (H1 & H2 & H3). destruct (decimal i) as [|c l] eqn:E; [done|].
    assert (48 <= c <= 57) as Hc by (cbn [forallb] in H2; unfold is_ascii_digit in H2; lia).
    cbn [parse_sign]. rewrite (proj2 (Z.eqb_neq c 45)), (proj2 (Z.eqb_neq c 43)) by lia.
    rewrite H2, H1. unfold is_i64, I64_MIN, I64_MAX in *. by rewrite !(proj2 (Z.leb_le _ _)) by lia.
Qed.

(** ** Runs of characters *)

Definition all (pred : Z -> bool) (s : list Z) : Prop := forallb pred s = true.

Lemma count_while_app pred s t : all pred s -> match t with c :: _ => pred c = false | [] => True end -> count_while pred (s ++ t) = len s.
Proof.
  induction s as [|c s IH]; intros Hs Ht; cbn.
  - destruct t as [|c t]; cbn; [done|by rewrite Ht].
  - cbn in Hs. apply andb_true_iff in Hs as [-> Hs]. rewrite IH by done. by rewrite len_cons.
Qed.

(** The run found at a position. *)
Lemma skip_while_at b pos run rest pred :
  0 <= pos -> drop (Z.to_nat pos) b = run ++ rest -> all pred run -> match rest with c :: _ => pred c = false | [] => True end ->
  pos + len run < U64_MAX -> skip_while b pos pred = pos + len run.
Proof.
  intros Hp Hd Hr Ht Hb. unfold skip_while. rewrite Hd, count_while_app by done. apply sat_add_small. pose proof (len_nonneg run). lia.
Qed.

Lemma ascii_bytes s : Forall (fun c => 0 <= c < 128) s -> as_bytes s = s.
Proof.
  induction 1 as [|c s Hc Hs IH]; [done|]. cbn [as_bytes]. rewrite IH. unfold utf8_encode_char. by rewrite (proj2 (Z.ltb_lt _ _)) by lia.
Qed.

Lemma digits_ascii s : all is_ascii_digit s -> Forall (fun c => 0 <= c < 128) s.
Proof.
  unfold all. rewrite forallb_forall. intros H. apply Forall_forall. intros x Hx. pose proof (H x Hx) as Hd.
  unfold is_ascii_digit in Hd. lia.
Qed.

(** ** Numeric literals

    The literals [scan_number_prefix] recognises: a sign, digits, a fraction,
    an exponent. *)

Record Literal := MkLiteral { lt_sign : option bool; lt_int : str; lt_frac : option str; lt_exp : option (Z * option bool * str) }.

Definition sign_text (s : option bool) : str := match s with Some true => [45] | Some false => [43] | None => [] end.
Definition sign_neg (s : option bool) : bool := match s with Some true => true | _ => false end.
Definition frac_text (f : option str) : str := match f with Some ds => 46 :: ds | None => [] end.
Definition exp_text (e : option (Z * option bool * str)) : str := match e with Some (c, sg, ds) => c :: sign_text sg ++ ds | None => [] end.
Definition render (l : Literal) : str := sign_text (lt_sign l) ++ lt_int l ++ frac_text (lt_frac l) ++ exp_text (lt_exp l).

Definition literal_ok (l : Literal) : Prop :=
  all is_ascii_digit (lt_int l) /\ (forall ds, lt_frac l = Some ds -> all is_ascii_digit ds) /\
  lt_int l ++ default [] (lt_frac l) <> [] /\
  (forall c sg ds, lt_exp l = Some (c, sg, ds) -> (c = 101 \/ c = 69) /\ all is_ascii_digit ds /\ ds <> []).

Definition is_float_literal (l : Literal) : bool := match lt_frac l, lt_exp l with None, None => false | _, _ => true end.

Definition head_is (pred : Z -> bool) (s : str) : bool := match s with c :: _ => pred c | [] => false end.
(** An exponent with at least one digit. *)
Definition exponent_ahead (s : str) : bool :=
  match s with
  | c :: r => ((c =? 101) || (c =? 69)) && head_is is_ascii_digit (if head_is (fun c => (c =? 43) || (c =? 45)) r then drop 1 r else r)
  | [] => false
  end.
(** The literal cannot be extended into what follows it. *)
Definition maximal (l : Literal) (rest : str) : Prop :=
  head_is is_ascii_digit rest = false /\ (lt_exp l = None -> exponent_ahead rest = false) /\
  (lt_exp l = None -> lt_frac l = None -> head_is (Z.eqb 46) rest = false).

(** The number a literal denotes: the double nearest to its exact value. *)
Definition literal_f64 (l : Literal) : Z :=
  let ds := lt_int l ++ default [] (lt_frac l) in
  let e := match lt_exp l with Some (_, sg, es) => if sign_neg sg then - digits_value 0 es else digits_value 0 es | None => 0 end in
  f64_with_sign (sign_neg (lt_sign l)) (nearest_decimal (digits_value 0 ds) (e - len (default [] (lt_frac l)))).

Lemma drop_len {A} (a t : list A) : drop (Z.to_nat (len a)) (a ++ t) = t.
Proof. unfold len. rewrite Nat2Z.id. apply drop_app_length. Qed.

Lemma at_len (a t : list Z) : at_pos (a ++ t) (len a) = head t.
Proof. unfold at_pos, len. rewrite Nat2Z.id, lookup_app_r, Nat.sub_diag by lia. by destruct t. Qed.

(** A run in the middle of a text. *)
Lemma skip_run b a run rest pred : b = a ++ run ++ rest -> all pred run -> head_is pred rest = false -> len b < U64_MAX ->
  skip_while b (len a) pred = len (a ++ run).
Proof.
  intros -> Hr Ht Hb. rewrite !len_app in *. pose proof (len_nonneg a). pose proof (len_nonneg rest).
  apply (skip_while_at _ _ run rest); [lia|apply drop_len|done|by destruct rest|lia].
Qed.

Lemma head_digit_not_sign t : head_is is_ascii_digit t = true -> is_sign (head t) = false /\ is_byte (head t) 46 = false.
Proof.
  destruct t as [|c t]; [done|]. cbn. unfold is_ascii_digit, is_sign, is_byte. intros ?. cbn.
  rewrite !(proj2 (Z.eqb_neq _ _)) by lia. done.
Qed.

Lemma all_head pred ds t : all pred ds -> ds <> [] -> head_is pred (ds ++ t) = true.
Proof. intros Ha Hn. destruct ds as [|d ds]; [done|]. cbn in Ha |- *. by apply andb_true_iff in Ha as [-> _]. Qed.

(** A sign in the middle of a text, before digits or a point. *)
Lemma skip_sign b a sg t : b = a ++ sign_text sg ++ t -> (sg = None -> is_sign (head t) = false) -> len b < U64_MAX ->
  (if is_sign (at_pos b (len a)) then sat_add (len a) 1 else len a) = len (a ++ sign_text sg).
Proof.
  intros -> Ht Hb. rewrite at_len, !len_app in *. pose proof (len_nonneg a). pose proof (len_nonneg t).
  destruct sg as [[]|]; cbn [sign_text app] in *; cbn [head].
  1,2: replace (is_sign (Some _)) with true by done; cbn; apply sat_add_small; lia.
  rewrite (Ht eq_refl). change (len (@nil Z)) with 0. lia.
Qed.

Lemma is_byte_head t c : is_byte (head t) c = head_is (Z.eqb c) t.
Proof. destruct t as [|x t]; [done|]. cbn. apply Z.eqb_sym. Qed.

Lemma skip_byte (b a : list Z) c t : b = a ++ c :: t -> len b < U64_MAX -> sat_add (len a) 1 = len (a ++ [c]).
Proof.
  intros -> Hb. rewrite !len_app, ?len_cons in *. change (len (@nil Z)) with 0. pose proof (len_nonneg a). pose proof (len_nonneg t). apply sat_add_small. lia.
Qed.

Lemma sat_sub_len {A} (a c : list A) : sat_sub (len (a ++ c)) (len a) = len c.
Proof. rewrite len_app. pose proof (len_nonneg a). pose proof (len_nonneg c). rewrite sat_sub_small by lia. lia. Qed.

Lemma len_pos_neq {A} (l : list A) : l <> [] -> (0 <? len l) = true.
Proof. destruct l; [done|]. intros _. apply Z.ltb_lt. rewrite len_cons. pose proof (len_nonneg l). lia. Qed.

Lemma scan_fraction_ok b a f t int_len :
  b = a ++ frac_text f ++ t -> len b < U64_MAX -> (forall ds, f = Some ds -> all is_ascii_digit ds /\ ((0 <? int_len) = true \/ ds <> [])) ->
  head_is is_ascii_digit t = false -> (f = None -> head_is (Z.eqb 46) t = false) ->
  scan_fraction b (len a) int_len = (len (a ++ frac_text f), match f with Some _ => true | None => false end).
Proof.
  intros Eb Hb Hf Ht Hp. unfold scan_fraction. rewrite Eb at 1. rewrite at_len, is_byte_head. destruct f as [ds|]; cbn [frac_text app head_is].
  - destruct (Hf ds eq_refl) as [Hd Hn]. cbn [frac_text app] in Eb. rewrite Z.eqb_refl.
    rewrite (skip_byte b a 46 (ds ++ t) Eb Hb).
    assert (b = (a ++ [46]) ++ ds ++ t) as Eb' by (by rewrite Eb, <- app_assoc).
    rewrite (skip_run b (a ++ [46]) ds t _ Eb' Hd Ht Hb), sat_sub_len.
    replace ((0 <? int_len) || (0 <? len ds)) with true by (symmetry; apply orb_true_iff; destruct Hn; [by left|right; by apply len_pos_neq]).
    by rewrite <- app_assoc.
  - rewrite (Hp eq_refl). by rewrite app_nil_r.
Qed.

Lemma scan_exponent_ok b a e t fl :
  b = a ++ exp_text e ++ t -> len b < U64_MAX ->
  (forall c sg ds, e = Some (c, sg, ds) -> (c = 101 \/ c = 69) /\ all is_ascii_digit ds /\ ds <> []) ->
  head_is is_ascii_digit t = false -> (e = None -> exponent_ahead t = false) ->
  scan_exponent b (len a) fl = (len (a ++ exp_text e), match e with Some _ => true | None => fl end).
Proof.
  intros Eb Hb He Ht Hx. unfold scan_exponent. rewrite Eb at 1 2. rewrite at_len. destruct e as [[[c sg] ds]|]; cbn [exp_text app] in *.
  - destruct (He c sg ds eq_refl) as (Hc & Hd & Hn). cbn [head is_byte]. replace ((c =? 101) || (c =? 69)) with true by (destruct Hc as [-> | ->]; done).
    rewrite <- app_assoc in Eb. rewrite (skip_byte b a c _ Eb Hb).
    assert (b = (a ++ [c]) ++ sign_text sg ++ (ds ++ t)) as Eb1 by (by rewrite Eb, <- app_assoc).
    rewrite (skip_sign b (a ++ [c]) sg (ds ++ t) Eb1 (fun _ => proj1 (head_digit_not_sign _ (all_head _ _ t Hd Hn))) Hb).
    assert (b = ((a ++ [c]) ++ sign_text sg) ++ ds ++ t) as Eb2 by (by rewrite Eb1, <- !app_assoc).
    rewrite (skip_run b _ ds t _ Eb2 Hd Ht Hb), sat_sub_len, (len_pos_neq ds Hn). by rewrite <- !app_assoc.
  - rewrite app_nil_r. specialize (Hx eq_refl). destruct t as [|c r]; [done|]. cbn [head is_byte exponent_ahead] in *.
    destruct ((c =? 101) || (c =? 69)) eqn:Ec; [|done]. cbn [andb] in Hx. rewrite (skip_byte b a c r Eb Hb).
    assert (b = (a ++ [c]) ++ r) as Eb1 by (by rewrite Eb, <- app_assoc).
    assert (at_pos b (len (a ++ [c])) = head r) as Eat by (by rewrite Eb1, at_len). rewrite !Eat.
    assert (forall a2 t2, b = a2 ++ t2 -> head_is is_ascii_digit t2 = false -> (0 <? sat_sub (skip_while b (len a2) is_ascii_digit) (len a2)) = false) as Hend.
    { intros a2 t2 E2 H2. rewrite (skip_run b a2 [] t2 _ E2 eq_refl H2 Hb), sat_sub_len. done. }
    destruct r as [|d r]; cbn [head is_sign is_byte head_is drop] in *.
    + cbn. rewrite (Hend (a ++ [c]) [] Eb1 eq_refl). done.
    + unfold is_sign, is_byte. destruct ((d =? 43) || (d =? 45)) eqn:Ed.
      * rewrite (skip_byte b (a ++ [c]) d r Eb1 Hb). cbn [drop] in Hx. rewrite (Hend ((a ++ [c]) ++ [d]) r); [done|by rewrite Eb1, <- !app_assoc|done].
      * rewrite (Hend (a ++ [c]) (d :: r) Eb1 Hx). done.
Qed.

Definition starts_number (c : Z) : bool := is_ascii_digit c || (c =? 43) || (c =? 45) || (c =? 46).

Lemma render_head l t : literal_ok l -> head_is starts_number (render l ++ t) = true.
Proof.
  intros (Hi & Hf & Hn & He). unfold render. destruct (lt_sign l) as [[]|]; [done|done|]. cbn [sign_text app].
  destruct (lt_int l) as [|d ds] eqn:Ei; [|cbn in Hi |- *; unfold starts_number; by apply andb_true_iff in Hi as [-> _]].
  destruct (lt_frac l) as [ds|] eqn:Ef; [done|done].
Qed.

Lemma starts_not_space t : head_is starts_number t = true -> head_is is_ascii_whitespace t = false.
Proof. destruct t as [|c t]; [done|]. cbn. unfold starts_number, is_ascii_digit, is_ascii_whitespace. lia. Qed.

(** After the digits comes neither a digit nor, without a fraction, a point. *)
Lemma tail_not_digit l rest : literal_ok l -> maximal l rest -> head_is is_ascii_digit (exp_text (lt_exp l) ++ rest) = false /\
  (lt_frac l = None -> head_is (Z.eqb 46) (exp_text (lt_exp l) ++ rest) = false).
Proof.
  intros (_ & _ & _ & He) (H1 & _ & H3). destruct (lt_exp l) as [[[c sg] ds]|]; [|by auto].
  destruct (He c sg ds eq_refl) as ([-> | ->] & _); done.
Qed.

Lemma scan_literal s ws l rest :
  as_bytes s = ws ++ render l ++ rest -> len (as_bytes s) < U64_MAX -> all is_ascii_whitespace ws -> literal_ok l -> maximal l rest ->
  scan_number_prefix s = Some (len ws, len (ws ++ render l), is_float_literal l).
Proof.
  intros Eb Hb Hws Hl Hmax. unfold scan_number_prefix. set (b := as_bytes s) in *.
  destruct (tail_not_digit l rest Hl Hmax) as [Htd Htp]. pose proof (render_head l rest Hl) as Hhd. destruct Hl as (Hi & Hf & Hn & He).
  pose proof (skip_run b [] ws _ _ Eb Hws (starts_not_space _ Hhd) Hb) as Ews. change (len []) with 0 in Ews. rewrite Ews. cbn [app].
  cbv zeta. unfold render in Eb |- *. rewrite <- !app_assoc in Eb.
  set (tail := exp_text (lt_exp l) ++ rest) in *.
  assert (is_sign (head (lt_int l ++ frac_text (lt_frac l) ++ tail)) = false) as Hs.
  { destruct (lt_int l) as [|d ds] eqn:Ei; [|apply head_digit_not_sign, all_head; done].
    destruct (lt_frac l) as [ds|]; [done|]. by cbn in Hn. }
  rewrite (skip_sign b ws (lt_sign l) _ Eb (fun _ => Hs) Hb).
  assert (b = (ws ++ sign_text (lt_sign l)) ++ lt_int l ++ (frac_text (lt_frac l) ++ tail)) as Eb1 by (by rewrite Eb, <- !app_assoc).
  assert (head_is is_ascii_digit (frac_text (lt_frac l) ++ tail) = false) as Hfd by (destruct (lt_frac l); [done|exact Htd]).
  rewrite (skip_run b _ (lt_int l) _ _ Eb1 Hi Hfd Hb), sat_sub_len.
  assert (b = ((ws ++ sign_text (lt_sign l)) ++ lt_int l) ++ frac_text (lt_frac l) ++ tail) as Eb2 by (by rewrite Eb1, <- !app_assoc).
  rewrite (scan_fraction_ok b _ (lt_frac l) tail (len (lt_int l)) Eb2 Hb).
  - assert ((len (lt_int l) =? 0) && negb (match lt_frac l with Some _ => true | None => false end) = false) as ->.
    { destruct (lt_frac l); [apply andb_false_r|]. cbn [negb]. rewrite andb_true_r. cbn in Hn. rewrite app_nil_r in Hn.
      pose proof (len_pos_neq _ Hn) as H0. apply Z.eqb_neq. lia. }
    assert (b = (((ws ++ sign_text (lt_sign l)) ++ lt_int l) ++ frac_text (lt_frac l)) ++ exp_text (lt_exp l) ++ rest) as Eb3 by (by rewrite Eb2; unfold tail; rewrite <- !app_assoc).
    destruct Hmax as (M1 & M2 & _). rewrite (scan_exponent_ok b _ (lt_exp l) rest _ Eb3 Hb He M1 M2).
    rewrite <- !app_assoc. unfold is_float_literal. by destruct (lt_frac l), (lt_exp l).
  - intros ds Eds. split; [by apply Hf|]. destruct (lt_int l) as [|d ints] eqn:Ei; [right|by left; apply len_pos_neq].
    rewrite Eds in Hn. cbn in Hn. done.
  - exact Htd.
  - exact Htp.
Qed.

(** The literal that was found is the one cut out. *)
Lemma slice_literal s ws l rest : as_bytes s = ws ++ render l ++ rest -> ascii_slice s (len ws) (len (ws ++ render l)) = render l.
Proof.
  intros Eb. unfold ascii_slice. rewrite Eb, drop_len, len_app. replace (len ws + len (render l) - len ws) with (len (render l)) by lia.
  unfold len. rewrite Nat2Z.id. apply take_app_length.
Qed.

Lemma parse_sign_text sg t : is_sign (head t) = false -> parse_sign (sign_text sg ++ t) = (sign_neg sg, t).
Proof.
  intros Ht. destruct sg as [[]|]; [done|done|]. cbn [sign_text app sign_neg]. destruct t as [|c t]; [done|]. cbn [head] in Ht. unfold is_sign, is_byte in Ht.
  apply orb_false_iff in Ht as [H1 H2]. cbn [parse_sign]. by rewrite H2, H1.
Qed.

Lemma span_digits_ok ds t : all is_ascii_digit ds -> head_is is_ascii_digit t = false -> span_digits (ds ++ t) = (ds, t).
Proof.
  intros Hd Ht. induction ds as [|d ds IH].
  - destruct t as [|c t]; [done|]. cbn in Ht |- *. by rewrite Ht.
  - cbn in Hd. apply andb_true_iff in Hd as [Hd Hds]. cbn. rewrite Hd, IH by done. done.
Qed.

Lemma pow_log_lower m : 0 < m -> 10 ^ (Z.log2 m / 4) <= m.
Proof.
  intros Hm. pose proof (Z.log2_nonneg m). pose proof (Z.div_pos (Z.log2 m) 4 ltac:(lia) ltac:(lia)).
  transitivity (16 ^ (Z.log2 m / 4)); [apply Z.pow_le_mono_l; lia|]. change 16 with (2 ^ 4). rewrite <- Z.pow_mul_r by lia.
  transitivity (2 ^ Z.log2 m); [|by apply Z.log2_spec]. apply Z.pow_le_mono_r; [lia|]. apply Z.mul_div_le. lia.
Qed.

Lemma pow_log_upper m : 0 < m -> m < 10 ^ (Z.log2 m / 3 + 1).
Proof.
  intros Hm. pose proof (Z.log2_nonneg m). pose proof (Z.div_pos (Z.log2 m) 3 ltac:(lia) ltac:(lia)).
  eapply Z.lt_le_trans; [by apply Z.log2_spec|]. transitivity (8 ^ (Z.log2 m / 3 + 1)); [|apply Z.pow_le_mono_l; lia].
  change 8 with (2 ^ 3). rewrite <- Z.pow_mul_r by lia. apply Z.pow_le_mono_r; [lia|].
  pose proof (Z.div_mod (Z.log2 m) 3 ltac:(lia)). pose proof (Z.mod_pos_bound (Z.log2 m) 3 ltac:(lia)). lia.
Qed.

Lemma decimal_overflow m e : 0 < m -> 400 < e + Z.log2 m / 4 -> nearest_decimal m e = INF_MAG.
Proof.
  intros Hm He. pose proof (pow_log_lower m Hm) as Hl. pose proof (Z.log2_nonneg m). pose proof (Z.div_pos (Z.log2 m) 4 ltac:(lia) ltac:(lia)) as Hd.
  assert (2 ^ 2098 <= 10 ^ 400 * UNIT) as Hbig by (apply Z.leb_le; by vm_compute).
  unfold nearest_decimal. destruct (Z.leb_spec 0 e) as [Hsg|Hsg].
  - apply round_mag_overflow; [done|]. rewrite Z.mul_1_r. etransitivity; [exact Hbig|]. apply Z.mul_le_mono_nonneg_r; [pose proof UNIT_pos; lia|].
    transitivity (10 ^ (Z.log2 m / 4) * 10 ^ e); [|apply Z.mul_le_mono_nonneg_r; [apply Z.pow_nonneg; lia|done]].
    rewrite <- Z.pow_add_r by lia. apply Z.pow_le_mono_r; lia.
  - apply round_mag_overflow; [apply Z.pow_pos_nonneg; lia|]. transitivity (10 ^ 400 * UNIT * 10 ^ (- e)).
    { apply Z.mul_le_mono_nonneg_r; [apply Z.pow_nonneg; lia|done]. }
    replace (10 ^ 400 * UNIT * 10 ^ (- e)) with (10 ^ 400 * 10 ^ (- e) * UNIT) by ring. apply Z.mul_le_mono_nonneg_r; [pose proof UNIT_pos; lia|].
    rewrite <- Z.pow_add_r by lia. etransitivity; [|exact Hl]. apply Z.pow_le_mono_r; lia.
Qed.

Lemma decimal_underflow m e : 0 < m -> e + Z.log2 m / 3 < -402 -> nearest_decimal m e = 0.
Proof.
  intros Hm He. pose proof (pow_log_upper m Hm) as Hu. pose proof (Z.log2_nonneg m). pose proof (Z.div_pos (Z.log2 m) 3 ltac:(lia) ltac:(lia)) as Hd.
  assert (2 * UNIT <= 10 ^ 400) as Hbig by (apply Z.leb_le; by vm_compute). pose proof UNIT_pos.
  unfold nearest_decimal. destruct (Z.leb_spec 0 e) as [Hsg|Hsg]; [lia|]. apply round_mag_underflow; [nia|].
  apply Z.lt_le_trans with (10 ^ (Z.log2 m / 3 + 1) * 10 ^ 400); [nia|]. rewrite <- Z.pow_add_r by lia. apply Z.pow_le_mono_r; lia.
Qed.

(** The shortcuts of [decimal_f64] do not change its result. *)
Lemma decimal_f64_nearest neg m e : 0 <= m -> decimal_f64 neg m e = f64_with_sign neg (nearest_decimal m e).
Proof.
  intros Hm. unfold decimal_f64. destruct (Z.eqb_spec m 0) as [->|Hne].
  { unfold nearest_decimal. destruct (Z.leb_spec 0 e); [by rewrite !Z.mul_0_l|]. rewrite Z.mul_0_l, round_mag_underflow; [done|done|]. apply Z.pow_pos_nonneg; lia. }
  destruct (Z.ltb_spec 400 (e + Z.log2 m / 4)); [by rewrite decimal_overflow by lia|].
  destruct (Z.ltb_spec (e + Z.log2 m / 3) (-402)); [by rewrite decimal_underflow by lia|done].
Qed.

(** Leading zeros do not count towards the magnitude. *)
Example leading_zeros : parse_f64 (repeat 48 400 ++ lit "1.5") = Some 4609434218613702656.
Proof. by vm_compute. Qed.
Example small_literal : parse_f64 (lit "0." ++ repeat 48 450 ++ lit "1e451") = Some (f64_of_i64 1).
Proof. by vm_compute. Qed.

Lemma digits_value_nonneg s : forall acc, 0 <= acc -> all is_ascii_digit s -> 0 <= digits_value acc s.
Proof.
  induction s as [|c s IH]; intros acc Ha Hs; cbn; [done|]. cbn in Hs. apply andb_true_iff in Hs as [Hc Hs]. unfold is_ascii_digit in Hc. apply IH; [lia|done].
Qed.

Lemma parse_f64_literal l : literal_ok l -> parse_f64 (render l) = Some (literal_f64 l).
Proof.
  intros Hl. assert (maximal l []) as Hmax by done. destruct (tail_not_digit l [] Hl Hmax) as [Htd Htp]. rewrite app_nil_r in Htd, Htp.
  destruct Hl as (Hi & Hf & Hn & He). unfold parse_f64, render.
  assert (head_is is_ascii_digit (frac_text (lt_frac l) ++ exp_text (lt_exp l)) = false) as Hfd by (destruct (lt_frac l); [done|exact Htd]).
  rewrite parse_sign_text.
  2: { destruct (lt_int l) as [|d ds] eqn:Ei; [|apply head_digit_not_sign, all_head; done]. destruct (lt_frac l) as [ds|]; [done|]. by cbn in Hn. }
  rewrite span_digits_ok by done.
  assert ((match frac_text (lt_frac l) ++ exp_text (lt_exp l) with c :: r => if c =? 46 then span_digits r else ([], frac_text (lt_frac l) ++ exp_text (lt_exp l)) | [] => ([], []) end)
    = (default [] (lt_frac l), exp_text (lt_exp l))) as ->.
  { destruct (lt_frac l) as [ds|]; cbn [frac_text app default from_option].
    - rewrite Z.eqb_refl. apply span_digits_ok; [by apply Hf|done].
    - specialize (Htp eq_refl). destruct (exp_text (lt_exp l)) as [|c r]; [done|]. cbn [head_is] in Htp. rewrite Z.eqb_sym in Htp. by rewrite Htp. }
  assert (0 <= digits_value 0 (lt_int l ++ default [] (lt_frac l))) as Hnn.
  { apply digits_value_nonneg; [done|]. unfold all in *. rewrite forallb_app, Hi. destruct (lt_frac l); [by apply Hf|done]. }
  destruct (lt_int l ++ default [] (lt_frac l)) as [|d ds] eqn:Eds; [done|]. unfold literal_f64. rewrite Eds, <- decimal_f64_nearest by done.
  destruct (lt_exp l) as [[[c sg] es]|]; cbn [exp_text]; [|done].
  destruct (He c sg es eq_refl) as (Hc & Hes & Hne). replace ((c =? 101) || (c =? 69)) with true by (destruct Hc as [-> | ->]; done).
  rewrite parse_sign_text by (rewrite <- (app_nil_r es); apply head_digit_not_sign, all_head; done).
  destruct es as [|x es]; [done|]. unfold all in Hes. by rewrite Hes.
Qed.

(** The number a literal converts to: an integer when it has neither point nor
    exponent and fits. *)
Definition literal_value (l : Literal) : Value :=
  let v := if sign_neg (lt_sign l) then - digits_value 0 (lt_int l) else digits_value 0 (lt_int l) in
  if is_float_literal l then Real (literal_f64 l)
  else if in_i64 v then Integer v else Real (literal_f64 l).

(** No number after the whitespace and the sign: no digit, and no point with
    a digit behind it. *)
Definition no_number (ws : str) (sg : option bool) (t : str) : Prop :=
  all is_ascii_whitespace ws /\ head_is is_ascii_digit t = false /\
  (head_is (Z.eqb 46) t = true -> head_is is_ascii_digit (drop 1 t) = false) /\
  (sg = None -> head_is is_ascii_whitespace t = false /\ is_sign (head t) = false).

Lemma coerce_literal s ws l rest :
  as_bytes s = ws ++ render l ++ rest -> len (as_bytes s) < U64_MAX -> all is_ascii_whitespace ws -> literal_ok l -> maximal l rest ->
  coerce_text_to_numeric s = literal_value l.
Proof.
  intros Eb Hb Hws Hl Hmax. unfold coerce_text_to_numeric. rewrite (scan_literal s ws l rest Eb Hb Hws Hl Hmax), (slice_literal s ws l rest Eb).
  rewrite (parse_f64_literal l Hl). unfold literal_value. destruct (is_float_literal l) eqn:Ef; [done|].
  unfold is_float_literal in Ef. destruct (lt_frac l) eqn:E1; [done|]. destruct (lt_exp l) eqn:E2; [done|].
  destruct Hl as (Hi & _ & Hn & _). rewrite E1 in Hn. cbn in Hn. rewrite app_nil_r in Hn.
  assert (parse_i64 (render l) = i64_checked (if sign_neg (lt_sign l) then - digits_value 0 (lt_int l) else digits_value 0 (lt_int l))) as ->;
    [|unfold i64_checked; by destruct (in_i64 _)].
  unfold render, parse_i64. rewrite E1, E2. cbn [frac_text exp_text]. rewrite !app_nil_r.
  rewrite parse_sign_text by (rewrite <- (app_nil_r (lt_int l)); apply head_digit_not_sign, all_head; done).
  destruct (lt_int l) as [|d ds]; [done|]. unfold all in Hi. rewrite Hi. done.
Qed.

Lemma coerce_no_number s ws sg t :
  as_bytes s = ws ++ sign_text sg ++ t -> len (as_bytes s) < U64_MAX -> no_number ws sg t -> coerce_text_to_numeric s = Integer 0.
Proof.
  intros Eb Hb (Hws & Hd & Hp & Hsg). unfold coerce_text_to_numeric, scan_number_prefix. set (b := as_bytes s) in *.
  assert (head_is is_ascii_whitespace (sign_text sg ++ t) = false) as Hh by (destruct sg as [[]|]; [done|done|by apply Hsg]).
  pose proof (skip_run b [] ws _ _ Eb Hws Hh Hb) as Ews. change (len []) with 0 in Ews. rewrite Ews. cbn [app]. cbv zeta.
  rewrite (skip_sign b ws sg t Eb (fun E => proj2 (Hsg E)) Hb). assert (b = (ws ++ sign_text sg) ++ [] ++ t) as Eb1 by (by rewrite Eb, <- app_assoc).
  rewrite (skip_run b _ [] t _ Eb1 eq_refl Hd Hb), sat_sub_len. rewrite app_nil_r. cbn [app] in Eb1.
  assert (scan_fraction b (len (ws ++ sign_text sg)) (len (@nil Z)) = (len (ws ++ sign_text sg), false)) as ->; [|done].
  unfold scan_fraction. rewrite Eb1 at 1. rewrite at_len, is_byte_head. destruct (head_is (Z.eqb 46) t) eqn:E46; [|done].
  destruct t as [|c r]; [done|]. cbn [head_is drop] in *. rewrite (skip_byte b _ c r Eb1 Hb).
  assert (b = ((ws ++ sign_text sg) ++ [c]) ++ [] ++ r) as Eb2 by (by rewrite Eb1, <- !app_assoc).
  by rewrite (skip_run b _ [] r _ Eb2 eq_refl (Hp eq_refl) Hb), sat_sub_len.
Qed.

Lemma span_run pred b : exists run rest, b = run ++ rest /\ all pred run /\ head_is pred rest = false.
Proof.
  induction b as [|c b (run & rest & -> & Hr & Ht)]; [by exists [], []|].
  destruct (pred c) eqn:Ec; [|by exists [], (c :: run ++ rest)]. exists (c :: run), rest. split; [done|]. split; [|done]. unfold all. cbn. by rewrite Ec.
Qed.

Lemma span_sign b : exists sg rest, b = sign_text sg ++ rest /\ (sg = None -> is_sign (head rest) = false).
Proof.
  destruct b as [|c b]; [by exists None, []|]. destruct (decide (c = 45)) as [->|]; [by exists (Some true), b|].
  destruct (decide (c = 43)) as [->|]; [by exists (Some false), b|]. exists None, (c :: b). split; [done|]. intros _.
  cbn [head]. unfold is_sign, is_byte. by rewrite !(proj2 (Z.eqb_neq _ _)).
Qed.

Lemma span_exponent b : exists e rest, b = exp_text e ++ rest /\ (forall c sg ds, e = Some (c, sg, ds) -> (c = 101 \/ c = 69) /\ all is_ascii_digit ds /\ ds <> []) /\
  (e = None -> exponent_ahead rest = false) /\ (head_is is_ascii_digit b = false -> head_is is_ascii_digit rest = false).
Proof.
  destruct (exponent_ahead b) eqn:Ex; [|by exists None, b]. destruct b as [|c r]; [done|]. cbn in Ex. apply andb_true_iff in Ex as [Ec Hd].
  assert (exists sg t, r = sign_text sg ++ t /\ head_is is_ascii_digit t = true) as (sg & t & -> & Ht).
  { destruct r as [|d r]; [done|]. cbn [head_is] in Hd. destruct ((d =? 43) || (d =? 45)) eqn:Ed; [|by exists None, (d :: r)].
    apply orb_true_iff in Ed as [->%Z.eqb_eq | ->%Z.eqb_eq]; [by exists (Some false), r|by exists (Some true), r]. }
  destruct (span_run is_ascii_digit t) as (ds & rest & -> & Hds & Hr). exists (Some (c, sg, ds)), rest.
  split; [cbn; by rewrite <- app_assoc|]. split; [|done]. intros ? ? ? [= <- <- <-]. split; [lia|]. split; [done|].
  intros ->. cbn [app] in Ht. congruence.
Qed.

(** Every text is of one of the two shapes. *)
Lemma text_shape b :
  (exists ws l rest, b = ws ++ render l ++ rest /\ all is_ascii_whitespace ws /\ literal_ok l /\ maximal l rest) \/
  (exists ws sg t, b = ws ++ sign_text sg ++ t /\ no_number ws sg t).
Proof.
  destruct (span_run is_ascii_whitespace b) as (ws & b1 & -> & Hws & Hb1). destruct (span_sign b1) as (sg & b2 & -> & Hsg).
  destruct (span_run is_ascii_digit b2) as (ip & b3 & -> & Hip & Hb3).
  destruct (decide (ip = [] /\ (head_is (Z.eqb 46) b3 = true -> head_is is_ascii_digit (drop 1 b3) = false))) as [[-> Hn]|Hn].
  { right. exists ws, sg, b3. do 3 (split; [done|]). split; [done|]. intros ->. split; [done|by apply Hsg]. }
  left. assert (exists f b4, b3 = frac_text f ++ b4 /\ (forall ds, f = Some ds -> all is_ascii_digit ds) /\ (ip ++ default [] f <> []) /\
    head_is is_ascii_digit b4 = false /\ (f = None -> head_is (Z.eqb 46) b4 = false)) as (f & b4 & -> & Hf & Hne & Hb4 & Hpt).
  { destruct (head_is (Z.eqb 46) b3) eqn:E46.
    - destruct b3 as [|c r]; [done|]. cbn [head_is] in E46. apply Z.eqb_eq in E46 as <-. destruct (span_run is_ascii_digit r) as (ds & b4 & -> & Hds & Hb4).
      exists (Some ds), b4. split; [done|]. split; [by intros ? [= <-]|]. split; [|done]. cbn. intros [-> ->]%app_eq_nil. by apply Hn.
    - exists None, b3. split; [done|]. split; [done|]. split; [|done]. cbn. rewrite app_nil_r. intros ->. by apply Hn. }
  destruct (span_exponent b4) as (e & rest & -> & He & Hx & Hr). exists ws, (MkLiteral sg ip f e), rest.
  split; [unfold render; cbn; by rewrite <- !app_assoc|]. split; [done|]. split; [done|]. split; [by apply Hr|]. split; [done|].
  cbn. intros -> Hf'. by apply Hpt.
Qed.
