(* ===== verification/ValueProperties.v ===== *)
(** * What holds of comparison, conversion and arithmetic on values

    What the integer operators compute, numeric prefixes of texts, round trips
    of [CAST] and CSV, and the agreement and disagreement of the two orders. *)

From stdpp Require Import prelude list numbers.
From Stdlib Require Import ZArith Lia.
From S2P Require Import Prelude Varint Text Record Float ValueOrder Format Coerce.

Local Open Scope Z_scope.

(** ** Well-typed results *)

Lemma round_half_even_nonneg n d : 0 <= n -> 0 < d -> 0 <= round_half_even n d.
Proof.
  intros Hn Hd. unfold round_half_even. pose proof (Z.div_pos n d Hn Hd). destruct (2 * (n mod d) ?= d); [destruct (Z.even _)|..]; lia.
Qed.

Lemma round_mag_ok n d : 0 <= n -> 0 < d -> 0 <= round_mag n d <= INF_MAG.
Proof.
  intros Hn Hd. unfold round_mag, round_exp. set (k := Z.max 0 _). assert (0 <= k) by lia. assert (0 < 2 ^ k) by (apply Z.pow_pos_nonneg; lia).
  pose proof (round_half_even_nonneg n (d * 2 ^ k) Hn ltac:(lia)). assert (0 <= INF_MAG) by done. lia.
Qed.

Lemma with_sign_ok neg mag : 0 <= mag <= INF_MAG -> is_u64 (f64_with_sign neg mag).
Proof. unfold is_u64, f64_with_sign, SIGN_BIT, INF_MAG. destruct neg; lia. Qed.

Lemma f64_round_ok zn n d : 0 < d -> is_u64 (f64_round zn n d).
Proof. intros Hd. unfold f64_round. destruct (n =? 0); apply with_sign_ok; [done|]. apply round_mag_ok; lia. Qed.

Lemma f64_of_i64_ok i : is_u64 (f64_of_i64 i).
Proof. by apply f64_round_ok. Qed.

Lemma f64_opp_ok x : is_u64 (f64_opp x).
Proof. unfold f64_opp, f64_with_sign, is_u64. pose proof (f64_mag_bounds x). unfold SIGN_BIT in *. destruct (negb _); lia. Qed.

Create HintDb f64 discriminated.
#[local] Hint Resolve with_sign_ok f64_round_ok f64_of_i64_ok f64_opp_ok UNIT_pos : f64.
#[local] Hint Extern 1 (is_u64 F64_NAN) => done : f64.
#[local] Hint Extern 1 (0 <= INF_MAG <= INF_MAG) => done : f64.
#[local] Hint Extern 1 (0 <= 0 <= INF_MAG) => done : f64.
#[local] Hint Extern 1 (0 < 1) => done : f64.

Lemma f64_div_ok x y : is_u64 (f64_div x y).
Proof.
  unfold f64_div. repeat case_match; auto with f64. apply f64_round_ok. rewrite abs_f64_num.
  match goal with E : (f64_mag y =? 0) = false |- _ => apply Z.eqb_neq in E; rename E into Hy end.
  pose proof (f64_mag_bounds y). unfold mag_num. destruct (Z.ltb_spec (f64_mag y) (2 ^ 52)); [lia|].
  pose proof (Z.mod_pos_bound (f64_mag y) (2 ^ 52) ltac:(lia)). apply Z.mul_pos_pos; [lia|]. apply Z.pow_pos_nonneg; [lia|].
  assert (1 <= f64_mag y / 2 ^ 52) by (apply Z.div_le_lower_bound; lia). lia.
Qed.

Lemma decimal_f64_ok neg m e : 0 <= m -> is_u64 (decimal_f64 neg m e).
Proof.
  intros Hm. unfold decimal_f64, nearest_decimal. repeat case_match; auto with f64.
  - apply with_sign_ok, round_mag_ok; [|done]. apply Z.leb_le in H2. pose proof (Z.pow_nonneg 10 e ltac:(lia)). pose proof UNIT_pos. nia.
  - apply with_sign_ok, round_mag_ok; [pose proof UNIT_pos; nia|]. apply Z.leb_gt in H2. apply Z.pow_pos_nonneg; lia.
Qed.

Lemma i64_range v : (I64_MIN <=? v) && (v <=? I64_MAX) = true -> is_i64 v.
Proof. unfold I64_MIN, I64_MAX, is_i64. intros [H1%Z.leb_le H2%Z.leb_le]%andb_true_iff. lia. Qed.

Lemma parse_i64_ok s i : parse_i64 s = Some i -> is_i64 i.
Proof.
  unfold parse_i64. destruct (parse_sign s) as [neg [|d ds]]; [done|]. destruct (forallb _ _); [|done]. cbv zeta.
  set (v := if neg then _ else _). destruct ((I64_MIN <=? v) && (v <=? I64_MAX)) eqn:E; [|done]. intros [= <-]. by apply i64_range.
Qed.

Lemma span_digits_all s : all is_ascii_digit (span_digits s).1.
Proof.
  unfold all. induction s as [|c s IH]; cbn; [done|]. destruct (is_ascii_digit c) eqn:E; [|done]. destruct (span_digits s) as [ds rest]. cbn in *. by rewrite E.
Qed.

Lemma parse_f64_ok s r : parse_f64 s = Some r -> is_u64 r.
Proof.
  unfold parse_f64. destruct (parse_sign s) as [neg s1]. pose proof (span_digits_all s1) as H1. destruct (span_digits s1) as [ip s2].
  assert (exists fp s3, (match s2 with c :: r => if c =? 46 then span_digits r else ([], s2) | [] => ([], []) end) = (fp, s3) /\ all is_ascii_digit fp) as (fp & s3 & -> & H2).
  { destruct s2 as [|c r2]; [by exists [], []|]. destruct (c =? 46); [|by exists [], (c :: r2)].
    pose proof (span_digits_all r2). destruct (span_digits r2) as [fp s3]. by exists fp, s3. }
  assert (0 <= digits_value 0 (ip ++ fp)) as Hnn.
  { apply digits_value_nonneg; [done|]. unfold all in *. cbn in H1. by rewrite forallb_app, H1, H2. }
  destruct (ip ++ fp) as [|d ds]; [done|]. destruct s3 as [|c r3]; [by intros [= <-]; apply decimal_f64_ok|].
  destruct ((c =? 101) || (c =? 69)); [|done]. destruct (parse_sign r3) as [eneg [|x es]]; [done|]. destruct (forallb _ _); [|done].
  intros [= <-]. by apply decimal_f64_ok.
Qed.

Lemma coerce_ok s : value_ok (coerce_text_to_numeric s).
Proof.
  unfold coerce_text_to_numeric. destruct (scan_number_prefix s) as [[[a b] fl]|]; [|done]. set (l := ascii_slice s a b).
  assert (value_ok (match parse_f64 l with Some r => Real r | None => Integer 0 end)) as H
    by (destruct (parse_f64 l) eqn:E; [by eapply parse_f64_ok|done]).
  destruct fl; [done|]. destruct (parse_i64 l) eqn:E; [by eapply parse_i64_ok|done].
Qed.

(** ** Text that is ASCII *)

Definition ascii (s : str) : Prop := Forall (fun c => 0 <= c < 128) s.

Lemma ascii_ok s : ascii s -> str_ok s.
Proof. intros H. eapply Forall_impl; [|exact H]. unfold is_char. cbn. lia. Qed.

Lemma decimal_ascii n : 0 <= n -> ascii (decimal n).
Proof. intros Hn. apply digits_ascii, (decimal_ok n Hn). Qed.

Lemma to_string_ascii i : ascii (to_string i).
Proof. unfold to_string. destruct (Z.ltb_spec i 0); [constructor; [lia|]|]; apply decimal_ascii; lia. Qed.

Lemma trim_zeros_ascii s : ascii s -> ascii (trim_trailing_zeros s).
Proof.
  induction 1 as [|c s Hc Hs IH]; [constructor|]. cbn. destruct (trim_trailing_zeros s) as [|d t].
  - destruct (c =? 48); [apply Forall_nil_2|apply Forall_cons_2; [done|apply Forall_nil_2]].
  - by apply Forall_cons_2.
Qed.

Lemma ascii_if (b : bool) s t : ascii s -> ascii t -> ascii (if b then s else t).
Proof. by destruct b. Qed.

Lemma ascii_lit s : forallb (fun c => (0 <=? c) && (c <? 128)) s = true -> ascii s.
Proof. intros H. apply Forall_forall. intros x Hx. pose proof (proj1 (forallb_forall _ _) H x Hx). cbn in *. lia. Qed.

Lemma ascii_app s t : ascii s -> ascii t -> ascii (s ++ t).
Proof. apply Forall_app_2. Qed.

Lemma ascii_default s : ascii s -> ascii (match s with [] => lit "0" | t => t end).
Proof. destruct s; [intros _; by apply ascii_lit|done]. Qed.

Lemma real_body_ascii digits exp : ascii digits -> ascii (real_body digits exp).
Proof.
  intros Hd. assert (forall k, ascii (drop k digits)) as Hdr by (intros k; by apply Forall_drop).
  assert (forall k, ascii (take k digits)) as Htk by (intros k; by apply Forall_take).
  unfold real_body. apply ascii_if; [|apply ascii_if].
  - repeat apply ascii_app; try (by apply ascii_lit); [apply Htk|by apply ascii_default, trim_zeros_ascii|by apply ascii_if; apply ascii_lit|].
    unfold two_digits. apply ascii_if; [apply Forall_cons_2; [lia|]|]; apply decimal_ascii; lia.
  - repeat apply ascii_app; [apply Htk|by apply ascii_lit|by apply ascii_default, trim_zeros_ascii].
  - apply ascii_app; [by apply ascii_lit|]. apply ascii_app; [|by apply trim_zeros_ascii].
    apply Forall_forall. intros x Hx%repeat_spec. lia.
Qed.

Lemma scientific_ascii ax : ascii (scientific (f64_mag ax)).1.
Proof.
  unfold scientific. case_match; [by apply decimal_ascii|]. apply decimal_ascii.
  assert (0 <= f64_num (f64_mag ax)) as Hn.
  { unfold f64_num, f64_neg. pose proof (f64_mag_bounds ax). rewrite (proj2 (Z.leb_gt _ _)) by lia. rewrite <- abs_f64_num. apply Z.abs_nonneg. }
  pose proof UNIT_pos. case_match; apply round_half_even_nonneg; try done.
  - apply Z.mul_nonneg_nonneg; [done|]. apply Z.pow_nonneg. lia.
  - match goal with E : (0 <=? ?p) = false |- _ => apply Z.leb_gt in E; pose proof (Z.pow_pos_nonneg 10 (- p) ltac:(lia) ltac:(lia)) end. by apply Z.mul_pos_pos.
Qed.

Lemma format_real_ascii x : ascii (format_real x).
Proof.
  unfold format_real. apply ascii_if; [apply ascii_if; by apply ascii_lit|]. apply ascii_if; [by apply ascii_lit|].
  apply ascii_if; [apply ascii_if; by apply ascii_lit|]. pose proof (scientific_ascii x). destruct (scientific (f64_mag x)) as [ds e].
  apply ascii_if; [apply ascii_app; [by apply ascii_lit|]|]; by apply real_body_ascii.
Qed.

(** ** Arithmetic *)

Lemma to_signed_wrap z : is_i64 z -> to_signed 64 (wrap 64 z) = z.
Proof.
  unfold to_signed, wrap, is_i64. intros Hz. rewrite Z.mod_mod by lia. pose proof (Z.mod_pos_bound z (2 ^ 64) ltac:(lia)).
  destruct (Z.le_gt_cases 0 z).
  - rewrite Z.mod_small by lia. rewrite (proj2 (Z.ltb_lt _ _)) by lia. done.
  - rewrite <- (Z.mod_add z 1 (2 ^ 64)) by lia. rewrite Z.mod_small by lia. rewrite (proj2 (Z.ltb_ge _ _)) by lia. lia.
Qed.

Lemma not64_wrap z : wrap 64 (Z.lnot (wrap 64 z)) = wrap 64 (Z.lnot z).
Proof.
  unfold wrap, Z.lnot. rewrite (Z.mod_eq z (2 ^ 64)) by lia. replace (Z.pred (- (z - 2 ^ 64 * (z / 2 ^ 64)))) with (Z.pred (- z) + z / 2 ^ 64 * 2 ^ 64) by lia.
  apply Z_mod_plus_full.
Qed.

(** Shifts by less than the width. *)
Lemma shift_small a n leftward : is_i64 a -> 0 <= n < 64 ->
  shift a n leftward = if leftward then to_signed 64 (wrap 64 (a * 2 ^ n)) else Z.shiftr a n.
Proof.
  intros Ha Hn. unfold shift. rewrite (proj2 (Z.ltb_ge n 0)), (proj2 (Z.leb_gt 64 n)) by lia. destruct leftward.
  - rewrite Z.shiftl_mul_pow2 by lia. unfold wrap. by rewrite Zmult_mod_idemp_l.
  - assert (is_i64 (Z.shiftr a n)) as Hs.
    { rewrite Z.shiftr_div_pow2 by lia. unfold is_i64 in *. assert (0 < 2 ^ n) by (apply Z.pow_pos_nonneg; lia).
      split; [apply Z.div_le_lower_bound; nia|apply Z.div_lt_upper_bound; nia]. }
    destruct (Z.leb_spec 0 a).
    + assert (wrap 64 a = a) as -> by (unfold wrap; apply Z.mod_small; unfold is_i64 in Ha; lia).
      rewrite <- (to_signed_wrap (Z.shiftr a n) Hs) at 2. f_equal. unfold wrap. symmetry. apply Z.mod_small.
      split; [by apply Z.shiftr_nonneg|]. unfold is_i64 in Hs. lia.
    + rewrite not64_wrap. assert (wrap 64 (Z.lnot a) = Z.lnot a) as -> by (unfold wrap; apply Z.mod_small; unfold is_i64, Z.lnot in *; lia).
      rewrite Z.lnot_shiftr, Z.lnot_involutive by lia. by apply to_signed_wrap.
Qed.

Lemma shift_negative a n leftward : 0 < n < 64 -> shift a (- n) leftward = shift a n (negb leftward).
Proof.
  intros Hn. unfold shift. rewrite (proj2 (Z.ltb_lt (- n) 0)), (proj2 (Z.ltb_lt (-64) (- n))), (proj2 (Z.ltb_ge n 0)) by lia. by rewrite Z.opp_involutive.
Qed.

(** ** Integers through text *)

Lemma decimal_len n : len (decimal n) <= Z.log2 n + 1.
Proof.
  unfold decimal. rewrite <- (Z2Nat.id (Z.log2 n)) at 2 by apply Z.log2_nonneg. generalize (Z.to_nat (Z.log2 n)) as fuel. intros fuel. revert n.
  induction fuel as [|fuel IH]; intros n; cbn [digits_loop]; [done|]. destruct (n <? 10); [change (len [_]) with 1; lia|].
  rewrite len_app. specialize (IH (n / 10)). change (len [48 + n mod 10]) with 1. lia.
Qed.

Definition integer_literal (i : Z) : Literal := MkLiteral (if i <? 0 then Some true else None) (decimal (Z.abs i)) None None.

Lemma render_integer i : render (integer_literal i) = to_string i.
Proof.
  unfold render, integer_literal, to_string. cbn. rewrite !app_nil_r. destruct (Z.ltb_spec i 0); cbn; [by rewrite Z.abs_neq by lia|by rewrite Z.abs_eq by lia].
Qed.

Lemma coerce_to_string i : is_i64 i -> coerce_text_to_numeric (to_string i) = Integer i.
Proof.
  intros Hi. pose proof (decimal_ok (Z.abs i) (Z.abs_nonneg i)) as (H1 & H2 & H3).
  rewrite (coerce_literal (to_string i) [] (integer_literal i) []).
  - unfold literal_value, integer_literal. cbn [is_float_literal lt_frac lt_exp lt_sign lt_int]. rewrite H1.
    assert ((if sign_neg (if i <? 0 then Some true else None) then - Z.abs i else Z.abs i) = i) as -> by (destruct (Z.ltb_spec i 0); cbn; lia).
    unfold in_i64, I64_MIN, I64_MAX, is_i64 in *. by rewrite !(proj2 (Z.leb_le _ _)) by lia.
  - rewrite app_nil_r, render_integer. apply ascii_bytes, to_string_ascii.
  - rewrite (ascii_bytes _ (to_string_ascii i)). unfold to_string. pose proof (decimal_len (Z.abs i)).
    assert (Z.log2 (Z.abs i) <= 63) by (destruct (decide (i = 0)) as [->|]; [done|]; apply Z.lt_succ_r, Z.log2_lt_pow2; unfold is_i64 in Hi; lia).
    destruct (Z.ltb_spec i 0); [rewrite len_cons, <- Z.abs_neq by lia|rewrite <- (Z.abs_eq i) by lia]; unfold U64_MAX; lia.
  - done.
  - unfold literal_ok, integer_literal. cbn. split; [done|]. split; [done|]. split; [by rewrite app_nil_r|done].
  - done.
Qed.

(** ** Reading CSV back

    A reader of one field: either up to a comma or line end, or between
    quotes with doubled quotes standing for one. *)

Fixpoint csv_unquote (s : str) : option (str * str) :=
  match s with
  | [] => None
  | c :: r =>
    if c =? 34 then match r with
      | d :: r' => if d =? 34 then prod_map (cons 34) id <$> csv_unquote r' else Some ([], r)
      | [] => Some ([], [])
      end
    else prod_map (cons c) id <$> csv_unquote r
  end.

Definition csv_separator (c : Z) : bool := (c =? 44) || (c =? 10) || (c =? 13).
Fixpoint csv_plain (s : str) : str * str :=
  match s with
  | [] => ([], [])
  | c :: r => if csv_separator c then ([], s) else let '(f, rest) := csv_plain r in (c :: f, rest)
  end.

Definition csv_field (s : str) : option (str * str) := match s with c :: r => if c =? 34 then csv_unquote r else Some (csv_plain s) | [] => Some ([], []) end.

Lemma csv_unquote_ok s rest : head_is (Z.eqb 34) rest = false -> csv_unquote (double_quotes s ++ 34 :: rest) = Some (s, rest).
Proof.
  intros Hr. induction s as [|c s IH]; cbn [double_quotes app].
  - cbn. destruct rest as [|d rest]; [done|]. cbn [head_is] in Hr. rewrite Z.eqb_sym in Hr. by rewrite Hr.
  - destruct (Z.eqb_spec c 34) as [->|Hc]; cbn [app csv_unquote].
    + rewrite !Z.eqb_refl, IH. done.
    + rewrite (proj2 (Z.eqb_neq c 34) Hc), IH. done.
Qed.

Lemma csv_plain_ok s rest : forallb (fun c => negb (csv_separator c)) s = true -> (match rest with c :: _ => csv_separator c | [] => true end) = true ->
  csv_plain (s ++ rest) = (s, rest).
Proof.
  intros Hs Hr. induction s as [|c s IH]; cbn [app csv_plain].
  - destruct rest as [|c rest]; [done|]. cbn. by rewrite Hr.
  - cbn in Hs. apply andb_true_iff in Hs as [Hc Hs]. apply negb_true_iff in Hc. rewrite Hc, IH by done. done.
Qed.

Lemma csv_quote_field s rest : (match rest with c :: _ => csv_separator c | [] => true end) = true -> csv_field (csv_quote s ++ rest) = Some (s, rest).
Proof.
  intros Hr. unfold csv_quote.
  destruct (match s with [] => true | _ => existsb csv_char_forces_quote s end) eqn:E; cbn [negb].
  - cbn [app csv_field]. rewrite Z.eqb_refl, <- app_assoc. apply csv_unquote_ok. destruct rest as [|c rest]; [done|]. cbn [head_is]. unfold csv_separator in Hr. lia.
  - destruct s as [|c s]; [done|].
    assert (Forall (fun c => csv_char_forces_quote c = false) (c :: s)) as Hf.
    { apply Forall_forall. intros x Hx. destruct (csv_char_forces_quote x) eqn:Ex; [|done]. rewrite <- E. symmetry. apply existsb_exists. by exists x. }
    assert (forallb (fun c => negb (csv_separator c)) (c :: s) = true) as Hn.
    { apply forallb_forall. intros x Hx. pose proof (proj1 (Forall_forall _ _) Hf x Hx) as Hx'. cbn in Hx'. unfold csv_char_forces_quote in Hx'. unfold csv_separator. lia. }
    unfold csv_field. cbn [app]. apply Forall_cons_1 in Hf as [Hc _]. unfold csv_char_forces_quote in Hc. rewrite (proj2 (Z.eqb_neq c 34)) by lia.
    f_equal. exact (csv_plain_ok (c :: s) rest Hn Hr).
Qed.

(** ** Theorems *)

(** C15. Under every collation the engine's comparison of two well-typed values is
    the lexicographic comparison of keys computed from each value alone: the
    class, then the exact number (NaN last), the folded text or the bytes. *)
Theorem compare_by_sort_key a b collation : value_ok a -> value_ok b ->
  compare a b collation = list_cmp (sort_key collation a) (sort_key collation b).
Proof. apply compare_sort_key. Qed.

Lemma compare_by_sort_key_witness :
  compare (Integer 9007199254740993) (Real 4845873199050653696) CBinary = Gt /\
  compare (Integer 9007199254740993) (Real 4845873199050653696) CBinary
  = list_cmp (sort_key CBinary (Integer 9007199254740993)) (sort_key CBinary (Real 4845873199050653696)).
Proof. split; [by vm_compute|]. apply compare_by_sort_key; [split|split]; by vm_compute. Defined.

(** On keys without NaN whose integers a double holds exactly, the order of
    the index b-trees is the engine's order, column by column. *)
Theorem index_order_is_engine_order a b : Forall index_ok a -> Forall index_ok b ->
  compare_keys a b = lex_cmp (fun x y => compare x y CBinary) a b.
Proof.
  rewrite compare_keys_lex. intros Ha. revert b. induction Ha as [|x a Hx Ha IH]; intros b Hb; destruct Hb as [|y b Hy Hb]; cbn; try done.
  rewrite compare_values_engine by done. by rewrite IH.
Qed.

Lemma index_order_is_engine_order_witness :
  compare_keys [VText (lit "a"); Integer 5] [VText (lit "a"); Real 4617878467915022336]
  = lex_cmp (fun x y => compare x y CBinary) [VText (lit "a"); Integer 5] [VText (lit "a"); Real 4617878467915022336].
Proof.
  apply index_order_is_engine_order; repeat (apply Forall_cons; [split; [|by vm_compute]|]); try apply Forall_nil; try (split; by vm_compute).
  all: repeat (apply Forall_cons; [left; split; by vm_compute|]); apply Forall_nil.
Defined.

(** The order of the index b-trees is not transitive on all values: it calls
    [2^53] and [2^53 + 1] equal to the same double. *)
Theorem index_order_not_transitive :
  compare_values (Integer 9007199254740993) (Real 4845873199050653696) = Eq /\
  compare_values (Real 4845873199050653696) (Integer 9007199254740992) = Eq /\
  compare_values (Integer 9007199254740993) (Integer 9007199254740992) = Gt /\
  compare (Integer 9007199254740993) (Real 4845873199050653696) CBinary = Gt.
Proof. by vm_compute. Qed.

(** C29. The number of a text is that of its longest numeric prefix after ASCII
    whitespace, and [0] when there is none; every text is of one of the two
    forms. *)
Theorem coerce_reads_longest_prefix s : len (as_bytes s) < U64_MAX ->
  (exists ws l rest, as_bytes s = ws ++ render l ++ rest /\ all is_ascii_whitespace ws /\ literal_ok l /\ maximal l rest /\
     coerce_text_to_numeric s = literal_value l) \/
  (exists ws sg t, as_bytes s = ws ++ sign_text sg ++ t /\ no_number ws sg t /\ coerce_text_to_numeric s = Integer 0).
Proof.
  intros Hlen. destruct (text_shape (as_bytes s)) as [(ws & l & rest & E & Hws & Hl & Hm)|(ws & sg & t & E & Hn)].
  - left. exists ws, l, rest. do 4 (split; [done|]). by eapply coerce_literal.
  - right. exists ws, sg, t. split; [done|]. split; [done|]. by eapply coerce_no_number.
Qed.

Lemma coerce_reads_longest_prefix_witness : exists ws l rest,
  as_bytes (lit " -12.5e2xyz") = ws ++ render l ++ rest /\ coerce_text_to_numeric (lit " -12.5e2xyz") = Real (f64_of_i64 (-1250)).
Proof.
  destruct (coerce_reads_longest_prefix (lit " -12.5e2xyz") ltac:(by vm_compute)) as [(ws & l & rest & E & _)|(ws & sg & t & E & Hn & E0)].
  - exists ws, l, rest. split; [done|]. by vm_compute.
  - exfalso. vm_compute in E0. discriminate E0.
Defined.

Lemma land_i64 x y : is_i64 x -> is_i64 y -> is_i64 (Z.land x y) /\ is_i64 (Z.lor x y).
Proof.
  intros Hx Hy. assert (forall z, is_i64 z <-> Z.shiftr z 63 = 0 \/ Z.shiftr z 63 = -1) as Hsh.
  { intros z. rewrite Z.shiftr_div_pow2 by lia. unfold is_i64. pose proof (Z.div_mod z (2 ^ 63) ltac:(lia)). pose proof (Z.mod_pos_bound z (2 ^ 63) ltac:(lia)).
    split; [|intros [E|E]; rewrite E in *; lia]. intros Hz. destruct (Z.le_gt_cases 0 z); [left|right]; nia. }
  rewrite !Hsh in *. rewrite Z.shiftr_land, Z.shiftr_lor. destruct Hx as [-> | ->], Hy as [-> | ->]; cbn; auto.
Qed.

Lemma as_text_ok v : value_ok v -> str_ok (as_text v).
Proof.
  destruct v; cbn; [constructor| | |done|apply lossy_ok]; intros _; apply ascii_ok; [apply to_string_ascii|apply format_real_ascii].
Qed.

(** Quotient and remainder, [MIN / -1] included. *)
Lemma integer_division x y : y <> 0 -> exists q r, x = q * y + r /\ Z.abs r < Z.abs y /\ 0 <= x * r /\
  checked_rem (Integer x) (Integer y) = Integer r /\
  checked_div (Integer x) (Integer y) = if in_i64 q then Integer q else Real (f64_div (f64_of_i64 x) (f64_of_i64 y)).
Proof.
  intros H0. exists (Z.quot x y), (Z.rem x y). pose proof (Z.quot_rem' x y). split; [lia|]. split; [by apply Z.rem_bound_abs|].
  split; [rewrite Z.mul_comm; by apply Z.rem_sign_mul|].
  unfold checked_div, checked_rem, i64_checked. cbn [as_numeric cast_to_i64 is_real orb]. rewrite (proj2 (Z.eqb_neq y 0) H0). split; [|by destruct (in_i64 _)].
  destruct ((x =? I64_MIN) && (y =? -1)) eqn:E; [|done]. by apply andb_true_iff in E as [->%Z.eqb_eq ->%Z.eqb_eq].
Qed.

(** Shifts by less than 64 in either direction. *)
Lemma integer_shifts a n : is_i64 a -> 0 <= n < 64 ->
  shift_left (Integer a) (Integer n) = Integer (to_signed 64 (wrap 64 (a * 2 ^ n))) /\
  shift_right (Integer a) (Integer n) = Integer (a / 2 ^ n) /\
  shift_left (Integer a) (Integer (- n)) = Integer (a / 2 ^ n) /\
  shift_right (Integer a) (Integer (- n)) = Integer (to_signed 64 (wrap 64 (a * 2 ^ n))).
Proof.
  intros Ha Hn. unfold shift_left, shift_right. cbn [as_numeric cast_to_i64]. rewrite <- Z.shiftr_div_pow2 by lia.
  assert (forall l, shift a (- n) l = shift a n (negb l)) as Hneg.
  { intros l. destruct (decide (n = 0)) as [->|]; [|apply shift_negative; lia]. change (- 0) with 0. rewrite !shift_small by (done || lia).
    rewrite Z.shiftr_0_r, Z.mul_1_r, to_signed_wrap by done. by destruct l. }
  rewrite !Hneg, !shift_small by done. done.
Qed.

Lemma right_shift_far a n : is_i64 a -> 64 <= n -> shift_right (Integer a) (Integer n) = Integer (a / 2 ^ n).
Proof.
  intros Ha Hn. unfold shift_right, shift. cbn [as_numeric cast_to_i64]. rewrite (proj2 (Z.ltb_ge n 0)), (proj2 (Z.leb_le 64 n)) by lia. f_equal.
  assert (2 ^ 64 <= 2 ^ n) by (apply Z.pow_le_mono_r; lia). unfold is_i64 in Ha. destruct (Z.leb_spec 0 a); [rewrite Z.div_small; lia|].
  apply (Z.div_unique a (2 ^ n) (-1) (a + 2 ^ n)); lia.
Qed.

(** C30. What the operators compute on 64-bit integers.  A sum, difference or
    product that fits is exact and one that does not is computed on doubles,
    never wrapped; quotient and remainder satisfy the division law, the
    remainder signed like the dividend and smaller than the divisor, with
    [MIN / -1] promoted and its remainder 0; a zero divisor gives NULL; [&], [|]
    and [~] work bit by bit on the two's complement; [<<] by less than 64
    multiplies modulo [2^64], [>>] by any amount divides rounding down, and a
    negative amount above -64 shifts the other way. *)
Theorem integer_operators x y : is_i64 x -> is_i64 y ->
  let promoted op z f := op (Integer x) (Integer y) = if in_i64 z then Integer z else Real (f (f64_of_i64 x) (f64_of_i64 y)) in
  promoted checked_add (x + y) f64_add /\ promoted checked_sub (x - y) f64_sub /\ promoted checked_mul (x * y) f64_mul /\
  (y = 0 -> checked_div (Integer x) (Integer y) = Null /\ checked_rem (Integer x) (Integer y) = Null) /\
  (y <> 0 -> exists q r, x = q * y + r /\ Z.abs r < Z.abs y /\ 0 <= x * r /\ checked_rem (Integer x) (Integer y) = Integer r /\
     checked_div (Integer x) (Integer y) = if in_i64 q then Integer q else Real (f64_div (f64_of_i64 x) (f64_of_i64 y))) /\
  (exists a o n, bit_and (Integer x) (Integer y) = Integer a /\ bit_or (Integer x) (Integer y) = Integer o /\ bit_not (Integer x) = Integer n /\
     Forall is_i64 [a; o; n] /\ forall k, 0 <= k ->
       Z.testbit a k = Z.testbit x k && Z.testbit y k /\ Z.testbit o k = Z.testbit x k || Z.testbit y k /\ Z.testbit n k = negb (Z.testbit x k)) /\
  (0 <= y < 64 -> shift_left (Integer x) (Integer y) = Integer (to_signed 64 (wrap 64 (x * 2 ^ y)))) /\
  (0 <= y -> shift_right (Integer x) (Integer y) = Integer (x / 2 ^ y)) /\
  (-64 < y < 0 -> shift_left (Integer x) (Integer y) = Integer (x / 2 ^ (- y)) /\
     shift_right (Integer x) (Integer y) = Integer (to_signed 64 (wrap 64 (x * 2 ^ (- y))))).
Proof.
  intros Hx Hy promoted.
  assert (forall z f, match i64_checked z with Some v => Integer v | None => Real f end = if in_i64 z then Integer z else Real f) as Hck
    by (intros; unfold i64_checked; by destruct (in_i64 z)).
  do 3 (split; [apply Hck|]). split; [by intros ->|]. split; [apply integer_division|]. split; [|split; [|split]].
  - destruct (land_i64 x y Hx Hy) as [Ha Ho]. do 3 eexists. do 3 (split; [reflexivity|]). split.
    { repeat constructor; try done; cbn; unfold is_i64, Z.lnot in *; lia. }
    intros k Hk. cbn. by rewrite Z.land_spec, Z.lor_spec, Z.lnot_spec.
  - intros Hn. by apply integer_shifts.
  - intros Hn. destruct (decide (y < 64)); [by apply integer_shifts|apply right_shift_far; [done|lia]].
  - intros Hn. destruct (integer_shifts x (- y) Hx ltac:(lia)) as (_ & _ & H1 & H2). rewrite Z.opp_involutive in H1, H2. done.
Qed.

Lemma integer_operators_witness : checked_add (Integer I64_MAX) (Integer 1) = Real (f64_add (f64_of_i64 I64_MAX) (f64_of_i64 1)) /\
  shift_right (Integer (-5)) (Integer 1) = Integer (-3) /\ exists q r, -7 = q * 2 + r /\ checked_rem (Integer (-7)) (Integer 2) = Integer r.
Proof.
  split; [|split].
  - apply (integer_operators I64_MAX 1); split; by vm_compute.
  - apply (integer_operators (-5) 1); [split; by vm_compute|split; by vm_compute|lia].
  - destruct (integer_operators (-7) 2 ltac:(split; by vm_compute) ltac:(split; by vm_compute)) as (_ & _ & _ & _ & H & _).
    destruct (H ltac:(discriminate)) as (q & r & H1 & _ & _ & H2 & _). by exists q, r.
Defined.

(** Shifting left by 63 leaves the sign bit of [-1], by 64 and more the result
    is [-1] again, although every bit has left the word. *)
Theorem left_shift_of_negative : shift_left (Integer (-1)) (Integer 63) = Integer I64_MIN /\ shift_left (Integer (-1)) (Integer 64) = Integer (-1).
Proof. by vm_compute. Qed.

(** Casting an integer to text and back, and text to a blob and back, gives
    the value again. *)
Theorem cast_round_trips i s : is_i64 i -> str_ok s ->
  cast_to (cast_to (Integer i) AffText) AffInteger = Integer i /\ cast_to (cast_to (Integer i) AffText) AffNumeric = Integer i /\
  cast_to (cast_to (VText s) AffBlob) AffText = VText s.
Proof.
  intros Hi Hs. cbn. rewrite coerce_to_string by done. rewrite lossy_as_bytes by done. done.
Qed.

Lemma cast_round_trips_witness : cast_to (cast_to (Integer I64_MIN) AffText) AffInteger = Integer I64_MIN.
Proof. apply (cast_round_trips I64_MIN []); [split; by vm_compute|constructor]. Defined.

(** A field written by [csv_quote] and followed by a separator or the end
    reads back as the text, so distinct texts stay distinct, and no text is
    written as the empty field that stands for NULL. *)
Theorem csv_round_trip s rest : (match rest with c :: _ => csv_separator c | [] => true end) = true ->
  csv_field (csv_quote s ++ rest) = Some (s, rest) /\ csv_quote s <> format_csv_value Null.
Proof.
  intros Hr. split; [by apply csv_quote_field|]. cbn. unfold csv_quote. destruct s as [|c s]; [done|]. by destruct (existsb _ _).
Qed.

Lemma csv_round_trip_witness : csv_field (csv_quote [97; 34; 44; 98] ++ [44; 49]) = Some ([97; 34; 44; 98], [44; 49]).
Proof. by apply (csv_round_trip [97; 34; 44; 98] [44; 49]). Defined.

(** Applying a column's affinity twice is applying it once. *)
Theorem affinity_idempotent v affinity : apply_affinity (apply_affinity v affinity) affinity = apply_affinity v affinity.
Proof.
  assert (forall s v', parse_well_formed_number s = Some v' -> (exists i, v' = Integer i) \/ (exists r, v' = Real r)) as Hp.
  { intros s v'. unfold parse_well_formed_number. destruct (trim s); [done|]. destruct (parse_i64 _); [intros [= <-]; eauto|].
    destruct (parse_f64 _); [|done]. destruct (f64_is_finite _); [|done]. intros [= <-]. eauto. }
  destruct affinity; cbn [apply_affinity]; try done; [by destruct v|..]; try (case_decide; [|done]); try (case_decide; [done|]).
  all: destruct v as [|i|r|s|b]; try done; destruct (parse_well_formed_number s) as [w|] eqn:E; cbn; rewrite ?E; try done.
  all: destruct (Hp s w E) as [[? ->]|[? ->]]; done.
Qed.
