(* ===== verification/Functions.v ===== *)
(** * Scalar functions ([src/vdbe/functions.rs])

    The built-in functions, the [LIKE] and [GLOB] matchers, and the registry
    [call]. *)

From stdpp Require Import prelude list numbers.
From Stdlib Require Import ZArith Lia.
From S2P Require Import Prelude Varint Text Record Float ValueOrder Format Coerce.

Local Open Scope Z_scope.

Inductive FunctionError : Type := FnUnknown (name : str) (arity : Z) | FnWrongArity (name : str) | FnIntegerOverflow.

Abbreviation Fn := (list Value -> result FunctionError Value).

(** [args[n]]; [call] checks the arity before a function runs. *)
Definition arg (args : list Value) (n : nat) : Value := nth n args Null.
Definition any_null (args : list Value) : bool := existsb is_null args.

(** ** Conversions *)

Definition value_int (v : Value) : Z :=
  match v with Integer i => i | Real r => f64_to_i64 r | VText _ => cast_to_i64 v | Null | Blob _ => 0 end.

Definition value_f64 (v : Value) : Z :=
  match v with
  | Integer i => f64_of_i64 i
  | Real r => r
  | VText s => match coerce_text_to_numeric s with Integer i => f64_of_i64 i | Real r => r | _ => 0 end
  | Null | Blob _ => 0
  end.

(** ** Text *)

Definition length_fn : Fn := fun args =>
  Ok (match arg args 0 with
  | Null => Null
  | Blob b => Integer (len b)
  | VText s => Integer (len s)
  | other => Integer (len (as_text other))
  end).

Definition upper : Fn := fun args =>
  Ok (match arg args 0 with Null => Null | VText s => VText (map to_ascii_uppercase s) | other => other end).
Definition lower : Fn := fun args =>
  Ok (match arg args 0 with Null => Null | VText s => VText (map to_ascii_lowercase s) | other => other end).

(** [i64]'s saturating operations. *)
Definition i64_sat (z : Z) : Z := Z.max I64_MIN (Z.min I64_MAX z).

(** The window of [substr]: the number of characters skipped and taken. *)
Definition substr_window (y : Z) (z : option Z) (n : Z) : Z * Z :=
  let '(p2, neg_p2) := match z with
    | Some raw => if raw <? 0 then (i64_sat (- raw), true) else (raw, false)
    | None => (I64_MAX / 2, false)
    end in
  let '(p1, p2) :=
    if y <? 0 then
      let p1 := i64_sat (y + n) in
      if p1 <? 0 then (0, let p2 := i64_sat (p2 + p1) in if p2 <? 0 then 0 else p2) else (p1, p2)
    else if 0 <? y then (i64_sat (y - 1), p2)
    else if 0 <? p2 then (y, i64_sat (p2 - 1)) else (y, p2) in
  let '(p1, p2) :=
    if neg_p2 then
      let p1 := i64_sat (p1 - p2) in
      if p1 <? 0 then (0, i64_sat (p2 + p1)) else (p1, p2)
    else (p1, p2) in
  (Z.max p1 0, Z.max p2 0).

(** The length is only counted when it is needed. *)
Definition substr : Fn := fun args =>
  let z := match args with [_; _; z] => Some z | _ => None end in
  if is_null (arg args 1) || (match z with Some v => is_null v | None => false end) then Ok Null
  else if is_null (arg args 0) then Ok Null
  else
    let y := value_int (arg args 1) in
    match arg args 0 with
    | Blob b =>
      let '(p1, p2) := substr_window y (value_int <$> z) (len b) in
      let start := Z.min p1 (len b) in
      let end_ := Z.min (sat_add start p2) (len b) in
      Ok (Blob (take (Z.to_nat (end_ - start)) (drop (Z.to_nat start) b)))
    | v =>
      let n := if y <? 0 then len (as_text v) else 0 in
      let '(p1, p2) := substr_window y (value_int <$> z) n in
      Ok (VText (take (Z.to_nat p2) (drop (Z.to_nat p1) (as_text v))))
    end.

Definition sqlite_version : Fn := fun _ => Ok (VText (lit "3.53.4")).

(** ** Numbers *)

Definition f64_abs (r : Z) : Z := f64_mag r.

Definition abs : Fn := fun args =>
  match arg args 0 with
  | Null => Ok Null
  | Integer i => if i =? I64_MIN then Err FnIntegerOverflow else Ok (Integer (Z.abs i))
  | Real r => Ok (Real (f64_abs r))
  | other => Ok (Real (f64_abs (value_f64 other)))
  end.

(** [floor] and [ceil]: the integer below or above, exactly representable;
    numbers from [2^52] up, infinities and NaN are unchanged, and the sign of
    a zero result is the argument's. *)
Definition f64_floor (x : Z) : Z :=
  if f64_is_nan x || f64_is_infinite x then x else f64_round (f64_neg x) (f64_num x / UNIT * UNIT) 1.
Definition f64_ceil (x : Z) : Z :=
  if f64_is_nan x || f64_is_infinite x then x else f64_round (f64_neg x) (- (- f64_num x / UNIT) * UNIT) 1.

(** [10f64.powi(n)], correctly rounded. *)
Definition f64_powi10 (n : Z) : Z := f64_round false (10 ^ n * UNIT) 1.
Definition F64_HALF : Z := 4602678819172646912.

Definition round_fn : Fn := fun args =>
  if is_null (arg args 0) || (match args with [_; v] => is_null v | _ => false end) then Ok Null
  else
    let x := value_f64 (arg args 0) in
    let digits := Z.max 0 (Z.min 30 (match args with [_; v] => value_int v | _ => 0 end)) in
    let scale := f64_powi10 digits in
    let scaled := f64_mul x scale in
    let rounded := if f64_leb 0 scaled then f64_floor (f64_add scaled F64_HALF) else f64_ceil (f64_sub scaled F64_HALF) in
    Ok (Real (f64_div rounded scale)).

Definition sign : Fn := fun args =>
  Ok (match arg args 0 with
  | Null => Null
  | other => let n := value_f64 other in Integer (if f64_ltb 0 n then 1 else if f64_ltb n 0 then -1 else 0)
  end).

(** ** Selection *)

Definition coalesce : Fn := fun args => Ok (default Null (List.find (fun v => negb (is_null v)) args)).

Definition nullif : Fn := fun args =>
  let a := arg args 0 in let b := arg args 1 in
  if is_null a || is_null b then Ok a
  else if comparison_eqb (compare a b CBinary) Eq then Ok Null else Ok a.

Definition typeof_fn : Fn := fun args =>
  Ok (VText (match arg args 0 with
  | Null => lit "null" | Integer _ => lit "integer" | Real _ => lit "real" | VText _ => lit "text" | Blob _ => lit "blob"
  end)).

(** [Iterator::min_by] keeps the first of equal minima, [max_by] the last of
    equal maxima. *)
Fixpoint min_by (cmp : Value -> Value -> comparison) (best : Value) (vs : list Value) : Value :=
  match vs with [] => best | v :: vs => min_by cmp (match cmp best v with Gt => v | _ => best end) vs end.
Fixpoint max_by (cmp : Value -> Value -> comparison) (best : Value) (vs : list Value) : Value :=
  match vs with [] => best | v :: vs => max_by cmp (match cmp best v with Gt => best | _ => v end) vs end.

Definition scalar_min : Fn := fun args =>
  if any_null args then Ok Null
  else Ok (match args with [] => Null | v :: vs => min_by (fun a b => compare a b CBinary) v vs end).
Definition scalar_max : Fn := fun args =>
  if any_null args then Ok Null
  else Ok (match args with [] => Null | v :: vs => max_by (fun a b => compare a b CBinary) v vs end).

Definition iif : Fn := fun args =>
  let cond := match arg args 0 with
    | Null => false
    | Integer i => negb (i =? 0)
    | Real r => negb (f64_eqb r 0)
    | VText s => match coerce_text_to_numeric s with Integer i => negb (i =? 0) | Real r => negb (f64_eqb r 0) | _ => false end
    | Blob _ => false
    end in
  Ok (if cond : bool then arg args 1 else arg args 2).

(** ** Hexadecimal and quoting *)

Definition hex_bytes (b : list Z) : str := flat_map (fun byte => [Format.hex_digit (byte / 16); Format.hex_digit (byte mod 16)]) b.

Definition hex : Fn := fun args =>
  Ok (VText (hex_bytes (match arg args 0 with Blob b => b | other => as_bytes (as_text other) end))).

Definition hex_value (c : Z) : option Z :=
  if (48 <=? c) && (c <=? 57) then Some (c - 48)
  else if (97 <=? c) && (c <=? 102) then Some (c - 97 + 10)
  else if (65 <=? c) && (c <=? 70) then Some (c - 65 + 10)
  else None.

Fixpoint unhex_pairs (b : list Z) : option (list Z) :=
  match b with
  | hi :: lo :: b =>
    match hex_value hi, hex_value lo with
    | Some h, Some l => cons (Z.lor (Z.shiftl h 4) l) <$> unhex_pairs b
    | _, _ => None
    end
  | _ => Some []
  end.

Definition unhex : Fn := fun args =>
  if is_null (arg args 0) then Ok Null
  else
    let bytes := as_bytes (as_text (arg args 0)) in
    if negb (len bytes mod 2 =? 0) then Ok Null
    else Ok (match unhex_pairs bytes with Some out => Blob out | None => Null end).

Fixpoint double_apostrophes (s : str) : str :=
  match s with [] => [] | c :: s => if c =? 39 then 39 :: c :: double_apostrophes s else c :: double_apostrophes s end.
Definition sql_quote_text (s : str) : str := 39 :: double_apostrophes s ++ [39].

Definition quote : Fn := fun args =>
  Ok (VText (match arg args 0 with
  | Null => lit "NULL"
  | Integer i => to_string i
  | Real r => format_real r
  | VText s => sql_quote_text s
  | Blob b => format_blob b
  end)).

(** ** Searching *)

(** The number of elements before the first occurrence of [needle]. *)
Fixpoint find_sub (hay needle : list Z) : option Z :=
  if starts_with hay needle then Some 0
  else match hay with [] => None | _ :: hay => Z.add 1 <$> find_sub hay needle end.

Definition find_bytes (hay needle : list Z) : option Z :=
  match needle with [] => Some 0 | _ => find_sub hay needle end.

Definition instr : Fn := fun args =>
  if is_null (arg args 0) || is_null (arg args 1) then Ok Null
  else
    let pos := match arg args 0 with
      | Blob hay => match arg args 1 with Blob b => find_bytes hay b | other => find_bytes hay (as_bytes (as_text other)) end
      | v => find_sub (as_text v) (as_text (arg args 1))
      end in
    Ok (Integer (match pos with Some p => i64_sat (p + 1) | None => 0 end)).

Definition trim_charset (args : list Value) : str := match args with [_; c] => as_text c | _ => lit " " end.
Definition in_charset (cs : str) (c : Z) : bool := existsb (Z.eqb c) cs.

Fixpoint strip_start (pred : Z -> bool) (s : str) : str :=
  match s with c :: r => if pred c then strip_start pred r else s | [] => [] end.
Fixpoint strip_end (pred : Z -> bool) (s : str) : str :=
  match s with
  | [] => []
  | c :: r => match strip_end pred r with [] => if pred c then [] else [c] | t => c :: t end
  end.

Definition trim_fn : Fn := fun args =>
  if is_null (arg args 0) then Ok Null
  else let cs := trim_charset args in Ok (VText (strip_end (in_charset cs) (strip_start (in_charset cs) (as_text (arg args 0))))).
Definition ltrim_fn : Fn := fun args =>
  if is_null (arg args 0) then Ok Null else Ok (VText (strip_start (in_charset (trim_charset args)) (as_text (arg args 0)))).
Definition rtrim_fn : Fn := fun args =>
  if is_null (arg args 0) then Ok Null else Ok (VText (strip_end (in_charset (trim_charset args)) (as_text (arg args 0)))).

(** [str::replace]: occurrences from the left that do not overlap.  [skip]
    counts the characters of an occurrence still to be passed over. *)
Fixpoint replace_from (s from to : str) (skip : nat) : str :=
  match s with
  | [] => []
  | c :: r =>
    match skip with
    | S k => replace_from r from to k
    | O => if starts_with s from then to ++ replace_from r from to (length from - 1) else c :: replace_from r from to 0
    end
  end.

Definition replace_fn : Fn := fun args =>
  if any_null args then Ok Null
  else
    let s := as_text (arg args 0) in
    let from := as_text (arg args 1) in
    let to := as_text (arg args 2) in
    match from with [] => Ok (VText s) | _ => Ok (VText (replace_from s from to 0)) end.

Definition MAX_BLOB_LEN : Z := 1000000000.
Definition zeroblob : Fn := fun args =>
  Ok (Blob (zeros (Z.max 0 (Z.min MAX_BLOB_LEN (value_int (arg args 0)))))).


(** ** LIKE

    The indices [ti] and [pi] are the remaining text and pattern.  A round
    consumes pattern, so as many rounds as it has characters suffice. *)

Definition ascii_eq (a b : Z) : bool := to_ascii_lowercase a =? to_ascii_lowercase b.

Fixpoint skip_run_of (c : Z) (p : str) : str := match p with x :: r => if x =? c then skip_run_of c r else p | [] => [] end.

(** [(ti..=t.len()).any(|start| f(start))]. *)
Fixpoint any_suffix (f : str -> bool) (t : str) : bool := f t || match t with [] => false | _ :: r => any_suffix f r end.

Fixpoint like_rec (fuel : nat) (t p : str) (escape : option Z) : bool :=
  match fuel with
  | O => false
  | S fuel =>
    match p with
    | [] => match t with [] => true | _ => false end
    | pc :: p' =>
      match (if bool_decide (Some pc = escape) then p' else []) with
      | literal :: p'' =>
        match t with [] => false | c :: t' => if ascii_eq c literal then like_rec fuel t' p'' escape else false end
      | [] =>
        if pc =? 37 then
          match skip_run_of 37 p with
          | [] => true
          | rest => any_suffix (fun start => like_rec fuel start rest escape) t
          end
        else if pc =? 95 then
          match t with [] => false | _ :: t' => like_rec fuel t' p' escape end
        else
          match t with [] => false | c :: t' => if ascii_eq c pc then like_rec fuel t' p' escape else false end
      end
    end
  end.

Definition like_match (text pattern : str) (escape : option Z) : bool := like_rec (S (length pattern)) text pattern escape.

(** ** GLOB *)

(** The characters of a class from index [i] on; [first] tells that no member
    was read yet, when a bracket stands for itself. *)
Fixpoint glob_class_loop (fuel : nat) (p : str) (first : bool) (c : option Z) (matched : bool) : option (bool * str) :=
  match fuel with
  | O => None
  | S fuel =>
    match p with
    | [] => None
    | x :: r =>
      if (x =? 93) && negb first then Some (matched, r)
      else match r with
      | d :: hi :: r' =>
        if (d =? 45) && negb (hi =? 93) then
          let matched := match c with Some c => matched || ((x <=? c) && (c <=? hi)) | None => matched end in
          glob_class_loop fuel r' false c matched
        else glob_class_loop fuel r false c (matched || bool_decide (Some x = c))
      | _ => glob_class_loop fuel r false c (matched || bool_decide (Some x = c))
      end
    end
  end.

(** [p] starts after the opening bracket; the result is the match and the
    rest after the closing one. *)
Definition glob_class (p : str) (c : option Z) : option (bool * str) :=
  let '(negate, p) := match p with x :: r => if x =? 94 then (true, r) else (false, p) | [] => (false, p) end in
  '(matched, rest) ← glob_class_loop (S (length p)) p true c false;
  Some (xorb matched negate && match c with Some _ => true | None => false end, rest).

Fixpoint glob_rec (fuel : nat) (t p : str) : bool :=
  match fuel with
  | O => false
  | S fuel =>
    match p with
    | [] => match t with [] => true | _ => false end
    | pc :: p' =>
      if pc =? 42 then
        match skip_run_of 42 p with
        | [] => true
        | rest => any_suffix (fun start => glob_rec fuel start rest) t
        end
      else if pc =? 63 then
        match t with [] => false | _ :: t' => glob_rec fuel t' p' end
      else if pc =? 91 then
        match glob_class p' (head t) with
        | None => false
        | Some (matches, rest) => match t with [] => false | _ :: t' => if matches : bool then glob_rec fuel t' rest else false end
        end
      else
        match t with [] => false | c :: t' => if c =? pc then glob_rec fuel t' p' else false end
    end
  end.

Definition glob_match (text pattern : str) : bool := glob_rec (S (length pattern)) text pattern.

Definition b2z (b : bool) : Z := if b then 1 else 0.

Definition like_fn : Fn := fun args =>
  if any_null args then Ok Null
  else
    let escape := match args with [_; _; e] => head (as_text e) | _ => None end in
    Ok (Integer (b2z (like_match (as_text (arg args 1)) (as_text (arg args 0)) escape))).

Definition glob_fn : Fn := fun args =>
  if any_null args then Ok Null
  else Ok (Integer (b2z (glob_match (as_text (arg args 1)) (as_text (arg args 0))))).

(** ** The registry *)

Definition str_eqb (a b : str) : bool := bool_decide (a = b).

(** Name, the arities it takes, and the function. *)
Definition registry : list (str * (Z -> bool) * Fn) :=
  [ (lit "length", Z.eqb 1, length_fn); (lit "upper", Z.eqb 1, upper); (lit "lower", Z.eqb 1, lower);
    (lit "substr", (fun n => (n =? 2) || (n =? 3)), substr); (lit "sqlite_version", Z.eqb 0, sqlite_version);
    (lit "abs", Z.eqb 1, abs); (lit "coalesce", (fun n => 2 <=? n), coalesce); (lit "ifnull", Z.eqb 2, coalesce);
    (lit "nullif", Z.eqb 2, nullif); (lit "typeof", Z.eqb 1, typeof_fn); (lit "hex", Z.eqb 1, hex); (lit "unhex", Z.eqb 1, unhex);
    (lit "quote", Z.eqb 1, quote); (lit "min", (fun n => 1 <=? n), scalar_min); (lit "max", (fun n => 1 <=? n), scalar_max);
    (lit "round", (fun n => (n =? 1) || (n =? 2)), round_fn); (lit "sign", Z.eqb 1, sign); (lit "instr", Z.eqb 2, instr);
    (lit "trim", (fun n => (n =? 1) || (n =? 2)), trim_fn); (lit "ltrim", (fun n => (n =? 1) || (n =? 2)), ltrim_fn);
    (lit "rtrim", (fun n => (n =? 1) || (n =? 2)), rtrim_fn); (lit "replace", Z.eqb 3, replace_fn); (lit "zeroblob", Z.eqb 1, zeroblob);
    (lit "iif", Z.eqb 3, iif); (lit "like", (fun n => (n =? 2) || (n =? 3)), like_fn); (lit "glob", Z.eqb 2, glob_fn) ].

Definition call (name : str) : Fn := fun args =>
  let lowered := map to_ascii_lowercase name in
  match List.find (fun e => str_eqb e.1.1 lowered && e.1.2 (len args)) registry with
  | Some e => e.2 args
  | None => Err (FnUnknown name (len args))
  end.

Example like_samples :
  map (fun '(t, p) => like_match t p None) [(lit "abc", lit "a%"); (lit "ABC", lit "abc"); (lit "abc", lit "a_c"); (lit "abc", lit "a"); (lit "", lit "%%")]
  = [true; true; true; false; true] /\
  like_match (lit "a%c") (lit "a\%c") (Some 92) = true /\ like_match (lit "abc") (lit "a\%c") (Some 92) = false.
Proof. by vm_compute. Qed.

Example glob_samples :
  map (fun '(t, p) => glob_match t p) [(lit "abc", lit "a*"); (lit "ABC", lit "abc"); (lit "abc", lit "a[a-c]c"); (lit "abc", lit "a[^b]c"); (lit "a]c", lit "a[]]c"); (lit "abc", lit "a[b")]
  = [true; false; true; false; true; false].
Proof. by vm_compute. Qed.

Example call_samples :
  call (lit "SubStr") [VText (lit "hello"); Integer (-3); Integer 2] = Ok (VText (lit "ll")) /\
  call (lit "round") [Real 4612811918334230528] = Ok (Real 4613937818241073152) /\
  call (lit "instr") [VText (lit "hello"); VText (lit "lo")] = Ok (Integer 4) /\
  call (lit "replace") [VText (lit "aaaa"); VText (lit "aa"); VText (lit "b")] = Ok (VText (lit "bb")) /\
  call (lit "abs") [Integer I64_MIN] = Err FnIntegerOverflow /\
  call (lit "length") [] = Err (FnUnknown (lit "length") 0).
Proof. by vm_compute. Qed.
