(* ===== verification/FunctionProperties.v ===== *)
(** * What holds of the scalar functions

    [LIKE] and [GLOB] decide the language of their pattern; [substr] takes the
    characters of a window; [hex] and [quote] can be read back; results are
    well typed. *)

From stdpp Require Import prelude list numbers.
From Stdlib Require Import ZArith Lia.
From S2P Require Import Prelude Varint Text Record Float ValueOrder Format Coerce ValueProperties Functions.

Local Open Scope Z_scope.

(** ** The language of a pattern *)

Inductive Token : Type := AnyRun | AnyOne | Exactly (accept : Z -> bool) | Nothing.

(** A text is in the language of a list of tokens. *)
Inductive matches : list Token -> str -> Prop :=
| matches_nil : matches [] []
| matches_run ts t1 t2 : matches ts t2 -> matches (AnyRun :: ts) (t1 ++ t2)
| matches_one ts c t : matches ts t -> matches (AnyOne :: ts) (c :: t)
| matches_exactly accept ts c t : accept c = true -> matches ts t -> matches (Exactly accept :: ts) (c :: t).

Definition like_token (pc : Z) : Token := if pc =? 37 then AnyRun else if pc =? 95 then AnyOne else Exactly (fun c => ascii_eq c pc).

(** An escape character makes the next character literal; at the end of the
    pattern it stands for itself. *)
Fixpoint like_tokens (escape : option Z) (p : str) : list Token :=
  match p with
  | [] => []
  | pc :: p' =>
    if bool_decide (Some pc = escape) then
      match p' with
      | l :: p'' => Exactly (fun c => ascii_eq c l) :: like_tokens escape p''
      | [] => [like_token pc]
      end
    else like_token pc :: like_tokens escape p'
  end.

Lemma matches_cons_inv ts t k : matches (k :: ts) t <->
  match k with
  | AnyRun => exists t1 t2, t = t1 ++ t2 /\ matches ts t2
  | AnyOne => exists c t', t = c :: t' /\ matches ts t'
  | Exactly accept => exists c t', t = c :: t' /\ accept c = true /\ matches ts t'
  | Nothing => False
  end.
Proof.
  split.
  - inversion 1; subst; eauto.
  - destruct k; [intros (? & ? & -> & ?); by constructor|intros (? & ? & -> & ?); by constructor|intros (? & ? & -> & ? & ?); by constructor|done].
Qed.

Lemma matches_nil_inv t : matches [] t <-> t = [].
Proof. split; [by inversion 1|intros ->; constructor]. Qed.

(** Any number of [AnyRun], at least one, is one. *)
Lemma matches_runs k ts t : matches (repeat AnyRun (S k) ++ ts) t <-> exists t1 t2, t = t1 ++ t2 /\ matches ts t2.
Proof.
  revert t. induction k as [|k IH]; intros t; [by apply (matches_cons_inv ts t AnyRun)|].
  change (repeat AnyRun (S (S k)) ++ ts) with (AnyRun :: (repeat AnyRun (S k) ++ ts)). rewrite matches_cons_inv. split.
  - intros (t1 & t2 & -> & (t3 & t4 & -> & Hm)%IH). exists (t1 ++ t3), t4. by rewrite <- app_assoc.
  - intros (t1 & t2 & -> & Hm). exists t1, t2. split; [done|]. apply IH. by exists [], t2.
Qed.

Lemma any_suffix_iff f t : any_suffix f t = true <-> exists t1 t2, t = t1 ++ t2 /\ f t2 = true.
Proof.
  induction t as [|c t IH]; cbn; rewrite orb_true_iff.
  - split; [intros [H|H]; [by exists [], []|done]|]. intros (t1 & t2 & E & H). symmetry in E. apply app_eq_nil in E as [-> ->]. by left.
  - rewrite IH. split.
    + intros [H|(t1 & t2 & -> & H)]; [by exists [], (c :: t)|by exists (c :: t1), t2].
    + intros ([|d t1] & t2 & E & H); cbn in E; [left; by subst|right]. injection E as <- ->. by exists t1, t2.
Qed.

Lemma skip_run_split c p : exists k, p = repeat c k ++ skip_run_of c p /\ (skip_run_of c p = [] \/ exists x r, skip_run_of c p = x :: r /\ x <> c).
Proof.
  induction p as [|x p (k & E & H)]; cbn; [exists 0%nat; auto|]. destruct (Z.eqb_spec x c) as [->|Hne].
  - exists (S k). split; [cbn; by f_equal|done].
  - exists 0%nat. split; [done|]. right. eauto.
Qed.

Lemma like_tokens_runs escape k rest : escape <> Some 37 -> like_tokens escape (repeat 37 k ++ rest) = repeat AnyRun k ++ like_tokens escape rest.
Proof. intros He. induction k as [|k IH]; cbn; [done|]. rewrite bool_decide_false by congruence. by rewrite IH. Qed.

(** The tokens of a run of [c] in a pattern. *)
Lemma matches_run_rest tokens c p t f :
  (forall k rest, p = repeat c k ++ rest -> tokens p = repeat AnyRun k ++ tokens rest) -> tokens [] = [] ->
  head_is (Z.eqb c) p = true -> (forall start, f start (skip_run_of c p) = true <-> matches (tokens (skip_run_of c p)) start) ->
  (match skip_run_of c p with [] => true | x :: r => any_suffix (fun start => f start (x :: r)) t end) = true <-> matches (tokens p) t.
Proof.
  intros Ht H0 Hh Hf. destruct (skip_run_split c p) as (k & Ek & _). rewrite (Ht k _ Ek).
  destruct k as [|k]; [exfalso; destruct p as [|x r]; [done|]; cbn [head_is] in Hh; apply Z.eqb_eq in Hh as <-; cbn in Ek; rewrite Z.eqb_refl in Ek|].
  { destruct (skip_run_split c r) as (k & Er & [Hn|(y & z & Hn & Hy)]); rewrite Hn in Ek; [done|injection Ek as <- _; done]. }
  rewrite matches_runs. destruct (skip_run_of c p) as [|x r] eqn:Er.
  - split; [|done]. intros _. exists t, []. rewrite app_nil_r, H0. split; [done|constructor].
  - rewrite any_suffix_iff. split; intros (t1 & t2 & -> & H); exists t1, t2; (split; [done|]); by apply Hf.
Qed.

Lemma skip_run_len c p : (length (skip_run_of c p) <= length p)%nat /\ (head_is (Z.eqb c) p = true -> length (skip_run_of c p) < length p)%nat.
Proof.
  induction p as [|x p [IH _]]; cbn [skip_run_of]; [done|]. cbn [head_is length]. rewrite (Z.eqb_sym c). destruct (x =? c); [split; [|intros _]; lia|]. cbn. split; [lia|done].
Qed.

(** One character of the text and one token. *)
Lemma match_one accept ts t (f : str -> bool) : (forall t', f t' = true <-> matches ts t') ->
  (match t with [] => false | c :: t' => if accept c : bool then f t' else false end) = true <-> matches (Exactly accept :: ts) t.
Proof.
  intros Hf. rewrite matches_cons_inv. destruct t as [|x t]; [split; [done|by intros (? & ? & ? & _)]|].
  destruct (accept x) eqn:E; [rewrite Hf|]; (split; [|intros (? & ? & [= <- <-] & ? & ?); congruence || done]); [eauto|done].
Qed.

Lemma match_any ts t (f : str -> bool) : (forall t', f t' = true <-> matches ts t') ->
  (match t with [] => false | _ :: t' => f t' end) = true <-> matches (AnyOne :: ts) t.
Proof.
  intros Hf. rewrite matches_cons_inv. destruct t as [|x t]; [split; [done|by intros (? & ? & ? & _)]|]. rewrite Hf.
  split; [eauto|intros (? & ? & [= <- <-] & ?); done].
Qed.

Lemma like_rec_ok fuel : forall t p escape, (length p < fuel)%nat -> like_rec fuel t p escape = true <-> matches (like_tokens escape p) t.
Proof.
  induction fuel as [|fuel IH]; intros t p escape Hf; [lia|]. cbn [like_rec]. destruct p as [|pc p].
  { cbn. rewrite matches_nil_inv. by destruct t. }
  cbn [length] in Hf. destruct (if bool_decide (Some pc = escape) then p else []) as [|l p''] eqn:Ee.
  - assert (like_tokens escape (pc :: p) = like_token pc :: like_tokens escape p) as Et by (cbn; destruct (bool_decide _); [by subst p|done]).
    assert (pc = 37 -> escape <> Some 37 \/ p = []) as Hpc.
    { intros ->. destruct (decide (escape = Some 37)) as [->|]; [right|by left]. by rewrite bool_decide_true in Ee. }
    destruct (Z.eqb_spec pc 37) as [->|Hne].
    + apply (matches_run_rest (like_tokens escape) 37 (37 :: p) t (fun start rest => like_rec fuel start rest escape)); [|done|done|].
      * intros k rest E. destruct (Hpc eq_refl) as [He| ->]; [rewrite E; by apply like_tokens_runs|].
        destruct k as [|[|k]]; cbn in E; [by subst|injection E as <-; by rewrite Et|done].
      * intros start. apply IH. pose proof (proj2 (skip_run_len 37 (37 :: p)) eq_refl). cbn [length] in *. lia.
    + rewrite Et. unfold like_token. rewrite (proj2 (Z.eqb_neq pc 37) Hne). destruct (pc =? 95).
      * apply match_any. intros t'. apply IH. lia.
      * apply match_one. intros t'. apply IH. lia.
  - destruct (bool_decide (Some pc = escape)) eqn:Ed; [|done]. subst p. cbn [like_tokens]. rewrite Ed. apply (match_one (fun c => ascii_eq c l)). intros t'. apply IH.
    cbn [length] in Hf. lia.
Qed.

(** ** GLOB *)

(** The ranges of a class and the pattern after it; a single character is a
    range of one.  A closing bracket that comes first is a member. *)
Fixpoint class_ranges (fuel : nat) (p : str) (first : bool) : option (list (Z * Z) * str) :=
  match fuel with
  | O => None
  | S fuel =>
    match p with
    | [] => None
    | x :: r =>
      if (x =? 93) && negb first then Some ([], r)
      else match r with
      | d :: hi :: r' =>
        if (d =? 45) && negb (hi =? 93) then prod_map (cons (x, hi)) id <$> class_ranges fuel r' false
        else prod_map (cons (x, x)) id <$> class_ranges fuel r false
      | _ => prod_map (cons (x, x)) id <$> class_ranges fuel r false
      end
    end
  end.

Definition in_ranges (ranges : list (Z * Z)) (c : Z) : bool := existsb (fun '(lo, hi) => (lo <=? c) && (c <=? hi)) ranges.

Definition class_token (p : str) : option (Token * str) :=
  let '(negate, p) := match p with x :: r => if x =? 94 then (true, r) else (false, p) | [] => (false, p) end in
  '(ranges, rest) ← class_ranges (S (length p)) p true;
  Some (Exactly (fun c => xorb (in_ranges ranges c) negate), rest).

(** An unterminated class matches nothing. *)
Fixpoint glob_tokens (fuel : nat) (p : str) : list Token :=
  match fuel with
  | O => [Nothing]
  | S fuel =>
    match p with
    | [] => []
    | pc :: p' =>
      if pc =? 42 then AnyRun :: glob_tokens fuel p'
      else if pc =? 63 then AnyOne :: glob_tokens fuel p'
      else if pc =? 91 then match class_token p' with Some (k, rest) => k :: glob_tokens fuel rest | None => [Nothing] end
      else Exactly (fun c => c =? pc) :: glob_tokens fuel p'
    end
  end.

Lemma class_loop_ranges fuel : forall p first c matched,
  glob_class_loop fuel p first c matched =
  match class_ranges fuel p first with
  | Some (ranges, rest) => Some (matched || match c with Some c => in_ranges ranges c | None => false end, rest)
  | None => None
  end.
Proof.
  induction fuel as [|fuel IH]; intros p first c matched; [done|]. cbn [glob_class_loop class_ranges]. destruct p as [|x r]; [done|].
  destruct ((x =? 93) && negb first); [by destruct c; rewrite orb_false_r|].
  assert (forall o : option (list (Z * Z) * str), forall lo hi,
    match o with Some (ranges, rest) => Some ((matched || match c with Some c => (lo <=? c) && (c <=? hi) | None => false end) || match c with Some c => in_ranges ranges c | None => false end, rest) | None => None end =
    match prod_map (cons (lo, hi)) id <$> o with Some (ranges, rest) => Some (matched || match c with Some c => in_ranges ranges c | None => false end, rest) | None => None end) as Ho.
  { intros [[ranges rest]|] lo hi; cbn; [|done]. destruct c; cbn; by rewrite ?orb_assoc, ?orb_false_r. }
  assert (bool_decide (Some x = c) = match c with Some c => (x <=? c) && (c <=? x) | None => false end) as Hx.
  { destruct c as [c|]; [|done]. destruct (decide (x = c)) as [->|Hne]; [rewrite bool_decide_true by done; rewrite !Z.leb_refl; done|].
    rewrite bool_decide_false by congruence. lia. }
  assert (forall r', glob_class_loop fuel r' false c (matched || bool_decide (Some x = c)) = 
    match prod_map (cons (x, x)) id <$> class_ranges fuel r' false with Some (ranges, rest) => Some (matched || match c with Some c => in_ranges ranges c | None => false end, rest) | None => None end) as Hone.
  { intros r'. rewrite IH, Hx. apply Ho. }
  destruct r as [|d [|hi r']]; [apply Hone..|]. destruct ((d =? 45) && negb (hi =? 93)); [|apply Hone].
  rewrite IH, <- Ho. by destruct c; rewrite ?orb_false_r.
Qed.

Lemma class_ranges_len fuel : forall p first ranges rest, class_ranges fuel p first = Some (ranges, rest) -> (length rest < length p)%nat.
Proof.
  induction fuel as [|fuel IH]; intros p first ranges rest; [done|]. cbn [class_ranges]. destruct p as [|x r]; [done|].
  destruct ((x =? 93) && negb first); [intros [= <- <-]; cbn; lia|].
  assert (forall lo r', prod_map (cons lo) id <$> class_ranges fuel r' false = Some (ranges, rest) -> (length rest < length r')%nat) as Hr.
  { intros lo r'. destruct (class_ranges fuel r' false) as [[rs rt]|] eqn:E; [|done]. cbn. intros [= _ <-]. by eapply IH. }
  destruct r as [|d [|hi r']]; [intros H%Hr; cbn in *; lia..|]. destruct ((d =? 45) && negb (hi =? 93)); intros H%Hr; cbn in *; lia.
Qed.

Lemma class_token_ok p c : glob_class p c =
  match class_token p with
  | Some (Exactly accept, rest) => Some (match c with Some c => accept c | None => false end, rest)
  | _ => None
  end.
Proof.
  unfold glob_class, class_token. destruct (match p with [] => _ | _ :: _ => _ end) as [negate p']. rewrite class_loop_ranges.
  destruct (class_ranges (S (length p')) p' true) as [[ranges rest]|]; [|done]. cbn. destruct c; cbn; by rewrite ?andb_true_r, ?andb_false_r.
Qed.

Lemma class_token_len p k rest : class_token p = Some (k, rest) -> (length rest < S (length p))%nat /\ exists accept, k = Exactly accept.
Proof.
  unfold class_token. destruct (match p with [] => _ | _ :: _ => _ end) as [negate p'] eqn:E.
  assert (length p' <= length p)%nat by (destruct p as [|x r]; [by injection E as _ <-|]; destruct (x =? 94); injection E as _ <-; cbn; lia).
  destruct (class_ranges (S (length p')) p' true) as [[ranges rt]|] eqn:Er; [|done]. cbn. intros [= <- <-]. apply class_ranges_len in Er. split; [lia|by eexists].
Qed.

Lemma glob_tokens_fuel fuel : forall fuel' p, (length p < fuel)%nat -> (length p < fuel')%nat -> glob_tokens fuel p = glob_tokens fuel' p.
Proof.
  induction fuel as [|fuel IH]; intros [|fuel'] p H1 H2; try lia. cbn [glob_tokens]. destruct p as [|pc p]; [done|]. cbn [length] in *.
  rewrite (IH fuel' p) by lia. destruct (class_token p) as [[k rest]|] eqn:E; [|done]. apply class_token_len in E as [El _]. by rewrite (IH fuel' rest) by lia.
Qed.

Definition tokens_of_glob (p : str) : list Token := glob_tokens (S (length p)) p.

Lemma tokens_of_glob_runs k rest : tokens_of_glob (repeat 42 k ++ rest) = repeat AnyRun k ++ tokens_of_glob rest.
Proof.
  induction k as [|k IH]; [done|]. change (repeat AnyRun (S k) ++ tokens_of_glob rest) with (AnyRun :: (repeat AnyRun k ++ tokens_of_glob rest)).
  rewrite <- IH. unfold tokens_of_glob. cbn [repeat app length]. set (q := repeat 42 k ++ rest). clearbody q.
  change (glob_tokens (S (S (length q))) (42 :: q)) with (AnyRun :: glob_tokens (S (length q)) q). done.
Qed.

Lemma glob_rec_ok fuel : forall t p, (length p < fuel)%nat -> glob_rec fuel t p = true <-> matches (tokens_of_glob p) t.
Proof.
  induction fuel as [|fuel IH]; intros t p Hf; [lia|]. cbn [glob_rec]. destruct p as [|pc p].
  { cbn. rewrite matches_nil_inv. by destruct t. }
  cbn [length] in Hf. destruct (Z.eqb_spec pc 42) as [->|H42].
  { apply (matches_run_rest tokens_of_glob 42 (42 :: p) t (fun start rest => glob_rec fuel start rest)); [|done|done|].
    - intros k rest ->. apply tokens_of_glob_runs.
    - intros start. apply IH. pose proof (proj2 (skip_run_len 42 (42 :: p)) eq_refl). cbn [length] in *. lia. }
  unfold tokens_of_glob. cbn [glob_tokens length]. rewrite (proj2 (Z.eqb_neq pc 42) H42).
  assert (forall p', (length p' < S (length p))%nat -> forall t', glob_rec fuel t' p' = true <-> matches (glob_tokens (S (length p)) p') t') as Hrec.
  { intros p' Hp t'. rewrite (glob_tokens_fuel _ (S (length p')) p') by lia. apply IH. lia. }
  destruct (pc =? 63); [apply match_any, Hrec; lia|]. destruct (pc =? 91); [|apply (match_one (fun c => c =? pc)), Hrec; lia].
  rewrite class_token_ok. destruct (class_token p) as [[k rest]|] eqn:E; [|split; [done|by intros ?%(matches_cons_inv [] t Nothing)]].
  apply class_token_len in E as [El [accept ->]]. rewrite <- (match_one accept _ t (fun t' => glob_rec fuel t' rest)) by (by apply Hrec).
  by destruct t as [|c t]; cbn.
Qed.

(** ** Substrings *)

(** The elements at the positions from [lo] up to [hi] exclusive, the first
    element being at [pos]. *)
Fixpoint select (lo hi pos : Z) (s : list Z) : list Z :=
  match s with [] => [] | c :: s => (if (lo <=? pos) && (pos <? hi) then [c] else []) ++ select lo hi (pos + 1) s end.

Lemma select_none lo hi pos s : hi <= pos -> select lo hi pos s = [].
Proof. revert pos. induction s as [|c s IH]; intros pos H; cbn; [done|]. rewrite (proj2 (Z.ltb_ge pos hi)), andb_false_r by lia. apply IH. lia. Qed.

Lemma select_take lo hi pos s : select lo hi pos s = take (Z.to_nat (hi - Z.max lo pos)) (drop (Z.to_nat (lo - pos)) s).
Proof.
  revert pos. induction s as [|c s IH]; intros pos; cbn; [by rewrite drop_nil, take_nil|].
  destruct (Z.leb_spec lo pos) as [Hl|Hl]; cbn [andb].
  - replace (Z.to_nat (lo - pos)) with 0%nat by lia. destruct (Z.ltb_spec pos hi) as [Hh|Hh].
    + replace (Z.to_nat (hi - Z.max lo pos)) with (S (Z.to_nat (hi - Z.max lo (pos + 1)))) by lia. cbn. f_equal. rewrite IH.
      replace (Z.to_nat (lo - (pos + 1))) with 0%nat by lia. done.
    + replace (Z.to_nat (hi - Z.max lo pos)) with 0%nat by lia. cbn. apply select_none. lia.
  - replace (Z.to_nat (lo - pos)) with (S (Z.to_nat (lo - (pos + 1)))) by lia. cbn. rewrite IH. f_equal. lia.
Qed.

(** The first position of [substr]: negative counts from the end. *)
Definition substr_start (y n : Z) : Z := if y <? 0 then n + y + 1 else y.
(** The positions it takes: from there on, or before it for a negative count. *)
Definition substr_range (y : Z) (z : option Z) (n : Z) : Z * Z :=
  let start := substr_start y n in
  match z with
  | Some z => if z <? 0 then (start + z, start) else (start, start + z)
  | None => (start, n + 1)
  end.

Lemma i64_sat_id x : I64_MIN <= x <= I64_MAX -> i64_sat x = x.
Proof. unfold i64_sat. lia. Qed.

(** Removes saturations of numbers in range, and cases on comparisons. *)
Ltac windows :=
  repeat match goal with
  | |- context [i64_sat ?e] =>
    lazymatch e with context [i64_sat _] => fail | _ => rewrite (i64_sat_id e) by (unfold I64_MIN, I64_MAX in *; lia) end
  | |- context [if ?a <? ?b then _ else _] => lazymatch a with context [i64_sat _] => fail | _ => destruct (Z.ltb_spec a b); try (exfalso; lia) end
  end.

Lemma substr_window_ok y z n m lo hi p1 p2 : is_i64 y -> (forall v, z = Some v -> is_i64 v) -> (z = None -> - 2 ^ 61 <= y) -> 0 <= n < 2 ^ 61 -> (y < 0 -> m = n) ->
  substr_range y z n = (lo, hi) -> substr_window y z m = (p1, p2) ->
  (p2 = Z.max 0 (hi - Z.max lo 1) \/ (n <= p1 + p2 /\ n < hi /\ p1 = Z.max 0 (lo - 1))) /\ (p2 = 0 \/ p1 = Z.max 0 (lo - 1)) /\ 0 <= p1 /\ 0 <= p2.
Proof.
  intros Hy Hz Hzn Hn Hm. unfold substr_range, substr_start, substr_window, is_i64 in *. destruct z as [z|].
  - specialize (Hz z eq_refl). clear Hzn.
    assert (exists q, i64_sat (- z) = q /\ (z < 0 -> 0 < q <= I64_MAX /\ (q = - z \/ (q = I64_MAX /\ z = I64_MIN)))) as (q & -> & Hq)
      by (eexists; split; [done|]; unfold i64_sat, I64_MIN, I64_MAX; lia).
    destruct (Z.ltb_spec z 0) as [Hz0|Hz0]; [specialize (Hq Hz0)|clear Hq].
    all: destruct (Z.ltb_spec y 0); rewrite ?Hm by lia; intros [= <- <-]; clear Hm; windows; intros [= <- <-]; unfold I64_MIN, I64_MAX in *; lia.
  - specialize (Hzn eq_refl). clear Hz. change (I64_MAX / 2) with 4611686018427387903.
    destruct (Z.ltb_spec y 0); rewrite ?Hm by lia; intros [= <- <-]; clear Hm; windows; intros [= <- <-]; lia.
Qed.

(** Taking beyond the end is taking everything. *)
Lemma window_select lo hi p1 p2 (s : list Z) :
  (p2 = Z.max 0 (hi - Z.max lo 1) \/ (len s <= p1 + p2 /\ len s < hi /\ p1 = Z.max 0 (lo - 1))) /\ (p2 = 0 \/ p1 = Z.max 0 (lo - 1)) /\ 0 <= p1 /\ 0 <= p2 ->
  take (Z.to_nat p2) (drop (Z.to_nat p1) s) = select lo hi 1 s.
Proof.
  intros ([E2|(H1 & H2 & E)] & E1 & H3 & H4); rewrite select_take.
  - destruct E1 as [E1|E1].
    + rewrite E1 in *. replace (Z.to_nat (hi - Z.max lo 1)) with 0%nat by lia. done.
    + replace (Z.to_nat (hi - Z.max lo 1)) with (Z.to_nat p2) by lia. by replace (Z.to_nat (lo - 1)) with (Z.to_nat p1) by lia.
  - unfold len in *. replace (Z.to_nat (lo - 1)) with (Z.to_nat p1) by lia. rewrite !take_ge; [done|rewrite length_drop; lia..].
Qed.

Definition substr_args (v : Value) (y : Z) (z : option Z) : list Value := v :: Integer y :: match z with Some z => [Integer z] | None => [] end.

Lemma substr_selects v y z : is_null v = false -> is_i64 y -> (forall k, z = Some k -> is_i64 k) -> (z = None -> - 2 ^ 61 <= y) ->
  len (match v with Blob b => b | _ => as_text v end) < 2 ^ 61 ->
  substr (substr_args v y z) = Ok (match v with
    | Blob b => let '(lo, hi) := substr_range y z (len b) in Blob (select lo hi 1 b)
    | _ => let '(lo, hi) := substr_range y z (len (as_text v)) in VText (select lo hi 1 (as_text v))
    end).
Proof.
  intros Hv Hy Hz Hzn Hlen.
  assert (substr (substr_args v y z) = match v with
    | Blob b => let '(p1, p2) := substr_window y z (len b) in
        Ok (Blob (take (Z.to_nat (Z.min (sat_add (Z.min p1 (len b)) p2) (len b) - Z.min p1 (len b))) (drop (Z.to_nat (Z.min p1 (len b))) b)))
    | _ => let '(p1, p2) := substr_window y z (if y <? 0 then len (as_text v) else 0) in Ok (VText (take (Z.to_nat p2) (drop (Z.to_nat p1) (as_text v))))
    end) as -> by (destruct z, v; done).
  assert (forall (s : list Z) m, len s < 2 ^ 61 -> (y < 0 -> m = len s) ->
    let '(lo, hi) := substr_range y z (len s) in let '(p1, p2) := substr_window y z m in
    take (Z.to_nat p2) (drop (Z.to_nat p1) s) = select lo hi 1 s /\ 0 <= p1 /\ 0 <= p2) as Hsel.
  { intros s m Hs Hm. destruct (substr_range y z (len s)) as [lo hi] eqn:E1. destruct (substr_window y z m) as [p1 p2] eqn:E2.
    pose proof (substr_window_ok y z (len s) m lo hi p1 p2 Hy Hz Hzn (conj (len_nonneg s) Hs) Hm E1 E2) as H. split; [by apply window_select|lia]. }
  destruct v as [|i|r|s|b]; [done|..].
  1-3: match goal with |- context [len (as_text ?v)] => specialize (Hsel (as_text v) (if y <? 0 then len (as_text v) else 0) Hlen) end;
    destruct (substr_range _ _ _) as [lo hi], (substr_window _ _ _) as [p1 p2]; rewrite (proj1 (Hsel ltac:(intros Hy0; by rewrite (proj2 (Z.ltb_lt _ _) Hy0)))); done.
  specialize (Hsel b (len b) Hlen ltac:(done)). destruct (substr_range _ _ _) as [lo hi], (substr_window _ _ _) as [p1 p2].
  destruct Hsel as (<- & H1 & H2). do 2 f_equal. unfold sat_add, len in *. destruct (Z.le_gt_cases p1 (Z.of_nat (length b))).
  - rewrite (Z.min_l p1) by lia.
    destruct (Z.le_gt_cases (p1 + p2) (Z.of_nat (length b))).
    + rewrite (Z.min_l (p1 + p2)), (Z.min_l (p1 + p2)) by (unfold U64_MAX; lia). by replace (p1 + p2 - p1) with p2 by lia.
    + rewrite !take_ge; [done|rewrite length_drop; lia|rewrite length_drop; unfold U64_MAX; lia].
  - rewrite (Z.min_r p1) by lia. rewrite !drop_ge by lia. by rewrite !take_nil.
Qed.

(** ** Hexadecimal *)

Lemma hex_digit_value n : 0 <= n < 16 -> hex_value (Format.hex_digit n) = Some n /\ 0 <= Format.hex_digit n < 128.
Proof.
  intros Hn. unfold hex_value, Format.hex_digit. destruct (Z.ltb_spec n 10).
  - rewrite !(proj2 (Z.leb_le _ _)) by lia. split; [f_equal|]; lia.
  - rewrite (proj2 (Z.leb_gt (55 + n) 57)), (proj2 (Z.leb_gt 97 (55 + n))), andb_false_r by lia. cbn [andb].
    rewrite !(proj2 (Z.leb_le _ _)) by lia. split; [f_equal|]; lia.
Qed.

Lemma nibbles byte : 0 <= byte < 256 -> 0 <= byte / 16 < 16 /\ 0 <= byte mod 16 < 16 /\ Z.lor (Z.shiftl (byte / 16) 4) (byte mod 16) = byte.
Proof.
  intros Hb. pose proof (Z.div_mod byte 16 ltac:(lia)). pose proof (Z.mod_pos_bound byte 16 ltac:(lia)).
  split; [lia|]. split; [lia|].
  assert (forallb (fun x => Z.lor (Z.shiftl (x / 16) 4) (x mod 16) =? x) (seqZ 0 256) = true) as Hall by (by vm_compute).
  apply Z.eqb_eq. apply (proj1 (forallb_forall _ _) Hall byte). apply list_elem_of_In, elem_of_seqZ. lia.
Qed.

Lemma unhex_hex b : bytes_ok b -> unhex_pairs (hex_bytes b) = Some b.
Proof.
  induction 1 as [|x b Hx Hb IH]; [done|]. unfold is_u8 in Hx. destruct (nibbles x Hx) as (H1 & H2 & H3). cbn.
  rewrite (proj1 (hex_digit_value _ H1)), (proj1 (hex_digit_value _ H2)). unfold hex_bytes in IH. rewrite IH. cbn. by rewrite H3.
Qed.

Lemma hex_bytes_ascii b : bytes_ok b -> ascii (hex_bytes b) /\ len (hex_bytes b) = 2 * len b.
Proof.
  induction 1 as [|x b Hx Hb [IH1 IH2]]; [split; [constructor|done]|]. unfold is_u8 in Hx. destruct (nibbles x Hx) as (H1 & H2 & _). cbn [hex_bytes flat_map app].
  split; [repeat apply Forall_cons_2; [by apply hex_digit_value..|done]|]. fold (hex_bytes b). rewrite !len_cons, IH2. lia.
Qed.

(** ** Well-typed results *)

Lemma strip_start_ok pred s : str_ok s -> str_ok (strip_start pred s).
Proof. induction 1 as [|c s Hc Hs IH]; cbn; [constructor|]. destruct (pred c); [done|by constructor]. Qed.

Lemma strip_end_ok pred s : str_ok s -> str_ok (strip_end pred s).
Proof.
  induction 1 as [|c s Hc Hs IH]; cbn; [constructor|]. destruct (strip_end pred s); [destruct (pred c); [constructor|by apply Forall_cons_2]|by apply Forall_cons_2].
Qed.

Lemma replace_from_ok s from to : str_ok s -> str_ok to -> forall k, str_ok (replace_from s from to k).
Proof.
  intros Hs Ht. induction Hs as [|c s Hc Hs IH]; intros k; [constructor|]. cbn [replace_from]. destruct k as [|k]; [|apply IH].
  destruct (starts_with (c :: s) from); [apply Forall_app_2; [done|apply IH]|apply Forall_cons_2; [done|apply IH]].
Qed.

Lemma case_ok f s : (forall c, f c = c \/ 0 <= f c < 128) -> str_ok s -> str_ok (map f s).
Proof.
  intros Hf. induction 1 as [|c s Hc Hs IH]; [constructor|]. apply Forall_cons_2; [|done]. destruct (Hf c) as [-> | ?]; [done|]. unfold is_char. lia.
Qed.

Lemma double_apostrophes_ok s : str_ok s -> str_ok (double_apostrophes s).
Proof.
  induction 1 as [|c s Hc Hs IH]; cbn; [constructor|]. destruct (Z.eqb_spec c 39) as [->|]; [|by apply Forall_cons_2]. repeat apply Forall_cons_2; done.
Qed.

Lemma value_f64_ok v : value_ok v -> is_u64 (value_f64 v).
Proof.
  destruct v as [|i|r|s|b]; cbn; try done; [intros _; apply f64_of_i64_ok|]. intros _. pose proof (coerce_ok s). destruct (coerce_text_to_numeric s); try done. apply f64_of_i64_ok.
Qed.

Lemma f64_mag_ok x : is_u64 (f64_mag x).
Proof. pose proof (f64_mag_bounds x). unfold is_u64, SIGN_BIT in *. lia. Qed.

Lemma unhex_ok b out : unhex_pairs b = Some out -> bytes_ok out.
Proof.
  revert out. enough (forall n b out, (length b <= n)%nat -> unhex_pairs b = Some out -> bytes_ok out) by eauto. clear b.
  induction n as [|n IH]; intros b out Hn; (destruct b as [|hi [|lo b]]; cbn [unhex_pairs length] in *; [intros [= <-]; apply Forall_nil_2|intros [= <-]; apply Forall_nil_2|]); [lia|].
  assert (forall c v, hex_value c = Some v -> 0 <= v < 16) as Hv by (intros c v; unfold hex_value; repeat case_match; intros [= <-]; lia).
  destruct (hex_value hi) as [h|] eqn:Eh; [|done]. destruct (hex_value lo) as [l|] eqn:El; [|done]. apply Hv in Eh, El.
  destruct (unhex_pairs b) as [o|] eqn:Eo; [|done]. cbn. intros [= <-]. apply Forall_cons_2; [|eapply IH; [|done]; lia].
  assert (forallb (fun x => forallb (fun y => (0 <=? Z.lor (Z.shiftl x 4) y) && (Z.lor (Z.shiftl x 4) y <? 256)) (seqZ 0 16)) (seqZ 0 16) = true) as Hall by (by vm_compute).
  assert (forall x, 0 <= x < 16 -> In x (seqZ 0 16)) as Hin by (intros x ?; apply list_elem_of_In, elem_of_seqZ; lia).
  pose proof (proj1 (forallb_forall _ _) (proj1 (forallb_forall _ _) Hall h (Hin h Eh)) l (Hin l El)) as H. cbn beta in H. unfold is_u8. lia.
Qed.

(** The arguments of a call: well typed, of less than [2^62] characters. *)
Definition args_ok (args : list Value) : Prop :=
  Forall (fun v => value_ok v /\ len (as_text v) < 2 ^ 62 /\ len (match v with Blob b => b | _ => [] end) < 2 ^ 62) args.

Lemma arg_ok args n : args_ok args -> value_ok (arg args n).
Proof.
  intros Ha. unfold arg. destruct (nth_in_or_default n args Null) as [Hin| ->]; [|done]. by apply (proj1 (Forall_forall _ _) Ha).
Qed.

Lemma fn_text s : str_ok s -> forall v : Value, @Ok FunctionError Value (VText s) = Ok v -> value_ok v.
Proof. by intros Hs v [= <-]. Qed.

Lemma text_arg_ok args n : args_ok args -> str_ok (as_text (arg args n)).
Proof. intros Ha. by apply as_text_ok, arg_ok. Qed.

Lemma substr_ok args v : args_ok args -> substr args = Ok v -> value_ok v.
Proof.
  intros Ha. unfold substr. destruct (is_null (arg args 1) || _); [by intros [= <-]|]. destruct (is_null (arg args 0)); [by intros [= <-]|].
  pose proof (arg_ok args 0 Ha) as H0. pose proof (as_text_ok _ H0) as H1. destruct (arg args 0) as [|i|r|s|b]; destruct (substr_window _ _ _) as [p1 p2]; intros [= <-];
    by apply Forall_take, Forall_drop.
Qed.

Lemma min_max_ok cmp best vs : value_ok best -> Forall value_ok vs -> value_ok (min_by cmp best vs) /\ value_ok (max_by cmp best vs).
Proof.
  intros Hb Hvs. revert best Hb. enough (forall best, value_ok best -> value_ok (min_by cmp best vs)) as Hmin.
  { intros best Hb. split; [by apply Hmin|]. clear Hmin. revert best Hb. induction Hvs as [|v vs Hv Hvs IH]; intros best Hb; cbn; [done|]. apply IH. by destruct (cmp best v). }
  induction Hvs as [|v vs Hv Hvs IH]; intros best Hb; cbn; [done|]. apply IH. by destruct (cmp best v).
Qed.

Lemma plain_args args : args_ok args -> Forall value_ok args.
Proof. intros Ha. eapply Forall_impl; [|exact Ha]. by intros ? [? _]. Qed.

Lemma round_ok args v : args_ok args -> round_fn args = Ok v -> value_ok v.
Proof. intros Ha. unfold round_fn. destruct (is_null _ || _); [by intros [= <-]|]. intros [= <-]. apply f64_div_ok. Qed.

Lemma call_ok name args v : args_ok args -> call name args = Ok v -> value_ok v.
Proof.
  intros Ha. unfold call. set (test := fun e : str * (Z -> bool) * Fn => _). destruct (List.find test registry) as [e|] eqn:E; [|done]. intros Ev.
  apply find_some in E as [Hin _]. pose proof (arg_ok args 0 Ha) as H0. pose proof (text_arg_ok args 0 Ha) as T0.
  pose proof (plain_args args Ha) as Hp.
  repeat (destruct Hin as [<-|Hin]; [cbn [snd] in Ev|]); [..|done].
  - (* length *) assert (Forall (fun v => len (as_text v) < 2 ^ 62 /\ len (match v with Blob b => b | _ => [] end) < 2 ^ 62) args) as Hl
      by (eapply Forall_impl; [|exact Ha]; by intros ? [_ ?]).
    assert (len (as_text (arg args 0)) < 2 ^ 62 /\ len (match arg args 0 with Blob b => b | _ => [] end) < 2 ^ 62) as [L1 L2].
    { unfold arg. destruct (nth_in_or_default 0 args Null) as [Hin| ->]; [|done]. by apply (proj1 (Forall_forall _ _) Hl). }
    unfold length_fn in Ev. injection Ev as <-. destruct (arg args 0) as [|i|r|s|b]; cbn in *; try done; unfold is_i64.
    all: match goal with |- context [len ?l] => pose proof (len_nonneg l) end; lia.
  - injection Ev as <-. destruct (arg args 0); try done. apply case_ok; [|done]. intros c. unfold to_ascii_uppercase. case_match; [right; lia|by left].
  - injection Ev as <-. destruct (arg args 0); try done. apply case_ok; [|done]. intros c. unfold to_ascii_lowercase. case_match; [right; lia|by left].
  - by eapply substr_ok.
  - injection Ev as <-. by apply ascii_ok, ascii_lit.
  - unfold abs in Ev. destruct (arg args 0) as [|i|r|s|b]; try (injection Ev as <-; first [done|apply f64_mag_ok]).
    destruct (Z.eqb_spec i I64_MIN); [done|]. injection Ev as <-. cbn in *. unfold is_i64, I64_MIN in *. lia.
  - injection Ev as <-. destruct (List.find _ args) eqn:Ef; [|done]. apply find_some in Ef as [Hin _]. by apply (proj1 (Forall_forall _ _) Hp).
  - injection Ev as <-. destruct (List.find _ args) eqn:Ef; [|done]. apply find_some in Ef as [Hin _]. by apply (proj1 (Forall_forall _ _) Hp).
  - unfold nullif in Ev. destruct (is_null _ || _); [by injection Ev as <-|]. destruct (comparison_eqb _ _); by injection Ev as <-.
  - injection Ev as <-. destruct (arg args 0); by apply ascii_ok, ascii_lit.
  - injection Ev as <-. apply ascii_ok, hex_bytes_ascii. destruct (arg args 0); first [done|apply Forall_nil_2|by apply as_bytes_ok].
  - unfold unhex in Ev. destruct (is_null _); [by injection Ev as <-|]. destruct (negb _); [by injection Ev as <-|]. injection Ev as <-.
    destruct (unhex_pairs _) eqn:Eu; [|done]. by eapply unhex_ok.
  - injection Ev as <-. destruct (arg args 0) as [|i|r|s|b]; cbn [value_ok].
    + by apply ascii_ok, ascii_lit.
    + apply ascii_ok, to_string_ascii.
    + apply ascii_ok, format_real_ascii.
    + unfold sql_quote_text. apply Forall_cons_2; [unfold is_char; lia|]. apply Forall_app_2; [by apply double_apostrophes_ok|]. by apply ascii_ok, ascii_lit.
    + unfold format_blob. apply Forall_app_2; [by apply ascii_ok, ascii_lit|]. apply Forall_app_2; [apply ascii_ok; by apply hex_bytes_ascii|by apply ascii_ok, ascii_lit].
  - unfold scalar_min in Ev. destruct (any_null args); [by injection Ev as <-|]. injection Ev as <-. destruct args as [|a vs]; [done|]. apply Forall_cons_1 in Hp as [? ?]. by apply min_max_ok.
  - unfold scalar_max in Ev. destruct (any_null args); [by injection Ev as <-|]. injection Ev as <-. destruct args as [|a vs]; [done|]. apply Forall_cons_1 in Hp as [? ?]. by apply min_max_ok.
  - by eapply round_ok.
  - injection Ev as <-. destruct (arg args 0); try done; cbn; repeat case_match; done.
  - unfold instr in Ev. destruct (is_null _ || _); [by injection Ev as <-|]. injection Ev as <-. cbn. destruct (match arg args 0 with Blob _ => _ | _ => _ end); [|done].
    unfold i64_sat, is_i64, I64_MIN, I64_MAX. lia.
  - unfold trim_fn in Ev. destruct (is_null _); [by injection Ev as <-|]. injection Ev as <-. cbn [value_ok]. by apply strip_end_ok, strip_start_ok.
  - unfold ltrim_fn in Ev. destruct (is_null _); [by injection Ev as <-|]. injection Ev as <-. cbn [value_ok]. by apply strip_start_ok.
  - unfold rtrim_fn in Ev. destruct (is_null _); [by injection Ev as <-|]. injection Ev as <-. cbn [value_ok]. by apply strip_end_ok.
  - unfold replace_fn in Ev. destruct (any_null args); [by injection Ev as <-|]. destruct (as_text (arg args 1)); injection Ev as <-; [done|]. cbn [value_ok]. apply replace_from_ok; [done|by apply text_arg_ok].
  - injection Ev as <-. apply bytes_ok_zeros.
  - injection Ev as <-. destruct (match arg args 0 with Null => _ | _ => _ end); by apply arg_ok.
  - unfold like_fn in Ev. destruct (any_null args); [by injection Ev as <-|]. injection Ev as <-. cbn [value_ok]. by destruct (like_match (as_text (arg args 1)) _ _).
  - unfold glob_fn in Ev. destruct (any_null args); [by injection Ev as <-|]. injection Ev as <-. cbn [value_ok]. by destruct (glob_match (as_text (arg args 1)) _).
Qed.

(** ** Theorems *)

(** C17. [LIKE] accepts exactly the texts of its pattern's language: [%] any run,
    [_] any character, an escaped character itself, and every other character
    itself up to ASCII case. *)
Theorem like_decides text pattern escape : like_match text pattern escape = true <-> matches (like_tokens escape pattern) text.
Proof. apply like_rec_ok. lia. Qed.

(** C33. [GLOB] accepts exactly the texts of its pattern's language: [*] any run,
    [?] any character, a class one of its members or, negated, any other, and
    nothing when a class is not closed. *)
Theorem glob_decides text pattern : glob_match text pattern = true <-> matches (tokens_of_glob pattern) text.
Proof. apply glob_rec_ok. lia. Qed.

(** [substr(v, y, z)] is the characters (the bytes of a blob) at the positions
    from [y] on, counted from the end when negative, [z] of them, or the
    [-z] before [y] when [z] is negative; positions that do not exist are
    skipped. *)
Theorem substr_takes_window v y z : is_null v = false -> is_i64 y -> (forall k, z = Some k -> is_i64 k) -> (z = None -> - 2 ^ 61 <= y) ->
  len (match v with Blob b => b | _ => as_text v end) < 2 ^ 61 ->
  call (lit "substr") (substr_args v y z) = Ok (match v with
    | Blob b => let '(lo, hi) := substr_range y z (len b) in Blob (select lo hi 1 b)
    | _ => let '(lo, hi) := substr_range y z (len (as_text v)) in VText (select lo hi 1 (as_text v))
    end).
Proof. intros. rewrite <- substr_selects by done. by destruct z. Qed.

Lemma substr_takes_window_witness : call (lit "substr") (substr_args (VText (lit "hello")) (-4) (Some (-2))) = Ok (VText (select 0 2 1 (lit "hello"))).
Proof.
  apply (substr_takes_window (VText (lit "hello")) (-4) (Some (-2))); [done|split; by vm_compute| |done|by vm_compute].
  intros k [= <-]. split; by vm_compute.
Defined.

(** [unhex(hex(b))] is the blob [b]. *)
Theorem hex_round_trip b : bytes_ok b -> exists t, call (lit "hex") [Blob b] = Ok (VText t) /\ call (lit "unhex") [VText t] = Ok (Blob b).
Proof.
  intros Hb. exists (hex_bytes b). split; [done|]. change (call (lit "unhex") [VText (hex_bytes b)]) with (unhex [VText (hex_bytes b)]).
  unfold unhex. cbn [arg nth is_null as_text]. destruct (hex_bytes_ascii b Hb) as [Ha Hl]. rewrite (ascii_bytes _ Ha), Hl, (Z.mul_comm 2), Z.mod_mul by lia.
  cbn [negb Z.eqb]. by rewrite unhex_hex.
Qed.

Lemma hex_round_trip_witness : exists t, call (lit "hex") [Blob [0; 255; 16]] = Ok (VText t) /\ call (lit "unhex") [VText t] = Ok (Blob [0; 255; 16]).
Proof. apply hex_round_trip. by apply bytes_okb_ok. Defined.

(** A scalar function applied to well-typed arguments gives a well-typed
    value or an error. *)
Theorem functions_well_typed name args v : args_ok args -> call name args = Ok v -> value_ok v.
Proof. apply call_ok. Qed.

Lemma functions_well_typed_witness : value_ok (Blob [171]).
Proof.
  apply (functions_well_typed (lit "unhex") [VText (lit "aB")]); [|by vm_compute]. apply Forall_cons; [|apply Forall_nil].
  split; [|split; by vm_compute]. repeat (apply Forall_cons; [left; split; by vm_compute|]). apply Forall_nil.
Defined.
