(* ===== verification/Tokenizer.v ===== *)
(** * The SQL tokenizer ([src/parser/tokenizer.rs])

    The scanner as a state machine over the source: position, line and column,
    and the functions that consume characters and produce tokens.  Malformed
    input gives an error token and scanning goes on. *)

From stdpp Require Import prelude list numbers.
From Stdlib Require Import ZArith Lia.
From S2P Require Import Prelude Varint Text Record Float ValueOrder Format Coerce.

Local Open Scope Z_scope.

(** ** Tokens *)

Record Span := MkSpan { sp_line : Z; sp_column : Z; sp_offset : Z; sp_len : Z }.

Inductive Param : Type := PAnonymous | PNumbered (n : Z) | PColon (name : str) | PAt (name : str) | PDollar (name : str).

Inductive Keyword : Type :=
  | KW_ABORT | KW_ACTION | KW_ADD | KW_AFTER | KW_ALL | KW_ALTER | KW_ALWAYS | KW_ANALYZE | KW_AND | KW_AS | KW_ASC | KW_ATTACH | KW_AUTOINCREMENT
  | KW_BEFORE | KW_BEGIN | KW_BETWEEN | KW_BY | KW_CASCADE | KW_CASE | KW_CAST | KW_CHECK | KW_COLLATE | KW_COLUMN | KW_COMMIT | KW_CONFLICT
  | KW_CONSTRAINT | KW_CREATE | KW_CROSS | KW_CURRENT | KW_CURRENT_DATE | KW_CURRENT_TIME | KW_CURRENT_TIMESTAMP | KW_DATABASE | KW_DEFAULT
  | KW_DEFERRABLE | KW_DEFERRED | KW_DELETE | KW_DESC | KW_DETACH | KW_DISTINCT | KW_DO | KW_DROP | KW_EACH | KW_ELSE | KW_END | KW_ESCAPE | KW_EXCEPT
  | KW_EXCLUDE | KW_EXCLUSIVE | KW_EXISTS | KW_EXPLAIN | KW_FAIL | KW_FILTER | KW_FIRST | KW_FOLLOWING | KW_FOR | KW_FOREIGN | KW_FROM | KW_FULL
  | KW_GENERATED | KW_GLOB | KW_GROUP | KW_GROUPS | KW_HAVING | KW_IF | KW_IGNORE | KW_IMMEDIATE | KW_IN | KW_INDEX | KW_INDEXED | KW_INITIALLY
  | KW_INNER | KW_INSERT | KW_INSTEAD | KW_INTERSECT | KW_INTO | KW_IS | KW_ISNULL | KW_JOIN | KW_KEY | KW_LAST | KW_LEFT | KW_LIKE | KW_LIMIT
  | KW_MATCH | KW_MATERIALIZED | KW_NATURAL | KW_NO | KW_NOT | KW_NOTHING | KW_NOTNULL | KW_NULLS | KW_OF | KW_OFFSET | KW_ON | KW_OR | KW_ORDER
  | KW_OTHERS | KW_OUTER | KW_OVER | KW_PARTITION | KW_PLAN | KW_PRAGMA | KW_PRECEDING | KW_PRIMARY | KW_QUERY | KW_RAISE | KW_RANGE | KW_RECURSIVE
  | KW_REFERENCES | KW_REGEXP | KW_REINDEX | KW_RELEASE | KW_RENAME | KW_REPLACE | KW_RESTRICT | KW_RETURNING | KW_RIGHT | KW_ROLLBACK | KW_ROW
  | KW_ROWS | KW_SAVEPOINT | KW_SELECT | KW_SET | KW_TABLE | KW_TEMP | KW_TEMPORARY | KW_THEN | KW_TIES | KW_TO | KW_TRANSACTION | KW_TRIGGER
  | KW_UNBOUNDED | KW_UNION | KW_UNIQUE | KW_UPDATE | KW_USING | KW_VACUUM | KW_VALUES | KW_VIEW | KW_VIRTUAL | KW_WHEN | KW_WHERE | KW_WINDOW
  | KW_WITH | KW_WITHOUT.

(** The reasons of error tokens, with what their messages quote. *)
Inductive LexError : Type :=
| LeUnterminatedComment
| LeUnterminatedBlob (x : Z)
| LeInvalidBlobDigits (hex : str)
| LeInvalidBlobByte (pair : list Z)
| LeUnterminatedString
| LeUnterminatedIdentifier (open_ : Z)
| LeParamOutOfRange (digits : str)
| LeExpectedParamName (sigil : Z)
| LeUnsupportedSigil (sigil : Z)
| LeHexNoDigits
| LeInvalidHex (hex : str)
| LeInvalidFloat (text : str)
| LeInvalidInteger (text : str)
| LeExpectedEqAfterBang
| LeUnexpectedCharacter (c : Z).

Inductive TokenKind : Type :=
| TkInteger (n : Z) | TkFloat (bits : Z) | TkString (s : str) | TkBlob (b : list Z) | TkNull | TkTrue | TkFalse
| TkIdentifier (s : str) | TkKeyword (k : Keyword) | TkParam (p : Param)
| TkStar | TkComma | TkSemicolon | TkLParen | TkRParen | TkDot | TkPlus | TkMinus | TkSlash | TkPercent
| TkEq | TkNe | TkLt | TkLe | TkGt | TkGe | TkConcat | TkArrow | TkArrowArrow | TkBitAnd | TkBitOr | TkBitNot | TkShl | TkShr
| TkError (e : LexError) | TkEof.

Record Token := MkToken { tok_kind : TokenKind; tok_span : Span }.

(** ** Keywords *)

Definition KEYWORDS : list (str * Keyword) := [
  (lit "ABORT", KW_ABORT); (lit "ACTION", KW_ACTION); (lit "ADD", KW_ADD); (lit "AFTER", KW_AFTER); (lit "ALL", KW_ALL); (lit "ALTER", KW_ALTER);
  (lit "ALWAYS", KW_ALWAYS); (lit "ANALYZE", KW_ANALYZE); (lit "AND", KW_AND); (lit "AS", KW_AS); (lit "ASC", KW_ASC); (lit "ATTACH", KW_ATTACH);
  (lit "AUTOINCREMENT", KW_AUTOINCREMENT); (lit "BEFORE", KW_BEFORE); (lit "BEGIN", KW_BEGIN); (lit "BETWEEN", KW_BETWEEN); (lit "BY", KW_BY);
  (lit "CASCADE", KW_CASCADE); (lit "CASE", KW_CASE); (lit "CAST", KW_CAST); (lit "CHECK", KW_CHECK); (lit "COLLATE", KW_COLLATE);
  (lit "COLUMN", KW_COLUMN); (lit "COMMIT", KW_COMMIT); (lit "CONFLICT", KW_CONFLICT); (lit "CONSTRAINT", KW_CONSTRAINT); (lit "CREATE", KW_CREATE);
  (lit "CROSS", KW_CROSS); (lit "CURRENT", KW_CURRENT); (lit "CURRENT_DATE", KW_CURRENT_DATE); (lit "CURRENT_TIME", KW_CURRENT_TIME);
  (lit "CURRENT_TIMESTAMP", KW_CURRENT_TIMESTAMP); (lit "DATABASE", KW_DATABASE); (lit "DEFAULT", KW_DEFAULT); (lit "DEFERRABLE", KW_DEFERRABLE);
  (lit "DEFERRED", KW_DEFERRED); (lit "DELETE", KW_DELETE); (lit "DESC", KW_DESC); (lit "DETACH", KW_DETACH); (lit "DISTINCT", KW_DISTINCT);
  (lit "DO", KW_DO); (lit "DROP", KW_DROP); (lit "EACH", KW_EACH); (lit "ELSE", KW_ELSE); (lit "END", KW_END); (lit "ESCAPE", KW_ESCAPE);
  (lit "EXCEPT", KW_EXCEPT); (lit "EXCLUDE", KW_EXCLUDE); (lit "EXCLUSIVE", KW_EXCLUSIVE); (lit "EXISTS", KW_EXISTS); (lit "EXPLAIN", KW_EXPLAIN);
  (lit "FAIL", KW_FAIL); (lit "FILTER", KW_FILTER); (lit "FIRST", KW_FIRST); (lit "FOLLOWING", KW_FOLLOWING); (lit "FOR", KW_FOR);
  (lit "FOREIGN", KW_FOREIGN); (lit "FROM", KW_FROM); (lit "FULL", KW_FULL); (lit "GENERATED", KW_GENERATED); (lit "GLOB", KW_GLOB);
  (lit "GROUP", KW_GROUP); (lit "GROUPS", KW_GROUPS); (lit "HAVING", KW_HAVING); (lit "IF", KW_IF); (lit "IGNORE", KW_IGNORE);
  (lit "IMMEDIATE", KW_IMMEDIATE); (lit "IN", KW_IN); (lit "INDEX", KW_INDEX); (lit "INDEXED", KW_INDEXED); (lit "INITIALLY", KW_INITIALLY);
  (lit "INNER", KW_INNER); (lit "INSERT", KW_INSERT); (lit "INSTEAD", KW_INSTEAD); (lit "INTERSECT", KW_INTERSECT); (lit "INTO", KW_INTO);
  (lit "IS", KW_IS); (lit "ISNULL", KW_ISNULL); (lit "JOIN", KW_JOIN); (lit "KEY", KW_KEY); (lit "LAST", KW_LAST); (lit "LEFT", KW_LEFT);
  (lit "LIKE", KW_LIKE); (lit "LIMIT", KW_LIMIT); (lit "MATCH", KW_MATCH); (lit "MATERIALIZED", KW_MATERIALIZED); (lit "NATURAL", KW_NATURAL);
  (lit "NO", KW_NO); (lit "NOT", KW_NOT); (lit "NOTHING", KW_NOTHING); (lit "NOTNULL", KW_NOTNULL); (lit "NULLS", KW_NULLS); (lit "OF", KW_OF);
  (lit "OFFSET", KW_OFFSET); (lit "ON", KW_ON); (lit "OR", KW_OR); (lit "ORDER", KW_ORDER); (lit "OTHERS", KW_OTHERS); (lit "OUTER", KW_OUTER);
  (lit "OVER", KW_OVER); (lit "PARTITION", KW_PARTITION); (lit "PLAN", KW_PLAN); (lit "PRAGMA", KW_PRAGMA); (lit "PRECEDING", KW_PRECEDING);
  (lit "PRIMARY", KW_PRIMARY); (lit "QUERY", KW_QUERY); (lit "RAISE", KW_RAISE); (lit "RANGE", KW_RANGE); (lit "RECURSIVE", KW_RECURSIVE);
  (lit "REFERENCES", KW_REFERENCES); (lit "REGEXP", KW_REGEXP); (lit "REINDEX", KW_REINDEX); (lit "RELEASE", KW_RELEASE); (lit "RENAME", KW_RENAME);
  (lit "REPLACE", KW_REPLACE); (lit "RESTRICT", KW_RESTRICT); (lit "RETURNING", KW_RETURNING); (lit "RIGHT", KW_RIGHT); (lit "ROLLBACK", KW_ROLLBACK);
  (lit "ROW", KW_ROW); (lit "ROWS", KW_ROWS); (lit "SAVEPOINT", KW_SAVEPOINT); (lit "SELECT", KW_SELECT); (lit "SET", KW_SET);
  (lit "TABLE", KW_TABLE); (lit "TEMP", KW_TEMP); (lit "TEMPORARY", KW_TEMPORARY); (lit "THEN", KW_THEN); (lit "TIES", KW_TIES); (lit "TO", KW_TO);
  (lit "TRANSACTION", KW_TRANSACTION); (lit "TRIGGER", KW_TRIGGER); (lit "UNBOUNDED", KW_UNBOUNDED); (lit "UNION", KW_UNION);
  (lit "UNIQUE", KW_UNIQUE); (lit "UPDATE", KW_UPDATE); (lit "USING", KW_USING); (lit "VACUUM", KW_VACUUM); (lit "VALUES", KW_VALUES);
  (lit "VIEW", KW_VIEW); (lit "VIRTUAL", KW_VIRTUAL); (lit "WHEN", KW_WHEN); (lit "WHERE", KW_WHERE); (lit "WINDOW", KW_WINDOW);
  (lit "WITH", KW_WITH); (lit "WITHOUT", KW_WITHOUT)].

Definition cmp_ignore_ascii_case (a b : str) : comparison :=
  list_cmp (map to_ascii_uppercase (as_bytes a)) (map to_ascii_uppercase (as_bytes b)).

Definition eq_ignore_ascii_case (a b : str) : bool :=
  bool_decide (map to_ascii_lowercase (as_bytes a) = map to_ascii_lowercase (as_bytes b)).

(** [slice::binary_search_by]: some index at which the comparison is equal,
    between [lo] and [hi]. *)
Fixpoint binary_search_by {A} (fuel : nat) (l : list A) (f : A -> comparison) (lo hi : nat) : option nat :=
  match fuel with
  | O => None
  | S fuel =>
    if (hi <=? lo)%nat then None
    else
      let mid := (lo + Nat.div2 (hi - lo))%nat in
      match f <$> l !! mid with
      | None => None
      | Some Eq => Some mid
      | Some Lt => binary_search_by fuel l f (S mid) hi
      | Some Gt => binary_search_by fuel l f lo mid
      end
  end.

Definition lookup_word (word : str) : TokenKind :=
  if eq_ignore_ascii_case word (lit "NULL") then TkNull
  else if eq_ignore_ascii_case word (lit "TRUE") then TkTrue
  else if eq_ignore_ascii_case word (lit "FALSE") then TkFalse
  else match binary_search_by (length KEYWORDS) KEYWORDS (fun e => cmp_ignore_ascii_case e.1 word) 0 (length KEYWORDS) with
  | Some idx => match KEYWORDS !! idx with Some (_, kw) => TkKeyword kw | None => TkIdentifier word end
  | None => TkIdentifier word
  end.

(** ** Characters *)

(** [char::is_alphabetic] and [char::is_numeric] beyond ASCII. *)
Class Unicode := { unicode_alphabetic : Z -> bool; unicode_numeric : Z -> bool }.

Definition is_ascii_alphabetic (c : Z) : bool := ((65 <=? c) && (c <=? 90)) || ((97 <=? c) && (c <=? 122)).
Definition is_ascii_hexdigit (c : Z) : bool := is_ascii_digit c || ((65 <=? c) && (c <=? 70)) || ((97 <=? c) && (c <=? 102)).

Definition utf8_len (c : Z) : Z := len (utf8_encode_char c).

(** ** The scanner *)

(** [tk_rest] is [rest(src, self.pos)], the source from the byte [tk_pos] on. *)
Record Tokenizer := MkTokenizer { tk_pos : Z; tk_line : Z; tk_column : Z; tk_rest : str }.

Definition new_tokenizer (src : str) : Tokenizer := MkTokenizer 0 1 1 src.

Section Scanner.
Context `{Unicode}.

Definition is_alphabetic (c : Z) : bool := if c <? 128 then is_ascii_alphabetic c else unicode_alphabetic c.
Definition is_alphanumeric (c : Z) : bool :=
  if c <? 128 then is_ascii_alphabetic c || is_ascii_digit c else unicode_alphabetic c || unicode_numeric c.
Definition is_ident_start (c : Z) : bool := (c =? 95) || is_alphabetic c.
Definition is_ident_continue (c : Z) : bool := (c =? 95) || is_alphanumeric c.

Definition peek_char (t : Tokenizer) : option Z := head (tk_rest t).
Definition peek_at (t : Tokenizer) (ahead : nat) : option Z := tk_rest t !! ahead.

(** Comparison of a peeked character. *)
Definition is_char_at (o : option Z) (c : Z) : bool := match o with Some x => x =? c | None => false end.
Definition sat_u32 (z : Z) : Z := Z.min z U32_MAX.

Definition bump (t : Tokenizer) : Tokenizer :=
  match tk_rest t with
  | [] => t
  | c :: r =>
    let pos := sat_add (tk_pos t) (utf8_len c) in
    if c =? 10 then MkTokenizer pos (sat_u32 (tk_line t + 1)) 1 r
    else MkTokenizer pos (tk_line t) (sat_u32 (tk_column t + 1)) r
  end.

(** [while let Some(c) = self.peek_char(src) { if pred(c) { self.bump(src) } else { break } }]. *)
Fixpoint bump_while_from (pred : Z -> bool) (s : str) (t : Tokenizer) : Tokenizer :=
  match s with [] => t | c :: r => if pred c then bump_while_from pred r (bump t) else t end.
Definition bump_while (pred : Z -> bool) (t : Tokenizer) : Tokenizer := bump_while_from pred (tk_rest t) t.

(** [src.get(start..self.pos)]: what was consumed since [start]. *)
Definition text_since (start t : Tokenizer) : str := take (length (tk_rest start) - length (tk_rest t)) (tk_rest start).

Definition span_from (start t : Tokenizer) : Span :=
  MkSpan (tk_line start) (tk_column start) (wrap 32 (tk_pos start)) (sat_sub (wrap 32 (tk_pos t)) (wrap 32 (tk_pos start))).

(** The body of a block comment; [false] when it runs to the end. *)
Fixpoint block_comment_from (s : str) (t : Tokenizer) : bool * Tokenizer :=
  match s with
  | [] => (false, t)
  | c :: r =>
    if c =? 42 then
      let t := bump t in
      if is_char_at (peek_char t) 47 then (true, bump t) else block_comment_from r t
    else block_comment_from r (bump t)
  end.

(** A round consumes at least one character. *)
Fixpoint skip_trivia_loop (fuel : nat) (t : Tokenizer) : option LexError * Tokenizer :=
  match fuel with
  | O => (None, t)
  | S fuel =>
    match peek_char t with
    | None => (None, t)
    | Some c =>
      if is_whitespace c then skip_trivia_loop fuel (bump t)
      else if c =? 45 then
        if is_char_at (peek_at t 1) 45 then skip_trivia_loop fuel (bump_while (fun c => negb (c =? 10)) (bump (bump t)))
        else (None, t)
      else if c =? 47 then
        if is_char_at (peek_at t 1) 42 then
          let t := bump (bump t) in
          let '(closed, t) := block_comment_from (tk_rest t) t in
          if closed : bool then skip_trivia_loop fuel t else (Some LeUnterminatedComment, t)
        else (None, t)
      else (None, t)
    end
  end.

Definition skip_trivia (t : Tokenizer) : option LexError * Tokenizer := skip_trivia_loop (S (length (tk_rest t))) t.

(** ** Literals and names *)

Definition scan_identifier_or_keyword (t : Tokenizer) : TokenKind * Tokenizer :=
  let t' := bump_while is_ident_continue t in (lookup_word (text_since t t'), t').

Definition hex_val (c : Z) : Z := if is_ascii_digit c then c - 48 else if c <? 97 then c - 55 else c - 87.
(** [from_str_radix(s, 16)] of hexadecimal digits, before the range check. *)
Fixpoint hex_number (acc : Z) (s : str) : Z := match s with [] => acc | c :: s => hex_number (acc * 16 + hex_val c) s end.

Fixpoint blob_bytes (bytes : list Z) : list Z + list Z :=
  match bytes with
  | hi :: lo :: r =>
    if is_ascii_hexdigit hi && is_ascii_hexdigit lo then
      match blob_bytes r with inl bs => inl (hex_number 0 [hi; lo] :: bs) | inr e => inr e end
    else inr [hi; lo]
  | [x] => inr [x]
  | [] => inl []
  end.

Definition scan_maybe_blob (t : Tokenizer) (x : Z) : TokenKind * Tokenizer :=
  if is_char_at (peek_at t 1) 39 then
    let t0 := bump (bump t) in
    let t1 := bump_while (fun c => negb (c =? 39)) t0 in
    match peek_char t1 with
    | None => (TkError (LeUnterminatedBlob x), t1)
    | Some _ =>
      let hex := text_since t0 t1 in
      if negb (len (as_bytes hex) mod 2 =? 0) || negb (forallb is_ascii_hexdigit hex) then (TkError (LeInvalidBlobDigits hex), bump t1)
      else match blob_bytes (as_bytes hex) with
      | inl bytes => (TkBlob bytes, bump t1)
      | inr two => (TkError (LeInvalidBlobByte two), bump t1)
      end
    end
  else scan_identifier_or_keyword t.

(** The text between two delimiters; a doubled closing delimiter stands for
    one when [escapes].  [acc] is what was read before the current segment,
    which starts at [seg]. *)
Fixpoint quoted_from (fuel : nat) (close : Z) (escapes : bool) (acc : str) (seg t : Tokenizer) : option str * Tokenizer :=
  match fuel with
  | O => (None, t)
  | S fuel =>
    match peek_char t with
    | None => (None, t)
    | Some c =>
      if c =? close then
        let t' := bump t in
        if escapes && is_char_at (peek_char t') close then
          let t2 := bump t' in quoted_from fuel close escapes (acc ++ text_since seg t ++ [close]) t2 t2
        else (Some (acc ++ text_since seg t), t')
      else quoted_from fuel close escapes acc seg (bump t)
    end
  end.

Definition scan_quoted (t : Tokenizer) (close : Z) (escapes : bool) : option str * Tokenizer :=
  let t := bump t in quoted_from (S (length (tk_rest t))) close escapes [] t t.

Definition scan_string (t : Tokenizer) : TokenKind * Tokenizer :=
  let '(r, t') := scan_quoted t 39 true in
  (match r with Some s => TkString s | None => TkError LeUnterminatedString end, t').

Definition scan_quoted_identifier (t : Tokenizer) (open_ close : Z) : TokenKind * Tokenizer :=
  let '(r, t') := scan_quoted t close (open_ =? close) in
  (match r with Some s => TkIdentifier s | None => TkError (LeUnterminatedIdentifier open_) end, t').

Definition scan_param_question (t : Tokenizer) : TokenKind * Tokenizer :=
  let t := bump t in
  let t' := bump_while is_ascii_digit t in
  let digits := text_since t t' in
  (match digits with
   | [] => TkParam PAnonymous
   | _ => let n := digits_value 0 digits in if n <=? U32_MAX then TkParam (PNumbered n) else TkError (LeParamOutOfRange digits)
   end, t').

Definition scan_param_named (t : Tokenizer) (sigil : Z) : TokenKind * Tokenizer :=
  let t := bump t in
  let t' := bump_while is_ident_continue t in
  (match text_since t t' with
   | [] => TkError (LeExpectedParamName sigil)
   | name =>
     if sigil =? 58 then TkParam (PColon name) else if sigil =? 64 then TkParam (PAt name)
     else if sigil =? 36 then TkParam (PDollar name) else TkError (LeUnsupportedSigil sigil)
   end, t').

Definition is_digit_at (o : option Z) : bool := match o with Some c => is_ascii_digit c | None => false end.

Definition scan_hex (t : Tokenizer) : TokenKind * Tokenizer :=
  let t0 := bump (bump t) in
  let t' := bump_while is_ascii_hexdigit t0 in
  (match text_since t0 t' with
   | [] => TkError LeHexNoDigits
   | hex =>
     let n := hex_number 0 hex in
     if n <=? I64_MAX then TkInteger n
     else if n <=? U64_MAX then TkInteger (to_signed 64 n) else TkError (LeInvalidHex hex)
   end, t').

(** The exponent of a number, when it has a digit. *)
Definition scan_number_exponent (t : Tokenizer) : bool * Tokenizer :=
  if is_char_at (peek_char t) 101 || is_char_at (peek_char t) 69 then
    let sign_char := is_char_at (peek_at t 1) 43 || is_char_at (peek_at t 1) 45 in
    let digits_ahead := if sign_char then 2%nat else 1%nat in
    if is_digit_at (peek_at t digits_ahead) then
      let t := bump t in
      let t := if sign_char then bump t else t in
      (true, bump_while is_ascii_digit t)
    else (false, t)
  else (false, t).

Definition scan_number (t : Tokenizer) : TokenKind * Tokenizer :=
  if is_char_at (peek_char t) 48 && (is_char_at (peek_at t 1) 120 || is_char_at (peek_at t 1) 88) then scan_hex t
  else
    let t1 := bump_while is_ascii_digit t in
    let '(point, t2) := if is_char_at (peek_char t1) 46 then (true, bump_while is_ascii_digit (bump t1)) else (false, t1) in
    let '(exponent, t3) := scan_number_exponent t2 in
    let text := text_since t t3 in
    (if point || exponent : bool then
       match parse_f64 text with Some f => TkFloat f | None => TkError (LeInvalidFloat text) end
     else match parse_i64 text with
       | Some n => TkInteger n
       | None => match parse_f64 text with Some f => TkFloat f | None => TkError (LeInvalidInteger text) end
       end, t3).

(** ** Operators *)

Definition scan_operator (t : Tokenizer) : TokenKind * Tokenizer :=
  match peek_char t with
  | None => (TkEof, t)
  | Some c =>
    let t := bump t in
    let next := is_char_at (peek_char t) in
    if c =? 42 then (TkStar, t) else if c =? 44 then (TkComma, t) else if c =? 59 then (TkSemicolon, t)
    else if c =? 40 then (TkLParen, t) else if c =? 41 then (TkRParen, t) else if c =? 43 then (TkPlus, t)
    else if c =? 47 then (TkSlash, t) else if c =? 37 then (TkPercent, t) else if c =? 126 then (TkBitNot, t)
    else if c =? 45 then
      if next 62 then let t := bump t in if is_char_at (peek_char t) 62 then (TkArrowArrow, bump t) else (TkArrow, t) else (TkMinus, t)
    else if c =? 61 then (TkEq, if next 61 then bump t else t)
    else if c =? 33 then if next 61 then (TkNe, bump t) else (TkError LeExpectedEqAfterBang, t)
    else if c =? 60 then
      if next 61 then (TkLe, bump t) else if next 62 then (TkNe, bump t) else if next 60 then (TkShl, bump t) else (TkLt, t)
    else if c =? 62 then if next 61 then (TkGe, bump t) else if next 62 then (TkShr, bump t) else (TkGt, t)
    else if c =? 124 then if next 124 then (TkConcat, bump t) else (TkBitOr, t)
    else if c =? 38 then (TkBitAnd, t)
    else (TkError (LeUnexpectedCharacter c), t)
  end.

(** ** Tokens *)

(** The token that starts at the current character [c]. *)
Definition scan_token (t : Tokenizer) (c : Z) : TokenKind * Tokenizer :=
  if is_ascii_digit c then scan_number t
  else if c =? 46 then if is_digit_at (peek_at t 1) then scan_number t else (TkDot, bump t)
  else if c =? 39 then scan_string t
  else if c =? 34 then scan_quoted_identifier t 34 34
  else if c =? 91 then scan_quoted_identifier t 91 93
  else if c =? 96 then scan_quoted_identifier t 96 96
  else if c =? 63 then scan_param_question t
  else if (c =? 58) || (c =? 64) || (c =? 36) then scan_param_named t c
  else if (c =? 120) || (c =? 88) then scan_maybe_blob t c
  else if is_ident_start c then scan_identifier_or_keyword t
  else scan_operator t.

Definition next_token (t : Tokenizer) : Token * Tokenizer :=
  let '(trivia, t') := skip_trivia t in
  match trivia with
  | Some reason => (MkToken (TkError reason) (span_from t t'), t')
  | None =>
    match peek_char t' with
    | None => (MkToken TkEof (span_from t' t'), t')
    | Some c => let '(kind, t2) := scan_token t' c in (MkToken kind (span_from t' t2), t2)
    end
  end.

Definition is_eof (k : TokenKind) : bool := match k with TkEof => true | _ => false end.

(** Every token but the last consumes a character. *)
Fixpoint tokenize_loop (fuel : nat) (t : Tokenizer) : list Token :=
  match fuel with
  | O => []
  | S fuel => let '(tok, t') := next_token t in tok :: (if is_eof (tok_kind tok) then [] else tokenize_loop fuel t')
  end.

Definition tokenize (src : str) : list Token := tokenize_loop (S (length src)) (new_tokenizer src).

(** ** Scripts *)

Definition ends_with_semicolon (sql : str) : bool :=
  match rev (tokenize sql) with _ :: tok :: _ => match tok_kind tok with TkSemicolon => true | _ => false end | _ => false end.

(** [sql.get(start..end)] by byte offsets. *)
Fixpoint skip_bytes (s : str) (n : Z) : str :=
  match s with c :: r => if n <=? 0 then s else skip_bytes r (n - utf8_len c) | [] => [] end.
Fixpoint take_bytes_of (s : str) (n : Z) : str :=
  match s with c :: r => if n <=? 0 then [] else c :: take_bytes_of r (n - utf8_len c) | [] => [] end.

Definition push_trimmed (statements : list str) (slice : str) : list str :=
  match trim slice with [] => statements | trimmed => statements ++ [trimmed] end.

Fixpoint split_loop (sql : str) (tokens : list Token) (start : Z) (statements : list str) : list str :=
  match tokens with
  | [] => statements
  | tok :: tokens =>
    match tok_kind tok with
    | TkSemicolon =>
      let end_ := sp_offset (tok_span tok) in
      split_loop sql tokens (sat_add end_ (sp_len (tok_span tok))) (push_trimmed statements (take_bytes_of (skip_bytes sql start) (end_ - start)))
    | TkEof => split_loop sql tokens start (push_trimmed statements (skip_bytes sql start))
    | _ => split_loop sql tokens start statements
    end
  end.

Definition split_statements (sql : str) : list str := split_loop sql (tokenize sql) 0 [].
End Scanner.

Section Samples.
#[local] Instance ascii_only : Unicode := {| unicode_alphabetic := fun _ => false; unicode_numeric := fun _ => false |}.

Example tokenize_samples :
  map tok_kind (tokenize (lit "SELECT x'4142', 'it''s' -- c
 FROM t WHERE a<>0x1F;"))
  = [TkKeyword KW_SELECT; TkBlob [65; 66]; TkComma; TkString (lit "it's"); TkKeyword KW_FROM; TkIdentifier (lit "t"); TkKeyword KW_WHERE;
     TkIdentifier (lit "a"); TkNe; TkInteger 31; TkSemicolon; TkEof] /\
  map tok_kind (tokenize (lit "1.5e3 .5 9223372036854775808 ?12 :n /* open"))
  = [TkFloat 4654311885213007872; TkFloat 4602678819172646912; TkFloat F64_TWO63; TkParam (PNumbered 12); TkParam (PColon (lit "n"));
     TkError LeUnterminatedComment; TkEof] /\
  split_statements (lit "BEGIN; INSERT INTO t VALUES('a;b'); ;COMMIT") = [lit "BEGIN"; lit "INSERT INTO t VALUES('a;b')"; lit "COMMIT"].
Proof. by vm_compute. Qed.
End Samples.
