(* ===== verification/TokenizerProperties.v ===== *)
(** * What holds of the tokenizer

    Scanning ends with one end token, the tokens and the trivia between them
    make up the source and the spans say where, and quoted literals read back
    as what was quoted. *)

From stdpp Require Import prelude list numbers.
From Stdlib Require Import ZArith Lia.
From S2P Require Import Prelude Varint Text Record Float ValueOrder Format Coerce ValueProperties Functions FunctionProperties Tokenizer.

Local Open Scope Z_scope.

Section Properties.
Context `{Unicode}.

(** ** Consuming text *)

(** The state after the text [w] has been consumed. *)
Fixpoint after (t : Tokenizer) (w : str) : Tokenizer := match w with [] => t | _ :: w => after (bump t) w end.

(** [t'] is [t] with the text [w] consumed. *)
Definition eats (t : Tokenizer) (w : str) (t' : Tokenizer) : Prop := tk_rest t = w ++ tk_rest t' /\ t' = after t w.

Lemma after_app t w1 w2 : after t (w1 ++ w2) = after (after t w1) w2.
Proof. revert t. induction w1 as [|c w1 IH]; intros t; cbn; [done|apply IH]. Qed.

Lemma eats_nil t : eats t [] t.
Proof. done. Qed.

Lemma eats_app t w1 t1 w2 t2 : eats t w1 t1 -> eats t1 w2 t2 -> eats t (w1 ++ w2) t2.
Proof. intros [E1 ->] [E2 ->]. split; [by rewrite E1, E2, <- app_assoc|by rewrite after_app]. Qed.

Lemma bump_rest t c r : tk_rest t = c :: r -> tk_rest (bump t) = r.
Proof. intros E. unfold bump. rewrite E. by destruct (c =? 10). Qed.

Lemma bump_nil t : tk_rest t = [] -> bump t = t.
Proof. intros E. unfold bump. by rewrite E. Qed.

Lemma eats_bump t c r : tk_rest t = c :: r -> eats t [c] (bump t).
Proof. intros E. split; [|done]. by rewrite (bump_rest t c r E), E. Qed.

Lemma eats_cons t c r w t' : tk_rest t = c :: r -> eats (bump t) w t' -> eats t (c :: w) t'.
Proof. intros E He. apply (eats_app t [c] (bump t)); [by eapply eats_bump|done]. Qed.

Lemma text_since_eats t w t' : eats t w t' -> text_since t t' = w.
Proof.
  intros [E _]. unfold text_since. rewrite E, length_app. replace (length w + length (tk_rest t') - length (tk_rest t'))%nat with (length w) by lia.
  apply take_app_length.
Qed.

(** The longest run of a predicate. *)
Lemma bump_while_eats pred t : exists w, eats t w (bump_while pred t) /\ forallb pred w = true /\ head_is pred (tk_rest (bump_while pred t)) = false.
Proof.
  unfold bump_while. remember (tk_rest t) as s eqn:Es. revert t Es. induction s as [|c s IH]; intros t Es; cbn [bump_while_from].
  - exists []. rewrite <- Es. done.
  - destruct (pred c) eqn:Ec.
    + destruct (IH (bump t)) as (w & He & Hw & Hh); [symmetry; by eapply bump_rest|]. exists (c :: w). split; [by eapply eats_cons|]. cbn. by rewrite Ec.
    + exists []. rewrite <- Es. cbn. done.
Qed.

(** The same for a text whose run is known. *)
Lemma bump_while_run pred t w r : tk_rest t = w ++ r -> forallb pred w = true -> head_is pred r = false -> eats t w (bump_while pred t) /\ tk_rest (bump_while pred t) = r.
Proof.
  intros E Hw Hr. destruct (bump_while_eats pred t) as (w' & [E' Ha] & Hw' & Hr'). set (t' := bump_while pred t) in *.
  assert (w' = w /\ tk_rest t' = r) as [-> ->]; [|done]. rewrite E in E'. clear - E' Hw Hr Hw' Hr'. revert w' E' Hw'.
  induction w as [|c w IH]; intros [|c' w'] E' Hw'; cbn in *.
  - done.
  - subst r. cbn in Hr. apply andb_true_iff in Hw' as [? _]. congruence.
  - rewrite <- E' in Hr'. cbn in Hr'. apply andb_true_iff in Hw as [? _]. congruence.
  - injection E' as <- E'. apply andb_true_iff in Hw as [_ Hw], Hw' as [_ Hw']. destruct (IH Hw w' E' Hw') as [-> ->]. done.
Qed.

(** ** Trivia *)

Definition closed_comment (body : str) : Prop := contains (body ++ [42]) [42; 47] = false.

(** Where a space or a comment starts. *)
Definition starts_trivia (s : str) : bool :=
  match s with
  | c :: r => is_whitespace c || ((c =? 45) && head_is (Z.eqb 45) r) || ((c =? 47) && head_is (Z.eqb 42) r)
  | [] => false
  end.

Inductive trivia : str -> Prop :=
| trivia_nil : trivia []
| trivia_space c w : is_whitespace c = true -> trivia w -> trivia (c :: w)
| trivia_line body w : forallb (fun c => negb (c =? 10)) body = true -> trivia w -> trivia (45 :: 45 :: body ++ w)
| trivia_block body w : closed_comment body -> trivia w -> trivia (47 :: 42 :: body ++ 42 :: 47 :: w).

Lemma contains_star c body : contains (c :: body) [42; 47] = ((c =? 42) && head_is (Z.eqb 47) body) || contains body [42; 47].
Proof. cbn [contains]. f_equal. cbn [starts_with]. rewrite (Z.eqb_sym 42). destruct body as [|d body]; cbn [head_is]; [done|]. change (starts_with (d :: body) [47]) with ((47 =? d) && starts_with body []).
  replace (starts_with body []) with true by (by destruct body). by rewrite andb_true_r. Qed.

Lemma block_comment_eats s : forall t, tk_rest t = s ->
  let '(closed, t') := block_comment_from s t in
  if closed : bool then exists body, closed_comment body /\ eats t (body ++ [42; 47]) t' else eats t s t' /\ tk_rest t' = [] /\ contains s [42; 47] = false.
Proof.
  induction s as [|c s IH]; intros t E; cbn [block_comment_from].
  { split; [|done]. split; [by rewrite E|done]. }
  pose proof (bump_rest t c s E) as Eb. specialize (IH (bump t) Eb).
  assert (forall body, closed_comment body -> (c =? 42) && head_is (Z.eqb 47) (body ++ [42]) = false -> closed_comment (c :: body)) as Hcons.
  { intros body Hb Hc. unfold closed_comment in *. cbn [app]. rewrite contains_star. by rewrite Hc, Hb. }
  assert (let '(closed, t') := block_comment_from s (bump t) in (c =? 42) && head_is (Z.eqb 47) s = false ->
    if closed : bool then exists body, closed_comment body /\ eats t (body ++ [42; 47]) t' else eats t (c :: s) t' /\ tk_rest t' = [] /\ contains (c :: s) [42; 47] = false) as Hstep.
  { destruct (block_comment_from s (bump t)) as [closed t']. intros Hc. destruct closed.
    - destruct IH as (body & Hb & He). exists (c :: body). split; [|by eapply eats_cons]. apply Hcons; [done|].
      destruct He as [He _]. rewrite Eb in He. rewrite He in Hc. destruct body; [done|exact Hc].
    - destruct IH as (He & Hr & Hn). split; [by eapply eats_cons|]. rewrite contains_star. by rewrite Hc, Hn. }
  destruct (c =? 42) eqn:Ec; [|by destruct (block_comment_from s (bump t)); apply Hstep].
  unfold peek_char. rewrite Eb. destruct s as [|d s]; cbn [head is_char_at].
  - by destruct (block_comment_from [] (bump t)); apply Hstep.
  - destruct (d =? 47) eqn:Ed.
    + apply Z.eqb_eq in Ec as ->, Ed as ->. exists []. split; [done|]. eapply eats_cons; [done|]. by eapply eats_bump.
    + destruct (block_comment_from (d :: s) (bump t)); apply Hstep. cbn [head_is andb]. by rewrite Z.eqb_sym.
Qed.

Lemma peek_cons t c : peek_char t = Some c -> exists r, tk_rest t = c :: r.
Proof. unfold peek_char. destruct (tk_rest t) as [|x r]; [done|]. intros [= ->]. by exists r. Qed.

Lemma peek_at_one t c r d : tk_rest t = c :: r -> is_char_at (peek_at t 1) d = true -> exists r', r = d :: r'.
Proof. intros E. unfold peek_at. rewrite E. cbn. destruct r as [|x r]; [done|]. cbn. intros ->%Z.eqb_eq. by exists r. Qed.

Lemma skip_trivia_eats fuel : forall t, match skip_trivia_loop fuel t with
  | (None, t') => (exists w, trivia w /\ eats t w t') /\ ((length (tk_rest t) < fuel)%nat -> starts_trivia (tk_rest t') = false)
  | (Some e, t') => e = LeUnterminatedComment /\ tk_rest t' = [] /\ exists w body, trivia w /\ contains body [42; 47] = false /\ eats t (w ++ 47 :: 42 :: body) t'
  end.
Proof.
  induction fuel as [|fuel IH]; intros t; cbn [skip_trivia_loop]; [split; [exists []; split; [constructor|apply eats_nil]|lia]|].
  destruct (peek_char t) as [c|] eqn:Ep; [apply peek_cons in Ep as [r Er]|split; [exists []; split; [constructor|apply eats_nil]|]; unfold peek_char in Ep; by destruct (tk_rest t)].
  assert (forall w t', eats t w t' -> (forall v, trivia v -> trivia (w ++ v)) -> w <> [] ->
    match skip_trivia_loop fuel t' with
    | (None, t2) => (exists w, trivia w /\ eats t w t2) /\ ((length (tk_rest t) < S fuel)%nat -> starts_trivia (tk_rest t2) = false)
    | (Some e, t2) => e = LeUnterminatedComment /\ tk_rest t2 = [] /\ exists w body, trivia w /\ contains body [42; 47] = false /\ eats t (w ++ 47 :: 42 :: body) t2
    end) as Hstep.
  { intros w t' He Hv Hw. specialize (IH t'). destruct (skip_trivia_loop fuel t') as [[e|] t2].
    - destruct IH as (-> & Hr & v & body & Hv' & Hb & He'). split; [done|]. split; [done|]. exists (w ++ v), body. rewrite <- app_assoc. split; [by apply Hv|]. split; [done|by eapply eats_app].
    - destruct IH as [(v & Hv' & He') Hs]. split; [exists (w ++ v); split; [by apply Hv|by eapply eats_app]|]. intros Hf. apply Hs.
      destruct He as [E _]. rewrite E, length_app in Hf. destruct w; [done|]. cbn in Hf. lia. }
  assert (starts_trivia (tk_rest t) = false -> (exists w, trivia w /\ eats t w t) /\ ((length (tk_rest t) < S fuel)%nat -> starts_trivia (tk_rest t) = false)) as Hstop
    by (intros Hs; split; [exists []; split; [constructor|apply eats_nil]|done]).
  assert (forall d, is_char_at (peek_at t 1) d = head_is (Z.eqb d) r) as Hnext
    by (intros d; unfold peek_at; rewrite Er; destruct r as [|x r']; [done|]; cbn; apply Z.eqb_sym).
  destruct (is_whitespace c) eqn:Ew.
  { apply (Hstep [c]); [by eapply eats_bump|intros v Hv; by constructor|done]. }
  destruct (Z.eqb_spec c 45) as [->|]; [destruct (is_char_at (peek_at t 1) 45) eqn:E1|
    destruct (Z.eqb_spec c 47) as [->|]; [destruct (is_char_at (peek_at t 1) 42) eqn:E1|]];
    try (apply Hstop; rewrite Er; cbn [starts_trivia]; rewrite Ew, <- ?Hnext, ?E1; by repeat (rewrite (proj2 (Z.eqb_neq _ _)) by done)).
  - destruct (peek_at_one _ _ _ _ Er E1) as [r' ->]. pose proof (bump_rest _ _ _ Er) as Eb.
    destruct (bump_while_eats (fun c => negb (c =? 10)) (bump (bump t))) as (w & He & Hw & _).
    apply (Hstep (45 :: 45 :: w)); [|intros v Hv; by apply trivia_line|done]. eapply eats_cons; [done|]. by eapply eats_cons.
  - destruct (peek_at_one _ _ _ _ Er E1) as [r' ->]. pose proof (bump_rest _ _ _ Er) as Eb.
    pose proof (block_comment_eats (tk_rest (bump (bump t))) (bump (bump t)) eq_refl) as Hb. destruct (block_comment_from _ _) as [[] t'].
    + destruct Hb as (body & Hb & He). apply (Hstep (47 :: 42 :: body ++ [42; 47])); [|intros v Hv|done].
      * eapply eats_cons; [done|]. by eapply eats_cons.
      * cbn. rewrite <- app_assoc. by apply trivia_block.
    + destruct Hb as (He & Hr & Hn). split; [done|]. split; [done|]. eexists [], _. split; [constructor|]. split; [exact Hn|]. eapply eats_cons; [done|by eapply eats_cons].
Qed.

(** ** Tokens consume text *)

(** A scanning function gives a token that is not the end, from a non-empty
    text. *)
Definition scans (t : Tokenizer) (r : TokenKind * Tokenizer) : Prop := exists w, w <> [] /\ eats t w r.2 /\ is_eof r.1 = false.

Lemma run_scans pred t c r k : tk_rest t = c :: r -> pred c = true -> is_eof k = false -> scans t (k, bump_while pred t).
Proof.
  intros E Hc Hk. destruct (bump_while_eats pred t) as (w & He & _ & Hh). exists w. split; [|done]. intros ->.
  destruct He as [He _]. cbn in He. rewrite <- He, E in Hh. cbn in Hh. congruence.
Qed.

Lemma lookup_not_eof w : is_eof (lookup_word w) = false.
Proof. unfold lookup_word. repeat (case_match; try done). Qed.

Lemma bump_while_scans pred t c r k : tk_rest t = c :: r -> is_eof k = false -> scans t (k, bump_while pred (bump t)).
Proof.
  intros E Hk. destruct (bump_while_eats pred (bump t)) as (w & He & _). exists (c :: w). split; [done|]. split; [by eapply eats_cons|done].
Qed.

Lemma quoted_eats fuel : forall close escapes acc seg t, exists w, eats t w (quoted_from fuel close escapes acc seg t).2.
Proof.
  induction fuel as [|fuel IH]; intros close escapes acc seg t; cbn [quoted_from]; [by exists []|].
  destruct (peek_char t) as [c|] eqn:Ep; [|by exists []]. apply peek_cons in Ep as [r Er].
  destruct (c =? close); [destruct (escapes && is_char_at (peek_char (bump t)) close) eqn:E2|].
  - apply andb_true_iff in E2 as [_ E2]. unfold peek_char in E2. rewrite (bump_rest _ _ _ Er) in E2. destruct r as [|d r]; [done|].
    destruct (IH close escapes (acc ++ text_since seg t ++ [close]) (bump (bump t)) (bump (bump t))) as (w & He). exists (c :: d :: w).
    eapply eats_cons; [done|]. eapply eats_cons; [by eapply bump_rest|done].
  - exists [c]. by eapply eats_bump.
  - destruct (IH close escapes acc seg (bump t)) as (w & He). exists (c :: w). by eapply eats_cons.
Qed.

Lemma quoted_scans t c r close escapes k : tk_rest t = c :: r -> (forall o, is_eof (k o) = false) ->
  scans t (let '(o, t') := scan_quoted t close escapes in (k o, t')).
Proof.
  intros E Hk. unfold scan_quoted. destruct (quoted_eats (S (length (tk_rest (bump t)))) close escapes [] (bump t) (bump t)) as (w & He).
  destruct (quoted_from _ _ _ _ _ _) as [o t']. exists (c :: w). split; [done|]. split; [by eapply eats_cons|apply Hk].
Qed.

Lemma exponent_eats t : exists w, eats t w (scan_number_exponent t).2.
Proof.
  unfold scan_number_exponent. destruct (is_char_at (peek_char t) 101 || is_char_at (peek_char t) 69) eqn:E; [|by exists []].
  unfold peek_char in E. destruct (tk_rest t) as [|c r] eqn:Er; [done|].
  set (sg := is_char_at (peek_at t 1) 43 || is_char_at (peek_at t 1) 45). destruct (is_digit_at _) eqn:Ed; [|by exists []]. cbn [snd].
  assert (exists w, eats (bump t) w (if sg then bump (bump t) else bump t)) as (w1 & H1).
  { destruct sg; [|by exists []]. destruct (tk_rest (bump t)) as [|d r'] eqn:Eb; [|exists [d]; by eapply eats_bump].
    rewrite (bump_nil (bump t) Eb). by exists []. }
  destruct (bump_while_eats is_ascii_digit (if sg then bump (bump t) else bump t)) as (w2 & H2 & _).
  exists (c :: (w1 ++ w2)). eapply eats_cons; [done|by eapply eats_app].
Qed.

Lemma number_scans t c r : tk_rest t = c :: r -> is_ascii_digit c = true \/ c = 46 -> scans t (scan_number t).
Proof.
  intros E Hc. unfold scan_number. destruct (is_char_at (peek_char t) 48 && _) eqn:Eh.
  { unfold scan_hex. apply andb_true_iff in Eh as [_ Eh]. assert (exists d r', r = d :: r') as (d & r' & ->).
    { apply orb_true_iff in Eh as [Eh|Eh]; apply (peek_at_one _ _ _ _ E) in Eh as [r' ->]; eauto. }
    destruct (bump_while_eats is_ascii_hexdigit (bump (bump t))) as (w & He & _). exists (c :: d :: w). split; [done|]. split.
    - eapply eats_cons; [done|]. eapply eats_cons; [by eapply bump_rest|done].
    - cbn. destruct (text_since _ _); [done|]. repeat (case_match; try done). }
  destruct (bump_while_eats is_ascii_digit t) as (w1 & H1 & _ & Hh). set (t1 := bump_while is_ascii_digit t) in *.
  assert (exists w2 pt t2, (if is_char_at (peek_char t1) 46 then (true, bump_while is_ascii_digit (bump t1)) else (false, t1)) = (pt, t2) /\ eats t1 w2 t2 /\ (c = 46 -> w1 ++ w2 <> [])) as (w2 & pt & t2 & -> & H2 & Hn).
  { destruct (is_char_at (peek_char t1) 46) eqn:Ep.
    - unfold peek_char in Ep. destruct (tk_rest t1) as [|d r1] eqn:Er1; [done|]. destruct (bump_while_eats is_ascii_digit (bump t1)) as (w2 & H2 & _).
      exists (d :: w2), true, (bump_while is_ascii_digit (bump t1)). split; [done|]. split; [by eapply eats_cons|]. intros _ [_ ?]%app_eq_nil. done.
    - exists [], false, t1. split; [done|]. split; [apply eats_nil|]. intros -> ?. assert (w1 = []) as -> by (by destruct w1).
      destruct H1 as [H1 _]. cbn in H1. unfold peek_char in Ep. rewrite <- H1, E in Ep. done. }
  destruct (exponent_eats t2) as (w3 & H3). destruct (scan_number_exponent t2) as [ex t3]. exists (w1 ++ w2 ++ w3). split; [|split].
  - destruct Hc as [Hc|Hc]; [|specialize (Hn Hc); destruct w1, w2; done]. destruct w1 as [|x w1]; [|done]. destruct H1 as [H1 _]. cbn in H1. rewrite <- H1, E in Hh. cbn in Hh. congruence.
  - eapply eats_app; [done|by eapply eats_app].
  - cbn. repeat (case_match; try done).
Qed.

Lemma blob_scans t c r : tk_rest t = c :: r -> is_ident_continue c = true -> scans t (scan_maybe_blob t c).
Proof.
  intros E Hc. unfold scan_maybe_blob. destruct (is_char_at (peek_at t 1) 39) eqn:E1; [|eapply run_scans; [done|done|apply lookup_not_eof]].
  destruct (peek_at_one _ _ _ _ E E1) as [r' ->]. pose proof (bump_rest _ _ _ E) as Eb.
  destruct (bump_while_eats (fun c => negb (c =? 39)) (bump (bump t))) as (w & He & _). set (t1 := bump_while _ _) in *.
  assert (eats t (c :: 39 :: w) t1) as H1 by (eapply eats_cons; [done|by eapply eats_cons]).
  destruct (peek_char t1) as [d|] eqn:Ep; [|by exists (c :: 39 :: w)]. apply peek_cons in Ep as [r1 Er1].
  assert (forall k, is_eof k = false -> scans t (k, bump t1)) as Hk.
  { intros k Hk. exists ((c :: 39 :: w) ++ [d]). split; [done|]. split; [eapply eats_app; [done|by eapply eats_bump]|done]. }
  case_match; [by apply Hk|]. case_match; by apply Hk.
Qed.

Lemma operator_scans t c r : tk_rest t = c :: r -> scans t (scan_operator t).
Proof.
  intros E. unfold scan_operator, peek_char at 1. rewrite E. cbn [head].
  assert (forall k, is_eof k = false -> scans t (k, bump t)) as H1 by (intros k Hk; exists [c]; split; [done|]; split; [by eapply eats_bump|done]).
  assert (forall k t' d, eats t [c] t' -> is_char_at (peek_char t') d = true -> is_eof k = false -> exists w, w <> [] /\ eats t w (bump t') /\ scans t (k, bump t')) as H2.
  { intros k t' d He Hd Hk. unfold peek_char in Hd. destruct (tk_rest t') as [|x r'] eqn:E'; [done|]. exists ([c] ++ [x]). split; [done|].
    assert (eats t ([c] ++ [x]) (bump t')) as He' by (eapply eats_app; [done|by eapply eats_bump]). split; [done|]. by exists ([c] ++ [x]). }
  assert (eats t [c] (bump t)) as Hb by (by eapply eats_bump).
  assert (forall d k, is_char_at (peek_char (bump t)) d = true -> is_eof k = false -> scans t (k, bump (bump t))) as H3
    by (intros d k Hd Hk; by destruct (H2 k (bump t) d Hb Hd Hk) as (_ & _ & _ & ?)).
  assert (forall k, is_char_at (peek_char (bump t)) 62 = true -> is_char_at (peek_char (bump (bump t))) 62 = true -> is_eof k = false -> scans t (k, bump (bump (bump t)))) as H4.
  { intros k Hd Hd2 Hk. destruct (H2 k (bump t) 62 Hb Hd Hk) as (w & Hw & He & _). unfold peek_char in Hd2.
    destruct (tk_rest (bump (bump t))) as [|y r2] eqn:Er2; [done|]. exists (w ++ [y]). split; [by destruct w|]. split; [eapply eats_app; [done|by eapply eats_bump]|done]. }
  repeat (match goal with
    | |- scans _ (if ?b then _ else _) => destruct b eqn:?
    | |- scans _ (TkEq, if ?b then _ else _) => destruct b eqn:?
    end; try (by apply H1); try (by eapply H3); try (by eapply H4)).
Qed.

Lemma token_scans t c r : tk_rest t = c :: r -> scans t (scan_token t c).
Proof.
  intros E. unfold scan_token. destruct (is_ascii_digit c) eqn:Ed; [by eapply number_scans; eauto|].
  assert (forall k, is_eof k = false -> scans t (k, bump t)) as H1 by (intros k Hk; exists [c]; split; [done|]; split; [by eapply eats_bump|done]).
  destruct (Z.eqb_spec c 46) as [->|_]; [destruct (is_digit_at _); [by eapply number_scans; eauto|by apply H1]|].
  unfold scan_string, scan_quoted_identifier, scan_param_question, scan_param_named.
  destruct (c =? 39); [by eapply quoted_scans; [done|intros []]|].
  destruct (c =? 34); [by eapply quoted_scans; [done|intros []]|].
  destruct (c =? 91); [by eapply quoted_scans; [done|intros []]|].
  destruct (c =? 96); [by eapply quoted_scans; [done|intros []]|].
  destruct (c =? 63); [eapply bump_while_scans; [done|]; repeat (case_match; try done)|].
  destruct (_ || _); [eapply bump_while_scans; [done|]; repeat (case_match; try done)|].
  destruct ((c =? 120) || (c =? 88)) eqn:Ex.
  { eapply blob_scans; [done|]. apply orb_true_iff in Ex as [->%Z.eqb_eq| ->%Z.eqb_eq]; reflexivity. }
  destruct (is_ident_start c) eqn:Ei; [|by eapply operator_scans].
  eapply run_scans; [done| |apply lookup_not_eof]. unfold is_ident_start, is_alphabetic in Ei. unfold is_ident_continue, is_alphanumeric.
  apply orb_true_iff in Ei as [->|Ei]; [done|]. apply orb_true_iff. right. destruct (c <? 128); by rewrite Ei.
Qed.

(** ** Positions *)

Definition blen (s : str) : Z := len (as_bytes s).
Definition line_of (pre : str) : Z := 1 + len (filter (fun c => c = 10) pre).
Definition column_of (pre : str) : Z := 1 + count_while (fun c => negb (c =? 10)) (rev pre).

(** Where the text [v] stands when [pre] comes before it. *)
Definition span_at (pre v : str) : Span := MkSpan (line_of pre) (column_of pre) (blen pre) (blen v).

Definition place (pre : str) (t : Tokenizer) : Prop := tk_pos t = blen pre /\ tk_line t = line_of pre /\ tk_column t = column_of pre.

Lemma as_bytes_app s u : as_bytes (s ++ u) = as_bytes s ++ as_bytes u.
Proof. induction s as [|c s IH]; [done|]. cbn [as_bytes app]. by rewrite IH, <- app_assoc. Qed.

Lemma blen_app s u : blen (s ++ u) = blen s + blen u.
Proof. unfold blen. by rewrite as_bytes_app, len_app. Qed.

Lemma utf8_len_pos c : 1 <= utf8_len c.
Proof. unfold utf8_len, utf8_encode_char. repeat case_match; unfold len; cbn; lia. Qed.

Lemma blen_len s : len s <= blen s.
Proof. induction s as [|c s IH]; [done|]. unfold blen in *. cbn [as_bytes]. rewrite len_cons, len_app. pose proof (utf8_len_pos c). unfold utf8_len in *. lia. Qed.

Lemma line_snoc pre c : line_of (pre ++ [c]) = if c =? 10 then line_of pre + 1 else line_of pre.
Proof.
  unfold line_of. rewrite list.filter_app, len_app. destruct (Z.eqb_spec c 10) as [->|Hc].
  - rewrite filter_cons_True by done. unfold len. cbn. lia.
  - rewrite filter_cons_False by done. unfold len. cbn. lia.
Qed.

Lemma column_snoc pre c : column_of (pre ++ [c]) = if c =? 10 then 1 else column_of pre + 1.
Proof. unfold column_of. rewrite rev_app_distr. cbn. destruct (c =? 10); cbn; lia. Qed.

Lemma line_bound pre : 1 <= line_of pre <= 1 + len pre.
Proof. unfold line_of, len. pose proof (list.length_filter (fun c => c = 10) pre). lia. Qed.

Lemma column_bound pre : 1 <= column_of pre <= 1 + len pre.
Proof. induction pre as [|c pre IH] using rev_ind; [done|]. rewrite column_snoc, len_app. pose proof (len_nonneg pre). change (len [c]) with 1. destruct (c =? 10); lia. Qed.

Lemma bump_place pre t c r : tk_rest t = c :: r -> place pre t -> blen (pre ++ [c]) < 2 ^ 32 - 1 -> place (pre ++ [c]) (bump t).
Proof.
  intros E (Hp & Hl & Hc) Hb. rewrite blen_app in Hb. change (blen [c]) with (len (utf8_encode_char c ++ [])) in Hb. rewrite app_nil_r in Hb.
  pose proof (blen_len pre). pose proof (line_bound pre). pose proof (column_bound pre). pose proof (utf8_len_pos c). unfold utf8_len in *.
  assert (sat_add (tk_pos t) (len (utf8_encode_char c)) = blen (pre ++ [c])) as Hpos.
  { rewrite sat_add_small by (rewrite Hp; unfold U64_MAX; lia). rewrite Hp, blen_app. change (blen [c]) with (len (utf8_encode_char c ++ [])). by rewrite app_nil_r. }
  unfold place, bump. rewrite E, line_snoc, column_snoc. unfold utf8_len. rewrite Hpos, Hl, Hc. unfold sat_u32, U32_MAX. destruct (c =? 10); cbn; repeat split; lia.
Qed.

Lemma after_place w : forall pre t r, tk_rest t = w ++ r -> place pre t -> blen (pre ++ w) < 2 ^ 32 - 1 -> place (pre ++ w) (after t w).
Proof.
  induction w as [|c w IH]; intros pre t r E Hp Hb; [by rewrite app_nil_r|]. cbn [after].
  replace (pre ++ c :: w) with ((pre ++ [c]) ++ w) in Hb |- * by (by rewrite <- app_assoc).
  eapply (IH _ _ r); [by eapply bump_rest| |done]. eapply bump_place; [done|done|]. rewrite blen_app in Hb. pose proof (blen_len w). pose proof (len_nonneg w). lia.
Qed.

Lemma eats_place pre w t t' : eats t w t' -> place pre t -> blen (pre ++ w) < 2 ^ 32 - 1 -> place (pre ++ w) t'.
Proof. intros [E ->] Hp Hb. by eapply after_place. Qed.

Lemma span_place pre v t t' : place pre t -> place (pre ++ v) t' -> blen (pre ++ v) < 2 ^ 32 - 1 -> span_from t t' = span_at pre v.
Proof.
  intros (Hp & Hl & Hc) (Hp' & _) Hb. rewrite blen_app in *. pose proof (blen_len pre). pose proof (blen_len v). pose proof (len_nonneg pre). pose proof (len_nonneg v).
  unfold span_from, span_at. rewrite Hp, Hp', Hl, Hc. unfold wrap. rewrite !Z.mod_small by lia. f_equal. unfold sat_sub. lia.
Qed.

(** ** The whole source *)

(** [laid_out pre s toks]: the text [s], found after [pre], is made of the
    tokens [toks] and the trivia between them.  The error for an unterminated
    comment covers the comment up to the end of the source; where in the trivia
    before the comment its span starts is left open here. *)
Inductive laid_out : str -> str -> list Token -> Prop :=
| laid_end pre w : trivia w -> laid_out pre w [MkToken TkEof (span_at (pre ++ w) [])]
| laid_open pre w1 w2 body : trivia (w1 ++ w2) -> contains body [42; 47] = false ->
    laid_out pre ((w1 ++ w2) ++ 47 :: 42 :: body) [MkToken (TkError LeUnterminatedComment) (span_at (pre ++ w1) (w2 ++ 47 :: 42 :: body)); MkToken TkEof (span_at (pre ++ (w1 ++ w2) ++ 47 :: 42 :: body) [])]
| laid_token pre w v r k toks : trivia w -> v <> [] -> starts_trivia (v ++ r) = false -> is_eof k = false ->
    laid_out (pre ++ w ++ v) r toks -> laid_out pre (w ++ v ++ r) (MkToken k (span_at (pre ++ w) v) :: toks).

Lemma trivia_nil_inv t : tk_rest t = [] -> next_token t = (MkToken TkEof (span_from t t), t).
Proof. intros E. unfold next_token, skip_trivia. cbn [skip_trivia_loop]. unfold peek_char. rewrite E. cbn [head]. by rewrite E. Qed.

Lemma loop_laid fuel : forall t pre, place pre t -> blen (pre ++ tk_rest t) < 2 ^ 32 - 1 -> (length (tk_rest t) < fuel)%nat -> laid_out pre (tk_rest t) (tokenize_loop fuel t).
Proof.
  induction fuel as [|fuel IH]; intros t pre Hp Hb Hf; [lia|]. cbn [tokenize_loop]. unfold next_token, skip_trivia.
  pose proof (skip_trivia_eats (S (length (tk_rest t))) t) as Ht. destruct (skip_trivia_loop _ t) as [[e|] t1].
  - destruct Ht as (-> & Hr & w & body & Hw & Hbody & He). pose proof (proj1 He) as E. rewrite Hr, app_nil_r in E.
    assert (place (pre ++ tk_rest t) t1) as Hp1 by (rewrite E; eapply eats_place; [done|done|by rewrite <- E]).
    cbn [tok_kind is_eof]. rewrite (span_place pre (tk_rest t) t t1) by done. destruct fuel as [|fuel]; [rewrite E, length_app in Hf; cbn in Hf; lia|].
    cbn [tokenize_loop]. rewrite (trivia_nil_inv t1 Hr). cbn [tok_kind is_eof]. rewrite (span_place (pre ++ tk_rest t) [] t1 t1) by (by rewrite ?app_nil_r). rewrite E.
    pose proof (laid_open pre [] w body Hw Hbody) as Hlaid. by rewrite app_nil_r in Hlaid.
  - destruct Ht as [(w & Hw & He) Hs]. specialize (Hs (Nat.lt_succ_diag_r _)). pose proof (proj1 He) as E. rewrite E, app_assoc, blen_app in Hb.
    pose proof (blen_len (tk_rest t1)). pose proof (len_nonneg (tk_rest t1)). assert (place (pre ++ w) t1) as Hp1 by (eapply eats_place; [done|done|lia]).
    destruct (peek_char t1) as [c|] eqn:Ep.
    + apply peek_cons in Ep as [r Er]. destruct (token_scans t1 c r Er) as (v & Hv & He1 & Hk). destruct (scan_token t1 c) as [k t2]. cbn [fst snd tok_kind] in *.
      pose proof (proj1 He1) as E1. rewrite E1 in Hb. rewrite (blen_app v), Z.add_assoc, <- (blen_app (pre ++ w) v) in Hb.
      pose proof (blen_len (tk_rest t2)). pose proof (len_nonneg (tk_rest t2)). assert (place ((pre ++ w) ++ v) t2) as Hp2 by (eapply eats_place; [done|done|lia]).
      rewrite Hk, (span_place (pre ++ w) v t1 t2) by (done || lia). rewrite E, E1. apply laid_token; [done|done|by rewrite <- E1|done|].
      rewrite app_assoc. apply IH; [done|by rewrite blen_app|]. rewrite E, E1, !length_app in Hf. destruct v; [done|]. cbn in Hf. lia.
    + assert (tk_rest t1 = []) as Hr by (unfold peek_char in Ep; by destruct (tk_rest t1)). cbn [tok_kind is_eof].
      rewrite (span_place (pre ++ w) [] t1 t1) by (rewrite ?app_nil_r; done || lia). rewrite E, Hr, app_nil_r. by constructor.
Qed.

Lemma laid_ends pre s toks : laid_out pre s toks -> exists body e, toks = body ++ [e] /\ tok_kind e = TkEof /\ tok_span e = span_at (pre ++ s) [] /\ Forall (fun tok => is_eof (tok_kind tok) = false) body.
Proof.
  induction 1 as [pre w Hw|pre w1 w2 body Hw Hb|pre w v r k toks Hw Hv Hs Hk _ (body & e & -> & He & Hsp & Hall)].
  - exists [], (MkToken TkEof (span_at (pre ++ w) [])). repeat split. constructor.
  - eexists [_], _. repeat split. by repeat constructor.
  - exists (MkToken k (span_at (pre ++ w) v) :: body), e. rewrite Hsp, <- !app_assoc. repeat split; [done|]. by constructor.
Qed.

(** ** Reading literals back *)

(** A text with the delimiter doubled. *)
Fixpoint doubled (close : Z) (s : str) : str := match s with [] => [] | c :: s => if c =? close then close :: c :: doubled close s else c :: doubled close s end.

Lemma quoted_doubled close s : forall fuel acc seg t w r, tk_rest t = doubled close s ++ close :: r -> head_is (Z.eqb close) r = false -> eats seg w t -> (length (doubled close s) < fuel)%nat ->
  exists t', eats t (doubled close s ++ [close]) t' /\ quoted_from fuel close true acc seg t = (Some (acc ++ w ++ s), t').
Proof.
  induction s as [|c s IH]; intros fuel acc seg t w r E Hr Hw Hf; destruct fuel as [|fuel]; try (cbn in Hf; lia); cbn [doubled app] in *.
  - exists (bump t). split; [by eapply eats_bump|]. cbn [quoted_from]. unfold peek_char. rewrite E, (bump_rest _ _ _ E). cbn [head]. rewrite Z.eqb_refl.
    rewrite (text_since_eats _ _ _ Hw), app_nil_r. destruct r as [|d r]; [done|]. cbn [is_char_at head andb]. cbn [head_is] in Hr. by rewrite Z.eqb_sym, Hr.
  - destruct (Z.eqb_spec c close) as [->|Hc].
    + cbn [app length] in *. pose proof (bump_rest _ _ _ E) as E1. pose proof (bump_rest _ _ _ E1) as E2.
      destruct (IH fuel (acc ++ w ++ [close]) (bump (bump t)) (bump (bump t)) [] r E2 Hr (eats_nil _) ltac:(lia)) as (t' & He & Hq).
      exists t'. split; [eapply eats_cons; [done|by eapply eats_cons]|]. cbn [quoted_from]. unfold peek_char. rewrite E, E1. cbn [head is_char_at]. rewrite Z.eqb_refl. cbn [andb].
      rewrite (text_since_eats _ _ _ Hw), Hq. by rewrite <- !app_assoc.
    + cbn [app length] in *. destruct (IH fuel acc seg (bump t) (w ++ [c]) r (bump_rest _ _ _ E) Hr) as (t' & He & Hq); [eapply eats_app; [done|by eapply eats_bump]|lia|].
      exists t'. split; [by eapply eats_cons|]. cbn [quoted_from]. unfold peek_char. rewrite E. cbn [head]. rewrite (proj2 (Z.eqb_neq c close)), Hq by done. by rewrite <- app_assoc.
Qed.

Lemma scan_doubled t close s r : tk_rest t = close :: doubled close s ++ close :: r -> head_is (Z.eqb close) r = false ->
  exists t', eats t (close :: doubled close s ++ [close]) t' /\ scan_quoted t close true = (Some s, t').
Proof.
  intros E Hr. pose proof (bump_rest _ _ _ E) as E1. unfold scan_quoted. rewrite E1.
  destruct (quoted_doubled close s (S (length (doubled close s ++ close :: r))) [] (bump t) (bump t) [] r E1 Hr (eats_nil _)) as (t' & He & Hq); [rewrite length_app; lia|].
  exists t'. split; [by eapply eats_cons|done].
Qed.

Lemma doubled_apostrophes s : double_apostrophes s = doubled 39 s.
Proof. induction s as [|c s IH]; [done|]. cbn [double_apostrophes doubled]. rewrite IH. by destruct (Z.eqb_spec c 39) as [->|]. Qed.

Lemma next_token_here t c r : tk_rest t = c :: r -> starts_trivia (tk_rest t) = false -> next_token t = (MkToken (scan_token t c).1 (span_from t (scan_token t c).2), (scan_token t c).2).
Proof.
  intros E Hs. unfold next_token. assert (skip_trivia t = (None, t)) as ->.
  { unfold skip_trivia. cbn [skip_trivia_loop]. unfold peek_char, peek_at. rewrite E in *. cbn [head lookup list_lookup starts_trivia] in *.
    apply orb_false_iff in Hs as [[Hw Hd]%orb_false_iff Hb]. rewrite Hw. assert (forall d, is_char_at (r !! 0%nat) d = head_is (Z.eqb d) r) as Hn by (intros d; destruct r; [done|]; cbn; apply Z.eqb_sym).
    change ((c :: r) !! 1%nat) with (r !! 0%nat). rewrite !Hn. destruct (c =? 45); [cbn [andb] in Hd; by rewrite Hd|]. destruct (c =? 47); [cbn [andb] in Hb; by rewrite Hb|done]. }
  unfold peek_char. rewrite E. cbn [head]. by destruct (scan_token t c).
Qed.

(** What follows a literal must not run on into it. *)
Definition delimited (r : str) : Prop := head_is (fun c => is_ident_continue c || (c =? 39) || (c =? 46)) r = false.

(** The token [v] is read back as, where it has one. *)
Definition literal_of (v : Value) : option TokenKind :=
  match v with
  | Null => Some TkNull
  | Integer i => if 0 <=? i then Some (TkInteger i) else None
  | Real _ => None
  | VText s => Some (TkString s)
  | Blob b => Some (TkBlob b)
  end.

Definition reads (q : str) (k : TokenKind) : Prop := forall t r, tk_rest t = q ++ r -> delimited r -> exists t', eats t q t' /\ next_token t = (MkToken k (span_from t t'), t').

Lemma reads_token q c k : starts_trivia q = false -> (length q > 1)%nat \/ c <> 45 /\ c <> 47 -> head q = Some c ->
  (forall t r, tk_rest t = q ++ r -> delimited r -> exists t', eats t q t' /\ scan_token t c = (k, t')) -> reads q k.
Proof.
  intros Hs Hl Hc Hq t r E Hr. destruct (Hq t r E Hr) as (t' & He & Hk). exists t'. split; [done|]. destruct q as [|x q]; [done|]. injection Hc as ->.
  cbn [app] in E. rewrite (next_token_here t c (q ++ r)), Hk; [done|done|]. rewrite E. cbn [starts_trivia] in *. destruct q as [|y q]; [|done].
  destruct Hl as [Hl|[H1 H2]]; [cbn in Hl; lia|]. cbn [app head_is] in *. rewrite (proj2 (Z.eqb_neq c 45)), (proj2 (Z.eqb_neq c 47)) in * by done. cbn [andb] in *. exact Hs.
Qed.

Lemma reads_text s : reads (sql_quote_text s) (TkString s).
Proof.
  eapply reads_token; [reflexivity| |reflexivity|]; [left; unfold sql_quote_text; cbn [length]; rewrite length_app; cbn; lia|].
  intros t r E Hr. unfold sql_quote_text in *. rewrite doubled_apostrophes in *. rewrite <- app_comm_cons, <- app_assoc in E.
  destruct (scan_doubled t 39 s r E) as (t' & He & Hq); [|exists t'; split; [done|]; cbn; unfold scan_string; by rewrite Hq].
  unfold delimited in Hr. destruct r as [|d r]; [done|]. cbn [head_is] in *. apply orb_false_iff in Hr as [[_ Hr]%orb_false_iff _]. by rewrite Z.eqb_sym.
Qed.

Lemma delimited_not pred r : (forall c, pred c = true -> is_ident_continue c = true \/ c = 46) -> delimited r -> head_is pred r = false.
Proof.
  intros Hp Hr. unfold delimited in Hr. destruct r as [|d r]; [done|]. cbn [head_is] in *. apply orb_false_iff in Hr as [[Hr _]%orb_false_iff H46].
  destruct (pred d) eqn:E; [|done]. destruct (Hp d E) as [?| ->]; [congruence|done].
Qed.

Lemma reads_null : reads (lit "NULL") TkNull.
Proof.
  eapply reads_token; [reflexivity|left; cbn; lia|reflexivity|]. intros t r E Hr.
  destruct (bump_while_run is_ident_continue t (lit "NULL") r E) as [He _]; [reflexivity|apply delimited_not; [by left|done]|].
  exists (bump_while is_ident_continue t). split; [done|].
  change (scan_identifier_or_keyword t = (TkNull, bump_while is_ident_continue t)). unfold scan_identifier_or_keyword. cbv zeta. rewrite (text_since_eats _ _ _ He).
  assert (lookup_word (lit "NULL") = TkNull) as -> by (by vm_compute). reflexivity.
Qed.

Lemma digit_continue c : is_ascii_digit c = true -> is_ident_continue c = true.
Proof. intros Hc. unfold is_ident_continue, is_alphanumeric. unfold is_ascii_digit in *. rewrite (proj2 (Z.ltb_lt c 128)) by lia. rewrite Hc. by rewrite !orb_true_r. Qed.

Lemma letter_continue c : is_ascii_alphabetic c = true -> is_ident_continue c = true.
Proof. intros Hc. unfold is_ident_continue, is_alphanumeric. unfold is_ascii_alphabetic in *. rewrite (proj2 (Z.ltb_lt c 128)) by lia. rewrite Hc. by rewrite !orb_true_r. Qed.

Lemma next_not_letter ds r c d : all is_ascii_digit ds -> delimited r -> is_ascii_alphabetic d = true -> is_char_at ((c :: ds ++ r) !! 1%nat) d = false.
Proof.
  intros Hds Hr Hd. change ((c :: ds ++ r) !! 1%nat) with ((ds ++ r) !! 0%nat). destruct ds as [|x ds]; cbn.
  - assert (head_is (Z.eqb d) r = false) as Hh by (apply delimited_not; [intros y <-%Z.eqb_eq; left; by apply letter_continue|done]). destruct r; [done|]. cbn [head_is] in Hh. cbn. by rewrite Z.eqb_sym.
  - unfold all in Hds. cbn in Hds. apply andb_true_iff in Hds as [Hx _]. apply Z.eqb_neq. intros ->. unfold is_ascii_digit, is_ascii_alphabetic in *. lia.
Qed.

Lemma reads_integer n : is_i64 n -> 0 <= n -> reads (to_string n) (TkInteger n).
Proof.
  intros Hi Hn. pose proof (parse_to_string n Hi) as Hparse. destruct (decimal_ok n Hn) as (_ & Hd & Hne). unfold to_string in *. rewrite (proj2 (Z.ltb_ge n 0)) in * by done.
  destruct (decimal n) as [|c ds] eqn:Ed; [done|]. assert (is_ascii_digit c = true /\ all is_ascii_digit ds) as [Hc Hds] by (by apply andb_true_iff in Hd).
  assert (48 <= c <= 57) by (unfold is_ascii_digit in Hc; lia).
  assert (forall e, ~ 48 <= e <= 57 -> (c =? e) = false) as Hne' by (intros e He; apply Z.eqb_neq; lia).
  eapply reads_token; [| |reflexivity|].
  - cbn [starts_trivia]. unfold is_whitespace. rewrite !Hne' by lia. rewrite (proj2 (Z.leb_gt c 13)), (proj2 (Z.leb_gt 8192 c)), andb_false_r by lia. reflexivity.
  - right. lia.
  - intros t r E Hr. cbn [app] in E. unfold scan_token. rewrite Hc. unfold scan_number, peek_char at 1, peek_at. rewrite E. rewrite !(next_not_letter ds r c) by done. rewrite andb_false_r.
    assert (head_is is_ascii_digit r = false) as Hr1 by (apply delimited_not; [intros x Hx; left; by apply digit_continue|done]).
    destruct (bump_while_run is_ascii_digit t (c :: ds) r E Hd Hr1) as [He Er]. set (t1 := bump_while is_ascii_digit t) in *. exists t1. split; [done|].
    assert (forall d, is_ascii_alphabetic d = true \/ d = 46 -> is_char_at (peek_char t1) d = false) as Hh.
    { intros d Hd'. assert (head_is (Z.eqb d) r = false) as Hx by (apply delimited_not; [intros y <-%Z.eqb_eq; destruct Hd'; [left; by apply letter_continue|by right]|done]).
      unfold peek_char. rewrite Er. destruct r; [done|]. cbn [head_is] in Hx. cbn. by rewrite Z.eqb_sym. }
    rewrite (Hh 46) by (by right). unfold scan_number_exponent. rewrite !Hh by (by left). cbn [orb]. by rewrite (text_since_eats _ _ _ He), Hparse.
Qed.

Lemma hex_digit_reads n : 0 <= n < 16 -> is_ascii_hexdigit (hex_digit n) = true /\ hex_val (hex_digit n) = n.
Proof.
  intros Hn. assert (forallb (fun n => is_ascii_hexdigit (hex_digit n) && (hex_val (hex_digit n) =? n)) (seqZ 0 16) = true) as Hall by (by vm_compute).
  pose proof (proj1 (forallb_forall _ _) Hall n) as Hx. cbn beta in Hx. rewrite andb_true_iff, Z.eqb_eq in Hx. apply Hx, list_elem_of_In, elem_of_seqZ. lia.
Qed.

Lemma blob_bytes_hex b : bytes_ok b -> blob_bytes (hex_bytes b) = inl b /\ forallb is_ascii_hexdigit (hex_bytes b) = true.
Proof.
  induction 1 as [|x b Hx Hb [IH1 IH2]]; [done|]. destruct (nibbles x Hx) as (H1 & H2 & _). pose proof (Z.div_mod x 16 ltac:(lia)).
  destruct (hex_digit_reads _ H1) as [A1 B1], (hex_digit_reads _ H2) as [A2 B2]. change (hex_bytes (x :: b)) with (hex_digit (x / 16) :: hex_digit (x mod 16) :: hex_bytes b).
  cbn [blob_bytes forallb]. rewrite A1, A2, IH1, IH2. split; [|done]. cbn [hex_number]. rewrite B1, B2. do 2 f_equal. lia.
Qed.

Lemma reads_blob b : bytes_ok b -> reads (format_blob b) (TkBlob b).
Proof.
  intros Hb. destruct (blob_bytes_hex b Hb) as [Hbytes Hhex]. destruct (hex_bytes_ascii b Hb) as [Hascii Hlen].
  eapply reads_token; [reflexivity|left; cbn; lia|reflexivity|]. intros t r E Hr. change (format_blob b) with (88 :: 39 :: hex_bytes b ++ [39]) in *. cbn [app] in E. rewrite <- app_assoc in E.
  assert (forall k t', scan_maybe_blob t 88 = (k, t') -> scan_token t 88 = (k, t')) as Hscan by (by intros).
  pose proof (bump_rest _ _ _ E) as E1. pose proof (bump_rest _ _ _ E1) as E2.
  destruct (bump_while_run (fun c => negb (c =? 39)) (bump (bump t)) (hex_bytes b) ([39] ++ r) E2) as [He Er]; [|reflexivity|].
  { eapply forallb_forall. intros x Hx. pose proof (proj1 (forallb_forall _ _) Hhex x Hx) as Hd. unfold is_ascii_hexdigit, is_ascii_digit in Hd. apply negb_true_iff, Z.eqb_neq. lia. }
  set (t1 := bump_while _ _) in *. cbn [app] in Er. exists (bump t1). split.
  - eapply eats_cons; [done|]. eapply eats_cons; [done|]. eapply eats_app; [done|by eapply eats_bump].
  - apply Hscan. unfold scan_maybe_blob, peek_at. rewrite E. cbn [lookup list_lookup is_char_at]. change (39 =? 39) with true. fold t1. cbv zeta. unfold peek_char. rewrite Er. cbn [head].
    rewrite (text_since_eats _ _ _ He), (ascii_bytes _ Hascii), Hlen, Hhex, Hbytes. rewrite Z.mul_comm, Z.mod_mul by lia. done.
Qed.

(** ** Keyword lookup *)

Lemma search_found {A} (l : list A) f k x : (forall i j y z, (i < j)%nat -> l !! i = Some y -> l !! j = Some z -> f z <> Gt -> f y = Lt) ->
  l !! k = Some x -> f x = Eq ->
  forall fuel lo hi, (lo <= k < hi)%nat -> (hi <= length l)%nat -> (hi - lo <= fuel)%nat -> binary_search_by fuel l f lo hi = Some k.
Proof.
  intros Hlt Hk Hx. induction fuel as [|fuel IH]; intros lo hi Hb Hh Hf; [lia|]. cbn [binary_search_by].
  rewrite (proj2 (Nat.leb_gt hi lo)) by lia. set (mid := (lo + Nat.div2 (hi - lo))%nat). assert (Nat.div2 (hi - lo) < hi - lo)%nat as Hd by (apply Nat.lt_div2; lia).
  assert (lo <= mid < hi)%nat as Hmid by (subst mid; revert Hd; generalize (Nat.div2 (hi - lo)); lia). destruct (lookup_lt_is_Some_2 l mid ltac:(lia)) as [y Hy]. rewrite Hy. cbn [fmap option_fmap option_map].
  destruct (lt_eq_lt_dec mid k) as [[Hm|Hm]|Hm].
  - rewrite (Hlt mid k y x Hm Hy Hk) by congruence. apply IH; lia.
  - rewrite Hm in Hy. rewrite Hk in Hy. injection Hy as <-. by rewrite Hx, Hm.
  - destruct (f y) eqn:Ef; [..|apply IH; lia]; (rewrite (Hlt k mid x y Hm Hk Hy) in Hx; [done|by rewrite Ef]).
Qed.

Lemma search_eq {A} (l : list A) f fuel : forall lo hi k, binary_search_by fuel l f lo hi = Some k -> exists x, l !! k = Some x /\ f x = Eq.
Proof.
  induction fuel as [|fuel IH]; intros lo hi k; cbn [binary_search_by]; [done|]. case_match; [done|]. destruct (l !! _) as [y|] eqn:Ey; [|done]. cbn.
  destruct (f y) eqn:Ef; [intros [= <-]; by exists y|apply IH..].
Qed.

Definition key_of (e : str * Keyword) : list Z := map to_ascii_uppercase (as_bytes e.1).

Fixpoint ascending (l : list (list Z)) : bool :=
  match l with x :: ((y :: _) as r) => bool_decide (list_cmp x y = Lt) && ascending r | _ => true end.

Lemma ascending_lt l : ascending l = true -> forall i j x y, (i < j)%nat -> l !! i = Some x -> l !! j = Some y -> list_cmp x y = Lt.
Proof.
  induction l as [|a l IH]; intros Ha i j x y Hij Hx Hy; [done|]. destruct l as [|b l]; [destruct j as [|j]; [lia|done]|].
  cbn [ascending] in Ha. apply andb_true_iff in Ha as [Hab Ha]. apply bool_decide_eq_true in Hab. specialize (IH Ha).
  destruct j as [|j]; [lia|]. destruct i as [|i]; [|apply (IH i j x y); [lia|done|done]]. injection Hx as <-. destruct j as [|j].
  - by injection Hy as <-.
  - eapply (cmp_lt_trans (fun _ => True) list_cmp a b y); [done..|]. rewrite (IH 0%nat (S j) b y); [done|lia|done|done].
Qed.

Lemma keywords_lt i j e e' : (i < j)%nat -> KEYWORDS !! i = Some e -> KEYWORDS !! j = Some e' -> list_cmp (key_of e) (key_of e') = Lt.
Proof.
  intros Hij Hi Hj. assert (ascending (map key_of KEYWORDS) = true) as Ha by (by vm_compute).
  apply (ascending_lt _ Ha i j); [done|by rewrite list_lookup_fmap, Hi|by rewrite list_lookup_fmap, Hj].
Qed.

Lemma keyword_found k e word : KEYWORDS !! k = Some e -> key_of e = map to_ascii_uppercase (as_bytes word) ->
  binary_search_by (length KEYWORDS) KEYWORDS (fun e => cmp_ignore_ascii_case e.1 word) 0 (length KEYWORDS) = Some k.
Proof.
  intros Hk He. pose proof (lookup_lt_Some _ _ _ Hk).
  assert (forall e, cmp_ignore_ascii_case e.1 word = list_cmp (key_of e) (map to_ascii_uppercase (as_bytes word))) as Hf by done.
  eapply (search_found _ _ k e); [intros i j y z Hij Hy Hz; rewrite !Hf; intros Hc|done|rewrite Hf; by apply list_cmp_eq|lia|lia|lia].
  eapply (cmp_lt_trans (fun _ => True) list_cmp (key_of y) (key_of z)); [done..|by eapply keywords_lt|done].
Qed.

Lemma upper_lower a b : map to_ascii_uppercase a = map to_ascii_uppercase b <-> map to_ascii_lowercase a = map to_ascii_lowercase b.
Proof.
  assert (forall x y, to_ascii_uppercase x = to_ascii_uppercase y <-> to_ascii_lowercase x = to_ascii_lowercase y) as Hc.
  { intros x y. unfold to_ascii_uppercase, to_ascii_lowercase. repeat case_match; lia. }
  revert b. induction a as [|x a IH]; intros [|y b]; cbn; try done. split; intros [= H1 H2]; (f_equal; [by apply Hc|by apply IH]).
Qed.

Lemma eq_ignore_key a b : eq_ignore_ascii_case a b = true <-> map to_ascii_uppercase (as_bytes a) = map to_ascii_uppercase (as_bytes b).
Proof. unfold eq_ignore_ascii_case. rewrite bool_decide_eq_true. symmetry. apply upper_lower. Qed.

Definition CONSTANTS : list (str * TokenKind) := [(lit "NULL", TkNull); (lit "TRUE", TkTrue); (lit "FALSE", TkFalse)].

(** The reserved words and the tokens they stand for. *)
Definition WORDS : list (str * TokenKind) := CONSTANTS ++ map (fun e => (e.1, TkKeyword e.2)) KEYWORDS.

Lemma lookup_keyword word k e : KEYWORDS !! k = Some e -> eq_ignore_ascii_case e.1 word = true -> lookup_word word = TkKeyword e.2.
Proof.
  intros Hk He. apply eq_ignore_key in He. unfold lookup_word.
  assert (forall c, In c (map fst CONSTANTS) -> eq_ignore_ascii_case word c = false) as Hc.
  { intros c Hin. apply not_true_iff_false. intros Ec%eq_ignore_key. rewrite <- He in Ec.
    assert (forallb (fun e => forallb (fun c => negb (bool_decide (map to_ascii_uppercase (as_bytes e.1) = map to_ascii_uppercase (as_bytes c)))) (map fst CONSTANTS)) KEYWORDS = true) as Hall by (by vm_compute).
    pose proof (proj1 (forallb_forall _ _) Hall e (proj1 (list_elem_of_In _ _) (list_elem_of_lookup_2 _ _ _ Hk))) as H1. cbn beta in H1.
    pose proof (proj1 (forallb_forall _ _) H1 c Hin) as H2. cbn beta in H2. apply negb_true_iff, bool_decide_eq_false in H2. done. }
  rewrite !Hc by (cbn; tauto). rewrite (keyword_found k e word Hk He), Hk. by destruct e.
Qed.
Lemma eq_ignore_sym a b : eq_ignore_ascii_case a b = eq_ignore_ascii_case b a.
Proof. apply eq_true_iff_eq. rewrite !eq_ignore_key. done. Qed.

Lemma find_map {A B} (f : A -> B) pred l : find pred (map f l) = f <$> find (fun x => pred (f x)) l.
Proof. induction l as [|x l IH]; [done|]. cbn. by destruct (pred (f x)). Qed.

(** ** Ends *)

Lemma loop_ends fuel : forall t, (length (tk_rest t) < fuel)%nat -> exists body sp, tokenize_loop fuel t = body ++ [MkToken TkEof sp] /\ Forall (fun tok => is_eof (tok_kind tok) = false) body.
Proof.
  induction fuel as [|fuel IH]; intros t Hf; [lia|]. cbn [tokenize_loop]. unfold next_token, skip_trivia.
  pose proof (skip_trivia_eats (S (length (tk_rest t))) t) as Ht.
  assert (forall k sp w t', is_eof k = false -> eats t w t' -> w <> [] -> exists body sp', MkToken k sp :: tokenize_loop fuel t' = body ++ [MkToken TkEof sp'] /\ Forall (fun tok => is_eof (tok_kind tok) = false) body) as Hstep.
  { intros k sp w t' Hk [E _] Hw. destruct (IH t') as (body & sp' & -> & Hall); [rewrite E, length_app in Hf; destruct w; [done|]; cbn in Hf; lia|].
    exists (MkToken k sp :: body), sp'. split; [done|by constructor]. }
  destruct (skip_trivia_loop _ t) as [[e|] t1].
  - destruct Ht as (-> & _ & w & body & _ & _ & He). cbn [tok_kind is_eof]. by eapply Hstep; [done|done|destruct w].
  - destruct Ht as [(w & _ & He) _]. destruct (peek_char t1) as [c|] eqn:Ep.
    + apply peek_cons in Ep as [r Er]. destruct (token_scans t1 c r Er) as (v & Hv & He1 & Hk). destruct (scan_token t1 c) as [k t2]. cbn [fst snd tok_kind] in *. rewrite Hk.
      eapply Hstep; [done|by eapply eats_app|by destruct w, v].
    + cbn [tok_kind is_eof]. exists [], (span_from t1 t1). split; [done|constructor].
Qed.

(** ** Theorems *)

(** C18. The tokens of a source, with the trivia between them, make up the whole
    source in order; each token's span gives its line, its column in
    characters, and the offset and length of its text in bytes; no token text
    starts with a space or a comment; and an unterminated comment is one error
    token before the end, whose span reaches from the comment's start, or from
    a point in the trivia right before it, to the end of the source. *)
Theorem tokens_partition_source src : blen src < 2 ^ 32 - 1 -> laid_out [] src (tokenize src).
Proof. intros Hb. apply (loop_laid (S (length src)) (new_tokenizer src) []); [done|done|cbn; lia]. Qed.

(** The span of an unterminated comment after two spaces starts at the spaces:
    the position is taken before the trivia is skipped. *)
Theorem unterminated_comment_span :
  tokenize (lit "  /* x") = [MkToken (TkError LeUnterminatedComment) (span_at [] (lit "  /* x")); MkToken TkEof (span_at (lit "  /* x") [])].
Proof. by vm_compute. Qed.

(** Scanning ends on every source, however malformed, with exactly one end
    token, the last. *)
Theorem tokenize_ends_in_eof src : exists body sp, tokenize src = body ++ [MkToken TkEof sp] /\ Forall (fun tok => is_eof (tok_kind tok) = false) body.
Proof. apply loop_ends. cbn. lia. Qed.


(** The binary search over the sorted keyword table, and the three constants
    tested before it, give what a search of the whole list of reserved words
    gives, letters compared without regard to case. *)
Theorem lookup_word_is_linear_search word : lookup_word word = match find (fun e => eq_ignore_ascii_case e.1 word) WORDS with Some (_, k) => k | None => TkIdentifier word end.
Proof.
  destruct (find (fun e => eq_ignore_ascii_case e.1 word) (map (fun e => (e.1, TkKeyword e.2)) KEYWORDS)) as [[n k]|] eqn:Ek.
  - rewrite find_map in Ek. destruct (find _ KEYWORDS) as [e|] eqn:Ef; [|done]. injection Ek as <- <-. apply find_some in Ef as [Hin He].
    apply list_elem_of_In, list_elem_of_lookup in Hin as [i Hi]. pose proof (lookup_keyword word i e Hi He) as Hl. pose proof Hl as Hl'. rewrite Hl.
    unfold WORDS, CONSTANTS. cbn [app find fst snd]. unfold lookup_word in Hl. rewrite !(eq_ignore_sym word) in Hl.
    repeat (case_match; [congruence|]). rewrite find_map. cbn [fst snd]. destruct (find _ KEYWORDS) as [e'|] eqn:Ef'; cbn.
    + apply find_some in Ef' as [Hin' He']. apply list_elem_of_In, list_elem_of_lookup in Hin' as [j Hj]. pose proof (lookup_keyword word j e' Hj He'). congruence.
    + pose proof (find_none _ _ Ef' e (proj1 (list_elem_of_In _ _) (list_elem_of_lookup_2 _ _ _ Hi))) as Hn. cbn beta in Hn. cbn [fst] in He. congruence.
  - unfold WORDS, CONSTANTS, lookup_word. cbn [app find fst snd]. rewrite Ek, !(eq_ignore_sym word). repeat (case_match; [done|]).
    destruct (binary_search_by _ _ _ _ _) as [k|] eqn:Eb; [|done]. exfalso. apply search_eq in Eb as (e & Hk & He).
    pose proof (find_none _ _ Ek (e.1, TkKeyword e.2)) as Hn. cbn [fst] in Hn.
    assert (eq_ignore_ascii_case e.1 word = true) as H' by (apply eq_ignore_key, list_cmp_eq, He). rewrite H' in Hn. discriminate Hn.
    apply list_elem_of_In, list_elem_of_In, (in_map (fun e => (e.1, TkKeyword e.2))), list_elem_of_In. by eapply list_elem_of_lookup_2.
Qed.
End Properties.

(** ** Witnesses *)

#[local] Instance ascii_letters : Unicode := {| unicode_alphabetic := fun _ => false; unicode_numeric := fun _ => false |}.

Lemma tokens_partition_source_witness : laid_out [] (lit "SELECT 'é' -- c
 ;") (tokenize (lit "SELECT 'é' -- c
 ;")).
Proof. apply tokens_partition_source. vm_compute. reflexivity. Defined.

