(* ===== verification/Ast.v ===== *)
(** * The syntax trees of SQL statements ([src/parser/ast.rs])

    One constructor per variant, one field per field.  Every node the parser
    builds carries the span of its source. *)

From stdpp Require Import prelude list numbers.
From Stdlib Require Import ZArith Lia.
From S2P Require Import Prelude Varint Text Record Float ValueOrder Format Coerce Tokenizer.

Local Open Scope Z_scope.

Inductive Distinctness : Type := DDistinct | DAll.
Inductive CompoundOp : Type := CoUnionAll | CoUnion.
Inductive JoinOp : Type := JInner | JLeft | JCross | JRight | JFull.
Inductive UnaryOp : Type := UNot | UPlus | UMinus | UBitNot.
Inductive BinaryOp : Type :=
  | BOr | BAnd | BEq | BNe | BLt | BLe | BGt | BGe | BBitAnd | BBitOr | BShl | BShr | BAdd | BSub | BMul | BDiv | BMod | BConcat.
Inductive ConflictAction : Type := CReplace | CIgnore | CAbort | CRollback | CFail.

Inductive Literal : Type :=
  | LInteger (v : Z) | LFloat (bits : Z) | LStr (s : str) | LBlob (b : list Z) | LNull | LTrue | LFalse.

Inductive ParamKind : Type := PkAnonymous | PkNumbered (n : Z) | PkColon (s : str) | PkAt (s : str) | PkDollar (s : str).

Inductive Expr : Type := MkExpr (kind : ExprKind) (span : Span)
with ExprKind : Type :=
  | ELiteral (l : Literal)
  | EParam (p : ParamKind)
  | EColumn (table catalog : option str) (name : str)
  | EFunctionCall (name : str) (distinct : bool) (args : FunctionArgs)
  | EUnary (op : UnaryOp) (expr : Expr)
  | EBinary (op : BinaryOp) (lhs rhs : Expr)
  | EIs (lhs rhs : Expr) (negated : bool)
  | EIsNull (expr : Expr) (negated : bool)
  | EBetween (expr lo hi : Expr) (negated : bool)
  | EIn (expr : Expr) (items : list Expr) (negated : bool)
  | ELike (expr pattern : Expr) (glob negated : bool) (escape : option Expr)
  | ECase (operand : option Expr) (whens : list (Expr * Expr)) (else_ : option Expr)
  | ECast (expr : Expr) (type_name : str)
  | ECollate (expr : Expr) (collation : str)
  | EParen (expr : Expr)
  | ESubquery (select : Select)
  | EExists (subquery : Select) (negated : bool)
  | EInSubquery (expr : Expr) (subquery : Select) (negated : bool)
  | EInSubqueryMulti (exprs : list Expr) (subquery : Select) (negated : bool)
with FunctionArgs : Type := FaStar | FaList (args : list Expr)
with Select : Type :=
  MkSelect (with_clause : option WithClause) (distinct : option Distinctness) (columns : list ResultColumn) (from : option FromClause)
    (where_clause : option Expr) (group_by : list Expr) (having : option Expr) (compound : list CompoundSelect)
    (order_by : list OrderingTerm) (limit : option Limit) (span : Span)
with WithClause : Type := MkWith (ctes : list CommonTableExpr) (span : Span)
with CommonTableExpr : Type := MkCte (name : str) (columns : option (list str)) (query : Select) (span : Span)
with CompoundSelect : Type :=
  MkCompound (op : CompoundOp) (distinct : option Distinctness) (columns : list ResultColumn) (from : option FromClause)
    (where_clause : option Expr) (group_by : list Expr) (having : option Expr) (span : Span)
with ResultColumn : Type := RcStar | RcTableStar (table : str) | RcExpr (expr : Expr) (alias : option str)
with TableRef : Type := MkTableRef (kind : TableRefKind) (alias : option str) (span : Span)
with TableRefKind : Type := TrName (name : str) | TrSubquery (select : Select)
with FromClause : Type := MkFrom (first : TableRef) (joins : list Join)
with Join : Type := MkJoin (op : JoinOp) (table : TableRef) (constraint : option JoinConstraint) (natural : bool)
with JoinConstraint : Type := JcOn (e : Expr) | JcUsing (columns : list str)
with OrderingTerm : Type := MkOrdering (expr : Expr) (desc : option bool) (nulls_last : option bool)
with Limit : Type := MkLimit (limit : Expr) (offset : option Expr).

Definition e_kind (e : Expr) : ExprKind := let 'MkExpr kind _ := e in kind.
Definition e_span (e : Expr) : Span := let 'MkExpr _ span := e in span.
Definition sel_span (s : Select) : Span := let 'MkSelect _ _ _ _ _ _ _ _ _ _ span := s in span.
Definition with_span (w : WithClause) : Span := let 'MkWith _ span := w in span.
Definition cte_span (c : CommonTableExpr) : Span := let 'MkCte _ _ _ span := c in span.

Record Explain := MkExplain { ex_query_plan : bool; ex_select : Select }.

Record Assignment := MkAssignment { as_columns : list str; as_value : Expr }.
Record Update := MkUpdate {
  up_or_action : option ConflictAction; up_table : str; up_assignments : list Assignment; up_where : option Expr; up_span : Span }.

Inductive InsertSource : Type := IsValues (rows : list (list Expr)) | IsSelect (select : Select) | IsDefaultValues.
Record Insert := MkInsert {
  in_or_action : option ConflictAction; in_table : str; in_columns : option (list str); in_source : InsertSource; in_span : Span }.

Record Delete := MkDelete { de_table : str; de_where : option Expr; de_span : Span }.

Record IndexedColumn := MkIndexedColumn { ic_expr : Expr; ic_desc : option bool }.
Inductive DefaultValue : Type := DvLiteral (e : Expr) | DvParen (e : Expr).
Inductive ColumnConstraint : Type :=
  | CcNotNull | CcPrimaryKey (desc : option bool) (autoincrement : bool) | CcUnique | CcDefault (v : DefaultValue) | CcCheck (e : Expr) | CcCollate (name : str).
Inductive TableConstraint : Type := TcPrimaryKey (cols : list IndexedColumn) | TcUnique (cols : list IndexedColumn) | TcCheck (e : Expr).
Record ColumnDef := MkColumnDef { cd_name : str; cd_type : option str; cd_constraints : list ColumnConstraint }.
Record CreateTable := MkCreateTable {
  ct_if_not_exists : bool; ct_name : str; ct_columns : list ColumnDef; ct_constraints : list TableConstraint;
  ct_without_rowid : bool; ct_strict : bool; ct_span : Span }.
Record CreateIndex := MkCreateIndex {
  ci_unique : bool; ci_if_not_exists : bool; ci_name : str; ci_table : str; ci_columns : list IndexedColumn; ci_where : option Expr; ci_span : Span }.
Record CreateView := MkCreateView { cv_if_not_exists : bool; cv_name : str; cv_columns : option (list str); cv_query : Select; cv_span : Span }.
Record DropTable := MkDropTable { dt_if_exists : bool; dt_name : str; dt_span : Span }.
Record DropIndex := MkDropIndex { di_if_exists : bool; di_name : str; di_span : Span }.
Record DropView := MkDropView { dv_if_exists : bool; dv_name : str; dv_span : Span }.

Inductive TransactionMode : Type := TmDeferred | TmImmediate | TmExclusive.
Record Begin := MkBegin { be_mode : option TransactionMode; be_span : Span }.
Record CommitStmt := MkCommitStmt { co_span : Span }.
Record RollbackStmt := MkRollbackStmt { ro_span : Span }.

Inductive PragmaJournalMode : Type := PjWal | PjDelete.
Inductive PragmaSynchronous : Type := PsOff | PsNormal | PsFull.
Inductive Pragma : Type :=
  | PrJournalMode (mode : PragmaJournalMode) (span : Span)
  | PrIntegrityCheck (quick : bool) (span : Span)
  | PrSynchronous (level : option PragmaSynchronous) (span : Span).
Record Analyze := MkAnalyze { an_target : option str; an_span : Span }.
