(* ===== verification/Grammar.v ===== *)
(** * The recursive-descent parser ([src/parser/grammar.rs], [src/parser/error.rs])

    The parser is a state monad with errors over the token vector, the cursor
    and the expression depth.  The grammar's recursion is tied through the
    record [Rec] of the functions that call themselves again after consuming a
    token; [grammar n] unfolds it [n] times.  [PfDiverged] marks the end of
    that unfolding and is no outcome of the code; the parser properties show
    it is never reached. *)

From stdpp Require Import prelude list numbers.
From Stdlib Require Import ZArith Lia.
From S2P Require Import Prelude Varint Text Record Float ValueOrder Format Coerce Tokenizer Ast.

Local Open Scope Z_scope.

(** ** Comparing tokens *)

Definition keyword_num (k : Keyword) : Z :=
  match k with
  | KW_ABORT => 0 | KW_ACTION => 1 | KW_ADD => 2 | KW_AFTER => 3 | KW_ALL => 4 | KW_ALTER => 5 | KW_ALWAYS => 6 | KW_ANALYZE => 7 | KW_AND => 8
  | KW_AS => 9 | KW_ASC => 10 | KW_ATTACH => 11 | KW_AUTOINCREMENT => 12 | KW_BEFORE => 13 | KW_BEGIN => 14 | KW_BETWEEN => 15 | KW_BY => 16
  | KW_CASCADE => 17 | KW_CASE => 18 | KW_CAST => 19 | KW_CHECK => 20 | KW_COLLATE => 21 | KW_COLUMN => 22 | KW_COMMIT => 23 | KW_CONFLICT => 24
  | KW_CONSTRAINT => 25 | KW_CREATE => 26 | KW_CROSS => 27 | KW_CURRENT => 28 | KW_CURRENT_DATE => 29 | KW_CURRENT_TIME => 30
  | KW_CURRENT_TIMESTAMP => 31 | KW_DATABASE => 32 | KW_DEFAULT => 33 | KW_DEFERRABLE => 34 | KW_DEFERRED => 35 | KW_DELETE => 36 | KW_DESC => 37
  | KW_DETACH => 38 | KW_DISTINCT => 39 | KW_DO => 40 | KW_DROP => 41 | KW_EACH => 42 | KW_ELSE => 43 | KW_END => 44 | KW_ESCAPE => 45
  | KW_EXCEPT => 46 | KW_EXCLUDE => 47 | KW_EXCLUSIVE => 48 | KW_EXISTS => 49 | KW_EXPLAIN => 50 | KW_FAIL => 51 | KW_FILTER => 52 | KW_FIRST => 53
  | KW_FOLLOWING => 54 | KW_FOR => 55 | KW_FOREIGN => 56 | KW_FROM => 57 | KW_FULL => 58 | KW_GENERATED => 59 | KW_GLOB => 60 | KW_GROUP => 61
  | KW_GROUPS => 62 | KW_HAVING => 63 | KW_IF => 64 | KW_IGNORE => 65 | KW_IMMEDIATE => 66 | KW_IN => 67 | KW_INDEX => 68 | KW_INDEXED => 69
  | KW_INITIALLY => 70 | KW_INNER => 71 | KW_INSERT => 72 | KW_INSTEAD => 73 | KW_INTERSECT => 74 | KW_INTO => 75 | KW_IS => 76 | KW_ISNULL => 77
  | KW_JOIN => 78 | KW_KEY => 79 | KW_LAST => 80 | KW_LEFT => 81 | KW_LIKE => 82 | KW_LIMIT => 83 | KW_MATCH => 84 | KW_MATERIALIZED => 85
  | KW_NATURAL => 86 | KW_NO => 87 | KW_NOT => 88 | KW_NOTHING => 89 | KW_NOTNULL => 90 | KW_NULLS => 91 | KW_OF => 92 | KW_OFFSET => 93
  | KW_ON => 94 | KW_OR => 95 | KW_ORDER => 96 | KW_OTHERS => 97 | KW_OUTER => 98 | KW_OVER => 99 | KW_PARTITION => 100 | KW_PLAN => 101
  | KW_PRAGMA => 102 | KW_PRECEDING => 103 | KW_PRIMARY => 104 | KW_QUERY => 105 | KW_RAISE => 106 | KW_RANGE => 107 | KW_RECURSIVE => 108
  | KW_REFERENCES => 109 | KW_REGEXP => 110 | KW_REINDEX => 111 | KW_RELEASE => 112 | KW_RENAME => 113 | KW_REPLACE => 114 | KW_RESTRICT => 115
  | KW_RETURNING => 116 | KW_RIGHT => 117 | KW_ROLLBACK => 118 | KW_ROW => 119 | KW_ROWS => 120 | KW_SAVEPOINT => 121 | KW_SELECT => 122
  | KW_SET => 123 | KW_TABLE => 124 | KW_TEMP => 125 | KW_TEMPORARY => 126 | KW_THEN => 127 | KW_TIES => 128 | KW_TO => 129 | KW_TRANSACTION => 130
  | KW_TRIGGER => 131 | KW_UNBOUNDED => 132 | KW_UNION => 133 | KW_UNIQUE => 134 | KW_UPDATE => 135 | KW_USING => 136 | KW_VACUUM => 137
  | KW_VALUES => 138 | KW_VIEW => 139 | KW_VIRTUAL => 140 | KW_WHEN => 141 | KW_WHERE => 142 | KW_WINDOW => 143 | KW_WITH => 144 | KW_WITHOUT => 145
  end.

Definition keyword_eqb (a b : Keyword) : bool := keyword_num a =? keyword_num b.

Definition param_eqb (a b : Param) : bool :=
  match a, b with
  | PAnonymous, PAnonymous => true
  | PNumbered m, PNumbered n => m =? n
  | PColon x, PColon y | PAt x, PAt y | PDollar x, PDollar y => bool_decide (x = y)
  | _, _ => false
  end.

(** [==] on token kinds; error tokens are never compared. *)
Definition kind_eqb (a b : TokenKind) : bool :=
  match a, b with
  | TkInteger m, TkInteger n => m =? n
  | TkFloat x, TkFloat y => negb (f64_is_nan x) && negb (f64_is_nan y) && (f64_num x =? f64_num y)
  | TkString x, TkString y | TkIdentifier x, TkIdentifier y => bool_decide (x = y)
  | TkBlob x, TkBlob y => bool_decide (x = y)
  | TkKeyword x, TkKeyword y => keyword_eqb x y
  | TkParam x, TkParam y => param_eqb x y
  | TkNull, TkNull | TkTrue, TkTrue | TkFalse, TkFalse | TkStar, TkStar | TkComma, TkComma | TkSemicolon, TkSemicolon
  | TkLParen, TkLParen | TkRParen, TkRParen | TkDot, TkDot | TkPlus, TkPlus | TkMinus, TkMinus | TkSlash, TkSlash
  | TkPercent, TkPercent | TkEq, TkEq | TkNe, TkNe | TkLt, TkLt | TkLe, TkLe | TkGt, TkGt | TkGe, TkGe | TkConcat, TkConcat
  | TkArrow, TkArrow | TkArrowArrow, TkArrowArrow | TkBitAnd, TkBitAnd | TkBitOr, TkBitOr | TkBitNot, TkBitNot
  | TkShl, TkShl | TkShr, TkShr | TkEof, TkEof => true
  | _, _ => false
  end.

(** [{:?}] of a keyword. *)
Definition keyword_debug (k : Keyword) : str :=
  match find (fun e => keyword_eqb e.2 k) KEYWORDS with Some (name, _) => name | None => [] end.

Definition is_kw (kind : TokenKind) (kw : Keyword) : bool := match kind with TkKeyword k => keyword_eqb k kw | _ => false end.
Definition is_ident (kind : TokenKind) : bool := match kind with TkIdentifier _ => true | _ => false end.
Definition is_word (kind : TokenKind) (word : str) : bool := match kind with TkIdentifier id => eq_ignore_ascii_case id word | _ => false end.

(** ** Failures *)

(** The messages, with what they quote. *)
Inductive Message : Type :=
| MText (text : str)
| MExpectedKw (kw : Keyword) (found : TokenKind)
| MExpected (what : str) (found : TokenKind)
| MTrailing (found : TokenKind)
| MPragma (name : str).

Inductive ParseFail : Type := PfUnsupported (m : Message) (span : Span) | PfInvalid (m : Message) (span : Span) | PfDiverged.

(** ** The parser's state *)

Record Parser := MkParser { tokens : list Token; pos : nat; depth : nat }.

Abbreviation P := (M Parser ParseFail).

Definition MAX_EXPR_DEPTH : nat := 200.

Definition join_span (a b : Span) : Span :=
  MkSpan (sp_line a) (sp_column a) (sp_offset a) (sat_sub (sat_add32 (sp_offset b) (sp_len b)) (sp_offset a)).

Definition new_parser (tokens : list Token) : Parser := MkParser tokens 0 0.

Definition EOF_TOKEN : Token := MkToken TkEof (MkSpan 1 1 0 0).

Definition peek_at (s : Parser) (offset : nat) : Token :=
  match tokens s !! (pos s + offset)%nat with
  | Some t => t
  | None => match list.last (tokens s) with Some t => t | None => EOF_TOKEN end
  end.
Definition peek (s : Parser) : Token := peek_at s 0.
Definition kind_at (s : Parser) (offset : nat) : TokenKind := tok_kind (peek_at s offset).

(** The tokens not yet consumed. *)
Definition remaining (s : Parser) : nat := (length (tokens s) - pos s)%nat.

Definition diverged {A} : P A := lift (Err PfDiverged).

(** A loop, unfolded as often as there are tokens left. *)
Definition fueled {A} (f : nat -> P A) : P A := fun s => f (S (remaining s)) s.
(** [match self.peek().kind]. *)
Definition by_kind {A} (f : TokenKind -> P A) : P A := fun s => f (kind_at s 0) s.

Definition gets {A} (f : Parser -> A) : P A := fun s => (Ok (f s), s).
Definition fail {A} (f : Span -> ParseFail) : P A := fun s => (Err (f (tok_span (peek s))), s).
Definition invalid {A} (message : Message) : P A := fail (PfInvalid message).
Definition unsupported {A} (message : Message) : P A := fail (PfUnsupported message).

Definition with_depth_guard {A} (f : P A) : P A := fun s =>
  let s := MkParser (tokens s) (pos s) (S (depth s)) in
  if (MAX_EXPR_DEPTH <? depth s)%nat then invalid (MText (lit "expression nesting too deep")) (MkParser (tokens s) (pos s) (depth s - 1))
  else let '(result, s) := f s in (result, MkParser (tokens s) (pos s) (depth s - 1)).

Definition advance : P Token := fun s =>
  let tok := peek s in
  (Ok tok, if is_eof (tok_kind tok) then s else MkParser (tokens s) (S (pos s)) (depth s)).
Definition advance_span : P Span := tok ← advance; mret (tok_span tok).

Definition at_kw (s : Parser) (kw : Keyword) : bool := is_kw (kind_at s 0) kw.
Definition at_kind (s : Parser) (kind : TokenKind) : bool := kind_eqb (kind_at s 0) kind.

(** Consuming the current token when it satisfies a test. *)
Definition eat (test : Parser -> bool) : P bool := fun s => if test s then (_ ← advance; mret true) s else (Ok false, s).
Definition eat_kw (kw : Keyword) : P bool := eat (fun s => at_kw s kw).
Definition eat_punct (kind : TokenKind) : P bool := eat (fun s => at_kind s kind).
Definition eat_contextual_kw (word : str) : P bool := eat (fun s => is_word (kind_at s 0) word).

Definition expect (test : Parser -> bool) (message : TokenKind -> Message) : P Span := fun s =>
  if test s then advance_span s else invalid (message (kind_at s 0)) s.
Definition expect_kw (kw : Keyword) : P Span := expect (fun s => at_kw s kw) (MExpectedKw kw).
Definition expect_punct (kind : TokenKind) (what : str) : P Span := expect (fun s => at_kind s kind) (MExpected what).

Definition opt_kw_span (kw : Keyword) : P (option Span) := fun s =>
  if at_kw s kw then (span ← advance_span; mret (Some span)) s else (Ok None, s).

(** [self.tokens.get(self.pos.saturating_sub(1)).map_or(start, |t| t.span)]. *)
Definition prev_span (start : Span) : P Span := gets (fun s => match tokens s !! (pos s - 1)%nat with Some t => tok_span t | None => start end).

(** [while self.eat_punct(&TokenKind::Semicolon) {}]. *)
Fixpoint skip_semicolons (fuel : nat) : P unit :=
  match fuel with
  | O => diverged
  | S fuel => b ← eat_punct TkSemicolon; if b : bool then skip_semicolons fuel else mret tt
  end.

Definition expect_end : P unit :=
  _ ← fueled skip_semicolons;
  by_kind (fun kind => match kind with
  | TkEof => mret tt
  | TkKeyword KW_UNION | TkKeyword KW_INTERSECT | TkKeyword KW_EXCEPT =>
    unsupported (MText (lit "compound SELECT (UNION/INTERSECT/EXCEPT) not yet supported"))
  | other => invalid (MTrailing other)
  end).

Definition identifier : P (str * Span) :=
  by_kind (fun kind => match kind with
  | TkIdentifier name => span ← advance_span; mret (name, span)
  | found => invalid (MExpected (lit "identifier") found)
  end).

(** [vec![item()?]; while self.eat_punct(&TokenKind::Comma) { push(item()?) }]. *)
Fixpoint comma_list {A} (fuel : nat) (item : P A) (acc : list A) : P (list A) :=
  match fuel with
  | O => diverged
  | S fuel => b ← eat_punct TkComma; if b : bool then x ← item; comma_list fuel item (acc ++ [x]) else mret acc
  end.
Definition comma_separated {A} (item : P A) : P (list A) := x ← item; fueled (fun n => comma_list n item [x]).

Definition name_list : P (list str) := names ← comma_separated identifier; mret (map fst names).

(** [if self.eat_punct(LParen) { names; expect RParen; Some } else { None }]. *)
Definition opt_name_list : P (option (list str)) :=
  b ← eat_punct TkLParen;
  if b : bool then cols ← name_list; _ ← expect_punct TkRParen (lit "')'"); mret (Some cols) else mret None.

(** [ASC], [DESC] or neither. *)
Definition opt_direction : P (option bool) :=
  asc ← eat_kw KW_ASC;
  if asc : bool then mret (Some false) else desc ← eat_kw KW_DESC; mret (if desc : bool then Some true else None).

Definition conflict_action : P ConflictAction :=
  b ← eat_kw KW_REPLACE; if b : bool then mret CReplace else
  b ← eat_kw KW_IGNORE; if b : bool then mret CIgnore else
  b ← eat_kw KW_ABORT; if b : bool then mret CAbort else
  b ← eat_kw KW_ROLLBACK; if b : bool then mret CRollback else
  b ← eat_kw KW_FAIL; if b : bool then mret CFail else
  invalid (MText (lit "expected REPLACE, IGNORE, ABORT, ROLLBACK, or FAIL after OR")).

Definition opt_conflict_action : P (option ConflictAction) :=
  b ← eat_kw KW_OR; if b : bool then a ← conflict_action; mret (Some a) else mret None.

Definition opt_if_not_exists : P bool :=
  b ← eat_kw KW_IF; if b : bool then _ ← expect_kw KW_NOT; _ ← expect_kw KW_EXISTS; mret true else mret false.
Definition opt_if_exists : P bool :=
  b ← eat_kw KW_IF; if b : bool then _ ← expect_kw KW_EXISTS; mret true else mret false.

(** [if cond { return self.unsupported(message) }]. *)
Definition refuse_if (test : Parser -> bool) (message : str) : P unit :=
  b ← gets test; if b : bool then unsupported (MText message) else mret tt.

Definition check_no_schema_qualifier : P unit := refuse_if (fun s => at_kind s TkDot) (lit "schema-qualified names not yet supported").
Definition check_no_conflict_clause : P unit :=
  refuse_if (fun s => at_kw s KW_ON && is_kw (kind_at s 1) KW_CONFLICT) (lit "ON CONFLICT resolution clause not yet supported").
Definition at_compound (s : Parser) : bool := at_kw s KW_UNION || at_kw s KW_INTERSECT || at_kw s KW_EXCEPT.
Definition check_no_compound : P unit := refuse_if at_compound (lit "compound SELECT (UNION/INTERSECT/EXCEPT) not yet supported").

Definition number_literal : P str :=
  by_kind (fun kind => match kind with
  | TkInteger v => _ ← advance; mret (to_string v)
  | found => invalid (MExpected (lit "number") found)
  end).

Fixpoint type_words (fuel : nat) (acc : str) : P str :=
  match fuel with
  | O => diverged
  | S fuel =>
    more ← gets (fun s => is_ident (kind_at s 0));
    if more : bool then part ← identifier; type_words fuel (acc ++ [32] ++ part.1) else mret acc
  end.

Definition type_name : P str :=
  first ← identifier;
  name ← fueled (fun n => type_words n first.1);
  b ← eat_punct TkLParen;
  if b : bool then
    n1 ← number_literal;
    c ← eat_punct TkComma;
    size ← (if c : bool then n2 ← number_literal; mret (n1 ++ lit ", " ++ n2) else mret n1);
    _ ← expect_punct TkRParen (lit "')' to close type size");
    mret (name ++ lit "(" ++ size ++ lit ")")
  else mret name.

Definition bin (op : BinaryOp) (lhs rhs : Expr) : Expr := MkExpr (EBinary op lhs rhs) (join_span (e_span lhs) (e_span rhs)).

Definition binary_op (kind : TokenKind) : option (BinaryOp * Z) :=
  match kind with
  | TkLt => Some (BLt, 1) | TkLe => Some (BLe, 1) | TkGt => Some (BGt, 1) | TkGe => Some (BGe, 1)
  | TkBitAnd => Some (BBitAnd, 2) | TkBitOr => Some (BBitOr, 2) | TkShl => Some (BShl, 2) | TkShr => Some (BShr, 2)
  | TkPlus => Some (BAdd, 3) | TkMinus => Some (BSub, 3)
  | TkStar => Some (BMul, 4) | TkSlash => Some (BDiv, 4) | TkPercent => Some (BMod, 4)
  | TkConcat => Some (BConcat, 5)
  | _ => None
  end.

Definition opt_alias : P (option str) :=
  b ← eat_kw KW_AS;
  if b : bool then
    _ ← refuse_if (fun s => match kind_at s 0 with TkString _ => true | _ => false end) (lit "a quoted string literal as an alias (e.g. AS 'name') is not yet supported");
    name ← identifier; mret (Some name.1)
  else by_kind (fun kind => match kind with TkIdentifier name => _ ← advance; mret (Some name) | _ => mret None end).

Definition using_columns : P (list str) :=
  _ ← expect_kw KW_USING;
  _ ← expect_punct TkLParen (lit "'(' after USING");
  cols ← name_list;
  _ ← expect_punct TkRParen (lit "')' to close USING column list");
  mret cols.

(** The literal a token stands for. *)
Definition token_literal (kind : TokenKind) : option Literal :=
  match kind with
  | TkInteger v => Some (LInteger v) | TkFloat v => Some (LFloat v) | TkString s => Some (LStr s) | TkBlob b => Some (LBlob b)
  | TkNull => Some LNull | TkTrue => Some LTrue | TkFalse => Some LFalse | _ => None
  end.
Definition is_current_time (kind : TokenKind) : bool := is_kw kind KW_CURRENT_TIME || is_kw kind KW_CURRENT_DATE || is_kw kind KW_CURRENT_TIMESTAMP.

Definition literal_value : P Expr :=
  by_kind (fun kind => match token_literal kind with
  | Some l => span ← advance_span; mret (MkExpr (ELiteral l) span)
  | None =>
    if is_current_time kind then unsupported (MText (lit "CURRENT_TIME/CURRENT_DATE/CURRENT_TIMESTAMP not yet supported"))
    else invalid (MText (lit "expected literal value after DEFAULT"))
  end).

(** ** The grammar *)

(** The functions that call themselves again once a token was consumed. *)
Record Rec := MkRec {
  r_expr : P Expr; r_bool_expr : Z -> P Expr; r_not_expr : P Expr; r_binary_expr : Z -> P Expr; r_unary_expr : P Expr; r_select : P Select }.

Definition diverging : Rec := MkRec diverged (fun _ => diverged) diverged (fun _ => diverged) diverged diverged.

Section Grammar.
Context (self : Rec).

Definition expr_list : P (list Expr) := comma_separated (r_expr self).

(** [Some(self.expr()?)] behind a keyword. *)
Definition opt_clause (kw : Keyword) : P (option Expr) :=
  b ← eat_kw kw; if b : bool then e ← r_expr self; mret (Some e) else mret None.

(** A parenthesised SELECT after its opening parenthesis. *)
Definition subquery_tail (what : str) : P (Select * Span) :=
  subquery ← r_select self;
  _ ← check_no_compound;
  end_ ← expect_punct TkRParen what;
  mret (subquery, end_).

Definition exists_tail (start : Span) (negated : bool) : P Expr :=
  _ ← expect_punct TkLParen (lit "'(' after EXISTS");
  _ ← refuse_if (fun s => negb (at_kw s KW_SELECT)) (lit "EXISTS ( ... ) requires a SELECT subquery");
  q ← subquery_tail (lit "')' to close EXISTS subquery");
  mret (MkExpr (EExists q.1 negated) (join_span start q.2)).

(** *** Primary expressions *)

Definition function_call (name : str) (start : Span) : P Expr :=
  _ ← expect_punct TkLParen (lit "'(' after function name");
  distinct ← eat_kw KW_DISTINCT;
  star ← eat_punct TkStar;
  args ← (if star : bool then mret FaStar
          else by_kind (fun kind => match kind with TkRParen => mret (FaList []) | _ => l ← expr_list; mret (FaList l) end));
  end_ ← expect_punct TkRParen (lit "')' to close function call");
  _ ← refuse_if (fun s => at_kw s KW_OVER || at_kw s KW_FILTER) (lit "window functions (OVER/FILTER) not yet supported");
  mret (MkExpr (EFunctionCall name distinct args)
    (join_span start (MkSpan (sp_line end_) (sp_column end_) (sp_offset end_) (Z.max (sp_len end_) 1)))).

Fixpoint when_loop (fuel : nat) (whens : list (Expr * Expr)) : P (list (Expr * Expr)) :=
  match fuel with
  | O => diverged
  | S fuel =>
    b ← eat_kw KW_WHEN;
    if b : bool then
      cond ← r_expr self;
      _ ← expect_kw KW_THEN;
      res ← r_expr self;
      when_loop fuel (whens ++ [(cond, res)])
    else mret whens
  end.

Definition case_expr : P Expr :=
  start ← advance_span;
  at_when ← gets (fun s => at_kw s KW_WHEN);
  operand ← (if at_when : bool then mret None else e ← r_expr self; mret (Some e));
  whens ← fueled (fun n => when_loop n []);
  match whens with
  | [] => invalid (MText (lit "expected WHEN in CASE expression"))
  | _ =>
    else_ ← opt_clause KW_ELSE;
    end_ ← expect_kw KW_END;
    mret (MkExpr (ECase operand whens else_) (join_span start end_))
  end.

Definition cast_expr : P Expr :=
  start ← advance_span;
  _ ← expect_punct TkLParen (lit "'(' after CAST");
  inner ← r_expr self;
  _ ← expect_kw KW_AS;
  type ← type_name;
  end_ ← expect_punct TkRParen (lit "')' to close CAST");
  mret (MkExpr (ECast inner type) (join_span start end_)).

(** [while matches!(self.peek().kind, TokenKind::Dot) && parts.len() < 3]. *)
Fixpoint dotted_parts (room : nat) (parts : list str) : P (list str) :=
  match room with
  | O => mret parts
  | S room =>
    dot ← gets (fun s => at_kind s TkDot);
    if dot : bool then _ ← advance; part ← identifier; dotted_parts room (parts ++ [part.1]) else mret parts
  end.

Definition column_kind (parts : list str) : ExprKind :=
  match parts with
  | [name] => EColumn None None name
  | [table; name] => EColumn (Some table) None name
  | catalog :: table :: name :: _ => EColumn (Some table) (Some catalog) name
  | [] => EColumn None None []
  end.

Definition column_ref (name : str) (start : Span) : P Expr :=
  parts ← dotted_parts 2 [name];
  end_ ← prev_span start;
  mret (MkExpr (column_kind parts) (join_span start end_)).

Definition paren_expr (start : Span) : P Expr :=
  sub ← gets (fun s => at_kw s KW_SELECT);
  if sub : bool then
    q ← subquery_tail (lit "')' to close subquery");
    mret (MkExpr (ESubquery q.1) (join_span start q.2))
  else
    inner ← r_expr self;
    end_ ← expect_punct TkRParen (lit "')' to close expression");
    mret (MkExpr (EParen inner) (join_span start end_)).

Definition param_kind (p : Param) : ParamKind :=
  match p with PAnonymous => PkAnonymous | PNumbered n => PkNumbered n | PColon s => PkColon s | PAt s => PkAt s | PDollar s => PkDollar s end.

Definition primary_expr : P Expr :=
  by_kind (fun kind =>
  match token_literal kind with
  | Some l => span ← advance_span; mret (MkExpr (ELiteral l) span)
  | None =>
    match kind with
    | TkParam p => span ← advance_span; mret (MkExpr (EParam (param_kind p)) span)
    | TkIdentifier name =>
      span ← advance_span;
      call ← gets (fun s => at_kind s TkLParen);
      if call : bool then function_call name span else column_ref name span
    | TkKeyword kw =>
      if is_current_time kind then unsupported (MText (lit "CURRENT_TIME/CURRENT_DATE/CURRENT_TIMESTAMP not yet supported"))
      else match kw with
      | KW_CASE => case_expr
      | KW_CAST => cast_expr
      | KW_EXISTS => start ← advance_span; exists_tail start false
      | _ =>
        call ← gets (fun s => kind_eqb (kind_at s 1) TkLParen);
        if call : bool then span ← advance_span; function_call (keyword_debug kw) span
        else invalid (MExpected (lit "column or expression") kind)
      end
    | TkLParen => start ← advance_span; paren_expr start
    | other => invalid (MExpected (lit "column or expression") other)
    end
  end).

(** *** Operators *)

Definition unary_op (kind : TokenKind) : option UnaryOp :=
  match kind with TkPlus => Some UPlus | TkMinus => Some UMinus | TkBitNot => Some UBitNot | _ => None end.

(** The negation of a literal, [-9223372036854775808] folded to an integer. *)
Definition negate_literal (op : UnaryOp) (inner : Expr) : ExprKind :=
  match op, e_kind inner with
  | UMinus, ELiteral (LFloat f) => if f =? F64_TWO63 then ELiteral (LInteger I64_MIN) else EUnary op inner
  | _, _ => EUnary op inner
  end.

Definition unary_expr : P Expr := with_depth_guard (
  by_kind (fun kind =>
  match unary_op kind with
  | Some op =>
    start ← advance_span;
    inner ← r_unary_expr self;
    mret (MkExpr (negate_literal op inner) (join_span start (e_span inner)))
  | None => primary_expr
  end)).

Fixpoint collate_loop (fuel : nat) (lhs : Expr) : P Expr :=
  match fuel with
  | O => diverged
  | S fuel =>
    b ← eat_kw KW_COLLATE;
    if b : bool then name ← identifier; collate_loop fuel (MkExpr (ECollate lhs name.1) (join_span (e_span lhs) name.2)) else mret lhs
  end.

Definition collate_expr : P Expr := lhs ← unary_expr; fueled (fun n => collate_loop n lhs).

Definition arrow_expr : P Expr :=
  lhs ← collate_expr;
  _ ← refuse_if (fun s => at_kind s TkArrow || at_kind s TkArrowArrow) (lit "-> / ->> operators not yet supported");
  mret lhs.

Fixpoint binary_loop (fuel : nat) (min_prec : Z) (lhs : Expr) : P Expr :=
  match fuel with
  | O => diverged
  | S fuel =>
    by_kind (fun kind =>
    match binary_op kind with
    | None => mret lhs
    | Some (op, prec) =>
      if prec <? min_prec then mret lhs
      else _ ← advance; rhs ← r_binary_expr self (prec + 1); binary_loop fuel min_prec (bin op lhs rhs)
    end)
  end.

Definition binary_expr (min_prec : Z) : P Expr := lhs ← arrow_expr; fueled (fun n => binary_loop n min_prec lhs).

(** *** Comparisons *)

Definition between_tail : P (Expr * Expr) :=
  lo ← binary_expr 1;
  _ ← expect_kw KW_AND;
  hi ← binary_expr 1;
  mret (lo, hi).

Definition between_expr (lhs : Expr) (negated : bool) : P Expr :=
  r ← between_tail; mret (MkExpr (EBetween lhs r.1 r.2 negated) (join_span (e_span lhs) (e_span r.2))).

Definition in_tail (lhs : Expr) (negated : bool) : P Expr :=
  _ ← refuse_if (fun s => negb (at_kind s TkLParen)) (lit "IN <table-name> not yet supported");
  _ ← expect_punct TkLParen (lit "'(' after IN");
  sub ← gets (fun s => at_kw s KW_SELECT);
  if sub : bool then
    q ← subquery_tail (lit "')' to close IN subquery");
    mret (MkExpr (EInSubquery lhs q.1 negated) (join_span (e_span lhs) q.2))
  else
    items ← by_kind (fun kind => match kind with TkRParen => mret [] | _ => expr_list end);
    end_ ← expect_punct TkRParen (lit "')' to close IN list");
    mret (MkExpr (EIn lhs items negated) (join_span (e_span lhs) end_)).

Definition like_tail (lhs : Expr) (glob negated : bool) : P Expr :=
  pattern ← binary_expr 1;
  b ← eat_kw KW_ESCAPE;
  let span := join_span (e_span lhs) (e_span pattern) in
  if b : bool then e ← binary_expr 1; mret (MkExpr (ELike lhs pattern glob negated (Some e)) (join_span span (e_span e)))
  else mret (MkExpr (ELike lhs pattern glob negated None) span).

Definition is_null_expr (lhs : Expr) (negated : bool) (end_ : Span) : Expr := MkExpr (EIsNull lhs negated) (join_span (e_span lhs) end_).

(** One round of the loop of [equality_expr]: [None] when it breaks. *)
Definition equality_step (lhs : Expr) : P (option Expr) := fun s =>
  (match kind_at s 0 with
  | TkEq => _ ← advance; rhs ← binary_expr 1; mret (Some (bin BEq lhs rhs))
  | TkNe => _ ← advance; rhs ← binary_expr 1; mret (Some (bin BNe lhs rhs))
  | TkKeyword KW_IS =>
    _ ← advance;
    negated ← eat_kw KW_NOT;
    rhs ← binary_expr 1;
    mret (Some (MkExpr (EIs lhs rhs negated) (join_span (e_span lhs) (e_span rhs))))
  | TkKeyword KW_ISNULL => end_ ← advance_span; mret (Some (is_null_expr lhs false end_))
  | TkKeyword KW_NOTNULL => end_ ← advance_span; mret (Some (is_null_expr lhs true end_))
  | TkKeyword KW_BETWEEN => _ ← advance; e ← between_expr lhs false; mret (Some e)
  | TkKeyword KW_IN => _ ← advance; e ← in_tail lhs false; mret (Some e)
  | TkKeyword KW_LIKE => _ ← advance; e ← like_tail lhs false false; mret (Some e)
  | TkKeyword KW_GLOB => _ ← advance; e ← like_tail lhs true false; mret (Some e)
  | TkKeyword KW_NOT =>
    match kind_at s 1 with
    | TkNull => _ ← advance; end_ ← advance_span; mret (Some (is_null_expr lhs true end_))
    | TkKeyword KW_BETWEEN => _ ← advance; _ ← advance; e ← between_expr lhs true; mret (Some e)
    | TkKeyword KW_IN => _ ← advance; _ ← advance; e ← in_tail lhs true; mret (Some e)
    | TkKeyword KW_LIKE => _ ← advance; _ ← advance; e ← like_tail lhs false true; mret (Some e)
    | TkKeyword KW_GLOB => _ ← advance; _ ← advance; e ← like_tail lhs true true; mret (Some e)
    | _ => mret None
    end
  | _ => mret None
  end) s.

Fixpoint equality_loop (fuel : nat) (lhs : Expr) : P Expr :=
  match fuel with
  | O => diverged
  | S fuel => r ← equality_step lhs; match r with Some e => equality_loop fuel e | None => mret lhs end
  end.

(** [looks_like_tuple_in]: [ts] are the tokens from [idx] on. *)
Fixpoint tuple_in_ahead (ts : list Token) (depth : Z) (saw_top_comma : bool) : bool :=
  match ts with
  | [] => false
  | t :: ts =>
    match tok_kind t with
    | TkEof => false
    | TkLParen => tuple_in_ahead ts (sat_add32 depth 1) saw_top_comma
    | TkRParen =>
      if depth =? 0 then
        let kind_is i kw := match ts !! i with Some t => is_kw (tok_kind t) kw | None => false end in
        saw_top_comma && (kind_is 0%nat KW_IN || (kind_is 0%nat KW_NOT && kind_is 1%nat KW_IN))
      else tuple_in_ahead ts (sat_sub depth 1) saw_top_comma
    | TkComma => tuple_in_ahead ts depth (if depth =? 0 then true else saw_top_comma)
    | _ => tuple_in_ahead ts depth saw_top_comma
    end
  end.
Definition looks_like_tuple_in (s : Parser) : bool := tuple_in_ahead (drop (S (pos s)) (tokens s)) 0 false.

(** The cursor put back. *)
Definition rewind {A} (start : nat) (a : A) : P A := fun s => (Ok a, MkParser (tokens s) start (depth s)).

(** [match f { Ok(x) => Some(x), Err(_) => None }]. *)
Definition attempt {A} (f : P A) : P (option A) := fun s =>
  match f s with
  | (Ok a, s) => (Ok (Some a), s)
  | (Err PfDiverged, s) => (Err PfDiverged, s)
  | (Err _, s) => (Ok None, s)
  end.

Definition tuple_in_select (exprs : list Expr) (negated : bool) (start : Span) : P (option Expr) :=
  _ ← expect_punct TkLParen (lit "'(' after IN");
  _ ← refuse_if (fun s => negb (at_kw s KW_SELECT)) (lit "multi-column IN requires a SELECT subquery on the right-hand side");
  q ← subquery_tail (lit "')' to close IN subquery");
  mret (Some (MkExpr (EInSubqueryMulti exprs q.1 negated) (join_span start q.2))).

(** [IN], [NOT IN] or neither. *)
Definition tuple_negated : P (option bool) := fun s =>
  if at_kw s KW_IN then (_ ← advance; mret (Some false)) s
  else if at_kw s KW_NOT && is_kw (kind_at s 1) KW_IN then (_ ← advance; _ ← advance; mret (Some true)) s
  else (Ok None, s).

Definition try_tuple_in_subquery : P (option Expr) := fun s =>
  if negb (at_kind s TkLParen) || negb (looks_like_tuple_in s) then (Ok None, s)
  else (
    let start_pos := pos s in
    start_span ← advance_span;
    list ← attempt expr_list;
    match list with
    | None => rewind start_pos None
    | Some list =>
      close ← attempt (expect_punct TkRParen (lit "')'"));
      match close with
      | None => rewind start_pos None
      | Some _ =>
        negated ← tuple_negated;
        match negated with
        | None => rewind start_pos None
        | Some negated => if (length list <? 2)%nat then rewind start_pos None else tuple_in_select list negated start_span
        end
      end
    end) s.

Definition equality_expr : P Expr :=
  multi_in ← try_tuple_in_subquery;
  match multi_in with
  | Some e => mret e
  | None => lhs ← binary_expr 1; fueled (fun n => equality_loop n lhs)
  end.

(** *** Logic *)

Definition not_expr : P Expr := with_depth_guard (
  b ← gets (fun s => at_kw s KW_NOT);
  if b : bool then
    start ← advance_span;
    ex ← eat_kw KW_EXISTS;
    if ex : bool then exists_tail start true
    else inner ← r_not_expr self; mret (MkExpr (EUnary UNot inner) (join_span start (e_span inner)))
  else equality_expr).

Fixpoint bool_loop (fuel : nat) (min_prec : Z) (lhs : Expr) : P Expr :=
  match fuel with
  | O => diverged
  | S fuel => fun s =>
    (if at_kw s KW_AND then
      if 1 <? min_prec then mret lhs else _ ← advance; rhs ← not_expr; bool_loop fuel min_prec (bin BAnd lhs rhs)
    else if at_kw s KW_OR then
      if 0 <? min_prec then mret lhs else _ ← advance; rhs ← r_bool_expr self 1; bool_loop fuel min_prec (bin BOr lhs rhs)
    else mret lhs) s
  end.

Definition bool_expr (min_prec : Z) : P Expr := lhs ← not_expr; fueled (fun n => bool_loop n min_prec lhs).

Definition expr : P Expr := with_depth_guard (bool_expr 0).

(** *** SELECT *)

Definition result_column : P ResultColumn :=
  star ← eat_punct TkStar;
  if star : bool then mret RcStar
  else
    table_star ← gets (fun s => match kind_at s 0 with
      | TkIdentifier name => if kind_eqb (kind_at s 1) TkDot && kind_eqb (kind_at s 2) TkStar then Some name else None
      | _ => None
      end);
    match table_star with
    | Some name => _ ← advance; _ ← advance; _ ← advance; mret (RcTableStar name)
    | None => e ← r_expr self; alias ← opt_alias; mret (RcExpr e alias)
    end.

Definition table_ref_subquery : P TableRef :=
  start ← advance_span;
  _ ← refuse_if (fun s => negb (at_kw s KW_SELECT)) (lit "table-valued functions in FROM not yet supported (only a SELECT subquery is)");
  subquery ← r_select self;
  _ ← expect_punct TkRParen (lit "')' to close FROM subquery");
  alias ← opt_alias;
  match alias with
  | None => unsupported (MText (lit "a subquery in FROM requires an alias"))
  | Some alias => end_ ← prev_span start; mret (MkTableRef (TrSubquery subquery) (Some alias) (join_span start end_))
  end.

Definition table_ref : P TableRef :=
  sub ← gets (fun s => at_kind s TkLParen);
  if sub : bool then table_ref_subquery
  else
    name ← identifier;
    _ ← refuse_if (fun s => at_kind s TkDot) (lit "schema-qualified table names not yet supported");
    alias ← opt_alias;
    end_ ← prev_span name.2;
    let span := match alias with Some _ => join_span name.2 end_ | None => name.2 end in
    _ ← refuse_if (fun s => at_kw s KW_INDEXED) (lit "INDEXED BY not yet supported");
    _ ← refuse_if (fun s => at_kw s KW_NOT && is_kw (kind_at s 1) KW_INDEXED) (lit "NOT INDEXED not yet supported");
    _ ← refuse_if (fun s => at_kind s TkLParen) (lit "table-valued functions in FROM not yet supported");
    mret (MkTableRef (TrName name.1) alias span).

Definition opt_using : P (option JoinConstraint) :=
  b ← gets (fun s => at_kw s KW_USING);
  if b : bool then cols ← using_columns; mret (Some (JcUsing cols)) else mret None.

Definition comma_join : P Join :=
  table ← table_ref;
  on ← eat_kw KW_ON;
  constraint ← (if on : bool then e ← r_expr self; mret (Some (JcOn e)) else opt_using);
  mret (MkJoin JCross table constraint false).

Definition cross_join (natural : bool) : P Join :=
  _ ← expect_kw KW_JOIN;
  _ ← refuse_if (fun _ => natural) (lit "NATURAL CROSS JOIN is not valid SQLite grammar");
  table ← table_ref;
  _ ← refuse_if (fun s => at_kw s KW_ON) (lit "CROSS JOIN with an ON clause not yet supported");
  constraint ← opt_using;
  mret (MkJoin JCross table constraint false).

(** [LEFT], [RIGHT] or [FULL] before [ [OUTER] JOIN ]. *)
Definition outer_op (op : JoinOp) : P (option JoinOp) := _ ← eat_kw KW_OUTER; _ ← expect_kw KW_JOIN; mret (Some op).

Definition join_op : P (option JoinOp) :=
  b ← eat_kw KW_LEFT; if b : bool then outer_op JLeft else
  b ← eat_kw KW_RIGHT; if b : bool then outer_op JRight else
  b ← eat_kw KW_FULL; if b : bool then outer_op JFull else
  b ← eat_kw KW_INNER; if b : bool then _ ← expect_kw KW_JOIN; mret (Some JInner) else
  b ← eat_kw KW_JOIN; mret (if b : bool then Some JInner else None).

Definition operator_join (op : JoinOp) (natural : bool) : P Join :=
  table ← table_ref;
  if natural : bool then mret (MkJoin op table None true)
  else
    has_using ← gets (fun s => at_kw s KW_USING);
    if has_using : bool then cols ← using_columns; mret (MkJoin op table (Some (JcUsing cols)) false)
    else
      _ ← refuse_if (fun s => negb (at_kw s KW_ON)) (lit "JOIN without an ON/USING clause not yet supported");
      _ ← expect_kw KW_ON;
      on_expr ← r_expr self;
      mret (MkJoin op table (Some (JcOn on_expr)) false).

(** One round of the loop of [parse_from_clause]: [None] when it breaks. *)
Definition join_step : P (option Join) :=
  comma ← eat_punct TkComma;
  if comma : bool then j ← comma_join; mret (Some j)
  else
    natural ← eat_kw KW_NATURAL;
    _ ← refuse_if (fun s => at_kw s KW_OUTER) (lit "OUTER without a preceding LEFT/RIGHT/FULL not yet supported");
    cross ← eat_kw KW_CROSS;
    if cross : bool then j ← cross_join natural; mret (Some j)
    else
      op ← join_op;
      match op with
      | None => if natural : bool then unsupported (MText (lit "NATURAL not followed by a recognized join operator")) else mret None
      | Some op => j ← operator_join op natural; mret (Some j)
      end.

Fixpoint join_loop (fuel : nat) (joins : list Join) : P (list Join) :=
  match fuel with
  | O => diverged
  | S fuel => j ← join_step; match j with Some j => join_loop fuel (joins ++ [j]) | None => mret joins end
  end.

Definition parse_from_clause : P FromClause :=
  first ← table_ref; joins ← fueled (fun n => join_loop n []); mret (MkFrom first joins).

Definition opt_from : P (option FromClause) :=
  b ← eat_kw KW_FROM; if b : bool then f ← parse_from_clause; mret (Some f) else mret None.

Definition opt_distinct : P (option Distinctness) :=
  d ← eat_kw KW_DISTINCT;
  if d : bool then mret (Some DDistinct) else a ← eat_kw KW_ALL; mret (if a : bool then Some DAll else None).

(** What [GROUP] introduces. *)
Definition group_by_tail : P (list Expr * option Expr) :=
  _ ← expect_kw KW_BY;
  group_by ← comma_separated (r_expr self);
  having ← opt_clause KW_HAVING;
  mret (group_by, having).

(** The part a SELECT and an arm of a compound share, after [SELECT]. *)
Definition select_core : P (option Distinctness * list ResultColumn * option FromClause * option Expr) :=
  distinct ← opt_distinct;
  columns ← comma_separated result_column;
  from ← opt_from;
  _ ← refuse_if (fun s => at_kw s KW_WINDOW) (lit "WINDOW clause not yet supported");
  where_clause ← opt_clause KW_WHERE;
  mret (distinct, columns, from, where_clause).

Definition parse_compound_select_arm (union_start : Span) (op : CompoundOp) : P CompoundSelect :=
  _ ← refuse_if (fun s => at_kw s KW_VALUES) (lit "UNION [ALL] VALUES (...) not yet supported");
  start ← expect_kw KW_SELECT;
  core ← select_core;
  let '(distinct, columns, from, where_clause) := core in
  group ← eat_kw KW_GROUP;
  g ← (if group : bool then group_by_tail
       else _ ← refuse_if (fun s => at_kw s KW_HAVING) (lit "HAVING without GROUP BY not yet supported"); mret ([], None));
  end_ ← prev_span start;
  mret (MkCompound op distinct columns from where_clause g.1 g.2 (join_span union_start end_)).

Fixpoint compound_loop (fuel : nat) (compound : list CompoundSelect) : P (list CompoundSelect) :=
  match fuel with
  | O => diverged
  | S fuel =>
    _ ← refuse_if (fun s => at_kw s KW_INTERSECT || at_kw s KW_EXCEPT) (lit "compound SELECT (INTERSECT/EXCEPT) not yet supported");
    union ← gets (fun s => at_kw s KW_UNION);
    if union : bool then
      union_start ← advance_span;
      all ← eat_kw KW_ALL;
      arm ← parse_compound_select_arm union_start (if all : bool then CoUnionAll else CoUnion);
      compound_loop fuel (compound ++ [arm])
    else mret compound
  end.

Definition opt_nulls : P (option bool) :=
  b ← eat_kw KW_NULLS;
  if b : bool then
    first ← eat_kw KW_FIRST;
    if first : bool then mret (Some false)
    else last ← eat_kw KW_LAST; if last : bool then mret (Some true) else invalid (MText (lit "expected FIRST or LAST after NULLS"))
  else mret None.

Definition ordering_term : P OrderingTerm :=
  e ← r_expr self; desc ← opt_direction; nulls_last ← opt_nulls; mret (MkOrdering e desc nulls_last).

Definition opt_order_by : P (list OrderingTerm) :=
  b ← eat_kw KW_ORDER; if b : bool then _ ← expect_kw KW_BY; comma_separated ordering_term else mret [].

Definition opt_limit : P (option Limit) :=
  b ← eat_kw KW_LIMIT;
  if b : bool then
    limit_expr ← r_expr self;
    kw ← eat_kw KW_OFFSET;
    has ← (if kw : bool then mret true else eat_punct TkComma);
    offset ← (if has : bool then e ← r_expr self; mret (Some e) else mret None);
    mret (Some (MkLimit limit_expr offset))
  else mret None.

Definition parse_common_table_expr : P CommonTableExpr :=
  name ← identifier;
  columns ← opt_name_list;
  _ ← expect_kw KW_AS;
  _ ← refuse_if (fun s => at_kw s KW_MATERIALIZED || (at_kw s KW_NOT && is_kw (kind_at s 1) KW_MATERIALIZED))
        (lit "[NOT] MATERIALIZED CTE hint not yet supported");
  _ ← expect_punct TkLParen (lit "'('");
  query ← r_select self;
  end_ ← expect_punct TkRParen (lit "')'");
  mret (MkCte name.1 columns query (join_span name.2 end_)).

Definition parse_with_clause : P WithClause :=
  start ← expect_kw KW_WITH;
  _ ← refuse_if (fun s => at_kw s KW_RECURSIVE) (lit "WITH RECURSIVE not yet supported");
  ctes ← comma_separated parse_common_table_expr;
  mret (MkWith ctes (join_span start (match list.last ctes with Some cte => cte_span cte | None => start end))).

Definition opt_with : P (option WithClause) :=
  b ← gets (fun s => at_kw s KW_WITH); if b : bool then w ← parse_with_clause; mret (Some w) else mret None.

Definition parse_select_stmt : P Select :=
  with_clause ← opt_with;
  _ ← refuse_if (fun s => at_kw s KW_VALUES) (lit "bare VALUES not yet supported");
  _ ← refuse_if (fun s => match with_clause with Some _ => at_kw s KW_INSERT || at_kw s KW_UPDATE || at_kw s KW_DELETE | None => false end)
        (lit "WITH ... INSERT/UPDATE/DELETE not yet supported");
  select_start ← expect_kw KW_SELECT;
  core ← select_core;
  let '(distinct, columns, from, where_clause) := core in
  group ← eat_kw KW_GROUP;
  g ← (if group : bool then group_by_tail else having ← opt_clause KW_HAVING; mret ([], having));
  compound ← fueled (fun n => compound_loop n []);
  order_by ← opt_order_by;
  limit ← opt_limit;
  let start := match with_clause with Some w => with_span w | None => select_start end in
  end_ ← prev_span start;
  mret (MkSelect with_clause distinct columns from where_clause g.1 g.2 compound order_by limit (join_span start end_)).
End Grammar.

Fixpoint grammar (fuel : nat) : Rec :=
  match fuel with
  | O => diverging
  | S fuel =>
    let self := grammar fuel in
    MkRec (expr self) (bool_expr self) (not_expr self) (binary_expr self) (unary_expr self) (parse_select_stmt self)
  end.
