(* ===== verification/Statements.v ===== *)
(** * The statements and the parser's entry points
    ([src/parser/grammar.rs], [src/parser/error.rs]) *)

From stdpp Require Import prelude list numbers.
From Stdlib Require Import ZArith Lia.
From S2P Require Import Prelude Varint Text Record Float ValueOrder Format Coerce Tokenizer Ast Grammar.

Local Open Scope Z_scope.

Section Statements.
Context (self : Rec).

(** ** INSERT, DELETE and UPDATE *)

Definition value_row : P (list Expr) :=
  _ ← expect_punct TkLParen (lit "'('");
  items ← expr_list self;
  _ ← expect_punct TkRParen (lit "')'");
  mret items.

(** The span the statement ends with: that of the last expression of a row. *)
Definition rows_end (start : Span) (rows : list (list Expr)) : Span :=
  fold_left (fun end_ row => match list.last row with Some e => e_span e | None => end_ end) rows start.

Definition insert_source (start : Span) : P (InsertSource * Span) :=
  d ← eat_kw KW_DEFAULT;
  if d : bool then end_ ← expect_kw KW_VALUES; mret (IsDefaultValues, end_)
  else
    v ← eat_kw KW_VALUES;
    if v : bool then rows ← comma_separated value_row; mret (IsValues rows, rows_end start rows)
    else
      sel ← gets (fun s => at_kw s KW_SELECT || at_kw s KW_WITH);
      if sel : bool then select ← parse_select_stmt self; mret (IsSelect select, sel_span select)
      else invalid (MText (lit "expected VALUES, DEFAULT VALUES, or SELECT after INSERT INTO")).

Definition parse_insert_stmt : P Insert :=
  start ← expect_kw KW_INSERT;
  or_action ← opt_conflict_action;
  _ ← expect_kw KW_INTO;
  table ← identifier;
  columns ← opt_name_list;
  source ← insert_source start;
  mret (MkInsert or_action table.1 columns source.1 (join_span start source.2)).

Definition parse_delete_stmt : P Delete :=
  start ← expect_kw KW_DELETE;
  _ ← expect_kw KW_FROM;
  table ← identifier;
  where_clause ← opt_clause self KW_WHERE;
  mret (MkDelete table.1 where_clause (join_span start (match where_clause with Some e => e_span e | None => table.2 end))).

Definition tuple_assignment : P (list Assignment) :=
  _ ← advance;
  columns ← name_list;
  _ ← expect_punct TkRParen (lit "')' to close column list");
  _ ← expect_punct TkEq (lit "'=' in tuple assignment");
  _ ← refuse_if (fun s => negb (at_kind s TkLParen)) (lit "tuple assignment RHS must be a parenthesized expr-list");
  _ ← advance;
  _ ← refuse_if (fun s => at_kw s KW_SELECT) (lit "tuple assignment RHS subquery not yet supported");
  values ← expr_list self;
  _ ← expect_punct TkRParen (lit "')' to close tuple assignment");
  if negb (length values =? length columns)%nat then invalid (MText (lit "tuple assignment column/value count mismatch"))
  else mret (zip_with (fun name value => MkAssignment [name] value) columns values).

Definition assignment : P (list Assignment) :=
  tuple ← gets (fun s => at_kind s TkLParen);
  if tuple : bool then tuple_assignment
  else
    name ← identifier;
    _ ← expect_punct TkEq (lit "'=' in assignment");
    value ← r_expr self;
    mret [MkAssignment [name.1] value].

Definition parse_update_stmt : P Update :=
  start ← expect_kw KW_UPDATE;
  or_action ← opt_conflict_action;
  table ← identifier;
  _ ← expect_kw KW_SET;
  assignments ← comma_separated assignment;
  where_clause ← opt_clause self KW_WHERE;
  end_ ← prev_span start;
  mret (MkUpdate or_action table.1 (List.concat assignments) where_clause (join_span start end_)).

(** ** CREATE and DROP *)

Definition default_value : P DefaultValue :=
  paren ← eat_punct TkLParen;
  if paren : bool then
    e ← r_expr self;
    _ ← expect_punct TkRParen (lit "')' to close DEFAULT expression");
    mret (DvParen e)
  else by_kind (fun kind =>
    match kind with
    | TkPlus | TkMinus =>
      let op := match kind with TkMinus => UMinus | _ => UPlus end in
      start ← advance_span;
      inner ← literal_value;
      mret (DvLiteral (MkExpr (EUnary op inner) (join_span start (e_span inner))))
    | _ => e ← literal_value; mret (DvLiteral e)
    end).

Definition check_tail : P Expr :=
  _ ← expect_punct TkLParen (lit "'(' after CHECK");
  e ← r_expr self;
  _ ← expect_punct TkRParen (lit "')' to close CHECK");
  mret e.

Definition primary_key_tail : P ColumnConstraint :=
  _ ← expect_kw KW_KEY;
  desc ← opt_direction;
  _ ← check_no_conflict_clause;
  autoincrement ← eat_kw KW_AUTOINCREMENT;
  mret (CcPrimaryKey desc autoincrement).

Definition opt_column_constraint : P (option ColumnConstraint) :=
  named ← eat_kw KW_CONSTRAINT;
  _ ← (if named : bool then _ ← identifier; mret tt else mret tt);
  b ← eat_kw KW_NOT;
  if b : bool then _ ← expect_punct TkNull (lit "NULL"); _ ← check_no_conflict_clause; mret (Some CcNotNull) else
  _ ← refuse_if (fun s => at_kind s TkNull) (lit "bare NULL column constraint not yet supported");
  b ← eat_kw KW_PRIMARY;
  if b : bool then c ← primary_key_tail; mret (Some c) else
  b ← eat_kw KW_UNIQUE;
  if b : bool then _ ← check_no_conflict_clause; mret (Some CcUnique) else
  b ← eat_kw KW_CHECK;
  if b : bool then e ← check_tail; mret (Some (CcCheck e)) else
  b ← eat_kw KW_DEFAULT;
  if b : bool then v ← default_value; mret (Some (CcDefault v)) else
  b ← eat_kw KW_COLLATE;
  if b : bool then name ← identifier; mret (Some (CcCollate name.1)) else
  _ ← refuse_if (fun s => at_kw s KW_REFERENCES) (lit "REFERENCES (foreign key) column constraint not yet supported");
  _ ← refuse_if (fun s => at_kw s KW_GENERATED || (at_kw s KW_AS && kind_eqb (kind_at s 1) TkLParen)) (lit "GENERATED ALWAYS AS not yet supported");
  if named : bool then invalid (MText (lit "expected column constraint after CONSTRAINT name")) else mret None.

Fixpoint constraint_loop (fuel : nat) (constraints : list ColumnConstraint) : P (list ColumnConstraint) :=
  match fuel with
  | O => diverged
  | S fuel => c ← opt_column_constraint; match c with Some c => constraint_loop fuel (constraints ++ [c]) | None => mret constraints end
  end.

Definition column_def : P ColumnDef :=
  name ← identifier;
  typed ← gets (fun s => is_ident (kind_at s 0));
  type ← (if typed : bool then t ← type_name; mret (Some t) else mret None);
  constraints ← fueled (fun n => constraint_loop n []);
  mret (MkColumnDef name.1 type constraints).

Definition indexed_column : P IndexedColumn := e ← r_expr self; desc ← opt_direction; mret (MkIndexedColumn e desc).

Definition indexed_column_list : P (list IndexedColumn) :=
  _ ← expect_punct TkLParen (lit "'(' after PRIMARY KEY/UNIQUE");
  cols ← comma_separated indexed_column;
  _ ← expect_punct TkRParen (lit "')' to close column list");
  mret cols.

Definition table_constraint : P TableConstraint :=
  named ← eat_kw KW_CONSTRAINT;
  _ ← (if named : bool then _ ← identifier; mret tt else mret tt);
  b ← eat_kw KW_PRIMARY;
  if b : bool then _ ← expect_kw KW_KEY; cols ← indexed_column_list; _ ← check_no_conflict_clause; mret (TcPrimaryKey cols) else
  b ← eat_kw KW_UNIQUE;
  if b : bool then cols ← indexed_column_list; _ ← check_no_conflict_clause; mret (TcUnique cols) else
  b ← eat_kw KW_CHECK;
  if b : bool then e ← check_tail; mret (TcCheck e) else
  _ ← refuse_if (fun s => at_kw s KW_FOREIGN) (lit "FOREIGN KEY table constraint not yet supported");
  invalid (MText (lit "expected PRIMARY KEY, UNIQUE, CHECK, or FOREIGN KEY table constraint")).

Definition at_table_constraint_start (s : Parser) : bool :=
  at_kw s KW_CONSTRAINT || at_kw s KW_PRIMARY || at_kw s KW_UNIQUE || at_kw s KW_CHECK || at_kw s KW_FOREIGN.

(** The columns after the first, then the table constraints. *)
Fixpoint column_loop (fuel : nat) (columns : list ColumnDef) : P (list ColumnDef * list TableConstraint) :=
  match fuel with
  | O => diverged
  | S fuel =>
    b ← eat_punct TkComma;
    if b : bool then
      tc ← gets at_table_constraint_start;
      if tc : bool then constraints ← comma_separated table_constraint; mret (columns, constraints)
      else c ← column_def; column_loop fuel (columns ++ [c])
    else mret (columns, [])
  end.

(** [WITHOUT ROWID], [STRICT] or neither: the two flags and the span it ends with. *)
Definition table_options (end_ : Span) : P (bool * bool * Span) :=
  w ← eat_kw KW_WITHOUT;
  if w : bool then
    r ← eat_contextual_kw (lit "ROWID");
    if r : bool then end_ ← prev_span end_; mret (true, false, end_) else invalid (MText (lit "expected ROWID after WITHOUT"))
  else
    strict ← gets (fun s => is_word (kind_at s 0) (lit "STRICT"));
    if strict : bool then end_ ← advance_span; mret (false, true, end_) else mret (false, false, end_).

Definition parse_create_table_stmt : P CreateTable :=
  start ← expect_kw KW_CREATE;
  _ ← refuse_if (fun s => at_kw s KW_TEMP || at_kw s KW_TEMPORARY) (lit "CREATE TEMP/TEMPORARY TABLE not yet supported");
  _ ← refuse_if (fun s => at_kw s KW_VIRTUAL) (lit "CREATE VIRTUAL TABLE not yet supported");
  _ ← expect_kw KW_TABLE;
  if_not_exists ← opt_if_not_exists;
  name ← identifier;
  _ ← check_no_schema_qualifier;
  _ ← refuse_if (fun s => at_kw s KW_AS) (lit "CREATE TABLE ... AS select-stmt not yet supported");
  _ ← expect_punct TkLParen (lit "'(' after table name");
  first ← column_def;
  body ← fueled (fun n => column_loop n [first]);
  close ← expect_punct TkRParen (lit "')' to close column list");
  options ← table_options close;
  let '(without_rowid, strict, end_) := options in
  mret (MkCreateTable if_not_exists name.1 body.1 body.2 without_rowid strict (join_span start end_)).

Definition parse_create_index_stmt : P CreateIndex :=
  start ← expect_kw KW_CREATE;
  unique ← eat_kw KW_UNIQUE;
  _ ← expect_kw KW_INDEX;
  if_not_exists ← opt_if_not_exists;
  name ← identifier;
  _ ← check_no_schema_qualifier;
  _ ← expect_kw KW_ON;
  table ← identifier;
  _ ← check_no_schema_qualifier;
  columns ← indexed_column_list;
  end_ ← prev_span start;
  where_clause ← opt_clause self KW_WHERE;
  mret (MkCreateIndex unique if_not_exists name.1 table.1 columns where_clause
    (join_span start (match where_clause with Some e => e_span e | None => end_ end))).

Definition parse_create_view_stmt : P CreateView :=
  start ← expect_kw KW_CREATE;
  _ ← refuse_if (fun s => at_kw s KW_TEMP || at_kw s KW_TEMPORARY) (lit "CREATE TEMP/TEMPORARY VIEW not yet supported");
  _ ← expect_kw KW_VIEW;
  if_not_exists ← opt_if_not_exists;
  name ← identifier;
  _ ← check_no_schema_qualifier;
  columns ← opt_name_list;
  _ ← expect_kw KW_AS;
  query ← parse_select_stmt self;
  mret (MkCreateView if_not_exists name.1 columns query (join_span start (sel_span query))).

(** [DROP kind [IF EXISTS] name]. *)
Definition drop_tail (kw : Keyword) : P (bool * str * Span) :=
  start ← expect_kw KW_DROP;
  _ ← expect_kw kw;
  if_exists ← opt_if_exists;
  name ← identifier;
  _ ← check_no_schema_qualifier;
  mret (if_exists, name.1, join_span start name.2).

Definition parse_drop_view_stmt : P DropView := d ← drop_tail KW_VIEW; let '(if_exists, name, span) := d in mret (MkDropView if_exists name span).
Definition parse_drop_table_stmt : P DropTable := d ← drop_tail KW_TABLE; let '(if_exists, name, span) := d in mret (MkDropTable if_exists name span).
Definition parse_drop_index_stmt : P DropIndex := d ← drop_tail KW_INDEX; let '(if_exists, name, span) := d in mret (MkDropIndex if_exists name span).

(** ** Transactions, PRAGMA, ANALYZE and EXPLAIN *)

Definition begin_mode (start : Span) : P (option TransactionMode * Span) :=
  d ← opt_kw_span KW_DEFERRED;
  match d with Some span => mret (Some TmDeferred, span) | None =>
  i ← opt_kw_span KW_IMMEDIATE;
  match i with Some span => mret (Some TmImmediate, span) | None =>
  x ← opt_kw_span KW_EXCLUSIVE;
  mret (match x with Some span => (Some TmExclusive, span) | None => (None, start) end)
  end end.

Definition parse_begin_stmt : P Begin :=
  start ← expect_kw KW_BEGIN;
  mode ← begin_mode start;
  t ← opt_kw_span KW_TRANSACTION;
  mret (MkBegin mode.1 (join_span start (match t with Some span => span | None => mode.2 end))).

Definition opt_transaction (span : Span) : P Span :=
  t ← opt_kw_span KW_TRANSACTION; mret (match t with Some end_ => join_span span end_ | None => span end).

Definition parse_commit_stmt : P CommitStmt :=
  commit ← gets (fun s => at_kw s KW_COMMIT);
  span ← expect_kw (if commit : bool then KW_COMMIT else KW_END);
  span ← opt_transaction span;
  mret (MkCommitStmt span).

Definition parse_rollback_stmt : P RollbackStmt :=
  span ← expect_kw KW_ROLLBACK; span ← opt_transaction span; mret (MkRollbackStmt span).

Definition pragma_journal_mode_value : P (PragmaJournalMode * Span) :=
  by_kind (fun kind =>
    if is_word kind (lit "wal") then span ← advance_span; mret (PjWal, span)
    else if is_kw kind KW_DELETE then span ← advance_span; mret (PjDelete, span)
    else unsupported (MText (lit "unsupported journal_mode value (only WAL/DELETE are supported)"))).

Definition pragma_synchronous_value : P (PragmaSynchronous * Span) :=
  by_kind (fun kind =>
    if is_word kind (lit "off") then span ← advance_span; mret (PsOff, span)
    else if is_word kind (lit "normal") then span ← advance_span; mret (PsNormal, span)
    else if is_kw kind KW_FULL then span ← advance_span; mret (PsFull, span)
    else match kind with
    | TkInteger 0 => span ← advance_span; mret (PsOff, span)
    | TkInteger 1 => span ← advance_span; mret (PsNormal, span)
    | TkInteger 2 => span ← advance_span; mret (PsFull, span)
    | _ => unsupported (MText (lit "unsupported synchronous value (only OFF/NORMAL/FULL/0/1/2 are supported)"))
    end).

Definition parse_pragma_stmt : P Pragma :=
  start ← expect_kw KW_PRAGMA;
  name ← identifier;
  if eq_ignore_ascii_case name.1 (lit "integrity_check") || eq_ignore_ascii_case name.1 (lit "quick_check") then
    paren ← eat_punct TkLParen;
    _ ← refuse_if (fun _ => paren) (lit "PRAGMA integrity_check(N) form not yet supported");
    mret (PrIntegrityCheck (eq_ignore_ascii_case name.1 (lit "quick_check")) (join_span start name.2))
  else if eq_ignore_ascii_case name.1 (lit "synchronous") then
    eq ← eat_punct TkEq;
    if eq : bool then v ← pragma_synchronous_value; mret (PrSynchronous (Some v.1) (join_span start v.2))
    else mret (PrSynchronous None (join_span start name.2))
  else if negb (eq_ignore_ascii_case name.1 (lit "journal_mode")) then unsupported (MPragma name.1)
  else
    eq ← eat_punct TkEq;
    _ ← refuse_if (fun _ => negb eq) (lit "PRAGMA journal_mode query form (no '=') not yet supported");
    v ← pragma_journal_mode_value;
    mret (PrJournalMode v.1 (join_span start v.2)).

Definition parse_analyze_stmt : P Analyze :=
  start ← expect_kw KW_ANALYZE;
  named ← gets (fun s => is_ident (kind_at s 0));
  if named : bool then
    name ← identifier;
    dot ← eat_punct TkDot;
    _ ← refuse_if (fun _ => dot) (lit "ANALYZE schema-name.table-name not yet supported");
    mret (MkAnalyze (Some name.1) (join_span start name.2))
  else mret (MkAnalyze None (join_span start start)).

Definition parse_explain_stmt : P Explain :=
  _ ← expect_kw KW_EXPLAIN;
  q ← eat_kw KW_QUERY;
  _ ← (if q : bool then _ ← expect_kw KW_PLAN; mret tt else mret tt);
  select ← parse_select_stmt self;
  mret (MkExplain q select).
End Statements.

(** ** Entry points *)

Inductive ParseOutcome (A : Type) : Type := Accepted (a : A) | Unsupported (m : Message) (span : Span) | Invalid (m : Message) (span : Span).
Arguments Accepted {A} a.
Arguments Unsupported {A} m span.
Arguments Invalid {A} m span.

Section Entry.
Context `{Unicode}.

(** A statement, then the end of the input; [None] when the unfolding of the
    grammar was not deep enough. *)
Definition run_parser {A} (stmt : Rec -> P A) (toks : list Token) : option (ParseOutcome A) :=
  match (a ← stmt (grammar (S (length toks))); _ ← expect_end; mret a) (new_parser toks) with
  | (Ok a, _) => Some (Accepted a)
  | (Err (PfUnsupported m span), _) => Some (Unsupported m span)
  | (Err (PfInvalid m span), _) => Some (Invalid m span)
  | (Err PfDiverged, _) => None
  end.
Definition parse_with {A} (stmt : Rec -> P A) (src : str) : option (ParseOutcome A) := run_parser stmt (tokenize src).

Definition parse_select : str -> option (ParseOutcome Select) := parse_with parse_select_stmt.
Definition parse_explain : str -> option (ParseOutcome Explain) := parse_with parse_explain_stmt.
Definition parse_insert : str -> option (ParseOutcome Insert) := parse_with parse_insert_stmt.
Definition parse_delete : str -> option (ParseOutcome Delete) := parse_with parse_delete_stmt.
Definition parse_update : str -> option (ParseOutcome Update) := parse_with parse_update_stmt.
Definition parse_create_table : str -> option (ParseOutcome CreateTable) := parse_with parse_create_table_stmt.
Definition parse_create_index : str -> option (ParseOutcome CreateIndex) := parse_with parse_create_index_stmt.
Definition parse_create_view : str -> option (ParseOutcome CreateView) := parse_with parse_create_view_stmt.
Definition parse_drop_view : str -> option (ParseOutcome DropView) := parse_with (fun _ => parse_drop_view_stmt).
Definition parse_drop_table : str -> option (ParseOutcome DropTable) := parse_with (fun _ => parse_drop_table_stmt).
Definition parse_drop_index : str -> option (ParseOutcome DropIndex) := parse_with (fun _ => parse_drop_index_stmt).
Definition parse_begin : str -> option (ParseOutcome Begin) := parse_with (fun _ => parse_begin_stmt).
Definition parse_commit : str -> option (ParseOutcome CommitStmt) := parse_with (fun _ => parse_commit_stmt).
Definition parse_rollback : str -> option (ParseOutcome RollbackStmt) := parse_with (fun _ => parse_rollback_stmt).
Definition parse_pragma : str -> option (ParseOutcome Pragma) := parse_with (fun _ => parse_pragma_stmt).
Definition parse_analyze : str -> option (ParseOutcome Analyze) := parse_with (fun _ => parse_analyze_stmt).
End Entry.

Section Samples.
#[local] Instance ascii_only : Unicode := {| unicode_alphabetic := fun _ => false; unicode_numeric := fun _ => false |}.

Definition accepts {A} (o : option (ParseOutcome A)) : bool := match o with Some (Accepted _) => true | _ => false end.
Definition refuses {A} (o : option (ParseOutcome A)) : bool := match o with Some (Unsupported _ _) => true | _ => false end.
Definition rejects {A} (o : option (ParseOutcome A)) : bool := match o with Some (Invalid _ _) => true | _ => false end.

Example parse_samples :
  forallb (fun src => accepts (parse_select src))
    [lit "SELECT 1"; lit "SELECT a + b * c, t.* FROM t JOIN u ON t.x = u.y LEFT JOIN v USING (k) WHERE NOT a IS NULL AND b BETWEEN 1 AND 2 OR c IN (SELECT d FROM e)";
     lit "WITH c(x) AS (SELECT 1) SELECT x FROM c UNION ALL SELECT 2 ORDER BY 1 DESC NULLS LAST LIMIT 5 OFFSET 2;";
     lit "SELECT CASE a WHEN 1 THEN 'x' ELSE CAST(b AS VARCHAR(10)) END, count(*), (a, b) IN (SELECT 1, 2) FROM (SELECT 1) AS s GROUP BY a HAVING count(*) > 1"] = true /\
  forallb (fun src => refuses (parse_select src)) [lit "SELECT a -> b"; lit "SELECT 1 EXCEPT SELECT 2"; lit "VALUES (1)"] = true /\
  forallb (fun src => rejects (parse_select src)) [lit "SELECT"; lit "SELECT (1"; lit "SELECT 1 1"; lit "SELECT 'x"] = true /\
  accepts (parse_create_table (lit "CREATE TABLE t (a INTEGER PRIMARY KEY, b TEXT NOT NULL DEFAULT -1, UNIQUE (a, b DESC)) STRICT")) = true /\
  accepts (parse_insert (lit "INSERT OR REPLACE INTO t (a, b) VALUES (1, 'x'), (2, NULL)")) = true /\
  accepts (parse_update (lit "UPDATE t SET (a, b) = (1, 2), c = 3 WHERE d LIKE 'x%' ESCAPE '!'")) = true.
Proof. by vm_compute. Qed.
End Samples.
