(* ===== verification/GrammarProperties.v ===== *)
(** * What holds of the parser

    Parsing ends on every token stream: each function that calls itself again
    has consumed a token before, so unfolding the grammar as often as there are
    tokens is enough; every loop consumes a token in each round; and the
    expression depth is put back on success and on failure. *)

From stdpp Require Import prelude list numbers.
From Stdlib Require Import ZArith Lia.
From S2P Require Import Prelude Varint Text Record Float ValueOrder Format Coerce ValueProperties Functions FunctionProperties Tokenizer TokenizerProperties Ast Grammar Statements.

Local Open Scope Z_scope.

(** ** Outcomes of a parsing action *)

(** The token stream ends with the end token. *)
Definition ends_in_eof (s : Parser) : Prop := exists t, list.last (tokens s) = Some t /\ tok_kind t = TkEof.

(** What an action started at [s] leaves: it did not diverge, the tokens and
    the depth are those of [s], and it consumed at least [k a] tokens if it
    gave [a]. *)
Definition outcome {A} (k : A -> nat) (s : Parser) (o : result ParseFail A * Parser) : Prop :=
  tokens o.2 = tokens s /\ depth o.2 = depth s /\ (remaining o.2 <= remaining s)%nat /\
  match o.1 with Ok a => (remaining o.2 + k a <= remaining s)%nat | Err e => e <> PfDiverged end.

(** [yields e n k f]: that from every state with fewer than [n] tokens left,
    not at the end when [e]. *)
Definition yields {A} (e : bool) (n : nat) (k : A -> nat) (f : P A) : Prop :=
  forall s, ends_in_eof s -> (remaining s < n)%nat -> (e = true -> is_eof (kind_at s 0) = false) -> outcome k s (f s).

(** The common case: a fixed number of tokens. *)
Abbreviation good e n k f := (yields e n (fun _ => k%nat) f).

Lemma good_weaken {A} (e e' : bool) n n' k k' (f : P A) : yields e n k f -> (n' <= n)%nat -> (forall a, k' a <= k a)%nat -> (e = true -> e' = true) -> yields e' n' k' f.
Proof.
  intros Hf Hn Hk He s Hw Hs Hs'. destruct (Hf s Hw) as (H1 & H2 & H3 & H4); [lia|auto|]. split; [done|]. split; [done|]. split; [done|]. destruct (f s).1 as [a|]; [specialize (Hk a); lia|done].
Qed.

Lemma good_ret {A} e n (a : A) : good e n 0 (mret a).
Proof. intros s Hw Hs _. unfold outcome. cbn. repeat split; lia. Qed.

(** The continuation consumes what is left to consume. *)
Lemma good_after {A B} e n k k1 (f : P A) (g : A -> P B) :
  yields e n k1 f -> (forall a, yields false (n - k1 a) (fun b => k b - k1 a)%nat (g a)) -> yields e n k (mbind g f).
Proof.
  intros Hf Hg s Hw Hs He. destruct (Hf s Hw Hs He) as (H1 & H2 & H3 & H4). unfold mbind, M_bind. destruct (f s) as [[a|err] s1]; cbn [fst snd] in *.
  - destruct (Hg a s1) as (G1 & G2 & G3 & G4); [by unfold ends_in_eof; rewrite H1|lia|done|]. unfold outcome.
    rewrite G1, G2, H1, H2. repeat split; [lia|]. destruct (g a s1).1; [lia|done].
  - unfold outcome. cbn. repeat split; done.
Qed.

Lemma good_then {A B} e n k k1 (f : P A) (g : A -> P B) :
  good e n k1 f -> (forall a, yields false (n - k1) (fun b => k b - k1)%nat (g a)) -> yields e n k (mbind g f).
Proof. intros Hf Hg. by eapply good_after. Qed.

Lemma good_mret {A} e n k (a : A) : k a = 0%nat -> yields e n k (mret a).
Proof. intros Hk s Hw Hs _. unfold outcome. cbn. rewrite Hk. repeat split; lia. Qed.

Lemma good_fail {A} e n k f : (forall sp, f sp <> PfDiverged) -> yields e n k (@Grammar.fail A f).
Proof. intros Hf s Hw Hs _. unfold outcome, Grammar.fail. cbn. repeat split; [lia|apply Hf]. Qed.

Lemma good_by_kind {A} e n k (f : TokenKind -> P A) : (forall kind, yields (negb (is_eof kind)) n k (f kind)) -> yields e n k (by_kind f).
Proof. intros Hf s Hw Hs _. unfold by_kind. apply Hf; [done|done|]. by destruct (is_eof (kind_at s 0)). Qed.

Lemma good_fueled {A} e n k (f : nat -> P A) : (forall fuel, yields e (n `min` fuel) k (f fuel)) -> yields e n k (fueled f).
Proof. intros Hf s Hw Hs He. apply Hf; [done|lia|done]. Qed.

Lemma good_gets {A} e n (f : Parser -> A) : good e n 0 (gets f).
Proof. intros s Hw Hs _. unfold outcome, gets. cbn. repeat split; lia. Qed.

Lemma eof_when_done s : ends_in_eof s -> (length (tokens s) <= pos s)%nat -> is_eof (kind_at s 0) = true.
Proof.
  intros (t & Ht & Hk) Hl. unfold kind_at, peek_at. rewrite lookup_ge_None_2 by lia. by rewrite Ht, Hk.
Qed.

Lemma good_advance e n : good e n (if e then 1 else 0) advance.
Proof.
  intros s Hw Hs He. unfold outcome, advance, peek. fold (kind_at s 0). cbn [fst snd]. destruct (is_eof (kind_at s 0)) eqn:Ee.
  - destruct e; [by specialize (He eq_refl)|]. repeat split; lia.
  - assert (pos s < length (tokens s))%nat by (destruct (decide (length (tokens s) <= pos s)%nat); [rewrite (eof_when_done s) in Ee; done|lia]).
    unfold remaining. cbn. destruct e; repeat split; lia.
Qed.

(** A test that never holds at the end of the input. *)
Definition live (test : Parser -> bool) : Prop := forall s, test s = true -> is_eof (kind_at s 0) = false.

Lemma good_gets_test {B} e n k test (g : bool -> P B) : live test -> yields true n k (g true) -> yields e n k (g false) -> yields e n k (mbind g (gets test)).
Proof.
  intros Ht H1 H2 s Hw Hs He. unfold mbind, M_bind, gets. destruct (test s) eqn:E; [apply H1; [done|done|intros _; by apply Ht]|by apply H2].
Qed.

Lemma good_eat {B} e n k test (g : bool -> P B) : live test -> yields false (n - 1) (fun b => k b - 1)%nat (g true) -> yields e n k (g false) -> yields e n k (mbind g (eat test)).
Proof.
  intros Ht H1 H2 s Hw Hs He. unfold mbind, M_bind, eat. destruct (test s) eqn:E; [|by apply H2].
  pose proof (good_then true n k 1 advance (fun _ => g true) (good_advance true n) (fun _ => H1) s Hw Hs (fun _ => Ht s E)) as Hg.
  unfold mbind, M_bind in *. by destruct (advance s) as [[?|?] ?].
Qed.

Lemma good_expect e n test msg : live test -> good e n 1 (expect test msg).
Proof.
  intros Ht s Hw Hs He. unfold expect. destruct (test s) eqn:E; [|by refine (good_fail e n _ _ _ s Hw Hs He)].
  apply (good_then true n _ 1); [apply good_advance|intros; by apply good_mret|done|done|intros _; by apply Ht].
Qed.

Lemma live_kw kw : live (fun s => at_kw s kw).
Proof. intros s. unfold at_kw. by destruct (kind_at s 0). Qed.

Lemma live_kind kind : is_eof kind = false -> live (fun s => at_kind s kind).
Proof. intros Hk s. unfold at_kind. destruct (kind_at s 0); try done. by destruct kind. Qed.

Lemma live_and test test' : live test -> live (fun s => test s && test' s).
Proof. intros Ht s [H1 _]%andb_true_iff. by apply Ht. Qed.

Lemma live_or test test' : live test -> live test' -> live (fun s => test s || test' s).
Proof. intros Ht Ht' s [H1|H1]%orb_true_iff; [by apply Ht|by apply Ht']. Qed.

Lemma good_guard {A} e n k (f : P A) : yields e n k f -> yields e n k (with_depth_guard f).
Proof.
  intros Hf s Hw Hs He. unfold with_depth_guard. cbn [depth tokens pos]. destruct (MAX_EXPR_DEPTH <? S (depth s))%nat.
  - replace (S (depth s) - 1)%nat with (depth s) by lia. destruct s as [toks p d]. refine (good_fail e n k _ _ _ Hw Hs He). done.
  - destruct (Hf (MkParser (tokens s) (pos s) (S (depth s))) Hw Hs He) as (H1 & H2 & H3 & H4). destruct (f _) as [r s1]. unfold outcome, remaining in *. cbn in *.
    rewrite H1, H2 in *. repeat split; try done; lia.
Qed.

Lemma good_attempt {A} e n (f : P A) k : yields e n k f -> good e n 0 (attempt f).
Proof.
  intros Hf s Hw Hs He. destruct (Hf s Hw Hs He) as (H1 & H2 & H3 & H4). unfold attempt. destruct (f s) as [[a|[]] s1]; unfold outcome; cbn in *; repeat split; try done; lia.
Qed.

Lemma good_refuse e n test m : good e n 0 (refuse_if test m).
Proof. unfold refuse_if. eapply (good_then _ _ _ 0); [apply good_gets|intros [|]; [by apply good_fail|by apply good_mret]]. Qed.

(** A loop round that says whether it goes on. *)
Definition some_one {A} (o : option A) : nat := match o with Some _ => 1 | None => 0 end.

(** A loop whose rounds consume a token. *)
Lemma good_comma_list {A} n (item : P A) fuel : forall acc, good false (n - 1) 0 item -> good false (n `min` fuel) 0 (comma_list fuel item acc).
Proof.
  induction fuel as [|fuel IH]; intros acc Hi; [intros s _ Hs; lia|]. cbn [comma_list].
  apply good_eat; [by apply live_kind| |by apply good_mret]. eapply (good_then _ _ _ 0); [eapply good_weaken; [exact Hi|lia|done|done]|].
  intros x. eapply good_weaken; [by apply IH|lia|done|done].
Qed.

Lemma good_comma_separated {A} e n (k : nat) (item : P A) : good e n k item -> good false n 0 item -> good e n k (comma_separated item).
Proof.
  intros Hi Hi'. unfold comma_separated. eapply good_then; [exact Hi|]. intros x. apply good_fueled. intros fuel.
  eapply good_weaken; [apply (good_comma_list n); eapply good_weaken; [exact Hi'|lia|done|done]|lia|intros; cbn beta; lia|done].
Qed.

Create HintDb parse.
#[export] Hint Resolve good_gets good_refuse good_ret good_advance live_kw live_or live_and : parse.
#[export] Hint Extern 1 (live (fun s => at_kind s _)) => (by apply live_kind) : parse.

Ltac good_known := eapply good_weaken; [solve [eauto 3 with parse]|first [apply Nat.le_refl|lia]|intros ?; cbn beta; first [apply Nat.le_refl|lia]|done].
(** One step through the code of a parsing action. *)
Ltac good_step :=
  lazymatch goal with
  | |- yields _ _ _ (mbind _ (eat_kw _)) => apply good_eat; [apply live_kw| |]
  | |- yields _ _ _ (mbind _ (eat_punct _)) => apply good_eat; [by apply live_kind| |]
  | |- yields _ _ _ (mbind _ (gets (fun s => at_kw s _))) => apply good_gets_test; [apply live_kw| |]
  | |- yields _ _ _ (mbind _ (gets (fun s => at_kind s _))) => apply good_gets_test; [by apply live_kind| |]
  | |- yields _ _ _ (mbind _ (gets _)) => eapply good_then; [apply good_gets|]
  | |- yields _ _ _ (mbind _ (refuse_if _ _)) => eapply good_then; [apply good_refuse|]
  | |- yields _ _ _ (mbind _ advance) => eapply good_then; [apply good_advance|]
  | |- yields _ _ _ (mbind _ (expect_kw _)) => eapply good_then; [apply good_expect, live_kw|]
  | |- yields _ _ _ (mbind _ (expect_punct _ _)) => eapply good_then; [apply good_expect; by apply live_kind|]
  | |- yields _ _ _ (by_kind _) => apply good_by_kind
  | |- yields _ _ _ (invalid _) => by apply good_fail
  | |- yields _ _ _ (unsupported _) => by apply good_fail
  | |- yields _ _ _ (mret _) => apply good_mret; cbn [some_one]; lia
  | |- forall _, _ => intros ?; cbn beta
  | |- yields _ _ _ (if ?b then _ else _) => destruct b
  | |- yields _ _ _ (mbind _ (if ?b then _ else _)) => destruct b
  | |- yields _ _ _ (comma_separated _) => eapply good_weaken; [apply (good_comma_separated false _ 0); good_known|first [apply Nat.le_refl|lia]|intros ?; cbn beta; lia|done]
  | |- yields _ _ _ (mbind _ (comma_separated _)) => eapply (good_then _ _ _ 0); [apply good_comma_separated; good_known|]
  | |- yields _ _ _ (mbind _ (mbind _ _)) => eapply (good_then _ _ _ 0)
  | |- yields _ _ _ (mbind _ (by_kind _)) => eapply (good_then _ _ _ 0)
  | |- yields _ _ _ (mbind _ (fueled _)) => eapply (good_then _ _ _ 0); [apply good_fueled; intros ?; good_known|]
  | |- yields _ _ _ (fueled _) => apply good_fueled; intros ?
  | |- yields _ _ _ (match ?x with _ => _ end) => destruct x; cbn [negb is_eof]
  | |- (_ <= _)%nat => lia
  end.
Ltac good_run := repeat (good_step || good_known || (eapply good_then; [good_known|]); cbn [negb is_eof]).

(** ** The token helpers *)

Lemma good_advance_span e n : good e n (if e then 1 else 0) advance_span.
Proof. unfold advance_span. eapply good_then; [apply good_advance|intros; apply good_mret; lia]. Qed.
#[export] Hint Resolve good_advance_span : parse.

Lemma good_identifier n : good false n 1 identifier.
Proof. unfold identifier. good_run. Qed.
#[export] Hint Resolve good_identifier : parse.

Lemma good_name_list n : good false n 1 name_list.
Proof. unfold name_list. eapply (good_then _ _ _ 1); [apply good_comma_separated; good_known|]. good_run. Qed.
#[export] Hint Resolve good_name_list : parse.

Lemma good_opt_name_list n : good false n 0 opt_name_list.
Proof. unfold opt_name_list. good_run. Qed.

Lemma good_opt_direction n : good false n 0 opt_direction.
Proof. unfold opt_direction. good_run. Qed.

Lemma good_conflict n : good false n 0 conflict_action.
Proof. unfold conflict_action. good_run. Qed.
#[export] Hint Resolve good_conflict : parse.

Lemma good_opt_conflict n : good false n 0 opt_conflict_action.
Proof. unfold opt_conflict_action. good_run. Qed.

Lemma good_if_not_exists n : good false n 0 opt_if_not_exists.
Proof. unfold opt_if_not_exists. good_run. Qed.

Lemma good_if_exists n : good false n 0 opt_if_exists.
Proof. unfold opt_if_exists. good_run. Qed.

Lemma good_prev_span n start : good false n 0 (prev_span start).
Proof. apply good_gets. Qed.

Lemma good_number n : good false n 1 number_literal.
Proof. unfold number_literal. good_run. Qed.
#[export] Hint Resolve good_opt_name_list good_opt_direction good_opt_conflict good_if_not_exists good_if_exists good_prev_span good_number : parse.

Lemma good_type_words n fuel : forall acc, good false (n `min` fuel) 0 (type_words fuel acc).
Proof.
  induction fuel as [|fuel IH]; intros acc; [intros s _ Hs; lia|]. cbn [type_words]. good_run.
Qed.

#[export] Hint Resolve good_type_words : parse.

Lemma good_type_name n : good false n 1 type_name.
Proof.
  unfold type_name. good_run.
Qed.

Lemma good_alias n : good false n 0 opt_alias.
Proof. unfold opt_alias. good_run. Qed.

Lemma good_using n : good false n 0 using_columns.
Proof. unfold using_columns. good_run. Qed.

Lemma good_no_schema n : good false n 0 check_no_schema_qualifier.
Proof. apply good_refuse. Qed.
Lemma good_no_conflict n : good false n 0 check_no_conflict_clause.
Proof. apply good_refuse. Qed.
Lemma good_no_compound n : good false n 0 check_no_compound.
Proof. apply good_refuse. Qed.

Lemma good_literal n : good false n 1 literal_value.
Proof. unfold literal_value. apply good_by_kind. intros kind. destruct kind; cbn [negb is_eof token_literal is_current_time is_kw orb]; good_run. Qed.

Lemma good_opt_kw_span n kw : good false n 0 (opt_kw_span kw).
Proof.
  intros s Hw Hs He. unfold opt_kw_span. destruct (at_kw s kw) eqn:E.
  - assert (good true n 0 (span ← advance_span; mret (Some span))) as Hg by good_run. apply Hg; [done|done|]. intros _. by eapply live_kw.
  - by apply (good_ret (A := option Span) false n None s).
Qed.
#[export] Hint Resolve good_type_name good_alias good_using good_no_schema good_no_conflict good_no_compound good_literal good_opt_kw_span : parse.

Lemma good_round {A B} n fuel (f : P (option A)) (g : A -> P B) (h : P B) :
  yields false (n `min` S fuel) some_one f -> (forall a, good false (n `min` fuel) 0 (g a)) -> good false (n `min` S fuel) 0 h ->
  good false (n `min` S fuel) 0 (o ← f; match o with Some a => g a | None => h end).
Proof.
  intros Hf Hg Hh s Hw Hs He. destruct (Hf s Hw Hs He) as (H1 & H2 & H3 & H4). unfold mbind, M_bind.
  assert (forall f' : P B, outcome (fun _ => 0%nat) (f s).2 (f' (f s).2) -> outcome (fun _ => 0%nat) s (f' (f s).2)) as Hstep.
  { intros f' (G1 & G2 & G3 & G4). unfold outcome. rewrite G1, G2, H1, H2. repeat split; [lia|]. destruct (f' (f s).2).1; [lia|done]. }
  destruct (f s) as [[[a|]|e] s1]; cbn [fst snd some_one] in *.
  - apply Hstep, Hg; [by unfold ends_in_eof; rewrite H1|lia|done].
  - apply Hstep, Hh; [by unfold ends_in_eof; rewrite H1|lia|done].
  - by unfold outcome.
Qed.

(** ** The grammar *)

(** The recursive functions work on fewer than [m] tokens. *)
Record rec_good (m : nat) (self : Rec) : Prop := {
  rg_expr : good false m 0 (r_expr self);
  rg_bool : forall p, good false m 0 (r_bool_expr self p);
  rg_not : good false m 0 (r_not_expr self);
  rg_binary : forall p, good false m 0 (r_binary_expr self p);
  rg_unary : good false m 0 (r_unary_expr self);
  rg_select : good false m 0 (r_select self) }.

Section Recursion.
Context (m : nat) (self : Rec) (Hself : rec_good m self).

#[local] Hint Resolve rg_expr rg_bool rg_not rg_binary rg_unary rg_select : parse.

Lemma good_expr_list : good false m 0 (expr_list self).
Proof using Hself. apply good_comma_separated; by apply rg_expr. Qed.
#[local] Hint Resolve good_expr_list : parse.

Lemma good_opt_clause kw : good false (S m) 0 (opt_clause self kw).
Proof using Hself. unfold opt_clause. good_run. Qed.

Lemma good_subquery_tail what : good false m 0 (subquery_tail self what).
Proof using Hself. unfold subquery_tail. good_run. Qed.
#[local] Hint Resolve good_opt_clause good_subquery_tail : parse.

Lemma good_exists_tail start negated : good false (S m) 0 (exists_tail self start negated).
Proof using Hself. unfold exists_tail. good_run. Qed.

Lemma good_function_call name start : good false (S m) 0 (function_call self name start).
Proof using Hself.
  unfold function_call. good_run.
Qed.

Lemma good_when_loop fuel : forall whens, good false (S m `min` fuel) 0 (when_loop self fuel whens).
Proof using Hself. induction fuel as [|fuel IH]; intros whens; [intros s _ Hs; lia|]. cbn [when_loop]. good_run. Qed.

#[local] Hint Resolve good_when_loop : parse.

Lemma good_case : good true (S m) 0 (case_expr self).
Proof using Hself.
  unfold case_expr. good_run.
Qed.

Lemma good_cast : good true (S m) 0 (cast_expr self).
Proof using Hself. unfold cast_expr. good_run. Qed.

Lemma good_dotted n room : forall parts, good false n 0 (dotted_parts room parts).
Proof. revert n. induction room as [|room IH]; intros n parts; cbn [dotted_parts]; good_run. Qed.
#[local] Hint Resolve good_exists_tail good_function_call good_case good_cast good_dotted : parse.

Lemma good_column n name start : good false n 0 (column_ref name start).
Proof. unfold column_ref. good_run. Qed.

Lemma good_paren start : good false m 0 (paren_expr self start).
Proof using Hself. unfold paren_expr. good_run. Qed.
#[local] Hint Resolve good_column good_paren : parse.

Lemma good_primary : good false (S m) 0 (primary_expr self).
Proof using Hself.
  unfold primary_expr. apply good_by_kind. intros kind. destruct kind; cbn [negb is_eof token_literal]; good_run.
Qed.
#[local] Hint Resolve good_primary : parse.

Lemma good_unary : good false (S m) 0 (unary_expr self).
Proof using Hself.
  unfold unary_expr. apply good_guard. apply good_by_kind. intros kind. destruct kind; cbn [negb is_eof unary_op]; good_run.
Qed.
#[local] Hint Resolve good_unary : parse.

Lemma good_collate_loop n fuel : forall lhs, good false (n `min` fuel) 0 (collate_loop fuel lhs).
Proof. induction fuel as [|fuel IH]; intros lhs; [intros s _ Hs; lia|]. cbn [collate_loop]. good_run. Qed.

#[local] Hint Resolve good_collate_loop : parse.

Lemma good_collate : good false (S m) 0 (collate_expr self).
Proof using Hself. unfold collate_expr. good_run. Qed.
#[local] Hint Resolve good_collate : parse.

Lemma good_arrow : good false (S m) 0 (arrow_expr self).
Proof using Hself. unfold arrow_expr. good_run. Qed.
#[local] Hint Resolve good_arrow : parse.

Lemma good_binary_loop fuel p : forall lhs, good false (S m `min` fuel) 0 (binary_loop self fuel p lhs).
Proof using Hself.
  induction fuel as [|fuel IH]; intros lhs; [intros s _ Hs; lia|]. cbn [binary_loop]. apply good_by_kind. intros kind.
  destruct (binary_op kind) as [[op prec]|] eqn:E; [|good_run]. destruct kind; try done; cbn [negb is_eof]; good_run.
Qed.

#[local] Hint Resolve good_binary_loop : parse.

Lemma good_binary p : good false (S m) 0 (binary_expr self p).
Proof using Hself. unfold binary_expr. good_run. Qed.
#[local] Hint Resolve good_binary : parse.

Lemma good_between lhs negated : good false (S m) 0 (between_expr self lhs negated).
Proof using Hself. unfold between_expr, between_tail. good_run. Qed.

Lemma good_in_tail lhs negated : good false (S m) 0 (in_tail self lhs negated).
Proof using Hself. unfold in_tail. good_run. Qed.

Lemma good_like_tail lhs glob negated : good false (S m) 0 (like_tail self lhs glob negated).
Proof using Hself. unfold like_tail. good_run. Qed.
#[local] Hint Resolve good_between good_in_tail good_like_tail : parse.

(** A round that goes on has consumed a token. *)
Lemma good_equality_step lhs : yields false (S m) some_one (equality_step self lhs).
Proof using Hself.
  intros s Hw Hs He. unfold equality_step.
  assert (forall f : P (option Expr), is_eof (kind_at s 0) = false -> yields true (S m) some_one f -> outcome some_one s (f s)) as Hf by (intros f Hk Hf; by apply Hf).
  assert (outcome some_one s ((mret None : P (option Expr)) s)) as Hn by (by apply (good_mret false (S m))).
  destruct (kind_at s 0) eqn:Ek; try exact Hn; (apply Hf; [done|good_run]).
Qed.

Lemma good_equality_loop fuel : forall lhs, good false (S m `min` fuel) 0 (equality_loop self fuel lhs).
Proof using Hself.
  induction fuel as [|fuel IH]; intros lhs; [intros s _ Hs; lia|]. cbn [equality_loop]. apply good_round; [eapply good_weaken; [apply good_equality_step|lia|done|done]|good_run|good_run].
Qed.
#[local] Hint Resolve good_equality_loop : parse.

Lemma good_tuple_in_select exprs negated start : good false (S m) 0 (tuple_in_select self exprs negated start).
Proof using Hself. unfold tuple_in_select. good_run. Qed.
#[local] Hint Resolve good_tuple_in_select : parse.

Lemma good_tuple_negated n : good false n 0 tuple_negated.
Proof.
  intros s Hw Hs He. unfold tuple_negated. destruct (at_kw s KW_IN) eqn:E1; [|destruct (at_kw s KW_NOT) eqn:E2; cbn [andb]; [|by apply (good_ret false n None s)]].
  - assert (good true n 0 (_ ← advance; mret (Some false))) as Hg by good_run. apply Hg; [done|done|intros _; by eapply live_kw].
  - assert (good true n 0 (_ ← advance; _ ← advance; mret (Some true))) as Hg by good_run.
    destruct (is_kw (kind_at s 1) KW_IN); [|by apply (good_ret false n None s)]. apply Hg; [done|done|intros _; by eapply live_kw].
Qed.

(** Going back to where the attempt started. *)
Lemma good_try_tuple : good false (S m) 0 (try_tuple_in_subquery self).
Proof using Hself.
  intros s Hw Hs He. unfold try_tuple_in_subquery. destruct (at_kind s TkLParen) eqn:Ek; [|by apply (good_ret false (S m) None s)].
  destruct (looks_like_tuple_in s); [|by apply (good_ret false (S m) None s)]. cbn [negb orb].
  assert (is_eof (kind_at s 0) = false) as Hl by (by eapply live_kind; [|exact Ek]).
  assert (forall s1 : Parser, tokens s1 = tokens s -> depth s1 = depth s -> outcome (fun _ => 0%nat) s (rewind (pos s) (@None Expr) s1)) as Hrw.
  { intros s1 H1 H2. unfold outcome, rewind, remaining. cbn. rewrite H1, H2. repeat split; lia. }
  destruct (good_advance_span true (S m) s Hw Hs (fun _ => Hl)) as (A1 & A2 & A3 & A4). unfold mbind at 1, M_bind.
  destruct (advance_span s) as [[sp|e] s1]; [|done]. cbn [fst snd] in *.
  assert (ends_in_eof s1) as Hw1 by (by unfold ends_in_eof; rewrite A1).
  destruct (good_attempt false m (expr_list self) _ good_expr_list s1 Hw1 ltac:(lia) ltac:(done)) as (B1 & B2 & B3 & B4). unfold mbind at 1, M_bind.
  destruct (attempt (expr_list self) s1) as [[[items|]|e] s2]; cbn [fst snd] in *; [|by apply Hrw; congruence|by unfold outcome; cbn; rewrite B1, B2, A1, A2; repeat split; lia || done].
  assert (ends_in_eof s2) as Hw2 by (by unfold ends_in_eof; rewrite B1).
  destruct (good_attempt false m (expect_punct TkRParen (lit "')'")) _ (good_expect false m _ _ (live_kind TkRParen eq_refl)) s2 Hw2 ltac:(lia) ltac:(done)) as (C1 & C2 & C3 & C4).
  unfold mbind at 1, M_bind.
  destruct (attempt (expect_punct TkRParen (lit "')'")) s2) as [[[c|]|e] s3]; cbn [fst snd] in *; [|by apply Hrw; congruence|by unfold outcome; cbn; rewrite C1, C2, B1, B2, A1, A2; repeat split; lia || done].
  assert (ends_in_eof s3) as Hw3 by (by unfold ends_in_eof; rewrite C1).
  destruct (good_tuple_negated (S m) s3 Hw3 ltac:(lia) ltac:(done)) as (D1 & D2 & D3 & D4). unfold mbind at 1, M_bind.
  destruct (tuple_negated s3) as [[[neg|]|e] s4]; cbn [fst snd] in *; [|by apply Hrw; congruence|by unfold outcome; cbn; rewrite D1, D2, C1, C2, B1, B2, A1, A2; repeat split; lia || done].
  destruct (length items <? 2)%nat; [by apply Hrw; congruence|].
  destruct (good_tuple_in_select items neg sp s4) as (E1 & E2 & E3 & E4); [by unfold ends_in_eof; rewrite D1|lia|done|].
  unfold outcome. rewrite E1, E2, D1, D2, C1, C2, B1, B2, A1, A2. repeat split; [lia|]. destruct (tuple_in_select self items neg sp s4).1; [lia|done].
Qed.
#[local] Hint Resolve good_try_tuple : parse.

Lemma good_equality : good false (S m) 0 (equality_expr self).
Proof using Hself. unfold equality_expr. good_run. Qed.
#[local] Hint Resolve good_equality : parse.

Lemma good_not : good false (S m) 0 (not_expr self).
Proof using Hself. unfold not_expr. apply good_guard. good_run. Qed.
#[local] Hint Resolve good_not : parse.

Lemma good_bool_loop fuel p : forall lhs, good false (S m `min` fuel) 0 (bool_loop self fuel p lhs).
Proof using Hself.
  induction fuel as [|fuel IH]; intros lhs; [intros s _ Hs; lia|]. cbn [bool_loop]. intros s Hw Hs He.
  assert (forall f : P Expr, is_eof (kind_at s 0) = false -> good true (S m `min` S fuel) 0 f -> outcome (fun _ => 0%nat) s (f s)) as Hf by (intros f Hk Hf; by apply Hf).
  assert (outcome (fun _ => 0%nat) s ((mret lhs : P Expr) s)) as Hn by (by apply (good_mret false (S m `min` S fuel))).
  destruct (at_kw s KW_AND) eqn:E1; [|destruct (at_kw s KW_OR) eqn:E2; [|exact Hn]].
  - destruct (1 <? p); [exact Hn|]. apply Hf; [by eapply live_kw|]. good_run.
  - destruct (0 <? p); [exact Hn|]. apply Hf; [by eapply live_kw|]. good_run.
Qed.
#[local] Hint Resolve good_bool_loop : parse.

Lemma good_bool p : good false (S m) 0 (bool_expr self p).
Proof using Hself. unfold bool_expr. good_run. Qed.

Lemma good_expr : good false (S m) 0 (expr self).
Proof using Hself. unfold expr. apply good_guard, good_bool. Qed.

(** *** SELECT *)

Lemma good_result_column n : (n <= m)%nat -> good false n 0 (result_column self).
Proof using Hself. intros Hn. unfold result_column. good_run. Qed.

#[local] Hint Resolve good_result_column : parse.

Lemma good_table_ref n : (n <= S m)%nat -> good false n 0 (table_ref self).
Proof using Hself. intros Hn. unfold table_ref, table_ref_subquery. good_run. Qed.
#[local] Hint Resolve good_table_ref : parse.

Lemma good_opt_using n : good false n 0 opt_using.
Proof. unfold opt_using. good_run. Qed.
#[local] Hint Resolve good_opt_using : parse.

Lemma good_comma_join : good false m 0 (comma_join self).
Proof using Hself. unfold comma_join. good_run. Qed.

Lemma good_cross_join natural : good false m 0 (cross_join self natural).
Proof using Hself. unfold cross_join. good_run. Qed.

Lemma good_join_op n : yields false n some_one join_op.
Proof. unfold join_op, outer_op. good_run. Qed.

Lemma good_operator_join op natural : good false m 0 (operator_join self op natural).
Proof using Hself. unfold operator_join. good_run. Qed.
#[local] Hint Resolve good_comma_join good_cross_join good_operator_join : parse.

Lemma good_join_step : yields false (S m) some_one (join_step self).
Proof using Hself.
  unfold join_step. good_run. all: eapply good_after; [apply good_join_op|]. all: intros [op|]; cbn [some_one]; good_run.
Qed.

Lemma good_join_loop fuel : forall joins, good false (S m `min` fuel) 0 (join_loop self fuel joins).
Proof using Hself.
  induction fuel as [|fuel IH]; intros joins; [intros s _ Hs; lia|]. cbn [join_loop]. apply good_round; [eapply good_weaken; [apply good_join_step|lia|done|done]|good_run|good_run].
Qed.
#[local] Hint Resolve good_join_loop : parse.

Lemma good_from n : (n <= S m)%nat -> good false n 0 (parse_from_clause self).
Proof using Hself. intros Hn. unfold parse_from_clause. good_run. Qed.
#[local] Hint Resolve good_from : parse.

Lemma good_opt_from n : (n <= S m)%nat -> good false n 0 (opt_from self).
Proof using Hself. intros Hn. unfold opt_from. good_run. Qed.

Lemma good_opt_distinct n : good false n 0 opt_distinct.
Proof. unfold opt_distinct. good_run. Qed.
#[local] Hint Resolve good_opt_from good_opt_distinct : parse.

Lemma good_group_by : good false m 0 (group_by_tail self).
Proof using Hself. unfold group_by_tail. good_run. Qed.

Lemma good_select_core : good false m 0 (select_core self).
Proof using Hself.
  unfold select_core. good_run. 
Qed.
#[local] Hint Resolve good_group_by good_select_core : parse.

Lemma good_arm union_start op n : (n <= S m)%nat -> good false n 0 (parse_compound_select_arm self union_start op).
Proof using Hself. intros Hn. unfold parse_compound_select_arm. good_run. Qed.
#[local] Hint Resolve good_arm : parse.

Lemma good_compound_loop fuel : forall compound, good false (S m `min` fuel) 0 (compound_loop self fuel compound).
Proof using Hself. induction fuel as [|fuel IH]; intros compound; [intros s _ Hs; lia|]. cbn [compound_loop]. good_run. Qed.
#[local] Hint Resolve good_compound_loop : parse.

Lemma good_opt_nulls n : good false n 0 opt_nulls.
Proof. unfold opt_nulls. good_run. Qed.
#[local] Hint Resolve good_opt_nulls : parse.

Lemma good_ordering : good false m 0 (ordering_term self).
Proof using Hself. unfold ordering_term. good_run. Qed.
#[local] Hint Resolve good_ordering : parse.

Lemma good_order_by : good false (S m) 0 (opt_order_by self).
Proof using Hself. unfold opt_order_by. good_run. Qed.

Lemma good_limit : good false (S m) 0 (opt_limit self).
Proof using Hself. unfold opt_limit. good_run. Qed.

Lemma good_cte : good false (S m) 0 (parse_common_table_expr self).
Proof using Hself. unfold parse_common_table_expr. good_run. Qed.
#[local] Hint Resolve good_order_by good_limit good_cte : parse.

Lemma good_with : good false (S m) 0 (parse_with_clause self).
Proof using Hself. unfold parse_with_clause. good_run. Qed.
#[local] Hint Resolve good_with : parse.

Lemma good_opt_with : good false (S m) 0 (opt_with self).
Proof using Hself. unfold opt_with. good_run. Qed.
#[local] Hint Resolve good_opt_with : parse.

Lemma good_select : good false (S m) 0 (parse_select_stmt self).
Proof using Hself. unfold parse_select_stmt. good_run. Qed.
End Recursion.

Lemma grammar_good n : rec_good n (grammar n).
Proof.
  induction n as [|n IH].
  - split; intros; intros s _ Hs; lia.
  - split; cbn [grammar r_expr r_bool_expr r_not_expr r_binary_expr r_unary_expr r_select];
      eauto using good_expr, good_bool, good_not, good_binary, good_unary, good_select.
Qed.

(** ** The statements *)

Section Stmts.
Context (m : nat) (self : Rec) (Hself : rec_good m self).

#[local] Hint Resolve rg_expr rg_select good_expr_list good_opt_clause good_select : parse.

Lemma good_value_row : good false (S m) 0 (value_row self).
Proof using Hself. unfold value_row. good_run. Qed.
#[local] Hint Resolve good_value_row : parse.

Lemma good_insert_source start : good false (S m) 0 (insert_source self start).
Proof using Hself. unfold insert_source. good_run. Qed.
#[local] Hint Resolve good_insert_source : parse.

Lemma good_insert : good false (S m) 0 (parse_insert_stmt self).
Proof using Hself. unfold parse_insert_stmt. good_run. Qed.

Lemma good_delete : good false (S m) 0 (parse_delete_stmt self).
Proof using Hself. unfold parse_delete_stmt. good_run. Qed.

Lemma good_tuple_assignment : good true (S m) 0 (tuple_assignment self).
Proof using Hself. unfold tuple_assignment. good_run. Qed.
#[local] Hint Resolve good_tuple_assignment : parse.

Lemma good_assignment : good false (S m) 0 (assignment self).
Proof using Hself. unfold assignment. good_run. Qed.
#[local] Hint Resolve good_assignment : parse.

Lemma good_update : good false (S m) 0 (parse_update_stmt self).
Proof using Hself. unfold parse_update_stmt. good_run. Qed.

Lemma good_default : good false (S m) 0 (default_value self).
Proof using Hself. unfold default_value. good_run. Qed.

Lemma good_check : good false (S m) 0 (check_tail self).
Proof using Hself. unfold check_tail. good_run. Qed.

Lemma good_primary_key n : good false n 0 primary_key_tail.
Proof. unfold primary_key_tail. good_run. Qed.
#[local] Hint Resolve good_default good_check good_primary_key : parse.

Lemma good_column_constraint : yields false (S m) some_one (opt_column_constraint self).
Proof using Hself. unfold opt_column_constraint. good_run. Qed.

Lemma good_constraint_loop fuel : forall cs, good false (S m `min` fuel) 0 (constraint_loop self fuel cs).
Proof using Hself.
  induction fuel as [|fuel IH]; intros cs; [intros s _ Hs; lia|]. cbn [constraint_loop]. apply good_round; [eapply good_weaken; [apply good_column_constraint|lia|done|done]|good_run|good_run].
Qed.
#[local] Hint Resolve good_constraint_loop : parse.

Lemma good_column_def : good false (S m) 0 (column_def self).
Proof using Hself. unfold column_def. good_run. Qed.

Lemma good_indexed_column : good false m 0 (indexed_column self).
Proof using Hself. unfold indexed_column. good_run. Qed.
#[local] Hint Resolve good_column_def good_indexed_column : parse.

Lemma good_indexed_columns : good false (S m) 0 (indexed_column_list self).
Proof using Hself. unfold indexed_column_list. good_run. Qed.
#[local] Hint Resolve good_indexed_columns : parse.

Lemma good_table_constraint : good false (S m) 0 (table_constraint self).
Proof using Hself. unfold table_constraint. good_run. Qed.
#[local] Hint Resolve good_table_constraint : parse.

Lemma good_column_loop fuel : forall columns, good false (S m `min` fuel) 0 (column_loop self fuel columns).
Proof using Hself. induction fuel as [|fuel IH]; intros columns; [intros s _ Hs; lia|]. cbn [column_loop]. good_run. Qed.

Lemma good_table_options n end_ : good false n 0 (table_options end_).
Proof.
  unfold table_options. good_run. apply good_eat; [intros s; by destruct (kind_at s 0)|good_run|good_run].
Qed.
#[local] Hint Resolve good_column_loop good_table_options : parse.

Lemma good_create_table : good false (S m) 0 (parse_create_table_stmt self).
Proof using Hself. unfold parse_create_table_stmt. good_run. Qed.

Lemma good_create_index : good false (S m) 0 (parse_create_index_stmt self).
Proof using Hself. unfold parse_create_index_stmt. good_run. Qed.

Lemma good_create_view : good false (S m) 0 (parse_create_view_stmt self).
Proof using Hself. unfold parse_create_view_stmt. good_run. Qed.

Lemma good_explain : good false (S m) 0 (parse_explain_stmt self).
Proof using Hself. unfold parse_explain_stmt. good_run. Qed.
End Stmts.

Lemma good_drop n kw : good false n 0 (drop_tail kw).
Proof. unfold drop_tail. good_run. Qed.
#[export] Hint Resolve good_drop : parse.

Lemma good_drops n : good false n 0 parse_drop_view_stmt /\ good false n 0 parse_drop_table_stmt /\ good false n 0 parse_drop_index_stmt.
Proof. unfold parse_drop_view_stmt, parse_drop_table_stmt, parse_drop_index_stmt. refine (conj _ (conj _ _)); good_run. Qed.

Lemma good_begin_mode n start : good false n 0 (begin_mode start).
Proof. unfold begin_mode. good_run. Qed.

Lemma good_opt_transaction n span : good false n 0 (opt_transaction span).
Proof. unfold opt_transaction. good_run. Qed.
#[export] Hint Resolve good_begin_mode good_opt_transaction : parse.

Lemma good_transactions n : good false n 0 parse_begin_stmt /\ good false n 0 parse_commit_stmt /\ good false n 0 parse_rollback_stmt.
Proof. unfold parse_begin_stmt, parse_commit_stmt, parse_rollback_stmt. refine (conj _ (conj _ _)); good_run. Qed.

Lemma good_pragma_values n : good false n 0 pragma_journal_mode_value /\ good false n 0 pragma_synchronous_value.
Proof. unfold pragma_journal_mode_value, pragma_synchronous_value. refine (conj _ _); good_run. Qed.

Lemma good_pragma n : good false n 0 parse_pragma_stmt.
Proof.
  pose proof (fun n => proj1 (good_pragma_values n)). pose proof (fun n => proj2 (good_pragma_values n)).
  unfold parse_pragma_stmt. good_run.
Qed.

Lemma good_analyze n : good false n 0 parse_analyze_stmt.
Proof. unfold parse_analyze_stmt. good_run. Qed.

Lemma good_semicolons n fuel : good false (n `min` fuel) 0 (skip_semicolons fuel).
Proof. induction fuel as [|fuel IH]; [intros s _ Hs; lia|]. cbn [skip_semicolons]. good_run. Qed.
#[export] Hint Resolve good_semicolons : parse.

Lemma good_expect_end n : good false n 0 expect_end.
Proof. unfold expect_end. good_run. Qed.

(** ** Entry points *)

Lemma run_total {A} (stmt : Rec -> P A) toks : (forall m self, rec_good m self -> good false (S m) 0 (stmt self)) -> ends_in_eof (new_parser toks) -> is_Some (run_parser stmt toks).
Proof.
  intros Hs Hw. unfold run_parser.
  assert (good false (S (S (length toks))) 0 (a ← stmt (grammar (S (length toks))); _ ← expect_end; mret a)) as Hg.
  { eapply (good_then _ _ _ 0); [apply Hs, grammar_good|]. intros a. eapply (good_then _ _ _ 0); [apply good_expect_end|intros; by apply good_mret]. }
  destruct (Hg (new_parser toks) Hw) as (_ & _ & _ & Ho); [unfold remaining; cbn; lia|done|].
  destruct ((a ← stmt (grammar (S (length toks))); _ ← expect_end; mret a) (new_parser toks)) as [[a|[]] s']; by eauto.
Qed.

Lemma tokenize_ends `{Unicode} src : ends_in_eof (new_parser (tokenize src)).
Proof.
  unfold tokenize. destruct (loop_ends (S (length src)) (new_tokenizer src)) as (body & sp & -> & _); [cbn; lia|].
  exists (MkToken TkEof sp). cbn. split; [apply last_snoc|done].
Qed.

Lemma parse_total `{Unicode} {A} (stmt : Rec -> P A) src : (forall m self, rec_good m self -> good false (S m) 0 (stmt self)) -> is_Some (parse_with stmt src).
Proof. intros Hs. apply run_total; [done|apply tokenize_ends]. Qed.

(** ** Theorems *)

(** C9. Every entry point of the parser gives one of the three outcomes on every
    source: no input, however malformed or deeply nested, makes a loop or the
    recursion of the grammar run on. *)
Theorem parser_total `{Unicode} src :
  is_Some (parse_select src) /\ is_Some (parse_explain src) /\ is_Some (parse_insert src) /\ is_Some (parse_delete src) /\ is_Some (parse_update src) /\
  is_Some (parse_create_table src) /\ is_Some (parse_create_index src) /\ is_Some (parse_create_view src) /\ is_Some (parse_drop_view src) /\
  is_Some (parse_drop_table src) /\ is_Some (parse_drop_index src) /\ is_Some (parse_begin src) /\ is_Some (parse_commit src) /\
  is_Some (parse_rollback src) /\ is_Some (parse_pragma src) /\ is_Some (parse_analyze src).
Proof.
  repeat apply conj; apply parse_total; intros m self Hself;
    eauto using good_select, good_explain, good_insert, good_delete, good_update, good_create_table, good_create_index, good_create_view, good_pragma, good_analyze;
    first [apply good_drops|apply good_transactions].
Qed.

(** C31. Parsing an expression leaves the token stream and the nesting depth as
    they were, never moves the cursor back, and within the bound of its
    recursion fails only with a diagnostic, whether it succeeds or fails, so a
    failed attempt does not lower the depth left for what follows. *)
Theorem expr_restores_depth n s r s' : ends_in_eof s -> (remaining s < n)%nat -> expr (grammar n) s = (r, s') ->
  tokens s' = tokens s /\ depth s' = depth s /\ (remaining s' <= remaining s)%nat /\ r <> Err PfDiverged.
Proof.
  intros Hw Hs E. destruct (good_expr n (grammar n) (grammar_good n) s Hw ltac:(lia) ltac:(done)) as (H1 & H2 & H3 & H4). rewrite E in *. cbn in *.
  repeat split; try done. intros ->. by apply H4.
Qed.

Definition sample_parser : Parser := new_parser [MkToken TkLParen (MkSpan 1 1 0 1); MkToken (TkInteger 1) (MkSpan 1 2 1 1); MkToken TkEof (MkSpan 1 3 2 0)].

Lemma expr_restores_depth_witness : depth (expr (grammar 9) sample_parser).2 = 0%nat /\ is_ok (expr (grammar 9) sample_parser).1 = false.
Proof.
  split; [|reflexivity]. destruct (expr (grammar 9) sample_parser) as [r s'] eqn:E.
  apply (expr_restores_depth 9 sample_parser r s' ltac:(eexists; split; [reflexivity|reflexivity]) ltac:(vm_compute; lia) E).
Defined.
