(* ===== verification/Printer.v ===== *)
(** * The pretty-printer of syntax trees ([src/parser/printer.rs])

    The text of every node, as its [Display] writes it.  [Display] of a double
    is the shortest decimal text that reads back as the number, in positional
    notation. *)

From stdpp Require Import prelude list numbers.
From Stdlib Require Import ZArith Lia.
From S2P Require Import Prelude Varint Text Record Float ValueOrder Format Coerce Functions Tokenizer Ast.

Local Open Scope Z_scope.

(** ** Doubles *)

(** [m * 10^p] in positional notation. *)
Definition positional (m p : Z) : str :=
  let ds := decimal m in
  if 0 <=? p then ds ++ repeat 48 (Z.to_nat p)
  else if - p <? len ds then take (Z.to_nat (len ds + p)) ds ++ [46] ++ drop (Z.to_nat (len ds + p)) ds
  else lit "0." ++ repeat 48 (Z.to_nat (- p - len ds)) ++ ds.

(** The decimal with [k] significant digits that stands for [x] and is closest
    to it, the larger of two equally close ones: digits and exponent. *)
Definition digits_for (x e k : Z) : option (Z * Z) :=
  let n := f64_num x in
  let p := e - k + 1 in
  let '(num, den) := if 0 <=? p then (n, UNIT * 10 ^ p) else (n * 10 ^ (- p), UNIT) in
  let low := num / den in
  let reads m := decimal_f64 false m p =? x in
  match reads low, reads (low + 1) with
  | true, true => Some (if 2 * (num - low * den) <? den then low else low + 1, p)
  | true, false => Some (low, p)
  | false, true => Some (low + 1, p)
  | false, false => None
  end.

Fixpoint shortest (fuel : nat) (x e k : Z) : Z * Z :=
  match fuel with
  | O => (0, 0)
  | S fuel => match digits_for x e k with Some r => r | None => shortest fuel x e (k + 1) end
  end.

(** Seventeen digits are enough for every double. *)
Definition display_f64 (x : Z) : str :=
  if f64_is_nan x then lit "NaN"
  else
    let ax := f64_mag x in
    let body :=
      if f64_is_infinite ax then lit "inf"
      else if ax =? 0 then lit "0"
      else let e := decimal_exponent 634 (-324) (f64_num ax) UNIT in let '(m, p) := shortest 17 ax e 1 in positional m p in
    if f64_neg x then lit "-" ++ body else body.

(** ** Leaves *)

Definition print_literal (l : Literal) : str :=
  match l with
  | LInteger v => to_string v
  | LFloat v => display_f64 v
  | LStr s => lit "'" ++ double_apostrophes s ++ lit "'"
  | LBlob b => format_blob b
  | LNull => lit "NULL"
  | LTrue => lit "TRUE"
  | LFalse => lit "FALSE"
  end.

Definition print_param (p : ParamKind) : str :=
  match p with
  | PkAnonymous => lit "?"
  | PkNumbered n => lit "?" ++ to_string n
  | PkColon s => lit ":" ++ s
  | PkAt s => lit "@" ++ s
  | PkDollar s => lit "$" ++ s
  end.

Definition binop_str (op : BinaryOp) : str :=
  match op with
  | BOr => lit "OR" | BAnd => lit "AND" | BEq => lit "=" | BNe => lit "!=" | BLt => lit "<" | BLe => lit "<=" | BGt => lit ">" | BGe => lit ">="
  | BBitAnd => lit "&" | BBitOr => lit "|" | BShl => lit "<<" | BShr => lit ">>" | BAdd => lit "+" | BSub => lit "-"
  | BMul => lit "*" | BDiv => lit "/" | BMod => lit "%" | BConcat => lit "||"
  end.

Definition unop_str (op : UnaryOp) : str := match op with UNot => lit "NOT " | UPlus => lit "+" | UMinus => lit "-" | UBitNot => lit "~" end.

(** The items of a list, [", "] between them. *)
Fixpoint commas (items : list str) : str :=
  match items with [] => [] | [x] => x | x :: r => x ++ lit ", " ++ commas r end.

Definition not_str (negated : bool) : str := if negated then lit "NOT " else [].
Definition opt_str {A} (f : A -> str) (o : option A) : str := match o with Some a => f a | None => [] end.
Definition direction_str (desc : option bool) : str := match desc with Some false => lit " ASC" | Some true => lit " DESC" | None => [] end.
Definition distinct_str (d : option Distinctness) : str := match d with Some DDistinct => lit " DISTINCT" | Some DAll => lit " ALL" | None => [] end.
Definition join_str (op : JoinOp) : str :=
  match op with JInner => lit "JOIN" | JLeft => lit "LEFT JOIN" | JCross => lit "CROSS JOIN" | JRight => lit "RIGHT JOIN" | JFull => lit "FULL JOIN" end.

(** ** Expressions and queries *)

Fixpoint print_expr (e : Expr) : str :=
  match e with MkExpr kind _ => print_kind kind end
with print_kind (kind : ExprKind) : str :=
  match kind with
  | ELiteral l => print_literal l
  | EParam p => print_param p
  | EColumn table catalog name => opt_str (fun c => c ++ lit ".") catalog ++ opt_str (fun t => t ++ lit ".") table ++ name
  | EFunctionCall name distinct args => name ++ lit "(" ++ (if distinct then lit "DISTINCT " else []) ++ print_args args ++ lit ")"
  | EUnary op expr => unop_str op ++ print_expr expr
  | EBinary op lhs rhs => print_expr lhs ++ lit " " ++ binop_str op ++ lit " " ++ print_expr rhs
  | EIs lhs rhs negated => print_expr lhs ++ lit " IS " ++ not_str negated ++ print_expr rhs
  | EIsNull expr negated => print_expr expr ++ lit " " ++ (if negated then lit "NOTNULL" else lit "ISNULL")
  | EBetween expr lo hi negated => print_expr expr ++ lit " " ++ not_str negated ++ lit "BETWEEN " ++ print_expr lo ++ lit " AND " ++ print_expr hi
  | EIn expr items negated => print_expr expr ++ lit " " ++ not_str negated ++ lit "IN (" ++ commas (map print_expr items) ++ lit ")"
  | ELike expr pattern glob negated escape =>
    print_expr expr ++ lit " " ++ not_str negated ++ (if glob then lit "GLOB" else lit "LIKE") ++ lit " " ++ print_expr pattern ++
    match escape with Some e => lit " ESCAPE " ++ print_expr e | None => [] end
  | ECase operand whens else_ =>
    lit "CASE" ++ match operand with Some e => lit " " ++ print_expr e | None => [] end ++
    List.concat (map (fun w => match w with (cond, res) => lit " WHEN " ++ print_expr cond ++ lit " THEN " ++ print_expr res end) whens) ++
    match else_ with Some e => lit " ELSE " ++ print_expr e | None => [] end ++ lit " END"
  | ECast expr type_name => lit "CAST(" ++ print_expr expr ++ lit " AS " ++ type_name ++ lit ")"
  | ECollate expr collation => print_expr expr ++ lit " COLLATE " ++ collation
  | EParen inner => lit "(" ++ print_expr inner ++ lit ")"
  | ESubquery select => lit "(" ++ print_select select ++ lit ")"
  | EExists subquery negated => not_str negated ++ lit "EXISTS (" ++ print_select subquery ++ lit ")"
  | EInSubquery expr subquery negated => print_expr expr ++ lit " " ++ not_str negated ++ lit "IN (" ++ print_select subquery ++ lit ")"
  | EInSubqueryMulti exprs subquery negated =>
    lit "(" ++ commas (map print_expr exprs) ++ lit ") " ++ not_str negated ++ lit "IN (" ++ print_select subquery ++ lit ")"
  end
with print_args (args : FunctionArgs) : str :=
  match args with FaStar => lit "*" | FaList l => commas (map print_expr l) end
with print_select (s : Select) : str :=
  match s with MkSelect with_clause distinct columns from where_clause group_by having compound order_by limit _ =>
    match with_clause with Some w => print_with w ++ lit " " | None => [] end ++
    lit "SELECT" ++ distinct_str distinct ++
    match columns with [] => [] | _ => lit " " ++ commas (map print_column columns) end ++
    match from with Some f => lit " FROM " ++ print_from f | None => [] end ++
    match where_clause with Some e => lit " WHERE " ++ print_expr e | None => [] end ++
    match group_by with [] => [] | _ => lit " GROUP BY " ++ commas (map print_expr group_by) end ++
    match having with Some e => lit " HAVING " ++ print_expr e | None => [] end ++
    List.concat (map (fun arm => lit " " ++ print_compound arm) compound) ++
    match order_by with [] => [] | _ => lit " ORDER BY " ++ commas (map print_ordering order_by) end ++
    match limit with Some l => print_limit l | None => [] end
  end
with print_with (w : WithClause) : str :=
  match w with MkWith ctes _ => lit "WITH " ++ commas (map print_cte ctes) end
with print_cte (c : CommonTableExpr) : str :=
  match c with MkCte name columns query _ =>
    name ++ match columns with Some cols => lit " (" ++ commas cols ++ lit ")" | None => [] end ++ lit " AS (" ++ print_select query ++ lit ")"
  end
with print_compound (c : CompoundSelect) : str :=
  match c with MkCompound op distinct columns from where_clause group_by having _ =>
    match op with CoUnionAll => lit "UNION ALL SELECT" | CoUnion => lit "UNION SELECT" end ++ distinct_str distinct ++
    match columns with [] => [] | _ => lit " " ++ commas (map print_column columns) end ++
    match from with Some f => lit " FROM " ++ print_from f | None => [] end ++
    match where_clause with Some e => lit " WHERE " ++ print_expr e | None => [] end ++
    match group_by with [] => [] | _ => lit " GROUP BY " ++ commas (map print_expr group_by) end ++
    match having with Some e => lit " HAVING " ++ print_expr e | None => [] end
  end
with print_column (c : ResultColumn) : str :=
  match c with
  | RcStar => lit "*"
  | RcTableStar table => table ++ lit ".*"
  | RcExpr expr alias => print_expr expr ++ match alias with Some a => lit " AS " ++ a | None => [] end
  end
with print_table_ref (t : TableRef) : str :=
  match t with MkTableRef kind alias _ => print_table_kind kind ++ match alias with Some a => lit " AS " ++ a | None => [] end end
with print_table_kind (k : TableRefKind) : str :=
  match k with TrName name => name | TrSubquery select => lit "(" ++ print_select select ++ lit ")" end
with print_from (f : FromClause) : str :=
  match f with MkFrom first joins => print_table_ref first ++ List.concat (map (fun j => lit " " ++ print_join j) joins) end
with print_join (j : Join) : str :=
  match j with MkJoin op table constraint natural =>
    (if natural then lit "NATURAL " else []) ++ join_str op ++ lit " " ++ print_table_ref table ++
    match constraint with Some c => print_constraint c | None => [] end
  end
with print_constraint (c : JoinConstraint) : str :=
  match c with JcOn e => lit " ON " ++ print_expr e | JcUsing cols => lit " USING (" ++ commas cols ++ lit ")" end
with print_ordering (t : OrderingTerm) : str :=
  match t with MkOrdering expr desc nulls_last =>
    print_expr expr ++ direction_str desc ++ match nulls_last with Some false => lit " NULLS FIRST" | Some true => lit " NULLS LAST" | None => [] end
  end
with print_limit (l : Limit) : str :=
  match l with MkLimit limit offset =>
    lit " LIMIT " ++ print_expr limit ++ match offset with Some o => lit " OFFSET " ++ print_expr o | None => [] end
  end.

(** ** Statements *)

Definition action_str (a : ConflictAction) : str :=
  match a with CReplace => lit "REPLACE" | CIgnore => lit "IGNORE" | CAbort => lit "ABORT" | CRollback => lit "ROLLBACK" | CFail => lit "FAIL" end.

Definition name_list_str (columns : option (list str)) : str := opt_str (fun cols => lit " (" ++ commas cols ++ lit ")") columns.

Definition print_insert (i : Insert) : str :=
  lit "INSERT" ++ opt_str (fun a => lit " OR " ++ action_str a) (in_or_action i) ++ lit " INTO " ++ in_table i ++ name_list_str (in_columns i) ++
  match in_source i with
  | IsDefaultValues => lit " DEFAULT VALUES"
  | IsValues rows => lit " VALUES " ++ commas (map (fun row => lit "(" ++ commas (map print_expr row) ++ lit ")") rows)
  | IsSelect select => lit " " ++ print_select select
  end.

Definition print_delete (d : Delete) : str := lit "DELETE FROM " ++ de_table d ++ opt_str (fun e => lit " WHERE " ++ print_expr e) (de_where d).

Definition print_default (v : DefaultValue) : str := match v with DvLiteral e => print_expr e | DvParen e => lit "(" ++ print_expr e ++ lit ")" end.

Definition print_column_constraint (c : ColumnConstraint) : str :=
  match c with
  | CcNotNull => lit "NOT NULL"
  | CcPrimaryKey desc autoincrement => lit "PRIMARY KEY" ++ direction_str desc ++ (if autoincrement then lit " AUTOINCREMENT" else [])
  | CcUnique => lit "UNIQUE"
  | CcDefault v => lit "DEFAULT " ++ print_default v
  | CcCheck e => lit "CHECK (" ++ print_expr e ++ lit ")"
  | CcCollate name => lit "COLLATE " ++ name
  end.

Definition print_column_def (c : ColumnDef) : str :=
  cd_name c ++ opt_str (fun t => lit " " ++ t) (cd_type c) ++ List.concat (map (fun k => lit " " ++ print_column_constraint k) (cd_constraints c)).

Definition print_indexed_column (c : IndexedColumn) : str := print_expr (ic_expr c) ++ direction_str (ic_desc c).
Definition write_indexed_columns (cols : list IndexedColumn) : str := commas (map print_indexed_column cols).

Definition print_table_constraint (c : TableConstraint) : str :=
  match c with
  | TcPrimaryKey cols => lit "PRIMARY KEY (" ++ write_indexed_columns cols ++ lit ")"
  | TcUnique cols => lit "UNIQUE (" ++ write_indexed_columns cols ++ lit ")"
  | TcCheck e => lit "CHECK (" ++ print_expr e ++ lit ")"
  end.

Definition print_create_table (t : CreateTable) : str :=
  lit "CREATE TABLE " ++ (if ct_if_not_exists t then lit "IF NOT EXISTS " else []) ++ ct_name t ++ lit " (" ++
  commas (map print_column_def (ct_columns t)) ++ List.concat (map (fun c => lit ", " ++ print_table_constraint c) (ct_constraints t)) ++ lit ")" ++
  (if ct_without_rowid t then lit " WITHOUT ROWID" else if ct_strict t then lit " STRICT" else []).

Definition print_create_index (i : CreateIndex) : str :=
  lit "CREATE " ++ (if ci_unique i then lit "UNIQUE " else []) ++ lit "INDEX " ++ (if ci_if_not_exists i then lit "IF NOT EXISTS " else []) ++
  ci_name i ++ lit " ON " ++ ci_table i ++ lit " (" ++ write_indexed_columns (ci_columns i) ++ lit ")" ++ opt_str (fun e => lit " WHERE " ++ print_expr e) (ci_where i).

Definition print_create_view (v : CreateView) : str :=
  lit "CREATE VIEW " ++ (if cv_if_not_exists v then lit "IF NOT EXISTS " else []) ++ cv_name v ++ name_list_str (cv_columns v) ++ lit " AS " ++ print_select (cv_query v).

Definition if_exists_str (b : bool) : str := if b then lit "IF EXISTS " else [].
Definition print_drop_view (d : DropView) : str := lit "DROP VIEW " ++ if_exists_str (dv_if_exists d) ++ dv_name d.
Definition print_drop_table (d : DropTable) : str := lit "DROP TABLE " ++ if_exists_str (dt_if_exists d) ++ dt_name d.
Definition print_drop_index (d : DropIndex) : str := lit "DROP INDEX " ++ if_exists_str (di_if_exists d) ++ di_name d.

Definition print_mode (m : TransactionMode) : str := match m with TmDeferred => lit "DEFERRED" | TmImmediate => lit "IMMEDIATE" | TmExclusive => lit "EXCLUSIVE" end.
Definition print_begin (b : Begin) : str := lit "BEGIN" ++ opt_str (fun m => lit " " ++ print_mode m) (be_mode b).
Definition print_commit (c : CommitStmt) : str := lit "COMMIT".
Definition print_rollback (r : RollbackStmt) : str := lit "ROLLBACK".

Example display_samples :
  map display_f64 [4607182418800017408; 4607632778762754458; 4591870180066957722; 4621819117588971520; 1; 4890909195324358656]
  = [lit "1"; lit "1.1"; lit "0.1"; lit "10"; lit "0." ++ repeat 48 323 ++ lit "5"; lit "9223372036854776000"].
Proof. by vm_compute. Qed.
