(* ===== verification/PrintTokens.v ===== *)
(** * What the printer is meant to write

    The tokens each node stands for, trees without their spans, and the trees
    the printer handles: operands bind as tightly as their place needs, names
    are plain words, and numbers have a literal. *)

From stdpp Require Import prelude list numbers.
From Stdlib Require Import ZArith Lia.
From S2P Require Import Prelude Varint Text Record Float ValueOrder Format Coerce Functions Tokenizer Ast Grammar Statements Printer.

Local Open Scope Z_scope.

(** ** Trees without spans *)

Definition NO_SPAN : Span := MkSpan 0 0 0 0.

Fixpoint strip (e : Expr) : Expr :=
  match e with MkExpr kind _ => MkExpr (strip_kind kind) NO_SPAN end
with strip_kind (kind : ExprKind) : ExprKind :=
  match kind with
  | ELiteral l => ELiteral l
  | EParam p => EParam p
  | EColumn table catalog name => EColumn table catalog name
  | EFunctionCall name distinct args => EFunctionCall name distinct (strip_args args)
  | EUnary op x => EUnary op (strip x)
  | EBinary op l r => EBinary op (strip l) (strip r)
  | EIs l r negated => EIs (strip l) (strip r) negated
  | EIsNull x negated => EIsNull (strip x) negated
  | EBetween x lo hi negated => EBetween (strip x) (strip lo) (strip hi) negated
  | EIn x items negated => EIn (strip x) (map strip items) negated
  | ELike x pattern glob negated escape => ELike (strip x) (strip pattern) glob negated (match escape with Some e => Some (strip e) | None => None end)
  | ECase operand whens else_ =>
    ECase (match operand with Some e => Some (strip e) | None => None end) (map (fun w => match w with (c, r) => (strip c, strip r) end) whens)
      (match else_ with Some e => Some (strip e) | None => None end)
  | ECast x type_name => ECast (strip x) type_name
  | ECollate x collation => ECollate (strip x) collation
  | EParen x => EParen (strip x)
  | ESubquery s => ESubquery (strip_select s)
  | EExists s negated => EExists (strip_select s) negated
  | EInSubquery x s negated => EInSubquery (strip x) (strip_select s) negated
  | EInSubqueryMulti xs s negated => EInSubqueryMulti (map strip xs) (strip_select s) negated
  end
with strip_args (args : FunctionArgs) : FunctionArgs := match args with FaStar => FaStar | FaList l => FaList (map strip l) end
with strip_select (s : Select) : Select :=
  match s with MkSelect w distinct columns from where_clause group_by having compound order_by limit _ =>
    MkSelect (match w with Some w => Some (strip_with w) | None => None end) distinct (map strip_column columns)
      (match from with Some f => Some (strip_from f) | None => None end) (match where_clause with Some e => Some (strip e) | None => None end)
      (map strip group_by) (match having with Some e => Some (strip e) | None => None end) (map strip_compound compound) (map strip_ordering order_by)
      (match limit with Some l => Some (strip_limit l) | None => None end) NO_SPAN
  end
with strip_with (w : WithClause) : WithClause := match w with MkWith ctes _ => MkWith (map strip_cte ctes) NO_SPAN end
with strip_cte (c : CommonTableExpr) : CommonTableExpr := match c with MkCte name columns query _ => MkCte name columns (strip_select query) NO_SPAN end
with strip_compound (c : CompoundSelect) : CompoundSelect :=
  match c with MkCompound op distinct columns from where_clause group_by having _ =>
    MkCompound op distinct (map strip_column columns) (match from with Some f => Some (strip_from f) | None => None end)
      (match where_clause with Some e => Some (strip e) | None => None end) (map strip group_by) (match having with Some e => Some (strip e) | None => None end) NO_SPAN
  end
with strip_column (c : ResultColumn) : ResultColumn :=
  match c with RcStar => RcStar | RcTableStar t => RcTableStar t | RcExpr e alias => RcExpr (strip e) alias end
with strip_table (t : TableRef) : TableRef := match t with MkTableRef kind alias _ => MkTableRef (strip_table_kind kind) alias NO_SPAN end
with strip_table_kind (k : TableRefKind) : TableRefKind := match k with TrName n => TrName n | TrSubquery s => TrSubquery (strip_select s) end
with strip_from (f : FromClause) : FromClause := match f with MkFrom first joins => MkFrom (strip_table first) (map strip_join joins) end
with strip_join (j : Join) : Join :=
  match j with MkJoin op table constraint natural =>
    MkJoin op (strip_table table) (match constraint with Some c => Some (strip_constraint c) | None => None end) natural
  end
with strip_constraint (c : JoinConstraint) : JoinConstraint := match c with JcOn e => JcOn (strip e) | JcUsing cols => JcUsing cols end
with strip_ordering (t : OrderingTerm) : OrderingTerm := match t with MkOrdering e desc nulls => MkOrdering (strip e) desc nulls end
with strip_limit (l : Limit) : Limit := match l with MkLimit e offset => MkLimit (strip e) (match offset with Some o => Some (strip o) | None => None end) end.

(** ** Tokens *)

Abbreviation toks := (list TokenKind).
Definition K (kw : Keyword) : TokenKind := TkKeyword kw.

Fixpoint comma_toks (items : list toks) : toks := match items with [] => [] | [x] => x | x :: r => x ++ TkComma :: comma_toks r end.
Definition name_toks (names : list str) : toks := comma_toks (map (fun n => [TkIdentifier n]) names).
Definition not_toks (negated : bool) : toks := if negated then [K KW_NOT] else [].

Definition literal_toks (l : Literal) : toks :=
  match l with
  | LInteger v => if v =? I64_MIN then [TkMinus; TkFloat F64_TWO63] else if v <? 0 then [TkMinus; TkInteger (- v)] else [TkInteger v]
  | LFloat v => [TkFloat v]
  | LStr s => [TkString s]
  | LBlob b => [TkBlob b]
  | LNull => [TkNull]
  | LTrue => [TkTrue]
  | LFalse => [TkFalse]
  end.

Definition param_of (p : ParamKind) : Param :=
  match p with PkAnonymous => PAnonymous | PkNumbered n => PNumbered n | PkColon s => PColon s | PkAt s => PAt s | PkDollar s => PDollar s end.

Definition binop_tok (op : BinaryOp) : TokenKind :=
  match op with
  | BOr => K KW_OR | BAnd => K KW_AND | BEq => TkEq | BNe => TkNe | BLt => TkLt | BLe => TkLe | BGt => TkGt | BGe => TkGe | BBitAnd => TkBitAnd | BBitOr => TkBitOr
  | BShl => TkShl | BShr => TkShr | BAdd => TkPlus | BSub => TkMinus | BMul => TkStar | BDiv => TkSlash | BMod => TkPercent | BConcat => TkConcat
  end.
Definition unop_tok (op : UnaryOp) : TokenKind := match op with UNot => K KW_NOT | UPlus => TkPlus | UMinus => TkMinus | UBitNot => TkBitNot end.

(** The words of a type name. *)
Fixpoint words (cur : str) (s : str) : list str :=
  match s with [] => [cur] | c :: r => if c =? 32 then cur :: words [] r else words (cur ++ [c]) r end.
Definition type_toks (t : str) : toks := map TkIdentifier (words [] t).

Definition direction_toks (desc : option bool) : toks := match desc with Some false => [K KW_ASC] | Some true => [K KW_DESC] | None => [] end.
Definition distinct_toks (d : option Distinctness) : toks := match d with Some DDistinct => [K KW_DISTINCT] | Some DAll => [K KW_ALL] | None => [] end.
Definition join_toks (op : JoinOp) : toks :=
  match op with
  | JInner => [K KW_JOIN] | JLeft => [K KW_LEFT; K KW_JOIN] | JCross => [K KW_CROSS; K KW_JOIN] | JRight => [K KW_RIGHT; K KW_JOIN] | JFull => [K KW_FULL; K KW_JOIN]
  end.
Definition alias_toks (alias : option str) : toks := match alias with Some a => [K KW_AS; TkIdentifier a] | None => [] end.

Fixpoint expr_toks (e : Expr) : toks :=
  match e with MkExpr kind _ => kind_toks kind end
with kind_toks (kind : ExprKind) : toks :=
  match kind with
  | ELiteral l => literal_toks l
  | EParam p => [TkParam (param_of p)]
  | EColumn table catalog name =>
    match catalog with Some c => [TkIdentifier c; TkDot] | None => [] end ++ match table with Some t => [TkIdentifier t; TkDot] | None => [] end ++ [TkIdentifier name]
  | EFunctionCall name distinct args => TkIdentifier name :: TkLParen :: (if distinct then [K KW_DISTINCT] else []) ++ args_toks args ++ [TkRParen]
  | EUnary op x => unop_tok op :: expr_toks x
  | EBinary op l r => expr_toks l ++ binop_tok op :: expr_toks r
  | EIs l r negated => expr_toks l ++ K KW_IS :: not_toks negated ++ expr_toks r
  | EIsNull x negated => expr_toks x ++ [K (if negated then KW_NOTNULL else KW_ISNULL)]
  | EBetween x lo hi negated => expr_toks x ++ not_toks negated ++ K KW_BETWEEN :: expr_toks lo ++ K KW_AND :: expr_toks hi
  | EIn x items negated => expr_toks x ++ not_toks negated ++ K KW_IN :: TkLParen :: comma_toks (map expr_toks items) ++ [TkRParen]
  | ELike x pattern glob negated escape =>
    expr_toks x ++ not_toks negated ++ K (if glob then KW_GLOB else KW_LIKE) :: expr_toks pattern ++ match escape with Some e => K KW_ESCAPE :: expr_toks e | None => [] end
  | ECase operand whens else_ =>
    K KW_CASE :: match operand with Some e => expr_toks e | None => [] end ++
    List.concat (map (fun w => match w with (c, r) => K KW_WHEN :: expr_toks c ++ K KW_THEN :: expr_toks r end) whens) ++
    match else_ with Some e => K KW_ELSE :: expr_toks e | None => [] end ++ [K KW_END]
  | ECast x type_name => K KW_CAST :: TkLParen :: expr_toks x ++ K KW_AS :: type_toks type_name ++ [TkRParen]
  | ECollate x collation => expr_toks x ++ [K KW_COLLATE; TkIdentifier collation]
  | EParen x => TkLParen :: expr_toks x ++ [TkRParen]
  | ESubquery s => TkLParen :: select_toks s ++ [TkRParen]
  | EExists s negated => not_toks negated ++ K KW_EXISTS :: TkLParen :: select_toks s ++ [TkRParen]
  | EInSubquery x s negated => expr_toks x ++ not_toks negated ++ K KW_IN :: TkLParen :: select_toks s ++ [TkRParen]
  | EInSubqueryMulti xs s negated => TkLParen :: comma_toks (map expr_toks xs) ++ TkRParen :: not_toks negated ++ K KW_IN :: TkLParen :: select_toks s ++ [TkRParen]
  end
with args_toks (args : FunctionArgs) : toks := match args with FaStar => [TkStar] | FaList l => comma_toks (map expr_toks l) end
with select_toks (s : Select) : toks :=
  match s with MkSelect w distinct columns from where_clause group_by having compound order_by limit _ =>
    match w with Some w => with_toks w | None => [] end ++ K KW_SELECT :: distinct_toks distinct ++ comma_toks (map column_toks columns) ++
    match from with Some f => K KW_FROM :: from_toks f | None => [] end ++ match where_clause with Some e => K KW_WHERE :: expr_toks e | None => [] end ++
    match group_by with [] => [] | _ => K KW_GROUP :: K KW_BY :: comma_toks (map expr_toks group_by) end ++
    match having with Some e => K KW_HAVING :: expr_toks e | None => [] end ++ List.concat (map compound_toks compound) ++
    match order_by with [] => [] | _ => K KW_ORDER :: K KW_BY :: comma_toks (map ordering_toks order_by) end ++
    match limit with Some l => limit_toks l | None => [] end
  end
with with_toks (w : WithClause) : toks := match w with MkWith ctes _ => K KW_WITH :: comma_toks (map cte_toks ctes) end
with cte_toks (c : CommonTableExpr) : toks :=
  match c with MkCte name columns query _ =>
    TkIdentifier name :: match columns with Some cols => TkLParen :: name_toks cols ++ [TkRParen] | None => [] end ++ K KW_AS :: TkLParen :: select_toks query ++ [TkRParen]
  end
with compound_toks (c : CompoundSelect) : toks :=
  match c with MkCompound op distinct columns from where_clause group_by having _ =>
    K KW_UNION :: match op with CoUnionAll => [K KW_ALL] | CoUnion => [] end ++ K KW_SELECT :: distinct_toks distinct ++ comma_toks (map column_toks columns) ++
    match from with Some f => K KW_FROM :: from_toks f | None => [] end ++ match where_clause with Some e => K KW_WHERE :: expr_toks e | None => [] end ++
    match group_by with [] => [] | _ => K KW_GROUP :: K KW_BY :: comma_toks (map expr_toks group_by) end ++
    match having with Some e => K KW_HAVING :: expr_toks e | None => [] end
  end
with column_toks (c : ResultColumn) : toks :=
  match c with RcStar => [TkStar] | RcTableStar t => [TkIdentifier t; TkDot; TkStar] | RcExpr e alias => expr_toks e ++ alias_toks alias end
with table_toks (t : TableRef) : toks := match t with MkTableRef kind alias _ => table_kind_toks kind ++ alias_toks alias end
with table_kind_toks (k : TableRefKind) : toks := match k with TrName n => [TkIdentifier n] | TrSubquery s => TkLParen :: select_toks s ++ [TkRParen] end
with from_toks (f : FromClause) : toks := match f with MkFrom first joins => table_toks first ++ List.concat (map one_join_toks joins) end
with one_join_toks (j : Join) : toks :=
  match j with MkJoin op table constraint natural =>
    (if natural then [K KW_NATURAL] else []) ++ join_toks op ++ table_toks table ++ match constraint with Some c => constraint_toks c | None => [] end
  end
with constraint_toks (c : JoinConstraint) : toks :=
  match c with JcOn e => K KW_ON :: expr_toks e | JcUsing cols => K KW_USING :: TkLParen :: name_toks cols ++ [TkRParen] end
with ordering_toks (t : OrderingTerm) : toks :=
  match t with MkOrdering e desc nulls =>
    expr_toks e ++ direction_toks desc ++ match nulls with Some false => [K KW_NULLS; K KW_FIRST] | Some true => [K KW_NULLS; K KW_LAST] | None => [] end
  end
with limit_toks (l : Limit) : toks :=
  match l with MkLimit e offset => K KW_LIMIT :: expr_toks e ++ match offset with Some o => K KW_OFFSET :: expr_toks o | None => [] end end.

(** ** The trees the printer handles *)

Definition binop_prec (op : BinaryOp) : nat :=
  match op with
  | BLt | BLe | BGt | BGe => 1 | BBitAnd | BBitOr | BShl | BShr => 2 | BAdd | BSub => 3 | BMul | BDiv | BMod => 4 | BConcat => 5 | BOr | BAnd | BEq | BNe => 0
  end.

(** How tightly a node binds: 0 [OR], 1 [AND], 2 [NOT], 3 comparisons, 4 to 8
    the operators of [binary_expr], 9 [COLLATE], 10 prefix operators, 11
    primary expressions. *)
Definition level (kind : ExprKind) : nat :=
  match kind with
  | EBinary BOr _ _ => 0
  | EBinary BAnd _ _ => 1
  | EUnary UNot _ | EExists _ true | EInSubqueryMulti _ _ _ => 2
  | EBinary BEq _ _ | EBinary BNe _ _ | EIs _ _ _ | EIsNull _ _ | EBetween _ _ _ _ | EIn _ _ _ | ELike _ _ _ _ _ | EInSubquery _ _ _ => 3
  | EBinary op _ _ => 3 + binop_prec op
  | ECollate _ _ => 9
  | EUnary _ _ => 10
  | ELiteral (LInteger v) => if v <? 0 then 10 else 11
  | _ => 11
  end.

(** The depth guards between a place of level [L] and a node of level [M]. *)
Definition guards (L M : nat) : nat := ((if (L <=? 2) && (2 <=? M) then 1 else 0) + (if (L <=? 10) && (10 <=? M) then 1 else 0))%nat.

(** [looks_like_tuple_in] on token kinds. *)
Fixpoint tuple_kinds (ks : toks) (depth : Z) (saw : bool) : bool :=
  match ks with
  | [] => false
  | TkEof :: _ => false
  | TkLParen :: ks => tuple_kinds ks (sat_add32 depth 1) saw
  | TkRParen :: ks =>
    if depth =? 0 then
      let kind_is i kw := match ks !! i with Some k => is_kw k kw | None => false end in
      saw && (kind_is 0%nat KW_IN || (kind_is 0%nat KW_NOT && kind_is 1%nat KW_IN))
    else tuple_kinds ks (sat_sub depth 1) saw
  | TkComma :: ks => tuple_kinds ks depth (if depth =? 0 then true else saw)
  | _ :: ks => tuple_kinds ks depth saw
  end.

(** The parenthesised group that starts a comparison is closed in it and does
    not read as the tuple of an [IN]. *)
Fixpoint group_closes (ks : toks) (depth : Z) : bool :=
  match ks with
  | [] | TkEof :: _ => false
  | TkLParen :: ks => group_closes ks (sat_add32 depth 1)
  | TkRParen :: ks => if depth =? 0 then true else group_closes ks (sat_sub depth 1)
  | _ :: ks => group_closes ks depth
  end.
Definition leading_ok (ks : toks) : bool := match ks with TkLParen :: ks => group_closes ks 0 && negb (tuple_kinds ks 0 false) | _ => true end.

Section Printable.
Context `{Unicode}.

(** A word of letters, digits and underscores that is no keyword. *)
Definition ident_ok (w : str) : bool :=
  match w with
  | c :: r => is_ident_start c && negb (is_whitespace c) && forallb is_ident_continue r && (match lookup_word w with TkIdentifier _ => true | _ => false end)
  | [] => false
  end.
Definition param_name_ok (w : str) : bool := negb (bool_decide (w = [])) && forallb is_ident_continue w.
Definition param_ok (p : ParamKind) : bool :=
  match p with PkAnonymous => true | PkNumbered n => (0 <=? n) && (n <=? U32_MAX) | PkColon s | PkAt s | PkDollar s => param_name_ok s end.

(** The text of a double is a literal for it: digits with a fraction, or
    digits too large for an integer. *)
Definition float_ok (v : Z) : bool :=
  let w := display_f64 v in
  let '(ip, rest) := span_digits w in
  negb (bool_decide (ip = [])) &&
  match rest with [] => bool_decide (parse_i64 w = None) | c :: fp => (c =? 46) && forallb is_ascii_digit fp end &&
  bool_decide (parse_f64 w = Some v).

Definition literal_ok (l : Literal) : bool :=
  match l with
  | LInteger v => (v =? I64_MIN) || ((0 <=? v) && (v <=? I64_MAX))
  | LFloat v => float_ok v
  | LBlob b => forallb (fun x => (0 <=? x) && (x <? 256)) b
  | _ => true
  end.

Definition opt_ok {A} (f : A -> bool) (o : option A) : bool := match o with Some a => f a | None => true end.
Definition nonempty {A} (l : list A) : bool := match l with [] => false | _ => true end.
Definition is_none {A} (o : option A) : bool := match o with None => true | Some _ => false end.

Definition head_is_kw (ks : toks) (kw : Keyword) : bool := match ks with k :: _ => is_kw k kw | [] => false end.
Definition is_two63 (e : Expr) : bool := match e_kind e with ELiteral (LFloat f) => f =? F64_TWO63 | _ => false end.

Section Nodes.
Context (ce : nat -> nat -> Expr -> bool) (cs : nat -> bool -> Select -> bool).

(** A whole expression. *)
Definition expr_ok (d : nat) (e : Expr) : bool := (1 <=? d)%nat && ce (d - 1) 0 e.

Definition node_ok (d : nat) (kind : ExprKind) : bool :=
  match kind with
  | ELiteral l => literal_ok l && (match l with LInteger v => negb (v <? 0) || (1 <=? d)%nat | _ => true end)
  | EParam p => param_ok p
  | EColumn table catalog name => opt_ok ident_ok table && opt_ok ident_ok catalog && ident_ok name && (is_none catalog || negb (is_none table))
  | EFunctionCall name _ args => ident_ok name && match args with FaStar => true | FaList l => forallb (expr_ok d) l end
  | EUnary UNot x => ce d 2 x && negb (head_is_kw (expr_toks x) KW_EXISTS)
  | EUnary op x => ce d 10 x && (match op with UMinus => negb (head_is (fun c => (c =? 45) || (c =? 62)) (print_expr x)) && negb (is_two63 x) | _ => true end)
  | EBinary BOr l r => ce d 0 l && ce d 1 r
  | EBinary BAnd l r => ce d 1 l && ce d 2 r
  | EBinary BEq l r | EBinary BNe l r | EIs l r _ => ce d 3 l && ce d 4 r
  | EBinary op l r => ce d (3 + binop_prec op) l && ce d (4 + binop_prec op) r
  | EIsNull x _ => ce d 3 x
  | EBetween x lo hi _ => ce d 3 x && ce d 4 lo && ce d 4 hi
  | EIn x items _ => ce d 3 x && forallb (expr_ok d) items
  | ELike x pattern _ _ escape => ce d 3 x && ce d 4 pattern && opt_ok (ce d 4) escape
  | ECase operand whens else_ => opt_ok (expr_ok d) operand && nonempty whens && forallb (fun w => expr_ok d w.1 && expr_ok d w.2) whens && opt_ok (expr_ok d) else_
  | ECast x type_name => expr_ok d x && forallb ident_ok (words [] type_name)
  | ECollate x collation => ce d 9 x && ident_ok collation
  | EParen x => expr_ok d x
  | ESubquery s => cs d false s
  | EExists s _ => cs d false s
  | EInSubquery x s _ => ce d 3 x && cs d false s
  | EInSubqueryMulti xs s _ => (2 <=? length xs)%nat && forallb (expr_ok d) xs && cs d false s && tuple_kinds (tail (kind_toks kind)) 0 false
  end.

Definition column_ok (d : nat) (c : ResultColumn) : bool :=
  match c with RcStar => true | RcTableStar t => ident_ok t | RcExpr e alias => expr_ok d e && opt_ok ident_ok alias end.

Definition table_ok (d : nat) (t : TableRef) : bool :=
  match t with MkTableRef kind alias _ =>
    opt_ok ident_ok alias && match kind with TrName n => ident_ok n | TrSubquery s => cs d false s && negb (is_none alias) end
  end.

(** A cross join has no [ON], a natural join no constraint, any other join has
    one. *)
Definition join_ok (d : nat) (j : Join) : bool :=
  match j with MkJoin op table constraint natural =>
    table_ok d table &&
    match op, natural, constraint with
    | JCross, false, None => true
    | JCross, false, Some (JcUsing cols) => nonempty cols && forallb ident_ok cols
    | JCross, _, _ => false
    | _, true, None => true
    | _, false, Some (JcOn e) => expr_ok d e
    | _, false, Some (JcUsing cols) => nonempty cols && forallb ident_ok cols
    | _, _, _ => false
    end
  end.
Definition from_ok (d : nat) (f : FromClause) : bool := match f with MkFrom first joins => table_ok d first && forallb (join_ok d) joins end.

Definition core_ok (d : nat) (columns : list ResultColumn) (from : option FromClause) (where_clause : option Expr) (group_by : list Expr) (having : option Expr) : bool :=
  nonempty columns && forallb (column_ok d) columns && opt_ok (from_ok d) from && opt_ok (expr_ok d) where_clause && forallb (expr_ok d) group_by && opt_ok (expr_ok d) having.

Definition compound_ok (d : nat) (c : CompoundSelect) : bool :=
  match c with MkCompound _ _ columns from where_clause group_by having _ =>
    core_ok d columns from where_clause group_by having && (nonempty group_by || is_none having)
  end.

Definition ordering_ok (d : nat) (t : OrderingTerm) : bool := match t with MkOrdering e _ _ => expr_ok d e end.
Definition limit_ok (d : nat) (l : Limit) : bool := match l with MkLimit e offset => expr_ok d e && opt_ok (expr_ok d) offset end.

Definition cte_ok (d : nat) (c : CommonTableExpr) : bool :=
  match c with MkCte name columns query _ => ident_ok name && opt_ok (fun cols => nonempty cols && forallb ident_ok cols) columns && cs d true query end.
Definition with_ok (d : nat) (w : WithClause) : bool := match w with MkWith ctes _ => nonempty ctes && forallb (cte_ok d) ctes end.

(** [with_allowed]: a subquery of an expression or a FROM clause has no WITH. *)
Definition sel_ok (d : nat) (with_allowed : bool) (s : Select) : bool :=
  match s with MkSelect w _ columns from where_clause group_by having compound order_by limit _ =>
    opt_ok (fun w => with_allowed && with_ok d w) w && core_ok d columns from where_clause group_by having &&
    forallb (compound_ok d) compound && forallb (ordering_ok d) order_by && opt_ok (limit_ok d) limit
  end.
End Nodes.

(** [h] bounds the height of the tree, [d] is what is left of the nesting
    depth, [L] the level of the place. *)
Fixpoint canon (h d L : nat) (e : Expr) : bool :=
  match h with
  | O => false
  | S h =>
    let 'MkExpr kind _ := e in
    let M := level kind in
    (L <=? M)%nat && (guards L M <=? d)%nat && (if (L <=? 2)%nat && (3 <=? M)%nat then leading_ok (kind_toks kind) else true) &&
    node_ok (canon h) (csel h) (d - guards L M) kind
  end
with csel (h d : nat) (with_allowed : bool) (s : Select) : bool :=
  match h with O => false | S h => sel_ok (canon h) (csel h) d with_allowed s end.

(** The queries the printer handles. *)
Definition printable (s : Select) : Prop := exists h, csel h MAX_EXPR_DEPTH true s = true.
End Printable.
