(* ===== verification/PrintParse.v ===== *)
(** * The parser reads the tokens of a printable tree back

    For every function of the grammar: on the tokens a node stands for it gives
    the node, up to spans, and stops where they end. *)

From stdpp Require Import prelude list numbers.
From Stdlib Require Import ZArith Lia.
From S2P Require Import Prelude Varint Text Record Float ValueOrder Format Coerce Functions Tokenizer Ast Grammar Statements Printer PrintTokens.

Local Open Scope Z_scope.

(** ** Running on known tokens *)

(** The kinds of the tokens not yet consumed. *)
Definition kinds (s : Parser) : toks := map tok_kind (drop (pos s) (tokens s)).

(** [m] succeeds from [s] with a result in [Q] and leaves the tokens [r]. *)
Definition goes {A} (m : P A) (s : Parser) (r : toks) (Q : A -> Prop) : Prop :=
  exists a s', m s = (Ok a, s') /\ kinds s' = r /\ depth s' = depth s /\ Q a.

Lemma goes_bind {A B} (m : P A) (f : A -> P B) s r1 r (Q : A -> Prop) R :
  goes m s r1 Q -> (forall a s1, kinds s1 = r1 -> depth s1 = depth s -> Q a -> goes (f a) s1 r R) -> goes (mbind f m) s r R.
Proof.
  intros (a & s1 & E & Hk & Hd & HQ) Hf. destruct (Hf a s1 Hk Hd HQ) as (b & s2 & E2 & Hk2 & Hd2 & HR).
  exists b, s2. rewrite (M_bind_ok _ _ _ _ _ E). repeat split; try done; congruence.
Qed.

Lemma goes_ret {A} (a : A) s (Q : A -> Prop) : Q a -> goes (mret a) s (kinds s) Q.
Proof. intros HQ. by exists a, s. Qed.

Lemma goes_mret {A} (a : A) s r (Q : A -> Prop) : kinds s = r -> Q a -> goes (mret a) s r Q.
Proof. intros <- HQ. by apply goes_ret. Qed.

Lemma goes_imp {A} (m : P A) s r (Q Q' : A -> Prop) : goes m s r Q -> (forall a, Q a -> Q' a) -> goes m s r Q'.
Proof. intros (a & s' & H1 & H2 & H3 & H4) Hi. exists a, s'. eauto 10. Qed.

Lemma remaining_kinds s : remaining s = length (kinds s).
Proof. unfold remaining, kinds. rewrite length_map, length_drop. done. Qed.

Lemma kinds_lookup s i k : kinds s !! i = Some k -> kind_at s i = k.
Proof.
  unfold kinds, kind_at, peek_at. rewrite list_lookup_fmap, lookup_drop. intros Hk. destruct (tokens s !! (pos s + i)%nat) as [t|]; [by injection Hk|done].
Qed.

Lemma kind_here s k r : kinds s = k :: r -> kind_at s 0 = k.
Proof. intros E. apply kinds_lookup. by rewrite E. Qed.

Lemma kind_next s k k2 r : kinds s = k :: k2 :: r -> kind_at s 1 = k2.
Proof. intros E. apply kinds_lookup. by rewrite E. Qed.

Lemma goes_advance s k r : kinds s = k :: r -> is_eof k = false -> goes advance s r (fun t => tok_kind t = k).
Proof.
  intros E Hk. unfold goes, advance. pose proof (kind_here s k r E) as Hh. unfold kind_at in Hh. fold (peek s) in Hh. rewrite Hh, Hk. eexists _, _. split; [reflexivity|].
  split; [|by repeat split]. unfold kinds in *. cbn [pos tokens]. replace (drop (S (pos s)) (tokens s)) with (drop 1 (drop (pos s) (tokens s))) by (rewrite drop_drop; f_equal; lia).
  change (map tok_kind (drop 1 (drop (pos s) (tokens s)))) with (tok_kind <$> drop 1 (drop (pos s) (tokens s))). rewrite fmap_drop. change (tok_kind <$> drop (pos s) (tokens s)) with (map tok_kind (drop (pos s) (tokens s))).
  rewrite E. reflexivity.
Qed.

Definition any {A} (a : A) : Prop := True.

Lemma goes_advance_span s k r : kinds s = k :: r -> is_eof k = false -> goes advance_span s r any.
Proof. intros E Hk. eapply goes_bind; [by eapply goes_advance|]. intros a s1 Hs1 _ _. by apply goes_mret. Qed.

(** Tests of the next token. *)
Lemma keyword_eqb_refl k : keyword_eqb k k = true.
Proof. apply Z.eqb_refl. Qed.

Lemma at_kw_here s k r kw : kinds s = k :: r -> at_kw s kw = is_kw k kw.
Proof. intros E. unfold at_kw. by rewrite (kind_here s k r E). Qed.

Lemma at_kind_here s k r k' : kinds s = k :: r -> at_kind s k' = kind_eqb k k'.
Proof. intros E. unfold at_kind. by rewrite (kind_here s k r E). Qed.

Lemma goes_eat_yes test s k r : kinds s = k :: r -> is_eof k = false -> test s = true -> goes (eat test) s r (fun b => b = true).
Proof.
  intros E Hk Ht. destruct (goes_advance s k r E Hk) as (t & s1 & E1 & H1 & H2 & _). unfold goes, eat. rewrite Ht.
  exists true, s1. rewrite (M_bind_ok _ _ _ _ _ E1). done.
Qed.

Lemma goes_eat_no test s : test s = false -> goes (eat test) s (kinds s) (fun b => b = false).
Proof. intros Ht. exists false, s. unfold eat. by rewrite Ht. Qed.

Lemma goes_eat_kw s kw r : kinds s = K kw :: r -> goes (eat_kw kw) s r (fun b => b = true).
Proof. intros E. eapply goes_eat_yes; [done|done|]. rewrite (at_kw_here s _ _ kw E). apply keyword_eqb_refl. Qed.

Lemma goes_no_kw s k r kw : kinds s = k :: r -> is_kw k kw = false -> goes (eat_kw kw) s (k :: r) (fun b => b = false).
Proof. intros E Hk. rewrite <- E. apply goes_eat_no. by rewrite (at_kw_here s _ _ kw E). Qed.

Lemma goes_eat_punct s k r : kinds s = k :: r -> is_eof k = false -> kind_eqb k k = true -> goes (eat_punct k) s r (fun b => b = true).
Proof. intros E He Hk. eapply goes_eat_yes; [done|done|]. by rewrite (at_kind_here s _ _ k E). Qed.

Lemma goes_no_punct s k r k' : kinds s = k :: r -> kind_eqb k k' = false -> goes (eat_punct k') s (k :: r) (fun b => b = false).
Proof. intros E Hk. rewrite <- E. apply goes_eat_no. by rewrite (at_kind_here s _ _ k' E). Qed.

Lemma goes_expect test msg s k r : kinds s = k :: r -> is_eof k = false -> test s = true -> goes (expect test msg) s r any.
Proof. intros E Hk Ht. destruct (goes_advance_span s k r E Hk) as (sp & s1 & H). unfold goes, expect. rewrite Ht. by exists sp, s1. Qed.

Lemma goes_expect_kw s kw r : kinds s = K kw :: r -> goes (expect_kw kw) s r any.
Proof. intros E. eapply goes_expect; [done|done|]. rewrite (at_kw_here s _ _ kw E). apply keyword_eqb_refl. Qed.

Lemma goes_expect_punct s k r what : kinds s = k :: r -> is_eof k = false -> kind_eqb k k = true -> goes (expect_punct k what) s r any.
Proof. intros E He Hk. eapply goes_expect; [done|done|]. by rewrite (at_kind_here s _ _ k E). Qed.

Lemma goes_gets {A} (f : Parser -> A) s : goes (gets f) s (kinds s) (fun a => a = f s).
Proof. by exists (f s), s. Qed.

Lemma goes_refuse test m s : test s = false -> goes (refuse_if test m) s (kinds s) any.
Proof. intros Ht. unfold refuse_if. eapply goes_bind; [apply goes_gets|]. intros a s1 H1 _ ->. rewrite Ht. by apply goes_mret. Qed.

Lemma goes_identifier s name r : kinds s = TkIdentifier name :: r -> goes identifier s r (fun p => p.1 = name).
Proof.
  intros E. destruct (goes_advance_span s _ r E eq_refl) as (sp & s1 & E1 & H1 & H2 & _). exists (name, sp), s1.
  unfold identifier, by_kind. rewrite (kind_here s _ r E). rewrite (M_bind_ok _ _ _ _ _ E1). done.
Qed.

Lemma goes_by_kind {A} (f : TokenKind -> P A) s k r r' Q : kinds s = k :: r -> goes (f k) s r' Q -> goes (by_kind f) s r' Q.
Proof. intros E Hf. unfold by_kind, goes in *. rewrite (kind_here s k r E). exact Hf. Qed.

Lemma goes_prev_span start s : goes (prev_span start) s (kinds s) any.
Proof. by eexists _, s. Qed.

(** One step through a parsing action whose next tokens are known. *)
Ltac leaf :=
  lazymatch goal with
  | |- goes (eat_kw _) _ _ _ => first [eapply goes_eat_kw; eassumption|eapply goes_no_kw; [eassumption|first [reflexivity|eassumption]]]
  | |- goes (eat_punct _) _ _ _ => first [eapply goes_eat_punct; [eassumption|reflexivity|reflexivity]|eapply goes_no_punct; [eassumption|first [reflexivity|eassumption]]]
  | |- goes (expect_kw _) _ _ _ => eapply goes_expect_kw; eassumption
  | |- goes (expect_punct _ _) _ _ _ => eapply goes_expect_punct; [eassumption|reflexivity|reflexivity]
  | |- goes advance _ _ _ => eapply goes_advance; [eassumption|reflexivity]
  | |- goes advance_span _ _ _ => eapply goes_advance_span; [eassumption|reflexivity]
  | |- goes identifier _ _ _ => eapply goes_identifier; eassumption
  | |- goes (gets _) _ _ _ => apply goes_gets
  | |- goes (prev_span _) _ _ _ => apply goes_prev_span
  | |- goes (mret _) _ _ _ => apply goes_ret; reflexivity
  end.
Ltac entered := let a := fresh "a" in let s1 := fresh "s" in let Hk := fresh "Hk" in let Hd := fresh "Hd" in let HQ := fresh "HQ" in intros a s1 Hk Hd HQ; cbv beta in HQ; try subst a.
Ltac seq := eapply goes_bind; [leaf|entered; cbn match].
Ltac here := rewrite ?(at_kw_here _ _ _ _ ltac:(eassumption)), ?(at_kind_here _ _ _ _ ltac:(eassumption)).

(** ** Levels *)

(** The level of the place where a token goes on with an expression; 12 for
    those that never follow one. *)
Definition follow_level (k : TokenKind) : nat :=
  match k with
  | TkKeyword KW_AND => 1
  | TkEq | TkNe | TkKeyword KW_IS | TkKeyword KW_ISNULL | TkKeyword KW_NOTNULL | TkKeyword KW_BETWEEN | TkKeyword KW_IN | TkKeyword KW_LIKE
  | TkKeyword KW_GLOB | TkKeyword KW_NOT | TkKeyword KW_ESCAPE => 3
  | TkKeyword KW_COLLATE => 9
  | TkKeyword KW_OVER | TkKeyword KW_FILTER | TkLParen | TkDot | TkArrow | TkArrowArrow => 12
  | TkLt | TkLe | TkGt | TkGe => 4
  | TkBitAnd | TkBitOr | TkShl | TkShr => 5
  | TkPlus | TkMinus => 6
  | TkStar | TkSlash | TkPercent => 7
  | TkConcat => 8
  | _ => 0
  end.
Definition next_level (r : toks) : nat := match r with k :: _ => follow_level k | [] => 12 end.

(** The tokens [r] end an expression of level [M] at a place of level [L]. *)
Definition cap (L : nat) : nat := match L with 0 | 1 | 2 => 1 | 3 => 3 | 4 | 5 | 6 | 7 | 8 => 8 | 9 => 9 | _ => 11 end%nat.
Definition ends (L M : nat) (r : toks) : Prop := (next_level r <= cap L)%nat /\ (next_level r <= M)%nat /\ ((L <= 3)%nat -> head_is_kw r KW_ESCAPE = false).

Definition same (e e' : Expr) : Prop := strip e' = strip e.

(** [m] comes to the loop [loop] with the tree of [e] read and [r] left. *)
Definition reaches (m : P Expr) (loop : nat -> Expr -> P Expr) (s : Parser) (r : toks) (e : Expr) : Prop :=
  exists F e' s', m s = loop F e' s' /\ (length r < F)%nat /\ kinds s' = r /\ depth s' = depth s /\ same e e'.

(** No tuple of an [IN] starts here. *)
Definition no_tuple (s : Parser) : Prop := at_kind s TkLParen && looks_like_tuple_in s = false.

Definition at_level (g : Rec) (L : nat) (e : Expr) (s : Parser) (r : toks) : Prop :=
  match L with
  | 0 | 1 => reaches (bool_expr g (Z.of_nat L)) (fun F => bool_loop g F (Z.of_nat L)) s r e
  | 2 => goes (not_expr g) s r (same e)
  | 3 => no_tuple s -> reaches (equality_expr g) (equality_loop g) s r e
  | 4 | 5 | 6 | 7 | 8 => reaches (binary_expr g (Z.of_nat (L - 3))) (fun F => binary_loop g F (Z.of_nat (L - 3))) s r e
  | 9 => reaches (collate_expr g) collate_loop s r e
  | 10 => goes (unary_expr g) s r (same e)
  | _ => goes (primary_expr g) s r (same e)
  end%nat.

(** The state inside [k] depth guards. *)
Definition into (k : nat) (s : Parser) : Parser := MkParser (tokens s) (pos s) (k + depth s).

Lemma goes_guard {A} (m : P A) s r Q : (S (depth s) <= MAX_EXPR_DEPTH)%nat -> goes m (into 1 s) r Q -> goes (with_depth_guard m) s r Q.
Proof.
  intros Hd (a & s1 & E & Hk & Hd1 & HQ). unfold goes, with_depth_guard. cbn [depth tokens pos]. rewrite (proj2 (Nat.ltb_ge _ _)) by lia.
  change (MkParser (tokens s) (pos s) (S (depth s))) with (into 1 s). rewrite E. eexists _, _. split; [reflexivity|]. cbn. rewrite Hd1. cbn. repeat split; [done|lia|done].
Qed.

Lemma reaches_fueled m loop s r e : goes m s r (same e) -> reaches (lhs ← m; fueled (fun n => loop n lhs)) loop s r e.
Proof.
  intros (e' & s' & E & Hk & Hd & He). exists (S (remaining s')), e', s'. rewrite (M_bind_ok _ _ _ _ _ E). split; [done|]. rewrite remaining_kinds, Hk. repeat split; [lia|done..].
Qed.

(** A loop that stops at once. *)
Lemma reaches_stop m loop s r e : reaches m loop s r e -> (forall F e' s', (0 < F)%nat -> kinds s' = r -> loop F e' s' = (Ok e', s')) -> goes m s r (same e).
Proof. intros (F & e' & s' & E & HF & Hk & Hd & He) Hl. exists e', s'. rewrite E, Hl by (lia || done). done. Qed.

(** A token below a level is none of the tokens of that level. *)
Ltac by_token k := destruct k as [| | | | | | | |kw| | | | | | | | | | | | | | | | | | | | | | | | | | |]; try done; try (cbn in *; lia); by destruct kw; cbn in *; try lia.
Lemma below_collate k : (follow_level k <= 8)%nat -> is_kw k KW_COLLATE = false.
Proof. intros Hk. by_token k. Qed.
Lemma below_arrow k : (follow_level k <= 11)%nat -> kind_eqb k TkArrow || kind_eqb k TkArrowArrow = false.
Proof. intros Hk. by_token k. Qed.
Lemma below_binary k op q : binary_op k = Some (op, q) -> follow_level k = (3 + Z.to_nat q)%nat /\ 1 <= q.
Proof. destruct k; try done; intros [= <- <-]; done. Qed.

Section Lifts.
Context (g : Rec).

Lemma collate_stops F e s r : (0 < F)%nat -> kinds s = r -> (next_level r <= 8)%nat -> collate_loop F e s = (Ok e, s).
Proof.
  intros HF Hk Hr. destruct F as [|F]; [lia|]. cbn [collate_loop]. destruct r as [|k r]; [cbn in Hr; lia|]. pose proof (below_collate k Hr) as Hn.
  assert (eat_kw KW_COLLATE s = (Ok false, s)) as E by (unfold eat_kw, eat; by rewrite (at_kw_here _ _ _ _ Hk), Hn). by rewrite (M_bind_ok _ _ _ _ _ E).
Qed.

Lemma lift_binary p s r e : reaches (collate_expr g) collate_loop s r e -> (next_level r <= 8)%nat -> reaches (binary_expr g p) (fun F => binary_loop g F p) s r e.
Proof.
  intros Hc Hr. apply (reaches_fueled (arrow_expr g) (fun F => binary_loop g F p)). unfold arrow_expr. eapply goes_bind; [eapply reaches_stop; [exact Hc|]; intros; by eapply collate_stops|].
  intros a s1 Hk Hd Ha. destruct r as [|k r]; [cbn in Hr; lia|]. rewrite <- Hk. eapply goes_bind; [apply goes_refuse|intros _ s2 Hk2 _ _; by apply goes_mret].
  rewrite !(at_kind_here _ _ _ _ Hk). apply below_arrow. cbn in Hr. lia.
Qed.

Lemma binary_stops p F e s r : 1 <= p <= 6 -> (0 < F)%nat -> kinds s = r -> (next_level r < 3 + Z.to_nat p)%nat -> binary_loop g F p e s = (Ok e, s).
Proof.
  intros Hp HF Hk Hr. destruct F as [|F]; [lia|]. cbn [binary_loop]. unfold by_kind. destruct r as [|k r]; [cbn in Hr; lia|]. rewrite (kind_here _ _ _ Hk).
  destruct (binary_op k) as [[op q]|] eqn:E; [|done]. destruct (below_binary k op q E) as [Hf Hq]. cbn [next_level] in Hr. by rewrite (proj2 (Z.ltb_lt q p)) by lia.
Qed.

Lemma no_tuple_none s : no_tuple s -> try_tuple_in_subquery g s = (Ok None, s).
Proof. unfold no_tuple, try_tuple_in_subquery. destruct (at_kind s TkLParen); [|done]. cbn. by intros ->. Qed.

Lemma lift_equality s r e : goes (binary_expr g 1) s r (same e) -> no_tuple s -> reaches (equality_expr g) (equality_loop g) s r e.
Proof.
  intros Hg Ht. destruct (reaches_fueled (binary_expr g 1) (equality_loop g) s r e Hg) as (F & e' & s' & E & H). exists F, e', s'. split; [|done].
  unfold equality_expr. by rewrite (M_bind_ok _ _ _ _ _ (no_tuple_none s Ht)).
Qed.

Lemma equality_stops F e s r : (0 < F)%nat -> kinds s = r -> (next_level r <= 1)%nat -> equality_loop g F e s = (Ok e, s).
Proof.
  intros HF Hk Hr. destruct F as [|F]; [lia|]. cbn [equality_loop]. destruct r as [|k r]; [cbn in Hr; lia|].
  assert (equality_step g e s = (Ok None, s)) as E; [|by rewrite (M_bind_ok _ _ _ _ _ E)].
  unfold equality_step. rewrite (kind_here _ _ _ Hk). cbn [next_level] in Hr. by_token k.
Qed.

Lemma lift_not s r e : (S (depth s) <= MAX_EXPR_DEPTH)%nat -> goes (equality_expr g) (into 1 s) r (same e) -> at_kw s KW_NOT = false -> goes (not_expr g) s r (same e).
Proof.
  intros Hd He Hn. apply goes_guard; [done|]. destruct He as (a & s1 & E & H). exists a, s1. split; [|done]. erewrite M_bind_ok by reflexivity.
  change (at_kw (into 1 s) KW_NOT) with (at_kw s KW_NOT). by rewrite Hn.
Qed.

Lemma lift_unary s r e : (S (depth s) <= MAX_EXPR_DEPTH)%nat -> goes (primary_expr g) (into 1 s) r (same e) -> unary_op (kind_at s 0) = None -> goes (unary_expr g) s r (same e).
Proof. intros Hd He Hn. apply goes_guard; [done|]. unfold by_kind, goes in *. change (kind_at (into 1 s) 0) with (kind_at s 0). by rewrite Hn. Qed.

Lemma bool_stops p F e s r : (0 < F)%nat -> kinds s = r -> (next_level r <= 1)%nat -> ((next_level r = 1)%nat -> 1 < p) -> (head_is_kw r KW_OR = true -> 0 < p) -> bool_loop g F p e s = (Ok e, s).
Proof.
  intros HF Hk Hr Ha Ho. destruct F as [|F]; [lia|]. cbn [bool_loop]. destruct r as [|k r]; [cbn in Hr; lia|]. rewrite !(at_kw_here _ _ _ _ Hk). cbn [next_level head_is_kw] in *.
  destruct (is_kw k KW_AND) eqn:E1.
  - assert (follow_level k = 1%nat) as E by (by_token k). by rewrite (proj2 (Z.ltb_lt 1 p)) by (apply Ha, E).
  - destruct (is_kw k KW_OR); [|done]. by rewrite (proj2 (Z.ltb_lt 0 p)) by by apply Ho.
Qed.
End Lifts.

(** * Expressions read back

    By induction on the height of a printable tree: at every place of the
    grammar the parser reads the tokens of an expression to the same
    expression and stops where they end. *)

(** ** From the level of a node to the level of its place *)

Section Climb.
Context (g : Rec) (e : Expr) (ks r : toks).

(** From a state with the tokens [ks], [j] guards deep. *)
Definition reads (L j : nat) : Prop := forall s, kinds s = ks -> depth s = j -> at_level g L e s r.

Lemma kinds_into j s : kinds (into j s) = kinds s.
Proof. done. Qed.

Lemma step_10 k ks' j : ks = k :: ks' -> unary_op k = None -> (S j <= MAX_EXPR_DEPTH)%nat -> reads 11 (S j) -> reads 10 j.
Proof.
  intros Eks Hu Hd Hr s Hs Hj. apply lift_unary; [lia|apply (Hr (into 1 s)); [done|cbn; lia]|]. rewrite Eks in Hs. by rewrite (kind_here _ _ _ Hs).
Qed.

Lemma step_9 j : reads 10 j -> reads 9 j.
Proof. intros Hr s Hs Hj. apply reaches_fueled. by apply (Hr s). Qed.

Lemma step_4 L j : (4 <= L <= 8)%nat -> (next_level r <= 8)%nat -> reads 9 j -> reads L j.
Proof.
  intros HL Hn Hr s Hs Hj. assert (reaches (binary_expr g (Z.of_nat (L - 3))) (fun F => binary_loop g F (Z.of_nat (L - 3))) s r e) as Hb by (apply lift_binary; [by apply (Hr s)|done]).
  do 9 (destruct L as [|L]; [first [lia|exact Hb]|]). lia.
Qed.

Lemma step_3 j : (next_level r <= 3)%nat -> reads 4 j -> reads 3 j.
Proof.
  intros Hn Hr s Hs Hj Ht. apply lift_equality; [|done]. eapply reaches_stop; [by apply (Hr s)|]. intros; eapply binary_stops; [lia|done|done|cbn; lia].
Qed.

(** [looks_like_tuple_in] looks at kinds only. *)
Lemma tuple_ahead ts d b : tuple_in_ahead ts d b = tuple_kinds (map tok_kind ts) d b.
Proof.
  revert d b. induction ts as [|t ts IH]; intros d b; [done|]. cbn [tuple_in_ahead tuple_kinds map].
  assert (forall i, match ts !! i with Some t => is_kw (tok_kind t) KW_IN | None => false end = match map tok_kind ts !! i with Some k => is_kw k KW_IN | None => false end) as Hi
    by (intros i; change (map tok_kind ts) with (tok_kind <$> ts); rewrite list_lookup_fmap; by destruct (ts !! i)).
  assert (forall i, match ts !! i with Some t => is_kw (tok_kind t) KW_NOT | None => false end = match map tok_kind ts !! i with Some k => is_kw k KW_NOT | None => false end) as Hn
    by (intros i; change (map tok_kind ts) with (tok_kind <$> ts); rewrite list_lookup_fmap; by destruct (ts !! i)).
  destruct (tok_kind t); rewrite ?IH, ?Hi, ?Hn; done.
Qed.

Lemma looks_like_kinds s k r0 : kinds s = k :: r0 -> looks_like_tuple_in s = tuple_kinds r0 0 false.
Proof.
  intros E. unfold looks_like_tuple_in. rewrite tuple_ahead. f_equal. unfold kinds in E.
  destruct (drop (pos s) (tokens s)) as [|t l] eqn:Ed; [done|]. injection E as _ <-. replace (drop (S (pos s)) (tokens s)) with (drop 1 (drop (pos s) (tokens s))) by (rewrite drop_drop; f_equal; lia).
  by rewrite Ed.
Qed.

Lemma no_tuple_kinds s k r0 : kinds s = k :: r0 -> kind_eqb k TkLParen && tuple_kinds r0 0 false = false -> no_tuple s.
Proof. intros E Hn. unfold no_tuple. by rewrite (at_kind_here _ _ _ _ E), (looks_like_kinds _ _ _ E). Qed.

Lemma step_2 k ks' j : ks = k :: ks' -> is_kw k KW_NOT = false -> kind_eqb k TkLParen && tuple_kinds ks' 0 false = false -> (next_level r <= 1)%nat -> (S j <= MAX_EXPR_DEPTH)%nat ->
  reads 3 (S j) -> reads 2 j.
Proof.
  intros Eks Hk Ht Hn Hd Hr s Hs Hj. rewrite Eks in Hs. apply lift_not; [lia| |by rewrite (at_kw_here _ _ _ _ Hs)].
  eapply reaches_stop; [apply (Hr (into 1 s)); [by rewrite kinds_into, Eks|cbn; lia|by eapply no_tuple_kinds]|]. intros; by eapply equality_stops.
Qed.

Lemma step_1 L j : (L <= 1)%nat -> reads 2 j -> reads L j.
Proof.
  intros HL Hr s Hs Hj. pose proof (Hr s Hs Hj) as Hb. cbn in Hb. assert (reaches (bool_expr g (Z.of_nat L)) (fun F => bool_loop g F (Z.of_nat L)) s r e) as Hb' by by apply reaches_fueled.
  by destruct L as [|[|L]]; [exact Hb'|exact Hb'|lia].
Qed.

(** The level a node is read at from a place of level [L]. *)
Definition own (L M : nat) : nat := match M with 0 | 1 => L | 4 | 5 | 6 | 7 | 8 => if (L <=? 3)%nat then 4%nat else L | 2 | 3 | 9 | 10 => M | _ => 11 end%nat.

(** The guards around the level a node is read at. *)
Definition outer (L M : nat) : nat := ((if (L <=? 2) && (3 <=? M) then 1 else 0) + (if (L <=? 10) && (11 <=? M) then 1 else 0))%nat.

Lemma climb L M k ks' j : ks = k :: ks' -> (L <= M <= 11)%nat -> ends L M r -> (j + outer L M <= MAX_EXPR_DEPTH)%nat ->
  ((3 <= M)%nat -> is_kw k KW_NOT = false) -> (M = 11%nat -> unary_op k = None) -> ((L <= 2)%nat -> (3 <= M)%nat -> kind_eqb k TkLParen && tuple_kinds ks' 0 false = false) ->
  reads (own L M) (j + outer L M) -> reads L j.
Proof.
  intros Eks HLM (Hc & Hm & _) Hj Hnot Hun Htu Hr.
  assert (M ∈ seq 0 12 /\ L ∈ seq 0 12) as [HM HL] by (rewrite !elem_of_seq; lia). cbn in HM, HL. rewrite !elem_of_cons, elem_of_nil in HM, HL.
  destruct_or! HM; try done; subst M; destruct_or! HL; try done; subst L; try (exfalso; lia);
  cbn [own outer Nat.leb andb Nat.add cap] in *; rewrite ?Nat.add_0_r, ?Nat.add_1_r, ?(Nat.add_comm j 2) in *;
  try exact Hr; try (apply step_1; [lia|]; try exact Hr); try (eapply step_2; [exact Eks|apply Hnot; lia|apply Htu; lia|lia|lia|]; try exact Hr);
  try (apply step_3; [lia|]; try exact Hr); try (apply step_4; [lia|lia|]; try exact Hr); try (apply step_9; try exact Hr);
  try (eapply step_10; [exact Eks|by apply Hun|lia|]; exact Hr).
Qed.
End Climb.

(** ** How expressions start *)

Definition opens (k : TokenKind) : bool :=
  match k with
  | TkInteger _ | TkFloat _ | TkString _ | TkBlob _ | TkNull | TkTrue | TkFalse | TkParam _ | TkIdentifier _ | TkLParen | TkPlus | TkMinus | TkBitNot
  | TkKeyword KW_CASE | TkKeyword KW_CAST | TkKeyword KW_EXISTS | TkKeyword KW_NOT => true
  | _ => false
  end.
Definition star_ahead (ks : toks) : bool := match ks with TkIdentifier _ :: TkDot :: TkStar :: _ => true | _ => false end.

(** The operand a node starts with. *)
Definition left_of (kind : ExprKind) : option Expr :=
  match kind with
  | EBinary _ x _ | EIs x _ _ | EIsNull x _ | EBetween x _ _ _ | EIn x _ _ | ELike x _ _ _ _ | EInSubquery x _ _ | ECollate x _ => Some x
  | _ => None
  end.

Lemma left_toks kind x : left_of kind = Some x -> exists k t, kind_toks kind = expr_toks x ++ k :: t /\ (follow_level k <= 9)%nat /\ (level kind <= 9)%nat.
Proof.
  destruct kind; try done; intros [= <-]; cbn [kind_toks];
  try destruct op; try destruct negated; try destruct glob; cbn [not_toks app]; eexists _, _; (split; [reflexivity|cbn; lia]).
Qed.

Section Heads.
Context `{Unicode}.

Lemma canon_inv h d L kind sp : canon (S h) d L (MkExpr kind sp) = true ->
  (L <= level kind)%nat /\ (guards L (level kind) <= d)%nat /\ ((L <= 2)%nat -> (3 <= level kind)%nat -> leading_ok (kind_toks kind) = true) /\
  node_ok (canon h) (csel h) (d - guards L (level kind)) kind = true.
Proof.
  cbn [canon]. intros Hc. apply andb_prop in Hc as [Hc H4]. apply andb_prop in Hc as [Hc H3]. apply andb_prop in Hc as [H1%Nat.leb_le H2%Nat.leb_le].
  repeat split; try done. intros HL HM. by rewrite (proj2 (Nat.leb_le _ _) HL), (proj2 (Nat.leb_le _ _) HM) in H3.
Qed.

Lemma left_ok ce cs d kind x : left_of kind = Some x -> node_ok ce cs d kind = true -> ce d (level kind) x = true.
Proof.
  destruct kind; try done; intros [= <-]; cbn [node_ok level]; [|intros Hn; repeat (apply andb_prop in Hn as [Hn _]); exact Hn..].
  destruct op; intros [Hn _]%andb_prop; exact Hn.
Qed.

(** How an expression of a place starts. *)
Definition starts (L : nat) (e : Expr) : Prop :=
  exists k ks, expr_toks e = k :: ks /\ opens k = true /\ ((3 <= L)%nat -> is_kw k KW_NOT = false) /\ forall r, (next_level r <= 11)%nat -> star_ahead (expr_toks e ++ r) = false.

Lemma leaf_starts kind sp : left_of kind = None -> starts (level kind) (MkExpr kind sp).
Proof.
  assert (forall t r, (next_level r <= 11)%nat -> star_ahead (TkIdentifier t :: r) = false) as Hid by (intros t [|k r]; [done|]; destruct k; try done; cbn; lia).
  intros Hl. destruct kind; try done; unfold starts; cbn [expr_toks kind_toks].
  - destruct l; cbn; try (by eexists _, _); repeat (case_match; cbn); by eexists _, _.
  - by eexists _, _.
  - destruct catalog, table; cbn; eexists _, _; (split; [reflexivity|]); (split; [done|]); (split; [done|]); try done; intros r Hr; try done; exact (Hid name _ Hr).
  - by eexists _, _.
  - destruct op; cbn; eexists _, _; (split; [reflexivity|]); repeat split; try done; intros; lia.
  - by eexists _, _.
  - by eexists _, _.
  - by eexists _, _.
  - by eexists _, _.
  - destruct negated; cbn; eexists _, _; (split; [reflexivity|]); repeat split; try done; intros; lia.
  - by eexists _, _.
Qed.

Lemma canon_starts h d L e : canon h d L e = true -> starts L e.
Proof.
  revert d L e. induction h as [|h IH]; [done|]. intros d L [kind sp] Hc. apply canon_inv in Hc as (HL & _ & _ & Hn). destruct (left_of kind) as [x|] eqn:El.
  - destruct (IH _ _ _ (left_ok _ _ _ _ _ El Hn)) as (k & ks & Ek & Ho & Hk & Hr). destruct (left_toks kind x El) as (k' & t & Et & Hk' & _).
    exists k, (ks ++ k' :: t). cbn [expr_toks]. rewrite Et, Ek. repeat split; [done|intros; apply Hk; lia|]. intros r _. rewrite <- Ek, <- app_assoc. apply Hr. cbn; lia.
  - destruct (leaf_starts kind sp El) as (k & ks & Ek & Ho & Hk & Hr). exists k, ks. repeat split; [done..|intros; apply Hk; lia|done].
Qed.

(** Places of one family. *)
Definition kin (L' L : nat) : bool := ((L' <=? L) && ((L <=? 1) || ((4 <=? L') && (L <=? 8))))%nat.
Lemma canon_kin h d L L' e : kin L' L = true -> canon h d L e = true -> canon h d L' e = true.
Proof.
  intros Hk. destruct h as [|h]; [done|]. destruct e as [kind sp]. cbn [canon]. unfold kin in Hk. apply andb_prop in Hk as [H1%Nat.leb_le H2].
  assert (forall M, guards L' M = guards L M /\ (L' <=? 2)%nat = (L <=? 2)%nat) as Hg.
  { intros M. unfold guards. apply orb_prop in H2 as [H2%Nat.leb_le|[H2%Nat.leb_le H3%Nat.leb_le]%andb_prop].
    - by rewrite !(proj2 (Nat.leb_le _ 2)), !(proj2 (Nat.leb_le _ 10)) by lia.
    - by rewrite !(proj2 (Nat.leb_gt _ 2)), !(proj2 (Nat.leb_le _ 10)) by lia. }
  destruct (Hg (level kind)) as [-> ->]. intros Hc. repeat apply andb_prop in Hc as [Hc ?]. repeat (apply andb_true_intro; split); try done. apply Nat.leb_le in Hc. apply Nat.leb_le. lia.
Qed.
End Heads.

(** ** Lists *)

Lemma length_kinds_suffix {s s1 : Parser} {t r : toks} : kinds s = t ++ r -> kinds s1 = r -> (length (kinds s1) <= length (kinds s))%nat.
Proof. intros -> ->. rewrite length_app. lia. Qed.

Section Commas.
Context {A X : Type} (item : P A) (tk : X -> toks) (sim : X -> A -> Prop) (bound j : nat) (r : toks).
Context (Hr : forall k r', r = k :: r' -> kind_eqb k TkComma = false) (Hr0 : r <> []).

(** [item] reads each of [xs], before a comma or before [r]. *)
Definition item_reads (x : X) : Prop :=
  forall s r', kinds s = tk x ++ r' -> depth s = j -> (length (kinds s) <= bound)%nat -> r' = r \/ (exists r2, r' = TkComma :: r2) -> goes item s r' (sim x).

Lemma goes_comma_list xs : Forall item_reads xs ->
  forall F acc s, kinds s = List.concat (map (fun x => TkComma :: tk x) xs) ++ r -> depth s = j -> (length (kinds s) <= bound)%nat -> (length xs < F)%nat ->
  goes (comma_list F item acc) s r (fun l => exists l2, l = acc ++ l2 /\ Forall2 sim xs l2).
Proof.
  intros Hxs. induction Hxs as [|x xs Hx Hxs IH]; intros F acc s Hs Hj Hb HF; (destruct F as [|F]; [cbn in HF; lia|]); cbn [comma_list].
  - cbn in Hs. destruct r as [|k r'] eqn:Er; [done|]. rewrite <- Er in *. eapply goes_bind; [eapply goes_no_punct; [rewrite Hs; exact Er|by eapply Hr]|]. intros b s1 Hk Hd ->. rewrite Er. apply goes_mret; [done|].
    exists []. by rewrite app_nil_r.
  - cbn [map List.concat app] in Hs. rewrite <- app_assoc in Hs. eapply goes_bind; [eapply goes_eat_punct; [exact Hs|done|done]|]. intros b s1 Hk Hd ->.
    set (r' := List.concat (map (fun x => TkComma :: tk x) xs) ++ r) in *.
    eapply goes_bind; [apply (Hx s1 r'); [exact Hk|lia|rewrite Hk; rewrite Hs in Hb; cbn in Hb; lia|]|].
    + destruct xs as [|y ys]; [by left|right]. by eexists.
    + intros a s2 Hk2 Hd2 Ha. eapply goes_imp; [apply (IH F (acc ++ [a]) s2 Hk2); [lia| |cbn in HF; lia]|].
      * rewrite Hs in Hb. rewrite Hk2. cbn in Hb. rewrite length_app in Hb. lia.
      * intros l (l2 & -> & Hl2). exists (a :: l2). rewrite <- app_assoc. split; [done|by constructor].
Qed.

Lemma comma_toks_cons x xs : comma_toks (map tk (x :: xs)) = tk x ++ List.concat (map (fun x => TkComma :: tk x) xs).
Proof.
  revert x. induction xs as [|y ys IH]; intros x; [cbn; by rewrite app_nil_r|]. transitivity (tk x ++ TkComma :: comma_toks (map tk (y :: ys))); [done|]. by rewrite IH.
Qed.

Lemma goes_comma_separated xs s : xs <> [] -> Forall item_reads xs -> kinds s = comma_toks (map tk xs) ++ r -> depth s = j -> (length (kinds s) <= bound)%nat ->
  goes (comma_separated item) s r (Forall2 sim xs).
Proof.
  intros Hne Hxs Hs Hj Hb. destruct xs as [|x xs]; [done|]. inversion Hxs as [|? ? Hx Hxs']; subst. rewrite comma_toks_cons, <- app_assoc in Hs.
  eapply goes_bind; [apply (Hx s _ Hs Hj Hb)|].
  - destruct xs as [|y ys]; [by left|right]. by eexists.
  - intros a s1 Hk Hd Ha. unfold fueled, goes. assert (length xs < S (remaining s1))%nat as HF.
    { rewrite remaining_kinds, Hk, length_app. clear. induction xs as [|y ys IH]; cbn [map List.concat length]; [lia|]. rewrite length_app. cbn. rewrite ?length_app in *. lia. }
    destruct (goes_comma_list xs Hxs' (S (remaining s1)) [a] s1 Hk) as (l & s2 & E & Hk2 & Hd2 & l2 & -> & Hl2); [lia|pose proof (length_kinds_suffix Hs Hk); lia|exact HF|].
    exists ([a] ++ l2), s2. refine (conj E (conj Hk2 (conj _ _))); [lia|by constructor].
Qed.
End Commas.

Lemma goes_name_list names s r : names <> [] -> kinds s = name_toks names ++ r -> next_level r <> 12%nat -> (forall k r', r = k :: r' -> kind_eqb k TkComma = false) -> goes name_list s r (fun l => l = names).
Proof.
  intros Hne Hs Hr0 Hr. eapply goes_bind; [eapply (goes_comma_separated identifier (fun n => [TkIdentifier n]) (fun n p => p.1 = n) (length (kinds s)) (depth s) r); [done|by destruct r|done| |exact Hs|done|done]|].
  - apply Forall_forall. intros x _ s1 r' Hs1 _ _ _. by apply goes_identifier.
  - intros l s1 Hk _ Hl. apply goes_mret; [done|]. clear -Hl. induction Hl as [|x p xs l Hp Hl IH]; [done|]. cbn. by rewrite Hp, IH.
Qed.
