(* ===== verification/PrintExpr.v ===== *)
(** * Expressions read back

    By induction on the height of a printable tree: at every place of the
    grammar the parser reads the tokens of an expression to the same
    expression and stops where they end. *)

From stdpp Require Import prelude list numbers.
From Stdlib Require Import ZArith Lia.
From S2P Require Import Prelude Varint Text Record Float ValueOrder Format Coerce Functions Tokenizer Ast Grammar Statements Printer PrintTokens PrintParse.

Local Open Scope Z_scope.

(** What may follow a query, and a whole expression. *)
Definition closes (r : toks) : bool := match r with TkRParen :: _ | TkSemicolon :: _ | TkEof :: _ => true | _ => false end.
Definition expr_end (r : toks) : bool := (next_level r =? 0)%nat && negb (head_is_kw r KW_OR).

Definition same_select (q q' : Select) : Prop := strip_select q' = strip_select q.

(** Lengths and depths of states whose tokens are known. *)
Ltac fits :=
  repeat match goal with H : kinds ?s = _ |- context [length (kinds ?s)] => rewrite H end;
  repeat match goal with H : kinds ?s = _, H2 : context [length (kinds ?s)] |- _ => rewrite H in H2 end;
  repeat match goal with H : context [length (_ ++ _)] |- _ => rewrite length_app in H | H : context [length (_ :: _)] |- _ => progress cbn [length] in H end;
  repeat first [rewrite length_app|progress cbn [length]]; lia.
Ltac tidy H := cbn [app] in H; repeat (rewrite <- app_assoc in H; cbn [app] in H).

Section Induction.
Context `{Unicode} (h : nat).
Context (IHe : forall n L e d s r, canon h d L e = true -> kinds s = expr_toks e ++ r -> (depth s + d <= MAX_EXPR_DEPTH)%nat -> (length (kinds s) <= n)%nat ->
  ends L (level (e_kind e)) r -> at_level (grammar n) L e s r).
Context (IHs : forall n wa q d s r, csel h d wa q = true -> kinds s = select_toks q ++ r -> (depth s + d <= MAX_EXPR_DEPTH)%nat -> (length (kinds s) <= n)%nat ->
  closes r = true -> goes (parse_select_stmt (grammar n)) s r (same_select q)).

(** ** Operands *)

Lemma canon_level d L e : canon h d L e = true -> (L <= level (e_kind e))%nat.
Proof. clear. destruct h as [|h']; [done|]. destruct e as [kind sp]. by intros (HL & _)%canon_inv. Qed.

Lemma low_end r : (next_level r <= 2)%nat -> head_is_kw r KW_ESCAPE = false.
Proof. destruct r as [|k r]; [done|]. cbn [next_level head_is_kw]. intros Hk. by_token k. Qed.

Lemma read_expr n d e s r : expr_ok (canon h) d e = true -> kinds s = expr_toks e ++ r -> (depth s + d <= MAX_EXPR_DEPTH)%nat -> (length (kinds s) < n)%nat -> expr_end r = true ->
  goes (r_expr (grammar n)) s r (same e).
Proof.
  unfold expr_ok, expr_end. intros [Hd1%Nat.leb_le Hc]%andb_prop Hs Hd Hn [Hr%Nat.eqb_eq Ho%negb_true_iff]%andb_prop. destruct n as [|n]; [lia|].
  apply goes_guard; [lia|]. eapply reaches_stop.
  - apply (IHe n 0%nat e (d - 1)%nat (into 1 s) r Hc); [done|cbn; lia|rewrite kinds_into; lia|]. rewrite <- (Nat.add_0_l (level _)). repeat split; [rewrite Hr; cbn; lia|lia|intros _; apply low_end; lia].
  - intros F e' s' HF Hk. eapply bool_stops; [done|done|lia|lia|by rewrite Ho].
Qed.

Lemma read_and_operand n d e s r : canon h d 1 e = true -> kinds s = expr_toks e ++ r -> (depth s + d <= MAX_EXPR_DEPTH)%nat -> (length (kinds s) < n)%nat -> next_level r = 0%nat ->
  goes (r_bool_expr (grammar n) 1) s r (same e).
Proof.
  intros Hc Hs Hd Hn Hr. destruct n as [|n]; [lia|]. eapply reaches_stop.
  - apply (IHe n 1%nat e d s r Hc Hs Hd); [lia|]. repeat split; [rewrite Hr; cbn; lia|lia|intros _; apply low_end; lia].
  - intros F e' s' HF Hk. eapply bool_stops; [done|done|lia|lia|done].
Qed.

Lemma read_not n d e s r : canon h d 2 e = true -> kinds s = expr_toks e ++ r -> (depth s + d <= MAX_EXPR_DEPTH)%nat -> (length (kinds s) <= n)%nat -> (next_level r <= 1)%nat ->
  goes (not_expr (grammar n)) s r (same e).
Proof.
  intros Hc Hs Hd Hn Hr. apply (IHe n 2%nat e d s r Hc Hs Hd Hn). pose proof (canon_level _ _ _ Hc). repeat split; [cbn; lia|lia|intros _; apply low_end; lia].
Qed.

Lemma read_binary n d p e s r : (1 <= p <= 6)%nat -> canon h d (3 + p) e = true -> kinds s = expr_toks e ++ r -> (depth s + d <= MAX_EXPR_DEPTH)%nat -> (length (kinds s) <= n)%nat ->
  (next_level r < 3 + p)%nat -> goes (binary_expr (grammar n) (Z.of_nat p)) s r (same e).
Proof.
  intros Hp Hc Hs Hd Hn Hr. pose proof (canon_level _ _ _ Hc) as HM. assert (ends (3 + p) (level (e_kind e)) r) as He.
  { refine (conj _ (conj _ _)); [|lia|lia]. do 7 (destruct p as [|p]; [cbn in *; lia|]). lia. }
  pose proof (IHe n (3 + p)%nat e d s r Hc Hs Hd Hn He) as Hl.
  assert (reaches (binary_expr (grammar n) (Z.of_nat p)) (fun F => binary_loop (grammar n) F (Z.of_nat p)) s r e) as Hb.
  { do 6 (destruct p as [|p]; [first [lia|exact Hl]|]). destruct p as [|p]; [|lia]. apply lift_binary; [exact Hl|lia]. }
  eapply reaches_stop; [exact Hb|]. intros. eapply binary_stops; [lia|done|done|lia].
Qed.

Lemma read_unary n d e s r : canon h d 10 e = true -> kinds s = expr_toks e ++ r -> (depth s + d <= MAX_EXPR_DEPTH)%nat -> (length (kinds s) <= n)%nat -> (next_level r <= 10)%nat ->
  goes (unary_expr (grammar n)) s r (same e).
Proof.
  intros Hc Hs Hd Hn Hr. apply (IHe n 10%nat e d s r Hc Hs Hd Hn). pose proof (canon_level _ _ _ Hc). repeat split; [cbn; lia|lia|lia].
Qed.

Lemma strip_list xs l : Forall2 same xs l -> map strip l = map strip xs.
Proof. induction 1 as [|x y xs l Hx Hl IH]; [done|]. cbn. by rewrite Hx, IH. Qed.

Definition after_list (r : toks) : bool := expr_end r && match r with k :: _ => negb (kind_eqb k TkComma) | [] => false end.

Lemma item_end r r' : after_list r = true -> r' = r \/ (exists r2, r' = TkComma :: r2) -> expr_end r' = true.
Proof. intros [Hr _]%andb_prop [->|[r2 ->]]; done. Qed.

Lemma list_end r : after_list r = true -> (forall k r', r = k :: r' -> kind_eqb k TkComma = false) /\ r <> [].
Proof. intros [_ Hr]%andb_prop. destruct r as [|k r]; [done|]. split; [|done]. intros k' r' [= <- <-]. by apply negb_true_iff. Qed.

Lemma read_expr_list n d xs s r : xs <> [] -> forallb (expr_ok (canon h) d) xs = true -> kinds s = comma_toks (map expr_toks xs) ++ r -> (depth s + d <= MAX_EXPR_DEPTH)%nat ->
  (length (kinds s) < n)%nat -> after_list r = true -> goes (expr_list (grammar n)) s r (fun l => map strip l = map strip xs).
Proof.
  intros Hne Hxs Hs Hd Hn Hr. destruct (list_end r Hr) as [Hc Hr0]. eapply goes_imp; [|apply strip_list].
  eapply (goes_comma_separated _ expr_toks same (length (kinds s)) (depth s) r Hc Hr0); [done| |exact Hs|done|done].
  apply Forall_forall. intros x Hx s1 r' Hs1 Hd1 Hl1 Hr'. apply (read_expr n d x s1 r'); [|exact Hs1|lia|lia|by eapply item_end].
  rewrite forallb_forall in Hxs. by apply Hxs.
Qed.

Lemma subquery_toks d q : csel h d false q = true -> exists t, select_toks q = K KW_SELECT :: t.
Proof. clear. destruct h as [|h']; [done|]. destruct q as [[w|] ? ? ? ? ? ? ? ? ? ?]; [done|]. intros _. by eexists. Qed.

Lemma read_subquery n d q s r what : csel h d false q = true -> kinds s = select_toks q ++ TkRParen :: r -> (depth s + d <= MAX_EXPR_DEPTH)%nat -> (length (kinds s) < n)%nat ->
  goes (subquery_tail (grammar n) what) s r (fun p => same_select q p.1).
Proof.
  intros Hc Hs Hd Hn. destruct n as [|n]; [lia|]. eapply goes_bind; [apply (IHs n false q d s _ Hc Hs Hd); [lia|done]|]. intros q' s1 Hk Hd1 Hq.
  eapply goes_bind; [apply goes_refuse; unfold at_compound; by rewrite !(at_kw_here _ _ _ _ Hk)|]. intros _ s2 Hk2 _ _. rewrite Hk in Hk2.
  eapply goes_bind; [leaf|]. intros sp s3 Hk3 _ _. by apply goes_mret.
Qed.

Lemma reaches_step m loop s0 r1 r2 e1 e : reaches m loop s0 r1 e1 -> (length r2 < length r1)%nat ->
  (forall F e' s', kinds s' = r1 -> depth s' = depth s0 -> same e1 e' -> exists e2 s2, loop (S F) e' s' = loop F e2 s2 /\ kinds s2 = r2 /\ depth s2 = depth s' /\ same e e2) -> reaches m loop s0 r2 e.
Proof.
  intros (F & e' & s' & E & HF & Hk & Hd1 & He) Hl Hstep. destruct F as [|F]; [lia|]. destruct (Hstep F e' s' Hk Hd1 He) as (e2 & s2 & E2 & Hk2 & Hd2 & He2).
  exists F, e2, s2. rewrite E, E2. refine (conj eq_refl (conj _ (conj Hk2 (conj _ He2)))); lia.
Qed.

Lemma goes_if_gets {A} (test : Parser -> bool) (m1 m2 : P A) s0 r0 b Q : test s0 = b -> goes (if b then m1 else m2) s0 r0 Q -> goes (c ← gets test; if c : bool then m1 else m2) s0 r0 Q.
Proof. intros Hb Hg. unfold goes in *. erewrite M_bind_ok by reflexivity. by rewrite Hb. Qed.

Lemma goes_no_refuse {B} test m (f : P B) s0 r0 Q : test s0 = false -> goes f s0 r0 Q -> goes (_ ← refuse_if test m; f) s0 r0 Q.
Proof. intros Ht Hf. unfold goes, refuse_if in *. erewrite M_bind_ok; [exact Hf|]. erewrite M_bind_ok by reflexivity. by rewrite Ht. Qed.

Lemma opens_not k : opens k = true -> is_kw k KW_DISTINCT = false /\ is_kw k KW_ALL = false /\ is_kw k KW_SELECT = false /\ is_kw k KW_WHEN = false /\ kind_eqb k TkStar = false /\ k <> TkRParen.
Proof. intros Hk. by_token k. Qed.

Lemma expr_starts d0 e : expr_ok (canon h) d0 e = true -> starts 0 e.
Proof. intros [_ Hc]%andb_prop. by eapply canon_starts. Qed.

Lemma list_starts d0 x xs : forallb (expr_ok (canon h) d0) (x :: xs) = true -> exists k t, comma_toks (map expr_toks (x :: xs)) = k :: t /\ opens k = true.
Proof.
  intros [(k & t & E & Ho & _)%expr_starts _]%andb_prop. rewrite comma_toks_cons, E. by eexists _, _.
Qed.

Lemma words_join t cur : exists w ws, words cur t = w :: ws /\ w ++ List.concat (map (fun x => [32] ++ x) ws) = cur ++ t.
Proof.
  revert cur. induction t as [|c t IH]; intros cur; cbn [words]; [exists cur, []; cbn; by rewrite app_nil_r|]. destruct (Z.eqb_spec c 32) as [->|Hc].
  - destruct (IH []) as (w & ws & E & Hj). exists cur, (w :: ws). rewrite E. split; [done|]. cbn in *. by rewrite Hj.
  - destruct (IH (cur ++ [c])) as (w & ws & E & Hj). exists w, ws. by rewrite E, Hj, <- app_assoc.
Qed.

Lemma read_type_words ws t : forall F acc s0, kinds s0 = map TkIdentifier ws ++ TkRParen :: t -> (length ws < F)%nat ->
  goes (type_words F acc) s0 (TkRParen :: t) (fun x => x = acc ++ List.concat (map (fun x => [32] ++ x) ws)).
Proof.
  induction ws as [|w ws IH]; intros F acc s0 Hs HF; (destruct F as [|F]; [cbn in HF; lia|]); cbn [type_words]; cbn in Hs;
    (eapply goes_if_gets; [by rewrite (kind_here _ _ _ Hs)|]); cbn [is_ident].
  - apply goes_mret; [done|]. by rewrite app_nil_r.
  - eapply goes_bind; [leaf|]. intros p s1 Hk _ Hp. cbn in Hp. rewrite Hp. eapply goes_imp; [apply (IH F _ s1 Hk); cbn in HF; lia|]. intros x ->. cbn. by rewrite <- !app_assoc.
Qed.

Lemma read_type_name t s0 t0 : kinds s0 = type_toks t ++ TkRParen :: t0 -> goes type_name s0 (TkRParen :: t0) (fun x => x = t).
Proof.
  intros Hs. unfold type_toks in Hs. destruct (words_join t []) as (w & ws & E & Hj). rewrite E in Hs. cbn [map app] in Hs. eapply goes_bind; [leaf|]. intros p s1 Hk _ Hp. cbn in Hp.
  eapply goes_bind; [unfold fueled, goes; apply (read_type_words ws t0 (S (remaining s1)) p.1 s1 Hk); rewrite remaining_kinds, Hk, length_app, length_map; cbn; lia|].
  intros x s2 Hk2 _ ->. eapply goes_bind; [leaf|]. intros b s3 Hk3 _ ->. apply goes_mret; [done|]. by rewrite Hp.
Qed.

Lemma same_two63 x x' : same x x' -> is_two63 x' = is_two63 x.
Proof. destruct x as [k sx], x' as [k' sx']. unfold same, is_two63. cbn. intros [= E]. destruct k, k'; try done; cbn in E; by inversion E. Qed.

Lemma negate_same op x x' : op <> UNot -> same x x' -> (op = UMinus -> is_two63 x = false) -> strip_kind (negate_literal op x') = strip_kind (EUnary op x).
Proof.
  intros Hop Hx Hm. assert (negate_literal op x' = EUnary op x') as ->.
  { destruct op; try done. rewrite <- (same_two63 x x' Hx) in Hm. specialize (Hm eq_refl). unfold is_two63 in Hm. cbn. destruct (e_kind x') as [[]| | | | | | | | | | | | | | | | | |]; try done. by rewrite Hm. }
  cbn. by rewrite Hx.
Qed.

Lemma binop_level op : binop_prec op <> 0%nat -> binary_op (binop_tok op) = Some (op, Z.of_nat (binop_prec op)) /\ follow_level (binop_tok op) = (3 + binop_prec op)%nat /\ (1 <= binop_prec op <= 5)%nat /\
  is_eof (binop_tok op) = false.
Proof. destruct op; cbn; try done; intros _; repeat split; lia. Qed.

Lemma param_back p : param_kind (param_of p) = p.
Proof. by destruct p. Qed.

Lemma read_exists_tail n d r sp q start negated s0 : csel h d false q = true -> kinds s0 = TkLParen :: select_toks q ++ TkRParen :: r -> (depth s0 + d <= MAX_EXPR_DEPTH)%nat -> (length (kinds s0) <= n)%nat ->
  goes (exists_tail (grammar n) start negated) s0 r (same (MkExpr (EExists q negated) sp)).
Proof.
  intros Hq Hs Hd0 Hn0. eapply goes_bind; [leaf|]. intros sp1 s1 Hk1 Hd1 _. destruct (subquery_toks d q Hq) as [t Et].
  eapply goes_no_refuse; [rewrite Et in Hk1; cbn [app] in Hk1; by rewrite (at_kw_here _ _ _ _ Hk1)|].
  eapply goes_bind; [apply (read_subquery n d q _ _ _ Hq Hk1); [lia|fits]|]. intros p s2 Hk2 Hd2 Hp. apply goes_mret; [done|]. unfold same, same_select in *. cbn [strip strip_kind]. by rewrite Hp.
Qed.

Lemma goes_opt_clause n d kw (o : option Expr) s0 k t : opt_ok (expr_ok (canon h) d) o = true -> kinds s0 = match o with Some e => K kw :: expr_toks e | None => [] end ++ k :: t -> is_kw k kw = false ->
  (depth s0 + d <= MAX_EXPR_DEPTH)%nat -> (length (kinds s0) <= n)%nat -> expr_end (k :: t) = true -> goes (opt_clause (grammar n) kw) s0 (k :: t) (fun o' => option_map strip o' = option_map strip o).
Proof.
  intros Ho Hs Hk Hd0 Hn0 Hend. destruct o as [e|]; cbn [app] in Hs; unfold opt_clause; (eapply goes_bind; [leaf|]); intros b s1 Hk1 Hd1 ->; [|by apply goes_mret].
  eapply goes_bind; [apply (read_expr n d e _ _ Ho Hk1); [lia|fits|done]|]. intros e' s2 Hk2 _ He'. apply goes_mret; [done|]. cbn. by rewrite He'.
Qed.

(** ** Primary expressions *)

Section Node.
Context (n d : nat) (s : Parser) (r : toks) (sp : Span) (Hd : (depth s + d <= MAX_EXPR_DEPTH)%nat) (Hn : (length (kinds s) <= n)%nat) (Hr : (next_level r <= 11)%nat).

Lemma r_head : exists k r', r = k :: r' /\ (follow_level k <= 11)%nat.
Proof. clear -Hr. destruct r as [|k r']; [cbn in Hr; lia|]. by exists k, r'. Qed.

Lemma read_literal k l : kinds s = k :: r -> token_literal k = Some l -> goes (primary_expr (grammar n)) s r (same (MkExpr (ELiteral l) sp)).
Proof.
  clear Hr. intros Hs Hl. eapply goes_by_kind; [exact Hs|]. rewrite Hl. eapply goes_bind; [eapply goes_advance_span; [exact Hs|by destruct k]|]. intros a s1 Hk _ _. by apply goes_mret.
Qed.

Lemma read_param p : kinds s = TkParam (param_of p) :: r -> goes (primary_expr (grammar n)) s r (same (MkExpr (EParam p) sp)).
Proof. intros Hs. eapply goes_by_kind; [exact Hs|]. cbn. seq. apply goes_mret; [done|]. unfold same. cbn. by rewrite param_back. Qed.

Ltac look := cbv beta; repeat first [erewrite at_kw_here by eassumption|erewrite at_kind_here by eassumption]; first [eassumption|reflexivity].
Ltac test := eapply goes_if_gets; [look|cbn iota].

Lemma read_parts room names parts s0 : (length names <= room)%nat -> kinds s0 = List.concat (map (fun x => [TkDot; TkIdentifier x]) names) ++ r -> goes (dotted_parts room parts) s0 r (fun l => l = parts ++ names).
Proof.
  destruct r_head as (k & r' & -> & Hk). assert (kind_eqb k TkDot = false) as Hdot by by_token k.
  revert room parts s0. induction names as [|x names IH]; intros room parts s0 Hroom Hs0; (destruct room as [|room]; [try (cbn in Hroom; lia)|]); cbn in Hs0; cbn [dotted_parts].
  - apply goes_mret; [done|]. by rewrite app_nil_r.
  - test. apply goes_mret; [done|]. by rewrite app_nil_r.
  - test. seq. seq. eapply goes_imp; [apply IH; [cbn in Hroom; lia|done]|]. cbn. intros l ->. by rewrite HQ0, <- app_assoc.
Qed.

Lemma read_column table catalog name : is_none catalog || negb (is_none table) = true -> kinds s = kind_toks (EColumn table catalog name) ++ r ->
  goes (primary_expr (grammar n)) s r (same (MkExpr (EColumn table catalog name) sp)).
Proof.
  intros Hc Hs.
  assert (exists x names, kind_toks (EColumn table catalog name) = TkIdentifier x :: List.concat (map (fun x => [TkDot; TkIdentifier x]) names) /\
    (length names <= 2)%nat /\ column_kind (x :: names) = EColumn table catalog name) as (x & names & E & Hl & Hkind).
  { destruct catalog as [c|], table as [t|]; try done; [exists c, [t; name]|exists t, [name]|exists name, []]; cbn; repeat split; lia. }
  rewrite E in Hs. cbn [app] in Hs. eapply goes_by_kind; [exact Hs|]. cbn [token_literal]. seq. eapply (goes_if_gets _ _ _ _ _ false).
  - destruct names as [|y names]; cbn in Hk; [|look]. destruct r_head as (k & r' & -> & Hk0). rewrite (at_kind_here _ _ _ _ Hk). by_token k.
  - eapply goes_bind; [by apply (read_parts 2 names)|]. intros parts s2 Hk2 Hd2 ->. rewrite <- Hk2. eapply goes_bind; [leaf|]. intros sp2 s3 Hk3 _ _. apply goes_mret; [done|]. unfold same. cbn [strip app]. by rewrite Hkind.
Qed.

Lemma read_function name distinct args : node_ok (canon h) (csel h) d (EFunctionCall name distinct args) = true -> kinds s = kind_toks (EFunctionCall name distinct args) ++ r ->
  goes (primary_expr (grammar n)) s r (same (MkExpr (EFunctionCall name distinct args) sp)).
Proof.
  intros [_ Hargs]%andb_prop Hs. destruct r_head as (k & r' & Er & Hk). assert (is_kw k KW_OVER || is_kw k KW_FILTER = false) as Hover by by_token k.
  cbn [kind_toks] in Hs. tidy Hs. eapply goes_by_kind; [exact Hs|]. cbn [token_literal]. seq. test. seq.
  eapply (goes_bind _ _ _ (args_toks args ++ TkRParen :: r) _ (fun b => b = distinct)).
  { destruct distinct; [leaf|]. destruct args as [|[|x xs]]; [leaf|leaf|]. cbn [args_toks] in *. destruct (list_starts d x xs Hargs) as (k1 & t & E & Ho). rewrite E in *. destruct (opens_not k1 Ho) as (Ho1 & _). leaf. }
  intros b s2 Hk2 Hd2 ->. eapply (goes_bind _ _ _ (match args with FaStar => TkRParen :: r | _ => args_toks args ++ TkRParen :: r end) _ (fun b => b = match args with FaStar => true | _ => false end)).
  { destruct args as [|[|x xs]]; [leaf|leaf|]. cbn [args_toks] in *. destruct (list_starts d x xs Hargs) as (k1 & t & E & Ho). rewrite E in *. destruct (opens_not k1 Ho) as (_ & _ & _ & _ & Ho1 & _). leaf. }
  intros b s3 Hk3 Hd3 ->. eapply (goes_bind _ _ _ (TkRParen :: r) _ (fun a => strip_args a = strip_args args)).
  { destruct args as [|[|x xs]]; [by apply goes_mret|eapply goes_by_kind; [exact Hk3|by apply goes_mret]|]. cbn [args_toks] in *.
    destruct (list_starts d x xs Hargs) as (k1 & t & E & Ho). pose proof Hk3 as Hk3'. rewrite E in Hk3'. eapply goes_by_kind; [exact Hk3'|]. destruct (opens_not k1 Ho) as (_ & _ & _ & _ & _ & Hne). clear Hk3' E.
    assert (goes (l ← expr_list (grammar n); mret (FaList l)) s3 (TkRParen :: r) (fun a => strip_args a = strip_args (FaList (x :: xs)))) as Hg; [|destruct k1; done].
    eapply goes_bind; [eapply (read_expr_list n d (x :: xs) s3 _); [done|done|exact Hk3|lia|fits|done]|]. intros l s4 Hk4 _ Hl. apply goes_mret; [done|]. cbn [strip_args]. by rewrite Hl. }
  intros a' s4 Hk4 Hd4 Ha. eapply goes_bind; [leaf|]. intros e5 s5 Hk5 Hd5 _. eapply goes_no_refuse; [rewrite Er in Hk5; by rewrite !(at_kw_here _ _ _ _ Hk5)|].
  apply goes_mret; [done|]. unfold same. cbn [strip strip_kind]. by rewrite Ha.
Qed.

(** The arms of a CASE. *)
Definition when_toks (w : Expr * Expr) : toks := match w with (c, x) => K KW_WHEN :: expr_toks c ++ K KW_THEN :: expr_toks x end.
Definition same_when (w w' : Expr * Expr) : Prop := same w.1 w'.1 /\ same w.2 w'.2.

Lemma when_start_end whens k t : expr_end (k :: t) = true -> expr_end (List.concat (map when_toks whens) ++ k :: t) = true.
Proof. by destruct whens as [|[c x] ws]. Qed.

Lemma read_whens whens k t : forallb (fun w => expr_ok (canon h) d w.1 && expr_ok (canon h) d w.2) whens = true -> expr_end (k :: t) = true -> is_kw k KW_WHEN = false ->
  forall F acc s0, kinds s0 = List.concat (map when_toks whens) ++ k :: t -> (depth s0 + d <= MAX_EXPR_DEPTH)%nat -> (length (kinds s0) < n)%nat -> (length whens < F)%nat ->
  goes (when_loop (grammar n) F acc) s0 (k :: t) (fun l => exists l2, l = acc ++ l2 /\ Forall2 same_when whens l2).
Proof.
  intros Hw He Hk. induction whens as [|[c x] ws IH]; intros F acc s0 Hs Hd0 Hn0 HF; (destruct F as [|F]; [cbn in HF; lia|]); cbn [when_loop].
  - cbn in Hs. seq. apply goes_mret; [done|]. exists []. by rewrite app_nil_r.
  - cbn [forallb fst snd] in Hw. apply andb_prop in Hw as [[Hc Hx]%andb_prop Hw]. cbn [map List.concat when_toks] in Hs. tidy Hs. seq.
    eapply goes_bind; [apply (read_expr n d c _ _ Hc Hk0); [lia|fits|done]|]. entered. seq.
    eapply goes_bind; [apply (read_expr n d x _ _ Hx Hk2); [lia|fits|by apply when_start_end]|]. entered.
    eapply goes_imp; [apply (IH Hw F _ _ Hk3); [lia|fits|cbn in HF; lia]|]. intros l (l2 & -> & Hl2). eexists. rewrite <- app_assoc. split; [reflexivity|]. by repeat constructor.
Qed.

Lemma whens_strip whens l : Forall2 same_when whens l ->
  map (fun w => match w with (c, x) => (strip c, strip x) end) l = map (fun w => match w with (c, x) => (strip c, strip x) end) whens.
Proof. induction 1 as [|[c x] [c' x'] ws l [Hc Hx] _ IH]; [done|]. cbn in *. by rewrite Hc, Hx, IH. Qed.

Lemma read_case operand whens else_ : node_ok (canon h) (csel h) d (ECase operand whens else_) = true -> kinds s = kind_toks (ECase operand whens else_) ++ r ->
  goes (primary_expr (grammar n)) s r (same (MkExpr (ECase operand whens else_) sp)).
Proof.
  intros Hok Hs. cbn [node_ok] in Hok. apply andb_prop in Hok as [[[Ho Hne]%andb_prop Hw]%andb_prop He]. cbn [kind_toks] in Hs. change (fun w : Expr * Expr => _) with when_toks in Hs. tidy Hs.
  set (t1 := match else_ with Some e => K KW_ELSE :: expr_toks e | None => [] end ++ K KW_END :: r) in *.
  assert (exists k1 t1', t1 = k1 :: t1' /\ is_kw k1 KW_WHEN = false /\ expr_end (k1 :: t1') = true) as (k1 & t1' & E1 & Hk1 & He1) by (unfold t1; destruct else_; by eexists _, _).
  assert (exists t2, List.concat (map when_toks whens) ++ t1 = K KW_WHEN :: t2) as [t2 E2] by (destruct whens as [|[c x] ws]; [done|by eexists]).
  eapply goes_by_kind; [exact Hs|]. cbn [token_literal is_current_time]. change (goes (case_expr (grammar n)) s r (same (MkExpr (ECase operand whens else_) sp))). unfold case_expr.
  eapply goes_bind; [leaf|]. intros sp0 s0 Hk0 Hd0 _. eapply goes_bind; [leaf|]. intros b s1 Hk2 Hd2 ->.
  eapply (goes_bind _ _ _ (List.concat (map when_toks whens) ++ t1) _ (fun o => option_map strip o = option_map strip operand)).
  { destruct operand as [e|]; cbn [app] in Hk0.
    - destruct (expr_starts d e Ho) as (k0 & ks & Ek & Hop & _). assert (at_kw s0 KW_WHEN = false) as ->.
      { rewrite Ek in Hk0. cbn [app] in Hk0. rewrite (at_kw_here _ _ _ _ Hk0). by apply (opens_not k0 Hop). }
      rewrite Hk0 in Hk2. eapply goes_bind; [apply (read_expr n d e _ _ Ho Hk2); [lia|fits|by rewrite E2]|]. intros e' s2 Hk3 _ He'. apply goes_mret; [done|]. cbn. by rewrite He'.
    - rewrite Hk0 in Hk2. rewrite E2 in Hk0. rewrite (at_kw_here _ _ _ _ Hk0). by apply goes_mret. }
  intros o s3 Hk3 Hd3 Hstrip. rewrite E1 in Hk3.
  eapply (goes_bind _ _ _ (k1 :: t1') _ (Forall2 same_when whens)).
  { unfold fueled, goes. destruct (read_whens whens k1 t1' Hw He1 Hk1 (S (remaining s3)) [] s3 Hk3) as (l & s4 & E & H1 & H2 & l2 & -> & Hl2); [lia| | |exists l2, s4; done].
    - rewrite E1 in *. destruct operand; fits.
    - rewrite remaining_kinds, Hk3, length_app. clear. induction whens as [|[c x] ws IH]; cbn [map List.concat length when_toks]; [lia|]. rewrite length_app. cbn [length] in *. lia. }
  intros ws s4 Hk4 Hd4 Hws. destruct ws as [|w0 ws']; [inversion Hws; by subst|].
  eapply goes_bind; [eapply (goes_opt_clause n d KW_ELSE else_ s4 (K KW_END) r He); [by rewrite Hk4, <- E1|done|lia| |done]|].
  { rewrite E1 in *. destruct operand; fits. }
  intros e' s5 Hk5 Hd5 Hels. eapply goes_bind; [leaf|]. intros end_ s6 Hk6 _ _. apply goes_mret; [done|]. unfold same. cbn [strip strip_kind].
  apply whens_strip in Hws. unfold option_map in *. by rewrite Hstrip, Hels, Hws.
Qed.

Lemma read_cast x t : node_ok (canon h) (csel h) d (ECast x t) = true -> kinds s = kind_toks (ECast x t) ++ r -> goes (primary_expr (grammar n)) s r (same (MkExpr (ECast x t) sp)).
Proof.
  intros [Hx _]%andb_prop Hs. cbn [kind_toks] in Hs. tidy Hs. eapply goes_by_kind; [exact Hs|]. change (goes (cast_expr (grammar n)) s r (same (MkExpr (ECast x t) sp))). unfold cast_expr.
  eapply goes_bind; [leaf|]. intros sp0 s0 Hk0 Hd0 _. eapply goes_bind; [leaf|]. intros sp1 s1 Hk1 Hd1 _.
  eapply goes_bind; [apply (read_expr n d x _ _ Hx Hk1); [lia|fits|done]|]. intros x' s2 Hk2 Hd2 Hx'. eapply goes_bind; [leaf|]. intros sp3 s3 Hk3 Hd3 _.
  eapply goes_bind; [by eapply read_type_name|]. intros t' s4 Hk4 Hd4 ->. eapply goes_bind; [leaf|]. intros sp5 s5 Hk5 Hd5 _. apply goes_mret; [done|].
  unfold same. cbn [strip strip_kind]. by rewrite Hx'.
Qed.

Lemma read_exists q : csel h d false q = true -> kinds s = kind_toks (EExists q false) ++ r -> goes (primary_expr (grammar n)) s r (same (MkExpr (EExists q false) sp)).
Proof.
  intros Hq Hs. cbn [kind_toks not_toks app] in Hs. tidy Hs. eapply goes_by_kind; [exact Hs|]. cbn [token_literal]. change (is_current_time (K KW_EXISTS)) with false. cbn iota.
  eapply goes_bind; [leaf|]. intros start s0 Hk0 Hd0 _. apply (read_exists_tail n d); [done|done|lia|fits].
Qed.

Lemma read_paren x : expr_ok (canon h) d x = true -> kinds s = kind_toks (EParen x) ++ r -> goes (primary_expr (grammar n)) s r (same (MkExpr (EParen x) sp)).
Proof.
  intros Hx Hs. cbn [kind_toks app] in Hs. tidy Hs. eapply goes_by_kind; [exact Hs|]. cbn [token_literal]. eapply goes_bind; [leaf|]. intros start s0 Hk0 Hd0 _. unfold paren_expr.
  destruct (expr_starts d x Hx) as (k & ks & Ek & Ho & _). eapply (goes_if_gets _ _ _ _ _ false).
  { rewrite Ek in Hk0. cbn [app] in Hk0. rewrite (at_kw_here _ _ _ _ Hk0). by apply (opens_not k Ho). }
  eapply goes_bind; [apply (read_expr n d x _ _ Hx Hk0); [lia|fits|done]|]. intros x' s2 Hk2 Hd2 Hx'. eapply goes_bind; [leaf|]. intros sp3 s3 Hk3 Hd3 _. apply goes_mret; [done|].
  unfold same. cbn [strip strip_kind]. by rewrite Hx'.
Qed.

Lemma read_scalar_subquery q : csel h d false q = true -> kinds s = kind_toks (ESubquery q) ++ r -> goes (primary_expr (grammar n)) s r (same (MkExpr (ESubquery q) sp)).
Proof.
  intros Hq Hs. cbn [kind_toks app] in Hs. tidy Hs. eapply goes_by_kind; [exact Hs|]. cbn [token_literal]. eapply goes_bind; [leaf|]. intros start s0 Hk0 Hd0 _. unfold paren_expr.
  destruct (subquery_toks d q Hq) as [t Et]. eapply (goes_if_gets _ _ _ _ _ true).
  { rewrite Et in Hk0. cbn [app] in Hk0. by rewrite (at_kw_here _ _ _ _ Hk0). }
  eapply goes_bind; [apply (read_subquery n d q _ _ _ Hq Hk0); [lia|fits]|]. intros p s2 Hk2 Hd2 Hp. apply goes_mret; [done|]. unfold same, same_select in *. cbn [strip strip_kind]. by rewrite Hp.
Qed.

Lemma read_primary kind : level kind = 11%nat -> node_ok (canon h) (csel h) d kind = true -> kinds s = kind_toks kind ++ r -> goes (primary_expr (grammar n)) s r (same (MkExpr kind sp)).
Proof.
  intros HM Hok Hs. destruct kind; cbn [level] in HM; try (by destruct op); try done.
  - destruct l; cbn in Hs; try (by eapply read_literal).
    destruct (Z.ltb_spec v 0) as [Hv|Hv]; [done|]. rewrite (proj2 (Z.eqb_neq v I64_MIN)) in Hs by (unfold I64_MIN; lia). by eapply read_literal.
  - by apply read_param.
  - cbn [node_ok] in Hok. repeat apply andb_prop in Hok as [Hok ?]. by apply read_column.
  - by apply read_function.
  - by apply read_case.
  - by apply read_cast.
  - by apply read_paren.
  - by apply read_scalar_subquery.
  - destruct negated; [done|]. by apply read_exists.
Qed.

(** ** Prefix operators *)

Lemma read_prefix op x : op <> UNot -> canon h d 10 x = true -> (op = UMinus -> is_two63 x = false) -> (S (depth s) + d <= MAX_EXPR_DEPTH)%nat -> kinds s = unop_tok op :: expr_toks x ++ r ->
  (next_level r <= 10)%nat -> goes (unary_expr (grammar n)) s r (same (MkExpr (EUnary op x) sp)).
Proof.
  intros Hop Hx Hm Hd' Hs Hr'. apply goes_guard; [lia|]. eapply goes_by_kind; [rewrite kinds_into; exact Hs|]. replace (unary_op (unop_tok op)) with (Some op) by by destruct op.
  eapply goes_bind; [eapply goes_advance_span; [rewrite kinds_into; exact Hs|by destruct op]|]. intros start s0 Hk0 Hd0 _. cbn in Hd0. destruct n as [|m] eqn:En; [rewrite Hs in Hn; cbn in Hn; lia|].
  eapply goes_bind; [eapply (read_unary m d x s0 r Hx Hk0); [lia|fits|done]|]. intros x' s1 Hk1 _ Hx'. apply goes_mret; [done|].
  unfold same. cbn [strip]. by rewrite (negate_same op x x' Hop Hx' Hm).
Qed.

Lemma read_min : (S (S (depth s)) <= MAX_EXPR_DEPTH)%nat -> kinds s = TkMinus :: TkFloat F64_TWO63 :: r -> goes (unary_expr (grammar n)) s r (same (MkExpr (ELiteral (LInteger I64_MIN)) sp)).
Proof.
  intros Hd' Hs. apply goes_guard; [lia|]. eapply goes_by_kind; [rewrite kinds_into; exact Hs|]. cbn [unary_op].
  eapply goes_bind; [eapply goes_advance_span; [rewrite kinds_into; exact Hs|done]|]. intros start s0 Hk0 Hd0 _. cbn in Hd0. destruct n as [|m] eqn:En; [rewrite Hs in Hn; cbn in Hn; lia|].
  eapply (goes_bind _ _ _ r _ (fun e => e_kind e = ELiteral (LFloat F64_TWO63))).
  - apply goes_guard; [lia|]. eapply goes_by_kind; [rewrite kinds_into; exact Hk0|]. cbn [unary_op]. eapply goes_by_kind; [rewrite kinds_into; exact Hk0|]. cbn [token_literal].
    eapply goes_bind; [eapply goes_advance_span; [rewrite kinds_into; exact Hk0|done]|]. intros sp1 s1 Hk1 _ _. by apply goes_mret.
  - intros e s1 Hk1 _ He. apply goes_mret; [done|]. unfold same. cbn [strip]. unfold negate_literal. by rewrite He.
Qed.

(** ** Loops *)

Lemma read_collate x name : canon h d 9 x = true -> kinds s = expr_toks x ++ K KW_COLLATE :: TkIdentifier name :: r -> at_level (grammar n) 9 (MkExpr (ECollate x name) sp) s r.
Proof.
  intros Hx Hs. cbn [at_level]. eapply reaches_step; [apply (IHe n 9%nat x d s _ Hx Hs Hd Hn)|cbn; lia|].
  - pose proof (canon_level _ _ _ Hx). repeat split; cbn; lia.
  - intros F e' s' Hk Hd1 He. cbn [collate_loop]. destruct (goes_eat_kw s' _ _ Hk) as (b & s1 & E1 & Hk1 & Hd2 & ->). destruct (goes_identifier s1 _ _ Hk1) as (p & s2 & E2 & Hk2 & Hd3 & Hp).
    eexists _, s2. split; [|split; [exact Hk2|split; [lia|]]].
    + rewrite (M_bind_ok _ _ _ _ _ E1), (M_bind_ok _ _ _ _ _ E2). reflexivity.
    + unfold same. cbn. by rewrite He, Hp.
Qed.

Lemma read_binop op x y L : binop_prec op <> 0%nat -> (4 <= L <= 3 + binop_prec op)%nat -> canon h d (3 + binop_prec op) x = true -> canon h d (4 + binop_prec op) y = true ->
  kinds s = expr_toks x ++ binop_tok op :: expr_toks y ++ r -> (next_level r <= 3 + binop_prec op)%nat -> at_level (grammar n) L (MkExpr (EBinary op x y) sp) s r.
Proof.
  intros Hop HL Hx Hy Hs Hr'. destruct (binop_level op Hop) as (E1 & E2 & Hp & He). pose proof (canon_level _ _ _ Hx) as HMx.
  assert (at_level (grammar n) L x s (binop_tok op :: expr_toks y ++ r)) as Hleft.
  { apply (IHe n L x d s _); [eapply canon_kin; [|exact Hx]|done..|].
    - unfold kin. rewrite (proj2 (Nat.leb_le L _)), (proj2 (Nat.leb_le 4 L)), (proj2 (Nat.leb_le _ 8)) by lia. by rewrite orb_true_r.
    - repeat split; cbn [next_level]; rewrite ?E2; [|lia|lia]. clear -HL Hp. do 9 (destruct L as [|L]; [cbn in *; lia|]). cbn. lia. }
  assert (reaches (binary_expr (grammar n) (Z.of_nat (L - 3))) (fun F => binary_loop (grammar n) F (Z.of_nat (L - 3))) s (binop_tok op :: expr_toks y ++ r) x) as Hl
    by (clear -HL Hp Hleft; do 9 (destruct L as [|L]; [first [lia|exact Hleft]|]); lia).
  assert (reaches (binary_expr (grammar n) (Z.of_nat (L - 3))) (fun F => binary_loop (grammar n) F (Z.of_nat (L - 3))) s r (MkExpr (EBinary op x y) sp)) as Hb; [|clear -HL Hp Hb; do 9 (destruct L as [|L]; [first [lia|exact Hb]|]); lia].
  eapply reaches_step; [exact Hl|cbn; rewrite length_app; lia|]. intros F e' s' Hk Hd1 Hs'. cbn [binary_loop]. unfold by_kind. rewrite (kind_here _ _ _ Hk), E1.
  rewrite (proj2 (Z.ltb_ge _ _)) by lia. destruct (goes_advance s' _ _ Hk He) as (tk & s1 & A1 & Hk1 & Hd2 & _). destruct n as [|m] eqn:En; [rewrite Hs in Hn; rewrite length_app in Hn; cbn in Hn; lia|].
  destruct (read_binary m d (S (binop_prec op)) y s1 r) as (y' & s2 & A2 & Hk2 & Hd3 & Hy'); [lia|exact Hy|exact Hk1|lia|fits|lia|].
  exists (bin op e' y'), s2. rewrite (M_bind_ok _ _ _ _ _ A1). rewrite Nat2Z.inj_succ in A2. change (Z.of_nat (binop_prec op) + 1) with (Z.succ (Z.of_nat (binop_prec op))). rewrite (M_bind_ok _ _ _ _ _ A2).
  repeat split; [done|lia|]. unfold same. cbn. by rewrite Hs', Hy'.
Qed.

(** ** Comparisons *)

Lemma goes_step {m : P (option Expr)} {e' s0 r0 Q} : equality_step (grammar n) e' s0 = m s0 -> goes m s0 r0 Q -> goes (equality_step (grammar n) e') s0 r0 Q.
Proof. unfold goes. by intros ->. Qed.
Ltac branch Hk := eapply goes_step; [unfold equality_step; rewrite (kind_here _ _ _ Hk), ?(kind_next _ _ _ _ Hk); cbn match; reflexivity|].

(** What a comparison adds to its left operand. *)
Definition right_toks (kind : ExprKind) : toks :=
  match kind with
  | EBinary op _ y => binop_tok op :: expr_toks y
  | EIs _ y negated => K KW_IS :: not_toks negated ++ expr_toks y
  | EIsNull _ negated => [K (if negated then KW_NOTNULL else KW_ISNULL)]
  | EBetween _ lo hi negated => not_toks negated ++ K KW_BETWEEN :: expr_toks lo ++ K KW_AND :: expr_toks hi
  | EIn _ items negated => not_toks negated ++ K KW_IN :: TkLParen :: comma_toks (map expr_toks items) ++ [TkRParen]
  | ELike _ pattern glob negated escape => not_toks negated ++ K (if glob then KW_GLOB else KW_LIKE) :: expr_toks pattern ++ match escape with Some e => K KW_ESCAPE :: expr_toks e | None => [] end
  | EInSubquery _ q negated => not_toks negated ++ K KW_IN :: TkLParen :: select_toks q ++ [TkRParen]
  | _ => []
  end.

Section Comparison.
Context (e' : Expr) (Hs0 : (next_level r <= 3)%nat) (Hesc : head_is_kw r KW_ESCAPE = false).

Definition step_to (kind : ExprKind) : Prop := goes (equality_step (grammar n) e') s r (fun o => exists e2, o = Some e2 /\ same (MkExpr kind sp) e2).

Lemma operand4 y s1 r1 : canon h d 4 y = true -> kinds s1 = expr_toks y ++ r1 -> (depth s1 + d <= MAX_EXPR_DEPTH)%nat -> (length (kinds s1) <= n)%nat -> (next_level r1 <= 3)%nat -> goes (binary_expr (grammar n) 1) s1 r1 (same y).
Proof. intros. apply (read_binary n d 1%nat y s1 r1); [lia|done..|lia]. Qed.

Lemma step_equal op x y : op = BEq \/ op = BNe -> canon h d 4 y = true -> same x e' -> kinds s = right_toks (EBinary op x y) ++ r -> step_to (EBinary op x y).
Proof.
  intros Hop Hy Hx Hs. cbn [right_toks] in Hs. tidy Hs.
  assert (goes (_ ← advance; rhs ← binary_expr (grammar n) 1; mret (Some (bin op e' rhs))) s r (fun o => exists e2, o = Some e2 /\ same (MkExpr (EBinary op x y) sp) e2)) as Hg.
  { eapply goes_bind; [eapply goes_advance; [exact Hs|by destruct Hop as [-> | ->]]|]. intros tk s1 Hk1 Hd1 _. eapply goes_bind; [apply (operand4 y s1 r Hy Hk1); [lia|fits|lia]|].
    intros y' s2 Hk2 _ Hy'. apply goes_mret; [done|]. eexists. split; [reflexivity|]. unfold same. cbn. by rewrite Hx, Hy'. }
  destruct Hop as [-> | ->]; cbn [binop_tok] in Hs; branch Hs; exact Hg.
Qed.

Lemma step_is x y negated : canon h d 4 y = true -> same x e' -> kinds s = right_toks (EIs x y negated) ++ r -> step_to (EIs x y negated).
Proof.
  intros Hy Hx Hs. cbn [right_toks] in Hs. tidy Hs. branch Hs. eapply goes_bind; [leaf|]. intros tk s1 Hk1 Hd1 _.
  eapply (goes_bind _ _ _ (expr_toks y ++ r) _ (fun b => b = negated)).
  { destruct negated; cbn [not_toks app] in Hk1; [leaf|]. destruct (canon_starts _ _ _ _ Hy) as (k & ks & Ek & _ & Hk & _). rewrite Ek in *. cbn [app] in *. eapply goes_no_kw; [exact Hk1|apply Hk; lia]. }
  intros b s2 Hk2 Hd2 ->. eapply goes_bind; [apply (operand4 y s2 r Hy Hk2); [lia|fits|lia]|].
  intros y' s3 Hk3 _ Hy'. apply goes_mret; [done|]. eexists. split; [reflexivity|]. unfold same. cbn. by rewrite Hx, Hy'.
Qed.

Lemma step_is_null x negated : same x e' -> kinds s = right_toks (EIsNull x negated) ++ r -> step_to (EIsNull x negated).
Proof.
  intros Hx Hs. cbn [right_toks] in Hs. destruct negated; cbn [app] in Hs; branch Hs; (eapply goes_bind; [leaf|]); intros sp1 s1 Hk1 _ _; (apply goes_mret; [done|]);
  eexists; (split; [reflexivity|]); unfold same; cbn; by rewrite Hx.
Qed.

(** Behind [NOT] and behind nothing. *)
Lemma step_negated kw (tail : bool -> P Expr) kind negated t : kinds s = not_toks negated ++ K kw :: t -> kw ∈ [KW_BETWEEN; KW_IN; KW_LIKE; KW_GLOB] ->
  tail = match kw with KW_BETWEEN => between_expr (grammar n) e' | KW_IN => in_tail (grammar n) e' | KW_LIKE => like_tail (grammar n) e' false | _ => like_tail (grammar n) e' true end ->
  (forall s1, kinds s1 = t -> depth s1 = depth s -> goes (tail negated) s1 r (same (MkExpr kind sp))) -> step_to kind.
Proof.
  intros Hs Hkw Etail Ht. rewrite !elem_of_cons, elem_of_nil in Hkw. unfold step_to.
  destruct negated; cbn [not_toks app] in Hs; destruct_or! Hkw; try done; subst kw tail; branch Hs;
  repeat (eapply goes_bind; [eapply goes_advance; [eassumption|done]|]; intros ?tk ?s1 ?Hk1 ?Hd1 _);
  (eapply goes_bind; [apply Ht; [assumption|lia]|]); intros e2 s3 Hk3 _ He2; (apply goes_mret; [done|]); by exists e2.
Qed.

Lemma step_between x lo hi negated : canon h d 4 lo = true -> canon h d 4 hi = true -> same x e' -> kinds s = right_toks (EBetween x lo hi negated) ++ r -> step_to (EBetween x lo hi negated).
Proof.
  intros Hlo Hhi Hx Hs. cbn [right_toks] in Hs. tidy Hs. eapply step_negated; [exact Hs|set_solver|reflexivity|]. intros s1 Hk1 Hd1. cbn match. unfold between_expr, between_tail.
  eapply (goes_bind _ _ _ r _ (fun p => same lo p.1 /\ same hi p.2)).
  - eapply goes_bind; [apply (operand4 lo s1 _ Hlo Hk1); [lia|fits|cbn; lia]|]. intros lo' s2 Hk2 Hd2 Hlo'. eapply goes_bind; [leaf|]. intros sp3 s3 Hk3 Hd3 _.
    eapply goes_bind; [apply (operand4 hi s3 _ Hhi Hk3); [lia|fits|lia]|]. intros hi' s4 Hk4 Hd4 Hhi'. by apply goes_mret.
  - intros p s5 Hk5 _ [Hp1 Hp2]. apply goes_mret; [done|]. unfold same. cbn. by rewrite Hx, Hp1, Hp2.
Qed.

Lemma step_like x pattern glob negated escape : canon h d 4 pattern = true -> opt_ok (canon h d 4) escape = true -> same x e' -> kinds s = right_toks (ELike x pattern glob negated escape) ++ r ->
  step_to (ELike x pattern glob negated escape).
Proof.
  intros Hp He Hx Hs. cbn [right_toks] in Hs. tidy Hs. eapply step_negated; [exact Hs|destruct glob; set_solver|reflexivity|]. intros s1 Hk1 Hd1.
  assert (goes (like_tail (grammar n) e' glob negated) s1 r (same (MkExpr (ELike x pattern glob negated escape) sp))) as Hg; [|by destruct glob]. unfold like_tail.
  eapply goes_bind; [apply (operand4 pattern s1 _ Hp Hk1); [lia|fits|destruct escape; cbn; lia]|]. intros p' s2 Hk2 Hd2 Hp'.
  destruct escape as [e|]; cbn [app] in Hk2.
  - eapply goes_bind; [leaf|]. intros b s3 Hk3 Hd3 ->. eapply goes_bind; [apply (operand4 e s3 _ He Hk3); [lia|fits|lia]|]. intros e2 s4 Hk4 _ He2. apply goes_mret; [done|].
    unfold same. cbn. by rewrite Hx, Hp', He2.
  - destruct r_head as (k & r' & Er & _). rewrite Er in Hk2, Hesc. eapply goes_bind; [eapply goes_no_kw; [exact Hk2|exact Hesc]|]. intros b s3 Hk3 Hd3 ->. apply goes_mret; [congruence|].
    unfold same. cbn. by rewrite Hx, Hp'.
Qed.

Lemma step_in x items negated : forallb (expr_ok (canon h) d) items = true -> same x e' -> kinds s = right_toks (EIn x items negated) ++ r -> step_to (EIn x items negated).
Proof.
  intros Hi Hx Hs. cbn [right_toks] in Hs. tidy Hs. eapply step_negated; [exact Hs|set_solver|reflexivity|]. intros s1 Hk1 Hd1. cbn match. unfold in_tail.
  eapply goes_no_refuse; [by rewrite (at_kind_here _ _ _ _ Hk1)|]. eapply goes_bind; [leaf|]. intros sp2 s2 Hk2 Hd2 _.
  assert (exists k t, comma_toks (map expr_toks items) ++ TkRParen :: r = k :: t /\ is_kw k KW_SELECT = false) as (k & t & Ek & Hk).
  { destruct items as [|y ys]; [by eexists _, _|]. destruct (list_starts d y ys Hi) as (k & t & -> & Ho). eexists _, _. split; [done|]. by apply (opens_not k Ho). }
  eapply (goes_if_gets _ _ _ _ _ false); [rewrite Ek in Hk2; by rewrite (at_kw_here _ _ _ _ Hk2)|].
  eapply (goes_bind _ _ _ (TkRParen :: r) _ (fun l => map strip l = map strip items)).
  - pose proof Hk2 as Hk2'. rewrite Ek in Hk2'. eapply goes_by_kind; [exact Hk2'|]. destruct items as [|y ys]; [injection Ek as <- <-; by apply goes_mret|].
    destruct (list_starts d y ys Hi) as (k1 & t1 & Ek1 & Ho). rewrite Ek1 in Ek. injection Ek as <- <-. destruct (opens_not k1 Ho) as (_ & _ & _ & _ & _ & Hne). clear Hk2'.
    assert (goes (expr_list (grammar n)) s2 (TkRParen :: r) (fun l => map strip l = map strip (y :: ys))) as Hg; [|destruct k1; done].
    apply (read_expr_list n d (y :: ys) s2 _); [done|done|done|lia|clear Ek1; fits|done].
  - intros l s3 Hk3 Hd3 Hl. eapply goes_bind; [leaf|]. intros sp4 s4 Hk4 _ _. apply goes_mret; [done|]. unfold same. cbn [strip strip_kind]. by rewrite Hx, Hl.
Qed.

Lemma step_in_subquery x q negated : csel h d false q = true -> same x e' -> kinds s = right_toks (EInSubquery x q negated) ++ r -> step_to (EInSubquery x q negated).
Proof.
  intros Hq Hx Hs. cbn [right_toks] in Hs. tidy Hs. eapply step_negated; [exact Hs|set_solver|reflexivity|]. intros s1 Hk1 Hd1. cbn match. unfold in_tail.
  eapply goes_no_refuse; [by rewrite (at_kind_here _ _ _ _ Hk1)|]. eapply goes_bind; [leaf|]. intros sp2 s2 Hk2 Hd2 _.
  destruct (subquery_toks d q Hq) as [t Et]. eapply (goes_if_gets _ _ _ _ _ true).
  { rewrite Et in Hk2. cbn [app] in Hk2. by rewrite (at_kw_here _ _ _ _ Hk2). }
  eapply goes_bind; [apply (read_subquery n d q _ _ _ Hq Hk2); [lia|fits]|]. intros p s3 Hk3 Hd3 Hp. apply goes_mret; [done|]. unfold same, same_select in *. cbn [strip strip_kind]. by rewrite Hx, Hp.
Qed.

Lemma step_comparison kind x : level kind = 3%nat -> left_of kind = Some x -> node_ok (canon h) (csel h) d kind = true -> same x e' -> kinds s = right_toks kind ++ r -> step_to kind.
Proof.
  intros HM Hl Hok Hx Hs. destruct kind; try done; injection Hl as <-; cbn [node_ok] in Hok.
  - destruct op; try done; apply andb_prop in Hok as [_ Hy]; by (apply step_equal; [auto|..]).
  - apply andb_prop in Hok as [_ Hy]. by apply step_is.
  - by apply step_is_null.
  - apply andb_prop in Hok as [[_ Hlo]%andb_prop Hhi]. by apply step_between.
  - apply andb_prop in Hok as [_ Hy]. by apply step_in.
  - apply andb_prop in Hok as [[_ Hp]%andb_prop He]. by apply step_like.
  - apply andb_prop in Hok as [_ Hy]. by apply step_in_subquery.
Qed.
End Comparison.
End Node.

Lemma comparison_toks kind x : level kind = 3%nat -> left_of kind = Some x -> kind_toks kind = expr_toks x ++ right_toks kind /\ next_level (right_toks kind) = 3%nat /\ head_is_kw (right_toks kind) KW_ESCAPE = false.
Proof.
  intros HM Hl. destruct kind; try done; injection Hl as <-; cbn [kind_toks right_toks]; try destruct op; try done; try destruct negated; try destruct glob; done.
Qed.

Lemma read_comparison n d kind x sp s r : level kind = 3%nat -> left_of kind = Some x -> node_ok (canon h) (csel h) d kind = true -> kinds s = kind_toks kind ++ r ->
  (depth s + d <= MAX_EXPR_DEPTH)%nat -> (length (kinds s) <= n)%nat -> (next_level r <= 3)%nat -> head_is_kw r KW_ESCAPE = false -> at_level (grammar n) 3 (MkExpr kind sp) s r.
Proof.
  intros HM Hl Hok Hs Hd Hn Hr Hesc Htu. destruct (comparison_toks kind x HM Hl) as (Et & Hnext & He). rewrite Et in Hs. tidy Hs. pose proof (left_ok _ _ _ _ _ Hl Hok) as Hx. rewrite HM in Hx.
  pose proof (canon_level _ _ _ Hx) as HMx. assert (right_toks kind <> []) as Hne by (intros E; by rewrite E in Hnext).
  assert (ends 3 (level (e_kind x)) (right_toks kind ++ r)) as Hends by (destruct (right_toks kind) as [|k t]; [done|]; cbn [app next_level head_is_kw] in *; repeat split; [cbn; lia|cbn; lia|done]).
  eapply reaches_step; [exact (IHe n 3%nat x d s _ Hx Hs Hd Hn Hends Htu)|destruct (right_toks kind); [done|cbn; rewrite length_app; lia]|].
  - intros F e' s' Hk Hd1 Hx'. destruct (step_comparison n d s' r sp ltac:(lia) ltac:(rewrite Hs in Hn; rewrite Hk; rewrite length_app in Hn; lia) ltac:(lia) e' Hr Hesc kind x HM Hl Hok Hx' Hk) as (o & s2 & E & Hk2 & Hd2 & e2 & -> & He2).
    exists e2, s2. cbn [equality_loop]. rewrite (M_bind_ok _ _ _ _ _ E). repeat split; [done|lia|done].
Qed.

(** ** Logic *)

Lemma read_and n d x y sp s r L : (L <= 1)%nat -> canon h d 1 x = true -> canon h d 2 y = true -> kinds s = expr_toks x ++ K KW_AND :: expr_toks y ++ r ->
  (depth s + d <= MAX_EXPR_DEPTH)%nat -> (length (kinds s) <= n)%nat -> (next_level r <= 1)%nat -> at_level (grammar n) L (MkExpr (EBinary BAnd x y) sp) s r.
Proof.
  intros HL Hx Hy Hs Hd Hn Hr. pose proof (canon_level _ _ _ Hx) as HMx.
  assert (at_level (grammar n) L x s (K KW_AND :: expr_toks y ++ r)) as Hleft.
  { assert (kin L 1 = true) as Hkin by (destruct L as [|[|L]]; [done|done|lia]). apply (IHe n L x d s _ (canon_kin _ _ _ _ _ Hkin Hx) Hs Hd Hn). refine (conj _ (conj _ _)); [destruct L as [|[|L]]; cbn; lia|cbn; lia|done]. }
  assert (reaches (bool_expr (grammar n) (Z.of_nat L)) (fun F => bool_loop (grammar n) F (Z.of_nat L)) s (K KW_AND :: expr_toks y ++ r) x) as Hl
    by (destruct L as [|[|L]]; [exact Hleft|exact Hleft|lia]).
  assert (reaches (bool_expr (grammar n) (Z.of_nat L)) (fun F => bool_loop (grammar n) F (Z.of_nat L)) s r (MkExpr (EBinary BAnd x y) sp)) as Hb; [|destruct L as [|[|L]]; [exact Hb|exact Hb|lia]].
  eapply reaches_step; [exact Hl|cbn; rewrite length_app; lia|]. intros F e' s' Hk Hd1 Hx'. cbn [bool_loop]. rewrite (at_kw_here _ _ _ _ Hk). cbn [is_kw K].
  destruct (goes_advance s' _ _ Hk eq_refl) as (tk & s1 & A1 & Hk1 & Hd2 & _).
  destruct (read_not n d y s1 r Hy Hk1) as (y' & s2 & A2 & Hk2 & Hd3 & Hy'); [lia|fits|lia|].
  exists (bin BAnd e' y'), s2. rewrite keyword_eqb_refl, (proj2 (Z.ltb_ge _ _)) by lia. rewrite (M_bind_ok _ _ _ _ _ A1), (M_bind_ok _ _ _ _ _ A2).
  repeat split; [done|lia|]. unfold same. cbn. by rewrite Hx', Hy'.
Qed.

Lemma read_or n d x y sp s r : canon h d 0 x = true -> canon h d 1 y = true -> kinds s = expr_toks x ++ K KW_OR :: expr_toks y ++ r ->
  (depth s + d <= MAX_EXPR_DEPTH)%nat -> (length (kinds s) <= n)%nat -> next_level r = 0%nat -> at_level (grammar n) 0 (MkExpr (EBinary BOr x y) sp) s r.
Proof.
  intros Hx Hy Hs Hd Hn Hr. cbn [at_level]. eapply reaches_step; [apply (IHe n 0%nat x d s _ Hx Hs Hd Hn); repeat split; cbn; lia|cbn; rewrite length_app; lia|].
  intros F e' s' Hk Hd1 Hx'. cbn [bool_loop]. rewrite !(at_kw_here _ _ _ _ Hk). change (is_kw (K KW_OR) KW_AND) with false. change (is_kw (K KW_OR) KW_OR) with true. cbn iota.
  destruct (goes_advance s' _ _ Hk eq_refl) as (tk & s1 & A1 & Hk1 & Hd2 & _).
  destruct (read_and_operand n d y s1 r Hy Hk1) as (y' & s2 & A2 & Hk2 & Hd3 & Hy'); [lia|fits|lia|].
  exists (bin BOr e' y'), s2. change (0 <? Z.of_nat 0) with false. cbn iota. rewrite (M_bind_ok _ _ _ _ _ A1), (M_bind_ok _ _ _ _ _ A2).
  repeat split; [done|lia|]. unfold same. cbn. by rewrite Hx', Hy'.
Qed.

Lemma goes_attempt {A} (f : P A) s0 r0 Q : goes f s0 r0 Q -> goes (attempt f) s0 r0 (fun o => exists a, o = Some a /\ Q a).
Proof. intros (a & s1 & E & Hk & Hd & HQ). exists (Some a), s1. unfold attempt. rewrite E. repeat split; try done. by exists a. Qed.

Lemma tuple_kinds_app ks r0 dp b : tuple_kinds ks dp b = true -> tuple_kinds (ks ++ r0) dp b = true.
Proof.
  revert dp b. induction ks as [|k ks IH]; intros dp b; [done|]. cbn [tuple_kinds app].
  destruct k; try done; try (intros; by apply IH). destruct (dp =? 0); [|intros; by apply IH].
  intros [Hb Hk]%andb_prop. rewrite Hb. cbn [andb]. apply orb_true_iff in Hk as [Hk|[Hk1 Hk2]%andb_prop]; apply orb_true_iff.
  - left. destruct ks as [|k0 ks']; [done|exact Hk].
  - right. destruct ks as [|k0 [|k1 ks']]; [done|done|]. cbn in *. by rewrite Hk1, Hk2.
Qed.

Lemma goes_tuple_negated negated t s0 : kinds s0 = not_toks negated ++ K KW_IN :: t -> goes tuple_negated s0 t (fun o => o = Some negated).
Proof.
  intros Hs. destruct negated; cbn [not_toks app] in Hs; unfold goes, tuple_negated; rewrite !(at_kw_here _ _ _ _ Hs), ?(kind_next _ _ _ _ Hs).
  - destruct (goes_advance s0 _ _ Hs eq_refl) as (t1 & s1 & E1 & Hk1 & Hd1 & _). destruct (goes_advance s1 _ _ Hk1 eq_refl) as (t2 & s2 & E2 & Hk2 & Hd2 & _).
    exists (Some true), s2. cbn [is_kw K]. change (keyword_eqb KW_NOT KW_IN) with false. rewrite !keyword_eqb_refl. cbn [andb]. rewrite (M_bind_ok _ _ _ _ _ E1), (M_bind_ok _ _ _ _ _ E2). repeat split; [done|lia].
  - destruct (goes_advance s0 _ _ Hs eq_refl) as (t1 & s1 & E1 & Hk1 & Hd1 & _). exists (Some false), s1. cbn [is_kw K]. rewrite !keyword_eqb_refl. by rewrite (M_bind_ok _ _ _ _ _ E1).
Qed.

Lemma read_tuple n d xs q negated sp s r : node_ok (canon h) (csel h) d (EInSubqueryMulti xs q negated) = true -> kinds s = kind_toks (EInSubqueryMulti xs q negated) ++ r ->
  (depth s + d <= MAX_EXPR_DEPTH)%nat -> (length (kinds s) <= n)%nat -> goes (equality_expr (grammar n)) s r (same (MkExpr (EInSubqueryMulti xs q negated) sp)).
Proof.
  intros Hok Hs Hd Hn. cbn [node_ok] in Hok. apply andb_prop in Hok as [[[H2%Nat.leb_le Hxs]%andb_prop Hq]%andb_prop Htu].
  assert (goes (try_tuple_in_subquery (grammar n)) s r (fun o => exists e, o = Some e /\ same (MkExpr (EInSubqueryMulti xs q negated) sp) e)) as Hg.
  2: { eapply goes_bind; [exact Hg|]. intros o s1 Hk _ (e & -> & He). by apply goes_mret. }
  apply (tuple_kinds_app _ r) in Htu. cbn [kind_toks tail app] in Hs, Htu. pose proof (looks_like_kinds _ _ _ Hs) as Hlook. rewrite Htu in Hlook. tidy Hs.
  unfold goes, try_tuple_in_subquery. rewrite (at_kind_here _ _ _ _ Hs), Hlook. cbn [negb orb]. change (kind_eqb TkLParen TkLParen) with true. cbn [negb orb].
  match goal with |- exists a s', ?m s = _ /\ _ => change (goes m s r (fun o => exists e, o = Some e /\ same (MkExpr (EInSubqueryMulti xs q negated) sp) e)) end.
  eapply goes_bind; [leaf|]. intros start s1 Hk1 Hd1 _. eapply goes_bind; [apply goes_attempt, (read_expr_list n d xs s1 _); [by destruct xs|done|exact Hk1|lia|fits|done]|].
  intros o s2 Hk2 Hd2 (l & -> & Hl). cbn match. eapply goes_bind; [apply goes_attempt; leaf|]. intros o s3 Hk3 Hd3 (sp3 & -> & _). cbn match.
  eapply goes_bind; [by eapply goes_tuple_negated|]. intros o s4 Hk4 Hd4 ->. cbn match. apply (f_equal length) in Hl as Hlen. rewrite !length_map in Hlen. rewrite (proj2 (Nat.ltb_ge _ _)) by lia.
  unfold tuple_in_select. eapply goes_bind; [leaf|]. intros sp5 s5 Hk5 Hd5 _. destruct (subquery_toks d q Hq) as [t Et].
  eapply goes_no_refuse; [rewrite Et in Hk5; cbn [app] in Hk5; by rewrite (at_kw_here _ _ _ _ Hk5)|].
  eapply goes_bind; [apply (read_subquery n d q _ _ _ Hq Hk5); [lia|fits]|]. intros p s6 Hk6 _ Hp. apply goes_mret; [done|]. eexists. split; [reflexivity|].
  unfold same, same_select in *. cbn [strip strip_kind]. by rewrite Hl, Hp.
Qed.

Lemma read_not_node n d kind sp s r : level kind = 2%nat -> node_ok (canon h) (csel h) d kind = true -> kinds s = kind_toks kind ++ r -> (S (depth s) + d <= MAX_EXPR_DEPTH)%nat ->
  (length (kinds s) <= n)%nat -> (next_level r <= 1)%nat -> goes (not_expr (grammar n)) s r (same (MkExpr kind sp)).
Proof.
  intros HM Hok Hs Hd Hn Hr. apply goes_guard; [lia|]. destruct kind; try done; try (by destruct op).
  - destruct l; try done. cbn in HM. by destruct (v <? 0).
  - destruct op; try done. cbn [node_ok] in Hok. apply andb_prop in Hok as [Hx Hex%negb_true_iff]. cbn [kind_toks unop_tok app] in Hs.
    rewrite <- (kinds_into 1 s) in Hs. eapply (goes_if_gets _ _ _ _ _ true); [by rewrite (at_kw_here _ _ _ _ Hs)|]. cbn iota. eapply goes_bind; [leaf|]. intros start s1 Hk1 Hd1 _. cbn in Hd1.
    destruct (canon_starts _ _ _ _ Hx) as (k & ks & Ek & _). eapply (goes_bind _ _ _ (expr_toks expr ++ r) _ (fun b => b = false)).
    { rewrite Ek in *. cbn [app head_is_kw] in *. by eapply goes_no_kw. }
    intros b s2 Hk2 Hd2 ->. destruct n as [|m]; [rewrite <- (kinds_into 1 s), Hs in Hn; cbn in Hn; lia|].
    eapply goes_bind; [eapply (read_not m d expr s2 r Hx Hk2); [lia|rewrite <- (kinds_into 1 s) in Hn; fits|done]|]. intros x' s3 Hk3 _ Hx'. apply goes_mret; [done|]. unfold same. cbn. by rewrite Hx'.
  - destruct negated; [|done]. cbn [node_ok] in Hok. cbn [kind_toks not_toks app] in Hs. tidy Hs. rewrite <- (kinds_into 1 s) in Hs, Hn.
    eapply (goes_if_gets _ _ _ _ _ true); [by rewrite (at_kw_here _ _ _ _ Hs)|]. cbn iota. eapply goes_bind; [leaf|]. intros start s1 Hk1 Hd1 _. cbn in Hd1.
    eapply goes_bind; [leaf|]. intros b s2 Hk2 Hd2 ->. apply (read_exists_tail n d); [done|done|lia|fits].
  - rewrite <- (kinds_into 1 s) in Hs, Hn. pose proof Hs as Hs'. cbn [kind_toks app] in Hs'. eapply (goes_if_gets _ _ _ _ _ false); [by rewrite (at_kw_here _ _ _ _ Hs')|]. cbn iota.
    apply (read_tuple n d); [done|done|cbn; lia|done].
Qed.

(** ** Every place *)

Lemma group_tuple ks r0 dp b : group_closes ks dp = true -> (next_level r0 <= 1)%nat -> tuple_kinds (ks ++ r0) dp b = tuple_kinds ks dp b.
Proof.
  intros Hg Hr. revert dp b Hg. induction ks as [|k ks IH]; intros dp b Hg; [done|]. cbn [tuple_kinds group_closes app] in *.
  destruct k; try done; try (by apply IH). destruct (dp =? 0); [|by apply IH]. f_equal.
  assert (forall k t, r0 = k :: t -> is_kw k KW_IN = false /\ is_kw k KW_NOT = false) as Hno by (intros k t ->; cbn in Hr; split; by_token k).
  destruct ks as [|k0 [|k1 ks']]; cbn; [|destruct r0 as [|k t]; [done|cbn; by rewrite (proj1 (Hno k t eq_refl))]|done].
  destruct r0 as [|k t]; [done|]. cbn. destruct (Hno k t eq_refl) as [-> ->]. done.
Qed.

Lemma leading_tuple k ks r0 : leading_ok (k :: ks) = true -> (next_level r0 <= 1)%nat -> kind_eqb k TkLParen && tuple_kinds (ks ++ r0) 0 false = false.
Proof.
  intros Hl Hr. destruct k; try done. cbn [leading_ok] in Hl. apply andb_prop in Hl as [Hg Ht%negb_true_iff]. by rewrite group_tuple.
Qed.

(** The guard of the level a node is read at. *)
Lemma self_guard L M : (M = 2 \/ M = 10)%nat -> (L <= M)%nat -> (guards L M - outer L M)%nat = 1%nat.
Proof. intros [-> | ->] HLM; unfold guards, outer; rewrite ?(proj2 (Nat.leb_le L 2)), ?(proj2 (Nat.leb_le L 10)) by lia; [done|]. by destruct (L <=? 2)%nat. Qed.

Lemma binop_node op x y L d : binop_prec op <> 0%nat -> level (EBinary op x y) = (3 + binop_prec op)%nat /\
  node_ok (canon h) (csel h) d (EBinary op x y) = canon h d (3 + binop_prec op) x && canon h d (4 + binop_prec op) y /\ own L (3 + binop_prec op) = if (L <=? 3)%nat then 4%nat else L.
Proof. by destruct op. Qed.

Lemma read_logic n L d op x y sp s r : binop_prec op = 0%nat -> (level (EBinary op x y) <= 1)%nat -> (L <= level (EBinary op x y))%nat -> ends L (level (EBinary op x y)) r ->
  node_ok (canon h) (csel h) d (EBinary op x y) = true -> kinds s = kind_toks (EBinary op x y) ++ r -> (depth s + d <= MAX_EXPR_DEPTH)%nat -> (length (kinds s) <= n)%nat ->
  at_level (grammar n) (own L (level (EBinary op x y))) (MkExpr (EBinary op x y) sp) s r.
Proof.
  intros Hp HM HL (Hcap & Hlev & _) Hok Hs Hd Hn. destruct op; try done; cbn [level] in *; try lia; cbn [node_ok] in Hok; apply andb_prop in Hok as [Hx Hy]; cbn [kind_toks] in Hs; tidy Hs; cbn [own].
  - destruct L; [|lia]. apply (read_or n d); [done..|lia].
  - apply (read_and n d); [done..|lia].
Qed.

(** A node read at its own level. *)
Lemma read_own n L d kind sp s r : (L <= level kind)%nat -> ends L (level kind) r -> node_ok (canon h) (csel h) d kind = true -> kinds s = kind_toks kind ++ r ->
  (depth s + (guards L (level kind) - outer L (level kind)) + d <= MAX_EXPR_DEPTH)%nat -> (length (kinds s) <= n)%nat -> at_level (grammar n) (own L (level kind)) (MkExpr kind sp) s r.
Proof.
  intros HL Hends Hok Hs Hd Hn. pose proof Hends as (Hcap & Hlev & Hesc).
  destruct (Nat.eq_dec (level kind) 11) as [E11|N11].
  { assert (next_level r <= 11)%nat as Hr by (destruct r as [|k t]; [cbn in Hcap, Hlev; destruct L as [|[|[|[|[|[|[|[|[|[|]]]]]]]]]]; cbn in Hcap; lia|cbn in Hlev |- *; lia]).
    rewrite E11 in *. cbn [own at_level]. apply (read_primary n d); [lia|lia|done|done|done|done]. }
  destruct (Nat.eq_dec (level kind) 2) as [E2|N2].
  { rewrite E2 in *. cbn [own at_level]. rewrite self_guard in Hd by lia. apply (read_not_node n d); [done|done|done|lia|done|]. destruct L as [|[|[|L]]]; cbn in *; lia. }
  destruct (Nat.eq_dec (level kind) 3) as [E3|N3].
  { assert (exists x, left_of kind = Some x) as [x Hx] by (destruct kind; try done; try (by eexists); [destruct l; try done; cbn in E3; by destruct (v <? 0)|by destruct op|by destruct negated]).
    rewrite E3 in *. cbn [own]. apply (read_comparison n d kind x); [done..|lia|done|lia|apply Hesc; lia]. }
  destruct kind; try done.
  - destruct l; try done. cbn in N11, Hok, Hs. destruct (Z.ltb_spec v 0) as [Hv|Hv]; [|done]. apply andb_prop in Hok as [Hl Hd1]. assert (1 <= d)%nat as Hd2 by (destruct d; [done|lia]).
    apply orb_prop in Hl as [Ev%Z.eqb_eq|[Ev%Z.leb_le _]%andb_prop]; [|lia]. subst v. change (level (ELiteral (LInteger I64_MIN))) with 10%nat in *. rewrite self_guard in Hd by lia. apply (read_min n d); [lia|done|lia|lia|done].
  - assert (op <> UNot) as Hop by by destruct op. assert (level (EUnary op expr) = 10%nat) as E10 by by destruct op. rewrite E10 in *. rewrite self_guard in Hd by lia.
    assert (canon h d 10 expr = true /\ (op = UMinus -> is_two63 expr = false)) as [Hx Hm].
    { destruct op; try done; cbn [node_ok] in Hok; apply andb_prop in Hok as [Hx Hm]; (split; [done|]); try done. intros _. apply andb_prop in Hm as [_ Hm]. by apply negb_true_iff. }
    cbn [own at_level]. apply (read_prefix n d); first [done|lia].
  - destruct (Nat.eq_dec (binop_prec op) 0) as [Hz|Hz]; [apply (read_logic n L d); [done|destruct op; cbn in *; lia|done|done|done|done|lia|done]|].
    destruct (binop_node op lhs rhs L d Hz) as (EM & Eok & Eown). destruct (binop_level op Hz) as (_ & _ & Hp & _). rewrite EM in *. rewrite Eok in Hok. rewrite Eown. apply andb_prop in Hok as [Hx Hy].
    cbn [kind_toks] in Hs. tidy Hs. apply (read_binop n d); try first [done|lia]. destruct (Nat.leb_spec L 3); lia.
  - cbn [node_ok] in Hok. apply andb_prop in Hok as [Hx _]. cbn [kind_toks] in Hs. tidy Hs. cbn [own level] in *. apply (read_collate n d); first [done|lia].
  - by destruct negated.
Qed.

Lemma level_bound kind : (level kind <= 11)%nat.
Proof. destruct kind; cbn; repeat case_match; cbn; lia. Qed.

Lemma guards_split L M : (L <= M)%nat -> (outer L M <= guards L M)%nat.
Proof. intros HL. unfold guards, outer. destruct (Nat.leb_spec 3 M), (Nat.leb_spec 11 M), (Nat.leb_spec 2 M), (Nat.leb_spec 10 M), (L <=? 2)%nat, (L <=? 10)%nat; cbn; lia. Qed.

Lemma primary_opens kind sp : level kind = 11%nat -> forall k ks, expr_toks (MkExpr kind sp) = k :: ks -> unary_op k = None.
Proof.
  intros HM k ks E. cbn [expr_toks] in E. destruct kind; try done; cbn [kind_toks] in E; try (by injection E as <- <-); try (by destruct op).
  - destruct l; try (by injection E as <- <-). cbn in E, HM. destruct (Z.ltb_spec v 0); [done|]. rewrite (proj2 (Z.eqb_neq v I64_MIN)) in E by (unfold I64_MIN; lia). by injection E as <- <-.
  - destruct catalog, table; by injection E as <- <-.
  - destruct negated; [done|]. by injection E as <- <-.
Qed.

(** One more level of the tree. *)
Lemma read_node n L e d s r : canon (S h) d L e = true -> kinds s = expr_toks e ++ r -> (depth s + d <= MAX_EXPR_DEPTH)%nat -> (length (kinds s) <= n)%nat ->
  ends L (level (e_kind e)) r -> at_level (grammar n) L e s r.
Proof.
  intros Hc Hs Hd Hn Hends. destruct e as [kind sp]. cbn [e_kind] in Hends. destruct (canon_starts _ _ _ _ Hc) as (k & ks & Ek & _ & _ & _). apply canon_inv in Hc as (HL & Hg & Hlead & Hok).
  pose proof (guards_split L (level kind) HL) as Hsplit.
  assert ((3 <= level kind)%nat -> is_kw k KW_NOT = false) as Hnot.
  { intros HM. assert (starts (level kind) (MkExpr kind sp)) as (k2 & ks2 & Ek2 & _ & Hk2 & _); [|rewrite Ek in Ek2; injection Ek2 as <- <-; by apply Hk2].
    destruct (left_of kind) as [x|] eqn:El; [|by apply leaf_starts]. destruct (canon_starts _ _ _ _ (left_ok _ _ _ _ _ El Hok)) as (k' & t' & E' & Ho' & Hk' & Hr').
    destruct (left_toks kind x El) as (k2 & t2 & E2 & H2 & _). exists k', (t' ++ k2 :: t2). cbn [expr_toks]. rewrite E2, E'. repeat split; [done|done|]. intros r0 _. rewrite <- E', <- app_assoc. apply Hr'. cbn. lia. }
  rewrite Ek in Hs. cbn [app] in Hs.
  refine (climb (grammar n) (MkExpr kind sp) (k :: ks ++ r) r L (level kind) k (ks ++ r) (depth s) eq_refl (conj HL (level_bound kind)) Hends _ Hnot _ _ _ s Hs eq_refl); [lia| | |].
  - intros HM. by eapply primary_opens.
  - intros HL2 HM3. apply leading_tuple; [cbn [expr_toks] in Ek; rewrite <- Ek; by apply Hlead|]. destruct Hends as (Hcap & _). by destruct L as [|[|[|L]]]; cbn in Hcap; lia.
  - intros s1 Hs1 Hd1. eapply read_own; [done|done|exact Hok|cbn [expr_toks] in Ek; by rewrite Ek|lia|rewrite Hs1, <- Hs; done].
Qed.
End Induction.
