(* ===== verification/PrintSelect.v ===== *)
(** * Queries read back

    The clauses of a SELECT, and the induction that ties expressions and
    queries: the parser reads the tokens of a printable query to the same
    query, up to spans. *)

From stdpp Require Import prelude list numbers.
From Stdlib Require Import ZArith Lia.
From S2P Require Import Prelude Varint Text Record Float ValueOrder Format Coerce Functions Tokenizer Ast Grammar Statements Printer PrintTokens PrintParse PrintExpr.

Local Open Scope Z_scope.

(** ** Where clauses end *)

(** The place of the clause a token starts; 0 for tokens that start none. *)
Definition clause_rank (k : TokenKind) : nat :=
  match k with
  | TkKeyword KW_FROM => 1
  | TkKeyword KW_NATURAL | TkKeyword KW_JOIN | TkKeyword KW_LEFT | TkKeyword KW_CROSS | TkKeyword KW_RIGHT | TkKeyword KW_FULL => 2
  | TkKeyword KW_WHERE => 3
  | TkKeyword KW_GROUP => 4
  | TkKeyword KW_HAVING => 5
  | TkKeyword KW_UNION => 6
  | TkKeyword KW_ORDER => 7
  | TkKeyword KW_LIMIT => 8
  | TkRParen | TkSemicolon | TkEof => 9
  | _ => 0
  end.
Definition at_rank (i : nat) (r : toks) : bool := match r with k :: _ => (1 <=? clause_rank k)%nat && (i <=? clause_rank k)%nat | [] => false end.

Lemma at_rank_inv i r : at_rank i r = true -> exists k t, r = k :: t /\ (1 <= clause_rank k)%nat /\ (i <= clause_rank k)%nat.
Proof. destruct r as [|k t]; [done|]. intros [H1%Nat.leb_le H2%Nat.leb_le]%andb_prop. by exists k, t. Qed.

Lemma at_rank_le i j r : (j <= i)%nat -> at_rank i r = true -> at_rank j r = true.
Proof. intros Hj (k & t & -> & H1 & H2)%at_rank_inv. apply andb_true_intro. by split; apply Nat.leb_le; lia. Qed.

Lemma closes_rank r : closes r = true -> at_rank 9 r = true.
Proof. destruct r as [|k t]; [done|]. by destruct k. Qed.

Lemma rank_list_end i r : at_rank i r = true -> after_list r = true.
Proof. intros (k & t & -> & H1 & H2)%at_rank_inv. unfold after_list, expr_end. cbn [next_level head_is_kw]. by_token k. Qed.

Lemma rank_expr_end i r : at_rank i r = true -> expr_end r = true.
Proof. intros Hr%rank_list_end. by apply andb_prop in Hr as [Hr _]. Qed.

(** What may follow a table or a column. *)
Definition ends_name (k : TokenKind) : bool :=
  match k with TkIdentifier _ | TkDot | TkLParen | TkKeyword KW_AS | TkKeyword KW_INDEXED | TkKeyword KW_NOT => false | _ => true end.
Definition name_ends (r : toks) : bool := match r with k :: _ => ends_name k | [] => false end.

Lemma rank_name_ends i r : at_rank i r = true -> name_ends r = true.
Proof. intros (k & t & -> & H1 & H2)%at_rank_inv. cbn [name_ends]. by_token k. Qed.

Lemma keyword_eqb_eq a b : keyword_eqb a b = true -> a = b.
Proof.
  assert (forall k, snd <$> KEYWORDS !! Z.to_nat (keyword_num k) = Some k) as Hn by (intros k; by destruct k).
  unfold keyword_eqb. intros E%Z.eqb_eq. pose proof (Hn a) as Ha. rewrite E, Hn in Ha. by injection Ha.
Qed.

Lemma rank_not_kw i r kw : at_rank i r = true -> (clause_rank (K kw) < i)%nat -> exists k t, r = k :: t /\ is_kw k kw = false.
Proof.
  intros (k & t & -> & H1 & H2)%at_rank_inv Hi. exists k, t. split; [done|]. destruct (is_kw k kw) eqn:E; [|done]. exfalso.
  destruct k; try done. cbn [is_kw] in E. apply keyword_eqb_eq in E as ->. unfold K in Hi. lia.
Qed.

Lemma goes_alias alias s r : kinds s = alias_toks alias ++ r -> name_ends r = true -> goes opt_alias s r (fun a => a = alias).
Proof.
  intros Hs Hr. destruct r as [|k t]; [done|]. cbn [name_ends] in Hr. destruct alias as [a|]; cbn [alias_toks app] in Hs; unfold opt_alias.
  - eapply goes_bind; [leaf|]. intros b s1 Hk1 _ ->. eapply goes_no_refuse; [by rewrite (kind_here _ _ _ Hk1)|]. eapply goes_bind; [leaf|]. intros p s2 Hk2 _ Hp. apply goes_mret; [done|]. cbn in Hp. by rewrite Hp.
  - assert (is_kw k KW_AS = false) as Ha by by_token k. eapply goes_bind; [leaf|]. intros b s1 Hk1 _ ->. eapply goes_by_kind; [exact Hk1|]. destruct k; try done; by apply goes_mret.
Qed.

Section Clauses.
Context `{Unicode} (h : nat).
Context (IHe : forall n L e d s r, canon h d L e = true -> kinds s = expr_toks e ++ r -> (depth s + d <= MAX_EXPR_DEPTH)%nat -> (length (kinds s) <= n)%nat ->
  ends L (level (e_kind e)) r -> at_level (grammar n) L e s r).
Context (IHs : forall n wa q d s r, csel h d wa q = true -> kinds s = select_toks q ++ r -> (depth s + d <= MAX_EXPR_DEPTH)%nat -> (length (kinds s) <= n)%nat ->
  closes r = true -> goes (parse_select_stmt (grammar n)) s r (same_select q)).
Context (n d : nat).

(** A state this deep, with tokens enough for one more level. *)
Definition ready (s : Parser) : Prop := (depth s + d <= MAX_EXPR_DEPTH)%nat /\ (length (kinds s) < n)%nat.

Lemma ready_step s s1 t r : ready s -> kinds s = t ++ r -> kinds s1 = r -> depth s1 = depth s -> ready s1.
Proof. intros [Hd Hn] Hs Hs1 Hd1. pose proof (length_kinds_suffix Hs Hs1). split; lia. Qed.

Lemma ready_expr e s r : expr_ok (canon h) d e = true -> ready s -> kinds s = expr_toks e ++ r -> expr_end r = true -> goes (r_expr (grammar n)) s r (same e).
Proof. intros He [Hd Hn] Hs Hr. by eapply read_expr. Qed.

Lemma ready_select wa q s r : csel h d wa q = true -> ready s -> kinds s = select_toks q ++ r -> closes r = true -> goes (r_select (grammar n)) s r (same_select q).
Proof. intros Hq [Hd Hn] Hs Hr. destruct n as [|m]; [lia|]. eapply (IHs m wa q d s r); [done|done|done|lia|done]. Qed.

(** A comma list of items, each read alike. *)
Lemma ready_list {A X} (item : P A) (tk : X -> toks) (ok : X -> bool) (sim : X -> A -> Prop) (fin : toks -> bool) xs s r :
  (forall x s1 r1, ok x = true -> ready s1 -> kinds s1 = tk x ++ r1 -> fin r1 = true -> goes item s1 r1 (sim x)) -> (forall t, fin (TkComma :: t) = true) -> fin r = true -> after_list r = true ->
  nonempty xs = true -> forallb ok xs = true -> ready s -> kinds s = comma_toks (map tk xs) ++ r -> goes (comma_separated item) s r (Forall2 sim xs).
Proof.
  intros Hitem Hcomma Hfin Hr Hne Hok [Hd Hn] Hs. destruct (list_end r Hr) as [Hc Hr0].
  eapply (goes_comma_separated _ tk sim (length (kinds s)) (depth s) r Hc Hr0); [by destruct xs| |exact Hs|done|done].
  apply Forall_forall. intros x Hx s1 r' Hs1 Hd1 Hl1 Hr'. apply Hitem; [rewrite forallb_forall in Hok; by apply Hok|split; lia|done|].
  by destruct Hr' as [->|[r2 ->]].
Qed.

Lemma ready_exprs xs s r : nonempty xs = true -> forallb (expr_ok (canon h) d) xs = true -> ready s -> kinds s = comma_toks (map expr_toks xs) ++ r -> after_list r = true ->
  goes (comma_separated (r_expr (grammar n))) s r (fun l => map strip l = map strip xs).
Proof. intros Hne Hok [Hd Hn] Hs Hr. by apply (read_expr_list h IHe n d xs s r); [destruct xs|..]. Qed.

Lemma ready_clause kw o s r : opt_ok (expr_ok (canon h) d) o = true -> ready s -> kinds s = match o with Some e => K kw :: expr_toks e | None => [] end ++ r -> head_is_kw r kw = false -> expr_end r = true ->
  goes (opt_clause (grammar n) kw) s r (fun o' => option_map strip o' = option_map strip o).
Proof.
  intros Ho [Hd Hn] Hs Hk Hr. destruct r as [|k t]; [done|]. eapply (goes_opt_clause h IHe n d); [done|done|done|done|lia|done].
Qed.

(** ** Result columns *)

Lemma kind_past s kl i : list.last (kinds s) = Some kl -> (length (kinds s) <= i)%nat -> kind_at s i = kl.
Proof.
  unfold kinds. change (map tok_kind ?l) with (tok_kind <$> l). rewrite fmap_last, length_fmap, length_drop. intros Hl Hi. unfold kind_at, peek_at.
  rewrite lookup_ge_None_2 by lia. rewrite last_lookup, lookup_drop, length_drop in Hl. rewrite last_lookup. destruct (decide (pos s < length (tokens s))%nat) as [Hp|Hp].
  - replace (pos s + Init.Nat.pred (length (tokens s) - pos s))%nat with (Init.Nat.pred (length (tokens s))) in Hl by lia. destruct (tokens s !! _); [by injection Hl|done].
  - by rewrite lookup_ge_None_2 in Hl by lia.
Qed.

Lemma table_star_none s k ks : kinds s = k :: ks -> star_ahead (k :: ks) = false ->
  match kind_at s 0 with TkIdentifier name => if kind_eqb (kind_at s 1) TkDot && kind_eqb (kind_at s 2) TkStar then Some name else None | _ => None end = None.
Proof.
  intros Hs Hstar. rewrite (kind_here _ _ _ Hs). destruct k; try done. destruct ks as [|k1 ks].
  - by rewrite (kind_past s _ 1 ltac:(by rewrite Hs) ltac:(by rewrite Hs)).
  - rewrite (kind_next _ _ _ _ Hs). destruct k1; try done. destruct ks as [|k2 ks].
    + by rewrite (kind_past s TkDot 2 ltac:(by rewrite Hs) ltac:(by rewrite Hs)).
    + rewrite (kinds_lookup s 2 k2) by by rewrite Hs. by destruct k2.
Qed.

Definition same_column (c c' : ResultColumn) : Prop := strip_column c' = strip_column c.

Lemma ready_column c s r : column_ok (canon h) d c = true -> ready s -> kinds s = column_toks c ++ r -> name_ends r && expr_end r = true -> goes (result_column (grammar n)) s r (same_column c).
Proof.
  intros Hc Hrdy Hs [Hr1 Hr2]%andb_prop. destruct c as [|t|e alias]; cbn [column_toks app] in Hs; unfold result_column.
  - eapply goes_bind; [leaf|]. intros b s1 Hk1 _ ->. by apply goes_mret.
  - eapply goes_bind; [leaf|]. intros b s1 Hk1 _ ->. eapply goes_bind; [leaf|]. intros o s2 Hk2 _ ->. rewrite Hk1 in Hk2.
    assert (kind_at s1 2 = TkStar) as E2 by (apply kinds_lookup; by rewrite Hk1). rewrite (kind_here _ _ _ Hk1), (kind_next _ _ _ _ Hk1), E2. cbn [kind_eqb andb].
    eapply goes_bind; [leaf|]. intros t1 s3 Hk3 _ _. eapply goes_bind; [leaf|]. intros t2 s4 Hk4 _ _. eapply goes_bind; [leaf|]. intros t3 s5 Hk5 _ _. by apply goes_mret.
  - apply andb_prop in Hc as [He Ha]. destruct (expr_starts h d e He) as (k & ks & Ek & Ho & _ & Hstar). destruct (opens_not k Ho) as (_ & _ & _ & _ & Hns & _).
    assert (exists k2 t2, alias_toks alias ++ r = k2 :: t2 /\ (next_level (k2 :: t2) <= 11)%nat /\ expr_end (k2 :: t2) = true) as (k2 & t2 & E2 & H2 & He2).
    { destruct alias; [eexists _, _; split; [reflexivity|]; split; [cbn; lia|done]|]. cbn [alias_toks app]. destruct r as [|k2 t2]; [done|]. eexists _, _. split; [done|]. split; [|done]. apply andb_prop in Hr2 as [Hr2%Nat.eqb_eq _]. lia. }
    tidy Hs. pose proof (Hstar _ H2) as Hst. rewrite Ek in Hst. cbn [app] in Hst. pose proof Hs as Hs'. rewrite Ek in Hs'. cbn [app] in Hs'.
    eapply goes_bind; [eapply goes_no_punct; [exact Hs'|done]|]. intros b s1 Hk1 Hd1 ->. rewrite <- Hs', Hs in Hk1. eapply goes_bind; [leaf|]. intros o s2 Hk2 Hd2 ->.
    pose proof Hk1 as Hk1'. rewrite Ek in Hk1'. cbn [app] in Hk1'. rewrite (table_star_none s1 k (ks ++ alias_toks alias ++ r) Hk1'); [|by rewrite E2]. rewrite Hk1 in Hk2.
    eapply goes_bind; [eapply (ready_expr e s2 _ He); [eapply (ready_step s s2 [] (kinds s)); [done|done|by rewrite Hk2, Hs|lia]|exact Hk2|rewrite E2; exact He2]|]. intros e' s3 Hk3 Hd3 He'.
    eapply goes_bind; [by apply goes_alias|]. intros a s4 Hk4 _ ->. apply goes_mret; [done|]. unfold same_column. cbn. by rewrite He'.
Qed.

Lemma sim_map {A B} (f : A -> B) xs l : Forall2 (fun x y => f y = f x) xs l -> map f l = map f xs.
Proof. induction 1 as [|x y xs l Hx _ IH]; [done|]. cbn. by rewrite Hx, IH. Qed.

Lemma ready_columns columns s r : nonempty columns = true -> forallb (column_ok (canon h) d) columns = true -> ready s -> kinds s = comma_toks (map column_toks columns) ++ r -> at_rank 1 r = true ->
  goes (comma_separated (result_column (grammar n))) s r (fun l => map strip_column l = map strip_column columns).
Proof.
  intros Hne Hok Hrdy Hs Hr. eapply goes_imp; [eapply (ready_list _ column_toks (column_ok (canon h) d) same_column (fun r => name_ends r && expr_end r)); [intros; by apply ready_column|done| | |done|done|done|exact Hs]|].
  - by rewrite (rank_name_ends _ _ Hr), (rank_expr_end _ _ Hr).
  - by eapply rank_list_end.
  - apply sim_map.
Qed.

(** ** Tables *)
Ltac rdy := split; [lia|fits].

Definition same_table (t t' : TableRef) : Prop := strip_table t' = strip_table t.

Lemma ready_table t s r : table_ok (csel h) d t = true -> ready s -> kinds s = table_toks t ++ r -> name_ends r = true -> goes (table_ref (grammar n)) s r (same_table t).
Proof.
  intros Ht [Hd Hn] Hs Hr. destruct t as [[name|q] alias sp]; cbn [table_ok] in Ht; apply andb_prop in Ht as [_ Ht]; cbn [table_toks table_kind_toks] in Hs; tidy Hs; unfold table_ref.
  - assert (exists k t, alias_toks alias ++ r = k :: t /\ kind_eqb k TkDot = false) as (k & t & E & Hk).
    { destruct alias; [by eexists _, _|]. destruct r as [|k t]; [done|]. exists k, t. split; [done|]. cbn in Hr. by destruct k. }
    eapply (goes_if_gets _ _ _ _ _ false); [by rewrite (at_kind_here _ _ _ _ Hs)|]. cbn iota. eapply goes_bind; [leaf|]. intros p s1 Hk1 _ Hp. cbn in Hp.
    eapply goes_no_refuse; [rewrite E in Hk1; by rewrite (at_kind_here _ _ _ _ Hk1)|]. eapply goes_bind; [by apply goes_alias|]. intros a s2 Hk2 _ ->. rewrite <- Hk2.
    eapply goes_bind; [leaf|]. intros sp3 s3 Hk3 _ _. rewrite Hk2 in *. destruct r as [|k0 t0]; [done|]. cbn [name_ends] in Hr.
    assert (is_kw k0 KW_INDEXED = false /\ is_kw k0 KW_NOT = false /\ kind_eqb k0 TkLParen = false) as (H1 & H2 & H3) by by_token k0.
    eapply goes_no_refuse; [by rewrite (at_kw_here _ _ _ _ Hk3)|]. eapply goes_no_refuse; [by rewrite (at_kw_here _ _ _ _ Hk3), H2|]. eapply goes_no_refuse; [by rewrite (at_kind_here _ _ _ _ Hk3)|].
    apply goes_mret; [done|]. unfold same_table. cbn. by rewrite Hp.
  - apply andb_prop in Ht as [Hq Ha]. destruct alias as [a|]; [|done]. destruct (subquery_toks h d q Hq) as [t Et].
    eapply (goes_if_gets _ _ _ _ _ true); [by rewrite (at_kind_here _ _ _ _ Hs)|]. cbn iota. unfold table_ref_subquery. eapply goes_bind; [leaf|]. intros start s1 Hk1 Hd1 _.
    eapply goes_no_refuse; [rewrite Et in Hk1; cbn [app] in Hk1; by rewrite (at_kw_here _ _ _ _ Hk1)|].
    eapply goes_bind; [eapply (ready_select false q s1 _ Hq); [rdy|exact Hk1|done]|]. intros q' s2 Hk2 Hd2 Hq'. eapply goes_bind; [leaf|]. intros sp3 s3 Hk3 _ _.
    eapply goes_bind; [by apply (goes_alias (Some a))|]. intros o s4 Hk4 _ ->. rewrite <- Hk4. eapply goes_bind; [leaf|]. intros sp5 s5 Hk5 _ _. apply goes_mret; [done|].
    unfold same_table, same_select in *. cbn [strip_table strip_table_kind]. by rewrite Hq'.
Qed.

Lemma goes_using cols s r : nonempty cols = true -> kinds s = K KW_USING :: TkLParen :: name_toks cols ++ TkRParen :: r -> goes using_columns s r (fun l => l = cols).
Proof.
  intros Hne Hs. unfold using_columns. eapply goes_bind; [leaf|]. intros sp1 s1 Hk1 _ _. eapply goes_bind; [leaf|]. intros sp2 s2 Hk2 _ _.
  eapply goes_bind; [eapply (goes_name_list cols s2); [by destruct cols|exact Hk2|done|by intros k r' [= <- <-]]|]. intros l s3 Hk3 _ ->. eapply goes_bind; [leaf|]. intros sp4 s4 Hk4 _ _. by apply goes_mret.
Qed.

(** ** Joins *)

Definition same_join (j j' : Join) : Prop := strip_join j' = strip_join j.

Lemma rank2_not r : at_rank 2 r = true -> exists k t, r = k :: t /\ is_kw k KW_USING = false /\ is_kw k KW_ON = false /\ kind_eqb k TkComma = false /\ is_kw k KW_OUTER = false /\ is_kw k KW_INNER = false.
Proof. intros (k & t & -> & H1 & H2)%at_rank_inv. exists k, t. split; [done|]. by_token k. Qed.

Lemma goes_join_op op s r : op <> JCross -> kinds s = join_toks op ++ r -> goes join_op s r (fun o => o = Some op).
Proof.
  intros Hop Hs. unfold join_op. destruct op; try done; cbn [join_toks app] in Hs;
  repeat (first [eapply goes_bind; [leaf|]; intros ? ? ?Hk ?Hd ?HQ; cbv beta in HQ; subst; cbn match|apply goes_mret; [done|done]]); unfold outer_op;
  repeat (first [eapply goes_bind; [leaf|]; intros ? ? ?Hk ?Hd ?HQ; cbn match|apply goes_mret; [done|done]]).
Qed.

Lemma ready_operator_join op table constraint natural s r : op <> JCross -> join_ok (canon h) (csel h) d (MkJoin op table constraint natural) = true -> ready s ->
  kinds s = table_toks table ++ match constraint with Some c => constraint_toks c | None => [] end ++ r -> at_rank 2 r = true -> goes (operator_join (grammar n) op natural) s r (same_join (MkJoin op table constraint natural)).
Proof.
  intros Hop Hj [Hd Hn] Hs Hr. cbn [join_ok] in Hj. apply andb_prop in Hj as [Ht Hj]. destruct (rank2_not r Hr) as (k & t & Er & Hu & Ho & _). unfold operator_join.
  eapply (goes_bind _ _ _ (match constraint with Some c => constraint_toks c | None => [] end ++ r)).
  { eapply (ready_table table s _ Ht); [rdy|exact Hs|]. destruct constraint as [[e|cols]|]; [done|done|]. by eapply rank_name_ends. }
  intros t' s1 Hk1 Hd1 Ht'. unfold same_join, same_table in *. destruct natural; [destruct op, constraint; try done; cbn [app] in Hk1; (apply goes_mret; [done|]); cbn; by rewrite Ht'|].
  destruct constraint as [[e|cols]|]; [..|by destruct op]; cbn [constraint_toks app] in Hk1, Hs.
  - assert (expr_ok (canon h) d e = true) as He by by destruct op. eapply (goes_if_gets _ _ _ _ _ false); [by rewrite (at_kw_here _ _ _ _ Hk1)|]. eapply goes_no_refuse; [by rewrite (at_kw_here _ _ _ _ Hk1)|].
    eapply goes_bind; [leaf|]. intros sp2 s2 Hk2 Hd2 _. eapply goes_bind; [eapply (ready_expr e s2 r He); [rdy|exact Hk2|by eapply rank_expr_end]|]. intros e' s3 Hk3 _ He'. apply goes_mret; [done|]. cbn. by rewrite Ht', He'.
  - assert (nonempty cols = true) as Hc by (destruct op; try done; by apply andb_prop in Hj as [Hj _]). eapply (goes_if_gets _ _ _ _ _ true); [by rewrite (at_kw_here _ _ _ _ Hk1)|]. cbn iota. tidy Hk1.
    eapply goes_bind; [by apply (goes_using cols)|]. intros l s2 Hk2 _ ->. apply goes_mret; [done|]. cbn. by rewrite Ht'.
Qed.

Lemma ready_cross_join table constraint s r : join_ok (canon h) (csel h) d (MkJoin JCross table constraint false) = true -> ready s ->
  kinds s = K KW_JOIN :: table_toks table ++ match constraint with Some c => constraint_toks c | None => [] end ++ r -> at_rank 2 r = true -> goes (cross_join (grammar n) false) s r (same_join (MkJoin JCross table constraint false)).
Proof.
  intros Hj [Hd Hn] Hs Hr. cbn [join_ok] in Hj. apply andb_prop in Hj as [Ht Hj]. destruct (rank2_not r Hr) as (k & t & Er & Hu & Ho & _). unfold cross_join.
  eapply goes_bind; [leaf|]. intros sp1 s1 Hk1 Hd1 _. eapply goes_no_refuse; [done|].
  eapply (goes_bind _ _ _ (match constraint with Some c => constraint_toks c | None => [] end ++ r)).
  { eapply (ready_table table s1 _ Ht); [rdy|exact Hk1|]. destruct constraint as [[e|cols]|]; [done|done|]. by eapply rank_name_ends. }
  intros t' s2 Hk2 Hd2 Ht'. unfold same_join, same_table in *. destruct constraint as [[e|cols]|]; [done|..]; cbn [constraint_toks app] in Hk2.
  - apply andb_prop in Hj as [Hne _]. tidy Hk2. eapply goes_no_refuse; [by rewrite (at_kw_here _ _ _ _ Hk2)|]. unfold opt_using.
    eapply (goes_bind _ _ _ r _ (fun c => c = Some (JcUsing cols))); [eapply (goes_if_gets _ _ _ _ _ true); [by rewrite (at_kw_here _ _ _ _ Hk2)|]; eapply goes_bind; [by apply (goes_using cols)|]; intros l s3 Hk3 _ ->; by apply goes_mret|].
    intros c s3 Hk3 _ ->. apply goes_mret; [done|]. cbn. by rewrite Ht'.
  - rewrite Er in Hk2. eapply goes_no_refuse; [by rewrite (at_kw_here _ _ _ _ Hk2)|]. unfold opt_using.
    eapply (goes_bind _ _ _ r _ (fun c => c = None)); [eapply (goes_if_gets _ _ _ _ _ false); [by rewrite (at_kw_here _ _ _ _ Hk2)|]; apply goes_mret; [by rewrite Er|done]|].
    intros c s3 Hk3 _ ->. apply goes_mret; [done|]. cbn. by rewrite Ht'.
Qed.

Lemma ready_join_step j s r : join_ok (canon h) (csel h) d j = true -> ready s -> kinds s = one_join_toks j ++ r -> at_rank 2 r = true -> goes (join_step (grammar n)) s r (fun o => exists j', o = Some j' /\ same_join j j').
Proof.
  intros Hj [Hd Hn] Hs Hr. destruct j as [op table constraint natural]. cbn [one_join_toks] in Hs. tidy Hs. unfold join_step.
  assert (exists k t, join_toks op ++ table_toks table ++ match constraint with Some c => constraint_toks c | None => [] end ++ r = K k :: t /\ keyword_eqb k KW_NATURAL = false /\ keyword_eqb k KW_OUTER = false /\
    (op <> JCross -> keyword_eqb k KW_CROSS = false)) as (k & t & E & Hnat & Hout & Hcr) by (destruct op; by eexists _, _).
  eapply (goes_bind _ _ _ (kinds s) _ (fun b => b = false)).
  { destruct natural; cbn [app] in Hs; [rewrite Hs; leaf|]. rewrite E in Hs. rewrite Hs. leaf. }
  intros b s1 Hk1 Hd1 ->. rewrite Hs in Hk1. eapply (goes_bind _ _ _ (K k :: t) _ (fun b => b = natural)).
  { destruct natural; cbn [app] in Hk1; rewrite E in Hk1; [leaf|]. by eapply goes_no_kw. }
  intros b s2 Hk2 Hd2 ->. eapply goes_no_refuse; [by rewrite (at_kw_here _ _ _ _ Hk2)|]. assert (ready s2) as [Hd2' Hn2]
    by (eapply (ready_step s s2 (if natural then [K KW_NATURAL] else [])); [by split|exact Hs|by rewrite Hk2|lia]).
  rewrite <- E in Hk2. assert (op = JCross \/ op <> JCross) as [->|Hop] by (destruct op; auto; by right).
  - assert (natural = false) as -> by (cbn [join_ok] in Hj; apply andb_prop in Hj as [_ Hj]; by destruct natural, constraint as [[]|]).
    cbn [join_toks app] in Hk2. eapply goes_bind; [leaf|]. intros b s3 Hk3 Hd3 ->. eapply goes_bind; [eapply (ready_cross_join table constraint s3 r Hj); [rdy|exact Hk3|done]|].
    intros j' s4 Hk4 _ Hj'. apply goes_mret; [done|]. by exists j'.
  - eapply (goes_bind _ _ _ (kinds s2) _ (fun b => b = false)); [rewrite E in Hk2; rewrite Hk2; eapply goes_no_kw; [done|by apply Hcr]|]. intros b s3 Hk3 Hd3 ->. rewrite Hk2 in Hk3.
    eapply goes_bind; [by eapply (goes_join_op op)|]. intros o s4 Hk4 Hd4 ->. eapply goes_bind; [eapply (ready_operator_join op table constraint natural s4 r Hop Hj); [rdy|exact Hk4|done]|].
    intros j' s5 Hk5 _ Hj'. apply goes_mret; [done|]. by exists j'.
Qed.

Lemma joins_rank joins r : at_rank 2 r = true -> at_rank 2 (List.concat (map one_join_toks joins) ++ r) = true.
Proof. intros Hr. destruct joins as [|[op table constraint natural] js]; [done|]. by destruct natural, op. Qed.

Lemma ready_joins joins r : forallb (join_ok (canon h) (csel h) d) joins = true -> at_rank 3 r = true ->
  forall F acc s, ready s -> kinds s = List.concat (map one_join_toks joins) ++ r -> (length joins < F)%nat -> goes (join_loop (grammar n) F acc) s r (fun l => exists l2, l = acc ++ l2 /\ Forall2 same_join joins l2).
Proof.
  intros Hj Hr. induction joins as [|j js IH]; intros F acc s Hrdy Hs HF; (destruct F as [|F]; [cbn in HF; lia|]); cbn [join_loop].
  - cbn in Hs. assert (goes (join_step (grammar n)) s r (fun o => o = None)) as Hstep.
    { destruct (at_rank_inv _ _ Hr) as (k & t & -> & H1 & H2). unfold join_step.
      assert (kind_eqb k TkComma = false /\ is_kw k KW_NATURAL = false /\ is_kw k KW_OUTER = false /\ is_kw k KW_CROSS = false /\ is_kw k KW_LEFT = false /\ is_kw k KW_RIGHT = false /\ is_kw k KW_FULL = false /\
        is_kw k KW_INNER = false /\ is_kw k KW_JOIN = false) as (? & ? & ? & ? & ? & ? & ? & ? & ?) by by_token k.
      eapply goes_bind; [leaf|]. intros b s1 Hk1 _ ->. eapply goes_bind; [leaf|]. intros b s2 Hk2 _ ->. eapply goes_no_refuse; [by rewrite (at_kw_here _ _ _ _ Hk2)|].
      eapply goes_bind; [leaf|]. intros b s3 Hk3 _ ->. eapply (goes_bind _ _ _ (k :: t) _ (fun o => o = None)); [|intros o s4 Hk4 _ ->; by apply goes_mret].
      unfold join_op. repeat (eapply goes_bind; [leaf|]; intros ? ? ?Hk ?Hd ->). by apply goes_mret. }
    eapply goes_bind; [exact Hstep|]. intros o s1 Hk1 _ ->. apply goes_mret; [done|]. exists []. by rewrite app_nil_r.
  - apply andb_prop in Hj as [Hj Hjs]. cbn [map List.concat] in Hs. tidy Hs. eapply goes_bind; [eapply (ready_join_step j s _ Hj Hrdy Hs), joins_rank; by eapply at_rank_le; [|exact Hr]; lia|].
    intros o s1 Hk1 Hd1 (j' & -> & Hj'). eapply goes_imp; [eapply (IH Hjs F _ s1); [by eapply ready_step|done|cbn in HF; lia]|]. intros l (l2 & -> & Hl2). exists (j' :: l2). rewrite <- app_assoc. split; [done|by constructor].
Qed.

Lemma ready_from from s r : opt_ok (from_ok (canon h) (csel h) d) from = true -> ready s -> kinds s = match from with Some f => K KW_FROM :: from_toks f | None => [] end ++ r -> at_rank 3 r = true ->
  goes (opt_from (grammar n)) s r (fun o => option_map strip_from o = option_map strip_from from).
Proof.
  intros Hf [Hd Hn] Hs Hr. unfold opt_from. destruct from as [[first joins]|].
  - cbn [opt_ok from_ok] in Hf. apply andb_prop in Hf as [Ht Hj]. cbn [from_toks] in Hs. tidy Hs. eapply goes_bind; [leaf|]. intros b s1 Hk1 Hd1 ->. unfold parse_from_clause.
    assert (at_rank 2 (List.concat (map one_join_toks joins) ++ r) = true) as Hr2 by (apply joins_rank; by eapply at_rank_le; [|exact Hr]; lia).
    eapply (goes_bind _ _ _ r _ (fun f => strip_from f = strip_from (MkFrom first joins))); [|intros f s4 Hk4 _ Hf; apply goes_mret; [done|]; cbn in Hf |- *; by rewrite Hf].
    eapply goes_bind; [eapply (ready_table first s1 _ Ht); [rdy|exact Hk1|by eapply rank_name_ends]|]. intros t' s2 Hk2 Hd2 Ht'.
    assert (length joins < S (remaining s2))%nat as HF.
    { rewrite remaining_kinds, Hk2, length_app. clear. induction joins as [|[op ? ? nat] js IH]; cbn [map List.concat length]; [lia|]. rewrite length_app. assert (1 <= length (one_join_toks (MkJoin op table constraint nat)))%nat by (destruct nat, op; cbn; lia). lia. }
    eapply (goes_bind _ _ _ r _ (Forall2 same_join joins)).
    { destruct (ready_joins joins r Hj Hr (S (remaining s2)) [] s2) as (l & s3 & E & H1 & H2 & l2 & -> & Hl2); [rdy|done|done|]. by exists l2, s3. }
    intros js s3 Hk3 _ Hjs. apply goes_mret; [done|]. cbn [strip_from]. unfold same_table in Ht'. by rewrite Ht', (sim_map strip_join joins js).
  - cbn [app] in Hs. destruct (rank_not_kw 3 r KW_FROM Hr ltac:(cbn; lia)) as (k & t & -> & Hk). eapply goes_bind; [leaf|]. intros b s1 Hk1 _ ->. by apply goes_mret.
Qed.

(** ** The core of a SELECT *)

Lemma columns_start columns : nonempty columns = true -> forallb (column_ok (canon h) d) columns = true -> exists k t, comma_toks (map column_toks columns) = k :: t /\ is_kw k KW_DISTINCT = false /\ is_kw k KW_ALL = false.
Proof.
  intros Hne Hok. destruct columns as [|c cs]; [done|]. rewrite comma_toks_cons. cbn [forallb] in Hok. apply andb_prop in Hok as [Hc _]. destruct c as [|t|e alias]; [by eexists _, _|by eexists _, _|].
  apply andb_prop in Hc as [He _]. destruct (expr_starts h d e He) as (k & ks & Ek & Ho & _). destruct (opens_not k Ho) as (H1 & H2 & _). cbn [column_toks]. rewrite Ek. by eexists _, _.
Qed.

Lemma goes_distinct dd k t s : kinds s = distinct_toks dd ++ k :: t -> is_kw k KW_DISTINCT = false -> is_kw k KW_ALL = false -> goes opt_distinct s (k :: t) (fun o => o = dd).
Proof.
  intros Hs H1 H2. unfold opt_distinct. destruct dd as [[|]|]; cbn [distinct_toks app] in Hs.
  - eapply goes_bind; [leaf|]. intros b s1 Hk1 _ ->. by apply goes_mret.
  - eapply goes_bind; [leaf|]. intros b s1 Hk1 _ ->. eapply goes_bind; [leaf|]. intros b s2 Hk2 _ ->. by apply goes_mret.
  - eapply goes_bind; [leaf|]. intros b s1 Hk1 _ ->. eapply goes_bind; [leaf|]. intros b s2 Hk2 _ ->. by apply goes_mret.
Qed.

Definition where_toks (o : option Expr) : toks := match o with Some e => K KW_WHERE :: expr_toks e | None => [] end.
Definition from_part (o : option FromClause) : toks := match o with Some f => K KW_FROM :: from_toks f | None => [] end.
Definition group_toks (l : list Expr) : toks := match l with [] => [] | _ => K KW_GROUP :: K KW_BY :: comma_toks (map expr_toks l) end.
Definition having_toks (o : option Expr) : toks := match o with Some e => K KW_HAVING :: expr_toks e | None => [] end.

Lemma ready_core dd columns from where_clause s r : nonempty columns = true -> forallb (column_ok (canon h) d) columns = true -> opt_ok (from_ok (canon h) (csel h) d) from = true ->
  opt_ok (expr_ok (canon h) d) where_clause = true -> ready s -> kinds s = distinct_toks dd ++ comma_toks (map column_toks columns) ++ from_part from ++ where_toks where_clause ++ r -> at_rank 4 r = true ->
  goes (select_core (grammar n)) s r (fun c => c.1.1.1 = dd /\ map strip_column c.1.1.2 = map strip_column columns /\ option_map strip_from c.1.2 = option_map strip_from from /\ option_map strip c.2 = option_map strip where_clause).
Proof.
  intros Hne Hc Hf Hw [Hd Hn] Hs Hr. destruct (columns_start columns Hne Hc) as (k & t & Ek & Hk1 & Hk2). unfold select_core.
  assert (at_rank 3 (where_toks where_clause ++ r) = true) as Hr3 by (destruct where_clause; [done|by eapply at_rank_le; [|exact Hr]; lia]).
  assert (at_rank 1 (from_part from ++ where_toks where_clause ++ r) = true) as Hr1 by (destruct from; [done|by eapply at_rank_le; [|exact Hr3]; lia]).
  eapply (goes_bind _ _ _ (comma_toks (map column_toks columns) ++ from_part from ++ where_toks where_clause ++ r) _ (fun o => o = dd)); [rewrite Ek in *; by apply goes_distinct|].
  intros o s1 Hs1 Hd1 ->. eapply goes_bind; [eapply (ready_columns columns s1 _ Hne Hc); [rdy|exact Hs1|done]|]. intros cols s2 Hs2 Hd2 Hcols.
  eapply goes_bind; [eapply (ready_from from s2 _ Hf); [rdy|exact Hs2|done]|]. intros f s3 Hs3 Hd3 Hfrom.
  eapply goes_no_refuse; [destruct (at_rank_inv _ _ Hr3) as (k3 & t3 & E3 & H31 & _); rewrite E3 in Hs3; rewrite (at_kw_here _ _ _ _ Hs3); by_token k3|].
  destruct (rank_not_kw 4 r KW_WHERE Hr ltac:(cbn; lia)) as (k4 & t4 & E4 & Hk4).
  eapply goes_bind; [eapply (ready_clause KW_WHERE where_clause s3 r Hw); [rdy|exact Hs3|by rewrite E4|by eapply rank_expr_end]|]. intros w s4 Hs4 _ Hwh. by apply goes_mret.
Qed.

(** [GROUP BY] and [HAVING]. *)
Lemma ready_group_tail group_by having s r : nonempty group_by = true -> forallb (expr_ok (canon h) d) group_by = true -> opt_ok (expr_ok (canon h) d) having = true -> ready s ->
  kinds s = K KW_BY :: comma_toks (map expr_toks group_by) ++ having_toks having ++ r -> at_rank 6 r = true ->
  goes (group_by_tail (grammar n)) s r (fun g => map strip g.1 = map strip group_by /\ option_map strip g.2 = option_map strip having).
Proof.
  intros Hne Hg Hh [Hd Hn] Hs Hr. unfold group_by_tail. eapply goes_bind; [leaf|]. intros sp1 s1 Hk1 Hd1 _.
  eapply goes_bind; [eapply (ready_exprs group_by s1 _ Hne Hg); [rdy|exact Hk1|destruct having; [done|by eapply rank_list_end]]|]. intros l s2 Hk2 Hd2 Hl.
  destruct (rank_not_kw 6 r KW_HAVING Hr ltac:(cbn; lia)) as (k4 & t4 & E4 & Hk4).
  eapply goes_bind; [eapply (ready_clause KW_HAVING having s2 r Hh); [rdy|exact Hk2|by rewrite E4|by eapply rank_expr_end]|]. intros o s3 Hk3 _ Ho. by apply goes_mret.
Qed.

Lemma group_rank group_by having r : at_rank 6 r = true -> at_rank 4 (group_toks group_by ++ having_toks having ++ r) = true.
Proof. intros Hr. destruct group_by; [|done]. destruct having; [done|]. cbn. by eapply at_rank_le; [|exact Hr]; lia. Qed.

(** ** Compound queries *)

Definition same_compound (c c' : CompoundSelect) : Prop := strip_compound c' = strip_compound c.

Lemma ready_arm op dd columns from where_clause group_by having sp start s r : compound_ok (canon h) (csel h) d (MkCompound op dd columns from where_clause group_by having sp) = true -> ready s ->
  kinds s = K KW_SELECT :: distinct_toks dd ++ comma_toks (map column_toks columns) ++ from_part from ++ where_toks where_clause ++ group_toks group_by ++ having_toks having ++ r -> at_rank 6 r = true ->
  goes (parse_compound_select_arm (grammar n) start op) s r (same_compound (MkCompound op dd columns from where_clause group_by having sp)).
Proof.
  intros Hok [Hd Hn] Hs Hr. cbn [compound_ok core_ok] in Hok. apply andb_prop in Hok as [Hok Hgh]. unfold core_ok in Hok. repeat apply andb_prop in Hok as [Hok ?]. unfold parse_compound_select_arm.
  eapply goes_no_refuse; [by rewrite (at_kw_here _ _ _ _ Hs)|]. eapply goes_bind; [leaf|]. intros sp1 s1 Hk1 Hd1 _.
  eapply goes_bind; [eapply (ready_core dd columns from where_clause s1 _); [done|done|done|done|rdy|exact Hk1|by apply group_rank]|]. intros [[[dd' cols] f] w] s2 Hk2 Hd2 Hq. cbn [fst snd] in Hq. destruct Hq as (-> & Hcols & Hf & Hw).
  eapply (goes_bind _ _ _ (match group_by with [] => group_toks group_by ++ having_toks having ++ r | _ => K KW_BY :: comma_toks (map expr_toks group_by) ++ having_toks having ++ r end) _ (fun b => b = nonempty group_by)).
  { destruct group_by as [|e es]; cbn [group_toks app] in *; [|leaf]. destruct having; [done|]. cbn [having_toks app] in *. destruct (rank_not_kw 6 r KW_GROUP Hr ltac:(cbn; lia)) as (k & t & -> & Hk). leaf. }
  intros b s3 Hk3 Hd3 ->. eapply (goes_bind _ _ _ r _ (fun g => map strip g.1 = map strip group_by /\ option_map strip g.2 = option_map strip having)).
  { destruct group_by as [|e es]; [|cbn [group_toks app] in *; eapply ready_group_tail; [done|done|done|rdy|exact Hk3|done]]. destruct having; [done|]. cbn [group_toks having_toks app nonempty] in *.
    destruct (rank_not_kw 6 r KW_HAVING Hr ltac:(cbn; lia)) as (k & t & -> & Hk). eapply goes_no_refuse; [by rewrite (at_kw_here _ _ _ _ Hk3)|]. by apply goes_mret. }
  intros g s4 Hk4 _ [Hg1 Hg2]. rewrite <- Hk4. eapply goes_bind; [leaf|]. intros sp5 s5 Hk5 _ _. apply goes_mret; [done|]. unfold same_compound. cbn [strip_compound].
  unfold option_map in *. by rewrite Hcols, Hf, Hw, Hg1, Hg2.
Qed.

Lemma compound_rank compound r : at_rank 7 r = true -> at_rank 6 (List.concat (map compound_toks compound) ++ r) = true.
Proof. intros Hr. destruct compound as [|[[|] ? ? ? ? ? ? ?] cs]; [|done|done]. by eapply at_rank_le; [|exact Hr]; lia. Qed.

Lemma ready_compound compound r : forallb (compound_ok (canon h) (csel h) d) compound = true -> at_rank 7 r = true ->
  forall F acc s, ready s -> kinds s = List.concat (map compound_toks compound) ++ r -> (length compound < F)%nat ->
  goes (compound_loop (grammar n) F acc) s r (fun l => exists l2, l = acc ++ l2 /\ Forall2 same_compound compound l2).
Proof.
  intros Hc Hr. induction compound as [|c cs IH]; intros F acc s Hrdy Hs HF; (destruct F as [|F]; [cbn in HF; lia|]); cbn [compound_loop].
  - cbn in Hs. destruct (at_rank_inv _ _ Hr) as (k & t & -> & H1 & H2). assert (is_kw k KW_INTERSECT = false /\ is_kw k KW_EXCEPT = false /\ is_kw k KW_UNION = false) as (E1 & E2 & E3) by by_token k.
    eapply goes_no_refuse; [by rewrite !(at_kw_here _ _ _ _ Hs), E1, E2|]. eapply (goes_if_gets _ _ _ _ _ false); [by rewrite (at_kw_here _ _ _ _ Hs)|]. apply goes_mret; [done|]. exists []. by rewrite app_nil_r.
  - apply andb_prop in Hc as [Hc Hcs]. destruct Hrdy as [Hd Hn]. destruct c as [op dd columns from where_clause group_by having sp]. cbn [map List.concat compound_toks] in Hs.
    fold (from_part from) (where_toks where_clause) (group_toks group_by) (having_toks having) in Hs. tidy Hs.
    eapply goes_no_refuse; [by rewrite !(at_kw_here _ _ _ _ Hs)|]. eapply (goes_if_gets _ _ _ _ _ true); [by rewrite (at_kw_here _ _ _ _ Hs)|]. cbn iota.
    eapply goes_bind; [leaf|]. intros start s1 Hk1 Hd1 _. set (rest := List.concat (map compound_toks cs) ++ r) in *.
    eapply (goes_bind _ _ _ _ _ (fun b => b = match op with CoUnionAll => true | CoUnion => false end)); [destruct op; cbn [app] in Hk1; leaf|].
    intros b s2 Hk2 Hd2 ->. assert (ready s2) as Hrdy2 by (destruct op; rdy).
    replace (if match op with CoUnionAll => true | CoUnion => false end then CoUnionAll else CoUnion) with op by by destruct op.
    eapply goes_bind; [eapply (ready_arm op dd columns from where_clause group_by having sp start s2 rest Hc Hrdy2); [exact Hk2|by apply compound_rank]|].
    intros a s3 Hk3 Hd3 Ha. eapply goes_imp; [eapply (IH Hcs F _ s3); [|exact Hk3|cbn in HF; lia]|].
    + destruct Hrdy2 as [Hd2' Hn2]. rdy.
    + intros l (l2 & -> & Hl2). exists (a :: l2). rewrite <- app_assoc. split; [done|]. by constructor.
Qed.

(** ** [ORDER BY] and [LIMIT] *)

Definition same_ordering (t t' : OrderingTerm) : Prop := strip_ordering t' = strip_ordering t.
Definition order_end (r : toks) : bool := match r with TkComma :: _ => true | _ => at_rank 8 r end.

Lemma order_end_not r : order_end r = true -> exists k t, r = k :: t /\ is_kw k KW_ASC = false /\ is_kw k KW_DESC = false /\ is_kw k KW_NULLS = false /\ expr_end r = true.
Proof.
  intros Hr. destruct r as [|k t]; [done|]. exists k, t. split; [done|]. unfold order_end, at_rank in Hr. unfold expr_end. cbn [next_level head_is_kw].
  destruct k as [| | | | | | | |kw| | | | | | | | | | | | | | | | | | | | | | | | | | |]; try done; by destruct kw.
Qed.

Lemma ready_ordering t s r : ordering_ok (canon h) d t = true -> ready s -> kinds s = ordering_toks t ++ r -> order_end r = true -> goes (ordering_term (grammar n)) s r (same_ordering t).
Proof.
  intros Ht [Hd Hn] Hs Hr. destruct t as [e desc nulls]. cbn [ordering_ok ordering_toks] in *. destruct (order_end_not r Hr) as (k & t & Er & Hasc & Hdesc & Hnulls & Hend). tidy Hs. unfold ordering_term.
  set (tail1 := match nulls with Some false => [K KW_NULLS; K KW_FIRST] | Some true => [K KW_NULLS; K KW_LAST] | None => [] end ++ r) in *.
  assert (exists k1 t1, tail1 = k1 :: t1 /\ is_kw k1 KW_ASC = false /\ is_kw k1 KW_DESC = false /\ expr_end tail1 = true) as (k1 & t1 & E1 & H1 & H2 & He1).
  { unfold tail1. destruct nulls as [[|]|]; [by eexists _, _|by eexists _, _|]. rewrite Er. rewrite Er in Hend. by eexists _, _. }
  eapply goes_bind; [eapply (ready_expr e s _ Ht); [by split|exact Hs|destruct desc as [[|]|]; done]|]. intros e' s1 Hk1 Hd1 He'.
  eapply (goes_bind _ _ _ tail1 _ (fun o => o = desc)).
  { unfold opt_direction. rewrite E1 in *. destruct desc as [[|]|]; cbn [direction_toks app] in Hk1; repeat (eapply goes_bind; [leaf|]; intros ? ? ?Hk ?Hd ->); by apply goes_mret. }
  intros o s2 Hk2 Hd2 ->. eapply (goes_bind _ _ _ r _ (fun o => o = nulls)).
  { unfold opt_nulls, tail1 in *. rewrite Er in *. destruct nulls as [[|]|]; cbn [app] in Hk2; repeat (eapply goes_bind; [leaf|]; intros ? ? ?Hk ?Hd ->); by apply goes_mret. }
  intros o s3 Hk3 _ ->. apply goes_mret; [done|]. unfold same_ordering. cbn. by rewrite He'.
Qed.

Lemma ready_order order_by s r : forallb (ordering_ok (canon h) d) order_by = true -> ready s -> kinds s = match order_by with [] => [] | _ => K KW_ORDER :: K KW_BY :: comma_toks (map ordering_toks order_by) end ++ r ->
  at_rank 8 r = true -> goes (opt_order_by (grammar n)) s r (fun l => map strip_ordering l = map strip_ordering order_by).
Proof.
  intros Ho [Hd Hn] Hs Hr. unfold opt_order_by. destruct order_by as [|t ts].
  - destruct (rank_not_kw 8 r KW_ORDER Hr ltac:(cbn; lia)) as (k & t & -> & Hk). cbn [app] in Hs. eapply goes_bind; [leaf|]. intros b s1 Hk1 _ ->. by apply goes_mret.
  - tidy Hs. eapply goes_bind; [leaf|]. intros b s1 Hk1 Hd1 ->. eapply goes_bind; [leaf|]. intros sp2 s2 Hk2 Hd2 _.
    eapply goes_imp; [eapply (ready_list _ ordering_toks (ordering_ok (canon h) d) same_ordering order_end (t :: ts) s2 r); [intros; by apply ready_ordering|done| |by eapply rank_list_end|done|exact Ho|rdy|exact Hk2]|apply sim_map].
    destruct (at_rank_inv _ _ Hr) as (k & t0 & -> & H1 & H2). unfold order_end. by destruct k.
Qed.

Lemma ready_limit limit s r : opt_ok (limit_ok (canon h) d) limit = true -> ready s -> kinds s = match limit with Some l => limit_toks l | None => [] end ++ r -> at_rank 9 r = true ->
  goes (opt_limit (grammar n)) s r (fun l => option_map strip_limit l = option_map strip_limit limit).
Proof.
  intros Hl [Hd Hn] Hs Hr. unfold opt_limit. destruct (at_rank_inv _ _ Hr) as (k & t & Er & H1 & H2). assert (is_kw k KW_LIMIT = false /\ is_kw k KW_OFFSET = false /\ kind_eqb k TkComma = false) as (E1 & E2 & E3) by by_token k.
  pose proof (rank_expr_end _ _ Hr) as Hend. destruct limit as [[e offset]|].
  - cbn [opt_ok limit_ok limit_toks] in *. apply andb_prop in Hl as [He Ho]. tidy Hs. eapply goes_bind; [leaf|]. intros b s1 Hk1 Hd1 ->.
    eapply goes_bind; [eapply (ready_expr e s1 _ He); [rdy|exact Hk1|by destruct offset]|]. intros e' s2 Hk2 Hd2 He'. destruct offset as [o|]; cbn [app] in Hk2.
    + eapply goes_bind; [leaf|]. intros b s3 Hk3 Hd3 ->. eapply (goes_bind _ _ _ (expr_toks o ++ r) _ (fun b => b = true)); [by apply goes_mret|]. intros b s4 Hk4 Hd4 ->.
      eapply (goes_bind _ _ _ r _ (fun x => option_map strip x = Some (strip o))); [eapply goes_bind; [eapply (ready_expr o s4 r Ho); [rdy|exact Hk4|done]|]; intros o' s5 Hk5 _ Ho'; apply goes_mret; [done|]; cbn; by rewrite Ho'|].
      intros x s5 Hk5 _ Hx. apply goes_mret; [done|]. cbn. unfold option_map in Hx. by rewrite He', Hx.
    + rewrite Er in Hk2. eapply goes_bind; [leaf|]. intros b s3 Hk3 Hd3 ->. eapply (goes_bind _ _ _ r _ (fun b => b = false)); [rewrite Er; leaf|]. intros b s4 Hk4 Hd4 ->.
      eapply (goes_bind _ _ _ r _ (fun x => x = None)); [by apply goes_mret|]. intros x s5 Hk5 _ ->. apply goes_mret; [done|]. cbn. by rewrite He'.
  - cbn [app] in Hs. rewrite Er in *. eapply goes_bind; [leaf|]. intros b s1 Hk1 _ ->. by apply goes_mret.
Qed.

(** ** [WITH] *)

Definition same_cte (c c' : CommonTableExpr) : Prop := strip_cte c' = strip_cte c.

Lemma ready_cte c s r : cte_ok (csel h) d c = true -> ready s -> kinds s = cte_toks c ++ r -> goes (parse_common_table_expr (grammar n)) s r (same_cte c).
Proof.
  intros Hc [Hd Hn] Hs. destruct c as [name columns query sp]. cbn [cte_ok cte_toks] in *. apply andb_prop in Hc as [[_ Hcols]%andb_prop Hq]. unfold parse_common_table_expr.
  tidy Hs. eapply goes_bind; [leaf|]. intros p s1 Hk1 Hd1 Hp. cbn in Hp.
  eapply (goes_bind _ _ _ (K KW_AS :: TkLParen :: select_toks query ++ TkRParen :: r) _ (fun o => o = columns)).
  { unfold opt_name_list. destruct columns as [cols|].
    - cbn [opt_ok] in Hcols. apply andb_prop in Hcols as [Hne _]. tidy Hk1. eapply goes_bind; [leaf|]. intros b s2 Hk2 _ ->.
      eapply goes_bind; [eapply (goes_name_list cols s2); [by destruct cols|exact Hk2|done|by intros k r' [= <- <-]]|]. intros l s3 Hk3 _ ->. eapply goes_bind; [leaf|]. intros sp4 s4 Hk4 _ _. by apply goes_mret.
    - tidy Hk1. eapply goes_bind; [leaf|]. intros b s2 Hk2 _ ->. by apply goes_mret. }
  intros o s2 Hk2 Hd2 ->. eapply goes_bind; [leaf|]. intros sp3 s3 Hk3 Hd3 _. eapply goes_no_refuse; [by rewrite !(at_kw_here _ _ _ _ Hk3)|]. eapply goes_bind; [leaf|]. intros sp4 s4 Hk4 Hd4 _.
  eapply goes_bind; [eapply (ready_select true query s4 _ Hq); [rdy|exact Hk4|done]|]. intros q s5 Hk5 Hd5 Hq'. eapply goes_bind; [leaf|]. intros sp6 s6 Hk6 _ _. apply goes_mret; [done|].
  unfold same_cte, same_select in *. cbn [strip_cte]. by rewrite Hp, Hq'.
Qed.

Lemma ready_with w s r : opt_ok (with_ok (csel h) d) w = true -> (depth s + d <= MAX_EXPR_DEPTH)%nat -> (length (kinds s) <= n)%nat -> kinds s = match w with Some w => with_toks w | None => [] end ++ K KW_SELECT :: r ->
  goes (opt_with (grammar n)) s (K KW_SELECT :: r) (fun o => option_map strip_with o = option_map strip_with w).
Proof.
  intros Hw Hd Hn Hs. unfold opt_with. destruct w as [[ctes sp]|].
  - cbn [opt_ok with_ok with_toks] in *. apply andb_prop in Hw as [Hne Hctes]. tidy Hs. eapply (goes_if_gets _ _ _ _ _ true); [by rewrite (at_kw_here _ _ _ _ Hs)|]. cbn iota. unfold parse_with_clause.
    eapply (goes_bind _ _ _ (K KW_SELECT :: r) _ (fun w' => strip_with w' = MkWith (map strip_cte ctes) NO_SPAN)); [|intros w' s1 Hk1 _ Hw'; apply goes_mret; [done|]; cbn; by rewrite Hw'].
    eapply goes_bind; [leaf|]. intros sp1 s1 Hk1 Hd1 _. eapply goes_no_refuse.
    { destruct ctes as [|[name ? ? ?] cs]; [done|]. rewrite comma_toks_cons in Hk1. cbn [cte_toks] in Hk1. tidy Hk1. by rewrite (at_kw_here _ _ _ _ Hk1). }
    eapply goes_bind; [eapply (ready_list _ cte_toks (cte_ok (csel h) d) same_cte (fun _ => true) ctes s1 (K KW_SELECT :: r)); [intros; by apply ready_cte|done|done|done|done|done|rdy|exact Hk1]|].
    intros l s2 Hk2 _ Hl. apply goes_mret; [done|]. cbn [strip_with]. by rewrite (sim_map strip_cte ctes l).
  - cbn [app] in Hs. eapply (goes_if_gets _ _ _ _ _ false); [by rewrite (at_kw_here _ _ _ _ Hs)|]. by apply goes_mret.
Qed.

(** ** The statement *)

Lemma ready_query_group group_by having s r : forallb (expr_ok (canon h) d) group_by = true -> opt_ok (expr_ok (canon h) d) having = true -> ready s ->
  kinds s = group_toks group_by ++ having_toks having ++ r -> at_rank 6 r = true ->
  goes (group ← eat_kw KW_GROUP; if group : bool then group_by_tail (grammar n) else having ← opt_clause (grammar n) KW_HAVING; mret ([], having)) s r
    (fun g => map strip g.1 = map strip group_by /\ option_map strip g.2 = option_map strip having).
Proof.
  intros Hg Hh [Hd Hn] Hs Hr. destruct group_by as [|e es]; cbn [group_toks app] in Hs.
  - assert (exists k t, having_toks having ++ r = k :: t /\ is_kw k KW_GROUP = false) as (k & t & E & Hk) by (destruct having; [by eexists _, _|]; by apply (rank_not_kw 6 r KW_GROUP Hr); cbn; lia).
    eapply (goes_bind _ _ _ (kinds s) _ (fun b => b = false)); [rewrite E in Hs; rewrite Hs; leaf|]. intros b s1 Hk1 Hd1 ->. rewrite Hs in Hk1. clear E.
    destruct (rank_not_kw 6 r KW_HAVING Hr ltac:(cbn; lia)) as (k4 & t4 & E4 & Hk4).
    eapply goes_bind; [eapply (ready_clause KW_HAVING having s1 r Hh); [rdy|exact Hk1|by rewrite E4|by eapply rank_expr_end]|]. intros o s2 Hk2 _ Ho. by apply goes_mret.
  - eapply goes_bind; [leaf|]. intros b s1 Hk1 Hd1 ->. by eapply ready_group_tail; [..|rdy|exact Hk1|].
Qed.

Lemma goes_assoc {A B C} (m : P A) (f : A -> P B) (k : B -> P C) s r Q : goes (mbind k (mbind f m)) s r Q -> goes (mbind (fun a => mbind k (f a)) m) s r Q.
Proof. unfold goes, mbind, M_bind. by destruct (m s) as [[a|e] s']. Qed.

Lemma read_select wa q s r : csel (S h) d wa q = true -> kinds s = select_toks q ++ r -> (depth s + d <= MAX_EXPR_DEPTH)%nat -> (length (kinds s) <= n)%nat -> closes r = true ->
  goes (parse_select_stmt (grammar n)) s r (same_select q).
Proof.
  intros Hq Hs Hd Hn Hr. destruct q as [w dd columns from where_clause group_by having compound order_by limit sp]. cbn [csel sel_ok] in Hq. unfold core_ok in Hq.
  repeat apply andb_prop in Hq as [Hq ?]. match goal with H : _ && _ = true |- _ => repeat apply andb_prop in H as [H ?] end.
  assert (opt_ok (with_ok (csel h) d) w = true) as Hw by (destruct w; [by apply andb_prop in Hq as [_ Hq]|done]).
  cbn [select_toks] in Hs. fold (from_part from) (where_toks where_clause) (group_toks group_by) (having_toks having) in Hs. tidy Hs. apply closes_rank in Hr.
  set (limit_part := match limit with Some l => limit_toks l | None => [] end ++ r) in *. assert (at_rank 8 limit_part = true) as Hr8 by (unfold limit_part; destruct limit as [[e o]|]; [done|by eapply at_rank_le; [|exact Hr]; lia]).
  set (order_part := match order_by with [] => [] | _ => _ end ++ limit_part) in *. assert (at_rank 7 order_part = true) as Hr7 by (unfold order_part; destruct order_by; [by eapply at_rank_le; [|exact Hr8]; lia|done]).
  set (compound_part := List.concat (map compound_toks compound) ++ order_part) in *. assert (at_rank 6 compound_part = true) as Hr6 by by apply compound_rank.
  unfold parse_select_stmt. eapply goes_bind; [by apply (ready_with w s)|]. intros w' s1 Hk1 Hd1 Hw'.
  assert (length (kinds s1) <= n)%nat as Hn1 by (rewrite Hk1; rewrite Hs, length_app in Hn; lia). clear Hs Hn.
  eapply goes_no_refuse; [by rewrite (at_kw_here _ _ _ _ Hk1)|]. eapply goes_no_refuse; [rewrite !(at_kw_here _ _ _ _ Hk1); by destruct w'|].
  eapply goes_bind; [leaf|]. intros sp2 s2 Hk2 Hd2 _.
  eapply goes_bind; [eapply (ready_core dd columns from where_clause s2 _); [done|done|done|done|rdy|exact Hk2|by apply group_rank]|]. intros [[[dd' cols] f] w2] s3 Hk3 Hd3 Hc. cbn [fst snd] in Hc. destruct Hc as (-> & Hcols & Hf & Hwh).
  assert (ready s3) as Hrdy3 by rdy.
  apply goes_assoc. eapply goes_bind; [by eapply (ready_query_group group_by having s3)|]. intros g s4 Hk4 Hd4 [Hg1 Hg2]. assert (ready s4) as Hrdy4 by (eapply (ready_step s3 s4 (group_toks group_by ++ having_toks having)); [done|by rewrite <- app_assoc|done|done]).
  eapply (goes_bind _ _ _ order_part _ (Forall2 same_compound compound)).
  { destruct (ready_compound compound order_part ltac:(done) Hr7 (S (remaining s4)) [] s4 Hrdy4 Hk4) as (l & s5 & E & H1' & H2' & l2 & -> & Hl2); [|by exists l2, s5].
    rewrite remaining_kinds, Hk4. unfold compound_part. rewrite length_app. clear. induction compound as [|[op ? ? ? ? ? ? ?] cs IH]; cbn [map List.concat length]; [lia|]. rewrite length_app. destruct op; cbn; lia. }
  intros arms s5 Hk5 Hd5 Harms. assert (ready s5) as Hrdy5 by (by eapply ready_step).
  eapply goes_bind; [eapply (ready_order order_by s5 limit_part); [done|done|exact Hk5|done]|]. intros os s6 Hk6 Hd6 Hos. assert (ready s6) as Hrdy6 by (by eapply ready_step).
  eapply goes_bind; [by apply (ready_limit limit s6 r)|]. intros l s7 Hk7 Hd7 Hl. rewrite <- Hk7. eapply goes_bind; [leaf|]. intros sp8 s8 Hk8 _ _. apply goes_mret; [done|].
  unfold same_select. cbn [strip_select]. apply (sim_map strip_compound) in Harms. unfold option_map in *. by rewrite Hw', Hcols, Hf, Hwh, Hg1, Hg2, Harms, Hos, Hl.
Qed.
End Clauses.

Section Reading.
Context `{Unicode}.

Lemma read_both h :
  (forall n L e d s r, canon h d L e = true -> kinds s = expr_toks e ++ r -> (depth s + d <= MAX_EXPR_DEPTH)%nat -> (length (kinds s) <= n)%nat -> ends L (level (e_kind e)) r -> at_level (grammar n) L e s r) /\
  (forall n wa q d s r, csel h d wa q = true -> kinds s = select_toks q ++ r -> (depth s + d <= MAX_EXPR_DEPTH)%nat -> (length (kinds s) <= n)%nat -> closes r = true ->
    goes (parse_select_stmt (grammar n)) s r (same_select q)).
Proof.
  induction h as [|h [IHe IHs]]; [done|]. split.
  - intros. by eapply (read_node h IHe IHs).
  - intros. by eapply (read_select h IHe IHs).
Qed.
End Reading.
