(* ===== verification/PrintLex.v ===== *)
(** * Printed text reads back as tokens

    The text the printer writes for a printable query is scanned to the tokens
    the query stands for. *)

From stdpp Require Import prelude list numbers.
From Stdlib Require Import ZArith Lia.
From S2P Require Import Prelude Varint Text Record Float ValueOrder Format Coerce Functions FunctionProperties Tokenizer TokenizerProperties Ast Grammar Statements Printer PrintTokens PrintParse.

Local Open Scope Z_scope.

Section Lexing.
Context `{Unicode}.

(** The tokens from a scanner state on. *)
Definition lexed (t : Tokenizer) (ks : toks) : Prop := forall fuel, (length (tk_rest t) < fuel)%nat -> map tok_kind (tokenize_loop fuel t) = ks.

(** The characters after which every printed token has ended. *)
Definition separator (c : Z) : bool := (c =? 32) || (c =? 40) || (c =? 41) || (c =? 44).
Definition parted (r : str) : Prop := match r with [] => True | c :: _ => separator c = true end.

(** The text [w], before any text or before a separator, is scanned to [ks]. *)
Definition lexes (C : str -> Prop) (w : str) (ks : toks) : Prop :=
  forall t r, tk_rest t = w ++ r -> C r -> exists t', tk_rest t' = r /\ forall ks', lexed t' ks' -> lexed t (ks ++ ks').
Definition anywhere (r : str) : Prop := True.

Abbreviation lexes_tight := (lexes anywhere).
Abbreviation lexes_parted := (lexes parted).

Lemma lexes_imp (C C' : str -> Prop) w ks : lexes C w ks -> (forall r, C' r -> C r) -> lexes C' w ks.
Proof. intros Hw Hc t r E Hr. apply Hw; auto. Qed.

Lemma tight_parted w ks : lexes_tight w ks -> lexes_parted w ks.
Proof. intros Hw. eapply lexes_imp; [exact Hw|done]. Qed.

Lemma lexes_nil C : lexes C [] [].
Proof. intros t r E _. by exists t. Qed.

Lemma lexes_app C1 C w1 w2 ks1 ks2 : lexes C1 w1 ks1 -> lexes C w2 ks2 -> (forall r, C r -> C1 (w2 ++ r)) -> lexes C (w1 ++ w2) (ks1 ++ ks2).
Proof.
  intros H1 H2 Hc t r E Hr. rewrite <- app_assoc in E. destruct (H1 t (w2 ++ r) E (Hc r Hr)) as (t1 & E1 & Hl1). destruct (H2 t1 r E1 Hr) as (t2 & E2 & Hl2).
  exists t2. split; [done|]. intros ks' Hk. rewrite <- app_assoc. auto.
Qed.

(** A text that is empty or starts with a separator. *)
Definition soft (w : str) : Prop := parted w.

Lemma soft_app w1 w2 : soft w1 -> soft w2 -> soft (w1 ++ w2).
Proof. by destruct w1. Qed.

Lemma parted_app w1 w2 ks1 ks2 : lexes_parted w1 ks1 -> soft w2 -> lexes_parted w2 ks2 -> lexes_parted (w1 ++ w2) (ks1 ++ ks2).
Proof. intros H1 Hs H2. eapply lexes_app; [exact H1|exact H2|]. intros r Hr. by apply soft_app. Qed.

Lemma tight_app C w1 w2 ks1 ks2 : lexes_tight w1 ks1 -> lexes C w2 ks2 -> lexes C (w1 ++ w2) (ks1 ++ ks2).
Proof. intros H1 H2. by eapply lexes_app. Qed.

(** One token. *)
Lemma lexed_token t t' q k sp ks' : tk_rest t = q ++ tk_rest t' -> q <> [] -> next_token t = (MkToken k sp, t') -> is_eof k = false -> lexed t' ks' -> lexed t (k :: ks').
Proof.
  intros E Hq En Hk Hl fuel Hf. destruct fuel as [|fuel]; [lia|]. cbn [tokenize_loop]. rewrite En. cbn [tok_kind map]. rewrite Hk. f_equal. apply Hl. rewrite E, length_app in Hf.
  destruct q; [done|]. cbn in Hf. lia.
Qed.

Lemma lexes_token (C : str -> Prop) q k : q <> [] -> is_eof k = false -> (forall t r, tk_rest t = q ++ r -> C r -> exists t' sp, tk_rest t' = r /\ next_token t = (MkToken k sp, t')) -> lexes C q [k].
Proof.
  intros Hq Hk Hn t r E Hr. destruct (Hn t r E Hr) as (t' & sp & Er & En). exists t'. split; [done|]. intros ks' Hl. cbn [app]. eapply lexed_token; [|exact Hq|exact En|done|done]. by rewrite Er.
Qed.

(** Spaces are skipped. *)
Lemma lexed_space t r ks : tk_rest t = 32 :: r -> lexed (bump t) ks -> lexed t ks.
Proof.
  intros E Hl fuel Hf. pose proof (bump_rest _ _ _ E) as E1.
  assert (skip_trivia t = skip_trivia (bump t)) as Es by (unfold skip_trivia; rewrite E, E1; cbn [skip_trivia_loop length]; unfold peek_char at 1; rewrite E; reflexivity).
  assert (tok_kind (next_token t).1 = tok_kind (next_token (bump t)).1 /\ (next_token t).2 = (next_token (bump t)).2) as [Ek Et].
  { unfold next_token. rewrite Es. destruct (skip_trivia (bump t)) as [[reason|] t']; [done|]. destruct (peek_char t') as [c|]; [|done]. by destruct (scan_token t' c). }
  rewrite <- (Hl fuel) by (rewrite E1; rewrite E in Hf; cbn in Hf; lia). destruct fuel as [|fuel]; [lia|]. cbn [tokenize_loop].
  destruct (next_token t) as [tok t1], (next_token (bump t)) as [tok' t1']. cbn [fst snd] in *. subst t1'. cbn [map]. by rewrite Ek.
Qed.

Lemma lexes_space C w ks : lexes C w ks -> lexes C (32 :: w) ks.
Proof.
  intros Hw t r E Hr. cbn [app] in E. destruct (Hw (bump t) r (bump_rest _ _ _ E) Hr) as (t' & E' & Hl). exists t'. split; [done|]. intros ks' Hk. eapply lexed_space; [exact E|]. auto.
Qed.

(** ** Words *)

Definition word_end (r : str) : Prop := head_is (fun c => is_ident_continue c || (c =? 39)) r = false.
Definition word_ok (w : str) : bool := match w with c :: r => is_ident_start c && negb (is_whitespace c) && forallb is_ident_continue r | [] => false end.

Lemma start_facts c : is_ident_start c = true -> is_ident_continue c = true /\ is_ascii_digit c = false /\ forall x, x < 65 \/ 90 < x < 95 \/ x = 96 -> (c =? x) = false.
Proof.
  unfold is_ident_start, is_ident_continue, is_alphabetic, is_alphanumeric, is_ascii_alphabetic, is_ascii_digit. intros Hc.
  assert (c = 95 \/ 65 <= c <= 90 \/ 97 <= c <= 122 \/ (128 <= c /\ unicode_alphabetic c = true)) as Hr by (apply orb_prop in Hc as [Hc|Hc]; [lia|]; destruct (Z.ltb_spec c 128); [lia|right; right; by right]).
  split; [|split; [lia|intros x Hx; lia]]. destruct (Z.ltb_spec c 128); [lia|]. destruct Hr as [?|[?|[?|[_ ->]]]]; [lia..|]. by rewrite orb_true_r.
Qed.

Lemma lexes_word w k : word_ok w = true -> lookup_word w = k -> lexes word_end w [k].
Proof.
  intros Hw <-. destruct w as [|c w]; [done|]. cbn [word_ok] in Hw. apply andb_prop in Hw as [[Hc Hs%negb_true_iff]%andb_prop Hw].
  destruct (start_facts c Hc) as (Hcc & Hdig & Hx).
  apply lexes_token; [done|apply lookup_not_eof|]. intros t r E Hr. cbn [app] in E. unfold word_end in Hr.
  assert (head_is is_ident_continue r = false /\ head_is (Z.eqb 39) r = false) as [Hr1 Hr2].
  { destruct r as [|x r]; [done|]. cbn [head_is] in *. apply orb_false_iff in Hr as [Hr1 Hr2]. by rewrite Z.eqb_sym. }
  destruct (bump_while_run is_ident_continue t (c :: w) r E) as [He Er]; [cbn; by rewrite Hcc|done|].
  eexists _, _. split; [exact Er|]. rewrite (next_token_here t c (w ++ r) E).
  - assert (scan_token t c = scan_identifier_or_keyword t) as ->.
    { unfold scan_token. rewrite Hdig, !Hx by lia. cbn [orb]. destruct ((c =? 120) || (c =? 88)); [|by rewrite Hc]. unfold scan_maybe_blob, Tokenizer.peek_at. rewrite E.
      change ((c :: w ++ r) !! 1%nat) with ((w ++ r) !! 0%nat). assert (is_char_at ((w ++ r) !! 0%nat) 39 = false) as ->; [|done].
      destruct w as [|x w]; cbn; [destruct r as [|x r]; [done|]; cbn in Hr2 |- *; by rewrite Z.eqb_sym|]. cbn in Hw. apply andb_prop in Hw as [Hxc _]. apply Z.eqb_neq. intros ->. done. }
    unfold scan_identifier_or_keyword. cbv zeta. cbn [fst snd]. rewrite (text_since_eats _ _ _ He). reflexivity.
  - rewrite E. cbn [starts_trivia]. rewrite Hs, !Hx by lia. done.
Qed.

Lemma separator_inv c : separator c = true -> c = 32 \/ c = 40 \/ c = 41 \/ c = 44.
Proof. unfold separator. lia. Qed.

Lemma parted_word r : parted r -> word_end r.
Proof. destruct r as [|c r]; [done|]. cbn. intros [-> |[-> |[-> | ->]]]%separator_inv; done. Qed.

Lemma parted_delimited r : parted r -> delimited r.
Proof. destruct r as [|c r]; [done|]. cbn. intros [-> |[-> |[-> | ->]]]%separator_inv; done. Qed.

Lemma parted_word_lexes w k : word_ok w = true -> lookup_word w = k -> lexes_parted w [k].
Proof. intros. eapply lexes_imp; [by apply lexes_word|apply parted_word]. Qed.

Lemma ident_word w : ident_ok w = true -> word_ok w = true /\ lookup_word w = TkIdentifier w.
Proof.
  unfold ident_ok. destruct w as [|c w]; [done|]. intros [Hw Hl]%andb_prop. split; [done|].
  assert (forall x, match x with TkIdentifier s => s = c :: w | _ => True end -> match x with TkIdentifier _ => true | _ => false end = true -> x = TkIdentifier (c :: w)) as Hgen by (intros []; naive_solver).
  apply Hgen; [|exact Hl]. unfold lookup_word. destruct (eq_ignore_ascii_case _ _); [done|]. destruct (eq_ignore_ascii_case _ _); [done|]. destruct (eq_ignore_ascii_case _ _); [done|].
  destruct (binary_search_by _ _ _ _ _) as [i|]; [|done]. by destruct (KEYWORDS !! i) as [[? ?]|].
Qed.

Lemma ident_lexes w : ident_ok w = true -> lexes word_end w [TkIdentifier w].
Proof. intros [Hw Hl]%ident_word. by apply lexes_word. Qed.

Lemma reads_lexes q k : q <> [] -> is_eof k = false -> TokenizerProperties.reads q k -> lexes_parted q [k].
Proof.
  intros Hq Hk Hr. apply lexes_token; [done|done|]. intros t r E Hp. destruct (Hr t r E (parted_delimited r Hp)) as (t' & [Ee _] & En). exists t', (span_from t t'). split; [|done].
  rewrite E in Ee. by apply app_inv_head in Ee.
Qed.

(** ** Operators and punctuation *)

Lemma lexes_one (C : str -> Prop) c k : is_eof k = false -> is_whitespace c = false -> (forall r, C r -> starts_trivia (c :: r) = false) ->
  (forall t r, tk_rest t = c :: r -> C r -> scan_token t c = (k, bump t)) -> lexes C [c] [k].
Proof.
  intros Hk Hc Htr Hs. apply lexes_token; [done|done|]. intros t r E Hr. cbn [app] in E. eexists (bump t), _. split; [by eapply bump_rest|].
  rewrite (next_token_here t c r E); [|rewrite E; by apply Htr]. rewrite (Hs t r E Hr). reflexivity.
Qed.

(** Operators of one character, and of two. *)
Ltac scan_now := unfold scan_token, scan_operator, peek_char, Tokenizer.peek_at; cbn -[tk_rest bump starts_trivia]; repeat match goal with
  | E : tk_rest ?t = _ |- context [tk_rest ?t] => rewrite E
  | E : tk_rest ?t = _ :: _ |- context [tk_rest (bump ?t)] => rewrite (bump_rest _ _ _ E)
  end; cbn -[tk_rest bump].

Lemma tight_one c k : (c, k) ∈ [(40, TkLParen); (41, TkRParen); (44, TkComma); (42, TkStar); (43, TkPlus); (126, TkBitNot)] -> lexes_tight [c] [k].
Proof.
  rewrite !elem_of_cons, elem_of_nil. intros Hck. apply lexes_one; destruct_or! Hck; try done; simplify_eq; try done; intros t r E _; scan_now; done.
Qed.

Lemma parted_one c k : (c, k) ∈ [(47, TkSlash); (37, TkPercent); (45, TkMinus); (61, TkEq); (60, TkLt); (62, TkGt); (124, TkBitOr); (38, TkBitAnd)] -> lexes_parted [c] [k].
Proof.
  rewrite !elem_of_cons, elem_of_nil. intros Hck.
  apply lexes_one; destruct_or! Hck; try done; simplify_eq; try done; try (intros [|x r]; [done|]; cbn; intros [-> |[-> |[-> | ->]]]%separator_inv; done);
  (intros t [|x r] E; [intros _|intros [-> |[-> |[-> | ->]]]%separator_inv]; scan_now; done).
Qed.

Lemma minus_lexes : lexes (fun r => head_is (fun c => (c =? 45) || (c =? 62)) r = false) [45] [TkMinus].
Proof.
  apply lexes_one; try done.
  - intros [|x r]; [done|]. cbn [head_is]. intros Hx. apply orb_false_iff in Hx as [Hx%Z.eqb_neq _]. cbn -[Z.eqb is_whitespace]. by rewrite (proj2 (Z.eqb_neq 45 x)) by lia.
  - intros t [|x r] E Hr; scan_now; [done|]. cbn [head_is] in Hr. apply orb_false_iff in Hr as [_ Hx]. cbn in Hx. by rewrite Hx.
Qed.

Lemma dot_lexes : lexes (fun r => head_is is_ascii_digit r = false) [46] [TkDot].
Proof.
  apply lexes_one; try done. intros t [|x r] E Hr; unfold scan_token, Tokenizer.peek_at; rewrite E; cbn -[tk_rest bump]; [done|]. cbn in Hr. by rewrite Hr.
Qed.

Lemma parted_two c c2 k : (c, c2, k) ∈ [(60, 61, TkLe); (62, 61, TkGe); (33, 61, TkNe); (60, 60, TkShl); (62, 62, TkShr); (124, 124, TkConcat)] -> lexes_parted [c; c2] [k].
Proof.
  rewrite !elem_of_cons, elem_of_nil. intros Hck.
  apply lexes_token; [done|destruct_or! Hck; by simplify_eq|]. intros t r E Hr. cbn [app] in E. pose proof (bump_rest _ _ _ E) as E1. pose proof (bump_rest _ _ _ E1) as E2.
  eexists (bump (bump t)), _. split; [exact E2|]. rewrite (next_token_here t c (c2 :: r) E); [|rewrite E; destruct_or! Hck; by simplify_eq].
  assert (scan_token t c = (k, bump (bump t))) as ->; [|reflexivity]. destruct_or! Hck; try done; simplify_eq; scan_now; done.
Qed.

Lemma binop_lexes op : lexes_parted (binop_str op) [binop_tok op].
Proof.
  destruct op; try (by apply parted_word_lexes; [reflexivity|vm_compute; reflexivity]); try (apply parted_one; set_solver); try (apply parted_two; set_solver).
  all: apply tight_parted, tight_one; set_solver.
Qed.

(** ** Literals *)

(** Digits, and digits with a fraction. *)
Definition number_token (ip : str) (rest : str) : TokenKind :=
  let text := ip ++ rest in
  match rest, parse_i64 text with
  | [], Some n => TkInteger n
  | _, _ => match parse_f64 text with Some f => TkFloat f | None => TkError (LeInvalidFloat text) end
  end.

Lemma span_digits_run w ip rest : span_digits w = (ip, rest) -> w = ip ++ rest /\ forallb is_ascii_digit ip = true /\ head_is is_ascii_digit rest = false.
Proof.
  revert ip rest. induction w as [|c w IH]; intros ip rest; cbn [span_digits]; [by intros [= <- <-]|]. destruct (is_ascii_digit c) eqn:Ec; [|intros [= <- <-]; cbn; by rewrite Ec].
  destruct (span_digits w) as [ds rest'] eqn:Es. intros [= <- <-]. destruct (IH ds rest' eq_refl) as (-> & Hd & Hr). cbn. by rewrite Ec, Hd.
Qed.

Lemma delimited_peek r t c : delimited r -> tk_rest t = r -> is_ascii_alphabetic c = true \/ c = 46 -> is_char_at (peek_char t) c = false.
Proof.
  intros Hr Er Hc. assert (head_is (Z.eqb c) r = false) as Hx by (apply delimited_not; [intros y <-%Z.eqb_eq; destruct Hc; [left; by apply letter_continue|by right]|done]).
  unfold peek_char. rewrite Er. destruct r; [done|]. cbn [head_is] in Hx. cbn. by rewrite Z.eqb_sym.
Qed.

Lemma number_lexes ip rest k : ip <> [] -> forallb is_ascii_digit ip = true -> match rest with [] => True | c :: fp => c = 46 /\ forallb is_ascii_digit fp = true end ->
  (rest = [] -> parse_i64 ip = None -> parse_f64 ip <> None) -> (rest <> [] -> parse_f64 (ip ++ rest) <> None) -> k = number_token ip rest -> lexes_parted (ip ++ rest) [k].
Proof.
  intros Hne Hip Hrest Hf1 Hf2 ->. destruct ip as [|c ds]; [done|]. cbn [forallb] in Hip. apply andb_prop in Hip as [Hc Hds].
  assert (48 <= c <= 57) as Hcr by (unfold is_ascii_digit in Hc; lia).
  apply lexes_token; [done|unfold number_token; repeat case_match; done|]. intros t r E Hp. pose proof (parted_delimited r Hp) as Hr. pose proof E as E0. rewrite <- app_assoc in E0. cbn [app] in E, E0.
  assert (head_is is_ascii_digit r = false) as Hr1 by (apply delimited_not; [intros x Hx; left; by apply digit_continue|done]).
  assert (head_is is_ascii_digit (rest ++ r) = false) as Hr2 by (destruct rest as [|x fp]; [done|by destruct Hrest as [-> _]]).
  assert (exists t', tk_rest t' = r /\ scan_token t c = (number_token (c :: ds) rest, t')) as (t' & Et & Es).
  2: { eexists t', _. split; [exact Et|].
    rewrite (next_token_here t c _ E); [|rewrite E; cbn [starts_trivia]; unfold is_whitespace; assert (forall e, ~ 48 <= e <= 57 -> (c =? e) = false) as Hn by (intros e He; apply Z.eqb_neq; lia);
    rewrite !Hn by lia; rewrite (proj2 (Z.leb_gt c 13)), (proj2 (Z.leb_gt 8192 c)), andb_false_r by lia; reflexivity].
    by rewrite Es. }
  unfold scan_token. rewrite Hc. unfold scan_number, peek_char at 1, Tokenizer.peek_at. rewrite E0.
  assert (forall d, d = 120 \/ d = 88 -> is_char_at ((c :: ds ++ rest ++ r) !! 1%nat) d = false) as Hx.
  { intros d Hd. change ((c :: ds ++ rest ++ r) !! 1%nat) with ((ds ++ rest ++ r) !! 0%nat). destruct ds as [|y ds]; cbn.
    - destruct rest as [|y fp]; cbn; [|destruct Hrest as [-> _]; cbn; destruct Hd; by subst]. destruct r as [|y r]; [done|]. cbn in Hp |- *. apply separator_inv in Hp. apply Z.eqb_neq. lia.
    - cbn in Hds. apply andb_prop in Hds as [Hy _]. unfold is_ascii_digit in Hy. apply Z.eqb_neq. lia. }
  rewrite !Hx by auto. rewrite andb_false_r. destruct (bump_while_run is_ascii_digit t (c :: ds) (rest ++ r) E0) as [He Er]; [cbn; by rewrite Hc|done|]. set (t1 := bump_while is_ascii_digit t) in *.
  destruct rest as [|x fp].
  - cbn [app] in *. rewrite (delimited_peek r t1 46) by (done || by right). unfold scan_number_exponent. rewrite !(delimited_peek r t1) by (done || by left). cbn [orb].
    exists t1. split; [done|]. rewrite (text_since_eats _ _ _ He). unfold number_token. rewrite app_nil_r in *. destruct (parse_i64 (c :: ds)) as [i|] eqn:Ei; [reflexivity|].
    specialize (Hf1 eq_refl eq_refl). destruct (parse_f64 (c :: ds)) as [f|] eqn:Ef; [reflexivity|done].
  - destruct Hrest as [-> Hfp]. cbn [app] in Er. unfold peek_char at 1. rewrite Er. cbn [head is_char_at]. rewrite Z.eqb_refl.
    pose proof (bump_rest _ _ _ Er) as Er1. destruct (bump_while_run is_ascii_digit (bump t1) fp r Er1 Hfp Hr1) as [He2 Er2]. set (t2 := bump_while is_ascii_digit (bump t1)) in *.
    unfold scan_number_exponent. rewrite !(delimited_peek r t2) by (done || by left). cbn [orb]. exists t2. split; [done|].
    assert (eats t ((c :: ds) ++ 46 :: fp) t2) as He3 by (eapply eats_app; [exact He|]; eapply eats_cons; [exact Er|exact He2]).
    rewrite (text_since_eats _ _ _ He3). unfold number_token. specialize (Hf2 ltac:(done)). destruct (parse_f64 ((c :: ds) ++ 46 :: fp)) as [f|] eqn:Ef; [reflexivity|done].
Qed.

Lemma two63_lexes : lexes_parted (lit "9223372036854775808") [TkFloat F64_TWO63].
Proof. apply (number_lexes (lit "9223372036854775808") []); try done; by vm_compute. Qed.

Lemma literal_lexes l : literal_ok l = true -> lexes_parted (print_literal l) (literal_toks l).
Proof.
  intros Hok. destruct l as [v|v|s|b| | |]; cbn [literal_ok print_literal literal_toks] in *.
  - apply orb_prop in Hok as [->%Z.eqb_eq|[H0%Z.leb_le H1%Z.leb_le]%andb_prop].
    + change (to_string I64_MIN) with ([45] ++ lit "9223372036854775808"). change (if I64_MIN =? I64_MIN then _ else _) with ([TkMinus] ++ [TkFloat F64_TWO63]).
      eapply lexes_app; [exact minus_lexes|exact two63_lexes|done].
    + rewrite (proj2 (Z.eqb_neq v I64_MIN)), (proj2 (Z.ltb_ge v 0)) by (unfold I64_MIN; lia). apply reads_lexes; [|done|apply reads_integer; [unfold is_i64, I64_MAX in *; lia|done]].
      unfold to_string. rewrite (proj2 (Z.ltb_ge v 0)) by lia. by apply decimal_ok.
  - unfold float_ok in Hok. destruct (span_digits (display_f64 v)) as [ip rest] eqn:Es. destruct (span_digits_run _ _ _ Es) as (Ew & Hip & _). rewrite Ew in *. clear Es.
    apply andb_prop in Hok as [[Hne%negb_true_iff Hrest]%andb_prop Hf%bool_decide_eq_true]. apply bool_decide_eq_false in Hne.
    apply number_lexes; [done|done|destruct rest as [|c fp]; [done|]; apply andb_prop in Hrest as [->%Z.eqb_eq Hfp]; done|..].
    + intros -> _. rewrite app_nil_r in Hf. by rewrite Hf.
    + intros _. by rewrite Hf.
    + unfold number_token. rewrite Hf. destruct rest as [|c fp]; [|done]. apply bool_decide_eq_true in Hrest. by rewrite Hrest.
  - apply reads_lexes; [done|done|]. apply reads_text.
  - apply reads_lexes; [done|done|]. by apply reads_blob, bytes_okb_ok.
  - apply reads_lexes; [done|done|apply reads_null].
  - apply parted_word_lexes; [reflexivity|by vm_compute].
  - apply parted_word_lexes; [reflexivity|by vm_compute].
Qed.

Lemma named_lexes sigil s : param_name_ok s = true -> sigil = 58 \/ sigil = 64 \/ sigil = 36 ->
  lexes_parted (sigil :: s) [TkParam (if sigil =? 58 then PColon s else if sigil =? 64 then PAt s else PDollar s)].
Proof.
  intros Hok Hs. apply andb_prop in Hok as [Hne%negb_true_iff Hc]. apply bool_decide_eq_false in Hne. apply lexes_token; [done|done|]. intros t r E Hr. cbn [app] in E. pose proof (bump_rest _ _ _ E) as E1.
  destruct (bump_while_run is_ident_continue (bump t) s r E1 Hc) as [He Er]; [apply delimited_not; [by left|by apply parted_delimited]|]. eexists _, _. split; [exact Er|].
  rewrite (next_token_here t sigil _ E) by (rewrite E; destruct Hs as [-> |[-> | ->]]; done).
  assert (scan_token t sigil = scan_param_named t sigil) as -> by (destruct Hs as [-> |[-> | ->]]; done). unfold scan_param_named. cbv zeta. rewrite (text_since_eats _ _ _ He).
  destruct s as [|c s]; [done|]. destruct Hs as [-> |[-> | ->]]; reflexivity.
Qed.

Lemma param_lexes p : param_ok p = true -> lexes_parted (print_param p) [TkParam (param_of p)].
Proof.
  intros Hok. destruct p as [|n|s|s|s]; cbn [print_param param_of].
  - apply lexes_one; try done. intros t r E Hr. change (scan_param_question t = (TkParam PAnonymous, bump t)). unfold scan_param_question. pose proof (bump_rest _ _ _ E) as E1.
    assert (head_is is_ascii_digit r = false) as Hr1 by (apply delimited_not; [intros x Hx; left; by apply digit_continue|by apply parted_delimited]).
    destruct (bump_while_run is_ascii_digit (bump t) [] r E1 eq_refl Hr1) as [[_ Ht] _]. cbn in Ht. cbv zeta. rewrite Ht. by rewrite (text_since_eats _ _ _ (eats_nil _)).
  - cbn in Hok. apply andb_prop in Hok as [H0%Z.leb_le H1%Z.leb_le]. unfold to_string. rewrite (proj2 (Z.ltb_ge n 0)) by lia. destruct (decimal_ok n H0) as (Hv & Hd & Hne).
    apply lexes_token; [done|done|]. intros t r E Hr. cbn [app lit] in E. pose proof (bump_rest _ _ _ E) as E1.
    assert (head_is is_ascii_digit r = false) as Hr1 by (apply delimited_not; [intros x Hx; left; by apply digit_continue|by apply parted_delimited]).
    destruct (bump_while_run is_ascii_digit (bump t) (decimal n) r E1 Hd Hr1) as [He Er]. eexists _, _. split; [exact Er|]. rewrite (next_token_here t 63 _ E) by by rewrite E.
    change (scan_token t 63) with (scan_param_question t). unfold scan_param_question. cbv zeta. rewrite (text_since_eats _ _ _ He). destruct (decimal n) as [|c ds] eqn:Ed; [done|]. rewrite Hv, (proj2 (Z.leb_le n U32_MAX)) by lia. reflexivity.
  - apply (named_lexes 58); auto.
  - apply (named_lexes 64); auto.
  - apply (named_lexes 36); auto.
Qed.

(** ** Fixed text: words between spaces, parentheses and commas *)

Definition separator_toks (c : Z) : toks := if c =? 40 then [TkLParen] else if c =? 41 then [TkRParen] else if c =? 44 then [TkComma] else [].
Definition flush_word (cur : str) : toks := match cur with [] => [] | _ => [lookup_word cur] end.
Fixpoint chunk_toks (cur w : str) : toks :=
  match w with [] => flush_word cur | c :: w => if separator c then flush_word cur ++ separator_toks c ++ chunk_toks [] w else chunk_toks (cur ++ [c]) w end.
Definition chunk_ok (w : str) : bool := forallb (fun c => is_ascii_alphabetic c || separator c) w.

Lemma letter_start c : is_ascii_alphabetic c = true -> is_ident_start c = true /\ is_whitespace c = false.
Proof.
  unfold is_ascii_alphabetic. intros Hc. assert (65 <= c <= 90 \/ 97 <= c <= 122) as Hr by lia. split; [|unfold is_whitespace; lia].
  unfold is_ident_start, is_alphabetic, is_ascii_alphabetic. rewrite (proj2 (Z.ltb_lt c 128)) by lia. rewrite Hc. apply orb_true_r.
Qed.

Lemma flush_lexes cur : forallb is_ascii_alphabetic cur = true -> lexes_parted cur (flush_word cur).
Proof.
  intros Hcur. destruct cur as [|c cur]; [apply lexes_nil|]. cbn [forallb] in Hcur. apply andb_prop in Hcur as [Hc Hcur]. destruct (letter_start c Hc) as [H1 H2].
  apply parted_word_lexes; [|done]. cbn [word_ok]. rewrite H1, H2. cbn. apply forallb_forall. intros x Hx. apply letter_continue. rewrite forallb_forall in Hcur. by apply Hcur.
Qed.

Lemma separator_lexes c : separator c = true -> lexes_tight [c] (separator_toks c).
Proof. intros [-> |[-> |[-> | ->]]]%separator_inv; [apply lexes_space, lexes_nil|apply tight_one; set_solver..]. Qed.

Lemma chunk_lexes w : forall cur, forallb is_ascii_alphabetic cur = true -> chunk_ok w = true -> lexes_parted (cur ++ w) (chunk_toks cur w).
Proof.
  induction w as [|c w IH]; intros cur Hcur Hw; cbn [chunk_toks]; [rewrite app_nil_r; by apply flush_lexes|]. cbn in Hw. apply andb_prop in Hw as [Hc Hw]. destruct (separator c) eqn:Es.
  - apply parted_app; [by apply flush_lexes|done|]. change (c :: w) with ([c] ++ w). apply tight_app; [by apply separator_lexes|by apply (IH [])].
  - rewrite orb_false_r in Hc. replace (cur ++ c :: w) with ((cur ++ [c]) ++ w) by by rewrite <- app_assoc. apply IH; [|done]. rewrite forallb_app, Hcur. cbn. by rewrite Hc.
Qed.

Lemma chunk_snoc w c : separator c = true -> forall cur, chunk_toks cur (w ++ [c]) = chunk_toks cur w ++ separator_toks c.
Proof.
  intros Hc. induction w as [|x w IH]; intros cur; cbn [app chunk_toks]; [by rewrite Hc, app_nil_r|]. destruct (separator x); rewrite IH; [by rewrite <- !app_assoc|done].
Qed.

Lemma chunk_parted w ks : chunk_ok w = true -> chunk_toks [] w = ks -> lexes_parted w ks.
Proof. intros Hw <-. by apply (chunk_lexes w []). Qed.

Lemma chunk_tight w ks : chunk_ok w = true -> match list.last w with Some c => separator c | None => true end = true -> chunk_toks [] w = ks -> lexes_tight w ks.
Proof.
  intros Hw Hl <-. destruct (list.last w) as [c|] eqn:El; [|apply last_None in El as ->; apply lexes_nil]. apply last_Some in El as [w0 ->].
  unfold chunk_ok in Hw. rewrite forallb_app in Hw. apply andb_prop in Hw as [Hw0 _]. rewrite (chunk_snoc w0 c Hl). eapply lexes_app; [by apply (chunk_lexes w0 [])|by apply separator_lexes|]. done.
Qed.
End Lexing.

Abbreviation lexes_tight := (lexes anywhere).
Abbreviation lexes_parted := (lexes parted).

(** Fixed text, by computation. *)
Ltac fixed := first [apply chunk_tight; vm_compute; reflexivity|apply chunk_parted; vm_compute; reflexivity].

(** * The printed text of a printable tree

    By induction on its height: the text of every node is scanned to the
    tokens the node stands for. *)

Section Text.
Context `{Unicode} (h : nat).
Context (IHe : forall d L e, canon h d L e = true -> lexes_parted (print_expr e) (expr_toks e)).
Context (IHs : forall d wa q, csel h d wa q = true -> lexes_parted (print_select q) (select_toks q)).

(** [w] and the tokens [ks] of fixed text in front of the rest. *)
Tactic Notation "write" constr(w) constr(ks) := apply (tight_app _ w _ ks); [fixed|].
Ltac spaced := apply parted_app; [|exact eq_refl|].

Lemma expr_text d e : expr_ok (canon h) d e = true -> lexes_parted (print_expr e) (expr_toks e).
Proof. intros [_ Hc]%andb_prop. by eapply IHe. Qed.

Lemma ident_text w : ident_ok w = true -> lexes_parted w [TkIdentifier w].
Proof. intros Hw. eapply lexes_imp; [by apply ident_lexes|apply parted_word]. Qed.

Lemma not_text negated : lexes_tight (not_str negated) (not_toks negated).
Proof. destruct negated; [fixed|apply lexes_nil]. Qed.

(** A comma list. *)
Lemma commas_text {X} (pr : X -> str) (tk : X -> toks) xs : Forall (fun x => lexes_parted (pr x) (tk x)) xs -> lexes_parted (commas (map pr xs)) (comma_toks (map tk xs)).
Proof.
  induction 1 as [|x xs Hx Hxs IH]; [apply lexes_nil|]. destruct xs as [|y ys]; [exact Hx|].
  change (lexes_parted (pr x ++ lit ", " ++ commas (map pr (y :: ys))) (tk x ++ TkComma :: comma_toks (map tk (y :: ys)))). spaced; [done|]. by write (lit ", ") [TkComma].
Qed.

Lemma commas_ok {X} (pr : X -> str) (tk : X -> toks) (ok : X -> bool) xs : (forall x, ok x = true -> lexes_parted (pr x) (tk x)) -> forallb ok xs = true -> lexes_parted (commas (map pr xs)) (comma_toks (map tk xs)).
Proof. intros Hx Hok. apply commas_text, Forall_forall. intros x Hin. rewrite forallb_forall in Hok. auto. Qed.

Lemma names_text cols : forallb ident_ok cols = true -> lexes_parted (commas cols) (name_toks cols).
Proof. intros Hc. rewrite <- (map_id cols) at 1. eapply (commas_ok (fun x => x) (fun n => [TkIdentifier n]) ident_ok); [apply ident_text|done]. Qed.

(** A text in parentheses. *)
Lemma paren_text w ks w2 ks2 : lexes_parted w ks -> lexes_parted w2 ks2 -> soft w2 -> lexes_parted (w ++ lit ")" ++ w2) (ks ++ TkRParen :: ks2).
Proof. intros Hw Hw2 Hs. spaced; [done|]. by write (lit ")") [TkRParen]. Qed.

Lemma close_text w ks : lexes_parted w ks -> lexes_parted (w ++ lit ")") (ks ++ [TkRParen]).
Proof. intros Hw. spaced; [done|]. fixed. Qed.

(** ** Expressions *)

Lemma column_text table catalog name : opt_ok ident_ok table = true -> opt_ok ident_ok catalog = true -> ident_ok name = true -> lexes_parted (print_kind (EColumn table catalog name)) (kind_toks (EColumn table catalog name)).
Proof.
  intros Ht Hc Hn. cbn [print_kind kind_toks].
  assert (forall a w ks, ident_ok a = true -> lexes_parted w ks -> head_is is_ascii_digit w = false -> w <> [] -> lexes_parted ((a ++ lit ".") ++ w) ([TkIdentifier a; TkDot] ++ ks)) as Hdot.
  { intros a w ks Ha Hw Hd Hne. rewrite <- app_assoc. change ([TkIdentifier a; TkDot] ++ ks) with ([TkIdentifier a] ++ [TkDot] ++ ks). eapply lexes_app; [by apply ident_lexes| |done].
    eapply lexes_app; [exact dot_lexes|exact Hw|]. intros r _. by destruct w. }
  assert (forall a, ident_ok a = true -> head_is is_ascii_digit a = false /\ a <> []) as Hid.
  { intros a [Ha _]%ident_word. destruct a as [|c a]; [done|]. cbn in Ha |- *. apply andb_prop in Ha as [[Hs _]%andb_prop _]. by destruct (start_facts c Hs) as (_ & -> & _). }
  destruct (Hid name Hn) as [Hn1 Hn2]. pose proof (ident_text name Hn) as Hname.
  assert (lexes_parted (opt_str (fun t => t ++ lit ".") table ++ name) (match table with Some t => [TkIdentifier t; TkDot] | None => [] end ++ [TkIdentifier name])) as Hrest by (destruct table as [t|]; [by apply Hdot|done]).
  destruct catalog as [c|]; [|done]. apply Hdot; [done|done|..].
  - destruct table as [t|]; [|done]. destruct (Hid t Ht) as [Ht1 Ht2]. by destruct t.
  - destruct table as [t|]; [|done]. destruct (Hid t Ht) as [_ Ht2]. by destruct t.
Qed.

Lemma opt_text {X} (f : X -> str) (g : X -> toks) (ok : X -> bool) o : (forall x, ok x = true -> lexes_parted (f x) (g x)) -> opt_ok ok o = true ->
  lexes_parted (match o with Some x => f x | None => [] end) (match o with Some x => g x | None => [] end).
Proof. intros Hf Ho. destruct o; [by apply Hf|apply lexes_nil]. Qed.

Lemma opt_soft {X} (f : X -> str) o : (forall x, soft (f x)) -> soft (match o with Some x => f x | None => [] end).
Proof. intros Hf. by destruct o. Qed.

Lemma whens_text d whens : forallb (fun w => expr_ok (canon h) d w.1 && expr_ok (canon h) d w.2) whens = true ->
  lexes_parted (List.concat (map (fun w => match w with (cond, res) => lit " WHEN " ++ print_expr cond ++ lit " THEN " ++ print_expr res end) whens))
    (List.concat (map (fun w => match w with (c, r) => K KW_WHEN :: expr_toks c ++ K KW_THEN :: expr_toks r end) whens)).
Proof.
  intros Hw. induction whens as [|[c x] ws IH]; [apply lexes_nil|]. cbn [forallb fst snd] in Hw. apply andb_prop in Hw as [[Hc Hx]%andb_prop Hw]. cbn [map List.concat].
  apply parted_app; [|by destruct ws as [|[? ?] ?]|by apply IH]. write (lit " WHEN ") [K KW_WHEN]. spaced; [by eapply expr_text|]. write (lit " THEN ") [K KW_THEN]. by eapply expr_text.
Qed.

Lemma case_text d operand whens else_ : node_ok (canon h) (csel h) d (ECase operand whens else_) = true -> lexes_parted (print_kind (ECase operand whens else_)) (kind_toks (ECase operand whens else_)).
Proof.
  intros Hok. cbn [node_ok] in Hok. apply andb_prop in Hok as [[[Ho Hne]%andb_prop Hw]%andb_prop He]. cbn [print_kind kind_toks].
  apply (parted_app (lit "CASE") _ [K KW_CASE]); [fixed|destruct operand; [done|]; by destruct whens as [|[? ?] ?]|].
  apply parted_app; [apply (opt_text _ _ (expr_ok (canon h) d)); [intros e Hx; apply lexes_space; by eapply expr_text|done]|by destruct whens as [|[? ?] ?]|].
  apply parted_app; [by eapply whens_text|by destruct else_|].
  apply parted_app; [apply (opt_text _ _ (expr_ok (canon h) d)); [intros e Hx; write (lit " ELSE ") [K KW_ELSE]; by eapply expr_text|done]|done|fixed].
Qed.

Lemma words_text t : forallb ident_ok (words [] t) = true -> lexes_parted t (type_toks t).
Proof.
  unfold type_toks. assert (forall cur, forallb ident_ok (words cur t) = true -> lexes_parted (cur ++ t) (map TkIdentifier (words cur t))) as Hgen; [|apply (Hgen [])].
  induction t as [|c t IH]; intros cur; cbn [words].
  - rewrite app_nil_r. cbn. rewrite andb_true_r. apply ident_text.
  - destruct (Z.eqb_spec c 32) as [->|Hc].
    + intros [Hw Hws]%andb_prop. apply (parted_app cur (32 :: t) [TkIdentifier cur]); [by apply ident_text|done|]. apply lexes_space. by apply (IH []).
    + intros Hw. replace (cur ++ c :: t) with ((cur ++ [c]) ++ t) by by rewrite <- app_assoc. by apply IH.
Qed.

Lemma select_paren_text d wa q : csel h d wa q = true -> lexes_parted (print_select q ++ lit ")") (select_toks q ++ [TkRParen]).
Proof. intros Hq. apply close_text. by eapply IHs. Qed.

Lemma list_paren_text d xs : forallb (expr_ok (canon h) d) xs = true -> lexes_parted (commas (map print_expr xs) ++ lit ")") (comma_toks (map expr_toks xs) ++ [TkRParen]).
Proof. intros Hx. apply close_text. eapply commas_ok; [intros; by eapply expr_text|done]. Qed.

Lemma unary_text d op x : node_ok (canon h) (csel h) d (EUnary op x) = true -> lexes_parted (print_kind (EUnary op x)) (kind_toks (EUnary op x)).
Proof.
  intros Hok. cbn [print_kind kind_toks]. destruct op; cbn [node_ok unop_str unop_tok] in *; apply andb_prop in Hok as [Hx Hm].
  - write (lit "NOT ") [K KW_NOT]. by eapply IHe.
  - apply (tight_app _ (lit "+") _ [TkPlus]); [apply tight_one; set_solver|by eapply IHe].
  - apply andb_prop in Hm as [Hh%negb_true_iff _]. apply (lexes_app _ _ [45] _ [TkMinus]) with (1 := minus_lexes); [by eapply IHe|]. intros r Hr. destruct (print_expr x) as [|c w]; [|exact Hh].
    destruct r as [|c r]; [done|]. cbn in Hr |- *. by apply separator_inv in Hr as [-> |[-> |[-> | ->]]].
  - apply (tight_app _ (lit "~") _ [TkBitNot]); [apply tight_one; set_solver|by eapply IHe].
Qed.

Lemma binary_text d op x y : node_ok (canon h) (csel h) d (EBinary op x y) = true -> lexes_parted (print_kind (EBinary op x y)) (kind_toks (EBinary op x y)).
Proof.
  intros Hok. assert (lexes_parted (print_expr x) (expr_toks x) /\ lexes_parted (print_expr y) (expr_toks y)) as [Hx Hy].
  { destruct op; cbn [node_ok] in Hok; apply andb_prop in Hok as [Hx Hy]; split; by eapply IHe. }
  cbn [print_kind kind_toks]. spaced; [done|]. apply lexes_space. apply (parted_app (binop_str op) _ [binop_tok op]); [apply binop_lexes|done|]. by apply lexes_space.
Qed.

Lemma node_text d kind : node_ok (canon h) (csel h) d kind = true -> lexes_parted (print_kind kind) (kind_toks kind).
Proof.
  intros Hok. destruct kind; try (by eapply binary_text); try (by eapply unary_text); try (by eapply case_text); cbn [node_ok] in Hok.
  - apply andb_prop in Hok as [Hl _]. by apply literal_lexes.
  - by apply param_lexes.
  - apply andb_prop in Hok as [[[Ht Hc]%andb_prop Hn]%andb_prop _]. by apply column_text.
  - apply andb_prop in Hok as [Hn Ha]. cbn [print_kind kind_toks]. change (TkIdentifier name :: ?x) with ([TkIdentifier name] ++ x). spaced; [by apply ident_text|]. write (lit "(") [TkLParen].
    apply (tight_app _ (if distinct then lit "DISTINCT " else [])); [destruct distinct; [fixed|apply lexes_nil]|].
    destruct args as [|l]; [|by eapply list_paren_text]. apply close_text. apply tight_parted, tight_one. set_solver.
  - apply andb_prop in Hok as [Hx Hy]. cbn [print_kind kind_toks]. spaced; [by eapply IHe|]. write (lit " IS ") [K KW_IS]. apply tight_app; [apply not_text|by eapply IHe].
  - cbn [print_kind kind_toks]. spaced; [by eapply IHe|]. apply lexes_space. destruct negated; fixed.
  - apply andb_prop in Hok as [[Hx Hlo]%andb_prop Hhi]. cbn [print_kind kind_toks]. spaced; [by eapply IHe|]. apply lexes_space. apply tight_app; [apply not_text|]. write (lit "BETWEEN ") [K KW_BETWEEN].
    spaced; [by eapply IHe|]. write (lit " AND ") [K KW_AND]. by eapply IHe.
  - apply andb_prop in Hok as [Hx Hl]. cbn [print_kind kind_toks]. spaced; [by eapply IHe|]. apply lexes_space. apply tight_app; [apply not_text|]. write (lit "IN (") [K KW_IN; TkLParen]. by eapply list_paren_text.
  - apply andb_prop in Hok as [[Hx Hp]%andb_prop He]. cbn [print_kind kind_toks]. spaced; [by eapply IHe|]. apply lexes_space. apply tight_app; [apply not_text|].
    apply (parted_app (if glob then lit "GLOB" else lit "LIKE") _ [K (if glob then KW_GLOB else KW_LIKE)]); [destruct glob; fixed|done|]. apply lexes_space.
    apply parted_app; [by eapply IHe|by destruct escape|]. apply (opt_text _ _ (canon h d 4)); [|done]. intros e Hc. write (lit " ESCAPE ") [K KW_ESCAPE]. by eapply IHe.
  - apply andb_prop in Hok as [Hx Ht]. cbn [print_kind kind_toks]. write (lit "CAST(") [K KW_CAST; TkLParen]. spaced; [by eapply expr_text|]. write (lit " AS ") [K KW_AS]. apply close_text. by apply words_text.
  - apply andb_prop in Hok as [Hx Hc]. cbn [print_kind kind_toks]. spaced; [by eapply IHe|]. write (lit " COLLATE ") [K KW_COLLATE]. by apply ident_text.
  - cbn [print_kind kind_toks]. write (lit "(") [TkLParen]. apply close_text. by eapply expr_text.
  - cbn [print_kind kind_toks]. write (lit "(") [TkLParen]. by eapply select_paren_text.
  - cbn [print_kind kind_toks]. apply tight_app; [apply not_text|]. write (lit "EXISTS (") [K KW_EXISTS; TkLParen]. by eapply select_paren_text.
  - apply andb_prop in Hok as [Hx Hq]. cbn [print_kind kind_toks]. spaced; [by eapply IHe|]. apply lexes_space. apply tight_app; [apply not_text|]. write (lit "IN (") [K KW_IN; TkLParen]. by eapply select_paren_text.
  - apply andb_prop in Hok as [[[_ Hx]%andb_prop Hq]%andb_prop _]. cbn [print_kind kind_toks]. write (lit "(") [TkLParen].
    apply parted_app; [eapply commas_ok; [intros; by eapply expr_text|done]|done|]. write (lit ") ") [TkRParen]. apply tight_app; [apply not_text|]. write (lit "IN (") [K KW_IN; TkLParen]. by eapply select_paren_text.
Qed.

(** ** Queries *)

Lemma alias_text alias : opt_ok ident_ok alias = true -> lexes_parted (match alias with Some a => lit " AS " ++ a | None => [] end) (alias_toks alias) /\ soft (match alias with Some a => lit " AS " ++ a | None => [] end).
Proof. intros Ha. destruct alias as [a|]; [|split; [apply lexes_nil|done]]. split; [|done]. change (alias_toks (Some a)) with ([K KW_AS] ++ [TkIdentifier a]). write (lit " AS ") [K KW_AS]. by apply ident_text. Qed.

Lemma result_column_text d c : column_ok (canon h) d c = true -> lexes_parted (print_column c) (column_toks c).
Proof.
  intros Hc. destruct c as [|t|e alias]; cbn [print_column column_toks].
  - apply tight_parted, tight_one. set_solver.
  - change (t ++ lit ".*") with (t ++ [46] ++ [42]). change [TkIdentifier t; TkDot; TkStar] with ([TkIdentifier t] ++ [TkDot] ++ [TkStar]). eapply lexes_app; [by apply ident_lexes| |done].
    eapply lexes_app; [exact dot_lexes|apply tight_parted, tight_one; set_solver|done].
  - apply andb_prop in Hc as [He Ha]. destruct (alias_text alias Ha) as [Hal Hs]. apply parted_app; [by eapply expr_text|done|done].
Qed.

Lemma table_text d t : table_ok (csel h) d t = true -> lexes_parted (print_table_ref t) (table_toks t).
Proof.
  intros Ht. destruct t as [[name|q] alias sp]; cbn [table_ok] in Ht; apply andb_prop in Ht as [Ha Ht]; destruct (alias_text alias Ha) as [Hal Hs]; cbn [print_table_ref print_table_kind table_toks table_kind_toks]; apply parted_app; try done.
  - by apply ident_text.
  - apply andb_prop in Ht as [Hq _]. write (lit "(") [TkLParen]. by eapply select_paren_text.
Qed.

Lemma constraint_text d c : match c with JcOn e => expr_ok (canon h) d e | JcUsing cols => forallb ident_ok cols end = true -> lexes_parted (print_constraint c) (constraint_toks c) /\ soft (print_constraint c).
Proof.
  intros Hc. destruct c as [e|cols]; cbn [print_constraint constraint_toks]; (split; [|done]).
  - write (lit " ON ") [K KW_ON]. by eapply expr_text.
  - write (lit " USING (") [K KW_USING; TkLParen]. apply close_text. by apply names_text.
Qed.

Lemma join_text d j : join_ok (canon h) (csel h) d j = true -> lexes_parted (print_join j) (one_join_toks j).
Proof.
  intros Hj. destruct j as [op table constraint natural]. cbn [join_ok] in Hj. apply andb_prop in Hj as [Ht Hj]. cbn [print_join one_join_toks].
  apply tight_app; [destruct natural; [fixed|apply lexes_nil]|]. apply parted_app; [destruct op; fixed|done|]. apply lexes_space.
  assert (opt_ok (fun c => match c with JcOn e => expr_ok (canon h) d e | JcUsing cols => forallb ident_ok cols end) constraint = true) as Hc.
  { destruct constraint as [[e|cols]|]; [..|done]; destruct op, natural; try done; cbn [opt_ok]; first [exact Hj|by apply andb_prop in Hj as [_ Hj]]. }
  apply parted_app; [by eapply table_text|destruct constraint as [c|]; [by eapply constraint_text|done]|]. eapply opt_text; [|exact Hc]. intros c Hx. exact (proj1 (constraint_text d c Hx)).
Qed.

(** Items one after the other, a space before each. *)
Lemma concat_text {X} (pr : X -> str) (tk : X -> toks) (ok : X -> bool) xs : (forall x, ok x = true -> lexes_parted (pr x) (tk x)) -> forallb ok xs = true ->
  lexes_parted (List.concat (map (fun x => lit " " ++ pr x) xs)) (List.concat (map tk xs)) /\ soft (List.concat (map (fun x => lit " " ++ pr x) xs)).
Proof.
  intros Hx Hok. induction xs as [|x xs IH]; [split; [apply lexes_nil|done]|]. cbn in Hok. apply andb_prop in Hok as [Hox Hok]. destruct (IH Hok) as [H1 H2]. split; [|done].
  cbn [map List.concat]. apply parted_app; [|done|done]. apply lexes_space. auto.
Qed.

Lemma from_text d f : from_ok (canon h) (csel h) d f = true -> lexes_parted (print_from f) (from_toks f).
Proof.
  intros Hf. destruct f as [first joins]. cbn [from_ok] in Hf. apply andb_prop in Hf as [Ht Hj]. cbn [print_from from_toks].
  destruct (concat_text print_join one_join_toks (join_ok (canon h) (csel h) d) joins (join_text d) Hj) as [H1 H2]. apply parted_app; [by eapply table_text|done|done].
Qed.

Lemma from_part_text d from : opt_ok (from_ok (canon h) (csel h) d) from = true -> lexes_parted (match from with Some f => lit " FROM " ++ print_from f | None => [] end) (match from with Some f => K KW_FROM :: from_toks f | None => [] end).
Proof. intros Hf. apply (opt_text _ _ (from_ok (canon h) (csel h) d)); [|done]. intros f Hx. write (lit " FROM ") [K KW_FROM]. by eapply from_text. Qed.

Lemma where_text d o : opt_ok (expr_ok (canon h) d) o = true -> lexes_parted (match o with Some e => lit " WHERE " ++ print_expr e | None => [] end) (match o with Some e => K KW_WHERE :: expr_toks e | None => [] end).
Proof. intros Ho. apply (opt_text _ _ (expr_ok (canon h) d)); [|done]. intros e Hx. write (lit " WHERE ") [K KW_WHERE]. by eapply expr_text. Qed.

Lemma having_text d o : opt_ok (expr_ok (canon h) d) o = true -> lexes_parted (match o with Some e => lit " HAVING " ++ print_expr e | None => [] end) (match o with Some e => K KW_HAVING :: expr_toks e | None => [] end).
Proof. intros Ho. apply (opt_text _ _ (expr_ok (canon h) d)); [|done]. intros e Hx. write (lit " HAVING ") [K KW_HAVING]. by eapply expr_text. Qed.

Lemma group_text d l : forallb (expr_ok (canon h) d) l = true ->
  lexes_parted (match l with [] => [] | _ => lit " GROUP BY " ++ commas (map print_expr l) end) (match l with [] => [] | _ => K KW_GROUP :: K KW_BY :: comma_toks (map expr_toks l) end).
Proof. intros Hl. destruct l as [|e es]; [apply lexes_nil|]. write (lit " GROUP BY ") [K KW_GROUP; K KW_BY]. eapply commas_ok; [intros; by eapply expr_text|done]. Qed.

Lemma distinct_text dd : lexes_parted (distinct_str dd) (distinct_toks dd) /\ soft (distinct_str dd).
Proof. destruct dd as [[|]|]; (split; [first [fixed|apply lexes_nil]|done]). Qed.

(** What SELECT and the arms of a compound share. *)
Definition core_str (dd : option Distinctness) (columns : list ResultColumn) (from : option FromClause) (where_clause : option Expr) (group_by : list Expr) (having : option Expr) (rest : str) : str :=
  distinct_str dd ++ match columns with [] => [] | _ => lit " " ++ commas (map print_column columns) end ++ match from with Some f => lit " FROM " ++ print_from f | None => [] end ++
  match where_clause with Some e => lit " WHERE " ++ print_expr e | None => [] end ++ match group_by with [] => [] | _ => lit " GROUP BY " ++ commas (map print_expr group_by) end ++
  match having with Some e => lit " HAVING " ++ print_expr e | None => [] end ++ rest.
Definition core_toks (dd : option Distinctness) (columns : list ResultColumn) (from : option FromClause) (where_clause : option Expr) (group_by : list Expr) (having : option Expr) (rest : toks) : toks :=
  distinct_toks dd ++ comma_toks (map column_toks columns) ++ match from with Some f => K KW_FROM :: from_toks f | None => [] end ++ match where_clause with Some e => K KW_WHERE :: expr_toks e | None => [] end ++
  match group_by with [] => [] | _ => K KW_GROUP :: K KW_BY :: comma_toks (map expr_toks group_by) end ++ match having with Some e => K KW_HAVING :: expr_toks e | None => [] end ++ rest.

Lemma core_text d dd columns from where_clause group_by having rest ks : core_ok (canon h) (csel h) d columns from where_clause group_by having = true -> soft rest -> lexes_parted rest ks ->
  lexes_parted (core_str dd columns from where_clause group_by having rest) (core_toks dd columns from where_clause group_by having ks) /\ soft (core_str dd columns from where_clause group_by having rest).
Proof.
  intros Hok Hs Hrest. unfold core_ok in Hok. repeat apply andb_prop in Hok as [Hok ?]. destruct (distinct_text dd) as [Hd Hds].
  assert (soft (match having with Some e => lit " HAVING " ++ print_expr e | None => [] end ++ rest)) as S1 by (apply soft_app; [by destruct having|done]).
  assert (soft (match group_by with [] => [] | _ => lit " GROUP BY " ++ commas (map print_expr group_by) end ++ match having with Some e => lit " HAVING " ++ print_expr e | None => [] end ++ rest)) as S2 by (apply soft_app; [by destruct group_by|done]).
  split; [|by destruct dd as [[|]|], columns]. unfold core_str, core_toks. apply parted_app; [done|by destruct columns|].
  apply parted_app; [destruct columns as [|c cs]; [done|]; apply lexes_space; eapply commas_ok; [apply result_column_text|done]|apply soft_app; [by destruct from|apply soft_app; [by destruct where_clause|done]]|].
  apply parted_app; [by eapply from_part_text|apply soft_app; [by destruct where_clause|done]|]. apply parted_app; [by eapply where_text|done|]. apply parted_app; [by eapply group_text|done|]. apply parted_app; [by eapply having_text|done|done].
Qed.

Lemma compound_text d c : compound_ok (canon h) (csel h) d c = true -> lexes_parted (print_compound c) (compound_toks c).
Proof.
  intros Hc. destruct c as [op dd columns from where_clause group_by having sp]. cbn [compound_ok] in Hc. apply andb_prop in Hc as [Hc _].
  destruct (core_text d dd columns from where_clause group_by having [] [] Hc I (lexes_nil _)) as [H1 H2]. unfold core_str, core_toks in *. rewrite !app_nil_r in *. cbn [print_compound compound_toks].
  destruct op; [apply (parted_app (lit "UNION ALL SELECT") _ [K KW_UNION; K KW_ALL; K KW_SELECT])|apply (parted_app (lit "UNION SELECT") _ [K KW_UNION; K KW_SELECT])]; [fixed|exact H2|exact H1|fixed|exact H2|exact H1].
Qed.

Lemma ordering_text d t : ordering_ok (canon h) d t = true -> lexes_parted (print_ordering t) (ordering_toks t).
Proof.
  intros Ht. destruct t as [e desc nulls]. cbn [print_ordering ordering_toks ordering_ok] in *. apply parted_app; [by eapply expr_text|by destruct desc as [[|]|], nulls as [[|]|]|].
  apply parted_app; [destruct desc as [[|]|]; first [fixed|apply lexes_nil]|by destruct nulls as [[|]|]|destruct nulls as [[|]|]; first [fixed|apply lexes_nil]].
Qed.

Lemma limit_text d l : limit_ok (canon h) d l = true -> lexes_parted (print_limit l) (limit_toks l).
Proof.
  intros Hl. destruct l as [e o]. cbn [limit_ok print_limit limit_toks] in *. apply andb_prop in Hl as [He Ho]. write (lit " LIMIT ") [K KW_LIMIT]. apply parted_app; [by eapply expr_text|by destruct o|].
  apply (opt_text _ _ (expr_ok (canon h) d)); [|done]. intros x Hx. write (lit " OFFSET ") [K KW_OFFSET]. by eapply expr_text.
Qed.

Lemma cte_text d c : cte_ok (csel h) d c = true -> lexes_parted (print_cte c) (cte_toks c).
Proof.
  intros Hc. destruct c as [name columns query sp]. cbn [cte_ok print_cte cte_toks] in *. apply andb_prop in Hc as [[Hn Hcols]%andb_prop Hq].
  apply (parted_app name _ [TkIdentifier name]); [by apply ident_text|by destruct columns|].
  assert (lexes_parted (lit " AS (" ++ print_select query ++ lit ")") (K KW_AS :: TkLParen :: select_toks query ++ [TkRParen])) as Hbody by (write (lit " AS (") [K KW_AS; TkLParen]; by eapply select_paren_text).
  apply parted_app; [|done|done]. apply (opt_text _ _ (fun cols => nonempty cols && forallb ident_ok cols)); [|done]. intros cols [_ Hx]%andb_prop. write (lit " (") [TkLParen]. apply close_text. by apply names_text.
Qed.

Lemma select_text d wa q : csel (S h) d wa q = true -> lexes_parted (print_select q) (select_toks q).
Proof.
  intros Hq. destruct q as [w dd columns from where_clause group_by having compound order_by limit sp]. cbn [csel sel_ok] in Hq.
  apply andb_prop in Hq as [[[[Hw Hcore]%andb_prop Hcomp]%andb_prop Hord]%andb_prop Hlim].
  set (tail_str := List.concat (map (fun arm => lit " " ++ print_compound arm) compound) ++ match order_by with [] => [] | _ => lit " ORDER BY " ++ commas (map print_ordering order_by) end ++ match limit with Some l => print_limit l | None => [] end).
  set (tail_toks := List.concat (map compound_toks compound) ++ match order_by with [] => [] | _ => K KW_ORDER :: K KW_BY :: comma_toks (map ordering_toks order_by) end ++ match limit with Some l => limit_toks l | None => [] end).
  assert (soft (match limit with Some l => print_limit l | None => [] end)) as S1 by (destruct limit as [[e o]|]; done).
  assert (soft (match order_by with [] => [] | _ => lit " ORDER BY " ++ commas (map print_ordering order_by) end ++ match limit with Some l => print_limit l | None => [] end)) as S2 by (apply soft_app; [by destruct order_by|done]).
  destruct (concat_text print_compound compound_toks (compound_ok (canon h) (csel h) d) compound (compound_text d) Hcomp) as [Hc1 Hc2].
  assert (lexes_parted tail_str tail_toks) as Htail.
  { apply parted_app; [done|done|]. apply parted_app; [destruct order_by as [|t ts]; [apply lexes_nil|]; write (lit " ORDER BY ") [K KW_ORDER; K KW_BY]; eapply commas_ok; [apply ordering_text|done]|done|].
    apply (opt_text _ _ (limit_ok (canon h) d)); [apply limit_text|done]. }
  assert (soft tail_str) as Hts by (by apply soft_app). destruct (core_text d dd columns from where_clause group_by having tail_str tail_toks Hcore Hts Htail) as [H1 H2].
  cbn [print_select select_toks]. change (lexes_parted (match w with Some w => print_with w ++ lit " " | None => [] end ++ lit "SELECT" ++ core_str dd columns from where_clause group_by having tail_str)
    (match w with Some w => with_toks w | None => [] end ++ [K KW_SELECT] ++ core_toks dd columns from where_clause group_by having tail_toks)).
  assert (lexes_parted (lit "SELECT" ++ core_str dd columns from where_clause group_by having tail_str) ([K KW_SELECT] ++ core_toks dd columns from where_clause group_by having tail_toks)) as Hsel by (apply parted_app; [fixed|done|done]).
  destruct w as [[ctes wsp]|]; [|exact Hsel]. cbn [opt_ok with_ok] in Hw. apply andb_prop in Hw as [_ [_ Hctes]%andb_prop]. cbn [print_with with_toks].
  rewrite <- !app_assoc. write (lit "WITH ") [K KW_WITH]. apply parted_app; [eapply commas_ok; [apply cte_text|done]|done|]. by apply lexes_space.
Qed.
End Text.

Section Printed.
Context `{Unicode}.

Lemma text_both h : (forall d L e, canon h d L e = true -> lexes_parted (print_expr e) (expr_toks e)) /\ (forall d wa q, csel h d wa q = true -> lexes_parted (print_select q) (select_toks q)).
Proof.
  induction h as [|h [IHe IHs]]; [done|]. split.
  - intros d L [kind sp] (_ & _ & _ & Hn)%canon_inv. by eapply (node_text h IHe IHs).
  - intros d wa q Hq. by eapply (select_text h IHe IHs).
Qed.

(** The text of a printable query is scanned to its tokens. *)
Lemma printed_tokens s : printable s -> map tok_kind (tokenize (print_select s)) = select_toks s ++ [TkEof].
Proof.
  intros [h Hs]. destruct (text_both h) as [_ Htext]. destruct (Htext _ _ _ Hs (new_tokenizer (print_select s)) []) as (t' & Et & Hl); [cbn; by rewrite app_nil_r|done|].
  apply (Hl [TkEof]); [|cbn; lia]. intros fuel Hf. destruct fuel as [|fuel]; [lia|]. cbn [tokenize_loop]. by rewrite (trivia_nil_inv t' Et).
Qed.
End Printed.
