(* ===== verification/PrintProperties.v ===== *)
(** * Printing and parsing

    A printable query, printed and parsed again, is the same query up to the
    spans; and queries whose printed text is another query or none. *)

From stdpp Require Import prelude list numbers.
From Stdlib Require Import ZArith Lia.
From S2P Require Import Prelude Varint Text Record Float ValueOrder Format Coerce Functions FunctionProperties Tokenizer TokenizerProperties Ast Grammar Statements Printer PrintTokens PrintParse PrintExpr PrintSelect PrintLex.

Local Open Scope Z_scope.

Section Parsing.
Context `{Unicode}.

Lemma goes_end s : kinds s = [TkEof] -> goes expect_end s [TkEof] any.
Proof.
  intros Hs. unfold expect_end. eapply (goes_bind _ _ _ [TkEof] _ any).
  - change (goes (skip_semicolons (S (remaining s))) s [TkEof] any). cbn [skip_semicolons].
    eapply goes_bind; [leaf|]. intros b s1 Hk1 _ ->. by apply goes_mret.
  - intros [] s1 Hk1 _ _. eapply goes_by_kind; [exact Hk1|]. by apply goes_mret.
Qed.

(** A token list that is a query and the end of the input. *)
Lemma run_select toks q h : csel h MAX_EXPR_DEPTH true q = true -> map tok_kind toks = select_toks q ++ [TkEof] ->
  exists q', run_parser parse_select_stmt toks = Some (Accepted q') /\ strip_select q' = strip_select q.
Proof.
  intros Hq Ht. assert (goes (a ← parse_select_stmt (grammar (S (length toks))); _ ← expect_end; mret a) (new_parser toks) [TkEof] (same_select q)) as (q' & s' & E & _ & _ & Hs).
  - eapply goes_bind; [eapply (proj2 (read_both h)); [exact Hq|exact Ht|done|change (length (map tok_kind toks) <= S (length toks))%nat; rewrite length_map; lia|done]|]. intros q' s1 Hk1 _ Hq'.
    eapply goes_bind; [by apply goes_end|]. intros u s2 Hk2 _ _. by apply goes_mret.
  - exists q'. unfold run_parser. by rewrite E.
Qed.
End Parsing.

(** ** Inputs the theorems are applied to *)

Section Inputs.
#[local] Instance ascii_only : Unicode := {| unicode_alphabetic := fun _ => false; unicode_numeric := fun _ => false |}.

(** A query with every kind of clause, by its text. *)
Definition sample_text : str :=
  lit "WITH c(x, y) AS (SELECT a, b FROM t) SELECT DISTINCT u.*, count(*) AS n, CASE WHEN x = 1 THEN 'it' ELSE -y * (2 + z) END FROM u LEFT JOIN c ON u.k = c.x WHERE NOT EXISTS (SELECT 1 FROM v) AND (a, b) IN (SELECT 1, 2) OR d NOT BETWEEN 1.5 AND ?3 GROUP BY n HAVING sum(DISTINCT w) > X'00FF' UNION ALL SELECT * FROM w ORDER BY 1 DESC NULLS LAST LIMIT 5 OFFSET :k".
Definition empty_select : Select := MkSelect None None [] None None [] None [] [] None NO_SPAN.
Definition sample_query : Select := match parse_select sample_text with Some (Accepted s) => s | _ => empty_select end.

(** The text of a query after parsing and printing it, and the columns and the
    tables of a query. *)
Definition reprint (src : str) : option str := match parse_select src with Some (Accepted s) => Some (print_select s) | _ => None end.
Definition columns_of (src : str) : option (list ResultColumn) :=
  match parse_select src with Some (Accepted s) => Some (map strip_column (match s with MkSelect _ _ columns _ _ _ _ _ _ _ _ => columns end)) | _ => None end.
Definition column (kind : ExprKind) : ResultColumn := RcExpr (MkExpr kind NO_SPAN) None.
End Inputs.

(** ** Claims *)

Section Claims.
Context `{Unicode}.

(** C6. A printable query, printed and parsed again, is accepted and gives the same tree up to the spans of its nodes. *)
Theorem printed_query_parses_back s : printable s -> exists s', parse_select (print_select s) = Some (Accepted s') /\ strip_select s' = strip_select s.
Proof. intros Hs. pose proof (printed_tokens s Hs) as Ht. destruct Hs as [h Hs]. by eapply run_select. Qed.
End Claims.

Section Examples.
#[local] Existing Instance ascii_only.

(** The printer writes other queries: a whole double as an integer, a negation of a negation as a comment, a quoted name bare, the integer of a hexadecimal literal as a negation, an infinite literal as a name, and the condition of a comma join behind [CROSS JOIN]. *)
Theorem printer_changes_queries :
  columns_of (lit "SELECT 1.0") = Some [column (ELiteral (LFloat 4607182418800017408))] /\ reprint (lit "SELECT 1.0") = Some (lit "SELECT 1") /\ columns_of (lit "SELECT 1") = Some [column (ELiteral (LInteger 1))] /\
  reprint (lit "SELECT - -1") = Some (lit "SELECT --1") /\ accepts (parse_select (lit "SELECT --1")) = false /\
  reprint (lit "SELECT [a b]") = Some (lit "SELECT a b") /\ columns_of (lit "SELECT a b") = Some [RcExpr (MkExpr (EColumn None None (lit "a")) NO_SPAN) (Some (lit "b"))] /\
  reprint (lit "SELECT [from]") = Some (lit "SELECT from") /\ accepts (parse_select (lit "SELECT from")) = false /\
  columns_of (lit "SELECT 0xFFFFFFFFFFFFFFFF") = Some [column (ELiteral (LInteger (-1)))] /\ reprint (lit "SELECT 0xFFFFFFFFFFFFFFFF") = Some (lit "SELECT -1") /\
  columns_of (lit "SELECT -1") = Some [column (EUnary UMinus (MkExpr (ELiteral (LInteger 1)) NO_SPAN))] /\
  reprint (lit "SELECT 1e400") = Some (lit "SELECT inf") /\ columns_of (lit "SELECT inf") = Some [column (EColumn None None (lit "inf"))] /\
  reprint (lit "SELECT * FROM a, b ON c") = Some (lit "SELECT * FROM a CROSS JOIN b ON c") /\ refuses (parse_select (lit "SELECT * FROM a CROSS JOIN b ON c")) = true.
Proof. by vm_compute. Qed.

Lemma printed_query_parses_back_witness : printable sample_query /\ exists s', parse_select (print_select sample_query) = Some (Accepted s') /\ strip_select s' = strip_select sample_query.
Proof.
  assert (printable sample_query) as Hp by (exists 20%nat; by vm_compute). split; [exact Hp|]. exact (printed_query_parses_back sample_query Hp).
Defined.
End Examples.
