(* ===== verification/Header.v ===== *)
(** * The database header ([src/header.rs])

    Parsing of bytes 0-99 of the main file, the derived quantities, and the
    page 1 of a brand-new database. *)

From stdpp Require Import prelude list numbers.
From Stdlib Require Import ZArith Lia.
From S2P Require Import Prelude Varint Text Record.

Local Open Scope Z_scope.

Definition HEADER_LEN : Z := 100.

(** [b"SQLite format 3\0"]. *)
Definition MAGIC : list Z :=
  [83; 81; 76; 105; 116; 101; 32; 102; 111; 114; 109; 97; 116; 32; 51; 0].

Inductive VersionField : Type := VWrite | VRead.

Inductive HeaderError : Type :=
| TooShort (n : Z)
| InvalidMagic
| InvalidPageSize (raw : Z)
| InvalidFileFormatVersion (field : VersionField) (value : Z)
| InvalidReservedSpace (reserved_space page_size : Z)
| InvalidTextEncoding (raw : Z).

Inductive JournalMode : Type := Legacy | Wal.
Inductive SynchronousMode : Type := SyncOff | SyncNormal | SyncFull.

#[global] Instance JournalMode_eq_dec : EqDecision JournalMode.
Proof. solve_decision. Defined.
#[global] Instance SynchronousMode_eq_dec : EqDecision SynchronousMode.
Proof. solve_decision. Defined.

Record DatabaseHeader : Type := MkHeader {
  page_size : Z;
  write_version : Z;
  read_version : Z;
  reserved_space : Z;
  page_count : Z;
  freelist_trunk_page : Z;
  freelist_page_count : Z;
  schema_cookie : Z;
  schema_format : Z;
  largest_root_btree_page : Z;
  text_encoding : TextEncoding;
  user_version : Z;
  application_id : Z;
}.

Definition read_u8 (buf : list Z) (offset : Z) : result HeaderError Z :=
  ok_or (get_at buf offset) (TooShort (len buf)).

Definition read_u32 (buf : list Z) (offset : Z) : result HeaderError Z :=
  e ← ok_or (checked_add offset 4) (TooShort (len buf));
  b ← ok_or (get_range buf offset e) (TooShort (len buf));
  Ok (be_decode b).

(** [put]: writes in range, silently does nothing otherwise. *)
Definition put (buf : list Z) (offset : Z) (bytes : list Z) : list Z :=
  default buf (set_range buf offset bytes).

(** [u32::is_power_of_two]. *)
Definition is_power_of_two (n : Z) : bool := (0 <? n) && (Z.land n (n - 1) =? 0).

Definition parse (buf : list Z) : result HeaderError DatabaseHeader :=
  if len buf <? HEADER_LEN then Err (TooShort (len buf)) else
  if negb (bool_decide (get_range buf 0 16 = Some MAGIC)) then Err InvalidMagic else
  b16 ← read_u8 buf 16;
  b17 ← read_u8 buf 17;
  let raw_page_size := be_decode [b16; b17] in
  let page_size := if raw_page_size =? 1 then 65536 else raw_page_size in
  if (page_size <? 512) || negb (is_power_of_two page_size)
  then Err (InvalidPageSize raw_page_size) else
  write_version ← read_u8 buf 18;
  if negb ((write_version =? 1) || (write_version =? 2))
  then Err (InvalidFileFormatVersion VWrite write_version) else
  read_version ← read_u8 buf 19;
  if negb ((read_version =? 1) || (read_version =? 2))
  then Err (InvalidFileFormatVersion VRead read_version) else
  reserved_space ← read_u8 buf 20;
  if page_size <=? reserved_space
  then Err (InvalidReservedSpace reserved_space page_size) else
  page_count ← read_u32 buf 28;
  freelist_trunk_page ← read_u32 buf 32;
  freelist_page_count ← read_u32 buf 36;
  schema_cookie ← read_u32 buf 40;
  schema_format ← read_u32 buf 44;
  largest_root_btree_page ← read_u32 buf 52;
  text_encoding_raw ← read_u32 buf 56;
  text_encoding ←
    (if text_encoding_raw =? 1 then Ok Utf8
     else if text_encoding_raw =? 2 then Ok Utf16Le
     else if text_encoding_raw =? 3 then Ok Utf16Be
     else Err (InvalidTextEncoding text_encoding_raw));
  user_version ← read_u32 buf 60;
  application_id ← read_u32 buf 68;
  Ok (MkHeader page_size write_version read_version reserved_space page_count
        freelist_trunk_page freelist_page_count schema_cookie schema_format
        largest_root_btree_page text_encoding user_version application_id).

Definition journal_mode (h : DatabaseHeader) : JournalMode :=
  if (write_version h =? 2) && (read_version h =? 2) then Wal else Legacy.

(** [self.page_size - self.reserved_space as u32], unchecked [u32]
    subtraction. *)
Definition usable_page_size (h : DatabaseHeader) : Z :=
  wrap 32 (page_size h - reserved_space h).

Definition new_empty_page1 (page_size : Z) : list Z :=
  let page1 := zeros page_size in
  let page1 := put page1 0 MAGIC in
  let raw_page_size := if page_size =? 65536 then 1 else page_size mod 65536 in
  let page1 := put page1 16 (be_encode 2 raw_page_size) in
  let page1 := put page1 18 [1] in
  let page1 := put page1 19 [1] in
  let page1 := put page1 21 [64] in
  let page1 := put page1 22 [32] in
  let page1 := put page1 23 [32] in
  let page1 := put page1 28 (be_encode 4 1) in
  let page1 := put page1 44 (be_encode 4 4) in
  let page1 := put page1 56 (be_encode 4 1) in
  let page1 := put page1 HEADER_LEN [13] in
  let content_start := if page_size =? 65536 then 0 else page_size mod 65536 in
  put page1 (HEADER_LEN + 5) (be_encode 2 content_start).

(** The page sizes the format allows. *)
Definition valid_page_size (ps : Z) : Prop :=
  512 <= ps <= 65536 /\ is_power_of_two ps = true.

Lemma valid_page_size_cases ps :
  valid_page_size ps ->
  ps ∈ [512; 1024; 2048; 4096; 8192; 16384; 32768; 65536].
Proof.
  unfold valid_page_size, is_power_of_two.
  intros [Hr [_ Hl%Z.eqb_eq]%andb_true_iff].
  assert (ps = 2 ^ Z.log2 ps) as Hp.
  { pose proof (Z.log2_spec ps ltac:(lia)) as [Hlo Hhi].
    destruct (Z.eq_dec ps (2 ^ Z.log2 ps)) as [|Hne]; [done|exfalso].
    assert (Z.testbit (Z.land ps (ps - 1)) (Z.log2 ps) = true) as Ht; [|by rewrite Hl, Z.bits_0 in Ht].
    rewrite Z.land_spec, Z.bit_log2 by lia. simpl.
    replace (Z.log2 ps) with (Z.log2 (ps - 1)); [apply Z.bit_log2; lia|].
    apply Z.log2_unique; [apply Z.log2_nonneg|]. lia. }
  assert (9 <= Z.log2 ps <= 16) as Hlog.
  { split; [apply (Z.log2_le_mono 512); lia|apply (Z.log2_le_mono ps 65536); lia]. }
  rewrite Hp. generalize dependent (Z.log2 ps). intros k _ Hk.
  assert (k = 9 \/ k = 10 \/ k = 11 \/ k = 12 \/ k = 13 \/ k = 14 \/ k = 15 \/ k = 16)
    as Hc by lia.
  destruct_or! Hc; subst k; simpl; rewrite !elem_of_cons; tauto.
Qed.

Lemma read_u8_ok buf o v : bytes_ok buf -> read_u8 buf o = Ok v -> is_u8 v.
Proof.
  unfold read_u8, get_at. intros Hok. destruct (_ && _); [|done].
  destruct (buf !! Z.to_nat o) eqn:E; [|done]. intros [= <-]. by eapply Forall_lookup_1.
Qed.

Lemma read_u32_ok buf o v : bytes_ok buf -> read_u32 buf o = Ok v -> is_u32 v.
Proof.
  unfold read_u32. intros Hok (e & He & (b & Hb & [= <-])%bind_ok)%bind_ok.
  unfold checked_add in He. destruct (_ <=? _); [|done]. cbn in He. simplify_eq.
  destruct (get_range buf o (o + 4)) as [b'|] eqn:E; [|done]. cbn in Hb. simplify_eq.
  pose proof (bytes_ok_get_range _ _ _ _ Hok E) as Hbk.
  apply get_range_inv in E as (_ & _ & Hl & _).
  pose proof (be_decode_bound b Hbk) as H. rewrite Hl in H.
  replace (o + 4 - o) with 4 in H by lia. sat. simpl in H. lia.
Qed.

(** ** Properties *)

(** Every header the parser accepts is usable: the page size is a power
    of two from 512 to 65536, both version bytes are 1 or 2, the unchecked
    subtraction of [usable_page_size] does not underflow and leaves at least
    257 usable bytes, and the 32-bit fields are in range. *)
Theorem parse_accepts_usable buf h :
  bytes_ok buf -> parse buf = Ok h ->
  valid_page_size (page_size h) /\
  usable_page_size h = page_size h - reserved_space h /\
  257 <= usable_page_size h <= page_size h /\
  (write_version h = 1 \/ write_version h = 2) /\
  (read_version h = 1 \/ read_version h = 2) /\
  is_u32 (page_count h) /\ is_u32 (freelist_trunk_page h) /\ is_u32 (freelist_page_count h) /\
  is_u32 (schema_cookie h).
Proof.
  intros Hok. unfold parse.
  destruct (len buf <? HEADER_LEN); [done|]. case_bool_decide; [|done]. cbn [negb].
  intros (b16 & H16 & (b17 & H17 & Hp)%bind_ok)%bind_ok. cbv zeta in Hp.
  pose proof (read_u8_ok _ _ _ Hok H16). pose proof (read_u8_ok _ _ _ Hok H17).
  assert (0 <= be_decode [b16; b17] < 65536) by (unfold be_decode; simpl; sat; lia).
  set (ps := if be_decode [b16; b17] =? 1 then 65536 else be_decode [b16; b17]) in *.
  assert (ps <= 65536) by (unfold ps; destruct (_ =? 1); lia). clearbody ps.
  destruct (Z.ltb_spec ps 512); [done|].
  destruct (is_power_of_two ps) eqn:Hpow; [|done]. cbn [orb negb] in Hp.
  apply bind_ok in Hp as (wv & Hwv & Hp).
  destruct (Z.eqb_spec wv 1), (Z.eqb_spec wv 2); try done; cbn [orb negb] in Hp;
  apply bind_ok in Hp as (rv & Hrv & Hp);
  destruct (Z.eqb_spec rv 1), (Z.eqb_spec rv 2); try done; cbn [orb negb] in Hp;
  apply bind_ok in Hp as (rs & Hrs & Hp);
  pose proof (read_u8_ok _ _ _ Hok Hrs);
  (destruct (Z.leb_spec ps rs); [done|]);
  repeat (apply bind_ok in Hp as (? & ? & Hp)); simplify_eq; cbn;
  unfold usable_page_size, wrap; cbn;
  (rewrite Z.mod_small by (change (2 ^ 32) with 4294967296; unfold is_u8 in *; lia));
  unfold valid_page_size; repeat split; try done; try (sat; lia);
  try (by eapply read_u32_ok); eauto.
Qed.

Example parse_accepts_usable_witness :
  exists h, parse (new_empty_page1 512) = Ok h /\ valid_page_size (page_size h).
Proof.
  eexists (MkHeader 512 1 1 0 1 0 0 0 4 0 Utf8 0 0). split; [vm_compute; reflexivity|].
  eapply (parse_accepts_usable (new_empty_page1 512)); [|vm_compute; reflexivity].
  apply bytes_okb_ok. vm_compute. reflexivity.
Defined.

(** The page 1 written for a brand-new database is a valid header for
    every legal page size, 65536 (stored as 1) included: parsing it gives
    back that page size, one page, an empty freelist, schema format 4, UTF-8
    and rollback-journal mode. *)
Theorem new_page1_parses ps :
  valid_page_size ps ->
  parse (new_empty_page1 ps) = Ok (MkHeader ps 1 1 0 1 0 0 0 4 0 Utf8 0 0) /\
  len (new_empty_page1 ps) = ps /\
  journal_mode (MkHeader ps 1 1 0 1 0 0 0 4 0 Utf8 0 0) = Legacy.
Proof.
  intros H%valid_page_size_cases.
  repeat (apply elem_of_cons in H as [->|H]; [vm_compute; done|]). by apply not_elem_of_nil in H.
Qed.

Example new_page1_parses_witness :
  parse (new_empty_page1 4096) = Ok (MkHeader 4096 1 1 0 1 0 0 0 4 0 Utf8 0 0) /\
  len (new_empty_page1 4096) = 4096 /\
  journal_mode (MkHeader 4096 1 1 0 1 0 0 0 4 0 Utf8 0 0) = Legacy.
Proof. apply new_page1_parses. split; [lia|reflexivity]. Defined.
