(* ===== verification/Freelist.v ===== *)
(** * Freelist trunk pages ([src/pager/freelist.rs]) *)

From stdpp Require Import prelude list numbers.
From Stdlib Require Import ZArith Lia.
From S2P Require Import Prelude.

Local Open Scope Z_scope.

Inductive FreelistError : Type := PageTooShort (offset n : Z).

#[global] Instance FreelistError_eq_dec : EqDecision FreelistError.
Proof. solve_decision. Defined.

Definition read_u32 (buf : list Z) (offset : Z) : result FreelistError Z :=
  b ← ok_or (get_range buf offset (sat_add offset 4)) (PageTooShort offset (len buf));
  Ok (be_decode b).

Definition write_u32 (buf : list Z) (offset value : Z) : result FreelistError (list Z) :=
  ok_or (set_range buf offset (be_encode 4 value)) (PageTooShort offset (len buf)).

Definition max_leaves_per_trunk (page_size : Z) : Z := sat_sub page_size 8 / 4.

Record TrunkPage : Type := MkTrunk { next_trunk : Z; leaves : list Z }.

#[global] Instance TrunkPage_eq_dec : EqDecision TrunkPage.
Proof. solve_decision. Defined.

(** [for i in 0..leaf_count { leaves.push(read_u32(buf, 8 + 4 * i)?) }]. *)
Fixpoint read_leaves (n : nat) (i : Z) (buf : list Z) : result FreelistError (list Z) :=
  match n with
  | O => Ok []
  | S n' =>
    leaf ← read_u32 buf (sat_add 8 (sat_mul i 4));
    rest ← read_leaves n' (i + 1) buf;
    Ok (leaf :: rest)
  end.

Definition parse (buf : list Z) : result FreelistError TrunkPage :=
  next ← read_u32 buf 0;
  claimed_count ← read_u32 buf 4;
  let max_fit := sat_sub (len buf) 8 / 4 in
  let leaf_count := Z.min claimed_count max_fit in
  ls ← read_leaves (Z.to_nat leaf_count) 0 buf;
  Ok (MkTrunk next ls).

Fixpoint write_leaves (ls : list Z) (i : Z) (buf : list Z) : result FreelistError (list Z) :=
  match ls with
  | [] => Ok buf
  | leaf :: rest =>
    buf' ← write_u32 buf (sat_add 8 (sat_mul i 4)) leaf;
    write_leaves rest (i + 1) buf'
  end.

Definition write (t : TrunkPage) (buf : list Z) : result FreelistError (list Z) :=
  buf ← write_u32 buf 0 (next_trunk t);
  buf ← write_u32 buf 4 (wrap 32 (len (leaves t)));
  buf ← write_leaves (leaves t) 0 buf;
  let tail_start := sat_add 8 (sat_mul (len (leaves t)) 4) in
  match get_from buf tail_start with
  | Some tail => Ok (take (Z.to_nat tail_start) buf ++ replicate (length tail) 0)
  | None => Ok buf
  end.

(** ** Reading over writing *)

Lemma write_u32_inv buf o v buf' :
  write_u32 buf o v = Ok buf' -> set_range buf o (be_encode 4 v) = Some buf'.
Proof. unfold write_u32. destruct (set_range _ _ _); [|done]. by intros [= ->]. Qed.

Lemma write_u32_ok buf o v :
  0 <= o -> o + 4 <= len buf -> exists buf', write_u32 buf o v = Ok buf' /\ len buf' = len buf.
Proof.
  intros Ho Hl. unfold write_u32.
  pose proof (set_range_Some buf o (be_encode 4 v)) as E. rewrite len_be_encode in E.
  rewrite E by lia. eexists. split; [done|]. eapply set_range_len, E; lia.
Qed.

Lemma read_u32_read_be buf o :
  0 <= o -> o + 4 <= U64_MAX ->
  read_u32 buf o = ok_or (read_be 4 buf o) (PageTooShort o (len buf)).
Proof.
  intros. unfold read_u32, read_be. replace (sat_add o 4) with (o + Z.of_nat 4) by (sat; lia).
  by destruct (get_range _ _ _).
Qed.

Lemma write_leaves_spec ls i buf :
  0 <= i -> 8 + 4 * (i + len ls) <= len buf -> len buf <= U64_MAX ->
  exists buf', write_leaves ls i buf = Ok buf' /\ len buf' = len buf /\
    (forall a b, b <= 8 + 4 * i -> get_range buf' a b = get_range buf a b) /\
    (Forall is_u32 ls -> forall k v, ls !! k = Some v ->
      read_be 4 buf' (8 + 4 * (i + Z.of_nat k)) = Some v).
Proof.
  revert i buf. induction ls as [|leaf ls IH]; intros i buf Hi Hl Hmax; cbn [write_leaves].
  { exists buf. split; [done|]. split; [done|]. by split; [|intros _ []]. }
  rewrite len_cons in Hl. pose proof (len_nonneg ls).
  replace (sat_add 8 (sat_mul i 4)) with (8 + 4 * i) by (sat; lia).
  destruct (write_u32_ok buf (8 + 4 * i) leaf) as (b1 & Hw & Hlen); [lia|lia|].
  rewrite Hw. cbn [mbind result_bind]. apply write_u32_inv in Hw.
  destruct (IH (i + 1) b1) as (b2 & -> & Hl2 & Hpre & Hread); [lia|lia|lia|].
  exists b2. split; [done|]. split; [lia|]. split.
  - intros a b Hb. rewrite Hpre by lia.
    eapply get_range_set_ne; [done|]. left. lia.
  - intros [Hleaf Hls]%Forall_cons_iff [|k] v Hk.
    + cbn in Hk. simplify_eq. replace (i + Z.of_nat 0) with i by lia. unfold read_be.
      rewrite Hpre by lia. erewrite get_range_set_eq by (try done; by rewrite len_be_encode).
      cbn [fmap option_fmap option_map]. f_equal. apply be_roundtrip. sat. simpl. lia.
    + replace (8 + 4 * (i + Z.of_nat (S k))) with (8 + 4 * (i + 1 + Z.of_nat k)) by lia.
      by apply Hread.
Qed.

Lemma read_leaves_spec ls n i buf :
  length ls = n -> 0 <= i -> 8 + 4 * (i + len ls) <= U64_MAX ->
  (forall k v, ls !! k = Some v -> read_be 4 buf (8 + 4 * (i + Z.of_nat k)) = Some v) ->
  read_leaves n i buf = Ok ls.
Proof.
  intros <-. revert i. induction ls as [|v ls IH]; intros i Hi Hmax Hr; [done|].
  cbn [length read_leaves]. rewrite len_cons in Hmax. pose proof (len_nonneg ls).
  replace (sat_add 8 (sat_mul i 4)) with (8 + 4 * i) by (sat; lia).
  rewrite read_u32_read_be by lia.
  pose proof (Hr 0%nat v eq_refl) as H0. replace (i + Z.of_nat 0) with i in H0 by lia. rewrite H0. cbn [ok_or mbind result_bind].
  rewrite (IH (i + 1)); [done|lia|lia|]. intros k w Hk.
  rewrite <- (Hr (S k) w Hk). f_equal. lia.
Qed.

(** The write succeeds whenever the leaves fit, keeps the page size and
    zeroes everything past the leaf array; parsing reads the trunk back. *)
Lemma write_parse t buf :
  is_u32 (next_trunk t) -> Forall is_u32 (leaves t) ->
  8 + 4 * len (leaves t) <= len buf -> len buf <= 4294967296 ->
  exists buf', write t buf = Ok buf' /\ len buf' = len buf /\ parse buf' = Ok t /\
    drop (Z.to_nat (8 + 4 * len (leaves t))) buf' =
      replicate (length buf - Z.to_nat (8 + 4 * len (leaves t))) 0.
Proof.
  intros Hn Hls Hfit Hmax. destruct t as [nx ls]. cbn [next_trunk leaves] in *.
  pose proof (len_nonneg ls). unfold write. cbn [next_trunk leaves].
  destruct (write_u32_ok buf 0 nx) as (b1 & H1 & L1); [lia|lia|]. rewrite H1.
  cbn [mbind result_bind]. apply write_u32_inv in H1.
  replace (wrap 32 (len ls)) with (len ls) by (unfold wrap; rewrite Z.mod_small; lia).
  destruct (write_u32_ok b1 4 (len ls)) as (b2 & H2 & L2); [lia|lia|]. rewrite H2.
  cbn [mbind result_bind]. apply write_u32_inv in H2.
  destruct (write_leaves_spec ls 0 b2) as (b3 & -> & L3 & Hpre & Hread); [lia|lia|sat; lia|].
  cbn [mbind result_bind].
  set (ts := 8 + 4 * len ls).
  replace (sat_add 8 (sat_mul (len ls) 4)) with ts by (unfold ts; sat; lia).
  rewrite get_from_Some by lia.
  assert (len (take (Z.to_nat ts) b3) = ts) as Lt by (apply len_take; lia).
  assert (forall k, read_be 4 (take (Z.to_nat ts) b3 ++ replicate (length (drop (Z.to_nat ts) b3)) 0) k
    = read_be 4 b3 k \/ ts < k + 4) as Hrd.
  { intros k. destruct (Z_le_gt_dec (k + 4) ts) as [Hk|]; [left|right; lia].
    unfold read_be. rewrite get_range_app_l by lia.
    rewrite <- (take_drop (Z.to_nat ts) b3) at 2. by rewrite get_range_app_l by lia. }
  eexists. split; [done|].
  assert (length (drop (Z.to_nat ts) b3) = (length buf - Z.to_nat ts)%nat) as Ld.
  { rewrite length_drop. unfold len in *. lia. }
  rewrite Ld in *. repeat split.
  - rewrite len_app, Lt. unfold len. rewrite length_replicate. unfold len in *. lia.
  - unfold parse. rewrite !read_u32_read_be by (sat; lia).
    destruct (Hrd 0) as [->|]; [|lia]. destruct (Hrd 4) as [->|]; [|lia].
    assert (read_be 4 b3 0 = Some nx) as ->.
    { unfold read_be. rewrite Hpre by lia.
      erewrite get_range_set_ne by (try done; left; lia).
      erewrite get_range_set_eq by (try done; by rewrite len_be_encode).
      cbn [fmap option_fmap option_map]. f_equal. apply be_roundtrip. sat. simpl. lia. }
    assert (read_be 4 b3 4 = Some (len ls)) as ->.
    { unfold read_be. rewrite Hpre by lia.
      erewrite get_range_set_eq by (try done; by rewrite len_be_encode).
      cbn [fmap option_fmap option_map]. f_equal. apply be_roundtrip. simpl. lia. }
    cbn [ok_or mbind result_bind]. cbv zeta.
    rewrite Z.min_l.
    2:{ rewrite len_app, Lt. unfold len at 2. rewrite length_replicate.
        unfold sat_sub. apply Z.div_le_lower_bound; [lia|]. unfold len in *. lia. }
    erewrite read_leaves_spec; [done|unfold len; lia|lia|sat; lia|].
    intros k v Hk. pose proof (lookup_lt_Some _ _ _ Hk).
    destruct (Hrd (8 + 4 * (0 + Z.of_nat k))) as [->|Hc]; [by apply Hread|].
    unfold ts, len in Hc. lia.
  - rewrite drop_app_ge by (unfold len in Lt; lia).
    unfold len in Lt. replace (Z.to_nat ts - length (take (Z.to_nat ts) b3))%nat with 0%nat by lia. done.
Qed.

(** ** Properties *)

(** A freelist trunk survives a write and a read: whenever its leaves fit
    the page, writing it succeeds, keeps the page length, zeroes every byte
    after the leaf array (no stale leaf survives), and parsing the page gives
    the same trunk back. *)
Theorem trunk_roundtrip t buf :
  is_u32 (next_trunk t) -> Forall is_u32 (leaves t) ->
  len (leaves t) <= max_leaves_per_trunk (len buf) -> 8 <= len buf <= 65536 ->
  exists buf', write t buf = Ok buf' /\ len buf' = len buf /\ parse buf' = Ok t /\
    drop (Z.to_nat (8 + 4 * len (leaves t))) buf' =
      replicate (length buf - Z.to_nat (8 + 4 * len (leaves t))) 0.
Proof.
  intros Hn Hl Hm Hb. apply write_parse; [done|done| |lia].
  unfold max_leaves_per_trunk, sat_sub in Hm.
  pose proof (Z.mul_div_le (Z.max (len buf - 8) 0) 4). lia.
Qed.

Example trunk_roundtrip_witness :
  exists buf', write (MkTrunk 42 [7; 8; 9]) (replicate 24 255) = Ok buf' /\
    len buf' = len (replicate 24 255) /\ parse buf' = Ok (MkTrunk 42 [7; 8; 9]) /\
    drop (Z.to_nat (8 + 4 * len (leaves (MkTrunk 42 [7; 8; 9])))) buf' =
      replicate (length (replicate 24 255) - Z.to_nat (8 + 4 * len (leaves (MkTrunk 42 [7; 8; 9])))) 0.
Proof.
  apply trunk_roundtrip; [sat; cbn; lia| |vm_compute; discriminate|vm_compute; split; discriminate].
  repeat constructor; sat; lia.
Defined.
