(* ===== verification/Vfs.v ===== *)
(** * Files, the in-memory file system and page sources

    [src/vfs/memory.rs] and [src/vfs/page_source.rs].  The contents of a file
    is a list of bytes; [read_at], [write_at], [truncate] and [size] are the
    [VfsFile] operations on it.  A database directory is the four files a
    database uses: the main file and its [-journal], [-wal] and [-shm]
    companions ([companion_path] in [src/vfs.rs]), so a path is a [FileId] and
    the file table a finite map from [FileId] to contents.  A handle is named
    by its path: no function of the pager keeps a handle to a file after
    deleting it.

    A [Disk] also carries the log of the operations that changed it, in
    order.  Replaying a prefix of the log gives the state a crash at that point
    leaves behind. *)

From stdpp Require Import prelude list numbers gmap.
From Stdlib Require Import ZArith Lia.
From S2P Require Import Prelude.

Local Open Scope Z_scope.

Create HintDb vfs.

Inductive FileId : Type := DbFile | JournalFile | WalFile | ShmFile.

#[global] Instance FileId_eq_dec : EqDecision FileId.
Proof. solve_decision. Defined.

#[global] Instance FileId_countable : Countable FileId.
Proof.
  refine (inj_countable'
    (fun f => match f with DbFile => 0%nat | JournalFile => 1%nat | WalFile => 2%nat | ShmFile => 3%nat end)
    (fun n => match n with 0%nat => DbFile | 1%nat => JournalFile | 2%nat => WalFile | _ => ShmFile end) _).
  by intros [].
Defined.

Inductive VfsError : Type :=
| NotFound (path : FileId)
| Locked (path : FileId)
| Io (path : FileId).

#[global] Instance VfsError_eq_dec : EqDecision VfsError.
Proof. solve_decision. Defined.

Inductive PageError : Type :=
| InvalidPageNumber
| ShortRead (page_num expected got : Z)
| WrongLength (page_num expected got : Z)
| PageVfs (source : VfsError).

#[global] Instance PageError_eq_dec : EqDecision PageError.
Proof. solve_decision. Defined.

(** ** One file ([MemoryVfsFile]) *)

(** [Vec::resize(len, 0)]. *)
Definition resize_zero (data : list Z) (n : Z) : list Z :=
  if len data <? n then data ++ zeros (n - len data) else take (Z.to_nat n) data.

(** The bytes the read puts at the start of a buffer of [n] bytes; their number
    is the result of the call. *)
Definition read_at (data : list Z) (n offset : Z) : list Z :=
  if len data <=? offset then []
  else take (Z.to_nat n) (drop (Z.to_nat offset) data).

Definition size (data : list Z) : Z := len data.

Definition write_at (data buf : list Z) (offset : Z) : list Z :=
  let end_ := sat_add offset (len buf) in
  let data := if len data <? end_ then resize_zero data end_ else data in
  take (Z.to_nat offset) data ++ buf ++ drop (Z.to_nat end_) data.

Definition truncate (data : list Z) (n : Z) : list Z := resize_zero data n.

(** ** Page reads and writes on one file *)

Definition page_offset (page_size page_num : Z) : Z := sat_mul (sat_sub page_num 1) page_size.

Definition read_page_at (data : list Z) (page_size page_num : Z) : result PageError (list Z) :=
  if page_num =? 0 then Err InvalidPageNumber
  else
    let got := read_at data page_size (page_offset page_size page_num) in
    if len got =? page_size then Ok got
    else Err (ShortRead page_num page_size (len got)).

Definition write_page (data : list Z) (page_size page_num : Z) (bytes : list Z)
  : result PageError (list Z) :=
  if page_num =? 0 then Err InvalidPageNumber
  else if negb (len bytes =? page_size) then Err (WrongLength page_num page_size (len bytes))
  else Ok (write_at data bytes (page_offset page_size page_num)).

(** ** The file table and its log of changes ([MemoryVfs]) *)

Inductive IoOp : Type :=
| IoCreate (path : FileId)
| IoWrite (path : FileId) (buf : list Z) (offset : Z)
| IoTruncate (path : FileId) (n : Z)
| IoSync (path : FileId)
| IoDelete (path : FileId).

Record Disk : Type := MkDisk { files : gmap FileId (list Z); log : list IoOp }.

Definition apply_op (fs : gmap FileId (list Z)) (op : IoOp) : gmap FileId (list Z) :=
  match op with
  | IoCreate p => match fs !! p with Some _ => fs | None => <[p := []]> fs end
  | IoWrite p buf off => alter (fun d => write_at d buf off) p fs
  | IoTruncate p n => alter (fun d => truncate d n) p fs
  | IoSync _ => fs
  | IoDelete p => delete p fs
  end.

Definition replay (fs : gmap FileId (list Z)) (ops : list IoOp) : gmap FileId (list Z) :=
  fold_left apply_op ops fs.

Definition perform (d : Disk) (op : IoOp) : Disk :=
  MkDisk (apply_op (files d) op) (log d ++ [op]).

Definition vfs_exists (d : Disk) (p : FileId) : bool := bool_decide (is_Some (files d !! p)).

Definition open_file (d : Disk) (p : FileId) : result VfsError (list Z) :=
  ok_or (files d !! p) (NotFound p).

Definition create_or_open_write (d : Disk) (p : FileId) : Disk := perform d (IoCreate p).
Definition file_write_at (d : Disk) (p : FileId) (buf : list Z) (offset : Z) : Disk :=
  perform d (IoWrite p buf offset).
Definition file_truncate (d : Disk) (p : FileId) (n : Z) : Disk := perform d (IoTruncate p n).
Definition file_sync (d : Disk) (p : FileId) : Disk := perform d (IoSync p).
Definition vfs_delete (d : Disk) (p : FileId) : Disk := perform d (IoDelete p).

(** ** Laws of the file operations *)

Lemma len_resize_zero data n : 0 <= n -> len (resize_zero data n) = n.
Proof.
  intros. unfold resize_zero. destruct (Z.ltb_spec (len data) n).
  - rewrite len_app, len_zeros by lia. lia.
  - apply len_take. lia.
Qed.

Lemma take_resize_zero data n k :
  0 <= k <= len data -> k <= n ->
  take (Z.to_nat k) (resize_zero data n) = take (Z.to_nat k) data.
Proof.
  intros. unfold resize_zero, len in *. destruct (Z.ltb_spec (Z.of_nat (length data)) n).
  - rewrite take_app_le by lia. done.
  - rewrite take_take. f_equal. lia.
Qed.

Lemma len_write_at data buf off :
  0 <= off -> off + len buf <= U64_MAX ->
  len (write_at data buf off) = Z.max (len data) (off + len buf).
Proof.
  intros Ho He. pose proof (len_nonneg buf). pose proof (len_nonneg data). unfold write_at.
  replace (sat_add off (len buf)) with (off + len buf) by (sat; lia).
  set (d := if _ <? _ then _ else _).
  assert (len d = Z.max (len data) (off + len buf)) as Hd.
  { unfold d. destruct (Z.ltb_spec (len data) (off + len buf)); [rewrite len_resize_zero|]; lia. }
  rewrite !len_app, len_take, len_drop by lia. lia.
Qed.

(** A write inside the file is the in-place overwrite of the range. *)
Lemma write_at_inside data buf off :
  0 <= off -> off + len buf <= len data -> off + len buf <= U64_MAX ->
  set_range data off buf = Some (write_at data buf off).
Proof.
  intros Ho He Hm. rewrite set_range_Some by lia. unfold write_at.
  pose proof (len_nonneg buf).
  replace (sat_add off (len buf)) with (off + len buf) by (sat; lia).
  by rewrite (proj2 (Z.ltb_ge _ _)) by lia.
Qed.

Lemma get_range_write_eq data buf off :
  0 <= off -> off + len buf <= U64_MAX ->
  get_range (write_at data buf off) off (off + len buf) = Some buf.
Proof.
  intros Ho He. pose proof (len_nonneg buf). pose proof (len_nonneg data). unfold write_at.
  replace (sat_add off (len buf)) with (off + len buf) by (sat; lia).
  set (d := if _ <? _ then _ else _).
  assert (off + len buf <= len d) as Hd.
  { unfold d. destruct (Z.ltb_spec (len data) (off + len buf)); [rewrite len_resize_zero|]; lia. }
  assert (len (take (Z.to_nat off) d) = off) as Ht by (apply len_take; lia).
  apply get_range_app3; lia.
Qed.

(** A range the write does not touch, inside the file as it was, is unchanged. *)
Lemma get_range_write_ne data buf off a b :
  0 <= off -> off + len buf <= U64_MAX -> b <= len data ->
  (b <= off \/ off + len buf <= a) ->
  get_range (write_at data buf off) a b = get_range data a b.
Proof.
  intros Ho He Hb Hd. pose proof (len_nonneg buf).
  destruct (Z_le_gt_dec (off + len buf) (len data)) as [Hin|Hout].
  { eapply get_range_set_ne; [by apply write_at_inside|done]. }
  destruct (decide (0 <= a <= b)) as [Hab|Hab].
  2:{ unfold get_range. destruct (Z.leb_spec 0 a), (Z.leb_spec a b); cbn [andb]; (done || lia). }
  destruct Hd as [Hd|Hd]; [|lia].
  unfold write_at. replace (sat_add off (len buf)) with (off + len buf) by (sat; lia).
  rewrite (proj2 (Z.ltb_lt _ _)) by lia.
  assert (len (resize_zero data (off + len buf)) = off + len buf) as Hl by (apply len_resize_zero; lia).
  rewrite get_range_app_l by (rewrite len_take; lia).
  rewrite !get_range_Some by (rewrite ?len_take; lia).
  assert (take (Z.to_nat b) (take (Z.to_nat off) (resize_zero data (off + len buf))) = take (Z.to_nat b) data) as E.
  { rewrite take_take. replace (Z.to_nat b `min` Z.to_nat off)%nat with (Z.to_nat b) by lia.
    apply take_resize_zero; lia. }
  f_equal. rewrite !take_drop_commute.
  replace (Z.to_nat a + Z.to_nat (b - a))%nat with (Z.to_nat b) by lia. by rewrite E.
Qed.

Lemma read_at_range data n off :
  0 <= off -> 0 <= n -> off + n <= len data -> Some (read_at data n off) = get_range data off (off + n).
Proof.
  intros. unfold read_at. rewrite get_range_Some by lia.
  destruct (Z.leb_spec (len data) off).
  - replace (off + n - off) with 0 by lia. by rewrite take_0.
  - by replace (off + n - off) with n by lia.
Qed.

Lemma len_read_at data n off :
  0 <= off -> 0 <= n -> len (read_at data n off) = Z.max 0 (Z.min n (len data - off)).
Proof.
  intros. unfold read_at, len in *. destruct (Z.leb_spec (Z.of_nat (length data)) off); cbn [length].
  - lia.
  - rewrite length_take, length_drop. lia.
Qed.

(** ** Pages of a file *)

Definition valid_page (page_size page_num : Z) : Prop :=
  0 < page_size <= 65536 /\ 1 <= page_num <= U32_MAX.

Lemma page_offset_eq ps n : valid_page ps n -> page_offset ps n = (n - 1) * ps.
Proof. intros [? ?]. unfold page_offset. sat. nia. Qed.

Lemma page_end_u64 ps n : valid_page ps n -> 0 <= (n - 1) * ps /\ (n - 1) * ps + ps <= U64_MAX.
Proof. intros [? ?]. sat. nia. Qed.

(** A page read succeeds exactly when the whole page lies in the file, and
    then returns its bytes; otherwise the error says how much there was. *)
Lemma read_page_at_spec data ps n :
  valid_page ps n ->
  read_page_at data ps n =
    match get_range data ((n - 1) * ps) ((n - 1) * ps + ps) with
    | Some b => Ok b
    | None => Err (ShortRead n ps (Z.max 0 (len data - (n - 1) * ps)))
    end.
Proof.
  intros Hv. pose proof (page_end_u64 _ _ Hv). unfold read_page_at.
  rewrite page_offset_eq by done. destruct Hv as [? ?].
  destruct (Z.eqb_spec n 0); [lia|]. cbv zeta.
  rewrite len_read_at by lia.
  destruct (Z_le_gt_dec ((n - 1) * ps + ps) (len data)).
  - rewrite <- read_at_range by lia. destruct (Z.eqb_spec (Z.max 0 (Z.min ps (len data - (n - 1) * ps))) ps); [done|lia].
  - rewrite get_range_None by lia. destruct (Z.eqb_spec (Z.max 0 (Z.min ps (len data - (n - 1) * ps))) ps); [lia|].
    do 2 f_equal. lia.
Qed.

Lemma read_page_at_len data ps n b : read_page_at data ps n = Ok b -> len b = ps.
Proof.
  unfold read_page_at. case_match; [done|]. cbv zeta.
  destruct (Z.eqb_spec (len (read_at data ps (page_offset ps n))) ps); [|done]. by intros [= <-].
Qed.

Lemma read_write_page_eq data data' ps n b :
  valid_page ps n -> write_page data ps n b = Ok data' -> read_page_at data' ps n = Ok b.
Proof.
  intros Hv. pose proof (page_end_u64 _ _ Hv). rewrite read_page_at_spec by done. unfold write_page.
  rewrite page_offset_eq by done. destruct Hv as [? ?].
  destruct (Z.eqb_spec n 0); [lia|].
  destruct (Z.eqb_spec (len b) ps) as [<-|]; [|done]. cbn [negb]. intros [= <-].
  by rewrite get_range_write_eq by lia.
Qed.

Lemma pages_disjoint ps n m : n <> m -> 0 < ps -> (n - 1) * ps + ps <= (m - 1) * ps \/ (m - 1) * ps + ps <= (n - 1) * ps.
Proof. intros. nia. Qed.

Lemma read_write_page_ne data data' ps n m b :
  valid_page ps n -> valid_page ps m -> n <> m -> (m - 1) * ps + ps <= len data ->
  write_page data ps n b = Ok data' -> read_page_at data' ps m = read_page_at data ps m.
Proof.
  intros Hn Hm Hne Hl. pose proof (page_end_u64 _ _ Hn). pose proof (page_end_u64 _ _ Hm).
  rewrite !read_page_at_spec by done. unfold write_page.
  rewrite page_offset_eq by done. destruct Hn as [? ?].
  destruct (Z.eqb_spec n 0); [lia|].
  destruct (Z.eqb_spec (len b) ps) as [Hb|]; [|done]. cbn [negb]. intros [= <-].
  pose proof (pages_disjoint ps n m Hne ltac:(lia)).
  rewrite get_range_write_ne; [|lia|lia|lia|lia].
  by rewrite get_range_Some by lia.
Qed.

(** ** The log describes the state *)

(** Every operation extends the log by the operation it performed, and the
    current files are those of the log replayed on the original ones. *)
Definition log_sound (fs0 : gmap FileId (list Z)) (d : Disk) : Prop :=
  files d = replay fs0 (log d).

Lemma replay_app fs ops1 ops2 : replay fs (ops1 ++ ops2) = replay (replay fs ops1) ops2.
Proof. apply fold_left_app. Qed.

Lemma perform_log_sound fs0 d op : log_sound fs0 d -> log_sound fs0 (perform d op).
Proof. unfold log_sound, perform. cbn [files log]. intros ->. by rewrite replay_app. Qed.

#[export] Hint Resolve perform_log_sound : vfs.

(** ** A file as a sequence of pages *)

(** Page [n] (numbered from 1) of a file, when it lies entirely inside it. *)
Definition page (ps : Z) (data : list Z) (n : Z) : option (list Z) :=
  get_range data ((n - 1) * ps) ((n - 1) * ps + ps).

Lemma page_inv ps data n b :
  page ps data n = Some b -> (n - 1) * ps + ps <= len data /\ len b = ps.
Proof. unfold page. intros (? & ? & ? & _)%get_range_inv. lia. Qed.

Lemma page_is_Some ps data n :
  0 <= ps -> 1 <= n -> (n - 1) * ps + ps <= len data -> exists b, page ps data n = Some b.
Proof. intros. unfold page. rewrite get_range_Some by nia. eauto. Qed.

Lemma read_page_at_page data ps n b :
  valid_page ps n -> read_page_at data ps n = Ok b <-> page ps data n = Some b.
Proof.
  intros Hv. rewrite read_page_at_spec by done. unfold page.
  destruct (get_range _ _ _); split; intros; simplify_eq; done.
Qed.

Lemma page_write_eq ps data n b :
  valid_page ps n -> len b = ps -> page ps (write_at data b (page_offset ps n)) n = Some b.
Proof.
  intros Hv Hb. pose proof (page_end_u64 _ _ Hv). rewrite page_offset_eq by done.
  unfold page. rewrite <- Hb at 4. apply get_range_write_eq; lia.
Qed.

(** A write of at most a page at a page's offset leaves the other pages. *)
Lemma page_write_short_ne ps data n m b c :
  valid_page ps n -> n <> m -> len b <= ps -> page ps data m = Some c ->
  page ps (write_at data b (page_offset ps n)) m = Some c.
Proof.
  intros Hv Hne Hb Hm. pose proof (page_end_u64 _ _ Hv). rewrite page_offset_eq by done.
  destruct (page_inv _ _ _ _ Hm) as [Hl _]. rewrite <- Hm. unfold page. pose proof (len_nonneg b).
  pose proof (pages_disjoint ps n m Hne ltac:(destruct Hv; lia)).
  apply get_range_write_ne; lia.
Qed.

Lemma page_write_ne ps data n m b c :
  valid_page ps n -> n <> m -> len b = ps -> page ps data m = Some c ->
  page ps (write_at data b (page_offset ps n)) m = Some c.
Proof. intros Hv Hne <-. apply page_write_short_ne; [done|done|lia]. Qed.

Lemma page_lookup ps data n b i :
  page ps data n = Some b -> (i < length b)%nat -> data !! (Z.to_nat ((n - 1) * ps) + i)%nat = b !! i.
Proof.
  unfold page. intros (? & ? & Hl & ->)%get_range_inv Hi. unfold len in *.
  rewrite lookup_take_lt by lia. by rewrite lookup_drop.
Qed.

(** Two files of [k] whole pages that agree page by page are equal. *)
Lemma pages_ext ps k d1 d2 :
  0 < ps -> 0 <= k -> len d1 = k * ps -> len d2 = k * ps ->
  (forall n, 1 <= n <= k -> page ps d1 n = page ps d2 n) -> d1 = d2.
Proof.
  intros Hps Hk L1 L2 Heq. apply list_eq. intros i.
  destruct (decide (Z.of_nat i < k * ps)) as [Hi|Hi].
  2:{ unfold len in *. rewrite !lookup_ge_None_2 by lia. done. }
  pose proof (Z.div_mod (Z.of_nat i) ps ltac:(lia)) as Hdm.
  pose proof (Z.mod_pos_bound (Z.of_nat i) ps Hps) as Hmod.
  set (q := Z.of_nat i / ps) in *. set (r := Z.of_nat i mod ps) in *. clearbody q r.
  assert (0 <= q < k) as Hq by nia.
  destruct (page_is_Some ps d1 (q + 1)) as [b Hb]; [lia|lia|nia|].
  pose proof Hb as Hb2. rewrite Heq in Hb2 by lia.
  destruct (page_inv _ _ _ _ Hb) as [_ Hlb]. unfold len in Hlb.
  assert (i = Z.to_nat ((q + 1 - 1) * ps) + Z.to_nat r)%nat as -> by nia.
  rewrite (page_lookup _ _ _ _ (Z.to_nat r) Hb), (page_lookup _ _ _ _ (Z.to_nat r) Hb2) by lia. done.
Qed.

Lemma page_truncate ps data k n :
  0 < ps -> 1 <= n <= k -> k * ps <= len data ->
  page ps (truncate data (k * ps)) n = page ps data n.
Proof.
  intros. unfold page, truncate, resize_zero.
  rewrite (proj2 (Z.ltb_ge _ _)) by lia.
  rewrite !get_range_Some by (rewrite ?len_take; nia). f_equal.
  rewrite !take_drop_commute, take_take. do 2 f_equal. nia.
Qed.
