(* ===== verification/Journal.v ===== *)
(** * The rollback journal ([src/pager/journal.rs])

    The header and record formats, the page checksum, the writer
    ([JournalWriter]) and the replay of a hot journal ([recover]). *)

From stdpp Require Import prelude list numbers gmap.
From Stdlib Require Import ZArith Lia.
From S2P Require Import Prelude Vfs.

Local Open Scope Z_scope.

Definition JOURNAL_HEADER_LEN : Z := 28.
Definition JOURNAL_MAGIC : list Z := [217; 213; 5; 249; 32; 161; 99; 215].

Inductive JournalError : Type :=
| HeaderTooShort (n : Z)
| RecordTruncated (index expected got : Z)
| JournalVfs (source : VfsError).

#[global] Instance JournalError_eq_dec : EqDecision JournalError.
Proof. solve_decision. Defined.

Definition record_len (page_size : Z) : Z := sat_add (sat_add 4 page_size) 4.

Record JournalHeader : Type := MkJournalHeader {
  n_rec : Z;
  jh_nonce : Z;
  initial_page_count : Z;
  jh_sector_size : Z;
  jh_page_size : Z }.

Definition parse (buf : list Z) : result JournalError JournalHeader :=
  bytes ← ok_or (get_range buf 0 JOURNAL_HEADER_LEN) (HeaderTooShort (len buf));
  let be32 a b := match get_range bytes a b with Some k => be_decode k | None => 0 end in
  Ok (MkJournalHeader (be32 8 12) (be32 12 16) (be32 16 20) (be32 20 24) (be32 24 28)).

Definition serialize (h : JournalHeader) (magic : list Z) : list Z :=
  magic ++ be_encode 4 (n_rec h) ++ be_encode 4 (jh_nonce h) ++
  be_encode 4 (initial_page_count h) ++ be_encode 4 (jh_sector_size h) ++
  be_encode 4 (jh_page_size h).

(** The sampling loop: [fuel] iterations suffice when it is at least
    [idx / 200 + 1] ([checksum_loop_fuel]). *)
Fixpoint checksum_loop (fuel : nat) (cksum idx : Z) (page : list Z) : Z :=
  match fuel with
  | O => cksum
  | S fuel =>
    if (0 <? idx) && (idx <? len page) then
      match get_at page idx with
      | Some b => checksum_loop fuel (wrap 32 (cksum + b)) (sat_sub idx 200) page
      | None => cksum
      end
    else cksum
  end.

Definition page_checksum (nonce : Z) (page : list Z) : Z :=
  checksum_loop (length page) nonce (sat_sub (len page) 200) page.

Record JournalWriter : Type := MkJournalWriter {
  jw_page_size : Z;
  jw_sector_size : Z;
  jw_nonce : Z }.

Definition create (page_size sector_size initial_page_count n_rec nonce : Z)
  : M Disk JournalError JournalWriter :=
  _ ← modify (fun d => create_or_open_write d JournalFile);
  let header := MkJournalHeader n_rec nonce initial_page_count sector_size page_size in
  let region := zeros sector_size in
  region ← lift (ok_or (set_range region 0 (serialize header JOURNAL_MAGIC)) (HeaderTooShort sector_size));
  _ ← modify (fun d => file_write_at d JournalFile region 0);
  mret (MkJournalWriter page_size sector_size nonce).

Definition record_bytes (nonce page_num : Z) (original : list Z) : list Z :=
  be_encode 4 page_num ++ original ++ be_encode 4 (page_checksum nonce original).

Definition write_record (w : JournalWriter) (index page_num : Z) (original : list Z)
  : M Disk JournalError unit :=
  let offset := sat_add (jw_sector_size w) (sat_mul index (record_len (jw_page_size w))) in
  let buf := record_bytes (jw_nonce w) page_num original in
  modify (fun d => file_write_at d JournalFile buf offset).

Definition sync (w : JournalWriter) : M Disk JournalError unit :=
  modify (fun d => file_sync d JournalFile).

Record RecoveredJournal : Type := MkRecovered {
  rj_initial_page_count : Z;
  rj_page_size : Z }.

(** The record at [index], when it is complete and its checksum matches. *)
Definition read_record (journal_bytes : list Z) (h : JournalHeader) (index : Z)
  : option (Z * list Z) :=
  let record_len := record_len (jh_page_size h) in
  let region_start := jh_sector_size h in
  let offset := sat_add region_start (sat_mul index record_len) in
  record ← get_range journal_bytes offset (sat_add offset record_len);
  page_num_bytes ← get_range record 0 4;
  let page_num := be_decode page_num_bytes in
  page_data ← get_range record 4 (sat_add 4 (jh_page_size h));
  checksum_bytes ← get_from record (sat_add 4 (jh_page_size h));
  if negb (len checksum_bytes =? 4) then None
  else if negb (page_checksum (jh_nonce h) page_data =? be_decode checksum_bytes) then None
  else Some (page_num, page_data).

Fixpoint recover_loop (n : nat) (index : Z) (journal_bytes : list Z) (h : JournalHeader)
  : M Disk JournalError unit :=
  match n with
  | O => mret tt
  | S n =>
    match read_record journal_bytes h index with
    | None => mret tt
    | Some (page_num, page_data) =>
      let page_offset := sat_mul (sat_sub page_num 1) (jh_page_size h) in
      _ ← modify (fun d => file_write_at d DbFile page_data page_offset);
      recover_loop n (index + 1) journal_bytes h
    end
  end.

Definition recover (journal_bytes : list Z) : M Disk JournalError RecoveredJournal :=
  header ← lift (parse journal_bytes);
  _ ← recover_loop (Z.to_nat (n_rec header)) 0 journal_bytes header;
  mret (MkRecovered (initial_page_count header) (jh_page_size header)).

(** ** The header *)

Definition wf_header (h : JournalHeader) : Prop :=
  is_u32 (n_rec h) /\ is_u32 (jh_nonce h) /\ is_u32 (initial_page_count h) /\
  is_u32 (jh_sector_size h) /\ is_u32 (jh_page_size h).

Lemma len_serialize h magic : len magic = 8 -> len (serialize h magic) = JOURNAL_HEADER_LEN.
Proof. intros. unfold serialize. rewrite !len_app, !len_be_encode. unfold JOURNAL_HEADER_LEN. lia. Qed.

Lemma be_range_app pre n z post a b :
  a = len pre -> b = a + Z.of_nat n -> 0 <= z < 2 ^ (8 * Z.of_nat n) ->
  match get_range (pre ++ be_encode n z ++ post) a b with Some k => be_decode k | None => 0 end = z.
Proof.
  intros -> -> Hz. rewrite get_range_app3 by (rewrite ?len_be_encode; lia). by apply be_roundtrip.
Qed.

Lemma parse_serialize h magic rest :
  wf_header h -> len magic = 8 -> parse (serialize h magic ++ rest) = Ok h.
Proof.
  intros (H1 & H2 & H3 & H4 & H5) Hm. unfold parse.
  rewrite get_range_app_prefix by (by rewrite len_serialize).
  cbn [ok_or mbind result_bind]. destruct h as [a b c d e]. cbn [n_rec jh_nonce initial_page_count jh_sector_size jh_page_size] in *.
  unfold is_u32 in *. unfold serialize. cbn [n_rec jh_nonce initial_page_count jh_sector_size jh_page_size].
  assert (forall z, len (be_encode 4 z) = 4) as L4 by (intros; by rewrite len_be_encode).
  f_equal. f_equal.
  - apply be_range_app; [lia|lia|lia].
  - rewrite app_assoc. apply be_range_app; rewrite ?len_app, ?L4; lia.
  - rewrite (app_assoc _ _ (be_encode 4 c ++ _)), (app_assoc _ _ (be_encode 4 c ++ _)).
    apply be_range_app; rewrite ?len_app, ?L4; lia.
  - rewrite (app_assoc _ _ (be_encode 4 c ++ _)), (app_assoc _ _ (be_encode 4 c ++ _)), (app_assoc _ _ (be_encode 4 d ++ _)).
    apply be_range_app; rewrite ?len_app, ?L4; lia.
  - rewrite (app_assoc _ _ (be_encode 4 c ++ _)), (app_assoc _ _ (be_encode 4 c ++ _)), (app_assoc _ _ (be_encode 4 d ++ _)),
      (app_assoc _ _ (be_encode 4 e)). rewrite <- (app_nil_r (be_encode 4 e)).
    apply be_range_app; rewrite ?len_app, ?L4; lia.
Qed.

(** ** The checksum *)

(** The [k]-th sampled byte, counted from the end in steps of 200. *)
Definition sample (page : list Z) (k : nat) : Z :=
  match get_at page (len page - 200 * Z.of_nat k) with Some b => b | None => 0 end.

Fixpoint sum (l : list Z) : Z := match l with [] => 0 | x :: l => x + sum l end.

Lemma wrap_add_l w a b : 0 <= w -> wrap w (wrap w a + b) = wrap w (a + b).
Proof. intros. unfold wrap. rewrite Zplus_mod_idemp_l. done. Qed.

(** From the [k]-th sample on, the loop adds the samples that lie above index
    0, whatever extra fuel it has. *)
Lemma checksum_loop_spec page n :
  forall fuel k c, (n < fuel)%nat -> is_u32 c -> (1 <= k)%nat ->
  len page - 200 * Z.of_nat (k + n) <= 0 ->
  (n <> 0%nat -> 0 < len page - 200 * Z.of_nat (k + n - 1)) ->
  checksum_loop fuel c (sat_sub (len page) (200 * Z.of_nat k)) page =
    wrap 32 (c + sum (map (sample page) (seq k n))).
Proof.
  pose proof (len_nonneg page).
  induction n as [|n IH]; intros fuel k c Hf Hc Hk Hend Hlast; (destruct fuel as [|fuel]; [lia|]).
  - cbn [checksum_loop seq map sum]. unfold sat_sub.
    replace (0 <? Z.max (len page - 200 * Z.of_nat k) 0) with false by (symmetry; apply Z.ltb_ge; lia).
    cbn [andb]. unfold wrap. rewrite Z.add_0_r, Z.mod_small; [done|]. unfold is_u32 in Hc. lia.
  - cbn [checksum_loop seq map sum]. specialize (Hlast ltac:(lia)).
    assert (0 < len page - 200 * Z.of_nat k) by nia.
    replace (sat_sub (len page) (200 * Z.of_nat k)) with (len page - 200 * Z.of_nat k) by (unfold sat_sub; lia).
    rewrite !(proj2 (Z.ltb_lt _ _)) by lia. cbn [andb].
    unfold sample at 1. destruct (get_at page (len page - 200 * Z.of_nat k)) as [b|] eqn:E.
    2:{ rewrite get_at_lookup in E by lia. apply lookup_ge_None in E. unfold len in *. lia. }
    replace (sat_sub (len page - 200 * Z.of_nat k) 200) with (sat_sub (len page) (200 * Z.of_nat (S k)))
      by (unfold sat_sub; lia).
    rewrite IH; [|lia| |lia| |].
    + rewrite wrap_add_l by lia. f_equal. lia.
    + unfold is_u32, wrap. apply Z.mod_pos_bound. lia.
    + replace (S k + n)%nat with (k + S n)%nat by lia. done.
    + intros. replace (S k + n - 1)%nat with (k + S n - 1)%nat by lia. done.
Qed.

Definition checksum_reference (nonce : Z) (page : list Z) : Z :=
  wrap 32 (nonce + sum (map (sample page) (seq 1 (Z.to_nat ((len page - 1) / 200))))).

Lemma page_checksum_reference nonce page :
  is_u32 nonce -> page_checksum nonce page = checksum_reference nonce page.
Proof.
  intros Hn. unfold page_checksum, checksum_reference.
  destruct page as [|b0 page']; [cbn; unfold wrap; rewrite Z.add_0_r, Z.mod_small; unfold is_u32 in Hn; [done|lia]|].
  set (page := b0 :: page') in *.
  assert (1 <= len page) by (unfold page; rewrite len_cons; pose proof (len_nonneg page'); lia).
  pose proof (Z.div_mod (len page - 1) 200 ltac:(lia)).
  pose proof (Z.mod_pos_bound (len page - 1) 200 ltac:(lia)).
  assert (0 <= (len page - 1) / 200) by (apply Z.div_pos; lia).
  apply (checksum_loop_spec page _ (length page) 1 nonce); [|done|lia|lia|lia].
  change (length page) with (length page). unfold len in *. lia.
Qed.

Lemma page_checksum_u32 nonce page : is_u32 nonce -> is_u32 (page_checksum nonce page).
Proof.
  intros. rewrite page_checksum_reference by done. unfold checksum_reference, is_u32, wrap.
  apply Z.mod_pos_bound. lia.
Qed.

(** ** The journal file as a header region and a list of records *)

Definition region (h : JournalHeader) : list Z :=
  serialize h JOURNAL_MAGIC ++ zeros (jh_sector_size h - JOURNAL_HEADER_LEN).

Definition records_bytes (h : JournalHeader) (recs : list (Z * list Z)) : list Z :=
  concat (map (fun '(pn, data) => record_bytes (jh_nonce h) pn data) recs).

Definition image (h : JournalHeader) (recs : list (Z * list Z)) : list Z :=
  region h ++ records_bytes h recs.

Definition wf_record (ps : Z) (r : Z * list Z) : Prop := is_u32 (fst r) /\ len (snd r) = ps.

(** The write of every record to the main file, in order. *)
Definition restore (ps : Z) (recs : list (Z * list Z)) (d : Disk) : Disk :=
  fold_left (fun d '(pn, data) => file_write_at d DbFile data (page_offset ps pn)) recs d.

Section Image.
Context (h : JournalHeader).
Context (Hwf : wf_header h) (Hsec : JOURNAL_HEADER_LEN <= jh_sector_size h)
  (Hps : jh_page_size h <= 65536).

Lemma len_region : len (region h) = jh_sector_size h.
Proof.
  unfold region. rewrite len_app, len_serialize by done. rewrite len_zeros by lia. lia.
Qed.

Lemma record_len_eq : record_len (jh_page_size h) = jh_page_size h + 8.
Proof. destruct Hwf as (_ & _ & _ & _ & H5). unfold record_len. sat. lia. Qed.

Lemma len_record_bytes nonce pn data :
  len data = jh_page_size h -> len (record_bytes nonce pn data) = jh_page_size h + 8.
Proof. intros E. unfold record_bytes. rewrite !len_app, !len_be_encode, E. lia. Qed.

Lemma len_records_bytes recs :
  Forall (wf_record (jh_page_size h)) recs ->
  len (records_bytes h recs) = len recs * (jh_page_size h + 8).
Proof.
  unfold records_bytes. induction 1 as [|[pn data] recs [_ Hl] _ IH]; [done|].
  cbn [map concat]. rewrite len_app, len_cons, IH, (len_record_bytes _ _ _ Hl). lia.
Qed.

Lemma record_offset i :
  0 <= i <= U32_MAX ->
  sat_add (jh_sector_size h) (sat_mul i (record_len (jh_page_size h))) =
    jh_sector_size h + i * (jh_page_size h + 8) /\
  jh_sector_size h + i * (jh_page_size h + 8) + (jh_page_size h + 8) <= U64_MAX.
Proof.
  intros Hi. rewrite record_len_eq. destruct Hwf as (_ & _ & _ & H4 & H5).
  assert (i * (jh_page_size h + 8) <= 4294967295 * (65536 + 8)) by (sat; nia).
  assert (0 <= i * (jh_page_size h + 8)) by (sat; nia). sat. lia.
Qed.

Lemma read_record_image l1 pn data l2 tail :
  Forall (wf_record (jh_page_size h)) (l1 ++ (pn, data) :: l2) -> len l1 <= U32_MAX ->
  read_record (image h (l1 ++ (pn, data) :: l2) ++ tail) h (len l1) = Some (pn, data).
Proof.
  intros [F1 [[Hpn Hl] F2]%Forall_cons_iff]%Forall_app Hi. cbn [fst snd] in *.
  pose proof (len_nonneg l1). destruct (record_offset (len l1)) as [Ho Hb]; [lia|].
  unfold read_record. cbv zeta. rewrite Ho, record_len_eq.
  destruct Hwf as (_ & Hn & _ & H4 & H5). unfold is_u32 in H4, H5, Hpn.
  rewrite (sat_add_small _ _ Hb), (sat_add_small 4) by (unfold U64_MAX; lia).
  assert (image h (l1 ++ (pn, data) :: l2) ++ tail =
    (region h ++ records_bytes h l1) ++ record_bytes (jh_nonce h) pn data ++ (records_bytes h l2 ++ tail)) as ->.
  { unfold image, records_bytes. rewrite map_app, concat_app. cbn [map concat].
    by rewrite <- !app_assoc. }
  rewrite get_range_app3.
  2:{ rewrite len_app, len_region, len_records_bytes by done. lia. }
  2:{ rewrite len_app, len_region, len_records_bytes, (len_record_bytes _ _ _ Hl) by done. lia. }
  cbn [mbind option_bind]. unfold record_bytes.
  rewrite get_range_app_prefix by (by rewrite len_be_encode). cbn [mbind option_bind].
  rewrite get_range_app3 by (rewrite len_be_encode; lia). cbn [mbind option_bind].
  replace (4 + jh_page_size h) with (len (be_encode 4 pn ++ data)) by (rewrite len_app, len_be_encode; lia).
  rewrite app_assoc, get_from_app. cbn [mbind option_bind].
  rewrite len_be_encode. replace (Z.of_nat 4 =? 4) with true by done. cbn [negb].
  pose proof (page_checksum_u32 (jh_nonce h) data Hn) as Hc. unfold is_u32 in Hc.
  rewrite !be_roundtrip by (change (2 ^ (8 * Z.of_nat 4)) with 4294967296; lia).
  cbn [negb]. by rewrite Z.eqb_refl.
Qed.

(** A journal that stops inside record [i]. *)
Lemma read_record_short bytes i :
  0 <= i <= U32_MAX -> len bytes < jh_sector_size h + i * (jh_page_size h + 8) + (jh_page_size h + 8) ->
  read_record bytes h i = None.
Proof.
  intros Hi Hlen. destruct (record_offset i Hi) as [Ho Hb]. unfold read_record. cbv zeta. rewrite Ho, record_len_eq.
  destruct Hwf as (_ & _ & _ & H4 & H5). unfold is_u32 in H4, H5. rewrite (sat_add_small _ _ Hb).
  assert (0 <= i * (jh_page_size h + 8)) by nia. by rewrite get_range_None by lia.
Qed.

Lemma read_record_end recs tail :
  Forall (wf_record (jh_page_size h)) recs -> len recs <= U32_MAX -> len tail < jh_page_size h + 8 ->
  read_record (image h recs ++ tail) h (len recs) = None.
Proof.
  intros F Hi Ht. pose proof (len_nonneg recs). apply read_record_short; [lia|].
  unfold image. rewrite !len_app, len_region, len_records_bytes by done. lia.
Qed.

Lemma recover_loop_image l2 l1 n tail d :
  Forall (wf_record (jh_page_size h)) (l1 ++ l2) -> len (l1 ++ l2) <= U32_MAX ->
  (length l2 <= n)%nat -> (length l2 = n \/ len tail < jh_page_size h + 8) ->
  recover_loop n (len l1) (image h (l1 ++ l2) ++ tail) h d = (Ok tt, restore (jh_page_size h) l2 d).
Proof.
  revert l1 n d. induction l2 as [|[pn data] l2 IH]; intros l1 n d F Hlen Hn Ht; destruct n as [|n]; cbn [length] in *; try lia.
  - done.
  - destruct Ht as [?|Ht]; [lia|]. cbn [recover_loop]. rewrite app_nil_r in *. by rewrite read_record_end by done.
  - cbn [recover_loop]. rewrite len_app, len_cons in Hlen. pose proof (len_nonneg l2).
    rewrite read_record_image by (done || lia). cbv zeta.
    erewrite M_bind_ok by reflexivity. cbn [restore fold_left].
    replace (len l1 + 1) with (len (l1 ++ [(pn, data)])) by (by rewrite len_app).
    replace (l1 ++ (pn, data) :: l2) with ((l1 ++ [(pn, data)]) ++ l2) in * by (by rewrite <- app_assoc).
    apply (IH (l1 ++ [(pn, data)]) n); [done| |lia|].
    + rewrite len_app, len_app, len_cons, len_nil. lia.
    + destruct Ht; [left; lia|by right].
Qed.

(** Recovery replays exactly the records the journal holds: all [n_rec] of
    them whatever follows, or, when the journal stops inside or before a
    record, the complete ones. *)
Lemma recover_image recs tail d :
  Forall (wf_record (jh_page_size h)) recs -> len recs <= n_rec h ->
  (len recs = n_rec h \/ len tail < jh_page_size h + 8) ->
  recover (image h recs ++ tail) d =
    (Ok (MkRecovered (initial_page_count h) (jh_page_size h)), restore (jh_page_size h) recs d).
Proof.
  intros F Hn Ht. unfold recover. pose proof Hwf as (H1 & _).
  assert (parse (image h recs ++ tail) = Ok h) as ->.
  { unfold image, region. rewrite <- !app_assoc. by apply parse_serialize. }
  erewrite M_bind_ok by reflexivity.
  erewrite M_bind_ok; [reflexivity|].
  apply (recover_loop_image recs [] (Z.to_nat (n_rec h)) tail d); [done| | |]; cbn [app].
  - unfold is_u32 in H1. sat. lia.
  - unfold len in *. lia.
  - destruct Ht; [left; unfold len in *; lia|by right].
Qed.

(** A header region cut after the header: no record is there. *)
Lemma recover_cut_region m d :
  JOURNAL_HEADER_LEN <= Z.of_nat m ->
  recover (take m (region h)) d = (Ok (MkRecovered (initial_page_count h) (jh_page_size h)), d).
Proof.
  intros Hm. unfold recover. pose proof (len_serialize h JOURNAL_MAGIC eq_refl) as Hl.
  assert (parse (take m (region h)) = Ok h) as ->.
  { unfold region. rewrite take_app_ge by (unfold len in *; lia). by apply parse_serialize. }
  erewrite M_bind_ok by reflexivity. erewrite M_bind_ok; [reflexivity|].
  destruct (Z.to_nat (n_rec h)) as [|n]; [done|]. cbn [recover_loop]. rewrite read_record_short; [done|unfold U32_MAX; lia|].
  pose proof len_region as Hr. destruct Hwf as (_ & _ & _ & _ & H5). unfold is_u32 in H5. unfold len in *. rewrite length_take. lia.
Qed.

End Image.

(** A journal without a whole header. *)
Lemma recover_short bytes d : len bytes < JOURNAL_HEADER_LEN -> recover bytes d = (Err (HeaderTooShort (len bytes)), d).
Proof.
  intros Hl. unfold recover, parse. rewrite get_range_None by (unfold JOURNAL_HEADER_LEN in *; lia). done.
Qed.

(** ** The writer lays the image down record by record *)

Lemma write_at_end data buf : len data + len buf <= U64_MAX -> write_at data buf (len data) = data ++ buf.
Proof.
  intros Hm. pose proof (len_nonneg data). pose proof (len_nonneg buf).
  unfold write_at. rewrite sat_add_small by done.
  set (d := if _ <? _ then _ else _).
  assert (take (Z.to_nat (len data)) d = data /\ len d = len data + len buf) as [-> Hd].
  { unfold d. destruct (Z.ltb_spec (len data) (len data + len buf)).
    - rewrite take_resize_zero, len_resize_zero by lia. split; [|lia].
      apply take_ge. unfold len. lia.
    - split; [|lia]. apply take_ge. unfold len. lia. }
  rewrite (drop_ge d) by (unfold len in *; lia). by rewrite app_nil_r.
Qed.

Section Writer.
Context (h : JournalHeader).
Context (Hwf : wf_header h) (Hsec : JOURNAL_HEADER_LEN <= jh_sector_size h)
  (Hps : jh_page_size h <= 65536).

Definition writer_of : JournalWriter :=
  MkJournalWriter (jh_page_size h) (jh_sector_size h) (jh_nonce h).

Definition create_ops : list IoOp := [IoCreate JournalFile; IoWrite JournalFile (region h) 0].

Definition record_op (i : Z) (r : Z * list Z) : IoOp :=
  IoWrite JournalFile (record_bytes (jh_nonce h) (fst r) (snd r))
    (sat_add (jh_sector_size h) (sat_mul i (record_len (jh_page_size h)))).

Lemma create_spec d :
  create (jh_page_size h) (jh_sector_size h) (initial_page_count h) (n_rec h) (jh_nonce h) d =
    (Ok writer_of, fold_left perform create_ops d).
Proof.
  unfold create. erewrite M_bind_ok by reflexivity. cbv zeta.
  assert (MkJournalHeader (n_rec h) (jh_nonce h) (initial_page_count h) (jh_sector_size h) (jh_page_size h) = h)
    as -> by (by destruct h).
  pose proof (set_range_Some (zeros (jh_sector_size h)) 0 (serialize h JOURNAL_MAGIC)) as Hs.
  rewrite len_serialize in Hs by done. unfold JOURNAL_HEADER_LEN in *.
  rewrite len_zeros in Hs by lia. specialize (Hs ltac:(lia) ltac:(lia)).
  cbn [Z.to_nat take app] in Hs.
  assert (drop (Z.to_nat (0 + 28)) (zeros (jh_sector_size h)) = zeros (jh_sector_size h - 28)) as Hd.
  { unfold zeros. rewrite drop_replicate. f_equal. lia. }
  rewrite Hd in Hs. rewrite Hs. erewrite M_bind_ok by reflexivity.
  erewrite M_bind_ok by reflexivity. done.
Qed.

Lemma replay_create_ops fs :
  fs !! JournalFile = None -> replay fs create_ops = <[JournalFile := image h []]> fs.
Proof.
  intros Hn. unfold create_ops, replay. cbn [fold_left apply_op]. rewrite Hn.
  rewrite alter_insert_eq. f_equal. unfold image, records_bytes. cbn [map concat].
  rewrite app_nil_r. apply (write_at_end [] (region h)).
  rewrite len_region by done. destruct Hwf as (_ & _ & _ & H4 & _). unfold is_u32 in H4.
  rewrite len_nil. unfold U64_MAX. lia.
Qed.

(** A write at the place of the next record appends to the journal. *)
Lemma apply_journal_write fs l1 buf :
  fs !! JournalFile = Some (image h l1) -> Forall (wf_record (jh_page_size h)) l1 ->
  len l1 < U32_MAX -> len buf <= jh_page_size h + 8 ->
  apply_op fs (IoWrite JournalFile buf (sat_add (jh_sector_size h) (sat_mul (len l1) (record_len (jh_page_size h))))) =
    <[JournalFile := image h l1 ++ buf]> fs.
Proof.
  intros Hf F1 Hlen Hbuf. pose proof (len_nonneg l1). destruct (record_offset h Hwf Hps (len l1)) as [Ho Hb]; [lia|].
  cbn [apply_op]. rewrite Ho. rewrite <- (insert_id fs JournalFile (image h l1) Hf) at 1. rewrite alter_insert_eq. f_equal.
  assert (len (image h l1) = jh_sector_size h + len l1 * (jh_page_size h + 8)) as Hl
    by (unfold image; by rewrite len_app, len_region, len_records_bytes).
  rewrite <- Hl. apply write_at_end. lia.
Qed.

Lemma image_snoc l1 pn data : image h (l1 ++ [(pn, data)]) = image h l1 ++ record_bytes (jh_nonce h) pn data.
Proof. unfold image, records_bytes. rewrite map_app, concat_app. cbn [map concat]. by rewrite app_nil_r, app_assoc. Qed.

Lemma apply_record_op fs l1 r :
  fs !! JournalFile = Some (image h l1) -> Forall (wf_record (jh_page_size h)) (l1 ++ [r]) ->
  len l1 < U32_MAX ->
  apply_op fs (record_op (len l1) r) = <[JournalFile := image h (l1 ++ [r])]> fs.
Proof.
  intros Hf [F1 [[Hpn Hl] _]%Forall_cons_iff]%Forall_app Hlen. destruct r as [pn data]. rewrite image_snoc.
  apply apply_journal_write; [done|done|done|]. cbn [fst snd] in *. rewrite (len_record_bytes h) by done. lia.
Qed.

(** The operations that write the records of [l2] after those of [l1]. *)
Fixpoint record_ops (i : Z) (l : list (Z * list Z)) : list IoOp :=
  match l with
  | [] => []
  | r :: l => record_op i r :: record_ops (i + 1) l
  end.

Lemma length_record_ops i l : length (record_ops i l) = length l.
Proof. revert i. induction l; intros; cbn [record_ops length]; [done|by f_equal]. Qed.

Lemma record_ops_lookup i l j : record_ops i l !! j = record_op (i + Z.of_nat j) <$> l !! j.
Proof.
  revert i j. induction l as [|r l IH]; intros i [|j]; cbn [record_ops lookup list_lookup]; try done.
  - cbn. by rewrite Z.add_0_r.
  - rewrite IH. do 2 f_equal. lia.
Qed.

(** After any number of record writes the journal is the image of the records
    written so far. *)
Lemma replay_record_ops l2 l1 fs k :
  fs !! JournalFile = Some (image h l1) ->
  Forall (wf_record (jh_page_size h)) (l1 ++ l2) -> len (l1 ++ l2) <= U32_MAX ->
  replay fs (take k (record_ops (len l1) l2)) = <[JournalFile := image h (l1 ++ take k l2)]> fs.
Proof.
  revert l1 fs k. induction l2 as [|r l2 IH]; intros l1 fs k Hf F Hlen.
  { cbn [record_ops]. rewrite !take_nil, app_nil_r. by rewrite insert_id. }
  destruct k as [|k]; cbn [record_ops take]. { rewrite app_nil_r. by rewrite insert_id. }
  rewrite len_app, len_cons in Hlen. pose proof (len_nonneg l2).
  change (replay fs (?a :: ?b)) with (replay (apply_op fs a) b).
  assert (l1 ++ r :: l2 = (l1 ++ [r]) ++ l2) as E by (by rewrite <- app_assoc).
  rewrite E in F. rewrite apply_record_op; [|done|by apply Forall_app in F as [? _]|lia].
  replace (len l1 + 1) with (len (l1 ++ [r])) by (by rewrite len_app).
  rewrite IH; [|by rewrite lookup_insert_eq|done|rewrite len_app, len_app, len_cons, len_nil; lia].
  rewrite insert_insert_eq. by rewrite <- app_assoc.
Qed.

End Writer.

(** ** What replaying the records does to the main file *)

Definition restore_db (ps : Z) (recs : list (Z * list Z)) (data : list Z) : list Z :=
  fold_left (fun data '(pn, bytes) => write_at data bytes (page_offset ps pn)) recs data.

Lemma restore_files ps recs d data :
  files d !! DbFile = Some data ->
  files (restore ps recs d) = <[DbFile := restore_db ps recs data]> (files d).
Proof.
  revert d data. induction recs as [|[pn b] recs IH]; intros d data Hd; cbn [restore restore_db fold_left].
  { by rewrite insert_id. }
  fold (restore ps recs (file_write_at d DbFile b (page_offset ps pn))).
  rewrite (IH _ (write_at data b (page_offset ps pn))).
  - cbn. rewrite <- (insert_id (files d) DbFile data Hd) at 1.
    by rewrite alter_insert_eq, !insert_insert_eq.
  - cbn. by rewrite lookup_alter_eq, Hd.
Qed.

(** Pre-images of a file [D] of [cnt] pages, replayed over any contents that
    agrees with [D] on the other pages, and truncated: [D] again. *)
Lemma restore_db_pages ps cnt D recs : forall data,
  0 < ps <= 65536 -> 0 <= cnt <= U32_MAX -> len D = cnt * ps ->
  (forall n b, (n, b) ∈ recs -> 1 <= n <= cnt /\ page ps D n = Some b) ->
  (forall n, 1 <= n <= cnt -> n ∉ map fst recs -> page ps data n = page ps D n) ->
  forall n, 1 <= n <= cnt -> page ps (restore_db ps recs data) n = page ps D n.
Proof.
  induction recs as [|[m b] recs IH]; intros data Hps Hcnt HD Hrec Hag n Hn.
  { apply Hag; [done|]. cbn. by apply not_elem_of_nil. }
  cbn [restore_db fold_left]. fold (restore_db ps recs (write_at data b (page_offset ps m))).
  destruct (Hrec m b) as [Hm Hb]; [by left|].
  destruct (page_inv _ _ _ _ Hb) as [_ Hlb].
  apply IH; [done|done|done| | |done].
  - intros k c Hk. apply Hrec. by right.
  - intros k Hk Hnk. destruct (decide (k = m)) as [->|Hne].
    + rewrite page_write_eq by (done || (split; [done|sat; lia])). by rewrite Hb.
    + destruct (page_is_Some ps D k) as [c Hc]; [lia|lia|nia|]. rewrite Hc.
      apply page_write_ne; [split; [done|sat; lia]|congruence|done|].
      rewrite Hag; [done|done|]. cbn. rewrite not_elem_of_cons. done.
Qed.

Lemma restore_db_truncate ps cnt D recs data :
  0 < ps <= 65536 -> 0 <= cnt <= U32_MAX -> len D = cnt * ps ->
  (forall n b, (n, b) ∈ recs -> 1 <= n <= cnt /\ page ps D n = Some b) ->
  (forall n, 1 <= n <= cnt -> n ∉ map fst recs -> page ps data n = page ps D n) ->
  truncate (restore_db ps recs data) (cnt * ps) = D.
Proof.
  intros Hps Hcnt HD Hrec Hag.
  pose proof (restore_db_pages ps cnt D recs data Hps Hcnt HD Hrec Hag) as Hp.
  assert (cnt * ps <= len (restore_db ps recs data)) as Hlen.
  { destruct (decide (cnt = 0)) as [->|]; [apply len_nonneg|].
    destruct (page_is_Some ps D cnt) as [c Hc]; [lia|lia|nia|].
    rewrite <- Hp in Hc by lia. apply page_inv in Hc as [? _]. nia. }
  apply (pages_ext ps cnt); [lia|lia| |done|].
  - unfold truncate. apply len_resize_zero. nia.
  - intros n Hn. rewrite page_truncate by lia. by apply Hp.
Qed.

(** ** Properties *)

(** C21. Recovery undoes every partial write: take a main file of [cnt] pages
    with contents [D] and a journal holding the pre-images of some of its
    pages.  Whatever the main file holds now, as long as it agrees with [D]
    on the pages that are not in the journal (those in it may be torn, missing or
    overwritten, and pages past [cnt] may exist), replaying the journal and
    truncating to the recorded page count gives [D] back, byte for byte, and
    touches no other file.  Bytes after the last record are ignored. *)
Theorem recover_restores_preimages h recs tail d data D :
  wf_header h -> JOURNAL_HEADER_LEN <= jh_sector_size h -> 0 < jh_page_size h <= 65536 ->
  len recs = n_rec h -> len D = initial_page_count h * jh_page_size h ->
  (forall n b, (n, b) ∈ recs ->
     1 <= n <= initial_page_count h /\ page (jh_page_size h) D n = Some b) ->
  files d !! DbFile = Some data ->
  (forall n, 1 <= n <= initial_page_count h -> n ∉ map fst recs ->
     page (jh_page_size h) data n = page (jh_page_size h) D n) ->
  exists d' data',
    recover (image h recs ++ tail) d =
      (Ok (MkRecovered (initial_page_count h) (jh_page_size h)), d') /\
    files d' = <[DbFile := data']> (files d) /\
    truncate data' (initial_page_count h * jh_page_size h) = D.
Proof.
  intros Hwf Hsec Hps Hn HD Hrec Hdb Hag. pose proof Hwf as (_ & _ & Hcnt & _).
  assert (Forall (wf_record (jh_page_size h)) recs) as F.
  { apply Forall_forall. intros [n b] Hin. destruct (Hrec n b Hin) as [Hn1 Hp].
    apply page_inv in Hp as [_ Hl]. split; [|done]. cbn [fst]. unfold is_u32 in *. lia. }
  exists (restore (jh_page_size h) recs d), (restore_db (jh_page_size h) recs data).
  split; [|split].
  - apply recover_image; [done|done|lia|done|lia|by left].
  - by apply restore_files.
  - apply restore_db_truncate; [done|unfold is_u32, U32_MAX in *; lia|done|done|done].
Qed.

Definition sample_disk : Disk := MkDisk {[DbFile := replicate 512 7 ++ replicate 600 9]} [].
Definition sample_header : JournalHeader := MkJournalHeader 1 77 2 512 512.

Example recover_restores_preimages_witness :
  exists d' data',
    recover (image sample_header [(2, replicate 512 7)] ++ [1; 2; 3]) sample_disk =
      (Ok (MkRecovered (initial_page_count sample_header) (jh_page_size sample_header)), d') /\
    files d' = <[DbFile := data']> (files sample_disk) /\
    truncate data' (initial_page_count sample_header * jh_page_size sample_header) = replicate 1024 7.
Proof.
  apply (recover_restores_preimages sample_header [(2, replicate 512 7)] [1; 2; 3] sample_disk
    (replicate 512 7 ++ replicate 600 9) (replicate 1024 7)).
  - unfold wf_header, is_u32, sample_header; cbn; lia.
  - by vm_compute.
  - cbn; lia.
  - done.
  - by vm_compute.
  - intros n b Hin. apply list_elem_of_singleton in Hin as [= -> ->]. split; [cbn; lia|by vm_compute].
  - by vm_compute.
  - intros n Hn Hin. cbn in Hn. assert (n = 1 \/ n = 2) as [-> | ->] by lia; [by vm_compute|].
    destruct Hin. apply list_elem_of_singleton. done.
Defined.

(** The page checksum is the documented one: the salt plus the bytes at
    distance 200, 400, ... from the end of the page, index 0 excluded, modulo
    2^32, for pages of every length (the loop never stops early and
    never reads out of bounds). *)
Theorem page_checksum_samples nonce page :
  is_u32 nonce -> page_checksum nonce page = checksum_reference nonce page /\ is_u32 (page_checksum nonce page).
Proof. intros. split; [by apply page_checksum_reference|by apply page_checksum_u32]. Qed.

Example page_checksum_samples_witness :
  page_checksum 4294967290 (replicate 512 9) = checksum_reference 4294967290 (replicate 512 9) /\
  is_u32 (page_checksum 4294967290 (replicate 512 9)).
Proof. apply page_checksum_samples. unfold is_u32. lia. Defined.
