(* ===== verification/Wal.v ===== *)
(** * The write-ahead log ([src/pager/wal.rs])

    The header and frame formats with their chained checksum, the scan that
    finds the committed pages, and the writer that appends frames. *)

From stdpp Require Import prelude list numbers gmap.
From Stdlib Require Import ZArith Lia.
From S2P Require Import Prelude Vfs Header.

Local Open Scope Z_scope.

Definition HEADER_LEN : Z := 32.
Definition FRAME_HEADER_LEN : Z := 24.
Definition FORMAT_VERSION : Z := 3007000.
Definition MAGIC_NATIVE : Z := 931071618.
Definition MAGIC_BE : Z := 931071619.

(** The byte order of the host, which [u32::from_ne_bytes] depends on. *)
Class Host : Type := little_endian : bool.

Inductive WalError : Type :=
| HeaderTooShort (n : Z)
| InvalidMagic (magic : Z)
| InvalidPageSize (page_size : Z)
| HeaderChecksumMismatch (stored computed : Z * Z)
| WalVfs (source : VfsError).

#[global] Instance WalError_eq_dec : EqDecision WalError.
Proof. solve_decision. Defined.

Record WalHeader : Type := MkWalHeader {
  native_checksum : bool;
  page_size : Z;
  salt1 : Z;
  salt2 : Z;
  format_version : Z;
  checkpoint_seq : Z;
  header_checksum : Z * Z }.

#[global] Instance WalHeader_eq_dec : EqDecision WalHeader.
Proof. solve_decision. Defined.

Definition read_u32 (buf : list Z) (offset : Z) : result WalError Z :=
  b ← ok_or (get_range buf offset (sat_add offset 4)) (HeaderTooShort (len buf));
  Ok (be_decode b).

Section Model.
Context `{host : Host}.

Definition read_word (native : bool) (b : list Z) : Z :=
  if native then (if little_endian then le_decode b else be_decode b) else be_decode b.

Fixpoint checksum (native : bool) (data : list Z) (init : Z * Z) : Z * Z :=
  match data with
  | b0 :: b1 :: b2 :: b3 :: b4 :: b5 :: b6 :: b7 :: rest =>
    let w0 := read_word native [b0; b1; b2; b3] in
    let w1 := read_word native [b4; b5; b6; b7] in
    let s1 := wrap 32 (wrap 32 (init.1 + w0) + init.2) in
    let s2 := wrap 32 (wrap 32 (init.2 + w1) + s1) in
    checksum native rest (s1, s2)
  | _ => init
  end.

Definition parse (bytes : list Z) : result WalError WalHeader :=
  if len bytes <? HEADER_LEN then Err (HeaderTooShort (len bytes)) else
  magic ← read_u32 bytes 0;
  native ← (if magic =? MAGIC_NATIVE then Ok true
            else if magic =? MAGIC_BE then Ok false else Err (InvalidMagic magic));
  page_size ← read_u32 bytes 8;
  if (page_size <? 512) || negb (is_power_of_two page_size) || (65536 <? page_size) then Err (InvalidPageSize page_size) else
  format_version ← read_u32 bytes 4;
  checkpoint_seq ← read_u32 bytes 12;
  salt1 ← read_u32 bytes 16;
  salt2 ← read_u32 bytes 20;
  s1 ← read_u32 bytes 24;
  s2 ← read_u32 bytes 28;
  let stored := (s1, s2) in
  checksummed ← ok_or (get_range bytes 0 24) (HeaderTooShort (len bytes));
  let computed := checksum native checksummed (0, 0) in
  if negb (bool_decide (computed = stored)) then Err (HeaderChecksumMismatch stored computed)
  else Ok (MkWalHeader native page_size salt1 salt2 format_version checkpoint_seq stored).

Definition serialize (h : WalHeader) : list Z :=
  let magic := if native_checksum h then MAGIC_NATIVE else MAGIC_BE in
  be_encode 4 magic ++ be_encode 4 (format_version h) ++ be_encode 4 (page_size h) ++
  be_encode 4 (checkpoint_seq h) ++ be_encode 4 (salt1 h) ++ be_encode 4 (salt2 h) ++
  be_encode 4 (header_checksum h).1 ++ be_encode 4 (header_checksum h).2.

Definition new (native : bool) (page_size salt1 salt2 checkpoint_seq : Z) : WalHeader :=
  let header := MkWalHeader native page_size salt1 salt2 FORMAT_VERSION checkpoint_seq (0, 0) in
  let checksummed := take 24 (serialize header) in
  MkWalHeader native page_size salt1 salt2 FORMAT_VERSION checkpoint_seq
    (checksum native checksummed (0, 0)).

Definition read_u32_opt (buf : list Z) (offset : Z) : option Z :=
  end_ ← checked_add offset 4;
  b ← get_range buf offset end_;
  Some (be_decode b).

Definition frame_size (h : WalHeader) : Z := sat_add FRAME_HEADER_LEN (page_size h).

Record Frame : Type := MkFrame { fr_page : Z; fr_db_size : Z; fr_content : list Z }.

(** The checks of one iteration of either frame walk: the frame at [offset] and
    the running checksum after it, when it is whole, carries the header's salts
    and its checksum verifies. *)
Definition frame_at (h : WalHeader) (wal_bytes : list Z) (offset : Z) (running : Z * Z)
  : option (Frame * (Z * Z)) :=
  if len wal_bytes <? sat_add offset (frame_size h) then None else
  fh ← get_range wal_bytes offset (sat_add offset FRAME_HEADER_LEN);
  page_number ← read_u32_opt fh 0;
  db_size ← read_u32_opt fh 4;
  s1 ← read_u32_opt fh 8;
  s2 ← read_u32_opt fh 12;
  c1 ← read_u32_opt fh 16;
  c2 ← read_u32_opt fh 20;
  if negb (s1 =? salt1 h) || negb (s2 =? salt2 h) then None else
  page_content ← get_range wal_bytes (sat_add offset FRAME_HEADER_LEN) (sat_add offset (frame_size h));
  fh_header_bytes ← get_range fh 0 8;
  let after_frame_header := checksum (native_checksum h) fh_header_bytes running in
  let after_page := checksum (native_checksum h) page_content after_frame_header in
  if negb (bool_decide (after_page = (c1, c2))) then None
  else Some (MkFrame page_number db_size page_content, after_page).

(** The scan state of [committed_pages]: the live page map, the undo log since
    the last commit frame, and the last committed size. *)
Record Scan : Type := MkScan {
  sc_pages : gmap Z (list Z);
  sc_undo : list (Z * option (list Z));
  sc_db_size : Z }.

Definition committed_step (s : Scan) (f : Frame) : Scan :=
  let pre_image := sc_pages s !! fr_page f in
  let pages := <[fr_page f := fr_content f]> (sc_pages s) in
  let undo := sc_undo s ++ [(fr_page f, pre_image)] in
  if negb (fr_db_size f =? 0) then MkScan pages [] (fr_db_size f)
  else MkScan pages undo (sc_db_size s).

Fixpoint committed_loop (fuel : nat) (h : WalHeader) (wal_bytes : list Z) (offset : Z)
    (running : Z * Z) (s : Scan) : Scan :=
  match fuel with
  | O => s
  | S fuel =>
    match frame_at h wal_bytes offset running with
    | None => s
    | Some (f, running) =>
      committed_loop fuel h wal_bytes (sat_add offset (frame_size h)) running (committed_step s f)
    end
  end.

Definition unwind (pages : gmap Z (list Z)) (undo : list (Z * option (list Z))) : gmap Z (list Z) :=
  fold_left (fun pages '(n, pre_image) =>
      match pre_image with Some content => <[n := content]> pages | None => delete n pages end)
    (rev undo) pages.

Definition committed_pages (h : WalHeader) (wal_bytes : list Z) : gmap Z (list Z) * Z :=
  let s := committed_loop (length wal_bytes) h wal_bytes HEADER_LEN (header_checksum h) (MkScan ∅ [] 0) in
  (unwind (sc_pages s) (sc_undo s), sc_db_size s).

Fixpoint last_valid_loop (fuel : nat) (h : WalHeader) (wal_bytes : list Z) (offset : Z)
    (running : Z * Z) : Z * (Z * Z) :=
  match fuel with
  | O => (offset, running)
  | S fuel =>
    match frame_at h wal_bytes offset running with
    | None => (offset, running)
    | Some (_, running) => last_valid_loop fuel h wal_bytes (sat_add offset (frame_size h)) running
    end
  end.

Definition last_valid_frame_state (h : WalHeader) (wal_bytes : list Z) : Z * (Z * Z) :=
  last_valid_loop (length wal_bytes) h wal_bytes HEADER_LEN (header_checksum h).

(** ** The writer *)

Record WalWriter : Type := MkWalWriter {
  ww_header : WalHeader;
  ww_running : Z * Z;
  ww_offset : Z;
  ww_pending_offset : option Z;
  ww_pending : list Z }.

Record WalResumeHint : Type := MkHint {
  hint_header : WalHeader;
  hint_offset : Z;
  hint_running : Z * Z;
  hint_expected_size : Z }.

Definition create (h : WalHeader) : M Disk WalError WalWriter :=
  _ ← modify (fun d => create_or_open_write d WalFile);
  _ ← modify (fun d => file_write_at d WalFile (serialize h) 0);
  mret (MkWalWriter h (header_checksum h) HEADER_LEN None []).

Definition append_frame (w : WalWriter) (page_num : Z) (page_data : list Z) (commit_db_size : Z)
  : WalWriter :=
  let h := ww_header w in
  let fh8 := be_encode 4 page_num ++ be_encode 4 commit_db_size in
  let after_header := checksum (native_checksum h) fh8 (ww_running w) in
  let after_page := checksum (native_checksum h) page_data after_header in
  let frame_header := fh8 ++ be_encode 4 (salt1 h) ++ be_encode 4 (salt2 h) ++
    be_encode 4 after_page.1 ++ be_encode 4 after_page.2 in
  let scratch := frame_header ++ page_data in
  let pending_offset := match ww_pending_offset w with None => Some (ww_offset w) | o => o end in
  MkWalWriter h after_page (sat_add (ww_offset w) (len scratch)) pending_offset
    (ww_pending w ++ scratch).

Definition sync (w : WalWriter) : M Disk WalError WalWriter :=
  w ← match ww_pending_offset w with
      | Some pending_offset =>
        _ ← modify (fun d => file_write_at d WalFile (ww_pending w) pending_offset);
        mret (MkWalWriter (ww_header w) (ww_running w) (ww_offset w) None [])
      | None => mret w
      end;
  _ ← modify (fun d => file_sync d WalFile);
  mret w.

Definition open_existing (psize : Z) (resume_hint : option WalResumeHint) : M Disk WalError WalWriter :=
  d ← get_st;
  file ← lift (map_err WalVfs (open_file d WalFile));
  let size := size file in
  let trusted := match resume_hint with
    | Some hint =>
      let header_bytes := read_at file HEADER_LEN 0 in
      let read_header := if len header_bytes =? HEADER_LEN
        then match parse header_bytes with Ok h => Some h | Err _ => None end else None in
      if (hint_expected_size hint =? size) && bool_decide (read_header = Some (hint_header hint))
      then Some hint else None
    | None => None
    end in
  match trusted with
  | Some hint => mret (MkWalWriter (hint_header hint) (hint_running hint) (hint_offset hint) None [])
  | None =>
    let bytes := read_at file size 0 in
    header ← lift (parse bytes);
    if negb (page_size header =? psize) then throw (InvalidPageSize (page_size header)) else
    let '(offset, running) := last_valid_frame_state header bytes in
    mret (MkWalWriter header running offset None [])
  end.

Definition resume_hint (w : WalWriter) : WalResumeHint :=
  MkHint (ww_header w) (ww_offset w) (ww_running w) (ww_offset w).

Definition frame_count (w : WalWriter) : Z :=
  let frame_size := Z.max (sat_add FRAME_HEADER_LEN (page_size (ww_header w))) 1 in
  wrap 32 (sat_sub (ww_offset w) HEADER_LEN / frame_size).

End Model.

(** ** Headers *)

Lemma read_u32_field fields rest i v o :
  fields !! i = Some v -> o = 4 * Z.of_nat i -> is_u32 v -> o < 1000 ->
  read_u32 (be32s fields ++ rest) o = Ok v.
Proof.
  intros Hi Ho Hv Hlt. unfold read_u32. rewrite sat_add_small by (unfold U64_MAX; lia).
  rewrite (be32s_range fields rest i v) by (done || lia). cbn [ok_or mbind result_bind].
  by rewrite be_roundtrip.
Qed.

Lemma read_u32_opt_field fields rest i v o :
  fields !! i = Some v -> o = 4 * Z.of_nat i -> is_u32 v -> o < 1000 ->
  read_u32_opt (be32s fields ++ rest) o = Some v.
Proof.
  intros Hi Ho Hv Hlt. unfold read_u32_opt, checked_add.
  rewrite (proj2 (Z.leb_le _ _)) by (unfold U64_MAX; lia). cbn [mbind option_bind].
  rewrite (be32s_range fields rest i v) by (done || lia). cbn [mbind option_bind].
  by rewrite be_roundtrip.
Qed.

Section Facts.
Context `{host : Host}.

Definition magic_of (h : WalHeader) : Z := if native_checksum h then MAGIC_NATIVE else MAGIC_BE.

Definition header_fields (h : WalHeader) : list Z :=
  [magic_of h; format_version h; page_size h; checkpoint_seq h; salt1 h; salt2 h].

Definition wf_header (h : WalHeader) : Prop :=
  valid_page_size (page_size h) /\ is_u32 (salt1 h) /\ is_u32 (salt2 h) /\
  is_u32 (format_version h) /\ is_u32 (checkpoint_seq h) /\
  header_checksum h = checksum (native_checksum h) (be32s (header_fields h)) (0, 0).

Lemma serialize_fields h :
  serialize h = be32s (header_fields h) ++ be32s [(header_checksum h).1; (header_checksum h).2].
Proof. unfold serialize, be32s, header_fields, magic_of. cbn [map concat]. by rewrite !app_nil_r, <- !app_assoc. Qed.

Lemma len_wal_header h : len (serialize h) = HEADER_LEN.
Proof. rewrite serialize_fields, len_app, !len_be32s. done. Qed.

Definition u32_pair (p : Z * Z) : Prop := is_u32 p.1 /\ is_u32 p.2.

Lemma wrap32_u32 z : is_u32 (wrap 32 z).
Proof. unfold is_u32, wrap. apply Z.mod_pos_bound. lia. Qed.

Lemma checksum_u32 native data init : u32_pair init -> u32_pair (checksum native data init).
Proof.
  revert init. induction data as [data IH] using (induction_ltof1 _ (@length Z)); intros init Hi.
  unfold ltof in IH.
  destruct data as [|b0 [|b1 [|b2 [|b3 [|b4 [|b5 [|b6 [|b7 rest]]]]]]]]; try done.
  cbn [checksum]. apply IH; [cbn; lia|]. split; apply wrap32_u32.
Qed.

Lemma magic_of_u32 h : is_u32 (magic_of h).
Proof. unfold magic_of. destruct (native_checksum h); unfold is_u32, MAGIC_NATIVE, MAGIC_BE; lia. Qed.

Lemma valid_page_size_test ps :
  valid_page_size ps -> (ps <? 512) || negb (is_power_of_two ps) || (65536 <? ps) = false.
Proof.
  intros [? ->]. rewrite (proj2 (Z.ltb_ge ps 512)), (proj2 (Z.ltb_ge 65536 ps)) by lia. done.
Qed.

Lemma valid_page_size_u32 ps : valid_page_size ps -> is_u32 ps.
Proof. intros [? _]. unfold is_u32. lia. Qed.

Lemma parse_wal_header h rest : wf_header h -> parse (serialize h ++ rest) = Ok h.
Proof.
  intros (Hps & Hs1 & Hs2 & Hf & Hc & Hck).
  pose proof (checksum_u32 (native_checksum h) (be32s (header_fields h)) (0, 0)) as Hu.
  destruct Hu as [Hu1 Hu2]; [split; unfold is_u32; cbn; lia|]. rewrite <- Hck in Hu1, Hu2.
  pose proof (valid_page_size_u32 _ Hps). pose proof (magic_of_u32 h).
  unfold parse. rewrite len_app, len_wal_header. pose proof (len_nonneg rest).
  rewrite (proj2 (Z.ltb_ge _ _)) by lia.
  assert (serialize h ++ rest = be32s (header_fields h ++ [(header_checksum h).1; (header_checksum h).2]) ++ rest) as E
    by (by rewrite serialize_fields, be32s_app).
  assert (get_range (serialize h ++ rest) 0 24 = Some (be32s (header_fields h))) as Hr.
  { rewrite serialize_fields, <- app_assoc. by apply get_range_app_prefix. }
  rewrite Hr. rewrite E.
  erewrite (read_u32_field _ rest 0 _ 0) by (first [reflexivity | eassumption | lia]). cbn [mbind result_bind].
  assert ((if magic_of h =? MAGIC_NATIVE then Ok true
            else if magic_of h =? MAGIC_BE then Ok false else Err (InvalidMagic (magic_of h)))
          = Ok (E := WalError) (native_checksum h)) as ->.
  { unfold magic_of. by destruct (native_checksum h). }
  cbn [mbind result_bind].
  erewrite (read_u32_field _ rest 2 _ 8) by (first [reflexivity | eassumption | lia]). cbn [mbind result_bind].
  rewrite valid_page_size_test by done.
  erewrite (read_u32_field _ rest 1 _ 4) by (first [reflexivity | eassumption | lia]). cbn [mbind result_bind].
  erewrite (read_u32_field _ rest 3 _ 12) by (first [reflexivity | eassumption | lia]). cbn [mbind result_bind].
  erewrite (read_u32_field _ rest 4 _ 16) by (first [reflexivity | eassumption | lia]). cbn [mbind result_bind].
  erewrite (read_u32_field _ rest 5 _ 20) by (first [reflexivity | eassumption | lia]). cbn [mbind result_bind].
  erewrite (read_u32_field _ rest 6 _ 24) by (first [reflexivity | eassumption | lia]). cbn [mbind result_bind].
  erewrite (read_u32_field _ rest 7 _ 28) by (first [reflexivity | eassumption | lia]). cbn [mbind result_bind ok_or].
  rewrite <- Hck, <- surjective_pairing, bool_decide_eq_true_2 by done. cbn [negb]. by destruct h.
Qed.

Lemma new_wf native ps s1 s2 seq :
  valid_page_size ps -> is_u32 s1 -> is_u32 s2 -> is_u32 seq -> wf_header (new native ps s1 s2 seq).
Proof.
  intros. split; [done|]. split; [done|]. split; [done|]. split; [unfold is_u32; cbn; unfold FORMAT_VERSION; lia|]. split; [done|].
  unfold new. cbv zeta. cbn [header_checksum native_checksum]. by f_equal.
Qed.

(** ** Frames as the writer lays them down *)

Definition wf_frame (h : WalHeader) (f : Frame) : Prop :=
  is_u32 (fr_page f) /\ is_u32 (fr_db_size f) /\ len (fr_content f) = page_size h.

Definition frame_checksum (h : WalHeader) (running : Z * Z) (f : Frame) : Z * Z :=
  checksum (native_checksum h) (fr_content f)
    (checksum (native_checksum h) (be32s [fr_page f; fr_db_size f]) running).

Definition frame_bytes (h : WalHeader) (running : Z * Z) (f : Frame) : list Z :=
  let c := frame_checksum h running f in
  be32s [fr_page f; fr_db_size f; salt1 h; salt2 h; c.1; c.2] ++ fr_content f.

Definition chain (h : WalHeader) (running : Z * Z) (fs : list Frame) : Z * Z :=
  fold_left (frame_checksum h) fs running.

Fixpoint frames_bytes (h : WalHeader) (running : Z * Z) (fs : list Frame) : list Z :=
  match fs with
  | [] => []
  | f :: fs => frame_bytes h running f ++ frames_bytes h (frame_checksum h running f) fs
  end.

Definition wal_image (h : WalHeader) (fs : list Frame) : list Z :=
  serialize h ++ frames_bytes h (header_checksum h) fs.

Lemma frames_bytes_app h fs1 : forall running fs2,
  frames_bytes h running (fs1 ++ fs2) =
    frames_bytes h running fs1 ++ frames_bytes h (chain h running fs1) fs2.
Proof.
  induction fs1 as [|f fs1 IH]; intros; [done|].
  cbn [app frames_bytes]. rewrite IH. by rewrite app_assoc.
Qed.

Lemma wal_image_app h fs1 fs2 :
  wal_image h (fs1 ++ fs2) = wal_image h fs1 ++ frames_bytes h (chain h (header_checksum h) fs1) fs2.
Proof. unfold wal_image. by rewrite frames_bytes_app, app_assoc. Qed.

Lemma chain_u32 h fs : forall running, u32_pair running -> u32_pair (chain h running fs).
Proof.
  induction fs as [|f fs IH]; intros running Hr; [done|].
  cbn [chain fold_left]. apply IH. by repeat apply checksum_u32.
Qed.

Lemma header_checksum_u32 h : wf_header h -> u32_pair (header_checksum h).
Proof. intros (_ & _ & _ & _ & _ & ->). apply checksum_u32. split; unfold is_u32; cbn; lia. Qed.

Lemma frame_size_eq h : wf_header h -> frame_size h = 24 + page_size h.
Proof.
  intros [[? _] _]. unfold frame_size, FRAME_HEADER_LEN. apply sat_add_small. unfold U64_MAX. lia.
Qed.

Lemma len_frame_bytes h running f : wf_frame h f -> len (frame_bytes h running f) = 24 + page_size h.
Proof.
  intros (_ & _ & Hl). unfold frame_bytes. cbv zeta. rewrite len_app, len_be32s, Hl. done.
Qed.

Lemma len_frames_bytes h fs : forall running,
  Forall (wf_frame h) fs -> len (frames_bytes h running fs) = len fs * (24 + page_size h).
Proof.
  induction fs as [|f fs IH]; intros running F; [done|]. apply Forall_cons_iff in F as [Hf F].
  cbn [frames_bytes]. rewrite len_app, len_cons, len_frame_bytes, IH by done. lia.
Qed.

Lemma len_wal_image h fs :
  Forall (wf_frame h) fs -> len (wal_image h fs) = 32 + len fs * (24 + page_size h).
Proof. intros. unfold wal_image. rewrite len_app, len_wal_header, len_frames_bytes by done. done. Qed.

(** ** Reading one frame *)

Lemma frame_at_image h pre f post running :
  wf_header h -> wf_frame h f -> u32_pair running ->
  len pre + (24 + page_size h) <= U64_MAX ->
  frame_at h (pre ++ frame_bytes h running f ++ post) (len pre) running =
    Some (f, frame_checksum h running f).
Proof.
  intros Hh Hf Hr Hfit. pose proof (len_nonneg pre). pose proof (len_nonneg post).
  pose proof Hh as ((Hps & _) & Hs1 & Hs2 & _). pose proof Hf as (Hp & Hd & Hl).
  assert (u32_pair (frame_checksum h running f)) as [Hc1 Hc2] by (by repeat apply checksum_u32).
  unfold frame_at. rewrite frame_size_eq by done. rewrite !sat_add_small by (unfold FRAME_HEADER_LEN; lia).
  rewrite !len_app, len_frame_bytes by done. rewrite (proj2 (Z.ltb_ge _ _)) by lia.
  unfold frame_bytes. cbv zeta. set (c := frame_checksum h running f) in *.
  set (fields := [fr_page f; fr_db_size f; salt1 h; salt2 h; c.1; c.2]).
  assert (len (be32s fields) = 24) as Lf by (by rewrite len_be32s).
  assert (get_range (pre ++ (be32s fields ++ fr_content f) ++ post) (len pre) (len pre + FRAME_HEADER_LEN)
    = Some (be32s fields)) as ->.
  { rewrite <- app_assoc. apply get_range_app3; unfold FRAME_HEADER_LEN; lia. }
  assert (get_range (pre ++ (be32s fields ++ fr_content f) ++ post) (len pre + FRAME_HEADER_LEN)
    (len pre + (24 + page_size h)) = Some (fr_content f)) as ->.
  { rewrite <- app_assoc, app_assoc. apply get_range_app3; rewrite len_app; unfold FRAME_HEADER_LEN; lia. }
  assert (get_range (be32s fields) 0 8 = Some (be32s [fr_page f; fr_db_size f])) as H8.
  { change fields with ([fr_page f; fr_db_size f] ++ [salt1 h; salt2 h; c.1; c.2]).
    rewrite be32s_app. apply get_range_app_prefix. by rewrite len_be32s. }
  cbn [mbind option_bind].
  pose proof (fun i v o H1 H2 H3 H4 => read_u32_opt_field fields [] i v o H1 H2 H3 H4) as R. rewrite app_nil_r in R.
  rewrite (R 0%nat (fr_page f) 0), (R 1%nat (fr_db_size f) 4), (R 2%nat (salt1 h) 8), (R 3%nat (salt2 h) 12),
    (R 4%nat c.1 16), (R 5%nat c.2 20) by (first [reflexivity | assumption | lia]).
  cbn [mbind option_bind]. rewrite !Z.eqb_refl, H8. cbn [negb orb mbind option_bind].
  fold (frame_checksum h running f). fold c. rewrite bool_decide_eq_true_2 by (by destruct c).
  cbn [negb]. by destruct f.
Qed.

Lemma frame_at_short h bytes o running :
  len bytes < U64_MAX -> len bytes < o + frame_size h -> frame_at h bytes o running = None.
Proof.
  intros. unfold frame_at. rewrite (proj2 (Z.ltb_lt _ _)); [done|]. unfold sat_add. lia.
Qed.

(** ** Both walks visit the same frames *)

Fixpoint scan (fuel : nat) (h : WalHeader) (bytes : list Z) (offset : Z) (running : Z * Z) : list Frame :=
  match fuel with
  | O => []
  | S fuel =>
    match frame_at h bytes offset running with
    | None => []
    | Some (f, running) => f :: scan fuel h bytes (sat_add offset (frame_size h)) running
    end
  end.

Definition valid_frames (h : WalHeader) (bytes : list Z) : list Frame :=
  scan (length bytes) h bytes HEADER_LEN (header_checksum h).

Lemma committed_loop_scan h bytes fuel : forall o r s,
  committed_loop fuel h bytes o r s = fold_left committed_step (scan fuel h bytes o r) s.
Proof.
  induction fuel as [|fuel IH]; intros o r s; [done|]. cbn [committed_loop scan].
  destruct (frame_at h bytes o r) as [[f r']|]; [|done]. apply IH.
Qed.

Lemma scan_image h bytes tail : forall fs pre running fuel,
  wf_header h -> Forall (wf_frame h) fs -> u32_pair running ->
  bytes = pre ++ frames_bytes h running fs ++ tail -> len bytes < U64_MAX ->
  frame_at h bytes (len pre + len fs * (24 + page_size h)) (chain h running fs) = None ->
  (length fs < fuel)%nat ->
  scan fuel h bytes (len pre) running = fs /\
  last_valid_loop fuel h bytes (len pre) running =
    (len pre + len fs * (24 + page_size h), chain h running fs).
Proof.
  induction fs as [|f fs IH]; intros pre running fuel Hh F Hr Hb Hlen Hend Hfuel;
    (destruct fuel as [|fuel]; [lia|]); cbn [scan last_valid_loop].
  { cbn [chain fold_left] in *. rewrite (len_nil (A:=Frame)), Z.mul_0_l, Z.add_0_r in Hend |- *. by rewrite Hend. }
  apply Forall_cons_iff in F as [Hf F]. cbn [frames_bytes] in Hb.
  assert (len pre + (24 + page_size h) <= U64_MAX) as Hfit.
  { rewrite Hb, !len_app, len_frame_bytes in Hlen by done.
    pose proof (len_nonneg tail). pose proof (len_nonneg (frames_bytes h (frame_checksum h running f) fs)). lia. }
  rewrite <- app_assoc in Hb. rewrite Hb at 1 2. rewrite frame_at_image by done.
  rewrite frame_size_eq by done. rewrite sat_add_small by done.
  replace (len pre + (24 + page_size h)) with (len (pre ++ frame_bytes h running f))
    by (by rewrite len_app, len_frame_bytes).
  destruct (IH (pre ++ frame_bytes h running f) (frame_checksum h running f) fuel) as [E1 E2];
    [done|done|by repeat apply checksum_u32|by rewrite Hb, <- !app_assoc|done| |cbn in Hfuel; lia|].
  { rewrite len_app, len_frame_bytes by done. rewrite len_cons in Hend. cbn [chain fold_left] in Hend.
    rewrite <- Hend. f_equal. lia. }
  rewrite E1, E2. split; [done|]. rewrite len_app, len_frame_bytes, len_cons by done.
  cbn [chain fold_left]. f_equal. lia.
Qed.

(** ** What the scan publishes *)

Definition overlay_from (m : gmap Z (list Z)) (fs : list Frame) : gmap Z (list Z) :=
  fold_left (fun m f => <[fr_page f := fr_content f]> m) fs m.

Definition overlay (fs : list Frame) : gmap Z (list Z) := overlay_from ∅ fs.

Definition is_commit (f : Frame) : bool := negb (fr_db_size f =? 0).

(** The frames up to and including the last commit frame. *)
Fixpoint committed_frames (fs : list Frame) : list Frame :=
  match fs with
  | [] => []
  | f :: fs =>
    match committed_frames fs with
    | [] => if is_commit f then [f] else []
    | l => f :: l
    end
  end.

Definition committed_size (fs : list Frame) : Z :=
  match last (committed_frames fs) with Some f => fr_db_size f | None => 0 end.

Lemma committed_frames_commit fs f : is_commit f = true -> committed_frames (fs ++ [f]) = fs ++ [f].
Proof.
  intros Hc. induction fs as [|g fs IH]; cbn [app committed_frames]; [by rewrite Hc|].
  rewrite IH. by destruct fs.
Qed.

Lemma committed_frames_open fs us :
  Forall (fun f => is_commit f = false) us -> committed_frames (fs ++ us) = committed_frames fs.
Proof.
  intros Hu. induction fs as [|g fs IH]; cbn [app committed_frames]; [|by rewrite IH].
  induction Hu as [|u us Hu _ IHu]; [done|]. cbn [committed_frames]. by rewrite IHu, Hu.
Qed.

Lemma unwind_insert pages undo n c :
  unwind (<[n := c]> pages) (undo ++ [(n, pages !! n)]) = unwind pages undo.
Proof.
  unfold unwind. rewrite rev_app_distr. cbn [rev app fold_left]. f_equal.
  destruct (pages !! n) as [c0|] eqn:E; [by rewrite insert_insert_eq, insert_id|].
  by rewrite delete_insert_id.
Qed.

Lemma committed_steps fs :
  let s := fold_left committed_step fs (MkScan ∅ [] 0) in
  sc_pages s = overlay fs /\ unwind (sc_pages s) (sc_undo s) = overlay (committed_frames fs) /\
  sc_db_size s = committed_size fs.
Proof.
  induction fs as [|f fs (Hp & Hu & Hd)] using rev_ind; [done|]. cbv zeta in *.
  rewrite fold_left_app. cbn [fold_left].
  set (s := fold_left committed_step fs _) in *.
  assert (sc_pages (committed_step s f) = overlay (fs ++ [f])) as Hp'.
  { unfold overlay, overlay_from. rewrite fold_left_app. cbn [fold_left]. fold (overlay_from ∅ fs). fold (overlay fs).
    rewrite <- Hp. unfold committed_step. by destruct (negb _). }
  split; [done|]. unfold committed_size.
  destruct (is_commit f) eqn:Hc.
  - rewrite committed_frames_commit by done. rewrite last_snoc. unfold committed_step in *.
    unfold is_commit in Hc. rewrite Hc in *. cbn [sc_pages sc_undo sc_db_size] in *. by rewrite Hp'.
  - rewrite committed_frames_open by (by repeat constructor). unfold committed_step. unfold is_commit in Hc.
    rewrite Hc. cbn [sc_pages sc_undo sc_db_size]. by rewrite unwind_insert, Hu.
Qed.

Lemma committed_pages_frames h bytes :
  committed_pages h bytes =
    (overlay (committed_frames (valid_frames h bytes)), committed_size (valid_frames h bytes)).
Proof.
  unfold committed_pages. rewrite committed_loop_scan. fold (valid_frames h bytes).
  destruct (committed_steps (valid_frames h bytes)) as (_ & H2 & H3). cbv zeta in *. by rewrite H2, H3.
Qed.

(** Whatever follows a run of frames, if it does not parse as the next one, the
    scan stops there. *)
Lemma valid_frames_image h fs tail :
  wf_header h -> Forall (wf_frame h) fs -> len (wal_image h fs ++ tail) < U64_MAX ->
  frame_at h (wal_image h fs ++ tail) (len (wal_image h fs)) (chain h (header_checksum h) fs) = None ->
  valid_frames h (wal_image h fs ++ tail) = fs /\
  last_valid_frame_state h (wal_image h fs ++ tail) =
    (len (wal_image h fs), chain h (header_checksum h) fs).
Proof.
  intros Hh F Hlen Hend. unfold valid_frames, last_valid_frame_state. rewrite <- (len_wal_header h).
  rewrite len_wal_image in * by done.
  assert (length fs < length (wal_image h fs ++ tail))%nat as Hf.
  { rewrite length_app. pose proof (len_wal_image h fs F) as L. unfold len in L.
    destruct Hh as [[? _] _]. nia. }
  destruct (scan_image h (wal_image h fs ++ tail) tail fs (serialize h) (header_checksum h)
    (length (wal_image h fs ++ tail))) as [E1 E2]; try done.
  by apply header_checksum_u32.
Qed.

Lemma valid_frames_short h fs tail :
  wf_header h -> Forall (wf_frame h) fs -> len (wal_image h fs ++ tail) < U64_MAX ->
  len tail < 24 + page_size h ->
  valid_frames h (wal_image h fs ++ tail) = fs /\
  last_valid_frame_state h (wal_image h fs ++ tail) =
    (len (wal_image h fs), chain h (header_checksum h) fs).
Proof.
  intros Hh F Hlen Ht. apply valid_frames_image; [done|done|done|].
  apply frame_at_short; [done|]. rewrite frame_size_eq, len_app by done. lia.
Qed.

(** A cut through a run of frames leaves a shorter run and a partial frame. *)
Lemma take_frames h fs : forall running k,
  wf_header h -> Forall (wf_frame h) fs -> 0 <= k ->
  let n := Z.to_nat (k / (24 + page_size h)) in
  exists tail, take (Z.to_nat k) (frames_bytes h running fs) = frames_bytes h running (take n fs) ++ tail /\
    len tail < 24 + page_size h.
Proof.
  cbv zeta. induction fs as [|f fs IH]; intros running k Hh F Hk; pose proof Hh as [[Hps _] _].
  { exists []. cbn [frames_bytes]. rewrite !take_nil. cbn [frames_bytes]. split; [done|]. rewrite len_nil. lia. }
  apply Forall_cons_iff in F as [Hf F]. cbn [frames_bytes].
  pose proof (len_frame_bytes h running f Hf) as Lf.
  destruct (Z_lt_ge_dec k (24 + page_size h)) as [Hlt|Hge].
  - rewrite Z.div_small by lia. change (Z.to_nat 0) with 0%nat. rewrite take_0.
    exists (take (Z.to_nat k) (frame_bytes h running f ++ frames_bytes h (frame_checksum h running f) fs)).
    split; [done|]. unfold len in *. rewrite length_take. lia.
  - destruct (IH (frame_checksum h running f) (k - (24 + page_size h)) Hh F ltac:(lia)) as (tail & E & Ht).
    replace (k / (24 + page_size h)) with (1 + (k - (24 + page_size h)) / (24 + page_size h)).
    2:{ replace k with ((k - (24 + page_size h)) + 1 * (24 + page_size h)) at 2 by lia. rewrite Z.div_add by lia. lia. }
    assert (0 <= (k - (24 + page_size h)) / (24 + page_size h)) by (apply Z.div_pos; lia).
    rewrite Z2Nat.inj_add by lia. change (Z.to_nat 1) with 1%nat. cbn [Nat.add take frames_bytes].
    exists tail. split; [|done]. rewrite <- app_assoc, <- E.
    unfold len in Lf. rewrite take_app_ge by lia. do 2 f_equal. lia.
Qed.

(** ** The writer *)

(** The writer over a log of frames [fs] already in the file, with [pend]
    appended since the last [sync]. *)
Definition writer_for (h : WalHeader) (fs pend : list Frame) : WalWriter :=
  MkWalWriter h (chain h (header_checksum h) (fs ++ pend)) (len (wal_image h (fs ++ pend)))
    (match pend with [] => None | _ => Some (len (wal_image h fs)) end)
    (frames_bytes h (chain h (header_checksum h) fs) pend).

Lemma be32s_2 a b : be_encode 4 a ++ be_encode 4 b = be32s [a; b].
Proof. unfold be32s. cbn [map concat]. by rewrite app_nil_r. Qed.

Lemma append_frame_for h fs pend f :
  wf_frame h f -> len (wal_image h (fs ++ pend ++ [f])) <= U64_MAX ->
  append_frame (writer_for h fs pend) (fr_page f) (fr_content f) (fr_db_size f) =
    writer_for h fs (pend ++ [f]).
Proof.
  intros Hf Hfit. unfold append_frame. cbv zeta. cbn [ww_header ww_running ww_offset ww_pending_offset ww_pending writer_for].
  rewrite !be32s_2. unfold writer_for.
  set (r := chain h (header_checksum h) (fs ++ pend)).
  assert (chain h (header_checksum h) (fs ++ pend ++ [f]) = frame_checksum h r f) as Hr.
  { unfold r, chain. by rewrite app_assoc, fold_left_app. }
  fold (frame_checksum h r f).
  assert ((be32s [fr_page f; fr_db_size f] ++ be_encode 4 (salt1 h) ++ be_encode 4 (salt2 h) ++
      be32s [(frame_checksum h r f).1; (frame_checksum h r f).2]) ++ fr_content f = frame_bytes h r f) as Hfb.
  { unfold frame_bytes, be32s. cbv zeta. cbn [map concat]. by rewrite !app_nil_r, <- !app_assoc. }
  rewrite Hfb, Hr.
  assert (wal_image h (fs ++ pend ++ [f]) = wal_image h (fs ++ pend) ++ frame_bytes h r f) as Hi.
  { rewrite app_assoc, wal_image_app. cbn [frames_bytes]. fold r. by rewrite app_nil_r. }
  rewrite Hi, len_app in *. rewrite sat_add_small by done. f_equal.
  - by destruct pend; cbn [app]; [rewrite app_nil_r|].
  - rewrite frames_bytes_app. cbn [frames_bytes]. rewrite app_nil_r. f_equal.
    unfold r, chain. by rewrite fold_left_app.
Qed.

Definition append_frames (w : WalWriter) (fs : list Frame) : WalWriter :=
  fold_left (fun w f => append_frame w (fr_page f) (fr_content f) (fr_db_size f)) fs w.

Lemma append_frames_for h fs new : forall pend,
  Forall (wf_frame h) fs -> Forall (wf_frame h) pend -> Forall (wf_frame h) new ->
  0 <= page_size h ->
  len (wal_image h (fs ++ pend ++ new)) <= U64_MAX ->
  append_frames (writer_for h fs pend) new = writer_for h fs (pend ++ new).
Proof.
  induction new as [|f new IH]; intros pend F1 F2 F3 Hps Hfit; [by rewrite app_nil_r|].
  apply Forall_cons_iff in F3 as [Hf F3]. cbn [append_frames fold_left].
  assert (pend ++ f :: new = (pend ++ [f]) ++ new) as E by (by rewrite <- app_assoc).
  rewrite E in *. rewrite append_frame_for; [|done|].
  - apply IH; try done. apply Forall_app. split; [done|by constructor].
  - rewrite !len_wal_image, !len_app in * by (repeat (apply Forall_app; split); try done; by constructor).
    pose proof (len_nonneg new). nia.
Qed.

Lemma write_at_app l tail buf :
  len (l ++ buf) <= U64_MAX ->
  write_at (l ++ tail) buf (len l) = l ++ buf ++ drop (length buf) tail.
Proof.
  rewrite len_app. intros Hm. pose proof (len_nonneg l). pose proof (len_nonneg buf). unfold write_at.
  rewrite sat_add_small by done. rewrite len_app.
  replace (Z.to_nat (len l)) with (length l) by (unfold len; lia).
  replace (Z.to_nat (len l + len buf)) with (length l + length buf)%nat by (unfold len; lia).
  destruct (Z.ltb_spec (len l + len tail) (len l + len buf)) as [Hlt|Hge].
  - unfold resize_zero. rewrite len_app, (proj2 (Z.ltb_lt _ _)) by lia. rewrite <- app_assoc.
    rewrite take_app_length. do 2 f_equal. unfold len in *.
    rewrite !drop_ge; [done|lia|]. rewrite !length_app. unfold zeros. rewrite length_replicate. lia.
  - rewrite take_app_length. do 2 f_equal. rewrite drop_app_ge by lia. f_equal. lia.
Qed.

Lemma sync_for h fs pend d tail :
  files d !! WalFile = Some (wal_image h fs ++ tail) ->
  len (wal_image h (fs ++ pend)) <= U64_MAX ->
  exists d', sync (writer_for h fs pend) d = (Ok (writer_for h (fs ++ pend) []), d') /\
    files d' = <[WalFile := wal_image h (fs ++ pend) ++
      drop (length (frames_bytes h (chain h (header_checksum h) fs) pend)) tail]> (files d).
Proof.
  intros Hf Hfit. destruct pend as [|f pend].
  { rewrite app_nil_r. eexists. split.
    - unfold sync, writer_for. cbn [ww_pending_offset]. rewrite !app_nil_r.
      erewrite M_bind_ok by reflexivity. erewrite M_bind_ok by reflexivity. reflexivity.
    - cbn [frames_bytes length]. rewrite drop_0. cbn. by rewrite insert_id. }
  eexists. split.
  - unfold sync, writer_for. cbn [ww_pending_offset ww_header ww_running ww_offset ww_pending].
    erewrite M_bind_ok by (erewrite M_bind_ok by reflexivity; reflexivity).
    erewrite M_bind_ok by reflexivity. rewrite !app_nil_r. reflexivity.
  - unfold file_sync, file_write_at, perform. cbn [files apply_op].
    rewrite <- (insert_id (files d) WalFile _ Hf) at 1. rewrite alter_insert_eq. f_equal.
    rewrite wal_image_app in Hfit |- *. rewrite write_at_app by done. by rewrite app_assoc.
Qed.

Lemma open_existing_scan h fs tail d :
  wf_header h -> Forall (wf_frame h) fs -> len (wal_image h fs ++ tail) < U64_MAX ->
  frame_at h (wal_image h fs ++ tail) (len (wal_image h fs)) (chain h (header_checksum h) fs) = None ->
  files d !! WalFile = Some (wal_image h fs ++ tail) ->
  open_existing (page_size h) None d = (Ok (writer_for h fs []), d).
Proof.
  intros Hh F Hlen Hend Hf. unfold open_existing.
  erewrite M_bind_ok by reflexivity. unfold open_file. rewrite Hf. cbn [ok_or map_err].
  erewrite M_bind_ok by reflexivity. cbv zeta.
  assert (read_at (wal_image h fs ++ tail) (size (wal_image h fs ++ tail)) 0 = wal_image h fs ++ tail) as ->.
  { unfold size. pose proof (len_nonneg (wal_image h fs ++ tail)).
    apply (inj Some).
    rewrite read_at_range by lia. apply get_range_full. lia. }
  erewrite M_bind_ok.
  2:{ unfold wal_image, lift. rewrite <- app_assoc, parse_wal_header by done. reflexivity. }
  rewrite Z.eqb_refl. cbn [negb].
  destruct (valid_frames_image h fs tail Hh F Hlen Hend) as [_ ->].
  unfold writer_for. by rewrite !app_nil_r.
Qed.

(** A hint captured after [sync] and the rescan it avoids give the same writer,
    as long as the file is the one the hint describes. *)
Lemma open_existing_hint h fs d :
  wf_header h -> Forall (wf_frame h) fs -> len (wal_image h fs) < U64_MAX ->
  files d !! WalFile = Some (wal_image h fs) ->
  open_existing (page_size h) (Some (resume_hint (writer_for h fs []))) d = (Ok (writer_for h fs []), d).
Proof.
  intros Hh F Hlen Hf. unfold open_existing.
  erewrite M_bind_ok by reflexivity. unfold open_file. rewrite Hf. cbn [ok_or map_err].
  erewrite M_bind_ok by reflexivity. cbv zeta.
  pose proof (len_nonneg (frames_bytes h (header_checksum h) fs)).
  assert (read_at (wal_image h fs) HEADER_LEN 0 = serialize h) as ->.
  { apply (inj Some).
    rewrite read_at_range by (unfold wal_image; rewrite ?len_app, ?len_wal_header; unfold HEADER_LEN; lia).
    unfold wal_image. apply get_range_app_prefix. by rewrite len_wal_header. }
  rewrite len_wal_header, Z.eqb_refl.
  rewrite <- (app_nil_r (serialize h)), parse_wal_header by done.
  unfold resume_hint, writer_for, size. cbn [hint_expected_size hint_header ww_offset ww_header hint_running hint_offset ww_running].
  rewrite !app_nil_r, Z.eqb_refl, bool_decide_eq_true_2 by done. done.
Qed.

End Facts.

(** ** Consequences *)

Section Consequences.
Context `{host : Host}.

Lemma scan_enough h bytes fuel1 : forall fuel2 o r,
  wf_header h -> 0 <= o -> len bytes < U64_MAX ->
  len bytes - o < 24 * Z.of_nat fuel1 -> (fuel1 <= fuel2)%nat ->
  scan fuel2 h bytes o r = scan fuel1 h bytes o r.
Proof.
  induction fuel1 as [|n IH]; intros fuel2 o r Hh Ho Hlen Hf Hle; pose proof Hh as [[Hps _] _].
  - destruct fuel2; [done|]. cbn [scan]. rewrite frame_at_short; [done|done|].
    rewrite frame_size_eq by done. lia.
  - destruct fuel2 as [|m]; [lia|]. cbn [scan].
    destruct (Z_lt_ge_dec (len bytes) (o + frame_size h)).
    { by rewrite frame_at_short. }
    destruct (frame_at h bytes o r) as [[f r']|]; [|done]. f_equal.
    rewrite frame_size_eq in * by done. rewrite sat_add_small by lia. apply IH; lia || done.
Qed.

(** Everything the readers see after frames were appended behind [fs] and
    synced. *)
Lemma append_sync_frames h fs new d :
  wf_header h -> Forall (wf_frame h) fs -> Forall (wf_frame h) new ->
  len (wal_image h (fs ++ new)) < U64_MAX ->
  files d !! WalFile = Some (wal_image h fs) ->
  exists w d',
    open_existing (page_size h) None d = (Ok w, d) /\
    sync (append_frames w new) d = (Ok (writer_for h (fs ++ new) []), d') /\
    files d' = <[WalFile := wal_image h (fs ++ new)]> (files d) /\
    valid_frames h (wal_image h (fs ++ new)) = fs ++ new.
Proof.
  intros Hh F1 F2 Hlen Hf. pose proof Hh as [[Hps _] _].
  assert (Forall (wf_frame h) (fs ++ new)) as F by (by apply Forall_app).
  assert (len (wal_image h fs) < U64_MAX) as Hl1.
  { rewrite len_wal_image, len_app in * by done. pose proof (len_nonneg new). nia. }
  exists (writer_for h fs []).
  pose proof (open_existing_scan h fs [] d Hh F1) as Ho. rewrite app_nil_r in Ho.
  assert (append_frames (writer_for h fs []) new = writer_for h fs new) as Ha.
  { apply (append_frames_for h fs new []); try done; cbn [app]; lia. }
  pose proof (sync_for h fs new d []) as Hs. rewrite app_nil_r in Hs.
  destruct Hs as (d' & Hs & Hd'); [done|lia|].
  rewrite drop_nil, app_nil_r in Hd'. exists d'. split; [|split; [|split]].
  - apply Ho; [done| |done]. apply frame_at_short; [done|]. rewrite frame_size_eq by done. lia.
  - rewrite Ha. exact Hs.
  - exact Hd'.
  - pose proof (valid_frames_short h (fs ++ new) []) as Hv. rewrite app_nil_r in Hv.
    apply Hv; [done|done|done|]. rewrite len_nil. lia.
Qed.

Lemma committed_size_snoc fs c : is_commit c = true -> committed_size (fs ++ [c]) = fr_db_size c.
Proof. intros. unfold committed_size. by rewrite committed_frames_commit, last_snoc. Qed.

Lemma take_wal_image h fs new k :
  wf_header h -> Forall (wf_frame h) fs -> Forall (wf_frame h) new ->
  len (wal_image h (fs ++ new)) < U64_MAX -> len (wal_image h fs) <= k ->
  valid_frames h (take (Z.to_nat k) (wal_image h (fs ++ new))) =
    fs ++ take (Z.to_nat ((k - len (wal_image h fs)) / (24 + page_size h))) new.
Proof.
  intros Hh F1 F2 Hlen Hk. pose proof Hh as [[Hps _] _]. rewrite wal_image_app in *.
  destruct (take_frames h new (chain h (header_checksum h) fs) (k - len (wal_image h fs)) Hh F2)
    as (tail & E & Ht); [lia|].
  rewrite take_app_ge by (unfold len in *; lia).
  replace (Z.to_nat k - length (wal_image h fs))%nat with (Z.to_nat (k - len (wal_image h fs)))
    by (unfold len in *; lia).
  rewrite E, app_assoc, <- wal_image_app.
  apply valid_frames_short; [done| | |done].
  - apply Forall_app. split; [done|]. by apply Forall_take.
  - rewrite wal_image_app, <- app_assoc, <- E. rewrite !len_app in *.
    unfold len in *. rewrite length_take. lia.
Qed.

End Consequences.

(** ** Properties *)

(** WAL headers round-trip: what [WalHeader::new] builds, [serialize]d and
    followed by any frame data, parses back to the same header, checksum
    included, for every page size the format allows, every pair of salts and
    both checksum byte orders, on hosts of either endianness. *)
Theorem wal_header_roundtrip `{host : Host} native ps s1 s2 seq rest :
  valid_page_size ps -> is_u32 s1 -> is_u32 s2 -> is_u32 seq ->
  parse (serialize (new native ps s1 s2 seq) ++ rest) = Ok (new native ps s1 s2 seq).
Proof. intros. by apply parse_wal_header, new_wf. Qed.

Example wal_header_roundtrip_witness :
  @parse true (@serialize (@new true true 4096 305419896 2596069104 1) ++ [1; 2; 3]) =
    Ok (@new true true 4096 305419896 2596069104 1).
Proof. apply wal_header_roundtrip; [by vm_compute|unfold is_u32; lia..]. Defined.

(** C19. The undo-log scan publishes exactly a snapshot at the last commit: on
    every byte string, [committed_pages] returns the overlay of the valid
    frames up to and including the last commit frame (later writes of a page
    win, uncommitted frames leave no trace, even when they overwrote a
    committed page several times) and the size that commit declared. *)
Theorem committed_pages_is_last_snapshot `{host : Host} h bytes :
  committed_pages h bytes =
    (overlay (committed_frames (valid_frames h bytes)), committed_size (valid_frames h bytes)).
Proof. apply committed_pages_frames. Qed.

(** The frame walk terminates: it visits at most one frame per 24 bytes of
    the log, so any number of iterations beyond the length of the log gives
    the same frames. *)
Theorem wal_scan_terminates `{host : Host} h bytes fuel :
  wf_header h -> len bytes < U64_MAX -> (length bytes <= fuel)%nat ->
  scan fuel h bytes HEADER_LEN (header_checksum h) = valid_frames h bytes.
Proof.
  intros. unfold valid_frames. apply scan_enough; [done|unfold HEADER_LEN; lia|done| |done].
  unfold HEADER_LEN, len in *. lia.
Qed.

Example wal_scan_terminates_witness :
  @scan true 5000 (@new true true 512 1 2 1) (replicate 1000 0) HEADER_LEN
    (header_checksum (@new true true 512 1 2 1)) =
  @valid_frames true (@new true true 512 1 2 1) (replicate 1000 0).
Proof.
  apply wal_scan_terminates.
  - apply new_wf; [by vm_compute|unfold is_u32; lia..].
  - by vm_compute.
  - rewrite length_replicate. lia.
Defined.

(** C8. A WAL commit is atomic under any truncation of its write: let the log
    hold the committed frames [fs], and let a transaction append the frames
    [us] followed by its commit frame [c].  However the file is cut inside the
    new frames, at any byte, a reader sees exactly the previous snapshot; with
    the whole write it sees the new one. *)
Theorem wal_commit_atomic `{host : Host} h fs us c k :
  wf_header h -> Forall (wf_frame h) (fs ++ us ++ [c]) ->
  committed_frames fs = fs -> Forall (fun f => is_commit f = false) us -> is_commit c = true ->
  len (wal_image h (fs ++ us ++ [c])) < U64_MAX -> len (wal_image h fs) <= k ->
  committed_pages h (take (Z.to_nat k) (wal_image h (fs ++ us ++ [c]))) =
    if k <? len (wal_image h (fs ++ us ++ [c]))
    then (overlay fs, committed_size fs)
    else (overlay (fs ++ us ++ [c]), fr_db_size c).
Proof.
  intros Hh [F1 F2]%Forall_app Hfs Hus Hc Hlen Hk. pose proof Hh as [[Hps _] _].
  rewrite committed_pages_frames, take_wal_image by done.
  assert (len (wal_image h (fs ++ us ++ [c])) = len (wal_image h fs) + (len us + 1) * (24 + page_size h)) as L.
  { rewrite !len_wal_image, !len_app by (try done; by apply Forall_app).
    rewrite len_cons, len_nil. lia. }
  rewrite L. set (q := (k - len (wal_image h fs)) / (24 + page_size h)).
  pose proof (Z.div_mod (k - len (wal_image h fs)) (24 + page_size h) ltac:(lia)) as Hdm. fold q in Hdm.
  pose proof (Z.mod_pos_bound (k - len (wal_image h fs)) (24 + page_size h) ltac:(lia)) as Hmod.
  destruct (Z.ltb_spec k (len (wal_image h fs) + (len us + 1) * (24 + page_size h))) as [Hlt|Hge].
  - assert (q < len us + 1) by nia. rewrite take_app_le by (unfold len in *; lia).
    assert (committed_frames (fs ++ take (Z.to_nat q) us) = fs) as E.
    { rewrite committed_frames_open by (by apply Forall_take). done. }
    unfold committed_size. by rewrite E, Hfs.
  - assert (len us + 1 <= q) by nia.
    rewrite take_ge by (rewrite length_app; cbn [length]; unfold len in *; lia).
    rewrite app_assoc, committed_frames_commit, committed_size_snoc by done. done.
Qed.

Definition sample_wal : WalHeader := @new true true 512 11 22 1.
Definition sample_frame (p sz b : Z) : Frame := MkFrame p sz (replicate 512 b).

Lemma sample_wal_wf : @wf_header true sample_wal.
Proof. apply new_wf; [by vm_compute|unfold is_u32; lia..]. Qed.

Lemma sample_frame_wf p sz b : is_u32 p -> is_u32 sz -> wf_frame sample_wal (sample_frame p sz b).
Proof. intros. split; [done|]. split; [done|]. by vm_compute. Qed.

Example wal_commit_atomic_witness :
  @committed_pages true sample_wal
    (take (Z.to_nat 1200) (@wal_image true sample_wal ([sample_frame 1 1 5] ++ [sample_frame 1 0 6] ++ [sample_frame 2 2 7]))) =
  (overlay [sample_frame 1 1 5], 1).
Proof.
  rewrite (@wal_commit_atomic true sample_wal [sample_frame 1 1 5] [sample_frame 1 0 6] (sample_frame 2 2 7) 1200).
  - by vm_compute.
  - apply sample_wal_wf.
  - repeat constructor; cbn; try lia.
  - done.
  - by repeat constructor.
  - done.
  - by vm_compute.
  - by vm_compute.
Defined.

(** A commit is read back: reopening a log that ends at a commit (by the
    full scan), appending a transaction's frames and syncing makes readers
    see the old snapshot overlaid with exactly those frames, and the next
    writer may resume from the hint instead of rescanning: it obtains the same
    writer. *)
Theorem wal_commit_read_back `{host : Host} h fs us c d :
  wf_header h -> Forall (wf_frame h) (fs ++ us ++ [c]) ->
  committed_frames fs = fs -> is_commit c = true ->
  len (wal_image h (fs ++ us ++ [c])) < U64_MAX ->
  files d !! WalFile = Some (wal_image h fs) ->
  exists w w' d' bytes,
    open_existing (page_size h) None d = (Ok w, d) /\
    sync (append_frames w (us ++ [c])) d = (Ok w', d') /\
    files d' = <[WalFile := bytes]> (files d) /\
    committed_pages h bytes = (overlay_from (overlay fs) (us ++ [c]), fr_db_size c) /\
    open_existing (page_size h) (Some (resume_hint w')) d' = (Ok w', d') /\
    open_existing (page_size h) None d' = (Ok w', d').
Proof.
  intros Hh F Hfs Hc Hlen Hf. pose proof (proj1 (Forall_app _ _ _) F) as [F1 F2].
  pose proof Hh as [[Hps _] _].
  destruct (append_sync_frames h fs (us ++ [c]) d Hh F1 F2 Hlen Hf) as (w & d' & E1 & E2 & E3 & E4).
  exists w, (writer_for h (fs ++ us ++ [c]) []), d', (wal_image h (fs ++ us ++ [c])).
  split; [done|]. split; [done|]. split; [done|].
  assert (files d' !! WalFile = Some (wal_image h (fs ++ us ++ [c]))) as Hd' by (by rewrite E3, lookup_insert_eq).
  split; [|split].
  - rewrite committed_pages_frames, E4, app_assoc, committed_frames_commit, committed_size_snoc by done.
    unfold overlay, overlay_from. by rewrite <- app_assoc, fold_left_app.
  - by apply open_existing_hint.
  - pose proof (open_existing_scan h (fs ++ us ++ [c]) [] d' Hh F) as Ho. rewrite app_nil_r in Ho.
    apply Ho; [done| |done]. apply frame_at_short; [done|rewrite frame_size_eq by done; lia].
Qed.

Definition sample_log : Disk :=
  MkDisk {[WalFile := @wal_image true sample_wal [sample_frame 1 1 5]]} [].

Example wal_commit_read_back_witness :
  exists w w' d' bytes,
    @open_existing true (page_size sample_wal) None sample_log = (Ok w, sample_log) /\
    sync (@append_frames true w ([sample_frame 1 0 6] ++ [sample_frame 2 2 7])) sample_log = (Ok w', d') /\
    files d' = <[WalFile := bytes]> (files sample_log) /\
    @committed_pages true sample_wal bytes =
      (overlay_from (overlay [sample_frame 1 1 5]) ([sample_frame 1 0 6] ++ [sample_frame 2 2 7]),
       fr_db_size (sample_frame 2 2 7)) /\
    @open_existing true (page_size sample_wal) (Some (resume_hint w')) d' = (Ok w', d') /\
    @open_existing true (page_size sample_wal) None d' = (Ok w', d').
Proof.
  apply (@wal_commit_read_back true sample_wal [sample_frame 1 1 5] [sample_frame 1 0 6]
    (sample_frame 2 2 7) sample_log).
  - apply sample_wal_wf.
  - repeat constructor; cbn; try lia.
  - done.
  - done.
  - by vm_compute.
  - by vm_compute.
Defined.

(** A torn commit can come back to life.  The log holds committed frames
    [fs] and then valid frames [us] of a transaction whose commit frame never
    reached the disk (a cut inside the write, as in the truncation property).
    Readers ignore [us].  But [open_existing] resumes after the last {e valid}
    frame, not after the last committed one: when the next transaction
    appends its commit frame [c] and syncs, [us] is published with it, and
    readers see [fs], [us] and [c].  The comment on [last_valid_frame_state]
    argues this cannot happen because the crate's writer never leaves an
    uncommitted trailing frame behind. *)
Theorem uncommitted_frames_published_by_next_commit `{host : Host} h fs us c d :
  wf_header h -> Forall (wf_frame h) ((fs ++ us) ++ [c]) ->
  committed_frames fs = fs -> Forall (fun f => is_commit f = false) us -> is_commit c = true ->
  len (wal_image h ((fs ++ us) ++ [c])) < U64_MAX ->
  files d !! WalFile = Some (wal_image h (fs ++ us)) ->
  committed_pages h (wal_image h (fs ++ us)) = (overlay fs, committed_size fs) /\
  exists w w' d' bytes,
    open_existing (page_size h) None d = (Ok w, d) /\
    sync (append_frame w (fr_page c) (fr_content c) (fr_db_size c)) d = (Ok w', d') /\
    files d' = <[WalFile := bytes]> (files d) /\
    committed_pages h bytes = (overlay ((fs ++ us) ++ [c]), fr_db_size c).
Proof.
  intros Hh F Hfs Hus Hc Hlen Hf. pose proof (proj1 (Forall_app _ _ _) F) as [F1 F2].
  pose proof Hh as [[Hps _] _].
  destruct (append_sync_frames h (fs ++ us) [c] d Hh F1 F2 Hlen Hf) as (w & d' & E1 & E2 & E3 & E4).
  split.
  - assert (valid_frames h (wal_image h (fs ++ us)) = fs ++ us) as Hv.
    { pose proof (valid_frames_short h (fs ++ us) []) as Hv. rewrite app_nil_r in Hv.
      apply Hv; [done|done| |rewrite len_nil; lia].
      rewrite wal_image_app, len_app in Hlen.
      pose proof (len_nonneg (frames_bytes h (chain h (header_checksum h) (fs ++ us)) [c])). lia. }
    rewrite committed_pages_frames, Hv. unfold committed_size.
    by rewrite committed_frames_open, Hfs by done.
  - exists w, (writer_for h ((fs ++ us) ++ [c]) []), d', (wal_image h ((fs ++ us) ++ [c])).
    split; [done|]. split; [done|]. split; [done|].
    by rewrite committed_pages_frames, E4, committed_frames_commit, committed_size_snoc.
Qed.

Definition torn_log : Disk :=
  MkDisk {[WalFile := @wal_image true sample_wal ([sample_frame 1 1 5] ++ [sample_frame 1 0 6])]} [].

Example uncommitted_frames_published_by_next_commit_witness :
  @committed_pages true sample_wal (@wal_image true sample_wal ([sample_frame 1 1 5] ++ [sample_frame 1 0 6])) =
    (overlay [sample_frame 1 1 5], committed_size [sample_frame 1 1 5]) /\
  exists w w' d' bytes,
    @open_existing true (page_size sample_wal) None torn_log = (Ok w, torn_log) /\
    sync (@append_frame true w 2 (replicate 512 7) 2) torn_log = (Ok w', d') /\
    files d' = <[WalFile := bytes]> (files torn_log) /\
    @committed_pages true sample_wal bytes =
      (overlay (([sample_frame 1 1 5] ++ [sample_frame 1 0 6]) ++ [sample_frame 2 2 7]), 2).
Proof.
  apply (@uncommitted_frames_published_by_next_commit true sample_wal [sample_frame 1 1 5] [sample_frame 1 0 6]
    (sample_frame 2 2 7) torn_log).
  - apply sample_wal_wf.
  - repeat constructor; cbn; try lia.
  - done.
  - by repeat constructor.
  - done.
  - by vm_compute.
  - by vm_compute.
Defined.
