(* ===== verification/Lock.v ===== *)
(** * The journal-mode lock ladder ([src/vfs/lock.rs])

    [FileLockState] climbs and descends UNLOCKED, SHARED, RESERVED, PENDING,
    EXCLUSIVE one step at a time through [fcntl] byte-range locks.  The
    system call is outside the crate: its documented (POSIX) behaviour is the
    class [Fcntl]; the ladder and its theorems are stated against it, and
    [byte_locks] is an instance. *)

From stdpp Require Import prelude list numbers gmap.
From Stdlib Require Import ZArith Lia.
From S2P Require Import Prelude Vfs.

Local Open Scope Z_scope.

Definition PENDING_BYTE : Z := 1073741824.
Definition RESERVED_BYTE : Z := PENDING_BYTE + 1.
Definition SHARED_FIRST : Z := PENDING_BYTE + 2.
Definition SHARED_SIZE : Z := 510.

Inductive LockLevel : Type := Unlocked | Shared | Reserved | Pending | Exclusive.

#[global] Instance LockLevel_eq_dec : EqDecision LockLevel.
Proof. solve_decision. Defined.

(** The derived [PartialOrd]. *)
Definition rank (l : LockLevel) : Z :=
  match l with Unlocked => 0 | Shared => 1 | Reserved => 2 | Pending => 3 | Exclusive => 4 end.
Definition level_lt (a b : LockLevel) : bool := rank a <? rank b.

(** [F_UNLCK], [F_RDLCK], [F_WRLCK]. *)
Inductive LockKind : Type := F_UNLCK | F_RDLCK | F_WRLCK.

#[global] Instance LockKind_eq_dec : EqDecision LockKind.
Proof. solve_decision. Defined.

(** Two locks of different processes on one byte exclude each other when one of
    them is a write lock. *)
Definition conflict (a b : LockKind) : bool :=
  match a, b with
  | F_WRLCK, F_RDLCK | F_WRLCK, F_WRLCK | F_RDLCK, F_WRLCK => true
  | _, _ => false
  end.

Definition in_range (start n b : Z) : bool := (start <=? b) && (b <? start + n).

(** POSIX record locks: [setlk] is [fcntl(F_SETLK)] by process [pid] on
    the [n] bytes from [start]; [None] is [EAGAIN]. *)
Class Fcntl (OS : Type) : Type := {
  held : OS -> nat -> Z -> LockKind;
  setlk : OS -> nat -> LockKind -> Z -> Z -> option OS;
  setlk_refused : forall os p k start n,
    setlk os p k start n = None <->
    exists q b, q <> p /\ in_range start n b = true /\ conflict k (held os q b) = true;
  setlk_granted : forall os p k start n os',
    setlk os p k start n = Some os' ->
    forall q b, held os' q b =
      if bool_decide (q = p) && in_range start n b then k else held os q b }.

Section Ladder.
Context {OS : Type} `{Fcntl OS}.

Record FileLockState : Type := MkLock { os : OS; pid : nat; level : LockLevel }.

Definition fcntl_lock (kind : LockKind) (start n : Z) : M FileLockState VfsError unit :=
  fun s => match setlk (os s) (pid s) kind start n with
           | Some os' => (Ok tt, MkLock os' (pid s) (level s))
           | None => (Err (Locked DbFile), s)
           end.

Definition set_lock_level (l : LockLevel) : M FileLockState VfsError unit :=
  modify (fun s => MkLock (os s) (pid s) l).

Definition step_up : M FileLockState VfsError unit :=
  s ← get_st;
  match level s with
  | Unlocked =>
    _ ← fcntl_lock F_RDLCK PENDING_BYTE 1;
    _ ← fcntl_lock F_UNLCK PENDING_BYTE 1;
    _ ← fcntl_lock F_RDLCK SHARED_FIRST SHARED_SIZE;
    set_lock_level Shared
  | Shared => _ ← fcntl_lock F_WRLCK RESERVED_BYTE 1; set_lock_level Reserved
  | Reserved => _ ← fcntl_lock F_WRLCK PENDING_BYTE 1; set_lock_level Pending
  | Pending => _ ← fcntl_lock F_WRLCK SHARED_FIRST SHARED_SIZE; set_lock_level Exclusive
  | Exclusive => mret tt
  end.

Definition step_down : M FileLockState VfsError unit :=
  s ← get_st;
  match level s with
  | Exclusive => _ ← fcntl_lock F_RDLCK SHARED_FIRST SHARED_SIZE; set_lock_level Pending
  | Pending => _ ← fcntl_lock F_UNLCK PENDING_BYTE 1; set_lock_level Reserved
  | Reserved => _ ← fcntl_lock F_UNLCK RESERVED_BYTE 1; set_lock_level Shared
  | Shared => _ ← fcntl_lock F_UNLCK SHARED_FIRST SHARED_SIZE; set_lock_level Unlocked
  | Unlocked => mret tt
  end.

(** The two loops of [set_level]; the ladder has five levels, so four
    iterations of each suffice. *)
Fixpoint climb (fuel : nat) (target : LockLevel) : M FileLockState VfsError unit :=
  match fuel with
  | O => mret tt
  | S fuel => s ← get_st;
    if level_lt (level s) target then _ ← step_up; climb fuel target else mret tt
  end.

Fixpoint descend (fuel : nat) (target : LockLevel) : M FileLockState VfsError unit :=
  match fuel with
  | O => mret tt
  | S fuel => s ← get_st;
    if level_lt target (level s) then _ ← step_down; descend fuel target else mret tt
  end.

Definition set_level (target : LockLevel) : M FileLockState VfsError unit :=
  _ ← climb 4 target; descend 4 target.

(** [check_reserved_lock]: [F_GETLK] reports a lock of another process. *)
Definition check_reserved (s : FileLockState) (others : list nat) : bool :=
  existsb (fun q => negb (bool_decide (q = pid s)) && conflict F_WRLCK (held (os s) q RESERVED_BYTE)) others.

(** ** What each level holds *)

(** The locks a process at a level holds, byte by byte. *)
Definition holds (l : LockLevel) (b : Z) : LockKind :=
  if b =? PENDING_BYTE then (if rank Pending <=? rank l then F_WRLCK else F_UNLCK)
  else if b =? RESERVED_BYTE then (if rank Reserved <=? rank l then F_WRLCK else F_UNLCK)
  else if in_range SHARED_FIRST SHARED_SIZE b then
    match l with Unlocked => F_UNLCK | Exclusive => F_WRLCK | _ => F_RDLCK end
  else F_UNLCK.

Definition matches (o : OS) (p : nat) (l : LockLevel) : Prop := forall b, held o p b = holds l b.

(** No two processes hold conflicting locks on a byte. *)
Definition compatible (o : OS) : Prop :=
  forall p q b, p <> q -> conflict (held o p b) (held o q b) = false.

(** The invariant of the system: compatible locks, and the process of [s] holds
    exactly what its level says. *)
Definition lock_inv (s : FileLockState) : Prop :=
  compatible (os s) /\ matches (os s) (pid s) (level s).

Lemma conflict_sym a b : conflict a b = conflict b a.
Proof. by destruct a, b. Qed.

Lemma setlk_compatible o p k start n o' :
  compatible o -> setlk o p k start n = Some o' -> compatible o'.
Proof.
  intros Hc E p1 p2 b Hne. pose proof (setlk_granted _ _ _ _ _ _ E) as Hg.
  assert (forall q, q <> p -> in_range start n b = true -> conflict k (held o q b) = false) as Hok.
  { intros q Hq Hb. destruct (conflict k (held o q b)) eqn:Hcf; [|done].
    assert (setlk o p k start n = None) as Hno by (apply setlk_refused; eauto). congruence. }
  rewrite !Hg. destruct (in_range start n b) eqn:Hb; rewrite ?andb_false_r, ?andb_true_r; [|by apply Hc].
  destruct (bool_decide_reflect (p1 = p)) as [->|H1], (bool_decide_reflect (p2 = p)) as [->|H2]; try done.
  - by apply Hok.
  - rewrite conflict_sym. by apply Hok.
  - by apply Hc.
Qed.

(** Other processes keep what they hold. *)
Lemma setlk_other o p k start n o' q b :
  setlk o p k start n = Some o' -> q <> p -> held o' q b = held o q b.
Proof.
  intros E Hq. rewrite (setlk_granted _ _ _ _ _ _ E). by rewrite bool_decide_eq_false_2.
Qed.

Ltac bytes := unfold holds, in_range, rank, RESERVED_BYTE, SHARED_FIRST, SHARED_SIZE, PENDING_BYTE in *.

(** Taking or releasing one of the three ranges moves a process between the
    levels that differ in it. *)
Lemma matches_range o p l l' k start n o' :
  matches o p l -> setlk o p k start n = Some o' ->
  (forall b, holds l' b = if in_range start n b then k else holds l b) -> matches o' p l'.
Proof.
  intros Hm E Hh b. rewrite (setlk_granted _ _ _ _ _ _ E), bool_decide_eq_true_2 by done.
  cbn [andb]. by rewrite Hh, Hm.
Qed.

Ltac range_case :=
  let b := fresh "b" in intros b; bytes;
  repeat match goal with |- context [Z.eqb ?x ?y] => destruct (Z.eqb_spec x y) end;
  repeat match goal with |- context [Z.leb ?x ?y] => destruct (Z.leb_spec x y) end;
  repeat match goal with |- context [Z.ltb ?x ?y] => destruct (Z.ltb_spec x y) end;
  cbn [andb]; (done || lia).

Lemma holds_reserve b : holds Reserved b = if in_range RESERVED_BYTE 1 b then F_WRLCK else holds Shared b.
Proof. revert b. range_case. Qed.
Lemma holds_pend b : holds Pending b = if in_range PENDING_BYTE 1 b then F_WRLCK else holds Reserved b.
Proof. revert b. range_case. Qed.
Lemma holds_exclude b :
  holds Exclusive b = if in_range SHARED_FIRST SHARED_SIZE b then F_WRLCK else holds Pending b.
Proof. revert b. range_case. Qed.
Lemma holds_share b :
  holds Shared b = if in_range SHARED_FIRST SHARED_SIZE b then F_RDLCK else holds Unlocked b.
Proof. revert b. range_case. Qed.
Lemma holds_unexclude b :
  holds Pending b = if in_range SHARED_FIRST SHARED_SIZE b then F_RDLCK else holds Exclusive b.
Proof. revert b. range_case. Qed.
Lemma holds_unpend b : holds Reserved b = if in_range PENDING_BYTE 1 b then F_UNLCK else holds Pending b.
Proof. revert b. range_case. Qed.
Lemma holds_unreserve b : holds Shared b = if in_range RESERVED_BYTE 1 b then F_UNLCK else holds Reserved b.
Proof. revert b. range_case. Qed.
Lemma holds_unshare b :
  holds Unlocked b = if in_range SHARED_FIRST SHARED_SIZE b then F_UNLCK else holds Shared b.
Proof. revert b. range_case. Qed.

(** ** The steps keep the invariant *)

(** What a lock operation may do to the rest of the world: nothing. *)
Definition same_others (s s' : FileLockState) : Prop :=
  pid s' = pid s /\ forall q b, q <> pid s -> held (os s') q b = held (os s) q b.

Lemma same_others_refl s : same_others s s.
Proof. by split. Qed.

Lemma same_others_trans s1 s2 s3 : same_others s1 s2 -> same_others s2 s3 -> same_others s1 s3.
Proof. intros [E1 H1] [E2 H2]. split; [congruence|]. intros q b Hq. rewrite H2 by congruence. by apply H1. Qed.

Lemma fcntl_lock_spec k start n s :
  compatible (os s) ->
  match setlk (os s) (pid s) k start n with
  | Some o' => fcntl_lock k start n s = (Ok tt, MkLock o' (pid s) (level s)) /\ compatible o' /\
      same_others s (MkLock o' (pid s) (level s))
  | None => fcntl_lock k start n s = (Err (Locked DbFile), s)
  end.
Proof.
  intros Hc. unfold fcntl_lock. destruct (setlk _ _ _ _ _) as [o'|] eqn:E; [|done].
  split; [done|]. split; [by eapply setlk_compatible|]. split; [done|]. intros q b Hq. by eapply setlk_other.
Qed.

Definition next_level (l : LockLevel) : LockLevel :=
  match l with Unlocked => Shared | Shared => Reserved | Reserved => Pending | _ => Exclusive end.
Definition prev_level (l : LockLevel) : LockLevel :=
  match l with Exclusive => Pending | Pending => Reserved | Reserved => Shared | _ => Unlocked end.

(** Names the outcome of the run both the goal and [H] speak of. *)
Ltac case_run H r s' :=
  revert H;
  match goal with |- context [@mbind ?T ?I ?A ?B ?f ?m ?s] =>
    destruct (@mbind T I A B f m s) as [r s'] end;
  intros H.

(** One range taken and the level set: the shape of every step but the first. *)
Lemma take_range_spec k start n l' s :
  lock_inv s ->
  (forall b, holds l' b = if in_range start n b then k else holds (level s) b) ->
  let '(r, s') := (_ ← fcntl_lock k start n; set_lock_level l') s in
  lock_inv s' /\ same_others s s' /\
  match setlk (os s) (pid s) k start n with
  | Some _ => r = Ok tt /\ level s' = l'
  | None => r = Err (Locked DbFile) /\ s' = s
  end.
Proof.
  intros [Hc Hm] Hh. pose proof (fcntl_lock_spec k start n s Hc) as Hf.
  unfold mbind, M_bind. destruct (setlk _ _ _ _ _) as [o'|] eqn:E.
  - destruct Hf as (-> & Hc' & Hs). cbn. split; [|split; [by destruct Hs|done]].
    split; [done|]. cbn. by eapply matches_range.
  - rewrite Hf. split; [done|]. split; [apply same_others_refl|done].
Qed.

Lemma step_up_shared_spec s :
  level s = Unlocked -> lock_inv s ->
  let '(r, s') := step_up s in
  lock_inv s' /\ same_others s s' /\
  ((r = Ok tt /\ level s' = Shared) \/ (r = Err (Locked DbFile) /\ level s' = Unlocked)) /\
  (forall q, q <> pid s -> held (os s) q PENDING_BYTE = F_WRLCK -> r = Err (Locked DbFile)).
Proof.
  intros Hl [Hc Hm]. rewrite Hl in Hm. unfold step_up. erewrite M_bind_ok by reflexivity. rewrite Hl.
  pose proof (fcntl_lock_spec F_RDLCK PENDING_BYTE 1 s Hc) as H1.
  destruct (setlk (os s) _ _ _ _) as [o1|] eqn:E1.
  2:{ rewrite (M_bind_err _ _ _ _ _ H1). split; [by rewrite <- Hl in Hm|]. split; [apply same_others_refl|]. auto. }
  destruct H1 as (Ef1 & Hc1 & Hs1). set (s1 := MkLock o1 _ _) in *. rewrite (M_bind_ok _ _ _ _ _ Ef1).
  pose proof (fcntl_lock_spec F_UNLCK PENDING_BYTE 1 s1 Hc1) as H2.
  destruct (setlk (os s1) _ _ _ _) as [o2|] eqn:E2.
  2:{ apply setlk_refused in E2 as (q & b & _ & _ & Hcf). by destruct (held (os s1) q b). }
  destruct H2 as (Ef2 & Hc2 & Hs2). set (s2 := MkLock o2 _ _) in *. rewrite (M_bind_ok _ _ _ _ _ Ef2).
  assert (matches o2 (pid s) Unlocked) as Hm2.
  { intros b. rewrite (setlk_granted _ _ _ _ _ _ E2 (pid s) b). cbn [pid s1].
    rewrite bool_decide_eq_true_2 by done. cbn [andb].
    destruct (in_range PENDING_BYTE 1 b) eqn:Hb.
    - revert Hb. bytes. destruct (Z.leb_spec 1073741824 b), (Z.ltb_spec b (1073741824 + 1)); cbn [andb]; try done.
      intros _. replace b with 1073741824 by lia. done.
    - change (os s1) with o1. rewrite (setlk_granted _ _ _ _ _ _ E1 (pid s) b), Hb, andb_false_r. apply Hm. }
  assert (lock_inv s2) as Hi2. { split; [done|]. cbn [os pid level s2 s1]. by rewrite Hl. }
  pose proof (take_range_spec F_RDLCK SHARED_FIRST SHARED_SIZE Shared s2 Hi2) as H3.
  assert (level s2 = Unlocked) as Hl2 by done.
  rewrite Hl2 in H3. specialize (H3 holds_share). case_run H3 r s'.
  destruct H3 as (Hi' & Hs' & Hr). split; [done|]. split.
  { eapply same_others_trans; [|exact Hs']. eapply same_others_trans; [exact Hs1|exact Hs2]. }
  split.
  - destruct (setlk (os s2) _ _ _ _); [left; done|right; destruct Hr as [-> ->]; done].
  - intros q Hq Hw. exfalso. assert (setlk (os s) (pid s) F_RDLCK PENDING_BYTE 1 = None) as Hno; [|congruence].
    apply setlk_refused. exists q, PENDING_BYTE. split; [done|]. split; [done|]. by rewrite Hw.
Qed.

Lemma step_up_spec s :
  lock_inv s ->
  let '(r, s') := step_up s in
  lock_inv s' /\ same_others s s' /\
  ((r = Ok tt /\ level s' = next_level (level s)) \/ (r = Err (Locked DbFile) /\ level s' = level s)).
Proof.
  intros Hi. destruct (level s) eqn:Hl.
  - pose proof (step_up_shared_spec s Hl Hi) as H1. destruct (step_up s) as [r s']. tauto.
  - unfold step_up. erewrite M_bind_ok by reflexivity. rewrite Hl.
    pose proof (take_range_spec F_WRLCK RESERVED_BYTE 1 Reserved s Hi) as H1. rewrite Hl in H1. specialize (H1 holds_reserve).
    case_run H1 r s'. destruct (setlk _ _ _ _ _); destruct H1 as (? & ? & ? & Hx); subst; auto.
  - unfold step_up. erewrite M_bind_ok by reflexivity. rewrite Hl.
    pose proof (take_range_spec F_WRLCK PENDING_BYTE 1 Pending s Hi) as H1. rewrite Hl in H1. specialize (H1 holds_pend).
    case_run H1 r s'. destruct (setlk _ _ _ _ _); destruct H1 as (? & ? & ? & Hx); subst; auto.
  - unfold step_up. erewrite M_bind_ok by reflexivity. rewrite Hl.
    pose proof (take_range_spec F_WRLCK SHARED_FIRST SHARED_SIZE Exclusive s Hi) as H1. rewrite Hl in H1. specialize (H1 holds_exclude).
    case_run H1 r s'. destruct (setlk _ _ _ _ _); destruct H1 as (? & ? & ? & Hx); subst; auto.
  - unfold step_up. erewrite M_bind_ok by reflexivity. rewrite Hl. split; [done|]. split; [apply same_others_refl|by left].
Qed.

(** A downgrade is never refused: the process already holds more. *)
Lemma step_down_spec s :
  lock_inv s ->
  let '(r, s') := step_down s in
  lock_inv s' /\ same_others s s' /\ r = Ok tt /\ level s' = prev_level (level s).
Proof.
  intros Hi.
  assert (forall start n, setlk (os s) (pid s) F_UNLCK start n <> None) as Hun.
  { intros start n (q & b & _ & _ & Hcf)%setlk_refused. by destruct (held (os s) q b). }
  destruct (level s) eqn:Hl; unfold step_down; (erewrite M_bind_ok by reflexivity); rewrite Hl.
  - split; [done|]. split; [apply same_others_refl|done].
  - pose proof (take_range_spec F_UNLCK SHARED_FIRST SHARED_SIZE Unlocked s Hi) as H1. rewrite Hl in H1. specialize (H1 holds_unshare).
    case_run H1 r s'. destruct (setlk _ _ _ _ _) eqn:E; [tauto|by apply Hun in E].
  - pose proof (take_range_spec F_UNLCK RESERVED_BYTE 1 Shared s Hi) as H1. rewrite Hl in H1. specialize (H1 holds_unreserve).
    case_run H1 r s'. destruct (setlk _ _ _ _ _) eqn:E; [tauto|by apply Hun in E].
  - pose proof (take_range_spec F_UNLCK PENDING_BYTE 1 Reserved s Hi) as H1. rewrite Hl in H1. specialize (H1 holds_unpend).
    case_run H1 r s'. destruct (setlk _ _ _ _ _) eqn:E; [tauto|by apply Hun in E].
  - pose proof (take_range_spec F_RDLCK SHARED_FIRST SHARED_SIZE Pending s Hi) as H1. rewrite Hl in H1. specialize (H1 holds_unexclude).
    case_run H1 r s'. destruct (setlk _ _ _ _ _) eqn:E; [tauto|].
    exfalso. apply setlk_refused in E as (q & b & Hq & Hb & Hcf). destruct Hi as [Hc Hm].
    specialize (Hc (pid s) q b ltac:(congruence)). rewrite Hm, Hl, holds_exclude, Hb in Hc.
    by destruct (held (os s) q b).
Qed.

Lemma rank_inj a b : rank a = rank b -> a = b.
Proof. by destruct a, b. Qed.

Lemma rank_bound a : 0 <= rank a <= 4.
Proof. destruct a; cbn; lia. Qed.

Lemma rank_next a b : rank a < rank b -> rank (next_level a) = rank a + 1.
Proof. destruct a, b; cbn; lia. Qed.

Lemma rank_prev a b : rank b < rank a -> rank (prev_level a) = rank a - 1.
Proof. destruct a, b; cbn; lia. Qed.

Lemma climb_spec target fuel : forall s,
  lock_inv s -> rank target - rank (level s) <= Z.of_nat fuel ->
  let '(r, s') := climb fuel target s in
  lock_inv s' /\ same_others s s' /\
  ((r = Ok tt /\ rank (level s') = Z.max (rank target) (rank (level s))) \/
   (r = Err (Locked DbFile) /\ rank (level s) <= rank (level s') < rank target)).
Proof.
  induction fuel as [|fuel IH]; intros s Hi Hf.
  { cbn. split; [done|]. split; [apply same_others_refl|]. left. split; [done|]. lia. }
  cbn [climb]. erewrite M_bind_ok by reflexivity. unfold level_lt.
  destruct (Z.ltb_spec (rank (level s)) (rank target)) as [Hlt|Hge].
  2:{ split; [done|]. split; [apply same_others_refl|]. left. split; [done|]. lia. }
  pose proof (step_up_spec s Hi) as Hs. destruct (step_up s) as [r1 s1] eqn:E1.
  destruct Hs as (Hi1 & Ho1 & [[-> Hl1]|[-> Hl1]]).
  - rewrite (M_bind_ok _ _ _ _ _ E1). pose proof (rank_next _ _ Hlt) as Hn.
    specialize (IH s1 Hi1). rewrite Hl1, Hn in IH. specialize (IH ltac:(lia)).
    destruct (climb fuel target s1) as [r s']. destruct IH as (? & ? & IH). split; [done|].
    split; [by eapply same_others_trans|]. destruct IH as [[-> ?]|[-> ?]]; [left|right]; (split; [done|lia]).
  - rewrite (M_bind_err _ _ _ _ _ E1). split; [done|]. split; [done|]. right. rewrite Hl1. split; [done|lia].
Qed.

Lemma descend_spec target fuel : forall s,
  lock_inv s -> rank (level s) - rank target <= Z.of_nat fuel ->
  let '(r, s') := descend fuel target s in
  lock_inv s' /\ same_others s s' /\ r = Ok tt /\ rank (level s') = Z.min (rank target) (rank (level s)).
Proof.
  induction fuel as [|fuel IH]; intros s Hi Hf.
  { cbn. split; [done|]. split; [apply same_others_refl|]. split; [done|]. lia. }
  cbn [descend]. erewrite M_bind_ok by reflexivity. unfold level_lt.
  destruct (Z.ltb_spec (rank target) (rank (level s))) as [Hlt|Hge].
  2:{ split; [done|]. split; [apply same_others_refl|]. split; [done|]. lia. }
  pose proof (step_down_spec s Hi) as Hs. destruct (step_down s) as [r1 s1] eqn:E1.
  destruct Hs as (Hi1 & Ho1 & -> & Hl1). rewrite (M_bind_ok _ _ _ _ _ E1).
  pose proof (rank_prev _ _ Hlt) as Hn.
  specialize (IH s1 Hi1). rewrite Hl1, Hn in IH. specialize (IH ltac:(lia)).
  destruct (descend fuel target s1) as [r s']. destruct IH as (? & ? & ? & ?).
  split; [done|]. split; [by eapply same_others_trans|]. split; [done|lia].
Qed.

(** [set_level] reaches its target, or stops on the way up at the last level it
    could take; going down always succeeds. *)
Lemma set_level_spec target s :
  lock_inv s ->
  let '(r, s') := set_level target s in
  lock_inv s' /\ same_others s s' /\
  ((r = Ok tt /\ level s' = target) \/
   (r = Err (Locked DbFile) /\ rank (level s) <= rank (level s') < rank target)).
Proof.
  intros Hi. unfold set_level. pose proof (rank_bound (level s)). pose proof (rank_bound target).
  pose proof (climb_spec target 4 s Hi ltac:(lia)) as Hc. destruct (climb 4 target s) as [r1 s1] eqn:E1.
  destruct Hc as (Hi1 & Ho1 & [[-> Hl1]|[-> Hl1]]).
  - rewrite (M_bind_ok _ _ _ _ _ E1). pose proof (rank_bound (level s1)).
    pose proof (descend_spec target 4 s1 Hi1 ltac:(lia)) as Hd. destruct (descend 4 target s1) as [r s'].
    destruct Hd as (Hi' & Ho' & -> & Hl'). split; [done|]. split; [by eapply same_others_trans|].
    left. split; [done|]. apply rank_inj. lia.
  - rewrite (M_bind_err _ _ _ _ _ E1). split; [done|]. split; [done|]. by right.
Qed.

Lemma set_level_down target s :
  lock_inv s -> rank target <= rank (level s) ->
  exists s', set_level target s = (Ok tt, s') /\ lock_inv s' /\ same_others s s' /\ level s' = target.
Proof.
  intros Hi Hle. pose proof (set_level_spec target s Hi) as Hs.
  destruct (set_level target s) as [r s'] eqn:E. destruct Hs as (? & ? & [[-> ?]|[_ ?]]); [|lia].
  by exists s'.
Qed.

(** ** Processes sharing a file *)

(** A system state: the kernel's lock table and every process's level.  A
    system step is one step of the ladder by some process, granted or not. *)
Record System : Type := MkSystem { sys_os : OS; sys_level : nat -> LockLevel }.

Definition lock_of (y : System) (p : nat) : FileLockState := MkLock (sys_os y) p (sys_level y p).

Definition with_lock (y : System) (s : FileLockState) : System :=
  MkSystem (os s) (fun q => if bool_decide (q = pid s) then level s else sys_level y q).

Inductive sys_step (y : System) : System -> Prop :=
| sys_up p : sys_step y (with_lock y (snd (step_up (lock_of y p))))
| sys_down p : sys_step y (with_lock y (snd (step_down (lock_of y p)))).

Definition sys_inv (y : System) : Prop :=
  compatible (sys_os y) /\ forall p, matches (sys_os y) p (sys_level y p).

Lemma with_lock_inv y p s' :
  sys_inv y -> lock_inv s' -> same_others (lock_of y p) s' -> sys_inv (with_lock y s').
Proof.
  intros [Hc Hm] [Hc' Hm'] [Hp Ho]. split; [done|]. intros q. cbn. cbn in Hp.
  destruct (bool_decide_reflect (q = pid s')) as [->|Hne]; [done|].
  intros b. rewrite Ho by (cbn; congruence). apply Hm.
Qed.

Lemma sys_step_inv y y' : sys_inv y -> sys_step y y' -> sys_inv y'.
Proof.
  intros Hy Hs. assert (forall p, lock_inv (lock_of y p)) as Hl by (intros p; destruct Hy; by split).
  destruct Hs as [p|p].
  - pose proof (step_up_spec _ (Hl p)) as H1. destruct (step_up _) as [r s']. cbn [snd].
    destruct H1 as (? & ? & _). by eapply with_lock_inv.
  - pose proof (step_down_spec _ (Hl p)) as H1. destruct (step_down _) as [r s']. cbn [snd].
    destruct H1 as (? & ? & _). by eapply with_lock_inv.
Qed.

Lemma sys_inv_exclusion y p q :
  sys_inv y -> p <> q ->
  (rank Reserved <= rank (sys_level y p) -> rank (sys_level y q) < rank Reserved) /\
  (sys_level y p = Exclusive -> sys_level y q = Unlocked).
Proof.
  intros [Hc Hm] Hne. split.
  - intros Hp. destruct (Z_lt_ge_dec (rank (sys_level y q)) (rank Reserved)); [done|exfalso].
    specialize (Hc p q RESERVED_BYTE Hne). rewrite !Hm in Hc. unfold holds in Hc.
    rewrite (proj2 (Z.eqb_neq _ _)), Z.eqb_refl in Hc by (unfold RESERVED_BYTE; lia).
    rewrite !(proj2 (Z.leb_le _ _)) in Hc by lia. done.
  - intros Hp. specialize (Hc p q SHARED_FIRST Hne). rewrite !Hm, Hp in Hc.
    assert (forall l, holds l SHARED_FIRST = match l with Unlocked => F_UNLCK | Exclusive => F_WRLCK | _ => F_RDLCK end) as Hh
      by (by intros []). rewrite !Hh in Hc. by destruct (sys_level y q).
Qed.

End Ladder.
Arguments FileLockState : clear implicits.
Arguments System : clear implicits.

Section Contention.
Context {OS : Type} `{Fcntl OS}.

Lemma step_up_granted (s : FileLockState OS) k start n l' :
  level s <> Unlocked -> step_up s = (_ ← fcntl_lock k start n; set_lock_level l') s ->
  (forall q b, q <> pid s -> in_range start n b = true -> conflict k (held (os s) q b) = false) ->
  exists o', step_up s = (Ok tt, MkLock o' (pid s) l').
Proof.
  intros _ E Hno. rewrite E. unfold mbind, M_bind, fcntl_lock.
  destruct (setlk (os s) (pid s) k start n) as [o'|] eqn:Es; [by exists o'|].
  apply setlk_refused in Es as (q & b & Hq & Hb & Hcf). rewrite Hno in Hcf by done. done.
Qed.

Lemma in_range_1 x b : in_range x 1 b = true -> b = x.
Proof. unfold in_range. destruct (Z.leb_spec x b), (Z.ltb_spec b (x + 1)); cbn; try done. intros. lia. Qed.

(** A writer that finds readers: it takes RESERVED and PENDING, is refused
    EXCLUSIVE, and stays at PENDING. *)
Lemma contended_exclusive (s : FileLockState OS) r :
  lock_inv s -> level s = Shared -> r <> pid s -> held (os s) r SHARED_FIRST = F_RDLCK ->
  (forall q, q <> pid s -> held (os s) q RESERVED_BYTE = F_UNLCK /\ held (os s) q PENDING_BYTE = F_UNLCK) ->
  exists s', set_level Exclusive s = (Err (Locked DbFile), s') /\ level s' = Pending /\
    lock_inv s' /\ same_others s s'.
Proof.
  intros Hi Hl Hr Hrd Hfree. unfold set_level.
  destruct (step_up_granted s F_WRLCK RESERVED_BYTE 1 Reserved) as [o1 E1]; [by rewrite Hl| | |].
  { unfold step_up. erewrite M_bind_ok by reflexivity. by rewrite Hl. }
  { intros q b Hq ->%in_range_1. by destruct (Hfree q Hq) as [-> _]. }
  pose proof (step_up_spec s Hi) as H1. rewrite E1 in H1. destruct H1 as (Hi1 & Ho1 & _).
  set (s1 := MkLock o1 (pid s) Reserved) in *.
  destruct (step_up_granted s1 F_WRLCK PENDING_BYTE 1 Pending) as [o2 E2]; [done|done| |].
  { intros q b Hq ->%in_range_1. destruct Ho1 as [_ Ho1]. rewrite Ho1 by done. by destruct (Hfree q Hq) as [_ ->]. }
  pose proof (step_up_spec s1 Hi1) as H2. rewrite E2 in H2. destruct H2 as (Hi2 & Ho2 & _).
  set (s2 := MkLock o2 (pid s1) Pending) in *.
  assert (step_up s2 = (Err (Locked DbFile), s2)) as E3.
  { unfold step_up. erewrite M_bind_ok by reflexivity. cbn [level s2].
    apply M_bind_err. unfold fcntl_lock. destruct (setlk _ _ _ _ _) as [o'|] eqn:Es; [|done].
    exfalso. assert (setlk (os s2) (pid s2) F_WRLCK SHARED_FIRST SHARED_SIZE = None) as Hno; [|congruence].
    apply setlk_refused. exists r, SHARED_FIRST. split; [done|]. split; [done|].
    destruct Ho1 as [_ Ho1], Ho2 as [_ Ho2]. rewrite Ho2 by done. rewrite Ho1 by done. by rewrite Hrd. }
  exists s2. split; [|split; [done|split; [done|by eapply same_others_trans]]].
  apply M_bind_err. cbn [climb]. erewrite M_bind_ok by reflexivity. rewrite Hl. cbn [level_lt rank Z.ltb Z.compare].
  change (level_lt Shared Exclusive) with true. cbv iota. rewrite (M_bind_ok _ _ _ _ _ E1).
  erewrite M_bind_ok by reflexivity. change (level_lt (level s1) Exclusive) with true. cbv iota.
  rewrite (M_bind_ok _ _ _ _ _ E2). erewrite M_bind_ok by reflexivity.
  change (level_lt (level s2) Exclusive) with true. cbv iota. by apply M_bind_err.
Qed.

End Contention.

(** ** An instance of the system call *)

(** Lock tables as a finite map from processes to what they hold. *)
Abbreviation LockTable := (gmap nat (Z -> LockKind)).

Definition table_held (t : LockTable) (p : nat) (b : Z) : LockKind :=
  match t !! p with Some f => f b | None => F_UNLCK end.

Definition range_bytes (start n : Z) : list Z := map (fun i => start + Z.of_nat i) (seq 0 (Z.to_nat n)).

Definition table_setlk (t : LockTable) (p : nat) (k : LockKind) (start n : Z) : option LockTable :=
  if existsb (fun '(q, f) => negb (bool_decide (q = p)) &&
                existsb (fun b => conflict k (f b)) (range_bytes start n)) (map_to_list t)
  then None
  else Some (<[p := fun b => if in_range start n b then k else table_held t p b]> t).

Lemma range_bytes_spec start n b : b ∈ range_bytes start n <-> in_range start n b = true.
Proof.
  unfold range_bytes, in_range. rewrite list_elem_of_fmap. split.
  - intros (i & -> & Hi%elem_of_seq). rewrite (proj2 (Z.leb_le _ _)), (proj2 (Z.ltb_lt _ _)) by lia. done.
  - intros [H1%Z.leb_le H2%Z.ltb_lt]%andb_true_iff. exists (Z.to_nat (b - start)). split; [lia|].
    apply elem_of_seq. lia.
Qed.

#[global] Instance byte_locks : Fcntl LockTable.
Proof.
  refine {| held := table_held; setlk := table_setlk |}.
  - intros t p k start n. unfold table_setlk.
    destruct (existsb _ (map_to_list t)) eqn:E; (split; [intros Hx|]); try done.
    + apply existsb_exists in E as ([q f] & Hin & [Hq Hb]%andb_true_iff).
      apply existsb_exists in Hb as (b & Hb & Hcf). exists q, b.
      apply negb_true_iff, bool_decide_eq_false in Hq. split; [done|]. split.
      * apply range_bytes_spec. by apply list_elem_of_In.
      * unfold table_held. apply list_elem_of_In, elem_of_map_to_list in Hin. by rewrite Hin.
    + intros (q & b & Hq & Hb & Hcf). exfalso. unfold table_held in Hcf.
      destruct (t !! q) as [f|] eqn:Hf; [|by destruct k].
      assert (existsb (fun '(q, f) => negb (bool_decide (q = p)) &&
        existsb (fun b => conflict k (f b)) (range_bytes start n)) (map_to_list t) = true); [|congruence].
      apply existsb_exists. exists (q, f). split; [by apply list_elem_of_In, elem_of_map_to_list|].
      rewrite bool_decide_eq_false_2 by done. cbn [negb andb]. apply existsb_exists. exists b.
      split; [by apply list_elem_of_In, range_bytes_spec|done].
  - intros t p k start n t'. unfold table_setlk. destruct (existsb _ _); [done|]. intros [= <-] q b.
    unfold table_held at 1. destruct (bool_decide_reflect (q = p)) as [->|Hne]; cbn [andb].
    + by rewrite lookup_insert_eq.
    + by rewrite lookup_insert_ne.
Defined.

(** ** Properties *)

(** C11. Mutual exclusion: from a file nobody has locked, however the steps of
    any number of processes interleave, at most one process is ever at
    RESERVED or above, and when one is at EXCLUSIVE every other one is
    unlocked (no reader can be active while the main file is written). *)
Theorem lock_ladder_mutual_exclusion {OS} `{Fcntl OS} (o : OS) y p q :
  (forall p b, held o p b = F_UNLCK) ->
  rtc sys_step (MkSystem o (fun _ => Unlocked)) y -> p <> q ->
  (rank Reserved <= rank (sys_level y p) -> rank (sys_level y q) < rank Reserved) /\
  (sys_level y p = Exclusive -> sys_level y q = Unlocked).
Proof.
  intros Ho Hr Hne. apply sys_inv_exclusion; [|done].
  assert (sys_inv (MkSystem o (fun _ => Unlocked))) as H0.
  { split.
    - intros p1 p2 b _. cbn. by rewrite !Ho.
    - intros p1 b. cbn. rewrite Ho. unfold holds, rank. by repeat case_match. }
  clear Ho. induction Hr as [|y1 y2 y3 Hs _ IH]; [done|]. apply IH. by eapply sys_step_inv.
Qed.

Definition no_locks : LockTable := ∅.
Definition start_system : System LockTable := MkSystem no_locks (fun _ => Unlocked).
(** Process 1 reads; process 2 climbs to PENDING. *)
Definition busy_system : System LockTable :=
  let up p y := with_lock y (snd (step_up (lock_of y p))) in
  up 2%nat (up 2%nat (up 2%nat (up 1%nat start_system))).

Example lock_ladder_mutual_exclusion_witness :
  sys_level busy_system 2%nat = Pending /\
  (rank Reserved <= rank (sys_level busy_system 2%nat) -> rank (sys_level busy_system 1%nat) < rank Reserved) /\
  (sys_level busy_system 2%nat = Exclusive -> sys_level busy_system 1%nat = Unlocked).
Proof.
  split; [by vm_compute|]. apply (lock_ladder_mutual_exclusion no_locks busy_system 2%nat 1%nat).
  - intros p b. unfold no_locks. cbn. unfold table_held. by rewrite lookup_empty.
  - eapply rtc_l; [apply (sys_up _ 1%nat)|]. do 3 (eapply rtc_l; [apply (sys_up _ 2%nat)|]).
    apply rtc_refl.
  - done.
Defined.

(** PENDING drains the readers: once a process is at PENDING or above, no
    other process can start reading: its step from UNLOCKED is refused and
    changes nothing it holds. *)
Theorem pending_blocks_new_readers {OS} `{Fcntl OS} (y : System OS) p q :
  sys_inv y -> p <> q -> rank Pending <= rank (sys_level y q) -> sys_level y p = Unlocked ->
  exists s', step_up (lock_of y p) = (Err (Locked DbFile), s') /\ level s' = Unlocked /\
    sys_inv (with_lock y s').
Proof.
  intros Hy Hne Hq Hp. destruct Hy as [Hc Hm].
  assert (lock_inv (lock_of y p)) as Hi by done.
  pose proof (step_up_shared_spec (lock_of y p) Hp Hi) as Hs.
  destruct (step_up (lock_of y p)) as [r s']. destruct Hs as (Hi' & Ho & Hr & Hw).
  assert (r = Err (Locked DbFile)) as ->.
  { apply (Hw q); [cbn; congruence|]. cbn. rewrite (Hm q). unfold holds. rewrite Z.eqb_refl.
    by rewrite (proj2 (Z.leb_le _ _)). }
  exists s'. split; [done|]. split; [by destruct Hr as [[? _]|[_ ?]]|]. by eapply with_lock_inv.
Qed.

Example pending_blocks_new_readers_witness :
  exists s', step_up (lock_of busy_system 3%nat) = (Err (Locked DbFile), s') /\ level s' = Unlocked /\
    sys_inv (with_lock busy_system s').
Proof.
  apply (pending_blocks_new_readers busy_system 3%nat 2%nat).
  - assert (sys_inv start_system) as H0.
    { split; [intros p q b _|intros p b]; cbn; unfold table_held, no_locks; rewrite !lookup_empty; [done|].
      unfold holds, rank. by repeat case_match. }
    unfold busy_system. repeat (eapply sys_step_inv; [|apply sys_up]). exact H0.
  - done.
  - by vm_compute.
  - by vm_compute.
Defined.
