(* ===== verification/Shm.v ===== *)
(** * WAL reader marks ([src/vfs/shm.rs])

    The [-shm] file (the wal-index fields the crate uses: [mxFrame],
    [nBackfill] and the reader marks, stored as [u32]s in the host's byte
    order) together with the [fcntl] locks on its lock bytes, and the
    reader-slot protocol over them.  The registry of shared file descriptors
    ([open_shm_shared]) exists because locks belong to the process and not to
    the descriptor; that is how [Fcntl] has them, so opening is just the
    existence test. *)

From stdpp Require Import prelude list numbers gmap.
From Stdlib Require Import ZArith Lia.
From S2P Require Import Prelude Vfs Wal Lock.

Local Open Scope Z_scope.

Definition MX_FRAME_OFFSET : Z := 16.
Definition READ_MARK_BASE_OFFSET : Z := 100.
Definition READ_MARK_UNUSED : Z := 4294967295.
Definition MIN_SHM_LEN : Z := READ_MARK_BASE_OFFSET + 20.
Definition SHM_REGION_SIZE : Z := 32768.
Definition MAX_SHM_LEN : Z := SHM_REGION_SIZE * 8.
Definition UNIX_SHM_BASE : Z := 120.
Definition N_BACKFILL_OFFSET : Z := 96.

Definition wal_read_lock_byte (slot : Z) : Z := UNIX_SHM_BASE + 3 + slot.
Definition WAL_WRITE_LOCK_BYTE : Z := UNIX_SHM_BASE.
Definition WAL_CKPT_LOCK_BYTE : Z := UNIX_SHM_BASE + 1.

Definition read_mark_offset (slot : Z) : Z := sat_add READ_MARK_BASE_OFFSET (sat_mul slot 4).

(** [u32::to_ne_bytes] and [u32::from_ne_bytes]. *)
Definition ne_encode `{host : Host} (v : Z) : list Z :=
  if little_endian then rev (be_encode 4 v) else be_encode 4 v.
Definition ne_decode `{host : Host} (bs : list Z) : Z :=
  if little_endian then le_decode bs else be_decode bs.

(** The contents of a fresh [-shm] file: zeros, with the five marks unused (the
    bytes of [READ_MARK_UNUSED] are the same in either byte order). *)
Definition fresh_shm_bytes : list Z :=
  fold_left (fun bytes slot =>
      default bytes (set_range bytes (read_mark_offset slot) (be_encode 4 READ_MARK_UNUSED)))
    [0; 1; 2; 3; 4] (zeros SHM_REGION_SIZE).

(** The lock table of the [-shm] file and its contents, if it exists. *)
Record Shm (OS : Type) : Type := MkShm {
  shm_os : OS;
  shm_file : option (list Z) }.
Arguments MkShm {OS}.
Arguments shm_os {OS}.
Arguments shm_file {OS}.

Section Slots.
Context `{host : Host} {OS : Type} `{Fcntl OS}.

Definition shm_lock (pid : nat) (kind : LockKind) (byte : Z) : M (Shm OS) VfsError unit :=
  fun s => match setlk (shm_os s) pid kind byte 1 with
           | Some o => (Ok tt, MkShm o (shm_file s))
           | None => (Err (Locked ShmFile), s)
           end.

Definition open_shm : M (Shm OS) VfsError (list Z) :=
  fun s => match shm_file s with Some bytes => (Ok bytes, s) | None => (Err (NotFound ShmFile), s) end.

Definition validate_shm_len : M (Shm OS) VfsError unit :=
  bytes ← open_shm;
  if len bytes <? MIN_SHM_LEN then throw (Io ShmFile)
  else if MAX_SHM_LEN <? len bytes then throw (Io ShmFile)
  else mret tt.

(** [read_exact_at] fails on a short file; [write_all_at] extends it. *)
Definition read_u32_at (offset : Z) : M (Shm OS) VfsError Z :=
  bytes ← open_shm;
  match get_range bytes offset (offset + 4) with
  | Some bs => mret (ne_decode bs)
  | None => throw (Io ShmFile)
  end.
Definition write_u32_at (offset value : Z) : M (Shm OS) VfsError unit :=
  bytes ← open_shm; modify (fun s => MkShm (shm_os s) (Some (write_at bytes (ne_encode value) offset))).

Definition mx_frame : M (Shm OS) VfsError Z := read_u32_at MX_FRAME_OFFSET.
Definition set_read_mark (slot value : Z) : M (Shm OS) VfsError unit :=
  write_u32_at (read_mark_offset slot) value.
Definition read_mark (slot : Z) : M (Shm OS) VfsError Z := read_u32_at (read_mark_offset slot).

(** The loop over the slots: the first one whose exclusive claim succeeds gets
    the mark, then the lock is downgraded. *)
Fixpoint claim_slots (pid : nat) (slots : list Z) : M (Shm OS) VfsError Z :=
  match slots with
  | [] => throw (Locked ShmFile)
  | slot :: rest => fun s =>
    match shm_lock pid F_WRLCK (wal_read_lock_byte slot) s with
    | (Ok _, s') =>
      (mx ← mx_frame;
       _ ← set_read_mark slot mx;
       _ ← shm_lock pid F_RDLCK (wal_read_lock_byte slot);
       mret slot) s'
    | (Err _, s') => claim_slots pid rest s'
    end
  end.

Definition claim_wal_read_lock (pid : nat) : M (Shm OS) VfsError (option Z) :=
  fun s => match shm_file s with
           | None => (Ok None, s)
           | Some _ => (_ ← validate_shm_len; slot ← claim_slots pid [1; 2; 3; 4]; mret (Some slot)) s
           end.

(** Dropping a [WalReadLock] guard. *)
Definition drop_wal_read_lock (pid : nat) (slot : Z) : M (Shm OS) VfsError unit :=
  shm_lock pid F_UNLCK (wal_read_lock_byte slot).

Fixpoint active_marks_loop (pid : nat) (slots : list Z) (found : list Z) : M (Shm OS) VfsError (list Z) :=
  match slots with
  | [] => mret found
  | slot :: rest => fun s =>
    match shm_lock pid F_WRLCK (wal_read_lock_byte slot) s with
    | (Ok _, s') =>
      (_ ← shm_lock pid F_UNLCK (wal_read_lock_byte slot); active_marks_loop pid rest found) s'
    | (Err _, s') => (m ← read_mark slot; active_marks_loop pid rest (found ++ [m])) s'
    end
  end.

Definition active_reader_marks (pid : nat) : M (Shm OS) VfsError (list Z) :=
  _ ← validate_shm_len; active_marks_loop pid [1; 2; 3; 4] [].

Definition claim_wal_write_lock (pid : nat) : M (Shm OS) VfsError unit :=
  _ ← validate_shm_len; shm_lock pid F_WRLCK WAL_WRITE_LOCK_BYTE.
Definition release_write_lock (pid : nat) : M (Shm OS) VfsError unit :=
  shm_lock pid F_UNLCK WAL_WRITE_LOCK_BYTE.
Definition claim_wal_checkpoint_lock (pid : nat) : M (Shm OS) VfsError unit :=
  _ ← validate_shm_len; shm_lock pid F_WRLCK WAL_CKPT_LOCK_BYTE.
Definition drop_wal_checkpoint_lock (pid : nat) : M (Shm OS) VfsError unit :=
  shm_lock pid F_UNLCK WAL_CKPT_LOCK_BYTE.
Definition publish_mx_frame (v : Z) : M (Shm OS) VfsError unit := write_u32_at MX_FRAME_OFFSET v.
Definition read_backfill : M (Shm OS) VfsError Z := read_u32_at N_BACKFILL_OFFSET.
Definition publish_backfill (v : Z) : M (Shm OS) VfsError unit := write_u32_at N_BACKFILL_OFFSET v.

(** ** The protocol *)

(** The [u32] stored at an offset. *)
Definition field (s : Shm OS) (offset : Z) : option Z :=
  bytes ← shm_file s; bs ← get_range bytes offset (offset + 4); mret (ne_decode bs).

(** Process [p] reads under [slot] with mark [m]. *)
Definition reader (s : Shm OS) (p : nat) (slot m : Z) : Prop :=
  held (shm_os s) p (wal_read_lock_byte slot) = F_RDLCK /\ field s (read_mark_offset slot) = Some m.

(** A well-formed file of an admissible length, and no two processes with
    conflicting locks. *)
Definition shm_inv (s : Shm OS) : Prop :=
  compatible (shm_os s) /\
  exists bytes, shm_file s = Some bytes /\ bytes_ok bytes /\ MIN_SHM_LEN <= len bytes <= MAX_SHM_LEN.

(** ** The fields of the file *)

Lemma ne_roundtrip v : is_u32 v -> ne_decode (ne_encode v) = v.
Proof.
  intros Hv. unfold ne_decode, ne_encode, le_decode.
  destruct little_endian; rewrite ?rev_involutive; apply be_roundtrip; exact Hv.
Qed.

Lemma len_ne_encode v : len (ne_encode v) = 4.
Proof.
  pose proof (len_be_encode 4 v). unfold len, ne_encode in *.
  destruct little_endian; rewrite ?length_rev; lia.
Qed.

Lemma ne_encode_ok v : bytes_ok (ne_encode v).
Proof.
  unfold ne_encode, bytes_ok. destruct little_endian; [|apply be_encode_ok].
  apply Forall_rev. apply be_encode_ok.
Qed.

Lemma ne_decode_bound bs : bytes_ok bs -> len bs = 4 -> is_u32 (ne_decode bs).
Proof.
  intros Hb Hl. unfold ne_decode, le_decode, is_u32.
  assert (len (rev bs) = 4) as Hr by (unfold len in *; rewrite length_rev; lia).
  pose proof (be_decode_bound bs Hb) as H1. pose proof (be_decode_bound (rev bs) (Forall_rev Hb)) as H2.
  rewrite Hl in H1. rewrite Hr in H2. destruct little_endian; lia.
Qed.

Lemma read_mark_offset_eq slot : 0 <= slot <= 4 -> read_mark_offset slot = 100 + 4 * slot.
Proof.
  intros. unfold read_mark_offset. rewrite sat_mul_small, sat_add_small; unfold READ_MARK_BASE_OFFSET, U64_MAX; lia.
Qed.

Lemma read_u32_spec s off :
  shm_inv s -> 0 <= off -> off + 4 <= MIN_SHM_LEN ->
  exists v, is_u32 v /\ field s off = Some v /\ read_u32_at off s = (Ok v, s).
Proof.
  intros (_ & bytes & Hf & Hok & Hlen) H0 H1.
  destruct (get_range bytes off (off + 4)) as [bs|] eqn:E.
  2:{ rewrite get_range_Some in E by lia. done. }
  exists (ne_decode bs). split.
  { apply ne_decode_bound; [by eapply bytes_ok_get_range|]. apply get_range_inv in E. lia. }
  unfold field, read_u32_at. rewrite Hf. cbn [mbind option_bind]. rewrite E. split; [done|].
  unfold open_shm. erewrite M_bind_ok; [|rewrite Hf; reflexivity]. by rewrite E.
Qed.

Lemma write_u32_spec s off v :
  shm_inv s -> 0 <= off -> off + 4 <= MIN_SHM_LEN -> is_u32 v ->
  exists s', write_u32_at off v s = (Ok tt, s') /\ shm_inv s' /\ shm_os s' = shm_os s /\ field s' off = Some v.
Proof.
  intros (Hc & bytes & Hf & Hok & Hlen) H0 H1 Hv.
  pose proof (len_ne_encode v) as L4. unfold MIN_SHM_LEN, MAX_SHM_LEN, SHM_REGION_SIZE, READ_MARK_BASE_OFFSET in *.
  assert (set_range bytes off (ne_encode v) = Some (write_at bytes (ne_encode v) off)) as Hw
    by (apply write_at_inside; rewrite ?L4; unfold U64_MAX; lia).
  eexists. split.
  { unfold write_u32_at, open_shm. erewrite M_bind_ok; [|rewrite Hf; reflexivity]. reflexivity. }
  split; [|split; [done|]].
  - split; [done|]. eexists. split; [reflexivity|]. split.
    + eapply set_range_bytes_ok; [exact Hw|done|apply ne_encode_ok].
    + rewrite (set_range_len _ _ _ _ Hw). exact Hlen.
  - unfold field. cbn [shm_file mbind option_bind]. rewrite (get_range_set_eq _ _ _ _ _ Hw) by lia.
    cbn [mbind option_bind]. by rewrite ne_roundtrip.
Qed.

Lemma validate_ok s : shm_inv s -> validate_shm_len s = (Ok tt, s).
Proof.
  intros (_ & bytes & Hf & _ & Hlen). unfold validate_shm_len, open_shm.
  erewrite M_bind_ok; [|rewrite Hf; reflexivity].
  rewrite (proj2 (Z.ltb_ge _ _)), (proj2 (Z.ltb_ge _ _)) by lia. done.
Qed.

(** ** The locks *)

Lemma in_range_self b : in_range b 1 b = true.
Proof. unfold in_range. rewrite Z.leb_refl, (proj2 (Z.ltb_lt _ _)) by lia. done. Qed.

Lemma shm_lock_ok pid k b s s' :
  shm_inv s -> shm_lock pid k b s = (Ok tt, s') ->
  shm_inv s' /\ shm_file s' = shm_file s /\ held (shm_os s') pid b = k /\
  (forall q b', q <> pid \/ b' <> b -> held (shm_os s') q b' = held (shm_os s) q b').
Proof.
  intros [Hi Hf]. unfold shm_lock. destruct (setlk _ _ _ _ _) as [o|] eqn:E; [|done]. intros [= <-].
  split; [split; [by eapply setlk_compatible|done]|]. split; [done|]. cbn [shm_os]. split.
  - rewrite (setlk_granted _ _ _ _ _ _ E), bool_decide_eq_true_2, in_range_self by done. done.
  - intros q b' Hq. rewrite (setlk_granted _ _ _ _ _ _ E).
    destruct (bool_decide_reflect (q = pid)) as [->|]; [|done].
    destruct (in_range b 1 b') eqn:Hb; [|done]. apply in_range_1 in Hb. destruct Hq; congruence.
Qed.

Lemma shm_lock_err pid k b s e s' :
  shm_lock pid k b s = (Err e, s') ->
  s' = s /\ exists q, q <> pid /\ conflict k (held (shm_os s) q b) = true.
Proof.
  unfold shm_lock. destruct (setlk _ _ _ _ _) as [o|] eqn:E; [done|]. intros [= _ <-]. split; [done|].
  apply setlk_refused in E as (q & b' & Hq & ->%in_range_1 & Hc). by exists q.
Qed.

(** A lock that conflicts with nobody is granted; releasing always is. *)
Lemma shm_lock_free pid k b s :
  (forall q, q <> pid -> conflict k (held (shm_os s) q b) = false) ->
  exists s', shm_lock pid k b s = (Ok tt, s').
Proof.
  intros Hf. destruct (shm_lock pid k b s) as [[[]|e] s'] eqn:E; [by exists s'|].
  destruct (shm_lock_err _ _ _ _ _ _ E) as (_ & q & Hq & Hc). by rewrite Hf in Hc.
Qed.

(** Others hold nothing on the byte of a slot. *)
Definition alone (s : Shm OS) (pid : nat) (slot : Z) : Prop :=
  forall q, q <> pid -> held (shm_os s) q (wal_read_lock_byte slot) = F_UNLCK.

Lemma exclusive_alone pid slot s :
  shm_inv s -> held (shm_os s) pid (wal_read_lock_byte slot) = F_WRLCK -> alone s pid slot.
Proof.
  intros [Hc _] Hh q Hq. specialize (Hc pid q (wal_read_lock_byte slot) ltac:(congruence)).
  rewrite Hh in Hc. by destruct (held _ q _).
Qed.

Lemma claim_slots_spec pid slots : forall s slot s',
  shm_inv s -> (forall x, x ∈ slots -> 1 <= x <= 4) -> claim_slots pid slots s = (Ok slot, s') ->
  slot ∈ slots /\ shm_inv s' /\ alone s' pid slot /\
  exists m, is_u32 m /\ field s MX_FRAME_OFFSET = Some m /\ reader s' pid slot m.
Proof.
  induction slots as [|x slots IH]; intros s slot s' Hi Hr; [done|]. cbn [claim_slots].
  pose proof (Hr x ltac:(by left)) as Hx.
  destruct (shm_lock pid F_WRLCK (wal_read_lock_byte x) s) as [[[]|e] s1] eqn:E1.
  2:{ destruct (shm_lock_err _ _ _ _ _ _ E1) as [-> _]. intros Hc.
      destruct (IH _ _ _ Hi ltac:(intros y Hy; apply Hr; by right) Hc) as (Hin & Hrest). split; [by right|done]. }
  destruct (shm_lock_ok _ _ _ _ _ Hi E1) as (Hi1 & Hf1 & Hh1 & _).
  destruct (read_u32_spec s1 MX_FRAME_OFFSET Hi1) as (m & Hm & Hfm & Rm); [unfold MX_FRAME_OFFSET, MIN_SHM_LEN, READ_MARK_BASE_OFFSET; lia..|].
  destruct (write_u32_spec s1 (read_mark_offset x) m Hi1) as (s2 & Rw & Hi2 & Ho2 & Hf2); [..|done|].
  1,2: rewrite read_mark_offset_eq by lia; unfold MIN_SHM_LEN, READ_MARK_BASE_OFFSET; lia.
  rewrite (M_bind_ok _ _ _ _ _ Rm), (M_bind_ok _ _ _ _ _ Rw).
  destruct (shm_lock pid F_RDLCK (wal_read_lock_byte x) s2) as [[[]|e] s3] eqn:E3.
  2:{ rewrite (M_bind_err _ _ _ _ _ E3). done. }
  rewrite (M_bind_ok _ _ _ _ _ E3). intros [= <- <-].
  destruct (shm_lock_ok _ _ _ _ _ Hi2 E3) as (Hi3 & Hf3 & Hh3 & Ho3).
  split; [by left|]. split; [done|]. split.
  - intros q Hq. rewrite Ho3, Ho2 by auto. by apply (exclusive_alone pid).
  - exists m. split; [done|]. split; [unfold field in *; by rewrite <- Hf1|].
    split; [done|]. unfold field in *. by rewrite Hf3.
Qed.

(** Probing the slots: it always succeeds, leaves the file and the locks of
    other processes alone, reports every other process' reader, and releases
    the prober's own lock on every slot nobody else holds. *)
Definition probe_effect (q : nat) (slots : list Z) (found : list Z) (s : Shm OS) (ms : list Z) (s' : Shm OS) : Prop :=
  shm_inv s' /\ shm_file s' = shm_file s /\
  (forall p b, p <> q -> held (shm_os s') p b = held (shm_os s) p b) /\
  (forall b, held (shm_os s') q b = held (shm_os s) q b \/ held (shm_os s') q b = F_UNLCK) /\
  (forall m, m ∈ found -> m ∈ ms) /\
  (forall p slot m, p <> q -> slot ∈ slots -> reader s p slot m -> m ∈ ms) /\
  (forall slot, slot ∈ slots -> alone s q slot -> held (shm_os s') q (wal_read_lock_byte slot) = F_UNLCK).

Lemma probe_free_slot q x slots found s s1 s2 ms s' :
  shm_inv s -> shm_lock q F_WRLCK (wal_read_lock_byte x) s = (Ok tt, s1) ->
  shm_lock q F_UNLCK (wal_read_lock_byte x) s1 = (Ok tt, s2) ->
  probe_effect q slots found s2 ms s' -> probe_effect q (x :: slots) found s ms s'.
Proof.
  intros Hi E1 E2 (Hi' & Hf & Hot & Hown & Hin & Hrd & Hal).
  destruct (shm_lock_ok _ _ _ _ _ Hi E1) as (Hi1 & Hf1 & Hh1 & Ho1).
  destruct (shm_lock_ok _ _ _ _ _ Hi1 E2) as (Hi2 & Hf2 & Hh2 & Ho2).
  assert (forall p b, p <> q -> held (shm_os s2) p b = held (shm_os s) p b) as Ho
    by (intros p b Hp; rewrite Ho2, Ho1 by auto; done).
  split; [done|]. split; [congruence|]. split; [intros p b Hp; by rewrite Hot, Ho|]. split; [|split; [done|split]].
  - intros b. destruct (Hown b) as [->|]; [|by right].
    destruct (Z.eq_dec b (wal_read_lock_byte x)) as [->|Hb]; [by right|]. left. by rewrite Ho2, Ho1 by auto.
  - intros p slot m Hp [->|Hs]%elem_of_cons [Hr Hm].
    + exfalso. pose proof (exclusive_alone q x s1 Hi1 Hh1 p Hp) as Ha. rewrite Ho1, Hr in Ha by auto. done.
    + apply (Hrd p slot); [done|done|]. split; [by rewrite Ho|]. unfold field in *. congruence.
  - intros slot [->|Hs]%elem_of_cons Ha.
    + destruct (Hown (wal_read_lock_byte x)) as [->|]; done.
    + apply Hal; [done|]. intros p Hp. by rewrite Ho, Ha.
Qed.

Lemma active_loop_spec q slots : forall found s,
  shm_inv s -> (forall x, x ∈ slots -> 1 <= x <= 4) ->
  exists ms s', active_marks_loop q slots found s = (Ok ms, s') /\ probe_effect q slots found s ms s'.
Proof.
  induction slots as [|x slots IH]; intros found s Hi Hr; cbn [active_marks_loop].
  { exists found, s. split; [done|]. do 2 (split; [done|]). split; [done|]. split; [by left|]. split; [done|].
    split; [by intros p slot m _ ?%elem_of_nil|by intros slot ?%elem_of_nil]. }
  assert (forall y, y ∈ slots -> 1 <= y <= 4) as Hr' by (intros y Hy; apply Hr; by right).
  destruct (shm_lock q F_WRLCK (wal_read_lock_byte x) s) as [[[]|e] s1] eqn:E1.
  - destruct (shm_lock_ok _ _ _ _ _ Hi E1) as (Hi1 & _).
    destruct (shm_lock_free q F_UNLCK (wal_read_lock_byte x) s1) as [s2 E2]; [done|].
    destruct (shm_lock_ok _ _ _ _ _ Hi1 E2) as (Hi2 & _). rewrite (M_bind_ok _ _ _ _ _ E2).
    destruct (IH found s2 Hi2 Hr') as (ms & s' & El & Hp). exists ms, s'. split; [done|].
    by eapply probe_free_slot.
  - destruct (shm_lock_err _ _ _ _ _ _ E1) as (-> & p0 & Hp0 & Hc0).
    pose proof (Hr x ltac:(by left)) as Hx.
    destruct (read_u32_spec s (read_mark_offset x) Hi) as (m & _ & Hfm & Rm).
    1,2: rewrite read_mark_offset_eq by lia; unfold MIN_SHM_LEN, READ_MARK_BASE_OFFSET; lia.
    unfold read_mark. rewrite (M_bind_ok _ _ _ _ _ Rm).
    destruct (IH (found ++ [m]) s Hi Hr') as (ms & s' & El & Hi' & Hf & Hot & Hown & Hin & Hrd & Hal).
    exists ms, s'. split; [done|]. do 4 (split; [done|]).
    split; [intros k Hk; apply Hin, elem_of_app; by left|]. split.
    + intros p slot k Hp [->|Hs]%elem_of_cons Hk; [|by apply (Hrd p slot)].
      apply Hin, elem_of_app. right. destruct Hk as [_ Hk]. apply list_elem_of_singleton. congruence.
    + intros slot [->|Hs]%elem_of_cons Ha; [|by apply Hal]. by rewrite Ha in Hc0.
Qed.

Lemma in_slots x : x ∈ [1; 2; 3; 4] <-> 1 <= x <= 4.
Proof. rewrite !elem_of_cons, elem_of_nil. lia. Qed.

Lemma claim_spec pid s slot s1 :
  shm_inv s -> claim_wal_read_lock pid s = (Ok (Some slot), s1) ->
  1 <= slot <= 4 /\ shm_inv s1 /\ alone s1 pid slot /\
  exists m, is_u32 m /\ field s MX_FRAME_OFFSET = Some m /\ reader s1 pid slot m.
Proof.
  intros Hi. pose proof Hi as (_ & bytes & Hf & _). unfold claim_wal_read_lock. rewrite Hf.
  rewrite (M_bind_ok _ _ _ _ _ (validate_ok s Hi)). intros (x & s' & Hc & Hr)%M_bind_inv.
  injection Hr as -> ->.
  destruct (claim_slots_spec _ _ _ _ _ Hi (fun y => proj1 (in_slots y)) Hc) as (Hin & Hrest).
  split; [by apply in_slots|done].
Qed.

Lemma probe_spec q s : shm_inv s ->
  exists ms s', active_reader_marks q s = (Ok ms, s') /\ probe_effect q [1; 2; 3; 4] [] s ms s'.
Proof.
  intros Hi. unfold active_reader_marks. rewrite (M_bind_ok _ _ _ _ _ (validate_ok s Hi)).
  apply active_loop_spec; [done|]. intros y. apply in_slots.
Qed.

End Slots.

(** ** Properties *)

(** C34. A pinned reader is visible: when process [p] claims a reader slot, the
    slot carries the [mxFrame] the file had; collecting the active marks in
    another process then succeeds, and that value is among them. *)
Theorem claimed_reader_is_seen `{host : Host} {OS} `{Fcntl OS} (s s1 : Shm OS) p q slot :
  shm_inv s -> q <> p -> claim_wal_read_lock p s = (Ok (Some slot), s1) ->
  exists m ms s2,
    1 <= slot <= 4 /\ field s MX_FRAME_OFFSET = Some m /\ field s1 (read_mark_offset slot) = Some m /\
    active_reader_marks q s1 = (Ok ms, s2) /\ m ∈ ms.
Proof.
  intros Hi Hq Hc. destruct (claim_spec _ _ _ _ Hi Hc) as (Hs & Hi1 & _ & m & _ & Hm & Hr).
  destruct (probe_spec q s1 Hi1) as (ms & s2 & E & _ & _ & _ & _ & _ & Hrd & _).
  exists m, ms, s2. split; [done|]. split; [done|]. split; [by destruct Hr|]. split; [done|].
  apply (Hrd p slot); [congruence|by apply in_slots|done].
Qed.

Definition sample_shm : Shm LockTable := MkShm no_locks (Some (write_at (zeros 136) [7; 0; 0; 0] 16)).

Lemma no_locks_compatible : compatible no_locks.
Proof. intros p q b _. unfold no_locks. cbn. unfold table_held. by rewrite !lookup_empty. Qed.

Lemma sample_shm_inv : shm_inv sample_shm.
Proof.
  split; [apply no_locks_compatible|]. eexists. split; [reflexivity|].
  split; [by apply bytes_okb_ok|by vm_compute].
Qed.

Example claimed_reader_is_seen_witness :
  exists s1 m ms s2,
    1 <= 1 <= 4 /\ @field true _ sample_shm MX_FRAME_OFFSET = Some m /\
    @field true _ s1 (read_mark_offset 1) = Some m /\
    @active_reader_marks true _ _ 2%nat s1 = (Ok ms, s2) /\ m ∈ ms.
Proof.
  exists (snd (@claim_wal_read_lock true _ _ 1%nat sample_shm)).
  apply (@claimed_reader_is_seen true LockTable _ sample_shm _ 1%nat 2%nat 1);
    [apply sample_shm_inv|done|apply injective_projections; by vm_compute].
Defined.

(** Probing for readers releases the prober's own slot.  [fcntl] locks
    belong to the process, so in [active_reader_marks] the exclusive claim on a
    slot that another connection of the same process reads under is granted,
    and the release that follows drops that reader's lock: afterwards the
    process holds nothing on the slot and any other process can claim it
    exclusively, while the reader is still using its snapshot. *)
Theorem own_probe_drops_reader_lock `{host : Host} {OS} `{Fcntl OS} (s s1 : Shm OS) p q slot :
  shm_inv s -> q <> p -> claim_wal_read_lock p s = (Ok (Some slot), s1) ->
  exists ms s2 s3,
    held (shm_os s1) p (wal_read_lock_byte slot) = F_RDLCK /\
    active_reader_marks p s1 = (Ok ms, s2) /\
    held (shm_os s2) p (wal_read_lock_byte slot) = F_UNLCK /\
    shm_lock q F_WRLCK (wal_read_lock_byte slot) s2 = (Ok tt, s3).
Proof.
  intros Hi Hq Hc. destruct (claim_spec _ _ _ _ Hi Hc) as (Hs & Hi1 & Ha & m & _ & _ & [Hr _]).
  destruct (probe_spec p s1 Hi1) as (ms & s2 & E & _ & _ & Hot & _ & _ & _ & Hal).
  assert (held (shm_os s2) p (wal_read_lock_byte slot) = F_UNLCK) as Hun
    by (apply Hal; [by apply in_slots|done]).
  destruct (shm_lock_free q F_WRLCK (wal_read_lock_byte slot) s2) as [s3 E3]; [|by exists ms, s2, s3].
  intros r Hrq. destruct (decide (r = p)) as [->|Hrp]; [by rewrite Hun|]. by rewrite Hot, Ha.
Qed.

Example own_probe_drops_reader_lock_witness :
  exists s1 ms s2 s3,
    held (shm_os s1) 1%nat (wal_read_lock_byte 1) = F_RDLCK /\
    @active_reader_marks true LockTable _ 1%nat s1 = (Ok ms, s2) /\
    held (shm_os s2) 1%nat (wal_read_lock_byte 1) = F_UNLCK /\
    shm_lock 2%nat F_WRLCK (wal_read_lock_byte 1) s2 = (Ok tt, s3).
Proof.
  exists (snd (@claim_wal_read_lock true _ _ 1%nat sample_shm)).
  apply (@own_probe_drops_reader_lock true LockTable _ sample_shm _ 1%nat 2%nat 1);
    [apply sample_shm_inv|done|apply injective_projections; by vm_compute].
Defined.
