(* ===== verification/Checkpoint.v ===== *)
(** * PASSIVE checkpoints ([src/pager/checkpoint.rs])

    The state the call finds in the wal-index (the active reader marks and
    [nBackfill], see [Shm]) are arguments; the value it publishes is part of
    the result. *)

From stdpp Require Import prelude list numbers gmap sorting.
From Stdlib Require Import ZArith Lia.
From S2P Require Import Prelude Header Freelist Vfs Journal Wal Lock Shm.

Local Open Scope Z_scope.

Inductive PagerError : Type :=
| HotJournal
| PJournal (source : JournalError)
| PWal (source : WalError)
| PPage (source : PageError)
| PVfs (source : VfsError)
| PFreelist (source : FreelistError)
| PendingTransaction
| CheckpointIncomplete.

#[global] Instance PagerError_eq_dec : EqDecision PagerError.
Proof. solve_decision. Defined.

Record CheckpointResult : Type := MkCkpt {
  backfilled_frames : Z;
  total_frames : Z;
  checkpoint_complete : bool }.

Definition page_count_from_size (size page_size : Z) : Z :=
  let n := sat_add size (sat_sub page_size 1) / Z.max page_size 1 in
  if n <=? U32_MAX then n else 0.

(** [iter().filter(mark > 0).min()]. *)
Definition min_mark (marks : list Z) : option Z :=
  match filter (fun m => 0 < m) marks with
  | [] => None
  | m :: ms => Some (fold_left Z.min ms m)
  end.

Definition backfill_page (psize max_page : Z) (entry : Z * list Z) : M Disk PagerError unit :=
  let '(page_num, content) := entry in
  if (page_num =? 0) || (max_page <? page_num) then mret tt
  else modify (fun d => file_write_at d DbFile content (sat_mul (sat_sub page_num 1) psize)).

Definition by_page (a b : Z * list Z) : Prop := a.1 <= b.1.
#[global] Instance by_page_dec : RelDecision by_page.
Proof. intros a b. unfold by_page. apply _. Defined.

Section Checkpoint.
Context `{host : Host}.

(** [reader_marks] and [already_backfilled] are read from the wal-index;
    [ckpt_lock] is whether the checkpoint lock was granted. *)
Definition checkpoint_passive (reader_marks : list Z) (already_backfilled : Z) (ckpt_lock : bool)
    (expected_page_size : Z) : M Disk PagerError (CheckpointResult * option Z) :=
  d ← get_st;
  if negb (vfs_exists d WalFile) then mret (MkCkpt 0 0 true, None) else
  if negb ckpt_lock then throw (PVfs (Locked ShmFile)) else
  wal_file ← lift (map_err PVfs (open_file d WalFile));
  if size wal_file <? HEADER_LEN then mret (MkCkpt 0 0 true, None) else
  let wal_bytes := read_at wal_file (size wal_file) 0 in
  if len wal_bytes <? HEADER_LEN then mret (MkCkpt 0 0 true, None) else
  header ← lift (map_err PWal (Wal.parse wal_bytes));
  if negb (page_size header =? expected_page_size)
  then throw (PWal (InvalidPageSize (page_size header))) else
  let fsize := sat_add FRAME_HEADER_LEN (page_size header) in
  let total := wrap 32 (sat_sub (len wal_bytes) HEADER_LEN / Z.max fsize 1) in
  if total =? 0 then mret (MkCkpt 0 0 true, None) else
  let safe_frame := Z.min (default total (min_mark reader_marks)) total in
  if safe_frame =? 0 then mret (MkCkpt 0 total false, None) else
  if safe_frame <=? already_backfilled
  then mret (MkCkpt already_backfilled total (already_backfilled =? total), None) else
  let boundary_len := sat_add HEADER_LEN (sat_mul safe_frame fsize) in
  let boundary_bytes := default wal_bytes (get_range wal_bytes 0 boundary_len) in
  let '(pages, db_size) := committed_pages header boundary_bytes in
  db_file ← lift (map_err PVfs (open_file d DbFile));
  let current_pages := page_count_from_size (size db_file) (page_size header) in
  let max_page := Z.max db_size current_pages in
  let pages := merge_sort by_page (map_to_list pages) in
  _ ← for_each pages (backfill_page (page_size header) max_page);
  _ ← modify (fun d => file_sync d DbFile);
  mret (MkCkpt safe_frame total (safe_frame =? total), Some safe_frame).

End Checkpoint.

(** ** The writes *)

Definition backfill (psize max_page : Z) (pages : list (Z * list Z)) (data : list Z) : list Z :=
  fold_left (fun data '(n, c) =>
      if (n =? 0) || (max_page <? n) then data else write_at data c (page_offset psize n)) pages data.

Lemma for_each_backfill psize max_page pages : forall d data,
  files d !! DbFile = Some data ->
  exists d', for_each pages (backfill_page psize max_page) d = (Ok tt, d') /\
    files d' = <[DbFile := backfill psize max_page pages data]> (files d).
Proof.
  induction pages as [|[n c] pages IH]; intros d data Hd; cbn [for_each backfill fold_left].
  { exists d. split; [done|]. by rewrite insert_id. }
  destruct ((n =? 0) || (max_page <? n)) eqn:Hc.
  - erewrite M_bind_ok by (unfold backfill_page; rewrite Hc; reflexivity). by apply IH.
  - erewrite M_bind_ok by (unfold backfill_page; rewrite Hc; reflexivity).
    destruct (IH (file_write_at d DbFile c (sat_mul (sat_sub n 1) psize)) (write_at data c (page_offset psize n)))
      as (d' & E & Hf).
    { cbn. by rewrite lookup_alter_eq, Hd. }
    exists d'. split; [done|]. rewrite Hf. cbn. rewrite <- (insert_id (files d) DbFile data Hd) at 1.
    by rewrite alter_insert_eq, !insert_insert_eq.
Qed.

(** Pages that are not among the backfilled ones keep their contents, those
    that are, and lie within the bound, get the new contents. *)
Lemma backfill_spec psize max_page pages : forall data,
  0 < psize <= 65536 -> max_page <= U32_MAX ->
  (forall n c, (n, c) ∈ pages -> len c = psize /\ 0 <= n) -> NoDup pages.*1 ->
  (forall n c, n ∉ pages.*1 -> page psize data n = Some c -> page psize (backfill psize max_page pages data) n = Some c) /\
  (forall n c, (n, c) ∈ pages -> 1 <= n <= max_page -> page psize (backfill psize max_page pages data) n = Some c).
Proof.
  induction pages as [|[m b] pages IH]; intros data Hps Hmax Hlen Hnd.
  { split; [done|]. by intros n c ?%elem_of_nil. }
  cbn [backfill fold_left]. apply NoDup_cons in Hnd as [Hm Hnd].
  destruct (Hlen m b) as [Hb H0]; [by left|].
  assert (forall n c, (n, c) ∈ pages -> len c = psize /\ 0 <= n) as Hlen' by (intros n c Hin; apply Hlen; by right).
  set (data1 := if (m =? 0) || (max_page <? m) then data else write_at data b (page_offset psize m)).
  fold (backfill psize max_page pages data1).
  destruct (IH data1 Hps Hmax Hlen' Hnd) as [IH1 IH2]. split.
  - intros n c [Hne Hnin]%not_elem_of_cons Hpg. cbn [fst] in Hne. apply IH1; [done|]. unfold data1.
    destruct (Z.eqb_spec m 0), (Z.ltb_spec max_page m); cbn [orb]; try done.
    apply page_write_ne; [split; [done|lia]|congruence|done|done].
  - intros n c [[= -> ->]|Hin]%elem_of_cons Hn; [|by apply IH2].
    apply IH1; [done|]. unfold data1.
    destruct (Z.eqb_spec m 0); [lia|]. destruct (Z.ltb_spec max_page m); [lia|]. cbn [orb].
    apply page_write_eq; [split; [done|lia]|done].
Qed.

(** ** Snapshots *)

Lemma overlay_from_lookup fs : forall m n,
  overlay_from m fs !! n = match overlay fs !! n with Some c => Some c | None => m !! n end.
Proof.
  induction fs as [|f fs IH] using rev_ind; intros m n.
  { unfold overlay. cbn. by rewrite lookup_empty. }
  unfold overlay, overlay_from in *. rewrite !fold_left_app. cbn [fold_left].
  destruct (decide (fr_page f = n)) as [->|Hne]; [by rewrite !lookup_insert_eq|].
  rewrite !lookup_insert_ne by done. apply IH.
Qed.

Lemma overlay_app fs1 fs2 n :
  overlay (fs1 ++ fs2) !! n = match overlay fs2 !! n with Some c => Some c | None => overlay fs1 !! n end.
Proof.
  rewrite <- overlay_from_lookup. unfold overlay, overlay_from. by rewrite fold_left_app.
Qed.

Lemma overlay_elem fs n c : overlay fs !! n = Some c -> exists f, f ∈ fs /\ fr_page f = n /\ fr_content f = c.
Proof.
  induction fs as [|f fs IH] using rev_ind; [done|]. rewrite overlay_app.
  destruct (overlay [f] !! n) as [c'|] eqn:E.
  - unfold overlay, overlay_from in E. cbn in E. intros [= <-].
    destruct (decide (fr_page f = n)) as [Heq|Hne]; [subst n|].
    + exists f. split; [apply elem_of_app; right; by left|].
      rewrite insert_empty, lookup_singleton_eq in E. split; congruence.
    + rewrite insert_empty, lookup_singleton_ne in E by done. done.
  - intros Hl. destruct (IH Hl) as (g & Hg & ?). exists g. split; [apply elem_of_app; by left|done].
Qed.

Lemma committed_frames_prefix l k : exists r, committed_frames (l ++ k) = committed_frames l ++ r.
Proof.
  induction l as [|x l [r IH]]; [by exists (committed_frames k)|]. cbn [app committed_frames]. rewrite IH.
  destruct (committed_frames l) as [|y cl]; cbn [app]; [|by exists r].
  destruct r as [|z r]; [exists []; by destruct (is_commit x)|].
  destruct (is_commit x); [by exists (z :: r)|by exists (x :: z :: r)].
Qed.

Lemma committed_frames_elem l f : f ∈ committed_frames l -> f ∈ l.
Proof.
  induction l as [|x l IH]; [done|]. cbn [committed_frames].
  destruct (committed_frames l) as [|y cl] eqn:E.
  - destruct (is_commit x); [|by intros ?%elem_of_nil]. intros ->%list_elem_of_singleton. by left.
  - intros [->|Hin]%elem_of_cons; [by left|]. right. by apply IH.
Qed.

(** What a reader with overlay [ov] sees of a page of the main file [data]. *)
Definition view (psize : Z) (ov : gmap Z (list Z)) (data : list Z) (n : Z) : option (list Z) :=
  match ov !! n with Some c => Some c | None => page psize data n end.

(** ** One pass over a log of whole frames *)

Section Pass.
Context `{host : Host}.
Context (h : WalHeader) (fs : list Frame) (d : Disk) (data : list Z).
Context (Hh : wf_header h) (F : Forall (wf_frame h) fs).
Context (Hlen : 1 <= len fs <= U32_MAX) (Hfit : len (wal_image h fs) < U64_MAX).
Context (Hwal : files d !! WalFile = Some (wal_image h fs)) (Hdb : files d !! DbFile = Some data).

Definition safe_frame_of (reader_marks : list Z) : Z :=
  Z.min (default (len fs) (min_mark reader_marks)) (len fs).

Definition pages_upto (safe : Z) : list (Z * list Z) :=
  merge_sort by_page (map_to_list (overlay (committed_frames (take (Z.to_nat safe) fs)))).

Definition bound_upto (safe : Z) : Z :=
  Z.max (committed_size (take (Z.to_nat safe) fs)) (page_count_from_size (size data) (page_size h)).

Lemma boundary_frames safe :
  0 < safe <= len fs ->
  default (wal_image h fs) (get_range (wal_image h fs) 0 (32 + safe * (24 + page_size h))) =
    wal_image h (take (Z.to_nat safe) fs).
Proof.
  intros Hs. pose proof Hh as [[Hps _] _].
  assert (wal_image h fs = wal_image h (take (Z.to_nat safe) fs) ++
    frames_bytes h (chain h (header_checksum h) (take (Z.to_nat safe) fs)) (drop (Z.to_nat safe) fs)) as E.
  { by rewrite <- wal_image_app, take_drop. }
  rewrite E. rewrite get_range_app_prefix; [done|].
  rewrite len_wal_image by (by apply Forall_take). rewrite len_take by lia. done.
Qed.

Lemma checkpoint_pass reader_marks already :
  let safe := safe_frame_of reader_marks in
  0 < safe -> already < safe ->
  exists d', checkpoint_passive reader_marks already true (page_size h) d =
      (Ok (MkCkpt safe (len fs) (safe =? len fs), Some safe), d') /\
    files d' = <[DbFile := backfill (page_size h) (bound_upto safe) (pages_upto safe) data]> (files d).
Proof.
  cbv zeta. intros Hs Ha. pose proof Hh as [[Hps _] _]. pose proof (len_wal_image h fs F) as Li.
  assert (safe_frame_of reader_marks <= len fs) as Hle by (unfold safe_frame_of; lia).
  unfold checkpoint_passive. erewrite M_bind_ok by reflexivity.
  unfold vfs_exists. rewrite Hwal, bool_decide_eq_true_2 by done. cbn [negb].
  unfold open_file. rewrite Hwal. cbn [ok_or map_err]. erewrite M_bind_ok by reflexivity.
  unfold size at 1. rewrite (proj2 (Z.ltb_ge _ _)) by (unfold HEADER_LEN; nia). cbv zeta.
  assert (read_at (wal_image h fs) (size (wal_image h fs)) 0 = wal_image h fs) as ->.
  { apply (inj Some). unfold size. rewrite read_at_range by lia. apply get_range_full. lia. }
  rewrite (proj2 (Z.ltb_ge _ _)) by (unfold HEADER_LEN; nia).
  assert (Wal.parse (wal_image h fs) = Ok h) as -> by (unfold wal_image; by apply parse_wal_header).
  cbn [map_err]. erewrite M_bind_ok by reflexivity. rewrite Z.eqb_refl. cbn [negb].
  rewrite (sat_add_small FRAME_HEADER_LEN) by (unfold FRAME_HEADER_LEN, U64_MAX; lia).
  change (FRAME_HEADER_LEN + page_size h) with (24 + page_size h).
  assert (wrap 32 (sat_sub (len (wal_image h fs)) HEADER_LEN / Z.max (24 + page_size h) 1) = len fs) as ->.
  { rewrite Li, sat_sub_small by (unfold HEADER_LEN; nia). unfold HEADER_LEN.
    replace (32 + len fs * (24 + page_size h) - 32) with (len fs * (24 + page_size h)) by lia.
    rewrite Z.max_l by lia. rewrite Z.div_mul by lia. unfold wrap. apply Z.mod_small. unfold U32_MAX in Hlen. lia. }
  destruct (Z.eqb_spec (len fs) 0) as [?|_]; [lia|].
  fold (safe_frame_of reader_marks). set (safe := safe_frame_of reader_marks) in *.
  destruct (Z.eqb_spec safe 0); [lia|]. destruct (Z.leb_spec safe already); [lia|].
  assert (safe * (24 + page_size h) <= len fs * (24 + page_size h)) by nia.
  rewrite sat_mul_small, sat_add_small by (unfold HEADER_LEN; lia).
  change (HEADER_LEN + safe * (24 + page_size h)) with (32 + safe * (24 + page_size h)).
  rewrite boundary_frames by lia.
  assert (valid_frames h (wal_image h (take (Z.to_nat safe) fs)) = take (Z.to_nat safe) fs) as Hv.
  { pose proof (valid_frames_short h (take (Z.to_nat safe) fs) []) as Hv. rewrite app_nil_r in Hv.
    apply Hv; [done|by apply Forall_take| |rewrite len_nil; lia].
    rewrite len_wal_image by (by apply Forall_take). rewrite len_take by lia. lia. }
  rewrite committed_pages_frames, Hv. unfold open_file. rewrite Hdb. cbn [ok_or map_err].
  erewrite M_bind_ok by reflexivity.
  destruct (for_each_backfill (page_size h) (bound_upto safe) (pages_upto safe) d data Hdb) as (d' & E & Hf).
  exists (file_sync d' DbFile). split; [|exact Hf].
  erewrite M_bind_ok by exact E. erewrite M_bind_ok by reflexivity. done.
Qed.

Lemma pages_upto_elem safe n c :
  (n, c) ∈ pages_upto safe <-> overlay (committed_frames (take (Z.to_nat safe) fs)) !! n = Some c.
Proof.
  unfold pages_upto. rewrite merge_sort_Permutation. by rewrite elem_of_map_to_list.
Qed.

Lemma pages_upto_ok safe :
  (forall n c, (n, c) ∈ pages_upto safe -> len c = page_size h /\ 0 <= n) /\ NoDup (pages_upto safe).*1.
Proof.
  split.
  - intros n c (f & Hf%committed_frames_elem & <- & <-)%pages_upto_elem%overlay_elem.
    assert (wf_frame h f) as ((H0 & _) & _ & Hl).
    { rewrite Forall_forall in F. apply F. rewrite <- (take_drop (Z.to_nat safe) fs). apply elem_of_app. by left. }
    by split.
  - unfold pages_upto. rewrite merge_sort_Permutation. apply NoDup_fst_map_to_list.
Qed.

(** Everything a pass does to the main file. *)
Lemma backfill_upto safe :
  0 <= bound_upto safe <= U32_MAX ->
  let data' := backfill (page_size h) (bound_upto safe) (pages_upto safe) data in
  let ov := overlay (committed_frames (take (Z.to_nat safe) fs)) in
  (forall n b, ov !! n = None -> page (page_size h) data n = Some b -> page (page_size h) data' n = Some b) /\
  (forall n c, ov !! n = Some c -> 1 <= n <= bound_upto safe -> page (page_size h) data' n = Some c).
Proof.
  intros Hb. cbv zeta. pose proof Hh as [[Hps _] _]. destruct (pages_upto_ok safe) as [Hok Hnd].
  destruct (backfill_spec (page_size h) (bound_upto safe) (pages_upto safe) data) as [H1 H2]; [lia|lia|done|done|].
  split.
  - intros n b Hn. apply H1. intros ([n' c] & Heq & Hin)%list_elem_of_fmap. cbn in Heq. subst n'.
    apply pages_upto_elem in Hin. congruence.
  - intros n c Hn. apply H2. by apply pages_upto_elem.
Qed.

End Pass.

Lemma fold_min_le l : forall a x, x ∈ a :: l -> fold_left Z.min l a <= x.
Proof.
  induction l as [|y l IH]; intros a x Hx; cbn [fold_left].
  - apply list_elem_of_singleton in Hx as ->. lia.
  - assert (forall z, fold_left Z.min l z <= z) as Hz by (intros z; apply IH; by left).
    apply elem_of_cons in Hx as [->|[->|Hx]%elem_of_cons].
    + specialize (Hz (Z.min a y)). lia.
    + specialize (Hz (Z.min a y)). lia.
    + apply IH. by right.
Qed.

Lemma min_mark_le ms m : m ∈ ms -> 0 < m -> exists k, min_mark ms = Some k /\ k <= m.
Proof.
  intros Hin Hm. unfold min_mark.
  assert (m ∈ filter (fun m => 0 < m) ms) as Hf by (by apply list_elem_of_filter).
  destruct (filter _ ms) as [|x l]; [by apply elem_of_nil in Hf|].
  eexists. split; [done|]. by apply fold_min_le.
Qed.

(** The overlay of a longer prefix of the log covers that of a shorter one. *)
Lemma overlay_take_mono fs (s m : nat) n :
  (s <= m)%nat -> overlay (committed_frames (take m fs)) !! n = None ->
  overlay (committed_frames (take s fs)) !! n = None.
Proof.
  intros Hle Hn. assert (take m fs = take s fs ++ drop s (take m fs)) as E.
  { rewrite <- (take_drop s (take m fs)) at 1. rewrite take_take. by replace (s `min` m)%nat with s by lia. }
  destruct (committed_frames_prefix (take s fs) (drop s (take m fs))) as [r Hr].
  rewrite <- E in Hr. rewrite Hr, overlay_app in Hn. by destruct (overlay r !! n).
Qed.

(** ** Properties *)

(** C25. A checkpoint never changes what a registered reader sees: for every
    reader whose positive mark is among the marks the checkpoint found, each
    page that the reader could see before (through the committed frames up to
    its mark, or else in the main file) has the same contents after, and
    no other file changes. *)
Theorem checkpoint_respects_readers `{host : Host} h fs d data reader_marks already m n :
  wf_header h -> Forall (wf_frame h) fs -> 1 <= len fs <= U32_MAX -> len (wal_image h fs) < U64_MAX ->
  files d !! WalFile = Some (wal_image h fs) -> files d !! DbFile = Some data ->
  0 <= bound_upto h fs data (safe_frame_of fs reader_marks) <= U32_MAX ->
  0 < safe_frame_of fs reader_marks -> already < safe_frame_of fs reader_marks ->
  m ∈ reader_marks -> 0 < m ->
  is_Some (view (page_size h) (overlay (committed_frames (take (Z.to_nat m) fs))) data n) ->
  exists res d' data',
    checkpoint_passive reader_marks already true (page_size h) d = (Ok res, d') /\
    files d' = <[DbFile := data']> (files d) /\
    view (page_size h) (overlay (committed_frames (take (Z.to_nat m) fs))) data' n =
    view (page_size h) (overlay (committed_frames (take (Z.to_nat m) fs))) data n.
Proof.
  intros Hh F Hlen Hfit Hwal Hdb Hb Hs Ha Hm Hm0 Hv.
  destruct (checkpoint_pass h fs d data Hh F Hlen Hfit Hwal Hdb reader_marks already Hs Ha) as (d' & E & Hd').
  eexists _, d', _. split; [exact E|]. split; [exact Hd'|].
  destruct (backfill_upto h fs data Hh F (safe_frame_of fs reader_marks) Hb) as [H1 _].
  unfold view in *. destruct (overlay (committed_frames (take (Z.to_nat m) fs)) !! n) as [c|] eqn:Hov; [done|].
  destruct Hv as [b Hpg]. rewrite Hpg. apply H1; [|done].
  apply (overlay_take_mono fs _ (Z.to_nat m)); [|done].
  destruct (min_mark_le reader_marks m Hm Hm0) as (k & Hk & Hle). unfold safe_frame_of. rewrite Hk. cbn. lia.
Qed.

Definition ckpt_frames : list Frame := [sample_frame 1 2 5; sample_frame 2 2 6].
Definition ckpt_db : list Z := replicate 1024 0.
Definition ckpt_disk : Disk :=
  MkDisk (<[WalFile := @wal_image true sample_wal ckpt_frames]> {[DbFile := ckpt_db]}) [].

Lemma ckpt_frames_wf : Forall (wf_frame sample_wal) ckpt_frames.
Proof. repeat constructor; cbn; lia. Qed.

Example checkpoint_respects_readers_witness :
  exists res d' data',
    @checkpoint_passive true [1; 0] 0 true (page_size sample_wal) ckpt_disk = (Ok res, d') /\
    files d' = <[DbFile := data']> (files ckpt_disk) /\
    view (page_size sample_wal) (overlay (committed_frames (take (Z.to_nat 1) ckpt_frames))) data' 2 =
    view (page_size sample_wal) (overlay (committed_frames (take (Z.to_nat 1) ckpt_frames))) ckpt_db 2.
Proof.
  apply (@checkpoint_respects_readers true sample_wal ckpt_frames ckpt_disk ckpt_db [1; 0] 0 1 2).
  - apply sample_wal_wf.
  - apply ckpt_frames_wf.
  - by vm_compute.
  - by vm_compute.
  - by vm_compute.
  - by vm_compute.
  - by vm_compute.
  - by vm_compute.
  - by vm_compute.
  - by left.
  - done.
  - exists (replicate 512 0). by vm_compute.
Defined.

(** With no readers a pass finishes the job: every committed frame reaches
    the main file, the call reports completion, and what the main file
    alone shows afterwards is what the log over the old main file
    showed. *)
Theorem checkpoint_backfills_everything `{host : Host} h fs d data already n :
  wf_header h -> Forall (wf_frame h) fs -> 1 <= len fs <= U32_MAX -> len (wal_image h fs) < U64_MAX ->
  files d !! WalFile = Some (wal_image h fs) -> files d !! DbFile = Some data ->
  0 <= bound_upto h fs data (len fs) <= U32_MAX -> already < len fs ->
  1 <= n <= bound_upto h fs data (len fs) ->
  is_Some (view (page_size h) (overlay (committed_frames fs)) data n) ->
  exists d' data',
    checkpoint_passive [] already true (page_size h) d = (Ok (MkCkpt (len fs) (len fs) true, Some (len fs)), d') /\
    files d' = <[DbFile := data']> (files d) /\
    page (page_size h) data' n = view (page_size h) (overlay (committed_frames fs)) data n.
Proof.
  intros Hh F Hlen Hfit Hwal Hdb Hb Ha Hn Hv.
  assert (safe_frame_of fs [] = len fs) as Hsafe by (unfold safe_frame_of; cbn; lia).
  destruct (checkpoint_pass h fs d data Hh F Hlen Hfit Hwal Hdb [] already) as (d' & E & Hd');
    [rewrite Hsafe; lia|rewrite Hsafe; lia|].
  rewrite Hsafe, Z.eqb_refl in *. eexists d', _. split; [exact E|]. split; [exact Hd'|].
  destruct (backfill_upto h fs data Hh F (len fs) Hb) as [H1 H2].
  rewrite take_ge in H1, H2 by (unfold len; lia). unfold view in *.
  destruct (overlay (committed_frames fs) !! n) as [c|] eqn:Hov; [by apply H2|].
  destruct Hv as [b Hpg]. rewrite Hpg. by apply H1.
Qed.

Example checkpoint_backfills_everything_witness :
  exists d' data',
    @checkpoint_passive true [] 0 true (page_size sample_wal) ckpt_disk =
      (Ok (MkCkpt (len ckpt_frames) (len ckpt_frames) true, Some (len ckpt_frames)), d') /\
    files d' = <[DbFile := data']> (files ckpt_disk) /\
    page (page_size sample_wal) data' 1 =
      view (page_size sample_wal) (overlay (committed_frames ckpt_frames)) ckpt_db 1.
Proof.
  apply (@checkpoint_backfills_everything true sample_wal ckpt_frames ckpt_disk ckpt_db 0 1).
  - apply sample_wal_wf.
  - apply ckpt_frames_wf.
  - by vm_compute.
  - by vm_compute.
  - by vm_compute.
  - by vm_compute.
  - by vm_compute.
  - by vm_compute.
  - by vm_compute.
  - exists (replicate 512 5). by vm_compute.
Defined.

(** A reader of an empty log is not protected.  Opening a database whose
    log has no frame yet ([mxFrame] = 0) claims one of the slots 1 to 4 and
    publishes mark 0 there; a checkpointer in another process finds that mark
    among the live readers but drops it ([mark > 0]), on the stated grounds
    that such a reader holds slot 0.  When it is the only reader the pass then
    backfills every frame: a page the reader, which has no overlay, reads from
    the main file changes under it. *)
Theorem empty_log_reader_is_overwritten `{host : Host} {OS} `{Fcntl OS} (s s1 s2 : Shm OS) p q slot ms
    h fs d data n c b :
  shm_inv s -> field s MX_FRAME_OFFSET = Some 0 ->
  claim_wal_read_lock p s = (Ok (Some slot), s1) -> active_reader_marks q s1 = (Ok ms, s2) -> ms = [0] ->
  wf_header h -> Forall (wf_frame h) fs -> 1 <= len fs <= U32_MAX -> len (wal_image h fs) < U64_MAX ->
  files d !! WalFile = Some (wal_image h fs) -> files d !! DbFile = Some data ->
  0 <= bound_upto h fs data (len fs) <= U32_MAX ->
  1 <= n <= bound_upto h fs data (len fs) ->
  overlay (committed_frames fs) !! n = Some c ->
  view (page_size h) ∅ data n = Some b ->
  reader s1 p slot 0 /\
  exists d' data',
    checkpoint_passive ms 0 true (page_size h) d =
      (Ok (MkCkpt (len fs) (len fs) true, Some (len fs)), d') /\
    files d' = <[DbFile := data']> (files d) /\
    view (page_size h) ∅ data' n = Some c.
Proof.
  intros Hi Hmx Hc Hact -> Hh F Hlen Hfit Hwal Hdb Hb Hn Hov Hv.
  destruct (claim_spec _ _ _ _ Hi Hc) as (Hs & Hi1 & _ & m & _ & Hm & Hr).
  assert (m = 0) as -> by congruence. split; [done|].
  assert (safe_frame_of fs [0] = len fs) as Hsafe
    by (unfold safe_frame_of; replace (min_mark [0]) with (@None Z) by done; cbn; lia).
  destruct (checkpoint_pass h fs d data Hh F Hlen Hfit Hwal Hdb [0] 0) as (d' & E & Hd');
    [rewrite Hsafe; lia|rewrite Hsafe; lia|].
  rewrite Hsafe, Z.eqb_refl in *. eexists d', _. split; [exact E|]. split; [exact Hd'|].
  destruct (backfill_upto h fs data Hh F (len fs) Hb) as [_ H2].
  rewrite take_ge in H2 by (unfold len; lia). unfold view. rewrite lookup_empty. by apply H2.
Qed.

Definition empty_shm : Shm LockTable := MkShm no_locks (Some (zeros 136)).
Definition after_claim : Shm LockTable := snd (@claim_wal_read_lock true _ _ 1%nat empty_shm).

Lemma empty_shm_inv : shm_inv empty_shm.
Proof.
  split; [apply no_locks_compatible|]. eexists. split; [reflexivity|].
  split; [by apply bytes_okb_ok|by vm_compute].
Qed.

Example empty_log_reader_is_overwritten_witness :
  @reader true _ _ after_claim 1%nat 1 0 /\
  exists d' data',
    @checkpoint_passive true [0] 0 true (page_size sample_wal) ckpt_disk =
      (Ok (MkCkpt (len ckpt_frames) (len ckpt_frames) true, Some (len ckpt_frames)), d') /\
    files d' = <[DbFile := data']> (files ckpt_disk) /\
    view (page_size sample_wal) ∅ data' 1 = Some (replicate 512 5).
Proof.
  apply (@empty_log_reader_is_overwritten true LockTable _ empty_shm after_claim
    (snd (@active_reader_marks true _ _ 2%nat after_claim)) 1%nat 2%nat 1 [0]
    sample_wal ckpt_frames ckpt_disk ckpt_db 1 (replicate 512 5) (replicate 512 0)).
  - apply empty_shm_inv.
  - by vm_compute.
  - apply injective_projections; by vm_compute.
  - apply injective_projections; by vm_compute.
  - done.
  - apply sample_wal_wf.
  - apply ckpt_frames_wf.
  - by vm_compute.
  - by vm_compute.
  - by vm_compute.
  - by vm_compute.
  - by vm_compute.
  - by vm_compute.
  - by vm_compute.
  - by vm_compute.
Defined.
