(* ===== verification/PageCache.v ===== *)
(** * The page cache ([PageCache] in [src/pager.rs])

    An LRU cache over physical pages: entries stamped with a tick, and a heap
    of eviction candidates that may hold stale ticks.  The heap
    ([BinaryHeap<Reverse<(tick, page)>>]) is the list of its elements;
    [heap_pop] removes the smallest.  The hasher of the map has no observable
    effect. *)

From stdpp Require Import prelude list numbers gmap.
From Stdlib Require Import ZArith Lia Sorted.
From S2P Require Import Prelude.

Local Open Scope Z_scope.

Definition heap_le (a b : Z * Z) : bool :=
  (a.1 <? b.1) || ((a.1 =? b.1) && (a.2 <=? b.2)).

Fixpoint heap_pop (heap : list (Z * Z)) : option ((Z * Z) * list (Z * Z)) :=
  match heap with
  | [] => None
  | x :: rest =>
    match heap_pop rest with
    | None => Some (x, [])
    | Some (m, rest') => if heap_le x m then Some (x, rest) else Some (m, x :: rest')
    end
  end.

Record PageCache : Type := MkCache {
  capacity : Z;
  entries : gmap Z (list Z * Z);
  eviction_heap : list (Z * Z);
  tick : Z }.

Definition new (capacity : Z) : PageCache := MkCache capacity ∅ [] 0.

Definition next_tick (c : PageCache) : Z := wrap 64 (tick c + 1).

Definition compact_eviction_heap (c : PageCache) : PageCache :=
  MkCache (capacity c) (entries c)
    (map (fun '(page_num, (_, t)) => (t, page_num)) (map_to_list (entries c))) (tick c).

Definition get (c : PageCache) (page_num : Z) : option (list Z) * PageCache :=
  let t := next_tick c in
  let c := MkCache (capacity c) (entries c) (eviction_heap c) t in
  match entries c !! page_num with
  | None => (None, c)
  | Some (page, _) =>
    let c := MkCache (capacity c) (<[page_num := (page, t)]> (entries c))
      ((t, page_num) :: eviction_heap c) t in
    let c := if Z.max (sat_mul (capacity c) 4) 16 <? len (eviction_heap c)
             then compact_eviction_heap c else c in
    (Some page, c)
  end.

(** [while let Some((tick, page)) = heap.pop()]; every iteration shrinks the
    heap, so its length is enough fuel. *)
Fixpoint evict_loop (fuel : nat) (c : PageCache) : option (Z * list Z) * PageCache :=
  match fuel with
  | O => (None, c)
  | S fuel =>
    match heap_pop (eviction_heap c) with
    | None => (None, c)
    | Some ((candidate_tick, candidate_page), heap) =>
      let c := MkCache (capacity c) (entries c) heap (tick c) in
      match entries c !! candidate_page with
      | Some (bytes, current_tick) =>
        if current_tick =? candidate_tick
        then (Some (candidate_page, bytes),
              MkCache (capacity c) (delete candidate_page (entries c)) heap (tick c))
        else evict_loop fuel c
      | None => evict_loop fuel c
      end
    end
  end.

Definition evict_one (c : PageCache) : option (Z * list Z) * PageCache :=
  evict_loop (length (eviction_heap c)) c.

Definition entries_len (c : PageCache) : Z := Z.of_nat (base.size (entries c)).

Definition insert (c : PageCache) (page_num : Z) (bytes : list Z) : PageCache :=
  let t := next_tick c in
  let c := MkCache (capacity c) (<[page_num := (bytes, t)]> (entries c))
    ((t, page_num) :: eviction_heap c) t in
  if capacity c <? entries_len c then snd (evict_one c) else c.

Definition evict_one_if_full (c : PageCache) : option (list Z) * PageCache :=
  if entries_len c <? capacity c then (None, c)
  else let '(victim, c) := evict_one c in (snd <$> victim, c).

Definition invalidate (c : PageCache) (page_num : Z) : PageCache :=
  MkCache (capacity c) (delete page_num (entries c)) (eviction_heap c) (tick c).

(** ** The heap *)

Lemma heap_le_refl a : heap_le a a = true.
Proof. unfold heap_le. rewrite Z.eqb_refl, Z.leb_refl. apply orb_true_r. Qed.

Lemma heap_le_spec a b : heap_le a b = true <-> a.1 < b.1 \/ (a.1 = b.1 /\ a.2 <= b.2).
Proof.
  unfold heap_le. destruct (Z.ltb_spec a.1 b.1), (Z.eqb_spec a.1 b.1), (Z.leb_spec a.2 b.2);
    cbn [orb andb]; split; intros; try done; lia.
Qed.

Lemma heap_le_trans a b c : heap_le a b = true -> heap_le b c = true -> heap_le a c = true.
Proof. rewrite !heap_le_spec. lia. Qed.

Lemma heap_le_total a b : heap_le a b = false -> heap_le b a = true.
Proof.
  intros H. apply heap_le_spec. unfold heap_le in H.
  destruct (Z.ltb_spec a.1 b.1), (Z.eqb_spec a.1 b.1), (Z.leb_spec a.2 b.2); cbn in H; try done; lia.
Qed.

(** The pop removes one element, the smallest. *)
Lemma heap_pop_spec heap m rest :
  heap_pop heap = Some (m, rest) -> heap ≡ₚ m :: rest /\ forall y, y ∈ heap -> heap_le m y = true.
Proof.
  revert m rest. induction heap as [|x heap IH]; intros m rest; [done|]. cbn [heap_pop].
  destruct (heap_pop heap) as [[m' rest']|] eqn:E.
  - destruct (IH m' rest' eq_refl) as [Hp Hmin]. destruct (heap_le x m') eqn:Hle; intros [= <- <-].
    + split; [done|]. intros y [->|Hy]%elem_of_cons; [apply heap_le_refl|].
      eapply heap_le_trans; [exact Hle|by apply Hmin].
    + split; [by rewrite Hp, Permutation_swap|]. intros y [->|Hy]%elem_of_cons; [by apply heap_le_total|by apply Hmin].
  - intros [= <- <-]. destruct heap as [|y heap]; [split; [done|]|].
    + intros y ->%list_elem_of_singleton. apply heap_le_refl.
    + cbn [heap_pop] in E. destruct (heap_pop heap) as [[m' r']|]; [|done]. by destruct (heap_le y m').
Qed.

Lemma heap_pop_None heap : heap_pop heap = None -> heap = [].
Proof.
  destruct heap as [|x heap]; [done|]. cbn [heap_pop].
  destruct (heap_pop heap) as [[m' r']|]; [|done]. by destruct (heap_le x m').
Qed.

(** ** The cache as a recency list *)

(** The list of entries, most recently used first, with their ticks. *)
Definition ticked (c : PageCache) (l : list (Z * (list Z * Z))) : Prop :=
  NoDup l.*1 /\ list_to_map l = entries c /\
  StronglySorted (fun a b => b.2.2 < a.2.2) l /\
  Forall (fun e => 0 <= e.2.2 <= tick c /\ (e.2.2, e.1) ∈ eviction_heap c) l.

(** The abstract LRU cache: pages and contents, most recently used first. *)
Abbreviation Lru := (list (Z * list Z)) (only parsing).

Definition strip (l : list (Z * (list Z * Z))) : Lru := map (fun e => (e.1, e.2.1)) l.

Definition represents (c : PageCache) (lru : Lru) : Prop :=
  exists l, ticked c l /\ lru = strip l.

Definition lru_remove (lru : Lru) (p : Z) : Lru := filter (fun e => e.1 <> p) lru.
Definition lru_get (lru : Lru) (p : Z) : option (list Z) * Lru :=
  match list_to_map (M := gmap Z (list Z)) lru !! p with
  | Some b => (Some b, (p, b) :: lru_remove lru p)
  | None => (None, lru)
  end.
Definition lru_insert (cap : Z) (lru : Lru) (p : Z) (b : list Z) : Lru :=
  let lru := (p, b) :: lru_remove lru p in
  if cap <? len lru then removelast lru else lru.

Definition without (p : Z) (l : list (Z * (list Z * Z))) : list (Z * (list Z * Z)) :=
  filter (fun e => e.1 <> p) l.

Lemma without_elem p l e : e ∈ without p l -> e ∈ l /\ e.1 <> p.
Proof. unfold without. intros [? ?]%list_elem_of_filter. done. Qed.

Lemma without_NoDup p l : NoDup l.*1 -> NoDup (without p l).*1 /\ p ∉ (without p l).*1.
Proof.
  intros Hn. split.
  - induction l as [|e l IH]; [done|]. cbn in Hn. apply NoDup_cons in Hn as [He Hn].
    unfold without. rewrite filter_cons. destruct (decide (e.1 <> p)); [|by apply IH].
    cbn. constructor; [|by apply IH]. intros (x & Hx & Hin)%list_elem_of_fmap.
    apply without_elem in Hin as [Hin _]. apply He. apply list_elem_of_fmap. eauto.
  - intros (x & Hx & Hin)%list_elem_of_fmap. apply without_elem in Hin as [_ Hne]. congruence.
Qed.

Lemma without_map p l :
  list_to_map (M := gmap Z (list Z * Z)) (without p l) = delete p (list_to_map l).
Proof.
  induction l as [|[k v] l IH]; unfold without in *; [cbn; by rewrite delete_empty|].
  rewrite filter_cons. cbn [fst]. destruct (decide (k <> p)) as [Hne|Heq].
  - cbn. rewrite IH. by rewrite delete_insert_ne by congruence.
  - apply dec_stable in Heq as ->. cbn. by rewrite IH, delete_insert_eq.
Qed.

Lemma without_sorted p l :
  StronglySorted (fun a b => b.2.2 < a.2.2) l -> StronglySorted (fun a b => b.2.2 < a.2.2) (without p l).
Proof.
  induction 1 as [|e l Hs IH Hf]; unfold without in *; [constructor|].
  rewrite filter_cons. destruct (decide _); [|done]. constructor; [done|].
  apply Forall_forall. intros x [_ Hx]%list_elem_of_filter. rewrite Forall_forall in Hf. by apply Hf.
Qed.

Lemma ticked_lookup c l p b t :
  ticked c l -> entries c !! p = Some (b, t) <-> (p, (b, t)) ∈ l.
Proof. intros (Hn & Hm & _). rewrite <- Hm. by rewrite <- elem_of_list_to_map. Qed.

Lemma ticked_invalidate c l p : ticked c l -> ticked (invalidate c p) (without p l).
Proof.
  intros (Hn & Hm & Hs & Hf). split; [by apply without_NoDup|]. split.
  { rewrite without_map, Hm. done. }
  split; [by apply without_sorted|]. apply Forall_forall. intros e [He _]%without_elem.
  rewrite Forall_forall in Hf. by apply Hf.
Qed.

Lemma ticked_push c l p b t :
  ticked c l -> p ∉ l.*1 -> tick c < t -> 0 <= tick c ->
  ticked (MkCache (capacity c) (<[p := (b, t)]> (entries c)) ((t, p) :: eviction_heap c) t)
    ((p, (b, t)) :: l).
Proof.
  intros (Hn & Hm & Hs & Hf) Hp Ht H0. split; [by constructor|]. split.
  { cbn. by rewrite Hm. }
  split.
  - constructor; [done|]. eapply Forall_impl; [exact Hf|]. cbn. intros e ?. lia.
  - constructor; cbn [fst snd tick eviction_heap].
    + split; [lia|by left].
    + eapply Forall_impl; [exact Hf|]. cbn. intros e [? ?]. split; [lia|by right].
Qed.

Lemma ticked_compact c l : ticked c l -> ticked (compact_eviction_heap c) l.
Proof.
  intros (Hn & Hm & Hs & Hf). split; [done|]. split; [done|]. split; [done|].
  apply Forall_forall. intros [p [b t]] He. rewrite Forall_forall in Hf. destruct (Hf _ He) as [Ht _].
  split; [done|]. cbn. apply list_elem_of_fmap. exists (p, (b, t)). split; [done|].
  apply elem_of_map_to_list. rewrite <- Hm. by apply elem_of_list_to_map.
Qed.

(** Ticks identify entries. *)
Lemma ticked_last l l0 e x :
  l = l0 ++ [e] -> StronglySorted (fun a b : Z * (list Z * Z) => b.2.2 < a.2.2) l -> x ∈ l ->
  e.2.2 <= x.2.2 /\ (x.2.2 = e.2.2 -> x = e).
Proof.
  intros -> Hs Hx. induction l0 as [|y l0 IH]; cbn [app] in *.
  { apply list_elem_of_singleton in Hx as ->. split; [lia|done]. }
  inversion Hs as [|? ? Hs' Hf]; subst. rewrite Forall_forall in Hf.
  apply elem_of_cons in Hx as [->|Hx]; [|by apply IH].
  assert (e.2.2 < y.2.2) by (apply Hf; apply elem_of_app; right; by apply list_elem_of_singleton).
  split; [lia|]. intros; lia.
Qed.

Lemma ticked_drop_last c heap l0 e :
  ticked c (l0 ++ [e]) -> (forall x, x ∈ l0 -> (x.2.2, x.1) ∈ heap) ->
  ticked (MkCache (capacity c) (delete e.1 (entries c)) heap (tick c)) l0.
Proof.
  intros (Hn & Hm & Hs & Hf) Hh. rewrite fmap_app in Hn. apply NoDup_app in Hn as (Hn & Hd & _).
  apply Forall_app in Hf as [Hf _]. split; [done|]. split; [|split].
  - cbn [entries]. rewrite <- Hm, list_to_map_app. cbn.
    destruct e as [p [b t]]. cbn [fst] in *. rewrite insert_empty.
    assert (list_to_map (M := gmap Z (list Z * Z)) l0 !! p = None) as Hnone.
    { apply not_elem_of_list_to_map_1. intros Hin. apply (Hd p Hin). apply list_elem_of_fmap.
      exists (p, (b, t)). split; [done|]. by apply list_elem_of_singleton. }
    rewrite <- insert_union_singleton_r by done. by rewrite delete_insert_id.
  - clear -Hs. induction l0 as [|y l0 IH]; [constructor|]. cbn [app] in Hs.
    inversion Hs as [|? ? Hs' Hf]; subst. constructor; [by apply IH|]. by apply Forall_app in Hf as [? _].
  - apply Forall_forall. intros x Hx. rewrite Forall_forall in Hf. destruct (Hf x Hx) as [? _].
    split; [done|]. by apply Hh.
Qed.

Lemma ticked_pop_stale c l m heap :
  ticked c l -> eviction_heap c ≡ₚ m :: heap ->
  (forall b, entries c !! m.2 <> Some (b, m.1)) ->
  ticked (MkCache (capacity c) (entries c) heap (tick c)) l.
Proof.
  intros Hc Hp Hst. pose proof Hc as (Hn & Hm & Hs & Hf). split; [done|]. split; [done|]. split; [done|].
  apply Forall_forall. intros [p [b t]] Hx. rewrite Forall_forall in Hf. destruct (Hf _ Hx) as [Ht Hin].
  split; [done|]. cbn [fst snd eviction_heap] in *. rewrite Hp in Hin.
  apply elem_of_cons in Hin as [<-|Hin]; [|done].
  exfalso. apply (Hst b). cbn [fst snd]. by apply (ticked_lookup c l).
Qed.

(** Eviction takes the least recently used entry, whatever stale candidates
    the heap holds, and fails only on an empty cache. *)
Lemma evict_loop_spec fuel : forall c l,
  ticked c l -> (length (eviction_heap c) <= fuel)%nat ->
  exists c', capacity c' = capacity c /\ tick c' = tick c /\
    match last l with
    | None => evict_loop fuel c = (None, c') /\ ticked c' []
    | Some e => evict_loop fuel c = (Some (e.1, e.2.1), c') /\ ticked c' (removelast l)
    end.
Proof.
  induction fuel as [|fuel IH]; intros c l Hc Hf.
  - destruct (eviction_heap c) as [|? ?] eqn:E; [|cbn in Hf; lia].
    assert (l = []) as ->.
    { destruct l as [|x l]; [done|]. destruct Hc as (_ & _ & _ & F).
      apply Forall_cons_iff in F as [[_ F] _]. rewrite E in F. by apply elem_of_nil in F. }
    exists c. by cbn.
  - cbn [evict_loop]. destruct (heap_pop (eviction_heap c)) as [[[ct cp] heap]|] eqn:E.
    2:{ apply heap_pop_None in E. exists c. assert (l = []) as ->; [|by cbn].
        destruct l as [|x l]; [done|]. destruct Hc as (_ & _ & _ & F).
        apply Forall_cons_iff in F as [[_ F] _]. rewrite E in F. by apply elem_of_nil in F. }
    apply heap_pop_spec in E as [Hp Hmin]. cbn [entries capacity tick].
    assert (length heap <= fuel)%nat as Hf' by (rewrite Hp in Hf; cbn in Hf; lia).
    assert (forall (b : list Z) (t : Z), entries c !! cp = Some (b, t) -> t <> ct ->
      forall b', entries c !! cp <> Some (b', ct)) as Hstale by (intros b t -> Hne b' [=]; congruence).
    destruct (entries c !! cp) as [[b cur]|] eqn:Hl.
    + destruct (Z.eqb_spec cur ct) as [->|Hne].
      * assert ((cp, (b, ct)) ∈ l) as Hin by (by apply (ticked_lookup c l)).
        destruct (exists_last (l := l)) as (l0 & e & ->); [by intros ->; apply elem_of_nil in Hin|].
        pose proof Hc as (_ & _ & Hs & F). rewrite Forall_forall in F.
        destruct (ticked_last _ l0 e (cp, (b, ct)) eq_refl Hs Hin) as [Hle Heq].
        assert (e = (cp, (b, ct))) as ->.
        { symmetry. apply Heq. destruct (F e) as [_ He]; [apply elem_of_app; right; by apply list_elem_of_singleton|].
          specialize (Hmin _ He). apply heap_le_spec in Hmin. cbn [fst snd] in *. lia. }
        eexists. split; [|split; [|rewrite last_snoc; split; [reflexivity|]]]; [done|done|].
        rewrite removelast_last. apply (ticked_drop_last c heap l0 (cp, (b, ct)) Hc).
        intros x Hx. destruct (F x) as [_ Hxin]; [apply elem_of_app; by left|].
        rewrite Hp in Hxin. apply elem_of_cons in Hxin as [[= E1 E2]|]; [|done].
        exfalso. destruct Hc as (Hn & _). rewrite fmap_app in Hn. apply NoDup_app in Hn as (_ & Hd & _).
        apply (Hd x.1); [apply list_elem_of_fmap; eauto|]. rewrite E2. by left.
      * destruct (IH (MkCache (capacity c) (entries c) heap (tick c)) l) as (c' & ? & ? & Hc');
          [|done|by exists c'].
        eapply (ticked_pop_stale c l (ct, cp)); [done|done|]. cbn [fst snd]. rewrite Hl. intros b' [=]. congruence.
    + destruct (IH (MkCache (capacity c) (entries c) heap (tick c)) l) as (c' & ? & ? & Hc');
        [|done|by exists c'].
      eapply (ticked_pop_stale c l (ct, cp)); [done|done|]. cbn [fst snd]. by rewrite Hl.
Qed.

Lemma strip_without p l : strip (without p l) = lru_remove (strip l) p.
Proof.
  unfold strip, without, lru_remove. induction l as [|e l IH]; [done|]. cbn [map].
  destruct (decide (e.1 = p)) as [He|He].
  - rewrite !filter_cons_False by (cbn; tauto). exact IH.
  - rewrite !filter_cons_True by done. cbn [map]. f_equal. exact IH.
Qed.

Lemma strip_lookup l p :
  list_to_map (M := gmap Z (list Z)) (strip l) !! p = fst <$> list_to_map (M := gmap Z (list Z * Z)) l !! p.
Proof.
  unfold strip. induction l as [|[k [b t]] l IH]; [done|]. cbn [map fst snd list_to_map foldr].
  destruct (decide (k = p)) as [->|Hne]; [by rewrite !lookup_insert_eq|]. rewrite !lookup_insert_ne by done. exact IH.
Qed.

Lemma len_strip l : len (strip l) = len l.
Proof. unfold strip. apply len_map. Qed.

Lemma entries_len_ticked c l : ticked c l -> entries_len c = len l.
Proof. intros (Hn & Hm & _). unfold entries_len. rewrite <- Hm. rewrite map_size_list_to_map by done. done. Qed.

Lemma next_tick_eq c : 0 <= tick c < U64_MAX -> next_tick c = tick c + 1.
Proof. intros. unfold next_tick, wrap. rewrite Z.mod_small; [done|]. unfold U64_MAX in *. lia. Qed.

Lemma strip_removelast l : strip (removelast l) = removelast (strip l).
Proof.
  unfold strip. induction l as [|e l IH]; [done|]. destruct l as [|e' l]; [done|].
  change (removelast (e :: e' :: l)) with (e :: removelast (e' :: l)). cbn [map] in *. rewrite IH. done.
Qed.

Lemma ticked_touch c l p b :
  ticked c l -> 0 <= tick c < U64_MAX ->
  ticked (MkCache (capacity c) (<[p := (b, next_tick c)]> (entries c))
    ((next_tick c, p) :: eviction_heap c) (next_tick c)) ((p, (b, next_tick c)) :: without p l).
Proof.
  intros Hc Ht. rewrite next_tick_eq by done.
  pose proof (ticked_invalidate c l p Hc) as Hi.
  pose proof (ticked_push (invalidate c p) (without p l) p b (tick c + 1) Hi) as H.
  cbn [invalidate capacity entries eviction_heap tick] in H. rewrite insert_delete_eq in H.
  apply H; [|lia|lia]. destruct Hc as (Hn & _). by apply without_NoDup.
Qed.

(** ** What is cached, for the pager *)

(** The contents cached for a page. *)
Definition cached (c : PageCache) (p : Z) : option (list Z) := fst <$> entries c !! p.

Lemma get_cached c p : fst (get c p) = cached c p.
Proof. unfold get, cached. cbv zeta. cbn [entries]. by destruct (entries c !! p) as [[b t]|]. Qed.

Lemma cached_get c p q : cached (snd (get c p)) q = cached c q.
Proof.
  unfold get, cached. cbv zeta. cbn [entries]. destruct (entries c !! p) as [[b t]|] eqn:E; [|done].
  cbn [snd]. set (cond := _ <? _). assert (forall c', entries (if cond then compact_eviction_heap c' else c') = entries c') as ->
    by (by intros; destruct cond).
  cbn [entries]. destruct (decide (p = q)) as [->|]; [by rewrite lookup_insert_eq, E|by rewrite lookup_insert_ne].
Qed.

Lemma cached_invalidate c p q : cached (invalidate c p) q = if decide (p = q) then None else cached c q.
Proof.
  unfold cached, invalidate. cbn [entries]. destruct (decide _) as [->|].
  - by rewrite lookup_delete_eq.
  - by rewrite lookup_delete_ne.
Qed.

Lemma cached_evict fuel : forall c q x,
  cached (snd (evict_loop fuel c)) q = Some x -> cached c q = Some x.
Proof.
  induction fuel as [|fuel IH]; intros c q x; [done|]. cbn [evict_loop].
  destruct (heap_pop (eviction_heap c)) as [[[ct cp] heap]|]; [|done]. cbn [entries].
  destruct (entries c !! cp) as [[b cur]|] eqn:E; [destruct (cur =? ct)|].
  - unfold cached. cbn [snd entries]. destruct (decide (cp = q)) as [->|]; [by rewrite lookup_delete_eq|].
    by rewrite lookup_delete_ne.
  - intros H%IH. exact H.
  - intros H%IH. exact H.
Qed.

Lemma cached_insert c p b q x :
  cached (insert c p b) q = Some x -> (q = p /\ x = b) \/ cached c q = Some x.
Proof.
  unfold insert. cbv zeta. set (c1 := MkCache _ _ _ _). intros H.
  assert (cached c1 q = Some x) as H1.
  { destruct (_ <? _); [|done]. by apply cached_evict in H. }
  unfold cached, c1 in *. cbn [entries] in *. destruct (decide (p = q)) as [->|].
  - rewrite lookup_insert_eq in H1. cbn in H1. left. split; congruence.
  - rewrite lookup_insert_ne in H1 by done. by right.
Qed.

Lemma cached_evict_if_full c q x :
  cached (snd (evict_one_if_full c)) q = Some x -> cached c q = Some x.
Proof.
  unfold evict_one_if_full, evict_one. destruct (_ <? _); [done|].
  destruct (evict_loop _ c) as [v c'] eqn:E. cbn [snd]. intros H.
  apply (cached_evict (length (eviction_heap c)) c). by rewrite E.
Qed.

(** ** Properties *)

(** C13. The cache is an LRU: started from a cache that holds the recency
    list [lru] (most recent first), [get] returns the page if it is
    listed and moves it to the front, [insert] puts the page in front and, past
    the capacity, drops exactly the least recently used one, and [invalidate]
    removes the page; stale heap entries, re-touched pages and heap
    compaction never change that.  The number of entries never exceeds the
    capacity. *)
Theorem page_cache_refines_lru c lru p b :
  represents c lru -> 0 <= tick c < U64_MAX -> len lru <= capacity c ->
  (fst (get c p) = fst (lru_get lru p) /\
   represents (snd (get c p)) (snd (lru_get lru p))) /\
  (represents (insert c p b) (lru_insert (capacity c) lru p b) /\
   entries_len (insert c p b) <= Z.max (capacity c) 0) /\
  represents (invalidate c p) (lru_remove lru p).
Proof.
  intros (l & Hc & ->) Ht Hcap. rewrite len_strip in Hcap. split; [|split].
  - unfold get, lru_get. cbv zeta. cbn [entries capacity eviction_heap tick].
    pose proof Hc as (_ & Hm & _). rewrite strip_lookup, Hm.
    destruct (entries c !! p) as [[pg t0]|] eqn:E; cbn [fmap option_fmap option_map fst snd].
    + split; [done|]. rewrite <- strip_without.
      pose proof (ticked_touch c l p pg Hc Ht) as Hn.
      destruct (_ <? _); [apply ticked_compact in Hn|]; eexists; (split; [exact Hn|done]).
    + split; [done|]. exists l. split; [|done]. destruct Hc as (H1 & H2 & H3 & H4).
      split; [done|]. split; [done|]. split; [done|]. eapply Forall_impl; [exact H4|]. cbn.
      intros e [? ?]. rewrite next_tick_eq by done. split; [lia|done].
  - pose proof (ticked_touch c l p b Hc Ht) as Hn. unfold insert, lru_insert. cbv zeta.
    set (c1 := MkCache _ _ _ _) in *. cbn [capacity c1]. rewrite (entries_len_ticked c1 _ Hn).
    rewrite <- strip_without.
    replace (len ((p, (b, next_tick c)) :: without p l)) with (len ((p, b) :: strip (without p l)))
      by (by rewrite !len_cons, len_strip).
    destruct (Z.ltb_spec (capacity c) (len ((p, b) :: strip (without p l)))) as [Hlt|Hge].
    + destruct (evict_loop_spec (length (eviction_heap c1)) c1 _ Hn) as (c' & _ & _ & He); [done|].
      destruct (last _) as [e|] eqn:El.
      2:{ apply last_None in El. done. }
      destruct He as [He Hc']. unfold evict_one. rewrite He. cbn [snd].
      split; [eexists; split; [exact Hc'|]|].
      * rewrite strip_removelast. done.
      * rewrite (entries_len_ticked _ _ Hc'). rewrite removelast_firstn_len.
        rewrite len_cons, len_strip in Hlt.
        assert (len (without p l) <= len l) by (unfold len, without; pose proof (length_filter (fun e => e.1 <> p) l); lia).
        unfold len in *. rewrite length_firstn. cbn [length]. lia.
    + split; [by eexists|]. rewrite (entries_len_ticked _ _ Hn). rewrite len_cons, len_strip in Hge.
      rewrite len_cons. lia.
  - rewrite <- strip_without. eexists. split; [by apply ticked_invalidate|done].
Qed.

Definition sample_cache : PageCache := insert (insert (new 2) 1 [10]) 2 [20].

Lemma sample_cache_lru : represents sample_cache [(2, [20]); (1, [10])].
Proof.
  exists [(2, ([20], 2)); (1, ([10], 1))]. split; [|done]. split; [|split; [|split]].
  - apply (bool_decide_unpack _). by vm_compute.
  - apply map_eq. intros k. by vm_compute.
  - repeat constructor.
  - change (eviction_heap sample_cache) with [(2, 2); (1, 1)]. change (tick sample_cache) with 2.
    constructor; [|constructor; [|constructor]]; (split; [cbn; lia|]); cbn [fst snd]; rewrite !elem_of_cons; tauto.
Qed.

Example page_cache_refines_lru_witness :
  (fst (get sample_cache 1) = Some [10] /\
   represents (snd (get sample_cache 1)) [(1, [10]); (2, [20])]) /\
  represents (insert sample_cache 3 [30]) [(3, [30]); (2, [20])].
Proof.
  destruct (page_cache_refines_lru sample_cache [(2, [20]); (1, [10])] 1 [30]) as (H1 & _);
    [apply sample_cache_lru|by vm_compute|by vm_compute|].
  destruct (page_cache_refines_lru sample_cache [(2, [20]); (1, [10])] 3 [30]) as (_ & (H2 & _) & _);
    [apply sample_cache_lru|by vm_compute|by vm_compute|].
  split; [exact H1|exact H2].
Defined.

(** What bounds the eviction heap: a hit leaves at most
    [max (4 * capacity) 16] candidates, however long it had grown.  But only a
    hit compacts it: a page that is read and then written over and over
    ([insert], then [invalidate] by [get_page_mut]) leaves one more stale
    candidate per round, with an empty cache and no bound. *)
Theorem eviction_heap_bound c cap p b n :
  entries_len c <= capacity c -> is_Some (entries c !! p) -> 1 <= cap -> Z.of_nat n < U64_MAX ->
  len (eviction_heap (snd (get c p))) <= Z.max (4 * capacity c) 16 /\
  (let c' := Nat.iter n (fun c => invalidate (insert c p b) p) (new cap) in
   len (eviction_heap c') = Z.of_nat n /\ entries c' = ∅).
Proof.
  intros Hlen [[pg t] Hp] Hcap Hn. split.
  - unfold get. cbv zeta. cbn [entries]. rewrite Hp. cbn [snd capacity eviction_heap].
    set (c1 := MkCache _ _ _ _).
    destruct (Z.ltb_spec (Z.max (sat_mul (capacity c) 4) 16) (len ((next_tick c, p) :: eviction_heap c))) as [Hlt|Hge].
    + unfold compact_eviction_heap. cbn [eviction_heap]. rewrite len_map. unfold len. rewrite length_map_to_list.
      unfold c1. cbn [entries]. rewrite map_size_insert, Hp. unfold entries_len in Hlen. cbn. lia.
    + cbn [eviction_heap c1]. unfold sat_mul in Hge. lia.
  - cbv zeta. clear Hlen Hp t pg c.
    enough (len (eviction_heap (Nat.iter n (fun c => invalidate (insert c p b) p) (new cap))) = Z.of_nat n /\
      entries (Nat.iter n (fun c => invalidate (insert c p b) p) (new cap)) = ∅ /\
      capacity (Nat.iter n (fun c => invalidate (insert c p b) p) (new cap)) = cap) as (? & ? & _) by done.
    induction n as [|n IH]; [done|]. rewrite !Nat.iter_succ.
    destruct IH as (IH1 & IH2 & IH3); [lia|]. set (c := Nat.iter n _ _) in *.
    unfold insert. cbv zeta. cbn [capacity entries_len]. unfold entries_len. cbn [entries].
    rewrite IH2, IH3. rewrite insert_empty, map_size_singleton.
    rewrite (proj2 (Z.ltb_ge _ _)) by lia. unfold invalidate. cbn [eviction_heap entries capacity].
    rewrite len_cons, IH1. split; [lia|]. split; [|done]. apply delete_singleton_eq.
Qed.

Example eviction_heap_bound_witness :
  len (eviction_heap (snd (get sample_cache 1))) <= 16 /\
  (let c' := Nat.iter 100 (fun c => invalidate (insert c 1 [9]) 1) (new 2) in
   len (eviction_heap c') = 100 /\ entries c' = ∅).
Proof.
  apply (eviction_heap_bound sample_cache 2 1 [9] 100); [by vm_compute| |lia|by vm_compute].
  exists ([10], 1). by vm_compute.
Defined.
