(* ===== verification/Pager.v ===== *)
(** * The pager ([src/pager.rs])

    Reads and writes of whole pages over the main file, the WAL overlay, the
    transaction's dirty pages and the page cache; commit through the rollback
    journal or the WAL; the freelist; opening with hot-journal recovery.

    The file system of the model is the in-memory back end ([Vfs]); the lock
    is the ladder of [Lock] over any [Fcntl]; what the code takes from its
    environment (the clock-derived nonces, whether the WAL write lock is free,
    the marks in the wal-index) is the argument [Env]. *)

From stdpp Require Import prelude list numbers gmap sorting.
From Stdlib Require Import ZArith Lia.
From S2P Require Import Prelude Header Freelist Vfs Journal Wal Lock Shm Checkpoint PageCache.

Local Open Scope Z_scope.

Definition DEFAULT_PAGE_CACHE_CAPACITY : Z := 2000.
Definition PAGE_COUNT_OFFSET : Z := 28.
Definition FREELIST_TRUNK_PAGE_OFFSET : Z := 32.
Definition FREELIST_PAGE_COUNT_OFFSET : Z := 36.

Definition read_be_u32 (buf : list Z) (offset : Z) : result FreelistError Z :=
  b ← ok_or (get_range buf offset (sat_add offset 4)) (PageTooShort offset (len buf));
  Ok (be_decode b).

Definition write_be_u32 (buf : list Z) (offset value : Z) : result FreelistError (list Z) :=
  ok_or (set_range buf offset (be_encode 4 value)) (PageTooShort offset (len buf)).

Definition journal_to_pager_error (e : JournalError) : PagerError :=
  match e with JournalVfs source => PVfs source | other => PJournal other end.

Definition journal_mode_from_page1 (page1 : list Z) : JournalMode :=
  if bool_decide (get_range page1 18 20 = Some [2; 2]) then Header.Wal else Legacy.

Definition patch_journal_mode_bytes (page1 value : list Z) : result PagerError (list Z) :=
  ok_or (set_range page1 18 value) (PPage (ShortRead 1 20 (len page1))).

(** What a call finds in its environment. *)
Record Env : Type := MkEnv {
  env_nonce : Z;            (** [random_nonce()] for the journal *)
  env_salt1 : Z;            (** [random_nonce()] for a fresh WAL, twice *)
  env_salt2 : Z;
  env_wal_write_lock : bool; (** the WAL write lock is granted *)
  env_ckpt_lock : bool;
  env_reader_marks : list Z;
  env_backfill : Z }.

Definition db_contents (d : Disk) : list Z := default [] (files d !! DbFile).

Definition source_read (d : Disk) (psize n : Z) : result PageError (list Z) :=
  read_page_at (db_contents d) psize n.

(** [WritablePageSource::write_page] on the handle of the main file. *)
Definition source_write (psize n : Z) (bytes : list Z) : M Disk PageError unit :=
  if n =? 0 then throw InvalidPageNumber
  else if negb (len bytes =? psize) then throw (WrongLength n psize (len bytes))
  else modify (fun d => file_write_at d DbFile bytes (page_offset psize n)).

(** The free function [read_page]: WAL overlay first, then the file. *)
Definition read_page_raw (wal_pages : gmap Z (list Z)) (d : Disk) (psize n : Z) : result PageError (list Z) :=
  match wal_pages !! n with
  | Some page => Ok page
  | None => source_read d psize n
  end.

Definition sorted_keys (m : gmap Z (list Z)) : list Z := merge_sort Z.le (map fst (map_to_list m)).

Section Pager.
Context `{host : Host} {OS : Type} `{Fcntl OS}.

Record Pager : Type := MkPager {
  vfs : Disk;
  lock : FileLockState OS;
  tx_lock_level : LockLevel;
  wal_resume : option WalResumeHint;
  wal_pages : gmap Z (list Z);
  dirty : gmap Z (list Z);
  page_cache : PageCache;
  pg_page_size : Z;
  pg_journal_mode : JournalMode;
  synchronous : SynchronousMode;
  published_mx_frame : option Z }.

Definition set_vfs (p : Pager) (d : Disk) : Pager :=
  MkPager d (lock p) (tx_lock_level p) (wal_resume p) (wal_pages p) (dirty p) (page_cache p)
    (pg_page_size p) (pg_journal_mode p) (synchronous p) (published_mx_frame p).
Definition set_lock (p : Pager) (l : FileLockState OS) : Pager :=
  MkPager (vfs p) l (tx_lock_level p) (wal_resume p) (wal_pages p) (dirty p) (page_cache p)
    (pg_page_size p) (pg_journal_mode p) (synchronous p) (published_mx_frame p).
Definition set_tx_lock (p : Pager) (l : LockLevel) : Pager :=
  MkPager (vfs p) (lock p) l (wal_resume p) (wal_pages p) (dirty p) (page_cache p)
    (pg_page_size p) (pg_journal_mode p) (synchronous p) (published_mx_frame p).
Definition set_wal_resume (p : Pager) (r : option WalResumeHint) : Pager :=
  MkPager (vfs p) (lock p) (tx_lock_level p) r (wal_pages p) (dirty p) (page_cache p)
    (pg_page_size p) (pg_journal_mode p) (synchronous p) (published_mx_frame p).
Definition set_wal_pages (p : Pager) (w : gmap Z (list Z)) : Pager :=
  MkPager (vfs p) (lock p) (tx_lock_level p) (wal_resume p) w (dirty p) (page_cache p)
    (pg_page_size p) (pg_journal_mode p) (synchronous p) (published_mx_frame p).
Definition set_dirty (p : Pager) (m : gmap Z (list Z)) : Pager :=
  MkPager (vfs p) (lock p) (tx_lock_level p) (wal_resume p) (wal_pages p) m (page_cache p)
    (pg_page_size p) (pg_journal_mode p) (synchronous p) (published_mx_frame p).
Definition set_cache (p : Pager) (c : PageCache) : Pager :=
  MkPager (vfs p) (lock p) (tx_lock_level p) (wal_resume p) (wal_pages p) (dirty p) c
    (pg_page_size p) (pg_journal_mode p) (synchronous p) (published_mx_frame p).
Definition set_mode (p : Pager) (m : JournalMode) : Pager :=
  MkPager (vfs p) (lock p) (tx_lock_level p) (wal_resume p) (wal_pages p) (dirty p) (page_cache p)
    (pg_page_size p) m (synchronous p) (published_mx_frame p).
Definition set_synchronous (p : Pager) (m : SynchronousMode) : Pager :=
  MkPager (vfs p) (lock p) (tx_lock_level p) (wal_resume p) (wal_pages p) (dirty p) (page_cache p)
    (pg_page_size p) (pg_journal_mode p) m (published_mx_frame p).
Definition set_mx_frame (p : Pager) (m : option Z) : Pager :=
  MkPager (vfs p) (lock p) (tx_lock_level p) (wal_resume p) (wal_pages p) (dirty p) (page_cache p)
    (pg_page_size p) (pg_journal_mode p) (synchronous p) m.

Definition on_vfs {E A} (m : M Disk E A) : M Pager E A := zoom vfs set_vfs m.
Definition on_lock {A} (m : M (FileLockState OS) VfsError A) : M Pager PagerError A :=
  map_err_M PVfs (zoom lock set_lock m).

(** [PageSource::read_page]. *)
Definition read_page (n : Z) : M Pager PageError (list Z) :=
  p ← get_st;
  match dirty p !! n with
  | Some page => mret page
  | None =>
    match wal_pages p !! n with
    | Some page => mret page
    | None =>
      let '(hit, c) := PageCache.get (page_cache p) n in
      _ ← modify (fun p => set_cache p c);
      match hit with
      | Some page => mret page
      | None =>
        let '(_, c) := evict_one_if_full c in
        _ ← modify (fun p => set_cache p c);
        bytes ← lift (source_read (vfs p) (pg_page_size p) n);
        _ ← modify (fun p => set_cache p (PageCache.insert c n bytes));
        mret bytes
      end
    end
  end.

(** [get_page_mut] returns the buffer in [dirty]; [put_page] stores the buffer
    back after the caller's mutation through the reference. *)
Definition get_page_mut (n : Z) : M Pager PagerError (list Z) :=
  _ ← modify (fun p => set_cache p (invalidate (page_cache p) n));
  p ← get_st;
  match dirty p !! n with
  | Some page => mret page
  | None =>
    page ← lift (map_err PPage (read_page_raw (wal_pages p) (vfs p) (pg_page_size p) n));
    _ ← modify (fun p => set_dirty p (<[n := page]> (dirty p)));
    mret page
  end.

Definition put_page (n : Z) (bytes : list Z) : M Pager PagerError unit :=
  modify (fun p => set_dirty p (<[n := bytes]> (dirty p))).

Definition begin_immediate : M Pager PagerError unit :=
  _ ← on_lock (set_level Reserved); modify (fun p => set_tx_lock p Reserved).

Definition begin_exclusive : M Pager PagerError unit :=
  _ ← on_lock (set_level Exclusive); modify (fun p => set_tx_lock p Exclusive).

Definition release_tx_lock : M Pager PagerError unit :=
  p ← get_st;
  if level_lt Shared (tx_lock_level p) then
    _ ← on_lock (set_level Shared); modify (fun p => set_tx_lock p Shared)
  else mret tt.

(** The journal records, with the pre-images read from the main file. *)
Fixpoint journal_records (w : JournalWriter) (index : Z) (page_nums : list Z) : M Pager PagerError unit :=
  match page_nums with
  | [] => mret tt
  | n :: rest =>
    p ← get_st;
    original ← lift (map_err PPage (source_read (vfs p) (pg_page_size p) n));
    _ ← on_vfs (map_err_M journal_to_pager_error (write_record w index n original));
    journal_records w (index + 1) rest
  end.

Fixpoint write_dirty (page_nums : list Z) : M Pager PagerError unit :=
  match page_nums with
  | [] => mret tt
  | n :: rest =>
    p ← get_st;
    _ ← match dirty p !! n with
        | Some bytes => on_vfs (map_err_M PPage (source_write (pg_page_size p) n bytes))
        | None => mret tt
        end;
    write_dirty rest
  end.

Definition flush_locked (env : Env) : M Pager PagerError unit :=
  p ← get_st;
  let page_nums := sorted_keys (dirty p) in
  page1 ← lift (map_err PPage (source_read (vfs p) (pg_page_size p) 1));
  initial ← lift (map_err PFreelist (read_be_u32 page1 PAGE_COUNT_OFFSET));
  let to_journal := filter (fun n => n <= initial) page_nums in
  _ ← (if bool_decide (to_journal = []) then mret tt else
       writer ← on_vfs (map_err_M journal_to_pager_error
         (Journal.create (pg_page_size p) (pg_page_size p) initial
            (wrap 32 (len to_journal)) (env_nonce env)));
       _ ← journal_records writer 0 to_journal;
       if bool_decide (synchronous p = SyncOff) then mret tt
       else on_vfs (map_err_M journal_to_pager_error (Journal.sync writer)));
  _ ← write_dirty page_nums;
  _ ← (if bool_decide (synchronous p = SyncFull) then on_vfs (modify (fun d => file_sync d DbFile)) else mret tt);
  _ ← (if bool_decide (to_journal = []) then mret tt
       else on_vfs (modify (fun d => vfs_delete d JournalFile)));
  modify (fun p => set_dirty p ∅).

(** A fresh log and wal-index, shared by [recreate_wal_locked] and
    [switch_journal_to_wal]. *)
Definition fresh_wal (env : Env) (psize : Z) : M Disk PagerError WalWriter :=
  let salt2 := Z.lxor (env_salt2 env) 1515870810 in
  let header := Wal.new true psize (env_salt1 env) salt2 1 in
  writer ← map_err_M PWal (Wal.create header);
  _ ← modify (fun d => create_or_open_write d ShmFile);
  _ ← modify (fun d => file_write_at d ShmFile fresh_shm_bytes 0);
  _ ← modify (fun d => file_sync d ShmFile);
  mret writer.

Definition recreate_wal_locked (env : Env) : M Pager PagerError WalWriter :=
  p ← get_st;
  writer ← on_vfs (fresh_wal env (pg_page_size p));
  _ ← modify (fun p => set_wal_resume p None);
  mret writer.

(** The frame loop: every dirty page in order, the last one the commit frame. *)
Fixpoint append_dirty (w : WalWriter) (dirty : gmap Z (list Z)) (page_nums : list Z) (post_page_count : Z)
  : WalWriter :=
  match page_nums with
  | [] => w
  | n :: rest =>
    let commit_db_size := if bool_decide (rest = []) then post_page_count else 0 in
    let w := match dirty !! n with
             | Some bytes => append_frame w n bytes commit_db_size
             | None => w
             end in
    append_dirty w dirty rest post_page_count
  end.

Definition flush_wal_locked (env : Env) : M Pager PagerError unit :=
  p ← get_st;
  let page_nums := sorted_keys (dirty p) in
  if negb (env_wal_write_lock env) then throw (PVfs (Locked ShmFile)) else
  page1 ← map_err_M PPage (read_page 1);
  post_page_count ← lift (map_err PFreelist (read_be_u32 page1 PAGE_COUNT_OFFSET));
  writer ← (fun p =>
    match open_existing (pg_page_size p) (wal_resume p) (vfs p) with
    | (Ok w, d) => (Ok w, set_vfs p d)
    | (Err (WalVfs (NotFound _)), d) => recreate_wal_locked env (set_vfs p d)
    | (Err source, d) => (Err (PWal source), set_vfs p d)
    end);
  let writer := append_dirty writer (dirty p) page_nums post_page_count in
  writer ← (if bool_decide (synchronous p = SyncFull)
            then on_vfs (map_err_M PWal (Wal.sync writer)) else mret writer);
  _ ← modify (fun p => set_wal_resume p (Some (resume_hint writer)));
  _ ← modify (fun p => set_mx_frame p (Some (frame_count writer)));
  _ ← modify (fun p' => set_wal_pages p' (dirty p ∪ wal_pages p'));
  modify (fun p => set_dirty p ∅).

Definition flush (env : Env) : M Pager PagerError unit :=
  p ← get_st;
  if bool_decide (dirty p = ∅) then release_tx_lock else
  if bool_decide (pg_journal_mode p = Header.Wal) then
    then_always (flush_wal_locked env) release_tx_lock
  else
  _ ← on_lock (set_level Exclusive);
  then_always (flush_locked env)
    (_ ← on_lock (set_level Shared); modify (fun p => set_tx_lock p Shared)).

Definition rollback : M Pager PagerError unit :=
  _ ← modify (fun p => set_dirty p ∅); release_tx_lock.

Definition switch_journal_to_wal (env : Env) : M Pager PagerError unit :=
  p ← get_st;
  _ ← on_vfs (fresh_wal env (pg_page_size p));
  modify (fun p => set_wal_resume p None).

(** [for _ in 0..MAX_PASSES]: stop at the first complete pass. *)
Fixpoint checkpoint_passes (n : nat) (env : Env) (psize : Z) : M Disk PagerError bool :=
  match n with
  | O => mret false
  | S n =>
    res ← checkpoint_passive (env_reader_marks env) (env_backfill env) (env_ckpt_lock env) psize;
    if checkpoint_complete (fst res) then mret true else checkpoint_passes n env psize
  end.

Definition switch_wal_to_journal (env : Env) : M Pager PagerError unit :=
  p ← get_st;
  complete ← on_vfs (checkpoint_passes 1000 env (pg_page_size p));
  if negb complete then throw CheckpointIncomplete else
  _ ← on_vfs (modify (fun d => vfs_delete d WalFile));
  _ ← on_vfs (modify (fun d => vfs_delete d ShmFile));
  _ ← modify (fun p => set_wal_pages p ∅);
  modify (fun p => set_wal_resume p None).

Definition set_journal_mode (env : Env) (mode : JournalMode) : M Pager PagerError unit :=
  p ← get_st;
  if negb (bool_decide (dirty p = ∅)) || level_lt Shared (tx_lock_level p) then throw PendingTransaction else
  if bool_decide (pg_journal_mode p = mode) then mret tt else
  _ ← (match mode with
       | Header.Wal => switch_journal_to_wal env
       | Legacy => switch_wal_to_journal env
       end);
  _ ← modify (fun p => set_mode p mode);
  p ← get_st;
  page1 ← lift (map_err PPage (source_read (vfs p) (pg_page_size p) 1));
  let version_bytes := match mode with Header.Wal => [2; 2] | Legacy => [1; 1] end in
  page1 ← lift (patch_journal_mode_bytes page1 version_bytes);
  _ ← on_vfs (map_err_M PPage (source_write (pg_page_size p) 1 page1));
  _ ← on_vfs (modify (fun d => file_sync d DbFile));
  modify (fun p => set_cache p (invalidate (page_cache p) 1)).

(** Writes a field of a page through [get_page_mut]. *)
Definition patch_u32 (n offset value : Z) : M Pager PagerError unit :=
  buf ← get_page_mut n;
  buf ← lift (map_err PFreelist (write_be_u32 buf offset value));
  put_page n buf.

(** The two freelist fields of page 1, written through one reference. *)
Definition patch_freelist (trunk_page page_count : Z) : M Pager PagerError unit :=
  page1 ← get_page_mut 1;
  page1 ← lift (map_err PFreelist (write_be_u32 page1 FREELIST_TRUNK_PAGE_OFFSET trunk_page));
  _ ← put_page 1 page1;
  page1 ← lift (map_err PFreelist (write_be_u32 page1 FREELIST_PAGE_COUNT_OFFSET page_count));
  put_page 1 page1.

Definition write_trunk (n : Z) (t : TrunkPage) : M Pager PagerError unit :=
  buf ← get_page_mut n;
  buf ← lift (map_err PFreelist (Freelist.write t buf));
  put_page n buf.

Definition read_page_p (n : Z) : M Pager PagerError (list Z) := map_err_M PPage (read_page n).

(** [Vec::pop]. *)
Definition pop_last (l : list Z) : option (Z * list Z) :=
  match last l with Some x => Some (x, removelast l) | None => None end.

Definition allocate_page : M Pager PagerError Z :=
  header ← read_page_p 1;
  page_count ← lift (map_err PFreelist (read_be_u32 header PAGE_COUNT_OFFSET));
  freelist_trunk_page ← lift (map_err PFreelist (read_be_u32 header FREELIST_TRUNK_PAGE_OFFSET));
  freelist_page_count ← lift (map_err PFreelist (read_be_u32 header FREELIST_PAGE_COUNT_OFFSET));
  if freelist_trunk_page =? 0 then
    let new_page_num := sat_add32 page_count 1 in
    _ ← modify (fun p => set_dirty p (<[new_page_num := zeros (pg_page_size p)]> (dirty p)));
    _ ← patch_u32 1 PAGE_COUNT_OFFSET new_page_num;
    mret new_page_num
  else
    trunk_buf ← read_page_p freelist_trunk_page;
    trunk ← lift (map_err PFreelist (Freelist.parse trunk_buf));
    result ← match pop_last (leaves trunk) with
             | Some (leaf, rest) =>
               _ ← write_trunk freelist_trunk_page (MkTrunk (next_trunk trunk) rest);
               mret (leaf, freelist_trunk_page)
             | None => mret (freelist_trunk_page, next_trunk trunk)
             end;
    let '(allocated, new_trunk_page) := result in
    _ ← patch_freelist new_trunk_page (sat_sub freelist_page_count 1);
    mret allocated.

Definition deallocate_page (page_num : Z) : M Pager PagerError unit :=
  header ← read_page_p 1;
  freelist_trunk_page ← lift (map_err PFreelist (read_be_u32 header FREELIST_TRUNK_PAGE_OFFSET));
  freelist_page_count ← lift (map_err PFreelist (read_be_u32 header FREELIST_PAGE_COUNT_OFFSET));
  p ← get_st;
  let max_leaves := max_leaves_per_trunk (pg_page_size p) in
  new_trunk_page ← (
    if negb (freelist_trunk_page =? 0) then
      trunk_buf ← read_page_p freelist_trunk_page;
      trunk ← lift (map_err PFreelist (Freelist.parse trunk_buf));
      if len (leaves trunk) <? max_leaves then
        _ ← write_trunk freelist_trunk_page (MkTrunk (next_trunk trunk) (leaves trunk ++ [page_num]));
        mret freelist_trunk_page
      else
        _ ← write_trunk page_num (MkTrunk freelist_trunk_page []);
        mret page_num
    else
      _ ← write_trunk page_num (MkTrunk 0 []);
      mret page_num);
  patch_freelist new_trunk_page (sat_add32 freelist_page_count 1).

(** ** Opening *)

Definition recover_hot_journal : M Disk PagerError unit :=
  d ← get_st;
  journal_file ← lift (map_err PVfs (open_file d JournalFile));
  let journal_bytes := read_at journal_file (size journal_file) 0 in
  recovered ← map_err_M journal_to_pager_error (recover journal_bytes);
  _ ← modify (fun d => file_truncate d DbFile
                (sat_mul (rj_initial_page_count recovered) (rj_page_size recovered)));
  _ ← modify (fun d => file_sync d DbFile);
  modify (fun d => vfs_delete d JournalFile).

Definition read_wal_pages (psize : Z) : M Disk PagerError (gmap Z (list Z)) :=
  d ← get_st;
  if negb (vfs_exists d WalFile) then mret ∅ else
  wal_file ← lift (map_err PVfs (open_file d WalFile));
  if size wal_file <? Wal.HEADER_LEN then mret ∅ else
  let bytes := read_at wal_file (size wal_file) 0 in
  if len bytes <? Wal.HEADER_LEN then mret ∅ else
  header ← lift (map_err PWal (Wal.parse bytes));
  if negb (Wal.page_size header =? psize) then throw (PWal (InvalidPageSize (Wal.page_size header))) else
  mret (fst (committed_pages header bytes)).

Definition journal_is_hot (d : Disk) : bool :=
  match files d !! JournalFile with
  | Some j => bool_decide (read_at j (len JOURNAL_MAGIC) 0 = JOURNAL_MAGIC)
  | None => false
  end.

(** The two halves of the state of [open]: the files and the file lock. *)
Definition in_files {A} (m : M Disk PagerError A) : M (Disk * FileLockState OS) PagerError A :=
  zoom fst (fun s d => (d, snd s)) m.
Definition in_lock {A} (m : M (FileLockState OS) VfsError A) : M (Disk * FileLockState OS) PagerError A :=
  map_err_M PVfs (zoom snd (fun s l => (fst s, l)) m).

(** Recovery under an EXCLUSIVE lock, unless another connection is writing;
    [others] are the processes [F_GETLK] may report. *)
Definition recovery_step (others : list nat) : M (Disk * FileLockState OS) PagerError unit :=
  s ← get_st;
  if check_reserved (snd s) others then throw (PVfs (Locked DbFile)) else
  _ ← in_lock (set_level Exclusive);
  _ ← in_files recover_hot_journal;
  in_lock (set_level Shared).

(** [claim] is what claiming a reader slot in the wal-index answers. *)
Definition open_locked (others : list nat) (claim : result VfsError unit) (psize : Z) :
    M (Disk * FileLockState OS) PagerError Pager :=
  s ← get_st;
  let hot := journal_is_hot (fst s) in
  _ ← lift (map_err PVfs (open_file (fst s) DbFile));
  _ ← in_lock (set_level Shared);
  _ ← (if hot then recovery_step others else mret tt);
  _ ← lift (map_err PVfs claim);
  wal_pages ← in_files (read_wal_pages psize);
  s ← get_st;
  page1 ← lift (map_err PPage (source_read (fst s) psize 1));
  mret (MkPager (fst s) (snd s) Shared None wal_pages ∅ (PageCache.new DEFAULT_PAGE_CACHE_CAPACITY)
          psize (journal_mode_from_page1 page1) SyncFull None).

(** An early return drops the file lock. *)
Definition open (others : list nat) (claim : result VfsError unit) (psize : Z) :
    M (Disk * FileLockState OS) PagerError Pager :=
  fun s => match open_locked others claim psize s with
           | (Ok p, s') => (Ok p, s')
           | (Err e, (d, l)) => (Err e, (d, snd (set_level Unlocked l)))
           end.

End Pager.
Arguments Pager : clear implicits.
