(* ===== verification/Commit.v ===== *)
(** * Commit through the rollback journal: crash atomicity

    The operations a journal-mode commit performs on the files, in order, and
    what recovery makes of every state a crash can leave. *)

From stdpp Require Import prelude list numbers gmap sorting.
From Stdlib Require Import ZArith Lia.
From S2P Require Import Prelude Header Freelist Vfs Journal Wal Lock Shm Checkpoint PageCache Pager.

Local Open Scope Z_scope.

(** ** Crashes *)

(** What may have become of a completed operation when the system fails: a write
    to the main file may be there, be lost, or be torn (any bytes, over its
    range or the start of it); the other operations took effect. *)
Definition torn_op (op op' : IoOp) : Prop :=
  match op with
  | IoWrite DbFile buf off =>
    op' = op \/ op' = IoSync DbFile \/ exists buf', len buf' <= len buf /\ op' = IoWrite DbFile buf' off
  | _ => op' = op
  end.

(** What a failure may leave of the sequence [ops]: the operations before some
    point, or, when that point is inside a write to the journal, also any
    number of bytes of that write. *)
Inductive crashed (ops : list IoOp) : list IoOp -> Prop :=
| crashed_between k ops' :
    (k < length ops)%nat -> Forall2 torn_op (take k ops) ops' -> crashed ops ops'
| crashed_within k buf off m ops' :
    ops !! k = Some (IoWrite JournalFile buf off) -> Forall2 torn_op (take k ops) ops' ->
    crashed ops (ops' ++ [IoWrite JournalFile (take m buf) off]).

(** [open]'s treatment of a journal found next to the database. *)
Definition recover_if_hot : M Disk PagerError unit :=
  d ← get_st; if journal_is_hot d then recover_hot_journal else mret tt.

(** A journal [J] that starts with the magic and replays as the records [rs],
    pre-images of pages of [D]: rolling it back restores [D]. *)
Lemma hot_journal_recovers fs l J ps cnt rs data D :
  0 < ps <= 65536 -> 0 <= cnt <= U32_MAX -> len D = cnt * ps ->
  fs !! JournalFile = Some J -> fs !! DbFile = Some data -> take 8 J = JOURNAL_MAGIC ->
  recover J (MkDisk fs l) = (Ok (MkRecovered cnt ps), restore ps rs (MkDisk fs l)) ->
  (forall n b, (n, b) ∈ rs -> 1 <= n <= cnt /\ page ps D n = Some b) ->
  (forall n, 1 <= n <= cnt -> n ∉ map fst rs -> page ps data n = page ps D n) ->
  exists d', recover_if_hot (MkDisk fs l) = (Ok tt, d') /\ files d' = delete JournalFile (<[DbFile := D]> fs).
Proof.
  intros Hps Hcnt HD Hj Hdb Hmagic Hrec Hrs Hag. unfold recover_if_hot. erewrite M_bind_ok by reflexivity.
  assert (forall n, 0 < len J -> read_at J n 0 = take (Z.to_nat n) J) as Hread
    by (intros n Hl; unfold read_at; by rewrite (proj2 (Z.leb_gt _ _))).
  assert (0 < len J) as Hl by (destruct J; [done|rewrite len_cons; pose proof (len_nonneg J); lia]).
  assert (journal_is_hot (MkDisk fs l) = true) as ->.
  { unfold journal_is_hot. cbn [files]. rewrite Hj, Hread by done. by apply bool_decide_eq_true_2. }
  unfold recover_hot_journal. erewrite M_bind_ok by reflexivity. unfold open_file. cbn [files]. rewrite Hj. cbn [ok_or map_err].
  erewrite M_bind_ok by reflexivity. cbv zeta. rewrite Hread, take_ge by (done || (unfold size, len; lia)).
  erewrite M_bind_ok; [|unfold map_err_M; rewrite Hrec; reflexivity].
  erewrite M_bind_ok by reflexivity. erewrite M_bind_ok by reflexivity.
  eexists. split; [reflexivity|]. cbn [rj_initial_page_count rj_page_size].
  unfold vfs_delete, file_sync, file_truncate, perform. cbn [files apply_op].
  rewrite (restore_files _ _ _ data) by done. rewrite alter_insert_eq. cbn [files]. do 2 f_equal.
  rewrite sat_mul_small by (unfold U32_MAX, U64_MAX in *; nia). by apply restore_db_truncate.
Qed.

Section Commit.
Context (ps cnt nonce : Z) (D : list Z) (dirty_pages : gmap Z (list Z)).
Context (Hps : 512 <= ps <= 65536) (Hcnt : 1 <= cnt <= U32_MAX) (Hnonce : is_u32 nonce).
Context (HD : len D = cnt * ps).
Context (Hdirty : forall n b, dirty_pages !! n = Some b -> 1 <= n <= U32_MAX /\ len b = ps).

Definition page_nums : list Z := sorted_keys dirty_pages.
Definition to_journal : list Z := filter (fun n => n <= cnt) page_nums.
Definition preimages : list (Z * list Z) := map (fun n => (n, default [] (page ps D n))) to_journal.
Definition commit_header : JournalHeader := MkJournalHeader (len to_journal) nonce cnt ps ps.

Context (Hcount : len to_journal <= U32_MAX).

Definition journal_ops : list IoOp := create_ops commit_header ++ record_ops commit_header 0 preimages.
Definition page_op (n : Z) : IoOp := IoWrite DbFile (default [] (dirty_pages !! n)) (page_offset ps n).
Definition page_ops : list IoOp := map page_op page_nums.

Lemma sorted_keys_elem m n : n ∈ sorted_keys m <-> is_Some (m !! n).
Proof.
  unfold sorted_keys. rewrite merge_sort_Permutation. rewrite list_elem_of_fmap. split.
  - intros ([k b] & -> & Hin%elem_of_map_to_list). cbn. eauto.
  - intros [b Hb]. exists (n, b). split; [done|]. by apply elem_of_map_to_list.
Qed.

Lemma to_journal_elem n : n ∈ to_journal <-> is_Some (dirty_pages !! n) /\ n <= cnt.
Proof. unfold to_journal, page_nums. rewrite list_elem_of_filter, sorted_keys_elem. split; by intros [? ?]. Qed.

Lemma preimages_fst : map fst preimages = to_journal.
Proof. unfold preimages. rewrite map_map. cbn. apply map_id. Qed.

Lemma len_preimages : len preimages = len to_journal.
Proof. unfold preimages. apply len_map. Qed.

Lemma preimage_elem n b : (n, b) ∈ preimages -> 1 <= n <= cnt /\ page ps D n = Some b.
Proof.
  intros (m & [= -> ->] & Hm)%list_elem_of_fmap. apply to_journal_elem in Hm as [[c Hc] Hle].
  destruct (Hdirty _ _ Hc) as [H1 _]. split; [lia|].
  destruct (page_is_Some ps D m) as [x Hx]; [lia|lia|nia|]. by rewrite Hx.
Qed.

Lemma preimages_wf : Forall (wf_record ps) preimages.
Proof.
  apply Forall_forall. intros [n b] Hin. destruct (preimage_elem n b Hin) as [Hn Hp].
  destruct (page_inv _ _ _ _ Hp) as [_ Hl]. split; [|done]. unfold is_u32, U32_MAX in *. cbn. lia.
Qed.

Lemma commit_header_wf : Journal.wf_header commit_header.
Proof.
  unfold Journal.wf_header, commit_header, is_u32, U32_MAX in *. cbn.
  pose proof (len_nonneg to_journal). lia.
Qed.

(** ** Recovery from a journal holding some of the pre-images *)

Lemma preimages_prefix rs rest : preimages = rs ++ rest -> Forall (wf_record ps) rs /\ len rs <= len to_journal /\
  forall n b, (n, b) ∈ rs -> 1 <= n <= cnt /\ page ps D n = Some b.
Proof.
  intros E. split; [|split].
  - pose proof preimages_wf as Hw. rewrite E in Hw. by apply Forall_app in Hw as [? _].
  - rewrite <- len_preimages, E, len_app. pose proof (len_nonneg rest). lia.
  - intros n b Hin. apply preimage_elem. rewrite E. apply elem_of_app. by left.
Qed.

(** The records of a prefix of the pre-images, and part of the next one. *)
Lemma hot_recovery fs l rs rest tail data :
  preimages = rs ++ rest -> len tail < ps + 8 ->
  fs !! JournalFile = Some (image commit_header rs ++ tail) -> fs !! DbFile = Some data ->
  (forall n, 1 <= n <= cnt -> n ∉ map fst rs -> page ps data n = page ps D n) ->
  exists d', recover_if_hot (MkDisk fs l) = (Ok tt, d') /\
    files d' = delete JournalFile (<[DbFile := D]> fs).
Proof.
  intros Hrs Ht Hj Hdb Hag. destruct (preimages_prefix rs rest Hrs) as (Hw & Hle & Hpre).
  apply (hot_journal_recovers fs l (image commit_header rs ++ tail) ps cnt rs data D); try done; try lia.
  apply (recover_image commit_header commit_header_wf); [unfold JOURNAL_HEADER_LEN; cbn; lia|cbn; lia|done|done|by right].
Qed.

(** The header region cut short after the header. *)
Lemma cut_header_recovery fs l m :
  (28 <= m)%nat -> fs !! JournalFile = Some (take m (region commit_header)) -> fs !! DbFile = Some D ->
  exists d', recover_if_hot (MkDisk fs l) = (Ok tt, d') /\ files d' = delete JournalFile (<[DbFile := D]> fs).
Proof.
  intros Hm Hj Hdb. apply (hot_journal_recovers fs l (take m (region commit_header)) ps cnt [] D D); try done; try lia.
  - rewrite take_take, Nat.min_l by lia. done.
  - apply (recover_cut_region commit_header commit_header_wf); unfold JOURNAL_HEADER_LEN; cbn; lia.
  - by intros n b ?%elem_of_nil.
Qed.

(** ** The states a crash can leave *)

Definition agrees (data : list Z) : Prop :=
  forall n, 1 <= n <= cnt -> n ∉ to_journal -> page ps data n = page ps D n.

(** The operations between the last journal record and the commit point. *)
Definition middle_op (op : IoOp) : Prop :=
  (exists f, op = IoSync f) \/ exists n, n ∈ page_nums /\ op = page_op n.

Lemma agrees_write n b data :
  n ∈ page_nums -> len b <= ps -> agrees data -> agrees (write_at data b (page_offset ps n)).
Proof.
  intros Hn%sorted_keys_elem Hb Hag m Hm Hnj. destruct Hn as [b0 Hb0]. destruct (Hdirty _ _ Hb0) as [Hn1 _].
  rewrite <- Hag by done. destruct (page_is_Some ps D m) as [c Hc]; [lia|lia|nia|].
  rewrite Hag, Hc by done. apply page_write_short_ne; [split; lia| |done|by rewrite Hag].
  intros ->. apply Hnj. apply to_journal_elem. split; [by eexists|lia].
Qed.

Lemma torn_middle ops : forall ops' fs data,
  Forall middle_op ops -> Forall2 torn_op ops ops' ->
  fs !! DbFile = Some data -> agrees data ->
  exists data', replay fs ops' = <[DbFile := data']> fs /\ agrees data'.
Proof.
  induction ops as [|op ops IH]; intros ops' fs data Hm Ht Hdb Hag; inversion Ht as [|? op' ? ops'' Hto Hts]; subst.
  { exists data. split; [cbn; by rewrite insert_id|done]. }
  apply Forall_cons_iff in Hm as [Hop Hm].
  assert (exists data1, apply_op fs op' = <[DbFile := data1]> fs /\ agrees data1) as (data1 & E1 & Hag1).
  { assert (forall b n, n ∈ page_nums -> len b <= ps ->
      exists data1, apply_op fs (IoWrite DbFile b (page_offset ps n)) = <[DbFile := data1]> fs /\ agrees data1) as Hw.
    { intros b n Hn Hb. exists (write_at data b (page_offset ps n)). split; [|by apply agrees_write].
      cbn. rewrite <- (insert_id fs DbFile data Hdb) at 1. by rewrite alter_insert_eq. }
    assert (forall f, exists data1, apply_op fs (IoSync f) = <[DbFile := data1]> fs /\ agrees data1) as Hsy.
    { intros f. exists data. split; [cbn; by rewrite insert_id|done]. }
    destruct Hop as [[f ->]|(n & Hn & ->)].
    - cbn in Hto. subst op'. apply Hsy.
    - pose proof Hn as [b Hb]%sorted_keys_elem. destruct (Hdirty _ _ Hb) as [_ Hl].
      unfold page_op in Hto. rewrite Hb in Hto. cbn in Hto.
      destruct Hto as [->|[->|(b' & Hl' & ->)]]; [apply Hw; [done|lia]|apply Hsy|apply Hw; [done|lia]]. }
  change (replay fs (op' :: ops'')) with (replay (apply_op fs op') ops''). rewrite E1.
  destruct (IH ops'' (<[DbFile := data1]> fs) data1 Hm Hts) as (data' & E & Hag'); [by rewrite lookup_insert_eq|done|].
  exists data'. split; [|done]. rewrite E. by rewrite insert_insert_eq.
Qed.

Lemma torn_same ops ops' :
  Forall (fun op => forall op', torn_op op op' -> op' = op) ops -> Forall2 torn_op ops ops' -> ops' = ops.
Proof.
  intros Hs. revert ops'. induction Hs as [|op ops Hop _ IH]; intros ops' Ht; inversion Ht; subst; [done|].
  f_equal; [by apply Hop|by apply IH].
Qed.

Lemma journal_ops_same : Forall (fun op => forall op', torn_op op op' -> op' = op) journal_ops.
Proof.
  unfold journal_ops. apply Forall_app. split; [by repeat constructor|].
  generalize 0. induction preimages as [|r l IH]; intros i; cbn [record_ops]; constructor; [by intros|apply IH].
Qed.

Lemma length_journal_ops : length journal_ops = (2 + length preimages)%nat.
Proof. unfold journal_ops. rewrite length_app, length_record_ops. done. Qed.

(** After a prefix of the journal's operations: no journal, an empty one, or
    the image of a prefix of the records. *)
Lemma replay_journal_ops fs k :
  fs !! JournalFile = None ->
  replay fs (take k journal_ops) =
    match k with
    | O => fs
    | S O => <[JournalFile := []]> fs
    | S (S j) => <[JournalFile := image commit_header (take j preimages)]> fs
    end.
Proof.
  intros Hn. unfold journal_ops. destruct k as [|[|j]].
  - done.
  - cbn. by rewrite Hn.
  - rewrite take_app_ge by (cbn; lia). rewrite replay_app.
    rewrite (replay_create_ops commit_header commit_header_wf) by (done || (unfold JOURNAL_HEADER_LEN; cbn; lia)).
    replace (S (S j) - length (create_ops commit_header))%nat with j by (cbn; lia).
    pose proof (replay_record_ops commit_header commit_header_wf ltac:(unfold JOURNAL_HEADER_LEN; cbn; lia) ltac:(cbn; lia)
      preimages [] (<[JournalFile := image commit_header []]> fs) j) as Hr.
    change (len []) with 0 in Hr. cbn [app] in Hr. rewrite Hr.
    + by rewrite insert_insert_eq.
    + by rewrite lookup_insert_eq.
    + apply preimages_wf.
    + by rewrite len_preimages.
Qed.

(** What is found after a failure: the old main file and no hot journal, or a
    journal too short for its header, which [open] refuses. *)
Definition recovers_old (fs : gmap FileId (list Z)) (l : list IoOp) : Prop :=
  exists r d', recover_if_hot (MkDisk fs l) = (r, d') /\ files d' !! DbFile = Some D /\
    (r = Ok tt /\ journal_is_hot d' = false \/
     exists j, fs !! JournalFile = Some j /\ len JOURNAL_MAGIC <= len j < JOURNAL_HEADER_LEN /\
       r = Err (PJournal (Journal.HeaderTooShort (len j)))).

Lemma recovered_old fs fs' l d' :
  recover_if_hot (MkDisk fs l) = (Ok tt, d') -> files d' = delete JournalFile (<[DbFile := D]> fs') -> recovers_old fs l.
Proof.
  intros E Hf. exists (Ok tt), d'. split; [done|]. rewrite Hf. split; [rewrite lookup_delete_ne by done; by rewrite lookup_insert_eq|].
  left. split; [done|]. unfold journal_is_hot. by rewrite Hf, lookup_delete_eq.
Qed.

Lemma cold_old fs l : fs !! DbFile = Some D -> journal_is_hot (MkDisk fs l) = false -> recovers_old fs l.
Proof.
  intros Hdb Hc. exists (Ok tt), (MkDisk fs l). split; [|by auto]. unfold recover_if_hot. erewrite M_bind_ok by reflexivity. by rewrite Hc.
Qed.

Lemma crash_between fs0 middle k ops' l :
  Forall middle_op middle ->
  fs0 !! JournalFile = None -> fs0 !! DbFile = Some D ->
  Forall2 torn_op (take k (journal_ops ++ middle)) ops' ->
  recovers_old (replay fs0 ops') l.
Proof.
  intros Hmid Hj Hdb Ht. destruct (Nat.le_gt_cases k (length journal_ops)) as [Hle|Hgt].
  - rewrite take_app_le in Ht by done.
    apply torn_same in Ht as ->; [|apply Forall_take, journal_ops_same].
    rewrite (replay_journal_ops fs0 k Hj). destruct k as [|[|j]].
    + apply cold_old; [done|]. unfold journal_is_hot. cbn [files]. by rewrite Hj.
    + apply cold_old; [by rewrite lookup_insert_ne|]. unfold journal_is_hot. cbn [files]. by rewrite lookup_insert_eq.
    + destruct (hot_recovery (<[JournalFile := image commit_header (take j preimages)]> fs0) l
        (take j preimages) (drop j preimages) [] D) as (d' & E & Hf); [by rewrite take_drop|rewrite len_nil; lia| | |done|].
      * by rewrite app_nil_r, lookup_insert_eq.
      * by rewrite lookup_insert_ne.
      * by eapply recovered_old.
  - rewrite take_app_ge in Ht by lia. apply Forall2_app_inv_l in Ht as (o1 & o2 & Ht1 & Ht2 & ->).
    apply torn_same in Ht1 as ->; [|apply journal_ops_same]. rewrite replay_app.
    rewrite <- (take_ge journal_ops (length journal_ops)) by lia.
    rewrite (replay_journal_ops fs0 _ Hj), length_journal_ops. cbn [Nat.add].
    rewrite take_ge by lia.
    destruct (torn_middle (take (k - length journal_ops) middle) o2
      (<[JournalFile := image commit_header preimages]> fs0) D) as (data' & E & Hag);
      [by apply Forall_take|done|by rewrite lookup_insert_ne|done|].
    rewrite E.
    destruct (hot_recovery (<[DbFile := data']> (<[JournalFile := image commit_header preimages]> fs0)) l
      preimages [] [] data') as (d' & E2 & Hf); [by rewrite app_nil_r|rewrite len_nil; lia| | | |].
    + rewrite app_nil_r, lookup_insert_ne by done. by rewrite lookup_insert_eq.
    + by rewrite lookup_insert_eq.
    + rewrite preimages_fst. exact Hag.
    + by eapply recovered_old.
Qed.

(** The header cut short: the file is no journal, an unreadable one, or one
    without records. *)
Lemma crash_in_header fs0 m l :
  fs0 !! DbFile = Some D -> recovers_old (<[JournalFile := take m (region commit_header)]> fs0) l.
Proof.
  intros Hdb. set (fs := <[JournalFile := take m (region commit_header)]> fs0).
  assert (fs !! JournalFile = Some (take m (region commit_header))) as Hj by (unfold fs; by rewrite lookup_insert_eq).
  assert (fs !! DbFile = Some D) as Hdb' by (unfold fs; by rewrite lookup_insert_ne).
  assert (len (region commit_header) = ps) as Hlr.
  { rewrite len_region; [done|unfold JOURNAL_HEADER_LEN; cbn; lia]. }
  assert (len (take m (region commit_header)) = Z.min (Z.of_nat m) ps) as Hl by (unfold len in *; rewrite length_take; lia).
  destruct (Nat.lt_ge_cases m 28) as [Hm|Hm].
  2: { destruct (cut_header_recovery fs l m Hm Hj Hdb') as (d' & E & Hf). by eapply recovered_old. }
  assert (0 < len (take m (region commit_header)) -> read_at (take m (region commit_header)) 8 0 = take (Nat.min 8 m) (region commit_header)) as Hread
    by (intros ?; unfold read_at; by rewrite (proj2 (Z.leb_gt _ _)), drop_0, take_take).
  destruct (Nat.lt_ge_cases m 8) as [Hm8|Hm8].
  - apply cold_old; [done|]. unfold journal_is_hot. cbn [files]. rewrite Hj. apply bool_decide_eq_false_2. intros E.
    apply (f_equal len) in E. change (len JOURNAL_MAGIC) with 8 in E. unfold read_at in E. destruct (_ <=? _); [done|].
    unfold len in *. rewrite length_take, drop_0 in E. lia.
  - exists (Err (PJournal (Journal.HeaderTooShort (len (take m (region commit_header)))))), (MkDisk fs l). split.
    { unfold recover_if_hot. erewrite M_bind_ok by reflexivity.
      assert (journal_is_hot (MkDisk fs l) = true) as ->.
      { unfold journal_is_hot. cbn [files]. rewrite Hj. change (len JOURNAL_MAGIC) with 8. rewrite Hread by lia.
        apply bool_decide_eq_true_2. by rewrite Nat.min_l by lia. }
      unfold recover_hot_journal. erewrite M_bind_ok by reflexivity. unfold open_file. cbn [files]. rewrite Hj. cbn [ok_or map_err].
      erewrite M_bind_ok by reflexivity. cbv zeta.
      assert (forall b, 0 < len b -> read_at b (size b) 0 = b) as -> by
        (intros b Hb; unfold read_at; rewrite (proj2 (Z.leb_gt _ _)) by done; rewrite drop_0, take_ge; [done|unfold size, len; lia]); [|lia].
      apply M_bind_err. unfold map_err_M. rewrite recover_short by (unfold JOURNAL_HEADER_LEN; lia). done. }
    split; [done|]. right. exists (take m (region commit_header)). split; [done|]. split; [|done].
    change (len JOURNAL_MAGIC) with 8. unfold JOURNAL_HEADER_LEN. lia.
Qed.

(** A record cut short. *)
Lemma crash_in_record fs0 j r m l :
  fs0 !! DbFile = Some D -> preimages !! j = Some r ->
  recovers_old (apply_op (<[JournalFile := image commit_header (take j preimages)]> fs0)
    (IoWrite JournalFile (take m (record_bytes nonce r.1 r.2))
       (sat_add ps (sat_mul (Z.of_nat j) (record_len ps))))) l.
Proof.
  intros Hdb Hr. pose proof (lookup_lt_Some _ _ _ Hr) as Hjl.
  assert (len (take j preimages) = Z.of_nat j) as Hlj by (unfold len; rewrite length_take; lia).
  destruct (preimages_prefix _ _ (eq_sym (take_drop j preimages))) as (Hw & _ & _).
  pose proof preimages_wf as Hall. rewrite Forall_lookup in Hall. destruct (Hall _ _ Hr) as [_ Hl2].
  pose proof (len_record_bytes commit_header nonce r.1 r.2 Hl2) as Hlb. cbn [jh_page_size commit_header] in Hlb.
  pose proof len_preimages as Hlp.
  assert (len (take m (record_bytes nonce r.1 r.2)) <= ps + 8) as Hcut by (unfold len in *; rewrite length_take; lia).
  pose proof (apply_journal_write commit_header commit_header_wf ltac:(unfold JOURNAL_HEADER_LEN; cbn; lia) ltac:(cbn; lia)
    (<[JournalFile := image commit_header (take j preimages)]> fs0) (take j preimages) (take m (record_bytes nonce r.1 r.2))) as Ha.
  rewrite Hlj in Ha. cbn [jh_page_size jh_sector_size commit_header] in Ha.
  rewrite Ha; [|by rewrite lookup_insert_eq|done|unfold len in *; lia|done]. clear Ha. rewrite insert_insert_eq.
  destruct (decide (len (take m (record_bytes nonce r.1 r.2)) < ps + 8)) as [Hlt|Hge].
  - destruct (hot_recovery (<[JournalFile := image commit_header (take j preimages) ++ take m (record_bytes nonce r.1 r.2)]> fs0) l
      (take j preimages) (drop j preimages) (take m (record_bytes nonce r.1 r.2)) D) as (d' & E & Hf);
      [by rewrite take_drop|done|by rewrite lookup_insert_eq|by rewrite lookup_insert_ne|done|by eapply recovered_old].
  - rewrite (take_ge (record_bytes _ _ _)) by (unfold len in Hge, Hlb; rewrite length_take in Hge; lia).
    assert (image commit_header (take j preimages) ++ record_bytes nonce r.1 r.2 = image commit_header (take (S j) preimages)) as ->
      by (rewrite (take_S_r _ _ _ Hr); destruct r; by rewrite image_snoc).
    destruct (hot_recovery (<[JournalFile := image commit_header (take (S j) preimages)]> fs0) l
      (take (S j) preimages) (drop (S j) preimages) [] D) as (d' & E & Hf);
      [by rewrite take_drop|rewrite len_nil; lia|by rewrite app_nil_r, lookup_insert_eq|by rewrite lookup_insert_ne|done|by eapply recovered_old].
Qed.

Lemma crash_within fs0 middle k buf off m ops' l :
  Forall middle_op middle ->
  fs0 !! JournalFile = None -> fs0 !! DbFile = Some D ->
  (journal_ops ++ middle) !! k = Some (IoWrite JournalFile buf off) ->
  Forall2 torn_op (take k (journal_ops ++ middle)) ops' ->
  recovers_old (replay fs0 (ops' ++ [IoWrite JournalFile (take m buf) off])) l.
Proof.
  intros Hmid Hj Hdb Hk Ht. destruct (Nat.lt_ge_cases k (length journal_ops)) as [Hlt|Hge].
  2: { rewrite lookup_app_r in Hk by lia. rewrite Forall_lookup in Hmid. destruct (Hmid _ _ Hk) as [[f E]|(n & _ & E)]; discriminate E. }
  rewrite take_app_le in Ht by lia. apply torn_same in Ht as ->; [|apply Forall_take, journal_ops_same].
  rewrite lookup_app_l in Hk by done. rewrite replay_app, (replay_journal_ops fs0 k Hj). unfold journal_ops in Hk.
  destruct k as [|[|j]]; [done| |].
  - change (Some (IoWrite JournalFile (region commit_header) 0) = Some (IoWrite JournalFile buf off)) in Hk. injection Hk as <- <-. unfold replay. cbn [fold_left apply_op]. rewrite alter_insert_eq.
    assert (write_at [] (take m (region commit_header)) 0 = take m (region commit_header)) as ->; [|by apply crash_in_header].
    apply (write_at_end []). rewrite len_nil. pose proof (len_region commit_header ltac:(unfold JOURNAL_HEADER_LEN; cbn; lia)) as Hlr.
    cbn [jh_sector_size commit_header] in Hlr. unfold len in *. rewrite length_take. unfold U64_MAX. lia.
  - rewrite lookup_app_r in Hk by (cbn; lia). cbn [length create_ops Nat.sub] in Hk. rewrite record_ops_lookup in Hk.
    destruct (preimages !! _) as [r|] eqn:Hr; [|done]. injection Hk as <- <-. rewrite Nat.sub_0_r in *. by apply crash_in_record.
Qed.

(** The main file after all the page writes. *)
Lemma replay_page_ops fs data l :
  fs !! DbFile = Some data -> Forall (fun n => n ∈ page_nums) l ->
  exists data', replay fs (map page_op l) = <[DbFile := data']> fs /\
    (forall n b, n ∈ l -> dirty_pages !! n = Some b -> page ps data' n = Some b) /\
    (forall n b, n ∉ l -> page ps data n = Some b -> page ps data' n = Some b).
Proof.
  revert fs data. induction l as [|m l IH] using rev_ind; intros fs data Hdb Hl.
  { exists data. split; [cbn; by rewrite insert_id|]. split; [by intros n b ?%elem_of_nil|done]. }
  apply Forall_app in Hl as [Hl [Hm _]%Forall_cons_iff].
  destruct (IH fs data Hdb Hl) as (data1 & E1 & H1 & H2).
  pose proof Hm as [b Hb]%sorted_keys_elem. destruct (Hdirty _ _ Hb) as [Hm1 Hlb].
  exists (write_at data1 b (page_offset ps m)). split; [|split].
  - rewrite map_app, replay_app, E1. unfold page_op at 1, replay. cbn [map fold_left apply_op]. rewrite Hb. cbn [default].
    by rewrite alter_insert_eq.
  - intros n c [Hin|Hin%list_elem_of_singleton]%elem_of_app Hc.
    + destruct (decide (n = m)) as [->|Hne].
      * rewrite Hb in Hc. simplify_eq. apply page_write_eq; [split; lia|done].
      * apply page_write_ne; [split; lia|congruence|done|by apply H1].
    + subst n. rewrite Hb in Hc. simplify_eq. apply page_write_eq; [split; lia|done].
  - intros n c Hn Hc. rewrite not_elem_of_app in Hn. destruct Hn as [Hn1 Hn2].
    apply page_write_ne; [split; lia| |done|by apply H2]. intros ->. apply Hn2. by apply list_elem_of_singleton.
Qed.

End Commit.

(** ** The pager performs these operations *)

Section Flush.
Context `{host : Host} {OS : Type} `{Fcntl OS}.
Context (p : Pager OS) (env : Env) (cnt : Z) (D : list Z).
Context (Hps : 512 <= pg_page_size p <= 65536) (Hcnt : 1 <= cnt <= U32_MAX).
Context (HD : len D = cnt * pg_page_size p).
Context (Hdirty : forall n b, dirty p !! n = Some b -> 1 <= n <= U32_MAX /\ len b = pg_page_size p).
Context (Hdb : files (vfs p) !! DbFile = Some D).

Let ps := pg_page_size p.
Let nums := page_nums (dirty p).
Let tj := to_journal cnt (dirty p).
Let header := commit_header ps cnt (env_nonce env) (dirty p).

Context (Hcount : len tj <= U32_MAX) (Htj : tj <> []) (Hnonce : is_u32 (env_nonce env)).
Context (Hfield : forall page1, page ps D 1 = Some page1 -> read_be_u32 page1 PAGE_COUNT_OFFSET = Ok cnt).

Definition commit_ops : list IoOp :=
  journal_ops ps cnt (env_nonce env) D (dirty p) ++
  (if bool_decide (synchronous p = SyncOff) then [] else [IoSync JournalFile]) ++
  page_ops ps (dirty p) ++
  (if bool_decide (synchronous p = SyncFull) then [IoSync DbFile] else []) ++
  [IoDelete JournalFile].

Lemma perform_files ops : forall d, files (fold_left perform ops d) = replay (files d) ops.
Proof. induction ops as [|op ops IH]; intros d; [done|]. cbn [fold_left]. rewrite IH. done. Qed.

Lemma source_read_page d data n b :
  files d !! DbFile = Some data -> 1 <= n <= U32_MAX -> page ps data n = Some b ->
  source_read d ps n = Ok b.
Proof.
  intros Hd Hn Hp. unfold source_read, db_contents. rewrite Hd. cbn [default].
  apply read_page_at_page; [|done]. unfold ps. split; lia.
Qed.

Lemma journal_records_run l : forall i d,
  files d !! DbFile = Some D -> Forall (fun n => 1 <= n <= cnt) l ->
  journal_records (writer_of header) i l (set_vfs p d) =
    (Ok tt, set_vfs p (fold_left perform
      (record_ops header i (map (fun n => (n, default [] (page ps D n))) l)) d)).
Proof.
  induction l as [|n l IH]; intros i d Hd Hl; cbn [journal_records]; [done|].
  apply Forall_cons_iff in Hl as [Hn Hl].
  destruct (page_is_Some ps D n) as [b Hb]; [unfold ps; lia|lia|unfold ps; nia|].
  erewrite M_bind_ok by reflexivity. cbn [vfs set_vfs pg_page_size]. fold ps.
  rewrite (source_read_page d D n b Hd) by (done || (unfold U32_MAX in *; lia)).
  erewrite M_bind_ok by reflexivity. cbn [map record_ops fold_left]. rewrite Hb. cbn [default].
  erewrite M_bind_ok by reflexivity.
  change (set_vfs (set_vfs p d) ?x) with (set_vfs p x). apply IH; [|done].
  cbn. by rewrite lookup_alter_ne.
Qed.

Lemma write_dirty_run l : forall d,
  Forall (fun n => is_Some (dirty p !! n)) l ->
  write_dirty l (set_vfs p d) = (Ok tt, set_vfs p (fold_left perform (map (page_op ps (dirty p)) l) d)).
Proof.
  induction l as [|n l IH]; intros d Hl; cbn [write_dirty]; [done|].
  apply Forall_cons_iff in Hl as [[b Hb] Hl]. destruct (Hdirty _ _ Hb) as [Hn Hlb].
  erewrite M_bind_ok by reflexivity. cbn [dirty set_vfs pg_page_size]. rewrite Hb.
  erewrite M_bind_ok.
  2:{ unfold on_vfs, zoom, map_err_M, source_write. destruct (Z.eqb_spec n 0); [lia|].
      rewrite Hlb, Z.eqb_refl. cbn [negb]. reflexivity. }
  cbn [map fold_left]. unfold page_op at 2. rewrite Hb. cbn [default]. by apply IH.
Qed.

Lemma tj_range : Forall (fun n => 1 <= n <= cnt) tj.
Proof.
  apply Forall_forall. intros n [[b Hb] Hle]%to_journal_elem. destruct (Hdirty _ _ Hb). lia.
Qed.

Lemma journal_phase_db d :
  files d !! DbFile = Some D -> files (fold_left perform (create_ops header) d) !! DbFile = Some D.
Proof. intros Hd. cbn. rewrite lookup_alter_ne by done. by case_match; [|rewrite lookup_insert_ne]. Qed.

Lemma flush_locked_run :
  flush_locked env p = (Ok tt, set_dirty (set_vfs p (fold_left perform commit_ops (vfs p))) ∅).
Proof.
  destruct (page_is_Some ps D 1) as [page1 Hp1]; [unfold ps; lia|lia|unfold ps; nia|].
  unfold flush_locked. erewrite M_bind_ok by reflexivity. cbv zeta.
  fold ps. rewrite (source_read_page (vfs p) D 1 page1 Hdb) by (done || (unfold U32_MAX; lia)).
  cbn [map_err]. erewrite M_bind_ok by reflexivity.
  rewrite (Hfield page1 Hp1). cbn [map_err]. erewrite M_bind_ok by reflexivity.
  fold nums. change (filter (fun n => n <= cnt) (sorted_keys (dirty p))) with tj.
  rewrite (bool_decide_eq_false_2 (tj = [])) by done.
  assert (wrap 32 (len tj) = len tj) as Hw.
  { unfold wrap. apply Z.mod_small. pose proof (len_nonneg tj). unfold U32_MAX in Hcount. lia. }
  rewrite Hw. unfold commit_ops, journal_ops. fold header.
  set (d1 := fold_left perform (create_ops header) (vfs p)).
  set (d2 := fold_left perform (record_ops header 0 (preimages ps cnt D (dirty p))) d1).
  set (d3 := fold_left perform (if bool_decide (synchronous p = SyncOff) then [] else [IoSync JournalFile]) d2).
  set (d4 := fold_left perform (page_ops ps (dirty p)) d3).
  set (d5 := fold_left perform (if bool_decide (synchronous p = SyncFull) then [IoSync DbFile] else []) d4).
  assert (fold_left perform (((create_ops header ++ record_ops header 0 (preimages ps cnt D (dirty p))) ++
    (if bool_decide (synchronous p = SyncOff) then [] else [IoSync JournalFile]) ++
    page_ops ps (dirty p) ++ (if bool_decide (synchronous p = SyncFull) then [IoSync DbFile] else []) ++
    [IoDelete JournalFile])) (vfs p) = vfs_delete d5 JournalFile) as ->.
  { by rewrite !fold_left_app. }
  erewrite M_bind_ok.
  2:{ erewrite M_bind_ok.
      2:{ assert (JOURNAL_HEADER_LEN <= jh_sector_size header) as Hsec
            by (unfold header, commit_header, JOURNAL_HEADER_LEN, ps; cbn; lia).
          assert (Journal.wf_header header) as Hwf by (apply commit_header_wf; done).
          assert (jh_page_size header <= 65536) as Hmax by (unfold header, commit_header, ps; cbn; lia).
          pose proof (create_spec header Hwf Hsec Hmax (vfs p)) as Hc.
          change (jh_page_size header) with ps in Hc. change (jh_sector_size header) with ps in Hc.
          change (initial_page_count header) with cnt in Hc. change (n_rec header) with (len tj) in Hc.
          change (jh_nonce header) with (env_nonce env) in Hc.
          unfold on_vfs, zoom, map_err_M. rewrite Hc. reflexivity. }
      fold d1. erewrite M_bind_ok.
      2:{ rewrite journal_records_run; [reflexivity|by apply journal_phase_db|apply tj_range]. }
      fold (preimages ps cnt D (dirty p)). fold d2.
      instantiate (1 := set_vfs p d3). instantiate (1 := tt). unfold d3. by case_bool_decide. }
  erewrite M_bind_ok.
  2:{ rewrite write_dirty_run; [reflexivity|]. apply Forall_forall. intros n Hn. by apply sorted_keys_elem. }
  fold nums. fold (page_ops ps (dirty p)). fold d4.
  erewrite M_bind_ok.
  2:{ instantiate (1 := set_vfs p d5). instantiate (1 := tt). unfold d5. by case_bool_decide. }
  erewrite M_bind_ok by reflexivity. reflexivity.
Qed.

End Flush.

Lemma sorted_keys_NoDup m : NoDup (sorted_keys m).
Proof.
  unfold sorted_keys. rewrite merge_sort_Permutation. apply NoDup_fst_map_to_list.
Qed.

Lemma to_journal_count cnt dirty :
  0 <= cnt -> (forall n b, dirty !! n = Some b -> 1 <= n) -> len (to_journal cnt dirty) <= cnt.
Proof.
  intros Hc Hd. assert (to_journal cnt dirty ⊆+ seqZ 1 cnt) as Hs.
  { apply NoDup_submseteq.
    - unfold to_journal, page_nums. apply NoDup_filter, sorted_keys_NoDup.
    - intros n [[b Hb] Hle]%to_journal_elem. apply elem_of_seqZ. pose proof (Hd _ _ Hb). lia. }
  apply submseteq_length in Hs. rewrite length_seqZ in Hs. unfold len. lia.
Qed.

(** The state in which a journal-mode commit starts: a main file [D] of [cnt]
    whole pages whose header records [cnt], no journal, and dirty pages of the
    right size with at least one of them inside the file. *)
Definition committable {OS} (p : Pager OS) (env : Env) (cnt : Z) (D : list Z) : Prop :=
  512 <= pg_page_size p <= 65536 /\ 1 <= cnt <= U32_MAX /\ len D = cnt * pg_page_size p /\
  (forall n b, dirty p !! n = Some b -> 1 <= n <= U32_MAX /\ len b = pg_page_size p) /\
  files (vfs p) !! DbFile = Some D /\ files (vfs p) !! JournalFile = None /\
  (exists n b, dirty p !! n = Some b /\ n <= cnt) /\ is_u32 (env_nonce env) /\
  (forall page1, page (pg_page_size p) D 1 = Some page1 -> read_be_u32 page1 PAGE_COUNT_OFFSET = Ok cnt).

Lemma middle_ops_ok {OS} (p : Pager OS) ps :
  Forall (middle_op ps (dirty p))
    ((if bool_decide (synchronous p = SyncOff) then [] else [IoSync JournalFile]) ++
     page_ops ps (dirty p) ++ (if bool_decide (synchronous p = SyncFull) then [IoSync DbFile] else [])).
Proof.
  assert (forall f, Forall (middle_op ps (dirty p)) [IoSync f]) as Hs.
  { intros f. constructor; [left; eauto|constructor]. }
  apply Forall_app. split; [by case_bool_decide|].
  apply Forall_app. split; [|by case_bool_decide].
  apply Forall_forall. intros op (n & -> & Hn)%list_elem_of_fmap. right. eauto.
Qed.

Section Effect.
Context `{host : Host} {OS : Type} `{Fcntl OS}.
Context (p : Pager OS) (env : Env) (cnt : Z) (D : list Z) (Hp : committable p env cnt D).

Lemma commit_counts :
  len (to_journal cnt (dirty p)) <= U32_MAX /\ to_journal cnt (dirty p) <> [].
Proof.
  destruct Hp as (Hps & Hcnt & HD & Hdirty & Hdb & Hj & (n0 & b0 & Hn0 & Hle0) & Hnonce & Hfield). split.
  - transitivity cnt; [|lia]. apply to_journal_count; [lia|]. intros n b Hb. destruct (Hdirty _ _ Hb). lia.
  - intros E. apply (not_elem_of_nil n0). rewrite <- E. apply to_journal_elem. split; [eauto|done].
Qed.

(** A commit succeeds; the main file then holds the dirty pages and otherwise
    what it held, and the journal is gone. *)
Lemma commit_effect :
  exists D',
    flush_locked env p = (Ok tt, set_dirty (set_vfs p (fold_left perform (commit_ops p env cnt D) (vfs p))) ∅) /\
    replay (files (vfs p)) (commit_ops p env cnt D) = delete JournalFile (<[DbFile := D']> (files (vfs p))) /\
    (forall n b, dirty p !! n = Some b -> page (pg_page_size p) D' n = Some b) /\
    (forall n b, dirty p !! n = None -> page (pg_page_size p) D n = Some b -> page (pg_page_size p) D' n = Some b).
Proof.
  destruct commit_counts as [Hcount Htj].
  destruct Hp as (Hps & Hcnt & HD & Hdirty & Hdb & Hj & _ & Hnonce & Hfield).
  set (ps := pg_page_size p). set (fs := files (vfs p)).
  set (jops := journal_ops ps cnt (env_nonce env) D (dirty p)).
  assert (replay fs jops = <[JournalFile := image (commit_header ps cnt (env_nonce env) (dirty p)) (preimages ps cnt D (dirty p))]> fs) as Hjr.
  { unfold jops. rewrite <- (take_ge (journal_ops ps cnt (env_nonce env) D (dirty p)) (length (journal_ops ps cnt (env_nonce env) D (dirty p)))) by lia.
    rewrite replay_journal_ops by done. rewrite length_journal_ops. cbn [Nat.add]. by rewrite take_ge by lia. }
  destruct (replay_page_ops ps (dirty p) Hps Hdirty (replay fs jops) D (page_nums (dirty p)))
    as (D' & Er & H1 & H2).
  { rewrite Hjr. by rewrite lookup_insert_ne. }
  { by apply Forall_forall. }
  exists D'. split; [by apply flush_locked_run|]. split; [|split].
  - unfold commit_ops. fold ps jops. rewrite !replay_app.
    assert (forall fs' (b : bool) f, replay fs' (if b then [] else [IoSync f]) = fs') as Hs1 by (by intros fs' []).
    assert (forall fs' (b : bool) f, replay fs' (if b then [IoSync f] else []) = fs') as Hs2 by (by intros fs' []).
    rewrite Hs1, Hs2. unfold page_ops. rewrite Er, Hjr. cbn.
    rewrite insert_insert_ne by done. by rewrite delete_insert_eq, delete_insert_ne by done.
  - intros n b Hb. apply H1; [|done]. apply sorted_keys_elem. eauto.
  - intros n b Hn. apply H2. intros [c Hc]%sorted_keys_elem. congruence.
Qed.

Lemma commit_crashes ops' l :
  crashed (commit_ops p env cnt D) ops' -> recovers_old D (replay (files (vfs p)) ops') l.
Proof.
  intros Hc. destruct commit_counts as [Hcount Htj].
  destruct Hp as (Hps & Hcnt & HD & Hdirty & Hdb & Hj & _ & Hnonce & Hfield).
  set (mid := (if bool_decide (synchronous p = SyncOff) then [] else [IoSync JournalFile]) ++
     page_ops (pg_page_size p) (dirty p) ++ (if bool_decide (synchronous p = SyncFull) then [IoSync DbFile] else [])).
  set (jops := journal_ops (pg_page_size p) cnt (env_nonce env) D (dirty p)).
  assert (commit_ops p env cnt D = (jops ++ mid) ++ [IoDelete JournalFile]) as Hops
    by (unfold commit_ops, mid; by rewrite <- !app_assoc).
  assert (Forall (middle_op (pg_page_size p) (dirty p)) mid) as Hmid by apply middle_ops_ok.
  rewrite Hops in Hc. inversion Hc as [k ? Hk Ht|k buf off m ops0 Hk Ht]; subst.
  - rewrite length_app in Hk. cbn [length] in Hk. rewrite take_app_le in Ht by lia. by eapply crash_between.
  - destruct (Nat.lt_ge_cases k (length (jops ++ mid))) as [Hlt|Hge].
    2: { rewrite lookup_app_r in Hk by lia. by destruct (k - length (jops ++ mid))%nat as [|[|?]]. }
    rewrite lookup_app_l in Hk by done. rewrite take_app_le in Ht by lia. by eapply crash_within.
Qed.

End Effect.

(** ** Properties *)


Definition one_page : list Z := replicate 28 0 ++ [0; 0; 0; 1] ++ replicate 480 0.
Definition sample_env : Env := MkEnv 99 11 22 true true [] 0.
Definition sample_pager : Pager LockTable :=
  MkPager (MkDisk {[DbFile := one_page]} []) (MkLock no_locks 1%nat Shared) Shared None ∅
    (<[1 := replicate 512 7]> {[2 := replicate 512 8]}) (PageCache.new 10) 512 Legacy SyncFull None.

Lemma sample_committable : committable sample_pager sample_env 1 one_page.
Proof.
  split; [cbn; lia|]. split; [unfold U32_MAX; lia|]. split; [by vm_compute|]. split.
  { intros n b Hb. change (dirty sample_pager) with (<[1 := replicate 512 7]> {[2 := replicate 512 8]} : gmap Z (list Z)) in Hb.
    change (pg_page_size sample_pager) with 512. unfold U32_MAX.
    destruct (decide (n = 1)) as [->|Hne].
    - rewrite lookup_insert_eq in Hb. injection Hb as <-. split; [lia|by vm_compute].
    - rewrite lookup_insert_ne in Hb by done. apply lookup_singleton_Some in Hb as [<- <-]. split; [lia|by vm_compute]. }
  split; [by vm_compute|]. split; [by vm_compute|].
  split; [exists 1, (replicate 512 7); split; [by vm_compute|lia]|].
  split; [unfold is_u32; cbn; lia|].
  intros page1 Hp. change (pg_page_size sample_pager) with 512 in Hp.
  assert (page1 = one_page) as -> by (apply (inj Some); rewrite <- Hp; by vm_compute). by vm_compute.
Qed.

