(* ===== verification/Transactions.v ===== *)
(** * What a connection sees: reads, writes, rollback, commit

    The logical page map of a [Pager], and the effect of its operations on it. *)

From stdpp Require Import prelude list numbers gmap sorting.
From Stdlib Require Import ZArith Lia.
From S2P Require Import Prelude Header Freelist Vfs Journal Wal Lock Shm Checkpoint PageCache Pager Commit.

Local Open Scope Z_scope.

Section Views.
Context `{host : Host} {OS : Type} `{Fcntl OS}.

(** The committed contents of a page: the WAL overlay, then the main file. *)
Definition committed (p : Pager OS) (n : Z) : result PageError (list Z) :=
  read_page_raw (wal_pages p) (vfs p) (pg_page_size p) n.

(** What the connection itself must see: its own uncommitted writes first. *)
Definition logical (p : Pager OS) (n : Z) : result PageError (list Z) :=
  match dirty p !! n with Some b => Ok b | None => committed p n end.

(** The cache never holds a page the transaction wrote, and what it holds is
    what the main file holds. *)
Definition coherent (p : Pager OS) : Prop :=
  forall n b, cached (page_cache p) n = Some b ->
    (1 <= n <= U32_MAX /\ dirty p !! n = None) /\ source_read (vfs p) (pg_page_size p) n = Ok b.

(** Nothing but the cache differs. *)
Definition same_but_cache (p p' : Pager OS) : Prop := p' = set_cache p (page_cache p').

Lemma same_but_cache_logical p p' n : same_but_cache p p' -> logical p' n = logical p n.
Proof. intros E. rewrite E. done. Qed.

Lemma coherent_set_cache p c :
  coherent p -> (forall n b, cached c n = Some b -> cached (page_cache p) n = Some b) -> coherent (set_cache p c).
Proof. intros Hc Hs n b Hb. apply Hc. by apply Hs. Qed.

Lemma read_page_spec n p :
  coherent p -> is_u32 n ->
  exists p', read_page n p = (logical p n, p') /\ coherent p' /\ same_but_cache p p'.
Proof.
  intros Hc Hn. unfold read_page. erewrite M_bind_ok by reflexivity. unfold logical, committed, read_page_raw.
  destruct (dirty p !! n) as [b|] eqn:Ed; [exists p; split; [done|]; split; [done|by destruct p]|].
  destruct (wal_pages p !! n) as [b|] eqn:Ew; [exists p; split; [done|]; split; [done|by destruct p]|].
  destruct (PageCache.get (page_cache p) n) as [hit c] eqn:Eg.
  assert (hit = cached (page_cache p) n) as -> by (rewrite <- get_cached; by rewrite Eg).
  assert (forall q, cached c q = cached (page_cache p) q) as Hcq
    by (intros q; rewrite <- (cached_get (page_cache p) n q); by rewrite Eg).
  erewrite M_bind_ok by reflexivity.
  destruct (cached (page_cache p) n) as [b|] eqn:Eh.
  - destruct (Hc n b Eh) as [_ ->]. exists (set_cache p c). split; [done|]. split; [|done].
    apply coherent_set_cache; [done|]. intros q x. by rewrite Hcq.
  - destruct (evict_one_if_full c) as [v c1] eqn:Ee. erewrite M_bind_ok by reflexivity.
    assert (forall q x, cached c1 q = Some x -> cached (page_cache p) q = Some x) as Hc1.
    { intros q x Hq. rewrite <- Hcq. apply cached_evict_if_full. by rewrite Ee. }
    destruct (source_read (vfs p) (pg_page_size p) n) as [b|e] eqn:Er.
    + erewrite M_bind_ok by reflexivity. erewrite M_bind_ok by reflexivity.
      eexists. split; [reflexivity|]. split; [|done]. cbn.
      intros q x Hq. cbn in *. apply cached_insert in Hq as [[-> ->]|Hq]; [|apply Hc; by apply Hc1].
      split; [|done]. split; [|done]. unfold source_read, read_page_at in Er. unfold is_u32, U32_MAX in *.
      destruct (Z.eqb_spec n 0); [done|lia].
    + erewrite M_bind_err by reflexivity. eexists. split; [reflexivity|]. split; [|done].
      by apply (coherent_set_cache p c1).
Qed.

(** ** Writes *)

Definition same_base (p p' : Pager OS) : Prop :=
  vfs p' = vfs p /\ lock p' = lock p /\ tx_lock_level p' = tx_lock_level p /\ wal_resume p' = wal_resume p /\
  wal_pages p' = wal_pages p /\ pg_page_size p' = pg_page_size p /\ pg_journal_mode p' = pg_journal_mode p /\
  synchronous p' = synchronous p.

(** [p'] is [p] after the pages of [u] were written in the transaction. *)
Definition updated (p p' : Pager OS) (u : gmap Z (list Z)) : Prop :=
  same_base p p' /\ coherent p' /\
  (forall n, logical p' n = match u !! n with Some b => Ok b | None => logical p n end).

Lemma same_base_refl p : same_base p p.
Proof. by repeat split. Qed.

Lemma same_base_trans p1 p2 p3 : same_base p1 p2 -> same_base p2 p3 -> same_base p1 p3.
Proof.
  intros (?&?&?&?&?&?&?&?) (?&?&?&?&?&?&?&?). repeat split; congruence.
Qed.

Lemma updated_trans p1 p2 p3 u1 u2 : updated p1 p2 u1 -> updated p2 p3 u2 -> updated p1 p3 (u2 ∪ u1).
Proof.
  intros (B1 & _ & L1) (B2 & C2 & L2). split; [by eapply same_base_trans|]. split; [done|].
  intros n. rewrite L2, lookup_union. destruct (u2 !! n) as [b|]; [by rewrite union_Some_l|].
  rewrite L1. by destruct (u1 !! n).
Qed.

Lemma updated_read p p' : coherent p' -> same_but_cache p p' -> updated p p' ∅.
Proof.
  intros Hc E. split; [rewrite E; by repeat split|]. split; [done|]. intros n. rewrite lookup_empty.
  by apply same_but_cache_logical.
Qed.

(** [get_page_mut] followed by the caller's store through the reference. *)
Lemma get_page_mut_spec n p :
  coherent p ->
  match logical p n with
  | Ok b => exists p', get_page_mut n p = (Ok b, p') /\ updated p p' ∅ /\ dirty p' !! n = Some b
  | Err e => exists p', get_page_mut n p = (Err (PPage e), p') /\ updated p p' ∅
  end.
Proof.
  intros Hc. unfold get_page_mut. erewrite M_bind_ok by reflexivity. erewrite M_bind_ok by reflexivity.
  set (p1 := set_cache p (invalidate (page_cache p) n)).
  assert (coherent p1) as Hc1.
  { apply coherent_set_cache; [done|]. intros q b. rewrite cached_invalidate. by case_decide. }
  assert (cached (page_cache p1) n = None) as Hn1.
  { cbn. rewrite cached_invalidate. by rewrite decide_True. }
  assert (updated p p1 ∅) as Hu by (apply updated_read; [done|done]).
  unfold logical. cbn [dirty p1 set_cache].
  destruct (dirty p !! n) as [b|] eqn:Ed; [by exists p1|].
  unfold committed. cbn [wal_pages vfs pg_page_size set_cache p1].
  destruct (read_page_raw (wal_pages p) (vfs p) (pg_page_size p) n) as [b|e] eqn:Er; cbn [map_err].
  - erewrite M_bind_ok by reflexivity. erewrite M_bind_ok by reflexivity.
    eexists. split; [reflexivity|]. split; [|cbn; by rewrite lookup_insert_eq].
    split; [by repeat split|]. split.
    + intros q x Hq. change (cached (page_cache p1) q = Some x) in Hq.
      assert (q <> n) by (intros ->; congruence). destruct (Hc1 q x Hq) as [[Hq0 H1] H2].
      split; [|done]. split; [done|]. cbn. rewrite lookup_insert_ne by done. done.
    + intros q. rewrite lookup_empty. unfold logical. cbn [dirty set_dirty set_cache p1].
      destruct (decide (q = n)) as [->|Hne]; [|by rewrite lookup_insert_ne].
      rewrite lookup_insert_eq, Ed. unfold committed. by rewrite Er.
  - erewrite M_bind_err by reflexivity. by eexists.
Qed.

Lemma put_page_spec n b p :
  coherent p -> is_Some (dirty p !! n) -> exists p', put_page n b p = (Ok tt, p') /\ updated p p' {[n := b]}.
Proof.
  intros Hc [b0 Hd]. eexists. split; [reflexivity|]. split; [by repeat split|]. split.
  - intros q x Hq. destruct (Hc q x Hq) as [[Hq0 H1] H2]. split; [|done]. split; [done|]. cbn.
    rewrite lookup_insert_ne; [done|]. intros ->. congruence.
  - intros q. unfold logical. cbn [dirty set_dirty]. destruct (decide (q = n)) as [->|Hne].
    + by rewrite lookup_insert_eq, lookup_singleton_eq.
    + by rewrite lookup_insert_ne, lookup_singleton_ne by done.
Qed.

(** Reading, modifying and storing one page. *)
Lemma modify_page_spec (f : list Z -> result PagerError (list Z)) n p b b' :
  coherent p -> logical p n = Ok b -> f b = Ok b' ->
  exists p', (buf ← get_page_mut n; buf ← lift (f buf); put_page n buf) p = (Ok tt, p') /\
    updated p p' {[n := b']}.
Proof.
  intros Hc Hl Hf. pose proof (get_page_mut_spec n p Hc) as Hg. rewrite Hl in Hg.
  destruct Hg as (p1 & E1 & Hu1 & Hd1). rewrite (M_bind_ok _ _ _ _ _ E1). rewrite Hf.
  erewrite M_bind_ok by reflexivity.
  destruct (put_page_spec n b' p1) as (p2 & E2 & Hu2); [by destruct Hu1 as (_ & ? & _)|by eexists|].
  exists p2. split; [done|]. rewrite <- (map_union_empty {[n := b']}).
  by eapply updated_trans.
Qed.

End Views.

Section Ends.
Context `{host : Host} {OS : Type} `{Fcntl OS}.

Lemma on_lock_ok (p : Pager OS) (m : M (FileLockState OS) VfsError unit) l' :
  m (lock p) = (Ok tt, l') -> on_lock m p = (Ok tt, set_lock p l').
Proof. intros E. unfold on_lock, map_err_M, zoom. by rewrite E. Qed.

Lemma on_lock_err (p : Pager OS) (m : M (FileLockState OS) VfsError unit) e l' :
  m (lock p) = (Err e, l') -> on_lock m p = (Err (PVfs e), set_lock p l').
Proof. intros E. unfold on_lock, map_err_M, zoom. by rewrite E. Qed.

Lemma logical_set_lock (p : Pager OS) l t n : logical (set_tx_lock (set_lock p l) t) n = logical p n.
Proof. done. Qed.

(** Ending a transaction releases whatever [BEGIN IMMEDIATE/EXCLUSIVE] took. *)
Lemma release_tx_lock_spec (p : Pager OS) :
  lock_inv (lock p) -> rank Shared <= rank (level (lock p)) ->
  exists l', release_tx_lock p = (Ok tt, set_tx_lock (set_lock p l') (if level_lt Shared (tx_lock_level p) then Shared else tx_lock_level p)) /\
    lock_inv l' /\ same_others (lock p) l' /\
    level l' = if level_lt Shared (tx_lock_level p) then Shared else level (lock p).
Proof.
  intros Hi Hr. unfold release_tx_lock. erewrite M_bind_ok by reflexivity.
  destruct (level_lt Shared (tx_lock_level p)).
  - destruct (set_level_down Shared (lock p) Hi Hr) as (l' & E & Hi' & Ho & Hl). exists l'.
    rewrite (M_bind_ok _ _ _ _ _ (on_lock_ok p _ _ E)). done.
  - exists (lock p). split; [by destruct p|]. split; [done|]. split; [apply same_others_refl|done].
Qed.

End Ends.

(** ** Properties *)

(** A connection reads its own writes and nothing else changes: after a
    page is fetched for writing and stored, reading it returns the stored
    bytes; every other page reads as before, from the cache or not; and each
    read returns the logical contents whatever the cache holds, evicts or
    recycles. *)
Theorem read_after_write `{host : Host} {OS} `{Fcntl OS} (p : Pager OS) n m b b' :
  coherent p -> is_u32 m -> logical p n = Ok b ->
  exists p1 p2, (buf ← get_page_mut n; buf ← lift (Ok b'); put_page n buf) p = (Ok tt, p1) /\
    read_page m p1 = (if bool_decide (m = n) then Ok b' else logical p m, p2) /\
    coherent p2 /\ forall q, logical p2 q = logical p1 q.
Proof.
  intros Hc Hm Hl. destruct (modify_page_spec (fun _ => Ok b') n p b b' Hc Hl eq_refl) as (p1 & E1 & _ & Hc1 & L1).
  destruct (read_page_spec m p1 Hc1 Hm) as (p2 & E2 & Hc2 & Hs2). exists p1, p2.
  split; [done|]. split; [|split; [done|]].
  - rewrite E2, L1. f_equal. destruct (bool_decide_reflect (m = n)) as [->|Hne].
    + by rewrite lookup_singleton_eq.
    + by rewrite lookup_singleton_ne.
  - intros q. by apply same_but_cache_logical.
Qed.

Definition reading_pager : Pager LockTable :=
  MkPager (MkDisk {[DbFile := one_page]} []) (MkLock no_locks 1%nat Shared) Shared None ∅ ∅
    (PageCache.insert (PageCache.new 10) 1 one_page) 512 Legacy SyncFull None.

Lemma reading_pager_coherent : coherent reading_pager.
Proof.
  intros n b Hb. apply cached_insert in Hb as [[-> ->]|Hb]; [by vm_compute|].
  unfold cached in Hb. cbn in Hb. by rewrite lookup_empty in Hb.
Qed.

Example read_after_write_witness :
  exists p1 p2, (buf ← get_page_mut 1; buf ← lift (Ok (replicate 512 9)); put_page 1 buf) reading_pager = (Ok tt, p1) /\
    read_page 1 p1 = (Ok (replicate 512 9), p2) /\
    coherent p2 /\ forall q, logical p2 q = logical p1 q.
Proof.
  apply (@read_after_write true LockTable _ reading_pager 1 1 one_page (replicate 512 9)).
  - apply reading_pager_coherent.
  - unfold is_u32. lia.
  - by vm_compute.
Defined.

(** C22. Rollback restores the committed state: whatever pages the transaction
    wrote or allocated, afterwards every page reads as it was committed, the
    cache is still right and the files are untouched.  The file lock goes back
    to SHARED exactly when the transaction recorded a level above SHARED in
    [tx_lock_level] (a BEGIN that took one); otherwise the lock stays at the
    level it had, whatever that is. *)
Theorem rollback_restores_committed `{host : Host} {OS} `{Fcntl OS} (p : Pager OS) :
  coherent p -> lock_inv (lock p) -> rank Shared <= rank (level (lock p)) ->
  exists p', rollback p = (Ok tt, p') /\ coherent p' /\ vfs p' = vfs p /\ dirty p' = ∅ /\
    (forall n, logical p' n = committed p n) /\ lock_inv (lock p') /\
    level (lock p') = if level_lt Shared (tx_lock_level p) then Shared else level (lock p).
Proof.
  intros Hc Hi Hr. unfold rollback. erewrite M_bind_ok by reflexivity.
  destruct (release_tx_lock_spec (set_dirty p ∅) Hi Hr) as (l' & E & Hi' & _ & Hl).
  eexists. split; [exact E|]. split; [|split; [done|split; [done|split]]].
  - intros n b Hb. destruct (Hc n b Hb) as [[? _] ?]. done.
  - intros n. unfold logical. cbn. by rewrite lookup_empty.
  - by split.
Qed.

Definition writing_pager : Pager LockTable :=
  set_tx_lock (set_lock (set_dirty reading_pager {[2 := replicate 512 3]})
    (snd (set_level Reserved (MkLock no_locks 1%nat Unlocked)))) Reserved.

Lemma no_locks_inv pid : lock_inv (MkLock no_locks pid Unlocked).
Proof.
  split.
  - intros p q b _. cbn. unfold table_held, no_locks. by rewrite !lookup_empty.
  - intros b. cbn. unfold table_held, no_locks. rewrite lookup_empty. unfold holds, rank. by repeat case_match.
Qed.

Example rollback_restores_committed_witness :
  exists p', rollback writing_pager = (Ok tt, p') /\ coherent p' /\ vfs p' = vfs writing_pager /\ dirty p' = ∅ /\
    (forall n, logical p' n = committed writing_pager n) /\ lock_inv (lock p') /\ level (lock p') = Shared.
Proof.
  apply (@rollback_restores_committed true LockTable _ writing_pager).
  - intros n b Hb. destruct (reading_pager_coherent n b Hb) as [[Hn _] Hr]. split; [|done]. split; [done|].
    assert (n = 1) as ->; [|by vm_compute].
    apply cached_insert in Hb as [[-> _]|Hb]; [done|]. unfold cached in Hb. cbn in Hb. by rewrite lookup_empty in Hb.
  - pose proof (set_level_spec Reserved _ (no_locks_inv 1%nat)) as Hs.
    unfold writing_pager. cbn [lock set_tx_lock set_lock].
    destruct (set_level Reserved (MkLock no_locks 1%nat Unlocked)) as [r s']. by destruct Hs as [? _].
  - by vm_compute.
Defined.

(** C23. COMMIT in journal mode keeps what the connection saw and makes it
    durable: when the lock can be taken, [flush] succeeds, no page is dirty
    any more, every page reads as it did inside the transaction, now from the
    main file, the cache is still right, and the lock is back to SHARED. *)
Theorem commit_preserves_view `{host : Host} {OS} `{Fcntl OS} (p : Pager OS) env cnt D l1 :
  coherent p -> committable p env cnt D -> pg_journal_mode p = Legacy -> wal_pages p = ∅ ->
  lock_inv (lock p) -> set_level Exclusive (lock p) = (Ok tt, l1) ->
  exists p', flush env p = (Ok tt, p') /\ dirty p' = ∅ /\ coherent p' /\ level (lock p') = Shared /\
    forall n b, 1 <= n <= U32_MAX -> logical p n = Ok b -> logical p' n = Ok b /\ committed p' n = Ok b.
Proof.
  intros Hc Hp Hmode Hwal Hi Hl1. pose proof (set_level_spec Exclusive (lock p) Hi) as Hs. rewrite Hl1 in Hs.
  destruct Hs as (Hi1 & _ & [[_ Hlev]|[? _]]); [|done].
  set (p1 := set_lock p l1). assert (committable p1 env cnt D) as Hp1 by exact Hp.
  destruct (commit_effect p1 env cnt D Hp1) as (D' & Hrun & Hfin & H1 & H2).
  destruct Hp as (Hps & Hcnt & HD & Hdirty & Hdb & Hj & (n0 & b0 & Hn0 & _) & _ & _).
  destruct (set_level_down Shared l1 Hi1) as (l2 & El2 & Hi2 & _ & Hlev2); [rewrite Hlev; cbn; lia|].
  unfold flush. erewrite M_bind_ok by reflexivity.
  rewrite bool_decide_eq_false_2 by (intros E; by rewrite E, lookup_empty in Hn0).
  rewrite Hmode, bool_decide_eq_false_2 by done.
  rewrite (M_bind_ok _ _ _ _ _ (on_lock_ok p _ _ Hl1)). fold p1. unfold then_always. rewrite Hrun.
  set (p2 := set_dirty _ ∅). assert (lock p2 = l1) as Hlk by done.
  rewrite <- Hlk in El2. erewrite M_bind_ok.
  2:{ rewrite (M_bind_ok _ _ _ _ _ (on_lock_ok p2 _ _ El2)). reflexivity. }
  set (d' := fold_left perform (commit_ops p1 env cnt D) (vfs p1)) in *.
  assert (files d' !! DbFile = Some D') as Hd'.
  { unfold d'. rewrite perform_files. change (files (vfs p1)) with (files (vfs p1)). rewrite Hfin.
    rewrite lookup_delete_ne by done. by rewrite lookup_insert_eq. }
  assert (forall n b, 1 <= n <= U32_MAX -> source_read (vfs p) (pg_page_size p) n = Ok b <-> page (pg_page_size p) D n = Some b) as Hold.
  { intros n b Hn. unfold source_read, db_contents. rewrite Hdb. apply read_page_at_page. split; lia. }
  assert (forall n b, 1 <= n <= U32_MAX -> page (pg_page_size p) D' n = Some b -> source_read d' (pg_page_size p) n = Ok b) as Hnew.
  { intros n b Hn Hb. unfold source_read, db_contents. rewrite Hd'. apply read_page_at_page; [split; lia|done]. }
  eexists. split; [reflexivity|]. split; [done|]. split; [|split; [done|]].
  - intros n b Hb. destruct (Hc n b Hb) as [[Hn Hdn] Hr]. split; [done|]. cbn.
    apply Hnew; [done|]. apply H2; [done|]. by apply Hold.
  - intros n b Hn Hlog. assert (source_read d' (pg_page_size p) n = Ok b) as Hr.
    { apply Hnew; [done|]. unfold logical, committed, read_page_raw in Hlog. rewrite Hwal, lookup_empty in Hlog.
      destruct (dirty p !! n) as [c|] eqn:Ed; [injection Hlog as <-; by apply H1|]. apply H2; [done|]. by apply Hold. }
    unfold logical, committed, read_page_raw. cbn. rewrite Hwal, !lookup_empty. done.
Qed.

(** The sample pager of [Commit] with a lock it really holds. *)
Definition committing_pager : Pager LockTable :=
  set_lock sample_pager (snd (set_level Shared (MkLock no_locks 1%nat Unlocked))).

Lemma committing_lock_inv : lock_inv (lock committing_pager).
Proof.
  pose proof (set_level_spec Shared _ (no_locks_inv 1%nat)) as Hs. unfold committing_pager. cbn [lock set_lock].
  destruct (set_level Shared (MkLock no_locks 1%nat Unlocked)) as [r s']. by destruct Hs as [? _].
Qed.

Lemma committing_coherent : coherent committing_pager.
Proof. intros n b Hb. unfold cached in Hb. cbn in Hb. by rewrite lookup_empty in Hb. Qed.

Example commit_preserves_view_witness :
  exists p', @flush true LockTable _ sample_env committing_pager = (Ok tt, p') /\ dirty p' = ∅ /\ coherent p' /\
    level (lock p') = Shared /\
    forall n b, 1 <= n <= U32_MAX -> logical committing_pager n = Ok b -> logical p' n = Ok b /\ committed p' n = Ok b.
Proof.
  apply (@commit_preserves_view true LockTable _ committing_pager sample_env 1 one_page
    (snd (set_level Exclusive (lock committing_pager)))).
  - apply committing_coherent.
  - exact sample_committable.
  - done.
  - done.
  - apply committing_lock_inv.
  - apply injective_projections; [by vm_compute|done].
Defined.

(** A commit refused by readers loses nothing but keeps a lock it should
    release.  With another process reading, [flush] reports [Locked] before
    any byte is written: the files and the dirty pages are as before.  But
    the lock stays at PENDING, since the failed escalation is not undone, and
    because [tx_lock_level] still says SHARED the [rollback] the caller
    then issues does not release it either: the transaction is over and no
    other process can start reading. *)
Theorem refused_commit_keeps_pending `{host : Host} {OS} `{Fcntl OS} (p : Pager OS) env n b r :
  dirty p !! n = Some b -> pg_journal_mode p = Legacy -> tx_lock_level p = Shared ->
  lock_inv (lock p) -> level (lock p) = Shared ->
  r <> pid (lock p) -> held (os (lock p)) r SHARED_FIRST = F_RDLCK ->
  (forall q, q <> pid (lock p) ->
     held (os (lock p)) q RESERVED_BYTE = F_UNLCK /\ held (os (lock p)) q PENDING_BYTE = F_UNLCK) ->
  exists p1 p2,
    flush env p = (Err (PVfs (Locked DbFile)), p1) /\ dirty p1 = dirty p /\ vfs p1 = vfs p /\
    rollback p1 = (Ok tt, p2) /\ dirty p2 = ∅ /\ level (lock p2) = Pending /\
    held (os (lock p2)) (pid (lock p)) PENDING_BYTE = F_WRLCK.
Proof.
  intros Hd Hmode Htx Hi Hl Hr Hrd Hfree.
  destruct (contended_exclusive (lock p) r Hi Hl Hr Hrd Hfree) as (s' & Es & Hlev & Hi' & Ho).
  exists (set_lock p s').
  assert (flush env p = (Err (PVfs (Locked DbFile)), set_lock p s')) as Ef.
  { unfold flush. erewrite M_bind_ok by reflexivity.
    rewrite bool_decide_eq_false_2 by (intros E; by rewrite E, lookup_empty in Hd).
    rewrite Hmode, bool_decide_eq_false_2 by done.
    by rewrite (M_bind_err _ _ _ _ _ (on_lock_err p _ _ _ Es)). }
  destruct (release_tx_lock_spec (set_dirty (set_lock p s') ∅)) as (l' & El & _ & _ & Hlev').
  { exact Hi'. }
  { cbn. rewrite Hlev. cbn. lia. }
  cbn [tx_lock_level set_dirty set_lock] in *. rewrite Htx in *. change (level_lt Shared Shared) with false in *.
  cbv iota in *. exists (set_tx_lock (set_lock (set_dirty (set_lock p s') ∅) l') Shared).
  split; [done|]. split; [done|]. split; [done|].
  assert (release_tx_lock (set_dirty (set_lock p s') ∅) = (Ok tt, set_dirty (set_lock p s') ∅)) as El2.
  { unfold release_tx_lock. erewrite M_bind_ok by reflexivity. cbn [tx_lock_level set_dirty set_lock]. by rewrite Htx. }
  rewrite El2 in El. injection El as <-.
  split.
  { unfold rollback. erewrite M_bind_ok by reflexivity. rewrite El2. by rewrite <- Htx at 1. }
  split; [done|]. split; [done|]. cbn. destruct Ho as [<- _]. destruct Hi' as [_ Hm]. rewrite Hm, Hlev. done.
Qed.

(** Two processes: 1 commits, 2 reads. *)
Definition shared_table : LockTable :=
  os (snd (set_level Shared (MkLock (os (snd (set_level Shared (MkLock no_locks 1%nat Unlocked)))) 2%nat Unlocked))).
Definition contended_pager : Pager LockTable := set_lock sample_pager (MkLock shared_table 1%nat Shared).

Lemma shared_table_inv : lock_inv (MkLock shared_table 1%nat Shared).
Proof.
  set (y := with_lock (with_lock start_system (snd (step_up (lock_of start_system 1%nat))))
    (snd (step_up (lock_of (with_lock start_system (snd (step_up (lock_of start_system 1%nat)))) 2%nat)))).
  assert (sys_inv y) as [Hc Hm].
  { assert (sys_inv start_system) as H0.
    { destruct (no_locks_inv 1%nat) as [Hc _]. split; [exact Hc|]. intros p. by destruct (no_locks_inv p). }
    unfold y. eapply sys_step_inv; [|apply sys_up]. eapply sys_step_inv; [|apply sys_up]. exact H0. }
  split; [exact Hc|]. exact (Hm 1%nat).
Qed.

Example refused_commit_keeps_pending_witness :
  exists p1 p2,
    @flush true LockTable _ sample_env contended_pager = (Err (PVfs (Locked DbFile)), p1) /\
    dirty p1 = dirty contended_pager /\ vfs p1 = vfs contended_pager /\
    rollback p1 = (Ok tt, p2) /\ dirty p2 = ∅ /\ level (lock p2) = Pending /\
    held (os (lock p2)) 1%nat PENDING_BYTE = F_WRLCK.
Proof.
  apply (@refused_commit_keeps_pending true LockTable _ contended_pager sample_env 1 (replicate 512 7) 2%nat).
  - by vm_compute.
  - done.
  - done.
  - exact shared_table_inv.
  - done.
  - done.
  - by vm_compute.
  - intros q Hq. change (pid (lock contended_pager)) with 1%nat in Hq.
    change (os (lock contended_pager)) with shared_table.
    destruct (decide (q = 2%nat)) as [->|Hq2]; [split; by vm_compute|].
    assert (forall b, held shared_table q b = F_UNLCK) as E; [|by rewrite !E].
    intros b. unfold shared_table.
    set (s1 := MkLock (os (snd (set_level Shared (MkLock no_locks 1%nat Unlocked)))) 2%nat Unlocked).
    pose proof (set_level_spec Shared _ (no_locks_inv 1%nat)) as H1.
    assert (forall c, held (os s1) q c = F_UNLCK) as Hs1.
    { intros c. unfold s1. cbn [os]. destruct (set_level Shared (MkLock no_locks 1%nat Unlocked)) as [r0 s0].
      destruct H1 as (_ & [_ Ho] & _). cbn [snd]. rewrite Ho by done. cbn. unfold table_held, no_locks. by rewrite lookup_empty. }
    rewrite <- (Hs1 b). change (held (os (snd (set_level Shared s1))) q b = held (os s1) q b).
    assert (lock_inv s1) as Hi.
    { destruct (set_level Shared (MkLock no_locks 1%nat Unlocked)) as [r0 s0] eqn:E0. destruct H1 as ([Hc Hm] & [Hp Ho] & _).
      cbn [snd] in s1. split; [exact Hc|]. intros c. cbn. rewrite Ho by done. cbn. unfold table_held, no_locks.
      rewrite lookup_empty. unfold holds, rank. by repeat case_match. }
    pose proof (set_level_spec Shared s1 Hi) as H2. destruct (set_level Shared s1) as [r2 s2].
    destruct H2 as (_ & [_ Ho] & _). cbn [snd]. by apply Ho.
Defined.
