(* ===== verification/WalCommit.v ===== *)
(** * Commit through the WAL

    What [flush] does in WAL mode, and what a later reader finds. *)

From stdpp Require Import prelude list numbers gmap sorting.
From Stdlib Require Import ZArith Lia.
From S2P Require Import Prelude Header Freelist Vfs Journal Wal Lock Shm Checkpoint PageCache Pager Commit Transactions.

Local Open Scope Z_scope.

(** The frames of a transaction: its pages in order, the last one committing. *)
Fixpoint dirty_frames (dirty : gmap Z (list Z)) (nums : list Z) (count : Z) : list Frame :=
  match nums with
  | [] => []
  | n :: rest =>
    MkFrame n (if bool_decide (rest = []) then count else 0) (default [] (dirty !! n))
      :: dirty_frames dirty rest count
  end.

Section Frames.
Context `{host : Host}.

Lemma append_dirty_frames dirty nums count : forall w,
  Forall (fun n => is_Some (dirty !! n)) nums ->
  append_dirty w dirty nums count = append_frames w (dirty_frames dirty nums count).
Proof.
  induction nums as [|n nums IH]; intros w Hn; [done|]. apply Forall_cons_iff in Hn as [[b Hb] Hn].
  cbn [append_dirty dirty_frames append_frames fold_left]. rewrite Hb. cbn [default fr_page fr_content fr_db_size].
  by apply IH.
Qed.

Lemma dirty_frames_wf h dirty nums count :
  (forall n b, dirty !! n = Some b -> 1 <= n <= U32_MAX /\ len b = Wal.page_size h) -> is_u32 count ->
  Forall (fun n => is_Some (dirty !! n)) nums -> Forall (wf_frame h) (dirty_frames dirty nums count).
Proof.
  intros Hd Hc. induction 1 as [|n nums [b Hb] Hn IH]; cbn [dirty_frames]; constructor; [|done].
  destruct (Hd _ _ Hb) as [Hn1 Hl]. rewrite Hb. unfold wf_frame. cbn. unfold is_u32, U32_MAX in *.
  split; [lia|]. split; [case_bool_decide; lia|done].
Qed.

Lemma dirty_frames_overlay dirty nums count n :
  NoDup nums -> Forall (fun n => is_Some (dirty !! n)) nums ->
  overlay (dirty_frames dirty nums count) !! n = if bool_decide (n ∈ nums) then dirty !! n else None.
Proof.
  induction nums as [|m nums IH]; intros Hnd Hn.
  { rewrite bool_decide_eq_false_2 by apply not_elem_of_nil. done. }
  apply NoDup_cons in Hnd as [Hm Hnd]. apply Forall_cons_iff in Hn as [[b Hb] Hn]. cbn [dirty_frames].
  set (f := MkFrame _ _ _). change (f :: ?l) with ([f] ++ l). rewrite overlay_app, IH by done.
  destruct (bool_decide_reflect (n ∈ nums)) as [Hin|Hnin].
  - rewrite bool_decide_eq_true_2 by (by right). rewrite Forall_forall in Hn.
    destruct (Hn n Hin) as [c ->]. done.
  - unfold overlay, overlay_from. cbn. destruct (decide (m = n)) as [->|Hne].
    + rewrite lookup_insert_eq, bool_decide_eq_true_2 by (by left). by rewrite Hb.
    + rewrite lookup_insert_ne by done. rewrite lookup_empty, bool_decide_eq_false_2; [done|].
      rewrite not_elem_of_cons. split; [congruence|done].
Qed.

Lemma dirty_frames_last dirty nums count :
  nums <> [] -> count <> 0 ->
  exists us c, dirty_frames dirty nums count = us ++ [c] /\ is_commit c = true.
Proof.
  intros Hne Hc. induction nums as [|n nums IH]; [done|]. cbn [dirty_frames]. destruct nums as [|m nums].
  - eexists [], _. split; [reflexivity|]. unfold is_commit. cbn. destruct (Z.eqb_spec count 0); [done|done].
  - destruct IH as (us & c & E & Hcm); [done|]. rewrite E. eexists (_ :: us), c. split; [done|done].
Qed.

End Frames.

(** The state in which a WAL-mode commit starts: a log [h], [fs] whose every
    frame is valid, no resume hint, the write lock free, and a readable page 1
    that records the page count. *)
Definition wal_committable `{host : Host} {OS} (p : Pager OS) (env : Env) (h : WalHeader) (fs : list Frame)
    (page1 : list Z) (count : Z) : Prop :=
  pg_journal_mode p = Header.Wal /\ env_wal_write_lock env = true /\ tx_lock_level p = Shared /\
  wf_header h /\ Forall (wf_frame h) fs /\ Wal.page_size h = pg_page_size p /\
  files (vfs p) !! WalFile = Some (wal_image h fs) /\ wal_resume p = None /\
  dirty p <> ∅ /\
  (forall n b, dirty p !! n = Some b -> 1 <= n <= U32_MAX /\ len b = pg_page_size p) /\
  logical p 1 = Ok page1 /\ read_be_u32 page1 PAGE_COUNT_OFFSET = Ok count /\ is_u32 count /\ count <> 0 /\
  len (wal_image h (fs ++ dirty_frames (dirty p) (sorted_keys (dirty p)) count)) < U64_MAX.

Section Flush.
Context `{host : Host} {OS : Type} `{Fcntl OS}.
Context (p : Pager OS) (env : Env) (h : WalHeader) (fs : list Frame) (page1 : list Z) (count : Z).
Context (Hc : coherent p) (Hp : wal_committable p env h fs page1 count).

Let new := dirty_frames (dirty p) (sorted_keys (dirty p)) count.

Lemma keys_dirty : Forall (fun n => is_Some (dirty p !! n)) (sorted_keys (dirty p)).
Proof. apply Forall_forall. intros n. apply sorted_keys_elem. Qed.

Lemma new_frames_wf : Forall (wf_frame h) new.
Proof.
  destruct Hp as (_ & _ & _ & _ & _ & Hps & _ & _ & _ & Hd & _ & _ & Hcnt & _).
  apply dirty_frames_wf; [by rewrite Hps|done|apply keys_dirty].
Qed.

Lemma new_not_nil : sorted_keys (dirty p) <> [].
Proof.
  destruct Hp as (_ & _ & _ & _ & _ & _ & _ & _ & Hne & _). apply map_choose in Hne as (n & b & Hb).
  intros E. apply (not_elem_of_nil n). rewrite <- E. apply sorted_keys_elem. eauto.
Qed.

(** The run of [flush], up to the outcome of the writer's [sync]. *)
Lemma flush_wal_run w' d' :
  (if bool_decide (synchronous p = SyncFull) then Wal.sync (writer_for h fs new) else mret (writer_for h fs new)) (vfs p)
    = (Ok w', d') ->
  exists c, flush env p = (Ok tt,
    set_dirty (set_wal_pages (set_mx_frame (set_wal_resume (set_vfs (set_cache p c) d') (Some (resume_hint w')))
      (Some (frame_count w'))) (dirty p ∪ wal_pages p)) ∅) /\
    coherent (set_cache p c).
Proof.
  intros Hsync. destruct Hp as (Hmode & Henv & Htx & Hh & F & Hps & Hwal & Hres & Hne & Hd & H1 & Hcf & Hcu & Hc0 & Hlen).
  pose proof Hh as [[Hpsz _] _].
  destruct (read_page_spec 1 p Hc) as (p1 & E1 & Hc1 & Hs1); [unfold is_u32; lia|].
  exists (page_cache p1). split; [|rewrite <- Hs1; exact Hc1].
  unfold flush. erewrite M_bind_ok by reflexivity. rewrite bool_decide_eq_false_2 by done.
  rewrite Hmode, bool_decide_eq_true_2 by done. unfold then_always.
  assert (flush_wal_locked env p = (Ok tt,
    set_dirty (set_wal_pages (set_mx_frame (set_wal_resume (set_vfs (set_cache p (page_cache p1)) d') (Some (resume_hint w')))
      (Some (frame_count w'))) (dirty p ∪ wal_pages p)) ∅)) as ->.
  { unfold flush_wal_locked. erewrite M_bind_ok by reflexivity. cbv zeta. rewrite Henv. cbn [negb].
    erewrite M_bind_ok by (unfold map_err_M; rewrite E1, H1; reflexivity).
    rewrite Hcf. cbn [map_err]. erewrite M_bind_ok by reflexivity. rewrite Hs1.
    assert (open_existing (pg_page_size p) None (vfs p) = (Ok (writer_for h fs []), vfs p)) as Hopen.
    { rewrite <- Hps. pose proof (open_existing_scan h fs [] (vfs p) Hh F) as Ho. rewrite app_nil_r in Ho.
      assert (len (wal_image h fs) < U64_MAX) as Hl1.
      { rewrite wal_image_app, len_app in Hlen.
        pose proof (len_nonneg (frames_bytes h (chain h (header_checksum h) fs) (dirty_frames (dirty p) (sorted_keys (dirty p)) count))). lia. }
      apply Ho; [done| |done]. apply frame_at_short; [done|]. rewrite frame_size_eq by done. lia. }
    erewrite M_bind_ok.
    2:{ cbn [pg_page_size wal_resume vfs set_cache]. rewrite Hres, Hopen. reflexivity. }
    rewrite append_dirty_frames by apply keys_dirty. fold new.
    rewrite (append_frames_for h fs new []) by
      (first [done | apply new_frames_wf | lia | cbn [app]; unfold new; lia]). cbn [app].
    erewrite M_bind_ok.
    2:{ instantiate (1 := set_vfs (set_cache p (page_cache p1)) d'). instantiate (1 := w').
        case_bool_decide.
        - unfold on_vfs, zoom, map_err_M. cbn [vfs set_vfs set_cache]. by rewrite Hsync.
        - injection Hsync as <- <-. done. }
    by repeat (erewrite M_bind_ok by reflexivity). }
  unfold release_tx_lock. erewrite M_bind_ok.
  2:{ erewrite M_bind_ok by reflexivity. cbn [tx_lock_level set_dirty set_wal_pages set_mx_frame set_wal_resume set_vfs set_cache].
      rewrite Htx. reflexivity. }
  done.
Qed.

End Flush.

Section Readers.
Context `{host : Host}.

(** What opening a database finds in a log of whole frames. *)
Lemma read_wal_pages_image h fs d :
  wf_header h -> Forall (wf_frame h) fs -> len (wal_image h fs) < U64_MAX ->
  files d !! WalFile = Some (wal_image h fs) ->
  read_wal_pages (Wal.page_size h) d = (Ok (overlay (committed_frames fs)), d).
Proof.
  intros Hh F Hlen Hf. pose proof Hh as [[Hps _] _]. pose proof (len_wal_image h fs F) as Li.
  pose proof (len_nonneg fs). unfold read_wal_pages. erewrite M_bind_ok by reflexivity.
  unfold vfs_exists. rewrite Hf, bool_decide_eq_true_2 by done. cbn [negb].
  unfold open_file. rewrite Hf. cbn [ok_or map_err]. erewrite M_bind_ok by reflexivity.
  unfold size at 1. rewrite (proj2 (Z.ltb_ge _ _)) by (unfold Wal.HEADER_LEN; nia). cbv zeta.
  assert (read_at (wal_image h fs) (size (wal_image h fs)) 0 = wal_image h fs) as ->.
  { apply (inj Some). unfold size. rewrite read_at_range by nia. apply get_range_full. lia. }
  rewrite (proj2 (Z.ltb_ge _ _)) by (unfold Wal.HEADER_LEN; nia).
  assert (Wal.parse (wal_image h fs) = Ok h) as -> by (unfold wal_image; by apply parse_wal_header).
  cbn [map_err]. erewrite M_bind_ok by reflexivity. rewrite Z.eqb_refl. cbn [negb].
  rewrite committed_pages_frames. pose proof (valid_frames_short h fs []) as Hv. rewrite app_nil_r in Hv.
  destruct Hv as [-> _]; [done|done|done|rewrite len_nil; lia|]. done.
Qed.

End Readers.

(** ** Properties *)

(** With [PRAGMA synchronous = FULL] a WAL commit is durable: [flush]
    succeeds, and whoever opens the database next finds in the log exactly
    the transaction's pages over the pages committed before; the connection
    itself keeps reading the same contents on the pages it had in its
    transaction or from the log. *)
Theorem wal_full_commit_is_durable `{host : Host} {OS} `{Fcntl OS} (p : Pager OS) env h fs page1 count :
  coherent p -> wal_committable p env h fs page1 count ->
  synchronous p = SyncFull -> committed_frames fs = fs ->
  exists p' ov d2, flush env p = (Ok tt, p') /\ dirty p' = ∅ /\
    read_wal_pages (pg_page_size p) (vfs p') = (Ok ov, d2) /\
    (forall n, ov !! n = match dirty p !! n with Some b => Some b | None => overlay fs !! n end) /\
    (forall n b, logical p n = Ok b -> logical p' n = Ok b \/ dirty p !! n = None /\ wal_pages p !! n = None).
Proof.
  intros Hc Hp Hsy Hcf. pose proof Hp as (_ & _ & _ & Hh & F & Hps & Hwal & _ & _ & _ & _ & _ & _ & Hc0 & Hlen).
  set (new := dirty_frames (dirty p) (sorted_keys (dirty p)) count) in *.
  pose proof (new_frames_wf p env h fs page1 count Hp) as Fn. fold new in Fn.
  pose proof (sync_for h fs new (vfs p) []) as Hs. rewrite app_nil_r in Hs.
  destruct Hs as (d' & Hs & Hd'); [done|lia|]. rewrite drop_nil, app_nil_r in Hd'.
  destruct (flush_wal_run p env h fs page1 count Hc Hp (writer_for h (fs ++ new) []) d') as (c & Hf & _).
  { fold new. by rewrite Hsy, bool_decide_eq_true_2. }
  eexists _, _, d'. split; [exact Hf|]. split; [done|]. split.
  { cbn [vfs set_dirty set_wal_pages set_mx_frame set_wal_resume set_vfs]. rewrite <- Hps.
    apply (read_wal_pages_image h (fs ++ new)); [done|by apply Forall_app|done|].
    rewrite Hd'. by rewrite lookup_insert_eq. }
  pose proof (new_not_nil p env h fs page1 count Hp) as Hnn.
  destruct (dirty_frames_last (dirty p) (sorted_keys (dirty p)) count Hnn Hc0) as (us & cm & En & Hcm). fold new in En.
  split.
  - intros n. rewrite En, app_assoc, committed_frames_commit by done. rewrite <- app_assoc, <- En, overlay_app.
    unfold new. rewrite dirty_frames_overlay by (apply sorted_keys_NoDup || apply (keys_dirty p)).
    destruct (bool_decide_reflect (n ∈ sorted_keys (dirty p))) as [[b Hb]%sorted_keys_elem|Hn].
    + by rewrite Hb.
    + destruct (dirty p !! n) as [b|] eqn:E; [|done]. exfalso. apply Hn. apply sorted_keys_elem. eauto.
  - intros n b Hl. unfold logical, committed, read_page_raw in *.
    cbn [dirty wal_pages set_dirty set_wal_pages set_mx_frame set_wal_resume set_vfs set_cache].
    rewrite lookup_empty, lookup_union. destruct (dirty p !! n) as [x|] eqn:E; [left; by rewrite union_Some_l|].
    destruct (wal_pages p !! n) as [x|] eqn:E2; [by left|]. by right.
Qed.

(** A WAL-mode pager over a log with one committed frame. *)
Definition wal_page1 : list Z := replicate 28 0 ++ [0; 0; 0; 1] ++ replicate 480 0.
Definition wal_log : list Frame := [MkFrame 1 1 wal_page1].
Definition wal_pager (sync : SynchronousMode) : Pager LockTable :=
  MkPager (MkDisk (<[WalFile := @wal_image true sample_wal wal_log]> {[DbFile := one_page]}) [])
    (MkLock no_locks 1%nat Shared) Shared None {[1 := wal_page1]} {[2 := replicate 512 8]}
    (PageCache.new 10) 512 Header.Wal sync None.

Lemma wal_pager_coherent s : coherent (wal_pager s).
Proof. intros n b Hb. unfold cached in Hb. cbn in Hb. by rewrite lookup_empty in Hb. Qed.

Lemma wal_pager_committable s : @wal_committable true LockTable (wal_pager s) sample_env sample_wal wal_log wal_page1 1.
Proof.
  split; [done|]. split; [done|]. split; [done|]. split; [apply sample_wal_wf|].
  split. { constructor; [|constructor]. unfold wf_frame, is_u32. cbn. split; [lia|]. split; [lia|by vm_compute]. }
  split; [done|]. split; [by vm_compute|]. split; [done|].
  split. { intros E. apply (f_equal (fun m => m !! 2)) in E. by vm_compute in E. }
  split.
  { intros n b Hb. change (dirty (wal_pager s)) with ({[2 := replicate 512 8]} : gmap Z (list Z)) in Hb.
    apply lookup_singleton_Some in Hb as [<- <-]. split; [unfold U32_MAX; lia|by vm_compute]. }
  split; [by vm_compute|]. split; [by vm_compute|]. split; [unfold is_u32; lia|]. split; [done|]. by vm_compute.
Qed.

Example wal_full_commit_is_durable_witness :
  exists p' ov d2, @flush true LockTable _ sample_env (wal_pager SyncFull) = (Ok tt, p') /\ dirty p' = ∅ /\
    @read_wal_pages true (pg_page_size (wal_pager SyncFull)) (vfs p') = (Ok ov, d2) /\
    (forall n, ov !! n = match dirty (wal_pager SyncFull) !! n with Some b => Some b | None => overlay wal_log !! n end) /\
    (forall n b, logical (wal_pager SyncFull) n = Ok b -> logical p' n = Ok b \/
       dirty (wal_pager SyncFull) !! n = None /\ wal_pages (wal_pager SyncFull) !! n = None).
Proof.
  apply (@wal_full_commit_is_durable true LockTable _ (wal_pager SyncFull) sample_env sample_wal wal_log wal_page1 1).
  - apply wal_pager_coherent.
  - apply wal_pager_committable.
  - done.
  - done.
Defined.

(** Below FULL a WAL commit is not written at all.  With [synchronous]
    NORMAL or OFF, [flush] reports success, forgets the dirty pages and
    publishes the new frame count, but no file changes: the frames stay in
    the writer's pending buffer, which only [WalWriter::sync] writes, and the
    buffer is dropped.  Whoever opens the database next, crash or not, finds
    the log without the transaction; the cached resume hint even describes a
    longer file than exists.  (The code and ADR comments only mean to skip the
    fsync.) *)
Theorem wal_relaxed_commit_writes_nothing `{host : Host} {OS} `{Fcntl OS} (p : Pager OS) env h fs page1 count :
  coherent p -> wal_committable p env h fs page1 count -> synchronous p <> SyncFull ->
  exists p' hint d2, flush env p = (Ok tt, p') /\ dirty p' = ∅ /\ vfs p' = vfs p /\
    published_mx_frame p' <> None /\
    wal_resume p' = Some hint /\ len (wal_image h fs) < hint_expected_size hint /\
    read_wal_pages (pg_page_size p) (vfs p') = (Ok (overlay (committed_frames fs)), d2).
Proof.
  intros Hc Hp Hsy. pose proof Hp as (_ & _ & _ & Hh & F & Hps & Hwal & _ & _ & _ & _ & _ & _ & Hc0 & Hlen).
  pose proof Hh as [[Hpsz _] _].
  set (new := dirty_frames (dirty p) (sorted_keys (dirty p)) count) in *.
  pose proof (new_frames_wf p env h fs page1 count Hp) as Fn. fold new in Fn.
  destruct (flush_wal_run p env h fs page1 count Hc Hp (writer_for h fs new) (vfs p)) as (c & Hf & _).
  { fold new. by rewrite bool_decide_eq_false_2. }
  pose proof (new_not_nil p env h fs page1 count Hp) as Hnn.
  assert (1 <= len new) as Hnew.
  { unfold new. destruct (sorted_keys (dirty p)) as [|k ks]; [done|]. cbn [dirty_frames]. rewrite len_cons.
    pose proof (len_nonneg (dirty_frames (dirty p) ks count)). lia. }
  eexists _, _, (vfs p). split; [exact Hf|]. split; [done|]. split; [done|]. split; [done|].
  split; [reflexivity|]. split.
  - cbn [hint_expected_size resume_hint ww_offset writer_for].
    rewrite !len_wal_image by (try done; by apply Forall_app). rewrite len_app. nia.
  - cbn [vfs set_dirty set_wal_pages set_mx_frame set_wal_resume set_vfs]. rewrite <- Hps.
    apply read_wal_pages_image; [done|done| |done].
    rewrite wal_image_app, len_app in Hlen.
    pose proof (len_nonneg (frames_bytes h (chain h (header_checksum h) fs) new)). lia.
Qed.

Example wal_relaxed_commit_writes_nothing_witness :
  exists p' hint d2, @flush true LockTable _ sample_env (wal_pager SyncNormal) = (Ok tt, p') /\ dirty p' = ∅ /\
    vfs p' = vfs (wal_pager SyncNormal) /\ published_mx_frame p' <> None /\
    wal_resume p' = Some hint /\ len (@wal_image true sample_wal wal_log) < hint_expected_size hint /\
    @read_wal_pages true (pg_page_size (wal_pager SyncNormal)) (vfs p') = (Ok (overlay (committed_frames wal_log)), d2).
Proof.
  apply (@wal_relaxed_commit_writes_nothing true LockTable _ (wal_pager SyncNormal) sample_env sample_wal wal_log wal_page1 1).
  - apply wal_pager_coherent.
  - apply wal_pager_committable.
  - done.
Defined.
