(* ===== verification/Open.v ===== *)
(** * Opening a database ([Pager::open] of [src/pager.rs])

    What a connection finds: the main file after rollback of a hot journal,
    overlaid with the committed frames of the log, under a SHARED lock. *)

From stdpp Require Import prelude list numbers gmap.
From Stdlib Require Import ZArith Lia.
From S2P Require Import Prelude Header Freelist Vfs Journal Wal Lock Shm Checkpoint PageCache Pager Commit Transactions.

Local Open Scope Z_scope.

Section Alone.
Context {OS : Type} `{Fcntl OS}.

(** No other process holds a lock on the file. *)
Definition unshared (s : FileLockState OS) : Prop :=
  forall q b, q <> pid s -> held (os s) q b = F_UNLCK.

Lemma unshared_same s s' : unshared s -> same_others s s' -> unshared s'.
Proof. intros Hu [Hp Ho] q b Hq. rewrite Hp in Hq. rewrite Ho by done. by apply Hu. Qed.

Lemma unshared_grant s k start n : unshared s -> setlk (os s) (pid s) k start n <> None.
Proof.
  intros Hu (q & b & Hq & _ & Hc)%setlk_refused. rewrite Hu in Hc by done. by destruct k.
Qed.

Lemma unshared_fcntl s k start n :
  unshared s -> compatible (os s) ->
  exists s', fcntl_lock k start n s = (Ok tt, s') /\ unshared s' /\ compatible (os s') /\ pid s' = pid s.
Proof.
  intros Hu Hc. pose proof (fcntl_lock_spec k start n s Hc) as Hf. pose proof (unshared_grant s k start n Hu).
  destruct (setlk _ _ _ _ _) as [o|]; [|done]. destruct Hf as (E & Hc' & Hs).
  eexists. split; [exact E|]. split; [by eapply unshared_same|done].
Qed.

(** A lone process climbs without refusal. *)
Lemma unshared_step_up s : unshared s -> compatible (os s) -> exists s', step_up s = (Ok tt, s').
Proof.
  intros Hu Hc. unfold step_up. erewrite M_bind_ok by reflexivity.
  destruct (level s).
  - destruct (unshared_fcntl s F_RDLCK PENDING_BYTE 1 Hu Hc) as (s1 & E1 & Hu1 & Hc1 & _).
    destruct (unshared_fcntl s1 F_UNLCK PENDING_BYTE 1 Hu1 Hc1) as (s2 & E2 & Hu2 & Hc2 & _).
    destruct (unshared_fcntl s2 F_RDLCK SHARED_FIRST SHARED_SIZE Hu2 Hc2) as (s3 & E3 & _).
    rewrite (M_bind_ok _ _ _ _ _ E1), (M_bind_ok _ _ _ _ _ E2), (M_bind_ok _ _ _ _ _ E3). eauto.
  - destruct (unshared_fcntl s F_WRLCK RESERVED_BYTE 1 Hu Hc) as (s1 & E1 & _).
    rewrite (M_bind_ok _ _ _ _ _ E1). eauto.
  - destruct (unshared_fcntl s F_WRLCK PENDING_BYTE 1 Hu Hc) as (s1 & E1 & _).
    rewrite (M_bind_ok _ _ _ _ _ E1). eauto.
  - destruct (unshared_fcntl s F_WRLCK SHARED_FIRST SHARED_SIZE Hu Hc) as (s1 & E1 & _).
    rewrite (M_bind_ok _ _ _ _ _ E1). eauto.
  - eauto.
Qed.

Lemma unshared_climb target fuel : forall s,
  unshared s -> lock_inv s -> exists s', climb fuel target s = (Ok tt, s').
Proof.
  induction fuel as [|fuel IH]; intros s Hu Hi; cbn [climb]; [by eexists|].
  erewrite M_bind_ok by reflexivity. destruct (level_lt (level s) target); [|by eexists].
  destruct (unshared_step_up s Hu) as [s1 E1]; [by destruct Hi|].
  rewrite (M_bind_ok _ _ _ _ _ E1). pose proof (step_up_spec s Hi) as Hs. rewrite E1 in Hs.
  destruct Hs as (Hi1 & Ho1 & _). apply IH; [by eapply unshared_same|done].
Qed.

Lemma unshared_set_level target s :
  unshared s -> lock_inv s ->
  exists s', set_level target s = (Ok tt, s') /\ level s' = target /\ lock_inv s' /\ unshared s'.
Proof.
  intros Hu Hi. pose proof (set_level_spec target s Hi) as Hs.
  destruct (set_level target s) as [r s'] eqn:E. destruct Hs as (Hi' & Ho & [[-> Hl]|[-> _]]).
  { exists s'. split; [done|]. split; [done|]. split; [done|]. by eapply unshared_same. }
  exfalso. destruct (unshared_climb target 4 s Hu Hi) as [s1 E1].
  pose proof (rank_bound (level s)). pose proof (rank_bound target).
  pose proof (climb_spec target 4 s Hi ltac:(lia)) as Hc. rewrite E1 in Hc. destruct Hc as (Hi1 & _ & _).
  unfold set_level in E. rewrite (M_bind_ok _ _ _ _ _ E1) in E. pose proof (rank_bound (level s1)).
  pose proof (descend_spec target 4 s1 Hi1 ltac:(lia)) as Hd. rewrite E in Hd. by destruct Hd as (_ & _ & ? & _).
Qed.

Lemma unshared_not_reserved s others : unshared s -> check_reserved s others = false.
Proof.
  intros Hu. unfold check_reserved. induction others as [|q others IH]; [done|]. cbn [existsb]. rewrite IH.
  destruct (bool_decide_reflect (q = pid s)) as [|Hq]; [done|]. by rewrite Hu.
Qed.

End Alone.

Section Open.
Context `{host : Host} {OS : Type} `{Fcntl OS}.

(** Reading the log changes nothing. *)
Lemma read_wal_pages_pure psize d : snd (read_wal_pages psize d) = d.
Proof.
  unfold read_wal_pages. erewrite M_bind_ok by reflexivity.
  destruct (negb _); [done|]. unfold mbind, M_bind, lift.
  destruct (map_err PVfs (open_file d WalFile)) as [f|]; [|done].
  destruct (size f <? _); [done|]. destruct (_ <? _); [done|].
  destruct (map_err PWal _) as [h|]; [|done]. by destruct (negb _).
Qed.

Lemma zoom_lock_ok d (l l' : FileLockState OS) target :
  set_level target l = (Ok tt, l') ->
  in_lock (set_level target) (d, l) = (Ok tt, (d, l')).
Proof. intros E. unfold in_lock, map_err_M, zoom. cbn [snd]. rewrite E. done. Qed.

Lemma recovery_step_ok others d (l : FileLockState OS) d1 :
  unshared l -> lock_inv l -> level l = Shared -> recover_hot_journal d = (Ok tt, d1) ->
  exists l', recovery_step others (d, l) = (Ok tt, (d1, l')) /\ level l' = Shared /\ lock_inv l' /\ unshared l'.
Proof.
  intros Hu Hi Hl Hr. unfold recovery_step. erewrite M_bind_ok by reflexivity. cbn [snd].
  rewrite unshared_not_reserved by done.
  destruct (unshared_set_level Exclusive l Hu Hi) as (l1 & E1 & _ & Hi1 & Hu1).
  rewrite (M_bind_ok _ _ _ _ _ (zoom_lock_ok d _ _ _ E1)).
  destruct (unshared_set_level Shared l1 Hu1 Hi1) as (l2 & E2 & Hl2 & Hi2 & Hu2).
  erewrite M_bind_ok; [|unfold in_files, zoom; cbn [fst]; rewrite Hr; reflexivity]. cbn [snd].
  exists l2. split; [|done]. by apply zoom_lock_ok.
Qed.

Lemma open_run others claim psize d (l l1 l2 : FileLockState OS) data d1 ov page1 :
  files d !! DbFile = Some data -> set_level Shared l = (Ok tt, l1) ->
  (if journal_is_hot d then recovery_step others else mret tt) (d, l1) = (Ok tt, (d1, l2)) ->
  claim = Ok tt -> fst (read_wal_pages psize d1) = Ok ov -> source_read d1 psize 1 = Ok page1 ->
  open others claim psize (d, l) =
    (Ok (MkPager d1 l2 Shared None ov ∅ (PageCache.new DEFAULT_PAGE_CACHE_CAPACITY) psize
           (journal_mode_from_page1 page1) SyncFull None), (d1, l2)).
Proof.
  intros Hdb E1 E2 -> Ew Hp1. unfold open, open_locked. erewrite M_bind_ok by reflexivity. cbv zeta. cbn [fst].
  unfold open_file at 1. rewrite Hdb. cbn [ok_or map_err]. erewrite M_bind_ok by reflexivity.
  rewrite (M_bind_ok _ _ _ _ _ (zoom_lock_ok d _ _ _ E1)).
  rewrite (M_bind_ok _ _ _ _ _ E2). cbn [map_err]. erewrite M_bind_ok by reflexivity.
  pose proof (read_wal_pages_pure psize d1) as Hpure.
  destruct (read_wal_pages psize d1) as [r d1'] eqn:Er. cbn [fst snd] in *. subst.
  erewrite M_bind_ok; [|unfold in_files, zoom; cbn [fst]; rewrite Er; reflexivity]. cbn [snd].
  erewrite M_bind_ok by reflexivity. cbn [fst snd]. rewrite Hp1. cbn [map_err].
  erewrite M_bind_ok by reflexivity. done.
Qed.

End Open.

(** ** What is on disk *)

(** The database that the main file and the journal stand for: the main file
    itself when no journal with the magic is next to it; otherwise the file
    [D] whose pages the complete records of the journal are pre-images of, when
    the main file agrees with [D] on every other page. *)
Definition restorable (psize : Z) (d : Disk) (D : list Z) : Prop :=
  exists data, files d !! DbFile = Some data /\
    ((forall j, files d !! JournalFile = Some j -> take 8 j <> JOURNAL_MAGIC) /\ data = D \/
     exists h recs tail, files d !! JournalFile = Some (image h recs ++ tail) /\
       Journal.wf_header h /\ JOURNAL_HEADER_LEN <= jh_sector_size h /\ jh_page_size h = psize /\
       len recs <= n_rec h /\ (len recs = n_rec h \/ len tail < psize + 8) /\
       len D = initial_page_count h * psize /\
       (forall n b, (n, b) ∈ recs -> 1 <= n <= initial_page_count h /\ page psize D n = Some b) /\
       (forall n, 1 <= n <= initial_page_count h -> n ∉ map fst recs -> page psize data n = page psize D n)).

(** The pages the log publishes: none without a log or with a log shorter than
    its header; otherwise those of the frames up to the last commit, whatever
    part of a frame follows the complete ones. *)
Definition logged `{host : Host} (psize : Z) (d : Disk) (ov : gmap Z (list Z)) : Prop :=
  match files d !! WalFile with
  | None => ov = ∅
  | Some w =>
    len w < Wal.HEADER_LEN /\ ov = ∅ \/
    exists h fs tail, w = wal_image h fs ++ tail /\ Wal.wf_header h /\ Wal.page_size h = psize /\ Forall (wf_frame h) fs /\
      len w < U64_MAX /\ len tail < 24 + psize /\ ov = overlay (committed_frames fs)
  end.

Lemma restorable_recovers psize d D : 0 < psize <= 65536 -> restorable psize d D ->
  exists d', recover_if_hot d = (Ok tt, d') /\ files d' !! DbFile = Some D /\ journal_is_hot d' = false /\
    files d' !! WalFile = files d !! WalFile.
Proof.
  intros Hps (data & Hdb & [[Hcold <-]|(h & recs & tail & Hj & Hh & Hsec & Eps & Hn & Ht & HD & Hpre & Hag)]).
  - assert (journal_is_hot d = false) as Hc.
    { unfold journal_is_hot. destruct (files d !! JournalFile) as [j|] eqn:Ej; [|done]. apply bool_decide_eq_false_2.
      unfold read_at. case_match; [done|]. rewrite drop_0. by apply Hcold. }
    exists d. unfold recover_if_hot. erewrite M_bind_ok by reflexivity. by rewrite Hc.
  - subst psize. pose proof Hh as (_ & _ & Hcnt & _). destruct d as [fs l]. cbn [files] in *.
    destruct (hot_journal_recovers fs l (image h recs ++ tail) (jh_page_size h) (initial_page_count h) recs data D) as (d' & E & Hf);
      try done; [unfold is_u32, U32_MAX in *; lia| |].
    { apply recover_image; try done; [lia|]. apply Forall_forall. intros [n b] Hin. destruct (Hpre n b Hin) as [Hn1 Hp].
      apply page_inv in Hp as [_ Hl]. split; [|done]. cbn [fst]. unfold is_u32 in *. lia. }
    exists d'. split; [done|]. unfold journal_is_hot. rewrite Hf.
    rewrite lookup_delete_eq, !lookup_delete_ne, lookup_insert_eq, lookup_insert_ne by done. done.
Qed.

Lemma logged_reads `{host : Host} psize d ov : logged psize d ov -> fst (read_wal_pages psize d) = Ok ov.
Proof.
  unfold logged, read_wal_pages. erewrite M_bind_ok by reflexivity. unfold vfs_exists, open_file.
  destruct (files d !! WalFile) as [w|]; [|by intros ->]. intros Hw.
  rewrite bool_decide_eq_true_2 by done. cbn [negb ok_or map_err]. erewrite M_bind_ok by reflexivity. unfold size.
  destruct Hw as [[Hl ->]|(h & fs & tail & -> & Hh & Eps & HF & Hlen & Ht & ->)]; [by rewrite (proj2 (Z.ltb_lt _ _))|].
  pose proof (len_wal_image h fs HF) as Hli. pose proof Hh as [[Hp _] _]. pose proof (len_nonneg fs). pose proof (len_nonneg tail).
  assert (32 <= len (wal_image h fs ++ tail)) as H32 by (rewrite len_app, Hli; nia).
  rewrite (proj2 (Z.ltb_ge _ _)) by (unfold Wal.HEADER_LEN; lia).
  assert (read_at (wal_image h fs ++ tail) (len (wal_image h fs ++ tail)) 0 = wal_image h fs ++ tail) as ->.
  { unfold read_at. rewrite (proj2 (Z.leb_gt _ _)) by lia. rewrite drop_0, take_ge; [done|unfold len; lia]. }
  rewrite (proj2 (Z.ltb_ge _ _)) by (unfold Wal.HEADER_LEN; lia).
  assert (Wal.parse (wal_image h fs ++ tail) = Ok h) as -> by (unfold wal_image; rewrite <- app_assoc; by apply parse_wal_header).
  cbn [map_err]. erewrite M_bind_ok by reflexivity. rewrite Eps, Z.eqb_refl. cbn [negb].
  rewrite committed_pages_frames. destruct (valid_frames_short h fs tail Hh HF Hlen ltac:(lia)) as [-> _]. done.
Qed.

(** ** Properties *)


(** A hot journal of a live writer is left alone: when the journal is hot
    and another process holds RESERVED or more, [open] fails with [Locked], no
    file changes and the process gives its lock back. *)
Theorem open_refuses_live_writer `{host : Host} {OS} `{Fcntl OS} others claim psize d (l l1 : FileLockState OS) data q :
  lock_inv l -> files d !! DbFile = Some data -> journal_is_hot d = true ->
  set_level Shared l = (Ok tt, l1) ->
  q ∈ others -> q <> pid l -> held (os l) q RESERVED_BYTE = F_WRLCK ->
  exists l', open others claim psize (d, l) = (Err (PVfs (Locked DbFile)), (d, l')) /\
    level l' = Unlocked /\ same_others l l'.
Proof.
  intros Hi Hdb Hhot E1 Hq Hne Hh. pose proof (set_level_spec Shared l Hi) as Hs. rewrite E1 in Hs.
  destruct Hs as (Hi1 & [Hp1 Ho1] & _). pose proof (rank_bound (level l1)).
  destruct (set_level_down Unlocked l1 Hi1) as (l' & E2 & _ & Ho2 & Hl2); [cbn; lia|].
  exists l'. split; [|split; [done|by eapply same_others_trans]].
  assert (check_reserved l1 others = true) as Hc.
  { unfold check_reserved. apply existsb_exists. exists q. split; [by apply list_elem_of_In|].
    rewrite Hp1, bool_decide_eq_false_2, Ho1, Hh by done. done. }
  assert (recovery_step others (d, l1) = (Err (PVfs (Locked DbFile)), (d, l1))) as Hrec.
  { unfold recovery_step. erewrite M_bind_ok by reflexivity. cbn [snd]. by rewrite Hc. }
  assert (open_locked others claim psize (d, l) = (Err (PVfs (Locked DbFile)), (d, l1))) as Ho.
  { unfold open_locked. erewrite M_bind_ok by reflexivity. cbv zeta. cbn [fst]. rewrite Hhot.
    unfold open_file at 1. rewrite Hdb. cbn [ok_or map_err]. erewrite M_bind_ok by reflexivity.
    rewrite (M_bind_ok _ _ _ _ _ (zoom_lock_ok d _ _ _ E1)). exact (M_bind_err _ _ _ _ _ Hrec). }
  unfold open. by rewrite Ho, E2.
Qed.

(** A one-page database whose writer died while overwriting page 1: the journal
    holds the original page. *)
Definition dead_writer_disk : Disk :=
  snd ((_ ← modify (fun d => d);
        w ← Journal.create 512 512 1 1 99;
        _ ← write_record w 0 1 one_page;
        modify (fun d => file_write_at d DbFile (replicate 512 9) 0)) (MkDisk {[DbFile := one_page]} [])).

Definition closed_lock : FileLockState LockTable := MkLock no_locks 1%nat Unlocked.

Lemma closed_lock_inv : lock_inv closed_lock.
Proof.
  split; [apply no_locks_compatible|]. intros b. cbn. unfold table_held, no_locks. rewrite lookup_empty.
  unfold holds. cbn [rank]. repeat case_match; done.
Qed.

Lemma closed_lock_unshared : unshared closed_lock.
Proof. intros q b _. cbn. unfold table_held, no_locks. by rewrite lookup_empty. Qed.

(** The same next to a log that commits page 2 and then starts another
    transaction. *)
Definition sample_frames : list Frame := [sample_frame 2 2 5; sample_frame 2 0 6].
Definition dead_writer_log : Disk := MkDisk (<[WalFile := @wal_image true sample_wal sample_frames ++ [1; 2; 3]]> (files dead_writer_disk)) [].

Lemma dead_writer_restorable : restorable 512 dead_writer_log one_page.
Proof.
  exists (replicate 512 9). split; [by vm_compute|]. right.
  exists (MkJournalHeader 1 99 1 512 512), [(1, one_page)], []. split; [by vm_compute|].
  split; [unfold Journal.wf_header, is_u32; cbn; lia|]. split; [by vm_compute|]. split; [done|]. split; [by vm_compute|]. split; [by left|].
  split; [by vm_compute|]. split.
  - intros n b [= -> ->]%list_elem_of_singleton. split; [cbn; lia|by vm_compute].
  - cbn. intros n Hn Hni. exfalso. apply Hni. rewrite list_elem_of_singleton. lia.
Qed.

Lemma dead_writer_logged : @logged true 512 dead_writer_log {[2 := replicate 512 5]}.
Proof.
  unfold logged. change (files dead_writer_log !! WalFile) with (Some (@wal_image true sample_wal sample_frames ++ [1; 2; 3])).
  cbv iota beta. right. exists sample_wal, sample_frames, [1; 2; 3]. split; [done|].
  split; [apply new_wf; [by vm_compute|unfold is_u32; lia..]|]. split; [done|].
  split; [repeat constructor; by vm_compute|]. split; [by vm_compute|]. split; [by vm_compute|]. by vm_compute.
Qed.


(** Process 2 holds RESERVED (and SHARED). *)
Definition writer_lock : FileLockState LockTable :=
  MkLock (os (snd (set_level Reserved (MkLock no_locks 2%nat Unlocked)))) 1%nat Unlocked.

Lemma writer_lock_inv : lock_inv writer_lock.
Proof.
  pose proof (set_level_spec Reserved (MkLock no_locks 2%nat Unlocked)) as Hs.
  destruct (set_level Reserved (MkLock no_locks 2%nat Unlocked)) as [r s'] eqn:E.
  assert (s' = snd (set_level Reserved (MkLock no_locks 2%nat Unlocked))) as -> by (by rewrite E).
  destruct Hs as ([Hc _] & [_ Ho] & _).
  { split; [apply no_locks_compatible|]. intros b. cbn. unfold table_held, no_locks. rewrite lookup_empty.
    unfold holds. cbn [rank]. repeat case_match; done. }
  split; [exact Hc|]. intros b. unfold writer_lock. cbn [os pid level]. rewrite Ho by (cbn; lia).
  apply (proj2 closed_lock_inv).
Qed.

Example open_refuses_live_writer_witness :
  exists l', @open true LockTable _ [2%nat] (Ok tt) 512 (dead_writer_disk, writer_lock) =
      (Err (PVfs (Locked DbFile)), (dead_writer_disk, l')) /\
    level l' = Unlocked /\ same_others writer_lock l'.
Proof.
  apply (@open_refuses_live_writer true LockTable _ [2%nat] (Ok tt) 512 dead_writer_disk writer_lock
    (snd (set_level Shared writer_lock)) (replicate 512 9) 2%nat).
  - apply writer_lock_inv.
  - by vm_compute.
  - by vm_compute.
  - apply injective_projections; [by vm_compute|reflexivity].
  - by left.
  - done.
  - by vm_compute.
Defined.
