(* ===== verification/Allocator.v ===== *)
(** * Page allocation ([allocate_page] and [deallocate_page] of [src/pager.rs])

    The freelist is a chain of trunk pages, each with an array of leaf page
    numbers, anchored in page 1.  Seen through the connection's logical pages
    it implements a stack of free page numbers: deallocation pushes,
    allocation pops, and an empty stack extends the database. *)

From stdpp Require Import prelude list numbers gmap.
From Stdlib Require Import ZArith Lia.
From S2P Require Import Prelude Header Freelist Vfs Journal Wal Lock Shm Checkpoint PageCache Pager Commit Transactions.

Local Open Scope Z_scope.

Section Chain.
Context `{host : Host} {OS : Type} `{Fcntl OS}.

(** The chain of trunk pages from [t] on. *)
Inductive free_chain (p : Pager OS) : Z -> list (Z * TrunkPage) -> Prop :=
| chain_end : free_chain p 0 []
| chain_trunk t buf tr rest :
    t <> 0 -> logical p t = Ok buf -> len buf = pg_page_size p -> Freelist.parse buf = Ok tr ->
    len (leaves tr) <= max_leaves_per_trunk (pg_page_size p) ->
    free_chain p (next_trunk tr) rest -> free_chain p t ((t, tr) :: rest).

(** The pages in the order allocation takes them. *)
Definition stack (chain : list (Z * TrunkPage)) : list Z :=
  concat (map (fun e => rev (leaves e.2) ++ [e.1]) chain).

(** The freelist holds exactly the pages of [F], none of them page 1 or beyond
    the database's [cnt] pages. *)
Definition freelist (p : Pager OS) (cnt : Z) (F : list Z) : Prop :=
  coherent p /\ 512 <= pg_page_size p <= 65536 /\ 1 <= cnt <= U32_MAX /\
  NoDup F /\ (forall n, n ∈ F -> 2 <= n <= cnt) /\
  exists b1 t chain, logical p 1 = Ok b1 /\ len b1 = pg_page_size p /\
    read_be 4 b1 PAGE_COUNT_OFFSET = Some cnt /\ read_be 4 b1 FREELIST_TRUNK_PAGE_OFFSET = Some t /\
    read_be 4 b1 FREELIST_PAGE_COUNT_OFFSET = Some (len F) /\
    free_chain p t chain /\ F = stack chain.

(** [p'] differs from [p] at most in the pages of [touched] and, on page 1, in
    the page count and the freelist fields. *)
Definition touches (p p' : Pager OS) (touched : list Z) : Prop :=
  same_base p p' /\ (forall n, n <> 1 -> n ∉ touched -> logical p' n = logical p n) /\
  (forall b b', logical p 1 = Ok b -> logical p' 1 = Ok b' ->
     len b' = len b /\ forall lo hi, hi <= PAGE_COUNT_OFFSET \/ 40 <= lo -> get_range b' lo hi = get_range b lo hi).

(** A full page can be read. *)
Definition readable (p : Pager OS) (n : Z) : Prop := exists b, logical p n = Ok b /\ len b = pg_page_size p.

Lemma chain_head p t chain : free_chain p t chain -> chain <> [] -> exists tr rest, chain = (t, tr) :: rest.
Proof. intros [|] Hne; [done|]. eauto. Qed.

Lemma stack_cons t tr rest : stack ((t, tr) :: rest) = (rev (leaves tr) ++ [t]) ++ stack rest.
Proof. done. Qed.

Lemma chain_in_stack p t chain u tr : free_chain p t chain -> (u, tr) ∈ chain -> u ∈ stack chain.
Proof.
  induction 1 as [|t0 buf tr0 rest Ht Hl Hlen Hp Hm Hc IH]; [by intros ?%elem_of_nil|].
  rewrite stack_cons. intros [[= -> ->]|Hin]%elem_of_cons; apply elem_of_app.
  - left. apply elem_of_app. right. by apply list_elem_of_singleton.
  - right. by apply IH.
Qed.

(** The chain only depends on its trunk pages. *)
Lemma free_chain_frame p p' t chain :
  free_chain p t chain -> pg_page_size p' = pg_page_size p ->
  (forall u, u ∈ chain.*1 -> logical p' u = logical p u) -> free_chain p' t chain.
Proof.
  intros Hc Hps. induction Hc as [|t0 buf tr0 rest Ht Hl Hlen Hp Hm Hc IH]; intros Hsame; [constructor|].
  econstructor; [done| |by rewrite Hps|done|by rewrite Hps|].
  - rewrite Hsame; [done|]. by left.
  - apply IH. intros u Hu. apply Hsame. by right.
Qed.

Lemma trunk_not_below p t tr rest :
  free_chain p t ((t, tr) :: rest) -> NoDup (stack ((t, tr) :: rest)) -> t ∉ rest.*1.
Proof.
  intros Hc Hnd Hin. apply list_elem_of_fmap in Hin as ([u tr'] & -> & Hin). inversion_clear Hc.
  rewrite stack_cons in Hnd. apply NoDup_app in Hnd as (_ & Hd & _). apply (Hd u).
  - apply elem_of_app. right. by apply list_elem_of_singleton.
  - by eapply chain_in_stack.
Qed.

(** ** The page accesses *)

Lemma read_be_u32_eq buf off v :
  0 <= off -> off + 4 <= 65536 -> read_be 4 buf off = Some v -> read_be_u32 buf off = Ok v.
Proof.
  intros H0 H1. unfold read_be, read_be_u32. rewrite sat_add_small by (unfold U64_MAX; lia).
  change (Z.of_nat 4) with 4. destruct (get_range buf off (off + 4)); [|done]. by intros [= <-].
Qed.

Lemma read_page_p_spec n (p : Pager OS) b :
  coherent p -> is_u32 n -> logical p n = Ok b ->
  exists p' : Pager OS, read_page_p n p = (Ok b, p') /\ updated p p' ∅.
Proof.
  intros Hc Hn Hl. destruct (read_page_spec n p Hc Hn) as (p' & E & Hc' & Hs). rewrite Hl in E.
  exists p'. split; [unfold read_page_p, map_err_M; by rewrite E|]. by apply updated_read.
Qed.

Lemma write_be_u32_ok buf off v :
  0 <= off -> off + 4 <= len buf ->
  exists buf', write_be_u32 buf off v = Ok buf' /\ set_range buf off (be_encode 4 v) = Some buf' /\ len buf' = len buf.
Proof.
  intros H0 H1. pose proof (set_range_Some buf off (be_encode 4 v)) as E. rewrite len_be_encode in E.
  specialize (E ltac:(lia) ltac:(lia)). eexists. unfold write_be_u32. rewrite E. split; [done|]. split; [done|].
  by eapply set_range_len.
Qed.

(** Page 1 after both freelist fields are written. *)
Lemma patch_freelist_spec (p : Pager OS) b t c :
  coherent p -> logical p 1 = Ok b -> 512 <= len b -> is_u32 t -> is_u32 c ->
  exists p' b', patch_freelist t c p = (Ok tt, p') /\ updated p p' {[1 := b']} /\ len b' = len b /\
    read_be 4 b' PAGE_COUNT_OFFSET = read_be 4 b PAGE_COUNT_OFFSET /\
    read_be 4 b' FREELIST_TRUNK_PAGE_OFFSET = Some t /\ read_be 4 b' FREELIST_PAGE_COUNT_OFFSET = Some c /\
    forall lo hi, hi <= 32 \/ 40 <= lo -> get_range b' lo hi = get_range b lo hi.
Proof.
  intros Hc Hl Hlen Ht Hcn. unfold patch_freelist.
  pose proof (get_page_mut_spec 1 p Hc) as Hg. rewrite Hl in Hg. destruct Hg as (p1 & E1 & Hu1 & Hd1).
  rewrite (M_bind_ok _ _ _ _ _ E1).
  destruct (write_be_u32_ok b FREELIST_TRUNK_PAGE_OFFSET t) as (b1 & W1 & S1 & L1);
    [unfold FREELIST_TRUNK_PAGE_OFFSET; lia..|]. rewrite W1. cbn [map_err]. erewrite M_bind_ok by reflexivity.
  destruct (put_page_spec 1 b1 p1) as (p2 & E2 & Hu2); [by destruct Hu1 as (_ & ? & _)|by eexists|].
  rewrite (M_bind_ok _ _ _ _ _ E2).
  destruct (write_be_u32_ok b1 FREELIST_PAGE_COUNT_OFFSET c) as (b2 & W2 & S2 & L2);
    [unfold FREELIST_PAGE_COUNT_OFFSET; lia..|]. rewrite W2. cbn [map_err]. erewrite M_bind_ok by reflexivity.
  assert (is_Some (dirty p2 !! 1)) as Hd2.
  { injection E2 as <-. cbn. rewrite lookup_insert_eq. by eexists. }
  destruct (put_page_spec 1 b2 p2) as (p3 & E3 & Hu3); [by destruct Hu2 as (_ & ? & _)|done|].
  exists p3, b2. split; [done|]. split.
  { pose proof (updated_trans _ _ _ _ _ (updated_trans _ _ _ _ _ Hu1 Hu2) Hu3) as Hu.
    rewrite map_union_empty in Hu. by replace ({[1 := b2]} ∪ {[1 := b1]}) with ({[1 := b2]} : gmap Z (list Z)) in Hu
      by (rewrite <- insert_union_singleton_l, insert_singleton_eq; done). }
  split; [lia|]. pose proof (len_be_encode 4 t) as Lt. pose proof (len_be_encode 4 c) as Lc.
  unfold FREELIST_TRUNK_PAGE_OFFSET, FREELIST_PAGE_COUNT_OFFSET, PAGE_COUNT_OFFSET in *.
  split; [rewrite (read_be_set_ne 4 _ _ _ _ _ S2), (read_be_set_ne 4 _ _ _ _ _ S1) by lia; done|].
  split; [rewrite (read_be_set_ne 4 _ _ _ _ _ S2) by lia; by eapply read_be_set_eq|].
  split; [by eapply read_be_set_eq|]. intros lo hi Hr.
  rewrite (get_range_set_ne _ _ _ _ _ _ S2), (get_range_set_ne _ _ _ _ _ _ S1) by lia. done.
Qed.

Lemma write_trunk_spec (p : Pager OS) n b tr :
  coherent p -> logical p n = Ok b -> len b = pg_page_size p -> 512 <= pg_page_size p <= 65536 ->
  is_u32 (next_trunk tr) -> Forall is_u32 (leaves tr) ->
  len (leaves tr) <= max_leaves_per_trunk (pg_page_size p) ->
  exists p' b', write_trunk n tr p = (Ok tt, p') /\ updated p p' {[n := b']} /\
    len b' = pg_page_size p /\ Freelist.parse b' = Ok tr.
Proof.
  intros Hc Hl Hlen Hps Hn Hls Hm.
  destruct (write_parse tr b Hn Hls) as (b' & W & L' & P & _).
  { unfold max_leaves_per_trunk, sat_sub in Hm.
    pose proof (Z.mul_div_le (Z.max (pg_page_size p - 8) 0) 4 ltac:(lia)). lia. }
  { lia. }
  destruct (modify_page_spec (fun buf => map_err PFreelist (Freelist.write tr buf)) n p b b' Hc Hl) as (p' & E & Hu).
  { by rewrite W. }
  exists p', b'. split; [exact E|]. split; [done|]. split; [lia|done].
Qed.

(** ** Allocation and deallocation *)

Lemma last_snoc_rev (l : list Z) x xs : rev l = x :: xs -> pop_last l = Some (x, rev xs) /\ l = rev xs ++ [x].
Proof.
  intros E. assert (l = rev xs ++ [x]) as -> by (rewrite <- (rev_involutive l), E; done).
  unfold pop_last. rewrite last_snoc, removelast_last. done.
Qed.

Lemma updated_logical_1 (p p' : Pager OS) b' : updated p p' {[1 := b']} -> logical p' 1 = Ok b'.
Proof. intros (_ & _ & L). by rewrite L, lookup_singleton_eq. Qed.

Lemma updated_other (p p' : Pager OS) n b' m : updated p p' {[n := b']} -> m <> n -> logical p' m = logical p m.
Proof. intros (_ & _ & L) Hne. by rewrite L, lookup_singleton_ne. Qed.

(** The header bookkeeping both operations end with, over a state [p1] whose
    chain and stack are already the new ones. *)
Lemma finish p p1 cnt b1 t chain c touched :
  same_base p p1 -> coherent p1 -> 512 <= pg_page_size p <= 65536 -> 1 <= cnt <= U32_MAX ->
  logical p 1 = Ok b1 -> logical p1 1 = Ok b1 -> len b1 = pg_page_size p ->
  read_be 4 b1 PAGE_COUNT_OFFSET = Some cnt ->
  free_chain p1 t chain -> NoDup (stack chain) -> (forall n, n ∈ stack chain -> 2 <= n <= cnt) ->
  c = len (stack chain) -> c <= U32_MAX ->
  (forall n, n <> 1 -> n ∉ touched -> logical p1 n = logical p n) ->
  is_u32 t ->
  exists p', patch_freelist t c p1 = (Ok tt, p') /\ freelist p' cnt (stack chain) /\ touches p p' touched /\
    forall n, n <> 1 -> logical p' n = logical p1 n.
Proof.
  intros Hb Hc Hps Hcnt Hl Hl1 Hlen Hr Hch Hnd Hrange -> Hcu Hother Ht.
  assert (is_u32 (len (stack chain))) as Hc32.
  { pose proof (len_nonneg (stack chain)). unfold is_u32, U32_MAX in *. lia. }
  destruct (patch_freelist_spec p1 b1 t (len (stack chain)) Hc Hl1 ltac:(lia) Ht Hc32)
    as (p' & b' & E & Hu & L' & R1 & R2 & R3 & Hout). exists p'. split; [done|].
  pose proof Hu as (Hb' & Hc' & _). pose proof Hb as (_ & _ & _ & _ & _ & Ps & _).
  pose proof Hb' as (_ & _ & _ & _ & _ & Ps' & _). pose proof (updated_logical_1 _ _ _ Hu) as Hl1'.
  split; [|split].
  - split; [done|]. split; [by rewrite Ps', Ps|]. split; [done|]. split; [done|]. split; [done|].
    exists b', t, chain. split; [done|]. split; [rewrite L', Ps', Ps; done|]. split; [by rewrite R1|].
    split; [done|]. split; [done|]. split; [|done]. apply (free_chain_frame p1); [done|done|].
    intros u Hu'. eapply updated_other; [done|]. intros ->.
    apply list_elem_of_fmap in Hu' as ([u tr] & Hu1 & Hin). pose proof (chain_in_stack _ _ _ _ _ Hch Hin) as Hs.
    specialize (Hrange _ Hs). cbn in Hu1. lia.
  - split; [by eapply same_base_trans|]. split.
    + intros n Hn1 Hn. rewrite <- (Hother n Hn1 Hn). by eapply updated_other.
    + intros b b2 Hbl Hbl'. assert (b2 = b') as -> by congruence. assert (b = b1) as -> by congruence.
      split; [done|]. intros lo hi Hlh. apply Hout. unfold PAGE_COUNT_OFFSET in Hlh. lia.
  - intros n Hn. by eapply updated_other.
Qed.

Lemma stack_u32 cnt l : cnt <= U32_MAX -> (forall n, n ∈ l -> 2 <= n <= cnt) -> Forall is_u32 l.
Proof.
  intros Hc Hr. apply Forall_forall. intros n Hn. specialize (Hr n Hn). unfold is_u32, U32_MAX in *. lia.
Qed.

(** Distinct pages of the database are no more than its pages. *)
Lemma stack_bound cnt l : 0 <= cnt -> NoDup l -> (forall n, n ∈ l -> 2 <= n <= cnt) -> len l <= cnt.
Proof.
  intros H0 Hnd Hr. assert (l ⊆+ seqZ 0 (cnt + 1)) as Hs.
  { apply NoDup_submseteq; [done|]. intros n Hn. apply elem_of_seqZ. specialize (Hr n Hn). lia. }
  destruct l as [|x l]; [unfold len; cbn; lia|].
  assert (x :: l ⊆+ seqZ 2 (cnt - 1)) as Hs2.
  { apply NoDup_submseteq; [done|]. intros n Hn. apply elem_of_seqZ. specialize (Hr n Hn). lia. }
  apply submseteq_length in Hs2. rewrite length_seqZ in Hs2. unfold len. specialize (Hr x ltac:(by left)). lia.
Qed.

(** The anchor of a chain is 0 or a member of its stack. *)
Lemma anchor_u32 p t chain cnt :
  free_chain p t chain -> cnt <= U32_MAX -> (forall n, n ∈ stack chain -> 2 <= n <= cnt) -> is_u32 t.
Proof.
  intros Hc Hcu Hr. destruct Hc as [|t buf tr rest Ht Hl Hlen Hp Hm Hc]; [unfold is_u32; lia|].
  specialize (Hr t). rewrite stack_cons in Hr.
  destruct Hr as [H1 H2]; [apply elem_of_app; left; apply elem_of_app; right; by apply list_elem_of_singleton|].
  unfold is_u32, U32_MAX in *. lia.
Qed.

(** Popping: the last leaf of the first trunk, or the trunk itself when it has
    none left. *)
Lemma pop_trunk p t tr rest buf n F cnt :
  freelist p cnt (stack ((t, tr) :: rest)) -> free_chain p t ((t, tr) :: rest) ->
  logical p t = Ok buf -> stack ((t, tr) :: rest) = n :: F ->
  exists p1 t' chain',
    (match pop_last (leaves tr) with
     | Some (leaf, ls) => _ ← write_trunk t (MkTrunk (next_trunk tr) ls); mret (leaf, t)
     | None => mret (t, next_trunk tr)
     end) p = (Ok (n, t'), p1) /\
    same_base p p1 /\ coherent p1 /\ free_chain p1 t' chain' /\ stack chain' = F /\
    (forall m, m <> t -> logical p1 m = logical p m) /\ readable p1 t.
Proof.
  intros (Hc & Hps & Hcnt & Hnd & Hr & _) Hch Hl Hst. pose proof (trunk_not_below _ _ _ _ Hch Hnd) as Hnb.
  inversion Hch as [|t0 buf0 tr0 rest0 Ht Hl0 Hlen Hp Hm Hrest E1 E2]; subst.
  assert (buf0 = buf) as -> by congruence. rewrite stack_cons in Hst.
  pose proof (stack_u32 cnt _ ltac:(lia) Hr) as Hu. rewrite stack_cons in Hu.
  apply Forall_app in Hu as [Hu1 Hu2]. apply Forall_app in Hu1 as [Hu1 _].
  assert (is_u32 (next_trunk tr)) as Hnx.
  { apply (anchor_u32 p _ rest cnt Hrest); [lia|]. intros m Hm'. apply Hr. rewrite stack_cons. apply elem_of_app. by right. }
  destruct (rev (leaves tr)) as [|x xs] eqn:Erev.
  - assert (leaves tr = []) as El by (rewrite <- (rev_involutive (leaves tr)), Erev; done).
    rewrite El. cbn [pop_last last]. injection Hst as <- <-.
    exists p, (next_trunk tr), rest. split; [done|]. split; [apply same_base_refl|].
    do 4 (split; [done|]). by exists buf.
  - destruct (last_snoc_rev _ _ _ Erev) as [-> El]. injection Hst as <- <-.
    assert (Forall is_u32 (rev xs)) as Hxs by (apply Forall_rev; by inversion Hu1).
    destruct (write_trunk_spec p t buf (MkTrunk (next_trunk tr) (rev xs)) Hc Hl Hlen Hps Hnx Hxs) as (p1 & b' & E & Hup & L' & P').
    { cbn [leaves]. rewrite El in Hm. unfold len in *. rewrite length_app in Hm. lia. }
    rewrite (M_bind_ok _ _ _ _ _ E). pose proof Hup as (Hb & Hc1 & _).
    exists p1, t, ((t, MkTrunk (next_trunk tr) (rev xs)) :: rest). split; [done|]. split; [done|]. split; [done|].
    pose proof Hb as (_ & _ & _ & _ & _ & Ps & _). split; [|split; [|split]].
    + apply (chain_trunk _ t b' (MkTrunk (next_trunk tr) (rev xs))); [done| |by rewrite Ps|done| |].
      * destruct Hup as (_ & _ & L). by rewrite L, lookup_singleton_eq.
      * cbn [leaves]. rewrite El in Hm. rewrite Ps. unfold len in *. rewrite length_app in Hm. lia.
      * apply (free_chain_frame p); [done|done|]. intros u Hin. eapply updated_other; [done|]. by intros ->.
    + rewrite stack_cons. cbn [leaves]. by rewrite rev_involutive.
    + intros m Hm'. by eapply updated_other.
    + exists b'. split; [|by rewrite Ps]. destruct Hup as (_ & _ & L). by rewrite L, lookup_singleton_eq.
Qed.

(** Pushing makes the page a trunk of its own in front of the chain... *)
Lemma push_trunk p t chain n bn cnt :
  coherent p -> 512 <= pg_page_size p <= 65536 -> is_u32 t -> cnt <= U32_MAX -> 2 <= n <= cnt ->
  free_chain p t chain -> n ∉ stack chain -> logical p n = Ok bn -> len bn = pg_page_size p ->
  exists p1 chain', write_trunk n (MkTrunk t []) p = (Ok tt, p1) /\
    same_base p p1 /\ coherent p1 /\ free_chain p1 n chain' /\ stack chain' = n :: stack chain /\
    (forall m, m <> n -> logical p1 m = logical p m).
Proof.
  intros Hc Hps Ht Hcu Hn Hch Hni Hl Hlen.
  destruct (write_trunk_spec p n bn (MkTrunk t []) Hc Hl Hlen Hps Ht ltac:(constructor)) as (p1 & b' & E & Hu & L' & P').
  { cbn [leaves]. unfold max_leaves_per_trunk, sat_sub. rewrite len_nil. apply Z.div_pos; lia. }
  pose proof Hu as (Hb & Hc1 & _). pose proof Hb as (_ & _ & _ & _ & _ & Ps & _).
  exists p1, ((n, MkTrunk t []) :: chain). do 3 (split; [done|]). split; [|split; [done|]].
  - apply (chain_trunk _ n b' (MkTrunk t [])); [lia| |by rewrite Ps|done| |].
    + destruct Hu as (_ & _ & L). by rewrite L, lookup_singleton_eq.
    + cbn [leaves]. unfold max_leaves_per_trunk, sat_sub. rewrite len_nil. apply Z.div_pos; lia.
    + apply (free_chain_frame p); [done|done|]. intros u Hin. eapply updated_other; [done|]. intros ->.
      apply list_elem_of_fmap in Hin as ([u tr] & Hu1 & Hin). cbn in Hu1. subst. by apply Hni; eapply chain_in_stack.
  - intros m Hm. by eapply updated_other.
Qed.

(** ... or the last leaf of the first trunk, when that has room. *)
Lemma push_leaf p t tr rest n cnt :
  coherent p -> 512 <= pg_page_size p <= 65536 -> cnt <= U32_MAX -> 2 <= n <= cnt ->
  NoDup (stack ((t, tr) :: rest)) -> (forall m, m ∈ stack ((t, tr) :: rest) -> 2 <= m <= cnt) ->
  free_chain p t ((t, tr) :: rest) -> len (leaves tr) < max_leaves_per_trunk (pg_page_size p) ->
  exists p1 chain', write_trunk t (MkTrunk (next_trunk tr) (leaves tr ++ [n])) p = (Ok tt, p1) /\
    same_base p p1 /\ coherent p1 /\ free_chain p1 t chain' /\
    stack chain' = n :: stack ((t, tr) :: rest) /\ (forall m, m <> t -> logical p1 m = logical p m).
Proof.
  intros Hc Hps Hcu Hn Hnd Hr Hch Hroom. pose proof (trunk_not_below _ _ _ _ Hch Hnd) as Hnb.
  inversion Hch as [|t0 buf tr0 rest0 Ht Hl Hlen Hp Hm Hrest E1 E2]; subst.
  assert (Forall is_u32 (leaves tr ++ [n])) as Hu32.
  { apply (stack_u32 cnt); [done|]. intros m [Hin|Hin]%elem_of_app.
    - apply Hr. rewrite stack_cons. apply elem_of_app. left. apply elem_of_app. left.
      apply list_elem_of_In, in_rev. rewrite rev_involutive. by apply list_elem_of_In.
    - apply list_elem_of_singleton in Hin as ->. done. }
  assert (is_u32 (next_trunk tr)) as Hnx.
  { apply (anchor_u32 p _ rest cnt Hrest); [lia|]. intros m Hm'. apply Hr. rewrite stack_cons. apply elem_of_app. by right. }
  assert (len (leaves tr ++ [n]) <= max_leaves_per_trunk (pg_page_size p)) as Hfit.
  { rewrite len_app. unfold len at 2. cbn [length]. lia. }
  destruct (write_trunk_spec p t buf (MkTrunk (next_trunk tr) (leaves tr ++ [n])) Hc Hl Hlen Hps Hnx Hu32 Hfit)
    as (p1 & b' & E & Hu & L' & P').
  pose proof Hu as (Hb & Hc1 & _). pose proof Hb as (_ & _ & _ & _ & _ & Ps & _).
  exists p1, ((t, MkTrunk (next_trunk tr) (leaves tr ++ [n])) :: rest). do 3 (split; [done|]). split; [|split].
  - apply (chain_trunk _ t b' (MkTrunk (next_trunk tr) (leaves tr ++ [n]))); [done| |by rewrite Ps|done|by rewrite Ps|].
    + destruct Hu as (_ & _ & L). by rewrite L, lookup_singleton_eq.
    + apply (free_chain_frame p); [done|done|]. intros u Hin. eapply updated_other; [done|]. by intros ->.
  - rewrite !stack_cons. cbn [leaves]. by rewrite rev_app_distr.
  - intros m Hm'. by eapply updated_other.
Qed.

(** The whole choice [deallocate_page] makes. *)
Lemma push_step p cnt n bn t chain :
  coherent p -> 512 <= pg_page_size p <= 65536 -> cnt <= U32_MAX -> 2 <= n <= cnt ->
  NoDup (stack chain) -> (forall m, m ∈ stack chain -> 2 <= m <= cnt) -> free_chain p t chain ->
  n ∉ stack chain -> logical p n = Ok bn -> len bn = pg_page_size p ->
  exists t' chain' p1,
    (if negb (t =? 0) then
      trunk_buf ← read_page_p t;
      trunk ← lift (map_err PFreelist (Freelist.parse trunk_buf));
      if len (leaves trunk) <? max_leaves_per_trunk (pg_page_size p) then
        _ ← write_trunk t (MkTrunk (next_trunk trunk) (leaves trunk ++ [n])); mret t
      else _ ← write_trunk n (MkTrunk t []); mret n
     else _ ← write_trunk n (MkTrunk 0 []); mret n) p = (Ok t', p1) /\
    same_base p p1 /\ coherent p1 /\ free_chain p1 t' chain' /\ stack chain' = n :: stack chain /\
    t' ∈ (n :: stack chain) /\ (forall m, m <> t' -> logical p1 m = logical p m).
Proof.
  intros Hc Hps Hcu Hn Hnd Hr Hch Hni Hl Hlen. pose proof (anchor_u32 p t chain cnt Hch Hcu Hr) as Ht32.
  destruct Hch as [|t buf tr rest Ht Hlt Hlb Hp Hm Hrest].
  - destruct (push_trunk p 0 [] n bn cnt Hc Hps Ht32 Hcu Hn (chain_end p) Hni Hl Hlen)
      as (p1 & chain' & E & B & C & Hch' & Hst & L).
    exists n, chain', p1. cbn [Z.eqb negb]. rewrite (M_bind_ok _ _ _ _ _ E).
    do 5 (split; [done|]). split; [by left|done].
  - pose proof (chain_trunk p t buf tr rest Ht Hlt Hlb Hp Hm Hrest) as Hch.
    rewrite (proj2 (Z.eqb_neq t 0)) by done. cbn [negb].
    destruct (read_page_p_spec t p buf Hc Ht32 Hlt) as (pa & Ea & Ba & Ca & La).
    assert (forall m, logical pa m = logical p m) as La' by (intros m; by rewrite La, lookup_empty).
    pose proof Ba as (_ & _ & _ & _ & _ & Psa & _).
    assert (free_chain pa t ((t, tr) :: rest)) as Hcha by (apply (free_chain_frame p); auto).
    rewrite (M_bind_ok _ _ _ _ _ Ea), Hp. cbn [map_err]. erewrite M_bind_ok by reflexivity.
    assert (512 <= pg_page_size pa <= 65536) as Hpsa by lia.
    destruct (Z.ltb_spec (len (leaves tr)) (max_leaves_per_trunk (pg_page_size p))) as [Hroom|_].
    + destruct (push_leaf pa t tr rest n cnt Ca Hpsa Hcu Hn Hnd Hr Hcha ltac:(by rewrite Psa))
        as (p1 & chain' & E & B & C & Hch' & Hst & L).
      exists t, chain', p1. rewrite (M_bind_ok _ _ _ _ _ E). split; [done|].
      split; [by eapply same_base_trans|]. do 3 (split; [done|]). split.
      * right. rewrite stack_cons. apply elem_of_app. left. apply elem_of_app. right. by apply list_elem_of_singleton.
      * intros m Hm'. by rewrite L, La'.
    + destruct (push_trunk pa t ((t, tr) :: rest) n bn cnt Ca Hpsa Ht32 Hcu Hn Hcha Hni
        ltac:(by rewrite La') ltac:(by rewrite Psa)) as (p1 & chain' & E & B & C & Hch' & Hst & L).
      exists n, chain', p1. rewrite (M_bind_ok _ _ _ _ _ E). split; [done|].
      split; [by eapply same_base_trans|]. do 3 (split; [done|]). split; [by left|].
      intros m Hm'. by rewrite L, La'.
Qed.

End Chain.

Lemma bind_lift_ok {S E A B} (a : A) (f : A -> M S E B) s : (lift (Ok a) ≫= f) s = f a s.
Proof. done. Qed.

(** A page put among the dirty ones directly, as extension does. *)
Lemma fresh_page_updated {OS} (p : Pager OS) n b :
  coherent p -> cached (page_cache p) n = None ->
  updated p (set_dirty p (<[n := b]> (dirty p))) {[n := b]}.
Proof.
  intros Hc Hn. split; [by repeat split|]. split.
  - intros q x Hq. change (cached (page_cache p) q = Some x) in Hq. destruct (Hc q x Hq) as [[H0 H1] H2].
    split; [|done]. split; [done|]. cbn. rewrite lookup_insert_ne by congruence. done.
  - intros q. unfold logical. cbn [dirty set_dirty]. destruct (decide (q = n)) as [->|Hne].
    + by rewrite lookup_insert_eq, lookup_singleton_eq.
    + by rewrite lookup_insert_ne, lookup_singleton_ne by done.
Qed.

(** A header field, read from page 1's buffer. *)
Ltac read_field R :=
  let E := fresh in pose proof (fun H0 H1 => read_be_u32_eq _ _ _ H0 H1 R) as E;
  rewrite E by (by vm_compute); clear E; cbn [map_err]; rewrite bind_lift_ok.

(** Allocation with free pages. *)
Lemma pop_spec `{host : Host} {OS} `{Fcntl OS} (p : Pager OS) cnt n F :
  freelist p cnt (n :: F) ->
  exists p' t, allocate_page p = (Ok n, p') /\ freelist p' cnt F /\ (n ∉ F) /\
    touches p p' [t] /\ t ∈ (n :: F) /\ readable p' t.
Proof.
  intros Hf. pose proof Hf as (Hc & Hps & Hcnt & Hnd & Hr & b1 & t & chain & Hl1 & Len1 & R1 & R2 & R3 & Hch & Hst).
  destruct (chain_head p t chain Hch) as (tr & rest & ->); [by intros ->|].
  inversion Hch as [|t0 buf tr0 rest0 Ht Hl Hlen Hp Hm Hrest E1 E2]; subst.
  assert (t ∈ (n :: F)) as Htin.
  { rewrite Hst, stack_cons. apply elem_of_app. left. apply elem_of_app. right. by apply list_elem_of_singleton. }
  pose proof (Hr _ Htin) as Htr.
  destruct (read_page_p_spec 1 p b1 Hc ltac:(unfold is_u32; lia) Hl1) as (pa & Ea & Ba & Ca & La).
  assert (forall m, logical pa m = logical p m) as La' by (intros m; by rewrite La, lookup_empty).
  destruct (read_page_p_spec t pa buf Ca ltac:(unfold is_u32, U32_MAX in *; lia) ltac:(by rewrite La')) as (pb & Eb & Bb & Cb & Lb).
  assert (forall m, logical pb m = logical p m) as Lb' by (intros m; by rewrite Lb, lookup_empty).
  pose proof (same_base_trans _ _ _ Ba Bb) as Bab. pose proof Bab as (_ & _ & _ & _ & _ & Ps & _).
  assert (free_chain pb t ((t, tr) :: rest)) as Hchb by (apply (free_chain_frame p); auto).
  assert (freelist pb cnt (stack ((t, tr) :: rest))) as Hfb.
  { rewrite <- Hst. split; [done|]. split; [by rewrite Ps|]. split; [done|]. split; [done|]. split; [done|].
    exists b1, t, ((t, tr) :: rest). rewrite Lb', Ps. done. }
  destruct (pop_trunk pb t tr rest buf n F cnt Hfb Hchb) as (p1 & t' & chain' & E1 & B1 & C1 & Hch1 & Hst1 & L1 & (bt & Lt & Lent));
    [by rewrite Lb'|done|].
  assert (forall m, m ∈ stack chain' -> 2 <= m <= cnt) as Hr1 by (rewrite Hst1; intros m Hin; apply Hr; by right).
  pose proof (len_nonneg F). rewrite len_cons in R3.
  assert (NoDup (stack chain')) as Hnd1 by (rewrite Hst1; by inversion Hnd).
  pose proof (stack_bound cnt _ ltac:(lia) Hnd1 Hr1) as Hsb.
  assert (sat_sub (1 + len F) 1 = len (stack chain')) as Hcn by (rewrite Hst1; unfold sat_sub; lia).
  assert (forall m, m <> 1 -> m ∉ [t] -> logical p1 m = logical p m) as Hoth.
  { intros m _ Hmt. rewrite L1, Lb'; [done|]. intros ->. apply Hmt. by apply list_elem_of_singleton. }
  destruct (finish p p1 cnt b1 t' chain' (sat_sub (1 + len F) 1) [t] (same_base_trans _ _ _ Bab B1) C1 Hps Hcnt Hl1
    ltac:(by rewrite L1, Lb' by lia) Len1 R1 Hch1 Hnd1 Hr1 Hcn ltac:(lia) Hoth
    ltac:(by eapply anchor_u32; [done| |done]; lia)) as (p' & Ep & Hf' & Htch & Lp').
  exists p', t. rewrite <- Hst1 at 1. split; [|split; [done|split; [by inversion Hnd|split; [done|split; [done|]]]]].
  2:{ exists bt. pose proof Htch as ((_ & _ & _ & _ & _ & Psp & _) & _). rewrite Lp' by lia. split; [done|].
      pose proof B1 as (_ & _ & _ & _ & _ & Ps1 & _). by rewrite Psp, <- Ps, <- Ps1. }
  unfold allocate_page. rewrite (M_bind_ok _ _ _ _ _ Ea). read_field R1. read_field R2. read_field R3.
  rewrite (proj2 (Z.eqb_neq t 0)) by done. rewrite (M_bind_ok _ _ _ _ _ Eb), Hp. cbn [map_err].
  erewrite M_bind_ok by reflexivity. rewrite (M_bind_ok _ _ _ _ _ E1), (M_bind_ok _ _ _ _ _ Ep). done.
Qed.

(** Allocation without. *)
Lemma extend_spec `{host : Host} {OS} `{Fcntl OS} (p : Pager OS) cnt :
  freelist p cnt [] -> cnt < U32_MAX ->
  (forall b, source_read (vfs p) (pg_page_size p) (cnt + 1) <> Ok b) ->
  exists p', allocate_page p = (Ok (cnt + 1), p') /\ freelist p' (cnt + 1) [] /\
    logical p' (cnt + 1) = Ok (zeros (pg_page_size p)) /\ touches p p' [cnt + 1].
Proof.
  intros (Hc & Hps & Hcnt & _ & _ & b1 & t & chain & Hl1 & Len1 & R1 & R2 & R3 & Hch & Hst) Hlt Hnc.
  assert (t = 0) as ->.
  { destruct Hch; [done|]. rewrite stack_cons in Hst. by destruct (rev (leaves tr)). }
  destruct (read_page_p_spec 1 p b1 Hc ltac:(unfold is_u32; lia) Hl1) as (pa & Ea & Ba & Ca & La).
  unfold allocate_page. rewrite (M_bind_ok _ _ _ _ _ Ea). read_field R1. read_field R2. read_field R3. cbn [Z.eqb].
  unfold sat_add32. rewrite Z.min_l by lia. erewrite M_bind_ok by reflexivity.
  set (pz := set_dirty pa _).
  assert (updated pa pz {[cnt + 1 := zeros (pg_page_size pa)]}) as Hz.
  { apply fresh_page_updated; [done|]. destruct (cached (page_cache pa) (cnt + 1)) as [b|] eqn:Ecb; [|done].
    destruct (Ca _ _ Ecb) as [_ Hsr]. destruct Ba as (Ev & _ & _ & _ & _ & Ep & _). rewrite Ev, Ep in Hsr. by apply Hnc in Hsr. }
  pose proof Hz as (Bz & Cz & Lz). pose proof Ba as (_ & _ & _ & _ & _ & Psa & _). pose proof Bz as (_ & _ & _ & _ & _ & Psz & _).
  assert (forall m, m <> cnt + 1 -> logical pz m = logical p m) as Lz'.
  { intros m Hm. rewrite (updated_other _ _ _ _ _ Hz Hm). by rewrite La, lookup_empty. }
  destruct (write_be_u32_ok b1 PAGE_COUNT_OFFSET (cnt + 1)) as (b2 & W & S2 & L2); [unfold PAGE_COUNT_OFFSET; lia..|].
  destruct (modify_page_spec (fun buf => map_err PFreelist (write_be_u32 buf PAGE_COUNT_OFFSET (cnt + 1))) 1 pz b1 b2 Cz)
    as (p' & E & Hu); [rewrite Lz' by lia; done|by rewrite W|].
  exists p'. split; [unfold patch_u32; by rewrite (M_bind_ok _ _ _ _ _ E)|].
  pose proof Hu as (Bu & Cu & _). pose proof Bu as (_ & _ & _ & _ & _ & Psu & _).
  pose proof (updated_logical_1 _ _ _ Hu) as L1'. pose proof (len_be_encode 4 (cnt + 1)) as Le.
  unfold PAGE_COUNT_OFFSET, FREELIST_TRUNK_PAGE_OFFSET, FREELIST_PAGE_COUNT_OFFSET, U32_MAX in *.
  split; [|split].
  - split; [done|]. split; [rewrite Psu, Psz, Psa; lia|]. split; [unfold U32_MAX; lia|].
    split; [constructor|]. split; [by intros ? ?%elem_of_nil|].
    exists b2, 0, []. split; [done|]. split; [rewrite Psu, Psz, Psa; lia|].
    split; [eapply read_be_set_eq; [exact S2|lia]|].
    split; [rewrite (read_be_set_ne 4 _ _ _ _ _ S2) by (rewrite Le; unfold FREELIST_TRUNK_PAGE_OFFSET, FREELIST_PAGE_COUNT_OFFSET; lia); done|].
    split; [rewrite (read_be_set_ne 4 _ _ _ _ _ S2) by (rewrite Le; unfold FREELIST_TRUNK_PAGE_OFFSET, FREELIST_PAGE_COUNT_OFFSET; lia); done|]. split; [constructor|done].
  - rewrite (updated_other _ _ _ _ _ Hu) by lia. by rewrite Lz, lookup_singleton_eq, Psa.
  - split; [by eapply same_base_trans; [|by eapply same_base_trans]|]. split.
    + intros n Hn Hnt. rewrite (updated_other _ _ _ _ _ Hu) by done. apply Lz'. intros ->. apply Hnt. by left.
    + intros b b' Hb Hb'. assert (b' = b2) as -> by congruence. assert (b = b1) as -> by congruence.
      split; [lia|]. intros lo hi Hlh. rewrite (get_range_set_ne _ _ _ _ _ _ S2); [done|]. rewrite Le.
      unfold PAGE_COUNT_OFFSET in Hlh. lia.
Qed.

(** Deallocation. *)
Lemma push_spec `{host : Host} {OS} `{Fcntl OS} (p : Pager OS) cnt n F bn :
  freelist p cnt F -> 2 <= n <= cnt -> n ∉ F -> logical p n = Ok bn -> len bn = pg_page_size p ->
  exists p' t, deallocate_page n p = (Ok tt, p') /\ freelist p' cnt (n :: F) /\ touches p p' [t] /\ t ∈ (n :: F) /\ readable p' t.
Proof.
  intros (Hc & Hps & Hcnt & Hnd & Hr & b1 & t & chain & Hl1 & Len1 & R1 & R2 & R3 & Hch & Hst) Hn Hni Hln Hlen.
  destruct (read_page_p_spec 1 p b1 Hc ltac:(unfold is_u32; lia) Hl1) as (pa & Ea & Ba & Ca & La).
  assert (forall m, logical pa m = logical p m) as La' by (intros m; by rewrite La, lookup_empty).
  pose proof Ba as (_ & _ & _ & _ & _ & Psa & _).
  assert (free_chain pa t chain) as Hcha by (apply (free_chain_frame p); auto). subst F.
  destruct (push_step pa cnt n bn t chain Ca ltac:(by rewrite Psa) ltac:(lia) Hn Hnd Hr Hcha Hni
    ltac:(by rewrite La') ltac:(by rewrite Psa)) as (t' & chain' & p1 & E1 & B1 & C1 & Hch1 & Hst1 & Ht' & L1).
  assert (forall m, m ∈ stack chain' -> 2 <= m <= cnt) as Hr1.
  { rewrite Hst1. intros m [->|Hin]%elem_of_cons; [done|by apply Hr]. }
  assert (NoDup (stack chain')) as Hnd1 by (rewrite Hst1; by constructor).
  pose proof (stack_bound cnt _ ltac:(lia) Hnd1 Hr1) as Hsb. rewrite Hst1, len_cons in Hsb.
  assert (sat_add32 (len (stack chain)) 1 = len (stack chain')) as Hcn.
  { rewrite Hst1, len_cons. unfold sat_add32, U32_MAX in *. lia. }
  pose proof (Hr1 t' ltac:(by rewrite Hst1)) as Ht2.
  assert (forall m, m <> 1 -> m ∉ [t'] -> logical p1 m = logical p m) as Hoth.
  { intros m _ Hmt. rewrite L1, La'; [done|]. intros ->. apply Hmt. by left. }
  destruct (finish p p1 cnt b1 t' chain' (sat_add32 (len (stack chain)) 1) [t'] (same_base_trans _ _ _ Ba B1) C1 Hps Hcnt Hl1
    ltac:(by rewrite L1, La' by lia) Len1 R1 Hch1 Hnd1 Hr1 Hcn ltac:(unfold sat_add32; lia) Hoth
    ltac:(unfold is_u32, U32_MAX in *; lia)) as (p' & Ep & Hf' & Htch & Lp').
  exists p', t'. assert (t' <> 1 /\ readable p1 t') as [Ht1 (bt & Lt & Lent)].
  { destruct Hch1; [done|]. split; [lia|]. by eexists. }
  assert (readable p' t') as Hrt.
  { exists bt. rewrite Lp' by lia. split; [done|]. pose proof Htch as ((_ & _ & _ & _ & _ & Psp & _) & _).
    pose proof B1 as (_ & _ & _ & _ & _ & Ps1 & _). by rewrite Psp, <- Psa, <- Ps1. }
  rewrite Hst1 in Hf'. split; [|by split; [|split; [|split]]].
  unfold deallocate_page. rewrite (M_bind_ok _ _ _ _ _ Ea). read_field R2. read_field R3.
  erewrite M_bind_ok by reflexivity. cbv zeta. rewrite (M_bind_ok _ _ _ _ _ E1). exact Ep.
Qed.

(** ** The pages of a database *)

Section Store.
Context `{host : Host} {OS : Type} `{Fcntl OS}.

(** [cnt] full pages, the pages of [F] free, and no page of the main file past
    the count. *)
Definition store (p : Pager OS) (cnt : Z) (F : list Z) : Prop :=
  freelist p cnt F /\ (forall n, 1 <= n <= cnt -> readable p n) /\
  (forall n b, cnt < n -> source_read (vfs p) (pg_page_size p) n <> Ok b).

(** Where a page's b-tree content starts. *)
Definition content_offset (n : Z) : Z := if n =? 1 then 100 else 0.

(** The b-tree content of page [n] is the same for both. *)
Definition same_content (p p' : Pager OS) (n : Z) : Prop :=
  forall b, logical p n = Ok b -> exists b', logical p' n = Ok b' /\ same_from (content_offset n) b b'.

Lemma same_content_eq p p' n : logical p' n = logical p n -> same_content p p' n.
Proof. intros E b Hb. exists b. rewrite E. done. Qed.

Lemma same_content_trans p1 p2 p3 n : same_content p1 p2 n -> same_content p2 p3 n -> same_content p1 p3 n.
Proof.
  intros H1 H2 b Hb. destruct (H1 b Hb) as (b' & Hb' & L1 & R1). destruct (H2 b' Hb') as (b'' & Hb'' & L2 & R2).
  exists b''. split; [done|]. split; [congruence|]. intros lo hi Hlo. rewrite R2, R1 by done. done.
Qed.

Lemma store_coherent p cnt F : store p cnt F -> coherent p.
Proof. by intros ((? & _) & _). Qed.

Lemma store_page_size p cnt F : store p cnt F -> 512 <= pg_page_size p <= 65536.
Proof. by intros ((_ & ? & _) & _). Qed.

Lemma same_base_size (p p' : Pager OS) : same_base p p' -> pg_page_size p' = pg_page_size p.
Proof. by intros (_ & _ & _ & _ & _ & ? & _). Qed.

Lemma touches_content p p' touched cnt F cnt' F' n :
  touches p p' touched -> freelist p cnt F -> freelist p' cnt' F' -> n ∉ touched -> same_content p p' n.
Proof.
  intros (_ & Hother & H1) (_ & _ & _ & _ & _ & b1 & _ & _ & Hb1 & _) (_ & _ & _ & _ & _ & b1' & _ & _ & Hb1' & _) Hn.
  destruct (decide (n = 1)) as [->|Hne]; [|apply same_content_eq; by apply Hother].
  intros b Hb. exists b1'. split; [done|]. destruct (H1 b b1' Hb Hb1') as [HL HR]. split; [done|].
  intros lo hi Hlo. apply HR. cbn in Hlo. lia.
Qed.

(** Allocation: a page nobody uses becomes readable, the rest of the database
    keeps its content. *)
Lemma alloc_spec p cnt F :
  store p cnt F -> cnt < U32_MAX ->
  exists n p' cnt' F', allocate_page p = (Ok n, p') /\ store p' cnt' F' /\ same_base p p' /\
    2 <= n <= cnt' /\ cnt <= cnt' <= cnt + 1 /\ (n ∈ F \/ cnt < n) /\ (n ∉ F') /\ F' ⊆ F /\
    (forall m, m ∉ F -> m <> n -> same_content p p' m).
Proof.
  intros (Hf & Hrd & Hsrc) Hlt. destruct F as [|n F].
  - destruct (extend_spec p cnt Hf Hlt) as (p' & E & Hf' & Hz & Ht); [intros b; apply Hsrc; lia|].
    pose proof Ht as (Hb & Hother & _). pose proof (same_base_size _ _ Hb) as Ps.
    pose proof Hf as (_ & Hps & Hcnt & _).
    exists (cnt + 1), p', (cnt + 1), []. split; [done|]. split.
    { split; [done|]. split.
      - intros m Hm. destruct (decide (m = cnt + 1)) as [->|Hne].
        { exists (zeros (pg_page_size p)). split; [done|]. rewrite Ps. apply len_zeros. lia. }
        destruct (decide (m = 1)) as [->|Hm1].
        { destruct Hf' as (_ & _ & _ & _ & _ & b1 & _ & _ & Hb1 & Hl1 & _). by exists b1. }
        destruct (Hrd m ltac:(lia)) as (b & Hb1 & Hl). exists b. rewrite Hother, Ps; [done|done|].
        by intros ?%list_elem_of_singleton.
      - intros m b Hm. pose proof Hb as (Ev & _). rewrite Ev, Ps. apply Hsrc. lia. }
    split; [done|]. split; [lia|]. split; [lia|]. split; [right; lia|]. split; [by intros ?%elem_of_nil|]. split; [done|].
    intros m _ Hm. eapply touches_content; [done..|]. by intros ?%list_elem_of_singleton.
  - destruct (pop_spec p cnt n F Hf) as (p' & t & E & Hf' & Hn & Ht & Hin & Hrt).
    pose proof Ht as (Hb & Hother & _). pose proof (same_base_size _ _ Hb) as Ps.
    pose proof Hf as (_ & Hps & Hcnt & _ & Hr & _).
    exists n, p', cnt, F. split; [done|]. split.
    { split; [done|]. split.
      - intros m Hm. destruct (decide (m = t)) as [->|Hne]; [done|]. destruct (decide (m = 1)) as [->|Hm1].
        { destruct Hf' as (_ & _ & _ & _ & _ & b1 & _ & _ & Hb1 & Hl1 & _). by exists b1. }
        destruct (Hrd m ltac:(lia)) as (b & Hb1 & Hl). exists b. rewrite Hother, Ps; [done|done|].
        by intros ?%list_elem_of_singleton.
      - intros m b Hm. pose proof Hb as (Ev & _). rewrite Ev, Ps. apply Hsrc. lia. }
    split; [done|]. split; [apply Hr; by left|]. split; [lia|]. split; [left; by left|]. split; [done|].
    split; [by intros m ?; right|]. intros m Hm _. eapply touches_content; [done..|].
    intros ->%list_elem_of_singleton. done.
Qed.

(** Writing the content of a page that is not free. *)
Lemma store_write p p' cnt F n b b' :
  store p cnt F -> updated p p' {[n := b']} -> n ∉ F -> 1 <= n <= cnt ->
  logical p n = Ok b -> len b' = len b -> (forall lo hi, hi <= content_offset n -> get_range b' lo hi = get_range b lo hi) ->
  store p' cnt F.
Proof.
  intros (Hf & Hrd & Hsrc) Hu Hn Hrange Hb Hlen Hpre. pose proof Hu as (Hbase & Hc' & _).
  pose proof (same_base_size _ _ Hbase) as Ps. pose proof (Hrd n Hrange) as (b0 & Hb0 & Hlb).
  assert (b0 = b) as -> by congruence.
  assert (logical p' n = Ok b') as Hb' by (destruct Hu as (_ & _ & L); by rewrite L, lookup_singleton_eq).
  split; [|split].
  - destruct Hf as (_ & Hps & Hcnt & Hnd & Hr & b1 & t & chain & Hl1 & Len1 & R1 & R2 & R3 & Hch & Hst).
    split; [done|]. split; [by rewrite Ps|]. split; [done|]. split; [done|]. split; [done|].
    assert (free_chain p' t chain) as Hch'.
    { apply (free_chain_frame p); [done|done|]. intros u Hin. eapply updated_other; [done|]. intros ->. apply Hn.
      rewrite Hst. apply list_elem_of_fmap in Hin as ([u tr] & -> & Hin). by eapply chain_in_stack. }
    destruct (decide (n = 1)) as [->|Hne].
    + assert (b1 = b) as -> by congruence. exists b', t, chain. cbn in Hpre.
      assert (forall off, off + 4 <= 100 -> read_be 4 b' off = read_be 4 b off) as Hrb
        by (intros off Hoff; unfold read_be; by rewrite Hpre by lia).
      unfold PAGE_COUNT_OFFSET, FREELIST_TRUNK_PAGE_OFFSET, FREELIST_PAGE_COUNT_OFFSET in *.
      rewrite !Hrb by lia. rewrite Ps, Hlen. done.
    + exists b1, t, chain. rewrite (updated_other _ _ _ _ 1 Hu) by done. rewrite Ps. done.
  - intros m Hm. destruct (decide (m = n)) as [->|Hne]; [exists b'; rewrite Ps; split; [done|lia]|].
    destruct (Hrd m Hm) as (bm & Hbm & Hlm). exists bm. rewrite (updated_other _ _ _ _ m Hu), Ps by done. done.
  - intros m x Hm. pose proof Hbase as (Ev & _). rewrite Ev, Ps. by apply Hsrc.
Qed.

End Store.

(** ** Properties *)

(** C35. Allocation pops the freelist: on a database whose freelist holds the
    pages [n :: F], [allocate_page] returns [n], the freelist then holds
    exactly [F] (so [n] is not handed out again), and no page but the first
    trunk and page 1's counters changes. *)
Theorem allocate_page_pops `{host : Host} {OS} `{Fcntl OS} (p : Pager OS) cnt n F :
  freelist p cnt (n :: F) ->
  exists p' t, allocate_page p = (Ok n, p') /\ freelist p' cnt F /\ (n ∉ F) /\
    touches p p' [t] /\ t ∈ (n :: F).
Proof.
  intros Hf. destruct (pop_spec p cnt n F Hf) as (p' & t & E & Hf' & Hn & Ht & Hin & _). by exists p', t.
Qed.

(** With an empty freelist allocation extends the database: it returns the
    page after the last one, which then reads as zeros, and the page count on
    page 1 grows by one.  (The count must be below its 32-bit limit, and the
    main file must not already extend past it.) *)
Theorem allocate_page_extends `{host : Host} {OS} `{Fcntl OS} (p : Pager OS) cnt :
  freelist p cnt [] -> cnt < U32_MAX ->
  (forall b, source_read (vfs p) (pg_page_size p) (cnt + 1) <> Ok b) ->
  exists p', allocate_page p = (Ok (cnt + 1), p') /\ freelist p' (cnt + 1) [] /\
    logical p' (cnt + 1) = Ok (zeros (pg_page_size p)) /\ touches p p' [cnt + 1].
Proof.
  apply extend_spec.
Qed.

(** Deallocation pushes: a readable page of the database that is not free
    goes on top of the freelist, in a trunk with room or as a new trunk, and
    no page but that trunk and page 1's counters changes.  With allocation
    popping, the page just freed is the next one allocated. *)
Theorem deallocate_page_pushes `{host : Host} {OS} `{Fcntl OS} (p : Pager OS) cnt n F bn :
  freelist p cnt F -> 2 <= n <= cnt -> n ∉ F -> logical p n = Ok bn -> len bn = pg_page_size p ->
  exists p' t, deallocate_page n p = (Ok tt, p') /\ freelist p' cnt (n :: F) /\ touches p p' [t] /\ t ∈ (n :: F).
Proof.
  intros Hf Hn Hni Hl Hlen. destruct (push_spec p cnt n F bn Hf Hn Hni Hl Hlen) as (p' & t & E & Hf' & Ht & Hin & _).
  by exists p', t.
Qed.

(** ** Concrete freelists *)

Definition header_page (count trunk free : Z) : list Z :=
  replicate 28 0 ++ be_encode 4 count ++ be_encode 4 trunk ++ be_encode 4 free ++ replicate 472 0.

Definition alloc_pager (data : list Z) : Pager LockTable :=
  MkPager (MkDisk {[DbFile := data]} []) (MkLock no_locks 1%nat Shared) Shared None ∅ ∅
    (PageCache.new 10) 512 Legacy SyncFull None.

Lemma alloc_pager_coherent data : coherent (alloc_pager data).
Proof. intros n b Hb. unfold cached in Hb. cbn in Hb. by rewrite lookup_empty in Hb. Qed.

(** Three pages, of which 2 is a trunk with the single leaf 3. *)
Definition trunk_page2 : list Z := be_encode 4 0 ++ be_encode 4 1 ++ be_encode 4 3 ++ replicate 500 0.
Definition two_free : Pager LockTable := alloc_pager (header_page 3 2 2 ++ trunk_page2 ++ replicate 512 7).

Lemma two_free_freelist : freelist two_free 3 [3; 2].
Proof.
  split; [apply alloc_pager_coherent|]. split; [cbn; lia|]. split; [by vm_compute|].
  split; [by apply (bool_decide_unpack _); vm_compute|].
  split; [intros n; rewrite !elem_of_cons, elem_of_nil; lia|].
  exists (header_page 3 2 2), 2, [(2, MkTrunk 0 [3])].
  do 5 (split; [by vm_compute|]). split; [|done].
  eapply (chain_trunk _ 2 trunk_page2 (MkTrunk 0 [3])); [lia|by vm_compute..|]. constructor.
Qed.

Example allocate_page_pops_witness :
  exists p' t, allocate_page two_free = (Ok 3, p') /\ freelist p' 3 [2] /\ (3 ∉ [2]) /\
    touches two_free p' [t] /\ t ∈ [3; 2].
Proof. apply (@allocate_page_pops true LockTable _ two_free 3 3 [2]). apply two_free_freelist. Defined.

(** Two pages and no free one. *)
Definition none_free : Pager LockTable := alloc_pager (header_page 2 0 0 ++ replicate 512 7).

Lemma none_free_freelist : freelist none_free 2 [].
Proof.
  split; [apply alloc_pager_coherent|]. split; [cbn; lia|]. split; [by vm_compute|].
  split; [constructor|]. split; [by intros n ?%elem_of_nil|].
  exists (header_page 2 0 0), 0, []. do 5 (split; [by vm_compute|]). split; [constructor|done].
Qed.

Example allocate_page_extends_witness :
  exists p', allocate_page none_free = (Ok 3, p') /\ freelist p' 3 [] /\
    logical p' 3 = Ok (zeros 512) /\ touches none_free p' [3].
Proof.
  apply (@allocate_page_extends true LockTable _ none_free 2);
    [apply none_free_freelist|by vm_compute|intros b; by vm_compute].
Defined.

Example deallocate_page_pushes_witness :
  exists p' t, deallocate_page 2 none_free = (Ok tt, p') /\ freelist p' 2 [2] /\
    touches none_free p' [t] /\ t ∈ [2].
Proof.
  apply (@deallocate_page_pushes true LockTable _ none_free 2 2 [] (replicate 512 7));
    [apply none_free_freelist|lia|by intros ?%elem_of_nil|by vm_compute|by vm_compute].
Defined.
