(* ===== verification/BtreePage.v ===== *)
(** * B-tree pages ([src/btree.rs])

    The byte layout of table b-tree pages: the page header, the cell-pointer
    array growing up, the cell content area growing down, freeblocks in
    between.  This file has the readers, the from-scratch page writer and the
    two in-place edits ([splice_insert_cell], [splice_delete_cell]).  A function
    that fails halfway leaves its buffer partly written in the source; here it
    returns the error only. *)

From stdpp Require Import prelude list numbers.
From Stdlib Require Import ZArith Lia.
From S2P Require Import Prelude Varint Vfs Checkpoint.

Local Open Scope Z_scope.

(** [Internal]'s message is kept as a name of the place that raises it, other
    strings as their characters.  [BtDiverged] is not an error of the source: it
    marks a [loop] whose unfolding has run out, so that non-termination is told
    apart from every error the code reports. *)
Inductive InternalError : Type :=
| IndexOutOfBounds | EmptyLeftHalf | OverflowIndex | SuccessorMissing | MedianMissing | NoAncestors | NothingToPromote | RoutingEntryMissing.

Inductive BtreeError : Type :=
| BtInvalidKeyRecord (source : RecordError)
| BtPageSource (page_num : Z) (source : PageError)
| BtPageTooShort (page_num n : Z)
| BtCursorNotPositioned (operation required : list Z)
| BtUnexpectedPageType (page_num page_type : Z)
| BtInvalidCellPointer (page_num index : Z)
| BtInvalidCellVarint (page_num : Z) (source : RecordError)
| BtPayloadTooShort (page_num : Z)
| BtPayloadTooLarge (page_num payload_len : Z)
| BtOverflowChainTooLong (page_num max : Z)
| BtOverflowChainCycle (page_num revisited_page : Z)
| BtOverflowChainTruncated (page_num : Z)
| BtTraversalTooLong (max : Z)
| BtPager (source : PagerError)
| BtDuplicateRowid (rowid : Z)
| BtMissingChildRoute (page_num child : Z)
| BtRowidNotFound (rowid : Z)
| BtDuplicateKey
| BtKeyNotFound
| BtInvalidRootPage (name : list Z) (rootpage : Z)
| BtMasterEntryNotFound (name : list Z)
| BtInternal (what : InternalError)
| BtDiverged.

(** ** Computations that return *)

(** From the state [s], [m] comes to an end: it returns a value or reports an
    error of the source. *)
Definition ends {S A} (m : M S BtreeError A) (s : S) : Prop := fst (m s) <> Err BtDiverged.

Lemma ends_bind {S A B} (m : M S BtreeError A) (k : A -> M S BtreeError B) s :
  ends m s -> (forall a s', m s = (Ok a, s') -> ends (k a) s') -> ends (m ≫= k) s.
Proof.
  unfold ends, mbind, M_bind. intros Hm Hk. destruct (m s) as [[a|e] s'] eqn:E; [by apply Hk|]. intros [= ->]. by apply Hm.
Qed.

Lemma ends_map_err {S E A} (f : E -> BtreeError) (m : M S E A) s : (forall e, f e <> BtDiverged) -> ends (map_err_M f m) s.
Proof. intros Hf. unfold ends, map_err_M. destruct (m s) as [[a|e] s']; cbn; [done|]. intros [= Heq]. by eapply Hf. Qed.

Definition sound {A} (r : result BtreeError A) : Prop := r <> Err BtDiverged.

Lemma sound_bind {A B} (r : result BtreeError A) (k : A -> result BtreeError B) : sound r -> (forall a, sound (k a)) -> sound (r ≫= k).
Proof. unfold sound. intros Hr Hk. destruct r as [a|e]; [by apply Hk|]. cbn. intros [= ->]. by apply Hr. Qed.

Lemma sound_ok_or {A} (o : option A) e : e <> BtDiverged -> sound (ok_or o e).
Proof. unfold sound. intros He. destruct o; cbn; congruence. Qed.

Lemma sound_map_err {E A} (f : E -> BtreeError) (r : result E A) : (forall e, f e <> BtDiverged) -> sound (map_err f r).
Proof. unfold sound. intros Hf. destruct r as [a|e]; cbn; [done|]. intros [= Heq]. by eapply Hf. Qed.

Lemma ends_lift {S A} (r : result BtreeError A) (s : S) : sound r -> ends (lift r) s.
Proof. done. Qed.

(** Follows the structure of a computation without loops. *)
Ltac solve_ends :=
  repeat match goal with
  | |- ends (_ ≫= _) _ => apply ends_bind; [|intros ? ? _]
  | |- ends (lift _) _ => apply ends_lift
  | |- ends (map_err_M _ _) _ => apply ends_map_err; intros ?; discriminate
  | |- ends (throw _) _ => discriminate
  | |- ends (mret _) _ => discriminate
  | |- sound (_ ≫= _) => apply sound_bind; [|intros ?]
  | |- sound (ok_or _ _) => apply sound_ok_or; discriminate
  | |- sound (map_err _ _) => apply sound_map_err; intros ?; discriminate
  | |- sound (Ok _) => discriminate
  | |- sound (Err _) => discriminate
  | |- sound (let '_ := ?p in _) => destruct p
  | |- ends (let '_ := ?p in _) _ => destruct p
  | |- ends (match ?x with _ => _ end) _ => destruct x
  | |- sound (match ?x with _ => _ end) => destruct x
  | |- _ => progress cbv zeta
  end.

Definition LEAF_TABLE : Z := 13.
Definition INTERIOR_TABLE : Z := 5.
Definition MAX_PAYLOAD_LEN : Z := 2147483647.
Definition MAX_PAGES_VISITED : Z := 1000000.
Definition MIN_FREEBLOCK_SIZE : Z := 4.
Definition MAX_FREEBLOCKS : Z := 10000.

(** ** Field access *)

Definition page1_header_start (page_num : Z) : Z := if page_num =? 1 then 100 else 0.

Definition read_page_type (page : list Z) (header_start page_num : Z) : result BtreeError Z :=
  ok_or (get_at page header_start) (BtPageTooShort page_num (len page)).

Definition read_num_cells (page : list Z) (header_start page_num : Z) : result BtreeError Z :=
  bs ← ok_or (get_range page (sat_add header_start 3) (sat_add header_start 5)) (BtPageTooShort page_num (len page));
  Ok (be_decode bs).

Definition read_u32 (page : list Z) (offset page_num : Z) : result BtreeError Z :=
  bs ← ok_or (get_range page offset (sat_add offset 4)) (BtPageTooShort page_num (len page));
  Ok (be_decode bs).

Definition read_u16 (page : list Z) (offset page_num : Z) : result BtreeError Z :=
  bs ← ok_or (get_range page offset (sat_add offset 2)) (BtPageTooShort page_num (len page));
  Ok (be_decode bs).

Definition read_cell_pointer (page : list Z) (ptr_off page_num cell_index : Z) : result BtreeError Z :=
  bs ← ok_or (get_range page ptr_off (sat_add ptr_off 2)) (BtInvalidCellPointer page_num cell_index);
  Ok (be_decode bs).

Definition cell_ptr_offset (base i : Z) : Z := sat_add base (sat_mul i 2).

Definition put (buf : list Z) (offset : Z) (bytes : list Z) (page_num : Z) : result BtreeError (list Z) :=
  ok_or (set_range buf offset bytes) (BtPageTooShort page_num (len buf)).

Definition put_u8 (buf : list Z) (offset value page_num : Z) : result BtreeError (list Z) :=
  put buf offset [value] page_num.

(** [value as u16]. *)
Definition write_u16 (buf : list Z) (offset value page_num : Z) : result BtreeError (list Z) :=
  put buf offset (be_encode 2 (wrap 16 value)) page_num.

Definition read_content_start (page : list Z) (header_start page_num : Z) : result BtreeError Z :=
  v ← read_u16 page (sat_add header_start 5) page_num;
  Ok (if v =? 0 then 65536 else v).

Definition write_content_start (buf : list Z) (header_start value page_num : Z) : result BtreeError (list Z) :=
  let stored := if 65536 <=? value then 0 else value in
  write_u16 buf (sat_add header_start 5) stored page_num.

Definition read_first_freeblock (page : list Z) (header_start page_num : Z) : result BtreeError Z :=
  read_u16 page (sat_add header_start 1) page_num.

Definition read_fragmented_bytes (page : list Z) (header_start page_num : Z) : result BtreeError Z :=
  ok_or (get_at page (sat_add header_start 7)) (BtPageTooShort page_num (len page)).

Definition write_fragmented_bytes (buf : list Z) (header_start value page_num : Z) : result BtreeError (list Z) :=
  put_u8 buf (sat_add header_start 7) value page_num.

(** ** Cells *)

Definition local_payload_size (usable_size payload_len : Z) (is_index : bool) : Z :=
  let max_local :=
    if is_index then sat_sub (sat_mul (sat_sub usable_size 12) 64 / 255) 23
    else sat_sub usable_size 35 in
  if payload_len <=? max_local then payload_len else
  let min_local := sat_sub (sat_mul (sat_sub usable_size 12) 32 / 255) 23 in
  let denom := Z.max (sat_sub usable_size 4) 1 in
  let k := sat_add min_local (sat_sub payload_len min_local mod denom) in
  if k <=? max_local then k else min_local.

(** [as i64]. *)
Definition as_i64 (v : Z) : Z := to_signed 64 v.

Definition decode_cell_head (page : list Z) (cell_start page_num : Z) : result BtreeError (Z * Z * Z) :=
  cell ← ok_or (get_from page cell_start) (BtInvalidCellPointer page_num cell_start);
  '(payload_len, n1) ← map_err (BtInvalidCellVarint page_num) (decode_varint cell);
  rest ← ok_or (get_from cell n1) (BtPayloadTooShort page_num);
  '(rowid, n2) ← map_err (BtInvalidCellVarint page_num) (decode_varint rest);
  Ok (as_i64 rowid, payload_len, sat_add (sat_add cell_start n1) n2).

(** The end of a leaf cell whose payload starts at [tail_start]. *)
Definition cell_end_of (usable_size payload_len tail_start : Z) (is_index : bool) : Z :=
  let local_size := local_payload_size usable_size payload_len is_index in
  let has_overflow := local_size <? payload_len in
  sat_add (sat_add tail_start local_size) (if has_overflow then 4 else 0).

(** The loop of [collect_leaf_cells], with [n] cells left from index [i]. *)
Fixpoint collect_loop (n : nat) (i : Z) (buf : list Z) (ptr_base page_num usable_size : Z)
    : result BtreeError (list (Z * list Z)) :=
  match n with
  | O => Ok []
  | S n =>
    cell_start ← read_cell_pointer buf (cell_ptr_offset ptr_base i) page_num i;
    '(rowid, payload_len, tail_start) ← decode_cell_head buf cell_start page_num;
    let cell_end := cell_end_of usable_size payload_len tail_start false in
    cell_bytes ← ok_or (get_range buf cell_start cell_end) (BtPayloadTooShort page_num);
    rest ← collect_loop n (i + 1) buf ptr_base page_num usable_size;
    Ok ((rowid, cell_bytes) :: rest)
  end.

Definition collect_leaf_cells (buf : list Z) (header_start page_num usable_size : Z)
    : result BtreeError (list (Z * list Z)) :=
  num_cells ← read_num_cells buf header_start page_num;
  collect_loop (Z.to_nat num_cells) 0 buf (sat_add header_start 8) page_num usable_size.

Fixpoint scan_loop (n : nat) (i : Z) (buf : list Z) (ptr_base page_num usable_size rowid num_cells : Z)
    (insert_pos total_bytes : Z) : result BtreeError (Z * Z * Z) :=
  match n with
  | O => Ok (insert_pos, num_cells, total_bytes)
  | S n =>
    cell_start ← read_cell_pointer buf (cell_ptr_offset ptr_base i) page_num i;
    '(cell_rowid, payload_len, tail_start) ← decode_cell_head buf cell_start page_num;
    if cell_rowid =? rowid then Err (BtDuplicateRowid rowid) else
    let insert_pos := if (rowid <? cell_rowid) && (insert_pos =? num_cells) then i else insert_pos in
    let cell_end := cell_end_of usable_size payload_len tail_start false in
    if len buf <? cell_end then Err (BtPayloadTooShort page_num) else
    let total_bytes := sat_add total_bytes (sat_sub cell_end cell_start) in
    scan_loop n (i + 1) buf ptr_base page_num usable_size rowid num_cells insert_pos total_bytes
  end.

Definition scan_leaf_cells (buf : list Z) (header_start page_num usable_size rowid : Z)
    : result BtreeError (Z * Z * Z) :=
  num_cells ← read_num_cells buf header_start page_num;
  scan_loop (Z.to_nat num_cells) 0 buf (sat_add header_start 8) page_num usable_size rowid num_cells num_cells 0.

Fixpoint find_loop (n : nat) (i : Z) (buf : list Z) (ptr_base page_num usable_size rowid num_cells : Z)
    : result BtreeError (option (Z * Z * Z)) :=
  match n with
  | O => Ok None
  | S n =>
    cell_start ← read_cell_pointer buf (cell_ptr_offset ptr_base i) page_num i;
    '(cell_rowid, payload_len, tail_start) ← decode_cell_head buf cell_start page_num;
    if negb (cell_rowid =? rowid)
    then find_loop n (i + 1) buf ptr_base page_num usable_size rowid num_cells else
    let local_size := local_payload_size usable_size payload_len false in
    overflow_page ← (if local_size <? payload_len then read_u32 buf (sat_add tail_start local_size) page_num
                     else Ok 0);
    Ok (Some (i, num_cells, overflow_page))
  end.

Definition find_leaf_cell (buf : list Z) (header_start page_num usable_size rowid : Z)
    : result BtreeError (option (Z * Z * Z)) :=
  num_cells ← read_num_cells buf header_start page_num;
  find_loop (Z.to_nat num_cells) 0 buf (sat_add header_start 8) page_num usable_size rowid num_cells.

Fixpoint interior_loop (n : nat) (i : Z) (buf : list Z) (ptr_base page_num : Z) : result BtreeError (list (Z * Z)) :=
  match n with
  | O => Ok []
  | S n =>
    cell_start ← read_cell_pointer buf (cell_ptr_offset ptr_base i) page_num i;
    child ← read_u32 buf cell_start page_num;
    rest ← ok_or (get_from buf (sat_add cell_start 4)) (BtPayloadTooShort page_num);
    '(key, _) ← map_err (BtInvalidCellVarint page_num) (decode_varint rest);
    tail ← interior_loop n (i + 1) buf ptr_base page_num;
    Ok ((child, as_i64 key) :: tail)
  end.

Definition collect_interior_entries (buf : list Z) (header_start page_num : Z)
    : result BtreeError (list (Z * Z) * Z) :=
  num_cells ← read_num_cells buf header_start page_num;
  out ← interior_loop (Z.to_nat num_cells) 0 buf (sat_add header_start 12) page_num;
  rightmost ← read_u32 buf (sat_add header_start 8) page_num;
  Ok (out, rightmost).

(** [key as u64]. *)
Definition build_interior_cell (child key : Z) : list Z := be_encode 4 child ++ encode_varint (wrap 64 key).

(** ** Writing a page from scratch *)

Definition cell_bytes {K} (cells : list (K * list Z)) : list (list Z) := map snd cells.

(** [get_mut(header_start..)?.fill(0)]. *)
Definition clear_from (buf : list Z) (header_start page_num : Z) : result BtreeError (list Z) :=
  tail ← ok_or (get_from buf header_start) (BtPageTooShort page_num (len buf));
  Ok (take (Z.to_nat header_start) buf ++ zeros (len tail)).

(** [for cell in cells.iter().rev()]: the offsets in the order they are pushed. *)
Fixpoint place_cells (cells : list (list Z)) (buf : list Z) (content_end page_num : Z)
    : result BtreeError (list Z * Z * list Z) :=
  match cells with
  | [] => Ok (buf, content_end, [])
  | cell :: rest =>
    let content_end := sat_sub content_end (len cell) in
    buf ← put buf content_end cell page_num;
    '(buf, last, offsets) ← place_cells rest buf content_end page_num;
    Ok (buf, last, content_end :: offsets)
  end.

Fixpoint write_pointers (i : Z) (offsets : list Z) (buf : list Z) (ptr_base page_num : Z) : result BtreeError (list Z) :=
  match offsets with
  | [] => Ok buf
  | off :: rest =>
    let p := sat_add ptr_base (sat_mul i 2) in
    let v := if 65536 <=? off then 0 else wrap 16 off in
    buf ← put buf p (be_encode 2 v) page_num;
    write_pointers (i + 1) rest buf ptr_base page_num
  end.

Definition write_page_common (buf : list Z) (header_start page_num page_type header_len : Z) (cells : list (list Z))
    : result BtreeError (list Z) :=
  buf ← clear_from buf header_start page_num;
  buf ← put_u8 buf header_start page_type page_num;
  let ptr_base := sat_add header_start header_len in
  let num_cells := len cells in
  '(buf, content_end, pushed) ← place_cells (rev cells) buf (len buf) page_num;
  let ptr_offsets := rev pushed in
  buf ← write_pointers 0 ptr_offsets buf ptr_base page_num;
  let num_cells_u16 := wrap 16 num_cells in
  buf ← put buf (sat_add header_start 3) (be_encode 2 num_cells_u16) page_num;
  let content_start_v := if 65536 <=? content_end then 0 else wrap 16 content_end in
  buf ← put buf (sat_add header_start 5) (be_encode 2 content_start_v) page_num;
  put_u8 buf (sat_add header_start 7) 0 page_num.

Definition write_leaf_page (buf : list Z) (header_start page_num : Z) (cells : list (list Z)) : result BtreeError (list Z) :=
  write_page_common buf header_start page_num LEAF_TABLE 8 cells.

Definition write_interior_page (buf : list Z) (header_start page_num : Z) (cells : list (list Z)) (rightmost : Z)
    : result BtreeError (list Z) :=
  buf ← write_page_common buf header_start page_num INTERIOR_TABLE 12 cells;
  put buf (sat_add header_start 8) (be_encode 4 rightmost) page_num.

(** ** Freeblocks *)

(** The loop stops after [MAX_FREEBLOCKS]; [fuel] counts what is left. *)
Fixpoint walk_loop (fuel : nat) (off : Z) (page : list Z) (page_num : Z) : result BtreeError (list (Z * Z)) :=
  if off =? 0 then Ok [] else
  match fuel with
  | O => Err (BtTraversalTooLong MAX_FREEBLOCKS)
  | S fuel =>
    next ← read_u16 page off page_num;
    size ← read_u16 page (sat_add off 2) page_num;
    rest ← walk_loop fuel next page page_num;
    Ok ((off, size) :: rest)
  end.

Definition walk_freeblocks (page : list Z) (header_start page_num : Z) : result BtreeError (list (Z * Z)) :=
  off ← read_first_freeblock page header_start page_num;
  walk_loop (Z.to_nat MAX_FREEBLOCKS) off page page_num.

Definition first_offset (blocks : list (Z * Z)) : Z := match blocks with (o, _) :: _ => o | [] => 0 end.

Fixpoint write_blocks (blocks : list (Z * Z)) (buf : list Z) (page_num : Z) : result BtreeError (list Z) :=
  match blocks with
  | [] => Ok buf
  | (off, size) :: rest =>
    buf ← write_u16 buf off (first_offset rest) page_num;
    buf ← write_u16 buf (sat_add off 2) size page_num;
    write_blocks rest buf page_num
  end.

Definition write_freeblock_chain (buf : list Z) (header_start page_num : Z) (blocks : list (Z * Z))
    : result BtreeError (list Z) :=
  buf ← write_blocks blocks buf page_num;
  write_u16 buf (sat_add header_start 1) (first_offset blocks) page_num.

(** [partition_point(|&(o, _)| o < start)], then the merge with the block
    before and the block after. *)
Fixpoint partition_point (blocks : list (Z * Z)) (start : Z) : nat :=
  match blocks with
  | (o, _) :: rest => if o <? start then S (partition_point rest start) else O
  | [] => O
  end.

Definition add_freeblock (blocks : list (Z * Z)) (start size : Z) : list (Z * Z) :=
  let pos := partition_point blocks start in
  let '(blocks, new_start, new_size, insert_pos) :=
    match pos with
    | O => (blocks, start, size, O)
    | S prev =>
      match blocks !! prev with
      | Some (prev_off, prev_size) =>
        if sat_add prev_off prev_size =? start
        then (delete prev blocks, prev_off, sat_add size prev_size, prev)
        else (blocks, start, size, pos)
      | None => (blocks, start, size, pos)
      end
    end in
  let '(blocks, new_size) :=
    match blocks !! insert_pos with
    | Some (next_off, next_size) =>
      if sat_add new_start new_size =? next_off
      then (delete insert_pos blocks, sat_add new_size next_size)
      else (blocks, new_size)
    | None => (blocks, new_size)
    end in
  take insert_pos blocks ++ (new_start, new_size) :: drop insert_pos blocks.

(** ** Editing a leaf page in place *)

(** [for i in (index..num_cells).rev()]: entry [index + n - 1] down to [index]. *)
Fixpoint shift_up (n : nat) (index : Z) (buf : list Z) (ptr_base page_num : Z) : result BtreeError (list Z) :=
  match n with
  | O => Ok buf
  | S n =>
    let i := index + Z.of_nat n in
    v ← read_cell_pointer buf (cell_ptr_offset ptr_base i) page_num i;
    buf ← write_u16 buf (cell_ptr_offset ptr_base (sat_add i 1)) v page_num;
    shift_up n index buf ptr_base page_num
  end.

Definition splice_insert_cell (buf : list Z) (header_start page_num index : Z) (cell : list Z)
    : result BtreeError (option (list Z)) :=
  num_cells ← read_num_cells buf header_start page_num;
  let ptr_base := sat_add header_start 8 in
  content_start ← read_content_start buf header_start page_num;
  let ptr_end := cell_ptr_offset ptr_base num_cells in
  let needed := sat_add (len cell) 2 in
  if (content_start <? ptr_end) || (sat_sub content_start ptr_end <? needed) then Ok None else
  let new_content_start := sat_sub content_start (len cell) in
  buf ← put buf new_content_start cell page_num;
  buf ← shift_up (Z.to_nat (num_cells - index)) index buf ptr_base page_num;
  buf ← write_u16 buf (cell_ptr_offset ptr_base index) new_content_start page_num;
  buf ← write_content_start buf header_start new_content_start page_num;
  buf ← write_u16 buf (sat_add header_start 3) (sat_add num_cells 1) page_num;
  Ok (Some buf).

(** [for i in index..num_cells - 1]. *)
Fixpoint shift_down (n : nat) (i : Z) (buf : list Z) (ptr_base page_num : Z) : result BtreeError (list Z) :=
  match n with
  | O => Ok buf
  | S n =>
    v ← read_cell_pointer buf (cell_ptr_offset ptr_base (sat_add i 1)) page_num (sat_add i 1);
    buf ← write_u16 buf (cell_ptr_offset ptr_base i) v page_num;
    shift_down n (i + 1) buf ptr_base page_num
  end.

(** [while let Some(pos) = blocks.iter().position(...)]: each round removes a
    block, so the number of blocks bounds the rounds. *)
Fixpoint absorb_blocks (fuel : nat) (blocks : list (Z * Z)) (content_start : Z) : list (Z * Z) * Z :=
  match fuel with
  | O => (blocks, content_start)
  | S fuel =>
    match list_find (fun b => b.1 = content_start) blocks with
    | Some (pos, (_, size)) => absorb_blocks fuel (delete pos blocks) (sat_add content_start size)
    | None => (blocks, content_start)
    end
  end.

(** [slice.fill(0)] on [cell_start..cell_end], when in range. *)
Definition fill_zero (buf : list Z) (a b : Z) : list Z :=
  match get_range buf a b with
  | Some slice => default buf (set_range buf a (zeros (len slice)))
  | None => buf
  end.

Definition decode_payload_len (page : list Z) (offset page_num : Z) : result BtreeError (Z * Z) :=
  cell ← ok_or (get_from page offset) (BtInvalidCellPointer page_num offset);
  '(payload_len, n1) ← map_err (BtInvalidCellVarint page_num) (decode_varint cell);
  Ok (payload_len, sat_add offset n1).

Definition splice_delete_cell (buf : list Z) (header_start page_num usable_size index : Z) (has_rowid : bool)
    : result BtreeError (list Z) :=
  num_cells ← read_num_cells buf header_start page_num;
  if num_cells <=? index then Err (BtInternal IndexOutOfBounds) else
  let ptr_base := sat_add header_start 8 in
  cell_start ← read_cell_pointer buf (cell_ptr_offset ptr_base index) page_num index;
  '(payload_len, tail_start) ← (if has_rowid then
       '(_, payload_len, tail_start) ← decode_cell_head buf cell_start page_num; Ok (payload_len, tail_start)
     else decode_payload_len buf cell_start page_num);
  let cell_end := cell_end_of usable_size payload_len tail_start (negb has_rowid) in
  let cell_len := sat_sub cell_end cell_start in
  buf ← shift_down (Z.to_nat (sat_sub num_cells 1 - index)) index buf ptr_base page_num;
  let new_num_cells := sat_sub num_cells 1 in
  buf ← write_u16 buf (sat_add header_start 3) new_num_cells page_num;
  let buf := fill_zero buf cell_start cell_end in
  content_start ← read_content_start buf header_start page_num;
  if cell_start =? content_start then
    blocks ← walk_freeblocks buf header_start page_num;
    let '(blocks, new_content_start) := absorb_blocks (length blocks) blocks cell_end in
    buf ← write_content_start buf header_start new_content_start page_num;
    write_freeblock_chain buf header_start page_num blocks
  else if cell_len <? MIN_FREEBLOCK_SIZE then
    frag ← read_fragmented_bytes buf header_start page_num;
    write_fragmented_bytes buf header_start (Z.min (frag + cell_len) 255) page_num
  else
    blocks ← walk_freeblocks buf header_start page_num;
    write_freeblock_chain buf header_start page_num (add_freeblock blocks cell_start cell_len).
