(* ===== verification/LeafPage.v ===== *)
(** * What a leaf page holds ([src/btree.rs])

    The layout invariant of a table leaf page, relating its bytes to the list
    of its cells and its freeblocks, and the theorems that the readers, the
    page writer and the in-place edits implement the operations on that
    list. *)

From stdpp Require Import prelude list numbers.
From Stdlib Require Import ZArith Lia.
From S2P Require Import Prelude Varint Vfs Checkpoint BtreePage.

Local Open Scope Z_scope.

(** ** Buffers that differ inside a window *)

(** [buf'] has [buf]'s length and its bytes outside [lo..hi]. *)
Definition same_outside (buf buf' : list Z) (lo hi : Z) : Prop :=
  len buf' = len buf /\ forall a b, b <= lo \/ hi <= a -> get_range buf' a b = get_range buf a b.

Lemma same_outside_refl buf lo hi : same_outside buf buf lo hi.
Proof. done. Qed.

Lemma same_outside_trans buf1 buf2 buf3 lo1 hi1 lo2 hi2 lo hi :
  same_outside buf1 buf2 lo1 hi1 -> same_outside buf2 buf3 lo2 hi2 ->
  lo <= lo1 -> lo <= lo2 -> hi1 <= hi -> hi2 <= hi -> same_outside buf1 buf3 lo hi.
Proof.
  intros [L1 H1] [L2 H2] ? ? ? ?. split; [congruence|]. intros a b Hab. rewrite H2, H1 by lia. done.
Qed.

Lemma same_outside_weaken buf buf' lo1 hi1 lo hi :
  same_outside buf buf' lo1 hi1 -> lo <= lo1 -> hi1 <= hi -> same_outside buf buf' lo hi.
Proof. intros [L H] ? ?. split; [done|]. intros a b Hab. apply H. lia. Qed.

Lemma same_outside_read n buf buf' lo hi off :
  same_outside buf buf' lo hi -> off + Z.of_nat n <= lo \/ hi <= off -> read_be n buf' off = read_be n buf off.
Proof. intros [_ H] Hd. unfold read_be. by rewrite H. Qed.

Lemma same_outside_at buf buf' lo hi i :
  same_outside buf buf' lo hi -> i < lo \/ hi <= i -> get_at buf' i = get_at buf i.
Proof. intros [_ H] Hd. rewrite !get_at_range, H by lia. done. Qed.

(** ** Writing fields *)

Lemma put_ok buf off bs pn :
  0 <= off -> off + len bs <= len buf ->
  exists buf', put buf off bs pn = Ok buf' /\ same_outside buf buf' off (off + len bs) /\
    get_range buf' off (off + len bs) = Some bs.
Proof.
  intros H0 H1. pose proof (set_range_Some buf off bs H0 H1) as E. unfold put. rewrite E. eexists. split; [done|].
  split; [split|].
  - by eapply set_range_len.
  - intros a b Hab. by eapply get_range_set_ne.
  - by eapply get_range_set_eq.
Qed.

Lemma read_of_range n buf off z :
  get_range buf off (off + Z.of_nat n) = Some (be_encode n z) -> 0 <= z < 2 ^ (8 * Z.of_nat n) -> read_be n buf off = Some z.
Proof. intros E Hz. unfold read_be. rewrite E. cbn. by rewrite be_roundtrip. Qed.

Lemma wrap16_small v : 0 <= v < 65536 -> wrap 16 v = v.
Proof. intros. unfold wrap. by rewrite Z.mod_small. Qed.

Lemma write_u16_ok buf off v pn :
  0 <= off -> off + 2 <= len buf -> 0 <= v < 65536 ->
  exists buf', write_u16 buf off v pn = Ok buf' /\ same_outside buf buf' off (off + 2) /\ read_be 2 buf' off = Some v.
Proof.
  intros H0 H1 Hv. unfold write_u16. rewrite wrap16_small by done.
  pose proof (len_be_encode 2 v) as L. change (Z.of_nat 2) with 2 in L.
  destruct (put_ok buf off (be_encode 2 v) pn) as (buf' & E & Hs & Hr); [lia|lia|]. rewrite L in Hs, Hr.
  exists buf'. split; [done|]. split; [done|]. by apply read_of_range.
Qed.

Lemma put_u16_ok buf off v pn :
  0 <= off -> off + 2 <= len buf -> 0 <= v < 65536 ->
  exists buf', put buf off (be_encode 2 v) pn = Ok buf' /\ same_outside buf buf' off (off + 2) /\ read_be 2 buf' off = Some v.
Proof.
  intros H0 H1 Hv. pose proof (write_u16_ok buf off v pn H0 H1 Hv) as H. unfold write_u16 in H.
  by rewrite wrap16_small in H.
Qed.

Lemma read_u16_eq buf off v pn :
  0 <= off -> off <= 65536 -> read_be 2 buf off = Some v -> read_u16 buf off pn = Ok v.
Proof.
  intros H0 H1. unfold read_be, read_u16. rewrite sat_add_small by (unfold U64_MAX; lia).
  change (Z.of_nat 2) with 2. destruct (get_range buf off (off + 2)); [|done]. by intros [= <-].
Qed.

Lemma read_cell_pointer_eq buf off v pn i :
  0 <= off -> off <= 65536 -> read_be 2 buf off = Some v -> read_cell_pointer buf off pn i = Ok v.
Proof.
  intros H0 H1. unfold read_be, read_cell_pointer. rewrite sat_add_small by (unfold U64_MAX; lia).
  change (Z.of_nat 2) with 2. destruct (get_range buf off (off + 2)); [|done]. by intros [= <-].
Qed.

Lemma read_num_cells_eq buf hs v pn :
  0 <= hs <= 100 -> read_be 2 buf (hs + 3) = Some v -> read_num_cells buf hs pn = Ok v.
Proof.
  intros H0. unfold read_be, read_num_cells. rewrite !sat_add_small by (unfold U64_MAX; lia).
  change (Z.of_nat 2) with 2. replace (hs + 3 + 2) with (hs + 5) by lia.
  destruct (get_range buf (hs + 3) (hs + 5)); [|done]. by intros [= <-].
Qed.

Lemma cell_ptr_offset_eq base i : 0 <= base -> 0 <= i <= 65536 -> base <= 65536 -> cell_ptr_offset base i = base + 2 * i.
Proof.
  intros. unfold cell_ptr_offset. rewrite sat_mul_small, sat_add_small; unfold U64_MAX; lia.
Qed.

(** ** Cells *)

(** A varint is decoded from its own bytes, whatever follows. *)
Lemma decode_varint_loop_app n buf rest : forall i res r,
  0 <= i -> i + Z.of_nat n = 8 ->
  decode_varint_loop n buf i res = Ok r -> decode_varint_loop n (buf ++ rest) i res = Ok r.
Proof.
  induction n as [|n IH]; intros i res r Hi Hn; cbn [decode_varint_loop].
  - destruct (get_at buf 8) as [b|] eqn:E; [|done].
    replace (get_at (buf ++ rest) 8) with (Some b); [done|]. symmetry. revert E.
    unfold get_at. rewrite len_app. pose proof (len_nonneg rest).
    destruct (Z.ltb_spec 8 (len buf)); [|done]. rewrite (proj2 (Z.ltb_lt _ _)) by lia. cbn [andb].
    intros E. by apply lookup_app_l_Some.
  - destruct (get_at buf i) as [b|] eqn:E; [|done].
    replace (get_at (buf ++ rest) i) with (Some b).
    2:{ symmetry. revert E. unfold get_at. rewrite len_app. pose proof (len_nonneg rest).
        destruct (Z.leb_spec 0 i); [|done].
        destruct (Z.ltb_spec i (len buf)); [|done]. rewrite (proj2 (Z.ltb_lt _ _)) by lia. cbn [andb].
        intros E. by apply lookup_app_l_Some. }
    cbn [ok_or mbind result_bind]. destruct (Z.land b 128 =? 0); [done|]. apply IH; lia.
Qed.

Lemma decode_varint_app buf rest r : decode_varint buf = Ok r -> decode_varint (buf ++ rest) = Ok r.
Proof. apply decode_varint_loop_app; lia. Qed.

Lemma decode_varint_loop_count n buf : forall i res v k,
  0 <= i -> i + Z.of_nat n = 8 -> decode_varint_loop n buf i res = Ok (v, k) -> 1 <= k <= 9.
Proof.
  induction n as [|n IH]; intros i res v k Hi Hn; cbn [decode_varint_loop].
  - destruct (get_at buf 8); [|done]. intros [= _ <-]. lia.
  - destruct (get_at buf i) as [b|]; [|done]. cbn [ok_or mbind result_bind].
    destruct (Z.land b 128 =? 0); [intros [= _ <-]; lia|]. apply IH; lia.
Qed.

Lemma decode_varint_count buf v k : decode_varint buf = Ok (v, k) -> 1 <= k <= 9.
Proof. apply decode_varint_loop_count; lia. Qed.

(** The rowid of a table leaf cell that fills exactly the bytes [c]. *)
Definition parse_cell (usable_size : Z) (c : list Z) : option Z :=
  match decode_cell_head c 0 0 with
  | Ok (rowid, payload_len, tail) =>
    if cell_end_of usable_size payload_len tail false =? len c then Some rowid else None
  | Err _ => None
  end.

Lemma get_from_app_l {A} (l k : list A) a : 0 <= a <= len l -> get_from (l ++ k) a = Some (drop (Z.to_nat a) l ++ k).
Proof.
  intros Ha. rewrite get_from_Some by (rewrite len_app; pose proof (len_nonneg k); lia).
  rewrite drop_app_le by (unfold len in Ha; lia). done.
Qed.

Lemma parse_cell_inv usable c rowid :
  parse_cell usable c = Some rowid -> len c <= 65536 ->
  exists plen n1 r n2, decode_varint c = Ok (plen, n1) /\ 0 <= n1 <= len c /\
    decode_varint (drop (Z.to_nat n1) c) = Ok (r, n2) /\ as_i64 r = rowid /\
    cell_end_of usable plen (sat_add n1 n2) false = len c.
Proof.
  unfold parse_cell, decode_cell_head. intros H Hlen. rewrite get_from_Some in H by (pose proof (len_nonneg c); lia).
  cbn [ok_or mbind result_bind] in H. change (drop (Z.to_nat 0) c) with c in H.
  destruct (decode_varint c) as [[plen n1]|] eqn:E1; cbn [map_err mbind result_bind] in H; [|done].
  destruct (get_from c n1) as [rest|] eqn:E2; cbn [ok_or mbind result_bind] in H; [|done].
  assert (0 <= n1 <= len c /\ rest = drop (Z.to_nat n1) c) as [Hn ->].
  { unfold get_from in E2. destruct (Z.leb_spec 0 n1), (Z.leb_spec n1 (len c)); cbn in E2; try done. by injection E2 as <-. }
  destruct (decode_varint (drop _ c)) as [[r n2]|] eqn:E3; cbn [map_err mbind result_bind] in H; [|done].
  destruct (Z.eqb_spec (cell_end_of usable plen (sat_add (sat_add 0 n1) n2) false) (len c)) as [He|]; [|done].
  injection H as <-. exists plen, n1, r, n2. rewrite (sat_add_small 0 n1) in He by (unfold U64_MAX; lia).
  done.
Qed.

Lemma sat_add2_shift off t l o L :
  0 <= off <= 65536 -> 0 <= t <= 65560 -> 0 <= o <= 4 -> L <= 65536 ->
  sat_add (sat_add t l) o = L -> sat_add (sat_add (off + t) l) o = off + L.
Proof. unfold sat_add, U64_MAX. lia. Qed.

Lemma cell_end_shift usable plen off t L :
  0 <= off <= 65536 -> 0 <= t <= 65560 -> L <= 65536 ->
  cell_end_of usable plen t false = L -> cell_end_of usable plen (off + t) false = off + L.
Proof.
  intros H1 H2 H3. unfold cell_end_of. cbv zeta. generalize (local_payload_size usable plen false). intros local He.
  apply (sat_add2_shift off t local _ L); [done|done|destruct (local <? plen); lia|done|done].
Qed.

(** Reading the cell at an offset of a page. *)
Lemma cell_at buf off c usable rowid pn :
  0 <= off -> get_range buf off (off + len c) = Some c -> parse_cell usable c = Some rowid -> len buf <= 65536 ->
  exists plen tail, decode_cell_head buf off pn = Ok (rowid, plen, tail) /\
    cell_end_of usable plen tail false = off + len c.
Proof.
  intros H0 Hr Hp Hb. apply get_range_inv in Hr as (_ & Hle & _ & Hc).
  replace (off + len c - off) with (len c) in Hc by lia.
  assert (drop (Z.to_nat off) buf = c ++ drop (Z.to_nat (off + len c)) buf) as Hd.
  { rewrite Hc at 1. rewrite <- (take_drop (Z.to_nat (len c)) (drop (Z.to_nat off) buf)) at 1. f_equal.
    rewrite drop_drop. f_equal. pose proof (len_nonneg c). lia. }
  pose proof (len_nonneg c).
  destruct (parse_cell_inv _ _ _ Hp ltac:(lia)) as (plen & n1 & r & n2 & E1 & Hn1 & E2 & <- & He).
  pose proof (decode_varint_count _ _ _ E2) as Hn2.
  assert (sat_add n1 n2 = n1 + n2) as Es by (apply sat_add_small; unfold U64_MAX; lia). rewrite Es in He.
  assert (sat_add (sat_add off n1) n2 = off + (n1 + n2)) as Es2
    by (rewrite (sat_add_small off n1), (sat_add_small (off + n1) n2) by (unfold U64_MAX; lia); lia).
  exists plen, (off + (n1 + n2)). split; [|apply cell_end_shift; [lia|lia|lia|done]].
  unfold decode_cell_head. rewrite get_from_Some by lia. cbn [ok_or mbind result_bind]. rewrite Hd.
  rewrite (decode_varint_app _ _ _ E1). cbn [map_err mbind result_bind].
  rewrite get_from_app_l by done. cbn [ok_or mbind result_bind].
  rewrite (decode_varint_app _ _ _ E2). cbn [map_err mbind result_bind]. by rewrite Es2.
Qed.

(** ** The layout *)

(** A byte range as start and length; a cell with its place on the page. *)
Definition extent (slot : Z * list Z) : Z * Z := (slot.1, len slot.2).
Definition apart (e f : Z * Z) : Prop := e.1 + e.2 <= f.1 \/ f.1 + f.2 <= e.1.

Inductive block_chain (buf : list Z) : Z -> list (Z * Z) -> Prop :=
| free_end : block_chain buf 0 []
| free_block off size next rest :
    off <> 0 -> read_be 2 buf off = Some next -> read_be 2 buf (off + 2) = Some size ->
    block_chain buf next rest -> block_chain buf off ((off, size) :: rest).

(** A page whose pointer array, after a header of [hl] bytes at [hs], lists
    [slots] in order, with the cells in the content area from [cs] on. *)
Record page_slots (buf : list Z) (hs hl cs : Z) (slots : list (Z * list Z)) : Prop := {
  ps_hs : 0 <= hs <= 100;
  ps_hl : 8 <= hl <= 12;
  ps_len : len buf <= 65536;
  ps_room : hs + hl + 2 * len slots <= cs <= len buf;
  ps_num : read_be 2 buf (hs + 3) = Some (len slots);
  ps_cs : read_be 2 buf (hs + 5) = Some (if cs =? 65536 then 0 else cs);
  ps_ptr : forall i o c, slots !! i = Some (o, c) -> read_be 2 buf (hs + hl + 2 * Z.of_nat i) = Some o;
  ps_cell : forall i o c, slots !! i = Some (o, c) ->
    1 <= len c /\ cs <= o /\ o + len c <= len buf /\ get_range buf o (o + len c) = Some c }.

(** A table leaf: cells and freeblocks do not overlap, and the freeblock chain
    ascends without adjacent blocks. *)
Record leaf_page (buf : list Z) (hs cs : Z) (slots : list (Z * list Z)) (blocks : list (Z * Z)) : Prop := {
  lp_slots : page_slots buf hs 8 cs slots;
  lp_type : get_at buf hs = Some LEAF_TABLE;
  lp_frag : is_Some (get_at buf (hs + 7));
  lp_free : exists first, read_be 2 buf (hs + 1) = Some first /\ block_chain buf first blocks;
  lp_block : Forall (fun b => cs <= b.1 /\ 4 <= b.2 /\ b.1 + b.2 <= len buf) blocks;
  lp_sorted : ForallOrdPairs (fun a b => a.1 + a.2 < b.1) blocks;
  lp_apart : ForallOrdPairs apart (map extent slots ++ blocks) }.

(** The cells with their rowids, as [collect_leaf_cells] returns them. *)
Definition rows (usable_size : Z) (slots : list (Z * list Z)) : list (Z * list Z) :=
  map (fun s => (default 0 (parse_cell usable_size s.2), s.2)) slots.

Definition parsed (usable_size : Z) (slots : list (Z * list Z)) : Prop :=
  Forall (fun s => is_Some (parse_cell usable_size s.2)) slots.

Lemma collect_loop_spec usable pn buf hs cs slots :
  page_slots buf hs 8 cs slots -> parsed usable slots ->
  forall n i, (i + n = length slots)%nat ->
  collect_loop n (Z.of_nat i) buf (hs + 8) pn usable = Ok (rows usable (drop i slots)).
Proof.
  intros H Hp n. destruct H as [Hhs _ Hlen Hroom _ _ Hptr Hcell].
  induction n as [|n IH]; intros i Hi; cbn [collect_loop].
  { rewrite drop_ge by lia. done. }
  destruct (lookup_lt_is_Some_2 slots i ltac:(lia)) as [[o c] Hs].
  assert (2 * Z.of_nat i <= 2 * len slots) by (unfold len; lia).
  rewrite cell_ptr_offset_eq by lia.
  rewrite (read_cell_pointer_eq _ _ o) by (try lia; by eapply Hptr). cbn [mbind result_bind].
  destruct (Hcell _ _ _ Hs) as (Hc1 & Hc2 & Hc3 & Hr).
  destruct (proj1 (Forall_lookup _ _) Hp _ _ Hs) as [rowid Hrow]. cbn [snd] in Hrow.
  destruct (cell_at buf o c usable rowid pn ltac:(lia) Hr Hrow ltac:(lia)) as (plen & tail & -> & He).
  cbn [mbind result_bind]. rewrite He, Hr. cbn [ok_or mbind result_bind].
  replace (Z.of_nat i + 1) with (Z.of_nat (S i)) by lia. rewrite IH by lia. cbn [mbind result_bind].
  rewrite (drop_S slots (o, c) i Hs). unfold rows. cbn [map snd]. by rewrite Hrow.
Qed.

Lemma collect_spec usable pn buf hs cs slots :
  page_slots buf hs 8 cs slots -> parsed usable slots ->
  collect_leaf_cells buf hs pn usable = Ok (rows usable slots).
Proof.
  intros H Hp. pose proof (ps_hs _ _ _ _ _ H). unfold collect_leaf_cells.
  rewrite (read_num_cells_eq _ _ (len slots)) by (try done; by eapply ps_num). cbn [mbind result_bind].
  rewrite sat_add_small by (unfold U64_MAX; lia).
  apply (collect_loop_spec usable pn buf hs cs slots H Hp (Z.to_nat (len slots)) 0).
  unfold len. lia.
Qed.

(** ** Writing a page from scratch *)

Definition total_len (cells : list (list Z)) : Z := foldr (fun c n => len c + n) 0 cells.

Lemma total_len_cons c cells : total_len (c :: cells) = len c + total_len cells.
Proof. done. Qed.

Lemma total_len_nonneg cells : 0 <= total_len cells.
Proof. induction cells as [|c cells IH]; [done|]. rewrite total_len_cons. pose proof (len_nonneg c). lia. Qed.

Lemma total_len_app l k : total_len (l ++ k) = total_len l + total_len k.
Proof. induction l as [|c l IH]; [done|]. cbn [app]. rewrite !total_len_cons, IH. lia. Qed.

Lemma total_len_rev cells : total_len (rev cells) = total_len cells.
Proof. induction cells as [|c cells IH]; [done|]. cbn [rev]. rewrite total_len_app, IH, !total_len_cons. cbn. lia. Qed.

Lemma apart_sym e f : apart e f -> apart f e.
Proof. unfold apart. tauto. Qed.

Lemma FOP_app {A} (R : A -> A -> Prop) l k :
  ForallOrdPairs R (l ++ k) <-> ForallOrdPairs R l /\ ForallOrdPairs R k /\ Forall (fun x => Forall (R x) k) l.
Proof.
  induction l as [|x l IH]; cbn [app].
  - split; [intros H; split; [constructor|]; split; [done|constructor]|by intros (_ & ? & _)].
  - split.
    + inversion_clear 1 as [|? ? Hx Hl]. apply IH in Hl as (H1 & H2 & H3). apply Forall_app in Hx as [Hx1 Hx2].
      split; [by constructor|]. split; [done|]. by constructor.
    + intros (H1 & H2 & H3). inversion_clear H1 as [|? ? Hx Hl]. inversion_clear H3 as [|? ? Hxk Hk].
      constructor; [by apply Forall_app|]. by apply IH.
Qed.

Lemma FOP_rev {A} (R : A -> A -> Prop) l : (forall x y, R x y -> R y x) -> ForallOrdPairs R l -> ForallOrdPairs R (rev l).
Proof.
  intros Hsym. induction 1 as [|x l Hx Hl IH]; [constructor|]. cbn [rev]. apply FOP_app. split; [done|].
  split; [repeat constructor|]. apply Forall_rev. eapply Forall_impl; [|exact Hx]. intros y Hy. constructor; [by apply Hsym|constructor].
Qed.

Lemma place_cells_spec pn cells : forall buf ce,
  Forall (fun c => 1 <= len c) cells -> total_len cells <= ce -> ce <= len buf ->
  exists buf' offs, place_cells cells buf ce pn = Ok (buf', ce - total_len cells, offs) /\
    length offs = length cells /\ same_outside buf buf' (ce - total_len cells) ce /\
    Forall (fun s => 1 <= len s.2 /\ ce - total_len cells <= s.1 /\ s.1 + len s.2 <= ce /\
              get_range buf' s.1 (s.1 + len s.2) = Some s.2) (zip offs cells) /\
    ForallOrdPairs apart (map extent (zip offs cells)).
Proof.
  induction cells as [|c cells IH]; intros buf ce Hpos Htot Hce; cbn [place_cells].
  { exists buf, []. cbn. rewrite Z.sub_0_r. split; [done|]. split; [done|]. split; [apply same_outside_refl|]. split; constructor. }
  apply Forall_cons_iff in Hpos as [Hc Hpos]. rewrite total_len_cons in *. pose proof (total_len_nonneg cells) as Hn.
  rewrite sat_sub_small by lia.
  destruct (put_ok buf (ce - len c) c pn) as (buf1 & E1 & Hs1 & Hr1); [lia|lia|].
  rewrite E1. cbn [mbind result_bind]. replace (ce - len c + len c) with ce in * by lia.
  destruct (IH buf1 (ce - len c) Hpos ltac:(lia)) as (buf2 & offs & E2 & Hl & Hs2 & Hcells & Hap).
  { destruct Hs1 as [-> _]. lia. }
  rewrite E2. cbn [mbind result_bind]. exists buf2, ((ce - len c) :: offs).
  replace (ce - (len c + total_len cells)) with (ce - len c - total_len cells) by lia.
  split; [done|]. split; [cbn; lia|].
  split; [eapply same_outside_trans; [exact Hs1|exact Hs2|lia..]|]. split.
  - constructor; cbn [fst snd].
    + split; [done|]. split; [lia|]. split; [lia|]. destruct Hs2 as [_ Hs2]. rewrite Hs2 by lia.
      by replace (ce - len c + len c) with ce by lia.
    + eapply Forall_impl; [|exact Hcells]. cbn. intros [o x] (? & ? & ? & ?). cbn in *. split; [done|]. split; [lia|].
      split; [lia|done].
  - cbn [zip_with map]. constructor; [|done]. apply Forall_map. eapply Forall_impl; [|exact Hcells].
    intros [o x] (? & ? & ? & ?). unfold apart, extent. cbn in *. lia.
Qed.

Lemma write_pointers_spec pn base offs : forall i buf,
  0 <= i -> 0 <= base -> base + 2 * (i + len offs) <= len buf -> len buf <= 65536 ->
  Forall (fun o => 0 <= o < 65536) offs ->
  exists buf', write_pointers i offs buf base pn = Ok buf' /\
    same_outside buf buf' (base + 2 * i) (base + 2 * (i + len offs)) /\
    forall k o, offs !! k = Some o -> read_be 2 buf' (base + 2 * (i + Z.of_nat k)) = Some o.
Proof.
  induction offs as [|o offs IH]; intros i buf Hi Hb Hlen Hmax Hoffs; cbn [write_pointers].
  { exists buf. split; [done|]. split; [apply same_outside_refl|done]. }
  apply Forall_cons_iff in Hoffs as [Ho Hoffs]. rewrite len_cons in *. pose proof (len_nonneg offs) as Hn.
  rewrite (proj2 (Z.leb_gt 65536 o)) by lia. rewrite wrap16_small by lia.
  rewrite sat_mul_small, sat_add_small by (unfold U64_MAX; lia).
  destruct (put_u16_ok buf (base + i * 2) o pn) as (buf1 & E1 & Hs1 & Hr1); [lia|lia|lia|].
  rewrite E1. cbn [mbind result_bind].
  destruct (IH (i + 1) buf1 ltac:(lia) Hb) as (buf2 & E2 & Hs2 & Hr2); [destruct Hs1 as [-> _]; lia..|done|].
  exists buf2. split; [done|]. split; [eapply same_outside_trans; [exact Hs1|exact Hs2|lia..]|].
  intros [|k] x Hk; cbn in Hk.
  - injection Hk as ->. rewrite (same_outside_read 2 _ _ _ _ _ Hs2) by lia.
    by replace (base + 2 * (i + Z.of_nat 0)) with (base + i * 2) by lia.
  - specialize (Hr2 k x Hk). by replace (i + Z.of_nat (S k)) with (i + 1 + Z.of_nat k) by lia.
Qed.

Lemma map_lookup {A B} (f : A -> B) l i x : l !! i = Some x -> map f l !! i = Some (f x).
Proof. revert i. induction l as [|y l IH]; intros [|i]; cbn; try done; [by intros [= ->]|apply IH]. Qed.

Lemma zip_fst {A B} (l : list A) (k : list B) : length l = length k -> map fst (zip l k) = l.
Proof. revert k. induction l as [|x l IH]; intros [|y k] H; cbn in *; try done. f_equal. apply IH. lia. Qed.

Lemma zip_snd {A B} (l : list A) (k : list B) : length l = length k -> map snd (zip l k) = k.
Proof. revert k. induction l as [|x l IH]; intros [|y k] H; cbn in *; try done. f_equal. apply IH. lia. Qed.

Lemma clear_from_ok buf hs pn :
  0 <= hs <= len buf ->
  exists buf', clear_from buf hs pn = Ok buf' /\ same_outside buf buf' hs (len buf) /\
    forall a b, hs <= a <= b -> b <= len buf -> get_range buf' a b = Some (zeros (b - a)).
Proof.
  intros Hh. unfold clear_from. rewrite get_from_Some by lia. cbn [ok_or mbind result_bind].
  assert (len (drop (Z.to_nat hs) buf) = len buf - hs) as Ld by (apply len_drop; lia).
  assert (len (take (Z.to_nat hs) buf) = hs) as Lt by (apply len_take; lia).
  eexists. split; [done|]. split; [split|].
  - rewrite len_app, Lt, Ld, len_zeros by lia. lia.
  - intros a b [Hb|Ha].
    + rewrite get_range_app_l by lia. rewrite <- (take_drop (Z.to_nat hs) buf) at 2. by rewrite get_range_app_l by lia.
    + unfold get_range. rewrite len_app, Lt, Ld, len_zeros by lia. replace (hs + (len buf - hs)) with (len buf) by lia.
      destruct (Z.leb_spec 0 a), (Z.leb_spec a b), (Z.leb_spec b (len buf)); try done. cbn [andb].
      assert (a = len buf /\ b = len buf) as [-> ->] by lia. rewrite Z.sub_diag. done.
  - intros a b Hab Hb. rewrite get_range_app_r by lia. rewrite Lt, Ld, get_range_Some by (rewrite ?len_zeros; lia).
    f_equal. unfold zeros. rewrite drop_replicate, take_replicate. f_equal. lia.
Qed.

Lemma read_zeros n a b buf : get_range buf a b = Some (zeros (b - a)) -> b = a + Z.of_nat n -> read_be n buf a = Some 0.
Proof.
  intros H ->. unfold read_be. rewrite H. cbn. f_equal. replace (a + Z.of_nat n - a) with (Z.of_nat n) by lia.
  unfold zeros. rewrite Nat2Z.id. clear. induction n as [|n IH]; [done|]. cbn [replicate].
  by rewrite be_decode_cons, IH.
Qed.

Lemma put_u8_ok buf off v pn :
  0 <= off -> off + 1 <= len buf ->
  exists buf', put_u8 buf off v pn = Ok buf' /\ same_outside buf buf' off (off + 1) /\ get_at buf' off = Some v.
Proof.
  intros H0 H1. destruct (put_ok buf off [v] pn H0 H1) as (buf' & E & Hs & Hr). exists buf'. split; [done|]. split; [done|].
  rewrite get_at_range. change (off + len [v]) with (off + 1) in Hr. by rewrite Hr.
Qed.

(** The first half of the header: the page type, everything else zero. *)
Lemma init_header buf hs pn ty :
  0 <= hs <= 100 -> hs + 8 <= len buf ->
  exists b1, (b ← clear_from buf hs pn; put_u8 b hs ty pn) = Ok b1 /\ same_outside buf b1 hs (len buf) /\
    get_at b1 hs = Some ty /\ read_be 2 b1 (hs + 1) = Some 0.
Proof.
  intros Hhs Hl. destruct (clear_from_ok buf hs pn ltac:(lia)) as (b0 & -> & S0 & Z0). cbn [mbind result_bind].
  pose proof (proj1 S0) as L0. destruct (put_u8_ok b0 hs ty pn) as (b1 & -> & S1 & T1); [lia|lia|].
  exists b1. split; [done|]. split; [eapply same_outside_trans; [exact S0|exact S1|lia..]|]. split; [done|].
  rewrite (same_outside_read 2 _ _ _ _ _ S1) by lia. apply (read_zeros 2 _ (hs + 1 + 2)); [apply Z0; lia|lia].
Qed.

(** The second half: cell count, content start, no fragments. *)
Lemma finish_header b3 hs pn num cs :
  0 <= hs <= 100 -> hs + 8 <= len b3 -> 0 <= num < 65536 -> 0 <= cs <= 65536 ->
  exists b6,
    (b ← put b3 (hs + 3) (be_encode 2 (wrap 16 num)) pn;
     b ← put b (hs + 5) (be_encode 2 (if 65536 <=? cs then 0 else wrap 16 cs)) pn;
     put_u8 b (hs + 7) 0 pn) = Ok b6 /\ same_outside b3 b6 (hs + 3) (hs + 8) /\
    read_be 2 b6 (hs + 3) = Some num /\ read_be 2 b6 (hs + 5) = Some (if cs =? 65536 then 0 else cs) /\
    get_at b6 (hs + 7) = Some 0.
Proof.
  intros Hhs Hl Hn Hcs. rewrite (wrap16_small num) by done.
  destruct (put_u16_ok b3 (hs + 3) num pn) as (b4 & -> & S4 & R4); [lia|lia|lia|]. cbn [mbind result_bind].
  pose proof (proj1 S4) as L4. set (v := if 65536 <=? cs then 0 else wrap 16 cs).
  assert (v = (if cs =? 65536 then 0 else cs) /\ 0 <= v < 65536) as [Hv Hv2].
  { unfold v. destruct (Z.leb_spec 65536 cs), (Z.eqb_spec cs 65536); try lia. rewrite wrap16_small by lia. lia. }
  destruct (put_u16_ok b4 (hs + 5) v pn) as (b5 & -> & S5 & R5); [lia|lia|lia|]. cbn [mbind result_bind].
  pose proof (proj1 S5) as L5. destruct (put_u8_ok b5 (hs + 7) 0 pn) as (b6 & -> & S6 & T6); [lia|lia|].
  exists b6. split; [done|].
  pose proof (same_outside_trans _ _ _ _ _ _ _ (hs + 5) (hs + 8) S5 S6 ltac:(lia) ltac:(lia) ltac:(lia) ltac:(lia)) as S56.
  split; [eapply same_outside_trans; [exact S4|exact S56|lia..]|].
  split; [rewrite (same_outside_read 2 _ _ _ _ _ S6), (same_outside_read 2 _ _ _ _ _ S5) by lia; done|].
  split; [rewrite (same_outside_read 2 _ _ _ _ _ S6) by lia; by rewrite R5, Hv|done].
Qed.

(** The page a from-scratch write leaves: the cells packed at the end in
    order, no freeblock, no fragment, and nothing before the header touched. *)
Lemma write_page_common_spec buf hs pn ty hl cells :
  0 <= hs <= 100 -> 8 <= hl <= 12 -> len buf <= 65536 -> Forall (fun c => 1 <= len c) cells ->
  hs + hl + 2 * len cells + total_len cells <= len buf ->
  exists buf' slots, write_page_common buf hs pn ty hl cells = Ok buf' /\
    map snd slots = cells /\ page_slots buf' hs hl (len buf - total_len cells) slots /\
    same_outside buf buf' hs (len buf) /\ get_at buf' hs = Some ty /\
    read_be 2 buf' (hs + 1) = Some 0 /\ get_at buf' (hs + 7) = Some 0 /\
    ForallOrdPairs apart (map extent slots).
Proof.
  intros Hhs Hhl Hmax Hpos Hfit. pose proof (total_len_nonneg cells) as Htn. pose proof (len_nonneg cells) as Hcn.
  destruct (init_header buf hs pn ty Hhs ltac:(lia)) as (b1 & E1 & S1 & T1 & F1). pose proof (proj1 S1) as L1.
  destruct (place_cells_spec pn (rev cells) b1 (len b1)) as (b2 & offs & E2 & Hlo & S2 & Hcells & Hap);
    [by apply Forall_rev|rewrite total_len_rev; lia|lia|].
  rewrite total_len_rev in *. pose proof (proj1 S2) as L2. rewrite L1 in *. set (cs := len buf - total_len cells) in *.
  set (slots := rev (zip offs (rev cells))).
  assert (map snd slots = cells) as Hsnd by (unfold slots; rewrite map_rev, zip_snd, rev_involutive; done).
  assert (map fst slots = rev offs) as Hfst by (unfold slots; rewrite map_rev, zip_fst; done).
  assert (len slots = len cells) as Hls by (rewrite <- Hsnd; unfold len; rewrite length_map; done).
  assert (len (rev offs) = len cells) as Hlr by (rewrite <- Hfst; unfold len in *; rewrite length_map; done).
  assert (Forall (fun s => 1 <= len s.2 /\ cs <= s.1 /\ s.1 + len s.2 <= len buf /\
    get_range b2 s.1 (s.1 + len s.2) = Some s.2) slots) as Hslots by (by apply Forall_rev).
  destruct (write_pointers_spec pn (hs + hl) (rev offs) 0 b2) as (b3 & E3 & S3 & P3); [lia|lia|lia|lia| |].
  { rewrite <- Hfst. apply Forall_map. eapply Forall_impl; [|exact Hslots]. intros [o c] (? & ? & ? & _). cbn in *. lia. }
  rewrite Hlr in S3. pose proof (proj1 S3) as L3.
  destruct (finish_header b3 hs pn (len cells) cs Hhs ltac:(lia) ltac:(lia) ltac:(lia)) as (b6 & E6 & S6 & R6 & C6 & T6).
  exists b6, slots. split.
  { revert E1 E6. unfold write_page_common. destruct (clear_from buf hs pn) as [b0|]; [|done]. cbn [mbind result_bind].
    destruct (put_u8 b0 hs ty pn) as [b|]; [|done]. intros [= ->]. cbn [mbind result_bind]. cbv zeta. rewrite L1.
    rewrite !sat_add_small by (unfold U64_MAX; lia). rewrite E2. cbn [mbind result_bind]. rewrite E3. cbn [mbind result_bind]. done. }
  split; [done|]. split; [|split; [|split; [|split; [|split; [done|]]]]].
  - constructor; [done|done|rewrite (proj1 S6); lia|rewrite (proj1 S6); lia|by rewrite Hls|done| |].
    + intros i o c Hi. rewrite (same_outside_read 2 _ _ _ _ _ S6) by lia. apply (P3 i).
      rewrite <- Hfst. exact (map_lookup fst _ _ _ Hi).
    + intros i o c Hi. destruct (proj1 (Forall_lookup _ _) Hslots _ _ Hi) as (H1 & H2 & H3 & Hr). cbn [fst snd] in *.
      split; [done|]. split; [done|]. split; [rewrite (proj1 S6); lia|].
      rewrite (proj2 S6), (proj2 S3) by lia. done.
  - apply (same_outside_trans _ b1 _ hs (len buf) hs (len buf)); [done| |lia..].
    apply (same_outside_trans _ b2 _ cs (len buf) hs (len buf)); [done| |lia..].
    apply (same_outside_trans _ b3 _ (hs + hl) (len buf) hs (len buf)); [|eapply same_outside_weaken; [exact S6|lia..]|lia..].
    eapply same_outside_weaken; [exact S3|lia..].
  - rewrite (same_outside_at _ _ _ _ _ S6), (same_outside_at _ _ _ _ _ S3), (same_outside_at _ _ _ _ _ S2) by lia. done.
  - rewrite (same_outside_read 2 _ _ _ _ _ S6), (same_outside_read 2 _ _ _ _ _ S3), (same_outside_read 2 _ _ _ _ _ S2) by lia. done.
  - unfold slots. rewrite map_rev. apply FOP_rev; [apply apart_sym|done].
Qed.

Lemma write_leaf_page_spec buf hs pn cells :
  0 <= hs <= 100 -> len buf <= 65536 -> Forall (fun c => 1 <= len c) cells ->
  hs + 8 + 2 * len cells + total_len cells <= len buf ->
  exists buf' slots, write_leaf_page buf hs pn cells = Ok buf' /\ map snd slots = cells /\
    leaf_page buf' hs (len buf - total_len cells) slots [] /\ same_outside buf buf' hs (len buf).
Proof.
  intros Hhs Hmax Hpos Hfit.
  destruct (write_page_common_spec buf hs pn LEAF_TABLE 8 cells Hhs ltac:(lia) Hmax Hpos Hfit)
    as (buf' & slots & E & Hsnd & Hps & Hs & Ht & Hf & Hfr & Hap).
  exists buf', slots. split; [done|]. split; [done|]. split; [|done].
  constructor; [done|done|by eexists|exists 0; split; [done|constructor]|constructor|constructor|by rewrite app_nil_r].
Qed.

(** ** Inserting a cell in place *)

Lemma shift_up_spec pn base n : forall index buf,
  0 <= base -> 0 <= index -> base + 2 * (index + Z.of_nat n + 1) <= len buf -> len buf <= 65536 ->
  (forall i, index <= i < index + Z.of_nat n -> exists v, read_be 2 buf (base + 2 * i) = Some v /\ 0 <= v < 65536) ->
  exists buf', shift_up n index buf base pn = Ok buf' /\
    same_outside buf buf' (base + 2 * (index + 1)) (base + 2 * (index + Z.of_nat n + 1)) /\
    forall i, index <= i < index + Z.of_nat n -> read_be 2 buf' (base + 2 * (i + 1)) = read_be 2 buf (base + 2 * i).
Proof.
  induction n as [|n IH]; intros index buf Hb Hi Hl Hmax Hr; cbn [shift_up].
  { exists buf. split; [done|]. split; [apply same_outside_refl|lia]. }
  destruct (Hr (index + Z.of_nat n)) as (v & Hv & Hv2); [lia|].
  rewrite (sat_add_small (index + Z.of_nat n) 1) by (unfold U64_MAX; lia). rewrite !cell_ptr_offset_eq by lia.
  rewrite (read_cell_pointer_eq _ _ v) by (try lia; done). cbn [mbind result_bind].
  destruct (write_u16_ok buf (base + 2 * (index + Z.of_nat n + 1)) v pn) as (b1 & -> & S1 & R1); [lia|lia|lia|].
  cbn [mbind result_bind]. pose proof (proj1 S1) as L1.
  destruct (IH index b1 Hb Hi) as (b2 & -> & S2 & R2); [lia|lia| |].
  { intros i Hi'. rewrite (same_outside_read 2 _ _ _ _ _ S1) by lia. apply Hr. lia. }
  exists b2. split; [done|]. split; [eapply same_outside_trans; [exact S1|exact S2|lia..]|].
  intros i Hi'. destruct (Z.eq_dec i (index + Z.of_nat n)) as [->|Hne].
  - rewrite (same_outside_read 2 _ _ _ _ _ S2) by lia. by rewrite R1, Hv.
  - rewrite R2 by lia. apply (same_outside_read 2 _ _ _ _ _ S1). lia.
Qed.

Lemma block_chain_frame buf buf' lo hi first blocks :
  block_chain buf first blocks -> same_outside buf buf' lo hi -> Forall (fun b => hi <= b.1 /\ 4 <= b.2) blocks ->
  block_chain buf' first blocks.
Proof.
  intros H Hs. induction H as [|off size next rest Hne Hn Hsz Hc IH]; intros Hb; [constructor|].
  apply Forall_cons_iff in Hb as [[Ho H4] Hb]. cbn [fst snd] in *.
  apply (free_block _ off size next); [done| | |by apply IH].
  - rewrite (same_outside_read 2 _ _ _ _ _ Hs) by lia. done.
  - rewrite (same_outside_read 2 _ _ _ _ _ Hs) by lia. done.
Qed.

Lemma content_start_eq buf hs cs pn :
  0 <= hs <= 100 -> 1 <= cs <= 65536 -> read_be 2 buf (hs + 5) = Some (if cs =? 65536 then 0 else cs) ->
  read_content_start buf hs pn = Ok cs.
Proof.
  intros Hhs Hcs Hr. unfold read_content_start. rewrite sat_add_small by (unfold U64_MAX; lia).
  rewrite (read_u16_eq buf (hs + 5) (if cs =? 65536 then 0 else cs)) by (try lia; done). cbn [mbind result_bind].
  destruct (Z.eqb_spec cs 65536) as [->|]; [done|]. destruct (Z.eqb_spec cs 0); [lia|done].
Qed.

Lemma write_content_start_ok buf hs cs pn :
  0 <= hs <= 100 -> hs + 7 <= len buf -> 0 <= cs <= 65536 ->
  exists buf', write_content_start buf hs cs pn = Ok buf' /\ same_outside buf buf' (hs + 5) (hs + 7) /\
    read_be 2 buf' (hs + 5) = Some (if cs =? 65536 then 0 else cs).
Proof.
  intros Hhs Hl Hcs. unfold write_content_start. rewrite sat_add_small by (unfold U64_MAX; lia).
  set (v := if 65536 <=? cs then 0 else cs).
  assert (v = (if cs =? 65536 then 0 else cs) /\ 0 <= v < 65536) as [Hv Hv2].
  { unfold v. destruct (Z.leb_spec 65536 cs), (Z.eqb_spec cs 65536); lia. }
  destruct (write_u16_ok buf (hs + 5) v pn) as (b & E & S & R); [lia|lia|lia|]. exists b. split; [done|].
  replace (hs + 7) with (hs + 5 + 2) by lia. split; [done|]. by rewrite R, Hv.
Qed.

(** Inserting at a position, and looking up in the result. *)
Definition insert_at {A} (i : nat) (x : A) (l : list A) : list A := take i l ++ x :: drop i l.

Lemma insert_at_lookup {A} (l : list A) i x k y :
  (i <= length l)%nat -> insert_at i x l !! k = Some y ->
  ((k < i)%nat /\ l !! k = Some y) \/ (k = i /\ y = x) \/ ((i < k)%nat /\ l !! (k - 1)%nat = Some y).
Proof.
  intros Hi. unfold insert_at. destruct (lt_eq_lt_dec k i) as [[Hk| ->]|Hk].
  - rewrite lookup_app_l by (rewrite length_take; lia). rewrite lookup_take_Some. left. tauto.
  - rewrite list_lookup_middle by (rewrite length_take; lia). intros [= <-]. right. by left.
  - rewrite lookup_app_r by (rewrite length_take; lia). rewrite length_take_le by lia.
    destruct (k - i)%nat as [|m] eqn:E; [lia|]. change ((x :: drop i l) !! S m) with (drop i l !! m). rewrite lookup_drop.
    replace (i + m)%nat with (k - 1)%nat by lia. intros H. right. right. split; [lia|done].
Qed.

Lemma len_insert_at {A} (l : list A) i x : (i <= length l)%nat -> len (insert_at i x l) = len l + 1.
Proof. intros. unfold insert_at, len. rewrite length_app, length_take, length_cons, length_drop. lia. Qed.

Lemma map_insert_at {A B} (f : A -> B) l i x : map f (insert_at i x l) = insert_at i (f x) (map f l).
Proof. unfold insert_at. rewrite map_app. cbn [map]. by rewrite firstn_map, skipn_map. Qed.

Lemma FOP_insert_at {A} (R : A -> A -> Prop) l k i x :
  (forall a b, R a b -> R b a) -> ForallOrdPairs R (l ++ k) -> Forall (R x) (l ++ k) ->
  ForallOrdPairs R (insert_at i x l ++ k).
Proof.
  intros Hsym Hl Hx. unfold insert_at. rewrite <- (take_drop i l) in Hl, Hx.
  rewrite <- app_assoc in *. cbn [app]. apply FOP_app in Hl as (H1 & H2 & H3). apply Forall_app in Hx as [Hx1 Hx2].
  apply FOP_app. split; [done|]. split; [by constructor|].
  apply Forall_forall. intros y Hy. constructor.
  - apply Hsym. rewrite Forall_forall in Hx1. by apply Hx1.
  - rewrite Forall_forall in H3. by apply H3.
Qed.

(** The five writes of an insertion, on a page with room. *)
Lemma splice_insert_writes buf hs cs slots pn index cell :
  page_slots buf hs 8 cs slots -> (index <= length slots)%nat -> 1 <= len cell <= 65536 ->
  hs + 8 + 2 * len slots + 2 + len cell <= cs ->
  exists buf', splice_insert_cell buf hs pn (Z.of_nat index) cell = Ok (Some buf') /\
    same_outside buf buf' (hs + 3) cs /\
    read_be 2 buf' (hs + 3) = Some (len slots + 1) /\
    read_be 2 buf' (hs + 5) = Some (if cs - len cell =? 65536 then 0 else cs - len cell) /\
    get_range buf' (cs - len cell) cs = Some cell /\
    read_be 2 buf' (hs + 8 + 2 * Z.of_nat index) = Some (cs - len cell) /\
    (forall i, 0 <= i < Z.of_nat index -> read_be 2 buf' (hs + 8 + 2 * i) = read_be 2 buf (hs + 8 + 2 * i)) /\
    (forall i, Z.of_nat index <= i < len slots -> read_be 2 buf' (hs + 8 + 2 * (i + 1)) = read_be 2 buf (hs + 8 + 2 * i)).
Proof.
  intros [Hhs _ Hmax Hroom Hnum Hcs Hptr Hcell] Hi Hc Hfit.
  pose proof (len_nonneg slots) as Hsn. assert (Z.of_nat index <= len slots) as Hi' by (unfold len; lia).
  unfold splice_insert_cell. rewrite (read_num_cells_eq _ _ (len slots)) by done. cbn [mbind result_bind]. cbv zeta.
  rewrite (content_start_eq _ _ cs) by (try lia; done). cbn [mbind result_bind].
  rewrite !sat_add_small by (unfold U64_MAX; lia). rewrite !cell_ptr_offset_eq by lia.
  rewrite (proj2 (Z.ltb_ge _ _)) by lia. rewrite !sat_sub_small by lia. rewrite (proj2 (Z.ltb_ge _ _)) by lia. cbn [orb].
  destruct (put_ok buf (cs - len cell) cell pn) as (b1 & -> & S1 & R1); [lia|lia|]. cbn [mbind result_bind].
  replace (cs - len cell + len cell) with cs in * by lia. pose proof (proj1 S1) as L1.
  destruct (shift_up_spec pn (hs + 8) (Z.to_nat (len slots - Z.of_nat index)) (Z.of_nat index) b1) as (b2 & -> & S2 & R2);
    [lia|lia|lia|lia| |].
  { intros i Hi2. rewrite (same_outside_read 2 _ _ _ _ _ S1) by lia.
    destruct (lookup_lt_is_Some_2 slots (Z.to_nat i)) as [[o c] Hs]; [unfold len in *; lia|].
    destruct (Hcell _ _ _ Hs) as (H1 & H2 & H3 & _). exists o. split; [|lia].
    rewrite <- (Hptr _ _ _ Hs). f_equal. lia. }
  cbn [mbind result_bind]. rewrite Z2Nat.id in S2, R2 by lia. pose proof (proj1 S2) as L2.
  destruct (write_u16_ok b2 (hs + 8 + 2 * Z.of_nat index) (cs - len cell) pn) as (b3 & -> & S3 & R3); [lia|lia|lia|].
  cbn [mbind result_bind]. pose proof (proj1 S3) as L3.
  destruct (write_content_start_ok b3 hs (cs - len cell) pn Hhs) as (b4 & -> & S4 & R4); [lia|lia|].
  cbn [mbind result_bind]. pose proof (proj1 S4) as L4.
  destruct (write_u16_ok b4 (hs + 3) (len slots + 1) pn) as (b5 & -> & S5 & R5); [lia|lia|lia|].
  cbn [mbind result_bind]. exists b5. split; [done|].
  split.
  { apply (same_outside_trans _ b1 _ (cs - len cell) cs (hs + 3) cs); [done| |lia..].
    apply (same_outside_trans _ b2 _ (hs + 8) cs (hs + 3) cs); [eapply same_outside_weaken; [exact S2|lia..]| |lia..].
    apply (same_outside_trans _ b3 _ (hs + 8) cs (hs + 3) cs); [eapply same_outside_weaken; [exact S3|lia..]| |lia..].
    apply (same_outside_trans _ b4 _ (hs + 5) (hs + 7) (hs + 3) (hs + 3 + 2)); [done|done|lia..]. }
  split; [done|]. split; [rewrite (same_outside_read 2 _ _ _ _ _ S5) by lia; done|].
  split; [rewrite (proj2 S5), (proj2 S4), (proj2 S3), (proj2 S2) by lia; done|].
  split; [rewrite (same_outside_read 2 _ _ _ _ _ S5), (same_outside_read 2 _ _ _ _ _ S4) by lia; done|]. split.
  - intros i Hi2. rewrite (same_outside_read 2 _ _ _ _ _ S5), (same_outside_read 2 _ _ _ _ _ S4),
      (same_outside_read 2 _ _ _ _ _ S3), (same_outside_read 2 _ _ _ _ _ S2), (same_outside_read 2 _ _ _ _ _ S1) by lia. done.
  - intros i Hi2. rewrite (same_outside_read 2 _ _ _ _ _ S5), (same_outside_read 2 _ _ _ _ _ S4),
      (same_outside_read 2 _ _ _ _ _ S3) by lia. rewrite R2 by lia. apply (same_outside_read 2 _ _ _ _ _ S1). lia.
Qed.

Lemma splice_insert_spec buf hs cs slots blocks pn index cell :
  leaf_page buf hs cs slots blocks -> (index <= length slots)%nat -> 1 <= len cell <= 65536 ->
  hs + 8 + 2 * len slots + 2 + len cell <= cs ->
  exists buf', splice_insert_cell buf hs pn (Z.of_nat index) cell = Ok (Some buf') /\
    leaf_page buf' hs (cs - len cell) (insert_at index (cs - len cell, cell) slots) blocks /\
    same_outside buf buf' (hs + 3) (len buf).
Proof.
  intros [Hsl Hty [x Hfr] (first & Hfirst & Hchain) Hblk Hsort Hap] Hi Hc Hfit.
  destruct (splice_insert_writes buf hs cs slots pn index cell Hsl Hi Hc Hfit)
    as (buf' & E & S & Rn & Rc & Rcell & Rnew & Rlo & Rhi).
  destruct Hsl as [Hhs Hhl Hmax Hroom Hnum Hcs Hptr Hcell]. pose proof (proj1 S) as L.
  exists buf'. split; [done|]. split; [|eapply same_outside_weaken; [exact S|lia..]].
  assert (forall k o c, insert_at index (cs - len cell, cell) slots !! k = Some (o, c) ->
    (o, c) = (cs - len cell, cell) \/ exists j, slots !! j = Some (o, c)) as Hlk.
  { intros k o c Hk. apply insert_at_lookup in Hk as [[_ Hk]|[[_ ->]|[_ Hk]]]; [right; eauto|by left|right; eauto|done]. }
  constructor; [constructor|..].
  - done.
  - done.
  - lia.
  - rewrite len_insert_at by done. lia.
  - by rewrite len_insert_at.
  - done.
  - intros i o c Hk. apply insert_at_lookup in Hk as [[Hk1 Hk]|[[-> [= -> ->]]|[Hk1 Hk]]]; [|done| |done].
    + rewrite Rlo by lia. by eapply Hptr.
    + replace (Z.of_nat i) with (Z.of_nat (i - 1) + 1) by lia.
      assert (Z.of_nat (i - 1) < len slots) by (apply lookup_lt_Some in Hk; unfold len; lia).
      rewrite Rhi by lia. by eapply Hptr.
  - intros i o c Hk. apply Hlk in Hk as [[= -> ->]|[j Hk]].
    + split; [lia|]. split; [lia|]. split; [lia|]. by replace (cs - len cell + len cell) with cs by lia.
    + destruct (Hcell _ _ _ Hk) as (H1 & H2 & H3 & H4). split; [done|]. split; [lia|]. split; [lia|].
      by rewrite (proj2 S) by lia.
  - by rewrite (same_outside_at _ _ _ _ _ S) by lia.
  - rewrite get_at_lookup by lia. apply lookup_lt_is_Some_2. unfold len in *. lia.
  - exists first. split; [by rewrite (same_outside_read 2 _ _ _ _ _ S) by lia|].
    apply (block_chain_frame buf _ (hs + 3) cs); [done|done|]. eapply Forall_impl; [|exact Hblk]. tauto.
  - eapply Forall_impl; [|exact Hblk]. cbn. lia.
  - done.
  - rewrite map_insert_at. apply FOP_insert_at; [apply apart_sym|done|]. apply Forall_app. split.
    + apply Forall_map, Forall_lookup. intros j [o c] Hj. destruct (Hcell _ _ _ Hj) as (? & ? & _).
      unfold apart, extent. cbn. lia.
    + eapply Forall_impl; [|exact Hblk]. intros [o n] (? & ? & ?). unfold apart, extent. cbn in *. lia.
Qed.

Lemma splice_insert_refuses buf hs cs slots blocks pn index cell :
  leaf_page buf hs cs slots blocks -> 1 <= len cell <= 65536 -> cs < hs + 8 + 2 * len slots + 2 + len cell ->
  splice_insert_cell buf hs pn (Z.of_nat index) cell = Ok None.
Proof.
  intros [[Hhs _ Hmax Hroom Hnum Hcs Hptr Hcell] _ _ _ _ _ _] Hc Hfit. pose proof (len_nonneg slots) as Hsn.
  unfold splice_insert_cell. rewrite (read_num_cells_eq _ _ (len slots)) by done. cbn [mbind result_bind]. cbv zeta.
  rewrite (content_start_eq _ _ cs) by (try lia; done). cbn [mbind result_bind].
  rewrite !sat_add_small by (unfold U64_MAX; lia). rewrite cell_ptr_offset_eq by lia.
  rewrite (proj2 (Z.ltb_ge _ _)) by lia. rewrite sat_sub_small by lia. rewrite (proj2 (Z.ltb_lt _ _)) by lia. done.
Qed.

(** ** Interior pages *)

Definition interior_cells (entries : list (Z * Z)) : list (list Z) := map (fun e => build_interior_cell e.1 e.2) entries.

Lemma as_i64_wrap k : is_i64 k -> as_i64 (wrap 64 k) = k.
Proof.
  intros Hk. unfold as_i64, to_signed, wrap. rewrite Z.mod_mod by lia. unfold is_i64 in Hk.
  change (2 ^ 64) with 18446744073709551616. change (2 ^ (64 - 1)) with 9223372036854775808.
  destruct (Z_le_gt_dec 0 k).
  - rewrite Z.mod_small by lia. destruct (Z.ltb_spec k 9223372036854775808); lia.
  - assert (k mod 18446744073709551616 = k + 18446744073709551616) as ->
      by (rewrite <- (Z.mod_add k 1) by lia; apply Z.mod_small; lia).
    destruct (Z.ltb_spec (k + 18446744073709551616) 9223372036854775808); lia.
Qed.

Lemma len_interior_cell child key : 5 <= len (build_interior_cell child key) <= 13.
Proof.
  unfold build_interior_cell. rewrite len_app, len_be_encode.
  assert (0 <= wrap 64 key) by (apply Z.mod_pos_bound; lia). pose proof (encode_varint_nonempty (wrap 64 key)). lia.
Qed.

(** Reading an interior cell at an offset of a page. *)
Lemma interior_cell_at buf o child key pn :
  0 <= o -> get_range buf o (o + len (build_interior_cell child key)) = Some (build_interior_cell child key) ->
  is_u32 child -> is_i64 key -> len buf <= 65536 ->
  exists rest, read_u32 buf o pn = Ok child /\ get_from buf (sat_add o 4) = Some rest /\
    (r ← decode_varint rest; Ok (as_i64 r.1)) = Ok key.
Proof.
  intros H0 Hr Hc Hk Hmax. pose proof (len_interior_cell child key) as Lc.
  apply get_range_inv in Hr as (_ & Hle & _ & Hcell). set (cell := build_interior_cell child key) in *.
  replace (o + len cell - o) with (len cell) in Hcell by lia.
  assert (drop (Z.to_nat o) buf = be_encode 4 child ++ encode_varint (wrap 64 key) ++ drop (Z.to_nat (len cell)) (drop (Z.to_nat o) buf)) as Hd.
  { rewrite <- (take_drop (Z.to_nat (len cell)) (drop (Z.to_nat o) buf)) at 1. rewrite <- Hcell. unfold cell, build_interior_cell.
    by rewrite <- app_assoc. }
  exists (drop (Z.to_nat (o + 4)) buf). rewrite sat_add_small by (unfold U64_MAX; lia). split; [|split].
  - unfold read_u32. rewrite sat_add_small by (unfold U64_MAX; lia). rewrite get_range_Some by lia. cbn [ok_or mbind result_bind].
    replace (o + 4 - o) with 4 by lia. rewrite Hd. rewrite take_app_le by (rewrite length_be_encode; lia).
    rewrite take_ge by (rewrite length_be_encode; lia). by rewrite be_roundtrip.
  - apply get_from_Some; lia.
  - replace (Z.to_nat (o + 4)) with (Z.to_nat o + 4)%nat by lia. rewrite <- drop_drop, Hd.
    rewrite drop_app_ge by (rewrite length_be_encode; lia). rewrite length_be_encode, Nat.sub_diag, drop_0.
    rewrite decode_encode_varint by (unfold is_u64, wrap; apply (Z.mod_pos_bound key (2 ^ 64)); lia).
    cbn [mbind result_bind fst]. by rewrite as_i64_wrap.
Qed.

Lemma interior_loop_spec pn buf hs cs slots entries :
  page_slots buf hs 12 cs slots -> map snd slots = interior_cells entries ->
  Forall (fun e => is_u32 e.1 /\ is_i64 e.2) entries ->
  forall n i, (i + n = length entries)%nat ->
  interior_loop n (Z.of_nat i) buf (hs + 12) pn = Ok (drop i entries).
Proof.
  intros [Hhs _ Hmax Hroom _ _ Hptr Hcell] Hs He n.
  assert (length slots = length entries) as Hl by (apply (f_equal length) in Hs; unfold interior_cells in Hs; by rewrite !length_map in Hs).
  induction n as [|n IH]; intros i Hi; cbn [interior_loop].
  { rewrite drop_ge by lia. done. }
  destruct (lookup_lt_is_Some_2 slots i ltac:(lia)) as [[o c] Hsi].
  destruct (lookup_lt_is_Some_2 entries i ltac:(lia)) as [[child key] Hei].
  assert (c = build_interior_cell child key) as ->.
  { pose proof (map_lookup snd _ _ _ Hsi) as H1. pose proof (map_lookup (fun e => build_interior_cell e.1 e.2) _ _ _ Hei) as H2.
    unfold interior_cells in Hs. rewrite Hs, H2 in H1. by injection H1 as <-. }
  destruct (proj1 (Forall_lookup _ _) He _ _ Hei) as [Hc Hk]. cbn [fst snd] in Hc, Hk.
  assert (2 * Z.of_nat i <= 2 * len slots) by (unfold len; lia).
  rewrite cell_ptr_offset_eq by lia.
  rewrite (read_cell_pointer_eq buf (hs + 12 + 2 * Z.of_nat i) o) by (first [lia|by eapply Hptr]). cbn [mbind result_bind].
  destruct (Hcell _ _ _ Hsi) as (Hc1 & Hc2 & Hc3 & Hr). pose proof (len_interior_cell child key) as Lc.
  set (cell := build_interior_cell child key) in *.
  destruct (interior_cell_at buf o child key pn ltac:(lia) Hr Hc Hk Hmax) as (rest & E1 & E2 & E3).
  rewrite E1. cbn [mbind result_bind]. rewrite E2. cbn [ok_or mbind result_bind].
  replace (Z.of_nat i + 1) with (Z.of_nat (S i)) by lia.
  destruct (decode_varint rest) as [[v nv]|]; [|done]. cbn [map_err mbind result_bind]. rewrite IH by lia. cbn [mbind result_bind].
  rewrite (drop_S entries (child, key) i Hei). injection E3 as ->. done.
Qed.

(** An interior page with its entries and rightmost child. *)
Definition interior_layout (buf : list Z) (hs : Z) (entries : list (Z * Z)) (rightmost : Z) : Prop :=
  get_at buf hs = Some INTERIOR_TABLE /\ Forall (fun e => is_u32 e.1 /\ is_i64 e.2) entries /\ is_u32 rightmost /\
  hs + 12 + 2 * len entries + total_len (interior_cells entries) <= len buf /\
  read_be 4 buf (hs + 8) = Some rightmost /\
  exists cs slots, page_slots buf hs 12 cs slots /\ map snd slots = interior_cells entries.

Lemma read_u32_eq buf off v pn :
  0 <= off -> off <= 65536 -> read_be 4 buf off = Some v -> read_u32 buf off pn = Ok v.
Proof.
  intros H0 H1. unfold read_be, read_u32. rewrite sat_add_small by (unfold U64_MAX; lia).
  change (Z.of_nat 4) with 4. destruct (get_range buf off (off + 4)); [|done]. by intros [= <-].
Qed.

Lemma interior_read buf hs pn entries rightmost :
  interior_layout buf hs entries rightmost ->
  read_page_type buf hs pn = Ok INTERIOR_TABLE /\ collect_interior_entries buf hs pn = Ok (entries, rightmost).
Proof.
  intros (Hty & He & Hr & _ & Hrm & cs & slots & Hps & Hsnd). pose proof (ps_hs _ _ _ _ _ Hps) as Hhs.
  split; [unfold read_page_type; by rewrite Hty|].
  assert (len slots = len entries) as Hls
    by (apply (f_equal len) in Hsnd; unfold len, interior_cells in *; by rewrite !length_map in Hsnd).
  unfold collect_interior_entries. rewrite (read_num_cells_eq _ _ (len entries)) by (first [lia|rewrite <- Hls; by eapply ps_num]).
  cbn [mbind result_bind]. rewrite !sat_add_small by (unfold U64_MAX; lia).
  pose proof (interior_loop_spec pn buf hs _ slots entries Hps Hsnd He (Z.to_nat (len entries)) 0 ltac:(unfold len; lia)) as El.
  change (Z.of_nat 0) with 0 in El. rewrite El. cbn [mbind result_bind].
  by rewrite (read_u32_eq _ _ rightmost) by (first [lia|done]).
Qed.

Lemma write_interior_spec buf hs pn entries rightmost :
  0 <= hs <= 100 -> len buf <= 65536 -> Forall (fun e => is_u32 e.1 /\ is_i64 e.2) entries -> is_u32 rightmost ->
  hs + 12 + 2 * len entries + total_len (interior_cells entries) <= len buf ->
  exists buf', write_interior_page buf hs pn (interior_cells entries) rightmost = Ok buf' /\
    interior_layout buf' hs entries rightmost /\ same_outside buf buf' hs (len buf).
Proof.
  intros Hhs Hmax He Hr Hfit. pose proof (total_len_nonneg (interior_cells entries)) as Htn. pose proof (len_nonneg entries) as Hen.
  assert (len (interior_cells entries) = len entries) as Hl by (unfold len, interior_cells; by rewrite length_map).
  destruct (write_page_common_spec buf hs pn INTERIOR_TABLE 12 (interior_cells entries) Hhs ltac:(lia) Hmax) as
    (b1 & slots & E1 & Hsnd & Hps & Hs & Hty & _ & _ & _); [|lia|].
  { apply Forall_map, Forall_forall. intros e _. pose proof (len_interior_cell e.1 e.2). lia. }
  assert (len slots = len entries) as Hls by (apply (f_equal len) in Hsnd; rewrite Hl in Hsnd; unfold len in *; by rewrite length_map in Hsnd).
  pose proof (proj1 Hs) as L1. pose proof (len_be_encode 4 rightmost) as Lr.
  destruct (put_ok b1 (hs + 8) (be_encode 4 rightmost) pn) as (b2 & E2 & S2 & R2); [lia|lia|]. rewrite Lr in S2, R2.
  exists b2. unfold write_interior_page. rewrite E1. cbn [mbind result_bind]. rewrite sat_add_small by (unfold U64_MAX; lia).
  split; [done|]. pose proof Hps as [_ _ _ Hroom Hnum Hcs Hptr Hcell]. pose proof (proj1 S2) as L2.
  split; [|by eapply same_outside_trans; [exact Hs|exact S2|lia..]].
  split; [by rewrite (same_outside_at _ _ _ _ _ S2) by lia|]. do 2 (split; [done|]). split; [lia|].
  split; [by apply read_of_range|]. exists (len buf - total_len (interior_cells entries)), slots. split; [|done].
  constructor; try lia.
  - rewrite (same_outside_read 2 _ _ _ _ _ S2) by lia. done.
  - rewrite (same_outside_read 2 _ _ _ _ _ S2) by lia. done.
  - intros i o c Hi. rewrite (same_outside_read 2 _ _ _ _ _ S2) by lia. by eapply Hptr.
  - intros i o c Hi. destruct (Hcell _ _ _ Hi) as (? & ? & ? & ?). split; [done|]. split; [done|]. split; [lia|].
    by rewrite (proj2 S2) by lia.
Qed.

(** ** Layouts only depend on the bytes from the page header on *)

Lemma same_from_read n off (b b' : list Z) a : same_from off b b' -> off <= a -> read_be n b' a = read_be n b a.
Proof. intros [_ H] Ha. unfold read_be. by rewrite H. Qed.

Lemma same_from_at off (b b' : list Z) a : same_from off b b' -> off <= a -> get_at b' a = get_at b a.
Proof. intros [_ H] Ha. by rewrite !get_at_range, H. Qed.

Lemma page_slots_from b b' hs hl cs slots : page_slots b hs hl cs slots -> same_from hs b b' -> page_slots b' hs hl cs slots.
Proof.
  intros [Hhs Hhl Hmax Hroom Hnum Hcs Hptr Hcell] Hs. pose proof (proj1 Hs) as L. pose proof (len_nonneg slots).
  constructor; try lia; try (rewrite (same_from_read _ _ _ _ _ Hs) by lia; done).
  - intros i o c Hi. rewrite (same_from_read _ _ _ _ _ Hs) by lia. by eapply Hptr.
  - intros i o c Hi. destruct (Hcell _ _ _ Hi) as (? & ? & ? & ?). rewrite L, (proj2 Hs) by lia. done.
Qed.

Lemma block_chain_from b b' off first blocks :
  block_chain b first blocks -> Forall (fun k => off <= k.1) blocks -> same_from off b b' -> block_chain b' first blocks.
Proof.
  induction 1 as [|o size next rest Ho R1 R2 Hc IH]; intros Hf Hs; [constructor|].
  apply Forall_cons_iff in Hf as [Ho1 Hf]. cbn [fst] in Ho1.
  econstructor; [done|..|by apply IH]; rewrite (same_from_read _ _ _ _ _ Hs) by lia; done.
Qed.

Lemma leaf_page_from b b' hs cs slots blocks : leaf_page b hs cs slots blocks -> same_from hs b b' -> leaf_page b' hs cs slots blocks.
Proof.
  intros [Hsl Hty Hfr (first & R & Hch) Hb Hso Hap] Hs. pose proof Hsl as [Hhs _ _ Hroom _ _ _ _]. pose proof (len_nonneg slots).
  constructor; try done.
  - by eapply page_slots_from.
  - by rewrite (same_from_at _ _ _ _ Hs) by lia.
  - by rewrite (same_from_at _ _ _ _ Hs) by lia.
  - exists first. rewrite (same_from_read _ _ _ _ _ Hs) by lia. split; [done|]. eapply block_chain_from; [done| |done].
    eapply Forall_impl; [|exact Hb]. intros k (? & _). lia.
  - by rewrite (proj1 Hs).
Qed.

Lemma interior_from b b' hs entries rightmost :
  interior_layout b hs entries rightmost -> same_from hs b b' -> interior_layout b' hs entries rightmost.
Proof.
  intros (Hty & He & Hr & Hfit & Hrm & cs & slots & Hps & Hsnd) Hs.
  split; [by rewrite (same_from_at _ _ _ _ Hs) by lia|]. do 2 (split; [done|]). split; [by rewrite (proj1 Hs)|].
  split; [by rewrite (same_from_read _ _ _ _ _ Hs) by lia|]. exists cs, slots. split; [by eapply page_slots_from|done].
Qed.

Lemma rows_insert_at usable slots i o c rowid :
  parse_cell usable c = Some rowid -> rows usable (insert_at i (o, c) slots) = insert_at i (rowid, c) (rows usable slots).
Proof. intros Hp. unfold rows. rewrite map_insert_at. cbn [snd]. by rewrite Hp. Qed.

Lemma parsed_insert_at usable slots i o c rowid :
  parse_cell usable c = Some rowid -> parsed usable slots -> parsed usable (insert_at i (o, c) slots).
Proof.
  intros Hp Hs. unfold parsed, insert_at in *. rewrite <- (take_drop i slots) in Hs. apply Forall_app in Hs as [H1 H2].
  apply Forall_app. split; [done|]. constructor; [by eexists|done].
Qed.

(** ** Properties *)

(** Rebuilding a leaf page: whenever the cells fit the page (pointers
    included), [write_leaf_page] succeeds on a page in any state, the page is
    then a well-formed leaf without free blocks, [collect_leaf_cells] reads
    back exactly those cells in order with their rowids, and no byte before
    the b-tree header (page 1's file header) changes. *)
Theorem leaf_page_write_read buf hs pn usable cells :
  0 <= hs <= 100 -> len buf <= 65536 -> Forall (fun c => is_Some (parse_cell usable c)) cells ->
  Forall (fun c => 1 <= len c) cells -> hs + 8 + 2 * len cells + total_len cells <= len buf ->
  exists buf' cs slots, write_leaf_page buf hs pn cells = Ok buf' /\ leaf_page buf' hs cs slots [] /\
    collect_leaf_cells buf' hs pn usable = Ok (map (fun c => (default 0 (parse_cell usable c), c)) cells) /\
    get_range buf' 0 hs = get_range buf 0 hs.
Proof.
  intros Hhs Hmax Hp Hpos Hfit.
  destruct (write_leaf_page_spec buf hs pn cells Hhs Hmax Hpos Hfit) as (buf' & slots & E & Hsnd & Hl & Hs).
  exists buf', (len buf - total_len cells), slots. split; [done|]. split; [done|]. split.
  - rewrite (collect_spec usable pn _ _ _ _ (lp_slots _ _ _ _ _ Hl)).
    + f_equal. rewrite <- Hsnd. unfold rows. by rewrite map_map.
    + rewrite <- Hsnd in Hp. exact (proj1 (Forall_map snd (fun c => is_Some (parse_cell usable c)) slots) Hp).
  - apply (proj2 Hs). lia.
Qed.

Definition small_cells : list (list Z) := [[1; 5; 7]; [2; 9; 8; 8]].

Example leaf_page_write_read_witness :
  exists buf' cs slots, write_leaf_page (replicate 512 255) 100 1 small_cells = Ok buf' /\ leaf_page buf' 100 cs slots [] /\
    collect_leaf_cells buf' 100 1 512 = Ok [(5, [1; 5; 7]); (9, [2; 9; 8; 8])] /\
    get_range buf' 0 100 = get_range (replicate 512 255) 0 100.
Proof.
  apply (leaf_page_write_read (replicate 512 255) 100 1 512 small_cells); [lia|by vm_compute| | |by vm_compute].
  - constructor; [by eexists|]. constructor; [by eexists|constructor].
  - constructor; [by vm_compute|]. constructor; [by vm_compute|constructor].
Defined.

(** C28. Inserting in place: on a well-formed leaf, [splice_insert_cell] at
    position [index] succeeds exactly when pointer and cell fit the gap before
    the content area; the page is then well formed with the same freeblocks
    and reads back as the old cells with the new one inserted there.  Without
    room it reports so and nothing is written. *)
Theorem splice_insert_inserts buf hs cs slots blocks pn usable index cell rowid :
  leaf_page buf hs cs slots blocks -> parsed usable slots -> (index <= length slots)%nat ->
  parse_cell usable cell = Some rowid -> 1 <= len cell <= 65536 ->
  exists l, collect_leaf_cells buf hs pn usable = Ok l /\
  if hs + 8 + 2 * len slots + 2 + len cell <=? cs then
    exists buf' slots', splice_insert_cell buf hs pn (Z.of_nat index) cell = Ok (Some buf') /\
      leaf_page buf' hs (cs - len cell) slots' blocks /\ parsed usable slots' /\
      collect_leaf_cells buf' hs pn usable = Ok (insert_at index (rowid, cell) l)
  else splice_insert_cell buf hs pn (Z.of_nat index) cell = Ok None.
Proof.
  intros H Hp Hi Hc Hlc. exists (rows usable slots). split; [apply (collect_spec _ _ _ _ _ _ (lp_slots _ _ _ _ _ H) Hp)|].
  destruct (Z.leb_spec (hs + 8 + 2 * len slots + 2 + len cell) cs) as [Hfit|Hfit].
  - destruct (splice_insert_spec buf hs cs slots blocks pn index cell H Hi Hlc Hfit) as (buf' & E & H' & _).
    exists buf', (insert_at index (cs - len cell, cell) slots).
    assert (parsed usable (insert_at index (cs - len cell, cell) slots)) as Hp' by (by eapply parsed_insert_at).
    split; [done|]. split; [done|]. split; [done|].
    rewrite (collect_spec _ _ _ _ _ _ (lp_slots _ _ _ _ _ H') Hp'). f_equal. by apply rows_insert_at.
  - by eapply splice_insert_refuses.
Qed.

(** The two small cells on an otherwise empty 512-byte page. *)
Definition two_cell_page : list Z :=
  match write_leaf_page (zeros 512) 0 2 small_cells with Ok b => b | Err _ => [] end.
Definition two_cell_slots : list (Z * list Z) := [(505, [1; 5; 7]); (508, [2; 9; 8; 8])].

Lemma two_cell_layout : leaf_page two_cell_page 0 505 two_cell_slots [].
Proof.
  assert (forall i o c, two_cell_slots !! i = Some (o, c) -> i = 0%nat /\ (o, c) = (505, [1; 5; 7]) \/
    i = 1%nat /\ (o, c) = (508, [2; 9; 8; 8])) as Hsl by (intros [|[|i]] o c Hi; [left|right|done]; by injection Hi as <- <-).
  constructor; [constructor|..]; try (by vm_compute).
  - intros i o c [[-> [= -> ->]]|[-> [= -> ->]]]%Hsl; by vm_compute.
  - intros i o c [[-> [= -> ->]]|[-> [= -> ->]]]%Hsl; by vm_compute.
  - eexists. by vm_compute.
  - exists 0. split; [by vm_compute|constructor].
  - constructor.
  - constructor; [|constructor; [constructor|constructor]]. constructor; [left; by vm_compute|constructor].
Qed.

Lemma two_cell_parsed : parsed 512 two_cell_slots.
Proof. constructor; [by eexists|]. constructor; [by eexists|constructor]. Qed.

Example splice_insert_inserts_witness :
  exists l, collect_leaf_cells two_cell_page 0 2 512 = Ok l /\
    exists buf' slots', splice_insert_cell two_cell_page 0 2 (Z.of_nat 1) [1; 6; 4] = Ok (Some buf') /\
      leaf_page buf' 0 (505 - len [1; 6; 4]) slots' [] /\ parsed 512 slots' /\
      collect_leaf_cells buf' 0 2 512 = Ok (insert_at 1 (6, [1; 6; 4]) l).
Proof.
  apply (splice_insert_inserts two_cell_page 0 505 two_cell_slots [] 2 512 1 [1; 6; 4] 6);
    [apply two_cell_layout|apply two_cell_parsed|cbn; lia|by vm_compute|by vm_compute].
Defined.

(** Rebuilding an interior page: entries and rightmost child written by
    [write_interior_page] are what [collect_interior_entries] reads, whenever
    they fit, and the bytes before the header stay. *)
Theorem interior_page_write_read buf hs pn entries rightmost :
  0 <= hs <= 100 -> len buf <= 65536 -> Forall (fun e => is_u32 e.1 /\ is_i64 e.2) entries -> is_u32 rightmost ->
  hs + 12 + 2 * len entries + total_len (interior_cells entries) <= len buf ->
  exists buf', write_interior_page buf hs pn (interior_cells entries) rightmost = Ok buf' /\
    read_page_type buf' hs pn = Ok INTERIOR_TABLE /\
    collect_interior_entries buf' hs pn = Ok (entries, rightmost) /\
    get_range buf' 0 hs = get_range buf 0 hs.
Proof.
  intros Hhs Hmax He Hr Hfit.
  destruct (write_interior_spec buf hs pn entries rightmost Hhs Hmax He Hr Hfit) as (buf' & E & Hl & Hs).
  destruct (interior_read buf' hs pn entries rightmost Hl) as [Ht Hc]. exists buf'. do 3 (split; [done|]). apply (proj2 Hs). lia.
Qed.

Example interior_page_write_read_witness :
  exists buf', write_interior_page (zeros 512) 0 3 (interior_cells [(4, 10); (5, -3)]) 6 = Ok buf' /\
    read_page_type buf' 0 3 = Ok INTERIOR_TABLE /\
    collect_interior_entries buf' 0 3 = Ok ([(4, 10); (5, -3)], 6) /\
    get_range buf' 0 0 = get_range (zeros 512) 0 0.
Proof.
  apply (interior_page_write_read (zeros 512) 0 3 [(4, 10); (5, -3)] 6);
    [lia|by vm_compute| |unfold is_u32; lia|by vm_compute].
  constructor; [split; by vm_compute|]. constructor; [split; by vm_compute|constructor].
Defined.
