(* ===== verification/LeafDelete.v ===== *)
(** * Removing a cell in place ([splice_delete_cell] of [src/btree.rs])

    Deleting a cell closes the gap in the pointer array and returns the cell's
    bytes to the page: to the unallocated area when the cell borders it, to the
    freeblock chain (merged with adjacent blocks) or to the fragment counter.
    The layout invariant of [LeafPage] survives each of the three. *)

From stdpp Require Import prelude list numbers.
From Stdlib Require Import ZArith Lia.
From S2P Require Import Prelude Varint Vfs Checkpoint BtreePage LeafPage.

Local Open Scope Z_scope.

(** ** The pointer array *)

Lemma shift_down_spec pn base n : forall i buf,
  0 <= base -> 0 <= i -> base + 2 * (i + Z.of_nat n + 1) <= len buf -> len buf <= 65536 ->
  (forall k, i < k <= i + Z.of_nat n -> exists v, read_be 2 buf (base + 2 * k) = Some v /\ 0 <= v < 65536) ->
  exists buf', shift_down n i buf base pn = Ok buf' /\
    same_outside buf buf' (base + 2 * i) (base + 2 * (i + Z.of_nat n)) /\
    forall k, i <= k < i + Z.of_nat n -> read_be 2 buf' (base + 2 * k) = read_be 2 buf (base + 2 * (k + 1)).
Proof.
  induction n as [|n IH]; intros i buf Hb Hi Hl Hmax Hr; cbn [shift_down].
  { exists buf. split; [done|]. split; [apply same_outside_refl|lia]. }
  destruct (Hr (i + 1)) as (v & Hv & Hv2); [lia|].
  rewrite (sat_add_small i 1) by (unfold U64_MAX; lia). rewrite !cell_ptr_offset_eq by lia.
  rewrite (read_cell_pointer_eq _ _ v) by (try lia; done). cbn [mbind result_bind].
  destruct (write_u16_ok buf (base + 2 * i) v pn) as (b1 & -> & S1 & R1); [lia|lia|lia|].
  cbn [mbind result_bind]. pose proof (proj1 S1) as L1.
  destruct (IH (i + 1) b1 Hb ltac:(lia)) as (b2 & -> & S2 & R2); [lia|lia| |].
  { intros k Hk. rewrite (same_outside_read 2 _ _ _ _ _ S1) by lia. apply Hr. lia. }
  exists b2. split; [done|]. split; [eapply same_outside_trans; [exact S1|exact S2|lia..]|].
  intros k Hk. destruct (Z.eq_dec k i) as [->|Hne].
  - rewrite (same_outside_read 2 _ _ _ _ _ S2) by lia. by rewrite R1, Hv.
  - rewrite R2 by lia. apply (same_outside_read 2 _ _ _ _ _ S1). lia.
Qed.

Lemma fill_zero_outside buf a b : 0 <= a <= b -> b <= len buf -> same_outside buf (fill_zero buf a b) a b.
Proof.
  intros Ha Hb. unfold fill_zero. rewrite get_range_Some by lia. set (sl := take _ _).
  assert (len sl = b - a) as Ls by (unfold sl; rewrite len_take; [lia|]; rewrite len_drop by lia; lia).
  rewrite Ls. assert (len (zeros (b - a)) = b - a) as Lz by (apply len_zeros; lia).
  pose proof (set_range_Some buf a (zeros (b - a)) ltac:(lia) ltac:(lia)) as E. rewrite E. cbn [default].
  split; [by eapply set_range_len|]. intros x y Hxy. eapply get_range_set_ne; [exact E|]. lia.
Qed.

(** ** The freeblock chain *)

(** Blocks in ascending order, none adjacent, within [lo..hi]. *)
Definition ascending : list (Z * Z) -> Prop := ForallOrdPairs (fun a b => a.1 + a.2 < b.1).
Definition within (lo hi : Z) (blocks : list (Z * Z)) : Prop :=
  Forall (fun b => lo <= b.1 /\ 4 <= b.2 /\ b.1 + b.2 <= hi) blocks.

Lemma walk_loop_spec buf pn off blocks : block_chain buf off blocks ->
  forall fuel, (length blocks <= fuel)%nat -> within 1 65536 blocks ->
  walk_loop fuel off buf pn = Ok blocks.
Proof.
  induction 1 as [|off size next rest Hne Hn Hs Hc IH]; intros fuel Hf Hw.
  { by destruct fuel. }
  apply Forall_cons_iff in Hw as [Hb Hw]. cbn [fst snd] in Hb. cbn [length] in Hf.
  destruct fuel as [|fuel]; [lia|]. cbn [walk_loop]. rewrite (proj2 (Z.eqb_neq off 0)) by done.
  rewrite (read_u16_eq buf off next) by (try lia; done). cbn [mbind result_bind].
  rewrite sat_add_small by (unfold U64_MAX; lia). rewrite (read_u16_eq buf (off + 2) size) by (try lia; done). cbn [mbind result_bind].
  rewrite IH by (try lia; done). done.
Qed.

Lemma walk_spec buf hs pn first blocks :
  0 <= hs <= 100 -> read_be 2 buf (hs + 1) = Some first -> block_chain buf first blocks ->
  within 1 65536 blocks -> len blocks <= MAX_FREEBLOCKS -> walk_freeblocks buf hs pn = Ok blocks.
Proof.
  intros Hhs Hf Hc Hw Hn. unfold walk_freeblocks, read_first_freeblock. rewrite sat_add_small by (unfold U64_MAX; lia).
  rewrite (read_u16_eq _ _ first) by (try lia; done). cbn [mbind result_bind]. apply walk_loop_spec; [done| |done].
  unfold len in Hn. lia.
Qed.

(** Only the first four bytes of each block are written. *)
Definition clear_of (a b : Z) (blocks : list (Z * Z)) : Prop := Forall (fun k => b <= k.1 \/ k.1 + 4 <= a) blocks.

Lemma write_blocks_spec pn blocks : forall buf,
  within 1 (len buf) blocks -> ascending blocks -> len buf <= 65536 ->
  exists buf', write_blocks blocks buf pn = Ok buf' /\ len buf' = len buf /\
    (forall a b, clear_of a b blocks -> get_range buf' a b = get_range buf a b) /\
    block_chain buf' (first_offset blocks) blocks.
Proof.
  induction blocks as [|[off size] rest IH]; intros buf Hw Ha Hmax; cbn [write_blocks].
  { exists buf. split; [done|]. split; [done|]. split; [done|constructor]. }
  apply Forall_cons_iff in Hw as [(H1 & H4 & H5) Hw]. cbn [fst snd] in *. inversion_clear Ha as [|? ? Hlt Ha'].
  assert (0 <= first_offset rest < 65536) as Hfo.
  { destruct rest as [|[o s] rest]; cbn [first_offset]; [lia|]. apply Forall_cons_iff in Hw as [(? & ? & ?) _]. cbn in *. lia. }
  destruct (write_u16_ok buf off (first_offset rest) pn) as (b1 & -> & S1 & R1); [lia|lia|done|].
  cbn [mbind result_bind]. pose proof (proj1 S1) as L1. rewrite sat_add_small by (unfold U64_MAX; lia).
  destruct (write_u16_ok b1 (off + 2) size pn) as (b2 & -> & S2 & R2); [lia|lia|lia|].
  cbn [mbind result_bind]. pose proof (proj1 S2) as L2.
  destruct (IH b2) as (b3 & -> & L3 & Hr & Hch); [by rewrite L2, L1|done|lia|].
  exists b3. split; [done|]. split; [lia|]. split.
  - intros a b Hc. apply Forall_cons_iff in Hc as [Hc0 Hc]. cbn [fst] in Hc0.
    rewrite Hr, (proj2 S2), (proj2 S1) by (try done; lia). done.
  - assert (clear_of off (off + 4) rest) as Hcl.
    { eapply Forall_impl; [|exact Hlt]. intros [o s]. cbn. lia. }
    apply (free_block _ off size (first_offset rest)); [lia| | |done].
    + unfold read_be. rewrite Hr by (eapply Forall_impl; [|exact Hcl]; cbn; lia). fold (read_be 2 b2 off).
      rewrite (same_outside_read 2 _ _ _ _ _ S2) by lia. done.
    + unfold read_be. rewrite Hr by (eapply Forall_impl; [|exact Hcl]; cbn; lia). done.
Qed.

Lemma write_chain_spec buf hs pn blocks lo :
  0 <= hs <= 100 -> hs + 8 <= lo -> within lo (len buf) blocks -> ascending blocks -> len buf <= 65536 -> lo <= len buf ->
  exists buf', write_freeblock_chain buf hs pn blocks = Ok buf' /\ len buf' = len buf /\
    (forall a b, clear_of a b blocks -> b <= hs + 1 \/ hs + 3 <= a -> get_range buf' a b = get_range buf a b) /\
    read_be 2 buf' (hs + 1) = Some (first_offset blocks) /\ block_chain buf' (first_offset blocks) blocks.
Proof.
  intros Hhs Hlo Hw Ha Hmax Hll. unfold write_freeblock_chain.
  assert (within 1 (len buf) blocks) as Hw1 by (eapply Forall_impl; [|exact Hw]; cbn; lia).
  destruct (write_blocks_spec pn blocks buf Hw1 Ha Hmax) as (b1 & -> & L1 & Hr & Hch). cbn [mbind result_bind].
  assert (0 <= first_offset blocks < 65536) as Hfo.
  { destruct blocks as [|[o s] rest]; cbn [first_offset]; [lia|]. apply Forall_cons_iff in Hw as [(? & ? & ?) _]. cbn in *. lia. }
  rewrite sat_add_small by (unfold U64_MAX; lia).
  destruct (write_u16_ok b1 (hs + 1) (first_offset blocks) pn) as (b2 & -> & S2 & R2); [lia|lia|done|].
  exists b2. pose proof (proj1 S2) as L2. split; [done|]. split; [lia|]. split; [|split; [done|]].
  - intros a b Hc Hab. rewrite (proj2 S2) by lia. by apply Hr.
  - apply (block_chain_frame b1 _ (hs + 1) (hs + 3)); [done|by replace (hs + 3) with (hs + 1 + 2) by lia|].
    eapply Forall_impl; [|exact Hw]. cbn. lia.
Qed.

(** ** Freeing a range *)

(** Nothing of positive length overlaps any block. *)
Definition avoids (e : Z * Z) (blocks : list (Z * Z)) : Prop := Forall (apart e) blocks.

Lemma partition_point_split blocks start :
  ascending blocks -> Forall (fun b => 0 < b.2) blocks ->
  let pos := partition_point blocks start in
  Forall (fun b => b.1 < start) (take pos blocks) /\ Forall (fun b => start <= b.1) (drop pos blocks) /\
  (pos <= length blocks)%nat.
Proof.
  induction blocks as [|[o s] rest IH]; intros Ha Hpos; cbn [partition_point].
  { split; [constructor|]. split; [constructor|done]. }
  inversion_clear Ha as [|? ? Hlt Ha']. apply Forall_cons_iff in Hpos as [H0 Hpos]. cbn in H0.
  destruct (Z.ltb_spec o start) as [Ho|Ho].
  - destruct (IH Ha' Hpos) as (H1 & H2 & H3). cbn [take drop]. split; [by constructor|]. split; [done|]. cbn [length]. lia.
  - cbn [take drop]. split; [constructor|]. split; [|cbn [length]; lia]. constructor; [done|].
    eapply Forall_impl; [|exact Hlt]. cbn. lia.
Qed.

(** The three parts of [add_freeblock]: merge with the block before... *)
Definition merge_prev (l1 : list (Z * Z)) (start size : Z) : list (Z * Z) * Z * Z :=
  match rev l1 with
  | (po, ps) :: before => if sat_add po ps =? start then (rev before, po, sat_add size ps) else (l1, start, size)
  | [] => (l1, start, size)
  end.

(** ... and with the block after. *)
Definition merge_next (l2 : list (Z * Z)) (start size : Z) : list (Z * Z) * Z :=
  match l2 with
  | (no, ns) :: rest => if sat_add start size =? no then (rest, sat_add size ns) else (l2, size)
  | [] => (l2, size)
  end.

Lemma add_freeblock_eq l1 l2 start size :
  partition_point (l1 ++ l2) start = length l1 ->
  add_freeblock (l1 ++ l2) start size =
    let '(l1', new_start, new_size) := merge_prev l1 start size in
    let '(l2', new_size') := merge_next l2 new_start new_size in
    l1' ++ (new_start, new_size') :: l2'.
Proof.
  intros Hp. unfold add_freeblock. rewrite Hp. unfold merge_prev.
  assert (forall l k, (l ++ k : list (Z * Z)) !! length l = head k) as Hmid.
  { intros l [|x k]; [rewrite app_nil_r; by apply lookup_ge_None_2|by apply list_lookup_middle]. }
  assert (forall l k s z, (let '(blocks, new_size) :=
      match (l ++ k) !! length l with
      | Some (next_off, next_size) =>
        if sat_add s z =? next_off then (delete (length l) (l ++ k), sat_add z next_size) else (l ++ k, z)
      | None => (l ++ k, z) end in take (length l) blocks ++ (s, new_size) :: drop (length l) blocks) =
     (let '(k', z') := merge_next k s z in l ++ (s, z') :: k')) as Htail.
  { intros l k s z. rewrite Hmid. destruct k as [|[no ns] k]; cbn [head merge_next].
    - by rewrite app_nil_r, take_ge, drop_ge by lia.
    - destruct (sat_add s z =? no); [rewrite delete_middle|]; by rewrite take_app_length, drop_app_length. }
  destruct l1 as [|x l1] using rev_ind; [apply (Htail [] l2)|]. clear IHl1.
  rewrite length_app. cbn [length]. rewrite Nat.add_1_r, rev_app_distr. cbn [rev app]. rewrite rev_involutive. destruct x as [po ps].
  assert ((l1 ++ [(po, ps)]) ++ l2 = l1 ++ (po, ps) :: l2) as -> by (by rewrite <- app_assoc).
  rewrite list_lookup_middle by done. destruct (sat_add po ps =? start).
  - rewrite delete_middle. apply Htail.
  - assert (l1 ++ (po, ps) :: l2 = (l1 ++ [(po, ps)]) ++ l2) as -> by (by rewrite <- app_assoc).
    replace (S (length l1)) with (length (l1 ++ [(po, ps)])) by (rewrite length_app; cbn; lia). apply Htail.
Qed.

Lemma apart_join e a n m : 1 <= e.2 -> apart e (a, n) -> apart e (a + n, m) -> apart e (a, n + m).
Proof. unfold apart. cbn. lia. Qed.

Lemma merge_prev_spec l1 start size lo hi :
  ascending l1 -> within lo hi l1 -> Forall (fun b => b.1 + b.2 <= start) l1 -> lo <= start -> 4 <= size ->
  start + size <= hi -> hi <= 65536 -> 0 <= lo ->
  let '(l1', s, z) := merge_prev l1 start size in
  ascending l1' /\ within lo hi l1' /\ Forall (fun b => b.1 + b.2 < s) l1' /\
  lo <= s /\ 4 <= z /\ s + z = start + size /\ len l1' <= len l1 /\
  (forall e, 1 <= e.2 -> avoids e l1 -> apart e (start, size) -> avoids e l1' /\ apart e (s, z)).
Proof.
  intros Ha Hw He Hlo Hsz Hend Hmax Hl0. unfold merge_prev. destruct l1 as [|[po ps] l1] using rev_ind.
  { cbn [rev]. do 3 (split; [constructor|]). split; [lia|]. split; [lia|]. split; [lia|]. split; [lia|].
    intros e _ _ Hap. split; [constructor|done]. }
  clear IHl1. rewrite rev_app_distr. cbn [rev app]. rewrite rev_involutive.
  apply Forall_app in He as [He1 He2]. apply Forall_cons_iff in He2 as [He2 _]. cbn in He2.
  pose proof Hw as Hw0. apply Forall_app in Hw as [Hw1 Hw2]. apply Forall_cons_iff in Hw2 as [(Hp1 & Hp2 & Hp3) _]. cbn in *.
  pose proof Ha as Ha0. apply FOP_app in Ha as (Ha1 & _ & Ha3).
  assert (Forall (fun b => b.1 + b.2 < po) l1) as Hlt.
  { eapply Forall_impl; [|exact Ha3]. intros b Hb. by apply Forall_cons_iff in Hb as [? _]. }
  rewrite sat_add_small by (unfold U64_MAX; lia). destruct (Z.eqb_spec (po + ps) start) as [Heq|Hne].
  - rewrite sat_add_small by (unfold U64_MAX; lia). do 3 (split; [done|]). split; [lia|]. split; [lia|]. split; [lia|].
    split; [rewrite len_app; pose proof (len_nonneg [(po, ps)]); lia|].
    intros e H1 Hav Hap. apply Forall_app in Hav as [Hav Hp]. apply Forall_cons_iff in Hp as [Hp _]. split; [done|].
    rewrite Z.add_comm. apply apart_join; [done|done|by rewrite Heq].
  - split; [done|]. split; [done|]. split.
    { apply Forall_app. split; [eapply Forall_impl; [|exact Hlt]; cbn; lia|]. constructor; [cbn; lia|constructor]. }
    split; [lia|]. split; [lia|]. split; [lia|]. split; [lia|]. done.
Qed.

Lemma merge_next_spec l2 start size lo hi :
  ascending l2 -> within lo hi l2 -> Forall (fun b => start + size <= b.1) l2 -> lo <= start -> 4 <= size ->
  start + size <= hi -> hi <= 65536 -> 0 <= lo ->
  let '(l2', z) := merge_next l2 start size in
  ascending l2' /\ within lo hi l2' /\ Forall (fun b => start + z < b.1) l2' /\
  4 <= z /\ start + z <= hi /\ len l2' <= len l2 /\
  (forall e, 1 <= e.2 -> avoids e l2 -> apart e (start, size) -> avoids e l2' /\ apart e (start, z)).
Proof.
  intros Ha Hw He Hlo Hsz Hend Hmax Hl0. unfold merge_next. destruct l2 as [|[no ns] l2].
  { do 3 (split; [constructor|]). split; [lia|]. split; [lia|]. split; [lia|]. intros e _ _ Hap. split; [constructor|done]. }
  apply Forall_cons_iff in He as [He1 He2]. cbn in He1. pose proof Hw as Hw0.
  apply Forall_cons_iff in Hw as [(Hp1 & Hp2 & Hp3) Hw]. cbn in *. pose proof Ha as Ha0. inversion_clear Ha as [|? ? Hlt Ha'].
  rewrite sat_add_small by (unfold U64_MAX; lia). destruct (Z.eqb_spec (start + size) no) as [Heq|Hne].
  - rewrite sat_add_small by (unfold U64_MAX; lia). split; [done|]. split; [done|].
    split; [eapply Forall_impl; [|exact Hlt]; cbn; lia|]. split; [lia|]. split; [lia|].
    split; [rewrite len_cons; lia|].
    intros e H1 Hav Hap. apply Forall_cons_iff in Hav as [Hn Hav]. split; [done|].
    apply apart_join; [done|done|by rewrite Heq].
  - split; [done|]. split; [done|]. split.
    { constructor; [cbn; lia|]. eapply Forall_impl; [|exact Hlt]. cbn. lia. }
    split; [lia|]. split; [lia|]. split; [lia|]. done.
Qed.

Lemma add_freeblock_spec blocks start size lo hi :
  ascending blocks -> within lo hi blocks -> lo <= start -> 4 <= size -> start + size <= hi -> hi <= 65536 -> 0 <= lo ->
  avoids (start, size) blocks ->
  let blocks' := add_freeblock blocks start size in
  ascending blocks' /\ within lo hi blocks' /\ len blocks' <= len blocks + 1 /\
  (forall e, 1 <= e.2 -> avoids e blocks -> apart e (start, size) -> avoids e blocks').
Proof.
  intros Ha Hw Hlo Hsz Hend Hmax Hl0 Hav.
  assert (Forall (fun b => 0 < b.2) blocks) as Hpos by (eapply Forall_impl; [|exact Hw]; cbn; lia).
  destruct (partition_point_split blocks start Ha Hpos) as (H1 & H2 & H3).
  set (l1 := take (partition_point blocks start) blocks) in *. set (l2 := drop (partition_point blocks start) blocks) in *.
  assert (blocks = l1 ++ l2) as Eb by (unfold l1, l2; by rewrite take_drop).
  assert (partition_point (l1 ++ l2) start = length l1) as Ep by (rewrite <- Eb; unfold l1; rewrite length_take; lia).
  clearbody l1 l2. subst blocks. cbv zeta. rewrite add_freeblock_eq by done.
  apply FOP_app in Ha as (Ha1 & Ha2 & _). apply Forall_app in Hw as [Hw1 Hw2]. apply Forall_app in Hav as [Hv1 Hv2].
  apply Forall_app in Hpos as [Hp1 Hp2].
  assert (Forall (fun b => b.1 + b.2 <= start) l1) as He1.
  { apply Forall_forall. intros b Hb. rewrite Forall_forall in H1, Hv1, Hp1. specialize (H1 b Hb). specialize (Hv1 b Hb).
    unfold apart in Hv1. cbn in Hv1. lia. }
  assert (Forall (fun b => start + size <= b.1) l2) as He2.
  { apply Forall_forall. intros b Hb. rewrite Forall_forall in H2, Hv2, Hp2. specialize (H2 b Hb). specialize (Hv2 b Hb).
    specialize (Hp2 b Hb). unfold apart in Hv2. cbn in *. lia. }
  pose proof (merge_prev_spec l1 start size lo hi Ha1 Hw1 He1 Hlo Hsz Hend Hmax Hl0) as Hm1.
  destruct (merge_prev l1 start size) as [[l1' s] z]. destruct Hm1 as (A1 & W1 & E1 & Ls & Lz & Esum & Ln1 & V1).
  pose proof (merge_next_spec l2 s z lo hi Ha2 Hw2) as Hm2. destruct (merge_next l2 s z) as [l2' z'].
  destruct Hm2 as (A2 & W2 & E2 & Lz' & Lend & Ln2 & V2); [rewrite Esum; done|lia|lia|lia|lia|lia|].
  split; [|split; [|split]].
  - apply FOP_app. split; [done|]. split; [by constructor|]. apply Forall_forall. intros b Hb.
    rewrite Forall_forall in E1. specialize (E1 b Hb). constructor; [done|].
    eapply Forall_impl; [|exact E2]. cbn. lia.
  - apply Forall_app. split; [done|]. constructor; [cbn; lia|done].
  - rewrite !len_app, len_cons. lia.
  - intros e He Hae Hap. apply Forall_app in Hae as [Hae1 Hae2]. destruct (V1 e He Hae1 Hap) as [Hx1 Hx2].
    destruct (V2 e He Hae2 Hx2) as [Hx3 Hx4]. apply Forall_app. split; [done|]. by constructor.
Qed.

(** ** The unallocated area grows *)

Lemma FOP_delete {A} (R : A -> A -> Prop) l i : ForallOrdPairs R l -> ForallOrdPairs R (delete i l).
Proof.
  intros H. destruct (l !! i) as [x|] eqn:E; [|apply lookup_ge_None in E; by rewrite delete_take_drop, take_ge, drop_ge, app_nil_r by lia].
  rewrite <- (take_drop_middle l i x E) in H. rewrite delete_take_drop. apply FOP_app in H as (H1 & H2 & H3).
  inversion_clear H2 as [|? ? Hx H2']. apply FOP_app. split; [done|]. split; [done|].
  eapply Forall_impl; [|exact H3]. intros y Hy. by apply Forall_cons_iff in Hy as [_ ?].
Qed.

Lemma FOP_lookup {A} (R : A -> A -> Prop) l i j x y :
  (forall a b, R a b -> R b a) -> ForallOrdPairs R l -> i <> j -> l !! i = Some x -> l !! j = Some y -> R x y.
Proof.
  intros Hsym Hl. revert i j. induction Hl as [|z l Hz Hl IH]; intros i j Hne Hi Hj; [done|].
  destruct i as [|i], j as [|j]; cbn in Hi, Hj; [done| | |apply (IH i j); [lia|done|done]].
  - injection Hi as ->. by eapply Forall_lookup_1.
  - injection Hj as ->. apply Hsym. by eapply Forall_lookup_1.
Qed.

Lemma ascending_apart blocks : ascending blocks -> ForallOrdPairs apart blocks.
Proof.
  induction 1 as [|x l Hx Hl IH]; constructor; [|done]. eapply Forall_impl; [|exact Hx]. unfold apart. lia.
Qed.

Lemma absorb_spec hi fuel : forall blocks c,
  ascending blocks -> within c hi blocks -> hi <= 65536 -> 0 <= c <= hi ->
  let '(blocks', c') := absorb_blocks fuel blocks c in
  ascending blocks' /\ within c' hi blocks' /\ c <= c' <= hi /\ len blocks' <= len blocks /\
  (forall e, 1 <= e.2 -> c <= e.1 -> avoids e blocks -> c' <= e.1 /\ avoids e blocks').
Proof.
  induction fuel as [|fuel IH]; intros blocks c Ha Hw Hmax Hc; cbn [absorb_blocks].
  { split; [done|]. split; [done|]. split; [lia|]. split; [lia|]. done. }
  destruct (list_find (fun b => b.1 = c) blocks) as [[pos [o size]]|] eqn:E; cycle 1.
  { split; [done|]. split; [done|]. split; [lia|]. split; [lia|]. done. }
  apply list_find_Some in E as (El & Eo & _). cbn in Eo. subst o.
  pose proof (proj1 (Forall_lookup _ _) Hw _ _ El) as (_ & H4 & H5). cbn [fst snd] in *.
  rewrite sat_add_small by (unfold U64_MAX; lia).
  pose proof Ha as Ha0. rewrite <- (take_drop_middle blocks pos _ El) in Ha. apply FOP_app in Ha as (_ & A2 & A3).
  inversion_clear A2 as [|? ? Ax _].
  assert (within (c + size) hi (delete pos blocks)) as Hw'.
  { rewrite <- (take_drop_middle blocks pos _ El) in Hw. apply Forall_app in Hw as [W1 W2]. apply Forall_cons_iff in W2 as [_ W2].
    rewrite delete_take_drop. apply Forall_app. split.
    - apply Forall_forall. intros b Hb. rewrite Forall_forall in W1, A3. destruct (W1 b Hb) as (? & ? & ?).
      pose proof (A3 b Hb) as Hab. apply Forall_cons_iff in Hab as [Hab _]. cbn in *. lia.
    - apply Forall_forall. intros b Hb. rewrite Forall_forall in W2, Ax. destruct (W2 b Hb) as (? & ? & ?).
      specialize (Ax b Hb). cbn in *. lia. }
  pose proof (IH (delete pos blocks) (c + size) (FOP_delete _ _ _ Ha0) Hw' Hmax ltac:(lia)) as Hr.
  destruct (absorb_blocks fuel (delete pos blocks) (c + size)) as [blocks' c'].
  destruct Hr as (R1 & R2 & R3 & R4 & R5). split; [done|]. split; [done|]. split; [lia|]. split.
  - unfold len in *. pose proof (length_delete blocks pos ltac:(by eexists)). lia.
  - intros e He1 Hce Hav. pose proof (proj1 (Forall_lookup _ _) Hav _ _ El) as Hae. unfold apart in Hae. cbn in Hae.
    apply R5; [done|lia|]. unfold avoids in *. rewrite delete_take_drop.
    rewrite <- (take_drop_middle blocks pos _ El) in Hav. apply Forall_app in Hav as [V1 V2].
    apply Forall_cons_iff in V2 as [_ V2]. by apply Forall_app.
Qed.

(** ** The page after each way of freeing *)

(** Cells of a page avoid its blocks. *)
Lemma slots_avoid slots blocks i o c :
  ForallOrdPairs apart (map extent slots ++ blocks) -> slots !! i = Some (o, c) -> avoids (o, len c) blocks.
Proof.
  intros H Hi. apply FOP_app in H as (_ & _ & H). rewrite Forall_forall in H. apply (H (extent (o, c))).
  apply in_map, list_elem_of_In. by eapply list_elem_of_lookup_2.
Qed.

Lemma extents_apart slots blocks :
  ForallOrdPairs apart (map extent slots) -> ascending blocks ->
  (forall i o c, slots !! i = Some (o, c) -> avoids (o, len c) blocks) ->
  ForallOrdPairs apart (map extent slots ++ blocks).
Proof.
  intros H1 H2 H3. apply FOP_app. split; [done|]. split; [by apply ascending_apart|].
  apply Forall_map, Forall_lookup. intros i [o c] Hi. by apply (H3 i).
Qed.

Lemma avoids_clear a n blocks : 1 <= n -> Forall (fun b => 4 <= b.2) blocks -> avoids (a, n) blocks -> clear_of a (a + n) blocks.
Proof.
  intros Hn H4 Hav. apply Forall_forall. intros b Hb. unfold avoids in Hav. rewrite Forall_forall in H4, Hav.
  specialize (H4 b Hb). specialize (Hav b Hb). unfold apart in Hav. cbn in *. lia.
Qed.

Lemma below_clear a b lo hi blocks : within lo hi blocks -> b <= lo -> clear_of a b blocks.
Proof. intros Hw Hb. eapply Forall_impl; [|exact Hw]. cbn. lia. Qed.

Lemma block_chain_same buf buf' first blocks :
  block_chain buf first blocks ->
  Forall (fun b => read_be 2 buf' b.1 = read_be 2 buf b.1 /\ read_be 2 buf' (b.1 + 2) = read_be 2 buf (b.1 + 2)) blocks ->
  block_chain buf' first blocks.
Proof.
  induction 1 as [|off size next rest Hne Hn Hsz Hc IH]; intros Hb; [constructor|].
  apply Forall_cons_iff in Hb as [[H1 H2] Hb]. cbn [fst] in *.
  apply (free_block _ off size next); [done|congruence|congruence|by apply IH].
Qed.

Lemma map_delete {A B} (f : A -> B) l i : map f (delete i l) = delete i (map f l).
Proof. rewrite !delete_take_drop, map_app, firstn_map, skipn_map. done. Qed.

(** Everything a leaf has but its freeblocks. *)
Definition leaf_cells (buf : list Z) (hs cs : Z) (slots : list (Z * list Z)) : Prop :=
  page_slots buf hs 8 cs slots /\ get_at buf hs = Some LEAF_TABLE /\ is_Some (get_at buf (hs + 7)) /\
  ForallOrdPairs apart (map extent slots).

Lemma leaf_page_cells buf hs cs slots blocks : leaf_page buf hs cs slots blocks -> leaf_cells buf hs cs slots.
Proof. intros [H1 H2 H3 _ _ _ H4]. apply FOP_app in H4 as (H4 & _). done. Qed.

(** Nothing below [hs] changes. *)
Definition same_below (hs : Z) (b b' : list Z) : Prop := len b' = len b /\ forall x y, y <= hs -> get_range b' x y = get_range b x y.

Lemma same_below_trans hs b1 b2 b3 : same_below hs b1 b2 -> same_below hs b2 b3 -> same_below hs b1 b3.
Proof. intros [L1 R1] [L2 R2]. split; [congruence|]. intros x y Hy. by rewrite R2, R1. Qed.

Lemma outside_below hs b b' lo hi : same_outside b b' lo hi -> hs <= lo -> same_below hs b b'.
Proof. intros [L R] Hlo. split; [done|]. intros x y Hy. apply R. lia. Qed.

(** A new freeblock chain over the same cells. *)
Lemma rechain buf hs pn cs slots blocks' :
  leaf_cells buf hs cs slots -> within cs (len buf) blocks' -> ascending blocks' ->
  (forall i o c, slots !! i = Some (o, c) -> avoids (o, len c) blocks') ->
  exists buf', write_freeblock_chain buf hs pn blocks' = Ok buf' /\ leaf_page buf' hs cs slots blocks' /\ same_below hs buf buf'.
Proof.
  intros ([Hhs Hhl Hmax Hroom Hnum Hcs Hptr Hcell] & Hty & [fr Hfr] & Hap) Hw Ha Hav. pose proof (len_nonneg slots) as Hsn.
  destruct (write_chain_spec buf hs pn blocks' cs Hhs ltac:(lia) Hw Ha Hmax ltac:(lia)) as (buf' & E & L & Hr & R1 & Hch).
  exists buf'. split; [done|].
  split; [|split; [done|]; intros x y Hy; apply Hr; [eapply below_clear; [done|lia]|lia]].
  assert (forall n off, off + Z.of_nat n <= cs -> hs + 3 <= off -> read_be n buf' off = read_be n buf off) as Hlow.
  { intros n off Hn Ho. unfold read_be. rewrite Hr; [done| |lia]. by eapply below_clear. }
  assert (forall i, i < cs -> i <= hs \/ hs + 3 <= i -> get_at buf' i = get_at buf i) as Hat.
  { intros i Hi Ho. rewrite !get_at_range, Hr; [done| |lia]. eapply below_clear; [done|lia]. }
  constructor; [constructor|..]; rewrite ?L; try done.
  - rewrite Hlow by lia. done.
  - rewrite Hlow by lia. done.
  - intros i o c Hi. assert (Z.of_nat i < len slots) by (apply lookup_lt_Some in Hi; unfold len; lia).
    rewrite Hlow by lia. by eapply Hptr.
  - intros i o c Hi. destruct (Hcell _ _ _ Hi) as (H1 & H2 & H3 & H4). split; [done|]. split; [done|]. split; [done|].
    rewrite Hr; [done| |lia]. apply avoids_clear; [done| |by eapply Hav]. eapply Forall_impl; [|exact Hw]. cbn. lia.
  - rewrite Hat by lia. done.
  - rewrite Hat by lia. by eexists.
  - eexists. done.
  - by apply extents_apart.
Qed.

Lemma reset_content_start buf hs pn cs cs' slots :
  leaf_cells buf hs cs slots -> cs <= cs' <= len buf -> (forall i o c, slots !! i = Some (o, c) -> cs' <= o) ->
  exists buf', write_content_start buf hs cs' pn = Ok buf' /\ len buf' = len buf /\ leaf_cells buf' hs cs' slots /\
    same_below hs buf buf'.
Proof.
  intros ([Hhs Hhl Hmax Hroom Hnum Hcs Hptr Hcell] & Hty & [fr Hfr] & Hap) Hcs' Hge. pose proof (len_nonneg slots) as Hsn.
  destruct (write_content_start_ok buf hs cs' pn Hhs ltac:(lia) ltac:(lia)) as (buf' & E & S & R). pose proof (proj1 S) as L.
  exists buf'. split; [done|]. split; [done|]. split; [|eapply outside_below; [exact S|lia]].
  split; [|split; [|split; [|done]]].
  - constructor; try done; try lia.
    + rewrite (same_outside_read 2 _ _ _ _ _ S) by lia. done.
    + intros i o c Hi. rewrite (same_outside_read 2 _ _ _ _ _ S) by lia. by eapply Hptr.
    + intros i o c Hi. destruct (Hcell _ _ _ Hi) as (H1 & H2 & H3 & H4). split; [done|]. split; [by eapply Hge|].
      split; [lia|]. by rewrite (proj2 S) by lia.
  - rewrite (same_outside_at _ _ _ _ _ S) by lia. done.
  - rewrite (same_outside_at _ _ _ _ _ S) by lia. by eexists.
Qed.

(** The fragment counter is not part of the layout. *)
Lemma set_fragments b b' hs cs slots blocks :
  leaf_page b hs cs slots blocks -> same_outside b b' (hs + 7) (hs + 7 + 1) -> is_Some (get_at b' (hs + 7)) ->
  leaf_page b' hs cs slots blocks.
Proof.
  intros [[Hhs Hhl Hmax Hroom Hnum Hcs Hptr Hcell] Hty _ (first & Hfirst & Hchain) Hblk Hsort Hap] S Hfr.
  pose proof (proj1 S) as L. pose proof (len_nonneg slots) as Hsn.
  constructor; [constructor|..]; rewrite ?L; try done.
  - rewrite (same_outside_read 2 _ _ _ _ _ S) by lia. done.
  - rewrite (same_outside_read 2 _ _ _ _ _ S) by lia. done.
  - intros i o c Hi. rewrite (same_outside_read 2 _ _ _ _ _ S) by lia. by eapply Hptr.
  - intros i o c Hi. destruct (Hcell _ _ _ Hi) as (H1 & H2 & H3 & H4). split; [done|]. split; [done|]. split; [done|].
    by rewrite (proj2 S) by lia.
  - rewrite (same_outside_at _ _ _ _ _ S) by lia. done.
  - exists first. rewrite (same_outside_read 2 _ _ _ _ _ S) by lia. split; [done|].
    apply (block_chain_frame b _ _ _ _ _ Hchain S). eapply Forall_impl; [|exact Hblk]. cbn. lia.
Qed.

(** The page once the pointer is gone and the cell's bytes are zeroed, before
    they are accounted for. *)
Lemma delete_core buf hs cs slots blocks pn index o c :
  leaf_page buf hs cs slots blocks -> slots !! index = Some (o, c) ->
  exists b1 b2, shift_down (Z.to_nat (len slots - 1 - Z.of_nat index)) (Z.of_nat index) buf (hs + 8) pn = Ok b1 /\
    write_u16 b1 (hs + 3) (len slots - 1) pn = Ok b2 /\ len b2 = len buf /\
    leaf_page (fill_zero b2 o (o + len c)) hs cs (delete index slots) blocks /\
    same_below hs buf (fill_zero b2 o (o + len c)).
Proof.
  intros [[Hhs Hhl Hmax Hroom Hnum Hcs Hptr Hcell] Hty [fr Hfr] (first & Hfirst & Hchain) Hblk Hsort Hap] Hi.
  pose proof (lookup_lt_Some _ _ _ Hi) as Hlt. assert (Z.of_nat index < len slots) as Hlt' by (unfold len; lia).
  destruct (Hcell _ _ _ Hi) as (Hc1 & Hc2 & Hc3 & _).
  destruct (shift_down_spec pn (hs + 8) (Z.to_nat (len slots - 1 - Z.of_nat index)) (Z.of_nat index) buf)
    as (b1 & E1 & S1 & R1); [lia|lia|lia|lia| |].
  { intros k Hk. destruct (lookup_lt_is_Some_2 slots (Z.to_nat k)) as [[o' c'] Hs]; [unfold len in *; lia|].
    destruct (Hcell _ _ _ Hs) as (H1 & H2 & H3 & _). exists o'. split; [|lia]. rewrite <- (Hptr _ _ _ Hs). f_equal. lia. }
  rewrite Z2Nat.id in S1, R1 by lia. pose proof (proj1 S1) as L1.
  destruct (write_u16_ok b1 (hs + 3) (len slots - 1) pn) as (b2 & E2 & S2 & R2); [lia|lia|lia|].
  pose proof (proj1 S2) as L2. exists b1, b2. split; [done|]. split; [done|]. split; [lia|].
  assert (same_outside buf b2 (hs + 3) cs) as S12 by (eapply same_outside_trans; [exact S1|exact S2|lia..]).
  pose proof (fill_zero_outside b2 o (o + len c) ltac:(lia) ltac:(lia)) as S3. set (b3 := fill_zero b2 o (o + len c)) in *.
  pose proof (proj1 S3) as L3.
  split; [|eapply same_below_trans; [eapply outside_below; [exact S12|lia]|eapply outside_below; [exact S3|lia]]].
  assert (len (delete index slots) = len slots - 1) as Ld.
  { unfold len in *. rewrite length_delete by (by eexists). lia. }
  pose proof (slots_avoid _ _ _ _ _ Hap Hi) as Hav.
  assert (forall j o' c', delete index slots !! j = Some (o', c') ->
    exists k, slots !! k = Some (o', c') /\ k <> index /\ Z.of_nat k = if decide (j < index)%nat then Z.of_nat j else Z.of_nat j + 1) as Hdel.
  { intros j o' c' Hj. rewrite list_lookup_delete in Hj. destruct (decide (j < index)%nat); eexists; (split; [exact Hj|lia]). }
  constructor; [constructor|..].
  - done.
  - done.
  - lia.
  - lia.
  - rewrite (same_outside_read 2 _ _ _ _ _ S3) by lia. by rewrite R2, Ld.
  - rewrite (same_outside_read 2 _ _ _ _ _ S3), (same_outside_read 2 _ _ _ _ _ S2), (same_outside_read 2 _ _ _ _ _ S1) by lia. done.
  - intros j o' c' Hj. destruct (Hdel _ _ _ Hj) as (k & Hk & _ & Ek).
    assert (Z.of_nat j < len slots - 1) by (rewrite <- Ld; apply lookup_lt_Some in Hj; unfold len; lia).
    rewrite (same_outside_read 2 _ _ _ _ _ S3), (same_outside_read 2 _ _ _ _ _ S2) by lia.
    rewrite <- (Hptr _ _ _ Hk), Ek. destruct (decide (j < index)%nat).
    + apply (same_outside_read 2 _ _ _ _ _ S1). lia.
    + apply R1. lia.
  - intros j o' c' Hj. destruct (Hdel _ _ _ Hj) as (k & Hk & Hne & _). destruct (Hcell _ _ _ Hk) as (H1 & H2 & H3 & H4).
    split; [done|]. split; [done|]. split; [lia|]. apply FOP_app in Hap as (Hap & _).
    pose proof (FOP_lookup apart (map extent slots) k index _ _ apart_sym Hap Hne (map_lookup extent _ _ _ Hk) (map_lookup extent _ _ _ Hi)) as Hkk.
    unfold apart, extent in Hkk. cbn in Hkk. rewrite (proj2 S3), (proj2 S12) by lia. done.
  - rewrite (same_outside_at _ _ _ _ _ S3), (same_outside_at _ _ _ _ _ S12) by lia. done.
  - rewrite get_at_lookup by lia. apply lookup_lt_is_Some_2. unfold len in *. lia.
  - exists first. split; [rewrite (same_outside_read 2 _ _ _ _ _ S3), (same_outside_read 2 _ _ _ _ _ S12) by lia; done|].
    apply (block_chain_same buf); [done|]. apply Forall_forall. intros b Hb. unfold avoids in Hav.
    rewrite Forall_forall in Hblk, Hav. destruct (Hblk b Hb) as (? & ? & ?). specialize (Hav b Hb). unfold apart in Hav. cbn in Hav.
    rewrite !(same_outside_read 2 _ _ _ _ _ S3), !(same_outside_read 2 _ _ _ _ _ S12) by lia. done.
  - eapply Forall_impl; [|exact Hblk]. cbn. lia.
  - done.
  - pose proof Hap as Ha1. apply FOP_app in Ha1 as (Ha1 & _ & _). apply extents_apart; [|done|].
    + rewrite map_delete. by apply FOP_delete.
    + intros j o' c' Hj. destruct (Hdel _ _ _ Hj) as (k & Hk & _). by eapply slots_avoid.
Qed.

(** Accounting for the freed range [o..o + n] of a page: whichever of the three
    ways is taken, the page is a well-formed leaf with the same cells. *)
Lemma account_freed b hs cs slots blocks o n pn :
  leaf_page b hs cs slots blocks -> 1 <= n -> cs <= o -> o + n <= len b -> avoids (o, n) blocks ->
  len blocks <= MAX_FREEBLOCKS ->
  (forall i o' c', slots !! i = Some (o', c') -> apart (o', len c') (o, n)) ->
  exists buf' cs' blocks',
    (if o =? cs then
       blocks ← walk_freeblocks b hs pn;
       let '(blocks, new_content_start) := absorb_blocks (length blocks) blocks (o + n) in
       buf ← write_content_start b hs new_content_start pn;
       write_freeblock_chain buf hs pn blocks
     else if n <? MIN_FREEBLOCK_SIZE then
       frag ← read_fragmented_bytes b hs pn;
       write_fragmented_bytes b hs (Z.min (frag + n) 255) pn
     else
       blocks ← walk_freeblocks b hs pn;
       write_freeblock_chain b hs pn (add_freeblock blocks o n)) = Ok buf' /\
    leaf_page buf' hs cs' slots blocks' /\ len blocks' <= len blocks + 1 /\ cs <= cs' /\ same_below hs b buf'.
Proof.
  intros H Hn Ho Hend Hav Hmaxb Hsl. pose proof H as [[Hhs Hhl Hmax Hroom Hnum Hcs Hptr Hcell] Hty [fr Hfr] (first & Hfirst & Hchain) Hblk Hsort Hap].
  pose proof (len_nonneg slots) as Hsn. pose proof (leaf_page_cells _ _ _ _ _ H) as Hlc.
  assert (walk_freeblocks b hs pn = Ok blocks) as Ew.
  { eapply walk_spec; [done|done|done| |done]. eapply Forall_impl; [|exact Hblk]. cbn. lia. }
  destruct (Z.eqb_spec o cs) as [->|Hne]; [|destruct (Z.ltb_spec n MIN_FREEBLOCK_SIZE) as [Hsm|Hbig]].
  - rewrite Ew. cbn [mbind result_bind].
    assert (within (cs + n) (len b) blocks) as Hw.
    { apply Forall_forall. intros k Hk. unfold avoids in Hav. rewrite Forall_forall in Hblk, Hav. destruct (Hblk k Hk) as (? & ? & ?).
      specialize (Hav k Hk). unfold apart in Hav. cbn in Hav. lia. }
    pose proof (absorb_spec (len b) (length blocks) blocks (cs + n) Hsort Hw Hmax ltac:(lia)) as Hab.
    destruct (absorb_blocks (length blocks) blocks (cs + n)) as [blocks' cs'] eqn:Eab. destruct Hab as (A1 & A2 & A3 & A4 & A5).
    assert (forall i o' c', slots !! i = Some (o', c') -> cs' <= o' /\ avoids (o', len c') blocks') as Hnew.
    { intros i o' c' Hi. destruct (Hcell _ _ _ Hi) as (H1 & H2 & _). pose proof (Hsl _ _ _ Hi) as Hx. unfold apart in Hx. cbn in Hx.
      apply (A5 (o', len c')); [done|cbn; lia|by eapply slots_avoid]. }
    destruct (reset_content_start b hs pn cs cs' slots Hlc ltac:(lia)) as (b1 & E1 & L1 & Hlc1 & B1);
      [intros i o' c' Hi; by apply (Hnew i o' c')|].
    destruct (rechain b1 hs pn cs' slots blocks' Hlc1) as (b2 & E2 & H2 & B2); [by rewrite L1|done|intros i o' c' Hi; by apply (Hnew i o' c')|].
    exists b2, cs', blocks'. rewrite E1. cbn [mbind result_bind]. split; [done|]. split; [done|]. split; [lia|]. split; [lia|by eapply same_below_trans].
  - unfold read_fragmented_bytes. rewrite sat_add_small by (unfold U64_MAX; lia). rewrite Hfr. cbn [ok_or mbind result_bind].
    destruct (put_u8_ok b (hs + 7) (Z.min (fr + n) 255) pn) as (b1 & E1 & S1 & T1); [lia|lia|].
    exists b1, cs, blocks. unfold write_fragmented_bytes. rewrite sat_add_small by (unfold U64_MAX; lia). split; [done|].
    split; [eapply set_fragments; [exact H|exact S1|by eexists]|]. split; [lia|]. split; [lia|]. eapply outside_below; [exact S1|lia].
  - rewrite Ew. cbn [mbind result_bind]. unfold MIN_FREEBLOCK_SIZE in Hbig.
    destruct (add_freeblock_spec blocks o n cs (len b) Hsort Hblk ltac:(lia) ltac:(lia) ltac:(lia) Hmax ltac:(lia) Hav) as (A1 & A2 & A3 & A4).
    destruct (rechain b hs pn cs slots (add_freeblock blocks o n) Hlc A2 A1) as (b1 & E1 & H1 & B1).
    { intros i o' c' Hi. destruct (Hcell _ _ _ Hi) as (H1 & _). apply A4; [done|by eapply slots_avoid|by eapply Hsl]. }
    exists b1, cs, (add_freeblock blocks o n). split; [done|]. split; [done|]. split; [lia|]. split; [lia|done].
Qed.

Lemma splice_delete_spec buf hs cs slots blocks pn usable index o c rowid :
  leaf_page buf hs cs slots blocks -> slots !! index = Some (o, c) -> parse_cell usable c = Some rowid ->
  len blocks <= MAX_FREEBLOCKS ->
  exists buf' cs' blocks', splice_delete_cell buf hs pn usable (Z.of_nat index) true = Ok buf' /\
    leaf_page buf' hs cs' (delete index slots) blocks' /\ len blocks' <= len blocks + 1 /\ cs <= cs' /\ same_below hs buf buf'.
Proof.
  intros H Hi Hp Hnb. destruct (delete_core buf hs cs slots blocks pn index o c H Hi) as (b1 & b2 & E1 & E2 & L2 & H3 & B3).
  pose proof H as [[Hhs Hhl Hmax Hroom Hnum Hcs Hptr Hcell] _ _ _ Hblk Hsort Hap].
  pose proof (lookup_lt_Some _ _ _ Hi) as Hlt. assert (Z.of_nat index < len slots) as Hlt' by (unfold len; lia).
  destruct (Hcell _ _ _ Hi) as (Hc1 & Hc2 & Hc3 & Hc4).
  destruct (cell_at buf o c usable rowid pn ltac:(lia) Hc4 Hp Hmax) as (plen & tail & Ehead & Eend).
  unfold splice_delete_cell. rewrite (read_num_cells_eq _ _ (len slots)) by done. cbn [mbind result_bind].
  rewrite (proj2 (Z.leb_gt _ _)) by done. cbv zeta. rewrite !sat_add_small by (unfold U64_MAX; lia).
  rewrite cell_ptr_offset_eq by lia.
  rewrite (read_cell_pointer_eq buf (hs + 8 + 2 * Z.of_nat index) o) by (first [lia|by eapply Hptr]). cbn [mbind result_bind].
  rewrite Ehead. cbn [mbind result_bind negb]. rewrite Eend, !sat_sub_small by lia.
  rewrite E1. cbn [mbind result_bind]. rewrite E2. cbn [mbind result_bind].
  pose proof (fill_zero_outside b2 o (o + len c) ltac:(lia) ltac:(lia)) as S3.
  set (b3 := fill_zero b2 o (o + len c)) in *. pose proof H3 as [[_ _ Hmax3 Hroom3 _ Hcs3 _ Hcell3] _ _ (first & Hf3 & Hch3) Hblk3 _ Hap3].
  rewrite (content_start_eq _ _ cs) by (try lia; done). cbn [mbind result_bind].
  replace (o + len c - o) with (len c) by lia.
  destruct (account_freed b3 hs cs (delete index slots) blocks o (len c) pn) as (buf' & cs' & blocks' & E & H' & Hb & Hc & B); [done|lia|lia|rewrite (proj1 S3); lia| |done| |].
  3:{ exists buf', cs', blocks'. split; [done|]. split; [done|]. split; [done|]. split; [done|by eapply same_below_trans]. }
  - exact (slots_avoid _ _ _ _ _ Hap Hi).
  - intros j o' c' Hj. rewrite list_lookup_delete in Hj.
    pose proof Hap as Ha1. apply FOP_app in Ha1 as (Ha1 & _).
    apply (FOP_lookup apart (map extent slots) (if decide (j < index)%nat then j else S j) index _ _ apart_sym Ha1);
      [destruct (decide (j < index)%nat); lia|by apply (map_lookup extent _ _ (o', c'))|by apply (map_lookup extent _ _ (o, c))].
Qed.

Lemma rows_delete usable slots i : rows usable (delete i slots) = delete i (rows usable slots).
Proof. apply map_delete. Qed.

(** ** Properties *)

(** C27. Deleting in place: on a well-formed leaf, [splice_delete_cell] of any
    cell succeeds and leaves a well-formed leaf that reads back as the old
    cells without that one, whichever way the freed bytes are accounted for:
    given to the unallocated area together with the freeblocks that border
    it, merged into the freeblock chain, or counted as fragments. *)
Theorem splice_delete_deletes buf hs cs slots blocks pn usable index :
  leaf_page buf hs cs slots blocks -> parsed usable slots -> (index < length slots)%nat -> len blocks <= MAX_FREEBLOCKS ->
  exists l buf' cs' slots' blocks',
    collect_leaf_cells buf hs pn usable = Ok l /\
    splice_delete_cell buf hs pn usable (Z.of_nat index) true = Ok buf' /\
    leaf_page buf' hs cs' slots' blocks' /\ parsed usable slots' /\ len blocks' <= len blocks + 1 /\ cs <= cs' /\
    collect_leaf_cells buf' hs pn usable = Ok (delete index l).
Proof.
  intros H Hp Hi Hb. destruct (lookup_lt_is_Some_2 slots index Hi) as [[o c] Hs].
  destruct (proj1 (Forall_lookup _ _) Hp _ _ Hs) as [rowid Hr]. cbn [snd] in Hr.
  destruct (splice_delete_spec buf hs cs slots blocks pn usable index o c rowid H Hs Hr Hb) as (buf' & cs' & blocks' & E & H' & Hn & Hcs & _).
  assert (parsed usable (delete index slots)) as Hp'.
  { unfold parsed in *. rewrite delete_take_drop. rewrite <- (take_drop_middle slots index _ Hs) in Hp.
    apply Forall_app in Hp as [H1 H2]. apply Forall_cons_iff in H2 as [_ H2]. by apply Forall_app. }
  exists (rows usable slots), buf', cs', (delete index slots), blocks'.
  split; [apply (collect_spec _ _ _ _ _ _ (lp_slots _ _ _ _ _ H) Hp)|]. split; [done|]. split; [done|]. split; [done|].
  split; [done|]. split; [done|]. rewrite (collect_spec _ _ _ _ _ _ (lp_slots _ _ _ _ _ H') Hp'). by rewrite rows_delete.
Qed.

Example splice_delete_deletes_witness :
  exists l buf' cs' slots' blocks',
    collect_leaf_cells two_cell_page 0 2 512 = Ok l /\
    splice_delete_cell two_cell_page 0 2 512 (Z.of_nat 1) true = Ok buf' /\
    leaf_page buf' 0 cs' slots' blocks' /\ parsed 512 slots' /\ len blocks' <= len (@nil (Z * Z)) + 1 /\ 505 <= cs' /\
    collect_leaf_cells buf' 0 2 512 = Ok (delete 1%nat l).
Proof.
  apply (splice_delete_deletes two_cell_page 0 505 two_cell_slots [] 2 512 1);
    [apply two_cell_layout|apply two_cell_parsed|cbn; lia|by vm_compute].
Defined.
