(* ===== verification/LeafSearch.v ===== *)
(** * Searching a leaf page ([scan_leaf_cells] and [find_leaf_cell] of [src/btree.rs])

    The two pre-scans of a leaf, related to the list of its rows. *)

From stdpp Require Import prelude list numbers.
From Stdlib Require Import ZArith Lia.
From S2P Require Import Prelude Varint Vfs Checkpoint BtreePage LeafPage.

Local Open Scope Z_scope.

(** ** Rows by rowid *)

Abbreviation row := (Z * list Z)%type.

Definition has_row (rowid : Z) (rs : list row) : bool := existsb (fun r => r.1 =? rowid) rs.

(** The position of the first row with a greater rowid, or the end. *)
Fixpoint first_greater (rowid : Z) (rs : list row) : nat :=
  match rs with
  | [] => O
  | r :: rs => if rowid <? r.1 then O else S (first_greater rowid rs)
  end.

Definition add_row (rowid : Z) (c : list Z) (rs : list row) : list row := insert_at (first_greater rowid rs) (rowid, c) rs.

Definition remove_row (rowid : Z) (rs : list row) : list row := filter (fun r => r.1 <> rowid) rs.

Definition sorted_rows (rs : list row) : Prop := ForallOrdPairs (fun a b => a.1 < b.1) rs.

Lemma first_greater_le rowid rs : (first_greater rowid rs <= length rs)%nat.
Proof. induction rs as [|r rs IH]; cbn; [lia|]. destruct (rowid <? r.1); lia. Qed.

Lemma has_row_false rowid rs : has_row rowid rs = false <-> Forall (fun r => r.1 <> rowid) rs.
Proof.
  unfold has_row. induction rs as [|r rs IH]; cbn; [done|]. rewrite orb_false_iff, Z.eqb_neq, IH.
  by rewrite Forall_cons_iff.
Qed.

Lemma has_row_app rowid l k : has_row rowid (l ++ k) = has_row rowid l || has_row rowid k.
Proof. apply existsb_app. Qed.

Lemma first_greater_app rowid l k :
  Forall (fun r => r.1 <= rowid) l -> first_greater rowid (l ++ k) = (length l + first_greater rowid k)%nat.
Proof.
  induction 1 as [|r l Hr Hl IH]; cbn; [done|]. rewrite (proj2 (Z.ltb_ge _ _)) by done. by rewrite IH.
Qed.

Lemma first_greater_stop rowid l k :
  Forall (fun r => rowid < r.1) k -> first_greater rowid (l ++ k) = first_greater rowid l.
Proof.
  intros Hk. induction l as [|r l IH]; cbn.
  - destruct Hk as [|r k Hr]; cbn; [done|]. by rewrite (proj2 (Z.ltb_lt _ _)).
  - destruct (rowid <? r.1); [done|]. by rewrite IH.
Qed.

(** A row belongs where its neighbours' rowids put it. *)
Lemma add_row_app rowid c l m r :
  Forall (fun x => x.1 <= rowid) l -> Forall (fun x => rowid < x.1) r ->
  add_row rowid c (l ++ m ++ r) = l ++ add_row rowid c m ++ r.
Proof.
  intros Hl Hr. unfold add_row, insert_at. rewrite first_greater_app, first_greater_stop by done.
  pose proof (first_greater_le rowid m).
  rewrite take_app_ge, drop_app_ge by lia. rewrite Nat.add_comm, Nat.add_sub.
  rewrite take_app_le, drop_app_le by lia. by rewrite <- !app_assoc.
Qed.

Lemma first_greater_split rowid rs :
  sorted_rows rs -> has_row rowid rs = false ->
  Forall (fun r => r.1 < rowid) (take (first_greater rowid rs) rs) /\
  Forall (fun r => rowid < r.1) (drop (first_greater rowid rs) rs).
Proof.
  unfold sorted_rows. induction 1 as [|r rs Hr Hs IH]; intros Hn; [split; constructor|].
  cbn in Hn. apply orb_false_iff in Hn as [Hne%Z.eqb_neq Hn]. specialize (IH Hn). cbn [first_greater].
  destruct (Z.ltb_spec rowid r.1) as [Hlt|Hge].
  - cbn [take drop]. split; [constructor|]. constructor; [done|]. eapply Forall_impl; [|exact Hr]. cbn. lia.
  - cbn [take drop]. destruct IH as [H1 H2]. split; [constructor; [lia|done]|done].
Qed.

Lemma sorted_app l k :
  sorted_rows (l ++ k) <-> sorted_rows l /\ sorted_rows k /\ Forall (fun a => Forall (fun b => a.1 < b.1) k) l.
Proof. apply FOP_app. Qed.

Lemma sorted_add_row rowid c rs :
  sorted_rows rs -> has_row rowid rs = false -> sorted_rows (add_row rowid c rs).
Proof.
  intros Hs Hn. destruct (first_greater_split rowid rs Hs Hn) as [H1 H2]. unfold add_row, insert_at.
  rewrite <- (take_drop (first_greater rowid rs) rs) in Hs. apply sorted_app in Hs as (Ha & Hb & Hab).
  apply sorted_app. split; [done|]. split; [by constructor|].
  eapply Forall_impl; [|exact (Forall_and H1 Hab)]. intros a [Ha1 Ha2]. by constructor.
Qed.

Lemma Forall_add_row (P : row -> Prop) rowid c rs : P (rowid, c) -> Forall P rs -> Forall P (add_row rowid c rs).
Proof.
  intros Hp Hr. unfold add_row, insert_at. rewrite <- (take_drop (first_greater rowid rs) rs) in Hr.
  apply Forall_app in Hr as [H1 H2]. apply Forall_app. split; [done|]. by constructor.
Qed.

(** ** The scan before an insertion *)

Lemma rows_cons usable o c slots rowid :
  parse_cell usable c = Some rowid -> rows usable ((o, c) :: slots) = (rowid, c) :: rows usable slots.
Proof. intros E. unfold rows. cbn [map snd]. by rewrite E. Qed.

Lemma scan_loop_spec usable pn buf hs cs slots rowid :
  page_slots buf hs 8 cs slots -> parsed usable slots ->
  forall n i pos tot, (i + n = length slots)%nat -> 0 <= tot <= 65536 * Z.of_nat i -> 0 <= pos <= len slots ->
  scan_loop n (Z.of_nat i) buf (hs + 8) pn usable rowid (len slots) pos tot =
    let rs := rows usable (drop i slots) in
    if has_row rowid rs then Err (BtDuplicateRowid rowid)
    else Ok (if pos =? len slots then Z.of_nat (i + first_greater rowid rs) else pos, len slots, tot + total_len (map snd rs)).
Proof.
  intros H Hp n. destruct H as [Hhs _ Hlen Hroom _ _ Hptr Hcell].
  induction n as [|n IH]; intros i pos tot Hi Htot Hpos; cbn [scan_loop].
  { rewrite drop_ge by lia. cbn. rewrite Z.add_0_r. replace (i + 0)%nat with (length slots) by lia.
    fold (len slots). by destruct (Z.eqb_spec pos (len slots)) as [->|]. }
  destruct (lookup_lt_is_Some_2 slots i ltac:(lia)) as [[o c] Hs].
  assert (2 * Z.of_nat i <= 2 * len slots) by (unfold len; lia).
  rewrite cell_ptr_offset_eq by lia.
  rewrite (read_cell_pointer_eq _ _ o) by (try lia; by eapply Hptr). cbn [mbind result_bind].
  destruct (Hcell _ _ _ Hs) as (Hc1 & Hc2 & Hc3 & Hr).
  destruct (proj1 (Forall_lookup _ _) Hp _ _ Hs) as [key Hrow]. cbn [snd] in Hrow.
  destruct (cell_at buf o c usable key pn ltac:(lia) Hr Hrow ltac:(lia)) as (plen & tail & -> & He).
  cbn [mbind result_bind]. rewrite He. rewrite (proj2 (Z.ltb_ge _ _)) by lia.
  rewrite (drop_S slots (o, c) i Hs), (rows_cons usable o c _ key Hrow). cbv zeta. unfold has_row at 1. cbn [existsb fst first_greater].
  fold (has_row rowid (rows usable (drop (S i) slots))).
  destruct (Z.eqb_spec key rowid) as [->|Hne]; [done|]. cbn [orb].
  replace (Z.of_nat i + 1) with (Z.of_nat (S i)) by lia.
  rewrite (sat_sub_small (o + len c) o) by lia. rewrite sat_add_small by (unfold U64_MAX; unfold len in Hroom; lia).
  assert (Z.of_nat i < len slots) as Hil by (unfold len; lia).
  rewrite IH; [|lia|lia|destruct (_ && _); lia]. cbv zeta. cbn [map snd]. rewrite total_len_cons.
  destruct (has_row rowid _); [done|]. f_equal. f_equal; [|lia]. f_equal.
  destruct (Z.eqb_spec pos (len slots)) as [->|Hpn], (Z.ltb_spec rowid key) as [Hlt|Hge]; cbn [andb].
  - rewrite (proj2 (Z.eqb_neq _ _)) by lia. lia.
  - rewrite Z.eqb_refl. lia.
  - by rewrite (proj2 (Z.eqb_neq _ _)) by lia.
  - by rewrite (proj2 (Z.eqb_neq _ _)) by lia.
Qed.

Lemma scan_spec usable pn buf hs cs slots rowid :
  page_slots buf hs 8 cs slots -> parsed usable slots ->
  scan_leaf_cells buf hs pn usable rowid =
    if has_row rowid (rows usable slots) then Err (BtDuplicateRowid rowid)
    else Ok (Z.of_nat (first_greater rowid (rows usable slots)), len slots, total_len (map snd slots)).
Proof.
  intros H Hp. pose proof (ps_hs _ _ _ _ _ H). unfold scan_leaf_cells.
  rewrite (read_num_cells_eq _ _ (len slots)) by (try done; by eapply ps_num). cbn [mbind result_bind].
  rewrite sat_add_small by (unfold U64_MAX; lia).
  pose proof (scan_loop_spec usable pn buf hs cs slots rowid H Hp (Z.to_nat (len slots)) 0 (len slots) 0) as E.
  change (Z.of_nat 0) with 0 in E. pose proof (len_nonneg slots). rewrite E by (unfold len in *; lia). cbv zeta. rewrite drop_0.
  destruct (has_row rowid _); [done|]. rewrite Z.eqb_refl. f_equal. f_equal. rewrite Z.add_0_l. f_equal.
  unfold rows. rewrite map_map. done.
Qed.

(** ** The search before a deletion *)

(** The first overflow page of a cell, 0 when its payload is local. *)
Definition cell_overflow (usable : Z) (c : list Z) : Z :=
  match decode_varint c with
  | Ok (plen, _) => if local_payload_size usable plen false <? plen then be_decode (drop (length c - 4) c) else 0
  | Err _ => 0
  end.

Fixpoint index_of (rowid : Z) (rs : list row) : option nat :=
  match rs with
  | [] => None
  | r :: rs => if r.1 =? rowid then Some O else S <$> index_of rowid rs
  end.

Lemma drop_cell (buf : list Z) off c :
  0 <= off -> get_range buf off (off + len c) = Some c -> drop (Z.to_nat off) buf = c ++ drop (Z.to_nat (off + len c)) buf.
Proof.
  intros H0 Hr. apply get_range_inv in Hr as (_ & Hle & _ & Hc). replace (off + len c - off) with (len c) in Hc by lia.
  rewrite Hc at 1. rewrite <- (take_drop (Z.to_nat (len c)) (drop (Z.to_nat off) buf)) at 1. f_equal.
  rewrite drop_drop. f_equal. pose proof (len_nonneg c). lia.
Qed.

Lemma overflow_offset t l off L :
  0 <= off <= t -> 0 <= l -> off + L <= 65536 -> sat_add (sat_add t l) 4 = off + L -> sat_add t l = off + L - 4 /\ 4 <= L.
Proof. unfold sat_add, U64_MAX. lia. Qed.

Lemma sat_add_ge off a b : 0 <= a -> 0 <= b -> off <= U64_MAX -> off <= sat_add (sat_add off a) b.
Proof. unfold sat_add, U64_MAX. lia. Qed.

Lemma local_nonneg usable plen : local_payload_size usable plen false < plen -> 0 <= local_payload_size usable plen false.
Proof.
  unfold local_payload_size. cbv zeta. destruct (plen <=? _); [lia|]. intros _.
  assert (forall a b, 0 <= sat_sub a b) as Hs by (intros; unfold sat_sub; lia).
  set (m := sat_sub (sat_mul _ _ / _) 23). assert (0 <= m) by apply Hs.
  assert (forall a d, 0 < d -> 0 <= sat_add m (a mod d)) as Ha.
  { intros a d Hd. pose proof (Z.mod_pos_bound a d Hd). unfold sat_add, U64_MAX. lia. }
  destruct (_ <=? _); [|done]. apply Ha. lia.
Qed.

Lemma overflow_read buf off c usable rowid pn plen tail :
  0 <= off -> get_range buf off (off + len c) = Some c -> parse_cell usable c = Some rowid -> len buf <= 65536 ->
  decode_cell_head buf off pn = Ok (rowid, plen, tail) -> cell_end_of usable plen tail false = off + len c ->
  (if local_payload_size usable plen false <? plen then read_u32 buf (sat_add tail (local_payload_size usable plen false)) pn
   else Ok 0) = Ok (cell_overflow usable c).
Proof.
  intros H0 Hr Hp Hmax Hd He. pose proof (local_nonneg usable plen) as Hl0. pose proof (get_range_inv _ _ _ _ Hr) as (_ & Hle & _ & _). pose proof (len_nonneg c).
  destruct (parse_cell_inv _ _ _ Hp ltac:(lia)) as (plen' & n1 & r & n2 & E1 & _ & _ & _ & _).
  unfold decode_cell_head in Hd. rewrite get_from_Some in Hd by lia. cbn [ok_or mbind result_bind] in Hd.
  rewrite (drop_cell buf off c H0 Hr), (decode_varint_app _ _ _ E1) in Hd. cbn [map_err mbind result_bind] in Hd.
  assert (plen' = plen /\ off <= tail) as [-> Ht].
  { pose proof (decode_varint_count _ _ _ E1). destruct (get_from _ n1) as [rest|]; [|done]. cbn [ok_or mbind result_bind] in Hd.
    destruct (decode_varint rest) as [[r2 k2]|] eqn:E2; [|done]. cbn [map_err mbind result_bind] in Hd.
    pose proof (decode_varint_count _ _ _ E2). injection Hd as _ -> <-. split; [done|]. apply sat_add_ge; unfold U64_MAX; lia. }
  unfold cell_overflow. rewrite E1. unfold cell_end_of in He. cbv zeta in He.
  set (local := local_payload_size usable plen false) in *.
  destruct (Z.ltb_spec local plen) as [Hlt|]; [|done].
  destruct (overflow_offset tail local off (len c) ltac:(lia) (Hl0 Hlt) ltac:(lia) He) as [-> Hc4].
  unfold read_u32. rewrite sat_add_small by (unfold U64_MAX; lia). rewrite get_range_Some by lia. cbn [ok_or mbind result_bind].
  f_equal. f_equal. replace (off + len c - 4 + 4 - (off + len c - 4)) with 4 by lia.
  replace (Z.to_nat (off + len c - 4)) with (Z.to_nat off + (length c - 4))%nat by (unfold len in *; lia).
  rewrite <- drop_drop, (drop_cell buf off c H0 Hr). rewrite drop_app_le by lia.
  rewrite take_app_le by (rewrite length_drop; unfold len in *; lia). rewrite take_ge by (rewrite length_drop; unfold len in *; lia). done.
Qed.

Lemma find_loop_spec usable pn buf hs cs slots rowid num :
  page_slots buf hs 8 cs slots -> parsed usable slots ->
  forall n i, (i + n = length slots)%nat ->
  find_loop n (Z.of_nat i) buf (hs + 8) pn usable rowid num =
    Ok (k ← index_of rowid (rows usable (drop i slots)); s ← slots !! (i + k)%nat;
        Some (Z.of_nat (i + k), num, cell_overflow usable s.2)).
Proof.
  intros H Hp n. destruct H as [Hhs _ Hlen Hroom _ _ Hptr Hcell].
  induction n as [|n IH]; intros i Hi; cbn [find_loop].
  { rewrite drop_ge by lia. done. }
  destruct (lookup_lt_is_Some_2 slots i ltac:(lia)) as [[o c] Hs].
  assert (2 * Z.of_nat i <= 2 * len slots) by (unfold len; lia).
  rewrite cell_ptr_offset_eq by lia.
  rewrite (read_cell_pointer_eq _ _ o) by (try lia; by eapply Hptr). cbn [mbind result_bind].
  destruct (Hcell _ _ _ Hs) as (Hc1 & Hc2 & Hc3 & Hr).
  destruct (proj1 (Forall_lookup _ _) Hp _ _ Hs) as [key Hrow]. cbn [snd] in Hrow.
  destruct (cell_at buf o c usable key pn ltac:(lia) Hr Hrow ltac:(lia)) as (plen & tail & Hd & He).
  rewrite Hd. cbn [mbind result_bind].
  rewrite (drop_S slots (o, c) i Hs), (rows_cons usable o c _ key Hrow). cbn [index_of fst].
  destruct (Z.eqb_spec key rowid) as [->|Hne]; cbn [negb].
  - rewrite (overflow_read buf o c usable rowid pn plen tail) by (first [done|lia]). cbn [mbind result_bind option_bind].
    rewrite Nat.add_0_r, Hs. done.
  - replace (Z.of_nat i + 1) with (Z.of_nat (S i)) by lia. rewrite IH by lia. f_equal.
    destruct (index_of rowid _) as [k|]; [|done]. cbn [fmap option_fmap option_map mbind option_bind].
    replace (i + S k)%nat with (S i + k)%nat by lia. done.
Qed.

Lemma find_spec usable pn buf hs cs slots rowid :
  page_slots buf hs 8 cs slots -> parsed usable slots ->
  find_leaf_cell buf hs pn usable rowid =
    Ok (k ← index_of rowid (rows usable slots); s ← slots !! k; Some (Z.of_nat k, len slots, cell_overflow usable s.2)).
Proof.
  intros H Hp. pose proof (ps_hs _ _ _ _ _ H). unfold find_leaf_cell.
  rewrite (read_num_cells_eq _ _ (len slots)) by (try done; by eapply ps_num). cbn [mbind result_bind].
  rewrite sat_add_small by (unfold U64_MAX; lia).
  pose proof (find_loop_spec usable pn buf hs cs slots rowid (len slots) H Hp (Z.to_nat (len slots)) 0) as E.
  change (Z.of_nat 0) with 0 in E. rewrite E by (unfold len in *; lia). rewrite drop_0. done.
Qed.

(** Deleting at the index of a rowid removes its row. *)
Lemma index_of_delete rowid rs k :
  sorted_rows rs -> index_of rowid rs = Some k -> delete k rs = remove_row rowid rs.
Proof.
  unfold sorted_rows, remove_row. intros Hs. revert k. induction Hs as [|r rs Hr Hs IH]; intros k Hk; [done|].
  cbn [index_of] in Hk. destruct (Z.eqb_spec r.1 rowid) as [<-|Hne].
  - injection Hk as <-. cbn [delete list_delete]. rewrite filter_cons_False by (intros Hf; by apply Hf).
    clear - Hr. induction Hr as [|x rs Hx Hr IH]; [done|]. rewrite filter_cons_True by lia. by rewrite <- IH.
  - destruct (index_of rowid rs) as [j|] eqn:Ej; [|done]. injection Hk as <-. cbn [delete list_delete].
    rewrite filter_cons_True by done. f_equal. by apply IH.
Qed.

Lemma index_of_has rowid rs : has_row rowid rs = true -> exists k c, index_of rowid rs = Some k /\ rs !! k = Some (rowid, c).
Proof.
  induction rs as [|[key c] rs IH]; [done|]. unfold has_row. cbn [existsb index_of fst].
  destruct (Z.eqb_spec key rowid) as [->|Hne]; [by exists 0%nat, c|]. cbn [orb]. intros (k & c' & -> & E)%IH. by exists (S k), c'.
Qed.

Lemma index_of_none rowid rs : has_row rowid rs = false -> index_of rowid rs = None.
Proof.
  induction rs as [|[key c] rs IH]; [done|]. unfold has_row. cbn [existsb index_of fst].
  destruct (Z.eqb_spec key rowid); [done|]. cbn [orb]. intros E%IH. by rewrite E.
Qed.

Lemma remove_row_app rowid l m r :
  Forall (fun x => x.1 <> rowid) l -> Forall (fun x => x.1 <> rowid) r ->
  remove_row rowid (l ++ m ++ r) = l ++ remove_row rowid m ++ r.
Proof.
  assert (forall k, Forall (fun x : row => x.1 <> rowid) k -> filter (fun r => r.1 <> rowid) k = k) as Ha.
  { induction 1 as [|x k Hx Hk IH]; [done|]. rewrite filter_cons_True by done. by rewrite IH. }
  intros Hl Hr. unfold remove_row. by rewrite !list.filter_app, (Ha l Hl), (Ha r Hr).
Qed.

Lemma Forall_remove_row (P : row -> Prop) rowid rs : Forall P rs -> Forall P (remove_row rowid rs).
Proof. intros Hr. unfold remove_row. induction Hr as [|r rs H1 H2 IH]; [constructor|]. rewrite filter_cons. case_decide; by try constructor. Qed.
