(* ===== verification/Btree.v ===== *)
(** * The table b-tree over the pager ([src/btree.rs], [src/btree/table])

    Descent, overflow chains, insertion with leaf, interior and root splits,
    deletion with collapse of emptied pages.  Pages are fetched and stored
    through the pager of [Pager]; the page-level work is that of
    [BtreePage]. *)

From stdpp Require Import prelude list numbers gmap.
From Stdlib Require Import ZArith Lia.
From S2P Require Import Prelude Varint Header Freelist Vfs Journal Wal Lock Shm Checkpoint PageCache Pager BtreePage.

Local Open Scope Z_scope.

Section Btree.
Context `{host : Host} {OS : Type} `{Fcntl OS}.

Definition read_page_b (n : Z) : M (Pager OS) BtreeError (list Z) := map_err_M (BtPageSource n) (read_page n).
Definition get_page_mut_b (n : Z) : M (Pager OS) BtreeError (list Z) := map_err_M BtPager (get_page_mut n).
Definition allocate_page_b : M (Pager OS) BtreeError Z := map_err_M BtPager allocate_page.
Definition deallocate_page_b (n : Z) : M (Pager OS) BtreeError unit := map_err_M BtPager (deallocate_page n).

(** [let buf = pager.get_page_mut(n)?; f(buf)?]. *)
Definition edit_page (n : Z) (f : list Z -> result BtreeError (list Z)) : M (Pager OS) BtreeError unit :=
  buf ← get_page_mut_b n;
  buf ← lift (f buf);
  map_err_M BtPager (put_page n buf).

(** ** Descent *)

(** [next] of the loop over the entries. *)
Fixpoint route (entries : list (Z * Z)) (rightmost rowid : Z) : Z :=
  match entries with
  | [] => rightmost
  | (child, key) :: rest => if rowid <=? key then child else route rest rightmost rowid
  end.

(** One iteration per page; more than [MAX_PAGES_VISITED] is an error. *)
Fixpoint find_leaf_loop (fuel : nat) (ancestors : list Z) (page_num rowid : Z) : M (Pager OS) BtreeError (list Z * Z) :=
  match fuel with
  | O => throw (BtTraversalTooLong MAX_PAGES_VISITED)
  | S fuel =>
    page ← read_page_b page_num;
    let header_start := page1_header_start page_num in
    page_type ← lift (read_page_type page header_start page_num);
    if page_type =? LEAF_TABLE then mret (ancestors, page_num)
    else if page_type =? INTERIOR_TABLE then
      er ← lift (collect_interior_entries page header_start page_num);
      let '(entries, rightmost) := er in
      find_leaf_loop fuel (ancestors ++ [page_num]) (route entries rightmost rowid) rowid
    else throw (BtUnexpectedPageType page_num page_type)
  end.

Definition find_leaf_page (page_num rowid : Z) : M (Pager OS) BtreeError (list Z * Z) :=
  find_leaf_loop (Z.to_nat MAX_PAGES_VISITED) [] page_num rowid.

(** ** Overflow chains *)

Fixpoint chunks_loop (fuel : nat) (rest : list Z) (available : Z) : list (list Z) :=
  match fuel, rest with
  | O, _ | _, [] => []
  | S fuel, _ =>
    let take_n := Z.to_nat (Z.min (len rest) available) in
    take take_n rest :: chunks_loop fuel (drop take_n rest) available
  end.

(** Every round takes at least one byte. *)
Definition chunks (data : list Z) (available : Z) : list (list Z) := chunks_loop (length data) data available.

Fixpoint allocate_many (n : nat) : M (Pager OS) BtreeError (list Z) :=
  match n with
  | O => mret []
  | S n => p ← allocate_page_b; rest ← allocate_many n; mret (p :: rest)
  end.

Fixpoint write_chunks (page_nums : list Z) (chunks : list (list Z)) : M (Pager OS) BtreeError unit :=
  match chunks with
  | [] => mret tt
  | chunk :: chunks =>
    match page_nums with
    | [] => throw (BtInternal OverflowIndex)
    | page_num :: page_nums =>
      let next := match page_nums with p :: _ => p | [] => 0 end in
      _ ← edit_page page_num (fun buf =>
            buf ← put buf 0 (be_encode 4 next) page_num;
            put buf 4 chunk page_num);
      write_chunks page_nums chunks
    end
  end.

Definition write_overflow_chain (usable_size : Z) (data : list Z) : M (Pager OS) BtreeError Z :=
  let available := Z.max (sat_sub usable_size 4) 1 in
  let cs := chunks data available in
  page_nums ← allocate_many (length cs);
  _ ← write_chunks page_nums cs;
  mret (match page_nums with p :: _ => p | [] => 0 end).

(** The walk of [reassemble_payload]; the chain may not revisit a page and has
    at most [MAX_PAGES_VISITED] pages. *)
Fixpoint overflow_loop (fuel : nat) (page_num overflow_page remaining available : Z) (visited : list Z) (acc : list Z)
    : M (Pager OS) BtreeError (list Z) :=
  if remaining <=? 0 then mret acc else
  if overflow_page =? 0 then throw (BtOverflowChainTruncated page_num) else
  if bool_decide (overflow_page ∈ visited) then throw (BtOverflowChainCycle page_num overflow_page) else
  match fuel with
  | O => throw (BtOverflowChainTooLong page_num MAX_PAGES_VISITED)
  | S fuel =>
    page ← read_page_b overflow_page;
    next ← lift (read_u32 page 0 overflow_page);
    let take_n := Z.min remaining available in
    chunk ← lift (ok_or (get_range page 4 (sat_add 4 take_n)) (BtPageTooShort overflow_page (len page)));
    overflow_loop fuel page_num next (sat_sub remaining take_n) available (overflow_page :: visited) (acc ++ chunk)
  end.

Definition reassemble_payload (usable_size page_num : Z) (page : list Z) (tail_start payload_len : Z) (is_index : bool)
    : M (Pager OS) BtreeError (list Z) :=
  if MAX_PAYLOAD_LEN <? payload_len then throw (BtPayloadTooLarge page_num payload_len) else
  cell_tail ← lift (ok_or (get_from page tail_start) (BtPayloadTooShort page_num));
  let local_size := local_payload_size usable_size payload_len is_index in
  local_bytes ← lift (ok_or (get_range cell_tail 0 local_size) (BtPayloadTooShort page_num));
  if local_size =? payload_len then mret local_bytes else
  overflow_bytes ← lift (ok_or (get_range cell_tail local_size (sat_add local_size 4)) (BtPayloadTooShort page_num));
  let available := Z.max (sat_sub usable_size 4) 1 in
  overflow_loop (Z.to_nat MAX_PAGES_VISITED) page_num (be_decode overflow_bytes) (sat_sub payload_len local_size)
    available [] local_bytes.

(** ** Insertion ([insert.rs]) *)

Definition encode_leaf_cell (usable_size rowid : Z) (payload : list Z) : M (Pager OS) BtreeError (list Z) :=
  let payload_len := len payload in
  let local_size := Z.min (local_payload_size usable_size payload_len false) (len payload) in
  let local_bytes := take (Z.to_nat local_size) payload in
  let overflow_bytes := drop (Z.to_nat local_size) payload in
  let cell := encode_varint payload_len ++ encode_varint (wrap 64 rowid) ++ local_bytes in
  match overflow_bytes with
  | [] => mret cell
  | _ => overflow_first ← write_overflow_chain usable_size overflow_bytes; mret (cell ++ be_encode 4 overflow_first)
  end.

Definition interior_page (entries : list (Z * Z)) : list (list Z) := map (fun e => build_interior_cell e.1 e.2) entries.

(** [n.div_ceil(2)]. *)
Definition div_ceil2 (n : nat) : nat := Nat.div2 (S n).

(** The root's content, copied verbatim to a page of its own. *)
Definition relocate_root (usable_size root_page : Z) : M (Pager OS) BtreeError Z :=
  let header_start_root := page1_header_start root_page in
  content ← get_page_mut_b root_page;
  page_type ← lift (read_page_type content header_start_root root_page);
  relocated ← allocate_page_b;
  _ ← (if page_type =? LEAF_TABLE then
         cells ← lift (collect_leaf_cells content header_start_root root_page usable_size);
         edit_page relocated (fun dest => write_leaf_page dest 0 relocated (cell_bytes cells))
       else if page_type =? INTERIOR_TABLE then
         er ← lift (collect_interior_entries content header_start_root root_page);
         let '(entries, rightmost) := er in
         edit_page relocated (fun dest => write_interior_page dest 0 relocated (interior_page entries) rightmost)
       else throw (BtUnexpectedPageType root_page page_type));
  mret relocated.

Definition root_split (usable_size root_page new_right divider : Z) : M (Pager OS) BtreeError unit :=
  relocated ← relocate_root usable_size root_page;
  edit_page root_page (fun buf =>
    write_interior_page buf (page1_header_start root_page) root_page [build_interior_cell relocated divider] new_right).

(** The parent's entries after [old_page] split off [new_page]. *)
Fixpoint replace_child (entries : list (Z * Z)) (old_page new_page divider : Z) : option (list (Z * Z)) :=
  match entries with
  | [] => None
  | (child, key) :: rest =>
    if child =? old_page then Some ((old_page, divider) :: (new_page, key) :: rest)
    else e ← replace_child rest old_page new_page divider; Some ((child, key) :: e)
  end.

Definition split_route (parent_page : Z) (entries : list (Z * Z)) (rightmost old_page new_page divider : Z)
    : result BtreeError (list (Z * Z) * Z) :=
  match replace_child entries old_page new_page divider with
  | Some entries => Ok (entries, rightmost)
  | None => if rightmost =? old_page then Ok (entries ++ [(old_page, divider)], new_page)
            else Err (BtMissingChildRoute parent_page old_page)
  end.

(** The ancestors are given from the immediate parent up: [split_last] takes
    the head. *)
Fixpoint insert_into_parent (usable_size page_len : Z) (ancestors_up : list Z) (root_page old_page new_page divider : Z)
    : M (Pager OS) BtreeError unit :=
  match ancestors_up with
  | [] => root_split usable_size root_page new_page divider
  | parent_page :: rest =>
    let header_start := page1_header_start parent_page in
    buf ← get_page_mut_b parent_page;
    er ← lift (collect_interior_entries buf header_start parent_page);
    let '(entries, rightmost) := er in
    er ← lift (split_route parent_page entries rightmost old_page new_page divider);
    let '(entries, rightmost) := er in
    let cells := interior_page entries in
    let total_bytes := foldr (fun c n => len c + n) 0 cells in
    let needed := sat_add (sat_add (sat_add header_start 12) (sat_mul (len cells) 2)) total_bytes in
    if needed <=? page_len then
      edit_page parent_page (fun buf => write_interior_page buf header_start parent_page cells rightmost)
    else
      let mid := Nat.div2 (length entries) in
      promoted ← lift (ok_or (entries !! mid) (BtInternal MedianMissing));
      let '(promoted_child, promoted_key) := promoted in
      right_page_num ← allocate_page_b;
      _ ← edit_page parent_page (fun buf =>
            write_interior_page buf header_start parent_page (interior_page (take mid entries)) promoted_child);
      _ ← edit_page right_page_num (fun buf =>
            write_interior_page buf 0 right_page_num (interior_page (drop (S mid) entries)) rightmost);
      insert_into_parent usable_size page_len rest root_page parent_page right_page_num promoted_key
  end.

(** [cells.insert(insert_pos, x)]. *)
Definition vec_insert {A} (i : nat) (x : A) (l : list A) : list A := take i l ++ x :: drop i l.

Definition insert_into_leaf (usable_size page_len leaf_page root_page : Z) (ancestors : list Z) (rowid : Z) (cell : list Z)
    : M (Pager OS) BtreeError unit :=
  let header_start := page1_header_start leaf_page in
  buf ← get_page_mut_b leaf_page;
  scan ← lift (scan_leaf_cells buf header_start leaf_page usable_size rowid);
  let '(insert_pos, num_cells, existing_bytes) := scan in
  let needed := sat_add (sat_add (sat_add (sat_add header_start 8) (sat_mul (sat_add num_cells 1) 2)) existing_bytes) (len cell) in
  if needed <=? page_len then
    spliced ← lift (splice_insert_cell buf header_start leaf_page insert_pos cell);
    match spliced with
    | Some buf => map_err_M BtPager (put_page leaf_page buf)
    | None =>
      cells ← lift (collect_leaf_cells buf header_start leaf_page usable_size);
      buf ← lift (write_leaf_page buf header_start leaf_page (cell_bytes (vec_insert (Z.to_nat insert_pos) (rowid, cell) cells)));
      map_err_M BtPager (put_page leaf_page buf)
    end
  else
    cells ← lift (collect_leaf_cells buf header_start leaf_page usable_size);
    let cells := vec_insert (Z.to_nat insert_pos) (rowid, cell) cells in
    let left_n := div_ceil2 (length cells) in
    right_page ← allocate_page_b;
    let right := drop left_n cells in
    let left := take left_n cells in
    divider ← lift (match last left with Some d => Ok (fst d) | None => Err (BtInternal EmptyLeftHalf) end);
    _ ← edit_page leaf_page (fun buf => write_leaf_page buf header_start leaf_page (cell_bytes left));
    _ ← edit_page right_page (fun buf => write_leaf_page buf 0 right_page (cell_bytes right));
    insert_into_parent usable_size page_len (rev ancestors) root_page leaf_page right_page divider.

Definition insert_row (header : DatabaseHeader) (root_page rowid : Z) (payload : list Z) : M (Pager OS) BtreeError unit :=
  let usable_size := usable_page_size header in
  cell ← encode_leaf_cell usable_size rowid payload;
  found ← find_leaf_page root_page rowid;
  let '(ancestors, leaf_page) := found in
  page ← get_page_mut_b leaf_page;
  insert_into_leaf usable_size (len page) leaf_page root_page ancestors rowid cell.

(** ** Deletion ([delete.rs]) *)

(** The pages a connection can read: those of the main file, of the log's
    overlay and of the transaction. *)
Definition page_bound (p : Pager OS) : nat :=
  S (Z.to_nat (len (db_contents (vfs p)) / pg_page_size p) + base.size (dirty p) + base.size (wal_pages p)).

(** Every round reads a page it has not seen, so [page_bound] rounds suffice. *)
Fixpoint free_overflow_chain (fuel : nat) (first_page page_num : Z) (visited : list Z) : M (Pager OS) BtreeError unit :=
  if page_num =? 0 then mret tt else
  if bool_decide (page_num ∈ visited) then throw (BtOverflowChainCycle first_page page_num) else
  match fuel with
  | O => throw (BtTraversalTooLong MAX_PAGES_VISITED)
  | S fuel =>
    buf ← get_page_mut_b page_num;
    next ← lift (read_u32 buf 0 page_num);
    _ ← deallocate_page_b page_num;
    free_overflow_chain fuel first_page next (page_num :: visited)
  end.

Definition splice_child (ancestors_up : list Z) (old_child new_child : Z) : M (Pager OS) BtreeError unit :=
  match ancestors_up with
  | [] => throw (BtInternal NoAncestors)
  | parent_page :: _ =>
    let header_start := page1_header_start parent_page in
    buf ← get_page_mut_b parent_page;
    er ← lift (collect_interior_entries buf header_start parent_page);
    let '(entries, rightmost) := er in
    er ← lift (match list_find (fun e => e.1 = old_child) entries with
               | Some (i, (_, key)) => Ok (<[i := (new_child, key)]> entries, rightmost)
               | None => if rightmost =? old_child then Ok (entries, new_child)
                         else Err (BtMissingChildRoute parent_page old_child)
               end);
    let '(entries, rightmost) := er in
    edit_page parent_page (fun buf => write_interior_page buf header_start parent_page (interior_page entries) rightmost)
  end.

Definition collapse_root (usable_size root_page only_child : Z) : M (Pager OS) BtreeError unit :=
  let child_header_start := page1_header_start only_child in
  content ← get_page_mut_b only_child;
  page_type ← lift (read_page_type content child_header_start only_child);
  let root_header_start := page1_header_start root_page in
  _ ← (if page_type =? LEAF_TABLE then
         cells ← lift (collect_leaf_cells content child_header_start only_child usable_size);
         edit_page root_page (fun dest => write_leaf_page dest root_header_start root_page (cell_bytes cells))
       else if page_type =? INTERIOR_TABLE then
         er ← lift (collect_interior_entries content child_header_start only_child);
         let '(entries, rightmost) := er in
         edit_page root_page (fun dest => write_interior_page dest root_header_start root_page (interior_page entries) rightmost)
       else throw (BtUnexpectedPageType only_child page_type));
  deallocate_page_b only_child.

(** The parent's entries once [emptied_page] is gone. *)
Definition drop_route (parent_page : Z) (entries : list (Z * Z)) (rightmost emptied_page : Z)
    : result BtreeError (list (Z * Z) * Z) :=
  match list_find (fun e => e.1 = emptied_page) entries with
  | Some (idx, _) => Ok (delete idx entries, rightmost)
  | None =>
    if rightmost =? emptied_page then
      match last entries with
      | Some (last_child, _) => Ok (removelast entries, last_child)
      | None => Err (BtInternal NothingToPromote)
      end
    else Err (BtMissingChildRoute parent_page emptied_page)
  end.

Definition collapse_into_ancestors (usable_size root_page : Z) (ancestors_up : list Z) (emptied_page : Z)
    : M (Pager OS) BtreeError unit :=
  match ancestors_up with
  | [] => throw (BtInternal NoAncestors)
  | parent_page :: rest =>
    let header_start := page1_header_start parent_page in
    buf ← get_page_mut_b parent_page;
    er ← lift (collect_interior_entries buf header_start parent_page);
    let '(entries, rightmost) := er in
    er ← lift (drop_route parent_page entries rightmost emptied_page);
    let '(entries, rightmost) := er in
    match entries with
    | _ :: _ =>
      edit_page parent_page (fun buf => write_interior_page buf header_start parent_page (interior_page entries) rightmost)
    | [] =>
      if parent_page =? root_page then collapse_root usable_size root_page rightmost
      else _ ← deallocate_page_b parent_page; splice_child rest parent_page rightmost
    end
  end.

Definition delete_row (header : DatabaseHeader) (root_page rowid : Z) : M (Pager OS) BtreeError unit :=
  let usable_size := usable_page_size header in
  found ← find_leaf_page root_page rowid;
  let '(ancestors, leaf_page) := found in
  let header_start := page1_header_start leaf_page in
  buf ← get_page_mut_b leaf_page;
  cell ← lift (find_leaf_cell buf header_start leaf_page usable_size rowid);
  match cell with
  | None => throw (BtRowidNotFound rowid)
  | Some (pos, num_cells, overflow_page) =>
    let free := (p ← get_st; free_overflow_chain (page_bound p) overflow_page overflow_page []) in
    if (1 <? num_cells) || match ancestors with [] => true | _ => false end then
      _ ← edit_page leaf_page (fun buf => splice_delete_cell buf header_start leaf_page usable_size pos true);
      free
    else
      _ ← edit_page leaf_page (fun buf => write_leaf_page buf header_start leaf_page []);
      _ ← deallocate_page_b leaf_page;
      _ ← free;
      collapse_into_ancestors usable_size root_page (rev ancestors) leaf_page
  end.

End Btree.
