(* ===== verification/Tree.v ===== *)
(** * Table b-trees as sorted lists of rows

    What a tree of pages holds: the invariant relating the pages reachable
    from a root to the list of its rows in rowid order, the contexts that lead
    from the root to a leaf, and the descent of [find_leaf_page]. *)

From stdpp Require Import prelude list numbers gmap.
From Stdlib Require Import ZArith Lia.
From S2P Require Import Prelude Varint Header Freelist Vfs Journal Wal Lock Shm Checkpoint PageCache Pager Commit Transactions Allocator BtreePage LeafPage LeafSearch Btree Text Record.

Local Open Scope Z_scope.

(** Equations and disjointness of page sets, from those in the context. *)
Ltac pages :=
  repeat match goal with
  | H : ?T |- _ =>
    lazymatch type of T with
    | Prop => lazymatch T with
      | _ ## _ => fail | _ ∈ _ => fail | ~ _ ∈ _ => fail | _ <> _ => fail | _ ⊆ _ => fail | @eq (gset Z) _ _ => fail
      | _ => clear H
      end
    end
  end; set_solver.

Section Trees.
Context `{host : Host} {OS : Type} `{Fcntl OS}.
Context (usable : Z).

(** ** The invariant *)

(** A leaf page whose rows have rowids in [(lo, hi]]. *)
Definition leaf_at (p : Pager OS) (n lo hi : Z) (rs : list row) : Prop :=
  exists buf cs slots blocks, logical p n = Ok buf /\ len buf = pg_page_size p /\
    leaf_page buf (content_offset n) cs slots blocks /\ parsed usable slots /\ rs = rows usable slots /\
    sorted_rows rs /\ Forall (fun r => lo < r.1 <= hi) rs.

Definition interior_at (p : Pager OS) (n : Z) (entries : list (Z * Z)) (rightmost : Z) : Prop :=
  exists buf, logical p n = Ok buf /\ len buf = pg_page_size p /\ interior_layout buf (content_offset n) entries rightmost.

(** The tree under page [n], of height at most [h], holds the rows [rs], with
    rowids in [(lo, hi]], on the pages [ps], no page being used twice.  The
    children of an interior page need not have the same height. *)
Inductive tree (p : Pager OS) : nat -> Z -> Z -> Z -> list row -> gset Z -> Prop :=
| tree_leaf h n lo hi rs : is_u32 n -> leaf_at p n lo hi rs -> tree p h n lo hi rs {[n]}
| tree_interior h n entries rightmost lo mid hi rs1 ps1 rs2 ps2 :
    is_u32 n -> entries <> [] -> interior_at p n entries rightmost ->
    branches p h entries lo mid rs1 ps1 -> mid <= hi -> tree p h rightmost mid hi rs2 ps2 ->
    ps1 ## ps2 -> n ∉ ps1 ∪ ps2 ->
    tree p (S h) n lo hi (rs1 ++ rs2) ({[n]} ∪ (ps1 ∪ ps2))
with branches (p : Pager OS) : nat -> list (Z * Z) -> Z -> Z -> list row -> gset Z -> Prop :=
| branches_nil h lo : branches p h [] lo lo [] ∅
| branches_cons h child key entries lo mid rs1 ps1 rs2 ps2 :
    lo <= key -> tree p h child lo key rs1 ps1 -> branches p h entries key mid rs2 ps2 -> ps1 ## ps2 ->
    branches p h ((child, key) :: entries) lo mid (rs1 ++ rs2) (ps1 ∪ ps2).

Scheme tree_mut := Induction for tree Sort Prop
  with branches_mut := Induction for branches Sort Prop.
Combined Scheme tree_branches_ind from tree_mut, branches_mut.

Definition in_range (lo hi : Z) (rs : list row) : Prop := Forall (fun r => lo < r.1 <= hi) rs.

Lemma in_range_weaken lo hi lo' hi' rs : in_range lo hi rs -> lo' <= lo -> hi <= hi' -> in_range lo' hi' rs.
Proof. intros H1 ? ?. eapply Forall_impl; [exact H1|]. cbn. lia. Qed.

Lemma sorted_join lo mid hi rs1 rs2 :
  sorted_rows rs1 -> sorted_rows rs2 -> in_range lo mid rs1 -> in_range mid hi rs2 -> sorted_rows (rs1 ++ rs2).
Proof.
  intros S1 S2 R1 R2. apply sorted_app. split; [done|]. split; [done|]. eapply Forall_impl; [exact R1|].
  intros a Ha. eapply Forall_impl; [exact R2|]. cbn in *. lia.
Qed.

(** The rows of a tree are in rowid order. *)
Lemma tree_rows p :
  (forall h n lo hi rs ps, tree p h n lo hi rs ps -> sorted_rows rs /\ in_range lo hi rs) /\
  (forall h es lo mid rs ps, branches p h es lo mid rs ps -> sorted_rows rs /\ in_range lo mid rs /\ lo <= mid).
Proof.
  apply (tree_branches_ind p (fun h n lo hi rs ps _ => sorted_rows rs /\ in_range lo hi rs)
    (fun h es lo mid rs ps _ => sorted_rows rs /\ in_range lo mid rs /\ lo <= mid)).
  - intros h n lo hi rs ? Hl. destruct Hl as (_ & _ & _ & _ & _ & _ & _ & _ & _ & Hs & Hr). done.
  - intros h n es rm lo mid hi rs1 ps1 rs2 ps2 ? ? ? ? (S1 & R1 & Hle) Hm ? (S2 & R2) ? ?.
    split; [by eapply sorted_join|]. apply Forall_app. split; eapply in_range_weaken; first [done|lia].
  - intros h lo. split; [constructor|]. split; [constructor|lia].
  - intros h child key es lo mid rs1 ps1 rs2 ps2 Hle ? (S1 & R1) ? (S2 & R2 & Hle2) ?.
    split; [by eapply sorted_join|]. split; [|lia]. apply Forall_app. split; eapply in_range_weaken; first [done|lia].
Qed.

Lemma leaf_at_frame p p' n lo hi rs :
  leaf_at p n lo hi rs -> pg_page_size p' = pg_page_size p -> same_content p p' n -> leaf_at p' n lo hi rs.
Proof.
  intros (buf & cs & slots & blocks & Hb & Hlen & Hl & Hp & Hrs & Hs & Hr) Ps Hc. destruct (Hc buf Hb) as (b' & Hb' & Hf).
  exists b', cs, slots, blocks. split; [done|]. split; [destruct Hf; congruence|]. split; [by eapply leaf_page_from|done].
Qed.

Lemma interior_at_frame p p' n es rm :
  interior_at p n es rm -> pg_page_size p' = pg_page_size p -> same_content p p' n -> interior_at p' n es rm.
Proof.
  intros (buf & Hb & Hlen & Hl) Ps Hc. destruct (Hc buf Hb) as (b' & Hb' & Hf).
  exists b'. split; [done|]. split; [destruct Hf; congruence|]. by eapply interior_from.
Qed.

(** A tree only depends on the content of its pages. *)
Lemma tree_frame p p' :
  pg_page_size p' = pg_page_size p ->
  (forall h n lo hi rs ps, tree p h n lo hi rs ps -> (forall m, m ∈ ps -> same_content p p' m) -> tree p' h n lo hi rs ps) /\
  (forall h es lo mid rs ps, branches p h es lo mid rs ps -> (forall m, m ∈ ps -> same_content p p' m) ->
     branches p' h es lo mid rs ps).
Proof.
  intros Ps. apply (tree_branches_ind p
    (fun h n lo hi rs ps _ => (forall m, m ∈ ps -> same_content p p' m) -> tree p' h n lo hi rs ps)
    (fun h es lo mid rs ps _ => (forall m, m ∈ ps -> same_content p p' m) -> branches p' h es lo mid rs ps)).
  - intros h n lo hi rs Hn Hl Hc. constructor; [done|]. eapply leaf_at_frame; [done|done|]. apply Hc. pages.
  - intros h n es rm lo mid hi rs1 ps1 rs2 ps2 Hn Hes Hi ? IH1 Hm ? IH2 Hd Hni Hc. econstructor; try done.
    + eapply interior_at_frame; [done|done|]. apply Hc. pages.
    + apply IH1. intros m Hin. apply Hc. pages.
    + apply IH2. intros m Hin. apply Hc. pages.
  - intros h lo _. constructor.
  - intros h child key es lo mid rs1 ps1 rs2 ps2 Hle ? IH1 ? IH2 Hd Hc. constructor; try done.
    + apply IH1. intros m Hin. apply Hc. pages.
    + apply IH2. intros m Hin. apply Hc. pages.
Qed.

Lemma tree_taller p :
  (forall h n lo hi rs ps, tree p h n lo hi rs ps -> tree p (S h) n lo hi rs ps) /\
  (forall h es lo mid rs ps, branches p h es lo mid rs ps -> branches p (S h) es lo mid rs ps).
Proof.
  apply (tree_branches_ind p (fun h n lo hi rs ps _ => tree p (S h) n lo hi rs ps)
    (fun h es lo mid rs ps _ => branches p (S h) es lo mid rs ps)); by econstructor.
Qed.

(** ** Branches *)

Lemma branches_app p h e1 e2 lo mid rs ps :
  branches p h (e1 ++ e2) lo mid rs ps <->
  exists k rs1 ps1 rs2 ps2, branches p h e1 lo k rs1 ps1 /\ branches p h e2 k mid rs2 ps2 /\
    rs = rs1 ++ rs2 /\ ps = ps1 ∪ ps2 /\ ps1 ## ps2.
Proof.
  split.
  - revert lo rs ps. induction e1 as [|[child key] e1 IH]; intros lo rs ps Hb.
    + exists lo, [], ∅, rs, ps. split; [constructor|]. split; [done|]. split; [done|]. split; pages.
    + inversion Hb as [|? ? ? ? ? ? rs1 ps1 rs2 ps2 Hle Ht Hb' Hd]; subst.
      destruct (IH _ _ _ Hb') as (k & rsA & psA & rsB & psB & H1 & H2 & -> & -> & Hd').
      exists k, (rs1 ++ rsA), (ps1 ∪ psA), rsB, psB. split; [constructor; [done|done|done|pages]|].
      split; [done|]. split; [by rewrite app_assoc|]. split; pages.
  - revert lo rs ps. induction e1 as [|[child key] e1 IH]; intros lo rs ps (k & rs1 & ps1 & rs2 & ps2 & H1 & H2 & -> & -> & Hd).
    + inversion H1; subst. replace (∅ ∪ ps2) with ps2 by pages. done.
    + inversion H1 as [|? ? ? ? ? ? rsA psA rsB psB Hle Ht Hb' Hd']; subst. rewrite <- app_assoc.
      replace (psA ∪ psB ∪ ps2) with (psA ∪ (psB ∪ ps2)) by pages.
      apply branches_cons; [done|done| |pages]. apply IH. exists k, rsB, psB, rs2, ps2.
      split; [done|]. split; [done|]. split; [done|]. split; pages.
Qed.

(** The child [route] picks. *)
Lemma route_split p h entries rightmost lo mid rs ps rowid :
  branches p h entries lo mid rs ps -> lo < rowid ->
  (mid < rowid -> route entries rightmost rowid = rightmost) /\
  (rowid <= mid -> exists e1 child key e2 flo rsA psA rs1 ps1 rsB psB,
     entries = e1 ++ (child, key) :: e2 /\ route entries rightmost rowid = child /\
     branches p h e1 lo flo rsA psA /\ flo <= key /\ tree p h child flo key rs1 ps1 /\ branches p h e2 key mid rsB psB /\
     flo < rowid <= key /\ rs = rsA ++ rs1 ++ rsB /\ ps = psA ∪ (ps1 ∪ psB) /\ psA ## (ps1 ∪ psB) /\ ps1 ## psB).
Proof.
  revert lo rs ps. induction entries as [|[child key] entries IH]; intros lo rs ps Hb Hlo.
  { inversion Hb; subst. split; [done|lia]. }
  inversion Hb as [|? ? ? ? ? ? rs1 ps1 rs2 ps2 Hle Ht Hb' Hd]; subst. cbn [route].
  pose proof (proj2 (tree_rows p) _ _ _ _ _ _ Hb') as (_ & _ & Hkm).
  destruct (Z.leb_spec rowid key) as [Hk|Hk].
  - split; [lia|]. intros _. exists [], child, key, entries, lo, [], ∅, rs1, ps1, rs2, ps2.
    split; [done|]. split; [done|]. split; [constructor|]. do 3 (split; [done|]). split; [lia|]. split; [done|].
    split; [pages|]. split; [pages|done].
  - destruct (IH _ _ _ Hb' Hk) as [H1 H2]. split; [done|]. intros Hm.
    destruct (H2 Hm) as (e1 & c & k & e2 & flo & rsA & psA & rsX & psX & rsB & psB & -> & Hr & Hb1 & Hf & Ht' & Hb2 & Hrow & -> & -> & Hd1 & Hd2).
    exists ((child, key) :: e1), c, k, e2, flo, (rs1 ++ rsA), (ps1 ∪ psA), rsX, psX, rsB, psB.
    split; [done|]. split; [done|]. split; [constructor; [done|done|done|pages]|]. do 3 (split; [done|]). split; [done|].
    split; [by rewrite <- app_assoc|]. split; [pages|]. split; [pages|done].
Qed.

(** ** Contexts *)

(** The tree from page [root] with the subtree at page [f], for rowids in
    [(flo, fhi]], left out: the ancestors of [f] from its parent up, the rows
    before and after it, and the pages used. *)
Inductive context (p : Pager OS) (hr : nat) (root lo hi : Z)
    : list Z -> nat -> Z -> Z -> Z -> list row -> list row -> gset Z -> Prop :=
| context_root : context p hr root lo hi [] hr root lo hi [] [] ∅
| context_entry anc h n nlo nhi l r ps e1 child key e2 rightmost flo mid rsA psA rsB psB rsC psC :
    context p hr root lo hi anc (S h) n nlo nhi l r ps -> is_u32 n ->
    interior_at p n (e1 ++ (child, key) :: e2) rightmost ->
    branches p h e1 nlo flo rsA psA -> flo <= key -> branches p h e2 key mid rsB psB -> mid <= nhi ->
    tree p h rightmost mid nhi rsC psC ->
    n ∉ ps ∪ (psA ∪ (psB ∪ psC)) -> ps ## psA ∪ (psB ∪ psC) -> psA ## psB ∪ psC -> psB ## psC ->
    context p hr root lo hi (n :: anc) h child flo key (l ++ rsA) (rsB ++ rsC ++ r) ({[n]} ∪ (ps ∪ (psA ∪ (psB ∪ psC))))
| context_last anc h n nlo nhi l r ps entries child flo rsA psA :
    context p hr root lo hi anc (S h) n nlo nhi l r ps -> is_u32 n -> entries <> [] ->
    interior_at p n entries child ->
    branches p h entries nlo flo rsA psA -> flo <= nhi ->
    n ∉ ps ∪ psA -> ps ## psA ->
    context p hr root lo hi (n :: anc) h child flo nhi (l ++ rsA) r ({[n]} ∪ (ps ∪ psA)).

(** Putting a subtree into a context. *)
Lemma plug p hr root lo hi anc h f flo fhi l r ps :
  context p hr root lo hi anc h f flo fhi l r ps ->
  forall rs qs, tree p h f flo fhi rs qs -> qs ## ps -> tree p hr root lo hi (l ++ rs ++ r) (qs ∪ ps).
Proof.
  induction 1 as [|anc h n nlo nhi l r ps e1 child key e2 rightmost flo mid rsA psA rsB psB rsC psC Hc IH Hn Hi Hb1 Hle Hb2 Hm Ht D1 D2 D3 D4
    |anc h n nlo nhi l r ps entries child flo rsA psA Hc IH Hn Hes Hi Hb1 Hle D1 D2]; intros rs qs Hf Hd.
  - rewrite app_nil_r. replace (qs ∪ ∅) with qs by pages. done.
  - assert (branches p h (e1 ++ (child, key) :: e2) nlo mid (rsA ++ rs ++ rsB) (psA ∪ (qs ∪ psB))) as Hb.
    { apply branches_app. exists flo, rsA, psA, (rs ++ rsB), (qs ∪ psB). split; [done|]. split; [|split; [done|split; [done|pages]]].
      constructor; [done|done|done|pages]. }
    assert (e1 ++ (child, key) :: e2 <> []) as Hes by (by destruct e1).
    specialize (IH _ _ (tree_interior p h n _ rightmost nlo mid nhi _ _ _ _ Hn Hes Hi Hb Hm Ht ltac:(pages) ltac:(pages)) ltac:(pages)).
    rewrite <- !app_assoc in IH. rewrite <- !app_assoc.
    replace (qs ∪ ({[n]} ∪ (ps ∪ (psA ∪ (psB ∪ psC))))) with ({[n]} ∪ (psA ∪ (qs ∪ psB) ∪ psC) ∪ ps) by pages. done.
  - specialize (IH _ _ (tree_interior p h n _ child nlo flo nhi _ _ _ _ Hn Hes Hi Hb1 Hle Hf ltac:(pages) ltac:(pages)) ltac:(pages)).
    rewrite <- !app_assoc in IH. rewrite <- !app_assoc.
    replace (qs ∪ ({[n]} ∪ (ps ∪ psA))) with ({[n]} ∪ (psA ∪ qs) ∪ ps) by pages. done.
Qed.

Lemma context_frame p p' hr root lo hi anc h f flo fhi l r ps :
  context p hr root lo hi anc h f flo fhi l r ps -> pg_page_size p' = pg_page_size p ->
  (forall m, m ∈ ps -> same_content p p' m) -> context p' hr root lo hi anc h f flo fhi l r ps.
Proof.
  intros Hc Ps. induction Hc as [|anc h n nlo nhi l r ps e1 child key e2 rightmost flo mid rsA psA rsB psB rsC psC Hc IH Hn Hi Hb1 Hle Hb2 Hm Ht D1 D2 D3 D4
    |anc h n nlo nhi l r ps entries child flo rsA psA Hc IH Hn Hes Hi Hb1 Hle D1 D2]; intros Hs.
  - constructor.
  - econstructor; try done.
    + apply IH. intros m Hin. apply Hs. pages.
    + eapply interior_at_frame; [done|done|]. apply Hs. pages.
    + apply (tree_frame p p' Ps); [done|]. intros m Hin. apply Hs. pages.
    + apply (tree_frame p p' Ps); [done|]. intros m Hin. apply Hs. pages.
    + apply (tree_frame p p' Ps); [done|]. intros m Hin. apply Hs. pages.
  - econstructor; try done.
    + apply IH. intros m Hin. apply Hs. pages.
    + eapply interior_at_frame; [done|done|]. apply Hs. pages.
    + apply (tree_frame p p' Ps); [done|]. intros m Hin. apply Hs. pages.
Qed.

(** The rows outside the focus are outside its range. *)
Lemma context_rows p hr root lo hi anc h f flo fhi l r ps :
  context p hr root lo hi anc h f flo fhi l r ps ->
  Forall (fun x => x.1 <= flo) l /\ Forall (fun x => fhi < x.1) r /\ lo <= flo /\ fhi <= hi.
Proof.
  induction 1 as [|anc h n nlo nhi l r ps e1 child key e2 rightmost flo mid rsA psA rsB psB rsC psC Hc IH Hn Hi Hb1 Hle Hb2 Hm Ht D1 D2 D3 D4
    |anc h n nlo nhi l r ps entries child flo rsA psA Hc IH Hn Hes Hi Hb1 Hle D1 D2].
  - split; [constructor|]. split; [constructor|lia].
  - destruct IH as (Hl & Hr & ? & ?). pose proof (proj2 (tree_rows p) _ _ _ _ _ _ Hb1) as (_ & RA & ?).
    pose proof (proj2 (tree_rows p) _ _ _ _ _ _ Hb2) as (_ & RB & ?). pose proof (proj1 (tree_rows p) _ _ _ _ _ _ Ht) as (_ & RC).
    split; [|split; [|lia]].
    + apply Forall_app. split; eapply Forall_impl; [exact Hl|cbn; lia|exact RA|cbn; lia].
    + rewrite !Forall_app. repeat split; eapply Forall_impl; [exact RB|cbn; lia|exact RC|cbn; lia|exact Hr|cbn; lia].
  - destruct IH as (Hl & Hr & ? & ?). pose proof (proj2 (tree_rows p) _ _ _ _ _ _ Hb1) as (_ & RA & ?).
    split; [|split; [done|lia]]. apply Forall_app. split; eapply Forall_impl; [exact Hl|cbn; lia|exact RA|cbn; lia].
Qed.

(** ** Descent *)

Lemma read_page_b_spec n (p : Pager OS) b :
  coherent p -> is_u32 n -> logical p n = Ok b -> exists p' : Pager OS, read_page_b n p = (Ok b, p') /\ updated p p' ∅.
Proof.
  intros Hc Hn Hl. destruct (read_page_spec n p Hc Hn) as (p' & E & Hc' & Hs). rewrite Hl in E.
  exists p'. split; [unfold read_page_b, map_err_M; by rewrite E|]. by apply updated_read.
Qed.

Lemma leaf_type b hs cs slots blocks pn : leaf_page b hs cs slots blocks -> read_page_type b hs pn = Ok LEAF_TABLE.
Proof. intros Hl. unfold read_page_type. by rewrite (lp_type _ _ _ _ _ Hl). Qed.

(** From a node in its context the loop reaches the leaf for a rowid; [q] is
    [p] as the descent's own reads leave it. *)
Lemma descend p hr root rlo rhi rowid h : forall n lo hi rs ps,
  tree p h n lo hi rs ps -> lo < rowid <= hi ->
  forall anc l r qs, context p hr root rlo rhi anc h n lo hi l r qs -> ps ## qs ->
  forall fuel q, (h < fuel)%nat -> updated p q ∅ ->
  exists anc' h' leaf flo fhi l' ls r' qs' q',
    find_leaf_loop fuel (rev anc) n rowid q = (Ok (rev anc', leaf), q') /\ updated p q' ∅ /\
    context p hr root rlo rhi anc' h' leaf flo fhi l' r' qs' /\ is_u32 leaf /\ leaf_at p leaf flo fhi ls /\ (leaf ∉ qs') /\
    flo < rowid <= fhi /\ l ++ rs ++ r = l' ++ ls ++ r' /\ ps ∪ qs = {[leaf]} ∪ qs'.
Proof.
  induction h as [h IH] using lt_wf_ind. intros n lo hi rs ps Ht Hrow anc l r qs Hc Hd fuel q Hfuel Hq.
  destruct fuel as [|fuel]; [lia|]. cbn [find_leaf_loop]. pose proof Hq as (Hqb & Hqc & Hql).
  destruct Ht as [h n lo hi rs Hn Hl|h n entries rightmost lo mid hi rs1 ps1 rs2 ps2 Hn Hes Hi Hb Hm Ht D1 D2].
  - pose proof Hl as (buf & cs & slots & blocks & Hbuf & _ & Hlp & _).
    destruct (read_page_b_spec n q buf Hqc Hn) as (q' & E & Hq'); [by rewrite Hql, lookup_empty|].
    rewrite (M_bind_ok _ _ _ _ _ E). change (page1_header_start n) with (content_offset n).
    rewrite (leaf_type _ _ _ _ _ n Hlp). erewrite M_bind_ok by reflexivity. rewrite Z.eqb_refl.
    exists anc, h, n, lo, hi, l, rs, r, qs, q'. split; [done|].
    split; [pose proof (updated_trans _ _ _ _ _ Hq Hq') as Hu; by rewrite map_union_empty in Hu|].
    do 4 (split; [done || pages|]). done.
  - pose proof Hi as (buf & Hbuf & _ & Hil).
    destruct (read_page_b_spec n q buf Hqc Hn) as (q1 & E & Hq1); [by rewrite Hql, lookup_empty|].
    pose proof (updated_trans _ _ _ _ _ Hq Hq1) as Hu1. rewrite map_union_empty in Hu1.
    rewrite (M_bind_ok _ _ _ _ _ E). change (page1_header_start n) with (content_offset n).
    destruct (interior_read _ _ n _ _ Hil) as [-> ->].
    erewrite M_bind_ok by reflexivity. change (INTERIOR_TABLE =? LEAF_TABLE) with false. cbv iota. rewrite Z.eqb_refl.
    erewrite M_bind_ok by reflexivity.
    destruct (route_split p h entries rightmost lo mid rs1 ps1 rowid Hb ltac:(lia)) as [Hlast Hentry].
    destruct (Z_lt_le_dec mid rowid) as [Hgt|Hle].
    + rewrite (Hlast Hgt).
      destruct (IH h ltac:(lia) _ _ _ _ _ Ht ltac:(lia) (n :: anc) (l ++ rs1) r ({[n]} ∪ (qs ∪ ps1))) with (fuel := fuel) (q := q1)
        as (anc' & h' & leaf & flo & fhi & l' & ls & r' & qs' & q' & E' & Hu & Hc' & Hu32 & Hl & Hni & Hr & Hrs & Hps); try done; try lia.
      { econstructor; try done; pages. }
      { pages. }
      exists anc', h', leaf, flo, fhi, l', ls, r', qs', q'. cbn [rev] in E'. split; [done|]. do 6 (split; [done|]).
      split; [by rewrite <- Hrs, <- !app_assoc|]. rewrite <- Hps. pages.
    + destruct (Hentry Hle) as (e1 & child & key & e2 & flo & rsA & psA & rsX & psX & rsB & psB & -> & -> & Hb1 & Hfk & Htc & Hb2 & Hrk & -> & -> & D3 & D4).
      destruct (IH h ltac:(lia) _ _ _ _ _ Htc ltac:(lia) (n :: anc) (l ++ rsA) (rsB ++ rs2 ++ r) ({[n]} ∪ (qs ∪ (psA ∪ (psB ∪ ps2)))))
        with (fuel := fuel) (q := q1)
        as (anc' & h' & leaf & flo' & fhi & l' & ls & r' & qs' & q' & E' & Hu & Hc' & Hu32 & Hl & Hni & Hr & Hrs & Hps); try done; try lia.
      { econstructor; try done; pages. }
      { pages. }
      exists anc', h', leaf, flo', fhi, l', ls, r', qs', q'. cbn [rev] in E'. split; [done|]. do 6 (split; [done|]).
      split; [by rewrite <- Hrs, <- !app_assoc|]. rewrite <- Hps. pages.
Qed.

End Trees.

(** * Insertion into a table b-tree ([src/btree/table/insert.rs])

    [insert_row] adds a row to the sorted list a tree holds, through the
    in-place splice, the rebuild of a fragmented leaf, and splits of leaves,
    interior pages and the root. *)

(** ** Page edits *)

Section Edits.
Context `{host : Host} {OS : Type} `{Fcntl OS}.

Lemma get_page_mut_b_spec n (p : Pager OS) b :
  coherent p -> logical p n = Ok b ->
  exists p' : Pager OS, get_page_mut_b n p = (Ok b, p') /\ updated p p' ∅ /\ dirty p' !! n = Some b.
Proof.
  intros Hc Hl. pose proof (get_page_mut_spec n p Hc) as Hg. rewrite Hl in Hg. destruct Hg as (p' & E & Hu & Hd).
  exists p'. split; [unfold get_page_mut_b, map_err_M; by rewrite E|done].
Qed.

Lemma put_page_b_spec n b (p : Pager OS) :
  coherent p -> is_Some (dirty p !! n) ->
  exists p' : Pager OS, map_err_M BtPager (put_page n b) p = (Ok tt, p') /\ updated p p' {[n := b]}.
Proof.
  intros Hc Hd. destruct (put_page_spec n b p Hc Hd) as (p' & E & Hu). exists p'.
  split; [unfold map_err_M; by rewrite E|done].
Qed.

Lemma updated_step (p p1 p2 : Pager OS) u : updated p p1 ∅ -> updated p1 p2 u -> updated p p2 u.
Proof. intros H1 H2. pose proof (updated_trans _ _ _ _ _ H1 H2) as Hu. by rewrite map_union_empty in Hu. Qed.

Lemma updated_coherent (p p' : Pager OS) u : updated p p' u -> coherent p'.
Proof. by intros (_ & ? & _). Qed.

Lemma updated_same (p p' : Pager OS) n : updated p p' ∅ -> logical p' n = logical p n.
Proof. intros (_ & _ & L). by rewrite L, lookup_empty. Qed.

Lemma edit_page_spec n f (p : Pager OS) b b' :
  coherent p -> logical p n = Ok b -> f b = Ok b' ->
  exists p' : Pager OS, edit_page n f p = (Ok tt, p') /\ updated p p' {[n := b']}.
Proof.
  intros Hc Hl Hf. destruct (get_page_mut_b_spec n p b Hc Hl) as (p1 & E1 & Hu1 & Hd1).
  unfold edit_page. rewrite (M_bind_ok _ _ _ _ _ E1), Hf. erewrite M_bind_ok by reflexivity.
  destruct (put_page_b_spec n b' p1) as (p2 & E2 & Hu2); [by eapply updated_coherent|by eexists|].
  exists p2. split; [done|]. by eapply updated_step.
Qed.

Lemma updated_content (p p' : Pager OS) n b m : updated p p' {[n := b]} -> m <> n -> same_content p p' m.
Proof. intros Hu Hm. apply same_content_eq. by eapply updated_other. Qed.

Lemma updated_at (p p' : Pager OS) n b : updated p p' {[n := b]} -> logical p' n = Ok b.
Proof. intros (_ & _ & L). by rewrite L, lookup_singleton_eq. Qed.

Lemma updated_size (p p' : Pager OS) u : updated p p' u -> pg_page_size p' = pg_page_size p.
Proof. intros (Hb & _). by apply same_base_size. Qed.

Lemma store_read (p p' : Pager OS) cnt F : store p cnt F -> updated p p' ∅ -> store p' cnt F.
Proof.
  intros (Hf & Hrd & Hsrc) Hu. pose proof (updated_size _ _ _ Hu) as Ps. pose proof Hu as (Hb & Hc & _).
  split; [|split].
  - destruct Hf as (_ & Hps & Hcnt & Hnd & Hr & b1 & t & chain & Hl1 & Hrest).
    split; [done|]. split; [by rewrite Ps|]. do 3 (split; [done|]). exists b1, t, chain.
    rewrite (updated_same _ _ 1 Hu), Ps. split; [done|]. destruct Hrest as (? & ? & ? & ? & Hch & ?).
    do 4 (split; [done|]). split; [|done]. apply (Allocator.free_chain_frame p); [done|done|]. intros u _. by apply updated_same.
  - intros n Hn. destruct (Hrd n Hn) as (b & Hbn & Hlen). exists b. by rewrite (updated_same _ _ n Hu), Ps.
  - intros n b Hn. destruct Hb as (Ev & _). rewrite Ev, Ps. by apply Hsrc.
Qed.

End Edits.

Lemma content_offset_range n : 0 <= content_offset n <= 100.
Proof. unfold content_offset. destruct (n =? 1); lia. Qed.

(** ** The rows of a leaf after a write *)

Lemma map_snd_rows usable slots : map snd (rows usable slots) = map snd slots.
Proof. unfold rows. by rewrite map_map. Qed.

Lemma len_rows usable slots : len (rows usable slots) = len slots.
Proof. unfold len, rows. by rewrite length_map. Qed.

(** Cells given with their rowids. *)
Definition good_cells (usable : Z) (rs : list row) : Prop :=
  Forall (fun r => parse_cell usable r.2 = Some r.1 /\ 1 <= len r.2) rs.

Lemma good_rows usable buf hs hl cs slots :
  page_slots buf hs hl cs slots -> parsed usable slots -> good_cells usable (rows usable slots).
Proof.
  intros [_ _ _ _ _ _ _ Hcell] Hp. unfold good_cells, rows. apply Forall_map, Forall_lookup. intros i [o c] Hi.
  destruct (proj1 (Forall_lookup _ _) Hp _ _ Hi) as [r Hr]. cbn [fst snd] in *. rewrite Hr. cbn.
  by destruct (Hcell _ _ _ Hi).
Qed.

(** Rebuilding a leaf from rows that fit. *)
Lemma write_rows usable buf hs pn rs :
  0 <= hs <= 100 -> len buf <= 65536 -> good_cells usable rs ->
  hs + 8 + 2 * len rs + total_len (map snd rs) <= len buf ->
  exists buf' cs slots, write_leaf_page buf hs pn (cell_bytes rs) = Ok buf' /\ leaf_page buf' hs cs slots [] /\
    parsed usable slots /\ rows usable slots = rs /\ same_outside buf buf' hs (len buf).
Proof.
  intros Hhs Hmax Hg Hfit. unfold cell_bytes.
  destruct (write_leaf_page_spec buf hs pn (map snd rs) Hhs Hmax) as (buf' & slots & E & Hsnd & Hl & Hs).
  { apply Forall_map. eapply Forall_impl; [exact Hg|]. by intros r [_ ?]. }
  { unfold len at 1 in Hfit. unfold len at 1. by rewrite length_map. }
  assert (parsed usable slots /\ rows usable slots = rs) as [Hp Hr].
  { clear - Hsnd Hg. revert rs Hsnd Hg. induction slots as [|[o c] slots IH]; intros [|[k x] rs] Hsnd Hg; try done.
    - split; [constructor|done].
    - apply Forall_cons_1 in Hg as [[Hk _] Hg]. injection Hsnd as -> Hsnd. destruct (IH rs Hsnd Hg) as [H1 H2].
      cbn [snd fst] in Hk. split; [constructor; [by eexists|done]|]. rewrite (rows_cons _ _ _ _ k) by done. by rewrite H2. }
  by exists buf', (len buf - total_len (map snd rs)), slots.
Qed.

Lemma total_len_add rowid cell rs : total_len (map snd (add_row rowid cell rs)) = total_len (map snd rs) + len cell.
Proof.
  unfold add_row, insert_at. set (k := first_greater rowid rs).
  replace (total_len (map snd rs)) with (total_len (map snd (take k rs ++ drop k rs))) by (by rewrite take_drop).
  rewrite !map_app, !total_len_app. cbn [map snd]. rewrite total_len_cons. lia.
Qed.

Lemma len_add_row rowid cell rs : len (add_row rowid cell rs) = len rs + 1.
Proof. apply len_insert_at, first_greater_le. Qed.

Lemma good_add_row usable rowid cell rs :
  good_cells usable rs -> parse_cell usable cell = Some rowid -> 1 <= len cell -> good_cells usable (add_row rowid cell rs).
Proof. intros Hg Hp Hl. by apply Forall_add_row. Qed.

(** Both ways a leaf with room takes a cell. *)
Lemma leaf_insert_fits usable buf hs cs slots blocks pn rowid cell :
  leaf_page buf hs cs slots blocks -> parsed usable slots -> has_row rowid (rows usable slots) = false ->
  parse_cell usable cell = Some rowid -> 1 <= len cell ->
  hs + 8 + 2 * (len slots + 1) + total_len (map snd slots) + len cell <= len buf ->
  let pos := Z.of_nat (first_greater rowid (rows usable slots)) in
  exists buf' cs' slots' blocks',
    (splice_insert_cell buf hs pn pos cell = Ok (Some buf') \/
     splice_insert_cell buf hs pn pos cell = Ok None /\
     write_leaf_page buf hs pn (cell_bytes (add_row rowid cell (rows usable slots))) = Ok buf') /\
    leaf_page buf' hs cs' slots' blocks' /\ parsed usable slots' /\
    rows usable slots' = add_row rowid cell (rows usable slots) /\ same_outside buf buf' hs (len buf).
Proof.
  intros Hl Hp Hn Hc Hlc Hfit pos. pose proof (lp_slots _ _ _ _ _ Hl) as Hps. pose proof Hps as [Hhs _ Hmax _ _ _ _ _].
  pose proof (len_nonneg slots). pose proof (total_len_nonneg (map snd slots)).
  assert (first_greater rowid (rows usable slots) <= length slots)%nat as Hpos.
  { pose proof (first_greater_le rowid (rows usable slots)) as H1. unfold rows in H1. by rewrite length_map in H1. }
  destruct (Z_le_gt_dec (hs + 8 + 2 * len slots + 2 + len cell) cs) as [Hgap|Hgap].
  - destruct (splice_insert_spec buf hs cs slots blocks pn _ cell Hl Hpos ltac:(lia) Hgap) as (buf' & E & Hl' & Hs).
    eexists buf', _, _, blocks. split; [by left|]. split; [exact Hl'|]. split; [by eapply parsed_insert_at|].
    split; [by apply rows_insert_at|]. eapply same_outside_weaken; [exact Hs|lia..].
  - pose proof (splice_insert_refuses buf hs cs slots blocks pn (first_greater rowid (rows usable slots)) cell Hl ltac:(lia) ltac:(lia)) as E.
    destruct (write_rows usable buf hs pn (add_row rowid cell (rows usable slots)) Hhs Hmax) as (buf' & cs' & slots' & Ew & Hl' & Hp' & Hr' & Hs).
    { apply good_add_row; [by eapply good_rows|done|done]. }
    { rewrite total_len_add, map_snd_rows, len_add_row, len_rows. lia. }
    exists buf', cs', slots', []. split; [by right|]. done.
Qed.

(** ** Cells that do not overlap fit side by side *)

Definition span (e : Z * Z) : gset Z := list_to_set (seqZ e.1 e.2).

Lemma size_span e : 0 <= e.2 -> Z.of_nat (base.size (span e)) = e.2.
Proof.
  intros He. unfold span. rewrite size_list_to_set by apply NoDup_seqZ. rewrite length_seqZ. lia.
Qed.

Lemma elem_of_span x e : x ∈ span e <-> e.1 <= x < e.1 + e.2.
Proof. unfold span. rewrite elem_of_list_to_set, elem_of_seqZ. done. Qed.

Lemma packed lo hi (es : list (Z * Z)) :
  lo <= hi -> ForallOrdPairs apart es -> Forall (fun e => lo <= e.1 /\ 0 <= e.2 /\ e.1 + e.2 <= hi) es ->
  foldr (fun e n => e.2 + n) 0 es <= hi - lo.
Proof.
  intros Hle Hap Hin.
  assert (exists X : gset Z, X = ⋃ (span <$> es) /\ Z.of_nat (base.size X) = foldr (fun e n => e.2 + n) 0 es) as (X & HX & Hs).
  { eexists. split; [done|]. induction Hap as [|e es He Hap IH]; [done|]. apply Forall_cons_1 in Hin as [(H1 & H2 & H3) Hin].
    cbn [foldr fmap list_fmap union_list]. change (⋃ (span e :: (span <$> es))) with (span e ∪ ⋃ (span <$> es)).
    rewrite size_union.
    - rewrite Nat2Z.inj_add, size_span, IH by done. done.
    - intros x Hx Hy. apply elem_of_union_list in Hy as (Y & HY & Hxy). apply list_elem_of_fmap in HY as (f & -> & Hf).
      apply elem_of_span in Hx, Hxy. apply (proj1 (Forall_forall _ _) He) in Hf as [Hf|Hf]; lia. }
  rewrite <- Hs. assert (X ⊆ span (lo, hi - lo)) as Hsub.
  { rewrite HX. intros x Hx. apply elem_of_union_list in Hx as (Y & HY & Hxy). apply list_elem_of_fmap in HY as (f & -> & Hf).
    apply elem_of_span in Hxy. apply (proj1 (Forall_forall _ _) Hin) in Hf as (? & ? & ?). apply elem_of_span. cbn. lia. }
  apply subseteq_size in Hsub. pose proof (size_span (lo, hi - lo) ltac:(cbn; lia)) as Hsp. cbn [snd] in Hsp. lia.
Qed.

(** So the rows of a leaf fit a page rebuilt from scratch. *)
Lemma leaf_page_fits buf hs cs slots blocks :
  leaf_page buf hs cs slots blocks -> hs + 8 + 2 * len slots + total_len (map snd slots) <= len buf.
Proof.
  intros [[Hhs _ _ Hroom _ _ _ Hcell] _ _ _ _ _ Hap]. apply FOP_app in Hap as (Hap & _).
  assert (foldr (fun e n => e.2 + n) 0 (map extent slots) = total_len (map snd slots)) as Ht.
  { clear. induction slots as [|s slots IH]; [done|]. cbn [map foldr]. rewrite total_len_cons. unfold extent at 1. cbn [snd]. lia. }
  rewrite <- Ht. assert (foldr (fun e n => e.2 + n) 0 (map extent slots) <= len buf - cs); [|lia].
  apply packed; [lia|done|]. apply Forall_map, Forall_lookup. intros i [o c] Hi.
  destruct (Hcell _ _ _ Hi) as (? & ? & ? & _). unfold extent. cbn. lia.
Qed.

(** ** A leaf with room *)

Section Leaf.
Context `{host : Host} {OS : Type} `{Fcntl OS}.
Context (usable : Z).

(** What [insert_into_leaf] compares with the page length. *)
Definition leaf_bytes (n : Z) (rs : list row) : Z := content_offset n + 8 + 2 * len rs + total_len (map snd rs).

Lemma needed_eq n hs k t c :
  0 <= hs <= 100 -> 0 <= k <= 65536 -> 0 <= t <= 2 ^ 40 -> 0 <= c <= 65536 -> hs = content_offset n ->
  sat_add (sat_add (sat_add (sat_add hs 8) (sat_mul (sat_add k 1) 2)) t) c = hs + 8 + 2 * (k + 1) + t + c.
Proof.
  intros ? ? ? ? _. rewrite (sat_add_small k 1), (sat_mul_small (k + 1) 2), (sat_add_small hs 8) by (unfold U64_MAX; lia).
  rewrite (sat_add_small (hs + 8)), (sat_add_small (hs + 8 + (k + 1) * 2)), sat_add_small by (unfold U64_MAX; lia). lia.
Qed.

Lemma total_len_bound buf hs hl cs (slots : list (Z * list Z)) :
  page_slots buf hs hl cs slots -> total_len (map snd slots) <= 65536 * len slots.
Proof.
  intros [Hhs Hhl Hmax Hroom _ _ _ Hcell]. assert (Forall (fun s => len s.2 <= 65536) slots) as Hf.
  { apply Forall_lookup. intros i [o c] Hi. destruct (Hcell _ _ _ Hi) as (? & ? & ? & _). cbn. pose proof (len_nonneg slots). lia. }
  clear - Hf. induction Hf as [|s slots Hs Hf IH]; cbn [map]; [done|]. rewrite total_len_cons, len_cons. lia.
Qed.

(** A page of the database that is not free. *)
Definition used (cnt : Z) (F : list Z) (n : Z) : Prop := 1 <= n <= cnt /\ (n ∉ F).

(** Storing a leaf whose rows are [rs]. *)
Lemma store_leaf (p p' : Pager OS) cnt F n buf buf' cs slots blocks lo hi :
  store p cnt F -> used cnt F n -> logical p n = Ok buf -> updated p p' {[n := buf']} ->
  leaf_page buf' (content_offset n) cs slots blocks -> parsed usable slots ->
  sorted_rows (rows usable slots) -> in_range lo hi (rows usable slots) ->
  same_outside buf buf' (content_offset n) (len buf) ->
  leaf_at usable p' n lo hi (rows usable slots) /\ store p' cnt F.
Proof.
  intros Hst [Hr Hf] Hb Hu Hl Hp Hs Hrg Ho. pose proof (updated_size _ _ _ Hu) as Ps.
  pose proof Hst as (_ & Hrd & _). destruct (Hrd n Hr) as (b0 & Hb0 & Hlb). assert (b0 = buf) as -> by congruence.
  split.
  - exists buf', cs, slots, blocks. split; [by eapply updated_at|]. split; [rewrite Ps, (proj1 Ho); done|]. done.
  - eapply store_write; [done|done|done|done|done|by apply Ho|]. intros a b Hab. apply Ho. lia.
Qed.

Lemma store_interior (p p' : Pager OS) cnt F n buf buf' entries rightmost :
  store p cnt F -> used cnt F n -> logical p n = Ok buf -> updated p p' {[n := buf']} ->
  interior_layout buf' (content_offset n) entries rightmost -> same_outside buf buf' (content_offset n) (len buf) ->
  interior_at p' n entries rightmost /\ store p' cnt F.
Proof.
  intros Hst [Hr Hf] Hb Hu Hl Ho. pose proof (updated_size _ _ _ Hu) as Ps.
  pose proof Hst as (_ & Hrd & _). destruct (Hrd n Hr) as (b0 & Hb0 & Hlb). assert (b0 = buf) as -> by congruence.
  split.
  - exists buf'. split; [by eapply updated_at|]. split; [rewrite Ps, (proj1 Ho); done|]. done.
  - eapply store_write; [done|done|done|done|done|by apply Ho|]. intros a b Hab. apply Ho. lia.
Qed.

(** The scan [insert_into_leaf] starts with. *)
Lemma insert_into_leaf_scan (p : Pager OS) n root anc rowid cell buf cs slots blocks :
  coherent p -> logical p n = Ok buf -> leaf_page buf (content_offset n) cs slots blocks -> parsed usable slots ->
  exists p1, updated p p1 ∅ /\ dirty p1 !! n = Some buf /\
  insert_into_leaf usable (len buf) n root anc rowid cell p =
  (scan ← lift (if has_row rowid (rows usable slots) then Err (BtDuplicateRowid rowid)
     else Ok (Z.of_nat (first_greater rowid (rows usable slots)), len slots, total_len (map snd slots)));
   let '(insert_pos, num_cells, existing_bytes) := scan in
   let needed := sat_add (sat_add (sat_add (sat_add (content_offset n) 8) (sat_mul (sat_add num_cells 1) 2)) existing_bytes) (len cell) in
   if needed <=? len buf then
     spliced ← lift (splice_insert_cell buf (content_offset n) n insert_pos cell);
     match spliced with
     | Some buf => map_err_M BtPager (put_page n buf)
     | None =>
       cells ← lift (collect_leaf_cells buf (content_offset n) n usable);
       buf ← lift (write_leaf_page buf (content_offset n) n (cell_bytes (vec_insert (Z.to_nat insert_pos) (rowid, cell) cells)));
       map_err_M BtPager (put_page n buf)
     end
   else
     cells ← lift (collect_leaf_cells buf (content_offset n) n usable);
     let cells := vec_insert (Z.to_nat insert_pos) (rowid, cell) cells in
     let left_n := div_ceil2 (length cells) in
     right_page ← allocate_page_b;
     let right := drop left_n cells in
     let left := take left_n cells in
     divider ← lift (match last left with Some d => Ok (fst d) | None => Err (BtInternal EmptyLeftHalf) end);
     _ ← edit_page n (fun buf => write_leaf_page buf (content_offset n) n (cell_bytes left));
     _ ← edit_page right_page (fun buf => write_leaf_page buf 0 right_page (cell_bytes right));
     insert_into_parent usable (len buf) (rev anc) root n right_page divider) p1.
Proof.
  intros Hc Hb Hl Hp. destruct (get_page_mut_b_spec n p buf Hc Hb) as (p1 & E1 & Hu1 & Hd1). exists p1.
  split; [done|]. split; [done|]. unfold insert_into_leaf. change (page1_header_start n) with (content_offset n).
  rewrite (M_bind_ok _ _ _ _ _ E1). rewrite (scan_spec usable n buf _ cs slots rowid (lp_slots _ _ _ _ _ Hl) Hp). done.
Qed.

(** An existing rowid is refused and nothing changes. *)
Lemma insert_leaf_duplicate (p : Pager OS) n lo hi ls root anc rowid cell P :
  coherent p -> leaf_at usable p n lo hi ls -> has_row rowid ls = true -> P = pg_page_size p ->
  exists p', insert_into_leaf usable P n root anc rowid cell p = (Err (BtDuplicateRowid rowid), p') /\ updated p p' ∅.
Proof.
  intros Hc (buf & cs & slots & blocks & Hb & Hlen & Hl & Hp & -> & _) Hr ->. rewrite <- Hlen.
  destruct (insert_into_leaf_scan p n root anc rowid cell buf cs slots blocks Hc Hb Hl Hp) as (p1 & Hu & _ & ->).
  rewrite Hr. erewrite M_bind_err by reflexivity. by eexists.
Qed.

Lemma insert_leaf_fits (p : Pager OS) cnt F n lo hi ls root anc rowid cell P :
  store p cnt F -> used cnt F n -> leaf_at usable p n lo hi ls -> has_row rowid ls = false -> lo < rowid <= hi ->
  parse_cell usable cell = Some rowid -> 1 <= len cell <= 65536 -> P = pg_page_size p ->
  leaf_bytes n (add_row rowid cell ls) <= P ->
  exists p' b, insert_into_leaf usable P n root anc rowid cell p = (Ok tt, p') /\ updated p p' {[n := b]} /\
    leaf_at usable p' n lo hi (add_row rowid cell ls) /\ store p' cnt F.
Proof.
  intros Hst Hus (buf & cs & slots & blocks & Hb & Hlen & Hl & Hp & -> & Hs & Hrg) Hn Hrow Hc Hlc -> Hfit.
  rewrite <- Hlen in Hfit |- *. unfold leaf_bytes in Hfit. rewrite len_add_row, len_rows, total_len_add, map_snd_rows in Hfit.
  destruct (insert_into_leaf_scan p n root anc rowid cell buf cs slots blocks (store_coherent _ _ _ Hst) Hb Hl Hp) as (p1 & Hu1 & Hd1 & ->).
  rewrite Hn. erewrite M_bind_ok by reflexivity. cbv zeta. pose proof (content_offset_range n) as Hhs.
  pose proof (lp_slots _ _ _ _ _ Hl) as Hps. pose proof Hps as [_ _ Hmax Hroom _ _ _ _].
  pose proof (total_len_bound _ _ _ _ _ Hps). pose proof (total_len_nonneg (map snd slots)). pose proof (len_nonneg slots).
  rewrite (needed_eq n) by (first [lia|done]). rewrite (proj2 (Z.leb_le _ _)) by lia.
  destruct (leaf_insert_fits usable buf (content_offset n) cs slots blocks n rowid cell Hl Hp Hn Hc ltac:(lia) ltac:(lia))
    as (buf' & cs' & slots' & blocks' & Hcases & Hl' & Hp' & Hr' & Ho).
  destruct (put_page_b_spec n buf' p1 (updated_coherent _ _ _ Hu1)) as (p2 & E2 & Hu2); [by eexists|].
  pose proof (updated_step _ _ _ _ Hu1 Hu2) as Hu.
  destruct (store_leaf p p2 cnt F n buf buf' cs' slots' blocks' lo hi Hst Hus Hb Hu Hl' Hp') as [Hla Hst'];
    [rewrite Hr'; by apply sorted_add_row|rewrite Hr'; by apply Forall_add_row|done|].
  rewrite Hr' in Hla. exists p2, buf'. split; [|done].
  destruct Hcases as [E|[E1 E]].
  - rewrite E. erewrite M_bind_ok by reflexivity. done.
  - rewrite E1. erewrite M_bind_ok by reflexivity. rewrite (collect_spec _ _ _ _ _ _ Hps Hp). erewrite M_bind_ok by reflexivity.
    rewrite Nat2Z.id. change (vec_insert (first_greater rowid (rows usable slots)) (rowid, cell) (rows usable slots))
      with (add_row rowid cell (rows usable slots)). rewrite E. erewrite M_bind_ok by reflexivity. done.
Qed.

End Leaf.
