(* ===== verification/TreeSplit.v ===== *)
(** * Splits of interior pages and of the root ([src/btree/table/insert.rs])

    [insert_into_parent] and [root_split]: a page that split in two is
    replaced by its halves in the tree around it. *)

From stdpp Require Import prelude list numbers gmap.
From Stdlib Require Import ZArith Lia.
From S2P Require Import Prelude Varint Text Record Header Freelist Vfs Journal Wal Lock Shm Checkpoint PageCache Pager Commit Transactions Allocator BtreePage LeafPage LeafSearch Btree Tree.

Local Open Scope Z_scope.

(** ** Sizes of interior pages *)

Lemma interior_cells_app e1 e2 : interior_cells (e1 ++ e2) = interior_cells e1 ++ interior_cells e2.
Proof. apply map_app. Qed.

Lemma total_interior entries : 5 * len entries <= total_len (interior_cells entries) <= 13 * len entries.
Proof.
  induction entries as [|[c k] entries IH]; [done|]. cbn [interior_cells map]. rewrite total_len_cons, len_cons.
  pose proof (len_interior_cell c k). cbn [fst snd]. fold (interior_cells entries). lia.
Qed.

Lemma len_build child child' key : len (build_interior_cell child key) = len (build_interior_cell child' key).
Proof. unfold build_interior_cell. by rewrite !len_app, !len_be_encode. Qed.

(** Bytes of an interior page, without the file header. *)
Definition interior_bytes (entries : list (Z * Z)) : Z := 12 + 2 * len entries + total_len (interior_cells entries).

Lemma interior_bytes_app e1 e2 : interior_bytes (e1 ++ e2) = interior_bytes e1 + interior_bytes e2 - 12.
Proof. unfold interior_bytes. rewrite interior_cells_app, total_len_app, len_app. lia. Qed.

(** When one entry too many overflows a page, the parts around the median fit
    pages of their own: entries take 7 to 15 bytes each. *)
Lemma halves_fit P hs (entries : list (Z * Z)) e1 pc pk e2 :
  0 <= hs <= 100 -> 512 <= P -> entries = e1 ++ (pc, pk) :: e2 -> length e1 = Nat.div2 (length entries) ->
  P < hs + interior_bytes entries <= P + 15 ->
  hs + interior_bytes e1 <= P /\ interior_bytes e2 <= P.
Proof.
  intros Hhs HP -> Hl Hb. set (x := (pc, pk)) in *. rewrite cons_middle, !interior_bytes_app in Hb.
  rewrite length_app in Hl. cbn [length] in Hl.
  pose proof (Nat.div2_odd (length e1 + S (length e2))) as Hd. rewrite <- Hl in Hd.
  assert (Z.of_nat (length e1) = len e1 /\ Z.of_nat (length e2) = len e2) as [L1 L2] by done.
  assert (len e1 <= len e2 + 1 /\ len e2 <= len e1) as [B1 B2] by (destruct (Nat.odd _); cbn in Hd; lia).
  pose proof (total_interior e1). pose proof (total_interior e2). pose proof (total_interior [x]). unfold interior_bytes in *.
  change (len [x]) with 1 in *. lia.
Qed.

(** ** Children *)

Section Splits.
Context `{host : Host} {OS : Type} `{Fcntl OS}.
Context (usable : Z).

Lemma tree_root_in (p : Pager OS) h n lo hi rs ps : tree usable p h n lo hi rs ps -> n ∈ ps.
Proof. intros Ht. destruct Ht; set_solver. Qed.

Lemma branches_children (p : Pager OS) h es lo mid rs ps :
  branches usable p h es lo mid rs ps -> forall e, e ∈ es -> e.1 ∈ ps.
Proof.
  revert lo rs ps. induction es as [|[c k] es IH]; intros lo rs ps Hb e He; [by apply elem_of_nil in He|].
  inversion Hb as [|? ? ? ? ? ? rs1 ps1 rs2 ps2 Hle Ht Hb' Hd]; subst. apply elem_of_cons in He as [->|He].
  - apply elem_of_union_l. by eapply tree_root_in.
  - apply elem_of_union_r. by eapply IH.
Qed.

Lemma replace_child_hit e1 old key e2 new divider :
  (forall e, e ∈ e1 -> e.1 <> old) ->
  replace_child (e1 ++ (old, key) :: e2) old new divider = Some (e1 ++ (old, divider) :: (new, key) :: e2).
Proof.
  induction e1 as [|[c k] e1 IH]; intros He; cbn [app replace_child].
  - by rewrite Z.eqb_refl.
  - rewrite (proj2 (Z.eqb_neq c old)) by (apply (He (c, k)); by left). rewrite IH; [done|]. intros e Hin. apply He. by right.
Qed.

Lemma replace_child_miss es old new divider :
  (forall e, e ∈ es -> e.1 <> old) -> replace_child es old new divider = None.
Proof.
  induction es as [|[c k] es IH]; intros He; cbn [replace_child]; [done|].
  rewrite (proj2 (Z.eqb_neq c old)) by (apply (He (c, k)); by left). rewrite IH; [done|]. intros e Hin. apply He. by right.
Qed.

(** ** The database around a tree *)

(** [X] is a set of pages in use, by this tree and others. *)
Definition world (p : Pager OS) (cnt : Z) (F : list Z) (X : gset Z) : Prop :=
  store p cnt F /\ forall m, m ∈ X -> used cnt F m.

Lemma world_used p cnt F X m : world p cnt F X -> m ∈ X -> used cnt F m.
Proof. intros [_ Hu]. apply Hu. Qed.

Lemma world_read p p' cnt F X : world p cnt F X -> updated p p' ∅ -> world p' cnt F X.
Proof. intros [Hs Hu] Hup. split; [by eapply store_read|done]. Qed.

Lemma world_alloc (p : Pager OS) cnt F X :
  world p cnt F X -> cnt < U32_MAX ->
  exists n p' cnt' F', allocate_page_b p = (Ok n, p') /\ world p' cnt' F' ({[n]} ∪ X) /\ (n ∉ X) /\ 2 <= n /\ is_u32 n /\
    same_base p p' /\ cnt <= cnt' <= cnt + 1 /\ (forall m, m ∈ X -> same_content p p' m).
Proof.
  intros [Hs Hu] Hc. destruct (alloc_spec p cnt F Hs Hc) as (n & p' & cnt' & F' & E & Hs' & Hb & Hn & Hcnt & Hin & Hnf & Hsub & Hsame).
  assert (n ∉ X) as HnX. { intros HX. destruct (Hu n HX) as [? ?]. destruct Hin; [done|lia]. }
  exists n, p', cnt', F'. split; [unfold allocate_page_b, map_err_M; by rewrite E|]. split; [split; [done|]|].
  - intros m [->%elem_of_singleton|Hm]%elem_of_union; [split; [lia|done]|]. destruct (Hu m Hm) as [? Hmf]. split; [lia|].
    intros Hmf'. apply Hmf. by apply Hsub.
  - split; [done|]. split; [lia|]. split; [unfold is_u32, U32_MAX in *; lia|]. split; [done|]. split; [done|].
    intros m Hm. destruct (Hu m Hm) as [? Hmf]. apply Hsame; [done|]. by intros ->.
Qed.

(** Rewriting a page of the tree. *)
Lemma world_interior (p : Pager OS) cnt F X n entries rightmost :
  world p cnt F X -> n ∈ X -> Forall (fun e => is_u32 e.1 /\ is_i64 e.2) entries -> is_u32 rightmost ->
  content_offset n + interior_bytes entries <= pg_page_size p ->
  exists p' b, edit_page n (fun buf => write_interior_page buf (content_offset n) n (interior_page entries) rightmost) p = (Ok tt, p') /\
    updated p p' {[n := b]} /\ interior_at p' n entries rightmost /\ world p' cnt F X.
Proof.
  intros [Hs Hu] Hn He Hr Hfit. pose proof (store_page_size _ _ _ Hs) as Hps. pose proof Hs as (_ & Hrd & _).
  destruct (Hrd n (proj1 (Hu n Hn))) as (buf & Hb & Hlen).
  destruct (write_interior_spec buf (content_offset n) n entries rightmost (content_offset_range n) ltac:(lia) He Hr) as (b & E & Hl & Ho).
  { unfold interior_bytes in Hfit. lia. }
  destruct (edit_page_spec n (fun buf => write_interior_page buf (content_offset n) n (interior_page entries) rightmost) p buf b
    (store_coherent _ _ _ Hs) Hb E) as (p' & E' & Hup).
  destruct (store_interior p p' cnt F n buf b entries rightmost Hs (Hu n Hn) Hb Hup Hl Ho) as [Hi Hs'].
  exists p', b. do 3 (split; [done|]). by split.
Qed.

Lemma world_leaf (p : Pager OS) cnt F X n rs lo hi :
  world p cnt F X -> n ∈ X -> good_cells usable rs -> sorted_rows rs -> in_range lo hi rs ->
  leaf_bytes n rs <= pg_page_size p ->
  exists p' b, edit_page n (fun buf => write_leaf_page buf (content_offset n) n (cell_bytes rs)) p = (Ok tt, p') /\
    updated p p' {[n := b]} /\ leaf_at usable p' n lo hi rs /\ world p' cnt F X.
Proof.
  intros [Hs Hu] Hn Hg Hsr Hrg Hfit. pose proof (store_page_size _ _ _ Hs) as Hps. pose proof Hs as (_ & Hrd & _).
  destruct (Hrd n (proj1 (Hu n Hn))) as (buf & Hb & Hlen).
  destruct (write_rows usable buf (content_offset n) n rs (content_offset_range n) ltac:(lia) Hg) as (b & cs & slots & E & Hl & Hp & <- & Ho).
  { unfold leaf_bytes in Hfit. lia. }
  destruct (edit_page_spec n (fun buf => write_leaf_page buf (content_offset n) n (cell_bytes (rows usable slots))) p buf b
    (store_coherent _ _ _ Hs) Hb E) as (p' & E' & Hup).
  destruct (store_leaf usable p p' cnt F n buf b cs slots [] lo hi Hs (Hu n Hn) Hb Hup Hl Hp Hsr Hrg Ho) as [Hi Hs'].
  exists p', b. do 3 (split; [done|]). by split.
Qed.

(** ** Splitting the root *)

Lemma frame_tree (p p' : Pager OS) X h n lo hi rs ps :
  tree usable p h n lo hi rs ps -> same_base p p' -> (forall m, m ∈ X -> same_content p p' m) -> ps ⊆ X -> tree usable p' h n lo hi rs ps.
Proof.
  intros Ht Hb Hs Hps. apply (tree_frame usable p p' (same_base_size _ _ Hb)); [done|]. intros m Hm. apply Hs. by apply Hps.
Qed.

Lemma frame_branches (p p' : Pager OS) X h es lo hi rs ps :
  branches usable p h es lo hi rs ps -> same_base p p' -> (forall m, m ∈ X -> same_content p p' m) -> ps ⊆ X ->
  branches usable p' h es lo hi rs ps.
Proof.
  intros Ht Hb Hs Hps. apply (tree_frame usable p p' (same_base_size _ _ Hb)); [done|]. intros m Hm. apply Hs. by apply Hps.
Qed.

Lemma updated_base (p p' : Pager OS) u : updated p p' u -> same_base p p'.
Proof. by intros (? & _). Qed.

(** Every page but the one written. *)
Lemma write_frame (p p' : Pager OS) n b (X : gset Z) : updated p p' {[n := b]} -> n ∉ X -> forall m, m ∈ X -> same_content p p' m.
Proof. intros Hu Hn m Hm. eapply updated_content; [done|]. by intros ->. Qed.

(** The root's content at a page of its own. *)
Definition moved (root new : Z) (ps : gset Z) : gset Z := {[new]} ∪ ps ∖ {[root]}.

Lemma relocate (p : Pager OS) cnt F X h root lo hi rs ps :
  world p cnt F X -> tree usable p h root lo hi rs ps -> ps ⊆ X -> cnt < U32_MAX ->
  exists relocated p' cnt' F',
    relocate_root usable root p = (Ok relocated, p') /\
    tree usable p' h relocated lo hi rs (moved root relocated ps) /\ world p' cnt' F' ({[relocated]} ∪ X) /\
    (relocated ∉ X) /\ is_u32 relocated /\ same_base p p' /\ cnt <= cnt' <= cnt + 1 /\ (forall m, m ∈ X -> same_content p p' m).
Proof.
  intros Hw Ht HX Hc. pose proof (tree_root_in _ _ _ _ _ _ _ Ht) as Hrin. pose proof Hw as [Hst _].
  assert (exists buf, logical p root = Ok buf) as [buf Hb].
  { destruct Ht as [? ? ? ? ? _ (b & ? & ? & ? & ? & _)|? ? ? ? ? ? ? ? ? ? ? _ _ (b & ? & _)]; by exists b. }
  destruct (get_page_mut_b_spec root p buf (store_coherent _ _ _ Hst) Hb) as (p1 & E1 & Hu1 & _).
  destruct (world_alloc p1 cnt F X (world_read _ _ _ _ _ Hw Hu1) Hc) as (n & p2 & cnt' & F' & E2 & Hw2 & HnX & Hn2 & Hn32 & Hb2 & Hcnt & Hsame2).
  assert (same_base p p2) as Hbase2 by (eapply same_base_trans; [exact (updated_base _ _ _ Hu1)|done]).
  assert (forall m, m ∈ X -> same_content p p2 m) as Hs2.
  { intros m Hm. eapply same_content_trans; [apply same_content_eq; by eapply updated_same|by apply Hsame2]. }
  assert (content_offset n = 0) as Hoff by (unfold content_offset; by rewrite (proj2 (Z.eqb_neq n 1)) by lia).
  pose proof (same_base_size _ _ Hbase2) as Ps2.
  destruct Ht as [h root lo hi rs Hr32 Hl|h root entries rightmost lo mid hi rs1 ps1 rs2 ps2 Hr32 Hes Hi Hbr Hm Ht D1 D2].
  - pose proof Hl as (b0 & cs & slots & blocks & Hb0 & Hlen & Hlp & Hp & Hrs & Hsr & Hrg). assert (b0 = buf) as -> by congruence.
    pose proof (lp_slots _ _ _ _ _ Hlp) as Hps. pose proof (leaf_page_fits _ _ _ _ _ Hlp) as Hfit. pose proof (content_offset_range root).
    destruct (world_leaf p2 cnt' F' ({[n]} ∪ X) n rs lo hi Hw2 ltac:(pages)) as (p3 & b & E3 & Hu3 & Hla & Hw3).
    { rewrite Hrs. by eapply good_rows. } { done. } { done. }
    { unfold leaf_bytes. rewrite Hoff, Hrs, len_rows, map_snd_rows, Ps2. lia. }
    exists n, p3, cnt', F'. unfold relocate_root. change (page1_header_start root) with (content_offset root).
    rewrite (M_bind_ok _ _ _ _ _ E1), (leaf_type _ _ _ _ _ root Hlp). erewrite M_bind_ok by reflexivity.
    rewrite (M_bind_ok _ _ _ _ _ E2), Z.eqb_refl, (collect_spec _ _ _ _ _ _ Hps Hp), <- Hrs.
    rewrite Hoff in E3. erewrite M_bind_ok; [|erewrite M_bind_ok by reflexivity; exact E3].
    split; [done|]. split; [|split; [done|split; [done|split; [done|split; [|split; [done|]]]]]].
    + unfold moved. replace ({[n]} ∪ {[root]} ∖ {[root]} : gset Z) with ({[n]} : gset Z) by pages. by constructor.
    + eapply same_base_trans; [done|by eapply updated_base].
    + intros m Hmx. eapply same_content_trans; [by apply Hs2|]. by eapply write_frame.
  - pose proof Hi as (b0 & Hb0 & Hlen & Hil). assert (b0 = buf) as -> by congruence. pose proof (content_offset_range root).
    destruct (interior_read _ _ root _ _ Hil) as [Ety Ecol]. pose proof Hil as (_ & He & Hrm & Hfit & _).
    destruct (world_interior p2 cnt' F' ({[n]} ∪ X) n entries rightmost Hw2 ltac:(pages) He Hrm) as (p3 & b & E3 & Hu3 & Hia & Hw3).
    { unfold interior_bytes. rewrite Hoff, Ps2. lia. }
    exists n, p3, cnt', F'. unfold relocate_root. change (page1_header_start root) with (content_offset root).
    rewrite (M_bind_ok _ _ _ _ _ E1), Ety. erewrite M_bind_ok by reflexivity.
    rewrite (M_bind_ok _ _ _ _ _ E2). change (INTERIOR_TABLE =? LEAF_TABLE) with false. cbv iota. rewrite Z.eqb_refl, Ecol.
    rewrite Hoff in E3. erewrite M_bind_ok; [|erewrite M_bind_ok by reflexivity; exact E3].
    assert (same_base p p3) as Hbase3 by (eapply same_base_trans; [done|by eapply updated_base]).
    assert (forall m, m ∈ X -> same_content p p3 m) as Hs3.
    { intros m Hmx. eapply same_content_trans; [by apply Hs2|]. by eapply write_frame. }
    split; [done|]. split; [|by repeat (split; [done|])].
    unfold moved. replace ({[n]} ∪ ({[root]} ∪ (ps1 ∪ ps2)) ∖ {[root]}) with ({[n]} ∪ (ps1 ∪ ps2)) by pages.
    econstructor; [done|done|done| |done| |done|].
    + apply (frame_branches p p3 X); [done|done|done|pages].
    + apply (frame_tree p p3 X); [done|done|done|pages].
    + pages.
Qed.

(** What a propagated split establishes: a tree at the same root with the rows
    of both halves in place, on the old pages and fresh ones. *)
Definition split_done (p p' : Pager OS) (cnt' : Z) (F' : list Z) (X : gset Z) (hr : nat) (root lo hi : Z) (rs : list row) (ps : gset Z) : Prop :=
  exists hr' ps', tree usable p' hr' root lo hi rs ps' /\ (hr' <= S hr)%nat /\ ps ⊆ ps' /\ (ps' ∖ ps) ## X /\
    world p' cnt' F' (X ∪ ps') /\ same_base p p' /\ (forall m, m ∈ X -> m ∉ ps -> same_content p p' m).

Lemma root_split_spec (p : Pager OS) cnt F X h root new lo divider hi rs1 ps1 rs2 ps2 :
  world p cnt F X -> tree usable p h root lo divider rs1 ps1 -> tree usable p h new divider hi rs2 ps2 ->
  lo <= divider <= hi -> is_i64 divider -> ps1 ## ps2 -> ps1 ∪ ps2 ⊆ X -> cnt < U32_MAX ->
  exists p' cnt' F', root_split usable root new divider p = (Ok tt, p') /\
    split_done p p' cnt' F' X h root lo hi (rs1 ++ rs2) (ps1 ∪ ps2).
Proof.
  intros Hw Ht1 Ht2 Hd Hi Hdis HX Hc. pose proof (tree_root_in _ _ _ _ _ _ _ Ht1) as Hrin. pose proof (tree_root_in _ _ _ _ _ _ _ Ht2) as Hnin.
  assert (is_u32 root /\ is_u32 new) as [Hr32 Hn32] by (split; [by destruct Ht1|by destruct Ht2]).
  destruct (relocate p cnt F X h root lo divider rs1 ps1 Hw Ht1 ltac:(pages) Hc)
    as (reloc & p1 & cnt' & F' & E1 & Htr & Hw1 & Hrx & Hr32' & Hb1 & Hcnt & Hs1).
  pose proof (store_page_size _ _ _ (proj1 Hw)) as Hps. pose proof (same_base_size _ _ Hb1) as Ps1. pose proof (content_offset_range root).
  destruct (world_interior p1 cnt' F' ({[reloc]} ∪ X) root [(reloc, divider)] new Hw1 ltac:(pages)) as (p2 & b & E2 & Hu2 & Hi2 & Hw2);
    [by constructor; [|constructor]|done| |].
  { unfold interior_bytes. pose proof (total_interior [(reloc, divider)]) as Ht. change (len [(reloc, divider)]) with 1 in *. lia. }
  exists p2, cnt', F'. unfold root_split. rewrite (M_bind_ok _ _ _ _ _ E1). split; [exact E2|].
  assert (root ∈ X) as HrX by pages. assert (root <> reloc) by (intros ->; done).
  exists (S h), ({[root]} ∪ (moved root reloc ps1 ∪ ps2)). unfold moved in *.
  assert (forall m, m ∈ ({[reloc]} ∪ X) ∖ {[root]} -> same_content p1 p2 m) as Hs2 by (eapply write_frame; [done|pages]).
  pose proof (updated_base _ _ _ Hu2) as Hb2.
  assert (ps1 ∪ ps2 ⊆ {[root]} ∪ ({[reloc]} ∪ ps1 ∖ {[root]} ∪ ps2)) as Hsub
    by (intros m Hm; destruct (decide (m = root)) as [->|]; pages).
  split; [|split; [lia|split; [done|split; [pages|split; [|split; [by eapply same_base_trans|]]]]]].
  - apply (tree_interior usable p2 h root [(reloc, divider)] new lo divider hi rs1 ({[reloc]} ∪ ps1 ∖ {[root]}) rs2 ps2);
      [done|done|done| |lia| | |].
    + rewrite <- (app_nil_r rs1), <- (union_empty_r_L ({[reloc]} ∪ ps1 ∖ {[root]})).
      constructor; [lia| |constructor|pages].
      apply (frame_tree p1 p2 (({[reloc]} ∪ X) ∖ {[root]})); [done|done|done|pages].
    + apply (frame_tree p1 p2 (({[reloc]} ∪ X) ∖ {[root]})); [|done|done|pages].
      apply (frame_tree p p1 X); [done|done|done|pages].
    + pages.
    + pages.
  - destruct Hw2 as [Hst2 Hus2]. split; [done|]. intros m Hm. apply Hus2. pages.
  - intros m Hm Hni. eapply same_content_trans; [by apply Hs1|]. apply Hs2. pages.
Qed.

(** ** Splitting inside a parent *)

Lemma interior_bytes_cons c k es : interior_bytes ((c, k) :: es) = 2 + len (build_interior_cell c k) + interior_bytes es.
Proof. unfold interior_bytes. cbn [interior_cells map]. rewrite total_len_cons, len_cons. fold (interior_cells es). cbn. lia. Qed.

(** The parent [n] of a page that split, with the entries it gets. *)
Definition parent_split (p : Pager OS) (hr : nat) (root lo hi : Z) (anc : list Z) (h : nat) (n old new divider : Z) (rs : list row) (ps : gset Z) : Prop :=
  exists nlo nhi l r qs entries rm entries' rm' mid rs1 ps1 rs2 ps2,
    context usable p hr root lo hi anc (S h) n nlo nhi l r qs /\ is_u32 n /\ interior_at p n entries rm /\
    split_route n entries rm old new divider = Ok (entries', rm') /\
    branches usable p h entries' nlo mid rs1 ps1 /\ mid <= nhi /\ tree usable p h rm' mid nhi rs2 ps2 /\
    ps1 ## ps2 /\ (n ∉ ps1 ∪ ps2) /\ {[n]} ∪ (ps1 ∪ ps2) ## qs /\ {[n]} ∪ (ps1 ∪ ps2) ∪ qs = ps /\
    l ++ (rs1 ++ rs2) ++ r = rs /\ interior_bytes entries' <= interior_bytes entries + 15 /\
    Forall (fun e => is_u32 e.1 /\ is_i64 e.2) entries' /\ is_u32 rm' /\ entries' <> [].

Lemma split_parent (p : Pager OS) hr root lo hi n anc h old new olo divider ohi l r qs rs1 ps1 rs2 ps2 :
  context usable p hr root lo hi (n :: anc) h old olo ohi l r qs ->
  tree usable p h old olo divider rs1 ps1 -> tree usable p h new divider ohi rs2 ps2 ->
  olo <= divider <= ohi -> is_i64 divider -> ps1 ## ps2 -> ps1 ∪ ps2 ## qs ->
  parent_split p hr root lo hi anc h n old new divider (l ++ (rs1 ++ rs2) ++ r) (ps1 ∪ ps2 ∪ qs).
Proof.
  intros Hc Ht1 Ht2 Hd Hi64 D1 D2. pose proof (tree_root_in _ _ _ _ _ _ _ Ht1) as Hin1.
  assert (is_u32 old /\ is_u32 new) as [Ho32 Hn32] by (split; [by destruct Ht1|by destruct Ht2]).
  pose proof (len_interior_cell old divider) as Lc.
  inversion Hc as [|? ? ? nlo nhi l0 r0 qs0 e1 ? key e2 rm ? mid rsA psA rsB psB rsC psC Hc0 Hn Hi Hb1 Hle Hb2 Hm Ht E1 E2 E3 E4
    |? ? ? nlo nhi l0 r0 qs0 entries ? ? rsA psA Hc0 Hn Hes Hi Hb1 Hle E1 E2]; subst.
  - exists nlo, nhi, l0, r0, qs0, (e1 ++ (old, ohi) :: e2), rm, (e1 ++ (old, divider) :: (new, ohi) :: e2), rm, mid,
      (rsA ++ rs1 ++ rs2 ++ rsB), (psA ∪ (ps1 ∪ (ps2 ∪ psB))), rsC, psC.
    pose proof Hi as (? & _ & _ & Hil). pose proof Hil as (_ & He & Hrm & _ & _). rewrite Forall_app, Forall_cons in He. destruct He as (He1 & [_ Hk] & He2).
    split; [done|]. split; [done|]. split; [done|]. split.
    { unfold split_route. rewrite replace_child_hit; [done|]. intros e He Heq.
      pose proof (branches_children _ _ _ _ _ _ _ Hb1 e He) as Hch. rewrite Heq in Hch. pages. }
    split.
    { apply branches_app. exists olo, rsA, psA, (rs1 ++ rs2 ++ rsB), (ps1 ∪ (ps2 ∪ psB)). split; [done|]. split; [|split; [done|split; [done|pages]]].
      constructor; [lia|done| |pages]. constructor; [lia|done|done|pages]. }
    split; [done|]. split; [done|]. split; [pages|]. split; [pages|]. split; [pages|]. split; [pages|].
    split; [by rewrite <- !app_assoc|]. split.
    { rewrite !interior_bytes_app, !interior_bytes_cons, (len_build new old). lia. }
    split; [rewrite Forall_app, !Forall_cons; done|]. split; [done|by destruct e1].
  - exists nlo, ohi, l0, r, qs0, entries, old, (entries ++ [(old, divider)]), new, divider,
      (rsA ++ rs1), (psA ∪ ps1), rs2, ps2.
    pose proof Hi as (? & _ & _ & Hil). pose proof Hil as (_ & He & Hrm & _ & _).
    split; [done|]. split; [done|]. split; [done|]. split.
    { unfold split_route. rewrite replace_child_miss; [by rewrite Z.eqb_refl|]. intros e Hee Heq.
      pose proof (branches_children _ _ _ _ _ _ _ Hb1 e Hee) as Hch. rewrite Heq in Hch. pages. }
    split.
    { apply branches_app. exists olo, rsA, psA, rs1, ps1. split; [done|]. split; [|split; [done|split; [done|pages]]].
      rewrite <- (app_nil_r rs1), <- (union_empty_r_L ps1). constructor; [lia|done|constructor|pages]. }
    split; [lia|]. split; [done|]. split; [pages|]. split; [pages|]. split; [pages|]. split; [pages|].
    split; [by rewrite <- !app_assoc|]. split.
    { rewrite !interior_bytes_app. unfold interior_bytes at 2. cbn [interior_cells map]. rewrite total_len_cons.
      change (len [(old, divider)]) with 1. change (total_len []) with 0. cbn [fst snd]. lia. }
    split; [rewrite Forall_app; split; [done|]; by constructor; [|constructor]|]. split; [done|by destruct entries].
Qed.

Lemma frame_context (p p' : Pager OS) X hr root lo hi anc h f flo fhi l r qs :
  context usable p hr root lo hi anc h f flo fhi l r qs -> same_base p p' -> (forall m, m ∈ X -> same_content p p' m) -> qs ⊆ X ->
  context usable p' hr root lo hi anc h f flo fhi l r qs.
Proof.
  intros Hc Hb Hs Hq. eapply context_frame; [done|by apply same_base_size|]. intros m Hm. apply Hs. by apply Hq.
Qed.

Lemma parent_needed hs es :
  0 <= hs <= 100 -> len es <= 65536 ->
  sat_add (sat_add (sat_add hs 12) (sat_mul (len (interior_page es)) 2)) (foldr (fun c n => len c + n) 0 (interior_page es)) =
  hs + interior_bytes es.
Proof.
  intros Hh He. change (foldr (fun c n => len c + n) 0 (interior_page es)) with (total_len (interior_cells es)).
  assert (len (interior_page es) = len es) as -> by (unfold len, interior_page; by rewrite length_map).
  pose proof (total_interior es). pose proof (len_nonneg es). unfold interior_bytes.
  rewrite (sat_mul_small (len es) 2), (sat_add_small hs 12) by (unfold U64_MAX; lia).
  rewrite (sat_add_small (hs + 12)), sat_add_small by (unfold U64_MAX; lia). lia.
Qed.

(** An interior page that outgrew its page, cut at the median entry. *)
Lemma cut_node (p : Pager OS) cnt F X h n nlo mid nhi entries rm rs1 ps1 rs2 ps2 :
  world p cnt F X -> is_u32 n -> branches usable p h entries nlo mid rs1 ps1 -> mid <= nhi -> tree usable p h rm mid nhi rs2 ps2 ->
  ps1 ## ps2 -> n ∉ ps1 ∪ ps2 -> {[n]} ∪ (ps1 ∪ ps2) ⊆ X ->
  Forall (fun e => is_u32 e.1 /\ is_i64 e.2) entries -> is_u32 rm -> cnt < U32_MAX ->
  pg_page_size p < content_offset n + interior_bytes entries <= pg_page_size p + 15 ->
  exists pc pk right p1 cnt' F' p3 rsL psL rsR psR,
    entries !! Nat.div2 (length entries) = Some (pc, pk) /\
    allocate_page_b p = (Ok right, p1) /\
    (_ ← edit_page n (fun buf => write_interior_page buf (content_offset n) n (interior_page (take (Nat.div2 (length entries)) entries)) pc);
     edit_page right (fun buf => write_interior_page buf 0 right (interior_page (drop (S (Nat.div2 (length entries))) entries)) rm)) p1 = (Ok tt, p3) /\
    tree usable p3 (S h) n nlo pk rsL psL /\ tree usable p3 (S h) right pk nhi rsR psR /\ nlo <= pk <= nhi /\ is_i64 pk /\
    psL ## psR /\ (psL ∪ psR = {[right]} ∪ ({[n]} ∪ (ps1 ∪ ps2))) /\ rsL ++ rsR = rs1 ++ rs2 /\ (right ∉ X) /\
    world p3 cnt' F' ({[right]} ∪ X) /\ cnt' <= cnt + 1 /\ same_base p p3 /\
    (forall m, m ∈ X ∖ {[n]} -> same_content p p3 m).
Proof.
  intros Hw Hn32 Hb Hmid Ht D1 D2 HX He Hrm Hc Hsz. pose proof (store_page_size _ _ _ (proj1 Hw)) as Hps. pose proof (content_offset_range n) as Hoff.
  set (k := Nat.div2 (length entries)).
  assert (1 <= k /\ S k < length entries)%nat as [Hk1 Hk2].
  { pose proof (total_interior entries) as Hte. unfold interior_bytes in Hsz. unfold len in Hte, Hsz. unfold k. rewrite Nat.div2_div.
    pose proof (Nat.div_mod_eq (length entries) 2). pose proof (Nat.mod_upper_bound (length entries) 2). lia. }
  assert (k < length entries)%nat as Hk by lia.
  assert (take k entries <> [] /\ drop (S k) entries <> []) as [HneA HneB].
  { split; intros E; apply (f_equal length) in E; rewrite ?length_take, ?length_drop in E; cbn [length] in E; lia. }
  destruct (lookup_lt_is_Some_2 entries k Hk) as [[pc pk] Hpk].
  pose proof (take_drop_middle entries k (pc, pk) Hpk) as Hcut.
  assert (length (take k entries) = Nat.div2 (length entries)) as Hlk by (rewrite length_take; lia).
  destruct (halves_fit (pg_page_size p) (content_offset n) entries (take k entries) pc pk (drop (S k) entries) Hoff ltac:(lia) (eq_sym Hcut) Hlk Hsz) as [Hf1 Hf2].
  pose proof Hb as Hb'. rewrite <- Hcut in Hb'. apply branches_app in Hb' as (flo & rsA & psA & rsB & psB & HbA & HbB & -> & -> & DA).
  inversion HbB as [|? ? ? ? ? ? rsP psP rsQ psQ Hle Htp HbQ DB]; subst.
  pose proof (proj2 (tree_rows usable p) _ _ _ _ _ _ HbA) as (_ & _ & Hlo). pose proof (proj2 (tree_rows usable p) _ _ _ _ _ _ HbQ) as (_ & _ & Hhi).
  pose proof He as He'. rewrite <- Hcut, Forall_app, Forall_cons in He'. destruct He' as (HeA & [Hpc Hpk64] & HeB).
  destruct (world_alloc p cnt F X Hw Hc) as (right & p1 & cnt' & F' & E1 & Hw1 & Hrx & Hr2 & Hr32 & Hb1 & Hcnt & Hs1).
  pose proof (same_base_size _ _ Hb1) as Ps1.
  assert (content_offset right = 0) as Hoffr by (unfold content_offset; by rewrite (proj2 (Z.eqb_neq right 1)) by lia).
  destruct (world_interior p1 cnt' F' ({[right]} ∪ X) n (take k entries) pc Hw1 ltac:(pages) HeA Hpc ltac:(lia)) as (p2 & b2 & E2 & Hu2 & Hi2 & Hw2).
  pose proof (updated_size _ _ _ Hu2) as Ps2.
  destruct (world_interior p2 cnt' F' ({[right]} ∪ X) right (drop (S k) entries) rm Hw2 ltac:(pages) HeB Hrm ltac:(lia)) as (p3 & b3 & E3 & Hu3 & Hi3 & Hw3).
  assert (n ∈ X) as HnX by pages. assert (n <> right) as Hne by (intros ->; done).
  assert (forall m, m ∈ X ∖ {[n]} -> same_content p p3 m) as Hs3.
  { intros m Hm. assert (m ∈ X) as HmX by pages. assert (m <> n) as Hmn by pages. assert (m <> right) as Hmr by (intros ->; done).
    eapply same_content_trans; [by apply Hs1|]. eapply same_content_trans; by eapply updated_content. }
  assert (same_base p p3) as Hb3 by (eapply same_base_trans; [done|]; eapply same_base_trans; by eapply updated_base).
  exists pc, pk, right, p1, cnt', F', p3, (rsA ++ rsP), ({[n]} ∪ (psA ∪ psP)), (rsQ ++ rs2), ({[right]} ∪ (psQ ∪ ps2)).
  split; [done|]. split; [done|]. split; [rewrite Hoffr in E3; by rewrite (M_bind_ok _ _ _ _ _ E2)|].
  split; [|split; [|split; [lia|split; [done|split; [pages|split; [pages|split; [by rewrite <- !app_assoc|]]]]]]].
  - econstructor; [done|exact HneA| | |exact Hle| |pages|pages].
    + eapply interior_at_frame; [exact Hi2|by eapply updated_size|]. by eapply updated_content.
    + apply (frame_branches p p3 (X ∖ {[n]})); [done|done|done|pages].
    + apply (frame_tree p p3 (X ∖ {[n]})); [done|done|done|pages].
  - econstructor; [done|exact HneB|done| |exact Hmid| |pages|pages].
    + apply (frame_branches p p3 (X ∖ {[n]})); [done|done|done|pages].
    + apply (frame_tree p p3 (X ∖ {[n]})); [done|done|done|pages].
  - do 2 (split; [done|]). split; [lia|]. done.
Qed.

Lemma read_same (p p' : Pager OS) : updated p p' ∅ -> forall m, same_content p p' m.
Proof. intros Hu m. apply same_content_eq. by apply updated_same. Qed.

Lemma split_done_weaken (p p0 p' : Pager OS) cnt' F' X X0 hr hr0 root lo hi rs rs0 ps ps0 :
  split_done p0 p' cnt' F' X0 hr0 root lo hi rs0 ps0 -> rs0 = rs -> (hr0 <= hr)%nat -> ps ⊆ ps0 -> X ⊆ X0 -> (ps0 ∖ ps) ## X ->
  same_base p p0 -> (forall m, m ∈ X -> m ∉ ps -> same_content p p0 m) ->
  split_done p p' cnt' F' X hr root lo hi rs ps.
Proof.
  intros (hr' & ps' & Ht & Hh & Hsub & Hfresh & Hw & Hb & Hs) <- Hhr Hps HX Hd Hb0 Hs0.
  exists hr', ps'. split; [done|]. split; [lia|]. split; [pages|]. split.
  - intros m Hm HmX. destruct (decide (m ∈ ps0)); pages.
  - split; [|split; [by eapply same_base_trans|]].
    + destruct Hw as [Hst Hu]. split; [done|]. intros m Hm. apply Hu. pages.
    + intros m Hm Hni. eapply same_content_trans; [by apply Hs0|]. apply Hs; [pages|]. intros Hin.
      assert (m ∈ ps0 ∖ ps) by pages. pages.
Qed.

(** A split propagated from the page [old] up. *)
Lemma propagate anc : forall (p : Pager OS) cnt F X hr root lo hi h old new olo divider ohi l r qs rs1 ps1 rs2 ps2 P,
  context usable p hr root lo hi anc h old olo ohi l r qs ->
  tree usable p h old olo divider rs1 ps1 -> tree usable p h new divider ohi rs2 ps2 ->
  olo <= divider <= ohi -> is_i64 divider -> ps1 ## ps2 -> ps1 ∪ ps2 ## qs ->
  world p cnt F X -> ps1 ∪ ps2 ∪ qs ⊆ X -> cnt + Z.of_nat (length anc) < U32_MAX -> P = pg_page_size p ->
  exists p' cnt' F', insert_into_parent usable P anc root old new divider p = (Ok tt, p') /\
    split_done p p' cnt' F' X hr root lo hi (l ++ (rs1 ++ rs2) ++ r) (ps1 ∪ ps2 ∪ qs).
Proof.
  induction anc as [|n anc IH]; intros p cnt F X hr root lo hi h old new olo divider ohi l r qs rs1 ps1 rs2 ps2 P Hc Ht1 Ht2 Hd Hi64 D1 D2 Hw HX Hcnt ->;
    cbn [insert_into_parent].
  { inversion Hc; subst. cbn [length] in Hcnt. rewrite app_nil_r.
    destruct (root_split_spec p cnt F X _ _ new _ divider _ rs1 ps1 rs2 ps2 Hw Ht1 Ht2 Hd Hi64 D1 ltac:(pages) ltac:(lia))
      as (p' & cnt' & F' & E & Hdone).
    exists p', cnt', F'. split; [done|]. replace (ps1 ∪ ps2 ∪ ∅) with (ps1 ∪ ps2) by pages. done. }
  destruct (split_parent p hr root lo hi n anc h old new olo divider ohi l r qs rs1 ps1 rs2 ps2 Hc Ht1 Ht2 Hd Hi64 D1 D2)
    as (nlo & nhi & l0 & r0 & qs0 & entries & rm & entries' & rm' & mid & rsX & psX & rsY & psY &
        Hc0 & Hn32 & Hi & Hsr & Hb & Hmid & Ht & D3 & D4 & D5 & Heq & Hrs & Hsz & He & Hrm & Hne').
  rewrite <- Heq in HX |- *. rewrite <- Hrs. pose proof Hi as (buf & Hbuf & Hlen & Hil). pose proof (content_offset_range n) as Hoff.
  destruct (get_page_mut_b_spec n p buf (store_coherent _ _ _ (proj1 Hw)) Hbuf) as (p0 & E0 & Hu0 & _).
  destruct (interior_read _ _ n _ _ Hil) as [_ Ecol]. pose proof Hil as (_ & _ & _ & Hfit & _).
  pose proof (updated_size _ _ _ Hu0) as Ps0. pose proof (updated_base _ _ _ Hu0) as Hb0. pose proof (store_page_size _ _ _ (proj1 Hw)) as HP.
  pose proof (world_read _ _ _ _ _ Hw Hu0) as Hw0. pose proof (read_same _ _ Hu0) as Hs0.
  assert (branches usable p0 h entries' nlo mid rsX psX) as Hb' by (apply (frame_branches p p0 X); [done|done|auto|pages]).
  assert (tree usable p0 h rm' mid nhi rsY psY) as Ht' by (apply (frame_tree p p0 X); [done|done|auto|pages]).
  assert (context usable p0 hr root lo hi anc (S h) n nlo nhi l0 r0 qs0) as Hc0' by (apply (frame_context p p0 X); [done|done|auto|pages]).
  rewrite (M_bind_ok _ _ _ _ _ E0). change (page1_header_start n) with (content_offset n). rewrite Ecol. erewrite M_bind_ok by reflexivity.
  cbv beta iota. rewrite Hsr. erewrite M_bind_ok by reflexivity. cbv beta iota zeta.
  assert (len entries' <= 65536) as Hle.
  { pose proof (total_interior entries'). unfold interior_bytes in *. pose proof (total_interior entries). lia. }
  rewrite (parent_needed (content_offset n) entries' Hoff Hle).
  assert (content_offset n + interior_bytes entries <= pg_page_size p) as Hold by (unfold interior_bytes; lia).
  destruct (Z.leb_spec (content_offset n + interior_bytes entries') (pg_page_size p)) as [Hok|Hbig].
  - destruct (world_interior p0 cnt F X n entries' rm' Hw0 ltac:(pages) He Hrm ltac:(lia)) as (p1 & b & E1 & Hu1 & Hi1 & Hw1).
    exists p1, cnt, F. split; [exact E1|].
    assert (forall m, m ∈ X ∖ {[n]} -> same_content p0 p1 m) as Hs1 by (eapply write_frame; [done|pages]).
    pose proof (updated_base _ _ _ Hu1) as Hb1.
    exists hr, ({[n]} ∪ (psX ∪ psY) ∪ qs0). split; [|split; [lia|split; [done|split; [pages|split; [|split; [by eapply same_base_trans|]]]]]].
    + eapply plug.
      * apply (frame_context p0 p1 (X ∖ {[n]})); [exact Hc0'|done|done|pages].
      * econstructor; [done|exact Hne'|done| |exact Hmid| |done|done].
        -- apply (frame_branches p0 p1 (X ∖ {[n]})); [done|done|done|pages].
        -- apply (frame_tree p0 p1 (X ∖ {[n]})); [done|done|done|pages].
      * done.
    + replace (X ∪ ({[n]} ∪ (psX ∪ psY) ∪ qs0)) with X by (clear - HX; apply set_eq; set_solver). done.
    + intros m Hm Hni. eapply same_content_trans; [by apply Hs0|]. apply Hs1. pages.
  - cbn [length] in Hcnt.
    destruct (cut_node p0 cnt F X h n nlo mid nhi entries' rm' rsX psX rsY psY Hw0 Hn32 Hb' Hmid Ht' D3 D4 ltac:(pages) He Hrm ltac:(lia) ltac:(lia))
      as (pc & pk & right & p1 & cnt1 & F1 & p3 & rsL & psL & rsR & psR & Hpk & E1 & E3 & HtL & HtR & Hpr & Hp64 & DLR & HpsLR & HrsLR & Hrx & Hw3 & Hc1 & Hb3 & Hs3).
    rewrite Hpk. cbn [ok_or]. erewrite M_bind_ok by reflexivity. cbv beta iota. rewrite (M_bind_ok _ _ _ _ _ E1).
    apply M_bind_inv in E3 as ([] & p2 & E2 & E3). rewrite (M_bind_ok _ _ _ _ _ E2), (M_bind_ok _ _ _ _ _ E3).
    assert (context usable p3 hr root lo hi anc (S h) n nlo nhi l0 r0 qs0) as Hc3
      by (apply (frame_context p0 p3 (X ∖ {[n]})); [done|done|done|pages]).
    destruct (IH p3 cnt1 F1 ({[right]} ∪ X) hr root lo hi (S h) n right nlo pk nhi l0 r0 qs0 rsL psL rsR psR (pg_page_size p) Hc3 HtL HtR Hpr Hp64 DLR)
      as (p' & cnt' & F' & E & Hdone); [rewrite HpsLR; pages|done|rewrite HpsLR; pages|lia|rewrite (same_base_size _ _ Hb3); congruence|].
    exists p', cnt', F'. split; [done|]. rewrite HrsLR, HpsLR in Hdone.
    eapply split_done_weaken; [exact Hdone|done|lia|pages|pages| |by eapply same_base_trans|].
    + intros m Hm HmX. assert (m = right) as -> by pages. done.
    + intros m Hm Hni. eapply same_content_trans; [by apply Hs0|]. apply Hs3. pages.
Qed.

(** ** Splitting a leaf *)

Lemma as_i64_range v : is_i64 (as_i64 v).
Proof.
  unfold as_i64, to_signed, is_i64. change (2 ^ 64) with 18446744073709551616. change (2 ^ (64 - 1)) with 9223372036854775808.
  pose proof (Z.mod_pos_bound v 18446744073709551616 ltac:(lia)).
  destruct (Z.ltb_spec (v mod 18446744073709551616) 9223372036854775808); lia.
Qed.

Lemma parse_cell_i64 c rowid : parse_cell usable c = Some rowid -> is_i64 rowid.
Proof.
  unfold parse_cell, decode_cell_head. destruct (get_from c 0); [|done]. cbn [ok_or mbind result_bind].
  destruct (decode_varint l) as [[plen n1]|]; [|done]. cbn [map_err mbind result_bind]. destruct (get_from l n1) as [rest|]; [|done].
  cbn [ok_or mbind result_bind]. destruct (decode_varint rest) as [[r n2]|]; [|done]. cbn [map_err mbind result_bind].
  destruct (_ =? _); [|done]. intros [= <-]. apply as_i64_range.
Qed.

Lemma div_ceil2_bounds n : (1 <= n)%nat -> (1 <= div_ceil2 n <= n)%nat.
Proof.
  intros Hn. unfold div_ceil2. rewrite Nat.div2_div. pose proof (Nat.div_mod_eq (S n) 2). pose proof (Nat.mod_upper_bound (S n) 2). lia.
Qed.

(** The two halves of the rows and the key between them. *)
Lemma halves_of_rows rs lo hi :
  sorted_rows rs -> in_range lo hi rs -> good_cells usable rs -> (1 <= length rs)%nat ->
  exists d, last (take (div_ceil2 (length rs)) rs) = Some d /\ is_i64 d.1 /\ lo <= d.1 <= hi /\
    sorted_rows (take (div_ceil2 (length rs)) rs) /\ sorted_rows (drop (div_ceil2 (length rs)) rs) /\
    in_range lo d.1 (take (div_ceil2 (length rs)) rs) /\ in_range d.1 hi (drop (div_ceil2 (length rs)) rs) /\
    good_cells usable (take (div_ceil2 (length rs)) rs) /\ good_cells usable (drop (div_ceil2 (length rs)) rs).
Proof.
  intros Hs Hr Hg Hl. set (k := div_ceil2 (length rs)). pose proof (div_ceil2_bounds (length rs) Hl) as Hk. fold k in Hk.
  destruct (exists_last (l := take k rs)) as (l1 & d & Hd).
  { intros E. apply (f_equal length) in E. rewrite length_take in E. change (length (@nil row)) with 0%nat in E. lia. }
  exists d. rewrite <- (take_drop k rs) in Hs, Hr, Hg. apply sorted_app in Hs as (S1 & S2 & S12).
  unfold in_range, good_cells in *. apply Forall_app in Hr as [R1 R2], Hg as [G1 G2].
  pose proof G1 as Gd. rewrite Hd in R1, S12, S1, Gd. rewrite Hd at 1. rewrite last_snoc. split; [done|].
  apply Forall_app in R1 as [R1 Rd], Gd as [_ Gd], S12 as [_ Sd].
  apply Forall_cons_1 in Rd as [Rd _], Gd as [[Gd _] _], Sd as [Sd _].
  split; [by eapply parse_cell_i64|]. split; [lia|]. split; [by rewrite Hd|]. split; [done|]. split; [|split; [|done]].
  - apply sorted_app in S1 as (_ & _ & S1). rewrite Hd. apply Forall_app. split; [|by constructor; [lia|constructor]].
    assert (Forall (fun x => (lo < x.1 <= hi) /\ Forall (fun b => x.1 < b.1) [d]) l1) as Hx by (apply Forall_and; by split).
    eapply Forall_impl; [exact Hx|]. intros x [Hx1 [Hx2 _]%Forall_cons_1]. lia.
  - assert (Forall (fun x => (lo < x.1 <= hi) /\ d.1 < x.1) (drop k rs)) as Hx by (apply Forall_and; by split).
    eapply Forall_impl; [exact Hx|]. cbn. lia.
Qed.

(** The rows fit the page, or the halves fit theirs. *)
Definition room (P n : Z) (rs : list row) : Prop :=
  leaf_bytes n rs <= P \/
  (leaf_bytes n (take (div_ceil2 (length rs)) rs) <= P /\
   8 + 2 * len (drop (div_ceil2 (length rs)) rs) + total_len (map snd (drop (div_ceil2 (length rs)) rs)) <= P).

Lemma insert_leaf_splits (p : Pager OS) cnt F X hr root lo hi anc h n flo fhi l r qs ls rowid cell P :
  world p cnt F X -> context usable p hr root lo hi anc h n flo fhi l r qs -> is_u32 n -> leaf_at usable p n flo fhi ls ->
  n ∉ qs -> {[n]} ∪ qs ⊆ X -> has_row rowid ls = false -> flo < rowid <= fhi ->
  parse_cell usable cell = Some rowid -> 1 <= len cell <= 65536 -> P = pg_page_size p ->
  P < leaf_bytes n (add_row rowid cell ls) -> room P n (add_row rowid cell ls) -> cnt + Z.of_nat (length anc) + 1 < U32_MAX ->
  exists p' cnt' F', insert_into_leaf usable P n root (rev anc) rowid cell p = (Ok tt, p') /\
    split_done p p' cnt' F' X hr root lo hi (l ++ add_row rowid cell ls ++ r) ({[n]} ∪ qs).
Proof.
  intros Hw Hctx Hn32 Hla Hnq HX Hn Hrow Hc Hlc -> Hbig [?|[Hf1 Hf2]] Hcnt; [lia|].
  pose proof Hla as (buf & cs & slots & blocks & Hb & Hlen & Hl & Hp & Hls & Hs & Hrg). pose proof (lp_slots _ _ _ _ _ Hl) as Hps.
  assert (good_cells usable (add_row rowid cell ls)) as Hg by (apply good_add_row; [rewrite Hls; by eapply good_rows|done|lia]).
  destruct (insert_into_leaf_scan usable p n root (rev anc) rowid cell buf cs slots blocks (store_coherent _ _ _ (proj1 Hw)) Hb Hl Hp) as (p1 & Hu1 & _ & E).
  rewrite Hlen in E. rewrite E, <- Hls, Hn. clear E. erewrite M_bind_ok by reflexivity. cbv beta iota zeta.
  pose proof (content_offset_range n) as Hhs. pose proof (total_len_bound _ _ _ _ _ Hps). pose proof (total_len_nonneg (map snd slots)).
  pose proof Hps as [_ _ Hmax Hroom _ _ _ _]. pose proof (len_nonneg slots). pose proof Hbig as Hbig'.
  unfold leaf_bytes in Hbig'. rewrite len_add_row, total_len_add, Hls, len_rows, map_snd_rows in Hbig'.
  rewrite (needed_eq n) by (first [lia|done]). rewrite (proj2 (Z.leb_gt _ _)) by lia.
  rewrite (collect_spec _ _ _ _ _ _ Hps Hp), <- Hls. erewrite M_bind_ok by reflexivity. rewrite Nat2Z.id.
  change (vec_insert (first_greater rowid ls) (rowid, cell) ls) with (add_row rowid cell ls).
  assert (1 <= length (add_row rowid cell ls))%nat as Hl1.
  { pose proof (len_add_row rowid cell ls) as Hle. pose proof (len_nonneg ls). unfold len in *. lia. }
  destruct (halves_of_rows (add_row rowid cell ls) flo fhi) as (d & Hd & Hd64 & Hdr & S1 & S2 & R1 & R2 & G1 & G2);
    [by apply sorted_add_row|by apply Forall_add_row|done|done|].
  set (k := div_ceil2 (length (add_row rowid cell ls))) in *. set (left := take k (add_row rowid cell ls)) in *.
  set (right := drop k (add_row rowid cell ls)) in *.
  destruct (world_alloc p1 cnt F X (world_read _ _ _ _ _ Hw Hu1) ltac:(lia)) as (new & p2 & cnt' & F' & E2 & Hw2 & Hnx & Hn2 & Hnew32 & Hb2 & Hcnt' & Hs2).
  rewrite (M_bind_ok _ _ _ _ _ E2), Hd. erewrite M_bind_ok by reflexivity.
  pose proof (updated_size _ _ _ Hu1) as Ps1. pose proof (same_base_size _ _ Hb2) as Ps2.
  assert (content_offset new = 0) as Hoff by (unfold content_offset; by rewrite (proj2 (Z.eqb_neq new 1)) by lia).
  destruct (world_leaf p2 cnt' F' ({[new]} ∪ X) n left flo d.1 Hw2 ltac:(pages) G1 S1 R1 ltac:(lia)) as (p3 & b3 & E3 & Hu3 & Hla3 & Hw3).
  pose proof (updated_size _ _ _ Hu3) as Ps3.
  destruct (world_leaf p3 cnt' F' ({[new]} ∪ X) new right d.1 fhi Hw3 ltac:(pages) G2 S2 R2) as (p4 & b4 & E4 & Hu4 & Hla4 & Hw4);
    [unfold leaf_bytes; rewrite Hoff; lia|].
  rewrite (M_bind_ok _ _ _ _ _ E3). rewrite Hoff in E4. rewrite (M_bind_ok _ _ _ _ _ E4). rewrite rev_involutive.
  assert (n ∈ X) as HnX by pages. assert (n <> new) as Hne by (intros ->; done).
  assert (same_base p p4) as Hb4.
  { eapply same_base_trans; [by eapply updated_base|]. eapply same_base_trans; [done|]. eapply same_base_trans; by eapply updated_base. }
  assert (forall m, m ∈ X ∖ {[n]} -> same_content p p4 m) as Hs4.
  { intros m Hm. assert (m ∈ X) as HmX by pages. assert (m <> n) as Hmn by pages. assert (m <> new) as Hmr by (intros ->; done).
    eapply same_content_trans; [by apply read_same|]. eapply same_content_trans; [by apply Hs2|].
    eapply same_content_trans; by eapply updated_content. }
  assert (leaf_at usable p4 n flo d.1 left) as Hla3'
    by (eapply leaf_at_frame; [exact Hla3|by eapply updated_size|by eapply updated_content]).
  destruct (propagate anc p4 cnt' F' ({[new]} ∪ X) hr root lo hi h n new flo d.1 fhi l r qs left {[n]} right {[new]} (pg_page_size p))
    as (p' & cnt'' & F'' & E & Hdone); try done; try (by constructor); try pages.
  { apply (frame_context p p4 (X ∖ {[n]})); [done|done|done|pages]. }
  { lia. } { by rewrite (same_base_size _ _ Hb4). }
  exists p', cnt'', F''. split; [done|]. eapply split_done_weaken; [exact Hdone| |lia|pages|pages| |done|].
  - unfold left, right. by rewrite take_drop.
  - intros m Hm HmX. assert (m = new) as -> by pages. done.
  - intros m Hm Hni. apply Hs4. pages.
Qed.

End Splits.
