(* ===== verification/Overflow.v ===== *)
(** * Overflow chains ([write_overflow_chain] and [reassemble_payload])

    A payload too large for its cell continues on a chain of pages of its own.
    What is written is what is read back, whatever else changes in between. *)

From stdpp Require Import prelude list numbers gmap.
From Stdlib Require Import ZArith Lia.
From S2P Require Import Prelude Varint Text Record Header Freelist Vfs Journal Wal Lock Shm Checkpoint PageCache Pager Commit Transactions Allocator BtreePage LeafPage LeafSearch Btree Tree TreeSplit.

Local Open Scope Z_scope.

(** ** Cutting the data *)

Lemma chunks_loop_fuel fuel : forall data available, 1 <= available -> (length data <= fuel)%nat ->
  chunks_loop fuel data available =
  match data with
  | [] => []
  | _ => take (Z.to_nat (Z.min (len data) available)) data :: chunks (drop (Z.to_nat (Z.min (len data) available)) data) available
  end.
Proof.
  assert (forall f1 f2 (data : list Z) a, 1 <= a -> (length data <= f1)%nat -> (length data <= f2)%nat ->
    chunks_loop f1 data a = chunks_loop f2 data a) as Hfuel.
  { induction f1 as [|f1 IH]; intros f2 data a Ha H1 H2.
    - destruct data; [|cbn in H1; lia]. by destruct f2.
    - destruct data as [|x data]; [by destruct f2|]. destruct f2 as [|f2]; [cbn in H2; lia|]. cbn [chunks_loop]. f_equal.
      apply IH; [done|..]; rewrite length_drop; unfold len; cbn [length] in *; lia. }
  intros data available Ha Hf. destruct data as [|x data]; [by destruct fuel|]. destruct fuel as [|fuel]; [cbn in Hf; lia|].
  cbn [chunks_loop]. f_equal. unfold chunks. apply Hfuel; [done| |done]. rewrite length_drop. unfold len. cbn [length] in *. lia.
Qed.

Lemma chunks_eq data available : 1 <= available ->
  chunks data available = match data with
  | [] => []
  | _ => take (Z.to_nat (Z.min (len data) available)) data :: chunks (drop (Z.to_nat (Z.min (len data) available)) data) available
  end.
Proof. intros Ha. unfold chunks at 1. by apply chunks_loop_fuel. Qed.

(** ** The chain *)

Section Overflow.
Context `{host : Host} {OS : Type} `{Fcntl OS}.

Definition first_page (pages : list Z) : Z := match pages with n :: _ => n | [] => 0 end.

(** The chunks [cs] on the pages of a chain. *)
Fixpoint chain_at (p : Pager OS) (pages : list Z) (cs : list (list Z)) : Prop :=
  match pages, cs with
  | [], [] => True
  | n :: pages, c :: cs =>
    2 <= n /\ is_u32 n /\
    (exists b, logical p n = Ok b /\ read_be 4 b 0 = Some (first_page pages) /\ get_range b 4 (4 + len c) = Some c) /\
    chain_at p pages cs
  | _, _ => False
  end.

Lemma chain_frame p p' pages : forall cs, chain_at p pages cs ->
  (forall n, n ∈ pages -> same_content p p' n) -> chain_at p' pages cs.
Proof.
  induction pages as [|n pages IH]; intros [|c cs]; cbn [chain_at]; try done.
  intros (Hn & Hn32 & (b & Hb & Hr & Hg) & Hc) Hs. split; [done|]. split; [done|]. split.
  - destruct (Hs n ltac:(by left) b Hb) as (b' & Hb' & [_ Hf]). exists b'.
    unfold content_offset in Hf. rewrite (proj2 (Z.eqb_neq n 1)) in Hf by lia.
    split; [done|]. unfold read_be in *. rewrite !Hf by lia. done.
  - apply IH; [done|]. intros m Hm. apply Hs. by right.
Qed.

Lemma first_page_u32 p pages cs : chain_at p pages cs -> is_u32 (first_page pages).
Proof. destruct pages, cs; cbn; try done. tauto. Qed.

(** Reading a chain back. *)
Lemma overflow_read_back pn available pages : forall (p q : Pager OS) fuel data visited acc,
  1 <= available <= 65532 -> chain_at p pages (chunks data available) -> NoDup pages -> (forall n, n ∈ pages -> n ∉ visited) ->
  (length pages <= fuel)%nat -> updated p q ∅ -> len data <= U64_MAX ->
  exists q', overflow_loop fuel pn (first_page pages) (len data) available visited acc q = (Ok (acc ++ data), q') /\ updated p q' ∅.
Proof.
  induction pages as [|n pages IH]; intros p q fuel data visited acc Ha Hc Hnd Hv Hf Hq Hmax.
  - rewrite chunks_eq in Hc by lia. destruct data; [|done]. destruct fuel; cbn [overflow_loop Z.leb]; rewrite app_nil_r; by exists q.
  - rewrite chunks_eq in Hc by lia. destruct data as [|x data]; [done|]. set (d := x :: data) in *.
    assert (1 <= len d) as Hd1 by (unfold d; rewrite len_cons; pose proof (len_nonneg data); lia).
    set (k := Z.min (len d) available) in *. cbn [chain_at] in Hc. destruct Hc as (Hn2 & Hn32 & (b & Hb & Hr & Hg) & Hc).
    rewrite len_take in Hg by lia. destruct fuel as [|fuel]; [cbn in Hf; lia|]. cbn [overflow_loop first_page].
    rewrite (proj2 (Z.leb_gt _ _)) by lia. rewrite (proj2 (Z.eqb_neq n 0)) by lia.
    rewrite bool_decide_false by (apply Hv; by left). pose proof Hq as (_ & Hqc & _).
    destruct (read_page_b_spec n q b Hqc Hn32) as (q1 & E1 & Hq1); [by rewrite (updated_same _ _ n Hq)|].
    rewrite (M_bind_ok _ _ _ _ _ E1). rewrite (read_u32_eq _ _ (first_page pages)) by (first [lia|done]). erewrite M_bind_ok by reflexivity.
    fold k. cbv zeta. rewrite (sat_add_small 4 k), Hg by (unfold U64_MAX; lia). cbn [ok_or]. erewrite M_bind_ok by reflexivity.
    rewrite sat_sub_small by lia. replace (len d - k) with (len (drop (Z.to_nat k) d)) by (rewrite len_drop; lia).
    apply NoDup_cons in Hnd as [Hni Hnd].
    destruct (IH p q1 fuel (drop (Z.to_nat k) d) (n :: visited) (acc ++ take (Z.to_nat k) d)) as (q' & E & Hq'); try done.
    + intros m Hm [->|Hin]%elem_of_cons; [done|]. apply (Hv m); [by right|done].
    + cbn in Hf. lia.
    + by eapply updated_step.
    + rewrite len_drop by lia. lia.
    + exists q'. split; [|done]. rewrite E. by rewrite <- app_assoc, take_drop.
Qed.

(** ** Writing *)

Lemma allocate_many_spec k : forall (p : Pager OS) cnt F X, world p cnt F X -> cnt + Z.of_nat k < U32_MAX ->
  exists pages p' cnt' F', allocate_many k p = (Ok pages, p') /\ length pages = k /\ NoDup pages /\
    world p' cnt' F' (list_to_set pages ∪ X) /\ (forall n, n ∈ pages -> (n ∉ X) /\ 2 <= n /\ is_u32 n) /\ same_base p p' /\
    cnt' <= cnt + Z.of_nat k /\ (forall m, m ∈ X -> same_content p p' m).
Proof.
  induction k as [|k IH]; intros p cnt F X Hw Hc; cbn [allocate_many].
  - exists [], p, cnt, F. split; [done|]. split; [done|]. split; [constructor|].
    replace (list_to_set [] ∪ X) with X by set_solver. split; [done|]. split; [by intros n ?%elem_of_nil|].
    split; [apply same_base_refl|]. split; [lia|]. intros m _. by apply same_content_eq.
  - destruct (world_alloc p cnt F X Hw ltac:(lia)) as (n & p1 & cnt1 & F1 & E1 & Hw1 & Hnx & Hn2 & Hn32 & Hb1 & Hc1 & Hs1).
    destruct (IH p1 cnt1 F1 ({[n]} ∪ X) Hw1 ltac:(lia)) as (pages & p2 & cnt2 & F2 & E2 & Hl & Hnd & Hw2 & Hfr & Hb2 & Hc2 & Hs2).
    exists (n :: pages), p2, cnt2, F2. rewrite (M_bind_ok _ _ _ _ _ E1), (M_bind_ok _ _ _ _ _ E2).
    split; [done|]. split; [cbn; lia|]. split.
    { constructor; [|done]. intros Hin. destruct (Hfr n Hin) as [Hni _]. set_solver. }
    split; [by replace (list_to_set (n :: pages) ∪ X) with (list_to_set pages ∪ ({[n]} ∪ X)) by set_solver|]. split.
    { intros m [->|Hin]%elem_of_cons; [done|]. destruct (Hfr m Hin) as (Hni & ? & ?). split; [set_solver|done]. }
    split; [by eapply same_base_trans|]. split; [lia|]. intros m Hm. eapply same_content_trans; [by apply Hs1|]. apply Hs2. set_solver.
Qed.

Lemma write_link (p : Pager OS) cnt F X n next c :
  world p cnt F X -> n ∈ X -> 2 <= n -> is_u32 next -> 4 + len c <= pg_page_size p ->
  exists p' b, edit_page n (fun buf => buf ← put buf 0 (be_encode 4 next) n; put buf 4 c n) p = (Ok tt, p') /\
    updated p p' {[n := b]} /\ world p' cnt F X /\ read_be 4 b 0 = Some next /\ get_range b 4 (4 + len c) = Some c.
Proof.
  intros [Hst Hu] Hn H2 Hnx Hlen. pose proof Hst as (_ & Hrd & _). destruct (Hrd n (proj1 (Hu n Hn))) as (buf & Hb & Hlb).
  pose proof (len_be_encode 4 next) as L4. change (Z.of_nat 4) with 4 in L4. pose proof (len_nonneg c).
  destruct (put_ok buf 0 (be_encode 4 next) n) as (b1 & E1 & S1 & R1); [lia|lia|]. rewrite L4 in S1, R1.
  destruct (put_ok b1 4 c n) as (b2 & E2 & S2 & R2); [lia|rewrite (proj1 S1); lia|].
  destruct (edit_page_spec n (fun buf => buf ← put buf 0 (be_encode 4 next) n; put buf 4 c n) p buf b2 (store_coherent _ _ _ Hst) Hb)
    as (p' & E & Hup); [by rewrite E1|].
  exists p', b2. split; [done|]. split; [done|]. split; [split; [|done]|split; [|done]].
  - eapply store_write; [done|done|apply Hu, Hn|apply Hu, Hn|done|rewrite (proj1 S2), (proj1 S1); done|].
    intros lo hi Hlo. unfold content_offset in Hlo. rewrite (proj2 (Z.eqb_neq n 1)) in Hlo by lia.
    unfold get_range. destruct (Z.leb_spec 0 lo); [|done]. destruct (Z.leb_spec lo hi); [|done]. cbn [andb].
    replace (hi - lo) with 0 by lia. rewrite (proj1 S2), (proj1 S1). done.
  - rewrite (same_outside_read 4 _ _ _ _ _ S2) by lia. apply read_of_range; [by rewrite Z.add_0_l|done].
Qed.

Lemma write_chunks_spec pages : forall (p : Pager OS) cnt F X cs, world p cnt F X -> length pages = length cs -> NoDup pages ->
  (forall n, n ∈ pages -> n ∈ X /\ 2 <= n /\ is_u32 n) -> Forall (fun c => 4 + len c <= pg_page_size p) cs ->
  exists p', write_chunks pages cs p = (Ok tt, p') /\ chain_at p' pages cs /\ world p' cnt F X /\ same_base p p' /\
    (forall m, m ∉ pages -> same_content p p' m).
Proof.
  induction pages as [|n pages IH]; intros p cnt F X [|c cs] Hw Hl Hnd Hp Hf; cbn [write_chunks]; try done.
  - exists p. split; [done|]. split; [done|]. split; [done|]. split; [apply same_base_refl|]. intros m _. by apply same_content_eq.
  - apply Forall_cons_1 in Hf as [Hc Hf]. apply NoDup_cons in Hnd as [Hni Hnd]. destruct (Hp n ltac:(by left)) as (HnX & Hn2 & Hn32).
    assert (is_u32 (first_page pages)) as Hnx.
    { destruct pages as [|m pages]; [unfold is_u32; cbn; lia|]. apply (Hp m). right. by left. }
    destruct (write_link p cnt F X n (first_page pages) c Hw HnX Hn2 Hnx Hc) as (p1 & b & E1 & Hu1 & Hw1 & Hr & Hg).
    pose proof (updated_size _ _ _ Hu1) as Ps.
    destruct (IH p1 cnt F X cs Hw1 ltac:(cbn in Hl; lia) Hnd) as (p2 & E2 & Hc2 & Hw2 & Hb2 & Hs2);
      [intros m Hm; apply Hp; by right|by rewrite Ps|].
    exists p2. change (match pages with p0 :: _ => p0 | [] => 0 end) with (first_page pages).
    rewrite (M_bind_ok _ _ _ _ _ E1). split; [done|]. split; [|split; [done|split; [eapply same_base_trans; [by eapply updated_base|done]|]]].
    + cbn [chain_at]. split; [done|]. split; [done|]. split; [|done].
      destruct (Hs2 n Hni b) as (b' & Hb' & [_ Hff]); [by eapply updated_at|]. exists b'. split; [done|].
      unfold content_offset in Hff. rewrite (proj2 (Z.eqb_neq n 1)) in Hff by lia. unfold read_be in *. rewrite !Hff by lia. done.
    + intros m Hm. apply not_elem_of_cons in Hm as [Hmn Hm]. eapply same_content_trans; [by eapply updated_content|by apply Hs2].
Qed.

Lemma chunks_bounded data available : 1 <= available -> Forall (fun c => len c <= available) (chunks data available).
Proof.
  intros Ha. remember (length data) as n eqn:En. revert data En. induction n as [n IH] using lt_wf_ind. intros data ->.
  rewrite chunks_eq by done. destruct data as [|x data]; [constructor|]. constructor.
  - rewrite len_take; pose proof (len_nonneg (x :: data)); lia.
  - eapply IH; [|done]. rewrite length_drop. unfold len. cbn [length]. lia.
Qed.

Lemma write_overflow_spec (p : Pager OS) cnt F X usable data :
  world p cnt F X -> 5 <= usable <= pg_page_size p -> cnt + len (chunks data (usable - 4)) < U32_MAX ->
  exists pages p' cnt' F', write_overflow_chain usable data p = (Ok (first_page pages), p') /\
    chain_at p' pages (chunks data (usable - 4)) /\ NoDup pages /\ world p' cnt' F' (list_to_set pages ∪ X) /\
    (forall n, n ∈ pages -> n ∉ X) /\ same_base p p' /\ cnt' <= cnt + len (chunks data (usable - 4)) /\
    (forall m, m ∈ X -> same_content p p' m).
Proof.
  intros Hw Hus Hc. unfold write_overflow_chain. cbv zeta. rewrite sat_sub_small by lia. rewrite Z.max_l by lia.
  set (cs := chunks data (usable - 4)) in *. assert (len cs = Z.of_nat (length cs)) as Hlc by done.
  destruct (allocate_many_spec (length cs) p cnt F X Hw ltac:(lia)) as (pages & p1 & cnt1 & F1 & E1 & Hl & Hnd & Hw1 & Hfr & Hb1 & Hc1 & Hs1).
  pose proof (same_base_size _ _ Hb1) as Ps1.
  destruct (write_chunks_spec pages p1 cnt1 F1 (list_to_set pages ∪ X) cs Hw1 Hl Hnd) as (p2 & E2 & Hch & Hw2 & Hb2 & Hs2).
  { intros n Hn. destruct (Hfr n Hn) as (_ & ? & ?). split; [|done]. apply elem_of_union_l. by apply elem_of_list_to_set. }
  { eapply Forall_impl; [apply (chunks_bounded data (usable - 4)); lia|]. cbn. lia. }
  exists pages, p2, cnt1, F1. rewrite (M_bind_ok _ _ _ _ _ E1), (M_bind_ok _ _ _ _ _ E2). split; [done|].
  split; [done|]. split; [done|]. split; [done|]. split; [intros n Hn; exact (proj1 (Hfr n Hn))|]. split; [by eapply same_base_trans|]. split; [lia|].
  intros m Hm. eapply same_content_trans; [by apply Hs1|]. apply Hs2. intros Hin. by apply (proj1 (Hfr m Hin)).
Qed.

End Overflow.
(** ** Cells *)

(** The bytes of a payload kept in the cell. *)
Definition local_part (usable : Z) (payload : list Z) : list Z := take (Z.to_nat (local_payload_size usable (len payload) false)) payload.
Definition spilled (usable : Z) (payload : list Z) : list Z := drop (Z.to_nat (local_payload_size usable (len payload) false)) payload.

Definition leaf_cell (usable rowid : Z) (payload : list Z) (first : Z) : list Z :=
  encode_varint (len payload) ++ encode_varint (wrap 64 rowid) ++ local_part usable payload ++
  match spilled usable payload with [] => [] | _ => be_encode 4 first end.

Lemma local_size_bounds usable plen :
  480 <= usable <= 65536 -> 0 <= plen -> 0 <= local_payload_size usable plen false <= plen /\ local_payload_size usable plen false <= usable - 35.
Proof.
  intros Hu Hp. unfold local_payload_size. cbv zeta. rewrite (sat_sub_small usable 35), (sat_sub_small usable 12), (sat_sub_small usable 4) by lia.
  destruct (Z.leb_spec plen (usable - 35)); [lia|]. rewrite Z.max_l by lia.
  rewrite sat_mul_small by (unfold U64_MAX; lia). set (m := (usable - 12) * 32 / 255).
  assert (0 <= m <= (usable - 12) * 32 / 255) as Hm by (split; [apply Z.div_pos; lia|done]).
  assert (58 <= m) by (unfold m; apply Z.div_le_lower_bound; lia). assert (m <= usable - 12) by (unfold m; apply Z.div_le_upper_bound; lia).
  rewrite (sat_sub_small m 23) by lia. rewrite sat_sub_small by lia.
  pose proof (Z.mod_pos_bound (plen - (m - 23)) (usable - 4) ltac:(lia)).
  rewrite sat_add_small by (unfold U64_MAX; lia). destruct (Z.leb_spec (m - 23 + (plen - (m - 23)) mod (usable - 4)) (usable - 35)); lia.
Qed.

Section Cells.
Context `{host : Host} {OS : Type} `{Fcntl OS}.
Context (usable : Z) (Husable : 480 <= usable <= 65536).

Lemma len_local_part payload : len (local_part usable payload) = local_payload_size usable (len payload) false.
Proof.
  pose proof (local_size_bounds usable (len payload) Husable (len_nonneg payload)). unfold local_part. rewrite len_take by lia. done.
Qed.

Lemma spilled_nil payload : spilled usable payload = [] <-> local_payload_size usable (len payload) false = len payload.
Proof.
  pose proof (local_size_bounds usable (len payload) Husable (len_nonneg payload)) as Hb. unfold spilled. split.
  - intros E. apply (f_equal len) in E. rewrite len_drop in E by lia. change (len (@nil Z)) with 0 in E. lia.
  - intros ->. apply drop_ge. unfold len. lia.
Qed.

Lemma len_leaf_cell rowid payload first :
  len (leaf_cell usable rowid payload first) =
  len (encode_varint (len payload)) + len (encode_varint (wrap 64 rowid)) + local_payload_size usable (len payload) false +
  (if local_payload_size usable (len payload) false <? len payload then 4 else 0).
Proof.
  unfold leaf_cell. rewrite !len_app, len_local_part. pose proof (local_size_bounds usable (len payload) Husable (len_nonneg payload)) as Hb.
  pose proof (spilled_nil payload) as Hs. destruct (spilled usable payload) as [|x s].
  - rewrite (proj1 Hs eq_refl), Z.ltb_irrefl. change (len (@nil Z)) with 0. lia.
  - rewrite len_be_encode. destruct (Z.ltb_spec (local_payload_size usable (len payload) false) (len payload)); [lia|].
    exfalso. assert (x :: s = []) by (apply Hs; lia). done.
Qed.

Lemma wrap64_u64 k : is_u64 (wrap 64 k).
Proof. unfold is_u64, wrap. apply (Z.mod_pos_bound k (2 ^ 64)). lia. Qed.

(** A written cell decodes to its rowid and payload length. *)
Lemma leaf_cell_parts rowid payload first :
  is_i64 rowid -> len payload <= U64_MAX ->
  decode_varint (leaf_cell usable rowid payload first) = Ok (len payload, len (encode_varint (len payload))) /\
  decode_varint (drop (length (encode_varint (len payload))) (leaf_cell usable rowid payload first)) =
    Ok (wrap 64 rowid, len (encode_varint (wrap 64 rowid))).
Proof.
  intros Hr Hp. pose proof (len_nonneg payload). pose proof (wrap64_u64 rowid) as [Hw _]. unfold leaf_cell. rewrite !len_encode_varint by lia. split.
  - apply decode_encode_varint. unfold is_u64, U64_MAX in *. lia.
  - rewrite drop_app_ge by done. rewrite Nat.sub_diag, drop_0. apply decode_encode_varint, wrap64_u64.
Qed.

Lemma leaf_cell_bounds rowid payload first :
  len payload <= U64_MAX -> 2 <= len (leaf_cell usable rowid payload first) <= 65536.
Proof.
  intros Hp. rewrite len_leaf_cell. pose proof (local_size_bounds usable (len payload) Husable (len_nonneg payload)).
  pose proof (len_nonneg payload). pose proof (wrap64_u64 rowid) as Hw. unfold is_u64 in Hw.
  pose proof (encode_varint_nonempty (len payload) ltac:(lia)). pose proof (encode_varint_nonempty (wrap 64 rowid) ltac:(lia)).
  destruct (_ <? _); lia.
Qed.

Lemma leaf_cell_parse rowid payload first :
  is_i64 rowid -> len payload <= U64_MAX -> parse_cell usable (leaf_cell usable rowid payload first) = Some rowid.
Proof.
  intros Hr Hp. destruct (leaf_cell_parts rowid payload first Hr Hp) as [E1 E2]. pose proof (leaf_cell_bounds rowid payload first Hp) as Hb.
  pose proof (len_leaf_cell rowid payload first) as Hl. pose proof (local_size_bounds usable (len payload) Husable (len_nonneg payload)) as Hls.
  set (c := leaf_cell usable rowid payload first) in *. pose proof (len_nonneg (encode_varint (len payload))). pose proof (len_nonneg (encode_varint (wrap 64 rowid))).
  unfold parse_cell, decode_cell_head. rewrite get_from_Some by lia. cbn [ok_or mbind result_bind]. rewrite drop_0, E1. cbn [map_err mbind result_bind].
  assert (len (encode_varint (len payload)) <= len c) by (destruct (_ <? _) in Hl; lia).
  rewrite get_from_Some by lia. cbn [ok_or mbind result_bind]. 
  replace (Z.to_nat (len (encode_varint (len payload)))) with (length (encode_varint (len payload))) by (unfold len; lia). rewrite E2. cbn [map_err mbind result_bind].
  rewrite as_i64_wrap by done. unfold cell_end_of. cbv zeta.
  set (n1 := len (encode_varint (len payload))) in *. set (n2 := len (encode_varint (wrap 64 rowid))) in *.
  set (ls := local_payload_size usable (len payload) false) in *. assert (n1 + n2 + ls + 4 <= U64_MAX) by (unfold U64_MAX; destruct (_ <? _) in Hl; lia).
  rewrite (sat_add_small 0 n1), (sat_add_small (0 + n1) n2), (sat_add_small (0 + n1 + n2) ls) by lia.
  destruct (ls <? len payload); rewrite sat_add_small by lia; by rewrite (proj2 (Z.eqb_eq _ _)) by lia.
Qed.

(** [encode_leaf_cell] allocates and writes the chain its cell points to. *)
Lemma encode_cell_spec (p : Pager OS) cnt F X rowid payload :
  world p cnt F X -> usable <= pg_page_size p -> len payload <= U64_MAX ->
  cnt + len (chunks (spilled usable payload) (usable - 4)) < U32_MAX ->
  exists pages p' cnt' F', encode_leaf_cell usable rowid payload p = (Ok (leaf_cell usable rowid payload (first_page pages)), p') /\
    chain_at p' pages (chunks (spilled usable payload) (usable - 4)) /\ NoDup pages /\ world p' cnt' F' (list_to_set pages ∪ X) /\
    (forall n, n ∈ pages -> n ∉ X) /\ same_base p p' /\ cnt' <= cnt + len (chunks (spilled usable payload) (usable - 4)) /\
    (forall m, m ∈ X -> same_content p p' m).
Proof.
  intros Hw Hus Hp Hc. unfold encode_leaf_cell. cbv zeta. pose proof (local_size_bounds usable (len payload) Husable (len_nonneg payload)) as Hls.
  rewrite Z.min_l by lia. fold (local_part usable payload) (spilled usable payload). unfold leaf_cell.
  destruct (spilled usable payload) as [|x s] eqn:Es.
  - exists [], p, cnt, F. rewrite app_nil_r. split; [done|]. rewrite chunks_eq by lia. split; [done|]. split; [constructor|].
    replace (list_to_set [] ∪ X) with X by set_solver. split; [done|]. split; [by intros n ?%elem_of_nil|].
    split; [apply same_base_refl|]. split; [change (len (@nil (list Z))) with 0; lia|]. intros m _. by apply same_content_eq.
  - rewrite <- Es in *. destruct (write_overflow_spec p cnt F X usable (spilled usable payload) Hw ltac:(lia) Hc)
      as (pages & p' & cnt' & F' & E & Hrest).
    exists pages, p', cnt', F'. rewrite (M_bind_ok _ _ _ _ _ E). split; [by rewrite <- !app_assoc|done].
Qed.

(** The payload a cell on a page stands for. *)
Definition row_payload (p : Pager OS) (r : row) (payload : list Z) (pages : list Z) : Prop :=
  r.2 = leaf_cell usable r.1 payload (first_page pages) /\ is_i64 r.1 /\ len payload <= U64_MAX /\ NoDup pages /\
  chain_at p pages (chunks (spilled usable payload) (usable - 4)).

Lemma row_payload_frame (p p' : Pager OS) r payload pages :
  row_payload p r payload pages -> (forall n, n ∈ pages -> same_content p p' n) -> row_payload p' r payload pages.
Proof. intros (H1 & H2 & H3 & H4 & H5) Hs. do 4 (split; [done|]). by eapply chain_frame. Qed.

End Cells.
