(* ===== verification/TableTree.v ===== *)
(** * Table b-trees as sorted lists of rows ([src/btree.rs], [src/btree/table])

    What a tree of pages holds, and the effect of [find_leaf_page],
    [insert_row] and [delete_row] on it. *)

From stdpp Require Import prelude list numbers gmap.
From Stdlib Require Import ZArith Lia.
From S2P Require Import Prelude Varint Text Record Header Freelist Vfs Journal Wal Lock Shm Checkpoint PageCache Pager Commit Transactions Allocator BtreePage LeafPage Btree.

Local Open Scope Z_scope.

(** ** Concrete trees *)

Definition plain_header (count : Z) : DatabaseHeader := MkHeader 512 1 1 0 count 0 0 0 4 0 Utf8 0 0.

(** A cell whose payload is [n] copies of its rowid. *)
Definition sample_cell (n : nat) (k : Z) : list Z := encode_varint (Z.of_nat n) ++ encode_varint k ++ replicate n k.

Definition built (r : result BtreeError (list Z)) : list Z := match r with Ok b => b | Err _ => [] end.

Definition sample_leaf (page_num : Z) (n : nat) (ks : list Z) : list Z :=
  built (write_leaf_page (zeros 512) 0 page_num (map (sample_cell n) ks)).

Definition sample_root (entries : list (Z * Z)) (rightmost : Z) : list Z :=
  built (write_interior_page (zeros 512) 0 2 (interior_page entries) rightmost).

(** Root on page 2 over the leaves 3, with ten rows of 40 bytes, and 4. *)
Definition crowded : Pager LockTable :=
  alloc_pager (header_page 4 0 0 ++ sample_root [(3, 11)] 4 ++
    sample_leaf 3 40 [2; 3; 4; 5; 6; 7; 8; 9; 10; 11] ++ sample_leaf 4 40 [20]).

Definition wide_row : list Z := replicate 470 99.

(** Root on page 1 over the leaves 2, with one row, and 3, with eleven. *)
Definition tight_schema : Pager LockTable :=
  alloc_pager (built (write_interior_page (header_page 3 0 0) 100 1 (interior_page [(2, 5)]) 3) ++
    sample_leaf 2 40 [5] ++ sample_leaf 3 40 [6; 7; 8; 9; 10; 11; 12; 13; 14; 15; 16]).

(** ** Properties *)

(** A leaf split that counts cells instead of bytes destroys rows.  The
    tree [crowded] is well formed and holds row 2; the 470-byte payload fits a
    512-byte leaf without overflow.  Inserting it as row 1 reports success,
    but the half of the split that receives it does not fit its page: the
    page's header is overwritten, and afterwards row 2 (as every row of that
    leaf) can no longer be reached. *)
Theorem uneven_split_destroys_rows :
  let '(res, p') := insert_row (plain_header 4) 2 1 wide_row crowded in
  local_payload_size 512 (len wide_row) false = len wide_row /\ res = Ok tt /\
  fst (find_leaf_page 2 2 crowded) = Ok ([2], 3) /\
  (b ← map_err (BtPageSource 3) (logical crowded 3); find_leaf_cell b 0 3 512 2) = Ok (Some (0, 10, 0)) /\
  fst (find_leaf_page 2 2 p') = Err (BtUnexpectedPageType 3 131).
Proof. by vm_compute. Qed.

(** Collapsing into page 1 ignores its 100-byte file header.  The tree
    [tight_schema] is rooted on page 1, as the schema table is.  Deleting its
    row 5 empties leaf 2 and moves leaf 3 into the root, reporting success,
    but what filled a whole page does not fit the rest of page 1: bytes of the
    file header and the page type are overwritten, and row 6 (as every row)
    can no longer be reached. *)
Theorem collapse_into_page1_overflows :
  let '(res, p') := delete_row (plain_header 3) 1 5 tight_schema in
  res = Ok tt /\
  fst (find_leaf_page 1 6 tight_schema) = Ok ([1], 3) /\
  (b ← map_err (BtPageSource 3) (logical tight_schema 3); find_leaf_cell b 0 3 512 6) = Ok (Some (0, 11, 0)) /\
  (b ← logical tight_schema 1; Ok (get_range b 50 60)) = Ok (Some (zeros 10)) /\
  (b ← logical p' 1; Ok (get_range b 50 60)) = Ok (Some [40; 6; 6; 6; 6; 6; 6; 6; 6; 6]) /\
  fst (find_leaf_page 1 6 p') = Err (BtUnexpectedPageType 1 7).
Proof. by vm_compute. Qed.
