(* ===== verification/Table.v ===== *)
(** * Tables: a b-tree with its overflow chains as a finite map

    The abstract state of a table is a finite map from rowids to payloads.
    [table] relates it to the pages of a tree and of the overflow chains of
    its cells; [insert_row] implements insertion into the map. *)

From stdpp Require Import prelude list numbers gmap.
From Stdlib Require Import ZArith Lia.
From S2P Require Import Prelude Varint Text Record Header Freelist Vfs Journal Wal Lock Shm Checkpoint PageCache Pager Commit Transactions Allocator BtreePage LeafPage LeafSearch Btree Tree TreeSplit Overflow.

Local Open Scope Z_scope.

Section Tables.
Context `{host : Host} {OS : Type} `{Fcntl OS}.
Context (usable : Z).

(** ** Following a context *)

Lemma route_skip e1 child key e2 rightmost rowid lo flo h (p : Pager OS) rs ps :
  branches usable p h e1 lo flo rs ps -> flo < rowid <= key -> route (e1 ++ (child, key) :: e2) rightmost rowid = child.
Proof.
  revert lo rs ps. induction e1 as [|[c k] e1 IH]; intros lo rs ps Hb Hr; cbn [app route].
  - by rewrite (proj2 (Z.leb_le _ _)) by lia.
  - inversion Hb as [|? ? ? ? ? ? rs1 ps1 rs2 ps2 Hle Ht Hb' Hd]; subst. pose proof (proj2 (tree_rows usable p) _ _ _ _ _ _ Hb') as (_ & _ & ?).
    rewrite (proj2 (Z.leb_gt _ _)) by lia. by eapply IH.
Qed.

Lemma route_end entries rightmost rowid lo flo h (p : Pager OS) rs ps :
  branches usable p h entries lo flo rs ps -> flo < rowid -> route entries rightmost rowid = rightmost.
Proof.
  revert lo rs ps. induction entries as [|[c k] e1 IH]; intros lo rs ps Hb Hr; cbn [route]; [done|].
  inversion Hb as [|? ? ? ? ? ? rs1 ps1 rs2 ps2 Hle Ht Hb' Hd]; subst. pose proof (proj2 (tree_rows usable p) _ _ _ _ _ _ Hb') as (_ & _ & ?).
  rewrite (proj2 (Z.leb_gt _ _)) by lia. by eapply IH.
Qed.

Lemma find_leaf_step (p q : Pager OS) n entries rightmost rowid fuel anc :
  is_u32 n -> interior_at p n entries rightmost -> updated p q ∅ ->
  exists q', find_leaf_loop (S fuel) anc n rowid q = find_leaf_loop fuel (anc ++ [n]) (route entries rightmost rowid) rowid q' /\ updated p q' ∅.
Proof.
  intros Hn (buf & Hb & _ & Hil) Hq. pose proof Hq as (_ & Hqc & _).
  destruct (read_page_b_spec n q buf Hqc Hn) as (q1 & E & Hq1); [by rewrite (updated_same _ _ n Hq)|].
  exists q1. split; [|by eapply updated_step]. cbn [find_leaf_loop]. rewrite (M_bind_ok _ _ _ _ _ E).
  change (page1_header_start n) with (content_offset n). destruct (interior_read _ _ n _ _ Hil) as [-> ->].
  erewrite M_bind_ok by reflexivity. change (INTERIOR_TABLE =? LEAF_TABLE) with false. cbv iota. rewrite Z.eqb_refl.
  erewrite M_bind_ok by reflexivity. done.
Qed.

(** The descent for a rowid in the focus of a context goes through its
    ancestors. *)
Lemma follow (p : Pager OS) hr root lo hi anc h n flo fhi l r ps rowid :
  context usable p hr root lo hi anc h n flo fhi l r ps -> flo < rowid <= fhi ->
  forall fuel q, updated p q ∅ -> exists q', updated p q' ∅ /\
    find_leaf_loop (length anc + fuel) [] root rowid q = find_leaf_loop fuel (rev anc) n rowid q'.
Proof.
  induction 1 as [|anc h n nlo nhi l r ps e1 child key e2 rightmost flo mid rsA psA rsB psB rsC psC Hc IH Hn Hi Hb1 Hle Hb2 Hm Ht D1 D2 D3 D4
    |anc h n nlo nhi l r ps entries child flo rsA psA Hc IH Hn Hes Hi Hb1 Hle D1 D2]; intros Hr fuel q Hq.
  - by exists q.
  - pose proof (proj2 (tree_rows usable p) _ _ _ _ _ _ Hb1) as (_ & _ & ?). pose proof (proj2 (tree_rows usable p) _ _ _ _ _ _ Hb2) as (_ & _ & ?).
    destruct (IH ltac:(lia) (S fuel) q Hq) as (q1 & Hq1 & E1).
    destruct (find_leaf_step p q1 n _ _ rowid fuel (rev anc) Hn Hi Hq1) as (q2 & E2 & Hq2). exists q2. split; [done|].
    cbn [length rev]. rewrite Nat.add_succ_comm, E1, E2. by rewrite (route_skip _ _ _ _ _ _ _ _ _ _ _ _ Hb1 Hr).
  - pose proof (proj2 (tree_rows usable p) _ _ _ _ _ _ Hb1) as (_ & _ & ?).
    destruct (IH ltac:(lia) (S fuel) q Hq) as (q1 & Hq1 & E1).
    destruct (find_leaf_step p q1 n _ _ rowid fuel (rev anc) Hn Hi Hq1) as (q2 & E2 & Hq2). exists q2. split; [done|].
    cbn [length rev]. rewrite Nat.add_succ_comm, E1, E2. by rewrite (route_end _ child rowid _ _ _ _ _ _ Hb1) by lia.
Qed.

Lemma find_leaf_stop (p q : Pager OS) n lo hi ls rowid fuel anc :
  is_u32 n -> leaf_at usable p n lo hi ls -> updated p q ∅ ->
  exists q', find_leaf_loop (S fuel) anc n rowid q = (Ok (anc, n), q') /\ updated p q' ∅.
Proof.
  intros Hn (buf & cs & slots & blocks & Hb & _ & Hl & _) Hq. pose proof Hq as (_ & Hqc & _).
  destruct (read_page_b_spec n q buf Hqc Hn) as (q1 & E & Hq1); [by rewrite (updated_same _ _ n Hq)|].
  exists q1. split; [|by eapply updated_step]. cbn [find_leaf_loop]. rewrite (M_bind_ok _ _ _ _ _ E).
  change (page1_header_start n) with (content_offset n). rewrite (leaf_type _ _ _ _ _ n Hl). erewrite M_bind_ok by reflexivity.
  by rewrite Z.eqb_refl.
Qed.

Lemma context_height (p : Pager OS) hr root lo hi anc h n flo fhi l r ps :
  context usable p hr root lo hi anc h n flo fhi l r ps -> (length anc + h = hr)%nat.
Proof. induction 1; cbn [length]; lia. Qed.

(** [find_leaf_page] at a leaf in its context, and where a rowid leads. *)
Lemma find_leaf_at (p : Pager OS) hr root lo hi anc h n flo fhi l r ps rowid ls q :
  context usable p hr root lo hi anc h n flo fhi l r ps -> flo < rowid <= fhi -> is_u32 n -> leaf_at usable p n flo fhi ls ->
  Z.of_nat hr < MAX_PAGES_VISITED -> updated p q ∅ ->
  exists q', find_leaf_page root rowid q = (Ok (rev anc, n), q') /\ updated p q' ∅.
Proof.
  intros Hc Hr Hn Hl Hh Hq. pose proof (context_height _ _ _ _ _ _ _ _ _ _ _ _ _ Hc). unfold find_leaf_page.
  replace (Z.to_nat MAX_PAGES_VISITED) with (length anc + S (Z.to_nat MAX_PAGES_VISITED - length anc - 1))%nat by lia.
  destruct (follow p hr root lo hi anc h n flo fhi l r ps rowid Hc Hr (S (Z.to_nat MAX_PAGES_VISITED - length anc - 1)) q Hq) as (q1 & Hq1 & ->).
  destruct (find_leaf_stop p q1 n flo fhi ls rowid (Z.to_nat MAX_PAGES_VISITED - length anc - 1) (rev anc) Hn Hl Hq1) as (q2 & E & Hq2).
  by exists q2.
Qed.

Lemma locate (p : Pager OS) hr root lo hi rs ps rowid :
  tree usable p hr root lo hi rs ps -> coherent p -> lo < rowid <= hi -> Z.of_nat hr < MAX_PAGES_VISITED ->
  exists anc h n flo fhi l ls r qs, context usable p hr root lo hi anc h n flo fhi l r qs /\ is_u32 n /\ leaf_at usable p n flo fhi ls /\
    (n ∉ qs) /\ flo < rowid <= fhi /\ rs = l ++ ls ++ r /\ ps = {[n]} ∪ qs.
Proof.
  intros Ht Hc Hr Hh.
  destruct (descend usable p hr root lo hi rowid hr root lo hi rs ps Ht Hr [] [] [] ∅ ltac:(constructor) ltac:(set_solver) (S hr) p ltac:(lia))
    as (anc & h & n & flo & fhi & l & ls & r & qs & q & _ & _ & Hctx & Hn & Hl & Hni & Hrow & Hrs & Hps).
  { apply updated_read; [done|]. by destruct p. }
  exists anc, h, n, flo, fhi, l, ls, r, qs. rewrite app_nil_r in Hrs. cbn in Hrs. replace (ps ∪ ∅) with ps in Hps by set_solver. done.
Qed.

(** ** Tables *)

(** The rows of a tree stand for the entries [T], their chains being on the
    pages [ps]. *)
Inductive stored (p : Pager OS) : list row -> list (Z * list Z) -> gset Z -> Prop :=
| stored_nil : stored p [] [] ∅
| stored_cons r payload pages rs T ps :
    row_payload usable p r payload pages -> stored p rs T ps -> list_to_set pages ## ps ->
    stored p (r :: rs) ((r.1, payload) :: T) (list_to_set pages ∪ ps).

Definition MIN_KEY : Z := - 2 ^ 63 - 1.
Definition MAX_KEY : Z := 2 ^ 63 - 1.

(** The table rooted at [root], of height at most [h], with the entries of
    [m], on the pages [ps]. *)
Definition table (p : Pager OS) (h : nat) (root : Z) (m : gmap Z (list Z)) (ps : gset Z) : Prop :=
  exists rs T tps ops, tree usable p h root MIN_KEY MAX_KEY rs tps /\ stored p rs T ops /\
    m = list_to_map T /\ ps = tps ∪ ops /\ tps ## ops.

Lemma stored_frame p p' rs T ps :
  stored p rs T ps -> (forall n, n ∈ ps -> same_content p p' n) -> stored p' rs T ps.
Proof.
  induction 1 as [|r payload pages rs T ps Hr Hs IH Hd]; intros Hc; constructor; [| |done].
  - eapply row_payload_frame; [done|]. intros n Hn. apply Hc. apply elem_of_union_l. by apply elem_of_list_to_set.
  - apply IH. intros n Hn. apply Hc. by apply elem_of_union_r.
Qed.

Lemma stored_app p rs1 rs2 T ps :
  stored p (rs1 ++ rs2) T ps <->
  exists T1 T2 ps1 ps2, stored p rs1 T1 ps1 /\ stored p rs2 T2 ps2 /\ T = T1 ++ T2 /\ ps = ps1 ∪ ps2 /\ ps1 ## ps2.
Proof.
  split.
  - revert T ps. induction rs1 as [|r rs1 IH]; intros T ps Hs.
    + exists [], T, ∅, ps. split; [constructor|]. split; [done|]. split; [done|]. split; set_solver.
    + inversion Hs as [|? payload pages ? T' ps' Hr Hs' Hd]; subst. destruct (IH _ _ Hs') as (T1 & T2 & ps1 & ps2 & H1 & H2 & -> & -> & Hd').
      exists ((r.1, payload) :: T1), T2, (list_to_set pages ∪ ps1), ps2. split; [constructor; [done|done|set_solver]|].
      split; [done|]. split; [done|]. split; set_solver.
  - revert T ps. induction rs1 as [|r rs1 IH]; intros T ps (T1 & T2 & ps1 & ps2 & H1 & H2 & -> & -> & Hd).
    + inversion H1; subst. by rewrite union_empty_l_L.
    + inversion H1 as [|? payload pages ? T' ps' Hr Hs' Hd']; subst. rewrite <- union_assoc_L. constructor; [done| |set_solver].
      apply IH. exists T', T2, ps', ps2. split; [done|]. split; [done|]. split; [done|]. split; set_solver.
Qed.

Lemma stored_keys p rs T ps : stored p rs T ps -> T.*1 = map fst rs.
Proof. induction 1 as [|r payload pages rs T ps Hr Hs IH Hd]; cbn; [done|]. by rewrite IH. Qed.

Lemma stored_no_row p rs T ps rowid :
  stored p rs T ps -> (list_to_map T : gmap Z (list Z)) !! rowid = None <-> has_row rowid rs = false.
Proof.
  intros Hs. rewrite has_row_false, <- not_elem_of_list_to_map, (stored_keys _ _ _ _ Hs), Forall_forall.
  rewrite list_elem_of_fmap. split.
  - intros Hn r Hr E. apply Hn. by exists r.
  - intros Hn (r & -> & Hr). by apply (Hn r).
Qed.

(** Adding a row whose payload is stored on other pages. *)
Lemma stored_add p rs T ps rowid cell payload pages :
  stored p rs T ps -> row_payload usable p (rowid, cell) payload pages -> list_to_set pages ## ps -> has_row rowid rs = false ->
  exists T', stored p (add_row rowid cell rs) T' (list_to_set pages ∪ ps) /\
    (list_to_map T' : gmap Z (list Z)) = <[rowid := payload]> (list_to_map T).
Proof.
  intros Hs Hr Hd Hn. unfold add_row, insert_at. set (k := first_greater rowid rs).
  rewrite <- (take_drop k rs) in Hs, Hn. apply stored_app in Hs as (T1 & T2 & ps1 & ps2 & H1 & H2 & -> & -> & Hd').
  rewrite has_row_app, orb_false_iff in Hn. destruct Hn as [Hn1 _].
  exists (T1 ++ (rowid, payload) :: T2). split.
  - apply stored_app. exists T1, ((rowid, payload) :: T2), ps1, (list_to_set pages ∪ ps2). split; [done|].
    split; [apply (stored_cons p (rowid, cell)); [done|done|set_solver]|]. split; [done|]. split; set_solver.
  - rewrite !list_to_map_app. cbn [list_to_map foldr]. symmetry. apply insert_union_r. by eapply stored_no_row.
Qed.

(** ** Insertion *)

(** Inserting into the leaf in its context, with or without a split. *)
Lemma insert_leaf_done (p : Pager OS) cnt F X hr root lo hi anc h n flo fhi l r qs ls rowid cell :
  world p cnt F X -> context usable p hr root lo hi anc h n flo fhi l r qs -> is_u32 n -> leaf_at usable p n flo fhi ls ->
  n ∉ qs -> {[n]} ∪ qs ⊆ X -> has_row rowid ls = false -> flo < rowid <= fhi ->
  parse_cell usable cell = Some rowid -> 1 <= len cell <= 65536 ->
  room (pg_page_size p) n (add_row rowid cell ls) -> cnt + Z.of_nat (length anc) + 1 < U32_MAX ->
  exists p' cnt' F', insert_into_leaf usable (pg_page_size p) n root (rev anc) rowid cell p = (Ok tt, p') /\
    split_done usable p p' cnt' F' X hr root lo hi (l ++ add_row rowid cell ls ++ r) ({[n]} ∪ qs).
Proof.
  intros Hw Hctx Hn32 Hla Hnq HX Hn Hrow Hc Hlc Hroom Hcnt.
  destruct (Z_le_gt_dec (leaf_bytes n (add_row rowid cell ls)) (pg_page_size p)) as [Hfit|Hbig].
  - assert (n ∈ X) as HnX by pages.
    destruct (insert_leaf_fits usable p cnt F n flo fhi ls root (rev anc) rowid cell _ (proj1 Hw) (world_used _ _ _ _ _ Hw HnX) Hla Hn Hrow Hc Hlc eq_refl Hfit)
      as (p' & b & E & Hu & Hla' & Hst'). exists p', cnt, F. split; [done|]. pose proof (updated_base _ _ _ Hu) as Hb.
    exists hr, ({[n]} ∪ qs). split; [|split; [lia|split; [done|split; [pages|split; [|split; [done|]]]]]].
    + eapply plug; [|by apply tree_leaf|pages]. apply (frame_context usable p p' (X ∖ {[n]})); [done|done|eapply write_frame; [done|pages]|pages].
    + replace (X ∪ ({[n]} ∪ qs)) with X by (clear - HX; apply set_eq; set_solver). split; [done|apply Hw].
    + intros m Hm Hni. eapply updated_content; [done|]. intros ->. pages.
  - eapply insert_leaf_splits; try done. lia.
Qed.

(** What limits a leaf split: the rows of the leaf with the new one fit the
    page, or their two halves by count fit a page each. *)
Definition leaf_room (p : Pager OS) (root rowid : Z) (cell : list Z) : Prop :=
  forall anc leaf q buf cells, find_leaf_page root rowid p = (Ok (anc, leaf), q) -> logical p leaf = Ok buf ->
  collect_leaf_cells buf (page1_header_start leaf) leaf usable = Ok cells ->
  room (pg_page_size p) leaf (add_row rowid cell cells).

Lemma leaf_bytes_lens n rs rs' : map (fun r : row => len r.2) rs = map (fun r => len r.2) rs' -> leaf_bytes n rs = leaf_bytes n rs'.
Proof.
  intros E. unfold leaf_bytes. assert (len rs = len rs') as ->.
  { apply (f_equal length) in E. rewrite !length_map in E. unfold len. by rewrite E. }
  f_equal. revert rs' E. induction rs as [|r rs IH]; intros [|r' rs'] E; try done. cbn in E. injection E as E1 E2.
  cbn [map]. rewrite !total_len_cons, E1. by rewrite (IH _ E2).
Qed.

Lemma room_lens P n rs rs' : map (fun r : row => len r.2) rs = map (fun r => len r.2) rs' -> room P n rs -> room P n rs'.
Proof.
  intros E. assert (length rs = length rs') as El by (apply (f_equal length) in E; by rewrite !length_map in E).
  assert (8 + 2 * len (drop (div_ceil2 (length rs)) rs) + total_len (map snd (drop (div_ceil2 (length rs)) rs)) = leaf_bytes 2 (drop (div_ceil2 (length rs)) rs)) as E1 by (unfold leaf_bytes; done).
  assert (8 + 2 * len (drop (div_ceil2 (length rs')) rs') + total_len (map snd (drop (div_ceil2 (length rs')) rs')) = leaf_bytes 2 (drop (div_ceil2 (length rs')) rs')) as E2 by (unfold leaf_bytes; done).
  unfold room. rewrite E1, E2, <- El, (leaf_bytes_lens n rs rs' E).
  rewrite (leaf_bytes_lens n (take (div_ceil2 (length rs)) rs) (take (div_ceil2 (length rs)) rs')) by (by rewrite <- !firstn_map, E).
  rewrite (leaf_bytes_lens 2 (drop (div_ceil2 (length rs)) rs) (drop (div_ceil2 (length rs)) rs')) by (by rewrite <- !skipn_map, E). done.
Qed.

Lemma room_same_len P n rowid c c' rs : len c = len c' -> room P n (add_row rowid c rs) -> room P n (add_row rowid c' rs).
Proof.
  intros E. apply room_lens. unfold add_row, insert_at. rewrite !map_app. cbn [map snd]. by rewrite E.
Qed.

Lemma leaf_cell_len_first rowid payload f f' : len (leaf_cell usable rowid payload f) = len (leaf_cell usable rowid payload f').
Proof. unfold leaf_cell. rewrite !len_app. destruct (spilled usable payload); [done|]. by rewrite !len_be_encode. Qed.

(** Up to the leaf: the cell is encoded, its chain written, the leaf found. *)
Lemma insert_row_reaches header (p : Pager OS) cnt F X hr root rs tps rowid payload :
  480 <= usable <= pg_page_size p -> usable_page_size header = usable ->
  world p cnt F X -> tree usable p hr root MIN_KEY MAX_KEY rs tps -> tps ⊆ X -> Z.of_nat hr < MAX_PAGES_VISITED ->
  is_i64 rowid -> len payload <= U64_MAX -> cnt + len (chunks (spilled usable payload) (usable - 4)) < U32_MAX ->
  exists pages anc h n flo fhi l ls r qs p1 cnt1 F1,
    let cell := leaf_cell usable rowid payload (first_page pages) in
    insert_row header root rowid payload p = insert_into_leaf usable (pg_page_size p1) n root (rev anc) rowid cell p1 /\
    row_payload usable p1 (rowid, cell) payload pages /\ world p1 cnt1 F1 (list_to_set pages ∪ X) /\ list_to_set pages ## X /\
    same_base p p1 /\ cnt1 <= cnt + len (chunks (spilled usable payload) (usable - 4)) /\ (forall m, m ∈ X -> same_content p p1 m) /\
    context usable p hr root MIN_KEY MAX_KEY anc h n flo fhi l r qs /\ is_u32 n /\ leaf_at usable p n flo fhi ls /\
    (n ∉ qs) /\ flo < rowid <= fhi /\ rs = l ++ ls ++ r /\ tps = {[n]} ∪ qs.
Proof.
  intros Hus Hhd Hw Ht HX Hh Hr Hp Hc. pose proof (store_page_size _ _ _ (proj1 Hw)) as Hps. pose proof (store_coherent _ _ _ (proj1 Hw)) as Hco.
  destruct (encode_cell_spec usable ltac:(lia) p cnt F X rowid payload Hw ltac:(lia) Hp Hc)
    as (pages & p1 & cnt1 & F1 & E1 & Hch & Hnd & Hw1 & Hfr & Hb1 & Hc1 & Hs1).
  destruct (locate p hr root MIN_KEY MAX_KEY rs tps rowid Ht Hco) as (anc & h & n & flo & fhi & l & ls & r & qs & Hctx & Hn & Hla & Hnq & Hrow & Hrs & Htps);
    [unfold MIN_KEY, MAX_KEY; unfold is_i64 in Hr; lia|done|].
  assert (context usable p1 hr root MIN_KEY MAX_KEY anc h n flo fhi l r qs) as Hctx1 by (apply (frame_context usable p p1 X); [done|done|done|pages]).
  assert (leaf_at usable p1 n flo fhi ls) as Hla1 by (eapply leaf_at_frame; [done|by apply same_base_size|apply Hs1; pages]).
  pose proof (store_coherent _ _ _ (proj1 Hw1)) as Hco1.
  destruct (find_leaf_at p1 hr root MIN_KEY MAX_KEY anc h n flo fhi l r qs rowid ls p1 Hctx1 Hrow Hn Hla1 Hh) as (q1 & E2 & Hq1);
    [apply updated_read; [done|by destruct p1]|].
  pose proof Hla1 as (buf & cs & slots & blocks & Hbuf & Hlen & _).
  destruct (get_page_mut_b_spec n q1 buf (updated_coherent _ _ _ Hq1)) as (q2 & E3 & Hq2 & _); [by rewrite (updated_same _ _ n Hq1)|].
  pose proof (updated_step _ _ _ _ Hq1 Hq2) as Hu.
  exists pages, anc, h, n, flo, fhi, l, ls, r, qs, q2, cnt1, F1. cbv zeta. split.
  { unfold insert_row. cbv zeta. rewrite Hhd. rewrite (M_bind_ok _ _ _ _ _ E1), (M_bind_ok _ _ _ _ _ E2). cbv beta iota.
    rewrite (M_bind_ok _ _ _ _ _ E3), Hlen. by rewrite (updated_size _ _ _ Hu). }
  split. { eapply (row_payload_frame usable p1); [by do 4 (split; [done|])|]. intros m _. by apply read_same. }
  split; [by eapply world_read|]. split; [intros m Hm1 Hm2; apply elem_of_list_to_set in Hm1; by apply (Hfr m)|].
  split; [eapply same_base_trans; [done|by eapply updated_base]|]. split; [done|].
  split; [intros m Hm; eapply same_content_trans; [by apply Hs1|by apply read_same]|done].
Qed.

(** [insert_row] on a table, when the rowid is new and the leaf has room. *)
Lemma insert_row_spec header (p : Pager OS) cnt F X h root m ps rowid payload :
  480 <= usable <= pg_page_size p -> usable_page_size header = usable ->
  world p cnt F X -> table p h root m ps -> ps ⊆ X -> Z.of_nat h < MAX_PAGES_VISITED ->
  is_i64 rowid -> len payload <= U64_MAX -> cnt + len (chunks (spilled usable payload) (usable - 4)) + Z.of_nat h + 1 < U32_MAX ->
  m !! rowid = None -> leaf_room p root rowid (leaf_cell usable rowid payload 0) ->
  exists p' cnt' F' h' ps', insert_row header root rowid payload p = (Ok tt, p') /\
    table p' h' root (<[rowid := payload]> m) ps' /\ (h' <= S h)%nat /\ ps ⊆ ps' /\ (ps' ∖ ps) ## X /\
    world p' cnt' F' (X ∪ ps') /\ same_base p p' /\ (forall k, k ∈ X -> k ∉ ps -> same_content p p' k).
Proof.
  intros Hus Hhd Hw (rs & T & tps & ops & Ht & Hst & -> & -> & Hd) HX Hh Hr Hp Hc Hm Hroom.
  destruct (insert_row_reaches header p cnt F X h root rs tps rowid payload Hus Hhd Hw Ht ltac:(pages) Hh Hr Hp ltac:(lia))
    as (pages & anc & h' & n & flo & fhi & l & ls & r & qs & p1 & cnt1 & F1 & E & Hrp & Hw1 & Hfr & Hb1 & Hc1 & Hs1 & Hctx & Hn & Hla & Hnq & Hrow & Hrs & Htps).
  pose proof (context_height _ _ _ _ _ _ _ _ _ _ _ _ _ Hctx) as Hhe. pose proof (store_page_size _ _ _ (proj1 Hw)) as Hps.
  pose proof (proj1 (stored_no_row _ _ _ _ rowid Hst) Hm) as Hno. pose proof Hno as Hno'. rewrite Hrs, !has_row_app, !orb_false_iff in Hno'. destruct Hno' as (_ & Hnl & _).
  set (cell := leaf_cell usable rowid payload (first_page pages)) in *.
  assert (room (pg_page_size p1) n (add_row rowid cell ls)) as Hrm.
  { destruct (find_leaf_at p h root MIN_KEY MAX_KEY anc h' n flo fhi l r qs rowid ls p Hctx Hrow Hn Hla Hh) as (q & Ef & _);
      [apply updated_read; [by eapply store_coherent, Hw|by destruct p]|].
    pose proof Hla as (buf & cs & slots & blocks & Hb & _ & Hl & Hpa & Hls & _). rewrite (same_base_size _ _ Hb1).
    eapply room_same_len; [apply (leaf_cell_len_first rowid payload 0)|]. eapply Hroom; [exact Ef|exact Hb|].
    rewrite Hls. apply (collect_spec _ _ _ _ _ _ (lp_slots _ _ _ _ _ Hl) Hpa). }
  destruct (insert_leaf_done p1 cnt1 F1 (list_to_set pages ∪ X) h root MIN_KEY MAX_KEY anc h' n flo fhi l r qs ls rowid cell)
    as (p' & cnt' & F' & E' & hr' & ps' & Ht' & Hh' & Hsub & Hnew & Hw' & Hb' & Hs'); try done.
  { apply (frame_context usable p p1 X); [done|done|done|pages]. }
  { eapply leaf_at_frame; [done|by apply same_base_size|apply Hs1; pages]. } { pages. }
  { apply leaf_cell_parse; [lia|done|done]. } { pose proof (leaf_cell_bounds usable ltac:(lia) rowid payload (first_page pages) Hp) as Hlc. fold cell in Hlc. lia. } { lia. }
  pose proof (context_rows _ _ _ _ _ _ _ _ _ _ _ _ _ _ Hctx) as (Hl & Hr' & _).
  rewrite <- add_row_app in Ht' by (eapply Forall_impl; [done|cbn; lia]). rewrite <- Hrs in Ht'.
  assert (stored p' rs T ops) as Hst'.
  { eapply stored_frame; [exact Hst|]. intros k Hk. eapply same_content_trans; [apply Hs1; pages|]. apply Hs'; pages. }
  assert (row_payload usable p' (rowid, cell) payload pages) as Hrp'.
  { eapply row_payload_frame; [exact Hrp|]. intros k Hk. assert (k ∈ (list_to_set pages : gset Z)) as Hk' by (by apply elem_of_list_to_set).
    apply Hs'; pages. }
  destruct (stored_add p' rs T ops rowid cell payload pages Hst' Hrp' ltac:(pages) Hno) as (T' & HsT & HmT).
  exists p', cnt', F', hr', (ps' ∪ (list_to_set pages ∪ ops)). split; [by rewrite E|]. split.
  { exists (add_row rowid cell rs), T', ps', (list_to_set pages ∪ ops). split; [done|]. split; [done|]. split; [done|]. split; [done|pages]. }
  split; [done|]. split; [pages|]. split; [pages|]. split.
  { replace (X ∪ (ps' ∪ (list_to_set pages ∪ ops))) with (list_to_set pages ∪ X ∪ ps') by (clear - HX; apply set_eq; set_solver). done. }
  split; [by eapply same_base_trans|]. intros k Hk Hnk. eapply same_content_trans; [by apply Hs1|]. apply Hs'; pages.
Qed.

(** An existing rowid is refused, and the table stays as it is. *)
Lemma insert_row_duplicate header (p : Pager OS) cnt F X h root m ps rowid payload :
  480 <= usable <= pg_page_size p -> usable_page_size header = usable ->
  world p cnt F X -> table p h root m ps -> ps ⊆ X -> Z.of_nat h < MAX_PAGES_VISITED ->
  is_i64 rowid -> len payload <= U64_MAX -> cnt + len (chunks (spilled usable payload) (usable - 4)) < U32_MAX ->
  is_Some (m !! rowid) ->
  exists p' cnt' F' leaked, insert_row header root rowid payload p = (Err (BtDuplicateRowid rowid), p') /\
    table p' h root m ps /\ world p' cnt' F' (leaked ∪ X) /\ leaked ## X /\ (forall k, k ∈ X -> same_content p p' k) /\
    (spilled usable payload <> [] -> leaked <> ∅).
Proof.
  intros Hus Hhd Hw (rs & T & tps & ops & Ht & Hst & -> & -> & Hd) HX Hh Hr Hp Hc Hm.
  destruct (insert_row_reaches header p cnt F X h root rs tps rowid payload Hus Hhd Hw Ht ltac:(pages) Hh Hr Hp ltac:(lia))
    as (pages & anc & h' & n & flo & fhi & l & ls & r & qs & p1 & cnt1 & F1 & E & Hrp & Hw1 & Hfr & Hb1 & Hc1 & Hs1 & Hctx & Hn & Hla & Hnq & Hrow & Hrs & Htps).
  assert (has_row rowid ls = true) as Hls.
  { destruct (has_row rowid ls) eqn:El; [done|]. exfalso. pose proof (context_rows _ _ _ _ _ _ _ _ _ _ _ _ _ _ Hctx) as (Hl & Hr' & _).
    apply not_eq_None_Some in Hm. apply Hm, (proj2 (stored_no_row _ _ _ _ rowid Hst)). rewrite Hrs, !has_row_app, El. cbn [orb].
    rewrite (proj2 (has_row_false rowid l)), (proj2 (has_row_false rowid r)); [done|..]; eapply Forall_impl; try done; cbn; lia. }
  destruct (insert_leaf_duplicate usable p1 n flo fhi ls root (rev anc) rowid (leaf_cell usable rowid payload (first_page pages)) (pg_page_size p1)) as (p' & E' & Hu);
    [by eapply store_coherent, Hw1|eapply leaf_at_frame; [done|by apply same_base_size|apply Hs1; pages]|done|done|].
  assert (forall k, k ∈ X -> same_content p p' k) as Hs' by (intros k Hk; eapply same_content_trans; [by apply Hs1|by apply read_same]).
  exists p', cnt1, F1, (list_to_set pages). split; [by rewrite E|]. split.
  { exists rs, T, tps, ops. split; [|split; [|done]].
    - eapply (frame_tree usable p p' X); [done| |done|pages]. eapply same_base_trans; [done|by eapply updated_base].
    - eapply stored_frame; [done|]. intros k Hk. apply Hs'. pages. }
  split; [by eapply world_read|]. split; [done|]. split; [done|]. intros Hsp Hem. destruct Hrp as (_ & _ & _ & _ & Hch).
  destruct pages as [|k pages]; [|set_solver]. rewrite chunks_eq in Hch by lia. destruct (spilled usable payload); [done|]. exact Hch.
Qed.

End Tables.
