(* ===== verification/TableDelete.v ===== *)
(** * Deletion from a table ([delete_row])

    Removing a row from its leaf in place, freeing its overflow chain, and
    taking an emptied leaf out of the tree. *)

From stdpp Require Import prelude list numbers gmap.
From Stdlib Require Import ZArith Lia.
From S2P Require Import Prelude Varint Text Record Header Freelist Vfs Journal Wal Lock Shm Checkpoint PageCache Pager Commit Transactions Allocator BtreePage LeafPage LeafDelete LeafSearch Btree Tree TreeSplit Overflow Table.

Local Open Scope Z_scope.

Section Delete.
Context `{host : Host} {OS : Type} `{Fcntl OS}.
Context (usable : Z).

(** ** Freeing pages *)

Lemma free_spec (p : Pager OS) cnt F n :
  store p cnt F -> 2 <= n <= cnt -> n ∉ F ->
  exists p', deallocate_page n p = (Ok tt, p') /\ store p' cnt (n :: F) /\ same_base p p' /\
    (forall m, m ∉ n :: F -> same_content p p' m).
Proof.
  intros (Hf & Hrd & Hsrc) Hn Hni. destruct (Hrd n ltac:(lia)) as (bn & Hbn & Hlen).
  destruct (push_spec p cnt n F bn Hf Hn Hni Hbn Hlen) as (p' & t & E & Hf' & Ht & Hin & Hrt).
  pose proof Ht as (Hb & Hother & _). pose proof (same_base_size _ _ Hb) as Ps. pose proof Hf as (_ & Hps & Hcnt & _).
  exists p'. split; [done|]. split; [|split; [done|]].
  - split; [done|]. split.
    + intros m Hm. destruct (decide (m = t)) as [->|Hne]; [done|]. destruct (decide (m = 1)) as [->|Hm1].
      { destruct Hf' as (_ & _ & _ & _ & _ & b1 & _ & _ & Hb1 & Hl1 & _). by exists b1. }
      destruct (Hrd m ltac:(lia)) as (b & Hb1 & Hl). exists b. rewrite Hother, Ps; [done|done|]. by intros ?%list_elem_of_singleton.
    + intros m b Hm. pose proof Hb as (Ev & _). rewrite Ev, Ps. apply Hsrc. lia.
  - intros m Hm. eapply touches_content; [done..|]. by intros ->%list_elem_of_singleton.
Qed.

Lemma world_free (p : Pager OS) cnt F X n :
  world p cnt F X -> n ∈ X -> 2 <= n ->
  exists p', deallocate_page_b n p = (Ok tt, p') /\ world p' cnt (n :: F) (X ∖ {[n]}) /\ same_base p p' /\
    (forall m, m ∈ X ∖ {[n]} -> same_content p p' m).
Proof.
  intros [Hst Hu] Hn H2. destruct (Hu n Hn) as [Hr Hni].
  destruct (free_spec p cnt F n Hst ltac:(lia) Hni) as (p' & E & Hst' & Hb & Hs). exists p'.
  assert (forall m, m ∈ X ∖ {[n]} -> m ∉ n :: F) as Hm.
  { intros m [HmX Hmn]%elem_of_difference [->|Hin]%elem_of_cons; [by apply Hmn, elem_of_singleton|]. by apply (proj2 (Hu m HmX)). }
  split; [unfold deallocate_page_b, map_err_M; by rewrite E|]. split; [|split; [done|intros m ?; by apply Hs, Hm]].
  split; [done|]. intros m HmX. split; [apply Hu; set_solver|by apply Hm].
Qed.

(** ** Freeing a chain *)

(** A page that can be read is dirty, in the log's overlay, or in the file. *)
Lemma page_bound_enough (p : Pager OS) (pages : list Z) :
  1 <= pg_page_size p <= 65536 -> NoDup pages -> (forall n, n ∈ pages -> (1 <= n /\ is_u32 n) /\ exists b, logical p n = Ok b) -> (length pages < page_bound p)%nat.
Proof.
  intros Hps Hnd Hr. set (k := len (db_contents (vfs p)) / pg_page_size p).
  assert (list_to_set pages ⊆ dom (dirty p) ∪ dom (wal_pages p) ∪ (list_to_set (seqZ 1 k) : gset Z)) as Hsub.
  { intros n [[Hn1 Hn32] [b Hb]]%elem_of_list_to_set%Hr. unfold logical, committed, read_page_raw in Hb.
    destruct (dirty p !! n) eqn:E1; [apply elem_of_union_l, elem_of_union_l; by apply elem_of_dom|].
    destruct (wal_pages p !! n) eqn:E2; [apply elem_of_union_l, elem_of_union_r; by apply elem_of_dom|].
    apply elem_of_union_r, elem_of_list_to_set, elem_of_seqZ. split; [lia|].
    unfold source_read, read_page_at, read_at in Hb. rewrite (proj2 (Z.eqb_neq n 0)) in Hb by lia.
    set (off := page_offset (pg_page_size p) n) in *.
    destruct (Z.leb_spec (len (db_contents (vfs p))) off) as [Hle|Hlt].
    { change (len (@nil Z)) with 0 in Hb. rewrite (proj2 (Z.eqb_neq _ _)) in Hb by lia. done. }
    destruct (Z.eqb_spec (len (take (Z.to_nat (pg_page_size p)) (drop (Z.to_nat off) (db_contents (vfs p))))) (pg_page_size p)) as [El|]; [|done].
    assert (0 <= off) by (unfold off, page_offset, sat_mul, sat_sub, U64_MAX; lia).
    unfold len in El. rewrite length_take, length_drop in El.
    assert (off + pg_page_size p <= len (db_contents (vfs p))) as Hoff by (unfold len; lia).
    assert (off = (n - 1) * pg_page_size p) as Hoff' by (unfold off, page_offset; rewrite sat_sub_small, sat_mul_small by (unfold U64_MAX; unfold is_u32 in Hn32; nia); lia).
    assert (n <= k) by (apply Z.div_le_lower_bound; lia). lia. }
  apply subseteq_size in Hsub. rewrite size_list_to_set in Hsub by done.
  assert (forall A B : gset Z, (base.size (A ∪ B) <= base.size A + base.size B)%nat) as Hun.
  { intros A B. rewrite size_union_alt. assert (base.size (B ∖ A) <= base.size B)%nat by (apply subseteq_size; set_solver). lia. }
  pose proof (Hun (dom (dirty p) ∪ dom (wal_pages p)) (list_to_set (seqZ 1 k))). pose proof (Hun (dom (dirty p)) (dom (wal_pages p))).
  assert (base.size (list_to_set (seqZ 1 k) : gset Z) <= Z.to_nat k)%nat.
  { rewrite size_list_to_set by apply NoDup_seqZ. by rewrite length_seqZ. }
  rewrite !size_dom in *. unfold page_bound. fold k. lia.
Qed.

Lemma free_chain_spec pages : forall (p : Pager OS) cnt F X cs fuel first visited,
  world p cnt F X -> chain_at p pages cs -> NoDup pages -> (forall n, n ∈ pages -> n ∈ X /\ (n ∉ visited)) -> (length pages <= fuel)%nat ->
  exists p' F', free_overflow_chain fuel first (first_page pages) visited p = (Ok tt, p') /\ world p' cnt F' (X ∖ list_to_set pages) /\
    same_base p p' /\ (forall m, m ∈ X -> m ∉ pages -> same_content p p' m).
Proof.
  induction pages as [|n pages IH]; intros p cnt F X cs fuel first visited Hw Hch Hnd Hp Hf.
  - exists p, F. split; [by destruct fuel|]. replace (X ∖ list_to_set []) with X by set_solver. split; [done|]. split; [apply same_base_refl|].
    intros m _ _. by apply same_content_eq.
  - destruct cs as [|c cs]; [done|]. cbn [chain_at] in Hch. destruct Hch as (Hn2 & Hn32 & (b & Hb & Hr & _) & Hch).
    destruct (Hp n ltac:(by left)) as [HnX Hnv]. apply NoDup_cons in Hnd as [Hni Hnd]. destruct fuel as [|fuel]; [cbn in Hf; lia|].
    cbn [free_overflow_chain first_page]. rewrite (proj2 (Z.eqb_neq n 0)) by lia. rewrite bool_decide_false by done.
    destruct (get_page_mut_b_spec n p b (store_coherent _ _ _ (proj1 Hw)) Hb) as (q & E1 & Hq & _).
    rewrite (M_bind_ok _ _ _ _ _ E1). rewrite (read_u32_eq _ _ (first_page pages)) by (first [lia|done]). erewrite M_bind_ok by reflexivity.
    destruct (world_free q cnt F X n (world_read _ _ _ _ _ Hw Hq) HnX Hn2) as (q1 & E2 & Hw1 & Hb1 & Hs1). rewrite (M_bind_ok _ _ _ _ _ E2).
    assert (forall m, m ∈ X ∖ {[n]} -> same_content p q1 m) as Hs by (intros m Hm; eapply same_content_trans; [by apply read_same|by apply Hs1]).
    assert (forall m, m ∈ pages -> m ∈ X ∖ {[n]}) as Hpx by (intros m Hm; destruct (Hp m ltac:(by right)); apply elem_of_difference; split; [done|]; intros ->%elem_of_singleton; done).
    destruct (IH q1 cnt (n :: F) (X ∖ {[n]}) cs fuel first (n :: visited) Hw1) as (p' & F' & E3 & Hw' & Hb' & Hs'); try done.
    { eapply chain_frame; [done|]. intros m Hm. by apply Hs, Hpx. }
    { intros m Hm. split; [by apply Hpx|]. intros [->|Hin]%elem_of_cons; [done|]. by apply (Hp m ltac:(by right)). }
    { cbn in Hf. lia. }
    exists p', F'. split; [done|]. split; [by replace (X ∖ list_to_set (n :: pages)) with ((X ∖ {[n]}) ∖ list_to_set pages) by set_solver|].
    split; [eapply same_base_trans; [by eapply updated_base|by eapply same_base_trans]|].
    intros m Hm Hnm. apply not_elem_of_cons in Hnm as [Hmn Hnm]. assert (m ∈ X ∖ {[n]}) by set_solver.
    eapply same_content_trans; [by apply Hs|by apply Hs'].
Qed.

(** With the bound the source's loop has. *)
Lemma free_overflow_spec (p : Pager OS) cnt F X pages cs first :
  world p cnt F X -> chain_at p pages cs -> NoDup pages -> (forall n, n ∈ pages -> n ∈ X) ->
  exists p' F', (p ← get_st; free_overflow_chain (page_bound p) first (first_page pages) []) p = (Ok tt, p') /\
    world p' cnt F' (X ∖ list_to_set pages) /\ same_base p p' /\ (forall m, m ∈ X -> m ∉ pages -> same_content p p' m).
Proof.
  intros Hw Hch Hnd Hp. erewrite M_bind_ok by reflexivity. eapply free_chain_spec; try done.
  - intros n Hn. split; [by apply Hp|apply not_elem_of_nil].
  - pose proof (store_page_size _ _ _ (proj1 Hw)). enough (length pages < page_bound p)%nat by lia. apply page_bound_enough; [lia|done|].
    intros n Hn. revert cs Hch. clear - Hn. induction pages as [|k pages IH]; intros [|c cs] Hch; try done; [by apply elem_of_nil in Hn|].
    cbn [chain_at] in Hch. destruct Hch as (H2 & H32 & (b & Hb & _) & Hch). apply elem_of_cons in Hn as [->|Hn]; [split; [split; [lia|done]|by exists b]|].
    by eapply IH.
Qed.

(** ** Removing a row from its leaf *)

Lemma parsed_delete slots i o c : slots !! i = Some (o, c) -> parsed usable slots -> parsed usable (delete i slots).
Proof.
  intros Hs Hp. unfold parsed in *. rewrite delete_take_drop. rewrite <- (take_drop_middle slots i _ Hs) in Hp.
  apply Forall_app in Hp as [H1 H2]. apply Forall_cons_1 in H2 as [_ H2]. by apply Forall_app.
Qed.

(** Blocks are at least five bytes apart from start to start. *)
Lemma few_blocks buf hs cs slots blocks : leaf_page buf hs cs slots blocks -> len buf <= 32768 -> len blocks <= MAX_FREEBLOCKS.
Proof.
  intros [[Hhs _ _ Hroom _ _ _ _] _ _ _ Hblk Hsort _] Hl.
  assert (forall lo, Forall (fun b => lo <= b.1 /\ 4 <= b.2 /\ b.1 + b.2 <= len buf) blocks -> lo <= len buf + 1 -> lo + 5 * len blocks <= len buf + 1) as Hc.
  { clear - Hsort. induction Hsort as [|b bs Hb Hs IH]; intros lo Hf Hlo; [change (len (@nil (Z * Z))) with 0; lia|].
    apply Forall_cons_1 in Hf as [(H1 & H2 & H3) Hf]. rewrite len_cons.
    enough (b.1 + b.2 + 1 + 5 * len bs <= len buf + 1) by lia. apply IH; [|lia].
    assert (Forall (fun x : Z * Z => (lo <= x.1 /\ 4 <= x.2 /\ x.1 + x.2 <= len buf) /\ b.1 + b.2 < x.1) bs) as Hx by (apply Forall_and; by split).
    eapply Forall_impl; [exact Hx|]. cbn. lia. }
  pose proof (len_nonneg slots). specialize (Hc cs Hblk ltac:(lia)). unfold MAX_FREEBLOCKS. lia.
Qed.

Lemma sorted_remove_row rowid rs : sorted_rows rs -> sorted_rows (remove_row rowid rs).
Proof.
  unfold sorted_rows, remove_row. induction 1 as [|r rs Hr Hs IH]; [constructor|]. rewrite filter_cons. case_decide; [|done].
  constructor; [|done]. by apply (Forall_remove_row _ rowid).
Qed.

Lemma delete_from_leaf (p : Pager OS) cnt F X n lo hi ls rowid cell k :
  world p cnt F X -> n ∈ X -> leaf_at usable p n lo hi ls -> pg_page_size p <= 32768 -> index_of rowid ls = Some k -> ls !! k = Some (rowid, cell) ->
  exists p' b, edit_page n (fun buf => splice_delete_cell buf (content_offset n) n usable (Z.of_nat k) true) p = (Ok tt, p') /\
    updated p p' {[n := b]} /\ leaf_at usable p' n lo hi (remove_row rowid ls) /\ world p' cnt F X.
Proof.
  intros [Hst Hu] Hn (buf & cs & slots & blocks & Hb & Hlen & Hl & Hp & -> & Hs & Hr) Hps Hk Hc.
  assert (exists o, slots !! k = Some (o, cell)) as [o Ho].
  { unfold rows in Hc. rewrite list_lookup_fmap in Hc. destruct (slots !! k) as [[o c]|]; [|done]. injection Hc as _ <-. by exists o. }
  destruct (proj1 (Forall_lookup _ _) Hp _ _ Ho) as [r Hrow]. cbn [snd] in Hrow.
  destruct (splice_delete_spec buf _ cs slots blocks n usable k o cell r Hl Ho Hrow) as (b' & cs' & blocks' & E & Hl' & _ & _ & Hbel);
    [eapply few_blocks; [done|lia]|].
  destruct (edit_page_spec n (fun buf => splice_delete_cell buf (content_offset n) n usable (Z.of_nat k) true) p buf b' (store_coherent _ _ _ Hst) Hb E) as (p' & E' & Hup).
  exists p', b'. split; [done|]. split; [done|]. pose proof (updated_size _ _ _ Hup) as Ps.
  assert (rows usable (delete k slots) = remove_row rowid (rows usable slots)) as Hrows by (rewrite rows_delete; by apply index_of_delete).
  split.
  - exists b', cs', (delete k slots), blocks'. split; [by eapply updated_at|]. split; [rewrite (proj1 Hbel), Ps; done|]. split; [done|].
    split; [by eapply parsed_delete|]. split; [done|]. split; [by apply sorted_remove_row|by apply Forall_remove_row].
  - split; [|done]. eapply store_write; [done|done|apply Hu, Hn|apply Hu, Hn|done|apply Hbel|]. intros x y Hxy. by apply Hbel.
Qed.

(** ** Taking a page out of its parent *)

(** A tree serves any wider range. *)
Lemma tree_widen (p : Pager OS) :
  (forall h n lo hi rs ps, tree usable p h n lo hi rs ps -> forall lo' hi', lo' <= lo -> hi <= hi' -> tree usable p h n lo' hi' rs ps) /\
  (forall h es lo mid rs ps, branches usable p h es lo mid rs ps -> forall lo', lo' <= lo -> exists mid', mid' <= mid /\ branches usable p h es lo' mid' rs ps).
Proof.
  apply (tree_branches_ind usable p (fun h n lo hi rs ps _ => forall lo' hi', lo' <= lo -> hi <= hi' -> tree usable p h n lo' hi' rs ps)
    (fun h es lo mid rs ps _ => forall lo', lo' <= lo -> exists mid', mid' <= mid /\ branches usable p h es lo' mid' rs ps)).
  - intros h n lo hi rs Hn (b & cs & slots & blocks & H1 & H2 & H3 & H4 & H5 & H6 & Hr) lo' hi' Hlo Hhi. constructor; [done|].
    exists b, cs, slots, blocks. do 6 (split; [done|]). by eapply in_range_weaken.
  - intros h n es rm lo mid hi rs1 ps1 rs2 ps2 Hn Hes Hi Hb IH1 Hm Ht IH2 Hd Hni lo' hi' Hlo Hhi.
    destruct (IH1 lo' Hlo) as (mid' & Hle & Hb'). econstructor; try done; [lia|]. by apply IH2.
  - intros h lo lo' Hlo. exists lo'. split; [done|constructor].
  - intros h child key es lo mid rs1 ps1 rs2 ps2 Hle Ht IH1 Hb IH2 Hd lo' Hlo. exists mid. split; [lia|]. constructor; [lia| |done|done]. by apply IH1.
Qed.

(** The parent [n] of a page that is gone, with the entries it keeps. *)
Lemma drop_child (p : Pager OS) hr root lo hi n anc h child flo fhi l r qs :
  context usable p hr root lo hi (n :: anc) h child flo fhi l r qs -> child ∉ qs ->
  exists nlo nhi l0 r0 qs0 entries rm entries' rm' mid rs1 ps1 rs2 ps2,
    context usable p hr root lo hi anc (S h) n nlo nhi l0 r0 qs0 /\ is_u32 n /\ interior_at p n entries rm /\
    drop_route n entries rm child = Ok (entries', rm') /\ branches usable p h entries' nlo mid rs1 ps1 /\ mid <= nhi /\ tree usable p h rm' mid nhi rs2 ps2 /\
    ps1 ## ps2 /\ (n ∉ ps1 ∪ ps2) /\ {[n]} ∪ (ps1 ∪ ps2) ## qs0 /\ qs = {[n]} ∪ (ps1 ∪ ps2) ∪ qs0 /\ l ++ r = l0 ++ (rs1 ++ rs2) ++ r0 /\
    interior_bytes entries' <= interior_bytes entries /\ Forall (fun e => is_u32 e.1 /\ is_i64 e.2) entries' /\ is_u32 rm'.
Proof.
  intros Hc Hni.
  inversion Hc as [|? ? ? nlo nhi l0 r0 qs0 e1 ? key e2 rm ? mid rsA psA rsB psB rsC psC Hc0 Hn Hi Hb1 Hle Hb2 Hm Ht E1 E2 E3 E4
    |? ? ? nlo nhi l0 r0 qs0 entries ? ? rsA psA Hc0 Hn Hes Hi Hb1 Hle E1 E2]; subst.
  - destruct (proj2 (tree_widen p) _ _ _ _ _ _ Hb2 flo Hle) as (mid' & Hm' & Hb2').
    pose proof Hi as (? & _ & _ & Hil). pose proof Hil as (_ & He & Hrm & _ & _). rewrite Forall_app, Forall_cons in He. destruct He as (He1 & [_ Hk] & He2).
    exists nlo, nhi, l0, r0, qs0, (e1 ++ (child, fhi) :: e2), rm, (e1 ++ e2), rm, mid', (rsA ++ rsB), (psA ∪ psB), rsC, psC.
    split; [done|]. split; [done|]. split; [done|]. split.
    { unfold drop_route. rewrite (list_find_app_r _ e1); [|apply list_find_None, Forall_forall; intros e Hin Heq;
        pose proof (branches_children _ _ _ _ _ _ _ _ Hb1 e Hin) as Hch; rewrite Heq in Hch; set_solver].
      cbn [list_find fst]. rewrite decide_True by done. cbn [fmap option_fmap option_map prod_map]. f_equal. f_equal.
      cbn [fst Nat.add]. apply delete_middle. }
    split; [apply branches_app; exists flo, rsA, psA, rsB, psB; repeat (split; [done|]); pages|].
    split; [lia|]. split; [by apply (proj1 (tree_widen p) _ _ mid nhi)|].
    split; [pages|]. split; [pages|]. split; [pages|]. split; [pages|]. split; [by rewrite <- !app_assoc|].
    split; [rewrite !interior_bytes_app, interior_bytes_cons; pose proof (len_interior_cell child fhi); lia|]. split; [by apply Forall_app|done].
  - destruct (exists_last Hes) as (e1 & [lc lk] & ->). apply branches_app in Hb1 as (k & rs1 & ps1 & rs2 & ps2 & H1 & H2 & -> & -> & Hd).
    inversion H2 as [|? ? ? ? ? ? rsX psX rsY psY Hlk Ht Hb' Hd']; subst. inversion Hb'; subst.
    pose proof Hi as (? & _ & _ & Hil). pose proof Hil as (_ & He & Hrm & _ & _). rewrite Forall_app, Forall_cons in He. destruct He as (He1 & [Hlc Hk64] & _).
    exists nlo, fhi, l0, r, qs0, (e1 ++ [(lc, flo)]), child, e1, lc, k, rs1, ps1, rsX, psX.
    split; [done|]. split; [done|]. split; [done|]. split.
    { unfold drop_route. rewrite (proj2 (list_find_None _ _)).
      - rewrite Z.eqb_refl, last_snoc, removelast_last. done.
      - apply Forall_forall. intros e Hin Heq.
        assert (e.1 ∈ ps1 ∪ (psX ∪ ∅)) as Hch; [|rewrite Heq in Hch; set_solver].
        apply elem_of_app in Hin as [Hin|Hin]; [apply elem_of_union_l; by eapply branches_children|].
        apply list_elem_of_singleton in Hin as ->. apply elem_of_union_r, elem_of_union_l. by eapply tree_root_in. }
    pose proof (proj2 (tree_rows usable p) _ _ _ _ _ _ H1) as (_ & _ & ?).
    split; [done|]. split; [lia|]. split; [apply (proj1 (tree_widen p) _ _ k flo); [done|lia|lia]|].
    split; [pages|]. split; [pages|]. split; [pages|]. split; [pages|]. split; [by rewrite app_nil_r, <- !app_assoc|].
    split; [rewrite interior_bytes_app, interior_bytes_cons; pose proof (len_interior_cell lc flo); change (interior_bytes []) with 12; lia|]. done.
Qed.

(** Putting [new] where [old] was, under a parent [n]. *)
Lemma splice_child_spec (p : Pager OS) cnt F X hr root lo hi n anc h old new flo fhi l r qs rs ps :
  world p cnt F X -> context usable p hr root lo hi (n :: anc) h old flo fhi l r qs -> old ∉ qs -> qs ⊆ X ->
  tree usable p h new flo fhi rs ps -> ps ⊆ X -> ps ## qs ->
  exists p', splice_child (n :: anc) old new p = (Ok tt, p') /\ tree usable p' hr root lo hi (l ++ rs ++ r) (ps ∪ qs) /\
    world p' cnt F X /\ same_base p p' /\ (forall m, m ∈ X -> m <> n -> same_content p p' m).
Proof.
  intros Hw Hc Hni HX Ht Hps Hd. pose proof (tree_root_in _ _ _ _ _ _ _ _ Ht) as Hin. assert (is_u32 new) as Hn32 by (by destruct Ht).
  assert (exists nlo nhi l0 r0 qs0 entries rm entries' rm' mid rs1 ps1 rs2 ps2,
    context usable p hr root lo hi anc (S h) n nlo nhi l0 r0 qs0 /\ is_u32 n /\ interior_at p n entries rm /\
    (match list_find (fun e => e.1 = old) entries with
     | Some (i, (_, key)) => Ok (<[i := (new, key)]> entries, rm)
     | None => if rm =? old then Ok (entries, new) else Err (BtMissingChildRoute n old) end) = Ok (entries', rm') /\
    entries' <> [] /\ branches usable p h entries' nlo mid rs1 ps1 /\ mid <= nhi /\ tree usable p h rm' mid nhi rs2 ps2 /\
    ps1 ## ps2 /\ (n ∉ ps1 ∪ ps2) /\ {[n]} ∪ (ps1 ∪ ps2) ## qs0 /\ ps ∪ qs = {[n]} ∪ (ps1 ∪ ps2) ∪ qs0 /\ l ++ rs ++ r = l0 ++ (rs1 ++ rs2) ++ r0 /\
    interior_bytes entries' = interior_bytes entries /\ Forall (fun e => is_u32 e.1 /\ is_i64 e.2) entries' /\ is_u32 rm') as
    (nlo & nhi & l0 & r0 & qs0 & entries & rm & entries' & rm' & mid & rs1 & ps1 & rs2 & ps2 & Hc0 & Hn & Hi & Er & Hne & Hb & Hm & Ht2 & D1 & D2 & D3 & Hq & Hrs & Hsz & He & Hrm).
  { inversion Hc as [|? ? ? nlo nhi l0 r0 qs0 e1 ? key e2 rm ? mid rsA psA rsB psB rsC psC Hc0 Hn Hi Hb1 Hle Hb2 Hm Ht2 E1 E2 E3 E4
      |? ? ? nlo nhi l0 r0 qs0 entries ? ? rsA psA Hc0 Hn Hes Hi Hb1 Hle E1 E2]; subst.
    - pose proof Hi as (? & _ & _ & Hil). pose proof Hil as (_ & He & Hrm & _ & _). rewrite Forall_app, Forall_cons in He. destruct He as (He1 & [_ Hk] & He2).
      exists nlo, nhi, l0, r0, qs0, (e1 ++ (old, fhi) :: e2), rm, (e1 ++ (new, fhi) :: e2), rm, mid, (rsA ++ rs ++ rsB), (psA ∪ (ps ∪ psB)), rsC, psC.
      split; [done|]. split; [done|]. split; [done|]. split.
      { rewrite (list_find_app_r _ e1); [|apply list_find_None, Forall_forall; intros e Hine Heq;
          pose proof (branches_children _ _ _ _ _ _ _ _ Hb1 e Hine) as Hch; rewrite Heq in Hch; set_solver].
        cbn [list_find fst]. rewrite decide_True by done. cbn [fmap option_fmap option_map prod_map fst Nat.add]. f_equal. f_equal.
        by rewrite insert_app_r_alt, Nat.sub_diag by lia. }
      split; [by destruct e1|]. split.
      { apply branches_app. exists flo, rsA, psA, (rs ++ rsB), (ps ∪ psB). split; [done|]. split; [constructor; [done|done|done|pages]|].
        split; [done|]. split; [done|pages]. }
      split; [done|]. split; [done|]. split; [pages|]. split; [pages|]. split; [pages|]. split; [pages|]. split; [by rewrite <- !app_assoc|].
      split; [rewrite !interior_bytes_app, !interior_bytes_cons, (len_build new old); lia|]. split; [by rewrite Forall_app, Forall_cons|done].
    - pose proof Hi as (? & _ & _ & Hil). pose proof Hil as (_ & He & Hrm & _ & _).
      exists nlo, fhi, l0, r, qs0, entries, old, entries, new, flo, rsA, psA, rs, ps.
      split; [done|]. split; [done|]. split; [done|]. split.
      { rewrite (proj2 (list_find_None _ _)); [by rewrite Z.eqb_refl|]. apply Forall_forall. intros e Hine Heq.
        pose proof (branches_children _ _ _ _ _ _ _ _ Hb1 e Hine) as Hch. rewrite Heq in Hch. set_solver. }
      split; [done|]. split; [done|]. split; [lia|]. split; [done|]. split; [pages|]. split; [pages|]. split; [pages|]. split; [pages|].
      split; [by rewrite <- !app_assoc|]. done. }
  pose proof Hi as (buf & Hbuf & Hlen & Hil). pose proof Hil as (_ & _ & _ & Hfit & _).
  destruct (get_page_mut_b_spec n p buf (store_coherent _ _ _ (proj1 Hw)) Hbuf) as (q & E0 & Hu0 & _).
  destruct (interior_read _ _ n _ _ Hil) as [_ Ecol]. pose proof (updated_size _ _ _ Hu0) as Ps0.
  assert (n ∈ X) as HnX by pages.
  destruct (world_interior q cnt F X n entries' rm' (world_read _ _ _ _ _ Hw Hu0) HnX He Hrm) as (p' & b & E1 & Hu1 & Hi1 & Hw1);
    [rewrite Ps0, Hsz; unfold interior_bytes; lia|].
  assert (forall m, m ∈ X ∖ {[n]} -> same_content p p' m) as Hs.
  { intros m Hm'. eapply same_content_trans; [by apply read_same|]. eapply updated_content; [done|]. pages. }
  assert (same_base p p') as Hbase by (eapply same_base_trans; by eapply updated_base).
  exists p'. split.
  { unfold splice_child. rewrite (M_bind_ok _ _ _ _ _ E0). change (page1_header_start n) with (content_offset n). rewrite Ecol. erewrite M_bind_ok by reflexivity.
    cbv beta iota. rewrite Er. erewrite M_bind_ok by reflexivity. done. }
  split; [|split; [done|split; [done|intros m Hm' Hmn; apply Hs; set_solver]]].
  rewrite Hrs, Hq. eapply plug; [|econstructor; [done|exact Hne|done| |exact Hm| |done|done]|done].
  - apply (frame_context usable p p' (X ∖ {[n]})); [done|done|done|pages].
  - apply (frame_branches usable p p' (X ∖ {[n]})); [done|done|done|pages].
  - apply (frame_tree usable p p' (X ∖ {[n]})); [done|done|done|pages].
Qed.

(** The only child's content moved into the root. *)
Lemma collapse_root_spec (p : Pager OS) cnt F X h root only lo hi rs ps :
  world p cnt F X -> tree usable p h only lo hi rs ps -> ps ⊆ X -> root ∈ X -> root ∉ ps -> is_u32 root -> 2 <= root -> 2 <= only ->
  exists p', collapse_root usable root only p = (Ok tt, p') /\ tree usable p' h root lo hi rs ({[root]} ∪ ps ∖ {[only]}) /\
    world p' cnt (only :: F) (X ∖ {[only]}) /\ same_base p p' /\ (forall m, m ∈ X -> m <> root -> m <> only -> same_content p p' m).
Proof.
  intros Hw Ht Hps HrX Hrn Hr32 Hr2 Ho2. pose proof (tree_root_in _ _ _ _ _ _ _ _ Ht) as Hin.
  assert (content_offset root = 0 /\ content_offset only = 0) as [Hor Hoo].
  { unfold content_offset. rewrite (proj2 (Z.eqb_neq root 1)), (proj2 (Z.eqb_neq only 1)) by lia. done. }
  enough (exists p1 b1 rs' ps', tree usable p1 h root lo hi rs' ps' /\ rs' = rs /\ ps' = {[root]} ∪ ps ∖ {[only]} /\ updated p p1 {[root := b1]} /\ world p1 cnt F X /\
    collapse_root usable root only p = deallocate_page_b only p1) as (p1 & b1 & rs' & ps' & Ht1 & -> & -> & Hu1 & Hw1 & E1).
  { destruct (world_free p1 cnt F X only Hw1 ltac:(pages) Ho2) as (p' & E2 & Hw' & Hb' & Hs'). exists p'. rewrite E1. split; [done|].
    split; [apply (frame_tree usable p1 p' (X ∖ {[only]})); [done|done|done|]; intros m Hm; pages|]. split; [done|].
    split; [eapply same_base_trans; [by eapply updated_base|done]|]. intros m Hm Hmr Hmo.
    eapply same_content_trans; [by eapply updated_content|]. apply Hs'. set_solver. }
  destruct Ht as [h only lo hi rs Ho Hl|h only entries rightmost lo mid hi rs1 ps1 rs2 ps2 Ho Hes Hi Hb Hm Ht D1 D2].
  - pose proof Hl as (buf & cs & slots & blocks & Hbuf & Hlen & Hlp & Hpa & Hrs & Hso & Hrg).
    destruct (get_page_mut_b_spec only p buf (store_coherent _ _ _ (proj1 Hw)) Hbuf) as (q & E0 & Hu0 & _).
    destruct (world_leaf usable q cnt F X root rs lo hi (world_read _ _ _ _ _ Hw Hu0) HrX) as (p1 & b1 & E1 & Hu1 & Hl1 & Hw1);
      [rewrite Hrs; eapply good_rows; [exact (lp_slots _ _ _ _ _ Hlp)|done]|done|done| |].
    { rewrite (updated_size _ _ _ Hu0). pose proof (leaf_page_fits _ _ _ _ _ Hlp) as Hfit. unfold leaf_bytes. rewrite Hrs, len_rows, map_snd_rows, Hor. lia. }
    exists p1, b1, rs, {[root]}. split; [by constructor|]. split; [done|]. split; [pages|]. split; [by eapply updated_step|]. split; [done|].
    unfold collapse_root. change (page1_header_start only) with (content_offset only). change (page1_header_start root) with (content_offset root).
    rewrite (M_bind_ok _ _ _ _ _ E0), (leaf_type _ _ _ _ _ only Hlp). erewrite M_bind_ok by reflexivity. rewrite Z.eqb_refl.
    rewrite (collect_spec _ _ _ _ _ _ (lp_slots _ _ _ _ _ Hlp) Hpa), <- Hrs. erewrite M_bind_ok; [|erewrite M_bind_ok by reflexivity; exact E1]. done.
  - pose proof Hi as (buf & Hbuf & Hlen & Hil). pose proof Hil as (_ & He & Hrm & Hfit & _).
    destruct (get_page_mut_b_spec only p buf (store_coherent _ _ _ (proj1 Hw)) Hbuf) as (q & E0 & Hu0 & _).
    destruct (interior_read _ _ only _ _ Hil) as [Ety Ecol].
    destruct (world_interior q cnt F X root entries rightmost (world_read _ _ _ _ _ Hw Hu0) HrX He Hrm) as (p1 & b1 & E1 & Hu1 & Hi1 & Hw1);
      [rewrite (updated_size _ _ _ Hu0), Hor; unfold interior_bytes; lia|].
    pose proof (updated_step _ _ _ _ Hu0 Hu1) as Hu.
    exists p1, b1, (rs1 ++ rs2), ({[root]} ∪ (ps1 ∪ ps2)). split; [|split; [done|split; [pages|split; [done|split; [done|]]]]].
    + econstructor; [done|exact Hes|done| |exact Hm| |done|pages].
      * apply (frame_branches usable p p1 (X ∖ {[root]})); [done|by eapply updated_base|eapply write_frame; [done|pages]|pages].
      * apply (frame_tree usable p p1 (X ∖ {[root]})); [done|by eapply updated_base|eapply write_frame; [done|pages]|pages].
    + unfold collapse_root. change (page1_header_start only) with (content_offset only). change (page1_header_start root) with (content_offset root).
      rewrite (M_bind_ok _ _ _ _ _ E0), Ety. erewrite M_bind_ok by reflexivity. change (INTERIOR_TABLE =? LEAF_TABLE) with false. cbv iota. rewrite Z.eqb_refl, Ecol.
      erewrite M_bind_ok; [|erewrite M_bind_ok by reflexivity; exact E1]. done.
Qed.

Lemma context_root_in (p : Pager OS) hr root lo hi n anc h f flo fhi l r qs :
  context usable p hr root lo hi (n :: anc) h f flo fhi l r qs -> root ∈ qs.
Proof.
  remember (n :: anc) as a eqn:Ea. intros Hc. revert n anc Ea. induction Hc as [|anc h n nlo nhi l r ps e1 child key e2 rightmost flo mid rsA psA rsB psB rsC psC Hc IH Hn Hi Hb1 Hle Hb2 Hm Ht D1 D2 D3 D4
    |anc h n nlo nhi l r ps entries child flo rsA psA Hc IH Hn Hes Hi Hb1 Hle D1 D2]; intros n0 anc0 Ea; [done|..].
  all: destruct anc as [|a anc]; [inversion Hc; subst; set_solver|specialize (IH a anc eq_refl); set_solver].
Qed.

(** The tree without the page [child], which has been freed. *)
Lemma collapse_spec (p : Pager OS) cnt F X hr root lo hi n anc h child flo fhi l r qs :
  world p cnt F X -> context usable p hr root lo hi (n :: anc) h child flo fhi l r qs -> child ∉ qs -> qs ⊆ X -> 1 ∉ qs ->
  exists p' F' ps', collapse_into_ancestors usable root (n :: anc) child p = (Ok tt, p') /\ tree usable p' hr root lo hi (l ++ r) ps' /\
    ps' ⊆ qs /\ world p' cnt F' (X ∖ (qs ∖ ps')) /\ same_base p p' /\ (forall m, m ∈ X -> m ∉ qs -> same_content p p' m).
Proof.
  intros Hw Hc Hni HX H1.
  destruct (drop_child p hr root lo hi n anc h child flo fhi l r qs Hc Hni)
    as (nlo & nhi & l0 & r0 & qs0 & entries & rm & entries' & rm' & mid & rs1 & ps1 & rs2 & ps2 & Hc0 & Hn & Hi & Er & Hb & Hm & Ht & D1 & D2 & D3 & -> & Hrs & Hsz & He & Hrm).
  assert (forall m, m ∈ {[n]} ∪ (ps1 ∪ ps2) ∪ qs0 -> 2 <= m) as H2.
  { intros m Hmq. assert (1 <= m) by (apply (world_used _ _ _ _ m Hw), HX, Hmq). assert (m <> 1) by (intros ->; done). lia. }
  pose proof Hi as (buf & Hbuf & Hlen & Hil). pose proof Hil as (_ & _ & _ & Hfit & _). pose proof (tree_root_in _ _ _ _ _ _ _ _ Ht) as Hrin.
  destruct (get_page_mut_b_spec n p buf (store_coherent _ _ _ (proj1 Hw)) Hbuf) as (q & E0 & Hu0 & _).
  destruct (interior_read _ _ n _ _ Hil) as [_ Ecol]. pose proof (updated_size _ _ _ Hu0) as Ps0. pose proof (world_read _ _ _ _ _ Hw Hu0) as Hwq.
  pose proof (updated_base _ _ _ Hu0) as Hb0. pose proof (read_same _ _ Hu0) as Hs0.
  assert (branches usable q h entries' nlo mid rs1 ps1) as Hb' by (apply (frame_branches usable p q X); [done|done|auto|pages]).
  assert (tree usable q h rm' mid nhi rs2 ps2) as Ht' by (apply (frame_tree usable p q X); [done|done|auto|pages]).
  assert (context usable q hr root lo hi anc (S h) n nlo nhi l0 r0 qs0) as Hc0' by (apply (frame_context usable p q X); [done|done|auto|pages]).
  assert (collapse_into_ancestors usable root (n :: anc) child p = (match entries' with
    | _ :: _ => edit_page n (fun buf => write_interior_page buf (content_offset n) n (interior_page entries') rm')
    | [] => if n =? root then collapse_root usable root rm' else _ ← deallocate_page_b n; splice_child anc n rm' end) q) as E.
  { unfold collapse_into_ancestors. rewrite (M_bind_ok _ _ _ _ _ E0). change (page1_header_start n) with (content_offset n). rewrite Ecol.
    erewrite M_bind_ok by reflexivity. cbv beta iota. rewrite Er. erewrite M_bind_ok by reflexivity. done. }
  rewrite E, Hrs. clear E. destruct entries' as [|e entries'].
  - inversion Hb; subst. cbn [app]. destruct (Z.eqb_spec n root) as [->|Hnr].
    + destruct anc as [|a anc]; [|exfalso; pose proof (context_root_in _ _ _ _ _ _ _ _ _ _ _ _ _ _ Hc0); pages]. inversion Hc0; subst.
      destruct (collapse_root_spec q cnt F X h root rm' mid nhi rs2 ps2 Hwq Ht') as (p' & E & Htr & Hw' & Hbase & Hs'); [pages|pages|pages|done|apply H2; pages|apply H2; pages|].
      exists p', (rm' :: F), ({[root]} ∪ ps2 ∖ {[rm']}). split; [done|]. split.
      { rewrite app_nil_r. apply (tree_taller usable p'). done. }
      split; [pages|]. split.
      { replace (X ∖ (({[root]} ∪ (∅ ∪ ps2) ∪ ∅) ∖ ({[root]} ∪ ps2 ∖ {[rm']}))) with (X ∖ {[rm']}); [done|].
        apply set_eq. intros m. destruct (decide (m = rm')) as [->|]; set_solver. }
      split; [by eapply same_base_trans|]. intros m HmX Hmq. eapply same_content_trans; [by apply Hs0|]. apply Hs'; [done|..]; intros ->; pages.
    + destruct anc as [|a anc]; [inversion Hc0; subst; done|].
      destruct (world_free q cnt F X n Hwq ltac:(pages) ltac:(apply H2; pages)) as (q1 & E1 & Hw1 & Hb1 & Hs1). rewrite (M_bind_ok _ _ _ _ _ E1).
      pose proof (context_rows _ _ _ _ _ _ _ _ _ _ _ _ _ _ Hc0) as _.
      destruct (splice_child_spec q1 cnt (n :: F) (X ∖ {[n]}) hr root lo hi a anc (S h) n rm' mid nhi l0 r0 qs0 rs2 ps2) as (p' & E2 & Htr & Hw' & Hbase & Hs'); try done.
      * apply (frame_context usable q q1 (X ∖ {[n]})); [done|done|done|pages].
      * pages.
      * pages.
      * apply (tree_taller usable q1). apply (frame_tree usable q q1 (X ∖ {[n]})); [done|done|done|pages].
      * pages.
      * pages.
      * exists p', (n :: F), (ps2 ∪ qs0). split; [done|]. split; [done|]. split; [pages|]. split.
        { replace (X ∖ (({[n]} ∪ (∅ ∪ ps2) ∪ qs0) ∖ (ps2 ∪ qs0))) with (X ∖ {[n]}); [done|]. apply set_eq. intros m. destruct (decide (m = n)) as [->|]; set_solver. }
        split; [eapply same_base_trans; [done|by eapply same_base_trans]|]. intros m HmX Hmq. eapply same_content_trans; [by apply Hs0|].
        eapply same_content_trans; [apply Hs1; pages|]. apply Hs'; [pages|]. intros ->. inversion Hc0; subst; pages.
  - destruct (world_interior q cnt F X n (e :: entries') rm' Hwq ltac:(pages) He Hrm) as (p' & b & E1 & Hu1 & Hi1 & Hw1);
      [rewrite Ps0; unfold interior_bytes in *; lia|].
    assert (forall m, m ∈ X ∖ {[n]} -> same_content q p' m) as Hs1 by (eapply write_frame; [done|pages]).
    exists p', F, ({[n]} ∪ (ps1 ∪ ps2) ∪ qs0). split; [done|]. split.
    { assert (e :: entries' <> []) as Hne by done. eapply plug; [|econstructor; [done|exact Hne|done| |exact Hm| |done|done]|done].
      - apply (frame_context usable q p' (X ∖ {[n]})); [done|by eapply updated_base|done|pages].
      - apply (frame_branches usable q p' (X ∖ {[n]})); [done|by eapply updated_base|done|pages].
      - apply (frame_tree usable q p' (X ∖ {[n]})); [done|by eapply updated_base|done|pages]. }
    split; [done|]. split; [by replace (X ∖ (({[n]} ∪ (ps1 ∪ ps2) ∪ qs0) ∖ ({[n]} ∪ (ps1 ∪ ps2) ∪ qs0))) with X by set_solver|].
    split; [eapply same_base_trans; [done|by eapply updated_base]|]. intros m HmX Hmq. eapply same_content_trans; [by apply Hs0|]. apply Hs1. pages.
Qed.

(** ** The table *)

Context (Husable : 480 <= usable <= 65536).

Lemma world_subset (p : Pager OS) cnt F (X Y : gset Z) : world p cnt F X -> Y ⊆ X -> world p cnt F Y.
Proof. intros [Hs Hu] HY. split; [done|]. intros m Hm. apply Hu. by apply HY. Qed.

Lemma stored_overflow (p : Pager OS) r payload pages : row_payload usable p r payload pages -> cell_overflow usable r.2 = first_page pages.
Proof.
  intros (Hr & Hi & Hp & Hnd & Hch). rewrite Hr. destruct (leaf_cell_parts usable r.1 payload (first_page pages) Hi Hp) as [E _].
  unfold cell_overflow. rewrite E. pose proof (spilled_nil usable Husable payload) as Hsn.
  pose proof (local_size_bounds usable (len payload) Husable (len_nonneg payload)) as Hb.
  destruct (Z.ltb_spec (local_payload_size usable (len payload) false) (len payload)) as [Hlt|Hge].
  - unfold leaf_cell. destruct (spilled usable payload) as [|x sp] eqn:Es; [pose proof (proj1 Hsn eq_refl); lia|].
    set (a := encode_varint (len payload) ++ encode_varint (wrap 64 r.1) ++ local_part usable payload).
    replace (encode_varint (len payload) ++ encode_varint (wrap 64 r.1) ++ local_part usable payload ++ be_encode 4 (first_page pages))
      with (a ++ be_encode 4 (first_page pages)) by (unfold a; by rewrite <- !app_assoc).
    rewrite length_app, length_be_encode, Nat.add_sub, drop_app_length. apply be_roundtrip.
    pose proof (first_page_u32 _ _ _ Hch) as Hf. unfold is_u32 in Hf. lia.
  - rewrite (proj2 Hsn) in Hch by lia. rewrite chunks_eq in Hch by lia. by destruct pages.
Qed.

(** Taking one row out of the stored rows. *)
Lemma stored_remove (p : Pager OS) rs T ops rowid cell k :
  stored usable p rs T ops -> sorted_rows rs -> rs !! k = Some (rowid, cell) ->
  exists payload pages T' ops', row_payload usable p (rowid, cell) payload pages /\ (list_to_map T : gmap Z (list Z)) !! rowid = Some payload /\
    stored usable p (remove_row rowid rs) T' ops' /\ (list_to_map T' : gmap Z (list Z)) = delete rowid (list_to_map T) /\
    ops = list_to_set pages ∪ ops' /\ list_to_set pages ## ops'.
Proof.
  intros Hst Hso Hk. pose proof (take_drop_middle rs k _ Hk) as Hcut. rewrite <- Hcut in Hst, Hso |- *.
  apply stored_app in Hst as (T1 & T2 & ps1 & ps2 & H1 & H2 & -> & -> & Hd).
  inversion H2 as [|? payload pages ? T2' ps2' Hr Hs' Hd']; subst. cbn [fst] in *. apply sorted_app in Hso as (S1 & S2 & S12).
  inversion S2 as [|? ? Hgt S2']; subst. cbn [fst] in Hgt.
  assert (has_row rowid (take k rs) = false) as Hn1.
  { apply has_row_false. eapply Forall_impl; [exact S12|]. intros x Hx. apply Forall_cons_1 in Hx as [Hx _]. cbn in Hx. lia. }
  assert (has_row rowid (drop (S k) rs) = false) as Hn2 by (apply has_row_false; eapply Forall_impl; [exact Hgt|]; cbn; lia).
  pose proof (proj2 (stored_no_row _ _ _ _ _ rowid H1) Hn1) as L1. pose proof (proj2 (stored_no_row _ _ _ _ _ rowid Hs') Hn2) as L2.
  exists payload, pages, (T1 ++ T2'), (ps1 ∪ ps2'). split; [done|]. split; [|split; [|split; [|split; set_solver]]].
  - rewrite list_to_map_app. rewrite lookup_union_r by done. cbn [list_to_map foldr]. apply lookup_insert_eq.
  - change ((rowid, cell) :: drop (S k) rs) with ([(rowid, cell)] ++ drop (S k) rs).
    rewrite (remove_row_app rowid (take k rs) [(rowid, cell)] (drop (S k) rs)) by (by apply has_row_false).
    unfold remove_row. rewrite filter_cons_False by (cbn; tauto). cbn [filter list_filter app].
    apply stored_app. exists T1, T2', ps1, ps2'. split; [done|]. split; [done|]. split; [done|]. split; [done|set_solver].
  - rewrite !list_to_map_app. cbn [list_to_map foldr]. rewrite delete_union, delete_insert_eq, (delete_id (list_to_map T2')), (delete_id (list_to_map T1)) by done. done.
Qed.

(** What [delete_row] does with the leaf it finds. *)
Definition delete_from (n root : Z) (anc : list Z) (num_cells pos overflow : Z) : M (Pager OS) BtreeError unit :=
  let free := (p ← get_st; free_overflow_chain (page_bound p) overflow overflow []) in
  if (1 <? num_cells) || match rev anc with [] => true | _ => false end then
    _ ← edit_page n (fun buf => splice_delete_cell buf (content_offset n) n usable pos true);
    free
  else
    _ ← edit_page n (fun buf => write_leaf_page buf (content_offset n) n []);
    _ ← deallocate_page_b n;
    _ ← free;
    collapse_into_ancestors usable root anc n.

(** Up to the leaf. *)
Lemma delete_row_reaches header (p : Pager OS) hr root rs tps rowid :
  usable_page_size header = usable -> coherent p -> tree usable p hr root MIN_KEY MAX_KEY rs tps -> Z.of_nat hr < MAX_PAGES_VISITED -> is_i64 rowid ->
  exists anc h n flo fhi l ls r qs q, context usable p hr root MIN_KEY MAX_KEY anc h n flo fhi l r qs /\ is_u32 n /\ leaf_at usable p n flo fhi ls /\
    (n ∉ qs) /\ flo < rowid <= fhi /\ rs = l ++ ls ++ r /\ tps = {[n]} ∪ qs /\ updated p q ∅ /\
    delete_row header root rowid p =
      match index_of rowid ls, (k ← index_of rowid ls; ls !! k) with
      | Some k, Some r => delete_from n root anc (len ls) (Z.of_nat k) (cell_overflow usable r.2) q
      | _, _ => (Err (BtRowidNotFound rowid), q)
      end.
Proof.
  intros Hhd Hco Ht Hh Hr.
  destruct (locate usable p hr root MIN_KEY MAX_KEY rs tps rowid Ht Hco) as (anc & h & n & flo & fhi & l & ls & r & qs & Hctx & Hn & Hla & Hnq & Hrow & Hrs & Htps);
    [unfold MIN_KEY, MAX_KEY; unfold is_i64 in Hr; lia|done|].
  destruct (find_leaf_at usable p hr root MIN_KEY MAX_KEY anc h n flo fhi l r qs rowid ls p Hctx Hrow Hn Hla Hh) as (q1 & E1 & Hq1);
    [apply updated_read; [done|by destruct p]|].
  pose proof Hla as (buf & cs & slots & blocks & Hbuf & Hlen & Hlp & Hpa & Hls & _).
  destruct (get_page_mut_b_spec n q1 buf (updated_coherent _ _ _ Hq1)) as (q2 & E2 & Hq2 & _); [by rewrite (updated_same _ _ n Hq1)|].
  exists anc, h, n, flo, fhi, l, ls, r, qs, q2. do 7 (split; [done|]). split; [by eapply updated_step|].
  unfold delete_row. cbv zeta. rewrite Hhd, (M_bind_ok _ _ _ _ _ E1). cbv beta iota. rewrite (M_bind_ok _ _ _ _ _ E2).
  change (page1_header_start n) with (content_offset n). rewrite (find_spec _ _ _ _ _ _ _ (lp_slots _ _ _ _ _ Hlp) Hpa), <- Hls.
  erewrite M_bind_ok by reflexivity. destruct (index_of rowid ls) as [k|] eqn:Ek; [|done]. cbn [mbind option_bind].
  assert (len ls = len slots) as Hll by (rewrite Hls; apply len_rows). rewrite Hls at 1. unfold rows at 1. rewrite list_lookup_fmap.
  destruct (slots !! k) as [[o c]|]; [|done]. cbn [fmap option_fmap option_map snd]. rewrite Hll, rev_involutive. done.
Qed.

(** The pages of a table on which a row's chain is replaced by nothing. *)
Lemma delete_in_place (p q : Pager OS) cnt F X hr root lo hi anc h n flo fhi l ls r qs rowid cell k pages cs :
  world p cnt F X -> updated p q ∅ -> context usable p hr root lo hi anc h n flo fhi l r qs -> is_u32 n -> leaf_at usable p n flo fhi ls -> n ∉ qs ->
  {[n]} ∪ qs ⊆ X -> pg_page_size p <= 32768 -> index_of rowid ls = Some k -> ls !! k = Some (rowid, cell) ->
  chain_at p pages cs -> NoDup pages -> list_to_set pages ⊆ X -> list_to_set pages ## {[n]} ∪ qs ->
  exists p' F', (_ ← edit_page n (fun buf => splice_delete_cell buf (content_offset n) n usable (Z.of_nat k) true);
      p ← get_st; free_overflow_chain (page_bound p) (first_page pages) (first_page pages) []) q = (Ok tt, p') /\
    tree usable p' hr root lo hi (l ++ remove_row rowid ls ++ r) ({[n]} ∪ qs) /\ world p' cnt F' (X ∖ list_to_set pages) /\ same_base p p' /\
    (forall m, m ∈ X -> m ∉ ({[n]} ∪ list_to_set pages : gset Z) -> same_content p p' m).
Proof.
  intros Hw Hq Hctx Hn32 Hla Hnq HX Hps Hk Hc Hch Hnd HpX Hdis. pose proof (world_read _ _ _ _ _ Hw Hq) as Hwq. assert (n ∈ X) as HnX by pages.
  assert (leaf_at usable q n flo fhi ls) as Hlaq by (eapply leaf_at_frame; [done|by eapply updated_size|by apply read_same]).
  destruct (delete_from_leaf q cnt F X n flo fhi ls rowid cell k Hwq HnX Hlaq) as (p1 & b & E1 & Hu1 & Hl1 & Hw1); [by rewrite (updated_size _ _ _ Hq)|done|done|].
  rewrite (M_bind_ok _ _ _ _ _ E1). pose proof (updated_step _ _ _ _ Hq Hu1) as Hu.
  assert (forall m, m ∈ X ∖ {[n]} -> same_content p p1 m) as Hs1 by (eapply write_frame; [done|pages]).
  assert (forall m, m ∈ pages -> m ∈ X ∖ {[n]}) as Hpp by (intros m Hm; apply (elem_of_list_to_set (C := gset Z)) in Hm; pages).
  destruct (free_overflow_spec p1 cnt F X pages cs (first_page pages) Hw1) as (p' & F' & E2 & Hw' & Hb' & Hs'); [|done|intros m Hm; specialize (Hpp m Hm); pages|].
  { eapply chain_frame; [done|]. intros m Hm. by apply Hs1, Hpp. }
  assert (forall m, m ∉ (list_to_set pages : gset Z) -> m ∉ pages) as Hnp by (intros m Hm Hin; by apply Hm, elem_of_list_to_set).
  exists p', F'. split; [done|]. split; [|split; [done|split; [eapply same_base_trans; [by eapply updated_base|done]|]]].
  - apply (frame_tree usable p1 p' (X ∖ list_to_set pages)); [|done|intros m Hm; apply Hs'; [pages|apply Hnp; pages]|pages].
    eapply plug; [|by apply tree_leaf|pages]. apply (frame_context usable p p1 (X ∖ {[n]})); [done|by eapply updated_base|done|pages].
  - intros m Hm Hmn. eapply same_content_trans; [apply Hs1; pages|]. apply Hs'; [done|apply Hnp; pages].
Qed.

(** The last row of a leaf below the root: the leaf leaves the tree. *)
Lemma delete_with_collapse (p q : Pager OS) cnt F X hr root lo hi n0 anc h n flo fhi l r qs pages cs :
  world p cnt F X -> updated p q ∅ -> context usable p hr root lo hi (n0 :: anc) h n flo fhi l r qs -> is_u32 n -> n ∉ qs ->
  {[n]} ∪ qs ⊆ X -> 1 ∉ {[n]} ∪ qs -> chain_at p pages cs -> NoDup pages -> list_to_set pages ⊆ X -> list_to_set pages ## {[n]} ∪ qs ->
  exists p' F' ps', (_ ← edit_page n (fun buf => write_leaf_page buf (content_offset n) n []); _ ← deallocate_page_b n;
      _ ← (p ← get_st; free_overflow_chain (page_bound p) (first_page pages) (first_page pages) []);
      collapse_into_ancestors usable root (n0 :: anc) n) q = (Ok tt, p') /\
    tree usable p' hr root lo hi (l ++ r) ps' /\ ps' ⊆ qs /\ world p' cnt F' ((X ∖ {[n]} ∖ list_to_set pages) ∖ (qs ∖ ps')) /\ same_base p p' /\
    (forall m, m ∈ X -> m ∉ {[n]} ∪ qs ∪ list_to_set pages -> same_content p p' m).
Proof.
  intros Hw Hq Hctx Hn32 Hnq HX H1 Hch Hnd HpX Hdis. pose proof (world_read _ _ _ _ _ Hw Hq) as Hwq. assert (n ∈ X) as HnX by pages.
  assert (2 <= n) as Hn2. { assert (1 <= n) by (apply (world_used _ _ _ _ n Hw HnX)). assert (n <> 1) by (intros ->; apply H1; set_solver). lia. }
  destruct (world_leaf usable q cnt F X n [] flo flo Hwq HnX) as (p1 & b & E1 & Hu1 & _ & Hw1); [constructor|constructor|constructor| |].
  { pose proof (content_offset_range n). pose proof (store_page_size _ _ _ (proj1 Hwq)). unfold leaf_bytes. change (len (@nil row)) with 0. change (total_len (map snd [])) with 0. lia. }
  change (cell_bytes []) with (@nil (list Z)) in E1. rewrite (M_bind_ok _ _ _ _ _ E1). pose proof (updated_step _ _ _ _ Hq Hu1) as Hu.
  destruct (world_free p1 cnt F X n Hw1 HnX Hn2) as (p2 & E2 & Hw2 & Hb2 & Hs2). rewrite (M_bind_ok _ _ _ _ _ E2).
  assert (forall m, m ∈ X ∖ {[n]} -> same_content p p2 m) as Hs.
  { intros m Hm. eapply same_content_trans; [eapply updated_content; [done|pages]|by apply Hs2]. }
  assert (same_base p p2) as Hbase by (eapply same_base_trans; [by eapply updated_base|done]).
  assert (forall m, m ∈ pages -> m ∈ X ∖ {[n]}) as Hpp by (intros m Hm; apply (elem_of_list_to_set (C := gset Z)) in Hm; pages).
  destruct (free_overflow_spec p2 cnt (n :: F) (X ∖ {[n]}) pages cs (first_page pages) Hw2) as (p3 & F3 & E3 & Hw3 & Hb3 & Hs3); [|done|done|].
  { eapply chain_frame; [done|]. intros m Hm. by apply Hs, Hpp. }
  rewrite (M_bind_ok _ _ _ _ _ E3).
  assert (forall m, m ∉ (list_to_set pages : gset Z) -> m ∉ pages) as Hnp by (intros m Hm Hin; by apply Hm, elem_of_list_to_set).
  assert (forall m, m ∈ X ∖ {[n]} ∖ list_to_set pages -> same_content p p3 m) as Hs13.
  { intros m Hm. eapply same_content_trans; [apply Hs; pages|]. apply Hs3; [pages|apply Hnp; pages]. }
  destruct (collapse_spec p3 cnt F3 (X ∖ {[n]} ∖ list_to_set pages) hr root lo hi n0 anc h n flo fhi l r qs Hw3) as (p' & F' & ps' & E4 & Ht & Hsub & Hw' & Hb' & Hs'); [|done|pages|pages|].
  { apply (frame_context usable p p3 (X ∖ {[n]} ∖ list_to_set pages)); [done|by eapply same_base_trans|done|pages]. }
  exists p', F', ps'. split; [done|]. split; [done|]. split; [done|]. split; [done|].
  split; [eapply same_base_trans; [done|by eapply same_base_trans]|]. intros m Hm Hmn. eapply same_content_trans; [apply Hs13; pages|]. apply Hs'; pages.
Qed.

Lemma delete_row_spec header (p : Pager OS) cnt F X h root m ps rowid payload :
  usable_page_size header = usable -> usable <= pg_page_size p <= 32768 -> world p cnt F X -> table usable p h root m ps -> ps ⊆ X -> 1 ∉ ps ->
  Z.of_nat h < MAX_PAGES_VISITED -> is_i64 rowid -> m !! rowid = Some payload ->
  exists p' F' ps', delete_row header root rowid p = (Ok tt, p') /\ table usable p' h root (delete rowid m) ps' /\ ps' ⊆ ps /\
    world p' cnt F' (X ∖ (ps ∖ ps')) /\ same_base p p' /\ (forall k, k ∈ X -> k ∉ ps -> same_content p p' k).
Proof.
  intros Hhd Hps Hw (rs & T & tps & ops & Ht & Hst & -> & -> & Hd) HX H1 Hh Hr Hm.
  pose proof (proj1 (tree_rows usable p) _ _ _ _ _ _ Ht) as (Hso & _).
  destruct (delete_row_reaches header p h root rs tps rowid Hhd (store_coherent _ _ _ (proj1 Hw)) Ht Hh Hr)
    as (anc & h' & n & flo & fhi & l & ls & r & qs & q & Hctx & Hn & Hla & Hnq & Hrow & Hrs & Htps & Hq & E).
  pose proof (context_rows _ _ _ _ _ _ _ _ _ _ _ _ _ _ Hctx) as (Hl & Hr' & _).
  assert (has_row rowid l = false) as Hnl by (apply has_row_false; eapply Forall_impl; [exact Hl|]; cbn; lia).
  assert (has_row rowid r = false) as Hnr by (apply has_row_false; eapply Forall_impl; [exact Hr'|]; cbn; lia).
  assert (has_row rowid ls = true) as Hin.
  { destruct (has_row rowid ls) eqn:El; [done|]. exfalso. enough ((list_to_map T : gmap Z (list Z)) !! rowid = None) by congruence.
    apply (proj2 (stored_no_row _ _ _ _ _ rowid Hst)). by rewrite Hrs, !has_row_app, Hnl, El, Hnr. }
  destruct (index_of_has rowid ls Hin) as (k & cell & Ek & Hk). rewrite E, Ek. cbn [mbind option_bind]. rewrite Hk. cbn [snd]. clear E.
  destruct (stored_remove p rs T ops rowid cell (length l + k)%nat Hst Hso) as (v & pages & T' & ops' & Hrp & Hv & Hst' & HmT & Hops & Hdp).
  { rewrite Hrs, lookup_app_r by lia. replace (length l + k - length l)%nat with k by lia. apply lookup_app_l_Some, Hk. }
  pose proof (stored_overflow p (rowid, cell) v pages Hrp) as Hov. cbn [snd] in Hov. rewrite Hov. pose proof Hrp as (_ & _ & _ & Hnd & Hch).
  rewrite Hrs, remove_row_app in Hst' by (by apply has_row_false). unfold delete_from.
  destruct ((1 <? len ls) || match rev anc with [] => true | _ => false end) eqn:Ebr.
  - destruct (delete_in_place p q cnt F X h root MIN_KEY MAX_KEY anc h' n flo fhi l ls r qs rowid cell k pages _ Hw Hq Hctx Hn Hla Hnq ltac:(pages) ltac:(lia) Ek Hk Hch Hnd ltac:(pages) ltac:(pages))
      as (p' & F' & E1 & Ht' & Hw' & Hb' & Hs'). cbv zeta. rewrite E1.
    exists p', F', (tps ∪ ops'). split; [done|]. split.
    { exists (l ++ remove_row rowid ls ++ r), T', tps, ops'. split; [by rewrite Htps|]. split; [|split; [done|split; [done|pages]]].
      eapply stored_frame; [done|]. intros x Hx. apply Hs'; pages. }
    split; [pages|]. split.
    { eapply world_subset; [exact Hw'|]. intros x [HxX Hx]%elem_of_difference. apply elem_of_difference. split; [done|]. intros Hxp. apply Hx.
      clear - Hxp Hd Hops Hdp. rewrite Hops in *. set_solver. }
    split; [done|].
    intros x Hx Hnx. apply Hs'; pages.
  - apply orb_false_iff in Ebr as [Elen%Z.ltb_ge Eanc]. destruct anc as [|n0 anc]; [done|].
    assert (remove_row rowid ls = []) as Hrem.
    { destruct ls as [|x [|y ls]]; [done| |rewrite !len_cons in Elen; pose proof (len_nonneg ls); lia].
      destruct k as [|k]; [|done]. injection Hk as ->. unfold remove_row. by rewrite filter_cons_False by (cbn; tauto). }
    destruct (delete_with_collapse p q cnt F X h root MIN_KEY MAX_KEY n0 anc h' n flo fhi l r qs pages _ Hw Hq Hctx Hn Hnq ltac:(pages) ltac:(pages) Hch Hnd ltac:(pages) ltac:(pages))
      as (p' & F' & ps' & E1 & Ht' & Hsub & Hw' & Hb' & Hs'). cbv zeta. rewrite E1.
    exists p', F', (ps' ∪ ops'). split; [done|]. split.
    { exists (l ++ r), T', ps', ops'. split; [done|]. rewrite Hrem in Hst'. split; [|split; [done|split; [done|pages]]].
      eapply stored_frame; [exact Hst'|]. intros x Hx. apply Hs'; pages. }
    split; [pages|]. split.
    { eapply world_subset; [exact Hw'|]. intros x [HxX Hx]%elem_of_difference. rewrite !elem_of_difference.
      clear - HxX Hx Hd Hops Hdp Htps Hnq Hsub. rewrite Hops, Htps in *. split; [split; [split; [done|]|]|]; intros Hxx; apply Hx; set_solver. }
    split; [done|].
    intros x Hx Hnx. apply Hs'; pages.
Qed.

(** A rowid that is not there. *)
Lemma delete_row_missing header (p : Pager OS) h root m ps rowid :
  usable_page_size header = usable -> coherent p -> table usable p h root m ps -> Z.of_nat h < MAX_PAGES_VISITED -> is_i64 rowid -> m !! rowid = None ->
  exists q, delete_row header root rowid p = (Err (BtRowidNotFound rowid), q) /\ updated p q ∅.
Proof.
  intros Hhd Hco (rs & T & tps & ops & Ht & Hst & -> & _) Hh Hr Hm.
  destruct (delete_row_reaches header p h root rs tps rowid Hhd Hco Ht Hh Hr) as (anc & h' & n & flo & fhi & l & ls & r & qs & q & _ & _ & _ & _ & _ & Hrs & _ & Hq & E).
  exists q. split; [|done]. rewrite E, index_of_none; [done|]. pose proof (proj1 (stored_no_row _ _ _ _ _ rowid Hst) Hm) as Hn.
  rewrite Hrs, !has_row_app, !orb_false_iff in Hn. tauto.
Qed.

End Delete.
