(* ===== verification/Cursor.v ===== *)
(** * The table cursor ([src/btree.rs], [TableCursor])

    Depth-first traversal of a table b-tree in both directions with an explicit
    stack of pages, point lookup by binary search, and lazy reassembly of the
    current row's payload. *)

From stdpp Require Import prelude list numbers gmap.
From Stdlib Require Import ZArith Lia.
From S2P Require Import Prelude Varint Text Record Header Freelist Vfs Journal Wal Lock Shm Checkpoint PageCache Pager Commit Transactions Allocator BtreePage LeafPage LeafSearch Btree Tree TreeSplit Overflow Table.

Local Open Scope Z_scope.

(** ** State *)

Record Frame := MkFrame {
  fr_page_num : Z; is_interior : bool; fr_num_cells : Z; cell_ptr_base : Z; next_cell : Z;
  fr_rightmost : Z; rightmost_done : bool; fr_page : list Z }.

Record CurrentCell := MkCurrent { cc_page : list Z; cc_page_num : Z; tail_start : Z; cc_payload_len : Z }.

(** [stack] has the top of the source's vector first; the page source is the
    pager, next to the cursor in the state. *)
Record TableCursor := MkCursor {
  tc_usable_size : Z; tc_root_page : Z; stack : list Frame; pages_visited : Z; positioned_reverse : bool;
  current : option CurrentCell }.

Definition set_next_cell (f : Frame) (k : Z) : Frame :=
  MkFrame (fr_page_num f) (is_interior f) (fr_num_cells f) (cell_ptr_base f) k (fr_rightmost f) (rightmost_done f) (fr_page f).
Definition set_rightmost_done (f : Frame) : Frame :=
  MkFrame (fr_page_num f) (is_interior f) (fr_num_cells f) (cell_ptr_base f) (next_cell f) (fr_rightmost f) true (fr_page f).
Definition set_stack (c : TableCursor) (s : list Frame) : TableCursor :=
  MkCursor (tc_usable_size c) (tc_root_page c) s (pages_visited c) (positioned_reverse c) (current c).
Definition set_visited (c : TableCursor) (n : Z) : TableCursor :=
  MkCursor (tc_usable_size c) (tc_root_page c) (stack c) n (positioned_reverse c) (current c).
Definition set_current (c : TableCursor) (x : option CurrentCell) : TableCursor :=
  MkCursor (tc_usable_size c) (tc_root_page c) (stack c) (pages_visited c) (positioned_reverse c) x.

Definition new_cursor (header : DatabaseHeader) (root_page : Z) : TableCursor :=
  MkCursor (usable_page_size header) root_page [] 0 false None.

Definition require_interior_header (page : list Z) (header_start page_num : Z) : result BtreeError unit :=
  if len page <? sat_add header_start 12 then Err (BtPageTooShort page_num (len page)) else Ok tt.

Section Cursor.
Context `{host : Host} {OS : Type} `{Fcntl OS}.

Abbreviation Cur := (M (TableCursor * Pager OS) BtreeError).
Definition self : Cur TableCursor := fun s => (Ok s.1, s).
Definition update (f : TableCursor -> TableCursor) : Cur unit := fun s => (Ok tt, (f s.1, s.2)).
Definition from_source {A} (m : M (Pager OS) BtreeError A) : Cur A := fun s => let '(r, p) := m s.2 in (r, (s.1, p)).

(** ** Traversal *)

Definition cursor_read_page (page_num : Z) : Cur (list Z) :=
  _ ← update (fun c => set_visited c (sat_add (pages_visited c) 1));
  c ← self;
  if MAX_PAGES_VISITED <? pages_visited c then throw (BtTraversalTooLong MAX_PAGES_VISITED)
  else from_source (read_page_b page_num).

Definition push_page (page_num : Z) (reverse : bool) : Cur unit :=
  page ← cursor_read_page page_num;
  let header_start := page1_header_start page_num in
  page_type ← lift (read_page_type page header_start page_num);
  interior ← (if page_type =? LEAF_TABLE then mret false
              else if page_type =? INTERIOR_TABLE then mret true
              else throw (BtUnexpectedPageType page_num page_type));
  _ ← (if interior : bool then lift (require_interior_header page header_start page_num) else mret tt);
  num_cells ← lift (read_num_cells page header_start page_num);
  br ← (if interior : bool then
          r ← lift (read_u32 page (sat_add header_start 8) page_num); mret (sat_add header_start 12, r)
        else mret (sat_add header_start 8, 0));
  update (fun c => set_stack c
    (MkFrame page_num interior num_cells (fst br) (if reverse then num_cells else 0) (snd br) (negb interior) page :: stack c)).

Definition read_interior_child (frame : Frame) (cell_index : Z) : result BtreeError Z :=
  cell_start ← read_cell_pointer (fr_page frame) (cell_ptr_offset (cell_ptr_base frame) cell_index) (fr_page_num frame) cell_index;
  read_u32 (fr_page frame) cell_start (fr_page_num frame).

Definition decode_leaf_cell (frame : Frame) (cell_index : Z) : Cur Z :=
  cell_start ← lift (read_cell_pointer (fr_page frame) (cell_ptr_offset (cell_ptr_base frame) cell_index) (fr_page_num frame) cell_index);
  head ← lift (decode_cell_head (fr_page frame) cell_start (fr_page_num frame));
  let '(rowid, payload_len, tail) := head in
  _ ← update (fun c => set_current c (Some (MkCurrent (fr_page frame) (fr_page_num frame) tail payload_len)));
  mret rowid.

(** A round pops a page or pushes one it has read, which [pages_visited]
    limits: [budget] rounds suffice. *)
Definition budget (c : TableCursor) : nat := S (length (stack c) + 2 * Z.to_nat (MAX_PAGES_VISITED - pages_visited c)).

Fixpoint advance_loop (fuel : nat) : Cur (option Z) :=
  match fuel with
  | O => throw BtDiverged
  | S fuel =>
    c ← self;
    match stack c with
    | [] => _ ← update (fun c => set_current c None); mret None
    | f :: below =>
      if negb (is_interior f) then
        if fr_num_cells f <=? next_cell f then
          _ ← update (fun c => set_stack c below); advance_loop fuel
        else
          let f' := set_next_cell f (sat_add (next_cell f) 1) in
          _ ← update (fun c => set_stack c (f' :: below));
          rowid ← decode_leaf_cell f' (next_cell f); mret (Some rowid)
      else if next_cell f <? fr_num_cells f then
        let f' := set_next_cell f (sat_add (next_cell f) 1) in
        _ ← update (fun c => set_stack c (f' :: below));
        child ← lift (read_interior_child f' (next_cell f));
        _ ← push_page child false; advance_loop fuel
      else if negb (rightmost_done f) then
        _ ← update (fun c => set_stack c (set_rightmost_done f :: below));
        _ ← push_page (fr_rightmost f) false; advance_loop fuel
      else
        _ ← update (fun c => set_stack c below); advance_loop fuel
    end
  end.

Definition advance : Cur (option Z) := c ← self; advance_loop (budget c).

Fixpoint advance_rev_loop (fuel : nat) : Cur (option Z) :=
  match fuel with
  | O => throw BtDiverged
  | S fuel =>
    c ← self;
    match stack c with
    | [] => _ ← update (fun c => set_current c None); mret None
    | f :: below =>
      if negb (is_interior f) then
        if next_cell f =? 0 then
          _ ← update (fun c => set_stack c below); advance_rev_loop fuel
        else
          let idx := sat_sub (next_cell f) 1 in
          let f' := set_next_cell f idx in
          _ ← update (fun c => set_stack c (f' :: below));
          rowid ← decode_leaf_cell f' idx; mret (Some rowid)
      else if negb (rightmost_done f) then
        _ ← update (fun c => set_stack c (set_rightmost_done f :: below));
        _ ← push_page (fr_rightmost f) true; advance_rev_loop fuel
      else if 0 <? next_cell f then
        let idx := sat_sub (next_cell f) 1 in
        let f' := set_next_cell f idx in
        _ ← update (fun c => set_stack c (f' :: below));
        child ← lift (read_interior_child f' idx);
        _ ← push_page child true; advance_rev_loop fuel
      else
        _ ← update (fun c => set_stack c below); advance_rev_loop fuel
    end
  end.

Definition advance_rev : Cur (option Z) := c ← self; advance_rev_loop (budget c).

Definition rewind (reverse : bool) (c : TableCursor) : TableCursor :=
  MkCursor (tc_usable_size c) (tc_root_page c) [] 0 reverse (current c).

Definition first : Cur (option Z) :=
  _ ← update (rewind false); c ← self; _ ← push_page (tc_root_page c) false; advance.

Definition next : Cur (option Z) := advance.

Definition last : Cur (option Z) :=
  _ ← update (rewind true); c ← self; _ ← push_page (tc_root_page c) true; advance_rev.

Definition prev : Cur (option Z) :=
  c ← self; if negb (positioned_reverse c) then throw (BtCursorNotPositioned (lit "TableCursor::prev()") (lit "TableCursor::last()")) else advance_rev.

Definition current_payload : Cur (list Z) :=
  c ← self;
  cur ← lift (ok_or (current c) (BtCursorNotPositioned (lit "TableCursor::current_payload()")
    (lit "first()/next()/last()/prev()/seek() returning Some(rowid)")));
  from_source (reassemble_payload (tc_usable_size c) (cc_page_num cur) (cc_page cur) (tail_start cur) (cc_payload_len cur) false).

(** [first_row], [next_row], [last_row], [prev_row], [seek_row]. *)
Definition with_payload (move : Cur (option Z)) : Cur (option (Z * list Z)) :=
  r ← move;
  match r with
  | None => mret None
  | Some rowid => payload ← current_payload; mret (Some (rowid, payload))
  end.

Definition first_row : Cur (option (Z * list Z)) := with_payload first.
Definition next_row : Cur (option (Z * list Z)) := with_payload next.
Definition last_row : Cur (option (Z * list Z)) := with_payload last.
Definition prev_row : Cur (option (Z * list Z)) := with_payload prev.

(** ** Point lookup *)

(** The binary search in a leaf; [fuel] is at least [hi - lo]. *)
Fixpoint seek_leaf (fuel : nat) (lo hi : Z) (page : list Z) (page_num base target : Z) : result BtreeError (option (Z * Z * Z)) :=
  match fuel with
  | O => Ok None
  | S fuel =>
    if negb (lo <? hi) then Ok None else
    let mid := sat_add lo (sat_sub hi lo / 2) in
    cell_start ← read_cell_pointer page (cell_ptr_offset base mid) page_num mid;
    '(rowid, payload_len, tail) ← decode_cell_head page cell_start page_num;
    match Z.compare rowid target with
    | Eq => Ok (Some (rowid, payload_len, tail))
    | Lt => seek_leaf fuel (sat_add mid 1) hi page page_num base target
    | Gt => seek_leaf fuel lo mid page page_num base target
    end
  end.

(** The binary search in an interior page for the child to descend into. *)
Fixpoint seek_interior (fuel : nat) (lo hi next_page : Z) (page : list Z) (page_num base target : Z) : result BtreeError Z :=
  match fuel with
  | O => Ok next_page
  | S fuel =>
    if negb (lo <? hi) then Ok next_page else
    let mid := sat_add lo (sat_sub hi lo / 2) in
    cell_start ← read_cell_pointer page (cell_ptr_offset base mid) page_num mid;
    key_bytes ← ok_or (get_from page (sat_add cell_start 4)) (BtInvalidCellPointer page_num mid);
    '(key, _) ← map_err (BtInvalidCellVarint page_num) (decode_varint key_bytes);
    if target <=? as_i64 key then
      child ← read_u32 page cell_start page_num;
      seek_interior fuel lo mid child page page_num base target
    else seek_interior fuel (sat_add mid 1) hi next_page page page_num base target
  end.

Fixpoint seek_loop (fuel : nat) (page_num target : Z) : Cur (option Z) :=
  match fuel with
  | O => throw (BtTraversalTooLong MAX_PAGES_VISITED)
  | S fuel =>
    page ← from_source (read_page_b page_num);
    let header_start := page1_header_start page_num in
    page_type ← lift (read_page_type page header_start page_num);
    num_cells ← lift (read_num_cells page header_start page_num);
    if page_type =? LEAF_TABLE then
      found ← lift (seek_leaf (Z.to_nat num_cells) 0 num_cells page page_num (sat_add header_start 8) target);
      match found with
      | Some (rowid, payload_len, tail) =>
        _ ← update (fun c => set_current c (Some (MkCurrent page page_num tail payload_len)));
        mret (Some rowid)
      | None => mret None
      end
    else if page_type =? INTERIOR_TABLE then
      _ ← lift (require_interior_header page header_start page_num);
      rightmost ← lift (read_u32 page (sat_add header_start 8) page_num);
      next_page ← lift (seek_interior (Z.to_nat num_cells) 0 num_cells rightmost page page_num (sat_add header_start 12) target);
      seek_loop fuel next_page target
    else throw (BtUnexpectedPageType page_num page_type)
  end.

Definition seek (target : Z) : Cur (option Z) :=
  _ ← update (fun c => set_current c None);
  c ← self;
  seek_loop (Z.to_nat MAX_PAGES_VISITED) (tc_root_page c) target.

Definition seek_row (target : Z) : Cur (option (Z * list Z)) := with_payload (seek target).

End Cursor.
