(* ===== verification/CursorScan.v ===== *)
(** * What the table cursor returns

    On a table the cursor yields every row once, in rowid order forward and in
    the opposite order backward, with the payload stored for it; a point lookup
    finds exactly the rowids of the table. *)

From stdpp Require Import prelude list numbers gmap.
From Stdlib Require Import ZArith Lia.
From S2P Require Import Prelude Varint Text Record Header Freelist Vfs Journal Wal Lock Shm Checkpoint PageCache Pager Commit Transactions Allocator BtreePage LeafPage LeafSearch Btree Tree TreeSplit Overflow Table Cursor.

Local Open Scope Z_scope.

(** ** Cells of a page *)

(** The cell of row [i] of a leaf. *)
Lemma leaf_cell_at usable buf hs cs slots i r pn :
  page_slots buf hs 8 cs slots -> parsed usable slots -> rows usable slots !! i = Some r ->
  exists o plen tail, read_cell_pointer buf (cell_ptr_offset (sat_add hs 8) (Z.of_nat i)) pn (Z.of_nat i) = Ok o /\
    decode_cell_head buf o pn = Ok (r.1, plen, tail) /\ 0 <= o /\ get_range buf o (o + len r.2) = Some r.2 /\ parse_cell usable r.2 = Some r.1.
Proof.
  intros [Hhs _ Hlen Hroom _ _ Hptr Hcell] Hp Hr. unfold rows in Hr. rewrite list_lookup_fmap in Hr.
  destruct (slots !! i) as [[o c]|] eqn:Hs; [|done]. injection Hr as <-. cbn [fst snd].
  destruct (proj1 (Forall_lookup _ _) Hp _ _ Hs) as [key Hk]. cbn [snd] in Hk. rewrite Hk. cbn [default].
  destruct (Hcell _ _ _ Hs) as (Hc1 & Hc2 & Hc3 & Hg). pose proof (lookup_lt_Some _ _ _ Hs).
  assert (2 * Z.of_nat i <= 2 * len slots) by (unfold len; lia).
  destruct (cell_at buf o c usable key pn ltac:(lia) Hg Hk ltac:(lia)) as (plen & tail & E & _).
  exists o, plen, tail. rewrite sat_add_small by (unfold U64_MAX; lia). rewrite cell_ptr_offset_eq by lia.
  split; [apply read_cell_pointer_eq; [lia|lia|by eapply Hptr]|]. split; [done|]. split; [lia|done].
Qed.

(** Entry [i] of an interior page. *)
Lemma interior_entry_at buf hs entries rightmost i child key pn :
  interior_layout buf hs entries rightmost -> entries !! i = Some (child, key) ->
  exists o rest v n, read_cell_pointer buf (cell_ptr_offset (sat_add hs 12) (Z.of_nat i)) pn (Z.of_nat i) = Ok o /\
    read_u32 buf o pn = Ok child /\ get_from buf (sat_add o 4) = Some rest /\ decode_varint rest = Ok (v, n) /\ as_i64 v = key.
Proof.
  intros (_ & He & _ & _ & _ & cs & slots & [Hhs _ Hmax Hroom _ _ Hptr Hcell] & Hs) Hei.
  assert (length slots = length entries) as Hl by (apply (f_equal length) in Hs; unfold interior_cells in Hs; by rewrite !length_map in Hs).
  pose proof (lookup_lt_Some _ _ _ Hei). destruct (lookup_lt_is_Some_2 slots i ltac:(lia)) as [[o c] Hsi].
  assert (c = build_interior_cell child key) as ->.
  { pose proof (map_lookup snd _ _ _ Hsi) as H1. pose proof (map_lookup (fun e => build_interior_cell e.1 e.2) _ _ _ Hei) as H2.
    unfold interior_cells in Hs. rewrite Hs, H2 in H1. by injection H1 as <-. }
  destruct (proj1 (Forall_lookup _ _) He _ _ Hei) as [Hc Hk]. cbn [fst snd] in Hc, Hk.
  assert (2 * Z.of_nat i <= 2 * len slots) by (unfold len; lia). destruct (Hcell _ _ _ Hsi) as (Hc1 & Hc2 & Hc3 & Hr).
  destruct (interior_cell_at buf o child key pn ltac:(lia) Hr Hc Hk Hmax) as (rest & E1 & E2 & E3).
  destruct (decode_varint rest) as [[v n]|] eqn:Ed; [|done]. injection E3 as E3. exists o, rest, v, n. rewrite sat_add_small by (unfold U64_MAX; lia). rewrite cell_ptr_offset_eq by lia.
  split; [apply read_cell_pointer_eq; [lia|lia|by eapply Hptr]|]. split; [done|]. split; [done|]. done.
Qed.

(** ** What is left to visit *)

Section Scan.
Context `{host : Host} {OS : Type} `{Fcntl OS}.
Context (usable : Z).

Definition todo {A} (reverse : bool) (k : nat) (l : list A) : list A := if reverse then take k l else drop k l.
Definition turn {A} (reverse : bool) (l : list A) : list A := if reverse then rev l else l.

Definition leaf_frame (p : Pager OS) (f : Frame) (rs : list row) : Prop :=
  is_interior f = false /\ exists cs slots blocks, leaf_page (fr_page f) (content_offset (fr_page_num f)) cs slots blocks /\
    parsed usable slots /\ rs = rows usable slots /\ fr_num_cells f = len rs /\ cell_ptr_base f = sat_add (content_offset (fr_page_num f)) 8.

Definition interior_frame (p : Pager OS) (f : Frame) (entries : list (Z * Z)) (rightmost : Z) : Prop :=
  is_interior f = true /\ interior_layout (fr_page f) (content_offset (fr_page_num f)) entries rightmost /\
  fr_num_cells f = len entries /\ cell_ptr_base f = sat_add (content_offset (fr_page_num f)) 12 /\ fr_rightmost f = rightmost.

(** The rows a stack still yields, and how many pages that reads. *)
Inductive pending (p : Pager OS) (reverse : bool) : list Frame -> list row -> nat -> Prop :=
| pending_nil : pending p reverse [] [] 0
| pending_leaf f below rs k rest n :
    leaf_frame p f rs -> next_cell f = Z.of_nat k -> (k <= length rs)%nat -> pending p reverse below rest n ->
    pending p reverse (f :: below) (turn reverse (todo reverse k rs) ++ rest) n
| pending_interior f below entries rightmost k h lo mid rs1 ps1 rs2 ps2 rest n :
    interior_frame p f entries rightmost -> next_cell f = Z.of_nat k -> (k <= length entries)%nat ->
    branches usable p h (todo reverse k entries) lo mid rs1 ps1 ->
    (if rightmost_done f then rs2 = [] /\ ps2 = ∅ else exists lo hi, tree usable p h rightmost lo hi rs2 ps2) ->
    pending p reverse below rest n ->
    pending p reverse (f :: below) (turn reverse (rs1 ++ rs2) ++ rest) (base.size ps1 + base.size ps2 + n).

(** The cell the cursor stands on. *)
Definition stands_on (cc : CurrentCell) (r : row) : Prop :=
  exists o, decode_cell_head (cc_page cc) o (cc_page_num cc) = Ok (r.1, cc_payload_len cc, tail_start cc) /\ 0 <= o /\
    get_range (cc_page cc) o (o + len r.2) = Some r.2 /\ len (cc_page cc) <= 65536.

Lemma decode_leaf_cell_spec (p q : Pager OS) c f rs i r :
  leaf_frame p f rs -> rs !! i = Some r ->
  exists cc, decode_leaf_cell f (Z.of_nat i) (c, q) = (Ok r.1, (set_current c (Some cc), q)) /\ stands_on cc r.
Proof.
  intros (_ & cs & slots & blocks & Hl & Hp & -> & _ & Hbase) Hr. pose proof (lp_slots _ _ _ _ _ Hl) as Hps.
  destruct (leaf_cell_at usable _ _ _ _ i r (fr_page_num f) Hps Hp Hr) as (o & plen & tail & E1 & E2 & H0 & Hg & _).
  exists (MkCurrent (fr_page f) (fr_page_num f) tail plen). unfold decode_leaf_cell. rewrite Hbase, E1. erewrite M_bind_ok by reflexivity.
  rewrite E2. erewrite M_bind_ok by reflexivity. split; [done|]. exists o. cbn. split; [done|]. split; [done|]. split; [done|]. apply Hps.
Qed.

Lemma read_interior_child_spec (p : Pager OS) f entries rightmost i child key :
  interior_frame p f entries rightmost -> entries !! i = Some (child, key) -> read_interior_child f (Z.of_nat i) = Ok child.
Proof.
  intros (_ & Hil & _ & Hbase & _) He. destruct (interior_entry_at _ _ _ _ i child key (fr_page_num f) Hil He) as (o & rest & v & n & E1 & E2 & _).
  unfold read_interior_child. rewrite Hbase, E1. cbn [mbind result_bind]. done.
Qed.

Lemma cursor_read_page_spec (p q : Pager OS) c n buf :
  updated p q ∅ -> is_u32 n -> logical p n = Ok buf -> pages_visited c + 1 <= MAX_PAGES_VISITED ->
  exists q', cursor_read_page n (c, q) = (Ok buf, (set_visited c (pages_visited c + 1), q')) /\ updated p q' ∅.
Proof.
  intros Hq Hn Hb Hv. pose proof Hq as (_ & Hqc & _).
  destruct (read_page_b_spec n q buf Hqc Hn) as (q' & E & Hq'); [by rewrite (updated_same _ _ n Hq)|].
  exists q'. split; [|by eapply updated_step]. unfold cursor_read_page. erewrite M_bind_ok by reflexivity. erewrite M_bind_ok by reflexivity.
  cbn [fst snd set_visited pages_visited]. rewrite sat_add_small by (unfold U64_MAX, MAX_PAGES_VISITED in *; lia).
  rewrite (proj2 (Z.ltb_ge _ _)) by lia. unfold from_source. cbn [fst snd]. by rewrite E.
Qed.

Lemma todo_start {A} reverse (l : list A) : todo reverse (if reverse : bool then length l else 0%nat) l = l.
Proof. destruct reverse; cbn; [by apply take_ge|done]. Qed.

Lemma start_index reverse (n : nat) : (if reverse : bool then Z.of_nat n else 0) = Z.of_nat (if reverse then n else 0%nat).
Proof. by destruct reverse. Qed.

(** Reading a subtree's root and pushing its frame. *)
Lemma push_page_spec (p q : Pager OS) c reverse h n lo hi rs ps rest k :
  tree usable p h n lo hi rs ps -> updated p q ∅ -> pending p reverse (stack c) rest k ->
  pages_visited c + 1 <= MAX_PAGES_VISITED ->
  exists f q', push_page n reverse (c, q) = (Ok tt, (set_stack (set_visited c (pages_visited c + 1)) (f :: stack c), q')) /\ updated p q' ∅ /\
    (1 <= base.size ps)%nat /\ pending p reverse (f :: stack c) (turn reverse rs ++ rest) (base.size ps - 1 + k)%nat.
Proof.
  intros Ht Hq Hpe Hv. unfold push_page.
  destruct Ht as [h n lo hi rs Hn Hl|h n entries rightmost lo mid hi rs1 ps1 rs2 ps2 Hn Hes Hi Hb Hm Ht D1 D2].
  - pose proof Hl as (buf & cs & slots & blocks & Hbuf & Hlen & Hlp & Hp & Hrs & Hs & Hr).
    destruct (cursor_read_page_spec p q c n buf Hq Hn Hbuf Hv) as (q' & E & Hq'). pose proof (lp_slots _ _ _ _ _ Hlp) as Hps.
    assert (len rs = len slots) as Hls by (rewrite Hrs; apply len_rows).
    exists (MkFrame n false (len rs) (sat_add (content_offset n) 8) (if reverse then len rs else 0) 0 true buf), q'.
    rewrite (M_bind_ok _ _ _ _ _ E). change (page1_header_start n) with (content_offset n). rewrite (leaf_type _ _ _ _ _ n Hlp).
    erewrite M_bind_ok by reflexivity. rewrite Z.eqb_refl. erewrite M_bind_ok by reflexivity. erewrite M_bind_ok by reflexivity.
    rewrite (read_num_cells_eq _ _ (len slots)) by (first [apply content_offset_range|by apply Hps]).
    erewrite M_bind_ok by reflexivity. erewrite M_bind_ok by reflexivity. rewrite <- Hls.
    split; [done|]. split; [done|]. rewrite size_singleton. split; [lia|]. cbn [Nat.sub Nat.add].
    replace (turn reverse rs) with (turn reverse (todo reverse (if reverse then length rs else 0%nat) rs)) by (by rewrite todo_start).
    apply pending_leaf; [|by rewrite <- start_index|destruct reverse; lia|done].
    split; [done|]. exists cs, slots, blocks. done.
  - pose proof Hi as (buf & Hbuf & Hlen & Hil). destruct (cursor_read_page_spec p q c n buf Hq Hn Hbuf Hv) as (q' & E & Hq').
    pose proof Hil as (_ & _ & _ & Hfit & Hrm & cs & slots & Hps & Hsnd). pose proof (content_offset_range n).
    assert (len slots = len entries) as Hls by (apply (f_equal len) in Hsnd; unfold len, interior_cells in *; by rewrite !length_map in Hsnd).
    pose proof (total_len_nonneg (interior_cells entries)). pose proof (len_nonneg entries).
    exists (MkFrame n true (len entries) (sat_add (content_offset n) 12) (if reverse then len entries else 0) rightmost false buf), q'.
    rewrite (M_bind_ok _ _ _ _ _ E). change (page1_header_start n) with (content_offset n). rewrite (proj1 (interior_read _ _ n _ _ Hil)).
    erewrite M_bind_ok by reflexivity. change (INTERIOR_TABLE =? LEAF_TABLE) with false. cbv iota. rewrite Z.eqb_refl. erewrite M_bind_ok by reflexivity.
    unfold require_interior_header. rewrite (sat_add_small _ 12) by (unfold U64_MAX; lia). rewrite (proj2 (Z.ltb_ge _ _)) by lia.
    erewrite M_bind_ok by reflexivity. rewrite (read_num_cells_eq _ _ (len slots)) by (first [lia|by apply Hps]). erewrite M_bind_ok by reflexivity.
    rewrite (sat_add_small _ 8) by (unfold U64_MAX; lia). rewrite (read_u32_eq _ _ rightmost) by (first [lia|done]). erewrite M_bind_ok by reflexivity.
    rewrite Hls. split; [done|]. split; [done|].
    rewrite (size_union {[n]} (ps1 ∪ ps2)) by set_solver. rewrite size_union by done. rewrite size_singleton. split; [lia|].
    replace (1 + (base.size ps1 + base.size ps2) - 1 + k)%nat with (base.size ps1 + base.size ps2 + k)%nat by lia.
    apply (pending_interior p reverse _ _ entries rightmost (if reverse then length entries else 0%nat) h lo mid rs1 ps1 rs2 ps2); cbn.
    + split; [done|]. split; [done|]. cbn [fr_page_num]. rewrite sat_add_small by (unfold U64_MAX; lia). done.
    + by rewrite <- start_index.
    + destruct reverse; lia.
    + by rewrite todo_start.
    + by exists mid, hi.
    + done.
Qed.

(** ** One step *)

Definition same_cursor (c c' : TableCursor) : Prop :=
  tc_usable_size c' = tc_usable_size c /\ tc_root_page c' = tc_root_page c /\ positioned_reverse c' = positioned_reverse c.

(** The outcome of a step with [rs] left to yield and at most [b] pages read in
    the whole traversal. *)
Definition delivers (p : Pager OS) (reverse : bool) (c : TableCursor) (b : Z) (rs : list row) (out : result BtreeError (option Z) * (TableCursor * Pager OS)) : Prop :=
  match rs with
  | [] => exists c' q', out = (Ok None, (c', q')) /\ updated p q' ∅ /\ stack c' = [] /\ current c' = None /\ same_cursor c c'
  | r :: rs => exists c' q' cc n, out = (Ok (Some r.1), (c', q')) /\ updated p q' ∅ /\ pending p reverse (stack c') rs n /\
      pages_visited c' + Z.of_nat n <= b /\ current c' = Some cc /\ stands_on cc r /\ same_cursor c c'
  end.

Lemma delivers_same p reverse c c1 b rs out : same_cursor c c1 -> delivers p reverse c1 b rs out -> delivers p reverse c b rs out.
Proof.
  intros (H1 & H2 & H3). assert (forall c', same_cursor c1 c' -> same_cursor c c') as Hs by (intros c' (? & ? & ?); repeat split; congruence).
  destruct rs as [|r rs]; cbn.
  - intros (c' & q' & ? & ? & ? & ? & ?%Hs). by exists c', q'.
  - intros (c' & q' & cc & n & ? & ? & ? & ? & ? & ? & ?%Hs). by exists c', q', cc, n.
Qed.

(** Yielding the row at index [i] of the leaf on top. *)
Lemma deliver_row p (q : Pager OS) reverse c f below rs i r rest b n :
  leaf_frame p f rs -> rs !! i = Some r -> updated p q ∅ ->
  pending p reverse (f :: below) rest n -> pages_visited c + Z.of_nat n <= b ->
  delivers p reverse c b (r :: rest)
    ((_ ← update (fun c => set_stack c (f :: below)); rowid ← decode_leaf_cell f (Z.of_nat i); mret (Some rowid)) (c, q)).
Proof.
  intros Hf Hr Hq Hpe Hb. erewrite M_bind_ok by reflexivity. cbn [fst snd].
  destruct (decode_leaf_cell_spec p q (set_stack c (f :: below)) f rs i r Hf Hr) as (cc & E & Hs).
  rewrite (M_bind_ok _ _ _ _ _ E). eexists _, q, cc, n. split; [reflexivity|]. by repeat (split; [done|]).
Qed.

(** Descending into a subtree with [rs1] below the frame [f]. *)
Lemma deliver_push p (q : Pager OS) reverse c f below h child lo hi rs1 ps1 rest n rs b (loop : M (TableCursor * Pager OS) BtreeError (option Z)) fuel :
  tree usable p h child lo hi rs1 ps1 -> updated p q ∅ -> pending p reverse (f :: below) rest n ->
  rs = turn reverse rs1 ++ rest -> pages_visited c + Z.of_nat (base.size ps1 + n) <= b -> b <= MAX_PAGES_VISITED ->
  (S (length below) + 2 * (base.size ps1 + n) <= fuel)%nat ->
  (forall c1 q1 n1, pending p reverse (stack c1) rs n1 -> updated p q1 ∅ -> pages_visited c1 + Z.of_nat n1 <= b ->
     (length (stack c1) + 2 * n1 + 1 <= fuel)%nat -> delivers p reverse c1 b rs (loop (c1, q1))) ->
  delivers p reverse c b rs ((_ ← update (fun c => set_stack c (f :: below)); _ ← push_page child reverse; loop) (c, q)).
Proof.
  intros Ht Hq Hpe -> Hb HM Hfuel Hloop. erewrite M_bind_ok by reflexivity. cbn [fst snd].
  destruct (push_page_spec p q (set_stack c (f :: below)) reverse h child lo hi rs1 ps1 rest n Ht Hq Hpe) as (g & q1 & E & Hq1 & Hs1 & Hpe1).
  { cbn. assert (1 <= base.size ps1)%nat; [|lia]. destruct Ht; [rewrite size_singleton; lia|]. rewrite size_union by set_solver. rewrite size_singleton. lia. }
  rewrite (M_bind_ok _ _ _ _ _ E). eapply delivers_same; [|eapply Hloop; [exact Hpe1|done|cbn; lia|cbn [stack set_stack set_visited length]; lia]]. done.
Qed.

Lemma branches_head (p : Pager OS) h child key entries lo mid rs ps :
  branches usable p h ((child, key) :: entries) lo mid rs ps ->
  exists rs1 ps1 rs2 ps2, tree usable p h child lo key rs1 ps1 /\ branches usable p h entries key mid rs2 ps2 /\ rs = rs1 ++ rs2 /\
    base.size ps = (base.size ps1 + base.size ps2)%nat.
Proof.
  intros Hb. inversion Hb as [|? ? ? ? ? ? rs1 ps1 rs2 ps2 Hle Ht Hb' Hd]; subst. exists rs1, ps1, rs2, ps2. split; [done|]. split; [done|].
  split; [done|]. by apply size_union.
Qed.

Lemma branches_last (p : Pager OS) h entries child key lo mid rs ps :
  branches usable p h (entries ++ [(child, key)]) lo mid rs ps ->
  exists k rs1 ps1 rs2 ps2, branches usable p h entries lo k rs1 ps1 /\ tree usable p h child k key rs2 ps2 /\ rs = rs1 ++ rs2 /\
    base.size ps = (base.size ps1 + base.size ps2)%nat.
Proof.
  intros Hb. apply branches_app in Hb as (k & rs1 & ps1 & rs2 & ps2 & H1 & H2 & -> & -> & Hd).
  inversion H2 as [|? ? ? ? ? ? rsX psX rsY psY Hle Ht Hb' Hd']; subst. inversion Hb'; subst.
  exists k, rs1, ps1, rsX, psX. split; [done|]. split; [done|]. split; [by rewrite app_nil_r|]. rewrite size_union by done. by rewrite union_empty_r_L.
Qed.

Lemma leaf_frame_len (p : Pager OS) f rs : leaf_frame p f rs -> len rs <= 65536.
Proof.
  intros (_ & cs & slots & blocks & Hl & _ & -> & _). destruct (lp_slots _ _ _ _ _ Hl) as [? ? ? ? _ _ _ _]. rewrite len_rows. pose proof (len_nonneg slots). lia.
Qed.

Lemma interior_frame_len (p : Pager OS) f entries rightmost : interior_frame p f entries rightmost -> len entries <= 65536.
Proof.
  intros (_ & (_ & _ & _ & Hfit & _ & cs & slots & [? ? ? ? _ _ _ _] & Hs) & _). apply (f_equal len) in Hs. unfold len, interior_cells in *.
  rewrite !length_map in Hs. lia.
Qed.

Lemma succ_index k l : (k < l)%nat -> Z.of_nat l <= 65536 -> sat_add (Z.of_nat k) 1 = Z.of_nat (S k).
Proof. intros. rewrite sat_add_small; unfold U64_MAX; lia. Qed.

Lemma pred_index k : sat_sub (Z.of_nat (S k)) 1 = Z.of_nat k.
Proof. rewrite sat_sub_small; lia. Qed.

(** The rightmost child taken, only the entries are left. *)
Lemma pending_entries (p : Pager OS) reverse f below entries rightmost k h lo mid rs1 ps1 rest n :
  interior_frame p f entries rightmost -> next_cell f = Z.of_nat k -> (k <= length entries)%nat ->
  branches usable p h (todo reverse k entries) lo mid rs1 ps1 -> rightmost_done f = true -> pending p reverse below rest n ->
  pending p reverse (f :: below) (turn reverse rs1 ++ rest) (base.size ps1 + n).
Proof.
  intros Hf Hk Hle Hb Hd Hpe. replace (base.size ps1 + n)%nat with (base.size ps1 + base.size (∅ : gset Z) + n)%nat by (rewrite size_empty; lia).
  rewrite <- (app_nil_r rs1). apply (pending_interior p reverse f below entries rightmost k h lo mid rs1 ps1 [] ∅ rest n); try done. by rewrite Hd.
Qed.

Lemma advance_loop_spec p fuel : forall c (q : Pager OS) rs n b,
  pending p false (stack c) rs n -> updated p q ∅ -> pages_visited c + Z.of_nat n <= b -> b <= MAX_PAGES_VISITED ->
  (length (stack c) + 2 * n + 1 <= fuel)%nat -> delivers p false c b rs (advance_loop fuel (c, q)).
Proof.
  induction fuel as [|fuel IH]; intros c q rs n b Hpe Hq Hb HM Hfuel; [lia|]. cbn [advance_loop]. erewrite M_bind_ok by reflexivity. cbn [fst snd].
  inversion Hpe as [E|f below rs0 k rest m Hf Hk Hle Hpe' E|f below entries rightmost k h lo mid rs1 ps1 rs2 ps2 rest m Hf Hk Hle Hbr Hrm Hpe' E]; subst.
  - exists (set_current c None), q. done.
  - pose proof Hf as (-> & cs & slots & blocks & _ & _ & _ & Hnum & _). cbn [negb turn todo]. rewrite Hnum, Hk. rewrite <- E in Hfuel. cbn [length] in Hfuel.
    destruct (Z.leb_spec (len rs0) (Z.of_nat k)) as [Hge|Hlt].
    + rewrite drop_ge by (unfold len in Hge; lia). cbn [app]. erewrite M_bind_ok by reflexivity. cbn [fst snd].
      eapply delivers_same; [|eapply (IH (set_stack c below) q rest n); cbn; [done|done|lia|done|lia]]. done.
    + destruct (lookup_lt_is_Some_2 rs0 k ltac:(unfold len in Hlt; lia)) as [r Hr]. rewrite (drop_S rs0 r k Hr). cbn [app].
      apply (deliver_row p q false c _ below rs0 k r (drop (S k) rs0 ++ rest) b n); [done|done|done| |done].
      apply (pending_leaf p false _ below rs0 (S k) rest n); [done| |pose proof (lookup_lt_Some _ _ _ Hr); lia|done].
      cbn. apply (succ_index k (length rs0)); [by eapply lookup_lt_Some|by apply (leaf_frame_len p f)].
  - pose proof Hf as (-> & _ & Hnum & _ & Hfr). cbn [negb turn todo] in *. rewrite Hnum, Hk. rewrite <- E in Hfuel. cbn [length] in Hfuel.
    destruct (Z.ltb_spec (Z.of_nat k) (len entries)) as [Hlt|Hge].
    + destruct (lookup_lt_is_Some_2 entries k ltac:(unfold len in Hlt; lia)) as [[child key] Hc]. rewrite (drop_S entries _ k Hc) in Hbr.
      destruct (branches_head _ _ _ _ _ _ _ _ _ Hbr) as (rsA & psA & rsB & psB & Ht & Hb' & -> & Hsz).
      assert (sat_add (Z.of_nat k) 1 = Z.of_nat (S k)) as Hsucc by (apply (succ_index k (length entries)); [by eapply lookup_lt_Some|by apply (interior_frame_len p f entries rightmost)]).
      assert (read_interior_child (set_next_cell f (sat_add (Z.of_nat k) 1)) (Z.of_nat k) = Ok child) as Ech
        by (eapply (read_interior_child_spec p); [exact Hf|exact Hc]).
      rewrite Ech. eapply (deliver_push p q false c _ below h child _ _ rsA psA (rsB ++ rs2 ++ rest) (base.size psB + base.size ps2 + m)); [exact Ht|done| | |lia|done| |].
      * rewrite app_assoc. apply (pending_interior p false _ below entries rightmost (S k) h key mid rsB psB rs2 ps2); try done. apply (lookup_lt_Some _ _ _ Hc).
      * cbn. by rewrite <- !app_assoc.
      * instantiate (1 := fuel). lia.
      * intros c1 q1 n1 ? ? ? ?. by eapply IH.
    + destruct (rightmost_done f) eqn:Erd; cbn [negb].
      * destruct Hrm as [-> ->]. rewrite drop_ge in Hbr by (unfold len in Hge; lia). inversion Hbr; subst. cbn [app]. erewrite M_bind_ok by reflexivity. cbn [fst snd].
        eapply delivers_same; [|eapply (IH (set_stack c below) q rest m); cbn; [done|done|lia|done|lia]]. done.
      * destruct Hrm as (lo' & hi' & Ht). rewrite drop_ge in Hbr by (unfold len in Hge; lia). inversion Hbr; subst. cbn [app].
        eapply (deliver_push p q false c _ below h _ _ _ rs2 ps2 rest m); [exact Ht|done| |done| |done| |].
        -- rewrite <- (Nat.add_0_l m), <- (size_empty (C := gset Z)).
           apply (pending_entries p false _ below entries (fr_rightmost f) k h mid mid [] ∅ rest m); try done. cbn. rewrite drop_ge by (unfold len in Hge; lia). constructor.
        -- lia.
        -- instantiate (1 := fuel). lia.
        -- intros c1 q1 n1 ? ? ? ?. by eapply IH.
Qed.

Lemma take_last {A} (l : list A) k x : l !! k = Some x -> take (S k) l = take k l ++ [x].
Proof. apply take_S_r. Qed.

Lemma advance_rev_loop_spec p fuel : forall c (q : Pager OS) rs n b,
  pending p true (stack c) rs n -> updated p q ∅ -> pages_visited c + Z.of_nat n <= b -> b <= MAX_PAGES_VISITED ->
  (length (stack c) + 2 * n + 1 <= fuel)%nat -> delivers p true c b rs (advance_rev_loop fuel (c, q)).
Proof.
  induction fuel as [|fuel IH]; intros c q rs n b Hpe Hq Hb HM Hfuel; [lia|]. cbn [advance_rev_loop]. erewrite M_bind_ok by reflexivity. cbn [fst snd].
  inversion Hpe as [E|f below rs0 k rest m Hf Hk Hle Hpe' E|f below entries rightmost k h lo mid rs1 ps1 rs2 ps2 rest m Hf Hk Hle Hbr Hrm Hpe' E]; subst.
  - exists (set_current c None), q. done.
  - pose proof Hf as (-> & cs & slots & blocks & _ & _ & _ & Hnum & _). cbn [negb turn todo]. rewrite Hk. rewrite <- E in Hfuel. cbn [length] in Hfuel.
    destruct k as [|k].
    + cbn [take rev app]. change (Z.of_nat 0 =? 0) with true. cbv iota. erewrite M_bind_ok by reflexivity. cbn [fst snd].
      eapply delivers_same; [|eapply (IH (set_stack c below) q rest n); cbn; [done|done|lia|done|lia]]. done.
    + destruct (lookup_lt_is_Some_2 rs0 k ltac:(lia)) as [r Hr]. rewrite (take_last rs0 k r Hr), rev_app_distr. cbn [rev app].
      rewrite (proj2 (Z.eqb_neq _ _)) by lia. rewrite pred_index.
      apply (deliver_row p q true c _ below rs0 k r (rev (take k rs0) ++ rest) b n); [done|done|done| |done].
      apply (pending_leaf p true _ below rs0 k rest n); [done|done|lia|done].
  - pose proof Hf as (-> & _ & Hnum & _ & Hfr). cbn [negb turn todo] in *. rewrite Hk. rewrite <- E in Hfuel. cbn [length] in Hfuel.
    destruct (rightmost_done f) eqn:Erd; cbn [negb].
    + destruct Hrm as [-> ->]. rewrite app_nil_r. destruct k as [|k].
      * cbn [take] in Hbr. inversion Hbr; subst. change (0 <? Z.of_nat 0) with false. cbn [rev app]. erewrite M_bind_ok by reflexivity. cbn [fst snd].
        eapply delivers_same; [|eapply (IH (set_stack c below) q rest m); cbn; [done|done|lia|done|lia]]. done.
      * rewrite (proj2 (Z.ltb_lt _ _)) by lia. rewrite pred_index.
        destruct (lookup_lt_is_Some_2 entries k ltac:(lia)) as [[child key] Hc]. rewrite (take_last entries k _ Hc) in Hbr.
        destruct (branches_last _ _ _ _ _ _ _ _ _ Hbr) as (mid' & rsA & psA & rsB & psB & Hb' & Ht & -> & Hsz).
        assert (read_interior_child (set_next_cell f (Z.of_nat k)) (Z.of_nat k) = Ok child) as Ech
          by (eapply (read_interior_child_spec p); [exact Hf|exact Hc]).
        rewrite Ech. eapply (deliver_push p q true c _ below h child _ _ rsB psB (rev rsA ++ rest) (base.size psA + m)); [exact Ht|done| | |lia|done| |].
        -- apply (pending_entries p true _ below entries rightmost k h lo mid' rsA psA rest m); try done. lia.
        -- cbn. by rewrite rev_app_distr, <- app_assoc.
        -- instantiate (1 := fuel). lia.
        -- intros c1 q1 n1 ? ? ? ?. by eapply IH.
    + destruct Hrm as (lo' & hi' & Ht).
      eapply (deliver_push p q true c _ below h _ _ _ rs2 ps2 (rev rs1 ++ rest) (base.size ps1 + m)); [rewrite Hfr; exact Ht|done| | |lia|done| |].
      * apply (pending_entries p true _ below entries rightmost k h lo mid rs1 ps1 rest m); done.
      * cbn. by rewrite rev_app_distr, <- app_assoc.
      * instantiate (1 := fuel). lia.
      * intros c1 q1 n1 ? ? ? ?. by eapply IH.
Qed.

(** ** Moves *)

Lemma advance_spec p c (q : Pager OS) rs n b :
  pending p false (stack c) rs n -> updated p q ∅ -> pages_visited c + Z.of_nat n <= b -> b <= MAX_PAGES_VISITED ->
  delivers p false c b rs (advance (c, q)).
Proof.
  intros Hpe Hq Hb HM. unfold advance. erewrite M_bind_ok by reflexivity. cbn [fst]. eapply advance_loop_spec; try done. unfold budget. lia.
Qed.

Lemma advance_rev_spec p c (q : Pager OS) rs n b :
  pending p true (stack c) rs n -> updated p q ∅ -> pages_visited c + Z.of_nat n <= b -> b <= MAX_PAGES_VISITED ->
  delivers p true c b rs (advance_rev (c, q)).
Proof.
  intros Hpe Hq Hb HM. unfold advance_rev. erewrite M_bind_ok by reflexivity. cbn [fst]. eapply advance_rev_loop_spec; try done. unfold budget. lia.
Qed.

(** Starting over from the root. *)
Lemma start_spec p c (q : Pager OS) reverse h lo hi rs ps :
  tree usable p h (tc_root_page c) lo hi rs ps -> updated p q ∅ -> Z.of_nat (base.size ps) <= MAX_PAGES_VISITED ->
  delivers p reverse (rewind reverse c) MAX_PAGES_VISITED (turn reverse rs) ((if reverse then last else first) (c, q)).
Proof.
  intros Ht Hq HM.
  destruct (push_page_spec p q (rewind reverse c) reverse h _ lo hi rs ps [] 0%nat Ht Hq ltac:(constructor) ltac:(done)) as (f & q1 & E & Hq1 & Hs & Hpe).
  rewrite app_nil_r in Hpe.
  destruct reverse; unfold last, first; erewrite M_bind_ok by reflexivity; erewrite M_bind_ok by reflexivity; cbn [fst snd tc_root_page rewind];
    rewrite (M_bind_ok _ _ _ _ _ E).
  - eapply delivers_same; [|eapply advance_rev_spec; [exact Hpe|done|cbn; lia|done]]. done.
  - eapply delivers_same; [|eapply advance_spec; [exact Hpe|done|cbn; lia|done]]. done.
Qed.

(** ** Payloads *)

Context (Husable : 480 <= usable <= 65536).

(** The head of a stored cell and the bytes after it. *)
Lemma stored_head cc rowid payload first :
  stands_on cc (rowid, leaf_cell usable rowid payload first) -> len payload <= U64_MAX ->
  cc_payload_len cc = len payload /\ exists rest,
  get_from (cc_page cc) (tail_start cc) = Some (local_part usable payload ++ (match spilled usable payload with [] => [] | _ => be_encode 4 first end) ++ rest).
Proof.
  intros (o & Hd & Ho & Hg & Hlen) Hp. cbn [fst snd] in *. pose proof (drop_cell _ _ _ Ho Hg) as Hdrop.
  pose proof (get_range_inv _ _ _ _ Hg) as (_ & Hle & _ & _).
  set (rest := drop (Z.to_nat (o + len (leaf_cell usable rowid payload first))) (cc_page cc)) in *.
  assert (drop (Z.to_nat o) (cc_page cc) = encode_varint (len payload) ++ encode_varint (wrap 64 rowid) ++ local_part usable payload ++
    (match spilled usable payload with [] => [] | _ => be_encode 4 first end) ++ rest) as Hparts by (rewrite Hdrop; unfold leaf_cell; by rewrite <- !app_assoc).
  set (cell := leaf_cell usable rowid payload first) in *.
  pose proof (len_nonneg cell). pose proof (len_nonneg payload). pose proof (wrap64_u64 rowid) as Hw.
  unfold decode_cell_head in Hd. rewrite get_from_Some in Hd by lia. cbn [ok_or mbind result_bind] in Hd. rewrite Hparts in Hd.
  rewrite decode_encode_varint in Hd by (unfold is_u64; unfold U64_MAX in Hp; lia).
  cbn [map_err mbind result_bind] in Hd.
  assert (varint_len (len payload) = len (encode_varint (len payload))) as Hn1 by (by rewrite len_encode_varint).
  assert (varint_len (wrap 64 rowid) = len (encode_varint (wrap 64 rowid))) as Hn2 by (rewrite len_encode_varint; [done|apply Hw]).
  rewrite Hn1 in Hd. rewrite get_from_app in Hd. cbn [ok_or mbind result_bind] in Hd. rewrite decode_encode_varint in Hd by done.
  cbn [map_err mbind result_bind] in Hd. rewrite Hn2 in Hd. injection Hd as _ <- Ht. split; [done|].
  pose proof (len_leaf_cell usable Husable rowid payload first) as Hlc. fold cell in Hlc.
  pose proof (local_size_bounds usable (len payload) Husable ltac:(lia)) as Hls.
  set (e1 := encode_varint (len payload)) in *. set (e2 := encode_varint (wrap 64 rowid)) in *. pose proof (len_nonneg e1). pose proof (len_nonneg e2).
  assert (len e1 + len e2 <= len cell) by (destruct (_ <? _) in Hlc; lia).
  rewrite (sat_add_small o (len e1)), sat_add_small in Ht by (unfold U64_MAX; lia).
  exists rest. rewrite <- Ht, get_from_Some by lia. f_equal.
  replace (Z.to_nat (o + len e1 + len e2)) with (Z.to_nat o + (length e1 + length e2))%nat by (unfold len; lia).
  rewrite <- drop_drop, Hparts, (app_assoc e1 e2), <- length_app. by rewrite drop_app_length.
Qed.

Lemma current_payload_spec p (q : Pager OS) c cc r payload pages :
  current c = Some cc -> stands_on cc r -> row_payload usable p r payload pages -> tc_usable_size c = usable -> updated p q ∅ ->
  len payload <= MAX_PAYLOAD_LEN -> Z.of_nat (length pages) <= MAX_PAGES_VISITED ->
  exists q', current_payload (c, q) = (Ok payload, (c, q')) /\ updated p q' ∅.
Proof.
  intros Hcur Hs (Hr & Hi & Hp & Hnd & Hch) Hus Hq Hmax Hpg. destruct r as [rowid cell]. cbn [fst snd] in *. subst cell.
  destruct (stored_head _ _ _ _ Hs Hp) as (Hpl & rest & Htail). unfold current_payload. erewrite M_bind_ok by reflexivity. cbn [fst].
  rewrite Hcur. cbn [ok_or]. erewrite M_bind_ok by reflexivity. unfold from_source. cbn [fst snd]. rewrite Hus, Hpl.
  unfold reassemble_payload. rewrite (proj2 (Z.ltb_ge _ _)) by lia. rewrite Htail. cbn [ok_or]. erewrite M_bind_ok by reflexivity. cbv zeta.
  pose proof (local_size_bounds usable (len payload) Husable (len_nonneg payload)) as Hls. pose proof (len_local_part usable Husable payload) as Hlp.
  set (ls := local_payload_size usable (len payload) false) in *. rewrite (get_range_app_prefix _ _ ls) by done. cbn [ok_or]. erewrite M_bind_ok by reflexivity.
  pose proof (spilled_nil usable Husable payload) as Hsn. fold ls in Hsn.
  destruct (Z.eqb_spec ls (len payload)) as [El|Hne].
  - exists q. split; [|done]. unfold local_part. fold ls. rewrite El, take_ge by (unfold len; lia). done.
  - destruct (spilled usable payload) as [|x sp] eqn:Es; [exfalso; by apply Hne, Hsn|]. rewrite <- Es in *.
    rewrite sat_add_small by (unfold U64_MAX; lia). replace (ls + 4) with (ls + len (be_encode 4 (first_page pages))) by (rewrite len_be_encode; lia).
    rewrite (get_range_app3 (local_part usable payload)) by lia. cbn [ok_or]. erewrite M_bind_ok by reflexivity.
    rewrite be_roundtrip by (pose proof (first_page_u32 _ _ _ Hch) as Hf; unfold is_u32 in Hf; lia).
    rewrite (sat_sub_small usable 4), Z.max_l by lia. rewrite sat_sub_small by lia.
    assert (len (spilled usable payload) = len payload - ls) as <- by (unfold spilled; fold ls; rewrite len_drop; lia).
    destruct (overflow_read_back (cc_page_num cc) (usable - 4) pages p q (Z.to_nat MAX_PAGES_VISITED) (spilled usable payload) [] (local_part usable payload))
      as (q' & E & Hq'); try done; [lia|intros n _ ?%elem_of_nil; done|lia|unfold spilled; rewrite len_drop by lia; unfold MAX_PAYLOAD_LEN, U64_MAX in *; lia|].
    rewrite E. exists q'. split; [|done]. unfold local_part, spilled. by rewrite take_drop.
Qed.

(** ** Whole scans *)

(** The entry a row yields. *)
Definition yields (p : Pager OS) (r : row) (t : Z * list Z) : Prop :=
  t.1 = r.1 /\ exists pages, row_payload usable p r t.2 pages /\ len t.2 <= MAX_PAYLOAD_LEN /\ Z.of_nat (length pages) <= MAX_PAGES_VISITED.

(** The moves of a client: [first_row], then [next_row] until the end, or
    [last_row], then [prev_row]. *)
Fixpoint drain (fuel : nat) (step : M (TableCursor * Pager OS) BtreeError (option (Z * list Z))) : M (TableCursor * Pager OS) BtreeError (list (Z * list Z)) :=
  match fuel with
  | O => throw BtDiverged
  | S fuel => r ← step; match r with None => mret [] | Some x => xs ← drain fuel step; mret (x :: xs) end
  end.

Definition scan (reverse : bool) (fuel : nat) : M (TableCursor * Pager OS) BtreeError (list (Z * list Z)) :=
  r ← (if reverse then last_row else first_row);
  match r with None => mret [] | Some x => xs ← drain fuel (if reverse then prev_row else next_row); mret (x :: xs) end.

(** A delivered row with its payload. *)
Lemma with_payload_spec p reverse c (q : Pager OS) b rs T move :
  delivers p reverse c b rs (move (c, q)) -> Forall2 (yields p) rs T -> tc_usable_size c = usable ->
  match T with
  | [] => exists s, with_payload move (c, q) = (Ok None, s)
  | t :: T => exists c' q' n, with_payload move (c, q) = (Ok (Some t), (c', q')) /\ updated p q' ∅ /\
      pending p reverse (stack c') (tail rs) n /\ pages_visited c' + Z.of_nat n <= b /\ same_cursor c c'
  end.
Proof.
  intros Hd HT Hu. unfold with_payload. destruct HT as [|r t rs T (E1 & pages & Hrp & Hmax & Hpg) HT].
  - destruct Hd as (c' & q' & E & _). rewrite (M_bind_ok _ _ _ _ _ E). by eexists.
  - destruct Hd as (c' & q' & cc & n & E & Hq' & Hpe & Hb & Hcur & Hst & Hsame). rewrite (M_bind_ok _ _ _ _ _ E).
    destruct (current_payload_spec p q' c' cc r t.2 pages Hcur Hst Hrp ltac:(destruct Hsame; congruence) Hq' Hmax Hpg) as (q2 & E2 & Hq2).
    rewrite (M_bind_ok _ _ _ _ _ E2). exists c', q2, n. split; [|done]. rewrite <- E1. by destruct t.
Qed.

Lemma drain_spec p reverse T : forall rs c (q : Pager OS) n fuel,
  Forall2 (yields p) rs T -> pending p reverse (stack c) rs n -> updated p q ∅ -> pages_visited c + Z.of_nat n <= MAX_PAGES_VISITED ->
  tc_usable_size c = usable -> positioned_reverse c = reverse -> (length T < fuel)%nat ->
  exists s, drain fuel (if reverse then prev_row else next_row) (c, q) = (Ok T, s).
Proof.
  induction T as [|t T IH]; intros rs c q n fuel HT Hpe Hq Hb Hu Hrev Hf; (destruct fuel as [|fuel]; [lia|]); cbn [drain].
  all: assert (delivers p reverse c MAX_PAGES_VISITED rs ((if reverse then prev else next) (c, q))) as Hd
    by (destruct reverse; [unfold prev; erewrite M_bind_ok by reflexivity; cbn [fst]; rewrite Hrev; by eapply advance_rev_spec|by eapply advance_spec]).
  all: pose proof (with_payload_spec p reverse c q _ rs _ _ Hd HT Hu) as Hw.
  all: replace (if reverse then prev_row else next_row) with (with_payload (if reverse then prev else next : M (TableCursor * Pager OS) BtreeError (option Z))) by (by destruct reverse).
  - destruct Hw as (s & E). rewrite (M_bind_ok _ _ _ _ _ E). by exists s.
  - destruct Hw as (c' & q' & n' & E & Hq' & Hpe' & Hb' & (Hs1 & _ & Hs3)). rewrite (M_bind_ok _ _ _ _ _ E). inversion HT as [|r ? rs' ? Hy HT' E1 E2]; subst rs.
    destruct (IH rs' c' q' n' fuel HT' Hpe' Hq' Hb' ltac:(congruence) ltac:(congruence) ltac:(cbn in Hf; lia)) as (s & E').
    replace (if reverse then prev_row else next_row) with (with_payload (if reverse then prev else next : M (TableCursor * Pager OS) BtreeError (option Z))) in E' by (by destruct reverse).
    rewrite (M_bind_ok _ _ _ _ _ E'). by exists s.
Qed.

Lemma Forall2_turn {A B} (P : A -> B -> Prop) reverse l k : Forall2 P l k -> Forall2 P (turn reverse l) (turn reverse k).
Proof.
  destruct reverse; [|done]. cbn. induction 1 as [|x y l k Hxy Hl IH]; cbn; [constructor|]. apply Forall2_app; [done|]. by repeat constructor.
Qed.

Lemma cursor_scan_spec p c (q : Pager OS) reverse h lo hi rs ps T fuel :
  tree usable p h (tc_root_page c) lo hi rs ps -> Forall2 (yields p) rs T -> updated p q ∅ -> Z.of_nat (base.size ps) <= MAX_PAGES_VISITED ->
  tc_usable_size c = usable -> (length T < fuel)%nat -> exists s, scan reverse fuel (c, q) = (Ok (turn reverse T), s).
Proof.
  intros Ht HT Hq HM Hu Hf. pose proof (start_spec p c q reverse h lo hi rs ps Ht Hq HM) as Hd.
  apply (Forall2_turn _ reverse) in HT. unfold scan.
  replace (if reverse then last_row else first_row) with (with_payload (if reverse then last else first : M (TableCursor * Pager OS) BtreeError (option Z))) by (by destruct reverse).
  assert (length (turn reverse T) = length T) as Hl by (destruct reverse; [apply length_rev|done]). rewrite <- Hl in Hf. clear Hl.
  pose proof (with_payload_spec p reverse (rewind reverse c) q _ _ _ (fun s => (if reverse then last else first) (c, s.2)) Hd HT Hu) as Hw.
  assert (with_payload (if reverse then last else first) (c, q) = with_payload (fun s => (if reverse then last else first) (c, s.2)) (rewind reverse c, q)) as Hconv by done.
  rewrite <- Hconv in Hw. clear Hconv.
  destruct (turn reverse T) as [|t T'].
  - destruct Hw as (s & E). rewrite (M_bind_ok _ _ _ _ _ E). by exists s.
  - destruct Hw as (c' & q' & n' & E & Hq' & Hpe' & Hb' & (Hs1 & _ & Hs3)). rewrite (M_bind_ok _ _ _ _ _ E). inversion HT as [|r ? rs' ? Hy HT' E1 E2]; subst.
    rewrite <- E1 in Hpe'. cbn [tail] in Hpe'.
    destruct (drain_spec p reverse T' rs' c' q' n' fuel HT' Hpe' Hq' Hb' ltac:(by rewrite Hs1) Hs3 ltac:(cbn in Hf; lia)) as (s & E').
    rewrite (M_bind_ok _ _ _ _ _ E'). by exists s.
Qed.

(** ** Termination on any pages *)

Lemma push_page_effect n reverse c (q : Pager OS) c' q' :
  push_page n reverse (c, q) = (Ok tt, (c', q')) ->
  length (stack c') = S (length (stack c)) /\ pages_visited c < pages_visited c' <= MAX_PAGES_VISITED.
Proof.
  intros E. unfold push_page in E. apply M_bind_inv in E as (page & [c1 q1] & E1 & E).
  assert (stack c1 = stack c /\ pages_visited c < pages_visited c1 <= MAX_PAGES_VISITED) as [Hs Hv].
  { unfold cursor_read_page in E1. apply M_bind_inv in E1 as ([] & s1 & [= <-] & E1). apply M_bind_inv in E1 as (c2 & s2 & [= <- <-] & E1).
    cbn [fst snd] in E1. destruct (MAX_PAGES_VISITED <? _) eqn:El; [done|]. apply Z.ltb_ge in El. cbn [pages_visited set_visited] in El.
    unfold from_source in E1. cbn [fst snd] in E1. destruct (read_page_b n q) as [r q2]. injection E1 as _ <- _. split; [done|]. cbn [pages_visited set_visited].
    revert El. unfold sat_add, MAX_PAGES_VISITED, U64_MAX. lia. }
  apply M_bind_inv in E as (ty & s2 & [= _ <-] & E). apply M_bind_inv in E as (int & s3 & E3 & E).
  assert (s3 = (c1, q1)) as -> by (destruct (ty =? LEAF_TABLE); [by injection E3 as _ <-|]; destruct (ty =? INTERIOR_TABLE); [by injection E3 as _ <-|done]).
  apply M_bind_inv in E as (u & s4 & E4 & E). assert (s4 = (c1, q1)) as -> by (destruct int; by injection E4 as _ <-).
  apply M_bind_inv in E as (k & s5 & [= _ <-] & E). apply M_bind_inv in E as (br & s6 & E6 & E).
  assert (s6 = (c1, q1)) as ->.
  { destruct int; [|by injection E6 as _ <-]. apply M_bind_inv in E6 as (x & s7 & [= _ <-] & E6). by injection E6 as _ <-. }
  injection E as <- _. cbn [stack set_stack length pages_visited]. rewrite Hs. done.
Qed.

(** A pushed page leaves enough fuel for the rest. *)
Lemma after_push n reverse c (q : Pager OS) (k1 k2 : M (TableCursor * Pager OS) BtreeError (option Z)) fuel :
  (budget c <= S fuel)%nat -> (forall c' q', (budget c' <= fuel)%nat -> k1 (c', q') = k2 (c', q')) ->
  (push_page n reverse ≫= fun _ => k1) (c, q) = (push_page n reverse ≫= fun _ => k2) (c, q).
Proof.
  intros Hb Hk. unfold mbind, M_bind. destruct (push_page n reverse (c, q)) as [[[]|e] [c' q']] eqn:E; [|done]. apply Hk.
  apply push_page_effect in E as [Hl Hv]. unfold budget in *. lia.
Qed.

Lemma budget_step c f below f1 f2 :
  stack c = f :: below -> (budget c <= S f1)%nat -> (budget c <= S f2)%nat ->
  (forall g, (budget (set_stack c (g :: below)) <= S (Nat.min f1 f2))%nat) /\ (budget (set_stack c below) <= Nat.min f1 f2)%nat.
Proof. intros Es. unfold budget. rewrite Es. cbn [stack set_stack length pages_visited]. intros H1 H2. split; [intros _|]; lia. Qed.

Lemma advance_loop_fuel f1 : forall f2 c (q : Pager OS), (budget c <= f1)%nat -> (budget c <= f2)%nat ->
  advance_loop f1 (c, q) = advance_loop f2 (c, q).
Proof.
  induction f1 as [|f1 IH]; intros f2 c q H1 H2; [unfold budget in H1; lia|]. destruct f2 as [|f2]; [unfold budget in H2; lia|].
  cbn [advance_loop]. do 2 (erewrite M_bind_ok by reflexivity; symmetry). cbn [fst]. destruct (stack c) as [|f below] eqn:Es; [done|].
  destruct (budget_step c f below f1 f2 Es H1 H2) as [Hg Hp].
  assert (forall n reverse g, (push_page n reverse ≫= fun _ => advance_loop f1) (set_stack c (g :: below), q) =
    (push_page n reverse ≫= fun _ => advance_loop f2) (set_stack c (g :: below), q)) as Hpush
    by (intros n reverse g; apply (after_push _ _ _ _ _ _ (Nat.min f1 f2)); [specialize (Hg g); lia|intros c' q' Hb; apply IH; lia]).
  destruct (negb (is_interior f)).
  - destruct (fr_num_cells f <=? next_cell f); [|done]. do 2 (erewrite M_bind_ok by reflexivity; symmetry). apply IH; cbn [fst]; lia.
  - destruct (next_cell f <? fr_num_cells f); [|destruct (negb (rightmost_done f))].
    all: do 2 (erewrite M_bind_ok by reflexivity; symmetry); cbn [fst snd].
    + destruct (read_interior_child _ _); [|done]. do 2 (erewrite M_bind_ok by reflexivity; symmetry). apply Hpush.
    + apply Hpush.
    + apply IH; lia.
Qed.

Lemma advance_rev_loop_fuel f1 : forall f2 c (q : Pager OS), (budget c <= f1)%nat -> (budget c <= f2)%nat ->
  advance_rev_loop f1 (c, q) = advance_rev_loop f2 (c, q).
Proof.
  induction f1 as [|f1 IH]; intros f2 c q H1 H2; [unfold budget in H1; lia|]. destruct f2 as [|f2]; [unfold budget in H2; lia|].
  cbn [advance_rev_loop]. do 2 (erewrite M_bind_ok by reflexivity; symmetry). cbn [fst]. destruct (stack c) as [|f below] eqn:Es; [done|].
  destruct (budget_step c f below f1 f2 Es H1 H2) as [Hg Hp].
  assert (forall n reverse g, (push_page n reverse ≫= fun _ => advance_rev_loop f1) (set_stack c (g :: below), q) =
    (push_page n reverse ≫= fun _ => advance_rev_loop f2) (set_stack c (g :: below), q)) as Hpush
    by (intros n reverse g; apply (after_push _ _ _ _ _ _ (Nat.min f1 f2)); [specialize (Hg g); lia|intros c' q' Hb; apply IH; lia]).
  destruct (negb (is_interior f)).
  - destruct (next_cell f =? 0); [|done]. do 2 (erewrite M_bind_ok by reflexivity; symmetry). apply IH; cbn [fst]; lia.
  - destruct (negb (rightmost_done f)); [|destruct (0 <? next_cell f)].
    all: do 2 (erewrite M_bind_ok by reflexivity; symmetry); cbn [fst snd].
    + apply Hpush.
    + destruct (read_interior_child _ _); [|done]. do 2 (erewrite M_bind_ok by reflexivity; symmetry). apply Hpush.
    + apply IH; lia.
Qed.

(** What the steps of a round report is never the end of the unfolding. *)
Lemma read_ends n (q : Pager OS) : ends (read_page_b n) q.
Proof. unfold read_page_b. solve_ends. Qed.

Lemma push_ends n reverse s : ends (push_page n reverse : M (TableCursor * Pager OS) BtreeError unit) s.
Proof.
  unfold push_page, cursor_read_page, read_page_type, read_num_cells, require_interior_header, read_u32. solve_ends; try discriminate.
  unfold ends, from_source. destruct s as [c q]. cbn [snd].
  match goal with |- context [read_page_b n ?p] => pose proof (read_ends n p) as He; unfold ends in He; destruct (read_page_b n p) end. exact He.
Qed.

Lemma decode_leaf_ends f i s : ends (decode_leaf_cell f i : M (TableCursor * Pager OS) BtreeError Z) s.
Proof. unfold decode_leaf_cell, read_cell_pointer, decode_cell_head. solve_ends; discriminate. Qed.

Lemma interior_child_sound f i : sound (read_interior_child f i).
Proof. unfold read_interior_child, read_cell_pointer, read_u32. solve_ends. Qed.

Lemma push_then n reverse c (q : Pager OS) (k : M (TableCursor * Pager OS) BtreeError (option Z)) fuel :
  (budget c <= S fuel)%nat -> (forall c' q', (budget c' <= fuel)%nat -> ends k (c', q')) ->
  ends (push_page n reverse ≫= fun _ => k) (c, q).
Proof.
  intros Hb Hk. apply ends_bind; [apply push_ends|]. intros [] [c' q'] E. apply Hk.
  apply push_page_effect in E as [Hl Hv]. unfold budget in *. lia.
Qed.

Lemma advance_loop_ends fuel : forall c (q : Pager OS), (budget c <= fuel)%nat -> ends (advance_loop fuel) (c, q).
Proof.
  induction fuel as [|fuel IH]; intros c q Hb; [unfold budget in Hb; lia|].
  cbn [advance_loop]. unfold ends. erewrite M_bind_ok by reflexivity. cbn [fst]. destruct (stack c) as [|f below] eqn:Es; [done|].
  destruct (budget_step c f below fuel fuel Es Hb Hb) as [Hg Hp]. rewrite Nat.min_id in Hg, Hp.
  destruct (negb (is_interior f)).
  - destruct (fr_num_cells f <=? next_cell f); erewrite M_bind_ok by reflexivity; [by apply IH|].
    apply ends_bind; [apply decode_leaf_ends|done].
  - destruct (next_cell f <? fr_num_cells f); [|destruct (negb (rightmost_done f))]; erewrite M_bind_ok by reflexivity; cbn [fst snd].
    + apply ends_bind; [apply ends_lift, interior_child_sound|]. intros child s [= _ <-]. by eapply push_then.
    + by eapply push_then.
    + by apply IH.
Qed.

Lemma advance_rev_loop_ends fuel : forall c (q : Pager OS), (budget c <= fuel)%nat -> ends (advance_rev_loop fuel) (c, q).
Proof.
  induction fuel as [|fuel IH]; intros c q Hb; [unfold budget in Hb; lia|].
  cbn [advance_rev_loop]. unfold ends. erewrite M_bind_ok by reflexivity. cbn [fst]. destruct (stack c) as [|f below] eqn:Es; [done|].
  destruct (budget_step c f below fuel fuel Es Hb Hb) as [Hg Hp]. rewrite Nat.min_id in Hg, Hp.
  destruct (negb (is_interior f)).
  - destruct (next_cell f =? 0); erewrite M_bind_ok by reflexivity; [by apply IH|].
    apply ends_bind; [apply decode_leaf_ends|done].
  - destruct (negb (rightmost_done f)); [|destruct (0 <? next_cell f)]; erewrite M_bind_ok by reflexivity; cbn [fst snd].
    + by eapply push_then.
    + apply ends_bind; [apply ends_lift, interior_child_sound|]. intros child s [= _ <-]. by eapply push_then.
    + by apply IH.
Qed.

Lemma start_ends (reverse : bool) c (q : Pager OS) : ends (if reverse then last else first : M (TableCursor * Pager OS) BtreeError (option Z)) (c, q).
Proof.
  destruct reverse; unfold first, last, advance, advance_rev, ends.
  all: do 2 erewrite M_bind_ok by reflexivity; apply ends_bind; [apply push_ends|]; intros [] [c' q'] _; unfold ends; erewrite M_bind_ok by reflexivity.
  - by apply advance_rev_loop_ends.
  - by apply advance_loop_ends.
Qed.

End Scan.
