(* ===== verification/CursorSeek.v ===== *)
(** * Point lookups ([TableCursor::seek])

    The binary searches agree with the linear definitions: a lookup finds the
    row of the tree with the given rowid if there is one. *)

From stdpp Require Import prelude list numbers gmap.
From Stdlib Require Import ZArith Lia.
From S2P Require Import Prelude Varint Text Record Header Freelist Vfs Journal Wal Lock Shm Checkpoint PageCache Pager Commit Transactions Allocator BtreePage LeafPage LeafSearch Btree Tree TreeSplit Overflow Table Cursor CursorScan.

Local Open Scope Z_scope.

(** The middle of a range of indices, without saturation. *)
Lemma middle (lo hi : nat) : (lo < hi)%nat -> Z.of_nat hi <= 65536 ->
  exists mid : nat, sat_add (Z.of_nat lo) (sat_sub (Z.of_nat hi) (Z.of_nat lo) / 2) = Z.of_nat mid /\ (lo <= mid < hi)%nat.
Proof.
  intros Hl Hb. exists (lo + (hi - lo) / 2)%nat. rewrite sat_sub_small by lia.
  assert ((hi - lo) / 2 < hi - lo)%nat by (apply Nat.div_lt; lia).
  assert ((Z.of_nat hi - Z.of_nat lo) / 2 = Z.of_nat ((hi - lo) / 2)) as -> by (rewrite Nat2Z.inj_div, Nat2Z.inj_sub by lia; done).
  rewrite sat_add_small by (unfold U64_MAX; lia). lia.
Qed.

Section Seek.
Context `{host : Host} {OS : Type} `{Fcntl OS}.
Context (usable : Z).

Lemma sorted_lookup rs i j a b : sorted_rows rs -> rs !! i = Some a -> rs !! j = Some b -> (i < j)%nat -> a.1 < b.1.
Proof.
  intros Hs. revert i j. induction Hs as [|r rs Hr Hs IH]; intros i j Ha Hb Hij; [done|].
  destruct j as [|j]; [lia|]. destruct i as [|i]; cbn in Ha, Hb.
  - injection Ha as ->. by apply (proj1 (Forall_lookup _ _) Hr j).
  - by eapply IH; [exact Ha|exact Hb|lia].
Qed.

(** ** In a leaf *)

Lemma seek_leaf_spec buf hs cs slots pn target fuel : forall lo hi : nat,
  page_slots buf hs 8 cs slots -> parsed usable slots -> sorted_rows (rows usable slots) ->
  (hi <= length slots)%nat -> (hi - lo <= fuel)%nat ->
  (forall i r, rows usable slots !! i = Some r -> (i < lo)%nat -> r.1 < target) ->
  (forall i r, rows usable slots !! i = Some r -> (hi <= i)%nat -> target < r.1) ->
  (exists r o plen tail, r ∈ rows usable slots /\ r.1 = target /\ decode_cell_head buf o pn = Ok (target, plen, tail) /\ 0 <= o /\
     get_range buf o (o + len r.2) = Some r.2 /\
     seek_leaf fuel (Z.of_nat lo) (Z.of_nat hi) buf pn (sat_add hs 8) target = Ok (Some (target, plen, tail))) \/
  (has_row target (rows usable slots) = false /\ seek_leaf fuel (Z.of_nat lo) (Z.of_nat hi) buf pn (sat_add hs 8) target = Ok None).
Proof.
  induction fuel as [|fuel IH]; intros lo hi Hps Hp Hs Hhi Hf Hlo Hge; cbn [seek_leaf].
  all: assert ((hi <= lo)%nat -> has_row target (rows usable slots) = false) as Hnone
    by (intros Hle; apply has_row_false, Forall_lookup; intros i r Hr E; destruct (decide (i < lo)%nat); [specialize (Hlo i r Hr)|specialize (Hge i r Hr)]; lia).
  { right. split; [apply Hnone; lia|done]. }
  destruct (Z.ltb_spec (Z.of_nat lo) (Z.of_nat hi)) as [Hlt|Hle]; cbn [negb]; [|right; split; [apply Hnone; lia|done]].
  assert (Z.of_nat hi <= 65536) by (destruct Hps as [? ? ? ? _ _ _ _]; unfold len in *; lia).
  destruct (middle lo hi ltac:(lia) ltac:(lia)) as (mid & -> & Hmid).
  destruct (lookup_lt_is_Some_2 (rows usable slots) mid) as [r Hr]; [unfold rows; rewrite length_map; lia|].
  destruct (leaf_cell_at usable _ _ _ _ mid r pn Hps Hp Hr) as (o & plen & tail & E1 & E2 & Ho & Hg & _).
  rewrite E1. cbn [mbind result_bind]. rewrite E2. cbn [mbind result_bind].
  destruct (Z.compare_spec r.1 target) as [E|Hl|Hg'].
  - left. exists r, o, plen, tail. rewrite <- E. split; [by eapply list_elem_of_lookup_2|]. done.
  - replace (sat_add (Z.of_nat mid) 1) with (Z.of_nat (S mid)) by (rewrite sat_add_small; unfold U64_MAX; lia).
    apply IH; try done; [lia|]. intros i r' Hr' Hi. destruct (decide (i = mid)) as [->|]; [congruence|].
    pose proof (sorted_lookup _ i mid r' r Hs Hr' Hr ltac:(lia)). lia.
  - apply IH; try done; [lia|lia|]. intros i r' Hr' Hi. destruct (decide (i = mid)) as [->|]; [congruence|].
    pose proof (sorted_lookup _ mid i r r' Hs Hr Hr' ltac:(lia)). lia.
Qed.

(** ** In an interior page *)

Lemma branches_keys (p : Pager OS) h entries lo mid rs ps :
  branches usable p h entries lo mid rs ps -> (forall i c k, entries !! i = Some (c, k) -> lo <= k) /\
  (forall i j c k c' k', (i <= j)%nat -> entries !! i = Some (c, k) -> entries !! j = Some (c', k') -> k <= k').
Proof.
  revert lo rs ps. induction entries as [|[child key] entries IH]; intros lo rs ps Hb; [done|].
  inversion Hb as [|? ? ? ? ? ? rs1 ps1 rs2 ps2 Hle Ht Hb' Hd]; subst. destruct (IH _ _ _ Hb') as [H1 H2]. split.
  - intros [|i] c k; cbn; [by intros [= <- <-]|]. intros Hi. specialize (H1 _ _ _ Hi). lia.
  - intros [|i] [|j] c k c' k' Hij; cbn; [intros [= <- <-] [= <- <-]; lia|intros [= <- <-] Hj; by eapply H1|lia|]. apply H2. lia.
Qed.

Lemma route_drop entries rightmost target n :
  (forall i c k, entries !! i = Some (c, k) -> (i < n)%nat -> k < target) -> route (drop n entries) rightmost target = route entries rightmost target.
Proof.
  revert n. induction entries as [|[c k] entries IH]; intros [|n] Hk; try done. cbn [drop route].
  rewrite (proj2 (Z.leb_gt _ _)) by (apply (Hk 0%nat c k); [done|lia]). apply IH. intros i c' k' Hi Hin. apply (Hk (S i) c' k'); [done|lia].
Qed.

Lemma seek_interior_spec (p : Pager OS) h buf hs entries rightmost pn target klo kmid rs ps fuel : forall (lo hi : nat) next,
  interior_layout buf hs entries rightmost -> branches usable p h entries klo kmid rs ps ->
  (lo <= hi <= length entries)%nat -> (hi - lo <= fuel)%nat ->
  (forall i c k, entries !! i = Some (c, k) -> (i < lo)%nat -> k < target) -> next = route (drop hi entries) rightmost target ->
  seek_interior fuel (Z.of_nat lo) (Z.of_nat hi) next buf pn (sat_add hs 12) target = Ok (route entries rightmost target).
Proof.
  induction fuel as [|fuel IH]; intros lo hi next Hil Hb Hhi Hf Hlo ->; cbn [seek_interior].
  { assert (lo = hi) as -> by lia. f_equal. by apply route_drop. }
  destruct (Z.ltb_spec (Z.of_nat lo) (Z.of_nat hi)) as [Hlt|Hle]; cbn [negb]; [|assert (lo = hi) as -> by lia; f_equal; by apply route_drop].
  assert (Z.of_nat hi <= 65536).
  { pose proof Hil as (_ & _ & _ & Hfit & _ & cs & slots & [? ? ? ? _ _ _ _] & _). pose proof (total_len_nonneg (interior_cells entries)). unfold len in *. lia. }
  destruct (middle lo hi ltac:(lia) ltac:(lia)) as (mid & -> & Hmid).
  destruct (lookup_lt_is_Some_2 entries mid ltac:(lia)) as [[child key] He].
  destruct (interior_entry_at _ _ _ _ mid child key pn Hil He) as (o & rest & v & n & E1 & E2 & E3 & E4 & <-).
  rewrite E1. cbn [mbind result_bind]. rewrite E3. cbn [ok_or mbind result_bind]. rewrite E4. cbn [map_err mbind result_bind].
  destruct (Z.leb_spec target (as_i64 v)) as [Hk|Hk].
  - rewrite E2. cbn [mbind result_bind]. apply IH; try done; [lia|lia|]. rewrite (drop_S entries _ mid He). cbn [route].
    by rewrite (proj2 (Z.leb_le _ _)) by lia.
  - replace (sat_add (Z.of_nat mid) 1) with (Z.of_nat (S mid)) by (rewrite sat_add_small; unfold U64_MAX; lia).
    apply IH; try done; [lia|lia|]. intros i c k Hi Hin.
    pose proof (proj2 (branches_keys _ _ _ _ _ _ _ Hb) i mid c k child (as_i64 v) ltac:(lia) Hi He). lia.
Qed.

(** ** In a tree *)

(** What a lookup in a tree with the rows [rs] returns. *)
Definition looked_up (p : Pager OS) (c : TableCursor) (target : Z) (rs : list row) (out : result BtreeError (option Z) * (TableCursor * Pager OS)) : Prop :=
  (exists r cc q', r ∈ rs /\ r.1 = target /\ out = (Ok (Some target), (set_current c (Some cc), q')) /\ stands_on cc r /\ updated p q' ∅) \/
  (exists q', has_row target rs = false /\ out = (Ok None, (c, q')) /\ updated p q' ∅).

Lemma looked_up_within p c target rs l r out :
  looked_up p c target rs out -> has_row target l = false -> has_row target r = false -> looked_up p c target (l ++ rs ++ r) out.
Proof.
  intros [(x & cc & q' & Hin & Hrest)|(q' & Hno & Hrest)] Hl Hr.
  - left. exists x, cc, q'. split; [|done]. apply elem_of_app. right. apply elem_of_app. by left.
  - right. exists q'. split; [|done]. by rewrite !has_row_app, Hl, Hno, Hr.
Qed.

Lemma in_range_no_row lo hi rs target : in_range lo hi rs -> target <= lo \/ hi < target -> has_row target rs = false.
Proof. intros Hr Ht. apply has_row_false. eapply Forall_impl; [exact Hr|]. cbn. lia. Qed.

Lemma seek_loop_spec (p : Pager OS) c target h : forall n lo hi rs ps,
  tree usable p h n lo hi rs ps -> lo < target <= hi -> forall fuel q, (h < fuel)%nat -> updated p q ∅ ->
  looked_up p c target rs (seek_loop fuel n target (c, q)).
Proof.
  induction h as [h IH] using lt_wf_ind. intros n lo hi rs ps Ht Hrow fuel q Hfuel Hq.
  destruct fuel as [|fuel]; [lia|]. cbn [seek_loop]. pose proof Hq as (_ & Hqc & _).
  destruct Ht as [h n lo hi rs Hn Hl|h n entries rightmost lo mid hi rs1 ps1 rs2 ps2 Hn Hes Hi Hb Hm Ht D1 D2].
  - pose proof Hl as (buf & cs & slots & blocks & Hbuf & _ & Hlp & Hp & -> & Hs & _). pose proof (lp_slots _ _ _ _ _ Hlp) as Hps.
    destruct (read_page_b_spec n q buf Hqc Hn) as (q' & E & Hq'); [by rewrite (updated_same _ _ n Hq)|].
    assert (from_source (read_page_b n) (c, q) = (Ok buf, (c, q'))) as Es by (unfold from_source; cbn [fst snd]; by rewrite E).
    rewrite (M_bind_ok _ _ _ _ _ Es). change (page1_header_start n) with (content_offset n). rewrite (leaf_type _ _ _ _ _ n Hlp).
    erewrite M_bind_ok by reflexivity. rewrite (read_num_cells_eq _ _ (len slots)) by (first [apply content_offset_range|by apply Hps]).
    erewrite M_bind_ok by reflexivity. rewrite Z.eqb_refl. pose proof (updated_step _ _ _ _ Hq Hq') as Hu.
    destruct (seek_leaf_spec buf _ cs slots n target (Z.to_nat (len slots)) 0 (length slots) Hps Hp Hs ltac:(lia) ltac:(unfold len; lia))
      as [(r & o & plen & tail & Hin & Hr & Hd & Ho & Hg & E1)|[Hno E1]]; [lia|intros i r Hr Hi; apply lookup_lt_Some in Hr; unfold rows in Hr; rewrite length_map in Hr; lia| |].
    all: change (Z.of_nat 0) with 0 in E1; change (Z.of_nat (length slots)) with (len slots) in E1; rewrite E1; clear E1.
    + erewrite M_bind_ok by reflexivity. left. exists r, (MkCurrent buf n tail plen), q'. split; [done|]. split; [done|]. split; [done|]. split; [|done].
      exists o. rewrite Hr. split; [done|]. split; [done|]. split; [done|]. apply Hps.
    + erewrite M_bind_ok by reflexivity. right. by exists q'.
  - pose proof Hi as (buf & Hbuf & _ & Hil). pose proof Hil as (_ & _ & _ & Hfit & Hrm & cs & slots & Hps & Hsnd). pose proof (content_offset_range n).
    destruct (read_page_b_spec n q buf Hqc Hn) as (q1 & E & Hq1); [by rewrite (updated_same _ _ n Hq)|].
    assert (from_source (read_page_b n) (c, q) = (Ok buf, (c, q1))) as Es by (unfold from_source; cbn [fst snd]; by rewrite E).
    rewrite (M_bind_ok _ _ _ _ _ Es). change (page1_header_start n) with (content_offset n). rewrite (proj1 (interior_read _ _ n _ _ Hil)).
    assert (len slots = len entries) as Hls by (apply (f_equal len) in Hsnd; unfold len, interior_cells in *; by rewrite !length_map in Hsnd).
    pose proof (total_len_nonneg (interior_cells entries)). pose proof (len_nonneg entries).
    erewrite M_bind_ok by reflexivity. rewrite (read_num_cells_eq _ _ (len slots)) by (first [lia|by apply Hps]). erewrite M_bind_ok by reflexivity.
    change (INTERIOR_TABLE =? LEAF_TABLE) with false. cbv iota. rewrite Z.eqb_refl.
    unfold require_interior_header. rewrite (sat_add_small _ 12) by (unfold U64_MAX; lia). rewrite (proj2 (Z.ltb_ge _ _)) by lia. erewrite M_bind_ok by reflexivity.
    rewrite (sat_add_small _ 8) by (unfold U64_MAX; lia). rewrite (read_u32_eq _ _ rightmost) by (first [lia|done]). erewrite M_bind_ok by reflexivity.
    rewrite Hls. pose proof (seek_interior_spec p h buf _ entries rightmost n target lo mid rs1 ps1 (Z.to_nat (len entries)) 0 (length entries) rightmost Hil Hb) as Esk.
    rewrite (sat_add_small _ 12) in Esk by (unfold U64_MAX; lia). change (Z.of_nat 0) with 0 in Esk. change (Z.of_nat (length entries)) with (len entries) in Esk.
    rewrite Esk; [|lia|unfold len; lia|lia|by rewrite drop_ge by lia]. erewrite M_bind_ok by reflexivity. clear Esk.
    pose proof (updated_step _ _ _ _ Hq Hq1) as Hu. pose proof (proj1 (tree_rows usable p) _ _ _ _ _ _ Ht) as (_ & R2).
    pose proof (proj2 (tree_rows usable p) _ _ _ _ _ _ Hb) as (_ & R1 & _).
    destruct (route_split usable p h entries rightmost lo mid rs1 ps1 target Hb ltac:(lia)) as [Hlast Hentry].
    destruct (Z_lt_le_dec mid target) as [Hgt|Hle].
    + rewrite (Hlast Hgt). rewrite <- (app_nil_r rs2). apply looked_up_within; [|by eapply in_range_no_row; [exact R1|lia]|done].
      eapply (IH h); [lia|exact Ht|lia|lia|done].
    + destruct (Hentry Hle) as (e1 & child & key & e2 & flo & rsA & psA & rsX & psX & rsB & psB & -> & -> & Hb1 & Hfk & Htc & Hb2 & Hrk & -> & -> & D3 & D4).
      pose proof (proj2 (tree_rows usable p) _ _ _ _ _ _ Hb1) as (_ & RA & _). pose proof (proj2 (tree_rows usable p) _ _ _ _ _ _ Hb2) as (_ & RB & _).
      rewrite <- !app_assoc. apply looked_up_within; [eapply (IH h); [lia|exact Htc|lia|lia|done]|by eapply in_range_no_row; [exact RA|lia]|].
      rewrite has_row_app. rewrite (in_range_no_row _ _ _ target RB), (in_range_no_row _ _ _ target R2) by lia. done.
Qed.

End Seek.
