(* ===== verification/TableProperties.v ===== *)
(** * Properties of tables

    Insertion, scans and lookups against the finite map a table stands for,
    with the small concrete tables the statements are tried on. *)

From stdpp Require Import prelude list numbers gmap.
From Stdlib Require Import ZArith Lia.
From S2P Require Import Prelude Varint Text Record Header Freelist Vfs Journal Wal Lock Shm Checkpoint PageCache Pager Commit Transactions Allocator BtreePage LeafPage LeafSearch Btree Tree TreeSplit Overflow TableTree Table TableDelete Cursor CursorScan CursorSeek.

Local Open Scope Z_scope.

(** ** Tables on one page *)

Definition sample_rows (T : list (Z * list Z)) : list row := map (fun t => (t.1, leaf_cell 512 t.1 t.2 0)) T.

(** A database of two pages of 512 bytes, the table rooted at the second. *)
Definition sample_table (T : list (Z * list Z)) : Pager LockTable :=
  alloc_pager (header_page 2 0 0 ++ built (write_leaf_page (zeros 512) 0 2 (cell_bytes (sample_rows T)))).

Definition small_entries (T : list (Z * list Z)) : Prop :=
  Forall (fun t => is_i64 t.1 /\ len t.2 <= 400) T /\ sorted_rows (sample_rows T) /\ leaf_bytes 2 (sample_rows T) <= 512.

Lemma small_local payload : len payload <= 400 -> local_part 512 payload = payload /\ spilled 512 payload = [].
Proof.
  intros Hp. assert (local_payload_size 512 (len payload) false = len payload) as E.
  { unfold local_payload_size. change (sat_sub 512 35) with 477. by rewrite (proj2 (Z.leb_le _ _)) by lia. }
  unfold local_part, spilled. rewrite E. split; [apply take_ge|apply drop_ge]; unfold len; lia.
Qed.

Lemma sample_past_end data n b : len data <= 1024 -> 2 < n -> source_read (vfs (alloc_pager data)) 512 n <> Ok b.
Proof.
  intros Hd Hn. unfold source_read, db_contents, read_page_at, read_at, page_offset. cbn. rewrite (proj2 (Z.eqb_neq n 0)) by lia.
  rewrite lookup_singleton_eq. cbn. rewrite (proj2 (Z.leb_le _ _)); [done|]. unfold sat_mul, sat_sub, U64_MAX. lia.
Qed.

Lemma sample_pages b2 : len b2 = 512 ->
  logical (alloc_pager (header_page 2 0 0 ++ b2)) 1 = Ok (header_page 2 0 0) /\ logical (alloc_pager (header_page 2 0 0 ++ b2)) 2 = Ok b2.
Proof.
  intros Hl. assert (len (header_page 2 0 0) = 512) as Hh by done. assert (length b2 = 512%nat) by (unfold len in Hl; lia).
  assert (length (header_page 2 0 0) = 512%nat) as Hh' by done.
  unfold logical, committed, read_page_raw, source_read, db_contents, read_page_at, read_at. cbn [dirty alloc_pager wal_pages vfs pg_page_size files].
  rewrite !lookup_empty, lookup_singleton_eq. cbn [from_option id]. change (page_offset 512 1) with 0. change (page_offset 512 2) with 512.
  change (1 =? 0) with false. change (2 =? 0) with false. rewrite len_app, Hh, Hl. change (512 + 512 <=? 0) with false. change (512 + 512 <=? 512) with false. cbv iota zeta.
  change (Z.to_nat 0) with 0%nat. change (Z.to_nat 512) with 512%nat. rewrite drop_0. split.
  - rewrite take_app_le, take_ge by lia. by rewrite Hh.
  - rewrite drop_app_ge by lia. rewrite Hh', Nat.sub_diag, drop_0, take_ge by lia. by rewrite Hl.
Qed.

(** A sample is a table with its entries. *)
Lemma sample_ok T : small_entries T ->
  world (sample_table T) 2 [] {[2]} /\ table 512 (sample_table T) 0 2 (list_to_map T) {[2]}.
Proof.
  intros (Ht & Hs & Hfit).
  destruct (write_rows 512 (zeros 512) 0 2 (sample_rows T)) as (b2 & cs & slots & E & Hl & Hp & Hr & Ho); [lia|by vm_compute| |done|].
  { apply Forall_map. eapply Forall_impl; [exact Ht|]. intros [k v] [Hk Hv]. cbn [fst snd] in *. split; cbn [fst snd].
    - apply leaf_cell_parse; [lia|done|unfold U64_MAX; lia].
    - pose proof (leaf_cell_bounds 512 ltac:(lia) k v 0 ltac:(unfold U64_MAX; lia)). lia. }
  assert (len b2 = 512) as Hb by (by rewrite (proj1 Ho)).
  assert (sample_table T = alloc_pager (header_page 2 0 0 ++ b2)) as -> by (unfold sample_table; by rewrite E).
  destruct (sample_pages b2 Hb) as [L1 L2]. set (p := alloc_pager (header_page 2 0 0 ++ b2)) in *.
  assert (store p 2 []) as Hst.
  { split; [|split].
    - split; [apply alloc_pager_coherent|]. split; [by vm_compute|]. split; [by vm_compute|]. split; [constructor|]. split; [by intros n ?%elem_of_nil|].
      exists (header_page 2 0 0), 0, []. split; [done|]. do 4 (split; [by vm_compute|]). split; [constructor|done].
    - intros n Hn. assert (n = 1 \/ n = 2) as [E1 | E1] by lia; subst n; [by exists (header_page 2 0 0)|by exists b2].
    - intros n b Hn. apply sample_past_end; [|lia]. rewrite len_app, Hb. by vm_compute. }
  split.
  - split; [done|]. intros m ->%elem_of_singleton. split; [lia|apply not_elem_of_nil].
  - exists (sample_rows T), T, {[2]}, ∅. split.
    { apply tree_leaf; [unfold is_u32; lia|]. exists b2, cs, slots, []. split; [done|]. split; [done|]. split; [done|]. split; [done|]. split; [done|].
      split; [done|]. apply Forall_map. eapply Forall_impl; [exact Ht|]. intros [k v] [Hk _]. unfold is_i64, MIN_KEY, MAX_KEY in *. cbn [fst] in *. lia. }
    split; [|split; [done|split; set_solver]]. clear - Ht. induction Ht as [|[k v] T [Hk Hv] Ht IH]; [constructor|].
    rewrite <- (union_empty_l_L ∅). apply (stored_cons 512 p (k, leaf_cell 512 k v 0) v []); [|done|set_solver].
    split; [done|]. split; [done|]. split; [unfold U64_MAX; cbn in Hv; lia|]. split; [constructor|]. by rewrite (proj2 (small_local v Hv)).
Qed.

(** ** From the map to the cursor's view *)

Section Views.
Context `{host : Host} {OS : Type} `{Fcntl OS}.
Context (usable : Z).

Lemma stored_in (p : Pager OS) rs T ops r :
  stored usable p rs T ops -> r ∈ rs -> exists payload pages, (r.1, payload) ∈ T /\ row_payload usable p r payload pages /\ list_to_set pages ⊆ ops.
Proof.
  induction 1 as [|r' payload pages rs T ps Hr Hs IH Hd]; [by intros ?%elem_of_nil|]. intros [->|Hin]%elem_of_cons.
  - exists payload, pages. split; [by left|]. split; [done|set_solver].
  - destruct (IH Hin) as (v & qs & H1 & H2 & H3). exists v, qs. split; [by right|]. split; [done|set_solver].
Qed.

Lemma stored_nodup (p : Pager OS) rs T ops : stored usable p rs T ops -> sorted_rows rs -> NoDup T.*1.
Proof.
  intros Hs Hso. rewrite (stored_keys _ _ _ _ _ Hs). clear Hs. induction Hso as [|r rs Hr Hso IH]; cbn; [constructor|].
  constructor; [|done]. intros (x & Hx & Hin)%list_elem_of_fmap. apply (proj1 (Forall_forall _ _) Hr) in Hin. lia.
Qed.

Lemma chain_short (pages : list Z) (ops : gset Z) : NoDup pages -> list_to_set pages ⊆ ops -> (length pages <= base.size ops)%nat.
Proof. intros Hnd Hs. apply subseteq_size in Hs. by rewrite size_list_to_set in Hs. Qed.

Lemma stored_yields (p : Pager OS) rs T ops :
  stored usable p rs T ops -> Z.of_nat (base.size ops) <= MAX_PAGES_VISITED -> Forall (fun t => len t.2 <= MAX_PAYLOAD_LEN) T ->
  Forall2 (yields usable p) rs T.
Proof.
  induction 1 as [|r payload pages rs T ps Hr Hs IH Hd]; intros HM Hf; [constructor|]. apply Forall_cons_1 in Hf as [Hl Hf].
  rewrite size_union in HM by done. constructor; [|apply IH; [lia|done]]. split; [done|]. exists pages. split; [done|]. split; [done|].
  destruct Hr as (_ & _ & _ & Hnd & _). rewrite size_list_to_set in HM by done. lia.
Qed.

(** The entries are in the order of the rows. *)
Lemma stored_in_order (p : Pager OS) rs T ops : stored usable p rs T ops -> sorted_rows rs -> ForallOrdPairs (fun a b : Z * list Z => a.1 < b.1) T.
Proof.
  induction 1 as [|r v pages rs T ps Hr Hst IH Hd]; intros Hso; [constructor|].
  inversion Hso as [|? ? Hr1 Hso']; subst. constructor; [|by apply IH]. apply Forall_forall. intros t Hin. cbn [fst].
  apply (list_elem_of_fmap_2 fst) in Hin. rewrite (stored_keys _ _ _ _ _ Hst) in Hin. apply list_elem_of_fmap in Hin as (x & Ex & Hx).
  rewrite Ex. by apply (proj1 (Forall_forall _ _) Hr1).
Qed.

Lemma table_sorted (p : Pager OS) h root m ps :
  table usable p h root m ps -> exists rs T tps ops, tree usable p h root MIN_KEY MAX_KEY rs tps /\ stored usable p rs T ops /\ NoDup T.*1 /\
    m = list_to_map T /\ (base.size tps + base.size ops = base.size ps)%nat /\ sorted_rows rs.
Proof.
  intros (rs & T & tps & ops & Ht & Hst & -> & -> & Hd). pose proof (proj1 (tree_rows usable p) _ _ _ _ _ _ Ht) as (Hso & _).
  exists rs, T, tps, ops. split; [done|]. split; [done|]. split; [by eapply stored_nodup|]. split; [done|]. split; [|done]. by rewrite size_union.
Qed.

(** A lookup with its payload. *)
Lemma seek_row_spec header (p : Pager OS) h root m ps rowid :
  480 <= usable <= 65536 -> usable_page_size header = usable -> coherent p -> table usable p h root m ps ->
  Z.of_nat h < MAX_PAGES_VISITED -> Z.of_nat (base.size ps) <= MAX_PAGES_VISITED -> map_Forall (fun _ v => len v <= MAX_PAYLOAD_LEN) m ->
  is_i64 rowid ->
  exists s, seek_row rowid (new_cursor header root, p) = (Ok (v ← m !! rowid; Some (rowid, v)), s).
Proof.
  intros Hus Hhd Hco Htab Hh HM Hmax Hr. destruct (table_sorted _ _ _ _ _ Htab) as (rs & T & tps & ops & Ht & Hst & Hnd & -> & Hsz & _).
  unfold seek_row, with_payload, seek. set (c := set_current (new_cursor header root) None).
  pose proof (seek_loop_spec usable p c rowid h root MIN_KEY MAX_KEY rs tps Ht ltac:(unfold is_i64 in Hr; unfold MIN_KEY, MAX_KEY; lia)
    (Z.to_nat MAX_PAGES_VISITED) p ltac:(lia) ltac:(apply updated_read; [done|by destruct p])) as Hlk.
  assert (forall g : option Z -> M (TableCursor * Pager OS) BtreeError (option (Z * list Z)),
    ((_ ← update (λ c, set_current c None); c ← self; seek_loop (Z.to_nat MAX_PAGES_VISITED) (tc_root_page c) rowid) ≫= g) (new_cursor header root, p) =
    (seek_loop (Z.to_nat MAX_PAGES_VISITED) root rowid ≫= g) (c, p)) as Eb by done. rewrite Eb. clear Eb.
  destruct Hlk as [(r & cc & q & Hin & <- & E & Hso & Hq)|(q & Hno & E & Hq)]; rewrite (M_bind_ok _ _ _ _ _ E).
  - destruct (stored_in _ _ _ _ _ Hst Hin) as (v & pages & HvT & Hrp & Hsub). pose proof (elem_of_list_to_map_1 _ _ _ Hnd HvT) as Hm.
    assert (len v <= MAX_PAYLOAD_LEN) by (by eapply (map_Forall_lookup_1 _ _ _ _ Hmax)).
    pose proof (chain_short pages ops) as Hcs. pose proof Hrp as (_ & _ & _ & Hndp & _).
    destruct (current_payload_spec usable Hus p q (set_current c (Some cc)) cc r v pages eq_refl Hso Hrp Hhd Hq ltac:(done) ltac:(specialize (Hcs Hndp Hsub); lia)) as (q2 & E2 & _).
    rewrite (M_bind_ok _ _ _ _ _ E2). eexists. by rewrite Hm.
  - eexists. rewrite (proj2 (stored_no_row _ _ _ _ _ rowid Hst) Hno). done.
Qed.

End Views.

(** ** Room for rows of even size *)

Lemma total_len_at_least (rs : list row) c : (1 <= length rs)%nat -> 0 <= c -> Forall (fun r => c <= len r.2) rs -> c <= total_len (map snd rs).
Proof.
  intros Hl Hc Hf. destruct Hf as [|r rs Hr Hf]; [cbn in Hl; lia|]. cbn [map]. rewrite total_len_cons.
  pose proof (total_len_nonneg (map snd rs)). lia.
Qed.

Lemma even_split_fits P n rowid cell ls :
  leaf_bytes n ls <= P -> leaf_bytes n [(rowid, cell)] <= P -> Forall (fun r => len cell <= len r.2) ls -> room P n (add_row rowid cell ls).
Proof.
  intros Hold Hone Hf. destruct (Z_le_gt_dec (leaf_bytes n (add_row rowid cell ls)) P) as [|Hbig]; [by left|]. right.
  assert (Forall (fun r : row => len cell <= len r.2) (add_row rowid cell ls)) as Ha by (apply Forall_add_row; [done|exact Hf]).
  assert (total_len (map snd (add_row rowid cell ls)) = total_len (map snd ls) + len cell) as Ht by apply total_len_add.
  assert (len (add_row rowid cell ls) = len ls + 1) as Hlen by apply len_add_row.
  set (L := add_row rowid cell ls) in *. assert (length L = S (length ls)) as HL by (unfold len in Hlen; lia).
  assert (1 <= length ls)%nat as Hl1.
  { destruct ls as [|r ls]; [|cbn; lia]. exfalso. change L with [(rowid, cell)] in Hbig. lia. }
  pose proof (Nat.div_mod_eq (S (length L)) 2) as Hdm. pose proof (Nat.mod_upper_bound (S (length L)) 2 ltac:(lia)).
  assert (div_ceil2 (length L) = (S (length L)) / 2)%nat as Hk by (unfold div_ceil2; by rewrite Nat.div2_div).
  set (k := div_ceil2 (length L)) in *. rewrite <- (take_drop k L), map_app, total_len_app in Ht. rewrite <- (take_drop k L) in Ha.
  apply Forall_app in Ha as [HA HB]. pose proof (len_nonneg cell).
  pose proof (total_len_at_least (take k L) (len cell) ltac:(rewrite length_take; lia) ltac:(lia) HA).
  pose proof (total_len_at_least (drop k L) (len cell) ltac:(rewrite length_drop; lia) ltac:(lia) HB).
  pose proof (content_offset_range n). unfold leaf_bytes, len in *. rewrite length_take, length_drop. lia.
Qed.

(** ** Properties *)

(** C1. Insertion implements insertion into the map.  On a database whose
    pages in [X] are in use and whose table at [root] holds [m] on the pages
    [ps], inserting a new rowid reports success, provided that the leaf it
    belongs to has room ([leaf_room]: with the new row it fits its page or, split
    at half the number of its cells, two; [uneven_split_destroys_rows] shows what
    happens otherwise, and [even_rows_have_room] when it cannot), and leaves
    a table at the same root that holds [m] with the new entry, whatever the
    payload's length (overflow chains) and however many pages split on the way
    up (leaf, interior pages, root).  Pages added to the table are fresh, the
    freelist and page count stay consistent, and no other page in use
    changes. *)
Theorem insert_row_inserts `{host : Host} {OS} `{Fcntl OS} usable header (p : Pager OS) cnt F X h root m ps rowid payload :
  480 <= usable <= pg_page_size p -> usable_page_size header = usable ->
  world p cnt F X -> table usable p h root m ps -> ps ⊆ X -> Z.of_nat h < MAX_PAGES_VISITED ->
  is_i64 rowid -> len payload <= U64_MAX -> cnt + len (chunks (spilled usable payload) (usable - 4)) + Z.of_nat h + 1 < U32_MAX ->
  m !! rowid = None -> leaf_room usable p root rowid (leaf_cell usable rowid payload 0) ->
  exists p' cnt' F' h' ps', insert_row header root rowid payload p = (Ok tt, p') /\
    table usable p' h' root (<[rowid := payload]> m) ps' /\ (h' <= S h)%nat /\ ps ⊆ ps' /\ (ps' ∖ ps) ## X /\
    world p' cnt' F' (X ∪ ps') /\ same_base p p' /\ (forall k, k ∈ X -> k ∉ ps -> same_content p p' k).
Proof. apply insert_row_spec. Qed.

(** C32. A rowid already in the table is refused with [DuplicateRowid]; the table
    and every other page in use stay as they are.  The overflow pages written
    for the refused payload stay allocated although nothing refers to them. *)
Theorem insert_row_refuses_duplicate `{host : Host} {OS} `{Fcntl OS} usable header (p : Pager OS) cnt F X h root m ps rowid payload :
  480 <= usable <= pg_page_size p -> usable_page_size header = usable ->
  world p cnt F X -> table usable p h root m ps -> ps ⊆ X -> Z.of_nat h < MAX_PAGES_VISITED ->
  is_i64 rowid -> len payload <= U64_MAX -> cnt + len (chunks (spilled usable payload) (usable - 4)) < U32_MAX ->
  is_Some (m !! rowid) ->
  exists p' cnt' F' leaked, insert_row header root rowid payload p = (Err (BtDuplicateRowid rowid), p') /\
    table usable p' h root m ps /\ world p' cnt' F' (leaked ∪ X) /\ leaked ## X /\ (forall k, k ∈ X -> same_content p p' k) /\
    (spilled usable payload <> [] -> leaked <> ∅).
Proof. apply insert_row_duplicate. Qed.


(** C10. A scan returns the table: from [first_row], [next_row] yields every
    entry of the map once in increasing rowid order, with its payload
    reassembled from the overflow chain; from [last_row], [prev_row] yields
    the same entries in the opposite order. *)
Theorem scan_returns_table `{host : Host} {OS} `{Fcntl OS} usable header (p : Pager OS) h root m ps reverse fuel :
  480 <= usable <= 65536 -> usable_page_size header = usable -> coherent p -> table usable p h root m ps ->
  Z.of_nat (base.size ps) <= MAX_PAGES_VISITED -> map_Forall (fun _ v => len v <= MAX_PAYLOAD_LEN) m -> (base.size m < fuel)%nat ->
  exists T s, scan reverse fuel (new_cursor header root, p) = (Ok (turn reverse T), s) /\
    m = list_to_map T /\ ForallOrdPairs (fun a b => a.1 < b.1) T /\ length T = base.size m.
Proof.
  intros Hus Hhd Hco Htab HM Hmax Hf. destruct (table_sorted _ _ _ _ _ _ Htab) as (rs & T & tps & ops & Ht & Hst & Hnd & -> & Hsz & Hso).
  assert (length T = base.size (list_to_map T : gmap Z (list Z))) as Hl.
  { rewrite <- (length_map_to_list (list_to_map T : gmap Z (list Z))). apply Permutation_length. symmetry. by apply map_to_list_to_map. }
  destruct (cursor_scan_spec usable Hus p (new_cursor header root) p reverse h MIN_KEY MAX_KEY rs tps T fuel Ht) as (s & E).
  - eapply stored_yields; [done|lia|]. apply Forall_forall. intros [k v] Hin. apply (map_Forall_lookup_1 _ _ k v Hmax). by apply elem_of_list_to_map_1.
  - apply updated_read; [done|by destruct p].
  - lia.
  - done.
  - lia.
  - exists T, s. split; [done|]. split; [done|]. split; [|done]. by eapply stored_in_order.
Qed.

(** C14. A lookup reads the map: [seek_row] returns the entry of the rowid, with
    its payload, when the table has one and nothing otherwise. *)
Theorem seek_reads_map `{host : Host} {OS} `{Fcntl OS} usable header (p : Pager OS) h root m ps rowid :
  480 <= usable <= 65536 -> usable_page_size header = usable -> coherent p -> table usable p h root m ps ->
  Z.of_nat h < MAX_PAGES_VISITED -> Z.of_nat (base.size ps) <= MAX_PAGES_VISITED -> map_Forall (fun _ v => len v <= MAX_PAYLOAD_LEN) m ->
  is_i64 rowid ->
  exists s, seek_row rowid (new_cursor header root, p) = (Ok (v ← m !! rowid; Some (rowid, v)), s).
Proof. apply seek_row_spec. Qed.

(** C2. Deletion implements deletion from the map.  On a table that does not use
    page 1, in a file of pages of at most 32768 bytes, deleting a rowid of the table reports success and leaves a table at
    the same root without that entry: in place when the leaf keeps a row,
    otherwise by taking the leaf out of its parent, and the parent out of the
    tree when nothing but one child is left in it, up to replacing the root's
    content by its only child's.  Pages the table no longer uses (the emptied
    pages and the row's overflow chain) are free, and no other page in use
    changes. *)
Theorem delete_row_deletes `{host : Host} {OS} `{Fcntl OS} usable header (p : Pager OS) cnt F X h root m ps rowid payload :
  480 <= usable <= 65536 -> usable_page_size header = usable -> usable <= pg_page_size p <= 32768 -> world p cnt F X ->
  table usable p h root m ps -> ps ⊆ X -> 1 ∉ ps -> Z.of_nat h < MAX_PAGES_VISITED -> is_i64 rowid -> m !! rowid = Some payload ->
  exists p' F' ps', delete_row header root rowid p = (Ok tt, p') /\ table usable p' h root (delete rowid m) ps' /\ ps' ⊆ ps /\
    world p' cnt F' (X ∖ (ps ∖ ps')) /\ same_base p p' /\ (forall k, k ∈ X -> k ∉ ps -> same_content p p' k).
Proof. intros Hus. by apply delete_row_spec. Qed.

(** Deleting a rowid the table does not have is refused with
    [RowidNotFound], and no page changes. *)
Theorem delete_row_refuses_missing `{host : Host} {OS} `{Fcntl OS} usable header (p : Pager OS) h root m ps rowid :
  480 <= usable <= 65536 -> usable_page_size header = usable -> coherent p -> table usable p h root m ps -> Z.of_nat h < MAX_PAGES_VISITED ->
  is_i64 rowid -> m !! rowid = None ->
  exists q, delete_row header root rowid p = (Err (BtRowidNotFound rowid), q) /\ updated p q ∅.
Proof. intros Hus. by apply delete_row_missing. Qed.

(** C36. Traversal terminates on any pages, also corrupt or cyclic ones.  A move
    of the cursor in either direction, from any position, returns a row, the
    end or an error the source reports: the unfolding of the loop by [budget]
    rounds never runs out ([BtDiverged]), and unfolding it further changes
    nothing, so the loops of the source end after at most that many rounds. *)
Theorem cursor_step_terminates `{host : Host} {OS} `{Fcntl OS} c (p : Pager OS) :
  fst (first (c, p)) <> Err BtDiverged /\ fst (last (c, p)) <> Err BtDiverged /\
  fst (next (c, p)) <> Err BtDiverged /\ fst (prev (c, p)) <> Err BtDiverged /\
  (forall fuel, (budget c <= fuel)%nat ->
     advance_loop fuel (c, p) = advance (c, p) /\ advance_rev_loop fuel (c, p) = advance_rev (c, p)).
Proof.
  split; [apply (start_ends false)|]. split; [apply (start_ends true)|]. split; [by apply advance_loop_ends|]. split.
  - unfold prev. apply ends_bind; [done|]. intros c' s [= <- <-]. cbn. case_match; [done|]. by apply advance_rev_loop_ends.
  - intros fuel Hf. split; [by apply advance_loop_fuel|by apply advance_rev_loop_fuel].
Qed.

(** ** Witnesses *)

Definition three_rows : list (Z * list Z) := [(1, [10; 11]); (5, [50]); (9, replicate 300 7)].

Lemma small_three : small_entries three_rows.
Proof.
  split; [repeat constructor; by vm_compute|]. split; [|by vm_compute].
  repeat constructor; by vm_compute.
Qed.

Lemma small_nil : small_entries [].
Proof. split; [constructor|]. split; [constructor|by vm_compute]. Qed.

Lemma three_short : map_Forall (fun _ v => len v <= MAX_PAYLOAD_LEN) (list_to_map three_rows : gmap Z (list Z)).
Proof. apply (bool_decide_unpack _). by vm_compute. Qed.

Lemma seek_reads_map_witness :
  exists s, seek_row 5 (new_cursor (plain_header 2) 2, sample_table three_rows) = (Ok (Some (5, [50])), s).
Proof.
  destruct (@seek_reads_map true LockTable _ 512 (plain_header 2) (sample_table three_rows) 0 2 (list_to_map three_rows) {[2]} 5) as (s & E);
    [lia|done|apply alloc_pager_coherent|apply (sample_ok three_rows), small_three|done|by rewrite size_singleton|apply three_short|by vm_compute|].
  exists s. rewrite E. reflexivity.
Defined.

Lemma scan_returns_table_witness :
  exists T s, scan true 4 (new_cursor (plain_header 2) 2, sample_table three_rows) = (Ok (turn true T), s) /\
    (list_to_map three_rows : gmap Z (list Z)) = list_to_map T /\ ForallOrdPairs (fun a b => a.1 < b.1) T /\ length T = base.size (list_to_map three_rows : gmap Z (list Z)).
Proof.
  apply (@scan_returns_table true LockTable _ 512 (plain_header 2) (sample_table three_rows) 0 2 (list_to_map three_rows) {[2]} true 4);
    [lia|done|apply alloc_pager_coherent|apply (sample_ok three_rows), small_three|by rewrite size_singleton|apply three_short|by vm_compute].
Defined.


Lemma empty_room : leaf_room 512 (sample_table []) 2 1 (leaf_cell 512 1 (replicate 600 3) 0).
Proof.
  intros anc leaf q buf cells Ef Hb Hc. assert (leaf = 2) as -> by (vm_compute in Ef; congruence).
  assert (cells = []) as -> by (vm_compute in Hb; injection Hb as <-; vm_compute in Hc; congruence). left. by vm_compute.
Qed.

Lemma insert_row_inserts_witness :
  exists p' cnt' F' h' ps', insert_row (plain_header 2) 2 1 (replicate 600 3) (sample_table []) = (Ok tt, p') /\
    table 512 p' h' 2 (<[1 := replicate 600 3]> ∅) ps' /\ (h' <= 1)%nat /\ {[2]} ⊆ ps' /\ (ps' ∖ {[2]}) ## {[2]} /\
    world p' cnt' F' ({[2]} ∪ ps') /\ same_base (sample_table []) p' /\
    (forall k : Z, k ∈ ({[2]} : gset Z) -> k ∉ ({[2]} : gset Z) -> same_content (sample_table []) p' k).
Proof.
  apply (@insert_row_inserts true LockTable _ 512 (plain_header 2) (sample_table []) 2 [] {[2]} 0 2 ∅ {[2]} 1 (replicate 600 3));
    [by vm_compute|done|apply (sample_ok []), small_nil|apply (sample_ok []), small_nil|done|done|by vm_compute|by vm_compute|by vm_compute|done|apply empty_room].
Defined.

Lemma insert_row_refuses_duplicate_witness :
  exists p' cnt' F' leaked, insert_row (plain_header 2) 2 5 (replicate 600 3) (sample_table three_rows) = (Err (BtDuplicateRowid 5), p') /\
    table 512 p' 0 2 (list_to_map three_rows) {[2]} /\ world p' cnt' F' (leaked ∪ {[2]}) /\ leaked ## {[2]} /\
    (forall k : Z, k ∈ ({[2]} : gset Z) -> same_content (sample_table three_rows) p' k) /\ (spilled 512 (replicate 600 3) <> [] -> leaked <> ∅).
Proof.
  apply (@insert_row_refuses_duplicate true LockTable _ 512 (plain_header 2) (sample_table three_rows) 2 [] {[2]} 0 2 (list_to_map three_rows) {[2]} 5 (replicate 600 3));
    [by vm_compute|done|apply (sample_ok three_rows), small_three|apply (sample_ok three_rows), small_three|done|done|by vm_compute|by vm_compute|by vm_compute|].
  exists [50]. by vm_compute.
Defined.

Lemma delete_row_deletes_witness :
  exists p' F' ps', delete_row (plain_header 2) 2 5 (sample_table three_rows) = (Ok tt, p') /\ table 512 p' 0 2 (delete 5 (list_to_map three_rows)) ps' /\
    ps' ⊆ {[2]} /\ world p' 2 F' ({[2]} ∖ ({[2]} ∖ ps')) /\ same_base (sample_table three_rows) p' /\
    (forall k : Z, k ∈ ({[2]} : gset Z) -> k ∉ ({[2]} : gset Z) -> same_content (sample_table three_rows) p' k).
Proof.
  apply (@delete_row_deletes true LockTable _ 512 (plain_header 2) (sample_table three_rows) 2 [] {[2]} 0 2 (list_to_map three_rows) {[2]} 5 [50]);
    [lia|done|by vm_compute|apply (sample_ok three_rows), small_three|apply (sample_ok three_rows), small_three|done|by intros ?%elem_of_singleton|done|by vm_compute|by vm_compute].
Defined.

Lemma delete_row_refuses_missing_witness :
  exists q, delete_row (plain_header 2) 2 6 (sample_table three_rows) = (Err (BtRowidNotFound 6), q) /\ updated (sample_table three_rows) q ∅.
Proof.
  apply (@delete_row_refuses_missing true LockTable _ 512 (plain_header 2) (sample_table three_rows) 0 2 (list_to_map three_rows) {[2]} 6);
    [lia|done|apply alloc_pager_coherent|apply (sample_ok three_rows), small_three|done|by vm_compute|by vm_compute].
Defined.
