(* ===== verification/IndexBtree.v ===== *)
(** * Index b-trees ([src/btree/index.rs], [index/insert.rs], [index/delete.rs])

    Interior cells carry entries of their own.  The cursor walks a tree in both
    directions and seeks a key by binary search on every level; insertion
    promotes the median entry of a page that splits; deletion of an entry on an
    interior page puts its predecessor in its place. *)

From stdpp Require Import prelude list numbers gmap.
From Stdlib Require Import ZArith Lia.
From S2P Require Import Prelude Varint Text Record Float ValueOrder Header Freelist Vfs Journal Wal Lock Shm Checkpoint PageCache Pager Commit Transactions Allocator BtreePage LeafPage LeafSearch Btree Tree TreeSplit Overflow Table Cursor.

Local Open Scope Z_scope.

Definition LEAF_INDEX : Z := 10.
Definition INTERIOR_INDEX : Z := 2.

(** The decoded key with the verbatim cell; on an interior page with the child
    to the left of the entry. *)
Definition IndexLeafCell : Type := list Value * list Z.
Definition IndexInteriorEntry : Type := Z * list Value * list Z.

Record IndexFrame := MkIndexFrame {
  if_page_num : Z; if_is_interior : bool; if_num_cells : Z; if_cell_ptr_base : Z; if_rightmost : Z; if_step : Z; if_page : list Z }.

(** [ic_stack] has the top of the source's vector first. *)
Record IndexCursor := MkIndexCursor { ic_usable_size : Z; ic_root_page : Z; ic_stack : list IndexFrame; ic_pages_visited : Z }.

Definition set_step (f : IndexFrame) (step : Z) : IndexFrame :=
  MkIndexFrame (if_page_num f) (if_is_interior f) (if_num_cells f) (if_cell_ptr_base f) (if_rightmost f) step (if_page f).
Definition ic_set_stack (c : IndexCursor) (s : list IndexFrame) : IndexCursor := MkIndexCursor (ic_usable_size c) (ic_root_page c) s (ic_pages_visited c).
Definition ic_set_visited (c : IndexCursor) (n : Z) : IndexCursor := MkIndexCursor (ic_usable_size c) (ic_root_page c) (ic_stack c) n.
Definition new_index_cursor (usable_size root_page : Z) : IndexCursor := MkIndexCursor usable_size root_page [] 0.

Definition build_index_interior_cell (child : Z) (value_cell_bytes : list Z) : list Z := be_encode 4 child ++ value_cell_bytes.

(** Where the cell ends that starts its payload at [tail_start]. *)
Definition value_cell_end (usable_size payload_len tail_start : Z) : Z :=
  let local_size := local_payload_size usable_size payload_len true in
  sat_add (sat_add tail_start local_size) (if local_size <? payload_len then 4 else 0).

Definition value_cell_len (buf : list Z) (cell_start page_num usable_size : Z) : result BtreeError Z :=
  '(payload_len, tail_start) ← decode_payload_len buf cell_start page_num;
  Ok (sat_sub (value_cell_end usable_size payload_len tail_start) cell_start).

Definition write_index_leaf_page (buf : list Z) (header_start page_num : Z) (cells : list (list Z)) : result BtreeError (list Z) :=
  write_page_common buf header_start page_num LEAF_INDEX 8 cells.
Definition write_index_interior_page (buf : list Z) (header_start page_num : Z) (cells : list (list Z)) (rightmost : Z) : result BtreeError (list Z) :=
  buf ← write_page_common buf header_start page_num INTERIOR_INDEX 12 cells;
  put buf (sat_add header_start 8) (be_encode 4 rightmost) page_num.

Section IndexTree.
Context `{host : Host} {OS : Type} `{Fcntl OS}.
Abbreviation Tr := (M (Pager OS) BtreeError).

(** ** The cursor *)

Abbreviation Cur := (M (IndexCursor * Pager OS) BtreeError).
Definition ic_self : Cur IndexCursor := fun s => (Ok s.1, s).
Definition ic_update (f : IndexCursor -> IndexCursor) : Cur unit := fun s => (Ok tt, (f s.1, s.2)).
Definition ic_source {A} (m : Tr A) : Cur A := fun s => let '(r, p) := m s.2 in (r, (s.1, p)).

Definition index_read_page (page_num : Z) : Cur (list Z) :=
  _ ← ic_update (fun c => ic_set_visited c (sat_add (ic_pages_visited c) 1));
  c ← ic_self;
  if MAX_PAGES_VISITED <? ic_pages_visited c then throw (BtTraversalTooLong MAX_PAGES_VISITED)
  else ic_source (read_page_b page_num).

(** [push_page]; [reverse] is [push_page_desc], which starts at the other end. *)
Definition index_push_page (page_num : Z) (reverse : bool) : Cur unit :=
  page ← index_read_page page_num;
  let header_start := page1_header_start page_num in
  page_type ← lift (read_page_type page header_start page_num);
  interior ← (if page_type =? LEAF_INDEX then mret false
              else if page_type =? INTERIOR_INDEX then mret true
              else throw (BtUnexpectedPageType page_num page_type));
  _ ← (if interior : bool then lift (require_interior_header page header_start page_num) else mret tt);
  num_cells ← lift (read_num_cells page header_start page_num);
  br ← (if interior : bool then
          r ← lift (read_u32 page (sat_add header_start 8) page_num); mret (sat_add header_start 12, r)
        else mret (sat_add header_start 8, 0));
  let step := if reverse then (if interior : bool then sat_add (sat_mul num_cells 2) 1 else num_cells) else 0 in
  ic_update (fun c => ic_set_stack c (MkIndexFrame page_num interior num_cells (fst br) (snd br) step page :: ic_stack c)).

Definition index_interior_child (frame : IndexFrame) (cell_index : Z) : result BtreeError Z :=
  cell_start ← read_cell_pointer (if_page frame) (cell_ptr_offset (if_cell_ptr_base frame) cell_index) (if_page_num frame) cell_index;
  read_u32 (if_page frame) cell_start (if_page_num frame).

(** [decode_leaf_entry] and, [skip] bytes further on, [decode_interior_entry]. *)
Definition decode_entry (skip : Z) (frame : IndexFrame) (cell_index : Z) : Cur (list Z) :=
  cell_start ← lift (read_cell_pointer (if_page frame) (cell_ptr_offset (if_cell_ptr_base frame) cell_index) (if_page_num frame) cell_index);
  lt ← lift (decode_payload_len (if_page frame) (if skip =? 0 then cell_start else sat_add cell_start skip) (if_page_num frame));
  let '(payload_len, tail_start) := lt in
  c ← ic_self;
  ic_source (reassemble_payload (ic_usable_size c) (if_page_num frame) (if_page frame) tail_start payload_len true).
Definition decode_leaf_entry : IndexFrame -> Z -> Cur (list Z) := decode_entry 0.
Definition decode_interior_entry : IndexFrame -> Z -> Cur (list Z) := decode_entry 4.

(** A round pops a page, pushes one or returns: see [budget] of the table cursor. *)
Definition index_budget (c : IndexCursor) : nat := S (length (ic_stack c) + 2 * Z.to_nat (MAX_PAGES_VISITED - ic_pages_visited c)).

Fixpoint index_advance_loop (fuel : nat) : Cur (option (list Z)) :=
  match fuel with
  | O => throw BtDiverged
  | S fuel =>
    c ← ic_self;
    match ic_stack c with
    | [] => mret None
    | f :: below =>
      let step := if_step f in
      let f' := set_step f (sat_add step 1) in
      if negb (if_is_interior f) then
        if if_num_cells f <=? step then _ ← ic_update (fun c => ic_set_stack c below); index_advance_loop fuel
        else _ ← ic_update (fun c => ic_set_stack c (f' :: below)); row ← decode_leaf_entry f' step; mret (Some row)
      else
        let total_steps := sat_mul (if_num_cells f) 2 in
        if total_steps <? step then _ ← ic_update (fun c => ic_set_stack c below); index_advance_loop fuel
        else
          _ ← ic_update (fun c => ic_set_stack c (f' :: below));
          if step =? total_steps then _ ← index_push_page (if_rightmost f) false; index_advance_loop fuel
          else if step mod 2 =? 0 then child ← lift (index_interior_child f' (step / 2)); _ ← index_push_page child false; index_advance_loop fuel
          else row ← decode_interior_entry f' (sat_sub step 1 / 2); mret (Some row)
    end
  end.
Definition index_advance : Cur (option (list Z)) := c ← ic_self; index_advance_loop (index_budget c).

Fixpoint index_advance_desc_loop (fuel : nat) : Cur (option (list Z)) :=
  match fuel with
  | O => throw BtDiverged
  | S fuel =>
    c ← ic_self;
    match ic_stack c with
    | [] => mret None
    | f :: below =>
      if if_step f =? 0 then _ ← ic_update (fun c => ic_set_stack c below); index_advance_desc_loop fuel
      else
        let a := sat_sub (if_step f) 1 in
        let f' := set_step f a in
        _ ← ic_update (fun c => ic_set_stack c (f' :: below));
        if negb (if_is_interior f) then row ← decode_leaf_entry f' a; mret (Some row)
        else if a mod 2 =? 0 then
          if a / 2 =? if_num_cells f then _ ← index_push_page (if_rightmost f) true; index_advance_desc_loop fuel
          else child ← lift (index_interior_child f' (a / 2)); _ ← index_push_page child true; index_advance_desc_loop fuel
        else row ← decode_interior_entry f' (sat_sub a 1 / 2); mret (Some row)
    end
  end.
Definition index_advance_desc : Cur (option (list Z)) := c ← ic_self; index_advance_desc_loop (index_budget c).

Definition index_rewind (c : IndexCursor) : IndexCursor := MkIndexCursor (ic_usable_size c) (ic_root_page c) [] 0.
Definition index_first : Cur (option (list Z)) := _ ← ic_update index_rewind; c ← ic_self; _ ← index_push_page (ic_root_page c) false; index_advance.
Definition index_next : Cur (option (list Z)) := index_advance.
Definition index_last : Cur (option (list Z)) := _ ← ic_update index_rewind; c ← ic_self; _ ← index_push_page (ic_root_page c) true; index_advance_desc.
Definition index_prev : Cur (option (list Z)) := index_advance_desc.

(** [fuel] is at least [hi - lo]. *)
Fixpoint binary_search_loop (fuel : nat) (lo hi : Z) (frame : IndexFrame) (target : list Value) (encoding : TextEncoding) (is_interior : bool) : Cur Z :=
  match fuel with
  | O => mret lo
  | S fuel =>
    if negb (lo <? hi) then mret lo else
    let mid := sat_add lo (sat_sub hi lo / 2) in
    row ← (if is_interior then decode_interior_entry frame mid else decode_leaf_entry frame mid);
    key ← lift (map_err BtInvalidKeyRecord (decode_record row encoding));
    match compare_keys key target with
    | Lt => binary_search_loop fuel (sat_add mid 1) hi frame target encoding is_interior
    | _ => binary_search_loop fuel lo mid frame target encoding is_interior
    end
  end.
Definition binary_search_page (frame : IndexFrame) (target : list Value) (encoding : TextEncoding) (is_interior : bool) : Cur Z :=
  binary_search_loop (Z.to_nat (if_num_cells frame)) 0 (if_num_cells frame) frame target encoding is_interior.

(** Every round pushes a page: [pages_visited] bounds them. *)
Fixpoint index_seek_loop (fuel : nat) (target : list Value) (encoding : TextEncoding) : Cur unit :=
  match fuel with
  | O => throw BtDiverged
  | S fuel =>
    c ← ic_self;
    match ic_stack c with
    | [] => throw (BtInternal IndexOutOfBounds)
    | f :: below =>
      i ← binary_search_page f target encoding (if_is_interior f);
      if negb (if_is_interior f) then ic_update (fun c => ic_set_stack c (set_step f i :: below))
      else
        child ← (if i <? if_num_cells f then
                   _ ← ic_update (fun c => ic_set_stack c (set_step f (sat_add (sat_mul i 2) 1) :: below));
                   lift (index_interior_child f i)
                 else
                   _ ← ic_update (fun c => ic_set_stack c (set_step f (sat_add (sat_mul (if_num_cells f) 2) 1) :: below));
                   mret (if_rightmost f));
        _ ← index_push_page child false;
        index_seek_loop fuel target encoding
    end
  end.

Definition index_seek (target : list Value) (encoding : TextEncoding) : Cur (option (list Z)) :=
  _ ← ic_update index_rewind;
  c ← ic_self;
  _ ← index_push_page (ic_root_page c) false;
  _ ← index_seek_loop (S (Z.to_nat MAX_PAGES_VISITED)) target encoding;
  index_advance.

(** ** Pages as lists of entries *)

Definition decode_value_cell (buf : list Z) (value_start page_num usable_size : Z) (encoding : TextEncoding) : Tr (list Value * list Z) :=
  lt ← lift (decode_payload_len buf value_start page_num);
  let '(payload_len, tail_start) := lt in
  bytes ← lift (ok_or (get_range buf value_start (value_cell_end usable_size payload_len tail_start)) (BtPayloadTooShort page_num));
  payload ← reassemble_payload usable_size page_num buf tail_start payload_len true;
  key ← lift (map_err BtInvalidKeyRecord (decode_record payload encoding));
  mret (key, bytes).

(** [for i in 0..num_cells], [n] cells left from cell [i]. *)
Fixpoint index_leaf_loop (n : nat) (i : Z) (buf : list Z) (ptr_base page_num usable_size : Z) (encoding : TextEncoding) : Tr (list IndexLeafCell) :=
  match n with
  | O => mret []
  | S n =>
    cell_start ← lift (read_cell_pointer buf (cell_ptr_offset ptr_base i) page_num i);
    cell ← decode_value_cell buf cell_start page_num usable_size encoding;
    rest ← index_leaf_loop n (i + 1) buf ptr_base page_num usable_size encoding;
    mret (cell :: rest)
  end.
Definition collect_index_leaf_cells (buf : list Z) (header_start page_num usable_size : Z) (encoding : TextEncoding) : Tr (list IndexLeafCell) :=
  num_cells ← lift (read_num_cells buf header_start page_num);
  index_leaf_loop (Z.to_nat num_cells) 0 buf (sat_add header_start 8) page_num usable_size encoding.

Fixpoint index_interior_loop (n : nat) (i : Z) (buf : list Z) (ptr_base page_num usable_size : Z) (encoding : TextEncoding) : Tr (list IndexInteriorEntry) :=
  match n with
  | O => mret []
  | S n =>
    cell_start ← lift (read_cell_pointer buf (cell_ptr_offset ptr_base i) page_num i);
    child ← lift (read_u32 buf cell_start page_num);
    cell ← decode_value_cell buf (sat_add cell_start 4) page_num usable_size encoding;
    rest ← index_interior_loop n (i + 1) buf ptr_base page_num usable_size encoding;
    mret ((child, fst cell, snd cell) :: rest)
  end.
Definition collect_index_interior_entries (buf : list Z) (header_start page_num usable_size : Z) (encoding : TextEncoding) : Tr (list IndexInteriorEntry * Z) :=
  num_cells ← lift (read_num_cells buf header_start page_num);
  out ← index_interior_loop (Z.to_nat num_cells) 0 buf (sat_add header_start 12) page_num usable_size encoding;
  rightmost ← lift (read_u32 buf (sat_add header_start 8) page_num);
  mret (out, rightmost).

Inductive LeafSearch : Type :=
  | Found (pos : Z) (cell : IndexLeafCell)
  | NotFound (pos : Z).

Fixpoint search_leaf_loop (fuel : nat) (lo hi : Z) (buf : list Z) (ptr_base page_num usable_size : Z) (encoding : TextEncoding) (key : list Value) : Tr LeafSearch :=
  match fuel with
  | O => mret (NotFound lo)
  | S fuel =>
    if negb (lo <? hi) then mret (NotFound lo) else
    let mid := sat_add lo (sat_sub hi lo / 2) in
    cell_start ← lift (read_cell_pointer buf (cell_ptr_offset ptr_base mid) page_num mid);
    decoded ← decode_value_cell buf cell_start page_num usable_size encoding;
    match compare_keys key (fst decoded) with
    | Eq => mret (Found mid decoded)
    | Lt => search_leaf_loop fuel lo mid buf ptr_base page_num usable_size encoding key
    | Gt => search_leaf_loop fuel (sat_add mid 1) hi buf ptr_base page_num usable_size encoding key
    end
  end.
Definition search_index_leaf (buf : list Z) (header_start page_num usable_size : Z) (encoding : TextEncoding) (key : list Value) : Tr LeafSearch :=
  num_cells ← lift (read_num_cells buf header_start page_num);
  search_leaf_loop (Z.to_nat num_cells) 0 num_cells buf (sat_add header_start 8) page_num usable_size encoding key.

Definition index_cells (entries : list IndexInteriorEntry) : list (list Z) := map (fun e => build_index_interior_cell e.1.1 e.2) entries.

(** ** Descent *)

Inductive IndexDescent : Type :=
  | DescentLeaf (ancestors : list Z) (leaf_page : Z)
  | InteriorMatch (interior_page entry_child : Z).

Fixpoint index_route (entries : list IndexInteriorEntry) (rightmost : Z) (key : list Value) : Z :=
  match entries with
  | [] => rightmost
  | (child, entry_key, _) :: rest => match compare_keys key entry_key with Lt => child | _ => index_route rest rightmost key end
  end.

Fixpoint descend_loop (fuel : nat) (ancestors : list Z) (page_num usable_size : Z) (key : list Value) (encoding : TextEncoding) : Tr IndexDescent :=
  match fuel with
  | O => throw (BtTraversalTooLong MAX_PAGES_VISITED)
  | S fuel =>
    page ← read_page_b page_num;
    let header_start := page1_header_start page_num in
    page_type ← lift (read_page_type page header_start page_num);
    if page_type =? LEAF_INDEX then mret (DescentLeaf ancestors page_num)
    else if page_type =? INTERIOR_INDEX then
      er ← collect_index_interior_entries page header_start page_num usable_size encoding;
      let '(entries, rightmost) := er in
      match list_find (fun e => compare_keys key e.1.2 = Eq) entries with
      | Some (_, (child, _, _)) => mret (InteriorMatch page_num child)
      | None => descend_loop fuel (ancestors ++ [page_num]) (index_route entries rightmost key) usable_size key encoding
      end
    else throw (BtUnexpectedPageType page_num page_type)
  end.
Definition descend_index_tree (page_num usable_size : Z) (key : list Value) (encoding : TextEncoding) : Tr IndexDescent :=
  descend_loop (Z.to_nat MAX_PAGES_VISITED) [] page_num usable_size key encoding.

(** ** Insertion *)

Definition encode_index_cell (usable_size : Z) (payload : list Z) : Tr (list Z) :=
  let payload_len := len payload in
  let local_size := Z.min (local_payload_size usable_size payload_len true) (len payload) in
  let local_bytes := take (Z.to_nat local_size) payload in
  let overflow_bytes := drop (Z.to_nat local_size) payload in
  let cell := encode_varint payload_len ++ local_bytes in
  match overflow_bytes with
  | [] => mret cell
  | _ => overflow_first ← write_overflow_chain usable_size overflow_bytes; mret (cell ++ be_encode 4 overflow_first)
  end.

Definition relocate_index_root (usable_size root_page : Z) (encoding : TextEncoding) : Tr Z :=
  let header_start_root := page1_header_start root_page in
  content ← get_page_mut_b root_page;
  page_type ← lift (read_page_type content header_start_root root_page);
  relocated ← allocate_page_b;
  _ ← (if page_type =? LEAF_INDEX then
         cells ← collect_index_leaf_cells content header_start_root root_page usable_size encoding;
         edit_page relocated (fun dest => write_index_leaf_page dest 0 relocated (cell_bytes cells))
       else if page_type =? INTERIOR_INDEX then
         er ← collect_index_interior_entries content header_start_root root_page usable_size encoding;
         let '(entries, rightmost) := er in
         edit_page relocated (fun dest => write_index_interior_page dest 0 relocated (index_cells entries) rightmost)
       else throw (BtUnexpectedPageType root_page page_type));
  mret relocated.

Definition index_root_split (usable_size root_page new_right : Z) (promoted_bytes : list Z) (encoding : TextEncoding) : Tr unit :=
  relocated ← relocate_index_root usable_size root_page encoding;
  edit_page root_page (fun buf =>
    write_index_interior_page buf (page1_header_start root_page) root_page [build_index_interior_cell relocated promoted_bytes] new_right).

(** The parent's entries once [old_page] has split off [new_page]. *)
Fixpoint index_replace_child (entries : list IndexInteriorEntry) (old_page new_page : Z) (key : list Value) (bytes : list Z) : option (list IndexInteriorEntry) :=
  match entries with
  | [] => None
  | (child, k, b) :: rest =>
    if child =? old_page then Some ((old_page, key, bytes) :: (new_page, k, b) :: rest)
    else e ← index_replace_child rest old_page new_page key bytes; Some ((child, k, b) :: e)
  end.

Definition index_split_route (parent_page : Z) (entries : list IndexInteriorEntry) (rightmost old_page new_page : Z) (key : list Value) (bytes : list Z)
    : result BtreeError (list IndexInteriorEntry * Z) :=
  match index_replace_child entries old_page new_page key bytes with
  | Some entries => Ok (entries, rightmost)
  | None => if rightmost =? old_page then Ok (entries ++ [(old_page, key, bytes)], new_page)
            else Err (BtMissingChildRoute parent_page old_page)
  end.

(** The ancestors are given from the immediate parent up. *)
Fixpoint insert_into_index_parent (usable_size page_len : Z) (ancestors_up : list Z) (root_page old_page new_page : Z)
    (promoted_key : list Value) (promoted_bytes : list Z) (encoding : TextEncoding) : Tr unit :=
  match ancestors_up with
  | [] => index_root_split usable_size root_page new_page promoted_bytes encoding
  | parent_page :: rest =>
    let header_start := page1_header_start parent_page in
    buf ← get_page_mut_b parent_page;
    er ← collect_index_interior_entries buf header_start parent_page usable_size encoding;
    let '(entries, rightmost) := er in
    er ← lift (index_split_route parent_page entries rightmost old_page new_page promoted_key promoted_bytes);
    let '(entries, rightmost) := er in
    let cells := index_cells entries in
    let total_bytes := foldr (fun c n => len c + n) 0 cells in
    let needed := sat_add (sat_add (sat_add header_start 12) (sat_mul (len cells) 2)) total_bytes in
    if needed <=? page_len then
      edit_page parent_page (fun buf => write_index_interior_page buf header_start parent_page cells rightmost)
    else
      let mid := Nat.div2 (length entries) in
      promoted ← lift (ok_or (entries !! mid) (BtInternal MedianMissing));
      let '(promoted_child, promoted_key, promoted_bytes) := promoted in
      right_page_num ← allocate_page_b;
      _ ← edit_page parent_page (fun buf => write_index_interior_page buf header_start parent_page (index_cells (take mid entries)) promoted_child);
      _ ← edit_page right_page_num (fun buf => write_index_interior_page buf 0 right_page_num (index_cells (drop (S mid) entries)) rightmost);
      insert_into_index_parent usable_size page_len rest root_page parent_page right_page_num promoted_key promoted_bytes encoding
  end.

(** The sum of the lengths of [n] cells from cell [i]. *)
Fixpoint cells_len_loop (n : nat) (i total : Z) (buf : list Z) (ptr_base page_num usable_size : Z) : result BtreeError Z :=
  match n with
  | O => Ok total
  | S n =>
    cell_start ← read_cell_pointer buf (cell_ptr_offset ptr_base i) page_num i;
    l ← value_cell_len buf cell_start page_num usable_size;
    cells_len_loop n (i + 1) (sat_add total l) buf ptr_base page_num usable_size
  end.

Definition insert_into_index_leaf (usable_size page_len leaf_page root_page : Z) (ancestors : list Z) (key : list Value) (payload : list Z) (encoding : TextEncoding) : Tr unit :=
  let header_start := page1_header_start leaf_page in
  buf ← get_page_mut_b leaf_page;
  found ← search_index_leaf buf header_start leaf_page usable_size encoding key;
  match found with
  | Found _ _ => throw BtDuplicateKey
  | NotFound insert_pos =>
    cell ← encode_index_cell usable_size payload;
    num_cells ← lift (read_num_cells buf header_start leaf_page);
    total_bytes ← lift (cells_len_loop (Z.to_nat num_cells) 0 (len cell) buf (sat_add header_start 8) leaf_page usable_size);
    let needed := sat_add (sat_add (sat_add header_start 8) (sat_mul (sat_add num_cells 1) 2)) total_bytes in
    if needed <=? page_len then
      page_buf ← get_page_mut_b leaf_page;
      spliced ← lift (splice_insert_cell page_buf header_start leaf_page insert_pos cell);
      match spliced with
      | Some page_buf => map_err_M BtPager (put_page leaf_page page_buf)
      | None =>
        cells ← collect_index_leaf_cells buf header_start leaf_page usable_size encoding;
        edit_page leaf_page (fun page_buf =>
          write_index_leaf_page page_buf header_start leaf_page (cell_bytes (vec_insert (Z.to_nat insert_pos) (key, cell) cells)))
      end
    else
      cells ← collect_index_leaf_cells buf header_start leaf_page usable_size encoding;
      let cells := vec_insert (Z.to_nat insert_pos) (key, cell) cells in
      let mid := Nat.div2 (length cells) in
      promoted ← lift (ok_or (cells !! mid) (BtInternal MedianMissing));
      let '(promoted_key, promoted_bytes) := promoted in
      right_page ← allocate_page_b;
      _ ← edit_page leaf_page (fun buf => write_index_leaf_page buf header_start leaf_page (cell_bytes (take mid cells)));
      _ ← edit_page right_page (fun buf => write_index_leaf_page buf 0 right_page (cell_bytes (drop (S mid) cells)));
      insert_into_index_parent usable_size page_len (rev ancestors) root_page leaf_page right_page promoted_key promoted_bytes encoding
  end.

Definition insert_entry (header : DatabaseHeader) (root_page : Z) (key : list Value) (encoding : TextEncoding) : Tr unit :=
  let usable_size := usable_page_size header in
  d ← descend_index_tree root_page usable_size key encoding;
  match d with
  | InteriorMatch _ _ => throw BtDuplicateKey
  | DescentLeaf ancestors leaf_page =>
    let payload := encode_record key encoding in
    page ← get_page_mut_b leaf_page;
    insert_into_index_leaf usable_size (len page) leaf_page root_page ancestors key payload encoding
  end.

(** ** Deletion *)

Definition overflow_page_of (value_bytes : list Z) (usable_size : Z) : result BtreeError Z :=
  '(payload_len, tail_start) ← decode_payload_len value_bytes 0 0;
  let local_size := local_payload_size usable_size payload_len true in
  if local_size <? payload_len then read_u32 value_bytes (sat_add tail_start local_size) 0 else Ok 0.

Definition free_index_overflow (first_page : Z) : Tr unit := p ← get_st; free_overflow_chain (page_bound p) first_page first_page [].

Definition delete_from_leaf (usable_size leaf_page : Z) (key : list Value) (encoding : TextEncoding) : Tr unit :=
  let header_start := page1_header_start leaf_page in
  buf ← get_page_mut_b leaf_page;
  found ← search_index_leaf buf header_start leaf_page usable_size encoding key;
  match found with
  | NotFound _ => throw BtKeyNotFound
  | Found pos cell =>
    overflow_page ← lift (overflow_page_of (snd cell) usable_size);
    _ ← edit_page leaf_page (fun buf => splice_delete_cell buf header_start leaf_page usable_size pos false);
    free_index_overflow overflow_page
  end.

(** [fuel] counts down from the depth at which the source gives up. *)
Fixpoint extract_max_entry (fuel : nat) (usable_size page_num : Z) (encoding : TextEncoding) : Tr (option (list Z)) :=
  match fuel with
  | O => throw (BtTraversalTooLong MAX_PAGES_VISITED)
  | S fuel =>
    let header_start := page1_header_start page_num in
    buf ← get_page_mut_b page_num;
    page_type ← lift (read_page_type buf header_start page_num);
    if page_type =? LEAF_INDEX then
      cells ← collect_index_leaf_cells buf header_start page_num usable_size encoding;
      match list.last cells with
      | None => mret None
      | Some (_, max_bytes) =>
        _ ← edit_page page_num (fun buf => splice_delete_cell buf header_start page_num usable_size (sat_sub (len cells) 1) false);
        mret (Some max_bytes)
      end
    else if negb (page_type =? INTERIOR_INDEX) then throw (BtUnexpectedPageType page_num page_type)
    else
      er ← collect_index_interior_entries buf header_start page_num usable_size encoding;
      let '(entries, rightmost) := er in
      m ← extract_max_entry fuel usable_size rightmost encoding;
      match m with
      | Some max_bytes => mret (Some max_bytes)
      | None =>
        _ ← deallocate_page_b rightmost;
        match list.last entries with
        | None => mret None
        | Some (child, _, max_bytes) =>
          _ ← edit_page page_num (fun buf => write_index_interior_page buf header_start page_num (index_cells (removelast entries)) child);
          mret (Some max_bytes)
        end
      end
  end.

Definition remove_entry_by_child (usable_size page_num child_to_remove : Z) (encoding : TextEncoding) : Tr unit :=
  let header_start := page1_header_start page_num in
  buf ← get_page_mut_b page_num;
  er ← collect_index_interior_entries buf header_start page_num usable_size encoding;
  let '(entries, rightmost) := er in
  match list_find (fun e => e.1.1 = child_to_remove) entries with
  | None => throw (BtMissingChildRoute page_num child_to_remove)
  | Some (idx, (_, _, removed_value_bytes)) =>
    overflow_page ← lift (overflow_page_of removed_value_bytes usable_size);
    _ ← edit_page page_num (fun buf => write_index_interior_page buf header_start page_num (index_cells (delete idx entries)) rightmost);
    free_index_overflow overflow_page
  end.

Definition delete_via_predecessor_swap (usable_size interior_page entry_child : Z) (encoding : TextEncoding) : Tr unit :=
  m ← extract_max_entry (S (Z.to_nat MAX_PAGES_VISITED)) usable_size entry_child encoding;
  match m with
  | Some predecessor_bytes =>
    let header_start := page1_header_start interior_page in
    buf ← get_page_mut_b interior_page;
    er ← collect_index_interior_entries buf header_start interior_page usable_size encoding;
    let '(entries, rightmost) := er in
    match list_find (fun e => e.1.1 = entry_child) entries with
    | None => throw (BtInternal RoutingEntryMissing)
    | Some (idx, (child, key, _)) =>
      edit_page interior_page (fun buf =>
        write_index_interior_page buf header_start interior_page (index_cells (<[idx := (child, key, predecessor_bytes)]> entries)) rightmost)
    end
  | None => _ ← deallocate_page_b entry_child; remove_entry_by_child usable_size interior_page entry_child encoding
  end.

Definition delete_entry (header : DatabaseHeader) (root_page : Z) (key : list Value) (encoding : TextEncoding) : Tr unit :=
  let usable_size := usable_page_size header in
  d ← descend_index_tree root_page usable_size key encoding;
  match d with
  | DescentLeaf _ leaf_page => delete_from_leaf usable_size leaf_page key encoding
  | InteriorMatch interior_page entry_child => delete_via_predecessor_swap usable_size interior_page entry_child encoding
  end.
End IndexTree.
