(* ===== verification/IndexScan.v ===== *)
(** * Index b-trees as lists of entries

    What a tree of index pages holds, in the order of its pages, and what the
    cursor returns: every entry forward and backward, and from a key on. *)

From stdpp Require Import prelude list numbers gmap sorting.
From Stdlib Require Import ZArith Lia.
From S2P Require Import Prelude Varint Text Record Float ValueOrder Header Freelist Vfs Journal Wal Lock Shm Checkpoint PageCache Pager Commit Transactions Allocator BtreePage LeafPage LeafSearch Btree Tree TreeSplit Overflow Table Cursor CursorScan IndexBtree.

Local Open Scope Z_scope.

Section Index.
Context `{host : Host} {OS : Type} `{Fcntl OS}.
Context (usable : Z).

(** ** Cells *)

Definition index_size (payload : list Z) : Z := local_payload_size usable (len payload) true.
Definition index_local (payload : list Z) : list Z := take (Z.to_nat (index_size payload)) payload.
Definition index_spill (payload : list Z) : list Z := drop (Z.to_nat (index_size payload)) payload.
Definition value_cell (payload : list Z) (first : Z) : list Z :=
  encode_varint (len payload) ++ index_local payload ++ match index_spill payload with [] => [] | _ => be_encode 4 first end.

(** The entry a cell stands for, with its overflow chain. *)
Definition holds (p : Pager OS) (cell payload : list Z) : Prop :=
  exists pages, cell = value_cell payload (first_page pages) /\ len payload <= MAX_PAYLOAD_LEN /\ NoDup pages /\
    Z.of_nat (length pages) <= MAX_PAGES_VISITED /\ chain_at p pages (chunks (index_spill payload) (usable - 4)).

Section Cells.
Context (Husable : 480 <= usable <= 65536).

Lemma index_size_bounds payload : 0 <= index_size payload <= len payload /\ index_size payload <= usable - 35.
Proof using Husable.
  unfold index_size, local_payload_size. cbv zeta. pose proof (len_nonneg payload). set (plen := len payload) in *.
  rewrite (sat_sub_small usable 12), (sat_sub_small usable 4) by lia. rewrite !sat_mul_small by (unfold U64_MAX; lia). rewrite Z.max_l by lia.
  set (m := (usable - 12) * 32 / 255). set (x := (usable - 12) * 64 / 255).
  assert (58 <= m) by (unfold m; apply Z.div_le_lower_bound; lia). assert (m <= x) by (unfold m, x; apply Z.div_le_mono; lia).
  assert (x <= usable - 12) by (unfold x; apply Z.div_le_upper_bound; lia). rewrite (sat_sub_small x 23), (sat_sub_small m 23) by lia.
  destruct (Z.leb_spec plen (x - 23)); [lia|]. rewrite (sat_sub_small plen) by lia. pose proof (Z.mod_pos_bound (plen - (m - 23)) (usable - 4) ltac:(lia)).
  rewrite sat_add_small by (unfold U64_MAX; lia). destruct (Z.leb_spec (m - 23 + (plen - (m - 23)) mod (usable - 4)) (x - 23)); lia.
Qed.

Lemma len_index_local payload : len (index_local payload) = index_size payload.
Proof using Husable. pose proof (index_size_bounds payload). unfold index_local. rewrite len_take by lia. done. Qed.

Lemma index_spill_nil payload : index_spill payload = [] <-> index_size payload = len payload.
Proof using Husable.
  pose proof (index_size_bounds payload). unfold index_spill. split.
  - intros E. apply (f_equal len) in E. rewrite len_drop in E by lia. change (len (@nil Z)) with 0 in E. lia.
  - intros ->. apply drop_ge. unfold len. lia.
Qed.

(** A stored cell, read back from the page. *)
Lemma value_cell_read (p q : Pager OS) buf o cell payload pn :
  0 <= o -> len buf <= 65536 -> get_range buf o (o + len cell) = Some cell -> holds p cell payload -> updated p q ∅ ->
  exists tail q', decode_payload_len buf o pn = Ok (len payload, tail) /\
    reassemble_payload usable pn buf tail (len payload) true q = (Ok payload, q') /\ updated p q' ∅.
Proof using Husable.
  intros Ho Hl Hg (pages & -> & Hmax & Hnd & Hpg & Hch) Hq. pose proof (drop_cell _ _ _ Ho Hg) as Hdrop. pose proof (get_range_inv _ _ _ _ Hg) as (_ & Hle & _ & _).
  set (cell := value_cell payload (first_page pages)) in *. set (rest := drop (Z.to_nat (o + len cell)) buf) in *. pose proof (len_nonneg cell). pose proof (len_nonneg payload).
  set (e1 := encode_varint (len payload)). set (ptr := match index_spill payload with [] => [] | _ => be_encode 4 (first_page pages) end).
  assert (Hparts : drop (Z.to_nat o) buf = e1 ++ index_local payload ++ ptr ++ rest) by (rewrite Hdrop; unfold cell, value_cell, ptr; by rewrite <- !app_assoc).
  assert (Hn1 : varint_len (len payload) = len e1) by (unfold e1; by rewrite len_encode_varint).
  assert (Hc : len cell = len e1 + index_size payload + len ptr) by (unfold cell, value_cell; rewrite !len_app, len_index_local; fold e1 ptr; lia).
  pose proof (index_size_bounds payload) as Hls. pose proof (len_nonneg e1). pose proof (len_nonneg ptr).
  assert (Hsat : sat_add o (len e1) = o + len e1) by (apply sat_add_small; unfold U64_MAX; lia).
  assert (Hdec : decode_payload_len buf o pn = Ok (len payload, o + len e1)).
  { unfold decode_payload_len. rewrite get_from_Some by lia. cbn [ok_or mbind result_bind]. rewrite Hparts. unfold e1 at 1.
    rewrite decode_encode_varint by (unfold is_u64; unfold MAX_PAYLOAD_LEN in Hmax; lia). cbn [map_err mbind result_bind]. by rewrite Hn1, Hsat. }
  assert (Htail : get_from buf (o + len e1) = Some (index_local payload ++ ptr ++ rest)).
  { rewrite get_from_Some by lia. f_equal. replace (Z.to_nat (o + len e1)) with (Z.to_nat o + length e1)%nat by (unfold len; lia).
    rewrite <- drop_drop, Hparts. by rewrite drop_app_length. }
  exists (o + len e1). unfold reassemble_payload. rewrite (proj2 (Z.ltb_ge _ _)) by lia. rewrite Htail. cbn [ok_or]. rewrite bind_lift_ok. cbv zeta.
  fold (index_size payload). rewrite (get_range_app_prefix _ _ (index_size payload)) by (by rewrite len_index_local). cbn [ok_or]. rewrite bind_lift_ok.
  pose proof (index_spill_nil payload) as Hsn. destruct (Z.eqb_spec (index_size payload) (len payload)) as [El|Hne].
  - exists q. split; [done|]. split; [|done]. unfold index_local. rewrite El, take_ge by (unfold len; lia). done.
  - destruct (index_spill payload) as [|x sp] eqn:Es; [exfalso; by apply Hne, Hsn|]. rewrite <- Es in *.
    rewrite sat_add_small by (unfold U64_MAX, MAX_PAYLOAD_LEN in *; lia). replace (index_size payload + 4) with (index_size payload + len ptr) by (unfold ptr; rewrite len_be_encode; lia).
    rewrite (get_range_app3 (index_local payload)) by (rewrite ?len_index_local; lia). cbn [ok_or]. rewrite bind_lift_ok. unfold ptr.
    rewrite be_roundtrip by (pose proof (first_page_u32 _ _ _ Hch) as Hf; unfold is_u32 in Hf; lia). rewrite (sat_sub_small usable 4), Z.max_l by lia. rewrite sat_sub_small by lia.
    assert (len (index_spill payload) = len payload - index_size payload) as <- by (unfold index_spill; rewrite len_drop; lia).
    destruct (overflow_read_back pn (usable - 4) pages p q (Z.to_nat MAX_PAGES_VISITED) (index_spill payload) [] (index_local payload))
      as (q' & E & Hq'); try done; [lia|intros n _ ?%elem_of_nil; done|lia|unfold index_spill; rewrite len_drop by lia; unfold MAX_PAYLOAD_LEN, U64_MAX in *; lia|].
    rewrite E. exists q'. split; [done|]. split; [|done]. unfold index_local, index_spill. by rewrite take_drop.
Qed.
End Cells.

(** ** Trees *)

Definition index_leaf (buf : list Z) (hs : Z) (cells : list (list Z)) : Prop :=
  get_at buf hs = Some LEAF_INDEX /\ exists cs slots, page_slots buf hs 8 cs slots /\ map snd slots = cells.
Definition index_interior (buf : list Z) (hs : Z) (entries : list (Z * list Z)) (rightmost : Z) : Prop :=
  get_at buf hs = Some INTERIOR_INDEX /\ read_be 4 buf (hs + 8) = Some rightmost /\ Forall (fun e => is_u32 e.1) entries /\
  exists cs slots, page_slots buf hs 12 cs slots /\ map snd slots = map (fun e => build_index_interior_cell e.1 e.2) entries.

(** What the cursor does on an interior page, from left to right. *)
Inductive action : Type :=
  | Descend (page : Z)
  | Yield (cell : list Z).
Fixpoint actions (entries : list (Z * list Z)) (rightmost : Z) : list action :=
  match entries with
  | [] => [Descend rightmost]
  | (child, cell) :: entries => Descend child :: Yield cell :: actions entries rightmost
  end.

(** The tree under page [n], of height at most [h], holds the cells [cells] in
    this order, on the pages [ps]. *)
Inductive itree (p : Pager OS) : nat -> Z -> list (list Z) -> gset Z -> Prop :=
| itree_leaf h n buf cells : is_u32 n -> logical p n = Ok buf -> index_leaf buf (content_offset n) cells -> itree p h n cells {[n]}
| itree_interior h n buf entries rightmost cells ps : is_u32 n -> logical p n = Ok buf -> index_interior buf (content_offset n) entries rightmost ->
    walk p h (actions entries rightmost) cells ps -> n ∉ ps -> itree p (S h) n cells ({[n]} ∪ ps)
with walk (p : Pager OS) : nat -> list action -> list (list Z) -> gset Z -> Prop :=
| walk_nil h : walk p h [] [] ∅
| walk_child h n acts cells1 ps1 cells2 ps2 : itree p h n cells1 ps1 -> walk p h acts cells2 ps2 -> ps1 ## ps2 ->
    walk p h (Descend n :: acts) (cells1 ++ cells2) (ps1 ∪ ps2)
| walk_cell h cell acts cells ps : walk p h acts cells ps -> walk p h (Yield cell :: acts) (cell :: cells) ps.

Lemma walk_app p h a1 a2 cells ps : walk p h (a1 ++ a2) cells ps ->
  exists cells1 ps1 cells2 ps2, walk p h a1 cells1 ps1 /\ walk p h a2 cells2 ps2 /\ cells = cells1 ++ cells2 /\ ps = ps1 ∪ ps2 /\ ps1 ## ps2.
Proof.
  revert cells ps. induction a1 as [|a a1 IH]; intros cells ps Hw; cbn [app] in Hw.
  - exists [], ∅, cells, ps. split; [constructor|]. split; [done|]. split; [done|]. split; set_solver.
  - inversion Hw as [|? n ? c1 s1 c2 s2 Ht Hw' Hd|? cell ? c2 s2 Hw']; subst; destruct (IH _ _ Hw') as (d1 & t1 & d2 & t2 & H1 & H2 & -> & -> & Hdd).
    + exists (c1 ++ d1), (s1 ∪ t1), d2, t2. split; [constructor; [done|done|set_solver]|]. split; [done|]. split; [by rewrite app_assoc|]. split; set_solver.
    + exists (cell :: d1), t1, d2, t2. split; [by constructor|]. done.
Qed.

Lemma walk_child_inv p h n cells ps : walk p h [Descend n] cells ps -> itree p h n cells ps.
Proof. intros Hw. inversion Hw as [|? ? ? c1 s1 c2 s2 Ht Hw' Hd|]; subst. inversion Hw'; subst. by rewrite app_nil_r, union_empty_r_L. Qed.
Lemma walk_cell_inv p h cell cells ps : walk p h [Yield cell] cells ps -> cells = [cell] /\ ps = ∅.
Proof. intros Hw. inversion Hw as [| |? ? ? c2 s2 Hw']; subst. by inversion Hw'; subst. Qed.

Lemma length_actions entries rightmost : length (actions entries rightmost) = (2 * length entries + 1)%nat.
Proof. induction entries as [|[c x] es IH]; cbn [actions length]; lia. Qed.
Lemma actions_child entries rightmost i c x : entries !! i = Some (c, x) -> actions entries rightmost !! (2 * i)%nat = Some (Descend c) /\ actions entries rightmost !! (2 * i + 1)%nat = Some (Yield x).
Proof.
  revert i. induction entries as [|[c' x'] es IH]; intros [|i] E; [done|done|by injection E as -> ->|].
  destruct (IH i E) as [H1 H2]. replace (2 * S i)%nat with (S (S (2 * i))) by lia. replace (S (S (2 * i)) + 1)%nat with (S (S (2 * i + 1))) by lia. done.
Qed.
Lemma actions_rightmost entries rightmost : actions entries rightmost !! (2 * length entries)%nat = Some (Descend rightmost).
Proof. induction entries as [|[c x] es IH]; [done|]. cbn [length]. replace (2 * S (length es))%nat with (S (S (2 * length es))) by lia. done. Qed.

(** ** Frames *)

Definition ileaf_frame (f : IndexFrame) (cells : list (list Z)) : Prop :=
  if_is_interior f = false /\ index_leaf (if_page f) (content_offset (if_page_num f)) cells /\ if_num_cells f = len cells /\
  if_cell_ptr_base f = sat_add (content_offset (if_page_num f)) 8.
Definition iinterior_frame (f : IndexFrame) (entries : list (Z * list Z)) (rightmost : Z) : Prop :=
  if_is_interior f = true /\ index_interior (if_page f) (content_offset (if_page_num f)) entries rightmost /\ if_num_cells f = len entries /\
  if_cell_ptr_base f = sat_add (content_offset (if_page_num f)) 12 /\ if_rightmost f = rightmost.

Lemma ileaf_step f cells k : ileaf_frame f cells -> ileaf_frame (set_step f k) cells.
Proof. done. Qed.
Lemma iinterior_step f entries rightmost k : iinterior_frame f entries rightmost -> iinterior_frame (set_step f k) entries rightmost.
Proof. done. Qed.

Lemma slots_len {A} (f : A -> list Z) (slots : list (Z * list Z)) (l : list A) : map snd slots = map f l -> len slots = len l.
Proof. intros E. apply (f_equal len) in E. unfold len in *. by rewrite !length_map in E. Qed.

Lemma ileaf_len f cells : ileaf_frame f cells -> len cells <= 65536.
Proof.
  intros (_ & (_ & cs & slots & [? ? ? ? _ _ _ _] & E) & _). rewrite <- (map_id cells) in E. apply slots_len in E. pose proof (len_nonneg slots). lia.
Qed.
Lemma iinterior_len f entries rightmost : iinterior_frame f entries rightmost -> len entries <= 65536.
Proof.
  intros (_ & (_ & _ & _ & cs & slots & [? ? ? ? _ _ _ _] & E) & _). apply slots_len in E. pose proof (len_nonneg slots). lia.
Qed.

(** The start of cell [i] of a page. *)
Lemma slot_at buf hs hl cs slots i o c pn : page_slots buf hs hl cs slots -> slots !! i = Some (o, c) ->
  read_cell_pointer buf (cell_ptr_offset (sat_add hs hl) (Z.of_nat i)) pn (Z.of_nat i) = Ok o /\ 0 <= o /\ o + len c <= len buf /\ get_range buf o (o + len c) = Some c.
Proof.
  intros [Hhs Hhl Hlen Hroom _ _ Hptr Hcell] Hs. destruct (Hcell _ _ _ Hs) as (H1 & H2 & H3 & H4). pose proof (lookup_lt_Some _ _ _ Hs).
  assert (2 * Z.of_nat i <= 2 * len slots) by (unfold len; lia). rewrite sat_add_small by (unfold U64_MAX; lia). rewrite cell_ptr_offset_eq by lia.
  split; [apply read_cell_pointer_eq; [lia|lia|by eapply Hptr]|]. split; [lia|]. split; [lia|done].
Qed.

Lemma slots_lookup {A} (f : A -> list Z) (slots : list (Z * list Z)) (l : list A) i x : map snd slots = map f l -> l !! i = Some x -> exists o, slots !! i = Some (o, f x).
Proof.
  intros E Hl. pose proof (map_lookup f _ _ _ Hl) as H2. rewrite <- E in H2. destruct (slots !! i) as [[o c]|] eqn:Es.
  - pose proof (map_lookup snd _ _ _ Es) as H1. rewrite H1 in H2. injection H2 as H2. cbn in H2. subst c. by exists o.
  - apply lookup_ge_None in Es. apply lookup_lt_Some in H2. rewrite length_map in H2. lia.
Qed.

Lemma ichild_spec f entries rightmost i child cell : iinterior_frame f entries rightmost -> entries !! i = Some (child, cell) -> index_interior_child f (Z.of_nat i) = Ok child.
Proof.
  intros (_ & (_ & _ & Hu & cs & slots & Hps & E) & _ & Hb & _) He. destruct (slots_lookup _ _ _ _ _ E He) as [o Hs]. cbn [fst snd] in Hs.
  unfold index_interior_child. rewrite Hb. destruct (slot_at _ _ _ _ _ _ _ _ (if_page_num f) Hps Hs) as (Ep & H0 & H1 & Hg). rewrite Ep. cbn [mbind result_bind].
  pose proof (ps_len _ _ _ _ _ Hps). pose proof (len_nonneg (build_index_interior_cell child cell)). apply read_u32_eq; [lia|lia|]. unfold read_be. unfold build_index_interior_cell in Hg, H1. rewrite len_app, len_be_encode in Hg, H1.
  pose proof (len_nonneg cell). pose proof (drop_cell (if_page f) o (be_encode 4 child ++ cell) H0) as Hd. rewrite len_app, len_be_encode in Hd. specialize (Hd Hg).
  change (Z.of_nat 4) with 4 in *. rewrite get_range_Some by lia. cbn. replace (o + 4 - o) with 4 by lia. rewrite Hd, <- app_assoc.
  rewrite take_app_le by (rewrite length_be_encode; lia). rewrite take_ge by (rewrite length_be_encode; lia). rewrite be_roundtrip; [done|].
  destruct (proj1 (Forall_lookup _ _) Hu _ _ He). cbn [fst] in *. unfold U32_MAX in *. lia.
Qed.

Section Reads.
Context (Husable : 480 <= usable <= 65536).

Lemma decode_leaf_entry_spec (p q : Pager OS) c f cells i cell payload : ileaf_frame f cells -> cells !! i = Some cell -> holds p cell payload -> ic_usable_size c = usable -> updated p q ∅ ->
  exists q', decode_leaf_entry f (Z.of_nat i) (c, q) = (Ok payload, (c, q')) /\ updated p q' ∅.
Proof using Husable.
  intros (_ & (_ & cs & slots & Hps & E) & _ & Hb) Hc Hh Hu Hq. rewrite <- (map_id cells) in E. destruct (slots_lookup _ _ _ _ _ E Hc) as [o Hs]. cbn in Hs.
  destruct (slot_at _ _ _ _ _ _ _ _ (if_page_num f) Hps Hs) as (Ep & H0 & H1 & Hg). pose proof (ps_len _ _ _ _ _ Hps).
  destruct (value_cell_read Husable p q (if_page f) o cell payload (if_page_num f) ltac:(lia) ltac:(lia) Hg Hh Hq) as (tail & q' & Ed & Er & Hq').
  exists q'. split; [|done]. unfold decode_leaf_entry, decode_entry. rewrite Hb, Ep. rewrite bind_lift_ok. cbv iota zeta beta. change (0 =? 0) with true. cbv iota. rewrite Ed.
  rewrite bind_lift_ok. erewrite M_bind_ok by reflexivity. unfold ic_source. cbn [fst snd]. by rewrite Hu, Er.
Qed.

Lemma decode_interior_entry_spec (p q : Pager OS) c f entries rightmost i child cell payload : iinterior_frame f entries rightmost -> entries !! i = Some (child, cell) -> holds p cell payload ->
  ic_usable_size c = usable -> updated p q ∅ -> exists q', decode_interior_entry f (Z.of_nat i) (c, q) = (Ok payload, (c, q')) /\ updated p q' ∅.
Proof using Husable.
  intros (_ & (_ & _ & _ & cs & slots & Hps & E) & _ & Hb & _) Hc Hh Hu Hq. destruct (slots_lookup _ _ _ _ _ E Hc) as [o Hs]. cbn [fst snd] in Hs.
  destruct (slot_at _ _ _ _ _ _ _ _ (if_page_num f) Hps Hs) as (Ep & H0 & H1 & Hg). pose proof (ps_len _ _ _ _ _ Hps). unfold build_index_interior_cell in Hg, H1. rewrite len_app, len_be_encode in Hg, H1.
  change (Z.of_nat 4) with 4 in *. pose proof (len_nonneg cell).
  assert (Hg4 : get_range (if_page f) (o + 4) (o + 4 + len cell) = Some cell).
  { pose proof (drop_cell (if_page f) o (be_encode 4 child ++ cell) H0) as Hd. rewrite len_app, len_be_encode in Hd. specialize (Hd Hg). rewrite get_range_Some by lia.
    replace (o + 4 + len cell - (o + 4)) with (len cell) by lia. replace (Z.to_nat (o + 4)) with (Z.to_nat o + 4)%nat by lia. rewrite <- drop_drop, Hd, <- app_assoc.
    rewrite drop_app_ge by (rewrite length_be_encode; lia). rewrite length_be_encode, Nat.sub_diag, drop_0. rewrite take_app_le by (unfold len; lia). by rewrite take_ge by (unfold len; lia). }
  destruct (value_cell_read Husable p q (if_page f) (o + 4) cell payload (if_page_num f) ltac:(lia) ltac:(lia) Hg4 Hh Hq) as (tail & q' & Ed & Er & Hq').
  exists q'. split; [|done]. unfold decode_interior_entry, decode_entry. rewrite Hb, Ep. rewrite bind_lift_ok. change (4 =? 0) with false. cbv iota. rewrite sat_add_small by (unfold U64_MAX; lia). rewrite Ed.
  rewrite bind_lift_ok. erewrite M_bind_ok by reflexivity. unfold ic_source. cbn [fst snd]. by rewrite Hu, Er.
Qed.
End Reads.

(** ** What a stack still yields *)

Definition start_step (reverse : bool) (f : IndexFrame) : Z :=
  if reverse then (if if_is_interior f then 2 * if_num_cells f + 1 else if_num_cells f) else 0.

(** A frame of which nothing is taken yet. *)
Definition top_frame (p : Pager OS) (h : nat) (f : IndexFrame) (cells : list (list Z)) (ps : gset Z) : Prop :=
  (ileaf_frame f cells /\ ps = ∅) \/ (exists entries rightmost, iinterior_frame f entries rightmost /\ walk p h (actions entries rightmost) cells ps).

Lemma index_read_page_spec (p q : Pager OS) c n buf : updated p q ∅ -> is_u32 n -> logical p n = Ok buf -> 0 <= ic_pages_visited c -> ic_pages_visited c + 1 <= MAX_PAGES_VISITED ->
  exists q', index_read_page n (c, q) = (Ok buf, (ic_set_visited c (ic_pages_visited c + 1), q')) /\ updated p q' ∅.
Proof.
  intros Hq Hn Hb H0 Hv. pose proof Hq as (_ & Hqc & _). destruct (read_page_b_spec n q buf Hqc Hn) as (q' & E & Hq'); [by rewrite (updated_same _ _ n Hq)|].
  exists q'. split; [|by eapply updated_step]. unfold index_read_page. erewrite M_bind_ok by reflexivity. erewrite M_bind_ok by reflexivity.
  cbn [fst snd ic_set_visited ic_pages_visited]. rewrite sat_add_small by (unfold U64_MAX, MAX_PAGES_VISITED in *; lia). rewrite (proj2 (Z.ltb_ge _ _)) by lia. unfold ic_source. cbn [fst snd]. by rewrite E.
Qed.

Lemma index_push_spec (p q : Pager OS) c reverse h n cells ps : itree p h n cells ps -> updated p q ∅ -> 0 <= ic_pages_visited c -> ic_pages_visited c + 1 <= MAX_PAGES_VISITED ->
  exists f q' h' ps', index_push_page n reverse (c, q) = (Ok tt, (ic_set_stack (ic_set_visited c (ic_pages_visited c + 1)) (f :: ic_stack c), q')) /\ updated p q' ∅ /\
    base.size ps = S (base.size ps') /\ top_frame p h' f cells ps' /\ if_step f = start_step reverse f.
Proof.
  intros Ht Hq H0 Hv. unfold index_push_page. destruct Ht as [h n buf cells Hn Hbuf Hl|h n buf entries rightmost cells ps Hn Hbuf Hi Hw Hni].
  - destruct (index_read_page_spec p q c n buf Hq Hn Hbuf H0 Hv) as (q' & E & Hq'). pose proof Hl as (Hty & cs & slots & Hps & Es). rewrite <- (map_id cells) in Es. pose proof (slots_len _ _ _ Es) as Hls.
    exists (MkIndexFrame n false (len cells) (sat_add (content_offset n) 8) 0 (if reverse then len cells else 0) buf), q', h, ∅. rewrite (M_bind_ok _ _ _ _ _ E).
    change (page1_header_start n) with (content_offset n). unfold read_page_type. rewrite Hty. cbn [ok_or]. rewrite bind_lift_ok. rewrite Z.eqb_refl. do 2 (erewrite M_bind_ok by reflexivity).
    rewrite (read_num_cells_eq _ _ (len slots)) by (first [apply content_offset_range|by apply Hps]). rewrite bind_lift_ok. erewrite M_bind_ok by reflexivity. rewrite Hls.
    split; [by destruct reverse|]. split; [done|]. split; [by rewrite size_singleton, size_empty|]. split; [left; done|]. by destruct reverse.
  - destruct (index_read_page_spec p q c n buf Hq Hn Hbuf H0 Hv) as (q' & E & Hq'). pose proof Hi as (Hty & Hrm & Hu & cs & slots & Hps & Es). pose proof (slots_len _ _ _ Es) as Hls.
    pose proof (content_offset_range n). pose proof (len_nonneg entries). destruct Hps as [? ? Hmax Hroom Hnum ? ? ?] eqn:Eps.
    exists (MkIndexFrame n true (len entries) (sat_add (content_offset n) 12) rightmost (if reverse then 2 * len entries + 1 else 0) buf), q', h, ps. rewrite (M_bind_ok _ _ _ _ _ E).
    change (page1_header_start n) with (content_offset n). unfold read_page_type. rewrite Hty. cbn [ok_or]. rewrite bind_lift_ok.
    change (INTERIOR_INDEX =? LEAF_INDEX) with false. cbv iota. rewrite Z.eqb_refl. erewrite M_bind_ok by reflexivity.
    unfold require_interior_header. rewrite (sat_add_small _ 12) by (unfold U64_MAX; lia). rewrite (proj2 (Z.ltb_ge _ _)) by lia. rewrite bind_lift_ok.
    rewrite (read_num_cells_eq _ _ (len slots)) by (first [lia|done]). rewrite bind_lift_ok.
    rewrite (sat_add_small _ 8) by (unfold U64_MAX; lia). rewrite (read_u32_eq _ _ rightmost) by (first [lia|done]). erewrite M_bind_ok by reflexivity. rewrite Hls.
    assert (Hst : sat_add (sat_mul (len entries) 2) 1 = 2 * len entries + 1) by (rewrite sat_mul_small by (unfold U64_MAX; lia); rewrite sat_add_small by (unfold U64_MAX; lia); lia).
    split; [destruct reverse; by rewrite ?Hst|]. split; [done|]. split; [rewrite size_union by set_solver; by rewrite size_singleton|]. split; [|by destruct reverse].
    right. exists entries, rightmost. split; [|done]. split; [done|]. split; [done|]. cbn [if_page_num if_num_cells if_cell_ptr_base if_rightmost]. rewrite sat_add_small by (unfold U64_MAX; lia). done.
Qed.

Inductive ipending (p : Pager OS) (reverse : bool) : list IndexFrame -> list (list Z) -> nat -> Prop :=
| ipending_nil : ipending p reverse [] [] 0
| ipending_leaf f below cells k rest n :
    ileaf_frame f cells -> if_step f = Z.of_nat k -> (k <= length cells)%nat -> ipending p reverse below rest n ->
    ipending p reverse (f :: below) (turn reverse (todo reverse k cells) ++ rest) n
| ipending_interior f below entries rightmost k h cells ps rest n :
    iinterior_frame f entries rightmost -> if_step f = Z.of_nat k -> (k <= 2 * length entries + 1)%nat ->
    walk p h (todo reverse k (actions entries rightmost)) cells ps -> ipending p reverse below rest n ->
    ipending p reverse (f :: below) (turn reverse cells ++ rest) (base.size ps + n).

Lemma ipending_top p reverse h f below cells ps rest n : top_frame p h f cells ps -> if_step f = start_step reverse f -> ipending p reverse below rest n ->
  ipending p reverse (f :: below) (turn reverse cells ++ rest) (base.size ps + n).
Proof.
  unfold start_step. intros [[Hf ->]|(entries & rightmost & Hf & Hw)] Hs Hp.
  - pose proof Hf as (Ei & _ & En & _). rewrite Ei in Hs. rewrite size_empty. replace cells with (todo reverse (if reverse then length cells else 0%nat) cells) at 1 by apply todo_start.
    apply ipending_leaf; [done| |by destruct reverse; lia|done]. rewrite Hs. destruct reverse; [by rewrite En|done].
  - pose proof Hf as (Ei & _ & En & _). rewrite Ei in Hs. apply (ipending_interior p reverse f below entries rightmost (if reverse then length (actions entries rightmost) else 0%nat) h); [done| | | |done].
    + rewrite Hs. rewrite length_actions. destruct reverse; [rewrite En; unfold len; lia|done].
    + rewrite length_actions. destruct reverse; lia.
    + by rewrite todo_start.
Qed.

(** ** One step *)

Definition isame (c c' : IndexCursor) : Prop := ic_usable_size c' = ic_usable_size c /\ ic_root_page c' = ic_root_page c.

(** The outcome of a step with [cells], which stand for [items], left to yield
    and at most [b] pages read in the whole traversal. *)
Definition idelivers (p : Pager OS) (reverse : bool) (c : IndexCursor) (b : Z) (cells items : list (list Z)) (out : result BtreeError (option (list Z)) * (IndexCursor * Pager OS)) : Prop :=
  match cells, items with
  | [], [] => exists c' q', out = (Ok None, (c', q')) /\ updated p q' ∅ /\ ic_stack c' = [] /\ isame c c'
  | _ :: cells, x :: _ => exists c' q' n, out = (Ok (Some x), (c', q')) /\ updated p q' ∅ /\ ipending p reverse (ic_stack c') cells n /\
      0 <= ic_pages_visited c' /\ ic_pages_visited c' + Z.of_nat n <= b /\ isame c c'
  | _, _ => False
  end.

Lemma idelivers_same p reverse c c1 b cells items out : isame c c1 -> idelivers p reverse c1 b cells items out -> idelivers p reverse c b cells items out.
Proof.
  intros (H1 & H2). assert (Hs : forall c', isame c1 c' -> isame c c') by (intros c' (? & ?); split; congruence).
  destruct cells, items; cbn; try done.
  - intros (c' & q' & ? & ? & ? & ?%Hs). by exists c', q'.
  - intros (c' & q' & n & ? & ? & ? & ? & ? & ?%Hs). by exists c', q', n.
Qed.

(** The action at step [k] of an interior page. *)
Lemma action_at entries rightmost k : (k <= 2 * length entries)%nat ->
  (k = (2 * length entries)%nat /\ actions entries rightmost !! k = Some (Descend rightmost)) \/
  (exists i child cell, entries !! i = Some (child, cell) /\
     ((k = (2 * i)%nat /\ actions entries rightmost !! k = Some (Descend child)) \/ (k = (2 * i + 1)%nat /\ actions entries rightmost !! k = Some (Yield cell)))).
Proof.
  intros Hk. destruct (decide (k = 2 * length entries)%nat) as [->|Hne]; [left; split; [done|apply actions_rightmost]|right].
  pose proof (Nat.div_mod k 2 ltac:(lia)) as Hd. pose proof (Nat.mod_upper_bound k 2 ltac:(lia)) as Hm. destruct (lookup_lt_is_Some_2 entries (k / 2) ltac:(lia)) as [[child cell] He].
  exists (k / 2)%nat, child, cell. split; [done|]. destruct (actions_child entries rightmost _ _ _ He) as [A1 A2]. destruct (decide (k mod 2 = 0)%nat) as [E|E].
  - left. replace k with (2 * (k / 2))%nat at 1 3 by lia. done.
  - right. replace k with (2 * (k / 2) + 1)%nat at 1 3 by lia. done.
Qed.

Lemma mod2_even (i : nat) : Z.of_nat (2 * i) mod 2 = 0 /\ Z.of_nat (2 * i) / 2 = Z.of_nat i.
Proof. rewrite Nat2Z.inj_mul, Z.mul_comm. split; [apply Z.mod_mul; lia|apply Z.div_mul; lia]. Qed.
Lemma mod2_odd (i : nat) : Z.of_nat (2 * i + 1) mod 2 = 1 /\ sat_sub (Z.of_nat (2 * i + 1)) 1 / 2 = Z.of_nat i.
Proof.
  rewrite sat_sub_small by lia. replace (Z.of_nat (2 * i + 1) - 1) with (Z.of_nat i * 2) by lia. replace (Z.of_nat (2 * i + 1)) with (1 + Z.of_nat i * 2) by lia.
  split; [rewrite Z.mod_add by lia; done|apply Z.div_mul; lia].
Qed.

Section Steps.
Context (Husable : 480 <= usable <= 65536).

(** Yielding the entry that a decoder reads. *)
Lemma ideliver_entry (p q : Pager OS) reverse c f below (decode : M (IndexCursor * Pager OS) BtreeError (list Z)) cell x rest items b n :
  (exists q', decode (ic_set_stack c (f :: below), q) = (Ok x, (ic_set_stack c (f :: below), q')) /\ updated p q' ∅) ->
  ipending p reverse (f :: below) rest n -> 0 <= ic_pages_visited c -> ic_pages_visited c + Z.of_nat n <= b ->
  idelivers p reverse c b (cell :: rest) (x :: items) ((_ ← ic_update (fun c => ic_set_stack c (f :: below)); row ← decode; mret (Some row)) (c, q)).
Proof.
  intros (q' & E & Hq') Hp H0 Hb. erewrite M_bind_ok by reflexivity. cbn [fst snd]. rewrite (M_bind_ok _ _ _ _ _ E). by exists (ic_set_stack c (f :: below)), q', n.
Qed.

(** Descending into a subtree below the frame [f]. *)
Lemma ideliver_push (p q : Pager OS) reverse c f below h child cells1 ps1 rest n cells items b (loop : M (IndexCursor * Pager OS) BtreeError (option (list Z))) fuel :
  itree p h child cells1 ps1 -> updated p q ∅ -> ipending p reverse (f :: below) rest n -> cells = turn reverse cells1 ++ rest ->
  0 <= ic_pages_visited c -> ic_pages_visited c + Z.of_nat (base.size ps1 + n) <= b -> b <= MAX_PAGES_VISITED -> ic_usable_size c = usable ->
  (S (length below) + 2 * (base.size ps1 + n) <= fuel)%nat ->
  (forall c1 q1 n1, ipending p reverse (ic_stack c1) cells n1 -> updated p q1 ∅ -> 0 <= ic_pages_visited c1 -> ic_pages_visited c1 + Z.of_nat n1 <= b -> ic_usable_size c1 = usable ->
     (length (ic_stack c1) + 2 * n1 + 1 <= fuel)%nat -> idelivers p reverse c1 b cells items (loop (c1, q1))) ->
  idelivers p reverse c b cells items ((_ ← ic_update (fun c => ic_set_stack c (f :: below)); _ ← index_push_page child reverse; loop) (c, q)).
Proof.
  intros Ht Hq Hp -> H0 Hb HM Hu Hfuel Hloop. erewrite M_bind_ok by reflexivity. cbn [fst snd].
  destruct (index_push_spec p q (ic_set_stack c (f :: below)) reverse h child cells1 ps1 Ht Hq H0) as (g & q1 & h' & ps' & E & Hq1 & Hs & Htop & Hst).
  { cbn. destruct Ht; [rewrite size_singleton in *; lia|]. rewrite size_union in * by set_solver. rewrite size_singleton in *. lia. }
  rewrite (M_bind_ok _ _ _ _ _ E). eapply idelivers_same; [|eapply Hloop; [eapply ipending_top; [exact Htop|exact Hst|exact Hp]|done|cbn; lia|cbn; lia|done|cbn [ic_stack ic_set_stack ic_set_visited length]; lia]]. done.
Qed.

Lemma index_advance_loop_spec p fuel : forall c (q : Pager OS) cells items n b,
  ipending p false (ic_stack c) cells n -> Forall2 (holds p) cells items -> updated p q ∅ -> 0 <= ic_pages_visited c -> ic_pages_visited c + Z.of_nat n <= b -> b <= MAX_PAGES_VISITED ->
  ic_usable_size c = usable -> (length (ic_stack c) + 2 * n + 1 <= fuel)%nat -> idelivers p false c b cells items (index_advance_loop fuel (c, q)).
Proof using Husable.
  induction fuel as [|fuel IH]; intros c q cells items n b Hp HF Hq H0 Hb HM Hu Hfuel; [lia|]. cbn [index_advance_loop]. erewrite M_bind_ok by reflexivity. cbn [fst snd].
  inversion Hp as [E|f below cells0 k rest m Hf Hk Hle Hp' E|f below entries rightmost k h cells0 ps rest m Hf Hk Hle Hw Hp' E]; subst.
  - apply Forall2_nil_inv_l in HF as ->. by exists c, q.
  - pose proof Hf as (-> & _ & Hnum & _). cbn [negb turn todo] in *. rewrite Hnum, Hk. rewrite <- E in Hfuel. cbn [length] in Hfuel. pose proof (ileaf_len _ _ Hf) as Hll.
    destruct (Z.leb_spec (len cells0) (Z.of_nat k)) as [Hge|Hlt].
    + rewrite drop_ge in * by (unfold len in Hge; lia). cbn [app] in *. erewrite M_bind_ok by reflexivity. cbn [fst snd].
      eapply idelivers_same; [|eapply (IH (ic_set_stack c below) q rest); cbn; [done|done|done|done|done|done|done|lia]]. done.
    + destruct (lookup_lt_is_Some_2 cells0 k ltac:(unfold len in Hlt; lia)) as [cell Hc]. rewrite (drop_S cells0 cell k Hc) in *. cbn [app] in *.
      apply Forall2_cons_inv_l in HF as (x & items' & Hh & HF' & ->). eapply ideliver_entry; [apply (decode_leaf_entry_spec Husable p q _ _ cells0 k cell x); done| |done|exact Hb].
      apply (ipending_leaf p false _ below cells0 (S k) rest); [done| |pose proof (lookup_lt_Some _ _ _ Hc); lia|done].
      cbn. apply (succ_index k (length cells0)); [by eapply lookup_lt_Some|done].
  - pose proof Hf as (-> & _ & Hnum & _ & Hfr). cbn [negb turn todo] in *. rewrite Hnum, Hk. rewrite <- E in Hfuel. cbn [length] in Hfuel. pose proof (iinterior_len _ _ _ Hf) as Hll.
    assert (Ht : sat_mul (len entries) 2 = Z.of_nat (2 * length entries)) by (rewrite sat_mul_small by (unfold U64_MAX; pose proof (len_nonneg entries); lia); unfold len; lia). rewrite Ht.
    destruct (Z.ltb_spec (Z.of_nat (2 * length entries)) (Z.of_nat k)) as [Hgt|Hkle].
    + assert (k = length (actions entries rightmost)) as -> by (rewrite length_actions; lia). rewrite drop_all in Hw. inversion Hw; subst. cbn [app] in *. erewrite M_bind_ok by reflexivity. cbn [fst snd].
      rewrite size_empty in *. eapply idelivers_same; [|eapply (IH (ic_set_stack c below) q rest _ m); cbn; [done|done|done|done|lia|done|done|lia]]. done.
    + assert (Hsucc : sat_add (Z.of_nat k) 1 = Z.of_nat (S k)) by (rewrite sat_add_small; unfold len, U64_MAX in *; lia).
      assert (Hp2 : forall h cells2 ps2, walk p h (drop (S k) (actions entries rightmost)) cells2 ps2 -> ipending p false (set_step f (sat_add (Z.of_nat k) 1) :: below) (cells2 ++ rest) (base.size ps2 + m)).
      { intros h' cells2 ps2 Hw2. apply (ipending_interior p false _ below entries rightmost (S k) h' cells2 ps2); [done|by cbn|lia|done|done]. }
      destruct (action_at entries rightmost k ltac:(lia)) as [[Ek Ea]|(i & child & cell & He & [[Ek Ea]|[Ek Ea]])]; rewrite (drop_S _ _ _ Ea) in Hw.
      * rewrite (proj2 (Z.eqb_eq _ _)) by lia. inversion Hw as [|? ? ? cells1 ps1 cells2 ps2 Ht1 Hw2 Hd|]; subst. rewrite size_union in * by done.
        eapply (ideliver_push p q false c _ below h _ cells1 ps1 (cells2 ++ rest) (base.size ps2 + m)); [exact Ht1|done|by apply (Hp2 h)|cbn; by rewrite app_assoc|done|lia|done|done| |].
        -- instantiate (1 := fuel). lia.
        -- intros c1 q1 n1 ? ? ? ? ? ?. by eapply IH.
      * pose proof (lookup_lt_Some _ _ _ He). rewrite (proj2 (Z.eqb_neq _ _)) by lia. destruct (mod2_even i) as [M1 M2]. rewrite <- Ek in M1, M2. rewrite M1, M2. cbn [Z.eqb].
        inversion Hw as [|? ? ? cells1 ps1 cells2 ps2 Ht1 Hw2 Hd|]; subst cells0 ps. rewrite size_union in * by done.
        rewrite (ichild_spec (set_step f (sat_add (Z.of_nat k) 1)) entries rightmost i child cell Hf He).
        eapply (ideliver_push p q false c _ below h child cells1 ps1 (cells2 ++ rest) (base.size ps2 + m)); [exact Ht1|done|by apply (Hp2 h)|cbn; by rewrite app_assoc|done|lia|done|done| |].
        -- instantiate (1 := fuel). lia.
        -- intros c1 q1 n1 ? ? ? ? ? ?. by eapply IH.
      * pose proof (lookup_lt_Some _ _ _ He). rewrite (proj2 (Z.eqb_neq _ _)) by lia. destruct (mod2_odd i) as [M1 M2]. rewrite <- Ek in M1, M2. rewrite M1, M2. cbn [Z.eqb].
        inversion Hw as [| |? ? ? cells2 ps2 Hw2]; subst cells0 ps. cbn [app] in *. apply Forall2_cons_inv_l in HF as (x & items' & Hh & HF' & ->).
        eapply ideliver_entry; [by apply (decode_interior_entry_spec Husable p q _ _ entries rightmost i child cell x)|by apply (Hp2 h)|done|exact Hb].
Qed.

Lemma index_advance_desc_loop_spec p fuel : forall c (q : Pager OS) cells items n b,
  ipending p true (ic_stack c) cells n -> Forall2 (holds p) cells items -> updated p q ∅ -> 0 <= ic_pages_visited c -> ic_pages_visited c + Z.of_nat n <= b -> b <= MAX_PAGES_VISITED ->
  ic_usable_size c = usable -> (length (ic_stack c) + 2 * n + 1 <= fuel)%nat -> idelivers p true c b cells items (index_advance_desc_loop fuel (c, q)).
Proof using Husable.
  induction fuel as [|fuel IH]; intros c q cells items n b Hp HF Hq H0 Hb HM Hu Hfuel; [lia|]. cbn [index_advance_desc_loop]. erewrite M_bind_ok by reflexivity. cbn [fst snd].
  inversion Hp as [E|f below cells0 k rest m Hf Hk Hle Hp' E|f below entries rightmost k h cells0 ps rest m Hf Hk Hle Hw Hp' E]; subst.
  - apply Forall2_nil_inv_l in HF as ->. by exists c, q.
  - pose proof Hf as (Hi & _ & Hnum & _). cbn [turn todo] in *. rewrite Hk. rewrite <- E in Hfuel. cbn [length] in Hfuel. destruct k as [|k].
    + cbn [take rev app] in *. change (Z.of_nat 0 =? 0) with true. cbv iota. erewrite M_bind_ok by reflexivity. cbn [fst snd].
      eapply idelivers_same; [|eapply (IH (ic_set_stack c below) q rest); cbn; [done|done|done|done|done|done|done|lia]]. done.
    + destruct (lookup_lt_is_Some_2 cells0 k ltac:(lia)) as [cell Hc]. rewrite (take_last cells0 k cell Hc), rev_app_distr in *. cbn [rev app] in *.
      apply Forall2_cons_inv_l in HF as (x & items' & Hh & HF' & ->). rewrite (proj2 (Z.eqb_neq _ _)) by lia. rewrite pred_index. rewrite Hi. cbn [negb].
      eapply ideliver_entry; [apply (decode_leaf_entry_spec Husable p q _ _ cells0 k cell x); done| |done|exact Hb].
      apply (ipending_leaf p true _ below cells0 k rest); [done|done|lia|done].
  - pose proof Hf as (Hi & _ & Hnum & _ & Hfr). cbn [turn todo] in *. rewrite Hk. rewrite <- E in Hfuel. cbn [length] in Hfuel. destruct k as [|k].
    + cbn [take] in Hw. inversion Hw; subst. cbn [rev app] in *. change (Z.of_nat 0 =? 0) with true. cbv iota. erewrite M_bind_ok by reflexivity. cbn [fst snd].
      rewrite size_empty in *. eapply idelivers_same; [|eapply (IH (ic_set_stack c below) q rest _ m); cbn; [done|done|done|done|lia|done|done|lia]]. done.
    + rewrite (proj2 (Z.eqb_neq _ _)) by lia. rewrite pred_index, Hi, Hnum. cbn [negb].
      assert (Hp2 : forall h cells2 ps2, walk p h (take k (actions entries rightmost)) cells2 ps2 -> ipending p true (set_step f (Z.of_nat k) :: below) (rev cells2 ++ rest) (base.size ps2 + m)).
      { intros h' cells2 ps2 Hw2. apply (ipending_interior p true _ below entries rightmost k h' cells2 ps2); [done|done|lia|done|done]. }
      assert (Hl : exists a, actions entries rightmost !! k = Some a) by (apply lookup_lt_is_Some_2; rewrite length_actions; lia). destruct Hl as [a Ea0].
      rewrite (take_last _ _ _ Ea0) in Hw. apply walk_app in Hw as (cells2 & ps2 & cells1 & ps1 & Hw2 & Hw1 & -> & -> & Hd). rewrite rev_app_distr in *. rewrite size_union in * by done. rewrite <- app_assoc in *.
      destruct (action_at entries rightmost k ltac:(lia)) as [[Ek Ea]|(i & child & cell & He & [[Ek Ea]|[Ek Ea]])]; rewrite Ea in Ea0; injection Ea0 as <-.
      * destruct (mod2_even (length entries)) as [M1 M2]. rewrite <- Ek in M1, M2. rewrite M1, M2. cbn [Z.eqb]. rewrite (proj2 (Z.eqb_eq _ (len entries))) by done. apply walk_child_inv in Hw1.
        eapply (ideliver_push p q true c _ below h _ cells1 ps1 (rev cells2 ++ rest) (base.size ps2 + m)); [rewrite Hfr; exact Hw1|done|by apply (Hp2 h)|done|done|lia|done|done| |].
        -- instantiate (1 := fuel). lia.
        -- intros c1 q1 n1 ? ? ? ? ? ?. by eapply IH.
      * pose proof (lookup_lt_Some _ _ _ He). destruct (mod2_even i) as [M1 M2]. rewrite <- Ek in M1, M2. rewrite M1, M2. cbn [Z.eqb]. rewrite (proj2 (Z.eqb_neq _ (len entries))) by (unfold len; lia). apply walk_child_inv in Hw1.
        rewrite (ichild_spec (set_step f (Z.of_nat k)) entries rightmost i child cell Hf He).
        eapply (ideliver_push p q true c _ below h child cells1 ps1 (rev cells2 ++ rest) (base.size ps2 + m)); [exact Hw1|done|by apply (Hp2 h)|done|done|lia|done|done| |].
        -- instantiate (1 := fuel). lia.
        -- intros c1 q1 n1 ? ? ? ? ? ?. by eapply IH.
      * destruct (mod2_odd i) as [M1 M2]. rewrite <- Ek in M1, M2. rewrite M1, M2. cbn [Z.eqb]. apply walk_cell_inv in Hw1 as [-> ->]. cbn [rev app] in *. rewrite size_empty in *.
        apply Forall2_cons_inv_l in HF as (x & items' & Hh & HF' & ->).
        eapply ideliver_entry; [by apply (decode_interior_entry_spec Husable p q _ _ entries rightmost i child cell x)|by apply (Hp2 h)|done|lia].
Qed.

(** ** Moves *)

Lemma index_move_spec p reverse c (q : Pager OS) cells items n b :
  ipending p reverse (ic_stack c) cells n -> Forall2 (holds p) cells items -> updated p q ∅ -> 0 <= ic_pages_visited c -> ic_pages_visited c + Z.of_nat n <= b -> b <= MAX_PAGES_VISITED ->
  ic_usable_size c = usable -> idelivers p reverse c b cells items ((if reverse then index_prev else index_next) (c, q)).
Proof using Husable.
  intros Hp HF Hq H0 Hb HM Hu. assert (Hbu : (length (ic_stack c) + 2 * n + 1 <= index_budget c)%nat) by (unfold index_budget; lia).
  destruct reverse; unfold index_prev, index_next, index_advance_desc, index_advance; erewrite M_bind_ok by reflexivity; cbn [fst];
    [by eapply index_advance_desc_loop_spec|by eapply index_advance_loop_spec].
Qed.

Lemma index_start_spec p c (q : Pager OS) reverse h cells items ps :
  itree p h (ic_root_page c) cells ps -> Forall2 (holds p) cells items -> updated p q ∅ -> Z.of_nat (base.size ps) <= MAX_PAGES_VISITED -> ic_usable_size c = usable ->
  idelivers p reverse c MAX_PAGES_VISITED (turn reverse cells) (turn reverse items) ((if reverse then index_last else index_first) (c, q)).
Proof using Husable.
  intros Ht HF Hq HM Hu. destruct (index_push_spec p q (index_rewind c) reverse h _ cells ps Ht Hq ltac:(done) ltac:(done)) as (f & q1 & h' & ps' & E & Hq1 & Hs & Htop & Hst).
  pose proof (ipending_top p reverse h' f [] cells ps' [] 0 Htop Hst ltac:(constructor)) as Hp. rewrite app_nil_r in Hp. apply (Forall2_turn _ reverse) in HF.
  set (c1 := ic_set_stack (ic_set_visited (index_rewind c) (ic_pages_visited (index_rewind c) + 1)) (f :: ic_stack (index_rewind c))) in *.
  pose proof (index_move_spec p reverse c1 q1 (turn reverse cells) (turn reverse items) _ MAX_PAGES_VISITED Hp HF Hq1 ltac:(cbn; lia) ltac:(cbn; lia) ltac:(lia) Hu) as Hm.
  destruct reverse; unfold index_last, index_first; erewrite M_bind_ok by reflexivity; erewrite M_bind_ok by reflexivity; cbn [fst snd index_rewind ic_root_page]; rewrite (M_bind_ok _ _ _ _ _ E);
    eapply idelivers_same; [|exact Hm| |exact Hm]; done.
Qed.

(** The moves of a client: a first move and then [step] until the end. *)
Fixpoint idrain (fuel : nat) (step : M (IndexCursor * Pager OS) BtreeError (option (list Z))) : M (IndexCursor * Pager OS) BtreeError (list (list Z)) :=
  match fuel with
  | O => throw BtDiverged
  | S fuel => r ← step; match r with None => mret [] | Some x => xs ← idrain fuel step; mret (x :: xs) end
  end.
Definition idrain_from (fuel : nat) (start step : M (IndexCursor * Pager OS) BtreeError (option (list Z))) : M (IndexCursor * Pager OS) BtreeError (list (list Z)) :=
  r ← start; match r with None => mret [] | Some x => xs ← idrain fuel step; mret (x :: xs) end.

Lemma idrain_spec p reverse items : forall cells c (q : Pager OS) n fuel,
  ipending p reverse (ic_stack c) cells n -> Forall2 (holds p) cells items -> updated p q ∅ -> 0 <= ic_pages_visited c -> ic_pages_visited c + Z.of_nat n <= MAX_PAGES_VISITED ->
  ic_usable_size c = usable -> (length items < fuel)%nat -> exists s, idrain fuel (if reverse then index_prev else index_next) (c, q) = (Ok items, s).
Proof using Husable.
  induction items as [|x items IH]; intros cells c q n fuel Hp HF Hq H0 Hb Hu Hf; (destruct fuel as [|fuel]; [cbn in Hf; lia|]); cbn [idrain];
    pose proof (index_move_spec p reverse c q cells _ n MAX_PAGES_VISITED Hp HF Hq H0 Hb ltac:(lia) Hu) as Hm.
  - apply Forall2_nil_inv_r in HF as ->. destruct Hm as (c' & q' & E & _). rewrite (M_bind_ok _ _ _ _ _ E). by eexists.
  - apply Forall2_cons_inv_r in HF as (cell & cells' & Hh & HF & ->). destruct Hm as (c' & q' & n' & E & Hq' & Hp' & H0' & Hb' & Hs & _). rewrite (M_bind_ok _ _ _ _ _ E).
    destruct (IH cells' c' q' n' fuel Hp' HF Hq' H0' Hb' ltac:(congruence) ltac:(cbn in Hf; lia)) as (s & Es). rewrite (M_bind_ok _ _ _ _ _ Es). by eexists.
Qed.

(** What follows a first move. *)
Lemma idrain_from_spec p reverse c (q : Pager OS) cells items start fuel : idelivers p reverse c MAX_PAGES_VISITED cells items (start (c, q)) -> Forall2 (holds p) cells items -> ic_usable_size c = usable ->
  (length items < fuel)%nat -> exists s, idrain_from fuel start (if reverse then index_prev else index_next) (c, q) = (Ok items, s).
Proof using Husable.
  intros Hd HF Hu Hf. unfold idrain_from. destruct HF as [|cell x cells items Hh HF].
  - destruct Hd as (c' & q' & E & _). rewrite (M_bind_ok _ _ _ _ _ E). by eexists.
  - destruct Hd as (c' & q' & n' & E & Hq' & Hp' & H0' & Hb' & Hs & _). rewrite (M_bind_ok _ _ _ _ _ E).
    destruct (idrain_spec p reverse items cells c' q' n' fuel Hp' HF Hq' H0' Hb' ltac:(congruence) ltac:(cbn in Hf; lia)) as (s & Es). rewrite (M_bind_ok _ _ _ _ _ Es). by eexists.
Qed.

(** ** Seeking a key *)

Lemma holds_fun (p q : Pager OS) cell x y : updated p q ∅ -> holds p cell x -> holds p cell y -> x = y.
Proof using Husable.
  intros Hq Hx Hy. assert (Hl : len cell <= 65536).
  { destruct Hx as (pages & -> & Hm & _). unfold value_cell. rewrite !len_app, (len_index_local Husable). pose proof (index_size_bounds Husable x). pose proof (len_nonneg x).
    assert (len (encode_varint (len x)) <= 9) by (rewrite len_encode_varint by done; by apply varint_len_bound). destruct (index_spill x); [change (len (@nil Z)) with 0|rewrite len_be_encode]; lia. }
  assert (Hg : get_range cell 0 (0 + len cell) = Some cell) by (by apply get_range_full).
  destruct (value_cell_read Husable p q cell 0 cell x 0 ltac:(lia) Hl Hg Hx Hq) as (t1 & q1 & D1 & R1 & _). destruct (value_cell_read Husable p q cell 0 cell y 0 ltac:(lia) Hl Hg Hy Hq) as (t2 & q2 & D2 & R2 & _).
  rewrite D1 in D2. injection D2 as E1 E2. subst t2. rewrite <- E1, R1 in R2. by injection R2.
Qed.

Context (target : list Value) (encoding : TextEncoding).
Definition before (x : list Z) : bool := match decode_record x encoding with Ok key => bool_decide (compare_keys key target = Lt) | Err _ => false end.
(** Once an entry is not before the target, none is. *)
Definition falling (items : list (list Z)) : Prop := StronglySorted (fun x y => before y = true -> before x = true) items.
Definition readable_keys (items : list (list Z)) : Prop := Forall (fun x => is_ok (decode_record x encoding)) items.
Definition behind (items : list (list Z)) : list (list Z) := filter (fun x => before x = false) items.
Definition ahead (items : list (list Z)) : list (list Z) := filter (fun x => before x = true) items.

Lemma behind_all items : Forall (fun x => before x = false) items -> behind items = items.
Proof. unfold behind. induction 1 as [|x l Hx Hl IH]; [done|]. by rewrite filter_cons_True, IH. Qed.
Lemma behind_none items : Forall (fun x => before x = true) items -> behind items = [].
Proof. unfold behind. induction 1 as [|x l Hx Hl IH]; [done|]. rewrite filter_cons_False; [done|]. by rewrite Hx. Qed.
Lemma behind_app l k : behind (l ++ k) = behind l ++ behind k.
Proof. apply filter_app. Qed.

Lemma falling_app l k : falling (l ++ k) -> falling l /\ falling k.
Proof. intros S. split; [by eapply StronglySorted_app_1_l|by eapply StronglySorted_app_1_r]. Qed.
Lemma falling_rest x l : falling (x :: l) -> before x = false -> Forall (fun y => before y = false) (x :: l).
Proof. intros [S Hx]%StronglySorted_inv Hb. constructor; [done|]. eapply Forall_impl; [exact Hx|]. cbn. intros y Hy. destruct (before y); [|done]. by rewrite Hy in Hb. Qed.
Lemma falling_start l x : falling (l ++ [x]) -> before x = true -> Forall (fun y => before y = true) (l ++ [x]).
Proof.
  intros S Hb. apply Forall_app. split; [|by repeat constructor]. induction l as [|y l IH]; [constructor|]. cbn [app] in S. apply StronglySorted_inv in S as [S Hy].
  constructor; [|by apply IH]. apply Forall_app in Hy as [_ [Hy _]%Forall_cons]. by apply Hy.
Qed.

Lemma ahead_none items : Forall (fun x => before x = false) items -> ahead items = [].
Proof. unfold ahead. induction 1 as [|x l Hx Hl IH]; [done|]. rewrite filter_cons_False; [done|]. by rewrite Hx. Qed.

Lemma falling_split items : falling items -> items = ahead items ++ behind items.
Proof.
  intros S. induction S as [|x l S IH Hx]; [done|]. pose proof (falling_rest x l (SSorted_cons x S Hx)) as Hr. destruct (before x) eqn:E.
  - unfold ahead, behind. rewrite filter_cons_True by done. rewrite (filter_cons_False _ x) by (by rewrite E). cbn. f_equal. exact IH.
  - specialize (Hr eq_refl). by rewrite (ahead_none _ Hr), (behind_all _ Hr).
Qed.

Lemma falling_before items i x : falling items -> items !! i = Some x -> before x = bool_decide (i < length (ahead items))%nat.
Proof.
  intros S Hi. rewrite (falling_split items S) in Hi. destruct (decide (i < length (ahead items))%nat) as [Hlt|Hge].
  - rewrite bool_decide_true by done. rewrite lookup_app_l in Hi by done. apply list_elem_of_lookup_2, list_elem_of_filter in Hi as [Hb _]. done.
  - rewrite bool_decide_false by done. rewrite lookup_app_r in Hi by lia. apply list_elem_of_lookup_2, list_elem_of_filter in Hi as [Hb _]. done.
Qed.

(** The search on a page whose own entries are [own]. *)
Lemma binary_search_spec (p : Pager OS) c f own interior fuel : forall (q : Pager OS) lo hi,
  (forall i x q, own !! i = Some x -> updated p q ∅ -> exists q', (if interior : bool then decode_interior_entry f (Z.of_nat i) else decode_leaf_entry f (Z.of_nat i)) (c, q) = (Ok x, (c, q')) /\ updated p q' ∅) ->
  falling own -> readable_keys own -> len own <= 65536 -> updated p q ∅ -> (lo <= length (ahead own) <= hi)%nat -> (hi <= length own)%nat -> (hi - lo <= fuel)%nat ->
  exists q', binary_search_loop fuel (Z.of_nat lo) (Z.of_nat hi) f target encoding interior (c, q) = (Ok (Z.of_nat (length (ahead own))), (c, q')) /\ updated p q' ∅.
Proof.
  induction fuel as [|fuel IH]; intros q lo hi Hdec Hfa Hrd Hlen Hq Hlo Hhi Hfuel; cbn [binary_search_loop].
  - assert (lo = length (ahead own)) as -> by lia. by exists q.
  - destruct (Z.ltb_spec (Z.of_nat lo) (Z.of_nat hi)) as [Hlt|Hge]; cbn [negb]; [|assert (lo = length (ahead own)) as -> by lia; by exists q].
    set (d := ((hi - lo) / 2)%nat). assert (Hd : (d < hi - lo)%nat) by (apply Nat.div_lt; lia). set (m := (lo + d)%nat). assert (Hm : (lo <= m < hi)%nat) by lia.
    assert (Em : sat_add (Z.of_nat lo) (sat_sub (Z.of_nat hi) (Z.of_nat lo) / 2) = Z.of_nat m).
    { rewrite sat_sub_small by lia. unfold m. replace (Z.of_nat hi - Z.of_nat lo) with (Z.of_nat (hi - lo)) by lia. change 2 with (Z.of_nat 2). rewrite <- Nat2Z.inj_div. fold d.
      rewrite sat_add_small by (unfold len, U64_MAX in *; lia). lia. }
    rewrite Em. destruct (lookup_lt_is_Some_2 own m ltac:(lia)) as [x Hx]. destruct (Hdec m x q Hx Hq) as (q1 & E1 & Hq1). rewrite (M_bind_ok _ _ _ _ _ E1).
    pose proof (Forall_lookup_1 _ _ _ _ Hrd Hx) as Hk. cbn in Hk. pose proof (falling_before own m x Hfa Hx) as Hb. unfold before in Hb. destruct (decode_record x encoding) as [key|]; [|done].
    cbn [map_err]. rewrite bind_lift_ok. destruct (compare_keys key target) eqn:Ec.
    2: { rewrite bool_decide_true in Hb by done. symmetry in Hb. apply bool_decide_eq_true in Hb. replace (sat_add (Z.of_nat m) 1) with (Z.of_nat (S m)) by (rewrite sat_add_small; unfold len, U64_MAX in *; lia).
         apply IH; [done..|lia|done|lia]. }
    all: rewrite bool_decide_false in Hb by done; symmetry in Hb; apply bool_decide_eq_false in Hb; apply IH; [done..|lia|lia|lia].
Qed.

(** The entries of the page itself among those of its tree. *)
Lemma own_sublist p h entries rightmost : forall cells ps items, walk p h (actions entries rightmost) cells ps -> Forall2 (holds p) cells items ->
  exists own, Forall2 (holds p) (map snd entries) own /\ own `sublist_of` items.
Proof using.
  induction entries as [|[child cell] es IH]; intros cells ps items Hw HF; [exists []; split; [constructor|apply sublist_nil_l]|].
  cbn [actions] in Hw. inversion Hw as [|? ? ? c1 s1 c2 s2 Ht Hw' Hd|]; subst. inversion Hw' as [| |? ? ? c3 s3 Hw2]; subst.
  apply Forall2_app_inv_l in HF as (i1 & i2 & H1 & H2 & ->). apply Forall2_cons_inv_l in H2 as (x & i3 & Hx & H3 & ->).
  destruct (IH _ _ _ Hw2 H3) as (own & Ho & Hs). exists (x :: own). split; [by constructor|]. apply sublist_inserts_l. by constructor.
Qed.

Lemma falling_sublist own items : falling items -> own `sublist_of` items -> falling own.
Proof.
  intros S Hs. induction Hs as [|x l k Hs IH|x l k Hs IH]; [done| |]; apply StronglySorted_inv in S as [S Hx]; [|by apply IH].
  constructor; [by apply IH|]. apply Forall_forall. intros y Hy. apply (proj1 (Forall_forall _ _) Hx). by eapply sublist_subseteq.
Qed.
Lemma readable_sublist own items : readable_keys items -> own `sublist_of` items -> readable_keys own.
Proof. intros Hr Hs. apply Forall_forall. intros y Hy. apply (proj1 (Forall_forall _ _) Hr). by eapply sublist_subseteq. Qed.

(** Everything to the left of the child the search descends into is before the
    target, everything to its right is not. *)
Lemma seek_sides (p q : Pager OS) h entries rightmost cA psA cC psC iA iB iC own : updated p q ∅ -> Forall2 (holds p) (map snd entries) own -> let m := length (ahead own) in
  walk p h (take (2 * m) (actions entries rightmost)) cA psA -> walk p h (drop (S (2 * m)) (actions entries rightmost)) cC psC ->
  Forall2 (holds p) cA iA -> Forall2 (holds p) cC iC -> falling (iA ++ iB ++ iC) -> falling own ->
  Forall (fun x => before x = true) iA /\ Forall (fun x => before x = false) iC.
Proof using Husable.
  intros Hq Ho m HwA HwC HA HC Hfa Hfo. apply falling_app in Hfa as [FA [_ FC]%falling_app]. pose proof (Forall2_length _ _ _ Ho) as Hlen. rewrite length_map in Hlen.
  assert (Hm : (m <= length entries)%nat) by (unfold m; rewrite Hlen; apply length_filter).
  assert (Hown : forall i child cell x, entries !! i = Some (child, cell) -> holds p cell x -> own !! i = Some x).
  { intros i child cell x He Hx. pose proof (map_lookup snd _ _ _ He) as Hs. destruct (Forall2_lookup_l _ _ _ _ _ Ho Hs) as (y & Hy & Hh). by rewrite (holds_fun p q cell x y Hq Hx Hh). }
  split.
  - destruct m as [|m'] eqn:Em; [cbn in HwA; inversion HwA; subst; by apply Forall2_nil_inv_l in HA as ->|].
    destruct (lookup_lt_is_Some_2 entries m' ltac:(lia)) as [[child cell] He]. destruct (actions_child entries rightmost _ _ _ He) as [_ A2].
    replace (2 * S m')%nat with (S (2 * m' + 1)) in HwA by lia. rewrite (take_last _ _ _ A2) in HwA. apply walk_app in HwA as (c1 & s1 & c2 & s2 & _ & Hw2 & -> & _ & _).
    apply walk_cell_inv in Hw2 as [-> _]. apply Forall2_app_inv_l in HA as (i1 & i2 & _ & H2 & ->). apply Forall2_cons_inv_l in H2 as (x & i3 & Hx & H3 & ->). apply Forall2_nil_inv_l in H3 as ->.
    apply falling_start; [done|]. rewrite (falling_before own m' x Hfo); [|by eapply Hown]. apply bool_decide_eq_true. lia.
  - destruct (decide (m = length entries)) as [E|Hne].
    + rewrite drop_ge in HwC by (rewrite length_actions; lia). inversion HwC; subst. by apply Forall2_nil_inv_l in HC as ->.
    + destruct (lookup_lt_is_Some_2 entries m ltac:(lia)) as [[child cell] He]. destruct (actions_child entries rightmost _ _ _ He) as [_ A2].
      replace (S (2 * m)) with (2 * m + 1)%nat in HwC by lia. rewrite (drop_S _ _ _ A2) in HwC. inversion HwC as [| |? ? ? c2 s2 Hw2]; subst. apply Forall2_cons_inv_l in HC as (x & i3 & Hx & H3 & ->).
      apply falling_rest; [done|]. rewrite (falling_before own m x Hfo); [|by eapply Hown]. apply bool_decide_eq_false. unfold m. lia.
Qed.

Lemma Forall2_length_le p cells items : Forall2 (holds p) cells items -> len items = len cells.
Proof using. intros HF. unfold len. by rewrite (Forall2_length _ _ _ HF). Qed.

Lemma page_search_leaf (p q : Pager OS) c f cells items : ileaf_frame f cells -> Forall2 (holds p) cells items -> falling items -> readable_keys items -> updated p q ∅ -> ic_usable_size c = usable ->
  exists q', binary_search_page f target encoding false (c, q) = (Ok (Z.of_nat (length (ahead items))), (c, q')) /\ updated p q' ∅.
Proof using Husable.
  intros Hf HF Hfa Hrd Hq Hu. pose proof (Forall2_length_le _ _ _ HF) as Hl. pose proof (ileaf_len _ _ Hf) as Hll. pose proof Hf as (_ & _ & Hnum & _). unfold binary_search_page. rewrite Hnum, <- Hl.
  replace (Z.to_nat (len items)) with (length items) by (unfold len; lia). change 0 with (Z.of_nat 0). apply (binary_search_spec p c f items false); [|done|done|lia|done|split; [lia|apply length_filter]|done|lia].
  intros i x q0 Hx Hq0. destruct (Forall2_lookup_r _ _ _ _ _ HF Hx) as (cell & Hc & Hh). by apply (decode_leaf_entry_spec Husable p q0 c f cells i cell x).
Qed.

Lemma page_search_interior (p q : Pager OS) c f entries rightmost own : iinterior_frame f entries rightmost -> Forall2 (holds p) (map snd entries) own -> falling own -> readable_keys own -> updated p q ∅ -> ic_usable_size c = usable ->
  exists q', binary_search_page f target encoding true (c, q) = (Ok (Z.of_nat (length (ahead own))), (c, q')) /\ updated p q' ∅.
Proof using Husable.
  intros Hf HF Hfa Hrd Hq Hu. pose proof (Forall2_length _ _ _ HF) as Hl. rewrite length_map in Hl. pose proof (iinterior_len _ _ _ Hf) as Hll. pose proof Hf as (_ & _ & Hnum & _). unfold binary_search_page. rewrite Hnum.
  replace (len entries) with (Z.of_nat (length own)) by (unfold len; lia). rewrite Nat2Z.id. change 0 with (Z.of_nat 0).
  apply (binary_search_spec p c f own true); [|done|done|unfold len in *; lia|done|split; [lia|apply length_filter]|done|lia].
  intros i x q0 Hx Hq0. destruct (Forall2_lookup_r _ _ _ _ _ HF Hx) as (cell & Hc & Hh). destruct (entries !! i) as [[child cell']|] eqn:He; [|apply lookup_ge_None in He; apply lookup_lt_Some in Hx; lia].
  rewrite (map_lookup snd _ _ _ He) in Hc. injection Hc as Hc. cbn in Hc. subst cell'. by apply (decode_interior_entry_spec Husable p q0 c f entries rightmost i child cell x).
Qed.

(** From a page on top of the stack the search leaves the entries that are not
    before the target. *)
Lemma index_seek_loop_spec p fuel : forall c (q : Pager OS) f below h cells ps items rest n b,
  ic_stack c = f :: below -> top_frame p h f cells ps -> Forall2 (holds p) cells items -> falling items -> readable_keys items -> ipending p false below rest n -> updated p q ∅ ->
  0 <= ic_pages_visited c -> ic_pages_visited c + Z.of_nat (base.size ps + n) <= b -> b <= MAX_PAGES_VISITED -> ic_usable_size c = usable -> (base.size ps < fuel)%nat ->
  exists c' q' cells' n', index_seek_loop fuel target encoding (c, q) = (Ok tt, (c', q')) /\ updated p q' ∅ /\ ipending p false (ic_stack c') (cells' ++ rest) n' /\ Forall2 (holds p) cells' (behind items) /\
    0 <= ic_pages_visited c' /\ ic_pages_visited c' + Z.of_nat n' <= b /\ isame c c'.
Proof using Husable.
  induction fuel as [|fuel IH]; intros c q f below h cells ps items rest n b Hst Htop HF Hfa Hrd Hp Hq H0 Hb HM Hu Hfuel; [lia|]. cbn [index_seek_loop]. erewrite M_bind_ok by reflexivity. cbn [fst]. rewrite Hst.
  destruct Htop as [[Hf ->]|(entries & rightmost & Hf & Hw)].
  - pose proof Hf as (Hi & _). rewrite Hi. destruct (page_search_leaf p q c f cells items Hf HF Hfa Hrd Hq Hu) as (q' & E & Hq'). rewrite (M_bind_ok _ _ _ _ _ E). cbn [negb].
    exists (ic_set_stack c (set_step f (Z.of_nat (length (ahead items))) :: below)), q', (drop (length (ahead items)) cells), n. split; [done|]. split; [done|].
    pose proof (length_filter (fun x => before x = true) items) as Hla. fold (ahead items) in Hla. pose proof (Forall2_length _ _ _ HF). rewrite size_empty in Hb. split; [|split; [|done]].
    + apply (ipending_leaf p false _ below cells (length (ahead items)) rest n); [done|done|lia|done].
    + assert (E2 : behind items = drop (length (ahead items)) items) by (rewrite (falling_split items Hfa) at 3; by rewrite drop_app_length). rewrite E2. by apply Forall2_drop.
  - pose proof Hf as (Hi & _ & Hnum & _ & Hfr). rewrite Hi. destruct (own_sublist p h entries rightmost cells ps items Hw HF) as (own & Ho & Hsub). pose proof (falling_sublist _ _ Hfa Hsub) as Hfo.
    destruct (page_search_interior p q c f entries rightmost own Hf Ho Hfo (readable_sublist _ _ Hrd Hsub) Hq Hu) as (q1 & E & Hq1). rewrite (M_bind_ok _ _ _ _ _ E). cbn [negb].
    set (m := length (ahead own)) in *. pose proof (Forall2_length _ _ _ Ho) as Hlen. rewrite length_map in Hlen. assert (Hm : (m <= length entries)%nat) by (unfold m; rewrite Hlen; apply length_filter). pose proof (iinterior_len _ _ _ Hf) as Hll.
    assert (Hchild : exists child, actions entries rightmost !! (2 * m)%nat = Some (Descend child) /\
      (if Z.of_nat m <? if_num_cells f then _ ← ic_update (fun c => ic_set_stack c (set_step f (sat_add (sat_mul (Z.of_nat m) 2) 1) :: below)); lift (index_interior_child f (Z.of_nat m))
       else _ ← ic_update (fun c => ic_set_stack c (set_step f (sat_add (sat_mul (if_num_cells f) 2) 1) :: below)); mret (if_rightmost f)) (c, q1) =
      (Ok child, (ic_set_stack c (set_step f (Z.of_nat (2 * m + 1)) :: below), q1))).
    { assert (Hsat : forall k : nat, (k <= length entries)%nat -> sat_add (sat_mul (Z.of_nat k) 2) 1 = Z.of_nat (2 * k + 1)) by (intros k Hk; rewrite sat_mul_small by (unfold len, U64_MAX in *; lia); rewrite sat_add_small by (unfold len, U64_MAX in *; lia); lia).
      rewrite Hnum. destruct (Z.ltb_spec (Z.of_nat m) (len entries)) as [Hlt|Hge].
      - destruct (lookup_lt_is_Some_2 entries m ltac:(unfold len in Hlt; lia)) as [[child cell] He]. exists child. split; [apply (actions_child entries rightmost m child cell He)|]. rewrite (Hsat m Hm).
        erewrite M_bind_ok by reflexivity. rewrite (ichild_spec f entries rightmost m child cell Hf He). done.
      - assert (m = length entries) as -> by (unfold len in Hge; lia). exists rightmost. split; [apply actions_rightmost|]. change (len entries) with (Z.of_nat (length entries)). rewrite (Hsat _ ltac:(done)), Hfr. done. }
    destruct Hchild as (child & Ea & Ech). rewrite (M_bind_ok _ _ _ _ _ Ech).
    rewrite <- (take_drop (2 * m) (actions entries rightmost)), (drop_S _ _ _ Ea) in Hw. apply walk_app in Hw as (cA & psA & cBC & psBC & HwA & HwBC & -> & -> & Hd1).
    inversion HwBC as [|? ? ? cB psB cC psC HtB HwC Hd2|]; subst cBC psBC. apply Forall2_app_inv_l in HF as (iA & iBC & HA & HBC & ->). apply Forall2_app_inv_l in HBC as (iB & iC & HB & HC & ->).
    destruct (seek_sides p q h entries rightmost cA psA cC psC iA iB iC own Hq Ho HwA HwC HA HC Hfa Hfo) as [FA FC]. rewrite !behind_app, (behind_none _ FA), (behind_all _ FC). cbn [app].
    apply falling_app in Hfa as [_ [FB _]%falling_app]. apply Forall_app in Hrd as [_ [RB _]%Forall_app]. rewrite !size_union in * by set_solver.
    destruct (index_push_spec p q1 (ic_set_stack c (set_step f (Z.of_nat (2 * m + 1)) :: below)) false h child cB psB HtB Hq1 H0) as (g & q2 & h' & ps' & E2 & Hq2 & Hs & Htop & Hst2).
    { cbn. destruct HtB; [rewrite size_singleton in *; lia|]. rewrite size_union in * by set_solver. rewrite size_singleton in *. lia. }
    rewrite (M_bind_ok _ _ _ _ _ E2).
    assert (Hp2 : ipending p false (set_step f (Z.of_nat (2 * m + 1)) :: below) (cC ++ rest) (base.size psC + n)) by (apply (ipending_interior p false _ below entries rightmost (2 * m + 1) h cC psC); [done|done|lia|by replace (2 * m + 1)%nat with (S (2 * m)) by lia|done]).
    set (c1 := ic_set_stack (ic_set_visited (ic_set_stack c (set_step f (Z.of_nat (2 * m + 1)) :: below)) (ic_pages_visited c + 1)) (g :: set_step f (Z.of_nat (2 * m + 1)) :: below)).
    destruct (IH c1 q2 g (set_step f (Z.of_nat (2 * m + 1)) :: below) h' cB ps' iB (cC ++ rest) (base.size psC + n)%nat b) as (c' & q' & cells' & n' & E3 & Hq' & Hp' & HF' & H0' & Hb' & Hsame);
      [reflexivity|exact Htop|exact HB|exact FB|exact RB|exact Hp2|exact Hq2|cbn; lia|cbn; lia|exact HM|exact Hu|lia|].
    exists c', q', (cells' ++ cC), n'. split; [exact E3|]. split; [done|]. split; [by rewrite <- app_assoc|]. split; [by apply Forall2_app|]. done.
Qed.

Lemma index_seek_delivers p c (q : Pager OS) h cells items ps :
  itree p h (ic_root_page c) cells ps -> Forall2 (holds p) cells items -> falling items -> readable_keys items -> updated p q ∅ -> Z.of_nat (base.size ps) <= MAX_PAGES_VISITED -> ic_usable_size c = usable ->
  exists cells', Forall2 (holds p) cells' (behind items) /\ idelivers p false c MAX_PAGES_VISITED cells' (behind items) (index_seek target encoding (c, q)).
Proof using Husable.
  intros Ht HF Hfa Hrd Hq HM Hu. destruct (index_push_spec p q (index_rewind c) false h _ cells ps Ht Hq ltac:(done) ltac:(done)) as (f & q1 & h' & ps' & E & Hq1 & Hs & Htop & Hst).
  unfold index_seek. do 2 (erewrite M_bind_ok by reflexivity). cbn [fst snd index_rewind ic_root_page]. rewrite (M_bind_ok _ _ _ _ _ E).
  set (c1 := ic_set_stack (ic_set_visited (index_rewind c) 1) [f]).
  destruct (index_seek_loop_spec p (S (Z.to_nat MAX_PAGES_VISITED)) c1 q1 f [] h' cells ps' items [] 0 MAX_PAGES_VISITED) as (c' & q' & cells' & n' & E3 & Hq' & Hp' & HF' & H0' & Hb' & Hsame);
    [reflexivity|exact Htop|exact HF|exact Hfa|exact Hrd|constructor|exact Hq1|cbn; lia|cbn; lia|done|exact Hu|lia|].
  rewrite app_nil_r in Hp'. rewrite (M_bind_ok _ _ _ _ _ E3). exists cells'. split; [done|]. eapply idelivers_same; [|apply (index_move_spec p false c' q' cells' _ n'); [done|done|done|done|done|done|]]; destruct Hsame as [S1 S2]; [split; [by rewrite S1|by rewrite S2]|by rewrite S1].
Qed.
End Steps.

(** ** Termination on any pages *)

Abbreviation ICur := (M (IndexCursor * Pager OS) BtreeError).

Lemma index_push_effect n reverse c (q : Pager OS) c' q' :
  index_push_page n reverse (c, q) = (Ok tt, (c', q')) ->
  length (ic_stack c') = S (length (ic_stack c)) /\ ic_pages_visited c < ic_pages_visited c' <= MAX_PAGES_VISITED.
Proof.
  intros E. unfold index_push_page in E. apply M_bind_inv in E as (page & [c1 q1] & E1 & E).
  assert (ic_stack c1 = ic_stack c /\ ic_pages_visited c < ic_pages_visited c1 <= MAX_PAGES_VISITED) as [Hs Hv].
  { unfold index_read_page in E1. apply M_bind_inv in E1 as ([] & s1 & [= <-] & E1). apply M_bind_inv in E1 as (c2 & s2 & [= <- <-] & E1).
    cbn [fst snd] in E1. destruct (MAX_PAGES_VISITED <? _) eqn:El; [done|]. apply Z.ltb_ge in El. cbn [ic_pages_visited ic_set_visited] in El.
    unfold ic_source in E1. cbn [fst snd] in E1. destruct (read_page_b n q) as [r q2]. injection E1 as _ <- _. split; [done|]. cbn [ic_pages_visited ic_set_visited].
    revert El. unfold sat_add, MAX_PAGES_VISITED, U64_MAX. lia. }
  apply M_bind_inv in E as (ty & s2 & [= _ <-] & E). apply M_bind_inv in E as (int & s3 & E3 & E).
  assert (s3 = (c1, q1)) as -> by (destruct (ty =? LEAF_INDEX); [by injection E3 as _ <-|]; destruct (ty =? INTERIOR_INDEX); [by injection E3 as _ <-|done]).
  apply M_bind_inv in E as (u & s4 & E4 & E). assert (s4 = (c1, q1)) as -> by (destruct int; by injection E4 as _ <-).
  apply M_bind_inv in E as (k & s5 & [= _ <-] & E). apply M_bind_inv in E as (br & s6 & E6 & E).
  assert (s6 = (c1, q1)) as ->.
  { destruct int; [|by injection E6 as _ <-]. apply M_bind_inv in E6 as (x & s7 & [= _ <-] & E6). by injection E6 as _ <-. }
  injection E as <- _. cbn [ic_stack ic_set_stack length ic_pages_visited]. rewrite Hs. done.
Qed.

Lemma ic_source_ends {A} (m : M (Pager OS) BtreeError A) (s : IndexCursor * Pager OS) : ends m s.2 -> ends (ic_source m) s.
Proof. unfold ends, ic_source. by destruct (m s.2). Qed.

Lemma index_push_ends n reverse s : ends (index_push_page n reverse : ICur unit) s.
Proof.
  unfold index_push_page, index_read_page, read_page_type, read_num_cells, require_interior_header, read_u32. solve_ends; try discriminate.
  apply ic_source_ends. unfold read_page_b. solve_ends.
Qed.

Lemma overflow_loop_ends fuel : forall page_num overflow_page remaining available visited acc (q : Pager OS),
  ends (overflow_loop fuel page_num overflow_page remaining available visited acc) q.
Proof.
  induction fuel as [|fuel IH]; intros; cbn [overflow_loop]; unfold read_page_b, read_u32; solve_ends; apply IH.
Qed.

Lemma decode_entry_ends skip f i s : ends (decode_entry skip f i : ICur (list Z)) s.
Proof.
  unfold decode_entry, read_cell_pointer, decode_payload_len. solve_ends; try discriminate.
  all: apply ic_source_ends; unfold reassemble_payload; solve_ends; apply overflow_loop_ends.
Qed.

Lemma index_child_sound f i : sound (index_interior_child f i).
Proof. unfold index_interior_child, read_cell_pointer, read_u32. solve_ends. Qed.

Lemma index_push_then {A} n reverse c (q : Pager OS) (k : ICur A) fuel :
  (index_budget c <= S fuel)%nat -> (forall c' q', (index_budget c' <= fuel)%nat -> ends k (c', q')) ->
  ends (index_push_page n reverse ≫= fun _ => k) (c, q).
Proof.
  intros Hb Hk. apply ends_bind; [apply index_push_ends|]. intros [] [c' q'] E. apply Hk.
  apply index_push_effect in E as [Hl Hv]. unfold index_budget in *. lia.
Qed.

Lemma index_budget_step c f below fuel : ic_stack c = f :: below -> (index_budget c <= S fuel)%nat ->
  (forall g, (index_budget (ic_set_stack c (g :: below)) <= S fuel)%nat) /\ (index_budget (ic_set_stack c below) <= fuel)%nat.
Proof. intros Es. unfold index_budget. rewrite Es. cbn [ic_stack ic_set_stack length ic_pages_visited]. intros Hb. split; [intros _|]; lia. Qed.

Lemma index_advance_loop_ends fuel : forall c (q : Pager OS), (index_budget c <= fuel)%nat -> ends (index_advance_loop fuel) (c, q).
Proof.
  induction fuel as [|fuel IH]; intros c q Hb; [unfold index_budget in Hb; lia|].
  cbn [index_advance_loop]. unfold ends. erewrite M_bind_ok by reflexivity. cbn [fst]. destruct (ic_stack c) as [|f below] eqn:Es; [done|].
  destruct (index_budget_step c f below fuel Es Hb) as [Hg Hp]. cbv zeta. destruct (negb (if_is_interior f)).
  - destruct (if_num_cells f <=? if_step f); erewrite M_bind_ok by reflexivity; [by apply IH|]. apply ends_bind; [apply decode_entry_ends|done].
  - destruct (sat_mul (if_num_cells f) 2 <? if_step f); erewrite M_bind_ok by reflexivity; [by apply IH|]. cbn [fst snd].
    destruct (if_step f =? sat_mul (if_num_cells f) 2); [by eapply index_push_then|]. destruct (if_step f mod 2 =? 0).
    + apply ends_bind; [apply ends_lift, index_child_sound|]. intros child s [= _ <-]. by eapply index_push_then.
    + apply ends_bind; [apply decode_entry_ends|done].
Qed.

Lemma index_advance_desc_loop_ends fuel : forall c (q : Pager OS), (index_budget c <= fuel)%nat -> ends (index_advance_desc_loop fuel) (c, q).
Proof.
  induction fuel as [|fuel IH]; intros c q Hb; [unfold index_budget in Hb; lia|].
  cbn [index_advance_desc_loop]. unfold ends. erewrite M_bind_ok by reflexivity. cbn [fst]. destruct (ic_stack c) as [|f below] eqn:Es; [done|].
  destruct (index_budget_step c f below fuel Es Hb) as [Hg Hp]. destruct (if_step f =? 0); cbv zeta; erewrite M_bind_ok by reflexivity; [by apply IH|].
  cbn [fst snd]. destruct (negb (if_is_interior f)); [apply ends_bind; [apply decode_entry_ends|done]|].
  destruct (_ mod 2 =? 0); [|apply ends_bind; [apply decode_entry_ends|done]]. destruct (_ / 2 =? _); [by eapply index_push_then|].
  apply ends_bind; [apply ends_lift, index_child_sound|]. intros child s [= _ <-]. by eapply index_push_then.
Qed.

(** The search of a page leaves the cursor alone. *)
Lemma search_keeps fuel : forall lo hi f target encoding interior (s : IndexCursor * Pager OS),
  ends (binary_search_loop fuel lo hi f target encoding interior) s /\
  (binary_search_loop fuel lo hi f target encoding interior s).2.1 = s.1.
Proof.
  induction fuel as [|fuel IH]; intros lo hi f target encoding interior s; cbn [binary_search_loop]; [done|].
  destruct (negb (lo <? hi)); [done|]. cbv zeta. set (mid := sat_add lo _).
  assert (forall skip, (decode_entry skip f mid s).2.1 = s.1) as Hk.
  { intros skip. destruct s as [c q]. unfold decode_entry, mbind, M_bind, lift, ic_self, ic_source. destruct (read_cell_pointer _ _ _ _); [|done].
    destruct (decode_payload_len _ _ _) as [[pl ts]|]; [|done]. cbn [fst snd]. by destruct (reassemble_payload _ _ _ _ _ _ q). }
  unfold ends, mbind, M_bind, lift.
  assert (exists skip, (if interior then decode_interior_entry f mid else decode_leaf_entry f mid) = decode_entry skip f mid) as [skip ->] by (destruct interior; by eexists).
  specialize (Hk skip). pose proof (decode_entry_ends skip f mid s) as He. unfold ends in He.
  destruct (decode_entry skip f mid s) as [[row|e] s1]; cbn [fst snd] in *; [|split; [intros [= ->]; by apply He|done]]. rewrite <- Hk.
  destruct (decode_record row encoding) as [key|e]; cbn [map_err fst snd]; [|done]. destruct (compare_keys key target); apply IH.
Qed.

Lemma index_seek_loop_ends target encoding fuel : forall c (q : Pager OS),
  (Z.to_nat (MAX_PAGES_VISITED - ic_pages_visited c) < fuel)%nat -> ends (index_seek_loop fuel target encoding) (c, q).
Proof.
  induction fuel as [|fuel IH]; intros c q Hb; [lia|]. cbn [index_seek_loop]. unfold ends. erewrite M_bind_ok by reflexivity. cbn [fst].
  destruct (ic_stack c) as [|f below]; [done|]. unfold binary_search_page.
  destruct (search_keeps (Z.to_nat (if_num_cells f)) 0 (if_num_cells f) f target encoding (if_is_interior f) (c, q)) as [He Hk].
  apply ends_bind; [exact He|]. intros i [c1 q1] E. rewrite E in Hk. cbn [fst snd] in Hk. subst c1.
  destruct (negb (if_is_interior f)); [done|]. apply ends_bind.
  - destruct (i <? if_num_cells f); apply ends_bind; try done. intros [] s _. apply ends_lift, index_child_sound.
  - intros child [c2 q2] E2. assert (ic_pages_visited c2 = ic_pages_visited c) as Hv.
    { destruct (i <? if_num_cells f); apply M_bind_inv in E2 as ([] & s2 & [= <-] & [= _ <- _]); done. }
    apply ends_bind; [apply index_push_ends|]. intros [] [c3 q3] [_ Hv3]%index_push_effect. apply IH. lia.
Qed.

Lemma index_start_ends (reverse : bool) c (q : Pager OS) : ends (if reverse then index_last else index_first : ICur (option (list Z))) (c, q).
Proof.
  destruct reverse; unfold index_first, index_last, index_advance, index_advance_desc, ends.
  all: do 2 erewrite M_bind_ok by reflexivity; apply ends_bind; [apply index_push_ends|]; intros [] [c' q'] _; unfold ends; erewrite M_bind_ok by reflexivity.
  - by apply index_advance_desc_loop_ends.
  - by apply index_advance_loop_ends.
Qed.

Lemma index_seek_ends target encoding c (q : Pager OS) : ends (index_seek target encoding) (c, q).
Proof.
  unfold index_seek, ends. do 2 erewrite M_bind_ok by reflexivity. apply ends_bind; [apply index_push_ends|]. intros [] [c' q'] [_ Hv]%index_push_effect.
  apply ends_bind; [apply index_seek_loop_ends; cbn in Hv; lia|]. intros [] [c2 q2] _. by apply index_advance_loop_ends.
Qed.
End Index.
