(* ===== verification/IndexProperties.v ===== *)
(** * Properties of index b-trees

    An index cursor returns the entries of its tree, all of them in either
    direction or those from a key on; and what deleting an entry from an
    interior page leaves behind. *)

From stdpp Require Import prelude list numbers gmap sorting.
From Stdlib Require Import ZArith Lia.
From S2P Require Import Prelude Varint Text Record Float ValueOrder Header Freelist Vfs Journal Wal Lock Shm Checkpoint PageCache Pager Commit Transactions Allocator BtreePage LeafPage LeafSearch Btree Tree TreeSplit Overflow TableTree Table Cursor CursorScan IndexBtree IndexScan.

Local Open Scope Z_scope.

(** ** Pages as they are written *)

Lemma write_index_leaf_spec buf hs pn cells : 0 <= hs <= 100 -> len buf <= 65536 -> Forall (fun c => 1 <= len c) cells -> hs + 8 + 2 * len cells + total_len cells <= len buf ->
  exists buf', write_index_leaf_page buf hs pn cells = Ok buf' /\ index_leaf buf' hs cells.
Proof.
  intros Hhs Hmax Hc Hfit. destruct (write_page_common_spec buf hs pn LEAF_INDEX 8 cells Hhs ltac:(lia) Hmax Hc Hfit) as (b & slots & E & Hsnd & Hps & _ & Hty & _).
  exists b. split; [done|]. split; [done|]. by exists (len buf - total_len cells), slots.
Qed.

Lemma write_index_interior_spec buf hs pn entries rightmost : 0 <= hs <= 100 -> len buf <= 65536 -> Forall (fun e => is_u32 e.1) entries -> is_u32 rightmost ->
  let cells := map (fun e => build_index_interior_cell e.1 e.2) entries in hs + 12 + 2 * len entries + total_len cells <= len buf ->
  exists buf', write_index_interior_page buf hs pn cells rightmost = Ok buf' /\ index_interior buf' hs entries rightmost.
Proof.
  intros Hhs Hmax He Hr cells Hfit. pose proof (total_len_nonneg cells). pose proof (len_nonneg entries). assert (Hl : len cells = len entries) by (unfold len, cells; by rewrite length_map).
  destruct (write_page_common_spec buf hs pn INTERIOR_INDEX 12 cells Hhs ltac:(lia) Hmax) as (b1 & slots & E1 & Hsnd & Hps & Hs & Hty & _ & _ & _); [|lia|].
  { apply Forall_map, Forall_forall. intros e _. unfold build_index_interior_cell. rewrite len_app, len_be_encode. pose proof (len_nonneg e.2). lia. }
  pose proof (slots_len _ _ _ Hsnd) as Hls. pose proof (proj1 Hs) as L1. pose proof (len_be_encode 4 rightmost) as Lr.
  destruct (put_ok b1 (hs + 8) (be_encode 4 rightmost) pn) as (b2 & E2 & S2 & R2); [lia|lia|]. rewrite Lr in S2, R2. exists b2. unfold write_index_interior_page. rewrite E1. cbn [mbind result_bind].
  rewrite sat_add_small by (unfold U64_MAX; lia). split; [done|]. pose proof Hps as [_ _ _ Hroom Hnum Hcs Hptr Hcell]. pose proof (proj1 S2) as L2.
  split; [by rewrite (same_outside_at _ _ _ _ _ S2) by lia|]. split; [by apply read_of_range|]. split; [done|]. exists (len buf - total_len cells), slots. split; [|done].
  constructor; try lia; first [by rewrite (same_outside_read 2 _ _ _ _ _ S2) by lia|idtac].
  - intros i o c Hi. rewrite (same_outside_read 2 _ _ _ _ _ S2) by lia. by eapply Hptr.
  - intros i o c Hi. destruct (Hcell _ _ _ Hi) as (? & ? & ? & ?). split; [done|]. split; [done|]. split; [lia|]. by rewrite (proj2 S2) by lia.
Qed.

Section Properties.
Context `{host : Host} {OS : Type} `{Fcntl OS} (usable : Z).

Lemma nothing_updated (p : Pager OS) : coherent p -> updated p p ∅.
Proof. intros Hc. split; [apply same_base_refl|]. split; [done|]. intros n. by rewrite lookup_empty. Qed.

(** C12. An index cursor returns the index: [first] and then [next] until the end
    yield every entry of the tree once, the entries of interior pages between
    those of the subtrees around them, each reassembled from its overflow
    chain; [last] and [prev] yield the same entries backwards. *)
Theorem index_scan_returns_entries (p : Pager OS) c h cells items ps (reverse : bool) fuel :
  480 <= usable <= 65536 -> coherent p -> itree p h (ic_root_page c) cells ps -> Forall2 (holds usable p) cells items ->
  Z.of_nat (base.size ps) <= MAX_PAGES_VISITED -> ic_usable_size c = usable -> (length items < fuel)%nat ->
  exists s, idrain_from fuel (if reverse then index_last else index_first) (if reverse then index_prev else index_next) (c, p) = (Ok (turn reverse items), s).
Proof.
  intros Hus Hco Ht HF HM Hu Hf. pose proof (nothing_updated p Hco) as Hq.
  eapply (idrain_from_spec usable Hus p reverse c p); [by eapply (index_start_spec usable Hus)|by apply Forall2_turn|done|]. destruct reverse; cbn [turn]; [by rewrite length_rev|done].
Qed.

(** The keys of an index in order put the entries before a target first. *)
Lemma sorted_falling (ok : Value -> Prop) `{!TotalPreorder ok compare_values} target encoding items keys :
  Forall2 (fun x key => decode_record x encoding = Ok key) items keys -> StronglySorted (fun a b => compare_keys a b <> Gt) keys -> Forall (Forall ok) keys -> Forall ok target ->
  falling target encoding items /\ readable_keys encoding items.
Proof.
  intros HK. induction HK as [|x key items keys Hx HK IH]; intros S Hok Ht; [split; constructor|].
  apply StronglySorted_inv in S as [S Hle]. apply Forall_cons in Hok as [Hk Hok]. destruct (IH S Hok Ht) as [Hf Hr]. split; [|constructor; [by rewrite Hx|done]].
  constructor; [exact Hf|]. apply Forall_forall. intros y Hy. unfold before. rewrite Hx. apply list_elem_of_lookup in Hy as [i Hi]. destruct (Forall2_lookup_l _ _ _ _ _ HK Hi) as (key' & Hk' & Hd). rewrite Hd.
  rewrite !bool_decide_eq_true. intros Hlt. pose proof (Forall_lookup_1 _ _ _ _ Hle Hk') as Hle'. pose proof (Forall_lookup_1 _ _ _ _ Hok Hk') as Hok'. cbn in Hle'. rewrite !compare_keys_lex in *.
  pose proof (lex_cmp_total compare_values ok) as T. pose proof (cmp_flip key' target Hok' Ht) as F1. pose proof (cmp_flip key target Hk Ht) as F2.
  destruct (lex_cmp compare_values key target) eqn:E; [exfalso|done|exfalso].
  - rewrite Hlt in F1. rewrite <- (cmp_eq_l (Forall ok) (lex_cmp compare_values) key target key' Hk Ht Hok' E) in F1. by apply Hle'.
  - pose proof (cmp_trans key key' target Hk Hok' Ht Hle') as Tr. rewrite Hlt, E in Tr. by apply Tr.
Qed.


End Properties.

(** ** Witnesses *)

(** An index of two columns over five rows, in two leaves under one entry. *)
#[local] Instance little : Host := true.
Definition five_keys : list (list Value) :=
  [[Null; Integer 4]; [Integer 3; Integer 1]; [Integer 3; Integer 9]; [VText (lit "a"); Integer 2]; [VText (lit "b"); Integer 7]].
Definition five_items : list (list Z) := map (fun key => encode_record key Utf8) five_keys.
Definition sample_index_cells : list (list Z) := map (fun x => value_cell 512 x 0) five_items.
Definition left_cells : list (list Z) := take 2 sample_index_cells.
Definition right_cells : list (list Z) := drop 3 sample_index_cells.
Definition root_entries : list (Z * list Z) := [(3, default [] (sample_index_cells !! 2%nat))].
Definition sample_index : Pager LockTable := alloc_pager (header_page 4 0 0 ++
  built (write_index_interior_page (zeros 512) 0 2 (map (fun e => build_index_interior_cell e.1 e.2) root_entries) 4) ++
  built (write_index_leaf_page (zeros 512) 0 3 left_cells) ++ built (write_index_leaf_page (zeros 512) 0 4 right_cells)).

Lemma sample_holds : Forall2 (holds 512 sample_index) sample_index_cells five_items.
Proof.
  assert (E : Forall (fun x => index_spill 512 x = [] /\ len x <= 400) five_items) by (repeat constructor; by vm_compute).
  unfold sample_index_cells. induction E as [|x l [Hs Hl] E IH]; [constructor|]. constructor; [|done]. exists []. split; [done|]. split; [unfold MAX_PAYLOAD_LEN; lia|].
  split; [constructor|]. split; [done|]. by rewrite Hs.
Qed.

Lemma sample_itree : itree sample_index 1 2 sample_index_cells {[2; 3; 4]}.
Proof.
  assert (Hlen : len (zeros 512) <= 65536) by (vm_compute; congruence).
  destruct (write_index_leaf_spec (zeros 512) 0 3 left_cells ltac:(lia) Hlen ltac:(repeat constructor; vm_compute; congruence) ltac:(vm_compute; congruence)) as (b3 & E3 & L3).
  destruct (write_index_leaf_spec (zeros 512) 0 4 right_cells ltac:(lia) Hlen ltac:(repeat constructor; vm_compute; congruence) ltac:(vm_compute; congruence)) as (b4 & E4 & L4).
  destruct (write_index_interior_spec (zeros 512) 0 2 root_entries 4 ltac:(lia) Hlen ltac:(repeat constructor; vm_compute; congruence) ltac:(split; vm_compute; congruence) ltac:(vm_compute; congruence)) as (b2 & E2 & L2).
  assert (P2 : logical sample_index 2 = Ok (built (write_index_interior_page (zeros 512) 0 2 (map (fun e => build_index_interior_cell e.1 e.2) root_entries) 4))) by (by vm_compute).
  assert (P3 : logical sample_index 3 = Ok (built (write_index_leaf_page (zeros 512) 0 3 left_cells))) by (by vm_compute).
  assert (P4 : logical sample_index 4 = Ok (built (write_index_leaf_page (zeros 512) 0 4 right_cells))) by (by vm_compute).
  rewrite E2 in P2. rewrite E3 in P3. rewrite E4 in P4. cbn [built] in P2, P3, P4.
  replace ({[2; 3; 4]} : gset Z) with ({[2]} ∪ ({[3]} ∪ ({[4]} ∪ ∅)) : gset Z) by (by apply (bool_decide_unpack _); vm_compute).
  apply (itree_interior _ 0 2 b2 root_entries 4); [split; vm_compute; congruence|exact P2|exact L2| |clear; set_solver].
  change sample_index_cells with (left_cells ++ default [] (sample_index_cells !! 2%nat) :: right_cells ++ []). unfold root_entries. cbn [actions].
  apply walk_child; [eapply itree_leaf; [split; vm_compute; congruence|exact P3|exact L3]| |clear; set_solver]. apply walk_cell.
  apply walk_child; [eapply itree_leaf; [split; vm_compute; congruence|exact P4|exact L4]|constructor|clear; set_solver].
Qed.

Lemma index_scan_returns_entries_witness : exists s,
  idrain_from 6 index_last index_prev (new_index_cursor 512 2, sample_index) = (Ok (rev five_items), s).
Proof.
  apply (@index_scan_returns_entries LockTable 512 sample_index (new_index_cursor 512 2) 1 sample_index_cells five_items {[2; 3; 4]} true 6);
    [lia|apply alloc_pager_coherent|apply sample_itree|apply sample_holds|vm_compute; congruence|reflexivity|vm_compute; lia].
Defined.


(** ** Writes that go wrong *)

Definition empty_index : Pager LockTable := alloc_pager (header_page 2 0 0 ++ built (write_index_leaf_page (zeros 512) 0 2 [])).
Fixpoint insert_all (keys : list (list Value)) (p : Pager LockTable) : result BtreeError unit * Pager LockTable :=
  match keys with
  | [] => (Ok tt, p)
  | key :: keys => match insert_entry (plain_header 2) 2 key Utf8 p with (Ok _, p) => insert_all keys p | (Err e, p) => (Err e, p) end
  end.
(** The rowids of the entries in the order of a scan. *)
Definition rowids (p : Pager LockTable) : result BtreeError (list (option Value)) :=
  items ← (idrain_from 100 index_first index_next (new_index_cursor 512 2, p)).1;
  Ok (map (fun x => match decode_record x Utf8 with Ok key => list.last key | Err _ => None end) items).
(** The number of pages on the freelist, from the header. *)
Definition free_pages (p : Pager LockTable) : option Z := match logical p 1 with Ok page => read_be 4 page 36 | Err _ => None end.

Definition wide_key (i : Z) : list Value := [Blob (replicate 97 i); Integer i].
Definition narrow_key (i : Z) : list Value := [Blob [200]; Integer i].
Definition crowded_index : result BtreeError unit * Pager LockTable := insert_all (map wide_key [10; 20; 30; 50] ++ map narrow_key (seqZ 1 10)) empty_index.

(** A leaf is split at half the number of its cells whatever their sizes.  Here
    four wide entries are followed by ten narrow ones and a fifth wide entry is
    inserted among the first: the half that keeps the wide entries does not
    fit its page, its cells are written over the header, and the insertion
    fails with the index no longer readable. *)
Theorem index_split_destroys_entries :
  crowded_index.1 = Ok tt /\ rowids crowded_index.2 = Ok (map (fun i => Some (Integer i)) ([10; 20; 30; 50] ++ seqZ 1 10)) /\
  let after := insert_entry (plain_header 2) 2 (wide_key 40) Utf8 crowded_index.2 in
  after.1 = Err (BtUnexpectedPageType 2 102) /\ rowids after.2 = Err (BtUnexpectedPageType 2 102).
Proof. by vm_compute. Qed.

Definition long_key (i : Z) : list Value := [Blob (replicate 300 i); Integer i].
Definition long_index : result BtreeError unit * Pager LockTable := insert_all (map long_key (seqZ 1 12)) empty_index.

(** The twelve entries have an overflow page each, and the sixth is on the root.
    Deleting an entry of a leaf frees its overflow page; deleting the one on the
    root puts its predecessor in its place and leaves its overflow page
    allocated, reachable from nowhere. *)
Theorem predecessor_swap_leaks_overflow :
  long_index.1 = Ok tt /\ free_pages long_index.2 = Some 0 /\
  (let after := delete_entry (plain_header 2) 2 (long_key 5) Utf8 long_index.2 in
   after.1 = Ok tt /\ rowids after.2 = Ok (map (fun i => Some (Integer i)) (seqZ 1 4 ++ seqZ 6 7)) /\ free_pages after.2 = Some 1) /\
  (let after := delete_entry (plain_header 2) 2 (long_key 6) Utf8 long_index.2 in
   after.1 = Ok tt /\ rowids after.2 = Ok (map (fun i => Some (Integer i)) (seqZ 1 5 ++ seqZ 7 6)) /\ free_pages after.2 = Some 0).
Proof. by vm_compute. Qed.
