(* ===== verification/Program.v ===== *)
(** * Bytecode ([src/vdbe/program.rs]) and table schemas
    ([src/schema/ddl_reader.rs])

    The instruction format of the virtual machine: an opcode, three 32-bit
    operands, one typed operand and the flags; a program is the sequence of
    its instructions.  The schema records are what the code generator reads of
    a table. *)

From stdpp Require Import prelude list numbers.
From Stdlib Require Import ZArith Lia.
From S2P Require Import Prelude Varint Text Record Float ValueOrder Format Coerce Tokenizer Functions.

Local Open Scope Z_scope.

(** ** 32-bit operands *)

Definition I32_MIN : Z := -2147483648.
Definition I32_MAX : Z := 2147483647.
Definition is_i32 (z : Z) : Prop := I32_MIN <= z <= I32_MAX.
(** [i32::saturating_add], [i32::checked_add] and [i32::try_from]. *)
Definition i32_sat_add (a b : Z) : Z := Z.max I32_MIN (Z.min I32_MAX (a + b)).
Definition i32_try_from (z : Z) : option Z := if (I32_MIN <=? z) && (z <=? I32_MAX) then Some z else None.
Definition i32_checked_add (a b : Z) : option Z := i32_try_from (a + b).
(** [usize as i32]. *)
Definition as_i32 (z : Z) : Z := to_signed 32 (wrap 32 z).

(** ** Opcodes *)

Inductive Opcode : Type :=
  | OpInit | OpGoto | OpOnce | OpBeginSubrtn | OpReturn | OpHalt | OpTransaction | OpAutoCommit | OpSetJournalMode | OpIntegrityCheck
  | OpSynchronous | OpIfNot | OpIfNotZero | OpIfPos | OpDecrJumpZero | OpIsNull | OpNotNull | OpMustBeInt | OpOffsetLimit
  | OpOpenRead | OpOpenWrite | OpOpenEphemeral | OpOpenDup | OpOpenPseudo | OpRewind | OpLast | OpNext | OpColumn | OpRowid
  | OpSeekRowid | OpNullRow | OpSequence | OpFound | OpIdxInsert | OpIdxLE | OpDelete | OpInsert | OpNewRowid | OpIdxDelete
  | OpCount | OpNoConflict | OpSeekIndexEq | OpIdxRowid | OpSeekIndexGE | OpIdxCompareGT | OpIdxRewind | OpIdxLast | OpIdxNext
  | OpIdxPrev | OpAutoIndexInsert | OpAutoIndexSeek | OpAutoIndexRowid | OpAutoIndexNext
  | OpCreateTable | OpDropTable | OpCreateIndex | OpDropIndex | OpCreateView | OpAnalyze
  | OpEq | OpGe | OpGt | OpLe | OpLt | OpRealAffinity
  | OpAdd | OpSubtract | OpMultiply | OpDivide | OpRemainder | OpNot | OpBitAnd | OpBitOr | OpShiftLeft | OpShiftRight | OpBitNot
  | OpConcat | OpCast | OpFunction | OpAggStep | OpAggFinal
  | OpInteger | OpInt64 | OpReal | OpBlob | OpNull | OpString8 | OpVariable | OpMakeRecord | OpResultRow | OpCopy
  | OpSorterOpen | OpSorterInsert | OpSorterSort | OpSorterNext | OpSorterData | OpSort
  | OpHashAggOpen | OpHashAggFind | OpHashAggStep | OpHashAggRewind | OpHashAggData | OpHashAggNext.

#[global] Instance Opcode_eq_dec : EqDecision Opcode.
Proof. solve_decision. Defined.

(** ** Operands *)

Record SortKeyColumn := MkSortKeyColumn { sk_index : Z; sk_descending : bool; sk_collation : Collation; sk_nulls_first : bool }.
Record GroupKeyColumn := MkGroupKeyColumn { gk_index : Z; gk_collation : Collation; gk_affinity : Z }.
Record AnalyzeIndexTarget := MkAnalyzeIndexTarget { ai_index_name : str; ai_root_page : Z }.
Record AnalyzeTarget := MkAnalyzeTarget { at_table_name : str; at_table_root_page : Z; at_indexes : list AnalyzeIndexTarget }.

Inductive P4 : Type :=
  | P4None
  | P4Int (i : Z)
  | P4Real (bits : Z)
  | P4Blob (b : list Z)
  | P4Str (s : str)
  | P4CollSeq (collation : Collation) (affinity : Z)
  | P4SeekKey (collations : list Collation)
  | P4AggFunc (name : str) (arity : Z) (collation : Collation)
  | P4SortKey (columns : list SortKeyColumn)
  | P4GroupKey (columns : list GroupKeyColumn)
  | P4Affinity (bytes : list Z)
  | P4Bool (b : bool)
  | P4CreateTable (name sql : str)
  | P4CreateView (name sql : str)
  | P4DropTable (name : str) (root_page : Z) (indexes : list (str * Z))
  | P4CreateIndex (name table_name : str) (table_root_page : Z) (sql : str) (column_indices : list Z) (unique : bool)
  | P4DropIndex (name : str) (root_page : Z)
  | P4Analyze (targets : list AnalyzeTarget).

Record Instruction := MkInstruction { opcode : Opcode; p1 : Z; p2 : Z; p3 : Z; p4 : P4; p5 : Z }.

(** [Instruction::new] and [Instruction::with_p4]. *)
Definition instruction (op : Opcode) (a b c : Z) : Instruction := MkInstruction op a b c P4None 0.
Definition instruction_p4 (op : Opcode) (a b c : Z) (d : P4) : Instruction := MkInstruction op a b c d 0.

Definition set_p2 (i : Instruction) (target : Z) : Instruction := MkInstruction (opcode i) (p1 i) target (p3 i) (p4 i) (p5 i).
Definition set_p4 (i : Instruction) (d : P4) : Instruction := MkInstruction (opcode i) (p1 i) (p2 i) (p3 i) d (p5 i).
Definition set_p5 (i : Instruction) (flags : Z) : Instruction := MkInstruction (opcode i) (p1 i) (p2 i) (p3 i) (p4 i) flags.

Definition Program : Type := list Instruction.
(** [Program::get]. *)
Definition fetch (program : Program) (pc : Z) : option Instruction := get_at program pc.

(** ** Schemas *)

Module Schema.
Record IndexedColumn := MkIndexedColumn { name : str; desc : bool; collation : Collation }.
End Schema.

Record IndexSchema := MkIndexSchema { ix_name : str; ix_unique : bool; ix_columns : list Schema.IndexedColumn; ix_root_page : Z }.

Record TableSchema := MkTableSchema {
  ts_name : str; ts_root_page : Z; ts_columns : list str; ts_without_rowid : bool; ts_strict : bool; ts_column_types : list str;
  ts_column_collations : list Collation; ts_is_virtual : bool; ts_sql : str; ts_indexes : list IndexSchema;
  ts_unresolved_autoindex : bool; ts_rowid_alias : option Z }.

(** [Iterator::position]. *)
Fixpoint position {A} (f : A -> bool) (l : list A) : option Z :=
  match l with
  | [] => None
  | x :: l => if f x then Some 0 else Z.succ <$> position f l
  end.

(** [column_index] ([src/codegen/expr/cond.rs]). *)
Definition column_index (schema : TableSchema) (name : str) : option Z := position (fun c => eq_ignore_ascii_case c name) (ts_columns schema).

(** * Aggregate accumulators ([src/vdbe/aggregate.rs])

    The state each aggregate function keeps between rows, the step that folds
    one row in, and the result it is read as. *)

Definition I128_MIN : Z := - 2 ^ 127.
Definition I128_MAX : Z := 2 ^ 127 - 1.
Definition i128_sat_add (a b : Z) : Z := Z.max I128_MIN (Z.min I128_MAX (a + b)).
Definition i64_sat_add (a b : Z) : Z := Z.max I64_MIN (Z.min I64_MAX (a + b)).

Inductive AggState : Type :=
  | AggCount (n : Z)
  | AggSum (int_total real_total : Z) (saw_real saw_any : bool)
  | AggAvg (int_total real_total : Z) (saw_real : bool) (count : Z)
  | AggMin (v : option Value)
  | AggMax (v : option Value).

(** [numeric_arg]: [None] for a missing or NULL argument. *)
Definition numeric_arg (arg : option Value) : option Value :=
  match arg with
  | None | Some Null => None
  | Some (Integer i) => Some (Integer i)
  | Some (Real r) => Some (Real r)
  | Some (VText s) => Some (coerce_text_to_numeric s)
  | Some (Blob b) => Some (coerce_text_to_numeric (from_utf8_lossy b))
  end.

Definition agg_initial (name : str) : result FunctionError AggState :=
  let name := map to_ascii_lowercase name in
  if str_eqb name (lit "count") then Ok (AggCount 0)
  else if str_eqb name (lit "sum") then Ok (AggSum 0 0 false false)
  else if str_eqb name (lit "avg") then Ok (AggAvg 0 0 false 0)
  else if str_eqb name (lit "min") then Ok (AggMin None)
  else if str_eqb name (lit "max") then Ok (AggMax None)
  else Err (FnUnknown name 1).

(** The running total of [sum] and [avg]: exact integers until the first REAL,
    doubles from then on. *)
Definition add_numeric (int_total real_total : Z) (saw_real : bool) (v : Value) : Z * Z * bool :=
  match v with
  | Integer i => if saw_real then (int_total, f64_add real_total (f64_of_i64 i), saw_real) else (i128_sat_add int_total i, real_total, saw_real)
  | Real r =>
    let '(int_total, real_total) := if saw_real then (int_total, real_total) else (0, f64_add real_total (f64_of_i64 int_total)) in
    (int_total, f64_add real_total r, true)
  | _ => (int_total, real_total, saw_real)
  end.

(** [min] and [max] keep the first of the values that win. *)
Definition keep_extremum (wins : comparison) (current : option Value) (args : list Value) (collation : Collation) : option Value :=
  match args with
  | v :: _ =>
    if is_null v then current else
    match current with
    | None => Some v
    | Some c => if comparison_eqb (compare v c collation) wins then Some v else current
    end
  | [] => current
  end.

Definition agg_step_state (state : AggState) (args : list Value) (collation : Collation) : AggState :=
  match state with
  | AggCount n => match head args with Some Null => state | _ => AggCount (i64_sat_add n 1) end
  | AggSum i r sr sa =>
    match numeric_arg (head args) with
    | Some (Integer _ as v) | Some (Real _ as v) => let '(i, r, sr) := add_numeric i r sr v in AggSum i r sr true
    | _ => state
    end
  | AggAvg i r sr c =>
    match numeric_arg (head args) with
    | Some (Integer _ as v) | Some (Real _ as v) => let '(i, r, sr) := add_numeric i r sr v in AggAvg i r sr (i64_sat_add c 1)
    | _ => state
    end
  | AggMin current => AggMin (keep_extremum Lt current args collation)
  | AggMax current => AggMax (keep_extremum Gt current args collation)
  end.

(** [aggregate::step]. *)
Definition agg_step (name : str) (state : option AggState) (args : list Value) (collation : Collation) : result FunctionError AggState :=
  state ← match state with Some s => Ok s | None => agg_initial name end;
  Ok (agg_step_state state args collation).

(** [aggregate::finalize]. *)
Definition agg_finalize (name : str) (state : option AggState) : result FunctionError Value :=
  match state with
  | None =>
    let name := map to_ascii_lowercase name in
    if str_eqb name (lit "count") then Ok (Integer 0)
    else if str_eqb name (lit "sum") || str_eqb name (lit "avg") || str_eqb name (lit "min") || str_eqb name (lit "max") then Ok Null
    else Err (FnUnknown name 1)
  | Some (AggCount n) => Ok (Integer n)
  | Some (AggSum i r sr sa) =>
    if negb sa then Ok Null
    else if sr then Ok (Real (f64_add r (f64_of_i64 i)))
    else if in_i64 i then Ok (Integer i) else Err FnIntegerOverflow
  | Some (AggAvg i r sr c) =>
    if c =? 0 then Ok Null
    else Ok (Real (f64_div (if sr then f64_add r (f64_of_i64 i) else f64_of_i64 i) (f64_of_i64 c)))
  | Some (AggMin v) | Some (AggMax v) => Ok (default Null v)
  end.
