(* ===== verification/Vm.v ===== *)
(** * The virtual machine's state and its register opcodes ([src/vdbe/exec.rs],
    [src/vdbe/control.rs], [src/vdbe/arithmetic.rs], [src/vdbe/result.rs])

    Registers, cursor slots, aggregate contexts, the attached database and the
    rows produced so far; control flow, comparison, arithmetic, literals, rows
    and scalar functions.  The reason text of a malformed instruction is the
    value [Malformed] it renders. *)

From stdpp Require Import prelude list numbers gmap.
From Stdlib Require Import ZArith Lia.
From S2P Require Import Prelude Varint Text Record Float ValueOrder Format Coerce Functions Tokenizer Header Freelist Vfs Journal Wal Lock Shm Checkpoint PageCache Pager Commit Transactions Allocator BtreePage LeafPage LeafSearch Btree Tree TreeSplit Overflow Table Cursor Program.

Local Open Scope Z_scope.

(** ** Errors and steps *)

Inductive Malformed : Type :=
  | BadP4 | BadRootPage (n : Z) | NegativeColumn (n : Z) | NegativeCount (n : Z) | BadReturnAddress (n : Z) | NotAnInteger (v : Value)
  | NotARecord (v : Value) | NoCurrentRow | RecordFailed (e : RecordError) | BtreeFailed (e : BtreeError) | FunctionFailed (e : FunctionError)
  | BadDescriptor (s : str) | KeyTooLong | NotSorted.

Inductive ExecError : Type :=
  | RegisterOutOfRange (opcode : str) (index : Z)
  | RegisterRangeTooLarge (opcode : str) (count : Z)
  | TypeMismatch (opcode found : str)
  | MustBeIntFailed
  | MalformedInstruction (opcode : str) (reason : Malformed)
  | Unimplemented (op : Opcode)
  | CursorNotOpen (slot : Z)
  | CursorTypeMismatch (opcode : str) (slot : Z) (found expected : str)
  | NoDatabase (opcode : str)
  | ProgramCounterOutOfRange (pc : Z)
  | StepLimitExceeded
  | EphemeralRowLimitExceeded (opcode : str) (limit : Z)
  | Halted (code : Z) (message : option str)
  | FlushFailed (e : PagerError)
  | TransactionAlreadyActive
  | NoActiveTransactionToCommit
  | NoActiveTransactionToRollback
  | JournalModeChangeDuringTransaction.

Inductive Step : Type := SNext | SJump (pc : Z) | SHalt (code : Z) (message : option str).

(** ** Cursor slots ([CursorSlot], [src/vdbe/cursor.rs]) *)

(** The parsed header of the current row; [hc_entries] is only read while
    [hc_valid]. *)
Record RowHeaderCache := MkHeaderCache { hc_entries : list (Z * Z); hc_valid : bool }.
Definition empty_cache : RowHeaderCache := MkHeaderCache [] false.
Definition cache_invalidate (h : RowHeaderCache) : RowHeaderCache := MkHeaderCache (hc_entries h) false.
Definition ensure (h : RowHeaderCache) (payload : list Z) : result RecordError RowHeaderCache :=
  if hc_valid h then Ok h else entries ← parse_header payload; Ok (MkHeaderCache entries true).
Definition cache_column (h : RowHeaderCache) (payload : list Z) (idx : Z) (encoding : TextEncoding) : result RecordError Value :=
  match get_at (hc_entries h) idx with
  | Some (serial_type, offset) => '(v, _) ← decode_serial_value serial_type payload offset encoding; Ok v
  | None => Ok Null
  end.

Record TableCursorState := MkTableState {
  st_cursor : TableCursor; current_rowid : option Z; cached_payload : option (list Z); forced_null : bool; st_root_page : Z;
  header_cache : RowHeaderCache }.

(** [BTreeMap<Vec<u8>, Vec<Value>>] of an ephemeral index. *)
Record EphemeralState := MkEphemeral { eph_entries : gmap (list Z) (list Value); eph_sequence : Z; last_key : option (list Z) }.
(** [rows] is shared between a cursor and its duplicates: it is a reference
    into the machine's store of row sets. *)
Record EphemeralTableState := MkEphemeralTable { et_rows : nat; et_pos : option Z; et_sequence : Z }.
Record AutoIndexState := MkAutoIndex { au_entries : gmap (list Z) (list Z); au_current : option (list Z * Z) }.
Definition SorterRow : Type := list Z * list Value.
Record SorterState := MkSorter {
  so_keys : list SortKeyColumn; so_buffer : list SorterRow; so_sorted : bool; so_pos : Z; so_bound : option Z; so_key_indices : list Z }.

Section Machine.
Context {OS : Type} {Ext : Type}.

(** [Ext] is the state of the cursors whose opcodes are not modelled. *)
Inductive CursorSlot : Type :=
  | SlotTable (s : TableCursorState)
  | SlotIndexWrite (root_page : Z)
  | SlotIndexRead (s : Ext)
  | SlotEphemeral (s : EphemeralState)
  | SlotEphemeralTable (s : EphemeralTableState)
  | SlotAutoIndex (s : AutoIndexState)
  | SlotPseudo (register : Z) (cache : RowHeaderCache) (cached_blob : option (list Z))
  | SlotSorter (s : SorterState)
  | SlotHashAgg (s : Ext).

Definition slot_type_name (s : CursorSlot) : str :=
  match s with
  | SlotTable _ => lit "table cursor"
  | SlotIndexWrite _ => lit "index write cursor"
  | SlotIndexRead _ => lit "index read cursor"
  | SlotEphemeral _ => lit "ephemeral cursor"
  | SlotEphemeralTable _ => lit "ephemeral table cursor"
  | SlotAutoIndex _ => lit "ephemeral automatic-index cursor"
  | SlotPseudo _ _ _ => lit "pseudo cursor"
  | SlotSorter _ => lit "sorter cursor"
  | SlotHashAgg _ => lit "hash-aggregation cursor"
  end.

(** ** The machine *)

(** The page source is the pager; [db_writer] says whether the write opcodes
    may use it. *)
Record VmDb := MkVmDb { db_source : Pager OS; db_header : DatabaseHeader; db_writer : bool }.

Record Vm := MkVm {
  registers : list Value; cursors : list (option CursorSlot); agg_contexts : list (option AggState); vm_db : option VmDb;
  vm_rows : list (list Value); once_fired : gset Z; params : list Value; autocommit : bool; row_sets : list (list (Z * list Value)) }.

Definition new_vm : Vm := MkVm [] [] [] None [] ∅ [] true [].
Definition set_registers (vm : Vm) (x : list Value) : Vm :=
  MkVm x (cursors vm) (agg_contexts vm) (vm_db vm) (vm_rows vm) (once_fired vm) (params vm) (autocommit vm) (row_sets vm).
Definition set_cursors (vm : Vm) (x : list (option CursorSlot)) : Vm :=
  MkVm (registers vm) x (agg_contexts vm) (vm_db vm) (vm_rows vm) (once_fired vm) (params vm) (autocommit vm) (row_sets vm).
Definition set_agg_contexts (vm : Vm) (x : list (option AggState)) : Vm :=
  MkVm (registers vm) (cursors vm) x (vm_db vm) (vm_rows vm) (once_fired vm) (params vm) (autocommit vm) (row_sets vm).
Definition set_db (vm : Vm) (x : option VmDb) : Vm :=
  MkVm (registers vm) (cursors vm) (agg_contexts vm) x (vm_rows vm) (once_fired vm) (params vm) (autocommit vm) (row_sets vm).
Definition set_rows (vm : Vm) (x : list (list Value)) : Vm :=
  MkVm (registers vm) (cursors vm) (agg_contexts vm) (vm_db vm) x (once_fired vm) (params vm) (autocommit vm) (row_sets vm).
Definition set_once_fired (vm : Vm) (x : gset Z) : Vm :=
  MkVm (registers vm) (cursors vm) (agg_contexts vm) (vm_db vm) (vm_rows vm) x (params vm) (autocommit vm) (row_sets vm).
Definition bind_params (vm : Vm) (x : list Value) : Vm :=
  MkVm (registers vm) (cursors vm) (agg_contexts vm) (vm_db vm) (vm_rows vm) (once_fired vm) x (autocommit vm) (row_sets vm).
Definition set_autocommit (vm : Vm) (x : bool) : Vm :=
  MkVm (registers vm) (cursors vm) (agg_contexts vm) (vm_db vm) (vm_rows vm) (once_fired vm) (params vm) x (row_sets vm).
Definition set_row_sets (vm : Vm) (x : list (list (Z * list Value))) : Vm :=
  MkVm (registers vm) (cursors vm) (agg_contexts vm) (vm_db vm) (vm_rows vm) (once_fired vm) (params vm) (autocommit vm) x.

(** [Vm::with_db] and [Vm::with_shared_writable_db]. *)
Definition with_db (source : Pager OS) (header : DatabaseHeader) : Vm := set_db new_vm (Some (MkVmDb source header false)).
Definition with_writable_db (source : Pager OS) (header : DatabaseHeader) : Vm := set_db new_vm (Some (MkVmDb source header true)).

Abbreviation Exec := (M Vm ExecError).

Definition MAX_REGISTERS : Z := 1048576.

Definition vm_index (opcode : str) (reg : Z) : result ExecError Z :=
  if (reg <? 0) || (MAX_REGISTERS <? reg) then Err (RegisterOutOfRange opcode reg) else Ok reg.

Definition bounded_count (opcode : str) (count : Z) : result ExecError Z :=
  if (0 <=? count) && (count <=? MAX_REGISTERS) then Ok count else Err (RegisterRangeTooLarge opcode count).

(** Reading and writing a slot of a vector that grows with filler. *)
Definition slot {A} (filler : A) (l : list A) (i : Z) : A := default filler (l !! Z.to_nat i).
Definition grow_set {A} (filler : A) (l : list A) (i : Z) (x : A) : list A :=
  <[Z.to_nat i := x]> (l ++ replicate (S (Z.to_nat i) - length l) filler).

Definition register (reg : Z) : Exec Value :=
  idx ← lift (vm_index (lit "register read") reg); vm ← get_st; mret (slot Null (registers vm) idx).
Definition set_register (reg : Z) (value : Value) : Exec unit :=
  idx ← lift (vm_index (lit "register write") reg); modify (fun vm => set_registers vm (grow_set Null (registers vm) idx value)).
(** [mem::replace] with NULL; a register past the end of the file is NULL
    already and the file does not grow. *)
Definition take_register (reg : Z) : Exec Value :=
  idx ← lift (vm_index (lit "register read") reg);
  vm ← get_st;
  _ ← modify (fun vm => set_registers vm (<[Z.to_nat idx := Null]> (registers vm)));
  mret (slot Null (registers vm) idx).

Definition cursor (s : Z) : Exec CursorSlot :=
  idx ← lift (vm_index (lit "cursor slot read") s); vm ← get_st; lift (ok_or (slot None (cursors vm) idx) (CursorNotOpen s)).
Definition set_cursor (s : Z) (value : CursorSlot) : Exec unit :=
  idx ← lift (vm_index (lit "cursor slot write") s); modify (fun vm => set_cursors vm (grow_set None (cursors vm) idx (Some value))).

Definition agg_context (s : Z) : Exec (option AggState) :=
  idx ← lift (vm_index (lit "agg context read") s); vm ← get_st; mret (slot None (agg_contexts vm) idx).
Definition set_agg_context (s : Z) (value : AggState) : Exec unit :=
  idx ← lift (vm_index (lit "agg context write") s); modify (fun vm => set_agg_contexts vm (grow_set None (agg_contexts vm) idx (Some value))).
Definition clear_agg_context (s : Z) : Exec unit :=
  idx ← lift (vm_index (lit "agg context clear") s); modify (fun vm => set_agg_contexts vm (<[Z.to_nat idx := None]> (agg_contexts vm))).

Definition get_db : Exec VmDb := vm ← get_st; lift (ok_or (vm_db vm) (NoDatabase (lit "OpenRead"))).
(** [Vm::writer]. *)
Definition writer (opcode : str) : Exec unit :=
  vm ← get_st;
  match vm_db vm with
  | Some db => if db_writer db then mret tt else throw (NoDatabase opcode)
  | None => throw (NoDatabase opcode)
  end.
(** Runs an operation of the pager. *)
Definition on_pager {E A} (wrap_error : E -> ExecError) (m : M (Pager OS) E A) : Exec A := fun vm =>
  match vm_db vm with
  | Some db => let '(r, p) := m (db_source db) in (map_err wrap_error r, set_db vm (Some (MkVmDb p (db_header db) (db_writer db))))
  | None => (Err (NoDatabase (lit "OpenRead")), vm)
  end.

Definition emit_row (row : list Value) : Exec unit := modify (fun vm => set_rows vm (vm_rows vm ++ [row])).

(** ** Control flow ([control.rs]) *)

Definition to_pc (p2 : Z) : Z := Z.max p2 0.
Definition jump_or_next (p2 : Z) : Step := if p2 =? 0 then SNext else SJump (to_pc p2).
Definition jump_if (b : bool) (target : Z) : Step := if b then SJump (to_pc target) else SNext.

Definition value_kind (v : Value) : str :=
  match v with Null => lit "NULL" | Integer _ => lit "INTEGER" | Real _ => lit "REAL" | VText _ => lit "TEXT" | Blob _ => lit "BLOB" end.

Definition op_init (i : Instruction) : Exec Step := mret (jump_or_next (p2 i)).
Definition op_goto (i : Instruction) : Exec Step := mret (SJump (to_pc (p2 i))).
Definition op_once (pc : Z) (i : Instruction) : Exec Step :=
  vm ← get_st;
  if bool_decide (pc ∈ once_fired vm) then mret (SJump (to_pc (p2 i)))
  else _ ← modify (fun vm => set_once_fired vm ({[pc]} ∪ once_fired vm)); mret SNext.
Definition op_return (i : Instruction) : Exec Step :=
  v ← register (p1 i);
  match v with
  | Integer n =>
    match i32_try_from n with
    | Some pc => mret (SJump (to_pc pc))
    | None => throw (MalformedInstruction (lit "Return") (BadReturnAddress n))
    end
  | other => throw (TypeMismatch (lit "Return") (value_kind other))
  end.
Definition op_halt (i : Instruction) : Exec Step := mret (SHalt (p1 i) (match p4 i with P4Str s => Some s | _ => None end)).

Definition TRANSACTION_MODE_DEFERRED : Z := 0.
Definition TRANSACTION_MODE_IMMEDIATE : Z := 1.
Definition TRANSACTION_MODE_EXCLUSIVE : Z := 2.

Definition has_writer (vm : Vm) : bool := match vm_db vm with Some db => db_writer db | None => false end.

Definition op_is_null (i : Instruction) : Exec Step := v ← register (p1 i); mret (jump_if (is_null v) (p2 i)).
Definition op_not_null (i : Instruction) : Exec Step := v ← register (p1 i); mret (jump_if (negb (is_null v)) (p2 i)).

Definition is_falsy (v : Value) : bool :=
  match v with
  | Integer i => i =? 0
  | Real r => f64_eqb r 0
  | Null => false
  | VText s =>
    match coerce_text_to_numeric s with
    | Integer i => i =? 0
    | Real r => f64_eqb r 0
    | _ => true
    end
  | Blob _ => true
  end.

Definition op_if_not (i : Instruction) : Exec Step :=
  v ← register (p1 i); mret (jump_if (match v with Null => negb (p3 i =? 0) | other => is_falsy other end) (p2 i)).

Definition try_to_integer (v : Value) : option Z :=
  match v with
  | Integer i => Some i
  | Real r => if fract_is_zero r && f64_is_finite r && in_i64_range r then Some (f64_to_i64 r) else None
  | VText s => parse_i64 (trim s)
  | _ => None
  end.
Definition op_must_be_int (i : Instruction) : Exec Step :=
  v ← register (p1 i);
  match try_to_integer v with
  | Some n => _ ← set_register (p1 i) (Integer n); mret SNext
  | None => if negb (p2 i =? 0) then mret (SJump (to_pc (p2 i))) else throw MustBeIntFailed
  end.

Definition register_as_i64 (reg : Z) : Exec Z :=
  v ← register reg;
  match v with Integer i => mret i | other => throw (TypeMismatch (lit "control counter") (value_kind other)) end.
Definition op_offset_limit (i : Instruction) : Exec Step :=
  limit ← register_as_i64 (p1 i);
  offset ← register_as_i64 (p3 i);
  _ ← set_register (p2 i) (Integer (if 0 <? limit then i64_sat_add limit (Z.max offset 0) else -1));
  mret SNext.
Definition op_if_pos (i : Instruction) : Exec Step :=
  v ← register_as_i64 (p1 i);
  if 0 <? v then _ ← set_register (p1 i) (Integer (i64_sat_add v (- p3 i))); mret (SJump (to_pc (p2 i))) else mret SNext.
Definition op_if_not_zero (i : Instruction) : Exec Step :=
  v ← register_as_i64 (p1 i);
  if negb (v =? 0) then
    _ ← (if 0 <? v then set_register (p1 i) (Integer (i64_sat_add v (-1))) else mret tt);
    mret (SJump (to_pc (p2 i)))
  else mret SNext.
Definition op_decr_jump_zero (i : Instruction) : Exec Step :=
  v ← register_as_i64 (p1 i);
  let v := i64_sat_add v (-1) in
  _ ← set_register (p1 i) (Integer v);
  mret (jump_if (v =? 0) (p2 i)).

(** ** Comparison and affinity ([exec.rs]) *)

Definition collseq_of (p : P4) : Collation * Affinity :=
  match p with P4CollSeq collation affinity => (collation, from_p4_byte affinity) | _ => (CBinary, AffBlob) end.
(** Affinity applies to copies of the operands; BLOB affinity changes nothing. *)
Definition compare_operands (p : P4) (a b : Value) : comparison :=
  let '(collation, affinity) := collseq_of p in
  match affinity with
  | AffBlob => compare a b collation
  | _ => compare (apply_affinity a affinity) (apply_affinity b affinity) collation
  end.
Definition compare_jump (holds : comparison -> bool) (i : Instruction) : Exec Step :=
  a ← register (p1 i);
  b ← register (p3 i);
  if is_null a || is_null b then mret SNext else mret (jump_if (holds (compare_operands (p4 i) a b)) (p2 i)).
Definition is_eq (o : comparison) : bool := comparison_eqb o Eq.
Definition is_lt (o : comparison) : bool := comparison_eqb o Lt.
Definition is_gt (o : comparison) : bool := comparison_eqb o Gt.
Definition is_ge (o : comparison) : bool := negb (is_lt o).
Definition is_le (o : comparison) : bool := negb (is_gt o).

Definition op_real_affinity (i : Instruction) : Exec Step :=
  v ← take_register (p1 i); _ ← set_register (p1 i) (apply_affinity v AffReal); mret SNext.
(** [instr.p2 as u8]. *)
Definition op_cast (i : Instruction) : Exec Step :=
  v ← take_register (p1 i); _ ← set_register (p1 i) (cast_to v (from_p4_byte (wrap 8 (p2 i)))); mret SNext.

(** ** Arithmetic ([arithmetic.rs]) *)

(** [r[P3] = op(r[P1], r[P2])], NULL if either is. *)
Definition op_binary (op : Value -> Value -> Value) (i : Instruction) : Exec Step :=
  a ← register (p1 i);
  b ← register (p2 i);
  _ ← set_register (p3 i) (if is_null a || is_null b then Null else op a b);
  mret SNext.
(** The opcodes that compute [r[P2] op r[P1]]. *)
Definition reversed_op (op : Value -> Value -> Value) : Instruction -> Exec Step := op_binary (fun a b => op b a).

Definition op_not (i : Instruction) : Exec Step :=
  v ← register (p1 i);
  _ ← set_register (p2 i) (match v with Null => Null | other => Integer (b2z (is_falsy other)) end);
  mret SNext.
Definition op_bit_not (i : Instruction) : Exec Step :=
  v ← register (p1 i);
  _ ← set_register (p2 i) (match v with Null => Null | other => bit_not other end);
  mret SNext.

(** ** Literals and rows ([result.rs]) *)

Definition op_integer (i : Instruction) : Exec Step := _ ← set_register (p2 i) (Integer (p1 i)); mret SNext.
Definition op_int64 (i : Instruction) : Exec Step :=
  match p4 i with
  | P4Int n => _ ← set_register (p2 i) (Integer n); mret SNext
  | _ => throw (MalformedInstruction (lit "Int64") BadP4)
  end.
Definition op_real (i : Instruction) : Exec Step :=
  match p4 i with
  | P4Real r => _ ← set_register (p2 i) (Real r); mret SNext
  | _ => throw (MalformedInstruction (lit "Real") BadP4)
  end.
Definition op_blob (i : Instruction) : Exec Step :=
  match p4 i with
  | P4Blob b => _ ← set_register (p2 i) (Blob b); mret SNext
  | _ => throw (MalformedInstruction (lit "Blob") BadP4)
  end.
Definition op_string8 (i : Instruction) : Exec Step :=
  match p4 i with
  | P4Str s => _ ← set_register (p2 i) (VText s); mret SNext
  | _ => throw (MalformedInstruction (lit "String8") BadP4)
  end.
(** [first], [first + 1], ... : [n] integers. *)
Fixpoint upto (first : Z) (n : nat) : list Z := match n with O => [] | S n => first :: upto (first + 1) n end.
Definition op_null (i : Instruction) : Exec Step :=
  let last := Z.max (p3 i) (p2 i) in
  _ ← for_each (upto (p2 i) (Z.to_nat (last - p2 i + 1))) (fun reg => set_register reg Null);
  mret SNext.
(** [Vm::param]: 1-based. *)
Definition param (vm : Vm) (index : Z) : option Value := if 1 <=? index then get_at (params vm) (index - 1) else None.
Definition op_variable (i : Instruction) : Exec Step :=
  vm ← get_st; _ ← set_register (p2 i) (default Null (param vm (p1 i))); mret SNext.
Definition op_copy (i : Instruction) : Exec Step := v ← register (p1 i); _ ← set_register (p2 i) v; mret SNext.

(** [start.checked_add(i)] for the registers of a range, then [f] of each. *)
Fixpoint each_register {A} (opcode : str) (start : Z) (offsets : list Z) (f : Z -> Exec A) : Exec (list A) :=
  match offsets with
  | [] => mret []
  | k :: rest =>
    reg ← lift (ok_or (i32_checked_add start k) (RegisterOutOfRange opcode start));
    x ← f reg;
    xs ← each_register opcode start rest f;
    mret (x :: xs)
  end.
Definition read_registers (opcode : str) (start count : Z) : Exec (list Value) :=
  each_register opcode start (upto 0 (Z.to_nat count)) register.

Fixpoint apply_affinities (values : list Value) (affinities : list Z) : list Value :=
  match values, affinities with
  | v :: vs, b :: bs => apply_affinity v (from_p4_byte b) :: apply_affinities vs bs
  | vs, [] => vs
  | [], _ => []
  end.
Definition op_make_record (i : Instruction) : Exec Step :=
  count ← lift (bounded_count (lit "MakeRecord") (p2 i));
  values ← read_registers (lit "MakeRecord") (p1 i) count;
  let values := apply_affinities values (match p4 i with P4Affinity bytes => bytes | _ => [] end) in
  _ ← set_register (p3 i) (Blob (encode_record values Utf8));
  mret SNext.
Definition op_result_row (i : Instruction) : Exec Step :=
  count ← lift (bounded_count (lit "ResultRow") (p2 i));
  row ← each_register (lit "ResultRow") (p1 i) (upto 0 (Z.to_nat count)) take_register;
  _ ← emit_row row;
  mret SNext.

(** ** Functions and aggregates ([exec.rs]) *)

(** [usize::from_str]: an optional plus sign and decimal digits that fit. *)
Definition parse_usize (s : str) : option Z :=
  let digits := match s with 43 :: r => r | _ => s end in
  match digits with
  | [] => None
  | _ => if forallb is_ascii_digit digits then let n := digits_value 0 digits in if n <=? U64_MAX then Some n else None else None
  end.
(** [parse_function_descriptor]: ["name(arity)"].  The name is what stands
    before the first parenthesis; ['('] and [')'] are single bytes, so the byte
    offsets of the slices are character boundaries. *)
Definition parse_function_descriptor (d : str) : option (str * Z) :=
  open ← position (Z.eqb 40) d;
  if bool_decide (list.last d = Some 41) then
    if open + 1 <=? len d - 1 then
      arity ← parse_usize (take (Z.to_nat (len d - 1 - (open + 1))) (drop (Z.to_nat (open + 1)) d));
      Some (take (Z.to_nat open) d, arity)
    else None
  else None.

(** [for i in 0..arity]: an arity past [i32::MAX] fails once the index does. *)
Definition read_arguments (opcode : str) (start arity : Z) : Exec (list Value) :=
  if arity <=? I32_MAX + 1 then read_registers opcode start arity
  else _ ← read_registers opcode start (I32_MAX + 1); throw (RegisterRangeTooLarge opcode I32_MAX).

Definition op_function (i : Instruction) : Exec Step :=
  match p4 i with
  | P4Str descriptor =>
    match parse_function_descriptor descriptor with
    | Some (name, arity) =>
      args ← read_arguments (lit "Function") (p2 i) arity;
      result ← lift (map_err (fun e => MalformedInstruction (lit "Function") (FunctionFailed e)) (call name args));
      _ ← set_register (p3 i) result;
      mret SNext
    | None => throw (MalformedInstruction (lit "Function") (BadDescriptor descriptor))
    end
  | _ => throw (MalformedInstruction (lit "Function") BadP4)
  end.

Definition op_agg_step (i : Instruction) : Exec Step :=
  match p4 i with
  | P4AggFunc name arity collation =>
    args ← read_arguments (lit "AggStep") (p2 i) arity;
    current ← (if p5 i =? 0 then agg_context (p1 i) else mret None);
    updated ← lift (map_err (fun e => MalformedInstruction (lit "AggStep") (FunctionFailed e)) (agg_step name current args collation));
    _ ← set_agg_context (p1 i) updated;
    mret SNext
  | _ => throw (MalformedInstruction (lit "AggStep") BadP4)
  end.

Definition op_agg_final (i : Instruction) : Exec Step :=
  match p4 i with
  | P4Str descriptor =>
    match parse_function_descriptor descriptor with
    | Some (name, _) =>
      state ← agg_context (p1 i);
      result ← lift (map_err (fun e => MalformedInstruction (lit "AggFinal") (FunctionFailed e)) (agg_finalize name state));
      _ ← set_register (p3 i) result;
      _ ← clear_agg_context (p1 i);
      mret SNext
    | None => throw (MalformedInstruction (lit "AggFinal") (BadDescriptor descriptor))
    end
  | _ => throw (MalformedInstruction (lit "AggFinal") BadP4)
  end.

End Machine.

(** ** Transactions ([control.rs]) *)

Section Transactions.
Context `{host : Host} {OS : Type} `{Fcntl OS} {Ext : Type} (env : Env).
Abbreviation Exec := (M (Vm (OS := OS) (Ext := Ext)) ExecError).

Definition op_transaction (i : Instruction) : Exec Step :=
  vm ← get_st;
  if negb (autocommit vm) then throw TransactionAlreadyActive else
  _ ← (if has_writer vm then
         if p1 i =? TRANSACTION_MODE_IMMEDIATE then on_pager FlushFailed begin_immediate
         else if p1 i =? TRANSACTION_MODE_EXCLUSIVE then on_pager FlushFailed begin_exclusive
         else mret tt
       else mret tt);
  _ ← modify (fun vm => set_autocommit vm false);
  mret SNext.

Definition op_auto_commit (i : Instruction) : Exec Step :=
  vm ← get_st;
  if autocommit vm then throw (if p2 i =? 1 then NoActiveTransactionToCommit else NoActiveTransactionToRollback) else
  _ ← get_db;
  _ ← (if has_writer vm then if p2 i =? 1 then on_pager FlushFailed (flush env) else on_pager FlushFailed rollback else mret tt);
  _ ← modify (fun vm => set_autocommit vm true);
  mret SNext.
End Transactions.
