(* ===== verification/VmCursor.v ===== *)
(** * Cursor opcodes ([src/vdbe/cursor.rs])

    Table cursors, ephemeral indexes and tables, automatic indexes and
    pseudo-cursors: opening, positioning, reading the current row, writing
    rows.  The paths that need an index b-tree are the argument [index_op]. *)

From stdpp Require Import prelude list numbers gmap.
From Stdlib Require Import ZArith Lia.
From S2P Require Import Prelude Varint Text Record Float ValueOrder Format Coerce Functions Tokenizer Header Freelist Vfs Journal Wal Lock Shm Checkpoint PageCache Pager Commit Transactions Allocator BtreePage LeafPage LeafSearch Btree Tree TreeSplit Overflow Table Cursor Program Vm.

Local Open Scope Z_scope.

Definition MAX_EPHEMERAL_ROWS : Z := 1000000.

(** The sole setter of the current row: it drops both caches. *)
Definition set_current_row (s : TableCursorState) (rowid : option Z) : TableCursorState :=
  MkTableState (st_cursor s) rowid None (forced_null s) (st_root_page s) (cache_invalidate (header_cache s)).
Definition with_cursor (s : TableCursorState) (c : TableCursor) : TableCursorState :=
  MkTableState c (current_rowid s) (cached_payload s) (forced_null s) (st_root_page s) (header_cache s).
Definition with_forced_null (s : TableCursorState) (b : bool) : TableCursorState :=
  MkTableState (st_cursor s) (current_rowid s) (cached_payload s) b (st_root_page s) (header_cache s).
Definition with_payload_cache (s : TableCursorState) (payload : list Z) : TableCursorState :=
  MkTableState (st_cursor s) (current_rowid s) (Some payload) (forced_null s) (st_root_page s) (header_cache s).
Definition with_header_cache (s : TableCursorState) (h : RowHeaderCache) : TableCursorState :=
  MkTableState (st_cursor s) (current_rowid s) (cached_payload s) (forced_null s) (st_root_page s) h.

Definition set_entries (e : EphemeralState) (m : gmap (list Z) (list Value)) (k : option (list Z)) : EphemeralState :=
  MkEphemeral m (eph_sequence e) k.

Definition normalize_key_value (v : Value) (collation : Collation) : Value :=
  match v, collation with
  | VText s, CNoCase => VText (map to_ascii_lowercase s)
  | VText s, CRTrim => VText (trim_end_matches s 32)
  | _, _ => v
  end.
(** [zip]: stops at the shorter list. *)
Definition normalize_key_values (values : list Value) (collations : list Collation) : list Value := zip_with normalize_key_value values collations.

Section CursorOps.
Context `{host : Host} {OS : Type} `{Fcntl OS} {Ext : Type}.
Abbreviation MVm := (Vm (OS := OS) (Ext := Ext)).
Abbreviation Exec := (M MVm ExecError).
Abbreviation Slot := (CursorSlot (Ext := Ext)).
Context (index_op : Instruction -> Exec Step).

Definition malformed {A} (opcode : str) (r : Malformed) : Exec A := throw (MalformedInstruction opcode r).
Definition lift_record {A} (opcode : str) (r : result RecordError A) : Exec A := lift (map_err (fun e => MalformedInstruction opcode (RecordFailed e)) r).
Definition mismatch {A} (opcode : str) (s : Z) (found : Slot) (expected : str) : Exec A :=
  throw (CursorTypeMismatch opcode s (slot_type_name found) expected).

(** Runs a move of a table cursor against the page source.  An error ends the
    statement, so the cursor it leaves behind is not kept. *)
Definition on_table {A} (opcode : str) (s : TableCursorState) (m : M (TableCursor * Pager OS) BtreeError A) : Exec (A * TableCursorState) := fun vm =>
  match vm_db vm with
  | Some db =>
    let '(r, (c, p)) := m (st_cursor s, db_source db) in
    (map_err (fun e => MalformedInstruction opcode (BtreeFailed e)) ((fun a => (a, with_cursor s c)) <$> r),
     set_db vm (Some (MkVmDb p (db_header db) (db_writer db))))
  | None => (Err (NoDatabase opcode), vm)
  end.

Definition row_set (vm : MVm) (ref : nat) : list (Z * list Value) := default [] (row_sets vm !! ref).

(** ** Opening *)

Definition u32_try_from (z : Z) : option Z := if (0 <=? z) && (z <=? U32_MAX) then Some z else None.

Definition fresh_table_state (header : DatabaseHeader) (root_page : Z) : TableCursorState :=
  MkTableState (new_cursor header root_page) None None false root_page empty_cache.

Definition op_open_read (i : Instruction) : Exec Step :=
  root_page ← lift (ok_or (u32_try_from (p2 i)) (MalformedInstruction (lit "OpenRead") (BadRootPage (p2 i))));
  db ← get_db;
  if negb (p5 i =? 0) then index_op i else
  _ ← set_cursor (p1 i) (SlotTable (fresh_table_state (db_header db) root_page));
  mret SNext.

Definition op_open_write (i : Instruction) : Exec Step :=
  _ ← writer (lit "OpenWrite");
  root_page ← lift (ok_or (u32_try_from (p2 i)) (MalformedInstruction (lit "OpenWrite") (BadRootPage (p2 i))));
  if negb (p5 i =? 0) then _ ← set_cursor (p1 i) (SlotIndexWrite root_page); mret SNext else
  db ← get_db;
  _ ← set_cursor (p1 i) (SlotTable (fresh_table_state (db_header db) root_page));
  mret SNext.

(** A new row set in the store. *)
Definition alloc_rows : Exec nat := vm ← get_st; _ ← modify (fun vm => set_row_sets vm (row_sets vm ++ [[]])); mret (length (row_sets vm)).

Definition op_open_ephemeral (i : Instruction) : Exec Step :=
  if p5 i =? 2 then _ ← set_cursor (p1 i) (SlotAutoIndex (MkAutoIndex ∅ None)); mret SNext
  else if negb (p5 i =? 0) then ref ← alloc_rows; _ ← set_cursor (p1 i) (SlotEphemeralTable (MkEphemeralTable ref None 1)); mret SNext
  else _ ← set_cursor (p1 i) (SlotEphemeral (MkEphemeral ∅ 0 None)); mret SNext.

Definition op_open_dup (i : Instruction) : Exec Step :=
  s ← cursor (p2 i);
  match s with
  | SlotEphemeralTable e => _ ← set_cursor (p1 i) (SlotEphemeralTable (MkEphemeralTable (et_rows e) None 1)); mret SNext
  | other => mismatch (lit "OpenDup") (p2 i) other (lit "ephemeral table cursor")
  end.

Definition op_open_pseudo (i : Instruction) : Exec Step := _ ← set_cursor (p1 i) (SlotPseudo (p2 i) empty_cache None); mret SNext.

(** ** Positioning *)

(** The move and the row it lands on, for a table cursor; [pos] for an
    ephemeral table of the given length. *)
Definition reposition (opcode : str) (i : Instruction) (clear_null : bool) (move : M (TableCursor * Pager OS) BtreeError (option Z))
    (place : option Z -> Z -> option Z) : Exec bool :=
  s ← cursor (p1 i);
  match s with
  | SlotTable st =>
    let st := if clear_null then with_forced_null st false else st in
    '(row, st) ← on_table opcode st move;
    let st := set_current_row st row in
    _ ← set_cursor (p1 i) (SlotTable st);
    mret (bool_decide (is_Some row))
  | SlotEphemeralTable e =>
    vm ← get_st;
    let pos := place (et_pos e) (len (row_set vm (et_rows e))) in
    _ ← set_cursor (p1 i) (SlotEphemeralTable (MkEphemeralTable (et_rows e) pos (et_sequence e)));
    mret (bool_decide (is_Some pos))
  | other => mismatch opcode (p1 i) other (lit "table or ephemeral table cursor")
  end.

Definition op_rewind (i : Instruction) : Exec Step :=
  found ← reposition (lit "Rewind") i true first (fun _ n => if n =? 0 then None else Some 0);
  mret (jump_if (negb found) (p2 i)).
Definition op_last (i : Instruction) : Exec Step :=
  found ← reposition (lit "Last") i true last (fun _ n => if n =? 0 then None else Some (n - 1));
  mret (jump_if (negb found) (p2 i)).
Definition op_next (i : Instruction) : Exec Step :=
  found ← reposition (lit "Next") i false next
            (fun pos n => let k := match pos with Some p => sat_add p 1 | None => 0 end in if k <? n then Some k else None);
  mret (jump_if found (p2 i)).

Definition op_seek_rowid (i : Instruction) : Exec Step :=
  v ← register (p3 i);
  match v with
  | Integer target =>
    s ← cursor (p1 i);
    match s with
    | SlotTable st =>
      '(row, st) ← on_table (lit "SeekRowid") (with_forced_null st false) (seek target);
      let st := set_current_row st row in
      _ ← set_cursor (p1 i) (SlotTable st);
      mret (jump_if (negb (bool_decide (is_Some row))) (p2 i))
    | other => mismatch (lit "SeekRowid") (p1 i) other (lit "table cursor")
    end
  | other => malformed (lit "SeekRowid") (NotAnInteger other)
  end.

Definition op_null_row (i : Instruction) : Exec Step :=
  s ← cursor (p1 i);
  match s with
  | SlotTable st => _ ← set_cursor (p1 i) (SlotTable (set_current_row (with_forced_null st true) None)); mret SNext
  | other => mismatch (lit "NullRow") (p1 i) other (lit "table cursor")
  end.

(** ** Reading the current row *)

(** [ensure_current_payload], once the cursor stands on a row. *)
Definition ensure_current_payload (opcode : str) (st : TableCursorState) : Exec (list Z * TableCursorState) :=
  match cached_payload st with
  | Some payload => mret (payload, st)
  | None => '(payload, st) ← on_table opcode st current_payload; mret (payload, with_payload_cache st payload)
  end.

Definition read_table_column (opcode : str) (s : Z) (st : TableCursorState) (idx : Z) : Exec Value :=
  if forced_null st then mret Null else
  match current_rowid st with
  | None => malformed opcode NoCurrentRow
  | Some _ =>
    '(payload, st) ← ensure_current_payload opcode st;
    _ ← set_cursor s (SlotTable st);
    h ← lift_record opcode (ensure (header_cache st) payload);
    _ ← set_cursor s (SlotTable (with_header_cache st h));
    lift_record opcode (cache_column h payload idx Utf8)
  end.

(** The cached header belongs to the blob the register held at the last read;
    [Arc::ptr_eq] holds only of equal blobs, since the cache keeps its blob
    alive, and an equal blob has the same header. *)
Definition read_pseudo_column (opcode : str) (s reg : Z) (cache : RowHeaderCache) (blob : option (list Z)) (idx : Z) : Exec Value :=
  v ← register reg;
  match v with
  | Blob bytes =>
    let cache := if bool_decide (blob = Some bytes) then cache else cache_invalidate cache in
    _ ← set_cursor s (SlotPseudo reg cache (Some bytes));
    h ← lift_record opcode (ensure cache bytes);
    _ ← set_cursor s (SlotPseudo reg h (Some bytes));
    lift_record opcode (cache_column h bytes idx Utf8)
  | other => malformed opcode (NotARecord other)
  end.

Definition read_row_column (opcode : str) (s idx : Z) (i : Instruction) : Exec Step :=
  c ← cursor s;
  match c with
  | SlotPseudo reg cache blob => v ← read_pseudo_column opcode s reg cache blob idx; _ ← set_register (p3 i) v; mret SNext
  | SlotEphemeralTable e =>
    vm ← get_st;
    match p ← et_pos e; get_at (row_set vm (et_rows e)) p with
    | Some (_, values) => _ ← set_register (p3 i) (default Null (get_at values idx)); mret SNext
    | None => malformed opcode NoCurrentRow
    end
  | SlotEphemeral e =>
    match k ← last_key e; eph_entries e !! k with
    | Some values => _ ← set_register (p3 i) (default Null (get_at values idx)); mret SNext
    | None => malformed opcode NoCurrentRow
    end
  | SlotTable st => v ← read_table_column opcode s st idx; _ ← set_register (p3 i) v; mret SNext
  | SlotIndexRead _ => index_op i
  | other => mismatch opcode s other (lit "table, pseudo, ephemeral table, ephemeral, or index read cursor")
  end.

Definition op_column (i : Instruction) : Exec Step :=
  if p2 i <? 0 then malformed (lit "Column") (NegativeColumn (p2 i)) else read_row_column (lit "Column") (p1 i) (p2 i) i.

Definition op_rowid (i : Instruction) : Exec Step :=
  s ← cursor (p1 i);
  v ← match s with
      | SlotTable st =>
        if forced_null st then mret Null else
        match current_rowid st with Some r => mret (Integer r) | None => malformed (lit "Rowid") NoCurrentRow end
      | SlotEphemeralTable e =>
        vm ← get_st;
        match p ← et_pos e; get_at (row_set vm (et_rows e)) p with
        | Some (rowid, _) => mret (Integer rowid)
        | None => malformed (lit "Rowid") NoCurrentRow
        end
      | other => mismatch (lit "Rowid") (p1 i) other (lit "table or ephemeral table cursor")
      end;
  _ ← set_register (p2 i) v;
  mret SNext.

(** ** Ephemeral indexes *)

Definition seek_key_collations (opcode : str) (i : Instruction) : result ExecError (list Collation) :=
  match p4 i with
  | P4SeekKey collations => Ok collations
  | P4Int n => if n <? 0 then Err (MalformedInstruction opcode (NegativeCount n)) else Ok (replicate (Z.to_nat n) CBinary)
  | _ => Err (MalformedInstruction opcode BadP4)
  end.
Definition p4_count (opcode : str) (i : Instruction) : result ExecError Z :=
  match p4 i with
  | P4Int n => if n <? 0 then Err (MalformedInstruction opcode (NegativeCount n)) else Ok n
  | _ => Err (MalformedInstruction opcode BadP4)
  end.
Definition read_register_range (opcode : str) (start count : Z) : Exec (list Value) := read_arguments opcode start count.

Definition ephemeral (opcode : str) (s : Z) : Exec EphemeralState :=
  c ← cursor s; match c with SlotEphemeral e => mret e | other => mismatch opcode s other (lit "ephemeral cursor") end.

Definition op_sequence (i : Instruction) : Exec Step :=
  s ← cursor (p1 i);
  v ← match s with
      | SlotEphemeral e => _ ← set_cursor (p1 i) (SlotEphemeral (MkEphemeral (eph_entries e) (i64_sat_add (eph_sequence e) 1) (last_key e))); mret (eph_sequence e)
      | SlotEphemeralTable e => _ ← set_cursor (p1 i) (SlotEphemeralTable (MkEphemeralTable (et_rows e) (et_pos e) (i64_sat_add (et_sequence e) 1))); mret (et_sequence e)
      | other => mismatch (lit "Sequence") (p1 i) other (lit "ephemeral or ephemeral table cursor")
      end;
  _ ← set_register (p2 i) (Integer v);
  mret SNext.

Definition key_bytes (values : list Value) (collations : list Collation) : list Z := encode_record (normalize_key_values values collations) Utf8.

Definition op_found (i : Instruction) : Exec Step :=
  collations ← lift (seek_key_collations (lit "Found") i);
  values ← read_register_range (lit "Found") (p3 i) (len collations);
  let key := key_bytes values collations in
  e ← ephemeral (lit "Found") (p1 i);
  _ ← set_cursor (p1 i) (SlotEphemeral (set_entries e (eph_entries e) (Some key)));
  mret (jump_if (bool_decide (is_Some (eph_entries e !! key))) (p2 i)).

Definition op_idx_insert (i : Instruction) : Exec Step :=
  collations ← lift (seek_key_collations (lit "IdxInsert") i);
  s ← cursor (p1 i);
  match s with
  | SlotIndexWrite _ => index_op i
  | SlotEphemeral _ =>
    values ← read_register_range (lit "IdxInsert") (p2 i) (len collations + p5 i);
    let key := key_bytes (take (length collations) values) collations in
    e ← ephemeral (lit "IdxInsert") (p1 i);
    if bool_decide (eph_entries e !! key = None) && (MAX_EPHEMERAL_ROWS <=? Z.of_nat (base.size (eph_entries e)))
    then throw (EphemeralRowLimitExceeded (lit "IdxInsert") MAX_EPHEMERAL_ROWS)
    else _ ← set_cursor (p1 i) (SlotEphemeral (set_entries e (<[key := values]> (eph_entries e)) (Some key))); mret SNext
  | other => mismatch (lit "IdxInsert") (p1 i) other (lit "ephemeral or index write cursor")
  end.

Definition op_idx_delete (i : Instruction) : Exec Step :=
  count ← lift (p4_count (lit "IdxDelete") i);
  values ← read_register_range (lit "IdxDelete") (p2 i) count;
  s ← cursor (p1 i);
  match s with
  | SlotIndexWrite _ => index_op i
  | SlotEphemeral e =>
    let key := encode_record values Utf8 in
    let k := if bool_decide (last_key e = Some key) then None else last_key e in
    _ ← set_cursor (p1 i) (SlotEphemeral (set_entries e (base.delete key (eph_entries e)) k)); mret SNext
  | other => mismatch (lit "IdxDelete") (p1 i) other (lit "ephemeral or index write cursor")
  end.

(** [Vec<u8>]'s order: lexicographic. *)
Definition bytes_le (a b : list Z) : bool := match list_cmp a b with Gt => false | _ => true end.
Definition op_idx_le (i : Instruction) : Exec Step :=
  count ← lift (p4_count (lit "IdxLE") i);
  values ← read_register_range (lit "IdxLE") (p3 i) count;
  let probe := encode_record values Utf8 in
  e ← ephemeral (lit "IdxLE") (p1 i);
  mret (jump_if (match last_key e with Some key => bytes_le key probe | None => true end) (p2 i)).

(** ** Automatic indexes *)

Definition auto_index (opcode : str) (s : Z) : Exec AutoIndexState :=
  c ← cursor s; match c with SlotAutoIndex a => mret a | other => mismatch opcode s other (lit "ephemeral automatic-index cursor") end.

Definition op_auto_index_insert (i : Instruction) : Exec Step :=
  collations ← lift (seek_key_collations (lit "AutoIndexInsert") i);
  values ← read_register_range (lit "AutoIndexInsert") (p2 i) (len collations);
  let key := key_bytes values collations in
  v ← register (p3 i);
  match v with
  | Integer rowid =>
    a ← auto_index (lit "AutoIndexInsert") (p1 i);
    _ ← set_cursor (p1 i) (SlotAutoIndex (MkAutoIndex (<[key := default [] (au_entries a !! key) ++ [rowid]]> (au_entries a)) (au_current a)));
    mret SNext
  | other => malformed (lit "AutoIndexInsert") (NotAnInteger other)
  end.
Definition op_auto_index_seek (i : Instruction) : Exec Step :=
  collations ← lift (seek_key_collations (lit "AutoIndexSeek") i);
  values ← read_register_range (lit "AutoIndexSeek") (p3 i) (len collations);
  let key := key_bytes values collations in
  a ← auto_index (lit "AutoIndexSeek") (p1 i);
  let has_match := match au_entries a !! key with Some (_ :: _) => true | _ => false end in
  _ ← set_cursor (p1 i) (SlotAutoIndex (MkAutoIndex (au_entries a) (if has_match then Some (key, 0) else None)));
  mret (jump_if (negb has_match) (p2 i)).
Definition op_auto_index_rowid (i : Instruction) : Exec Step :=
  a ← auto_index (lit "AutoIndexRowid") (p1 i);
  match au_current a with
  | None => malformed (lit "AutoIndexRowid") NoCurrentRow
  | Some (key, pos) =>
    match rowids ← au_entries a !! key; get_at rowids pos with
    | Some rowid => _ ← set_register (p2 i) (Integer rowid); mret SNext
    | None => malformed (lit "AutoIndexRowid") NoCurrentRow
    end
  end.
Definition op_auto_index_next (i : Instruction) : Exec Step :=
  a ← auto_index (lit "AutoIndexNext") (p1 i);
  match au_current a with
  | None => mret SNext
  | Some (key, pos) =>
    let found := sat_add pos 1 <? len (default [] (au_entries a !! key)) in
    _ ← set_cursor (p1 i) (SlotAutoIndex (MkAutoIndex (au_entries a) (if found then Some (key, sat_add pos 1) else None)));
    mret (jump_if found (p2 i))
  end.

(** ** Writing rows *)

Definition op_delete (i : Instruction) : Exec Step :=
  s ← cursor (p1 i);
  match s with
  | SlotTable st =>
    match current_rowid st with
    | None => malformed (lit "Delete") NoCurrentRow
    | Some rowid =>
      _ ← writer (lit "Delete");
      db ← get_db;
      _ ← on_pager (fun e => MalformedInstruction (lit "Delete") (BtreeFailed e)) (delete_row (db_header db) (st_root_page st) rowid);
      _ ← set_cursor (p1 i) (SlotTable (set_current_row st None));
      mret SNext
    end
  | SlotEphemeral e =>
    match last_key e with
    | Some key => _ ← set_cursor (p1 i) (SlotEphemeral (set_entries e (base.delete key (eph_entries e)) None)); mret SNext
    | None => mret SNext
    end
  | other => mismatch (lit "Delete") (p1 i) other (lit "ephemeral or table cursor")
  end.

Definition op_insert (i : Instruction) : Exec Step :=
  rowid ← (v ← register (p2 i); match v with Integer r => mret r | other => malformed (lit "Insert") (NotAnInteger other) end);
  payload ← (v ← register (p3 i); match v with Blob b => mret b | other => malformed (lit "Insert") (NotARecord other) end);
  s ← cursor (p1 i);
  match s with
  | SlotEphemeralTable e =>
    vm ← get_st;
    values ← lift_record (lit "Insert") (decode_record payload (match vm_db vm with Some db => text_encoding (db_header db) | None => Utf8 end));
    let rows := row_set vm (et_rows e) in
    if MAX_EPHEMERAL_ROWS <=? len rows then throw (EphemeralRowLimitExceeded (lit "Insert") MAX_EPHEMERAL_ROWS)
    else _ ← modify (fun vm => set_row_sets vm (<[et_rows e := rows ++ [(rowid, values)]]> (row_sets vm))); mret SNext
  | SlotTable st =>
    _ ← writer (lit "Insert");
    db ← get_db;
    _ ← on_pager (fun e => MalformedInstruction (lit "Insert") (BtreeFailed e)) (insert_row (db_header db) (st_root_page st) rowid payload);
    mret SNext
  | other => mismatch (lit "Insert") (p1 i) other (lit "table cursor")
  end.

(** Without the AUTOINCREMENT flag: one past the highest rowid. *)
Definition op_new_rowid (i : Instruction) : Exec Step :=
  s ← cursor (p1 i);
  match s with
  | SlotTable st =>
    db ← get_db;
    '(found, _) ← on_table (lit "NewRowid") (fresh_table_state (db_header db) (st_root_page st)) last;
    if negb (p5 i =? 0) then index_op i else
    _ ← set_register (p2 i) (Integer (i64_sat_add (default 0 found) 1));
    mret SNext
  | other => mismatch (lit "NewRowid") (p1 i) other (lit "table cursor")
  end.

End CursorOps.
