(* ===== verification/Sorter.v ===== *)
(** * The sorter ([src/vdbe/sorter.rs])

    The rows of an ORDER BY: a buffer that is sorted once, or, when only the
    first [bound] rows are wanted, a heap of the best rows seen so far. *)

From stdpp Require Import prelude list numbers gmap.
From Stdlib Require Import ZArith Lia.
From S2P Require Import Prelude Varint Text Record Float ValueOrder Format Coerce Functions Tokenizer Header Freelist Vfs Journal Wal Lock Shm Checkpoint PageCache Pager Commit Transactions Allocator BtreePage LeafPage LeafSearch Btree Tree TreeSplit Overflow Table Cursor Program Vm VmCursor.

Local Open Scope Z_scope.

(** ** The order of two rows' keys *)

Definition compare_key (key : SortKeyColumn) (a b : Value) : comparison :=
  match a, b with
  | Null, Null => Eq
  | Null, _ => if sk_nulls_first key then Lt else Gt
  | _, Null => if sk_nulls_first key then Gt else Lt
  | _, _ => let ord := compare a b (sk_collation key) in if sk_descending key then CompOpp ord else ord
  end.

(** [a.get(pos).unwrap_or(&Null)] for every position of the descriptor. *)
Fixpoint compare_rows (a b : list Value) (keys : list SortKeyColumn) : comparison :=
  match keys with
  | [] => Eq
  | key :: keys =>
    match compare_key key (default Null (head a)) (default Null (head b)) with
    | Eq => compare_rows (tail a) (tail b) keys
    | ord => ord
    end
  end.

(** [slice::sort_by], a stable sort. *)
Fixpoint insert_sorted {A} (cmp : A -> A -> comparison) (x : A) (l : list A) : list A :=
  match l with
  | [] => [x]
  | y :: l' => match cmp x y with Gt => y :: insert_sorted cmp x l' | _ => x :: l end
  end.
Definition sort_by {A} (cmp : A -> A -> comparison) (l : list A) : list A := foldr (insert_sorted cmp) [] l.

(** ** The heap of the bounded sorter *)

Section Heap.
Context (keys : list SortKeyColumn).
Definition row_gt (a b : option SorterRow) : bool :=
  match a, b with Some (_, x), Some (_, y) => is_gt (compare_rows x y keys) | _, _ => false end.
Definition swap (buf : list SorterRow) (i j : nat) : list SorterRow :=
  match buf !! i, buf !! j with Some x, Some y => <[i := y]> (<[j := x]> buf) | _, _ => buf end.

(** One step up per iteration: [i] iterations are enough. *)
Fixpoint heap_sift_up_loop (fuel : nat) (buf : list SorterRow) (i : nat) : list SorterRow :=
  match fuel with
  | O => buf
  | S fuel =>
    if bool_decide (i = 0)%nat then buf else
    let parent := ((i - 1) / 2)%nat in
    if row_gt (buf !! i) (buf !! parent) then heap_sift_up_loop fuel (swap buf i parent) parent else buf
  end.
Definition heap_sift_up (buf : list SorterRow) (i : nat) : list SorterRow := heap_sift_up_loop (S i) buf i.

(** [i] grows with every iteration and stays below the length. *)
Fixpoint heap_sift_down_loop (fuel : nat) (buf : list SorterRow) (i : nat) : list SorterRow :=
  match fuel with
  | O => buf
  | S fuel =>
    let left := (2 * i + 1)%nat in
    let right := (2 * i + 2)%nat in
    let largest := if bool_decide (left < length buf)%nat && row_gt (buf !! left) (buf !! i) then left else i in
    let largest := if bool_decide (right < length buf)%nat && row_gt (buf !! right) (buf !! largest) then right else largest in
    if bool_decide (largest = i) then buf else heap_sift_down_loop fuel (swap buf i largest) largest
  end.
Definition heap_sift_down (buf : list SorterRow) (i : nat) : list SorterRow := heap_sift_down_loop (S (length buf)) buf i.

(** What [SorterInsert] does to the buffer with a row and its key values. *)
Definition buffer_row (bound : option Z) (buf : list SorterRow) (row : SorterRow) : list SorterRow :=
  match bound with
  | None => buf ++ [row]
  | Some n =>
    if n =? 0 then buf
    else if n <=? len buf then
      match buf with
      | (_, worst) :: rest => if is_lt (compare_rows row.2 worst keys) then heap_sift_down (row :: rest) 0 else buf
      | [] => buf
      end
    else heap_sift_up (buf ++ [row]) (length buf)
  end.
End Heap.

(** ** Opcodes *)

Section SorterOps.
Context `{host : Host} {OS : Type} `{Fcntl OS} {Ext : Type}.
Abbreviation MVm := (Vm (OS := OS) (Ext := Ext)).
Abbreviation Exec := (M MVm ExecError).

Definition sorter (opcode : str) (s : Z) : Exec SorterState :=
  c ← cursor s; match c with SlotSorter st => mret st | other => mismatch opcode s other (lit "sorter cursor") end.

Definition op_sorter_open (i : Instruction) : Exec Step :=
  match p4 i with
  | P4SortKey keys =>
    bound ← (if p5 i =? 0 then mret None else
             v ← register (p2 i);
             match v with
             | Integer n => mret (if 0 <=? n then Some n else None)
             | other => malformed (lit "SorterOpen") (NotAnInteger other)
             end);
    _ ← set_cursor (p1 i) (SlotSorter (MkSorter keys [] false 0 bound (map sk_index keys)));
    mret SNext
  | _ => malformed (lit "SorterOpen") BadP4
  end.

Definition sorter_key_values_from_registers (opcode : str) (s p3 : Z) : Exec (list Value) :=
  st ← sorter opcode s;
  (fix go (keys : list SortKeyColumn) : Exec (list Value) :=
     match keys with
     | [] => mret []
     | key :: keys =>
       offset ← lift (ok_or (i32_try_from (sk_index key)) (RegisterRangeTooLarge opcode I32_MAX));
       reg ← lift (ok_or (i32_checked_add p3 offset) (RegisterOutOfRange opcode p3));
       v ← register reg;
       vs ← go keys;
       mret (v :: vs)
     end) (so_keys st).

Definition op_sorter_insert (i : Instruction) : Exec Step :=
  v ← register (p2 i);
  match v with
  | Blob blob =>
    precomputed ← (if p5 i =? 0 then mret None else vs ← sorter_key_values_from_registers (lit "SorterInsert") (p1 i) (p3 i); mret (Some vs));
    st ← sorter (lit "SorterInsert") (p1 i);
    buffer ← (if bool_decide (so_bound st = Some 0) then mret (so_buffer st) else
              values ← match precomputed with
                       | Some vs => mret vs
                       | None => lift_record (lit "SorterInsert") (decode_record_only blob (so_key_indices st) Utf8)
                       end;
              mret (buffer_row (so_keys st) (so_bound st) (so_buffer st) (blob, values)));
    _ ← set_cursor (p1 i) (SlotSorter (MkSorter (so_keys st) buffer false (so_pos st) (so_bound st) (so_key_indices st)));
    mret SNext
  | other => malformed (lit "SorterInsert") (NotARecord other)
  end.

Definition op_sorter_sort (i : Instruction) : Exec Step :=
  st ← sorter (lit "SorterSort") (p1 i);
  let buffer := sort_by (fun a b => compare_rows a.2 b.2 (so_keys st)) (so_buffer st) in
  _ ← set_cursor (p1 i) (SlotSorter (MkSorter (so_keys st) buffer true 0 (so_bound st) (so_key_indices st)));
  mret (jump_if (match buffer with [] => true | _ => false end) (p2 i)).

Definition op_sorter_next (i : Instruction) : Exec Step :=
  st ← sorter (lit "SorterNext") (p1 i);
  let pos := sat_add (so_pos st) 1 in
  _ ← set_cursor (p1 i) (SlotSorter (MkSorter (so_keys st) (so_buffer st) (so_sorted st) pos (so_bound st) (so_key_indices st)));
  mret (jump_if (pos <? len (so_buffer st)) (p2 i)).

Definition op_sorter_data (i : Instruction) : Exec Step :=
  st ← sorter (lit "SorterData") (p1 i);
  if negb (so_sorted st) then malformed (lit "SorterData") NotSorted else
  match get_at (so_buffer st) (so_pos st) with
  | Some (bytes, _) => _ ← set_register (p2 i) (Blob bytes); mret SNext
  | None => malformed (lit "SorterData") NoCurrentRow
  end.
End SorterOps.
