(* ===== verification/SorterProperties.v ===== *)
(** * The bounded sorter

    A sorter with a bound keeps a heap of the best rows seen so far instead of
    every row.  Its rows, sorted, are the first rows of the full sort, up to
    rows with equal keys. *)

From stdpp Require Import prelude list numbers gmap sorting.
From Stdlib Require Import ZArith Lia.
From S2P Require Import Prelude Varint Text Record Float ValueOrder Format Coerce Functions Tokenizer Header Freelist Vfs Journal Wal Lock Shm Checkpoint PageCache Pager Commit Transactions Allocator BtreePage LeafPage LeafSearch Btree Tree TreeSplit Overflow Table Cursor Program Vm VmCursor Sorter.

Local Open Scope Z_scope.

Lemma filter_keeps {A} (P : A -> Prop) `{!forall x, Decision (P x)} l : Forall P l -> filter P l = l.
Proof. induction 1 as [|x l Hx Hl IH]; [done|]. by rewrite filter_cons_True, IH. Qed.
Lemma filter_drops {A} (P : A -> Prop) `{!forall x, Decision (P x)} l : Forall (fun x => ~ P x) l -> filter P l = [].
Proof. induction 1 as [|x l Hx Hl IH]; [done|]. by rewrite filter_cons_False. Qed.

(** ** Sorting by a total preorder *)

Section Sorting.
Context {A} (ok : A -> Prop) (cmp : A -> A -> comparison) `{!TotalPreorder ok cmp}.
Definition below (x y : A) : Prop := cmp x y <> Gt.

Lemma below_dec x y : Decision (below x y).
Proof. unfold below. apply _. Qed.
#[local] Existing Instance below_dec.

Lemma not_below x y : ok x -> ok y -> ~ below x y -> cmp y x = Lt.
Proof using All. intros Hx Hy H. unfold below in H. rewrite (cmp_flip x y) by done. destruct (cmp x y); [by destruct H|by destruct H|done]. Qed.

Lemma insert_sorted_perm x l : insert_sorted cmp x l ≡ₚ x :: l.
Proof. induction l as [|y l IH]; cbn; [done|]. destruct (cmp x y); [done|done|]. rewrite IH. apply Permutation_swap. Qed.

Lemma sort_by_perm l : sort_by cmp l ≡ₚ l.
Proof. induction l as [|x l IH]; cbn; [done|]. rewrite insert_sorted_perm. by rewrite IH. Qed.

Lemma insert_sorted_sorted x l : ok x -> Forall ok l -> StronglySorted below l -> StronglySorted below (insert_sorted cmp x l).
Proof using All.
  intros Hx Hl S. induction S as [|y l S IH Hy]; cbn; [by repeat constructor|]. apply Forall_cons in Hl as [Hy' Hl].
  destruct (cmp x y) eqn:E.
  1, 2: constructor; [by constructor|]; constructor; [unfold below; by rewrite E|]; rewrite Forall_forall in Hy, Hl |- *; intros z Hz;
    apply (cmp_trans x y z); [done|done|by apply Hl|by rewrite E|by apply Hy].
  constructor; [by apply IH|]. rewrite insert_sorted_perm. constructor; [|done]. unfold below. rewrite (cmp_flip x y) by done. by rewrite E.
Qed.

Lemma sort_by_sorted l : Forall ok l -> StronglySorted below (sort_by cmp l).
Proof using All.
  induction l as [|x l IH]; intros Hl; [constructor|]. change (sort_by cmp (x :: l)) with (insert_sorted cmp x (sort_by cmp l)). apply Forall_cons in Hl as [Hx Hl]. apply insert_sorted_sorted; [done| |by apply IH].
  by rewrite sort_by_perm.
Qed.

Lemma preorder_sorted_app l k : StronglySorted below l -> StronglySorted below k -> (forall x y, x ∈ l -> y ∈ k -> below x y) -> StronglySorted below (l ++ k).
Proof using.
  intros Sl Sk H. induction Sl as [|x l Sl IH Hx]; cbn; [done|]. constructor; [apply IH; intros; apply H; [by right|done]|].
  apply Forall_app. split; [done|]. apply Forall_forall. intros y Hy. apply H; [left|done].
Qed.

(** Position by position, two sorted lists of the same elements have equal
    keys: the elements up to the key of the [i]th are counted in both. *)
Lemma preorder_sorted_lookup l i x y : StronglySorted below l -> l !! i = Some x -> y ∈ drop (S i) l -> below x y.
Proof using.
  intros S. revert i. induction S as [|z l S IH Hz]; intros [|i] E Hy; cbn in *; [done..| |by eapply IH].
  injection E as ->. rewrite drop_0 in Hy. by apply (proj1 (Forall_forall _ _) Hz).
Qed.

Lemma sorted_take l i x y : Forall ok l -> StronglySorted below l -> l !! i = Some x -> y ∈ take (S i) l -> below y x.
Proof using All.
  intros Hl S. revert i. induction S as [|z l S IH Hz]; intros [|i] E Hy; cbn in *; [done..| |]; apply Forall_cons in Hl as [Hk Hl].
  - injection E as ->. rewrite take_0 in Hy. apply list_elem_of_singleton in Hy as ->. unfold below. by rewrite (cmp_refl ok cmp).
  - apply elem_of_cons in Hy as [->|Hy]; [|by eapply IH]. apply (proj1 (Forall_forall _ _) Hz). by eapply list_elem_of_lookup_2.
Qed.

Lemma sorted_not_after l k i x y : Forall ok l -> l ≡ₚ k -> StronglySorted below l -> StronglySorted below k ->
  l !! i = Some x -> k !! i = Some y -> below y x.
Proof using All.
  intros Hl Hp Sl Sk El Ek. assert (Hk : Forall ok k) by (by rewrite <- Hp). destruct (below_dec y x) as [|Hn]; [done|exfalso].
  assert (Hx : ok x) by (apply (proj1 (Forall_forall _ _) Hl); by eapply list_elem_of_lookup_2).
  assert (Hy : ok y) by (apply (proj1 (Forall_forall _ _) Hk); by eapply list_elem_of_lookup_2).
  assert (C : length (filter (fun z => below z x) l) = length (filter (fun z => below z x) k)) by (by rewrite Hp).
  assert (C1 : (S i <= length (filter (fun z => below z x) l))%nat).
  { rewrite <- (take_drop (S i) l) at 1; rewrite filter_app, length_app. assert (E : filter (fun z => below z x) (take (S i) l) = take (S i) l).
    { apply filter_keeps, Forall_forall. intros z Hz. by apply (sorted_take l i). }
    rewrite E, length_take. apply lookup_lt_Some in El. lia. }
  assert (C2 : (length (filter (fun z => below z x) k) <= i)%nat).
  { rewrite <- (take_drop i k) at 1; rewrite filter_app, length_app. assert (E : filter (fun z => below z x) (drop i k) = []).
    { apply filter_drops, Forall_forall. intros z Hz Hzx. apply Hn. rewrite (drop_S _ _ _ Ek) in Hz. apply elem_of_cons in Hz as [->|Hz]; [done|].
      assert (Hz' : ok z) by (apply (proj1 (Forall_forall _ _) Hk); rewrite <- (take_drop (S i) k); set_solver).
      apply (cmp_trans y z x); [done..|by apply (preorder_sorted_lookup k i)|done]. }
    rewrite E. cbn. pose proof (length_filter (fun z => below z x) (take i k)). rewrite length_take in *. lia. }
  lia.
Qed.

Lemma sorted_unique l k : Forall ok l -> l ≡ₚ k -> StronglySorted below l -> StronglySorted below k -> Forall2 (fun x y => cmp x y = Eq) l k.
Proof using All.
  intros Hl Hp Sl Sk. assert (Hk : Forall ok k) by (by rewrite <- Hp). apply Forall2_same_length_lookup. split; [by apply Permutation_length|].
  intros i x y El Ek. assert (B1 : below y x) by (by eapply (sorted_not_after l k)). assert (B2 : below x y) by (by eapply (sorted_not_after k l)).
  unfold below in *. rewrite (cmp_flip x y) in B1; [by destruct (cmp x y)|by apply (Forall_lookup_1 ok l i)|by apply (Forall_lookup_1 ok k i)].
Qed.
End Sorting.

(** ** The order of rows *)

Definition is_null (v : Value) : bool := match v with Null => true | _ => false end.

Lemma compare_key_cases key a b : compare_key key a b =
  match is_null a, is_null b with
  | true, true => Eq
  | true, false => if sk_nulls_first key then Lt else Gt
  | false, true => if sk_nulls_first key then Gt else Lt
  | false, false => if sk_descending key then CompOpp (compare a b (sk_collation key)) else compare a b (sk_collation key)
  end.
Proof. by destruct a, b. Qed.

#[global] Instance compare_key_total key : TotalPreorder value_ok (compare_key key).
Proof.
  pose proof (compare_total (sk_collation key)) as T. split.
  - intros x y Hx Hy. rewrite !compare_key_cases. pose proof (cmp_flip x y Hx Hy) as E. cbn beta in E.
    destruct (is_null x), (is_null y), (sk_nulls_first key); try done; destruct (sk_descending key); by rewrite E.
  - intros x y z Hx Hy Hz. rewrite !compare_key_cases. pose proof (cmp_trans x y z Hx Hy Hz) as E1. pose proof (cmp_trans z y x Hz Hy Hx) as E2.
    pose proof (cmp_flip y z Hy Hz) as F1. pose proof (cmp_flip x y Hx Hy) as F2. pose proof (cmp_flip x z Hx Hz) as F3. cbn beta in *. rewrite F1, F2, F3 in E2.
    destruct (is_null x), (is_null y), (is_null z), (sk_nulls_first key), (sk_descending key); auto.
Qed.

Definition row_ok (r : list Value) : Prop := Forall value_ok r.
Lemma head_ok r : row_ok r -> value_ok (default Null (head r)).
Proof. unfold row_ok. destruct r; [done|]. by intros [? ?]%Forall_cons. Qed.
Lemma tail_ok r : row_ok r -> row_ok (tail r).
Proof. unfold row_ok. destruct r; [done|]. by intros [? ?]%Forall_cons. Qed.

#[global] Instance compare_rows_total keys : TotalPreorder row_ok (fun a b => compare_rows a b keys).
Proof.
  induction keys as [|key keys IH]; [split; by cbn|]. split; cbn [compare_rows].
  - intros x y Hx Hy. rewrite (cmp_flip (default Null (head x)) (default Null (head y))) by (by apply head_ok).
    pose proof (cmp_flip (tail x) (tail y) (tail_ok _ Hx) (tail_ok _ Hy)). by destruct (compare_key key _ _).
  - intros x y z Hx Hy Hz. pose proof (head_ok _ Hx) as X. pose proof (head_ok _ Hy) as Y. pose proof (head_ok _ Hz) as Z.
    pose proof (cmp_trans (tail x) (tail y) (tail z) (tail_ok _ Hx) (tail_ok _ Hy) (tail_ok _ Hz)) as R. cbn beta in R.
    destruct (compare_key key (default Null (head x)) (default Null (head y))) eqn:E; [| |done].
    + rewrite (cmp_eq_l value_ok (compare_key key) _ _ _ X Y Z E). by destruct (compare_key key _ (default Null (head z))); auto.
    + intros _ H. rewrite (cmp_lt_trans value_ok (compare_key key) _ _ _ X Y Z E); [done|]. by destruct (compare_key key _ (default Null (head z))).
Qed.

(** ** The heap *)

Section HeapProperties.
Context (keys : list SortKeyColumn).
Abbreviation cmp := (fun a b : SorterRow => compare_rows a.2 b.2 keys).
Abbreviation ok := (fun r : SorterRow => row_ok r.2).

#[local] Instance sorter_rows_total : TotalPreorder ok cmp.
Proof. destruct (compare_rows_total keys) as [F T]. split; [intros x y; apply F|intros x y z; apply T]. Qed.

Definition parent (i : nat) : nat := ((i - 1) / 2)%nat.
Definition le_at (buf : list SorterRow) (i j : nat) : Prop := forall x y, buf !! i = Some x -> buf !! j = Some y -> below cmp x y.
(** No row is after its parent. *)
Definition heap (buf : list SorterRow) : Prop := forall i, (0 < i)%nat -> le_at buf i (parent i).
(** ... except perhaps row [k]; the children of [k] are not after its parent. *)
Definition heap_but_up (buf : list SorterRow) (k : nat) : Prop :=
  (forall i, (0 < i)%nat -> i <> k -> le_at buf i (parent i)) /\ (forall i, (0 < i)%nat -> (0 < k)%nat -> parent i = k -> le_at buf i (parent k)).
(** ... except perhaps the children of row [k]; they are not after its parent. *)
Definition heap_but_down (buf : list SorterRow) (k : nat) : Prop :=
  (forall i, (0 < i)%nat -> parent i <> k -> le_at buf i (parent i)) /\ (forall i, (0 < i)%nat -> (0 < k)%nat -> parent i = k -> le_at buf i (parent k)).

Lemma parent_lt i : (0 < i)%nat -> (parent i < i)%nat.
Proof. intros H. unfold parent. apply Nat.Div0.div_lt_upper_bound. lia. Qed.
Lemma parent_children i : (0 < i)%nat -> i = (2 * parent i + 1)%nat \/ i = (2 * parent i + 2)%nat.
Proof. intros H. unfold parent. pose proof (Nat.div_mod (i - 1) 2 ltac:(lia)). pose proof (Nat.mod_upper_bound (i - 1) 2 ltac:(lia)). lia. Qed.

Section Swap.
Context (buf : list SorterRow) (i j : nat) (x y : SorterRow) (Ei : buf !! i = Some x) (Ej : buf !! j = Some y) (Hij : i <> j).
Lemma swap_eq : swap buf i j = <[i := y]> (<[j := x]> buf).
Proof using Ei Ej. unfold swap. by rewrite Ei, Ej. Qed.
Lemma swap_left : swap buf i j !! i = Some y.
Proof using Ei Ej. rewrite swap_eq. apply list_lookup_insert_eq. rewrite length_insert. by eapply lookup_lt_Some. Qed.
Lemma swap_right : swap buf i j !! j = Some x.
Proof using Ei Ej Hij. rewrite swap_eq, list_lookup_insert_ne by done. apply list_lookup_insert_eq. by eapply lookup_lt_Some. Qed.
Lemma swap_other k : k <> i -> k <> j -> swap buf i j !! k = buf !! k.
Proof using Ei Ej. intros. rewrite swap_eq. by rewrite !list_lookup_insert_ne. Qed.
Lemma swap_perm : swap buf i j ≡ₚ buf.
Proof using Ei Ej Hij.
  rewrite swap_eq. apply Permutation_inj. split; [by rewrite !length_insert|]. exists (fun k => if decide (k = i) then j else if decide (k = j) then i else k).
  split; [intros a b; by repeat case_decide; subst|]. intros k. pose proof swap_left as L. pose proof swap_right as R. pose proof (swap_other k) as O. rewrite swap_eq in L, R, O.
  repeat case_decide; subst; [by rewrite L|by rewrite R|by apply O].
Qed.
End Swap.

Lemma row_gt_spec buf i j : if row_gt keys (buf !! i) (buf !! j) then exists x y, buf !! i = Some x /\ buf !! j = Some y /\ cmp x y = Gt else le_at buf i j.
Proof.
  unfold row_gt, le_at, below, is_gt. destruct (buf !! i) as [[bx x]|], (buf !! j) as [[by' y]|]; try (by intros; simplify_eq).
  destruct (compare_rows x y keys) eqn:E; [intros ? ? [= <-] [= <-]; cbn [snd]; by rewrite E..|exists (bx, x), (by', y); done].
Qed.

Lemma gt_below x y : ok x -> ok y -> cmp x y = Gt -> below cmp y x.
Proof. intros Hx Hy E. unfold below. pose proof (@cmp_flip _ ok cmp _ x y Hx Hy) as F. cbn beta in *. by rewrite F, E. Qed.

Lemma below_trans x y z : ok x -> ok y -> ok z -> below cmp x y -> below cmp y z -> below cmp x z.
Proof. intros Hx Hy Hz. exact (@cmp_trans _ ok cmp _ x y z Hx Hy Hz). Qed.

Lemma lookup_ok buf i x : Forall ok buf -> buf !! i = Some x -> ok x.
Proof. intros H E. by apply (Forall_lookup_1 (fun r : SorterRow => row_ok r.2) buf i). Qed.

(** ** Sifting up *)

Lemma sift_up_perm fuel : forall buf k, heap_sift_up_loop keys fuel buf k ≡ₚ buf.
Proof.
  induction fuel as [|fuel IH]; intros buf k; cbn [heap_sift_up_loop]; [done|]. case_bool_decide as Hk; [done|]. change ((k - 1) / 2)%nat with (parent k). pose proof (row_gt_spec buf k (parent k)) as G.
  destruct (row_gt keys _ _); [|done]. destruct G as (x & y & Ex & Ey & _). rewrite IH. eapply swap_perm; [done..|]. pose proof (parent_lt k). lia.
Qed.

Lemma sift_up_step buf k x y : Forall ok buf -> heap_but_up buf k -> (0 < k)%nat -> buf !! k = Some x -> buf !! parent k = Some y -> cmp x y = Gt ->
  heap_but_up (swap buf k (parent k)) (parent k).
Proof.
  intros Hok [H1 H2] Hk Ex Ey G. pose proof (parent_lt k Hk) as Hp. assert (Hne : k <> parent k) by lia.
  pose proof (swap_left _ _ _ _ _ Ex Ey) as L. pose proof (swap_right _ _ _ _ _ Ex Ey Hne) as R. pose proof (swap_other _ _ _ _ _ Ex Ey) as O.
  pose proof (lookup_ok _ _ _ Hok Ex) as Kx. pose proof (lookup_ok _ _ _ Hok Ey) as Ky. pose proof (gt_below _ _ Kx Ky G) as B. split.
  - intros i Hi Hip a b Ea Eb. pose proof (parent_lt i Hi) as Hpi. destruct (decide (i = k)) as [->|Hik]; [by simplify_eq|].
    rewrite (O i) in Ea by done. destruct (decide (parent i = k)) as [Epk|Hpk]; [|destruct (decide (parent i = parent k)) as [Epp|Hpp]].
    + rewrite Epk, L in Eb. injection Eb as <-. by apply (H2 i Hi Hk Epk).
    + rewrite Epp, R in Eb. injection Eb as <-. apply (below_trans a y x); [by apply (lookup_ok buf i)|done|done| |done].
      apply (H1 i Hi Hik); [done|by rewrite Epp].
    + rewrite O in Eb by done. by apply (H1 i Hi Hik).
  - intros i Hi Hp0 Hip a b Ea Eb. pose proof (parent_lt _ Hp0) as Hpp. rewrite (O (parent (parent k))) in Eb by lia.
    assert (By : below cmp y b) by (by apply (H1 (parent k) Hp0)). destruct (decide (i = k)) as [->|Hik]; [by simplify_eq|].
    pose proof (parent_lt i Hi). rewrite (O i) in Ea by lia. apply (below_trans a y b); [by apply (lookup_ok buf i)|done|by eapply lookup_ok| |done].
    apply (H1 i Hi Hik); [done|by rewrite Hip].
Qed.

Lemma sift_up_heap fuel : forall buf k, (k < fuel)%nat -> Forall ok buf -> heap_but_up buf k -> heap (heap_sift_up_loop keys fuel buf k).
Proof.
  induction fuel as [|fuel IH]; intros buf k Hf Hok H; [lia|]. cbn [heap_sift_up_loop]. case_bool_decide as Hk.
  - subst k. intros i Hi. apply H; lia.
  - pose proof (row_gt_spec buf k (parent k)) as G. pose proof (parent_lt k ltac:(lia)). change ((k - 1) / 2)%nat with (parent k). destruct (row_gt keys _ _).
    + destruct G as (x & y & Ex & Ey & G). apply IH; [lia| |eapply sift_up_step; [done..|lia|done|done|done]].
      rewrite swap_perm; [done|done|done|lia].
    + intros i Hi. destruct (decide (i = k)) as [->|Hik]; [done|]. by apply H.
Qed.

(** ** Sifting down *)

Definition largest (buf : list SorterRow) (i : nat) : nat :=
  let left := (2 * i + 1)%nat in
  let right := (2 * i + 2)%nat in
  let m := if bool_decide (left < length buf)%nat && row_gt keys (buf !! left) (buf !! i) then left else i in
  if bool_decide (right < length buf)%nat && row_gt keys (buf !! right) (buf !! m) then right else m.

Lemma child_gt_spec buf i j : if bool_decide (i < length buf)%nat && row_gt keys (buf !! i) (buf !! j) then exists x y, buf !! i = Some x /\ buf !! j = Some y /\ cmp x y = Gt else le_at buf i j.
Proof.
  case_bool_decide as Hl; cbn; [apply row_gt_spec|]. intros x y Ex. apply lookup_lt_Some in Ex. lia.
Qed.

Lemma children_at buf i m : le_at buf (2 * i + 1) m -> le_at buf (2 * i + 2) m -> forall j, (0 < j)%nat -> parent j = i -> le_at buf j m.
Proof. intros L R j Hj Hp. destruct (parent_children j Hj) as [E|E]; rewrite Hp in E; by rewrite E. Qed.

Lemma parent_left i : parent (2 * i + 1) = i.
Proof. unfold parent. replace (2 * i + 1 - 1)%nat with (i * 2)%nat by lia. by apply Nat.div_mul. Qed.
Lemma parent_right i : parent (2 * i + 2) = i.
Proof. unfold parent. replace (2 * i + 2 - 1)%nat with (1 + i * 2)%nat by lia. rewrite Nat.div_add by lia. done. Qed.

(** The larger child of row [i], if it is larger than the row. *)
Lemma largest_spec buf i : Forall ok buf -> (largest buf i = i /\ forall j, (0 < j)%nat -> parent j = i -> le_at buf j i) \/
  (exists x y, buf !! i = Some x /\ buf !! largest buf i = Some y /\ below cmp x y /\ parent (largest buf i) = i /\ (i < largest buf i)%nat /\
     forall j, (0 < j)%nat -> parent j = i -> le_at buf j (largest buf i)).
Proof.
  intros Hok. assert (self : forall j, le_at buf j j). { intros j a b Ea Eb. rewrite Ea in Eb. injection Eb as <-. unfold below. by rewrite (cmp_refl ok cmp) by (by eapply lookup_ok). }
  pose proof (parent_left i) as PL. pose proof (parent_right i) as PR.
  unfold largest. pose proof (child_gt_spec buf (2 * i + 1) i) as L. destruct (bool_decide (2 * i + 1 < length buf)%nat && _).
  - destruct L as (y & x & Ey & Ex & G). pose proof (lookup_ok _ _ _ Hok Ex) as Kx. pose proof (lookup_ok _ _ _ Hok Ey) as Ky. pose proof (gt_below _ _ Ky Kx G) as B. right.
    pose proof (child_gt_spec buf (2 * i + 2) (2 * i + 1)) as R. destruct (bool_decide (2 * i + 2 < length buf)%nat && _).
    + destruct R as (z & y' & Ez & Ey' & G2). rewrite Ey in Ey'. injection Ey' as <-. pose proof (lookup_ok _ _ _ Hok Ez) as Kz. pose proof (gt_below _ _ Kz Ky G2) as B2.
      exists x, z. do 2 (split; [done|]). split; [by apply (below_trans x y z)|]. split; [done|]. split; [lia|]. apply children_at; [|apply self]. intros a b Ea Eb. by simplify_eq.
    + exists x, y. do 3 (split; [done|]). split; [done|]. split; [lia|]. by apply children_at.
  - pose proof (child_gt_spec buf (2 * i + 2) i) as R. destruct (bool_decide (2 * i + 2 < length buf)%nat && _); [right|left; split; [done|by apply children_at]].
    destruct R as (z & x & Ez & Ex & G). pose proof (lookup_ok _ _ _ Hok Ex) as Kx. pose proof (lookup_ok _ _ _ Hok Ez) as Kz. pose proof (gt_below _ _ Kz Kx G) as B.
    exists x, z. do 3 (split; [done|]). split; [done|]. split; [lia|]. apply children_at; [|apply self]. intros a b Ea Eb. rewrite Ez in Eb. injection Eb as <-.
    apply (below_trans a x z); [by eapply lookup_ok|done|done|by apply (L a x)|done].
Qed.

Lemma sift_down_unfold fuel buf i : heap_sift_down_loop keys (S fuel) buf i =
  if bool_decide (largest buf i = i) then buf else heap_sift_down_loop keys fuel (swap buf i (largest buf i)) (largest buf i).
Proof. done. Qed.

Lemma sift_down_step buf k m x y : Forall ok buf -> heap_but_down buf k -> buf !! k = Some x -> buf !! m = Some y -> below cmp x y -> parent m = k -> (k < m)%nat ->
  (forall j, (0 < j)%nat -> parent j = k -> le_at buf j m) -> heap_but_down (swap buf k m) m.
Proof.
  intros Hok [H1 H2] Ex Ey B Hm Hkm Hc. assert (Hne : k <> m) by lia.
  pose proof (swap_left _ _ _ _ _ Ex Ey) as L. pose proof (swap_right _ _ _ _ _ Ex Ey Hne) as R. pose proof (swap_other _ _ _ _ _ Ex Ey) as O. split.
  - intros i Hi Hpm a b Ea Eb. pose proof (parent_lt i Hi) as Hpi. destruct (decide (parent i = k)) as [Epk|Hpk].
    + rewrite Epk, L in Eb. injection Eb as <-. destruct (decide (i = m)) as [->|Him]; [by simplify_eq|]. rewrite (O i) in Ea by lia. by apply (Hc i Hi Epk).
    + rewrite (O (parent i)) in Eb by done. assert (Him : i <> m) by (by intros ->). destruct (decide (i = k)) as [->|Hik]; [|rewrite (O i) in Ea by done; by apply (H1 i Hi Hpk)].
      rewrite L in Ea. injection Ea as <-. apply (H2 m); [lia|done|done|done|done].
  - intros i Hi Hm0 Hpi a b Ea Eb. pose proof (parent_lt i Hi). rewrite Hm, L in Eb. injection Eb as <-. rewrite (O i) in Ea by lia.
    apply (H1 i Hi); [lia|done|by rewrite Hpi].
Qed.

Lemma sift_down_perm fuel : forall buf k, Forall ok buf -> heap_sift_down_loop keys fuel buf k ≡ₚ buf.
Proof.
  induction fuel as [|fuel IH]; intros buf k Hok; [done|]. rewrite sift_down_unfold. case_bool_decide as E; [done|].
  destruct (largest_spec buf k Hok) as [[? _]|(x & y & Ex & Ey & _)]; [done|]. assert (Hp : swap buf k (largest buf k) ≡ₚ buf) by (by eapply swap_perm).
  rewrite IH; [done|by rewrite Hp].
Qed.

Lemma sift_down_heap fuel : forall buf k, (length buf <= k + fuel)%nat -> Forall ok buf -> heap_but_down buf k -> heap (heap_sift_down_loop keys fuel buf k).
Proof.
  induction fuel as [|fuel IH]; intros buf k Hf Hok H.
  - change (heap buf). intros i Hi. destruct (decide (parent i = k)) as [E|E]; [|by apply H]. intros a b Ea. apply lookup_lt_Some in Ea. pose proof (parent_lt i Hi). lia.
  - rewrite sift_down_unfold. destruct (largest_spec buf k Hok) as [[E Hc]|(x & y & Ex & Ey & B & Hm & Hkm & Hc)].
    + rewrite bool_decide_true by done. intros i Hi. destruct (decide (parent i = k)) as [<-|Hne]; [by apply Hc|by apply H].
    + rewrite bool_decide_false by lia. assert (Hp : swap buf k (largest buf k) ≡ₚ buf) by (eapply swap_perm; [done|done|lia]).
      apply IH; [rewrite Hp; lia|by rewrite Hp|by eapply sift_down_step].
Qed.

(** The first row of a heap is the last one in the order. *)
Lemma heap_root buf r : Forall ok buf -> heap buf -> buf !! 0%nat = Some r -> forall x, x ∈ buf -> below cmp x r.
Proof.
  intros Hok H Er x [i Ei]%list_elem_of_lookup. revert x Ei. induction i as [i IH] using lt_wf_ind. intros x Ei. destruct (decide (i = 0)%nat) as [->|Hi].
  - rewrite Er in Ei. injection Ei as <-. unfold below. by rewrite (cmp_refl ok cmp) by (by eapply lookup_ok).
  - pose proof (parent_lt i ltac:(lia)) as Hp. pose proof (lookup_lt_Some _ _ _ Ei) as Hl. destruct (lookup_lt_is_Some_2 buf (parent i) ltac:(lia)) as [y Ey].
    apply (below_trans x y r); [by eapply lookup_ok..| |by apply (IH (parent i))]. by apply (H i ltac:(lia)).
Qed.

(** ** What a bounded sorter keeps *)

(** Of the rows inserted so far, [buf] is a heap of [n] rows that are not
    after the others; of fewer when there are not as many. *)
Definition keeps (n : Z) (rows buf : list SorterRow) : Prop :=
  heap buf /\ exists dropped, buf ++ dropped ≡ₚ rows /\ len buf = Z.min n (len rows) /\ forall b d, b ∈ buf -> d ∈ dropped -> below cmp b d.

Lemma heap_nil : heap [].
Proof. intros i _ x y E. done. Qed.

Lemma heap_snoc buf row : heap buf -> heap_but_up (buf ++ [row]) (length buf).
Proof.
  intros H. assert (O : forall i, (i < length buf)%nat -> (buf ++ [row]) !! i = buf !! i) by (intros; by apply lookup_app_l).
  assert (D : forall i x, (buf ++ [row]) !! i = Some x -> (i <= length buf)%nat) by (intros i x E; apply lookup_lt_Some in E; rewrite length_app in E; cbn in E; lia). split.
  - intros i Hi Hne x y Ex Ey. pose proof (parent_lt i Hi). pose proof (D _ _ Ex). rewrite O in Ex, Ey by lia. by apply (H i Hi).
  - intros i Hi Hk Hp x y Ex _. pose proof (parent_lt i Hi). pose proof (D _ _ Ex). lia.
Qed.

Lemma heap_replace_root buf row worst : heap (worst :: buf) -> heap_but_down (row :: buf) 0.
Proof.
  intros H. split; [|lia]. intros i Hi Hp x y Ex Ey. apply (H i Hi); [by destruct i|by destruct (parent i)].
Qed.

Lemma keeps_ok n rows buf : Forall ok rows -> keeps n rows buf -> Forall ok buf.
Proof. intros Hr (_ & dropped & Hp & _). apply (Forall_app _ buf dropped). by rewrite Hp. Qed.

(** A row is added while there is room. *)
Lemma keeps_add n rows buf row : Forall ok rows -> ok row -> keeps n rows buf -> len buf < n -> keeps n (rows ++ [row]) (heap_sift_up keys (buf ++ [row]) (length buf)).
Proof.
  intros Hr Ho Hk Hroom. pose proof (keeps_ok _ _ _ Hr Hk) as Hb. destruct Hk as (Hh & dropped & Hp & Hl & Hd). pose proof (Permutation_length Hp) as Hpl. rewrite length_app in Hpl.
  assert (dropped = []) as -> by (destruct dropped; [done|]; unfold len in *; cbn [length] in *; lia). rewrite app_nil_r in Hp.
  pose proof (sift_up_perm (S (length buf)) (buf ++ [row]) (length buf)) as Hsp. unfold heap_sift_up.
  split; [apply sift_up_heap; [lia|apply Forall_app; by repeat constructor|by apply heap_snoc]|]. exists []. rewrite app_nil_r. split; [by rewrite Hsp, Hp|].
  split; [|set_solver]. unfold len in *. rewrite Hsp, !length_app. cbn [length] in *. lia.
Qed.

(** The last of the kept rows gives way to a row before it. *)
Lemma keeps_replace n rows buf worst row : Forall ok rows -> ok row -> keeps n rows (worst :: buf) -> n <= len (worst :: buf) -> cmp row worst = Lt ->
  keeps n (rows ++ [row]) (heap_sift_down keys (row :: buf) 0).
Proof.
  intros Hr Ho Hk Hfull E. pose proof (keeps_ok _ _ _ Hr Hk) as Hb. destruct Hk as (Hh & dropped & Hp & Hl & Hd). pose proof (heap_root _ worst Hb Hh eq_refl) as Hw.
  apply Forall_cons in Hb as [Kw Hb]. assert (Hok : Forall ok (row :: buf)) by (by constructor). unfold heap_sift_down.
  pose proof (sift_down_perm (S (length (row :: buf))) _ 0 Hok) as Hsp. split; [apply sift_down_heap; [lia|done|by eapply heap_replace_root]|].
  exists (worst :: dropped). split; [|split].
  - rewrite Hsp, <- Hp. cbn. rewrite <- Permutation_middle, <- (Permutation_cons_append _ row). apply Permutation_swap.
  - apply Permutation_length in Hsp. unfold len in *. rewrite Hsp, length_app. cbn [length] in *. lia.
  - intros b d Hb' Hdd. rewrite Hsp in Hb'. assert (Kb : ok b) by (by apply (proj1 (Forall_forall _ _) Hok)).
    assert (Bb : below cmp b worst) by (apply elem_of_cons in Hb' as [->|Hb']; [unfold below; by rewrite E|apply Hw; by right]).
    apply elem_of_cons in Hdd as [->|Hdd]; [done|]. apply (below_trans b worst d); [done|done| |done|apply Hd; [by left|done]].
    apply (proj1 (Forall_forall _ _) Hr). rewrite <- Hp. apply elem_of_app. by right.
Qed.

(** A row that is not before the last of the kept rows is dropped. *)
Lemma keeps_drop n rows buf worst row : Forall ok rows -> ok row -> keeps n rows (worst :: buf) -> n <= len (worst :: buf) -> cmp row worst <> Lt ->
  keeps n (rows ++ [row]) (worst :: buf).
Proof.
  intros Hr Ho Hk Hfull E. pose proof (keeps_ok _ _ _ Hr Hk) as Hb. destruct Hk as (Hh & dropped & Hp & Hl & Hd). pose proof (heap_root _ worst Hb Hh eq_refl) as Hw.
  pose proof (proj1 (Forall_cons _ _ _) Hb) as [Kw _].
  assert (Bwr : below cmp worst row) by (destruct (below_dec cmp worst row) as [|Hn]; [done|]; by apply (not_below ok cmp) in Hn).
  split; [done|]. exists (dropped ++ [row]). rewrite app_assoc, Hp. split; [done|]. split; [unfold len in *; rewrite length_app; cbn [length] in *; lia|].
  intros b d Hb' [Hdd|Hdd]%elem_of_app; [by apply Hd|]. apply list_elem_of_singleton in Hdd as ->.
  apply (below_trans b worst row); [by apply (proj1 (Forall_forall _ _) Hb)|done|done|by apply Hw|done].
Qed.

Lemma buffer_row_keeps n rows buf row : 0 <= n -> Forall ok rows -> ok row -> keeps n rows buf -> keeps n (rows ++ [row]) (buffer_row keys (Some n) buf row).
Proof.
  intros Hn Hr Ho Hk. cbn [buffer_row]. destruct (Z.eqb_spec n 0) as [->|Hn0].
  - destruct Hk as (Hh & dropped & Hp & Hl & Hd). split; [done|]. exists (dropped ++ [row]). rewrite app_assoc, Hp. split; [done|].
    assert (buf = []) as -> by (destruct buf; [done|]; unfold len in Hl; cbn [length] in Hl; lia). split; [unfold len; cbn [length]; lia|set_solver].
  - destruct (Z.leb_spec n (len buf)) as [Hfull|Hroom]; [|by apply keeps_add]. destruct buf as [|[wb worst] buf]; [by unfold len in Hfull; cbn [length] in Hfull; lia|].
    destruct (is_lt (compare_rows row.2 worst keys)) eqn:E.
    + eapply keeps_replace; [done..|]. cbn [snd]. unfold is_lt in E. by destruct (compare_rows row.2 worst keys).
    + apply keeps_drop; [done..|]. cbn [snd]. intros E'. by rewrite E' in E.
Qed.

Lemma bounded_keeps n rows : 0 <= n -> Forall ok rows -> keeps n rows (foldl (buffer_row keys (Some n)) [] rows).
Proof.
  intros Hn. induction rows as [|row rows IH] using rev_ind; intros Hok.
  - split; [apply heap_nil|]. exists []. split; [done|]. split; [unfold len; cbn; lia|set_solver].
  - apply Forall_app in Hok as [Hr [Ho _]%Forall_cons]. rewrite foldl_app. apply buffer_row_keeps; [done..|by apply IH].
Qed.

Lemma unbounded_keeps rows : foldl (buffer_row keys None) [] rows = rows.
Proof. induction rows as [|row rows IH] using rev_ind; [done|]. by rewrite foldl_app, IH. Qed.

Lemma keeps_sub n rows buf : keeps n rows buf -> buf ⊆+ rows.
Proof. intros (_ & dropped & Hp & _). rewrite <- Hp. by apply submseteq_inserts_r. Qed.

(** What is kept, sorted, is the beginning of the full sort. *)
Lemma keeps_sorted n rows buf : 0 <= n -> Forall ok rows -> keeps n rows buf -> Forall2 (fun a b => cmp a b = Eq) (sort_by cmp buf) (take (Z.to_nat n) (sort_by cmp rows)).
Proof.
  intros Hn Hr Hk. pose proof (keeps_ok _ _ _ Hr Hk) as Hb. destruct Hk as (Hh & dropped & Hp & Hl & Hd). assert (Ha : Forall ok (buf ++ dropped)) by (by rewrite Hp).
  pose proof (proj1 (Forall_app _ _ _) Ha) as [_ Hdr]. assert (Hs : StronglySorted (below cmp) (sort_by cmp buf ++ sort_by cmp dropped)).
  { apply preorder_sorted_app; [by apply (sort_by_sorted ok cmp)..|]. intros x y Hx Hy. rewrite (sort_by_perm cmp) in Hx, Hy. by apply Hd. }
  assert (Hpp : sort_by cmp buf ++ sort_by cmp dropped ≡ₚ sort_by cmp rows) by (by rewrite !(sort_by_perm cmp)).
  assert (F : Forall2 (fun a b => cmp a b = Eq) (sort_by cmp buf ++ sort_by cmp dropped) (sort_by cmp rows)).
  { apply (sorted_unique ok cmp); [by rewrite !(sort_by_perm cmp)|done|done|by apply (sort_by_sorted ok cmp)]. }
  apply (Forall2_take _ _ _ (Z.to_nat n)) in F. pose proof (Permutation_length (sort_by_perm cmp buf)) as Lb. pose proof (Permutation_length Hp) as Lp. rewrite length_app in Lp.
  assert (E : take (Z.to_nat n) (sort_by cmp buf ++ sort_by cmp dropped) = sort_by cmp buf); [|by rewrite E in F].
  unfold len in Hl. destruct (decide (n <= Z.of_nat (length rows))) as [Hle|Hgt].
  - rewrite take_app_le by lia. apply take_ge. lia.
  - assert (dropped = []) as -> by (destruct dropped; [done|]; cbn [length] in *; lia). cbn. rewrite app_nil_r. apply take_ge. lia.
Qed.
End HeapProperties.

(** C5. A sorter with a bound of [n] rows, which keeps only a heap of [n] rows,
    returns the first [n] rows of the sorter that keeps every row: position by
    position the keys are equal, and each row it returns is one of the rows
    inserted, as often as it was inserted. *)
Theorem bounded_sorter_keeps_first_rows keys n rows : 0 <= n -> Forall (fun r : SorterRow => Forall value_ok r.2) rows ->
  let cmp := fun a b : SorterRow => compare_rows a.2 b.2 keys in
  let bounded := sort_by cmp (foldl (buffer_row keys (Some n)) [] rows) in
  let full := sort_by cmp (foldl (buffer_row keys None) [] rows) in
  Forall2 (fun a b => cmp a b = Eq) bounded (take (Z.to_nat n) full) /\ bounded ⊆+ rows /\ full ≡ₚ rows /\ StronglySorted (fun a b => cmp a b <> Gt) full.
Proof.
  intros Hn Hok cmp bounded full. pose proof (bounded_keeps keys n rows Hn Hok) as Hk. unfold full, bounded. rewrite unbounded_keeps. split; [by apply keeps_sorted|].
  split; [|split; [apply sort_by_perm|]].
  - rewrite (sort_by_perm cmp). by eapply keeps_sub.
  - pose proof (sorter_rows_total keys). by apply (sort_by_sorted (fun r : SorterRow => row_ok r.2) cmp).
Qed.

(** Five rows with an integer and a text column, sorted by the integer
    downwards, NULLs last, and then by the text without regard to case. *)
Definition sample_keys : list SortKeyColumn := [MkSortKeyColumn 0 true CBinary false; MkSortKeyColumn 1 false CNoCase true].
Definition sample_sorter_rows : list SorterRow :=
  [([1], [Integer 3; VText (lit "b")]); ([2], [Null; VText (lit "a")]); ([3], [Integer 3; VText (lit "A")]); ([4], [Integer 9; Null]); ([5], [Integer 1; Null])].
Lemma bounded_sorter_keeps_first_rows_witness :
  let cmp := fun a b : SorterRow => compare_rows a.2 b.2 sample_keys in
  map fst (sort_by cmp (foldl (buffer_row sample_keys (Some 2)) [] sample_sorter_rows)) = [[4]; [3]] /\
  Forall2 (fun a b => cmp a b = Eq) (sort_by cmp (foldl (buffer_row sample_keys (Some 2)) [] sample_sorter_rows)) (take 2 (sort_by cmp (foldl (buffer_row sample_keys None) [] sample_sorter_rows))).
Proof.
  intros cmp. split; [by vm_compute|]. destruct (bounded_sorter_keeps_first_rows sample_keys 2 sample_sorter_rows) as [F _]; [lia| |exact F].
  repeat constructor; vm_compute; try split; congruence.
Defined.
