(* ===== verification/Exec.v ===== *)
(** * Running a program ([src/vdbe/exec.rs])

    Dispatch of one instruction, the fetch-execute loop that yields one row at
    a time, and [run], which collects the rows.  The opcodes of the index
    b-tree, of DDL, of PRAGMA and of hash aggregation are the argument
    [other_op]: what they do is left open. *)

From stdpp Require Import prelude list numbers gmap.
From Stdlib Require Import ZArith Lia.
From S2P Require Import Prelude Varint Text Record Float ValueOrder Format Coerce Functions Tokenizer Header Freelist Vfs Journal Wal Lock Shm Checkpoint PageCache Pager Commit Transactions Allocator BtreePage LeafPage LeafSearch Btree Tree TreeSplit Overflow Table Cursor Program Vm VmCursor Sorter.

Local Open Scope Z_scope.

Definition MAX_STEPS : Z := 50000000.

(** [loop { ... }]: at most [n] iterations of [f], until one returns. *)
Fixpoint iterate {A B} (n : positive) (f : A -> A + B) (a : A) : A + B :=
  match n with
  | xH => f a
  | xO n => match iterate n f a with inl a => iterate n f a | done => done end
  | xI n => match f a with
            | inl a => match iterate n f a with inl a => iterate n f a | done => done end
            | done => done
            end
  end.

Section Exec.
Context `{host : Host} {OS : Type} `{Fcntl OS} {Ext : Type} (env : Env).
Abbreviation MVm := (Vm (OS := OS) (Ext := Ext)).
Abbreviation Exec := (M MVm ExecError).
Context (other_op : Instruction -> Exec Step).

Definition dispatch (pc : Z) (i : Instruction) : Exec Step :=
  match opcode i with
  | OpInit => op_init i
  | OpGoto => op_goto i
  | OpOnce => op_once pc i
  | OpBeginSubrtn => mret SNext
  | OpReturn => op_return i
  | OpHalt => op_halt i
  | OpTransaction => op_transaction i
  | OpAutoCommit => op_auto_commit env i
  | OpIfNot => op_if_not i
  | OpIfNotZero => op_if_not_zero i
  | OpIfPos => op_if_pos i
  | OpDecrJumpZero => op_decr_jump_zero i
  | OpIsNull => op_is_null i
  | OpNotNull => op_not_null i
  | OpMustBeInt => op_must_be_int i
  | OpOffsetLimit => op_offset_limit i
  | OpEq => compare_jump is_eq i
  | OpGe => compare_jump is_ge i
  | OpGt => compare_jump is_gt i
  | OpLe => compare_jump is_le i
  | OpLt => compare_jump is_lt i
  | OpRealAffinity => op_real_affinity i
  | OpCast => op_cast i
  | OpAdd => op_binary Coerce.checked_add i
  | OpSubtract => reversed_op checked_sub i
  | OpMultiply => op_binary checked_mul i
  | OpDivide => reversed_op checked_div i
  | OpRemainder => reversed_op checked_rem i
  | OpNot => op_not i
  | OpBitAnd => op_binary bit_and i
  | OpBitOr => op_binary bit_or i
  | OpShiftLeft => reversed_op shift_left i
  | OpShiftRight => reversed_op shift_right i
  | OpBitNot => op_bit_not i
  | OpConcat => reversed_op Coerce.concat i
  | OpInteger => op_integer i
  | OpInt64 => op_int64 i
  | OpReal => op_real i
  | OpBlob => op_blob i
  | OpNull => op_null i
  | OpString8 => op_string8 i
  | OpVariable => op_variable i
  | OpMakeRecord => op_make_record i
  | OpResultRow => op_result_row i
  | OpCopy => op_copy i
  | OpOpenRead => op_open_read other_op i
  | OpOpenWrite => op_open_write i
  | OpOpenEphemeral => op_open_ephemeral i
  | OpOpenDup => op_open_dup i
  | OpOpenPseudo => op_open_pseudo i
  | OpRewind => op_rewind i
  | OpLast => op_last i
  | OpNext => op_next i
  | OpColumn => op_column other_op i
  | OpRowid => op_rowid i
  | OpSeekRowid => op_seek_rowid i
  | OpNullRow => op_null_row i
  | OpSequence => op_sequence i
  | OpFound => op_found i
  | OpIdxInsert => op_idx_insert other_op i
  | OpIdxDelete => op_idx_delete other_op i
  | OpIdxLE => op_idx_le i
  | OpAutoIndexInsert => op_auto_index_insert i
  | OpAutoIndexSeek => op_auto_index_seek i
  | OpAutoIndexRowid => op_auto_index_rowid i
  | OpAutoIndexNext => op_auto_index_next i
  | OpDelete => op_delete i
  | OpInsert => op_insert i
  | OpNewRowid => op_new_rowid other_op i
  | OpSorterOpen => op_sorter_open i
  | OpSorterInsert => op_sorter_insert i
  | OpSorterSort | OpSort => op_sorter_sort i
  | OpSorterNext => op_sorter_next i
  | OpSorterData => op_sorter_data i
  | OpFunction => op_function i
  | OpAggStep => op_agg_step i
  | OpAggFinal => op_agg_final i
  | OpSetJournalMode | OpIntegrityCheck | OpSynchronous | OpSeekIndexEq | OpSeekIndexGE | OpIdxCompareGT | OpIdxRowid | OpIdxRewind
  | OpIdxLast | OpIdxNext | OpIdxPrev | OpCount | OpNoConflict | OpCreateTable | OpCreateView | OpDropTable | OpCreateIndex
  | OpDropIndex | OpAnalyze | OpHashAggOpen | OpHashAggFind | OpHashAggStep | OpHashAggRewind | OpHashAggData | OpHashAggNext => other_op i
  end.

(** ** One statement's execution *)

Record Execution := MkExecution { ex_vm : MVm; ex_pc : Z; ex_steps : Z; ex_done : bool; ex_pending : list (list Value) }.

Definition new_execution (vm : MVm) : Execution := MkExecution vm 0 0 false [].
Definition finished (e : Execution) (vm : MVm) : Execution := MkExecution vm (ex_pc e) (ex_steps e) true (ex_pending e).
(** An error of an opcode ends the loop without setting [done]. *)
Definition with_vm (e : Execution) (vm : MVm) : Execution := MkExecution vm (ex_pc e) (ex_steps e) (ex_done e) (ex_pending e).
Definition count_step (e : Execution) : Execution := MkExecution (ex_vm e) (ex_pc e) (Z.min (ex_steps e + 1) U32_MAX) (ex_done e) (ex_pending e).
Definition continue_at (e : Execution) (vm : MVm) (pc : Z) : Execution := MkExecution vm pc (ex_steps e) (ex_done e) (ex_pending e).

(** [Halt] with code 0: outside a transaction the pending writes are flushed. *)
Definition commit_on_halt : Exec unit :=
  vm ← get_st; if has_writer vm && autocommit vm then on_pager FlushFailed (flush env) else mret tt.

(** One iteration of the [loop] of [next_row]: the execution to go on with, or
    what the call returns. *)
Definition tick (program : Program) (e : Execution) : Execution + result ExecError (option (list Value)) * Execution :=
  let e := count_step e in
  if MAX_STEPS <? ex_steps e then inr (Err StepLimitExceeded, finished e (ex_vm e)) else
  match fetch program (ex_pc e) with
  | None => inr (Err (ProgramCounterOutOfRange (ex_pc e)), finished e (ex_vm e))
  | Some i =>
    match dispatch (ex_pc e) i (ex_vm e) with
    | (Err err, vm) => inr (Err err, with_vm e vm)
    | (Ok (SHalt code message), vm) =>
      if code =? 0 then
        match commit_on_halt vm with
        | (Err err, vm) => inr (Err err, with_vm e vm)
        | (Ok _, vm) => inr (Ok None, finished e vm)
        end
      else inr (Err (Halted code message), finished e vm)
    | (Ok step, vm) =>
      let e := continue_at e vm (match step with SJump target => target | _ => sat_add (ex_pc e) 1 end) in
      match vm_rows vm with
      | [] => inl e
      | row :: rows => inr (Ok (Some row), MkExecution (set_rows vm []) (ex_pc e) (ex_steps e) (ex_done e) rows)
      end
    end
  end.

(** Every iteration counts a step and none goes past [MAX_STEPS]. *)
Definition steps_left (e : Execution) : positive := Z.to_pos (MAX_STEPS + 1 - ex_steps e).

Definition next_row (program : Program) (e : Execution) : result ExecError (option (list Value)) * Execution :=
  match ex_pending e with
  | row :: rows => (Ok (Some row), MkExecution (ex_vm e) (ex_pc e) (ex_steps e) (ex_done e) rows)
  | [] =>
    if ex_done e then (Ok None, e) else
    match iterate (steps_left e) (tick program) e with
    | inr out => out
    | inl e => (Err StepLimitExceeded, finished e (ex_vm e))
    end
  end.

(** [run]: [fuel] bounds the rows collected. *)
Fixpoint run_loop (fuel : nat) (program : Program) (e : Execution) (rows : list (list Value)) : result ExecError (list (list Value) * bool) * Execution :=
  match fuel with
  | O => (Err StepLimitExceeded, e)
  | S fuel =>
    match next_row program e with
    | (Err err, e) => (Err err, e)
    | (Ok None, e) => (Ok (rows, autocommit (ex_vm e)), e)
    | (Ok (Some row), e) => run_loop fuel program e (rows ++ [row])
    end
  end.
Definition run (fuel : nat) (vm : MVm) (program : Program) : result ExecError (list (list Value) * bool) :=
  (run_loop fuel program (new_execution vm) []).1.
End Exec.
