(* ===== verification/Codegen.v ===== *)
(** * The code generator's tools ([src/codegen.rs])

    The emitter with its labels and patches, the register allocator, the
    targets of a condition, and the scope that resolves column names. *)

From stdpp Require Import prelude list numbers gmap.
From Stdlib Require Import ZArith Lia.
From S2P Require Import Prelude Varint Text Record Float ValueOrder Format Coerce Functions Tokenizer Ast Program.

Local Open Scope Z_scope.

(** ** Errors ([src/codegen/select.rs])

    [FuelExhausted] is not an error of the code: the recursion of the model
    ran out of fuel, which [compile_has_fuel] excludes. *)
Inductive CodegenError : Type :=
  | NoFromClause
  | UnknownColumn (name : str)
  | AmbiguousColumn (name : str)
  | Unsupported (reason : str)
  | RowShapeMismatch (table : str) (expected found : Z)
  | CompoundColumnMismatch (expected found : Z)
  | CircularView (name : str)
  | FuelExhausted.

(** ** Targets of a condition *)

Definition Label : Type := Z.
Inductive Target : Type := Jump (l : Label) | Fallthrough.
Inductive NullTarget : Type := NullTrue | NullFalse.
Record CondTargets := MkTargets { on_true : Target; on_false : Target; on_null : NullTarget }.

Definition null_is_false (t f : Target) : CondTargets := MkTargets t f NullFalse.
Definition null_is_true (t f : Target) : CondTargets := MkTargets t f NullTrue.
Definition negate (c : CondTargets) : CondTargets :=
  MkTargets (on_false c) (on_true c) (match on_null c with NullTrue => NullFalse | NullFalse => NullTrue end).
Definition with_true (c : CondTargets) (t : Target) : CondTargets := MkTargets t (on_false c) (on_null c).
Definition with_false (c : CondTargets) (f : Target) : CondTargets := MkTargets (on_true c) f (on_null c).

(** ** The emitter *)

Record Emitter := MkEmitter { instructions : list Instruction; labels : gmap Label Z; patches : list (Z * Label); next_label : Z }.
Definition new_emitter : Emitter := MkEmitter [] ∅ [] 0.

(** The register allocator: the next register, the next index of a bare [?],
    the next cursor.  The cache of materialised common table expressions is
    read and written only by the subquery compiler, which is not modelled. *)
Record RegAlloc := MkRegAlloc { ra_next : Z; next_param : Z; next_cursor : Z }.
Definition new_reg_alloc : RegAlloc := MkRegAlloc 0 0 1000.

(** Code generation threads both. *)
Record Gen := MkGen { em : Emitter; reg : RegAlloc }.
Abbreviation G := (M Gen CodegenError).

Definition here (e : Emitter) : Z := len (instructions e).

Definition emit (i : Instruction) : G Z := fun s =>
  (Ok (here (em s)), MkGen (MkEmitter (instructions (em s) ++ [i]) (labels (em s)) (patches (em s)) (next_label (em s))) (reg s)).
Definition new_label : G Label := fun s =>
  (Ok (next_label (em s)), MkGen (MkEmitter (instructions (em s)) (labels (em s)) (patches (em s)) (sat_add (next_label (em s)) 1)) (reg s)).
Definition place (l : Label) : G unit := fun s =>
  (Ok tt, MkGen (MkEmitter (instructions (em s)) (<[l := here (em s)]> (labels (em s))) (patches (em s)) (next_label (em s))) (reg s)).
Definition patch_p2 (addr : Z) (l : Label) : G unit := fun s =>
  (Ok tt, MkGen (MkEmitter (instructions (em s)) (labels (em s)) (patches (em s) ++ [(addr, l)]) (next_label (em s))) (reg s)).
Definition update_instruction (l : list Instruction) (addr : Z) (f : Instruction -> Instruction) : list Instruction := alter f (Z.to_nat addr) l.
Definition patch_p4 (addr : Z) (p : P4) : G unit := fun s =>
  (Ok tt, MkGen (MkEmitter (update_instruction (instructions (em s)) addr (fun i => set_p4 i p)) (labels (em s)) (patches (em s)) (next_label (em s))) (reg s)).
Definition goto (l : Label) : G unit := addr ← emit (instruction OpGoto 0 0 0); patch_p2 addr l.

(** An instruction whose [P2] is the address of a label. *)
Definition emit_jump (i : Instruction) (l : Label) : G unit := addr ← emit i; patch_p2 addr l.

(** [finish]: every patch whose label is placed sets [P2] to its address, cast
    to 32 bits. *)
Definition apply_patch (ls : gmap Label Z) (code : list Instruction) (p : Z * Label) : list Instruction :=
  match ls !! p.2 with
  | Some resolved => update_instruction code p.1 (fun i => set_p2 i (as_i32 resolved))
  | None => code
  end.
Definition finish (e : Emitter) : Program := fold_left (apply_patch (labels e)) (patches e) (instructions e).

(** ** Registers *)

Definition alloc : G Z := fun s =>
  (Ok (ra_next (reg s)), MkGen (em s) (MkRegAlloc (i32_sat_add (ra_next (reg s)) 1) (next_param (reg s)) (next_cursor (reg s)))).
Definition peek_register : G Z := fun s => (Ok (ra_next (reg s)), s).
Definition alloc_cursor : G Z := fun s =>
  (Ok (next_cursor (reg s)), MkGen (em s) (MkRegAlloc (ra_next (reg s)) (next_param (reg s)) (i32_sat_add (next_cursor (reg s)) 1))).
Definition anonymous_param : G Z := fun s =>
  let n := sat_add32 (next_param (reg s)) 1 in (Ok n, MkGen (em s) (MkRegAlloc (ra_next (reg s)) n (next_cursor (reg s)))).
Definition numbered_param (n : Z) : G Z := fun s =>
  (Ok n, MkGen (em s) (MkRegAlloc (ra_next (reg s)) (Z.max (next_param (reg s)) n) (next_cursor (reg s)))).

Definition p4_coll_seq (collation : Collation) (affinity : Affinity) : P4 := P4CollSeq collation (to_p4_byte affinity).

(** ** Scopes *)

(** [stats], the planner's statistics of the table, is not read here. *)
Record TableBinding := MkBinding {
  tb_alias : option str; tb_name : str; tb_schema : TableSchema; tb_cursor : Z; tb_forced_null : bool }.

Definition matches_qualifier (b : TableBinding) (table : str) : bool :=
  match tb_alias b with
  | Some alias => eq_ignore_ascii_case alias table
  | None => eq_ignore_ascii_case (tb_name b) table
  end.

(** The maps of hoisted and memoised subqueries, keyed by the address of a
    syntax node, are read only when a subquery is compiled. *)
Inductive Scope : Type := MkScope (tables : list TableBinding) (catalog : list TableSchema) (outer : option Scope) (dedup_star : list (list str)).
Definition sc_tables (s : Scope) : list TableBinding := let 'MkScope tables _ _ _ := s in tables.

Definition single (schema : TableSchema) (cursor : Z) : Scope := MkScope [MkBinding None (ts_name schema) schema cursor false] [] None [[]].
Definition with_catalog (s : Scope) (catalog : list TableSchema) : Scope := let 'MkScope t _ o d := s in MkScope t catalog o d.
Definition with_outer (s outer : Scope) : Scope := let 'MkScope t c _ d := s in MkScope t c (Some outer) d.

(** More than one binding with the column is ambiguous. *)
Fixpoint find_unique (name : str) (bindings : list TableBinding) (i : Z) (found : option Z) : result CodegenError (option Z) :=
  match bindings with
  | [] => Ok found
  | b :: rest =>
    if bool_decide (is_Some (column_index (tb_schema b) name)) then
      match found with
      | Some _ => Err (AmbiguousColumn name)
      | None => find_unique name rest (i + 1) (Some i)
      end
    else find_unique name rest (i + 1) found
  end.

Definition resolve_own_binding_index (s : Scope) (table : option str) (name : str) : result CodegenError Z :=
  match table with
  | Some table =>
    let unknown := UnknownColumn (table ++ lit "." ++ name) in
    idx ← ok_or (position (fun b => matches_qualifier b table) (sc_tables s)) unknown;
    binding ← ok_or (get_at (sc_tables s) idx) unknown;
    _ ← ok_or (column_index (tb_schema binding) name) unknown;
    Ok idx
  | None =>
    found ← find_unique name (sc_tables s) 0 None;
    ok_or found (UnknownColumn name)
  end.

Record Resolved := MkResolved { rs_cursor : Z; rs_index : Z; rs_schema : TableSchema; rs_forced_null : bool }.

Definition resolve_own (s : Scope) (table : option str) (name : str) : result CodegenError Resolved :=
  binding_idx ← resolve_own_binding_index s table name;
  binding ← ok_or (get_at (sc_tables s) binding_idx) (UnknownColumn name);
  Ok (MkResolved (tb_cursor binding) (default 0 (column_index (tb_schema binding) name)) (tb_schema binding) (tb_forced_null binding)).

Fixpoint resolve (s : Scope) (table : option str) (name : str) {struct s} : result CodegenError Resolved :=
  match resolve_own s table name with
  | Ok v => Ok v
  | Err own =>
    match s with
    | MkScope _ _ (Some outer) _ => resolve outer table name
    | _ => Err own
    end
  end.
