(* ===== verification/CodegenExpr.v ===== *)
(** * Compiling expressions ([src/codegen/expr/cond.rs],
    [src/codegen/expr/value.rs])

    [compile_cond] compiles a condition to jumps, [compile_value] an expression
    into a register.  The two call each other, also on the same expression and
    on comparisons made up for BETWEEN and CASE: they recurse on fuel. *)

From stdpp Require Import prelude list numbers gmap.
From Stdlib Require Import ZArith Lia.
From S2P Require Import Prelude Varint Text Record Float ValueOrder Format Coerce Functions Tokenizer Ast Program Codegen.

Local Open Scope Z_scope.

(** ** What is known of an expression before it is compiled *)

Definition is_aggregate_call (name : str) (args : FunctionArgs) : bool :=
  let arity := match args with FaStar => 0 | FaList l => len l end in
  let name := map to_ascii_lowercase name in
  if existsb (str_eqb name) [lit "avg"; lit "count"; lit "group_concat"; lit "string_agg"; lit "sum"; lit "total"] then true
  else if existsb (str_eqb name) [lit "max"; lit "min"] then arity <=? 1
  else false.

Definition column_affinity (scope : Scope) (table : option str) (name : str) : option Affinity :=
  match resolve scope table name with
  | Ok r => affinity_of <$> get_at (ts_column_types (rs_schema r)) (rs_index r)
  | Err _ => None
  end.
Fixpoint expr_affinity (scope : Scope) (e : Expr) : option Affinity :=
  match e with
  | MkExpr (EColumn table _ name) _ => column_affinity scope table name
  | MkExpr (ECast _ type_name) _ => Some (affinity_of type_name)
  | MkExpr (EParen inner) _ => expr_affinity scope inner
  | _ => None
  end.

Definition collation_named (collation : str) : option Collation :=
  if eq_ignore_ascii_case collation (lit "BINARY") then Some CBinary
  else if eq_ignore_ascii_case collation (lit "NOCASE") then Some CNoCase
  else if eq_ignore_ascii_case collation (lit "RTRIM") then Some CRTrim
  else None.
Fixpoint collation_of (e : Expr) : option Collation :=
  match e with
  | MkExpr (ECollate _ collation) _ => collation_named collation
  | MkExpr (EParen inner) _ => collation_of inner
  | _ => None
  end.

Definition column_collation (scope : Scope) (table : option str) (name : str) : option Collation :=
  match resolve scope table name with
  | Ok r => get_at (ts_column_collations (rs_schema r)) (rs_index r)
  | Err _ => None
  end.
Fixpoint expr_collation (scope : Scope) (e : Expr) : option Collation :=
  match collation_of e with
  | Some c => Some c
  | None =>
    match e with
    | MkExpr (EColumn table _ name) _ => column_collation scope table name
    | MkExpr (EParen inner) _ => expr_collation scope inner
    | _ => None
    end
  end.

(** [Option::or_else]. *)
Definition or_else {A} (o p : option A) : option A := match o with Some _ => o | None => p end.

(** The collation and affinity of a comparison. *)
Definition operand_collation (scope : Scope) (lhs rhs : Expr) : option Collation :=
  or_else (collation_of lhs) (or_else (collation_of rhs) (or_else (expr_collation scope lhs) (expr_collation scope rhs))).
Definition operand_affinity (scope : Scope) (lhs rhs : Expr) : Affinity := comparison_affinity (expr_affinity scope lhs) (expr_affinity scope rhs).
Definition comparison_p4 (scope : Scope) (lhs rhs : Expr) : P4 :=
  p4_coll_seq (default CBinary (operand_collation scope lhs rhs)) (operand_affinity scope lhs rhs).

Fixpoint cost_class (e : Expr) : Z :=
  match e with
  | MkExpr k _ =>
    match k with
    | EParen inner => cost_class inner
    | ELiteral _ | EParam _ | EColumn _ _ _ => 0
    | EUnary _ inner => Z.max (cost_class inner) 1
    | EBinary op lhs rhs => Z.max (Z.max (cost_class lhs) (cost_class rhs)) (match op with BAnd | BOr => 0 | _ => 1 end)
    | EFunctionCall _ _ _ => 2
    | ESubquery _ | EExists _ _ | EInSubquery _ _ _ | EInSubqueryMulti _ _ _ => 3
    | _ => 1
    end
  end.
Definition rhs_is_cheaper (lhs rhs : Expr) : bool := cost_class rhs <? cost_class lhs.
(** The operands of AND and OR in the order they are compiled. *)
Definition cheapest_first (lhs rhs : Expr) : Expr * Expr := if rhs_is_cheaper lhs rhs then (rhs, lhs) else (lhs, rhs).

(** ** Emitting the last jump of a condition *)

Definition ensure_label (t : Target) : G (Label * bool) :=
  match t with
  | Jump l => mret (l, false)
  | Fallthrough => l ← new_label; mret (l, true)
  end.
Definition place_if (is_new : bool) (l : Label) : G unit := if is_new then place l else mret tt.

Definition finish_bool (t f : Target) (emit_false_jump : Label -> G unit) : G unit :=
  match t, f with
  | Fallthrough, Jump f => emit_false_jump f
  | Jump t, Fallthrough => synth ← new_label; _ ← emit_false_jump synth; _ ← goto t; place synth
  | Jump t, Jump f => _ ← emit_false_jump f; goto t
  | Fallthrough, Fallthrough => synth ← new_label; _ ← emit_false_jump synth; place synth
  end.

Definition finish_truthy (r : Z) (targets : CondTargets) : G unit :=
  match on_null targets with
  | NullFalse => finish_bool (on_true targets) (on_false targets) (fun l => emit_jump (instruction OpIfNot r 0 1) l)
  | NullTrue =>
    '(t, is_new) ← ensure_label (on_true targets);
    _ ← emit_jump (instruction OpIsNull r 0 0) t;
    _ ← finish_bool (Jump t) (on_false targets) (fun l => emit_jump (instruction OpIfNot r 0 0) l);
    place_if is_new t
  end.

Definition compile_always_false (t f : Target) : G unit := match f with Jump l => goto l | Fallthrough => mret tt end.

Definition compare_opcode (op : BinaryOp) (targets : CondTargets) : option (Opcode * CondTargets) :=
  match op with
  | BNe => Some (OpEq, negate targets)
  | BEq => Some (OpEq, targets)
  | BLt => Some (OpLt, targets)
  | BLe => Some (OpLe, targets)
  | BGt => Some (OpGt, targets)
  | BGe => Some (OpGe, targets)
  | _ => None
  end.
Definition emit_compare_false_jump (op : BinaryOp) (lhs rhs : Z) (p : P4) (targets : CondTargets) : G unit :=
  match compare_opcode op targets with
  | None => throw (Unsupported (lit "emit_compare_false_jump called with a non-comparison operator"))
  | Some (opcode, targets) =>
    '(t, is_new) ← ensure_label (on_true targets);
    _ ← match on_null targets with
        | NullTrue => _ ← emit_jump (instruction OpIsNull lhs 0 0) t; emit_jump (instruction OpIsNull rhs 0 0) t
        | NullFalse => mret tt
        end;
    _ ← emit_jump (instruction_p4 opcode lhs 0 rhs p) t;
    _ ← match on_false targets with Jump f => goto f | Fallthrough => mret tt end;
    place_if is_new t
  end.

(** ** Columns and literals *)

Definition does_not_fit (idx : Z) : CodegenError := Unsupported (lit "column index " ++ to_string idx ++ lit " does not fit in a P2 operand").

Definition emit_column_read (schema : TableSchema) (cursor idx dest : Z) : G unit :=
  if bool_decide (ts_rowid_alias schema = Some idx) then _ ← emit (instruction OpRowid cursor dest 0); mret tt else
  p2 ← lift (ok_or (i32_try_from idx) (does_not_fit idx));
  _ ← emit (instruction OpColumn cursor p2 dest);
  match get_at (ts_column_types schema) idx with
  | Some t => if bool_decide (affinity_of t = AffReal) then _ ← emit (instruction OpRealAffinity dest 0 0); mret tt else mret tt
  | None => mret tt
  end.

Definition blob_too_long (n : Z) : CodegenError := Unsupported (lit "blob literal of " ++ to_string n ++ lit " bytes does not fit in a P1 operand").

(** The instruction that loads a literal; NULL loads nothing into a register
    that was never written. *)
Definition emit_literal (l : Literal) (r : Z) : G unit :=
  match l with
  | LInteger i =>
    _ ← emit (match i32_try_from i with Some p1 => instruction OpInteger p1 r 0 | None => instruction_p4 OpInt64 0 r 0 (P4Int i) end); mret tt
  | LTrue => _ ← emit (instruction OpInteger 1 r 0); mret tt
  | LFalse => _ ← emit (instruction OpInteger 0 r 0); mret tt
  | LStr s => _ ← emit (instruction_p4 OpString8 0 r 0 (P4Str s)); mret tt
  | LFloat f => _ ← emit (instruction_p4 OpReal 0 r 0 (P4Real f)); mret tt
  | LBlob bytes =>
    n ← lift (ok_or (i32_try_from (len bytes)) (blob_too_long (len bytes)));
    _ ← emit (instruction_p4 OpBlob n r 0 (P4Blob bytes)); mret tt
  | LNull => mret tt
  end.

Definition compile_param (kind : ParamKind) : G Z :=
  r ← alloc;
  index ← match kind with
          | PkAnonymous => n ← anonymous_param; mret (Some n)
          | PkNumbered n => n ← numbered_param n; mret (Some n)
          | _ => mret None
          end;
  match index with
  | None => mret r
  | Some index =>
    p1 ← lift (ok_or (i32_try_from index) (Unsupported (lit "parameter index " ++ to_string index ++ lit " is out of range")));
    _ ← emit (instruction OpVariable p1 r 0);
    mret r
  end.

Definition compile_column (scope : Scope) (table : option str) (name : str) (dest : G Z) : G Z :=
  r ← lift (resolve scope table name);
  d ← dest;
  _ ← (if rs_forced_null r then _ ← emit (instruction OpNull 0 d 0); mret tt else emit_column_read (rs_schema r) (rs_cursor r) (rs_index r) d);
  mret d.

(** [compile] of every element, in order. *)
Fixpoint compile_all {A B} (compile : A -> G B) (l : list A) : G (list B) :=
  match l with
  | [] => mret []
  | x :: l => y ← compile x; ys ← compile_all compile l; mret (y :: ys)
  end.

(** [iter().enumerate().all(|(i, r)| r == first.saturating_add(i))]. *)
Fixpoint contiguous_from (first i : Z) (regs : list Z) : bool :=
  match regs with
  | [] => true
  | r :: regs => (r =? i32_sat_add first i) && contiguous_from first (i + 1) regs
  end.

(** Copies registers into a fresh run unless they already are one; the first
    register of the run. *)
Definition contiguous_run (first : Z) (regs : list Z) : G Z :=
  if contiguous_from first 0 regs then mret first else
  dests ← compile_all (fun _ => alloc) regs;
  _ ← for_each (zip regs dests) (fun '(r, dest) => _ ← emit (instruction OpCopy r dest 0); mret tt);
  mret (default first (head dests)).

Definition function_descriptor (name : str) (arity : Z) : str := name ++ lit "(" ++ to_string arity ++ lit ")".

Fixpoint is_definite (e : Expr) : bool :=
  match e with
  | MkExpr (EParen inner) _ => is_definite inner
  | MkExpr (EIs _ _ _) _ | MkExpr (EIsNull _ _) _ | MkExpr (EExists _ _) _ => true
  | _ => false
  end.

Definition arithmetic_opcode (op : BinaryOp) : option Opcode :=
  match op with
  | BAdd => Some OpAdd | BSub => Some OpSubtract | BMul => Some OpMultiply | BDiv => Some OpDivide | BMod => Some OpRemainder
  | BBitAnd => Some OpBitAnd | BBitOr => Some OpBitOr | BShl => Some OpShiftLeft | BShr => Some OpShiftRight | BConcat => Some OpConcat
  | _ => None
  end.
(** The opcodes that compute [r[P2] op r[P1]] get their operands swapped. *)
Definition binary_instruction (opcode : Opcode) (l r dest : Z) : Instruction :=
  match opcode with
  | OpSubtract | OpDivide | OpRemainder | OpShiftLeft | OpShiftRight | OpConcat => instruction opcode r l dest
  | _ => instruction opcode l r dest
  end.

(** ** The subquery compiler ([src/codegen/subquery.rs]), not modelled *)
Record SubqueryCompiler := MkSubqueries {
  compile_scalar : Scope -> Select -> G Z;
  compile_exists : Scope -> Select -> bool -> CondTargets -> G unit;
  compile_in_subquery : Scope -> Expr -> Select -> bool -> CondTargets -> G unit;
  compile_in_subquery_multi : Scope -> list Expr -> Select -> bool -> CondTargets -> G unit }.

Section Compile.
Context (sub : SubqueryCompiler).

(** ** Pieces of the two compilers, with the recursive calls as arguments *)

Section Pieces.
Context (value : Scope -> Expr -> G Z) (cond : Scope -> Expr -> CondTargets -> G unit) (scope : Scope).

Definition cond_and (lhs rhs : Expr) (targets : CondTargets) : G unit :=
  let '(first, second) := cheapest_first lhs rhs in
  '(false_label, is_new) ← ensure_label (on_false targets);
  let operand := with_false targets (Jump false_label) in
  _ ← cond scope first (with_true operand Fallthrough);
  _ ← cond scope second operand;
  place_if is_new false_label.

Definition cond_or (lhs rhs : Expr) (targets : CondTargets) : G unit :=
  let '(first, second) := cheapest_first lhs rhs in
  '(true_label, is_new) ← ensure_label (on_true targets);
  let operand := with_true targets (Jump true_label) in
  _ ← cond scope first (with_false operand Fallthrough);
  _ ← cond scope second operand;
  place_if is_new true_label.

Definition cond_compare (op : BinaryOp) (lhs rhs : Expr) (targets : CondTargets) : G unit :=
  l ← value scope lhs;
  r ← value scope rhs;
  emit_compare_false_jump op l r (comparison_p4 scope lhs rhs) targets.

Definition cond_is (lhs rhs : Expr) (negated : bool) (targets : CondTargets) : G unit :=
  let '(t, f) := if negated then (on_false targets, on_true targets) else (on_true targets, on_false targets) in
  l ← value scope lhs;
  r ← value scope rhs;
  result ← alloc;
  both_null ← new_label;
  done ← new_label;
  _ ← emit_jump (instruction OpIsNull l 0 0) both_null;
  eq_true ← new_label;
  _ ← emit_jump (instruction OpEq l 0 r) eq_true;
  _ ← emit (instruction OpInteger 0 result 0);
  _ ← goto done;
  _ ← place eq_true;
  _ ← emit (instruction OpInteger 1 result 0);
  _ ← goto done;
  _ ← place both_null;
  r_null ← new_label;
  _ ← emit_jump (instruction OpIsNull r 0 0) r_null;
  _ ← emit (instruction OpInteger 0 result 0);
  _ ← goto done;
  _ ← place r_null;
  _ ← emit (instruction OpInteger 1 result 0);
  _ ← place done;
  finish_bool t f (fun l => emit_jump (instruction OpIfNot result 0 1) l).

Definition cond_is_null (inner : Expr) (negated : bool) (targets : CondTargets) : G unit :=
  r ← value scope inner;
  finish_bool (on_true targets) (on_false targets) (fun l => emit_jump (instruction (if negated then OpIsNull else OpNotNull) r 0 0) l).

Definition cond_between (inner lo hi : Expr) (negated : bool) (span : Span) (targets : CondTargets) : G unit :=
  let cmp op rhs := MkExpr (EBinary op inner rhs) span in
  if negated then
    '(t, is_new) ← ensure_label (on_true targets);
    let arm := with_true targets (Jump t) in
    _ ← cond scope (cmp BLt lo) (with_false arm Fallthrough);
    _ ← cond scope (cmp BGt hi) arm;
    place_if is_new t
  else
    '(f, is_new) ← ensure_label (on_false targets);
    let arm := with_false targets (Jump f) in
    _ ← cond scope (cmp BGe lo) (with_true arm Fallthrough);
    _ ← cond scope (cmp BLe hi) arm;
    place_if is_new f.

Definition in_item (inner : Expr) (l saw_null : Z) (found_label : Label) (item : Expr) : G unit :=
  r ← value scope item;
  item_null ← new_label;
  skip ← new_label;
  _ ← emit_jump (instruction OpIsNull r 0 0) item_null;
  _ ← emit_jump (instruction_p4 OpEq l 0 r (comparison_p4 scope inner item)) found_label;
  _ ← goto skip;
  _ ← place item_null;
  _ ← emit (instruction OpInteger 1 saw_null 0);
  place skip.

Definition cond_in (inner : Expr) (items : list Expr) (negated : bool) (targets : CondTargets) : G unit :=
  match items with
  | [] =>
    let '(t, f) := if negated then (on_false targets, on_true targets) else (on_true targets, on_false targets) in
    compile_always_false t f
  | _ =>
    l ← value scope inner;
    saw_null ← alloc;
    _ ← emit (instruction OpInteger 0 saw_null 0);
    '(true_label, true_is_new) ← ensure_label (on_true targets);
    '(false_label, false_is_new) ← ensure_label (on_false targets);
    let '(found_label, unmatched_label) := if negated then (false_label, true_label) else (true_label, false_label) in
    let null_label := match on_null targets with NullTrue => true_label | NullFalse => false_label end in
    _ ← emit_jump (instruction OpIsNull l 0 0) null_label;
    _ ← for_each items (in_item inner l saw_null found_label);
    _ ← emit_jump (instruction OpIfNot saw_null 0 0) unmatched_label;
    _ ← goto null_label;
    _ ← place_if false_is_new false_label;
    place_if true_is_new true_label
  end.

Definition cond_value (e : Expr) (targets : CondTargets) : G unit := r ← value scope e; finish_truthy r targets.

Definition value_function (name : str) (args : FunctionArgs) : G Z :=
  if is_aggregate_call name args then throw (Unsupported (lit "aggregate function " ++ map to_ascii_lowercase name)) else
  let arg_exprs := match args with FaStar => [] | FaList l => l end in
  arg_regs ← compile_all (value scope) arg_exprs;
  first ← match arg_regs with r :: _ => mret r | [] => alloc end;
  first ← contiguous_run first arg_regs;
  dest ← alloc;
  _ ← emit (instruction_p4 OpFunction 0 first dest (P4Str (function_descriptor (map to_ascii_lowercase name) (len arg_exprs))));
  mret dest.

Definition value_like (inner pattern : Expr) (glob negated : bool) (escape : option Expr) : G Z :=
  let '(name, arity) := match escape with
                        | Some _ => if negb glob then (lit "like", 3) else (lit "glob", 2)
                        | None => if glob then (lit "glob", 2) else (lit "like", 2)
                        end in
  pat_r ← value scope pattern;
  txt_r ← value scope inner;
  if negb (txt_r =? i32_sat_add pat_r 1) then throw (Unsupported (lit "LIKE/GLOB text operand did not land in the register contiguous with its pattern operand")) else
  _ ← match escape with
      | None => mret tt
      | Some e =>
        esc_r ← value scope e;
        if negb (esc_r =? i32_sat_add pat_r 2)
        then throw (Unsupported (lit "LIKE ESCAPE operand did not land in the register contiguous with its pattern/text operands"))
        else mret tt
      end;
  dest ← alloc;
  _ ← emit (instruction_p4 OpFunction 0 pat_r dest (P4Str (function_descriptor name arity)));
  if negated then out ← alloc; _ ← emit (instruction OpNot dest out 0); mret out else mret dest.

Definition value_unary (op : UnaryOp) (inner : Expr) : G Z :=
  match op with
  | UPlus => value scope inner
  | UMinus =>
    r ← value scope inner;
    zero ← alloc;
    _ ← emit (instruction OpInteger 0 zero 0);
    dest ← alloc;
    _ ← emit (instruction OpSubtract r zero dest);
    mret dest
  | UNot => r ← value scope inner; dest ← alloc; _ ← emit (instruction OpNot r dest 0); mret dest
  | UBitNot => r ← value scope inner; dest ← alloc; _ ← emit (instruction OpBitNot r dest 0); mret dest
  end.

Definition value_binary (opcode : Opcode) (lhs rhs : Expr) : G Z :=
  l ← value scope lhs;
  r ← value scope rhs;
  dest ← alloc;
  _ ← emit (binary_instruction opcode l r dest);
  mret dest.

Definition value_cast (inner : Expr) (type_name : str) : G Z :=
  r ← value scope inner;
  _ ← emit (instruction OpCast r (to_p4_byte (affinity_of type_name)) 0);
  mret r.

(** [emit_branch_into]. *)
Definition emit_branch_into (e : Expr) (dest : Z) : G unit :=
  match e_kind e with
  | ELiteral LNull => _ ← emit (instruction OpNull 0 dest 0); mret tt
  | ELiteral l => emit_literal l dest
  | EColumn table _ name => _ ← compile_column scope table name (mret dest); mret tt
  | _ => r ← value scope e; _ ← emit (instruction OpCopy r dest 0); mret tt
  end.

Definition case_condition (operand : option Expr) (when_expr : Expr) : Expr :=
  match operand with
  | Some op_expr => MkExpr (EBinary BEq op_expr when_expr) (e_span when_expr)
  | None => when_expr
  end.
Definition case_arm (operand : option Expr) (dest : Z) (end_label : Label) (arm : Expr * Expr) : G unit :=
  next ← new_label;
  _ ← cond scope (case_condition operand arm.1) (null_is_false Fallthrough (Jump next));
  _ ← emit_branch_into arm.2 dest;
  _ ← goto end_label;
  place next.
Definition value_case (operand : option Expr) (whens : list (Expr * Expr)) (else_ : option Expr) : G Z :=
  dest ← alloc;
  end_label ← new_label;
  _ ← for_each whens (case_arm operand dest end_label);
  _ ← match else_ with
      | Some e => emit_branch_into e dest
      | None => _ ← emit (instruction OpNull 0 dest 0); mret tt
      end;
  _ ← place end_label;
  mret dest.

Definition compile_bool_to_value (e : Expr) : G Z :=
  dest ← alloc;
  true_label ← new_label;
  end_label ← new_label;
  if is_definite e then
    _ ← cond scope e (null_is_false (Jump true_label) Fallthrough);
    _ ← emit (instruction OpInteger 0 dest 0);
    _ ← goto end_label;
    _ ← place true_label;
    _ ← emit (instruction OpInteger 1 dest 0);
    _ ← place end_label;
    mret dest
  else
    null_label ← new_label;
    false_label ← new_label;
    _ ← cond scope e (null_is_false (Jump true_label) Fallthrough);
    _ ← cond scope e (null_is_true (Jump null_label) (Jump false_label));
    _ ← place false_label;
    _ ← emit (instruction OpInteger 0 dest 0);
    _ ← goto end_label;
    _ ← place null_label;
    _ ← emit (instruction OpNull 0 dest 0);
    _ ← goto end_label;
    _ ← place true_label;
    _ ← emit (instruction OpInteger 1 dest 0);
    _ ← place end_label;
    mret dest.
End Pieces.

(** ** The two compilers *)

Fixpoint compile_cond (fuel : nat) (scope : Scope) (e : Expr) (targets : CondTargets) {struct fuel} : G unit :=
  match fuel with
  | O => throw FuelExhausted
  | S fuel =>
    let value := compile_value fuel in
    let cond := compile_cond fuel in
    match e_kind e with
    | EParen inner => cond scope inner targets
    | EUnary UNot inner => cond scope inner (negate targets)
    | EBinary op lhs rhs =>
      match op with
      | BAnd => cond_and cond scope lhs rhs targets
      | BOr => cond_or cond scope lhs rhs targets
      | BEq | BNe | BLt | BLe | BGt | BGe => cond_compare value scope op lhs rhs targets
      | _ => cond_value value scope e targets
      end
    | EIs lhs rhs negated => cond_is value scope lhs rhs negated targets
    | EIsNull inner negated => cond_is_null value scope inner negated targets
    | EBetween inner lo hi negated => cond_between cond scope inner lo hi negated (e_span e) targets
    | EIn inner items negated => cond_in value scope inner items negated targets
    | EExists subquery negated => compile_exists sub scope subquery negated targets
    | EInSubquery inner subquery negated => compile_in_subquery sub scope inner subquery negated targets
    | EInSubqueryMulti exprs subquery negated => compile_in_subquery_multi sub scope exprs subquery negated targets
    | _ => cond_value value scope e targets
    end
  end
with compile_value (fuel : nat) (scope : Scope) (e : Expr) {struct fuel} : G Z :=
  match fuel with
  | O => throw FuelExhausted
  | S fuel =>
    let value := compile_value fuel in
    let cond := compile_cond fuel in
    match e_kind e with
    | EParen inner => value scope inner
    | ECollate inner _ => value scope inner
    | ELiteral l => r ← alloc; _ ← emit_literal l r; mret r
    | EParam kind => compile_param kind
    | EColumn table _ name => compile_column scope table name alloc
    | EFunctionCall name _ args => value_function value scope name args
    | ELike inner pattern glob negated escape => value_like value scope inner pattern glob negated escape
    | EUnary op inner => value_unary value scope op inner
    | EBinary op lhs rhs =>
      match arithmetic_opcode op with
      | Some opcode => value_binary value scope opcode lhs rhs
      | None => compile_bool_to_value cond scope e
      end
    | ECast inner type_name => value_cast value scope inner type_name
    | ECase operand whens else_ => value_case value cond scope operand whens else_
    | EIs _ _ _ | EIsNull _ _ | EBetween _ _ _ _ | EIn _ _ _ | EExists _ _ | EInSubquery _ _ _ | EInSubqueryMulti _ _ _ =>
      compile_bool_to_value cond scope e
    | ESubquery subquery => compile_scalar sub scope subquery
    end
  end.
End Compile.
