(* ===== verification/Eval.v ===== *)
(** * What an expression means

    A reference evaluator of expressions over one row, by recursion on the
    syntax, in SQL's three-valued logic: NULL propagates through operators and
    comparisons, AND and OR are decided by a dominating operand, CASE takes the
    first arm whose condition is true.  [None] is a run-time error of a
    function, or a construct the evaluator does not cover (subqueries, bare [?]
    parameters).  In two places it follows the program where SQL says
    otherwise: [IS] compares with neither the collation nor the affinity that
    [=] applies, and a named parameter ([:a], [@a], [$a]) is NULL, since only
    numbered ones are bound. *)

From stdpp Require Import prelude list numbers gmap.
From Stdlib Require Import ZArith Lia.
From S2P Require Import Prelude Varint Text Record Float ValueOrder Format Coerce Functions Tokenizer Ast Program Vm Codegen CodegenExpr.

Local Open Scope Z_scope.

(** The row the columns are read from, by cursor and column number, the rowid
    of each cursor's row, and the bound parameters. *)
Record Row := MkRow { row_column : Z -> Z -> Value; row_rowid : Z -> Value; row_params : list Value }.

(** ** Truth *)

Definition truth (v : Value) : option bool := match v with Null => None | _ => Some (negb (is_falsy v)) end.
Definition of_truth (t : option bool) : Value := match t with None => Null | Some b => Integer (b2z b) end.

(** ** Operators *)

Definition null_or (f : Value -> Value -> Value) (a b : Value) : Value := if is_null a || is_null b then Null else f a b.

Definition arithmetic (op : BinaryOp) : option (Value -> Value -> Value) :=
  match op with
  | BAdd => Some Coerce.checked_add | BSub => Some checked_sub | BMul => Some checked_mul | BDiv => Some checked_div | BMod => Some checked_rem
  | BBitAnd => Some bit_and | BBitOr => Some bit_or | BShl => Some shift_left | BShr => Some shift_right | BConcat => Some Coerce.concat
  | _ => None
  end.

Definition holds (op : BinaryOp) (o : comparison) : bool :=
  match op with BEq => is_eq o | BNe => negb (is_eq o) | BLt => is_lt o | BLe => is_le o | BGt => is_gt o | BGe => is_ge o | _ => false end.

(** Both operands take the affinity of the comparison first. *)
Definition compare_values_as (c : Collation) (a : Affinity) (x y : Value) : comparison := compare (apply_affinity x a) (apply_affinity y a) c.

Definition sql_compare (c : Collation) (a : Affinity) (op : BinaryOp) (x y : Value) : option bool :=
  if is_null x || is_null y then None else Some (holds op (compare_values_as c a x y)).

(** [x IN (items)], the comparisons already made. *)
Definition sql_in (found : list (option bool)) : option bool :=
  if existsb (fun t => bool_decide (t = Some true)) found then Some true
  else if existsb (fun t => bool_decide (t = None)) found then None
  else Some false.

Definition sql_negate (negated : bool) (t : option bool) : option bool := if negated then sql_not t else t.

Section Eval.
Context (scope : Scope) (row : Row).

(** The comparison of two operand expressions with their values. *)
Definition compare_exprs (op : BinaryOp) (lhs rhs : Expr) (x y : Value) : option bool :=
  sql_compare (default CBinary (operand_collation scope lhs rhs)) (operand_affinity scope lhs rhs) op x y.

(** A REAL column may be stored as an integer. *)
Definition stored_as_real (schema : TableSchema) (idx : Z) : bool :=
  match get_at (ts_column_types schema) idx with Some t => bool_decide (affinity_of t = AffReal) | None => false end.
Definition column_value (r : Resolved) : Value :=
  if rs_forced_null r then Null
  else if bool_decide (ts_rowid_alias (rs_schema r) = Some (rs_index r)) then row_rowid row (rs_cursor r)
  else
    let v := row_column row (rs_cursor r) (rs_index r) in
    if stored_as_real (rs_schema r) (rs_index r) then apply_affinity v AffReal else v.

Definition literal_of (l : Literal) : Value :=
  match l with
  | LInteger i => Integer i | LFloat f => Real f | LStr s => VText s | LBlob b => Blob b | LNull => Null | LTrue => Integer 1 | LFalse => Integer 0
  end.

Definition param_value (kind : ParamKind) : option Value :=
  match kind with
  | PkAnonymous => None
  | PkNumbered n => Some (if 1 <=? n then default Null (get_at (row_params row) (n - 1)) else Null)
  | _ => Some Null
  end.

Definition to_option {E A} (r : result E A) : option A := match r with Ok a => Some a | Err _ => None end.

Definition sql_not_value (v : Value) : Value := match v with Null => Null | other => Integer (b2z (is_falsy other)) end.

Fixpoint eval (e : Expr) : option Value :=
  let 'MkExpr kind _ := e in
  match kind with
  | EParen inner | ECollate inner _ => eval inner
  | ELiteral l => Some (literal_of l)
  | EParam kind => param_value kind
  | EColumn table _ name => column_value <$> to_option (resolve scope table name)
  | EFunctionCall name _ args =>
    vs ← match args with FaStar => Some [] | FaList l => mapM eval l end;
    to_option (call name vs)
  | ELike inner pattern glob negated escape =>
    p ← eval pattern;
    t ← eval inner;
    esc ← match escape with None => Some [] | Some e => v ← eval e; Some (if glob then [] else [v]) end;
    v ← to_option (call (if glob then lit "glob" else lit "like") ([p; t] ++ esc));
    Some (if negated then sql_not_value v else v)
  | EUnary op inner =>
    v ← eval inner;
    Some (match op with
          | UPlus => v
          | UMinus => null_or checked_sub (Integer 0) v
          | UNot => sql_not_value v
          | UBitNot => match v with Null => Null | _ => bit_not v end
          end)
  | EBinary op lhs rhs =>
    x ← eval lhs;
    y ← eval rhs;
    Some (match op with
          | BAnd => of_truth (sql_and (truth x) (truth y))
          | BOr => of_truth (sql_or (truth x) (truth y))
          | _ => match arithmetic op with
                 | Some f => null_or f x y
                 | None => of_truth (compare_exprs op lhs rhs x y)
                 end
          end)
  | EIs lhs rhs negated =>
    x ← eval lhs;
    y ← eval rhs;
    Some (of_truth (sql_negate negated (Some (sql_is x y CBinary))))
  | EIsNull inner negated => v ← eval inner; Some (of_truth (sql_negate negated (Some (is_null v))))
  | EBetween inner lo hi negated =>
    x ← eval inner;
    l ← eval lo;
    h ← eval hi;
    Some (of_truth (sql_negate negated (sql_and (compare_exprs BGe inner lo x l) (compare_exprs BLe inner hi x h))))
  | EIn inner items negated =>
    match items with
    | [] => Some (of_truth (sql_negate negated (Some false)))
    | _ =>
      x ← eval inner;
      ys ← mapM eval items;
      Some (of_truth (sql_negate negated (sql_in (zip_with (fun item y => compare_exprs BEq inner item x y) items ys))))
    end
  | ECase operand whens else_ =>
    (fix arms (whens : list (Expr * Expr)) : option Value :=
       match whens with
       | [] => match else_ with Some e => eval e | None => Some Null end
       | (w, t) :: whens =>
         c ← match operand with
             | Some o => x ← eval o; y ← eval w; Some (compare_exprs BEq o w x y)
             | None => truth <$> eval w
             end;
         if bool_decide (c = Some true) then eval t else arms whens
       end) whens
  | ECast inner type_name => v ← eval inner; Some (cast_to v (affinity_of type_name))
  | ESubquery _ | EExists _ _ | EInSubquery _ _ _ | EInSubqueryMulti _ _ _ => None
  end.

End Eval.

(** ** The expressions the compiler theorem covers

    No subquery, no bare [?], and function names the descriptor
    ["name(arity)"] can carry. *)
Definition name_ok (name : str) : bool := forallb (fun c => negb (c =? 40)) name.

Fixpoint covered (e : Expr) : bool :=
  let 'MkExpr kind _ := e in
  match kind with
  | EParen inner | ECollate inner _ | EUnary _ inner | EIsNull inner _ | ECast inner _ => covered inner
  | ELiteral _ | EColumn _ _ _ => true
  | EParam kind => match kind with PkAnonymous => false | _ => true end
  | EFunctionCall name _ args => name_ok name && match args with FaStar => true | FaList l => forallb covered l end
  | ELike inner pattern _ _ escape => covered inner && covered pattern && match escape with None => true | Some e => covered e end
  | EBinary _ lhs rhs | EIs lhs rhs _ => covered lhs && covered rhs
  | EBetween inner lo hi _ => covered inner && covered lo && covered hi
  | EIn inner items _ => covered inner && forallb covered items
  | ECase operand whens else_ =>
    match operand with None => true | Some e => covered e end && forallb (fun '(w, t) => covered w && covered t) whens
    && match else_ with None => true | Some e => covered e end
  | ESubquery _ | EExists _ _ | EInSubquery _ _ _ | EInSubqueryMulti _ _ _ => false
  end.
