(* ===== verification/CodegenState.v ===== *)
(** * The states of code generation

    The generator's states as terms built by its primitives, the relation
    "this emitter is a stage of the finished one", what the finished program
    holds at an address, and the tactics that follow a generator through its
    states. *)

From stdpp Require Import prelude list numbers gmap.
From Stdlib Require Import ZArith Lia.
From S2P Require Import Prelude Varint Text Record Float ValueOrder Format Coerce Functions Tokenizer Ast Program Codegen CodegenExpr.

Local Open Scope Z_scope.

(** ** The primitives as functions of the state *)

Definition push (i : Instruction) (s : Gen) : Gen :=
  MkGen (MkEmitter (instructions (em s) ++ [i]) (labels (em s)) (patches (em s)) (next_label (em s))) (reg s).
Definition jump (i : Instruction) (l : Label) (s : Gen) : Gen :=
  MkGen (MkEmitter (instructions (em s) ++ [i]) (labels (em s)) (patches (em s) ++ [(here (em s), l)]) (next_label (em s))) (reg s).
Definition mark (l : Label) (s : Gen) : Gen :=
  MkGen (MkEmitter (instructions (em s)) (<[l := here (em s)]> (labels (em s))) (patches (em s)) (next_label (em s))) (reg s).
Definition declare (s : Gen) : Gen :=
  MkGen (MkEmitter (instructions (em s)) (labels (em s)) (patches (em s)) (sat_add (next_label (em s)) 1)) (reg s).
Definition grab (s : Gen) : Gen :=
  MkGen (em s) (MkRegAlloc (i32_sat_add (ra_next (reg s)) 1) (next_param (reg s)) (next_cursor (reg s))).
Definition with_next_param (n : Z) (s : Gen) : Gen := MkGen (em s) (MkRegAlloc (ra_next (reg s)) n (next_cursor (reg s))).

Definition pos (s : Gen) : Z := here (em s).
Definition nreg (s : Gen) : Z := ra_next (reg s).
Definition nlab (s : Gen) : Z := next_label (em s).
Definition lab (s : Gen) (l : Label) : option Z := labels (em s) !! l.

Lemma pos_push i s : pos (push i s) = pos s + 1.
Proof. unfold pos, here, push. cbn. by rewrite len_app. Qed.
Lemma pos_jump i l s : pos (jump i l s) = pos s + 1.
Proof. unfold pos, here, jump. cbn. by rewrite len_app. Qed.
Lemma pos_mark l s : pos (mark l s) = pos s.
Proof. done. Qed.
Lemma pos_declare s : pos (declare s) = pos s.
Proof. done. Qed.
Lemma pos_grab s : pos (grab s) = pos s.
Proof. done. Qed.
Lemma pos_nonneg s : 0 <= pos s.
Proof. unfold pos, here, len. lia. Qed.
Create Rewrite HintDb gen.
#[export] Hint Rewrite pos_push pos_jump pos_mark pos_declare pos_grab : gen.

(** ** Well-formed states, bounds, stages *)

(** Patches name instructions that exist, labels are below the counter and
    placed inside the code; registers are not negative. *)
Definition gen_wf (s : Gen) : Prop :=
  Forall (fun p => 0 <= p.1 < pos s) (patches (em s)) /\ (forall l a, lab s l = Some a -> l < nlab s /\ 0 <= a <= pos s) /\ 0 <= nreg s /\ 0 <= nlab s.

(** The code fits the machine's operands. *)
Definition gen_fits (s : Gen) : Prop := pos s <= I32_MAX /\ nlab s < U64_MAX /\ nreg s <= 1048576.

Definition mono (s s' : Gen) : Prop := pos s <= pos s' /\ nlab s <= nlab s' /\ nreg s <= nreg s'.

(** [s] is a stage on the way to [f]: later instructions and patches only
    concern later addresses, and a placed label stays. *)
Definition stage (s f : Gen) : Prop :=
  (exists more, instructions (em f) = instructions (em s) ++ more) /\
  (exists ps, patches (em f) = patches (em s) ++ ps /\ Forall (fun p => pos s <= p.1) ps) /\
  (forall l a, lab s l = Some a -> lab f l = Some a).

(** The counters are in the ranges of their types. *)
Definition counters_ok (s : Gen) : Prop := 0 <= nlab s <= U64_MAX /\ 0 <= nreg s <= I32_MAX.

(** What generating a piece of code does to the state. *)
Definition block (s s' : Gen) : Prop :=
  counters_ok s -> counters_ok s' /\ mono s s' /\
  (gen_wf s -> gen_fits s' -> gen_wf s' /\ stage s s' /\ forall l, l < nlab s -> lab s' l = lab s l).

Lemma mono_trans s1 s2 s3 : mono s1 s2 -> mono s2 s3 -> mono s1 s3.
Proof. unfold mono. lia. Qed.
Lemma fits_mono s s' : mono s s' -> gen_fits s' -> gen_fits s.
Proof. unfold mono, gen_fits. lia. Qed.

Lemma stage_refl s : stage s s.
Proof. split; [exists []; by rewrite app_nil_r|]. split; [exists []; split; [by rewrite app_nil_r|constructor]|done]. Qed.

Lemma stage_pos s f : stage s f -> pos s <= pos f.
Proof. intros ((more & E) & _). unfold pos, here. rewrite E, len_app. unfold len. lia. Qed.

Lemma stage_trans s1 s2 s3 : stage s1 s2 -> stage s2 s3 -> stage s1 s3.
Proof.
  intros A B. pose proof (stage_pos _ _ A) as Hp. destruct A as ((i1 & E1) & (q1 & P1 & F1) & L1). destruct B as ((i2 & E2) & (q2 & P2 & F2) & L2).
  split; [exists (i1 ++ i2); by rewrite E2, E1, app_assoc|]. split; [|by eauto].
  exists (q1 ++ q2). split; [by rewrite P2, P1, app_assoc|]. apply Forall_app. split; [done|]. eapply Forall_impl; [exact F2|]. cbn. intros. lia.
Qed.

Lemma block_refl s : block s s.
Proof. intros C. split; [done|]. split; [unfold mono; lia|]. intros W _. split; [done|]. split; [apply stage_refl|done]. Qed.

Lemma block_trans s1 s2 s3 : block s1 s2 -> block s2 s3 -> block s1 s3.
Proof.
  intros B1 B2 C1. destruct (B1 C1) as (C2 & M1 & D1). destruct (B2 C2) as (C3 & M2 & D2). split; [done|]. split; [by eapply mono_trans|]. intros W F.
  destruct (D1 W (fits_mono _ _ M2 F)) as (W2 & S2 & L2). destruct (D2 W2 F) as (W3 & S3 & L3).
  split; [done|]. split; [by eapply stage_trans|]. intros l Hl. rewrite L3; [by apply L2|]. destruct M1. lia.
Qed.

(** ** What each primitive does

    To the counters, the labels, well-formedness and the stages. *)

Lemma same_stage s s' : instructions (em s') = instructions (em s) -> patches (em s') = patches (em s) -> (forall l a, lab s l = Some a -> lab s' l = Some a) -> stage s s'.
Proof. intros E1 E2 L. split; [exists []; by rewrite app_nil_r|]. split; [exists []; split; [by rewrite app_nil_r|constructor]|done]. Qed.

Lemma facts_push i s s1 : s1 = push i s ->
  (pos s1 = pos s + 1 /\ nlab s1 = nlab s /\ nreg s1 = nreg s) /\ (forall l, lab s1 l = lab s l) /\ (gen_wf s -> gen_wf s1) /\ stage s s1.
Proof.
  intros ->. split; [by rewrite pos_push|]. split; [done|]. split.
  - intros (Wp & Wl & Wr & Wn). split; [|split; [|done]].
    + eapply Forall_impl; [exact Wp|]. cbn. intros p Hp. rewrite pos_push. lia.
    + intros l a Hl. rewrite pos_push. destruct (Wl l a Hl). unfold nlab in *. cbn in *. lia.
  - split; [by exists [i]|]. split; [exists []; split; [by rewrite app_nil_r|constructor]|done].
Qed.

Lemma facts_jump i l s s1 : s1 = jump i l s ->
  (pos s1 = pos s + 1 /\ nlab s1 = nlab s /\ nreg s1 = nreg s) /\ (forall l, lab s1 l = lab s l) /\ (gen_wf s -> gen_wf s1) /\ stage s s1.
Proof.
  intros ->. split; [by rewrite pos_jump|]. split; [done|]. split.
  - intros (Wp & Wl & Wr & Wn). split; [|split; [|done]].
    + cbn [jump em patches]. apply Forall_app. split.
      * eapply Forall_impl; [exact Wp|]. cbn. intros p Hp. rewrite pos_jump. lia.
      * apply Forall_singleton. cbn [fst]. rewrite pos_jump. pose proof (pos_nonneg s). unfold pos in *. lia.
    + intros m a Hm. rewrite pos_jump. destruct (Wl m a Hm). unfold nlab in *. cbn in *. lia.
  - split; [by exists [i]|]. split; [|done]. exists [(here (em s), l)]. split; [done|]. apply Forall_singleton. cbn. unfold pos. lia.
Qed.

Lemma facts_declare s s1 : s1 = declare s ->
  (pos s1 = pos s /\ nlab s1 = Z.min (nlab s + 1) U64_MAX /\ nreg s1 = nreg s) /\ (forall l, lab s1 l = lab s l) /\ (nlab s < U64_MAX -> gen_wf s -> gen_wf s1) /\ stage s s1.
Proof.
  intros ->. assert (E : nlab (declare s) = Z.min (nlab s + 1) U64_MAX) by done. split; [done|]. split; [done|]. split; [|by apply same_stage].
  intros Hlt (Wp & Wl & Wr & Wn). split; [exact Wp|]. split; [|split; [exact Wr|rewrite E; unfold U64_MAX; lia]].
  intros l a Hl. destruct (Wl l a Hl). rewrite E, pos_declare. lia.
Qed.

Lemma facts_grab s s1 : s1 = grab s ->
  (pos s1 = pos s /\ nlab s1 = nlab s /\ nreg s1 = i32_sat_add (nreg s) 1) /\ (forall l, lab s1 l = lab s l) /\ (gen_wf s -> gen_wf s1) /\ stage s s1.
Proof.
  intros ->. split; [done|]. split; [done|]. split; [|by apply same_stage].
  intros (Wp & Wl & Wr & Wn). split; [exact Wp|]. split; [exact Wl|]. split; [|done].
  unfold nreg in *. cbn. unfold i32_sat_add, I32_MIN, I32_MAX. lia.
Qed.

Lemma facts_param n s s1 : s1 = with_next_param n s ->
  (pos s1 = pos s /\ nlab s1 = nlab s /\ nreg s1 = nreg s) /\ (forall l, lab s1 l = lab s l) /\ (gen_wf s -> gen_wf s1) /\ stage s s1.
Proof. intros ->. split; [done|]. split; [done|]. split; [done|by apply same_stage]. Qed.

(** Placing a label that is in use and not yet placed. *)
Lemma facts_mark l s s1 : s1 = mark l s ->
  (pos s1 = pos s /\ nlab s1 = nlab s /\ nreg s1 = nreg s) /\ (forall m, m <> l -> lab s1 m = lab s m) /\ lab s1 l = Some (pos s) /\
  (l < nlab s -> gen_wf s -> gen_wf s1) /\ (lab s l = None -> stage s s1).
Proof.
  intros ->. split; [done|]. split; [intros m Hm; unfold lab; cbn; by rewrite lookup_insert_ne|]. split; [unfold lab; cbn; by rewrite lookup_insert_eq|]. split.
  - intros Hl (Wp & Wl & Wr & Wn). split; [exact Wp|]. split; [|done]. intros m a. unfold lab. cbn. destruct (decide (m = l)) as [->|].
    + rewrite lookup_insert_eq. intros [= <-]. pose proof (pos_nonneg s). unfold nlab, pos in *. cbn. split; [done|]. unfold here in *. cbn. lia.
    + rewrite lookup_insert_ne by done. apply Wl.
  - intros Hn. apply same_stage; [done|done|]. intros m a Hm. unfold lab in *. cbn. rewrite lookup_insert_ne; [done|]. intros ->. by rewrite Hn in Hm.
Qed.

Lemma unplaced s l : gen_wf s -> nlab s <= l -> lab s l = None.
Proof. intros (_ & Wl & _) Hl. destruct (lab s l) as [a|] eqn:E; [|done]. destruct (Wl l a E). lia. Qed.

(** ** What the finished program holds *)

Lemma apply_patch_other ls code p i : Z.to_nat p.1 <> i -> apply_patch ls code p !! i = code !! i.
Proof. intros Hne. unfold apply_patch, update_instruction. destruct (ls !! p.2); [|done]. by rewrite list_lookup_alter_ne. Qed.

Lemma patches_other ls ps : forall code i, Forall (fun p : Z * Label => Z.to_nat p.1 <> i) ps -> fold_left (apply_patch ls) ps code !! i = code !! i.
Proof.
  induction ps as [|p ps IH]; intros code i Hf; [done|]. apply Forall_cons in Hf as [Hp Hps]. cbn. rewrite IH by done. by apply apply_patch_other.
Qed.

Definition target (f : Gen) (l : Label) : Z := default 0 (lab f l).

Lemma finish_fold ls ps qs code i x : code !! i = Some x -> Forall (fun p : Z * Label => Z.to_nat p.1 <> i) ps ->
  fold_left (apply_patch ls) (ps ++ qs) code !! i = fold_left (apply_patch ls) qs (fold_left (apply_patch ls) ps code) !! i /\
  fold_left (apply_patch ls) ps code !! i = Some x.
Proof. intros E Hp. split; [by rewrite fold_left_app|]. by rewrite patches_other. Qed.

Lemma patch_addresses_below s : gen_wf s -> Forall (fun p : Z * Label => Z.to_nat p.1 <> length (instructions (em s))) (patches (em s)).
Proof. intros (Wp & _). eapply Forall_impl; [exact Wp|]. cbn. intros p Hp. unfold pos, here, len in Hp. lia. Qed.

Lemma lookup_at_end (s f : Gen) x (more : list Instruction) : instructions (em f) = (instructions (em s) ++ [x]) ++ more -> instructions (em f) !! length (instructions (em s)) = Some x.
Proof. intros ->. rewrite lookup_app_l by (rewrite length_app; cbn; lia). by apply list_lookup_middle. Qed.

Lemma fetch_nat (P : list Instruction) (n : nat) x : P !! n = Some x -> fetch P (Z.of_nat n) = Some x.
Proof.
  intros E. unfold fetch. rewrite get_at_Some; [by rewrite Nat2Z.id|]. pose proof (lookup_lt_Some _ _ _ E). unfold len. lia.
Qed.

Lemma fetch_push i s f : gen_wf s -> stage (push i s) f -> fetch (finish (em f)) (pos s) = Some i.
Proof.
  intros W ((more & E) & (ps & P & F) & _). apply fetch_nat. unfold finish. rewrite P. cbn [push em patches].
  destruct (finish_fold (labels (em f)) (patches (em s)) ps (instructions (em f)) _ i (lookup_at_end s f i more E) (patch_addresses_below s W)) as [-> E2].
  rewrite patches_other; [exact E2|]. eapply Forall_impl; [exact F|]. cbn. intros p Hp. rewrite pos_push in Hp. unfold pos, here, len in Hp. lia.
Qed.

Lemma set_p2_same i : p2 i = 0 -> set_p2 i 0 = i.
Proof. destruct i. cbn. by intros ->. Qed.

Lemma fetch_jump i l s f : p2 i = 0 -> gen_wf s -> stage (jump i l s) f -> fetch (finish (em f)) (pos s) = Some (set_p2 i (as_i32 (target f l))).
Proof.
  intros Hz W ((more & E) & (ps & P & F) & _). apply fetch_nat. unfold finish. rewrite P. cbn [jump em patches]. rewrite <- app_assoc.
  destruct (finish_fold (labels (em f)) (patches (em s)) ([(here (em s), l)] ++ ps) (instructions (em f)) _ i (lookup_at_end s f i more E) (patch_addresses_below s W)) as [-> E2].
  rewrite fold_left_app. rewrite patches_other.
  - cbn [fold_left]. unfold apply_patch at 1, target, lab. cbn [fst snd].
    destruct (labels (em f) !! l) as [a|]; cbn; [|by rewrite E2, set_p2_same].
    unfold update_instruction, here, len. rewrite Nat2Z.id, list_lookup_alter_eq, E2. done.
  - eapply Forall_impl; [exact F|]. cbn. intros p Hp. rewrite pos_jump in Hp. unfold pos, here, len in Hp. lia.
Qed.


(** A label placed on the way keeps its address. *)
Lemma target_mark l s s1 f : s1 = mark l s -> stage s1 f -> target f l = pos s.
Proof. intros E (_ & _ & L). unfold target. destruct (facts_mark l s s1 E) as (_ & _ & Hl & _). by rewrite (L _ _ Hl). Qed.

(** ** Following a generator through its states *)

Lemma gen_assoc {A B C} (m : G A) (f : A -> G B) (k : B -> G C) s r : (y ← (x ← m; f x); k y) s = r -> (x ← m; y ← f x; k y) s = r.
Proof. unfold mbind, M_bind. by destruct (m s) as [[a|e] s1]. Qed.

Section Inversion.
Context {A : Type}.
Implicit Types (a : A) (s : Gen).

Lemma emit_inv i (k : Z -> G A) s a s' : (x ← emit i; k x) s = (Ok a, s') -> k (pos s) (push i s) = (Ok a, s').
Proof. done. Qed.
Lemma emit_jump_inv i l (k : unit -> G A) s a s' : (x ← emit_jump i l; k x) s = (Ok a, s') -> k tt (jump i l s) = (Ok a, s').
Proof. done. Qed.
Lemma goto_inv l (k : unit -> G A) s a s' : (x ← goto l; k x) s = (Ok a, s') -> k tt (jump (instruction OpGoto 0 0 0) l s) = (Ok a, s').
Proof. done. Qed.
Lemma new_label_inv (k : Label -> G A) s a s' : (x ← new_label; k x) s = (Ok a, s') -> k (nlab s) (declare s) = (Ok a, s').
Proof. done. Qed.
Lemma place_inv l (k : unit -> G A) s a s' : (x ← place l; k x) s = (Ok a, s') -> k tt (mark l s) = (Ok a, s').
Proof. done. Qed.
Lemma alloc_inv (k : Z -> G A) s a s' : (x ← alloc; k x) s = (Ok a, s') -> k (nreg s) (grab s) = (Ok a, s').
Proof. done. Qed.
Lemma param_inv n (k : Z -> G A) s a s' : (x ← numbered_param n; k x) s = (Ok a, s') -> k n (with_next_param (Z.max (next_param (reg s)) n) s) = (Ok a, s').
Proof. done. Qed.
Lemma ret_inv {B} (b : B) (k : B -> G A) s a s' : (x ← mret b; k x) s = (Ok a, s') -> k b s = (Ok a, s').
Proof. done. Qed.
Lemma lift_inv {B} (r : result CodegenError B) (k : B -> G A) s a s' : (x ← lift r; k x) s = (Ok a, s') -> exists b, r = Ok b /\ k b s = (Ok a, s').
Proof. destruct r as [b|e]; [|done]. intros H1. by exists b. Qed.
Lemma ensure_jump_inv l (k : Label * bool -> G A) s a s' : (x ← ensure_label (Jump l); k x) s = (Ok a, s') -> k (l, false) s = (Ok a, s').
Proof. done. Qed.
Lemma ensure_new_inv (k : Label * bool -> G A) s a s' : (x ← ensure_label Fallthrough; k x) s = (Ok a, s') -> k (nlab s, true) (declare s) = (Ok a, s').
Proof. done. Qed.
End Inversion.

Lemma last_jump i l s u s' : emit_jump i l s = (Ok u, s') -> s' = jump i l s.
Proof. intros [= _ <-]. done. Qed.
Lemma last_goto l s u s' : goto l s = (Ok u, s') -> s' = jump (instruction OpGoto 0 0 0) l s.
Proof. intros [= _ <-]. done. Qed.
Lemma last_place l s u s' : place l s = (Ok u, s') -> s' = mark l s.
Proof. intros [= _ <-]. done. Qed.
Lemma last_ret {B} (b : B) s b' s' : (mret b : G B) s = (Ok b', s') -> b' = b /\ s' = s.
Proof. by intros [= <- <-]. Qed.
Lemma last_alloc s r s' : alloc s = (Ok r, s') -> r = nreg s /\ s' = grab s.
Proof. by intros [= <- <-]. Qed.

(** One primitive of the generator in [H]: the state after it is [s1]. *)
Ltac gstep H s1 E :=
  lazymatch type of H with
  | mbind _ (emit _) _ = _ => apply emit_inv in H
  | mbind _ (emit_jump _ _) _ = _ => apply emit_jump_inv in H
  | mbind _ (goto _) _ = _ => apply goto_inv in H
  | mbind _ new_label _ = _ => apply new_label_inv in H
  | mbind _ (place _) _ = _ => apply place_inv in H
  | mbind _ alloc _ = _ => apply alloc_inv in H
  | mbind _ (ensure_label Fallthrough) _ = _ => apply ensure_new_inv in H; cbv beta iota in H
  | mbind _ (place_if true _) _ = _ => apply place_inv in H
  | mbind _ (numbered_param _) _ = _ => apply param_inv in H
  end; cbv beta in H; match type of H with _ ?st = _ => remember st as s1 eqn:E end.
(** A label that is already there: no state changes. *)
Ltac gskip H := first [apply ensure_jump_inv in H | apply ret_inv in H]; cbv beta iota in H.
Ltac gcall H a s1 E := apply M_bind_inv in H as (a & s1 & E & H); cbv beta in H.

(** The counters along the chain of states from [s]. *)
Ltac gfacts tac s1 :=
  let F := fresh "Num" in let L := fresh "Lab" in let W := fresh "Wf" in let S := fresh "Stg" in
  destruct tac as (F & L & W & S); unfold i32_sat_add, I32_MIN, I32_MAX, U64_MAX in F.
Ltac gnums s :=
  lazymatch goal with
  | E : ?s1 = push ?i s |- _ => gfacts (facts_push i s s1 E) s1; gnums s1
  | E : ?s1 = jump ?i ?l s |- _ => gfacts (facts_jump i l s s1 E) s1; gnums s1
  | E : ?s1 = declare s |- _ => gfacts (facts_declare s s1 E) s1; gnums s1
  | E : ?s1 = grab s |- _ => gfacts (facts_grab s s1 E) s1; gnums s1
  | E : ?s1 = with_next_param ?n s |- _ => gfacts (facts_param n s s1 E) s1; gnums s1
  | E : ?s1 = mark ?l s |- _ => let F := fresh "Num" in let L := fresh "Lab" in let P := fresh "Plc" in let W := fresh "Wf" in let S := fresh "Stg" in
      destruct (facts_mark l s s1 E) as (F & L & P & W & S); gnums s1
  | B : block s ?s1 |- _ => let C := fresh "Cnt" in let Mo := fresh "Mo" in let D := fresh "Blk" in
      assert (C : counters_ok s) by (unfold counters_ok, U64_MAX, I32_MAX in *; lia);
      destruct (B C) as (? & Mo & D); unfold mono in Mo; unfold counters_ok in *; gnums s1
  | _ => idtac
  end.

(** A label that nothing has placed yet. *)
Ltac gunplaced :=
  first [ apply unplaced; [assumption|lia]
        | match goal with
          | L : forall l, lab ?s1 l = lab ?s l |- lab ?s1 _ = None => rewrite L; gunplaced
          | L : forall l, l < nlab ?s -> lab ?s1 l = lab ?s l |- lab ?s1 _ = None => rewrite L by lia; gunplaced
          | L : forall m, m <> ?l -> lab ?s1 m = lab ?s m |- lab ?s1 _ = None => rewrite L by lia; gunplaced
          end ].
(** The label of an earlier state. *)
Ltac glabel :=
  first [ reflexivity
        | match goal with
          | L : forall l, lab ?s1 l = lab ?s l |- lab ?s1 _ = _ => rewrite L; glabel
          | L : forall l, l < nlab ?s -> lab ?s1 l = lab ?s l |- lab ?s1 _ = _ => rewrite L by lia; glabel
          | L : forall m, m <> ?l -> lab ?s1 m = lab ?s m |- lab ?s1 _ = _ => rewrite L by lia; glabel
          end ].
(** A later stage. *)
Ltac gstage :=
  first [ assumption | apply stage_refl
        | match goal with S : stage ?a ?b |- stage ?a ?c => apply (stage_trans a b c S); gstage end ].

(** Well-formedness and stages along the chain. *)
Ltac gwfs :=
  repeat match goal with
  | W0 : gen_wf ?s, W : gen_wf ?s -> gen_wf ?s1 |- _ => specialize (W W0)
  | W0 : gen_wf ?s, W : _ -> gen_wf ?s -> gen_wf ?s1 |- _ => specialize (W ltac:(unfold U64_MAX; lia) W0)
  | W0 : gen_wf ?s, D : gen_wf ?s -> gen_fits ?s1 -> _ |- _ => destruct (D W0 ltac:(unfold gen_fits, U64_MAX, I32_MAX; lia)) as (? & ? & ?); clear D
  | S : lab ?s ?l = None -> stage _ _ |- _ => specialize (S ltac:(gunplaced))
  end.

(** Code with the meaning [X]. *)
Definition code (s s' : Gen) (X : Prop) : Prop := block s s' /\ (counters_ok s -> gen_wf s -> gen_fits s' -> X).

Lemma code_intro s s' (X : Prop) :
  (counters_ok s -> (counters_ok s' /\ mono s s') /\
     (gen_wf s -> gen_fits s' -> (gen_wf s' /\ stage s s' /\ forall l, l < nlab s -> lab s' l = lab s l) /\ X)) -> code s s' X.
Proof.
  intros Hc. split.
  - intros C. destruct (Hc C) as ([C' Mo] & D). split; [done|]. split; [done|]. intros W F. by destruct (D W F) as [? _].
  - intros C W F. destruct (Hc C) as (_ & D). by destruct (D W F) as [_ ?].
Qed.

(** Splits the calls of a chain into their blocks and meanings, and follows it. *)
Ltac gcode s :=
  repeat match goal with V : code ?a ?b ?X |- _ => let B := fresh "B" in let M := fresh "M" in destruct V as [B M] end;
  apply code_intro; let C := fresh "Cnt" in intros C; unfold counters_ok, U64_MAX, I32_MAX in C; gnums s;
  split; [unfold counters_ok, mono, U64_MAX, I32_MAX in *; lia|];
  let W := fresh "Wf" in let Fi := fresh "Fit" in intros W Fi; unfold gen_fits, U64_MAX, I32_MAX in Fi; gwfs;
  split; [split; [assumption|split; [gstage|let l := fresh "l" in let Hl := fresh "Hl" in intros l Hl; glabel]]|].
(** The meaning of a call, its conditions discharged. *)
Ltac gmeaning M := let X := fresh "X" in
  pose proof (M ltac:(unfold counters_ok, U64_MAX, I32_MAX in *; lia) ltac:(assumption) ltac:(unfold gen_fits, U64_MAX, I32_MAX; lia)) as X; clear M; rename X into M.

(** ** The targets of a condition *)

Definition target_known (s : Gen) (t : Target) : Prop := match t with Jump l => l < nlab s | Fallthrough => True end.
Definition pick (targets : CondTargets) (t : option bool) : Target :=
  match t with
  | Some true => on_true targets
  | Some false => on_false targets
  | None => match on_null targets with NullTrue => on_true targets | NullFalse => on_false targets end
  end.
Definition dest (f s' : Gen) (t : Target) : Z := match t with Jump l => target f l | Fallthrough => pos s' end.
Definition ahead (f s' : Gen) (t : Target) : Prop := match t with Jump l => pos s' <= target f l | Fallthrough => True end.

Lemma dest_same f s s' t : pos s = pos s' -> dest f s t = dest f s' t.
Proof. intros E. destruct t; [done|exact E]. Qed.
Lemma ahead_later f s s' t : pos s <= pos s' -> ahead f s' t -> ahead f s t.
Proof. destruct t; cbn; [lia|done]. Qed.
