(* ===== verification/CodegenRun.v ===== *)
(** * Running generated code

    Registers, the invariant of a run, and runs of the machine through the
    instructions of a stage. *)

From stdpp Require Import prelude list numbers gmap.
From Stdlib Require Import ZArith Lia.
From S2P Require Import Prelude Varint Text Record Float ValueOrder Format Coerce Functions Tokenizer Header Freelist Vfs Journal Wal Lock Shm Checkpoint PageCache Pager Commit Transactions Allocator BtreePage LeafPage LeafSearch Btree Tree TreeSplit Overflow Table Cursor Program Vm VmCursor Sorter Exec Ast Codegen CodegenExpr CodegenState Eval.

Local Open Scope Z_scope.

(** ** Registers *)

Section Runs.
Context `{host : Host} {OS : Type} `{Fcntl OS} {Ext : Type} (env : Env).
Abbreviation MVm := (Vm (OS := OS) (Ext := Ext)).
Context (other_op : Instruction -> M MVm ExecError Step).

Definition rg (vm : MVm) (r : Z) : Value := slot Null (registers vm) r.
Definition rset (vm : MVm) (r : Z) (v : Value) : MVm := set_registers vm (grow_set Null (registers vm) r v).
Definition valid_reg (r : Z) : Prop := 0 <= r <= MAX_REGISTERS.

Lemma slot_grow {A} (d : A) l i x j : 0 <= i -> 0 <= j -> slot d (grow_set d l i x) j = if bool_decide (j = i) then x else slot d l j.
Proof.
  intros Hi Hj. unfold slot, grow_set. case_bool_decide as E.
  - subst j. rewrite list_lookup_insert_eq; [done|]. rewrite length_app, length_replicate. lia.
  - rewrite list_lookup_insert_ne by lia. destruct (decide (Z.to_nat j < length l)%nat) as [Hlt|Hge].
    + by rewrite lookup_app_l.
    + rewrite lookup_app_r by lia. rewrite (lookup_ge_None_2 l) by lia. destruct (replicate _ d !! _) eqn:R; [|done].
      apply lookup_replicate in R as [-> _]. done.
Qed.

Lemma rg_rset vm r v x : 0 <= r -> 0 <= x -> rg (rset vm r v) x = if bool_decide (x = r) then v else rg vm x.
Proof. intros. unfold rg, rset. cbn. by apply slot_grow. Qed.

Lemma index_ok op r : valid_reg r -> vm_index op r = Ok r.
Proof. unfold valid_reg, vm_index. intros. by rewrite (proj2 (Z.ltb_ge r 0)), (proj2 (Z.ltb_ge MAX_REGISTERS r)) by lia. Qed.

Lemma register_ok (vm : MVm) r : valid_reg r -> register r vm = (Ok (rg vm r), vm).
Proof. intros Hr. unfold register. rewrite (index_ok _ r Hr). done. Qed.
Lemma set_register_ok (vm : MVm) r v : valid_reg r -> set_register r v vm = (Ok tt, rset vm r v).
Proof. intros Hr. unfold set_register. rewrite (index_ok _ r Hr). done. Qed.

(** Taking a value out of a register and writing one back. *)
Lemma take_set (vm : MVm) r (f : Value -> Value) : valid_reg r -> exists vm',
  (v ← take_register r; _ ← set_register r (f v); mret SNext) vm = (Ok SNext, vm') /\ vm' = set_registers vm (registers vm') /\
  forall x, 0 <= x -> rg vm' x = if bool_decide (x = r) then f (rg vm r) else rg vm x.
Proof.
  intros Hr. unfold take_register. rewrite (index_ok _ r Hr).
  set (vm1 := set_registers vm (<[Z.to_nat r := Null]> (registers vm))).
  exists (rset vm1 r (f (rg vm r))). split; [|split].
  - change ((_ ← set_register r (f (rg vm r)); mret SNext) vm1 = (Ok SNext, rset vm1 r (f (rg vm r)))). rewrite (M_bind_ok _ _ _ _ _ (set_register_ok vm1 r _ Hr)). done.
  - by destruct vm.
  - intros x Hx. unfold valid_reg in Hr. rewrite rg_rset by lia. case_bool_decide; [done|]. unfold rg, slot, vm1. cbn.
    by rewrite list_lookup_insert_ne by lia.
Qed.

(** ** Runs of the machine

    [fwd P pc vm pc' vm']: instructions at ever later addresses, none of which
    yields a row.  Code without loops runs this way, at most once through each
    instruction. *)
Inductive fwd (P : Program) : Z -> MVm -> Z -> MVm -> Prop :=
  | fwd_done pc vm : fwd P pc vm pc vm
  | fwd_step pc i st vm vm1 pc1 pc' vm' :
      fetch P pc = Some i -> dispatch env other_op pc i vm = (Ok st, vm1) -> vm_rows vm1 = [] ->
      (st = SNext /\ pc1 = pc + 1 \/ st = SJump pc1) -> pc < pc1 -> fwd P pc1 vm1 pc' vm' -> fwd P pc vm pc' vm'.

Lemma fwd_trans P pc1 vm1 pc2 vm2 pc3 vm3 : fwd P pc1 vm1 pc2 vm2 -> fwd P pc2 vm2 pc3 vm3 -> fwd P pc1 vm1 pc3 vm3.
Proof. induction 1; [done|]. intros. econstructor; eauto. Qed.

Lemma fwd_le P pc vm pc' vm' : fwd P pc vm pc' vm' -> pc <= pc'.
Proof. induction 1; lia. Qed.

Lemma fwd_via P p vm a b vm1 q vm2 : p = a -> fwd P a vm b vm1 -> fwd P b vm1 q vm2 -> fwd P p vm q vm2.
Proof. intros ->. apply fwd_trans. Qed.
Lemma fwd_end P p vm q : p = q -> fwd P p vm q vm.
Proof. intros ->. constructor. Qed.

(** The emitter of the finished program. *)
Definition final (f : Gen) : Prop := gen_wf f /\ pos f <= I32_MAX.

Lemma target_bounds f l : final f -> 0 <= target f l <= I32_MAX.
Proof.
  intros [(_ & Wl & _) Hp]. unfold target. destruct (lab f l) as [a|] eqn:E; cbn; [|by unfold I32_MAX]. destruct (Wl l a E). lia.
Qed.

Lemma as_i32_small z : 0 <= z <= I32_MAX -> as_i32 z = z.
Proof. unfold as_i32, to_signed, wrap, I32_MAX. intros Hz. change (2 ^ 32) with 4294967296. change (2 ^ (32 - 1)) with 2147483648. rewrite !(Z.mod_small z) by lia. destruct (Z.ltb_spec z 2147483648); lia. Qed.

(** ** The row under the cursors

    What the generated code relies on: an invariant of the machine under which
    reading a column or a rowid of the cursors in reach gives the row's value,
    and which only mentions what lies outside the registers. *)
Class RowSource (I : MVm -> Prop) (row : Row) (reach : Z -> Prop) := {
  source_quiet vm : I vm -> vm_rows vm = [];
  source_params vm : I vm -> params vm = row_params row;
  source_registers vm rs : I vm -> I (set_registers vm rs);
  source_column vm c idx d : I vm -> reach c -> 0 <= idx -> valid_reg d -> exists vm',
    op_column other_op (instruction OpColumn c idx d) vm = (Ok SNext, vm') /\ I vm' /\ rg vm' d = row_column row c idx /\
    (forall x, 0 <= x -> x <> d -> rg vm' x = rg vm x);
  source_rowid vm c d : I vm -> reach c -> valid_reg d -> exists vm',
    op_rowid (instruction OpRowid c d 0) vm = (Ok SNext, vm') /\ I vm' /\ rg vm' d = row_rowid row c /\
    (forall x, 0 <= x -> x <> d -> rg vm' x = rg vm x) }.

Section Steps.
Context {I : MVm -> Prop} {row : Row} {reach : Z -> Prop} `{Src : RowSource I row reach}.
Context (F : Gen) (Fin : final F).
Abbreviation code_of := (finish (em F)).

(** [vm'] is [vm] with the value [v] in register [d]. *)
Definition writes (vm : MVm) (d : Z) (v : Value) (vm' : MVm) : Prop :=
  I vm' /\ rg vm' d = v /\ forall x, 0 <= x -> x <> d -> rg vm' x = rg vm x.

Lemma writes_rset vm d v : I vm -> valid_reg d -> writes vm d v (rset vm d v).
Proof.
  unfold valid_reg. intros Hi Hd. split; [by apply source_registers|]. rewrite rg_rset by lia. rewrite bool_decide_true by done. split; [done|].
  intros x Hx Hne. rewrite rg_rset by lia. by rewrite bool_decide_false.
Qed.

(** One instruction that writes a register. *)
Lemma run_step i s s1 vm vm1 d v : s1 = push i s -> gen_wf s -> stage s1 F -> (forall pc, dispatch env other_op pc i vm = (Ok SNext, vm1)) -> writes vm d v vm1 ->
  fwd code_of (pos s) vm (pos s1) vm1.
Proof.
  intros -> W S D (Hi & _). rewrite pos_push. eapply fwd_step; [by eapply fetch_push|done|by apply source_quiet|by left|lia|constructor].
Qed.

Lemma run_write i s s1 vm d v : s1 = push i s -> gen_wf s -> stage s1 F -> I vm -> valid_reg d ->
  (forall pc, dispatch env other_op pc i vm = (_ ← set_register d v; mret SNext) vm) -> exists vm', fwd code_of (pos s) vm (pos s1) vm' /\ writes vm d v vm'.
Proof.
  intros E W S Hi Hd D. exists (rset vm d v). pose proof (writes_rset vm d v Hi Hd) as Hw. split; [|done].
  eapply run_step; eauto. intros pc. by rewrite D, (M_bind_ok _ _ _ _ _ (set_register_ok vm d v Hd)).
Qed.

(** An instruction that replaces a register by a function of it. *)
Lemma run_update i s s1 vm d f : s1 = push i s -> gen_wf s -> stage s1 F -> I vm -> valid_reg d ->
  (forall pc, dispatch env other_op pc i vm = (v ← take_register d; _ ← set_register d (f v); mret SNext) vm) ->
  exists vm', fwd code_of (pos s) vm (pos s1) vm' /\ writes vm d (f (rg vm d)) vm'.
Proof.
  intros E W S Hi Hd D. destruct (take_set vm d f Hd) as (vm' & T & Er & R). exists vm'.
  assert (Hw : writes vm d (f (rg vm d)) vm').
  { split; [rewrite Er; by apply source_registers|]. unfold valid_reg in Hd. split; [rewrite R by lia; by rewrite bool_decide_true|].
    intros x Hx Hne. rewrite R by lia. by rewrite bool_decide_false. }
  split; [|done]. eapply run_step; eauto. intros pc. by rewrite D.
Qed.

Lemma run_column c idx d s s1 vm : s1 = push (instruction OpColumn c idx d) s -> gen_wf s -> stage s1 F -> I vm -> reach c -> 0 <= idx -> valid_reg d ->
  exists vm', fwd code_of (pos s) vm (pos s1) vm' /\ writes vm d (row_column row c idx) vm'.
Proof. intros E W S Hi Hc Hx Hd. destruct (source_column vm c idx d Hi Hc Hx Hd) as (vm' & D & Hw). exists vm'. split; [|done]. by eapply run_step. Qed.
Lemma run_rowid c d s s1 vm : s1 = push (instruction OpRowid c d 0) s -> gen_wf s -> stage s1 F -> I vm -> reach c -> valid_reg d ->
  exists vm', fwd code_of (pos s) vm (pos s1) vm' /\ writes vm d (row_rowid row c) vm'.
Proof. intros E W S Hi Hc Hd. destruct (source_rowid vm c d Hi Hc Hd) as (vm' & D & Hw). exists vm'. split; [|done]. by eapply run_step. Qed.

(** One jump: taken or not, it changes nothing. *)
Lemma run_jump i l s s1 vm (taken : bool) : s1 = jump i l s -> gen_wf s -> stage s1 F -> I vm -> p2 i = 0 ->
  (forall pc a, dispatch env other_op pc (set_p2 i a) vm = (Ok (jump_if taken a), vm)) -> (taken = true -> pos s < target F l) ->
  fwd code_of (pos s) vm (if taken then target F l else pos s1) vm.
Proof.
  intros -> W S Hi Hz D A. pose proof (target_bounds F l Fin) as Hb. eapply fwd_step; [by eapply fetch_jump|apply D|by apply source_quiet| | |constructor].
  - rewrite as_i32_small by done. unfold jump_if, to_pc. destruct taken; [right; f_equal; lia|left; by rewrite pos_jump].
  - rewrite pos_jump. destruct taken; [by apply A|lia].
Qed.

Lemma run_goto l s s1 vm : s1 = jump (instruction OpGoto 0 0 0) l s -> gen_wf s -> stage s1 F -> I vm -> pos s < target F l ->
  fwd code_of (pos s) vm (target F l) vm.
Proof. intros E W S Hi A. apply (run_jump (instruction OpGoto 0 0 0) l s s1 vm true); done. Qed.

Lemma run_is_null l s s1 vm r : s1 = jump (instruction OpIsNull r 0 0) l s -> gen_wf s -> stage s1 F -> I vm -> valid_reg r -> pos s < target F l ->
  fwd code_of (pos s) vm (if is_null (rg vm r) then target F l else pos s1) vm.
Proof.
  intros E W S Hi Hr A. eapply run_jump; eauto. intros pc a. change (op_is_null (set_p2 (instruction OpIsNull r 0 0) a) vm = (Ok (jump_if (is_null (rg vm r)) a), vm)).
  unfold op_is_null. cbn. by rewrite (M_bind_ok _ _ _ _ _ (register_ok vm r Hr)).
Qed.

Lemma run_not_null l s s1 vm r : s1 = jump (instruction OpNotNull r 0 0) l s -> gen_wf s -> stage s1 F -> I vm -> valid_reg r -> pos s < target F l ->
  fwd code_of (pos s) vm (if is_null (rg vm r) then pos s1 else target F l) vm.
Proof.
  intros E W S Hi Hr A. assert (R := run_jump (instruction OpNotNull r 0 0) l s s1 vm (negb (is_null (rg vm r))) E W S Hi eq_refl).
  destruct (is_null (rg vm r)) eqn:En; apply R; try done; intros pc a; unfold dispatch; cbn; unfold op_not_null; cbn;
    rewrite (M_bind_ok _ _ _ _ _ (register_ok vm r Hr)), En; done.
Qed.

(** [IfNot] with [P3] for NULL: [b] says where NULL goes. *)
Lemma run_if_not l s s1 vm r p : s1 = jump (instruction OpIfNot r 0 p) l s -> gen_wf s -> stage s1 F -> I vm -> valid_reg r -> pos s < target F l ->
  fwd code_of (pos s) vm (if match truth (rg vm r) with Some b => b | None => (p =? 0) end then pos s1 else target F l) vm.
Proof.
  intros E W S Hi Hr A. set (b := match truth (rg vm r) with Some b => b | None => (p =? 0) end).
  assert (R := run_jump (instruction OpIfNot r 0 p) l s s1 vm (negb b) E W S Hi eq_refl).
  assert (D : forall pc a, dispatch env other_op pc (set_p2 (instruction OpIfNot r 0 p) a) vm = (Ok (jump_if (negb b) a), vm)).
  { intros pc a. unfold dispatch. cbn. unfold op_if_not. cbn. rewrite (M_bind_ok _ _ _ _ _ (register_ok vm r Hr)). subst b.
    destruct (rg vm r); cbn; rewrite ?negb_involutive; done. }
  destruct b; apply R; done.
Qed.

Lemma compare_operands_as c a x y : compare_operands (p4_coll_seq c a) x y = compare_values_as c a x y.
Proof. by destruct a. Qed.

Lemma run_compare op opcode l s s1 vm x y c a : compare_opcode op (null_is_false Fallthrough Fallthrough) = Some (opcode, null_is_false Fallthrough Fallthrough) ->
  s1 = jump (instruction_p4 opcode x 0 y (p4_coll_seq c a)) l s -> gen_wf s -> stage s1 F -> I vm -> valid_reg x -> valid_reg y -> pos s < target F l ->
  fwd code_of (pos s) vm (if bool_decide (sql_compare c a op (rg vm x) (rg vm y) = Some true) then target F l else pos s1) vm.
Proof.
  intros Eo E W S Hi Hx Hy A. eapply run_jump; eauto. intros pc t. unfold dispatch.
  assert (D : forall h, (compare_jump h (set_p2 (instruction_p4 opcode x 0 y (p4_coll_seq c a)) t)) vm =
    (Ok (jump_if (negb (is_null (rg vm x) || is_null (rg vm y)) && h (compare_values_as c a (rg vm x) (rg vm y))) t), vm)).
  { intros h. unfold compare_jump. cbn [p1 p2 p3 p4 set_p2 instruction_p4 Program.opcode]. rewrite (M_bind_ok _ _ _ _ _ (register_ok vm x Hx)), (M_bind_ok _ _ _ _ _ (register_ok vm y Hy)), compare_operands_as.
    by destruct (_ || _). }
  unfold sql_compare. destruct op; simplify_eq/=; rewrite D; destruct (_ || _); cbn; repeat f_equal; (by rewrite bool_decide_false) || (by case_bool_decide; congruence) || idtac.
  all: match goal with |- ?b = bool_decide _ => destruct b eqn:Eb; [by rewrite bool_decide_true|by rewrite bool_decide_false] end.
Qed.

(** [Eq] with no collation or affinity. *)
Lemma run_eq l s s1 vm x y : s1 = jump (instruction OpEq x 0 y) l s -> gen_wf s -> stage s1 F -> I vm -> valid_reg x -> valid_reg y -> pos s < target F l ->
  fwd code_of (pos s) vm (if negb (is_null (rg vm x)) && negb (is_null (rg vm y)) && is_eq (compare (rg vm x) (rg vm y) CBinary) then target F l else pos s1) vm.
Proof.
  intros E W S Hi Hx Hy A. eapply run_jump; eauto. intros pc t. unfold dispatch. cbn [Program.opcode set_p2 instruction]. unfold compare_jump. cbn [p1 p2 p3 p4 set_p2 instruction].
  rewrite (M_bind_ok _ _ _ _ _ (register_ok vm x Hx)), (M_bind_ok _ _ _ _ _ (register_ok vm y Hy)). by destruct (is_null (rg vm x)), (is_null (rg vm y)).
Qed.

Lemma run_integer n d s s1 vm : s1 = push (instruction OpInteger n d 0) s -> gen_wf s -> stage s1 F -> I vm -> valid_reg d ->
  exists vm', fwd code_of (pos s) vm (pos s1) vm' /\ writes vm d (Integer n) vm'.
Proof. intros E W S Hi Hd. by eapply run_write. Qed.

(** An integer into a register, then a jump. *)
Lemma run_integer_goto n d l s s1 s2 vm q : s1 = push (instruction OpInteger n d 0) s -> s2 = jump (instruction OpGoto 0 0 0) l s1 -> gen_wf s -> gen_wf s1 -> stage s1 F -> stage s2 F ->
  I vm -> valid_reg d -> target F l = q -> pos s2 <= q -> exists vm', fwd code_of (pos s) vm q vm' /\ writes vm d (Integer n) vm'.
Proof.
  intros E1 E2 W W1 S1 S2 Hi Hd <- A. destruct (run_integer n d s s1 vm E1 W S1 Hi Hd) as (vm' & R & Wr). exists vm'. split; [|done].
  eapply fwd_trans; [exact R|]. eapply run_goto; eauto; [by destruct Wr|]. destruct (facts_jump _ _ _ _ E2). lia.
Qed.

Lemma run_null d s s1 vm : s1 = push (instruction OpNull 0 d 0) s -> gen_wf s -> stage s1 F -> I vm -> valid_reg d ->
  exists vm', fwd code_of (pos s) vm (pos s1) vm' /\ writes vm d Null vm'.
Proof.
  intros E W S Hi Hd. eapply run_write; eauto. intros pc. unfold dispatch. cbn [Program.opcode instruction]. unfold op_null. cbn [p2 p3 instruction].
  unfold valid_reg in Hd. replace (Z.max 0 d - d + 1) with 1 by lia. change (Z.to_nat 1) with 1%nat. cbn [upto for_each]. unfold mbind, M_bind, mret, M_ret. by destruct (set_register d Null vm) as [[[]|] ?].
Qed.

Lemma run_copy x d s s1 vm : s1 = push (instruction OpCopy x d 0) s -> gen_wf s -> stage s1 F -> I vm -> valid_reg x -> valid_reg d ->
  exists vm', fwd code_of (pos s) vm (pos s1) vm' /\ writes vm d (rg vm x) vm'.
Proof.
  intros E W S Hi Hx Hd. eapply run_write; eauto. intros pc. unfold dispatch. cbn [Program.opcode instruction]. unfold op_copy. cbn [p1 p2 instruction].
  by rewrite (M_bind_ok _ _ _ _ _ (register_ok vm x Hx)).
Qed.
End Steps.

(** ** Specifications of generated code *)

Definition frame (s s' : Gen) (vm vm' : MVm) : Prop := forall x, 0 <= x -> ~ (nreg s <= x < nreg s') -> rg vm' x = rg vm x.
(** The code also writes the register [d], which it did not allocate. *)
Definition frame_but (d : Z) (s s' : Gen) (vm vm' : MVm) : Prop := forall x, 0 <= x -> x <> d -> ~ (nreg s <= x < nreg s') -> rg vm' x = rg vm x.
Definition nulls (N : Z -> Prop) (vm : MVm) : Prop := forall x, N x -> rg vm x = Null.
Definition within (s s' : Gen) (N : Z -> Prop) : Prop := forall x, N x -> nreg s <= x < nreg s'.
(** The columns of the scope are read from cursors in reach. *)
Definition in_reach (scope : Scope) (reach : Z -> Prop) : Prop :=
  forall table name r, resolve scope table name = Ok r -> rs_forced_null r = false -> reach (rs_cursor r).

(** From [s] to the end of the code the machine reaches [pc'] with the
    registers of the code changed and those of [N], which the code never
    writes, still NULL. *)
Definition reaches (F : Gen) (I : MVm -> Prop) (N : Z -> Prop) (s s' : Gen) (vm : MVm) (pc' : Z) (vm' : MVm) : Prop :=
  fwd (finish (em F)) (pos s) vm pc' vm' /\ I vm' /\ frame s s' vm vm' /\ nulls N vm'.

(** Code that computes the value of [e] into register [r]. *)
Definition value_code (scope : Scope) (e : Expr) (s : Gen) (r : Z) (s' : Gen) : Prop :=
  code s s' (exists N, within s s' N /\ nreg s <= r < nreg s' /\
    forall I row reach, RowSource I row reach -> in_reach scope reach ->
    forall F vm v, final F -> stage s' F -> I vm -> nulls N vm -> eval scope row e = Some v ->
    exists vm', reaches F I N s s' vm (pos s') vm' /\ rg vm' r = v).

(** Code that decides the condition [e] by the place it goes to. *)
Definition cond_code (scope : Scope) (e : Expr) (targets : CondTargets) (s s' : Gen) : Prop :=
  code s s' (exists N, within s s' N /\
    forall I row reach, RowSource I row reach -> in_reach scope reach ->
    forall F vm v, final F -> stage s' F -> ahead F s' (on_true targets) -> ahead F s' (on_false targets) -> I vm -> nulls N vm -> eval scope row e = Some v ->
    exists vm', reaches F I N s s' vm (dest F s' (pick targets (truth v))) vm').

(** The last jump of a condition: it falls through when [b] holds. *)
Definition falls (F : Gen) (i : Instruction) (vm : MVm) (b : bool) : Prop :=
  forall l s s1, s1 = jump i l s -> gen_wf s -> stage s1 F -> pos s < target F l -> fwd (finish (em F)) (pos s) vm (if b then pos s1 else target F l) vm.

Definition branch_code (t f : Target) (i : Instruction) (s s' : Gen) : Prop :=
  code s s' (nreg s' = nreg s /\ forall I row reach, RowSource I row reach ->
    forall F vm b, final F -> stage s' F -> ahead F s' t -> ahead F s' f -> I vm -> falls F i vm b ->
    fwd (finish (em F)) (pos s) vm (dest F s' (if b then t else f)) vm).

Lemma finish_bool_code t f i s u s' : finish_bool t f (fun l => emit_jump i l) s = (Ok u, s') -> branch_code t f i s s'.
Proof.
  intros H1. unfold branch_code. destruct t as [t|], f as [f|]; cbn [finish_bool] in H1.
  - gstep H1 s1 E1. apply last_goto in H1. gcode s. split; [lia|]. intros I row reach Src F vm b Fin S At Af Hi Hf. cbn in *.
    specialize (Hf f s s1 E1 ltac:(assumption) ltac:(gstage) ltac:(lia)). destruct b; [|done].
    eapply fwd_trans; [exact Hf|]. eapply run_goto; eauto; lia.
  - gstep H1 s1 E1. gstep H1 s2 E2. gstep H1 s3 E3. apply last_place in H1. gcode s. split; [lia|]. intros I row reach Src F vm b Fin S At Af Hi Hf. cbn in *.
    pose proof (target_mark _ _ _ F H1 S) as T. specialize (Hf (nlab s) s1 s2 E2 ltac:(assumption) ltac:(gstage) ltac:(lia)).
    replace (pos s) with (pos s1) by lia. destruct b; cbn.
    + eapply fwd_trans; [exact Hf|]. eapply run_goto; eauto; [gstage|lia].
    + rewrite T in Hf. by replace (pos s') with (pos s3) by lia.
  - apply last_jump in H1. gcode s. split; [lia|]. intros I row reach Src F vm b Fin S At Af Hi Hf. cbn in *.
    specialize (Hf f s s' H1 ltac:(assumption) ltac:(gstage) ltac:(lia)). by destruct b.
  - gstep H1 s1 E1. gstep H1 s2 E2. apply last_place in H1. gcode s. split; [lia|]. intros I row reach Src F vm b Fin S At Af Hi Hf. cbn in *.
    pose proof (target_mark _ _ _ F H1 S) as T. specialize (Hf (nlab s) s1 s2 E2 ltac:(assumption) ltac:(gstage) ltac:(lia)).
    rewrite T in Hf. replace (pos s) with (pos s1) by lia. destruct b; cbn; by replace (pos s') with (pos s2) by lia.
Qed.
End Runs.

(** Chains the runs of the context. *)
Ltac fchain :=
  lazymatch goal with
  | |- fwd _ _ _ _ ?v _ ?w =>
    first [ apply fwd_end; lia
          | match goal with
            | R : fwd _ _ _ ?a v ?b ?v1 |- _ => refine (fwd_via _ _ _ _ _ a b v1 _ _ _ R _); [lia|clear R; fchain]
            end ]
  end.

(** Reads a register through the writes and frames of the context. *)
Ltac grw :=
  repeat match goal with
  | E : rg ?v ?r = _ |- context [rg ?v ?r] => rewrite E
  | Fr : frame ?s ?s' ?v ?v' |- context [rg ?v' ?x] => rewrite (Fr x) by lia
  | Fr : frame_but ?d ?s ?s' ?v ?v' |- context [rg ?v' ?x] => rewrite (Fr x) by lia
  | Fr : forall x, 0 <= x -> x <> ?d -> rg ?v' x = rg ?v x |- context [rg ?v' ?x] => rewrite (Fr x) by lia
  end.
(** Splits unions of registers assumed NULL. *)
Lemma nulls_or {OS Ext} (N1 N2 : Z -> Prop) (vm : Vm (OS := OS) (Ext := Ext)) : nulls (fun x => N1 x \/ N2 x) vm -> nulls N1 vm /\ nulls N2 vm.
Proof. intros Hn. split; intros x Hx; apply Hn; auto. Qed.
Ltac gsplit := repeat match goal with Hn : nulls (fun x => _ \/ _) _ |- _ => apply nulls_or in Hn as [? ?] end.
(** The registers of [N] are still NULL. *)
Ltac gnull1 :=
  first [ match goal with Hn : nulls ?N ?v, Hx : ?N ?x |- rg ?v ?x = Null => exact (Hn x Hx) end
        | match goal with
          | Fr : frame ?s ?s' ?v ?v' |- rg ?v' ?x = _ => rewrite (Fr x) by lia
          | Fr : frame_but ?d ?s ?s' ?v ?v' |- rg ?v' ?x = _ => rewrite (Fr x) by lia
          | Fr : forall x, 0 <= x -> x <> ?d -> rg ?v' x = rg ?v x |- rg ?v' ?x = _ => rewrite (Fr x) by lia
          end; gnull1 ].
Ltac gnulls :=
  let x := fresh "x" in let Hx := fresh "Hx" in intros x Hx; cbv beta in Hx; repeat (destruct Hx as [Hx|Hx]);
  try (exfalso; exact Hx);
  repeat match goal with Wt : within _ _ ?N, Hx : ?N x |- _ => lazymatch goal with K : nreg _ <= x < _ |- _ => fail | _ => pose proof (Wt x Hx) end end; gnull1.
Ltac gwithin :=
  let x := fresh "x" in let Hx := fresh "Hx" in intros x Hx; cbv beta in Hx; repeat (destruct Hx as [Hx|Hx]); try (exfalso; exact Hx);
  repeat match goal with Wt : within _ _ ?N, Hx : ?N x |- _ => pose proof (Wt x Hx); clear Wt end; lia.
Ltac gframe := let x := fresh "x" in let Hx := fresh "Hx" in let Hn := fresh "Hn" in intros x Hx Hn; try (let Hd := fresh "Hd" in intros Hd); grw; reflexivity.
(** The whole of [reaches], from the runs of the context. *)
Ltac greach := refine (conj _ (conj _ (conj _ _))); [fchain|assumption|gframe|gnulls].
Ltac gvalid := unfold valid_reg, MAX_REGISTERS; lia.
