(* ===== verification/CodegenCond.v ===== *)
(** * The code of conditions

    What the code emitted for each form of condition does: it goes to the
    target of the condition's truth value. *)

From stdpp Require Import prelude list numbers gmap.
From Stdlib Require Import ZArith Lia.
From S2P Require Import Prelude Varint Text Record Float ValueOrder Format Coerce Functions Tokenizer Header Freelist Vfs Journal Wal Lock Shm Checkpoint PageCache Pager Commit Transactions Allocator BtreePage LeafPage LeafSearch Btree Tree TreeSplit Overflow Table Cursor Program Vm VmCursor Sorter Exec Ast Codegen CodegenExpr CodegenState Eval CodegenRun.

Local Open Scope Z_scope.

Section Conditions.
Context `{host : Host} {OS : Type} `{Fcntl OS} {Ext : Type} (env : Env).
Abbreviation MVm := (Vm (OS := OS) (Ext := Ext)).
Context (other_op : Instruction -> M MVm ExecError Step).
Abbreviation fwd := (fwd env other_op).
Abbreviation branch_code := (branch_code env other_op).
Abbreviation value_code := (value_code env other_op).
Abbreviation cond_code := (cond_code env other_op).

(** ** A register as a condition *)

Lemma if_not_falls {I row reach} `{Src : !RowSource other_op I row reach} F (Fin : final F) (vm : MVm) r p : I vm -> valid_reg r ->
  falls env other_op F (instruction OpIfNot r 0 p) vm (match truth (rg vm r) with Some b => b | None => (p =? 0) end).
Proof. intros Hi Hr l s s1 E W S A. by eapply run_if_not. Qed.

Lemma finish_truthy_code r targets s u s' : finish_truthy r targets s = (Ok u, s') ->
  code s s' (nreg s' = nreg s /\ forall I row reach, RowSource other_op I row reach ->
    forall F (vm : MVm), final F -> stage s' F -> ahead F s' (on_true targets) -> ahead F s' (on_false targets) -> I vm -> valid_reg r ->
    fwd (finish (em F)) (pos s) vm (dest F s' (pick targets (truth (rg vm r)))) vm).
Proof.
  destruct targets as [t f [|]]; unfold finish_truthy; cbn [on_null on_true on_false]; intros H1.
  - destruct t as [t|]; [gskip H1|gstep H1 s0 E0]; gstep H1 s1 E1; gcall H1 a s2 E2;
      destruct (finish_bool_code env other_op _ _ _ _ _ _ E2) as [B2 M2]; [apply last_ret in H1 as [_ ->]|apply last_place in H1].
    all: gcode s; gmeaning M2; destruct M2 as [Nr M2]; split; [lia|]; intros I row reach Src F vm Fin S At Af Hi Hr; cbn in At.
    + specialize (M2 I row reach Src F vm _ Fin ltac:(gstage) At Af Hi (if_not_falls F Fin vm r 0 Hi Hr)).
      eapply fwd_trans; [apply (run_is_null env other_op F Fin t s s1 vm r E1); [done|gstage|done|done|lia]|].
      destruct (rg vm r); cbn; try exact M2; constructor.
    + pose proof (target_mark _ _ _ F H1 S) as T.
      specialize (M2 I row reach Src F vm _ Fin ltac:(gstage) ltac:(cbn; lia) ltac:(destruct f; cbn in *; [lia|done]) Hi (if_not_falls F Fin vm r 0 Hi Hr)).
      replace (pos s) with (pos s0) by lia.
      eapply fwd_trans; [apply (run_is_null env other_op F Fin _ s0 s1 vm r E1); [done|gstage|done|done|lia]|].
      rewrite (dest_same F s2 s') in M2 by lia. cbn [pick on_null on_true on_false dest] in M2 |- *.
      destruct (rg vm r); cbn -[dest] in M2 |- *; try exact M2; try (destruct (negb _); [|exact M2]); cbn; replace (pos s') with (target F (nlab s)) by lia; try exact M2; constructor.
  - destruct (finish_bool_code env other_op _ _ _ _ _ _ H1) as [B2 M2]. gcode s. gmeaning M2. destruct M2 as [Nr M2]. split; [lia|].
    intros I row reach Src F vm Fin S At Af Hi Hr. specialize (M2 I row reach Src F vm _ Fin S At Af Hi (if_not_falls F Fin vm r 1 Hi Hr)).
    destruct (truth (rg vm r)) as [[|]|]; exact M2.
Qed.

(** ** Comparisons *)

Definition base_comparison (op : BinaryOp) (opcode : Opcode) : Prop := compare_opcode op (null_is_false Fallthrough Fallthrough) = Some (opcode, null_is_false Fallthrough Fallthrough).

(** The jumps of a comparison whose opcode is its own. *)
Definition compare_jumps (opcode : Opcode) (lhs rhs : Z) (p : P4) (targets : CondTargets) : G unit :=
  '(t, is_new) ← ensure_label (on_true targets);
  _ ← match on_null targets with
      | NullTrue => _ ← emit_jump (instruction OpIsNull lhs 0 0) t; emit_jump (instruction OpIsNull rhs 0 0) t
      | NullFalse => mret tt
      end;
  _ ← emit_jump (instruction_p4 opcode lhs 0 rhs p) t;
  _ ← match on_false targets with Jump f => goto f | Fallthrough => mret tt end;
  place_if is_new t.

Lemma compare_jumps_code op opcode x y c a targets s u s' : base_comparison op opcode -> compare_jumps opcode x y (p4_coll_seq c a) targets s = (Ok u, s') ->
  code s s' (nreg s' = nreg s /\ forall I row reach, RowSource other_op I row reach ->
    forall F (vm : MVm), final F -> stage s' F -> ahead F s' (on_true targets) -> ahead F s' (on_false targets) -> I vm -> valid_reg x -> valid_reg y ->
    fwd (finish (em F)) (pos s) vm (dest F s' (pick targets (sql_compare c a op (rg vm x) (rg vm y)))) vm).
Proof.
  intros Hb. destruct targets as [t f n]; unfold compare_jumps; cbn [on_null on_true on_false]; intros H1.
  destruct t as [t|]; [gskip H1|gstep H1 s0 E0].
  all: destruct n; [apply gen_assoc in H1; gstep H1 s1 E1; gstep H1 s2 E2|gskip H1].
  all: gstep H1 s3 E3; (destruct f as [f|]; [gstep H1 s4 E4|gskip H1]).
  all: first [apply last_place in H1|apply last_ret in H1 as [_ ->]]; gcode s; split; [lia|].
  all: intros I row reach Src F vm Fin S At Af Hi Hx Hy; cbn in At, Af.
  all: try pose proof (target_mark _ _ _ F H1 S) as T.
  all: pose proof (run_compare env other_op F Fin op opcode _ _ s3 vm x y c a Hb E3 ltac:(assumption) ltac:(gstage) Hi Hx Hy ltac:(lia)) as R3.
  all: try pose proof (run_goto env other_op F Fin f s3 _ vm ltac:(eassumption) ltac:(assumption) ltac:(gstage) Hi ltac:(lia)) as R4.
  all: try pose proof (run_is_null env other_op F Fin _ _ s1 vm x E1 ltac:(assumption) ltac:(gstage) Hi Hx ltac:(lia)) as R1.
  all: try pose proof (run_is_null env other_op F Fin _ _ s2 vm y E2 ltac:(assumption) ltac:(gstage) Hi Hy ltac:(lia)) as R2.
  all: unfold sql_compare in R3 |- *; destruct (is_null (rg vm x)), (is_null (rg vm y)); cbn in *.
  all: try (destruct (holds op _)); first [rewrite bool_decide_true in R3 by done|rewrite bool_decide_false in R3 by done]; cbn in *; fchain.
Qed.

Lemma pick_negate targets t : pick (negate targets) t = pick targets (sql_not t).
Proof. destruct targets as [? ? []], t as [[|]|]; done. Qed.

Lemma emit_compare_code op x y c a targets s u s' : emit_compare_false_jump op x y (p4_coll_seq c a) targets s = (Ok u, s') ->
  code s s' (nreg s' = nreg s /\ forall I row reach, RowSource other_op I row reach ->
    forall F (vm : MVm), final F -> stage s' F -> ahead F s' (on_true targets) -> ahead F s' (on_false targets) -> I vm -> valid_reg x -> valid_reg y ->
    fwd (finish (em F)) (pos s) vm (dest F s' (pick targets (sql_compare c a op (rg vm x) (rg vm y)))) vm).
Proof.
  intros H1. destruct op; try discriminate H1; try (eapply compare_jumps_code; [reflexivity|exact H1]).
  destruct (compare_jumps_code BEq OpEq x y c a (negate targets) s u s' eq_refl H1) as [B M]. split; [done|]. intros C W Fi.
  destruct (M C W Fi) as [Nr R]. split; [done|]. intros I row reach Src F vm Fin S At Af Hi Hx Hy.
  specialize (R I row reach Src F vm Fin S Af At Hi Hx Hy). rewrite pick_negate in R. unfold sql_compare in *. by destruct (_ || _).
Qed.

(** ** AND and OR *)

Section Pieces.
Context (value : Scope -> Expr -> G Z) (cond : Scope -> Expr -> CondTargets -> G unit) (scope : Scope).
Context (HV : forall e s r s', covered e = true -> value scope e s = (Ok r, s') -> value_code scope e s r s').
Context (HC : forall e t s u s', covered e = true -> cond scope e t s = (Ok u, s') -> cond_code scope e t s s').

(** Two conditions in sequence: [op] combines their truth values. *)
Definition pair_code (op : option bool -> option bool -> option bool) (e1 e2 : Expr) (targets : CondTargets) (s s' : Gen) : Prop :=
  code s s' (exists N, within s s' N /\
    forall I row reach, RowSource other_op I row reach -> in_reach scope reach ->
    forall F vm v1 v2, final F -> stage s' F -> ahead F s' (on_true targets) -> ahead F s' (on_false targets) -> I vm -> nulls N vm ->
    eval scope row e1 = Some v1 -> eval scope row e2 = Some v2 ->
    exists vm', reaches env other_op F I N s s' vm (dest F s' (pick targets (op (truth v1) (truth v2)))) vm').

Lemma and_core e1 e2 targets s u s' : covered e1 = true -> covered e2 = true ->
  ('(false_label, is_new) ← ensure_label (on_false targets);
   _ ← cond scope e1 (with_true (with_false targets (Jump false_label)) Fallthrough);
   _ ← cond scope e2 (with_false targets (Jump false_label));
   place_if is_new false_label) s = (Ok u, s') -> pair_code sql_and e1 e2 targets s s'.
Proof.
  intros C1 C2 H1. destruct targets as [t [f|] n]; cbn [on_false] in H1; [gskip H1|gstep H1 s0 E0]; destruct t as [t|].
  all: gcall H1 a1 s1 E1; gcall H1 a2 s2 E2; destruct (HC _ _ _ _ _ C1 E1) as [B1 M1]; destruct (HC _ _ _ _ _ C2 E2) as [B2 M2].
  all: first [apply last_place in H1|apply last_ret in H1 as [_ ->]]; gcode s; gmeaning M1; gmeaning M2.
  all: destruct M1 as (N1 & W1 & M1), M2 as (N2 & W2 & M2); exists (fun x => N1 x \/ N2 x); split; [gwithin|].
  all: intros I row reach Src Hre F vm v1 v2 Fin S At Af Hi Hn Ev1 Ev2; cbn in At, Af; gsplit.
  all: try pose proof (target_mark _ _ _ F H1 S) as T.
  all: destruct (M1 I row reach Src Hre F vm v1 Fin ltac:(gstage)) as (vm1 & R1 & I1 & Fr1 & N1'); [cbn; lia|cbn; lia|assumption|assumption|assumption|].
  all: destruct (M2 I row reach Src Hre F vm1 v2 Fin ltac:(gstage)) as (vm2 & R2 & I2 & Fr2 & N2'); [cbn; lia|cbn; lia|assumption|gnulls|assumption|].
  all: destruct n, (truth v1) as [[|]|], (truth v2) as [[|]|]; cbn in R1, R2 |- *; first [solve [exists vm1; greach]|exists vm2; greach].
Qed.
Lemma or_core e1 e2 targets s u s' : covered e1 = true -> covered e2 = true ->
  ('(true_label, is_new) ← ensure_label (on_true targets);
   _ ← cond scope e1 (with_false (with_true targets (Jump true_label)) Fallthrough);
   _ ← cond scope e2 (with_true targets (Jump true_label));
   place_if is_new true_label) s = (Ok u, s') -> pair_code sql_or e1 e2 targets s s'.
Proof.
  intros C1 C2 H1. destruct targets as [[t|] f n]; cbn [on_true] in H1; [gskip H1|gstep H1 s0 E0]; destruct f as [f|].
  all: gcall H1 a1 s1 E1; gcall H1 a2 s2 E2; destruct (HC _ _ _ _ _ C1 E1) as [B1 M1]; destruct (HC _ _ _ _ _ C2 E2) as [B2 M2].
  all: first [apply last_place in H1|apply last_ret in H1 as [_ ->]]; gcode s; gmeaning M1; gmeaning M2.
  all: destruct M1 as (N1 & W1 & M1), M2 as (N2 & W2 & M2); exists (fun x => N1 x \/ N2 x); split; [gwithin|].
  all: intros I row reach Src Hre F vm v1 v2 Fin S At Af Hi Hn Ev1 Ev2; cbn in At, Af; gsplit.
  all: try pose proof (target_mark _ _ _ F H1 S) as T.
  all: destruct (M1 I row reach Src Hre F vm v1 Fin ltac:(gstage)) as (vm1 & R1 & I1 & Fr1 & N1'); [cbn; lia|cbn; lia|assumption|assumption|assumption|].
  all: destruct (M2 I row reach Src Hre F vm1 v2 Fin ltac:(gstage)) as (vm2 & R2 & I2 & Fr2 & N2'); [cbn; lia|cbn; lia|assumption|gnulls|assumption|].
  all: destruct n, (truth v1) as [[|]|], (truth v2) as [[|]|]; cbn in R1, R2 |- *; first [solve [exists vm1; greach]|exists vm2; greach].
Qed.

Lemma sql_and_comm a b : sql_and a b = sql_and b a.
Proof. by destruct a as [[|]|], b as [[|]|]. Qed.
Lemma sql_or_comm a b : sql_or a b = sql_or b a.
Proof. by destruct a as [[|]|], b as [[|]|]. Qed.
Lemma truth_of_truth t : truth (of_truth t) = t.
Proof. by destruct t as [[|]|]. Qed.

(** [e] combines the truth values of [e1] and [e2], whatever their order. *)
Lemma pair_cond op e1 e2 e targets s s' : pair_code op e1 e2 targets s s' ->
  (forall row v, eval scope row e = Some v -> exists v1 v2, eval scope row e1 = Some v1 /\ eval scope row e2 = Some v2 /\ truth v = op (truth v1) (truth v2)) ->
  cond_code scope e targets s s'.
Proof.
  intros [B M] He. split; [done|]. intros C W Fi. destruct (M C W Fi) as (N & Wn & R). exists N. split; [done|].
  intros I row reach Src Hre F vm v Fin S At Af Hi Hn Ev. destruct (He row v Ev) as (v1 & v2 & E1 & E2 & ->). eauto.
Qed.

Definition connective (op : BinaryOp) : option (option bool -> option bool -> option bool) :=
  match op with BAnd => Some sql_and | BOr => Some sql_or | _ => None end.

Lemma bool_op_eval row op f lhs rhs sp v : connective op = Some f -> eval scope row (MkExpr (EBinary op lhs rhs) sp) = Some v ->
  exists x y, eval scope row lhs = Some x /\ eval scope row rhs = Some y /\ truth v = f (truth x) (truth y).
Proof.
  intros Ho. cbn. destruct (eval scope row lhs) as [x|]; [|done]. destruct (eval scope row rhs) as [y|]; [|done]. cbn. intros [= <-]. exists x, y.
  split; [done|]. split; [done|]. destruct op; simplify_eq/=; apply truth_of_truth.
Qed.

Lemma cond_and_code lhs rhs sp targets s u s' : covered lhs = true -> covered rhs = true ->
  cond_and cond scope lhs rhs targets s = (Ok u, s') -> cond_code scope (MkExpr (EBinary BAnd lhs rhs) sp) targets s s'.
Proof.
  intros Cl Cr H1. unfold cond_and, cheapest_first in H1. destruct (rhs_is_cheaper lhs rhs).
  - eapply (pair_cond _ _ _ _ _ _ _ (and_core rhs lhs targets s u s' Cr Cl H1)). intros row v Ev.
    destruct (bool_op_eval row BAnd _ lhs rhs sp v eq_refl Ev) as (x & y & Ex & Ey & E). exists y, x. rewrite sql_and_comm. done.
  - eapply (pair_cond _ _ _ _ _ _ _ (and_core lhs rhs targets s u s' Cl Cr H1)). intros row v Ev. by apply (bool_op_eval row BAnd _ lhs rhs sp v).
Qed.

Lemma cond_or_code lhs rhs sp targets s u s' : covered lhs = true -> covered rhs = true ->
  cond_or cond scope lhs rhs targets s = (Ok u, s') -> cond_code scope (MkExpr (EBinary BOr lhs rhs) sp) targets s s'.
Proof.
  intros Cl Cr H1. unfold cond_or, cheapest_first in H1. destruct (rhs_is_cheaper lhs rhs).
  - eapply (pair_cond _ _ _ _ _ _ _ (or_core rhs lhs targets s u s' Cr Cl H1)). intros row v Ev.
    destruct (bool_op_eval row BOr _ lhs rhs sp v eq_refl Ev) as (x & y & Ex & Ey & E). exists y, x. rewrite sql_or_comm. done.
  - eapply (pair_cond _ _ _ _ _ _ _ (or_core lhs rhs targets s u s' Cl Cr H1)). intros row v Ev. by apply (bool_op_eval row BOr _ lhs rhs sp v).
Qed.

(** ** BETWEEN *)

Definition is_comparison (op : BinaryOp) : Prop := op = BEq \/ op = BNe \/ op = BLt \/ op = BLe \/ op = BGt \/ op = BGe.

Lemma comparison_eval row op lhs rhs sp x y : is_comparison op -> eval scope row lhs = Some x -> eval scope row rhs = Some y ->
  eval scope row (MkExpr (EBinary op lhs rhs) sp) = Some (of_truth (compare_exprs scope op lhs rhs x y)).
Proof. intros Ho Ex Ey. cbn. rewrite Ex, Ey. cbn. by destruct Ho as [-> | [-> | [-> | [-> | [-> | ->]]]]]. Qed.

(** NOT BETWEEN is compiled as [x < lo OR x > hi]. *)
Lemma not_between inner lo hi x l h :
  sql_not (sql_and (compare_exprs scope BGe inner lo x l) (compare_exprs scope BLe inner hi x h)) =
  sql_or (compare_exprs scope BLt inner lo x l) (compare_exprs scope BGt inner hi x h).
Proof.
  unfold compare_exprs, sql_compare, holds, is_ge, is_le. destruct (is_null x || is_null l), (is_null x || is_null h); cbn.
  - done.
  - by destruct (is_gt _).
  - by destruct (is_lt _).
  - by destruct (is_lt _), (is_gt _).
Qed.

Lemma cond_between_code inner lo hi negated sp targets s u s' : covered inner = true -> covered lo = true -> covered hi = true ->
  cond_between cond scope inner lo hi negated sp targets s = (Ok u, s') -> cond_code scope (MkExpr (EBetween inner lo hi negated) sp) targets s s'.
Proof.
  intros Ci Cl Ch H1. assert (Hc : forall op b, covered b = true -> covered (MkExpr (EBinary op inner b) sp) = true) by (intros op b Cb; cbn; by rewrite Ci, Cb).
  assert (He : forall row v, eval scope row (MkExpr (EBetween inner lo hi negated) sp) = Some v -> exists x l h,
    eval scope row inner = Some x /\ eval scope row lo = Some l /\ eval scope row hi = Some h /\
    truth v = sql_negate negated (sql_and (compare_exprs scope BGe inner lo x l) (compare_exprs scope BLe inner hi x h))).
  { intros row v. cbn. destruct (eval scope row inner) as [x|]; [|done]. destruct (eval scope row lo) as [l|]; [|done]. destruct (eval scope row hi) as [h|]; [|done].
    cbn. intros [= <-]. exists x, l, h. by rewrite truth_of_truth. }
  unfold is_comparison. destruct negated.
  - eapply (pair_cond _ _ _ _ _ _ _ (or_core _ _ targets s u s' (Hc BLt lo Cl) (Hc BGt hi Ch) H1)). intros row v Ev.
    destruct (He row v Ev) as (x & l & h & Ex & El & Eh & E). do 2 eexists. split; [apply comparison_eval; unfold is_comparison; eauto 7|].
    split; [apply comparison_eval; unfold is_comparison; eauto 7|]. rewrite !truth_of_truth, E. apply not_between.
  - eapply (pair_cond _ _ _ _ _ _ _ (and_core _ _ targets s u s' (Hc BGe lo Cl) (Hc BLe hi Ch) H1)). intros row v Ev.
    destruct (He row v Ev) as (x & l & h & Ex & El & Eh & E). do 2 eexists. split; [apply comparison_eval; unfold is_comparison; eauto 7|].
    split; [apply comparison_eval; unfold is_comparison; eauto 7|]. by rewrite !truth_of_truth, E.
Qed.

(** ** Comparisons, truth values, IS NULL *)

Lemma cond_compare_code op lhs rhs sp targets s u s' : is_comparison op -> covered lhs = true -> covered rhs = true ->
  cond_compare value scope op lhs rhs targets s = (Ok u, s') -> cond_code scope (MkExpr (EBinary op lhs rhs) sp) targets s s'.
Proof.
  intros Ho Cl Cr H1. unfold cond_compare in H1. gcall H1 l s1 E1. gcall H1 r s2 E2.
  destruct (HV _ _ _ _ Cl E1) as [B1 M1]. destruct (HV _ _ _ _ Cr E2) as [B2 M2]. destruct (emit_compare_code _ _ _ _ _ _ _ _ _ H1) as [B3 M3].
  unfold CodegenRun.cond_code. gcode s. gmeaning M1. gmeaning M2. gmeaning M3.
  destruct M1 as (N1 & W1 & V1 & M1), M2 as (N2 & W2 & V2 & M2), M3 as (V3 & M3). exists (fun x => N1 x \/ N2 x). split; [gwithin|].
  intros I row reach Src Hre F vm v Fin S At Af Hi Hn Ev. gsplit.
  cbn in Ev. destruct (eval scope row lhs) as [x|] eqn:Ex; [|done]. destruct (eval scope row rhs) as [y|] eqn:Ey; [|done].
  pose proof (comparison_eval row op lhs rhs sp x y Ho Ex Ey) as Ec. cbn in Ec. rewrite Ex, Ey in Ec. rewrite Ec in Ev. injection Ev as <-. rewrite truth_of_truth.
  destruct (M1 I row reach Src Hre F vm x Fin ltac:(gstage) Hi ltac:(gnulls) Ex) as (vm1 & (R1 & I1 & Fr1 & N1') & X1).
  destruct (M2 I row reach Src Hre F vm1 y Fin ltac:(gstage) I1 ltac:(gnulls) Ey) as (vm2 & (R2 & I2 & Fr2 & N2') & X2).
  specialize (M3 I row reach Src F vm2 Fin S At Af I2 ltac:(gvalid) ltac:(gvalid)).
  assert (X1' : rg vm2 l = x) by (by rewrite (Fr2 l) by lia). rewrite X1', X2 in M3. unfold compare_exprs. exists vm2. greach.
Qed.

Lemma cond_value_code e targets s u s' : covered e = true -> cond_value value scope e targets s = (Ok u, s') -> cond_code scope e targets s s'.
Proof.
  intros Ce H1. unfold cond_value in H1. gcall H1 r s1 E1. destruct (HV _ _ _ _ Ce E1) as [B1 M1]. destruct (finish_truthy_code _ _ _ _ _ H1) as [B2 M2].
  unfold CodegenRun.cond_code. gcode s. gmeaning M1. gmeaning M2. destruct M1 as (N1 & W1 & V1 & M1), M2 as (V2 & M2). exists N1. split; [gwithin|].
  intros I row reach Src Hre F vm v Fin S At Af Hi Hn Ev.
  destruct (M1 I row reach Src Hre F vm v Fin ltac:(gstage) Hi Hn Ev) as (vm1 & (R1 & I1 & Fr1 & N1') & X1).
  specialize (M2 I row reach Src F vm1 Fin S At Af I1 ltac:(gvalid)). rewrite X1 in M2. exists vm1. greach.
Qed.

Lemma null_falls {I row reach} `{Src : !RowSource other_op I row reach} F (Fin : final F) (vm : MVm) r (negated : bool) : I vm -> valid_reg r ->
  falls env other_op F (instruction (if negated then OpIsNull else OpNotNull) r 0 0) vm (xorb negated (is_null (rg vm r))).
Proof.
  intros Hi Hr l s s1 E W S A. destruct negated; cbn.
  - pose proof (run_is_null env other_op F Fin l s s1 vm r E W S Hi Hr A) as R. by destruct (is_null (rg vm r)).
  - by apply (run_not_null env other_op F Fin l s s1 vm r).
Qed.

Lemma cond_is_null_code inner negated sp targets s u s' : covered inner = true ->
  cond_is_null value scope inner negated targets s = (Ok u, s') -> cond_code scope (MkExpr (EIsNull inner negated) sp) targets s s'.
Proof.
  intros Ce H1. unfold cond_is_null in H1. gcall H1 r s1 E1. destruct (HV _ _ _ _ Ce E1) as [B1 M1]. destruct (finish_bool_code env other_op _ _ _ _ _ _ H1) as [B2 M2].
  unfold CodegenRun.cond_code. gcode s. gmeaning M1. gmeaning M2. destruct M1 as (N1 & W1 & V1 & M1), M2 as (V2 & M2). exists N1. split; [gwithin|].
  intros I row reach Src Hre F vm v Fin S At Af Hi Hn Ev. cbn in Ev. destruct (eval scope row inner) as [x|] eqn:Ex; [|done]. injection Ev as <-.
  destruct (M1 I row reach Src Hre F vm x Fin ltac:(gstage) Hi Hn Ex) as (vm1 & (R1 & I1 & Fr1 & N1') & X1).
  specialize (M2 I row reach Src F vm1 _ Fin S At Af I1 (null_falls F Fin vm1 r negated I1 ltac:(gvalid))). rewrite X1 in M2. exists vm1.
  rewrite truth_of_truth. destruct negated, (is_null x); cbn in M2 |- *; greach.
Qed.

(** ** IS *)

Lemma sql_is_cases x y : sql_is x y CBinary = if is_null x then is_null y else if is_null y then false else comparison_eqb (compare x y CBinary) Eq.
Proof. by destruct x, y. Qed.

Lemma cond_is_code lhs rhs negated sp targets s u s' : covered lhs = true -> covered rhs = true ->
  cond_is value scope lhs rhs negated targets s = (Ok u, s') -> cond_code scope (MkExpr (EIs lhs rhs negated) sp) targets s s'.
Proof.
  intros Cl Cr H1. unfold cond_is in H1.
  assert (exists t f, (if negated then (on_false targets, on_true targets) else (on_true targets, on_false targets)) = (t, f) /\
    (forall F s, ahead F s (on_true targets) -> ahead F s (on_false targets) -> ahead F s t /\ ahead F s f) /\
    forall b, pick targets (sql_negate negated (Some b)) = if b then t else f) as (t & f & Et & Ha & Hp)
    by (destruct negated; do 2 eexists; (split; [reflexivity|split; [done|by intros [|]]])).
  rewrite Et in H1. gcall H1 l s1 E1. gcall H1 r s2 E2. gstep H1 s3 E3. gstep H1 s4 E4. gstep H1 s5 E5. gstep H1 s6 E6. gstep H1 s7 E7. gstep H1 s8 E8. gstep H1 s9 E9.
  gstep H1 s10 E10. gstep H1 s11 E11. gstep H1 s12 E12. gstep H1 s13 E13. gstep H1 s14 E14. gstep H1 s15 E15. gstep H1 s16 E16. gstep H1 s17 E17. gstep H1 s18 E18. gstep H1 s19 E19.
  gstep H1 s20 E20. gstep H1 s21 E21.
  destruct (HV _ _ _ _ Cl E1) as [B1 M1]. destruct (HV _ _ _ _ Cr E2) as [B2 M2]. destruct (finish_bool_code env other_op _ _ _ _ _ _ H1) as [B3 M3].
  unfold CodegenRun.cond_code. gcode s. gmeaning M1. gmeaning M2. gmeaning M3.
  destruct M1 as (N1 & W1 & V1 & M1), M2 as (N2 & W2 & V2 & M2), M3 as (V3 & M3). exists (fun x => N1 x \/ N2 x). split; [gwithin|].
  intros I row reach Src Hre F vm v Fin S At Af Hi Hn Ev. gsplit. cbn in Ev.
  destruct (eval scope row lhs) as [x|] eqn:Ex; [|done]. destruct (eval scope row rhs) as [y|] eqn:Ey; [|done]. injection Ev as <-. rewrite truth_of_truth.
  pose proof (target_mark _ _ _ F E11 ltac:(gstage)) as T1. pose proof (target_mark _ _ _ F E14 ltac:(gstage)) as T2.
  pose proof (target_mark _ _ _ F E19 ltac:(gstage)) as T3. pose proof (target_mark _ _ _ F E21 ltac:(gstage)) as T4.
  destruct (M1 I row reach Src Hre F vm x Fin ltac:(gstage) Hi ltac:(gnulls) Ex) as (vm1 & (R1 & I1 & Fr1 & N1') & X1).
  destruct (M2 I row reach Src Hre F vm1 y Fin ltac:(gstage) I1 ltac:(gnulls) Ey) as (vm2 & (R2 & I2 & Fr2 & N2') & X2).
  assert (X1' : rg vm2 l = x) by (by rewrite (Fr2 l) by lia).
  assert (exists vm3, fwd (finish (em F)) (pos s2) vm2 (pos s21) vm3 /\ writes vm2 (nreg s2) (Integer (b2z (sql_is x y CBinary))) vm3 (I := I)) as (vm3 & R3 & I3 & X3 & Fr3).
  { pose proof (run_is_null env other_op F Fin _ s5 s6 vm2 l E6 ltac:(assumption) ltac:(gstage) I2 ltac:(gvalid) ltac:(lia)) as Ra. rewrite X1' in Ra.
    pose proof (run_integer_goto env other_op F Fin 0 _ _ s8 s9 s10 vm2 (pos s21) E9 E10 ltac:(assumption) ltac:(assumption) ltac:(gstage) ltac:(gstage) I2 ltac:(gvalid) ltac:(lia) ltac:(lia)) as P0.
    pose proof (run_integer_goto env other_op F Fin 1 _ _ s11 s12 s13 vm2 (pos s21) E12 E13 ltac:(assumption) ltac:(assumption) ltac:(gstage) ltac:(gstage) I2 ltac:(gvalid) ltac:(lia) ltac:(lia)) as P1.
    pose proof (run_integer_goto env other_op F Fin 0 _ _ s16 s17 s18 vm2 (pos s21) E17 E18 ltac:(assumption) ltac:(assumption) ltac:(gstage) ltac:(gstage) I2 ltac:(gvalid) ltac:(lia) ltac:(lia)) as P2.
    pose proof (run_integer env other_op F 1 _ s19 s20 vm2 E20 ltac:(assumption) ltac:(gstage) I2 ltac:(gvalid)) as P3.
    pose proof (run_is_null env other_op F Fin _ s15 s16 vm2 r E16 ltac:(assumption) ltac:(gstage) I2 ltac:(gvalid) ltac:(lia)) as Rb.
    pose proof (run_eq env other_op F Fin _ s7 s8 vm2 l r E8 ltac:(assumption) ltac:(gstage) I2 ltac:(gvalid) ltac:(gvalid) ltac:(lia)) as Rc.
    rewrite X1', X2 in Rc. rewrite X2 in Rb. change (is_eq (compare x y CBinary)) with (comparison_eqb (compare x y CBinary) Eq) in Rc.
    rewrite sql_is_cases. destruct (is_null x), (is_null y); cbn [andb negb] in *; try (destruct (comparison_eqb _ _)).
    all: destruct P0 as (v0 & Q0 & ?), P1 as (v1 & Q1 & ?), P2 as (v2 & Q2 & ?), P3 as (v3 & Q3 & ?).
    all: first [exists v0; split; [|done]; fchain|exists v1; split; [|done]; fchain|exists v2; split; [|done]; fchain|exists v3; split; [|done]; fchain]. }
  destruct (Ha F s' At Af) as [At' Af']. specialize (M3 I row reach Src F vm3 _ Fin S At' Af' I3 (if_not_falls F Fin vm3 (nreg s2) 1 I3 ltac:(gvalid))).
  rewrite X3 in M3. change (Integer (b2z (sql_is x y CBinary))) with (of_truth (Some (sql_is x y CBinary))) in M3. rewrite truth_of_truth in M3. rewrite Hp. exists vm3. greach.
Qed.

(** ** IN with a list *)

(** What the code of items does: goes to [found] at the first equal item, or
    falls through with [saw] set when an item was NULL. *)
Definition items_meaning (inner : Expr) (l saw : Z) (found : Label) (items : list Expr) (s s' : Gen) (N : Z -> Prop) : Prop :=
  0 <= l < nreg s -> 0 <= saw < nreg s -> l <> saw -> forall I row reach, RowSource other_op I row reach -> in_reach scope reach ->
  forall F (vm : MVm) x ys b, final F -> stage s' F -> pos s' <= target F found -> I vm -> nulls N vm -> rg vm l = x -> is_null x = false -> rg vm saw = Integer (b2z b) ->
  Forall2 (fun item y => eval scope row item = Some y) items ys ->
  let results := zip_with (fun item y => compare_exprs scope BEq inner item x y) items ys in
  exists vm', I vm' /\ frame_but saw s s' vm vm' /\ nulls N vm' /\
    match sql_in results with
    | Some true => fwd (finish (em F)) (pos s) vm (target F found) vm'
    | t => fwd (finish (em F)) (pos s) vm (pos s') vm' /\ rg vm' saw = Integer (b2z (b || bool_decide (t = None)))
    end.

Lemma sql_in_cons t ts : sql_in (t :: ts) = match t, sql_in ts with Some true, _ => Some true | _, Some true => Some true | None, _ => None | _, u => u end.
Proof.
  unfold sql_in. cbn [existsb]. destruct t as [[|]|].
  - by rewrite (bool_decide_true (Some true = Some true)).
  - rewrite (bool_decide_false (Some false = Some true)), (bool_decide_false (Some false = None)) by done. cbn. by repeat case_match.
  - rewrite (bool_decide_false (None = Some true)), (bool_decide_true (None = None)) by done. cbn. by repeat case_match.
Qed.

Lemma in_item_code inner l saw found item s u s' : covered item = true ->
  in_item value scope inner l saw found item s = (Ok u, s') ->
  code s s' (exists N, within s s' N /\ items_meaning inner l saw found [item] s s' N).
Proof.
  intros Ce H1. unfold in_item in H1. gcall H1 r s1 E1. gstep H1 s2 E2. gstep H1 s3 E3. gstep H1 s4 E4. gstep H1 s5 E5. gstep H1 s6 E6. gstep H1 s7 E7. gstep H1 s8 E8.
  apply last_place in H1. destruct (HV _ _ _ _ Ce E1) as [B1 M1]. gcode s. gmeaning M1. destruct M1 as (N1 & W1 & V1 & M1). exists N1. split; [gwithin|].
  intros Hl Hs Hne I row reach Src Hre F vm x ys b Fin S Hf Hi Hn Ex Hx Hb Hys results. revert results. apply Forall2_cons_inv_l in Hys as (y & ? & Ey & Hnil & ->). apply Forall2_nil_inv_l in Hnil as ->. intros results.
  pose proof (target_mark _ _ _ F E7 ltac:(gstage)) as T1. pose proof (target_mark _ _ _ F H1 ltac:(gstage)) as T2.
  destruct (M1 I row reach Src Hre F vm y Fin ltac:(gstage) Hi Hn Ey) as (vm1 & (R1 & I1 & Fr1 & N1') & X1).
  assert (X2 : rg vm1 l = x) by (by rewrite (Fr1 l) by lia). assert (X3 : rg vm1 saw = Integer (b2z b)) by (by rewrite (Fr1 saw) by lia).
  pose proof (run_is_null env other_op F Fin _ s3 s4 vm1 r E4 ltac:(assumption) ltac:(gstage) I1 ltac:(gvalid) ltac:(lia)) as R2. rewrite X1 in R2.
  pose proof (run_compare env other_op F Fin BEq OpEq _ _ s5 vm1 l r _ _ eq_refl E5 ltac:(assumption) ltac:(gstage) I1 ltac:(gvalid) ltac:(gvalid) ltac:(lia)) as R3.
  rewrite X1, X2 in R3. change (sql_compare _ _ BEq x y) with (compare_exprs scope BEq inner item x y) in R3.
  pose proof (run_goto env other_op F Fin _ s5 s6 vm1 E6 ltac:(assumption) ltac:(gstage) I1 ltac:(lia)) as R4.
  destruct (run_integer env other_op F 1 _ s7 s8 vm1 E8 ltac:(assumption) ltac:(gstage) I1 ltac:(gvalid)) as (vm2 & R5 & I2 & X4 & Fr2).
  subst results. cbn [zip_with]. unfold compare_exprs, sql_compare in *. rewrite Hx in *. cbn [orb] in *. destruct (is_null y).
  - exists vm2. refine (conj I2 (conj _ (conj _ _))); [gframe|gnulls|]. split; [fchain|]. by rewrite X4, bool_decide_true, orb_true_r.
  - exists vm1. refine (conj I1 (conj _ (conj _ _))); [gframe|gnulls|]. rewrite sql_in_cons. change (sql_in []) with (Some false). destruct (holds BEq _); cbn in R3 |- *.
    + rewrite bool_decide_true in R3 by done. fchain.
    + rewrite bool_decide_false in R3 by done. split; [fchain|]. by rewrite orb_false_r.
Qed.

Lemma items_code inner l saw found items : forallb covered items = true -> forall s u s',
  for_each items (in_item value scope inner l saw found) s = (Ok u, s') ->
  code s s' (exists N, within s s' N /\ items_meaning inner l saw found items s s' N).
Proof.
  induction items as [|item items IH]; intros Ce s u s' H1.
  - apply last_ret in H1 as [_ ->]. gcode s. exists (fun _ => False). split; [gwithin|].
    intros Hl Hs Hne I row reach Src Hre F vm x ys b Fin S Hf Hi Hn Ex Hx Hb Hys results. exists vm. refine (conj Hi (conj _ (conj Hn _))); [done|].
    split; [fchain|]. by rewrite Hb, bool_decide_false, orb_false_r.
  - cbn in Ce. apply andb_true_iff in Ce as [C1 C2]. cbn [for_each] in H1. gcall H1 a s1 E1. destruct (in_item_code _ _ _ _ _ _ _ _ C1 E1) as [B1 M1]. destruct (IH C2 _ _ _ H1) as [B2 M2].
    gcode s. gmeaning M1. gmeaning M2. destruct M1 as (N1 & W1 & M1), M2 as (N2 & W2 & M2). exists (fun x => N1 x \/ N2 x). split; [gwithin|].
    intros Hl Hs Hne I row reach Src Hre F vm x ys b Fin S Hf Hi Hn Ex Hx Hb Hys. apply Forall2_cons_inv_l in Hys as (y & ys' & Ey & Hys & ->). cbn [zip_with]. gsplit.
    destruct (M1 Hl Hs Hne I row reach Src Hre F vm x [y] b Fin ltac:(gstage) ltac:(lia) Hi ltac:(gnulls) Ex Hx Hb ltac:(auto)) as (vm1 & I1 & Fr1 & N1' & R1).
    cbn [zip_with] in R1. rewrite sql_in_cons. rewrite sql_in_cons in R1. change (sql_in []) with (Some false) in R1.
    assert (X1 : rg vm1 l = x) by (by rewrite (Fr1 l) by lia).
    destruct (compare_exprs scope BEq inner item x y) as [[|]|]; cbn in R1.
    + exists vm1. refine (conj I1 (conj _ (conj _ _))); [gframe|gnulls|exact R1].
    + destruct R1 as [R1 X2].
      destruct (M2 ltac:(lia) ltac:(lia) Hne I row reach Src Hre F vm1 x ys' _ Fin S ltac:(lia) I1 ltac:(gnulls) X1 Hx X2 Hys) as (vm2 & I2 & Fr2 & N2' & R2).
      exists vm2. refine (conj I2 (conj _ (conj _ _))); [gframe|gnulls|]. destruct (sql_in _) as [[|]|]; [fchain|split; [destruct R2 as [R2 _]; fchain|destruct R2 as [_ R2]; by destruct b]..].
    + destruct R1 as [R1 X2].
      destruct (M2 ltac:(lia) ltac:(lia) Hne I row reach Src Hre F vm1 x ys' _ Fin S ltac:(lia) I1 ltac:(gnulls) X1 Hx X2 Hys) as (vm2 & I2 & Fr2 & N2' & R2).
      exists vm2. refine (conj I2 (conj _ (conj _ _))); [gframe|gnulls|].  destruct (sql_in _) as [[|]|]; [fchain|split; [destruct R2 as [R2 _]; fchain|destruct R2 as [_ R2]; by destruct b]..].
Qed.

(** NULL IN (...) is NULL. *)
Lemma sql_in_null inner x items ys : is_null x = true -> items <> [] -> length items = length ys ->
  sql_in (zip_with (fun item y => compare_exprs scope BEq inner item x y) items ys) = None.
Proof.
  intros Hx Hne Hl. assert (Hc : forall item y, compare_exprs scope BEq inner item x y = None) by (intros; unfold compare_exprs, sql_compare; by rewrite Hx).
  destruct items as [|item items]; [done|]. destruct ys as [|y ys]; [done|]. clear Hne. revert item y ys Hl.
  induction items as [|item' items IH]; intros item y [|y' ys] Hl; try done; cbn [zip_with]; rewrite sql_in_cons, Hc; [done|].
  specialize (IH item' y' ys ltac:(cbn in *; lia)). cbn [zip_with] in IH. by rewrite IH.
Qed.

Lemma in_eval row inner items negated sp v : items <> [] -> eval scope row (MkExpr (EIn inner items negated) sp) = Some v -> exists x ys,
  eval scope row inner = Some x /\ Forall2 (fun item y => eval scope row item = Some y) items ys /\
  v = of_truth (sql_negate negated (sql_in (zip_with (fun item y => compare_exprs scope BEq inner item x y) items ys))).
Proof.
  intros Hne Ev. destruct items as [|item items]; [done|]. cbn -[mapM] in Ev. destruct (eval scope row inner) as [x|]; [|done].
  destruct (mapM (eval scope row) (item :: items)) as [ys|] eqn:Em; [|done]. apply mapM_Some_1 in Em. injection Ev as <-. eauto.
Qed.

Lemma cond_in_code inner items negated sp targets s u s' : covered inner = true -> forallb covered items = true ->
  cond_in value scope inner items negated targets s = (Ok u, s') -> cond_code scope (MkExpr (EIn inner items negated) sp) targets s s'.
Proof.
  intros Ci Ce H1. destruct (decide (items = [])) as [-> |Hne].
  - cbn [cond_in] in H1. unfold CodegenRun.cond_code, compile_always_false in *. destruct targets as [t f n], negated; cbn [on_true on_false] in H1.
    all: match type of H1 with match ?d with _ => _ end _ = _ => destruct d as [l|] end; [apply last_goto in H1|apply last_ret in H1 as [_ ->]].
    all: gcode s; exists (fun _ => False); (split; [gwithin|]); intros I row reach Src Hre F vm v Fin S At Af Hi Hn [= <-]; exists vm; cbn in At, Af |- *.
    all: try pose proof (run_goto env other_op F Fin l s s' vm H1 ltac:(assumption) S Hi ltac:(lia)) as R; greach.
  - assert (H2 : (l ← value scope inner; saw_null ← alloc; _ ← emit (instruction OpInteger 0 saw_null 0);
      '(true_label, true_is_new) ← ensure_label (on_true targets); '(false_label, false_is_new) ← ensure_label (on_false targets);
      let '(found_label, unmatched_label) := if negated then (false_label, true_label) else (true_label, false_label) in
      let null_label := match on_null targets with NullTrue => true_label | NullFalse => false_label end in
      _ ← emit_jump (instruction OpIsNull l 0 0) null_label; _ ← for_each items (in_item value scope inner l saw_null found_label);
      _ ← emit_jump (instruction OpIfNot saw_null 0 0) unmatched_label; _ ← goto null_label; _ ← place_if false_is_new false_label; place_if true_is_new true_label) s = (Ok u, s'))
      by (by destruct items). clear H1. rename H2 into H1.
    gcall H1 l s1 E1. gstep H1 s2 E2. gstep H1 s3 E3. destruct (HV _ _ _ _ Ci E1) as [B1 M1].
    destruct targets as [[t|] [f|] n]; cbn [on_true on_false on_null] in H1; [gskip H1|gskip H1|gstep H1 s4 E4|gstep H1 s4 E4]; [gskip H1|gstep H1 s5 E5|gskip H1|gstep H1 s5 E5].
    all: destruct negated, n; cbv beta iota zeta in H1; gstep H1 s6 E6; gcall H1 a s7 E7; gstep H1 s8 E8; gstep H1 s9 E9.
    all: first [gstep H1 s10 E10|gskip H1]; first [apply last_place in H1|apply last_ret in H1 as [_ ->]].
    all: destruct (items_code _ _ _ _ _ Ce _ _ _ E7) as [B7 M7].
    all: unfold CodegenRun.cond_code; gcode s; gmeaning M1; gmeaning M7; destruct M1 as (N1 & W1 & V1 & M1), M7 as (N2 & W2 & M7).
    all: exists (fun x => N1 x \/ N2 x); split; [gwithin|].
    all: intros I row reach Src Hre F vm v Fin S At Af Hi Hn Ev; cbn in At, Af; gsplit; try pose proof (target_mark _ _ _ F E10 ltac:(gstage)) as T1; try pose proof (target_mark _ _ _ F H1 ltac:(gstage)) as T2.
    all: destruct (in_eval row inner items _ sp v Hne Ev) as (x & ys & Ex & Eys & ->); rewrite truth_of_truth.
    all: destruct (M1 I row reach Src Hre F vm x Fin ltac:(gstage) Hi ltac:(gnulls) Ex) as (vm1 & (R1 & I1 & Fr1 & N1') & X1).
    all: destruct (run_integer env other_op F 0 _ _ s3 vm1 E3 ltac:(assumption) ltac:(gstage) I1 ltac:(gvalid)) as (vm2 & R2 & I2 & X2 & Fr2).
    all: assert (X1' : rg vm2 l = x) by (by rewrite (Fr2 l) by lia).
    all: pose proof (run_is_null env other_op F Fin _ _ s6 vm2 l E6 ltac:(assumption) ltac:(gstage) I2 ltac:(gvalid) ltac:(lia)) as R3; rewrite X1' in R3.
    all: destruct (is_null x) eqn:Hx;
      [rewrite (sql_in_null inner x items ys Hx Hne (Forall2_length _ _ _ Eys)); exists vm2; cbn; greach|].
    all: destruct (M7 ltac:(lia) ltac:(lia) ltac:(lia) I row reach Src Hre F vm2 x ys false Fin ltac:(gstage) ltac:(lia) I2 ltac:(gnulls) X1' Hx X2 Eys) as (vm3 & I3 & Fr3 & N3' & R4).
    all: pose proof (run_if_not env other_op F Fin _ s7 s8 vm3 _ 0 E8 ltac:(assumption) ltac:(gstage) I3 ltac:(gvalid) ltac:(lia)) as R5.
    all: pose proof (run_goto env other_op F Fin _ s8 s9 vm3 E9 ltac:(assumption) ltac:(gstage) I3 ltac:(lia)) as R6.
    all: exists vm3; destruct (sql_in _) as [[|]|]; cbn in R4 |- *; try (destruct R4 as [R4 X4]; rewrite X4 in R5; cbn in R5); greach.
Qed.
End Pieces.
End Conditions.
