(* ===== verification/CodegenValue.v ===== *)
(** * The code of values

    What the code emitted for each form of expression does: it leaves the
    expression's value in a register. *)

From stdpp Require Import prelude list numbers gmap.
From Stdlib Require Import ZArith Lia.
From S2P Require Import Prelude Varint Text Record Float ValueOrder Format Coerce Functions Tokenizer Header Freelist Vfs Journal Wal Lock Shm Checkpoint PageCache Pager Commit Transactions Allocator BtreePage LeafPage LeafSearch Btree Tree TreeSplit Overflow Table Cursor Program Vm VmCursor Sorter Exec Ast Codegen CodegenExpr CodegenState Eval CodegenRun CodegenCond.

Local Open Scope Z_scope.

Lemma position_nonneg {A} (p : A -> bool) l : forall i, position p l = Some i -> 0 <= i.
Proof.
  induction l as [|x l IH]; intros i; [done|]. cbn. destruct (p x); [by intros [= <-]|]. destruct (position p l) as [k|]; [|done].
  cbn. intros [= <-]. specialize (IH k eq_refl). lia.
Qed.

Lemma resolve_own_index_nonneg scope table name r : resolve_own scope table name = Ok r -> 0 <= rs_index r.
Proof.
  unfold resolve_own. destruct (resolve_own_binding_index scope table name) as [i|]; [|done]. cbn. destruct (ok_or _ _) as [b|]; [|done]. cbn. intros [= <-]. cbn.
  destruct (column_index (tb_schema b) name) as [k|] eqn:E; [|done]. by apply position_nonneg in E.
Qed.
Lemma resolve_index_nonneg table name r : forall scope, resolve scope table name = Ok r -> 0 <= rs_index r.
Proof.
  fix IH 1. intros [tables catalog outer dedup] E. cbn in E. destruct (resolve_own _ table name) as [v|] eqn:Eo.
  - injection E as ->. by eapply resolve_own_index_nonneg.
  - destruct outer as [o|]; [|done]. exact (IH o E).
Qed.

Lemma i32_try_from_id z n : i32_try_from z = Some n -> n = z.
Proof. unfold i32_try_from. destruct (_ && _); by intros [= ->]. Qed.

Lemma ok_or_inv {E A} (o : option A) (e : E) a : ok_or o e = Ok a -> o = Some a.
Proof. destruct o; [by intros [= ->]|done]. Qed.

Section Values.
Context `{host : Host} {OS : Type} `{Fcntl OS} {Ext : Type} (env : Env).
Abbreviation MVm := (Vm (OS := OS) (Ext := Ext)).
Context (other_op : Instruction -> M MVm ExecError Step).
Abbreviation fwd := (fwd env other_op).
Abbreviation value_code := (value_code env other_op).
Abbreviation cond_code := (cond_code env other_op).

Section Pieces.
Context (value : Scope -> Expr -> G Z) (cond : Scope -> Expr -> CondTargets -> G unit) (scope : Scope).
Context (HV : forall e s r s', covered e = true -> value scope e s = (Ok r, s') -> value_code scope e s r s').
Context (HC : forall e t s u s', covered e = true -> cond scope e t s = (Ok u, s') -> cond_code scope e t s s').

(** ** Code that writes a register allocated before *)

Definition into_code (val : Row -> option Value) (d : Z) (s s' : Gen) : Prop :=
  code s s' (exists N, within s s' N /\ (0 <= d < nreg s -> forall I row reach, RowSource other_op I row reach -> in_reach scope reach ->
    forall F vm v, final F -> stage s' F -> I vm -> nulls N vm -> val row = Some v ->
    exists vm', fwd (finish (em F)) (pos s) vm (pos s') vm' /\ I vm' /\ frame_but d s s' vm vm' /\ nulls N vm' /\ rg vm' d = v)).

Lemma alloc_into val e s s1 s' : s1 = grab s -> into_code val (nreg s) s1 s' -> (forall row v, eval scope row e = Some v -> val row = Some v) -> value_code scope e s (nreg s) s'.
Proof.
  intros E [B M] He. unfold CodegenRun.value_code. gcode s. gmeaning M. destruct M as (N & W & M). exists N. split; [gwithin|]. split; [lia|].
  intros I row reach Src Hre F vm v Fin S Hi Hn Ev. destruct (M ltac:(lia) I row reach Src Hre F vm v Fin S Hi Hn (He row v Ev)) as (vm' & R & I' & Fr & N' & X).
  exists vm'. split; [greach|done].
Qed.

Lemma emit_literal_code l d s u s' : l <> LNull -> emit_literal l d s = (Ok u, s') -> into_code (fun _ => Some (literal_of l)) d s s'.
Proof.
  intros Hl H1.
  assert (exists i, s' = push i s /\ forall vm : MVm, forall pc, dispatch env other_op pc i vm = (_ ← set_register d (literal_of l); mret SNext) vm) as (i & E & D).
  { destruct l; cbn [emit_literal] in H1; try (gstep H1 s1 E1; apply last_ret in H1 as [_ ->]; eexists; split; [exact E1|]; done).
    - destruct (i32_try_from _) as [p|] eqn:Ei; gstep H1 s1 E1; apply last_ret in H1 as [_ ->]; eexists; (split; [exact E1|]); [|done].
      by rewrite (i32_try_from_id _ _ Ei).
    - apply lift_inv in H1 as (n & _ & H1). gstep H1 s2 E2. apply last_ret in H1 as [_ ->]. by eexists.
    - done. }
  clear H1. gcode s. exists (fun _ => False). split; [gwithin|]. intros Hd I row reach Src Hre F vm v Fin S Hi Hn [= <-].
  destruct (run_write env other_op F i s s' vm d (literal_of l) E ltac:(assumption) S Hi ltac:(gvalid) (D vm)) as (vm' & R & I' & X & Fr).
  exists vm'. refine (conj R (conj I' (conj _ (conj _ X)))); [gframe|gnulls].
Qed.

Lemma value_literal_code l sp s r s' : (r ← alloc; _ ← emit_literal l r; mret r) s = (Ok r, s') -> value_code scope (MkExpr (ELiteral l) sp) s r s'.
Proof.
  intros H1. gstep H1 s1 E1. gcall H1 u s2 E2. apply last_ret in H1 as [-> ->]. assert (l = LNull \/ l <> LNull) as [->|Hl] by (by destruct l; (left; reflexivity) || right).
  - apply last_ret in E2 as [_ ->]. unfold CodegenRun.value_code. gcode s. exists (fun x => x = nreg s). split; [gwithin|]. split; [lia|].
    intros I row reach Src Hre F vm v Fin S Hi Hn [= <-]. exists vm. split; [|by apply Hn]. refine (conj _ (conj _ (conj _ _))); [fchain|done|gframe|done].
  - apply (alloc_into _ _ _ _ _ E1 (emit_literal_code _ _ _ _ _ Hl E2)). done.
Qed.

(** ** Columns and parameters *)

Lemma emit_column_read_code table name r d s u s' : resolve scope table name = Ok r -> rs_forced_null r = false ->
  emit_column_read (rs_schema r) (rs_cursor r) (rs_index r) d s = (Ok u, s') -> into_code (fun row => Some (column_value row r)) d s s'.
Proof.
  intros Er Hn H1. pose proof (resolve_index_nonneg _ _ _ _ Er) as Hidx. unfold emit_column_read in H1. unfold into_code, column_value. rewrite Hn.
  destruct (bool_decide (ts_rowid_alias (rs_schema r) = Some (rs_index r))).
  - gstep H1 s1 E1. apply last_ret in H1 as [_ ->]. gcode s. exists (fun _ => False). split; [gwithin|]. intros Hd I row reach Src Hre F vm v Fin S Hi Hnu [= <-].
    destruct (run_rowid env other_op F (rs_cursor r) d s s1 vm E1 ltac:(assumption) S Hi (Hre _ _ _ Er Hn) ltac:(gvalid)) as (vm' & R & I' & X & Fr).
    exists vm'. refine (conj R (conj I' (conj _ (conj _ X)))); [gframe|gnulls].
  - apply lift_inv in H1 as (p & Ep & H1). apply ok_or_inv, i32_try_from_id in Ep as ->. gstep H1 s1 E1. unfold stored_as_real.
    destruct (get_at (ts_column_types (rs_schema r)) (rs_index r)) as [t|]; [destruct (bool_decide (affinity_of t = AffReal))|]; [gstep H1 s2 E2| |]; apply last_ret in H1 as [_ ->]; gcode s;
      (exists (fun _ => False); split; [gwithin|]); intros Hd I row reach Src Hre F vm v Fin S Hi Hnu [= <-];
      destruct (run_column env other_op F (rs_cursor r) (rs_index r) d s s1 vm E1 ltac:(assumption) ltac:(gstage) Hi (Hre _ _ _ Er Hn) Hidx ltac:(gvalid)) as (vm1 & R1 & I1 & X1 & Fr1).
    + destruct (run_update env other_op F _ s1 s2 vm1 d (fun v => apply_affinity v AffReal) E2 ltac:(assumption) S I1 ltac:(gvalid) ltac:(done)) as (vm2 & R2 & I2 & X2 & Fr2).
      rewrite X1 in X2. exists vm2. refine (conj _ (conj I2 (conj _ (conj _ X2)))); [fchain|gframe|gnulls].
    + exists vm1. refine (conj _ (conj I1 (conj _ (conj _ X1)))); [fchain|gframe|gnulls].
    + exists vm1. refine (conj _ (conj I1 (conj _ (conj _ X1)))); [fchain|gframe|gnulls].
Qed.

(** [emit Null] and the forced NULL of an outer join. *)
Lemma emit_null_code val d s s' : s' = push (instruction OpNull 0 d 0) s -> (forall row v, val row = Some v -> v = Null) -> into_code val d s s'.
Proof.
  intros E He. unfold into_code. gcode s. exists (fun _ => False). split; [gwithin|]. intros Hd I row reach Src Hre F vm v Fin S Hi Hnu Ev. apply He in Ev as ->.
  destruct (run_null env other_op F d s s' vm E ltac:(assumption) S Hi ltac:(gvalid)) as (vm' & R & I' & X & Fr).
  exists vm'. refine (conj R (conj I' (conj _ (conj _ X)))); [gframe|gnulls].
Qed.

Lemma column_into_code table catalog name sp r d s u s' : resolve scope table name = Ok r ->
  (if rs_forced_null r then _ ← emit (instruction OpNull 0 d 0); mret tt else emit_column_read (rs_schema r) (rs_cursor r) (rs_index r) d) s = (Ok u, s') ->
  into_code (fun row => eval scope row (MkExpr (EColumn table catalog name) sp)) d s s'.
Proof.
  intros Er H1. destruct (rs_forced_null r) eqn:Hn.
  - gstep H1 s1 E1. apply last_ret in H1 as [_ ->]. apply (emit_null_code _ _ _ _ E1). intros row v. cbn. rewrite Er. cbn. unfold column_value. rewrite Hn. by intros [= <-].
  - pose proof (emit_column_read_code _ _ _ _ _ _ _ Er Hn H1) as Hc. unfold into_code in *. cbn. rewrite Er. exact Hc.
Qed.

Lemma compile_column_code table catalog name sp s r s' :
  compile_column scope table name alloc s = (Ok r, s') -> value_code scope (MkExpr (EColumn table catalog name) sp) s r s'.
Proof.
  intros H1. unfold compile_column in H1. apply lift_inv in H1 as (rs & Er & H1). gstep H1 s1 E1. gcall H1 u s2 E2. apply last_ret in H1 as [-> ->].
  apply (alloc_into _ _ _ _ _ E1 (column_into_code table catalog name sp rs _ _ _ _ Er E2)). done.
Qed.

Lemma compile_param_code kind sp s r s' : covered (MkExpr (EParam kind) sp) = true -> compile_param kind s = (Ok r, s') -> value_code scope (MkExpr (EParam kind) sp) s r s'.
Proof.
  intros Ck H1. unfold compile_param in H1. gstep H1 s1 E1. destruct kind as [|n| | | ]; try discriminate Ck; cbv beta iota in H1.
  2-4: apply ret_inv in H1; cbv beta iota in H1; apply last_ret in H1 as [-> ->]; unfold CodegenRun.value_code; gcode s.
  2-4: exists (fun x => x = nreg s); split; [gwithin|]; split; [lia|]; intros I row reach Src Hre F vm v Fin S Hi Hn [= <-]; exists vm; split; [|by apply Hn].
  2-4: refine (conj _ (conj _ (conj _ _))); [fchain|done|gframe|done].
  apply gen_assoc in H1. gstep H1 s2 E2. apply ret_inv in H1. cbv beta iota in H1. apply lift_inv in H1 as (p & Ep & H1). apply ok_or_inv, i32_try_from_id in Ep as ->.
  gstep H1 s3 E3. apply last_ret in H1 as [-> ->]. unfold CodegenRun.value_code. gcode s. exists (fun _ => False). split; [gwithin|]. split; [lia|].
  intros I row reach Src Hre F vm v Fin S Hi Hn Ev.
  destruct (run_write env other_op F _ s2 s3 vm (nreg s) v E3 ltac:(assumption) S Hi ltac:(gvalid)) as (vm' & R & I' & X & Fr).
  { intros pc. change (op_variable (instruction OpVariable n (nreg s) 0) vm = (_ ← set_register (nreg s) v; mret SNext) vm). unfold op_variable, param. cbn [p1 p2 instruction].
    assert (El : default Null (if 1 <=? n then get_at (params vm) (n - 1) else None) = v); [|by rewrite <- El].
    rewrite (source_params other_op vm Hi). injection Ev as <-. by destruct (1 <=? n). }
  exists vm'. split; [greach|done].
Qed.

(** ** Operators *)

Lemma run_binary env' other' op opcode (f : Value -> Value -> Value) l r d (vm : MVm) pc : arithmetic_opcode op = Some opcode -> arithmetic op = Some f -> valid_reg l -> valid_reg r ->
  dispatch env' other' pc (binary_instruction opcode l r d) vm = (_ ← set_register d (null_or f (rg vm l) (rg vm r)); mret SNext) vm.
Proof.
  intros Eo Ef Hl Hr. destruct op; try discriminate Eo; injection Eo as <-; injection Ef as <-; unfold dispatch; cbn [binary_instruction Program.opcode instruction]; unfold reversed_op, op_binary; cbn [p1 p2 p3 instruction];
    rewrite ?(M_bind_ok _ _ _ _ _ (register_ok vm l Hl)), ?(M_bind_ok _ _ _ _ _ (register_ok vm r Hr)), ?(M_bind_ok _ _ _ _ _ (register_ok vm l Hl)); unfold null_or; rewrite ?(orb_comm (is_null (rg vm r))); done.
Qed.

Lemma value_binary_code op opcode lhs rhs sp s r s' : covered lhs = true -> covered rhs = true -> arithmetic_opcode op = Some opcode ->
  value_binary value scope opcode lhs rhs s = (Ok r, s') -> value_code scope (MkExpr (EBinary op lhs rhs) sp) s r s'.
Proof.
  intros Cl Cr Eo H1. unfold value_binary in H1. gcall H1 l s1 E1. gcall H1 y s2 E2. gstep H1 s3 E3. gstep H1 s4 E4. apply last_ret in H1 as [-> ->].
  destruct (HV _ _ _ _ Cl E1) as [B1 M1]. destruct (HV _ _ _ _ Cr E2) as [B2 M2]. unfold CodegenRun.value_code. gcode s. gmeaning M1. gmeaning M2.
  destruct M1 as (N1 & W1 & V1 & M1), M2 as (N2 & W2 & V2 & M2). exists (fun x => N1 x \/ N2 x). split; [gwithin|]. split; [lia|].
  intros I row reach Src Hre F vm v Fin S Hi Hn Ev. gsplit. cbn in Ev. destruct (eval scope row lhs) as [vl|] eqn:El; [|done]. destruct (eval scope row rhs) as [vr|] eqn:Er; [|done]. cbn in Ev.
  assert (exists f, arithmetic op = Some f /\ v = null_or f vl vr) as (f & Ef & ->) by (destruct op; try discriminate Eo; injection Ev as <-; by eexists).
  destruct (M1 I row reach Src Hre F vm vl Fin ltac:(gstage) Hi ltac:(gnulls) El) as (vm1 & (R1 & I1 & Fr1 & N1') & X1).
  destruct (M2 I row reach Src Hre F vm1 vr Fin ltac:(gstage) I1 ltac:(gnulls) Er) as (vm2 & (R2 & I2 & Fr2 & N2') & X2).
  destruct (run_write env other_op F _ s3 s4 vm2 (nreg s2) (null_or f vl vr) E4 ltac:(assumption) S I2 ltac:(gvalid)) as (vm3 & R3 & I3 & X3 & Fr3).
  { intros pc. rewrite (run_binary env other_op op opcode f) by (assumption || gvalid). rewrite (Fr2 l), X1, X2 by lia. done. }
  exists vm3. split; [greach|done].
Qed.

Lemma value_cast_code inner tn sp s r s' : covered inner = true -> value_cast value scope inner tn s = (Ok r, s') -> value_code scope (MkExpr (ECast inner tn) sp) s r s'.
Proof.
  intros Ci H1. unfold value_cast in H1. gcall H1 l s1 E1. gstep H1 s2 E2. apply last_ret in H1 as [-> ->]. destruct (HV _ _ _ _ Ci E1) as [B1 M1].
  unfold CodegenRun.value_code. gcode s. gmeaning M1. destruct M1 as (N1 & W1 & V1 & M1). exists N1. split; [gwithin|]. split; [lia|].
  intros I row reach Src Hre F vm v Fin S Hi Hn Ev. cbn in Ev. destruct (eval scope row inner) as [x|] eqn:Ex; [|done]. injection Ev as <-.
  destruct (M1 I row reach Src Hre F vm x Fin ltac:(gstage) Hi ltac:(gnulls) Ex) as (vm1 & (R1 & I1 & Fr1 & N1') & X1).
  destruct (run_update env other_op F _ s1 s2 vm1 l (fun v => cast_to v (affinity_of tn)) E2 ltac:(assumption) S I1 ltac:(gvalid)) as (vm2 & R2 & I2 & X2 & Fr2).
  { intros pc. unfold dispatch. cbn [Program.opcode instruction]. unfold op_cast. cbn [p1 p2 instruction]. by destruct (affinity_of tn). }
  rewrite X1 in X2. exists vm2. split; [|done]. refine (conj _ (conj I2 (conj _ _))); [fchain|gframe|].
  intros z Hz. destruct (decide (z = l)) as [->|]; [|pose proof (W1 z Hz); rewrite (Fr2 z) by lia; by apply N1'].
  rewrite X2. rewrite (N1' l Hz) in X1. subst x. by destruct (affinity_of tn).
Qed.

(** Code for a function of one operand: [i] writes [g] of the operand's
    register into the next register. *)
Lemma one_operand_code e inner (i : Z -> Z -> Instruction) (g : Value -> Value) s l s1 s2 s3 : value_code scope inner s l s1 -> s2 = grab s1 -> s3 = push (i l (nreg s1)) s2 ->
  (forall row v, eval scope row e = Some v -> exists x, eval scope row inner = Some x /\ v = g x) ->
  (forall (vm : MVm) pc, valid_reg l -> dispatch env other_op pc (i l (nreg s1)) vm = (_ ← set_register (nreg s1) (g (rg vm l)); mret SNext) vm) ->
  value_code scope e s (nreg s1) s3.
Proof.
  intros [B1 M1] E2 E3 He D.
  unfold CodegenRun.value_code. gcode s. gmeaning M1. destruct M1 as (N1 & W1 & V1 & M1). exists N1. split; [gwithin|]. split; [lia|].
  intros I row reach Src Hre F vm v Fin S Hi Hn Ev. destruct (He row v Ev) as (x & Ex & ->).
  destruct (M1 I row reach Src Hre F vm x Fin ltac:(gstage) Hi ltac:(gnulls) Ex) as (vm1 & (R1 & I1 & Fr1 & N1') & X1).
  destruct (run_write env other_op F _ s2 s3 vm1 (nreg s1) _ E3 ltac:(assumption) S I1 ltac:(gvalid) (fun pc => D vm1 pc ltac:(gvalid))) as (vm2 & R2 & I2 & X2 & Fr2).
  rewrite X1 in X2. exists vm2. split; [greach|done].
Qed.

Lemma value_code_same e' e s r s' : (forall row v, eval scope row e = Some v -> eval scope row e' = Some v) -> value_code scope e' s r s' -> value_code scope e s r s'.
Proof.
  intros He [B M]. split; [done|]. intros C W Fi. destruct (M C W Fi) as (N & Wi & V & R). exists N. split; [done|]. split; [done|].
  intros I row reach Src Hre F vm v Fin S Hi Hn Ev. eauto.
Qed.

Lemma value_unary_code op inner sp s r s' : covered inner = true -> value_unary value scope op inner s = (Ok r, s') -> value_code scope (MkExpr (EUnary op inner) sp) s r s'.
Proof.
  intros Ci H1. destruct op; cbn [value_unary] in H1.
  - gcall H1 l s1 E1. gstep H1 s2 E2. gstep H1 s3 E3. apply last_ret in H1 as [-> ->].
    apply (one_operand_code _ inner (fun l d => instruction OpNot l d 0) sql_not_value s l s1 s2 s3 (HV _ _ _ _ Ci E1) E2 E3).
    + intros row v. cbn. destruct (eval scope row inner) as [x|]; [|done]. intros [= <-]. eauto.
    + intros vm pc Hl. unfold dispatch. cbn [Program.opcode instruction]. unfold op_not. cbn [p1 p2 instruction]. by rewrite (M_bind_ok _ _ _ _ _ (register_ok vm l Hl)).
  - apply (value_code_same inner); [|by apply HV]. intros row v. cbn. by destruct (eval scope row inner).
  - gcall H1 l s1 E1. gstep H1 s2 E2. gstep H1 s3 E3. gstep H1 s4 E4. gstep H1 s5 E5. apply last_ret in H1 as [-> ->].
    destruct (HV _ _ _ _ Ci E1) as [B1 M1]. unfold CodegenRun.value_code. gcode s. gmeaning M1. destruct M1 as (N1 & W1 & V1 & M1). exists N1. split; [gwithin|]. split; [lia|].
    intros I row reach Src Hre F vm v Fin S Hi Hn Ev. cbn in Ev. destruct (eval scope row inner) as [x|] eqn:Ex; [|done]. injection Ev as <-.
    destruct (M1 I row reach Src Hre F vm x Fin ltac:(gstage) Hi ltac:(gnulls) Ex) as (vm1 & (R1 & I1 & Fr1 & N1') & X1).
    destruct (run_integer env other_op F 0 _ s2 s3 vm1 E3 ltac:(assumption) ltac:(gstage) I1 ltac:(gvalid)) as (vm2 & R2 & I2 & X2 & Fr2).
    destruct (run_write env other_op F _ s4 s5 vm2 (nreg s3) (null_or checked_sub (Integer 0) x) E5 ltac:(assumption) S I2 ltac:(gvalid)) as (vm3 & R3 & I3 & X3 & Fr3).
    { intros pc. change (instruction OpSubtract l (nreg s1) (nreg s3)) with (binary_instruction OpSubtract (nreg s1) l (nreg s3)).
      rewrite (run_binary env other_op BSub OpSubtract checked_sub) by (done || gvalid). by rewrite (Fr2 l), X1, X2 by lia. }
    exists vm3. split; [greach|done].
  - gcall H1 l s1 E1. gstep H1 s2 E2. gstep H1 s3 E3. apply last_ret in H1 as [-> ->].
    apply (one_operand_code _ inner (fun l d => instruction OpBitNot l d 0) (fun v => match v with Null => Null | _ => bit_not v end) s l s1 s2 s3 (HV _ _ _ _ Ci E1) E2 E3).
    + intros row v. cbn. destruct (eval scope row inner) as [x|]; [|done]. intros [= <-]. eauto.
    + intros vm pc Hl. unfold dispatch. cbn [Program.opcode instruction]. unfold op_bit_not. cbn [p1 p2 instruction]. by rewrite (M_bind_ok _ _ _ _ _ (register_ok vm l Hl)).
Qed.

(** ** Conditions as values *)

Lemma compile_bool_code e s r s' : covered e = true -> (forall row v, eval scope row e = Some v -> v = of_truth (truth v) /\ (is_definite e = true -> truth v <> None)) ->
  compile_bool_to_value cond scope e s = (Ok r, s') -> value_code scope e s r s'.
Proof.
  intros Ce Hb H1. unfold compile_bool_to_value in H1. gstep H1 s1 E1. gstep H1 s2 E2. gstep H1 s3 E3. destruct (is_definite e) eqn:Hd.
  - gcall H1 a s4 E4. gstep H1 s5 E5. gstep H1 s6 E6. gstep H1 s7 E7. gstep H1 s8 E8. gstep H1 s9 E9. apply last_ret in H1 as [-> ->].
    destruct (HC _ _ _ _ _ Ce E4) as [B1 M1]. unfold CodegenRun.value_code. gcode s. gmeaning M1. destruct M1 as (N1 & W1 & M1). exists N1. split; [gwithin|]. split; [lia|].
    intros I row reach Src Hre F vm v Fin S Hi Hn Ev. destruct (Hb row v Ev) as [Hv Hdef].
    pose proof (target_mark _ _ _ F E7 ltac:(gstage)) as T1. pose proof (target_mark _ _ _ F E9 ltac:(gstage)) as T2.
    destruct (M1 I row reach Src Hre F vm v Fin ltac:(gstage) ltac:(cbn; lia) ltac:(done) Hi ltac:(gnulls) Ev) as (vm1 & R1 & I1 & Fr1 & N1').
    destruct (run_integer_goto env other_op F Fin 0 _ _ s4 s5 s6 vm1 (pos s9) E5 E6 ltac:(assumption) ltac:(assumption) ltac:(gstage) ltac:(gstage) I1 ltac:(gvalid) ltac:(lia) ltac:(lia)) as (vma & Ra & Ia & Xa & Fra).
    destruct (run_integer env other_op F 1 _ s7 s8 vm1 E8 ltac:(assumption) ltac:(gstage) I1 ltac:(gvalid)) as (vmb & Rb & Ib & Xb & Frb).
    rewrite Hv. destruct (truth v) as [[|]|]; [exists vmb|exists vma|by destruct Hdef]; (split; [|done]); cbn in R1; greach.
  - gstep H1 s4 E4. gstep H1 s5 E5. gcall H1 a s6 E6. gcall H1 b s7 E7. gstep H1 s8 E8. gstep H1 s9 E9. gstep H1 s10 E10. gstep H1 s11 E11. gstep H1 s12 E12.
    gstep H1 s13 E13. gstep H1 s14 E14. gstep H1 s15 E15. gstep H1 s16 E16. apply last_ret in H1 as [-> ->].
    destruct (HC _ _ _ _ _ Ce E6) as [B1 M1]. destruct (HC _ _ _ _ _ Ce E7) as [B2 M2]. unfold CodegenRun.value_code. gcode s. gmeaning M1. gmeaning M2.
    destruct M1 as (N1 & W1 & M1), M2 as (N2 & W2 & M2). exists (fun x => N1 x \/ N2 x). split; [gwithin|]. split; [lia|].
    intros I row reach Src Hre F vm v Fin S Hi Hn Ev. gsplit. destruct (Hb row v Ev) as [Hv _].
    pose proof (target_mark _ _ _ F E8 ltac:(gstage)) as T1. pose proof (target_mark _ _ _ F E11 ltac:(gstage)) as T2.
    pose proof (target_mark _ _ _ F E14 ltac:(gstage)) as T3. pose proof (target_mark _ _ _ F E16 ltac:(gstage)) as T4.
    destruct (M1 I row reach Src Hre F vm v Fin ltac:(gstage) ltac:(cbn; lia) ltac:(done) Hi ltac:(gnulls) Ev) as (vm1 & R1 & I1 & Fr1 & N1').
    destruct (M2 I row reach Src Hre F vm1 v Fin ltac:(gstage) ltac:(cbn; lia) ltac:(cbn; lia) I1 ltac:(gnulls) Ev) as (vm2 & R2 & I2 & Fr2 & N2').
    destruct (run_integer_goto env other_op F Fin 0 _ _ s8 s9 s10 vm2 (pos s16) E9 E10 ltac:(assumption) ltac:(assumption) ltac:(gstage) ltac:(gstage) I2 ltac:(gvalid) ltac:(lia) ltac:(lia)) as (vma & Ra & Ia & Xa & Fra).
    destruct (run_null env other_op F _ s11 s12 vm2 E12 ltac:(assumption) ltac:(gstage) I2 ltac:(gvalid)) as (vmn & Rn & In & Xn & Frn).
    pose proof (run_goto env other_op F Fin _ s12 s13 vmn E13 ltac:(assumption) ltac:(gstage) In ltac:(lia)) as Rg.
    destruct (run_integer env other_op F 1 _ s14 s15 vm1 E15 ltac:(assumption) ltac:(gstage) I1 ltac:(gvalid)) as (vmb & Rb & Ib & Xb & Frb).
    rewrite Hv. destruct (truth v) as [[|]|]; [exists vmb|exists vma|exists vmn]; (split; [|done]); cbn in R1, R2; greach.
Qed.

(** ** CASE *)

Lemma emit_branch_into_code e d s u s' : covered e = true -> emit_branch_into value scope e d s = (Ok u, s') -> into_code (fun row => eval scope row e) d s s'.
Proof.
  intros Ce H1. assert (Hcopy : (r ← value scope e; _ ← emit (instruction OpCopy r d 0); mret tt) s = (Ok u, s') -> into_code (fun row => eval scope row e) d s s').
  { clear H1. intros H1. gcall H1 r s1 E1. gstep H1 s2 E2. apply last_ret in H1 as [_ ->]. destruct (HV _ _ _ _ Ce E1) as [B1 M1]. unfold into_code. gcode s. gmeaning M1.
    destruct M1 as (N1 & W1 & V1 & M1). exists N1. split; [gwithin|]. intros Hd I row reach Src Hre F vm v Fin S Hi Hn Ev.
    destruct (M1 I row reach Src Hre F vm v Fin ltac:(gstage) Hi ltac:(gnulls) Ev) as (vm1 & (R1 & I1 & Fr1 & N1') & X1).
    destruct (run_copy env other_op F r d s1 s2 vm1 E2 ltac:(assumption) S I1 ltac:(gvalid) ltac:(gvalid)) as (vm2 & R2 & I2 & X2 & Fr2). rewrite X1 in X2.
    exists vm2. refine (conj _ (conj I2 (conj _ (conj _ X2)))); [fchain|gframe|gnulls]. }
  destruct e as [k sp]. cbn [emit_branch_into e_kind] in H1. unfold emit_branch_into in H1. cbn [e_kind] in H1. destruct k; try (exact (Hcopy H1)).
  - destruct l; try (refine (emit_literal_code _ _ _ _ _ _ H1); done). gstep H1 s1 E1. apply last_ret in H1 as [_ ->]. apply (emit_null_code _ _ _ _ E1). cbn. by intros row v [= <-].
  - gcall H1 a s1 E1. apply last_ret in H1 as [_ ->]. unfold compile_column in E1. apply lift_inv in E1 as (rs & Er & E1). apply ret_inv in E1. gcall E1 u' s2 E2. apply last_ret in E1 as [_ ->].
    exact (column_into_code _ _ _ _ rs _ _ _ _ Er E2).
Qed.

(** The condition of an arm, and the value of the first arm that matches. *)
Definition arm_truth (row : Row) (operand : option Expr) (w : Expr) : option (option bool) :=
  match operand with
  | Some o => x ← eval scope row o; y ← eval scope row w; Some (compare_exprs scope BEq o w x y)
  | None => truth <$> eval scope row w
  end.
Fixpoint arms_value (row : Row) (operand : option Expr) (whens : list (Expr * Expr)) : option (option Value) :=
  match whens with
  | [] => Some None
  | (w, t) :: whens => c ← arm_truth row operand w; if bool_decide (c = Some true) then Some <$> eval scope row t else arms_value row operand whens
  end.

Lemma case_eval row operand whens else_ sp : eval scope row (MkExpr (ECase operand whens else_) sp) =
  (o ← arms_value row operand whens; match o with Some v => Some v | None => match else_ with Some e => eval scope row e | None => Some Null end end).
Proof.
  cbn. induction whens as [|[w t] whens IH]; [done|]. cbn [arms_value]. unfold arm_truth. destruct operand as [o|].
  - destruct (eval scope row o) as [x|]; [|done]. destruct (eval scope row w) as [y|]; [|done]. cbn [mbind option_bind]. case_bool_decide; [by destruct (eval scope row t)|exact IH].
  - destruct (eval scope row w) as [y|]; [|done]. cbn [mbind option_bind fmap option_fmap option_map]. case_bool_decide; [by destruct (eval scope row t)|exact IH].
Qed.

Lemma case_condition_eval row operand w : covered w = true -> (forall o, operand = Some o -> covered o = true) ->
  covered (case_condition operand w) = true /\ forall c, arm_truth row operand w = Some c -> exists v, eval scope row (case_condition operand w) = Some v /\ truth v = c.
Proof.
  intros Cw Co. destruct operand as [o|]; cbn [case_condition].
  - split; [cbn; by rewrite (Co o eq_refl), Cw|]. intros c. unfold arm_truth. destruct (eval scope row o) as [x|] eqn:Ex; [|done]. destruct (eval scope row w) as [y|] eqn:Ey; [|done].
    intros [= <-]. eexists. split; [by apply comparison_eval; [left| |]|apply truth_of_truth].
  - split; [done|]. intros c. unfold arm_truth. destruct (eval scope row w) as [y|]; [|done]. intros [= <-]. eauto.
Qed.

Definition arms_meaning (operand : option Expr) (d : Z) (end_label : Label) (whens : list (Expr * Expr)) (s s' : Gen) (N : Z -> Prop) : Prop :=
  0 <= d < nreg s -> forall I row reach, RowSource other_op I row reach -> in_reach scope reach ->
  forall F vm o, final F -> stage s' F -> pos s' <= target F end_label -> I vm -> nulls N vm -> arms_value row operand whens = Some o ->
  exists vm', I vm' /\ frame_but d s s' vm vm' /\ nulls N vm' /\
    match o with
    | Some v => fwd (finish (em F)) (pos s) vm (target F end_label) vm' /\ rg vm' d = v
    | None => fwd (finish (em F)) (pos s) vm (pos s') vm'
    end.

Lemma case_arms_code operand d end_label whens : (forall o, operand = Some o -> covered o = true) -> forallb (fun '(w, t) => covered w && covered t) whens = true ->
  forall s u s', for_each whens (case_arm value cond scope operand d end_label) s = (Ok u, s') ->
  code s s' (exists N, within s s' N /\ arms_meaning operand d end_label whens s s' N).
Proof.
  intros Co. induction whens as [|[w t] whens IH]; intros Cw s u s' H1.
  - apply last_ret in H1 as [_ ->]. gcode s. exists (fun _ => False). split; [gwithin|]. intros Hd I row reach Src Hre F vm o Fin S Ha Hi Hn [= <-].
    exists vm. refine (conj Hi (conj _ (conj Hn _))); [done|fchain].
  - cbn in Cw. apply andb_true_iff in Cw as [C1 C2]. apply andb_true_iff in C1 as [Cw Ct]. cbn [for_each] in H1. apply M_bind_inv in H1 as (a & s5 & H1 & E6). unfold case_arm in H1.
    gstep H1 s1 E1. gcall H1 b s2 E2. gcall H1 c s3 E3. gstep H1 s4 E4. apply last_place in H1. cbn [fst snd] in E2, E3.
    destruct (HC _ _ _ _ _ (proj1 (case_condition_eval (MkRow (fun _ _ => Null) (fun _ => Null) []) operand w Cw Co)) E2) as [B2 M2].
    destruct (emit_branch_into_code _ _ _ _ _ Ct E3) as [B3 M3]. destruct (IH C2 _ _ _ E6) as [B6 M6].
    gcode s. gmeaning M2. gmeaning M3. gmeaning M6. destruct M2 as (N2 & W2 & M2), M3 as (N3 & W3 & M3), M6 as (N6 & W6 & M6).
    exists (fun x => (N2 x \/ N3 x) \/ N6 x). split; [gwithin|]. intros Hd I row reach Src Hre F vm o Fin S Ha Hi Hn Ev. gsplit. cbn [arms_value] in Ev.
    pose proof (target_mark _ _ _ F H1 ltac:(gstage)) as T1.
    destruct (arm_truth row operand w) as [c'|] eqn:Et; [|done]. cbn [mbind option_bind] in Ev.
    destruct (proj2 (case_condition_eval row operand w Cw Co) c' Et) as (vc & Evc & Etc).
    destruct (M2 I row reach Src Hre F vm vc Fin ltac:(gstage) ltac:(done) ltac:(cbn; lia) Hi ltac:(gnulls) Evc) as (vm1 & R1 & I1 & Fr1 & N1'). rewrite Etc in R1.
    case_bool_decide as Hc.
    + rewrite Hc in R1. change (dest F s2 (pick (null_is_false Fallthrough (Jump (nlab s))) (Some true))) with (pos s2) in R1.
      destruct (eval scope row t) as [v|] eqn:Ev'; [|done]. injection Ev as <-.
      destruct (M3 ltac:(lia) I row reach Src Hre F vm1 v Fin ltac:(gstage) I1 ltac:(gnulls) Ev') as (vm2 & R2 & I2 & Fr2 & N2' & X2).
      pose proof (run_goto env other_op F Fin _ s3 s4 vm2 E4 ltac:(assumption) ltac:(gstage) I2 ltac:(lia)) as R3.
      exists vm2. refine (conj I2 (conj _ (conj _ (conj _ X2)))); [gframe|gnulls|fchain].
    + assert (Er : dest F s2 (pick (null_is_false Fallthrough (Jump (nlab s))) c') = target F (nlab s)) by (by destruct c' as [[|]|]). rewrite Er in R1.
      destruct (M6 ltac:(lia) I row reach Src Hre F vm1 o Fin S ltac:(lia) I1 ltac:(gnulls) Ev) as (vm2 & I2 & Fr2 & N2' & R2).
      exists vm2. refine (conj I2 (conj _ (conj _ _))); [gframe|gnulls|]. destruct o; [destruct R2 as [R2 X2]; split; [fchain|done]|fchain].
Qed.

Lemma value_case_code operand whens else_ sp s r s' : covered (MkExpr (ECase operand whens else_) sp) = true ->
  value_case value cond scope operand whens else_ s = (Ok r, s') -> value_code scope (MkExpr (ECase operand whens else_) sp) s r s'.
Proof.
  intros Ce H1. cbn in Ce. apply andb_true_iff in Ce as [Ce Cl]. apply andb_true_iff in Ce as [Co Cw].
  assert (Co' : forall o, operand = Some o -> covered o = true) by (by intros o ->).
  unfold value_case in H1. gstep H1 s1 E1. gstep H1 s2 E2. gcall H1 a s3 E3. gcall H1 b s4 E4. gstep H1 s5 E5. apply last_ret in H1 as [-> ->].
  destruct (case_arms_code _ _ _ _ Co' Cw _ _ _ E3) as [B3 M3].
  assert (into_code (fun row => match else_ with Some e => eval scope row e | None => Some Null end) (nreg s) s3 s4) as [B4 M4].
  { destruct else_ as [e|]; [by apply (emit_branch_into_code _ _ _ _ _ Cl E4)|]. gstep E4 s6 E6. apply last_ret in E4 as [_ ->]. apply (emit_null_code _ _ _ _ E6). by intros row v [= <-]. }
  unfold CodegenRun.value_code. gcode s. gmeaning M3. gmeaning M4. destruct M3 as (N3 & W3 & M3), M4 as (N4 & W4 & M4). exists (fun x => N3 x \/ N4 x). split; [gwithin|]. split; [lia|].
  intros I row reach Src Hre F vm v Fin S Hi Hn Ev. gsplit. rewrite case_eval in Ev. destruct (arms_value row operand whens) as [o|] eqn:Eo; [|done]. cbn [mbind option_bind] in Ev.
  pose proof (target_mark _ _ _ F E5 ltac:(gstage)) as T.
  destruct (M3 ltac:(lia) I row reach Src Hre F vm o Fin ltac:(gstage) ltac:(lia) Hi ltac:(gnulls) Eo) as (vm1 & I1 & Fr1 & N1' & R1).
  destruct o as [v'|].
  - injection Ev as ->. destruct R1 as [R1 X1]. exists vm1. split; [greach|done].
  - destruct (M4 ltac:(lia) I row reach Src Hre F vm1 v Fin ltac:(gstage) I1 ltac:(gnulls) Ev) as (vm2 & R2 & I2 & Fr2 & N2' & X2). exists vm2. split; [greach|done].
Qed.
End Pieces.
End Values.
