(* ===== verification/CodegenCall.v ===== *)
(** * The code of function calls

    The arguments in consecutive registers, the descriptor that names the
    function and its arity, LIKE and GLOB. *)

From stdpp Require Import prelude list numbers gmap.
From Stdlib Require Import ZArith Lia.
From S2P Require Import Prelude Varint Text Record Float ValueOrder Format Coerce Functions Tokenizer Header Freelist Vfs Journal Wal Lock Shm Checkpoint PageCache Pager Commit Transactions Allocator BtreePage LeafPage LeafSearch Btree Tree TreeSplit Overflow Table Cursor Program Vm VmCursor Sorter Exec Ast Codegen CodegenExpr CodegenState Eval CodegenRun CodegenCond CodegenValue.

Local Open Scope Z_scope.

(** ** The descriptor *)

Lemma lower_lower c : to_ascii_lowercase (to_ascii_lowercase c) = to_ascii_lowercase c.
Proof. unfold to_ascii_lowercase. destruct ((65 <=? c) && (c <=? 90)) eqn:E; [|by rewrite E]. destruct ((65 <=? c + 32) && (c + 32 <=? 90)) eqn:E2; lia. Qed.

Lemma call_lower name args v : call name args = Ok v -> call (map to_ascii_lowercase name) args = Ok v.
Proof.
  unfold call. rewrite map_map, (map_ext _ to_ascii_lowercase lower_lower). by destruct (List.find _ _).
Qed.

Lemma parse_usize_decimal n : 0 <= n <= U64_MAX -> parse_usize (to_string n) = Some n.
Proof.
  intros Hn. unfold to_string. rewrite (proj2 (Z.ltb_ge n 0)) by lia. destruct (decimal_ok n ltac:(lia)) as (Ev & Hd & Hne). unfold parse_usize.
  destruct (decimal n) as [|c ds] eqn:Ed; [done|]. assert (Hc : c <> 43) by (cbn in Hd; unfold is_ascii_digit in Hd; lia).
  assert (Em : match c :: ds with 43 :: r => r | _ => c :: ds end = c :: ds) by (by repeat case_match).
  rewrite Em, Hd, Ev. by rewrite (proj2 (Z.leb_le n U64_MAX)) by lia.
Qed.

Lemma position_app_l {A} (p : A -> bool) l x r : forallb (fun y => negb (p y)) l = true -> p x = true -> position p (l ++ x :: r) = Some (len l).
Proof.
  intros Hl Hx. induction l as [|y l IH]; cbn; [by rewrite Hx|]. cbn in Hl. apply andb_true_iff in Hl as [Hy Hl]. destruct (p y); [done|].
  rewrite (IH Hl). cbn. rewrite len_cons. f_equal. lia.
Qed.

Lemma descriptor_roundtrip name n : name_ok name = true -> 0 <= n <= U64_MAX -> parse_function_descriptor (function_descriptor name n) = Some (name, n).
Proof.
  intros Hn Hb. unfold parse_function_descriptor, function_descriptor. change (lit "(") with [40]. change (lit ")") with [41]. cbn [app].
  rewrite (position_app_l (Z.eqb 40) name 40 (to_string n ++ [41])); [|rewrite <- Hn; unfold name_ok; clear Hn; induction name as [|c name IH]; cbn [forallb]; [done|by rewrite IH, Z.eqb_sym]|done].
  cbn [mbind option_bind]. rewrite bool_decide_true.
  2: { rewrite app_comm_cons, app_assoc. apply last_snoc. }
  rewrite len_app, len_cons, len_app. change (len [41]) with 1. pose proof (len_nonneg name). pose proof (len_nonneg (to_string n)).
  rewrite (proj2 (Z.leb_le _ _)) by lia.
  replace (Z.to_nat (len name + 1)) with (S (length name)) by (unfold len; lia).
  replace (Z.to_nat (len name + (1 + (len (to_string n) + 1)) - 1 - (len name + 1))) with (length (to_string n)) by (unfold len; lia).
  rewrite (drop_app_ge name) by lia. replace (S (length name) - length name)%nat with 1%nat by lia. cbn [drop]. rewrite drop_0, take_app_length, (parse_usize_decimal n Hb). cbn [mbind option_bind].
  replace (Z.to_nat (len name)) with (length name) by (unfold len; lia). by rewrite take_app_length.
Qed.

Section Calls.
Context `{host : Host} {OS : Type} `{Fcntl OS} {Ext : Type} (env : Env).
Abbreviation MVm := (Vm (OS := OS) (Ext := Ext)).
Context (other_op : Instruction -> M MVm ExecError Step).
Abbreviation fwd := (fwd env other_op).
Abbreviation value_code := (value_code env other_op).
Abbreviation cond_code := (cond_code env other_op).

(** ** Reading arguments *)

Lemma read_registers_ok opcode start (vm : MVm) vs : 0 <= start -> start + len vs <= MAX_REGISTERS -> (forall (k : nat) v, vs !! k = Some v -> rg vm (start + Z.of_nat k) = v) ->
  read_registers opcode start (len vs) vm = (Ok vs, vm).
Proof.
  intros Hs Hl Hv. unfold read_registers. unfold len in *. rewrite Nat2Z.id.
  assert (Hgen : forall vs o, 0 <= o -> start + o + Z.of_nat (length vs) <= MAX_REGISTERS -> (forall (k : nat) v, vs !! k = Some v -> rg vm (start + o + Z.of_nat k) = v) ->
    each_register opcode start (upto o (length vs)) register vm = (Ok vs, vm)).
  { clear vs Hl Hv. induction vs as [|v vs IH]; intros o Ho Hl Hv; [done|]. cbn [length upto each_register]. unfold MAX_REGISTERS in *. cbn [length] in Hl.
    assert (Ec : i32_checked_add start o = Some (start + o)) by (unfold i32_checked_add, i32_try_from, I32_MIN, I32_MAX; rewrite (proj2 (Z.leb_le _ _)), (proj2 (Z.leb_le _ _)) by lia; done).
    rewrite Ec. cbn [ok_or]. rewrite (M_bind_ok _ _ _ _ _ (eq_refl : lift (Ok (start + o)) vm = _)).
    rewrite (M_bind_ok _ _ _ _ _ (register_ok vm (start + o) ltac:(gvalid))). rewrite (M_bind_ok _ _ vm vs vm).
    - pose proof (Hv O v eq_refl) as E. rewrite Z.add_0_r in E. by rewrite E.
    - apply IH; [lia|lia|]. intros k w Hk. specialize (Hv (S k) w Hk). by replace (start + (o + 1) + Z.of_nat k) with (start + o + Z.of_nat (S k)) by lia. }
  apply Hgen; [lia|lia|]. intros k v Hk. rewrite Z.add_0_r. by apply Hv.
Qed.

Lemma op_function_ok name arity first d (vm : MVm) vs v : name_ok name = true -> len vs = arity -> 0 <= first -> first + arity <= MAX_REGISTERS ->
  (forall (k : nat) x, vs !! k = Some x -> rg vm (first + Z.of_nat k) = x) -> call name vs = Ok v ->
  op_function (instruction_p4 OpFunction 0 first d (P4Str (function_descriptor name arity))) vm = (_ ← set_register d v; mret SNext) vm.
Proof.
  intros Hn <- Hf Hb Hv Hc. pose proof (len_nonneg vs). unfold op_function. cbn [p4 p2 p3 instruction_p4]. rewrite descriptor_roundtrip by (done || unfold U64_MAX, MAX_REGISTERS in *; lia).
  unfold read_arguments. rewrite (proj2 (Z.leb_le _ _)) by (unfold I32_MAX, MAX_REGISTERS in *; lia).
  rewrite (M_bind_ok _ _ _ _ _ (read_registers_ok _ first vm vs Hf Hb Hv)). by rewrite Hc.
Qed.

(** ** A run of registers *)

Lemma contiguous_from_lookup first n regs : forall i, 0 <= first -> 0 <= i -> n <= MAX_REGISTERS -> Forall (fun r => 0 <= r < n) regs -> contiguous_from first i regs = true ->
  forall (k : nat) r, regs !! k = Some r -> r = first + i + Z.of_nat k.
Proof.
  unfold MAX_REGISTERS. induction regs as [|x regs IH]; intros i Hf Hi Hn Hr Hc k r Hk; [done|]. cbn in Hc. apply andb_true_iff in Hc as [Hx Hc]. apply Forall_cons in Hr as [Hx' Hr].
  destruct k as [|k].
  - injection Hk as <-. apply Z.eqb_eq in Hx. unfold i32_sat_add, I32_MIN, I32_MAX in Hx. lia.
  - cbn in Hk. specialize (IH (i + 1) Hf ltac:(lia) Hn Hr Hc k r Hk). lia.
Qed.

Lemma allocs_code {A} (l : list A) : forall s ds s', compile_all (fun _ => alloc) l s = (Ok ds, s') -> length ds = length l /\
  code s s' (pos s' = pos s /\ nreg s' = nreg s + len l /\ forall (k : nat) d, ds !! k = Some d -> d = nreg s + Z.of_nat k).
Proof.
  induction l as [|x l IH]; intros s ds s' H1.
  - apply last_ret in H1 as [-> ->]. split; [done|]. gcode s. change (len (@nil A)) with 0. split; [lia|]. split; [lia|]. done.
  - cbn [compile_all] in H1. gstep H1 s1 E1. gcall H1 ds' s2 E2. apply last_ret in H1 as [-> ->]. destruct (IH _ _ _ E2) as [Hl [B2 M2]]. split; [cbn; lia|].
    gcode s. gmeaning M2. destruct M2 as (P2 & L2 & M2). rewrite len_cons. split; [lia|]. split; [lia|]. intros [|k] d Hk; cbn in Hk; [injection Hk as <-; lia|].
    specialize (M2 k d Hk). lia.
Qed.

Lemma copies_code pairs : forall s u s', for_each pairs (fun '(r, d) => _ ← emit (instruction OpCopy r d 0); mret tt) s = (Ok u, s') ->
  code s s' (nreg s' = nreg s /\ forall I row reach, RowSource other_op I row reach -> forall F (vm : MVm), final F -> stage s' F -> I vm ->
    Forall (fun p => valid_reg p.1 /\ valid_reg p.2) pairs -> NoDup pairs.*2 -> (forall p q, p ∈ pairs -> q ∈ pairs -> p.1 <> q.2) ->
    exists vm', fwd (finish (em F)) (pos s) vm (pos s') vm' /\ I vm' /\ (forall x, 0 <= x -> x ∉ pairs.*2 -> rg vm' x = rg vm x) /\
      forall p, p ∈ pairs -> rg vm' p.2 = rg vm p.1).
Proof.
  induction pairs as [|[r d] pairs IH]; intros s u s' H1.
  - apply last_ret in H1 as [_ ->]. gcode s. split; [lia|]. intros I row reach Src F vm Fin S Hi _ _ _. exists vm. split; [fchain|]. split; [done|]. split; [done|]. intros p Hp. by apply not_elem_of_nil in Hp.
  - cbn [for_each] in H1. apply gen_assoc in H1. gstep H1 s1 E1. apply ret_inv in H1. destruct (IH _ _ _ H1) as [B2 M2]. gcode s. gmeaning M2. destruct M2 as [L2 M2]. split; [lia|].
    intros I row reach Src F vm Fin S Hi Hv Hnd Hdis. apply Forall_cons in Hv as [[Hr Hd] Hv]. cbn in Hr, Hd, Hnd. apply NoDup_cons in Hnd as [Hd' Hnd].
    destruct (run_copy env other_op F r d s s1 vm E1 ltac:(assumption) ltac:(gstage) Hi Hr Hd) as (vm1 & R1 & I1 & X1 & Fr1).
    destruct (M2 I row reach Src F vm1 Fin S I1 Hv Hnd) as (vm2 & R2 & I2 & Fr2 & X2); [intros p q Hp Hq; apply Hdis; by right|].
    exists vm2. split; [fchain|]. split; [done|]. unfold valid_reg in Hd. split.
    + intros x Hx Hn. cbn in Hn. apply not_elem_of_cons in Hn as [Hne Hn]. rewrite Fr2 by done. by apply Fr1.
    + intros p Hp. apply elem_of_cons in Hp as [->|Hp]; cbn [fst snd].
      * rewrite Fr2; [exact X1|lia|exact Hd'].
      * rewrite (X2 p Hp). apply Fr1; [rewrite Forall_forall in Hv; destruct (Hv p Hp) as [Hp1 _]; unfold valid_reg in Hp1; lia|].
        apply (Hdis p (r, d)); [by right|by left].
Qed.

(** The values of [regs] end up in the run that starts at the result. *)
Lemma contiguous_run_code first regs s f s' : (forall r, head regs = Some r -> first = r) -> contiguous_run first regs s = (Ok f, s') ->
  code s s' (0 <= first < nreg s -> Forall (fun r => 0 <= r < nreg s) regs -> first <= f /\ f + len regs <= nreg s' /\
    forall I row reach, RowSource other_op I row reach -> forall F (vm : MVm), final F -> stage s' F -> I vm ->
    exists vm', fwd (finish (em F)) (pos s) vm (pos s') vm' /\ I vm' /\ frame s s' vm vm' /\ forall (k : nat) r, regs !! k = Some r -> rg vm' (f + Z.of_nat k) = rg vm r).
Proof.
  intros Hh H1. unfold contiguous_run in H1. destruct (contiguous_from first 0 regs) eqn:Hc.
  - apply last_ret in H1 as [-> ->]. gcode s. intros Hf Hr. pose proof (contiguous_from_lookup first (nreg s) regs 0 ltac:(lia) ltac:(lia) ltac:(unfold MAX_REGISTERS; lia) Hr Hc) as Hk.
    split; [lia|]. split.
    + destruct (decide (regs = [])) as [->|Hne]; [change (len (@nil Z)) with 0; lia|]. destruct (lookup_lt_is_Some_2 regs (length regs - 1)) as [r Er]; [destruct regs; [done|cbn; lia]|].
      pose proof (proj1 (Forall_lookup _ _) Hr _ _ Er) as Hr'. cbn in Hr'. specialize (Hk _ _ Er). unfold len. destruct regs; [done|]. cbn in *. lia.
    + intros I row reach Src F vm Fin S Hi. exists vm. split; [fchain|]. split; [done|]. split; [done|]. intros k r Er. rewrite (Hk _ _ Er). f_equal. lia.
  - gcall H1 ds s1 E1. gcall H1 u s2 E2. apply last_ret in H1 as [-> ->]. destruct (allocs_code _ _ _ _ E1) as [Hl [B1 M1]]. destruct (copies_code _ _ _ _ E2) as [B2 M2].
    gcode s. gmeaning M1. gmeaning M2. intros Hf Hr. destruct M1 as (P1 & L1 & D1), M2 as [L2 M2].
    assert (Hne : regs <> []) by (by intros ->). assert (Hd0 : default first (head ds) = nreg s).
    { destruct ds as [|d0 ds]; [destruct regs; [done|discriminate Hl]|]. specialize (D1 O d0 eq_refl). cbn. lia. }
    rewrite Hd0. split; [lia|]. split; [lia|]. intros I row reach Src F vm Fin S Hi.
    assert (Es : (zip regs ds).*2 = ds) by (apply snd_zip; lia).
    assert (Hin : forall p, p ∈ zip regs ds -> 0 <= p.1 < nreg s /\ nreg s <= p.2 < nreg s1).
    { intros [pr pd] Hp. apply list_elem_of_lookup in Hp as [k Hk]. apply lookup_zip_Some in Hk as [Hk1 Hk2]. split; [exact (proj1 (Forall_lookup _ _) Hr _ _ Hk1)|].
      cbn [snd]. specialize (D1 _ _ Hk2). apply lookup_lt_Some in Hk2. unfold len in L1. lia. }
    destruct (M2 I row reach Src F vm Fin ltac:(gstage) Hi) as (vm' & R & I' & Fr & X).
    + apply Forall_forall. intros p Hp. apply Hin in Hp. unfold valid_reg, MAX_REGISTERS. lia.
    + rewrite Es. apply NoDup_alt. intros a b d Ha Hb. apply D1 in Ha, Hb. lia.
    + intros p q Hp Hq. apply Hin in Hp, Hq. lia.
    + exists vm'. split; [fchain|]. split; [done|]. split.
      * intros x Hx Hn. apply Fr; [done|]. rewrite Es. intros Hx'. apply list_elem_of_lookup in Hx' as [k Hk]. pose proof (D1 _ _ Hk). apply lookup_lt_Some in Hk. unfold len in L1. lia.
      * intros k r Hk. destruct (lookup_lt_is_Some_2 ds k) as [d Ed]; [apply lookup_lt_Some in Hk; lia|]. rewrite <- (D1 _ _ Ed).
        apply (X (r, d)). apply list_elem_of_lookup. exists k. by apply lookup_zip_Some.
Qed.

Section Pieces.
Context (value : Scope -> Expr -> G Z) (scope : Scope).
Context (HV : forall e s r s', covered e = true -> value scope e s = (Ok r, s') -> value_code scope e s r s').

(** ** Arguments in order *)

Lemma compile_list_code {A} (f : A -> G Z) (ex : A -> Expr) xs : (forall x s r s', x ∈ xs -> f x s = (Ok r, s') -> value_code scope (ex x) s r s') ->
  forall s regs s', compile_all f xs s = (Ok regs, s') -> length regs = length xs /\
  code s s' (exists N, within s s' N /\ Forall (fun r => nreg s <= r < nreg s') regs /\ nreg s + len xs <= nreg s' /\
    forall I row reach, RowSource other_op I row reach -> in_reach scope reach ->
    forall F vm vs, final F -> stage s' F -> I vm -> nulls N vm -> Forall2 (fun x v => eval scope row (ex x) = Some v) xs vs ->
    exists vm', reaches env other_op F I N s s' vm (pos s') vm' /\ Forall2 (fun r v => rg vm' r = v) regs vs).
Proof.
  induction xs as [|x xs IH]; intros Hf s regs s' H1.
  - apply last_ret in H1 as [-> ->]. split; [done|]. gcode s. exists (fun _ => False). split; [gwithin|]. split; [constructor|]. change (len (@nil A)) with 0. split; [lia|].
    intros I row reach Src Hre F vm vs Fin S Hi Hn Hvs. apply Forall2_nil_inv_l in Hvs as ->. exists vm. split; [greach|constructor].
  - cbn [compile_all] in H1. gcall H1 r s1 E1. gcall H1 rs s2 E2. apply last_ret in H1 as [-> ->].
    destruct (Hf x _ _ _ ltac:(by left) E1) as [B1 M1]. destruct (IH ltac:(intros; eapply Hf; [by right|done]) _ _ _ E2) as [Hlen [B2 M2]]. split; [cbn; lia|]. gcode s. gmeaning M1. gmeaning M2.
    destruct M1 as (N1 & W1 & V1 & M1), M2 as (N2 & W2 & V2 & L2 & M2). exists (fun x => N1 x \/ N2 x). split; [gwithin|].
    split; [constructor; [lia|]; eapply Forall_impl; [exact V2|]; cbn; lia|]. rewrite len_cons. split; [lia|].
    intros I row reach Src Hre F vm vs Fin S Hi Hn Hvs. apply Forall2_cons_inv_l in Hvs as (v & vs' & Ev & Hvs & ->). gsplit.
    destruct (M1 I row reach Src Hre F vm v Fin ltac:(gstage) Hi ltac:(gnulls) Ev) as (vm1 & (R1 & I1 & Fr1 & N1') & X1).
    destruct (M2 I row reach Src Hre F vm1 vs' Fin ltac:(gstage) I1 ltac:(gnulls) Hvs) as (vm2 & (R2 & I2 & Fr2 & N2') & X2).
    exists vm2. split; [greach|]. constructor; [|done]. by rewrite (Fr2 r) by lia.
Qed.

Lemma compile_args_code es : forallb covered es = true -> forall s regs s', compile_all (value scope) es s = (Ok regs, s') ->
  length regs = length es /\
  code s s' (exists N, within s s' N /\ Forall (fun r => nreg s <= r < nreg s') regs /\ nreg s + len es <= nreg s' /\
    forall I row reach, RowSource other_op I row reach -> in_reach scope reach ->
    forall F vm vs, final F -> stage s' F -> I vm -> nulls N vm -> Forall2 (fun e v => eval scope row e = Some v) es vs ->
    exists vm', reaches env other_op F I N s s' vm (pos s') vm' /\ Forall2 (fun r v => rg vm' r = v) regs vs).
Proof.
  intros Ce. apply (compile_list_code _ id). intros e s r s' He. apply HV. rewrite forallb_forall in Ce. apply Ce. by apply list_elem_of_In.
Qed.

(** ** The call *)

Lemma function_eval row name distinct args sp v : eval scope row (MkExpr (EFunctionCall name distinct args) sp) = Some v -> exists vs,
  Forall2 (fun e v => eval scope row e = Some v) (match args with FaStar => [] | FaList l => l end) vs /\ call name vs = Ok v.
Proof.
  intros Ev. cbn -[mapM] in Ev. destruct args as [|l].
  - exists []. split; [constructor|]. cbn in Ev. destruct (call name []); [by injection Ev as ->|done].
  - destruct (mapM (eval scope row) l) as [vs|] eqn:Em; [|done]. exists vs. split; [by apply mapM_Some_1|]. cbn in Ev. destruct (call name vs); [by injection Ev as ->|done].
Qed.

Lemma name_ok_lower name : name_ok name = true -> name_ok (map to_ascii_lowercase name) = true.
Proof.
  unfold name_ok. induction name as [|c name IH]; [done|]. cbn. intros Hn. apply andb_true_iff in Hn as [Hc Hn]. rewrite (IH Hn), andb_true_r.
  unfold to_ascii_lowercase. destruct ((65 <=? c) && (c <=? 90)) eqn:E; [|done]. apply negb_true_iff, Z.eqb_neq. lia.
Qed.

Lemma value_function_code name distinct args sp s r s' : covered (MkExpr (EFunctionCall name distinct args) sp) = true ->
  value_function value scope name args s = (Ok r, s') -> value_code scope (MkExpr (EFunctionCall name distinct args) sp) s r s'.
Proof.
  intros Ce H1. cbn in Ce. apply andb_true_iff in Ce as [Cn Ca]. unfold value_function in H1. destruct (is_aggregate_call name args); [done|].
  set (es := match args with FaStar => [] | FaList l => l end) in H1. assert (Ces : forallb covered es = true) by (by destruct args).
  gcall H1 regs s1 E1. destruct (compile_args_code es Ces _ _ _ E1) as [Hlen [B1 M1]].
  assert (exists first s2, (first ← contiguous_run first regs; d ← alloc;
      _ ← emit (instruction_p4 OpFunction 0 first d (P4Str (function_descriptor (map to_ascii_lowercase name) (len es)))); mret d) s2 = (Ok r, s') /\
      code s1 s2 (pos s2 = pos s1 /\ (0 <= nreg s -> Forall (fun r => nreg s <= r < nreg s1) regs -> 0 <= first < nreg s2)) /\ forall x, head regs = Some x -> first = x) as (first & s2 & H2 & [B2 M2] & Hh).
  { destruct regs as [|x regs].
    - gstep H1 s2 E2. exists (nreg s1), s2. split; [done|]. split; [|done]. clear B1 M1. gcode s1. split; [lia|]. intros _ _. lia.
    - apply ret_inv in H1. exists x, s1. split; [done|]. split; [|by intros ? [= <-]]. clear B1 M1. gcode s1. split; [lia|]. intros Hs Hf. apply Forall_cons in Hf as [Hf _]. lia. }
  clear H1. gcall H2 f s3 E3. gstep H2 s4 E4. gstep H2 s5 E5. apply last_ret in H2 as [-> ->]. destruct (contiguous_run_code _ _ _ _ _ Hh E3) as [B3 M3].
  unfold CodegenRun.value_code. gcode s. gmeaning M1. gmeaning M2. gmeaning M3. destruct M1 as (N1 & W1 & V1 & L1 & M1), M2 as (P2 & V2).
  pose proof (V2 ltac:(lia) V1) as V3. destruct (M3 V3) as (Hf & Hfl & M3'); [eapply Forall_impl; [exact V1|]; cbn; lia|]. clear M3. rename M3' into M3.
  exists N1. split; [gwithin|]. split; [lia|]. intros I row reach Src Hre F vm v Fin S Hi Hn Ev. destruct (function_eval _ _ _ _ _ _ Ev) as (vs & Hvs & Hc). fold es in Hvs.
  destruct (M1 I row reach Src Hre F vm vs Fin ltac:(gstage) Hi ltac:(gnulls) Hvs) as (vm1 & (R1 & I1 & Fr1 & N1') & X1).
  destruct (M3 I row reach Src F vm1 Fin ltac:(gstage) I1) as (vm2 & R2 & I2 & Fr2 & X2).
  pose proof (Forall2_length _ _ _ Hvs) as Hl1. pose proof (Forall2_length _ _ _ X1) as Hl2.
  destruct (run_write env other_op F _ s4 s5 vm2 (nreg s3) v E5 ltac:(assumption) S I2 ltac:(gvalid)) as (vm3 & R3 & I3 & X3 & Fr3).
  { intros pc. unfold dispatch. cbn [Program.opcode instruction_p4]. apply (op_function_ok _ _ _ _ _ vs); [by apply name_ok_lower|unfold len; lia|lia| | |by apply call_lower].
    - unfold MAX_REGISTERS, len in *. lia.
    - intros k x Hk. destruct (Forall2_lookup_r _ _ _ _ _ X1 Hk) as (rk & Erk & Hx). by rewrite (X2 _ _ Erk). }
  exists vm3. split; [greach|done].
Qed.

(** ** LIKE and GLOB *)

(** A function whose arguments are the first [n] of the registers compiled. *)
Lemma apply_code name (n : nat) es e s regs s1 s2 s3 first : covered e = true -> forallb covered es = true -> compile_all (value scope) es s = (Ok regs, s1) -> s2 = grab s1 ->
  s3 = push (instruction_p4 OpFunction 0 first (nreg s1) (P4Str (function_descriptor name (Z.of_nat n)))) s2 ->
  name_ok name = true -> (n <= length es)%nat -> head regs = Some first -> (forall (k : nat) r, (k < n)%nat -> k <> 0%nat -> regs !! k = Some r -> r = i32_sat_add first (Z.of_nat k)) ->
  (forall row v, eval scope row e = Some v -> exists vs, Forall2 (fun e v => eval scope row e = Some v) es vs /\ call name (take n vs) = Ok v) ->
  value_code scope e s (nreg s1) s3.
Proof.
  intros Ce Ces E1 E2 E3 Hname Hn Hh Hk He. destruct (compile_args_code es Ces _ _ _ E1) as [Hlen [B1 M1]].
  unfold CodegenRun.value_code. gcode s. gmeaning M1. destruct M1 as (N1 & W1 & V1 & L1 & M1). exists N1. split; [gwithin|]. split; [lia|].
  intros I row reach Src Hre F vm v Fin S Hi Hnu Ev. destruct (He row v Ev) as (vs & Hvs & Hc).
  destruct (M1 I row reach Src Hre F vm vs Fin ltac:(gstage) Hi ltac:(gnulls) Hvs) as (vm1 & (R1 & I1 & Fr1 & N1') & X1).
  pose proof (Forall2_length _ _ _ Hvs) as Hl1. assert (Hf : nreg s <= first < nreg s1).
  { destruct regs as [|r0 regs]; [done|]. injection Hh as ->. by apply Forall_cons in V1 as [? _]. }
  assert (Hreg : forall (k : nat) r, (k < n)%nat -> regs !! k = Some r -> r = first + Z.of_nat k /\ nreg s <= r < nreg s1).
  { intros k r Hkn Er. pose proof (proj1 (Forall_lookup _ _) V1 _ _ Er) as Hr. cbn in Hr.
    destruct k as [|k]; [destruct regs; [done|]; cbn in Hh, Er; simplify_eq; lia|]. specialize (Hk (Datatypes.S k) r Hkn ltac:(done) Er). unfold i32_sat_add, I32_MIN, I32_MAX in Hk. lia. }
  assert (Hb : first + Z.of_nat n <= 1048576).
  { destruct n as [|n']; [lia|]. destruct (lookup_lt_is_Some_2 regs n') as [r Er]; [lia|]. destruct (Hreg n' r ltac:(lia) Er). lia. }
  destruct (run_write env other_op F _ s2 s3 vm1 (nreg s1) v E3 ltac:(assumption) S I1 ltac:(gvalid)) as (vm2 & R2 & I2 & X2 & Fr2).
  { intros pc. unfold dispatch. cbn [Program.opcode instruction_p4]. apply (op_function_ok _ _ _ _ _ (take n vs)); [done|unfold len; rewrite length_take; lia|lia|unfold MAX_REGISTERS; lia| |done].
    intros k x Hx. apply lookup_take_Some in Hx as [Hx Hkn]. destruct (Forall2_lookup_r _ _ _ _ _ X1 Hx) as (rk & Erk & Hv). destruct (Hreg k rk Hkn Erk) as [-> _]. exact Hv. }
  exists vm2. split; [greach|done].
Qed.

Lemma like_eval row inner pattern glob escape sp v : eval scope row (MkExpr (ELike inner pattern glob false escape) sp) = Some v ->
  exists vs, Forall2 (fun e v => eval scope row e = Some v) ([pattern; inner] ++ match escape with Some e => [e] | None => [] end) vs /\
    call (if glob then lit "glob" else lit "like") (take (if glob then 2%nat else length vs) vs) = Ok v.
Proof.
  cbn. destruct (eval scope row pattern) as [p|] eqn:Ep; [|done]. destruct (eval scope row inner) as [t|] eqn:Et; [|done]. cbn.
  destruct escape as [e|]; [destruct (eval scope row e) as [x|] eqn:Ex; [|done]|]; cbn; destruct (call _ _) as [w|] eqn:Ec; try done; intros [= <-].
  - exists [p; t; x]. split; [by repeat constructor|]. by destruct glob.
  - exists [p; t]. split; [by repeat constructor|]. by destruct glob.
Qed.

(** The operands of LIKE as a list of arguments. *)
Lemma like_args inner pattern (escape : option Expr) s s' (k : Z -> G Z) r :
  (pat_r ← value scope pattern; txt_r ← value scope inner;
   if negb (txt_r =? i32_sat_add pat_r 1) then throw (Unsupported (lit "LIKE/GLOB text operand did not land in the register contiguous with its pattern operand")) else
   _ ← match escape with
       | None => mret tt
       | Some e =>
         esc_r ← value scope e;
         if negb (esc_r =? i32_sat_add pat_r 2)
         then throw (Unsupported (lit "LIKE ESCAPE operand did not land in the register contiguous with its pattern/text operands"))
         else mret tt
       end;
   k pat_r) s = (Ok r, s') ->
  exists regs s1 first, compile_all (value scope) ([pattern; inner] ++ match escape with Some e => [e] | None => [] end) s = (Ok regs, s1) /\ k first s1 = (Ok r, s') /\
    head regs = Some first /\ forall (n : nat) x, regs !! n = Some x -> n <> 0%nat -> x = i32_sat_add first (Z.of_nat n).
Proof.
  intros H1. gcall H1 p s1 E1. gcall H1 t s2 E2. destruct (Z.eqb_spec t (i32_sat_add p 1)) as [Ht|]; [|done]. cbn [negb] in H1. destruct escape as [e|].
  - apply gen_assoc in H1. gcall H1 x s3 E3. destruct (Z.eqb_spec x (i32_sat_add p 2)) as [Hx|]; [|done]. cbn [negb] in H1. apply ret_inv in H1. exists [p; t; x], s3, p. split; [|split; [done|split; [done|]]].
    + cbn [app compile_all]. rewrite (M_bind_ok _ _ _ _ _ E1), (M_bind_ok _ _ s1 [t; x] s3); [done|]. rewrite (M_bind_ok _ _ _ _ _ E2), (M_bind_ok _ _ s2 [x] s3); [done|]. by rewrite (M_bind_ok _ _ _ _ _ E3).
    + intros [|[|[|n]]] y; cbn; intros [= <-]; done.
  - apply ret_inv in H1. exists [p; t], s2, p. split; [|split; [done|split; [done|]]].
    + cbn [app compile_all]. rewrite (M_bind_ok _ _ _ _ _ E1), (M_bind_ok _ _ s1 [t] s2); [done|]. by rewrite (M_bind_ok _ _ _ _ _ E2).
    + intros [|[|n]] y; cbn; intros [= <-]; done.
Qed.

Lemma value_like_code inner pattern glob negated escape sp s r s' : covered (MkExpr (ELike inner pattern glob negated escape) sp) = true ->
  value_like value scope inner pattern glob negated escape s = (Ok r, s') -> value_code scope (MkExpr (ELike inner pattern glob negated escape) sp) s r s'.
Proof.
  intros Ce H1. set (n := (if glob then 2 else match escape with Some _ => 3 | None => 2 end)%nat). set (name := if glob then lit "glob" else lit "like").
  unfold value_like in H1.
  assert (H2 : (pat_r ← value scope pattern; txt_r ← value scope inner;
   if negb (txt_r =? i32_sat_add pat_r 1) then throw (Unsupported (lit "LIKE/GLOB text operand did not land in the register contiguous with its pattern operand")) else
   _ ← match escape with
       | None => mret tt
       | Some e =>
         esc_r ← value scope e;
         if negb (esc_r =? i32_sat_add pat_r 2)
         then throw (Unsupported (lit "LIKE ESCAPE operand did not land in the register contiguous with its pattern/text operands"))
         else mret tt
       end;
   d ← alloc; _ ← emit (instruction_p4 OpFunction 0 pat_r d (P4Str (function_descriptor name (Z.of_nat n)))); if negated then out ← alloc; _ ← emit (instruction OpNot d out 0); mret out else mret d) s = (Ok r, s')).
  { subst n name. destruct escape, glob; exact H1. }
  clear H1. destruct (like_args inner pattern escape s s' _ r H2) as (regs & s1 & first & Ea & H1 & Hh & Hk). clear H2. gstep H1 s2 E2. gstep H1 s3 E3.
  cbn in Ce. apply andb_true_iff in Ce as [Ce Cesc]. apply andb_true_iff in Ce as [Ci Cp].
  assert (Hcode : value_code scope (MkExpr (ELike inner pattern glob false escape) sp) s (nreg s1) s3).
  { refine (apply_code name n _ _ s regs s1 s2 s3 first _ _ Ea E2 E3 _ _ Hh _ _).
    - cbn. by rewrite Ci, Cp.
    - cbn. rewrite Cp, Ci. cbn. destruct escape; cbn; [by rewrite Cesc|done].
    - by subst name; destruct glob.
    - subst n. destruct glob, escape; cbn; lia.
    - intros k x _ Hne Hx. by apply Hk.
    - intros row v Ev. destruct (like_eval _ _ _ _ _ _ _ Ev) as (vs & Hvs & Hc). exists vs. split; [done|]. subst name n. apply Forall2_length in Hvs. destruct glob; [done|]. rewrite <- Hc. f_equal.
      rewrite <- Hvs. by destruct escape. }
  destruct negated.
  - gstep H1 s4 E4. gstep H1 s5 E5. apply last_ret in H1 as [-> ->].
    apply (one_operand_code env other_op scope _ _ (fun l d => instruction OpNot l d 0) sql_not_value s _ s3 s4 s5 Hcode E4 E5).
    + intros row v. cbn. destruct (eval scope row pattern) as [p|]; [|done]. destruct (eval scope row inner) as [t|]; [|done]. cbn.
      destruct escape as [e|]; [destruct (eval scope row e); [|done]|]; cbn; (destruct (call _ _); [|done]); cbn; intros [= <-]; eauto.
    + intros vm pc Hl. unfold dispatch. cbn [Program.opcode instruction]. unfold op_not. cbn [p1 p2 instruction]. by rewrite (M_bind_ok _ _ _ _ _ (register_ok vm _ Hl)).
  - apply last_ret in H1 as [-> ->]. exact Hcode.
Qed.
End Pieces.
End Calls.

(** * Compiled expressions compute their values

    The two compilers against the reference semantics, by induction on the
    fuel, and how much fuel is enough. *)

Lemma truth_not v : truth (sql_not_value v) = sql_not (truth v).
Proof. assert (Hb : forall b, truth (Integer (b2z b)) = Some b) by (by intros [|]). destruct v; [done|..]; unfold sql_not_value; rewrite Hb; cbn -[is_falsy]; by rewrite negb_involutive. Qed.

Section Correct.
Context `{host : Host} {OS : Type} `{Fcntl OS} {Ext : Type} (env : Env).
Abbreviation MVm := (Vm (OS := OS) (Ext := Ext)).
Context (other_op : Instruction -> M MVm ExecError Step) (sub : SubqueryCompiler) (scope : Scope).
Abbreviation value_code := (value_code env other_op).
Abbreviation cond_code := (cond_code env other_op).

Lemma cond_code_same e' e targets' targets s s' : (forall row v, eval scope row e = Some v -> exists v', eval scope row e' = Some v' /\ pick targets' (truth v') = pick targets (truth v)) ->
  (forall F s, ahead F s (on_true targets) -> ahead F s (on_false targets) -> ahead F s (on_true targets') /\ ahead F s (on_false targets')) ->
  cond_code scope e' targets' s s' -> cond_code scope e targets s s'.
Proof.
  intros He Ha [B M]. split; [done|]. intros C W Fi. destruct (M C W Fi) as (N & Wi & R). exists N. split; [done|].
  intros I row reach Src Hre F vm v Fin S At Af Hi Hn Ev. destruct (He row v Ev) as (v' & Ev' & <-). destruct (Ha F s' At Af). eauto.
Qed.

(** The kinds whose value is computed through a condition. *)
Definition is_bool_kind (k : ExprKind) : bool :=
  match k with
  | EBinary op _ _ => match arithmetic_opcode op with None => true | _ => false end
  | EIs _ _ _ | EIsNull _ _ | EBetween _ _ _ _ | EIn _ _ _ => true
  | _ => false
  end.

Lemma bool_kind_value row e v : is_bool_kind (e_kind e) = true -> eval scope row e = Some v -> v = of_truth (truth v) /\ (is_definite e = true -> truth v <> None).
Proof.
  destruct e as [k sp]. cbn [e_kind]. intros Hb Ev.
  assert (exists t, v = of_truth t /\ (is_definite (MkExpr k sp) = true -> t <> None)) as (t & -> & Hd).
  { destruct k; try discriminate Hb; cbn in Hb, Ev |- *.
    - destruct (eval scope row lhs); [|done]. destruct (eval scope row rhs); [|done]. cbn in Ev. destruct op; try discriminate Hb; injection Ev as <-; by eexists.
    - destruct (eval scope row lhs); [|done]. destruct (eval scope row rhs); [|done]. cbn in Ev. injection Ev as <-. eexists. split; [done|]. by destruct negated.
    - destruct (eval scope row expr); [|done]. cbn in Ev. injection Ev as <-. eexists. split; [done|]. by destruct negated.
    - destruct (eval scope row expr); [|done]. destruct (eval scope row lo); [|done]. destruct (eval scope row hi); [|done]. injection Ev as <-. by eexists.
    - destruct items as [|x l]; [injection Ev as <-; by eexists|]. destruct (eval scope row expr); [|done]. cbn -[mapM] in Ev.
      destruct (mapM (eval scope row) (x :: l)) as [ys|]; [|done]. injection Ev as <-. by eexists. }
  rewrite truth_of_truth. done.
Qed.

Theorem compile_codes fuel :
  (forall e s r s', covered e = true -> compile_value sub fuel scope e s = (Ok r, s') -> value_code scope e s r s') /\
  (forall e t s u s', covered e = true -> compile_cond sub fuel scope e t s = (Ok u, s') -> cond_code scope e t s s').
Proof.
  induction fuel as [|fuel [HV HC]]; [done|]. split.
  - intros [k sp] s r s' Ce H1. cbn [compile_value e_kind] in H1.
    assert (Hbool : is_bool_kind k = true -> compile_bool_to_value (compile_cond sub fuel) scope (MkExpr k sp) s = (Ok r, s') -> value_code scope (MkExpr k sp) s r s').
    { intros Hb Hc. apply (compile_bool_code env other_op _ scope HC _ _ _ _ Ce); [|exact Hc]. intros row v. by apply bool_kind_value. }
    destruct k; try discriminate Ce.
    + by apply value_literal_code.
    + by apply compile_param_code.
    + by apply compile_column_code.
    + by apply (value_function_code env other_op _ scope HV).
    + by apply (value_unary_code env other_op _ scope HV).
    + cbn in Ce. apply andb_true_iff in Ce as [Cl Cr]. destruct (arithmetic_opcode op) as [opcode|] eqn:Eo.
      * by apply (value_binary_code env other_op _ scope HV op opcode).
      * apply Hbool; [cbn; by rewrite Eo|exact H1].
    + by apply Hbool.
    + by apply Hbool.
    + by apply Hbool.
    + by apply Hbool.
    + by apply (value_like_code env other_op _ scope HV).
    + by apply (value_case_code env other_op _ _ scope HV HC).
    + by apply (value_cast_code env other_op _ scope HV).
    + apply (value_code_same env other_op scope expr); [by intros row v|by apply HV].
    + apply (value_code_same env other_op scope expr); [by intros row v|by apply HV].
  - intros [k sp] t s u s' Ce H1. cbn [compile_cond e_kind e_span] in H1. pose proof (cond_value_code env other_op _ scope HV (MkExpr k sp) t s u s' Ce) as Hval.
    destruct k; try discriminate Ce; try (by apply Hval).
    + destruct op; try (by apply Hval). apply (cond_code_same expr _ (negate t)); [|done|by apply (HC _ _ _ u)].
      intros row v. cbn. destruct (eval scope row expr) as [x|]; [|done]. intros [= <-]. exists x. split; [done|]. by rewrite pick_negate, truth_not.
    + cbn in Ce. apply andb_true_iff in Ce as [Cl Cr]. destruct op; try (by apply Hval);
        try (eapply (cond_compare_code env other_op _ scope HV); [unfold is_comparison; by eauto 7|done|done|exact H1]).
      * by eapply (cond_or_code env other_op _ scope HC).
      * by eapply (cond_and_code env other_op _ scope HC).
    + cbn in Ce. apply andb_true_iff in Ce as [Cl Cr]. by eapply (cond_is_code env other_op _ scope HV).
    + by eapply (cond_is_null_code env other_op _ scope HV).
    + cbn in Ce. apply andb_true_iff in Ce as [Ce Ch]. apply andb_true_iff in Ce as [Ci Cl]. by eapply (cond_between_code env other_op _ scope HC).
    + cbn in Ce. apply andb_true_iff in Ce as [Ci Cl]. by eapply (cond_in_code env other_op _ scope HV).
    + apply (cond_code_same expr _ t); [by intros row v Ev; exists v|done|by apply (HC _ _ _ u)].
Qed.
End Correct.
