(* ===== verification/CodegenSelect.v ===== *)
(** * Result rows, ORDER BY and LIMIT ([src/codegen/select.rs],
    [src/codegen/select/projection.rs], [src/codegen/select/order_by.rs])

    The cursor numbers of a scan, the registers of a result row, the targets
    of ORDER BY terms, and the guards of DISTINCT, OFFSET and LIMIT that every
    scan emits around a row. *)

From stdpp Require Import prelude list numbers gmap.
From Stdlib Require Import ZArith Lia.
From S2P Require Import Prelude Varint Text Record Float ValueOrder Format Coerce Functions Tokenizer Ast Program Codegen CodegenExpr.

Local Open Scope Z_scope.

(** ** The fields of a [Select] *)
Definition sel_distinct (s : Select) : option Distinctness := let 'MkSelect _ d _ _ _ _ _ _ _ _ _ := s in d.
Definition sel_columns (s : Select) : list ResultColumn := let 'MkSelect _ _ c _ _ _ _ _ _ _ _ := s in c.
Definition sel_from (s : Select) : option FromClause := let 'MkSelect _ _ _ f _ _ _ _ _ _ _ := s in f.
Definition sel_where (s : Select) : option Expr := let 'MkSelect _ _ _ _ w _ _ _ _ _ _ := s in w.
Definition sel_group_by (s : Select) : list Expr := let 'MkSelect _ _ _ _ _ g _ _ _ _ _ := s in g.
Definition sel_having (s : Select) : option Expr := let 'MkSelect _ _ _ _ _ _ h _ _ _ _ := s in h.
Definition sel_compound (s : Select) : list CompoundSelect := let 'MkSelect _ _ _ _ _ _ _ c _ _ _ := s in c.
Definition sel_order_by (s : Select) : list OrderingTerm := let 'MkSelect _ _ _ _ _ _ _ _ o _ _ := s in o.
Definition sel_limit (s : Select) : option Limit := let 'MkSelect _ _ _ _ _ _ _ _ _ l _ := s in l.

(** [matches!(select.distinct, Some(Distinctness::Distinct))]. *)
Definition is_distinct (s : Select) : bool := match sel_distinct s with Some DDistinct => true | _ => false end.

(** ** Cursor numbers *)

Definition TABLE_CURSOR : Z := 0.
Definition SORT_CURSOR : Z := 1.
Definition PSEUDO_CURSOR : Z := 2.
Definition DISTINCT_CURSOR : Z := 3.

Record ScanCursors := MkCursors { cur_table : Z; cur_sort : Z; cur_pseudo : Z; cur_distinct : Z }.

Definition i32_sat_mul (a b : Z) : Z := Z.max I32_MIN (Z.min I32_MAX (a * b)).

Definition for_standalone_select : ScanCursors := MkCursors TABLE_CURSOR SORT_CURSOR PSEUDO_CURSOR DISTINCT_CURSOR.
Definition for_arm (index : Z) : ScanCursors :=
  let base := i32_sat_mul (as_i32 index) 4 in
  MkCursors base (i32_sat_add base 1) (i32_sat_add base 2) (i32_sat_add base 3).
Definition after_arms (count : Z) : Z := i32_sat_mul (default I32_MAX (i32_try_from count)) 4.

(** ** Root pages ([src/codegen/index_maintenance.rs]) *)

Definition positive_i32 (z : Z) : option Z := p ← i32_try_from z; if 0 <? p then Some p else None.
Definition valid_table_root_page (schema : TableSchema) : result CodegenError Z :=
  ok_or (positive_i32 (ts_root_page schema))
    (Unsupported (lit "table " ++ ts_name schema ++ lit " has an invalid root page (" ++ to_string (ts_root_page schema) ++ lit ")")).
Definition valid_index_root_page (index : IndexSchema) : result CodegenError Z :=
  ok_or (positive_i32 (ix_root_page index))
    (Unsupported (lit "index " ++ ix_name index ++ lit " has an invalid root page (" ++ to_string (ix_root_page index) ++ lit ")")).

(** ** ORDER BY ([src/codegen/select/order_by.rs]) *)

Inductive OrderByTarget : Type := ObColumn (idx : Z) | ObExpr (e : Expr).
Record OrderByPlan := MkPlan { pl_target : OrderByTarget; pl_descending : bool; pl_collation : Collation; pl_nulls_first : bool }.
Record OrderByEntry := MkEntry { en_expr : Expr; en_alias : option str }.

Fixpoint strip_collate (e : Expr) : Expr :=
  match e with
  | MkExpr (ECollate inner _) _ => strip_collate inner
  | MkExpr (EParen inner) _ => strip_collate inner
  | _ => e
  end.

Definition SYNTHETIC_SPAN : Span := MkSpan 0 0 0 0.

Definition order_by_entries (select : Select) (schema : TableSchema) : list OrderByEntry :=
  flat_map (fun col =>
    match col with
    | RcStar | RcTableStar _ => map (fun name => MkEntry (MkExpr (EColumn None None name) SYNTHETIC_SPAN) None) (ts_columns schema)
    | RcExpr expr alias => [MkEntry expr alias]
    end) (sel_columns select).

(** [.into_iter().enumerate().map(f)]. *)
Fixpoint imap_from {A B} (f : Z -> A -> B) (i : Z) (l : list A) : list B :=
  match l with [] => [] | x :: l => f i x :: imap_from f (i + 1) l end.

Definition output_column_names (select : Select) (schema : TableSchema) : list str :=
  imap_from (fun i entry =>
    match en_alias entry with
    | Some alias => alias
    | None => match e_kind (en_expr entry) with EColumn _ _ name => name | _ => lit "column" ++ to_string (sat_add i 1) end
    end) 0 (order_by_entries select schema).

Definition order_by_target_for_expr (e : Expr) (schema : TableSchema) : result CodegenError OrderByTarget :=
  match e_kind e with
  | EColumn None _ name => idx ← ok_or (column_index schema name) (UnknownColumn name); Ok (ObColumn idx)
  | _ => Ok (ObExpr e)
  end.

Definition resolve_order_by_target (e : Expr) (select : Select) (schema : TableSchema) : result CodegenError OrderByTarget :=
  match e_kind e with
  | ELiteral (LInteger n) =>
    let entries := order_by_entries select schema in
    entry ← ok_or (if 1 <=? n then get_at entries (n - 1) else None)
      (Unsupported (lit "ORDER BY position " ++ to_string n ++ lit " is out of range for a " ++ to_string (len entries) ++ lit "-column result set"));
    order_by_target_for_expr (en_expr entry) schema
  | EColumn None _ name =>
    match List.find (fun entry => bool_decide (en_alias entry = Some name)) (order_by_entries select schema) with
    | Some entry => order_by_target_for_expr (en_expr entry) schema
    | None => idx ← ok_or (column_index schema name) (UnknownColumn name); Ok (ObColumn idx)
    end
  | _ => order_by_target_for_expr e schema
  end.

Definition order_by_plan (select : Select) (schema : TableSchema) (term : OrderingTerm) : result CodegenError OrderByPlan :=
  let 'MkOrdering expr desc nulls_last := term in
  target ← resolve_order_by_target (strip_collate expr) select schema;
  let descending := default false desc in
  let nulls_first := match nulls_last with Some last => negb last | None => negb descending end in
  let collation :=
    match collation_of expr with
    | Some c => c
    | None => match target with ObColumn idx => default CBinary (get_at (ts_column_collations schema) idx) | ObExpr _ => CBinary end
    end in
  Ok (MkPlan target descending collation nulls_first).
Fixpoint resolve_terms (select : Select) (schema : TableSchema) (terms : list OrderingTerm) : result CodegenError (list OrderByPlan) :=
  match terms with
  | [] => Ok []
  | term :: terms => plan ← order_by_plan select schema term; plans ← resolve_terms select schema terms; Ok (plan :: plans)
  end.
Definition resolve_order_by (select : Select) (schema : TableSchema) : result CodegenError (list OrderByPlan) := resolve_terms select schema (sel_order_by select).

(** ** Result columns ([src/codegen/select/projection.rs]) *)

Inductive ResultColumnPlan : Type := RpColumn (name : str) | RpExpr (e : Expr).

Definition result_columns (select : Select) (schema : TableSchema) : list ResultColumnPlan :=
  flat_map (fun col =>
    match col with
    | RcStar | RcTableStar _ => map RpColumn (ts_columns schema)
    | RcExpr expr _ => [RpExpr expr]
    end) (sel_columns select).

(** The collation of a column by its exact name. *)
Definition declared_collation (schema : TableSchema) (name : str) : Collation :=
  default CBinary (idx ← position (fun c => bool_decide (c = name)) (ts_columns schema); get_at (ts_column_collations schema) idx).
Definition result_column_collations (schema : TableSchema) (cols : list ResultColumnPlan) : list Collation :=
  map (fun col =>
    match col with
    | RpColumn name => declared_collation schema name
    | RpExpr expr =>
      match collation_of expr with
      | Some c => c
      | None => match e_kind (strip_collate expr) with EColumn _ _ name => declared_collation schema name | _ => CBinary end
      end
    end) cols.

(** What a scan does with a row in registers [first .. first + count - 1]. *)
Definition Sink : Type := Z -> Z -> G unit.

Section Rows.
Context (sub : SubqueryCompiler) (fuel : nat).

(** A column of a record already built: the rowid alias is a field like the
    others. *)
Definition emit_pseudo_column (cursor idx r : Z) : G unit :=
  p2 ← lift (ok_or (i32_try_from idx) (does_not_fit idx));
  _ ← emit (instruction OpColumn cursor p2 r); mret tt.

Definition scan_scope (schema : TableSchema) (cursor : Z) (catalog : list TableSchema) : Scope := with_catalog (single schema cursor) catalog.

Definition compile_row_value (schema : TableSchema) (cursor : Z) (pseudo : bool) (catalog : list TableSchema) (col : ResultColumnPlan) : G Z :=
  match col with
  | RpColumn name =>
    idx ← lift (ok_or (column_index schema name) (UnknownColumn name));
    r ← alloc;
    _ ← (if pseudo && bool_decide (ts_rowid_alias schema = Some idx) then emit_pseudo_column cursor idx r
         else emit_column_read schema cursor idx r);
    mret r
  | RpExpr e =>
    match e_kind e with
    | EColumn None None name =>
      match (if pseudo then column_index schema name else None) with
      | Some idx =>
        if bool_decide (ts_rowid_alias schema = Some idx) then r ← alloc; _ ← emit_pseudo_column cursor idx r; mret r
        else compile_value sub fuel (scan_scope schema cursor catalog) e
      | None => compile_value sub fuel (scan_scope schema cursor catalog) e
      end
    | _ => compile_value sub fuel (scan_scope schema cursor catalog) e
    end
  end.

(** The columns of a row in consecutive registers: the first and how many. *)
Definition compile_row_values (schema : TableSchema) (cols : list ResultColumnPlan) (cursor : Z) (pseudo : bool) (catalog : list TableSchema) : G (Z * Z) :=
  regs ← compile_all (compile_row_value schema cursor pseudo catalog) cols;
  match regs with
  | [] => r ← alloc; mret (r, 0)
  | first :: _ => dest ← contiguous_run first regs; mret (dest, len cols)
  end.

Definition count_or_zero (count : Z) : Z := default 0 (i32_try_from count).

Definition emit_row_via_sink (select : Select) (schema : TableSchema) (cursor : Z) (pseudo : bool) (catalog : list TableSchema) (sink : Sink) : G unit :=
  '(first, count) ← compile_row_values schema (result_columns select schema) cursor pseudo catalog;
  sink first (count_or_zero count).

Definition emit_dedup_check (dedup_cursor first : Z) (collations : list Collation) (skip_label : Label) : G unit :=
  _ ← emit_jump (instruction_p4 OpFound dedup_cursor 0 first (P4SeekKey collations)) skip_label;
  _ ← emit (instruction_p4 OpIdxInsert dedup_cursor first 0 (P4SeekKey collations)); mret tt.

Definition emit_distinct_guard (select : Select) (schema : TableSchema) (cursor : Z) (pseudo : bool) (distinct_cursor : Z) (skip_label : Label)
    (catalog : list TableSchema) : G unit :=
  if negb (is_distinct select) then mret tt else
  let cols := result_columns select schema in
  '(first, _) ← compile_row_values schema cols cursor pseudo catalog;
  emit_dedup_check distinct_cursor first (result_column_collations schema cols) skip_label.

(** ** LIMIT and OFFSET ([src/codegen/select/limit_scan.rs]) *)

Record LimitState := MkLimitState { offset_reg : option Z; limit_reg : option Z }.

Definition compile_limit_setup (scope : Scope) (select : Select) : G (option LimitState) :=
  match sel_limit select with
  | None => mret None
  | Some (MkLimit limit offset) =>
    l ← compile_value sub fuel scope limit;
    o ← match offset with Some e => r ← compile_value sub fuel scope e; mret (Some r) | None => mret None end;
    mret (Some (MkLimitState o (Some l)))
  end.

Definition emit_offset_guard (limit : LimitState) (row_skip : Label) : G unit :=
  match offset_reg limit with
  | Some r => emit_jump (instruction OpIfPos r 0 1) row_skip
  | None => mret tt
  end.

Definition emit_limit_guard (limit : LimitState) (end_label : Label) : G unit :=
  match limit_reg limit with
  | None => mret tt
  | Some r =>
    has_budget_addr ← emit (instruction OpIfNotZero r 0 0);
    stop_addr ← emit (instruction OpGoto 0 0 0);
    _ ← patch_p2 stop_addr end_label;
    continue_label ← new_label;
    _ ← patch_p2 has_budget_addr continue_label;
    place continue_label
  end.

(** Both guards, where the statement has a LIMIT. *)
Definition emit_limit_guards (limit : option LimitState) (row_skip end_label : Label) : G unit :=
  match limit with
  | None => mret tt
  | Some limit => _ ← emit_offset_guard limit row_skip; emit_limit_guard limit end_label
  end.
End Rows.

(** * Scans of one table ([src/codegen/select/limit_scan.rs])

    The seek by rowid, the covering-index scan, the skip scan, the full scan
    and the sorted scan, with the search of the WHERE clause for constants. *)

(** ** Statistics of a table ([src/planner.rs]) *)

Record Stats := MkStats { table_rows : option Z; index_stats : gmap str (Z * Z) }.
Definition no_stats : Stats := MkStats None ∅.
Definition SKIP_SCAN_MIN_AVG_EQ : Z := 18.
Definition is_skip_scan_worthwhile (index_name : str) (stats : Stats) : bool :=
  match index_stats stats !! index_name with Some (_, avg_eq) => SKIP_SCAN_MIN_AVG_EQ <=? avg_eq | None => false end.

(** ** Constants of a WHERE clause *)

Definition top_level_equality_operands (e : Expr) : option (Expr * Expr) :=
  match e_kind e with EBinary BEq lhs rhs => Some (lhs, rhs) | _ => None end.

Definition is_rowid_reference_name (schema : TableSchema) (name : str) : bool :=
  eq_ignore_ascii_case name (lit "rowid") || eq_ignore_ascii_case name (lit "_rowid_") || eq_ignore_ascii_case name (lit "oid") ||
  match (idx ← ts_rowid_alias schema; get_at (ts_columns schema) idx) with Some col => eq_ignore_ascii_case col name | None => false end.
Definition is_rowid_reference (schema : TableSchema) (e : Expr) : bool :=
  match e_kind e with EColumn _ _ name => is_rowid_reference_name schema name | _ => false end.

Definition is_supported_seek_operand (e : Expr) : bool :=
  match e_kind e with
  | ELiteral (LInteger _) => true
  | EParam PkAnonymous | EParam (PkNumbered _) => true
  | _ => false
  end.

Fixpoint flatten_and_conjuncts (e : Expr) : list Expr :=
  match e with
  | MkExpr (EBinary BAnd lhs rhs) _ => flatten_and_conjuncts lhs ++ flatten_and_conjuncts rhs
  | _ => [e]
  end.
Fixpoint flatten_or_disjuncts (e : Expr) : list Expr :=
  match e with
  | MkExpr (EBinary BOr lhs rhs) _ => flatten_or_disjuncts lhs ++ flatten_or_disjuncts rhs
  | _ => [e]
  end.

Definition where_col (e : Expr) : option str := match e_kind e with EColumn _ _ name => Some name | _ => None end.

Definition lower_name (name : str) : str := map to_ascii_lowercase name.

(** The constants that columns are equated with, and the pairs of columns
    equated with each other. *)
Definition collect_equality (acc : gmap str Expr * list (str * str)) (conjunct : Expr) : gmap str Expr * list (str * str) :=
  let '(direct, links) := acc in
  match top_level_equality_operands conjunct with
  | None => acc
  | Some (lhs, rhs) =>
    match where_col lhs, where_col rhs with
    | Some name, None => if is_supported_seek_operand rhs then (<[lower_name name := rhs]> direct, links) else acc
    | None, Some name => if is_supported_seek_operand lhs then (<[lower_name name := lhs]> direct, links) else acc
    | Some a, Some b => (direct, links ++ [(lower_name a, lower_name b)])
    | None, None => acc
    end
  end.
Definition collect_equalities (e : Expr) : gmap str Expr * list (str * str) := fold_left collect_equality (flatten_and_conjuncts e) (∅, []).

(** One direction of one link; the flag says that a key was new. *)
Definition copy_constant (from to : str) (acc : gmap str Expr * bool) : gmap str Expr * bool :=
  match acc.1 !! from with
  | Some value => (<[to := value]> acc.1, acc.2 || bool_decide (acc.1 !! to = None))
  | None => acc
  end.
Definition propagation_pass (links : list (str * str)) (direct : gmap str Expr) : gmap str Expr * bool :=
  fold_left (fun acc link => copy_constant link.2 link.1 (copy_constant link.1 link.2 acc)) links (direct, false).
(** [loop { ... if !changed { break } }]. *)
Fixpoint propagate (fuel : nat) (links : list (str * str)) (direct : gmap str Expr) : gmap str Expr :=
  match fuel with
  | O => direct
  | S fuel => let '(direct', changed) := propagation_pass links direct in if changed then propagate fuel links direct' else direct'
  end.
(** A pass that goes on adds a column of a link. *)
Definition propagation_fuel (links : list (str * str)) : nat := S (2 * length links).
Definition propagate_constants (e : Expr) : gmap str Expr :=
  let '(direct, links) := collect_equalities e in propagate (propagation_fuel links) links direct.

Fixpoint equality_operands (column_matches : Expr -> bool) (disjuncts : list Expr) : option (list Expr) :=
  match disjuncts with
  | [] => Some []
  | d :: rest =>
    '(lhs, rhs) ← top_level_equality_operands d;
    operand ← (if column_matches lhs then Some rhs else if column_matches rhs then Some lhs else None);
    if is_supported_seek_operand operand then operands ← equality_operands column_matches rest; Some (operand :: operands) else None
  end.
Definition or_chain_equality_operands (e : Expr) (column_matches : Expr -> bool) : option (list Expr) :=
  let disjuncts := flatten_or_disjuncts e in
  if len disjuncts <? 2 then None else equality_operands column_matches disjuncts.

Definition resolve_rowid_constant (schema : TableSchema) (constants : gmap str Expr) : option Expr :=
  match or_else (constants !! lit "rowid") (or_else (constants !! lit "_rowid_") (constants !! lit "oid")) with
  | Some value => Some value
  | None => idx ← ts_rowid_alias schema; alias ← get_at (ts_columns schema) idx; constants !! lower_name alias
  end.

Definition direct_rowid_operand (schema : TableSchema) (e : Expr) : option Expr :=
  '(lhs, rhs) ← top_level_equality_operands e;
  if is_rowid_reference schema lhs then Some rhs else if is_rowid_reference schema rhs then Some lhs else None.

(** The constants [try_compile_rowid_seek] seeks to. *)
Definition rowid_seek_operands (schema : TableSchema) (e : Expr) : option (list Expr) :=
  let by_constants :=
    match resolve_rowid_constant schema (propagate_constants e) with
    | Some value => Some [value]
    | None => or_chain_equality_operands e (is_rowid_reference schema)
    end in
  match direct_rowid_operand schema e with
  | Some operand => if is_supported_seek_operand operand then Some [operand] else by_constants
  | None => by_constants
  end.

(** ** Indexes *)

Fixpoint find_map_from {A B} (f : Z -> A -> option B) (i : Z) (l : list A) : option B :=
  match l with [] => None | x :: l => match f i x with Some y => Some y | None => find_map_from f (i + 1) l end end.

Definition bare_result_column_names (select : Select) (schema : TableSchema) : option (list str) :=
  (fun names => List.concat names) <$> mapM (fun col =>
    match col with
    | RcStar => Some (ts_columns schema)
    | RcTableStar table => if eq_ignore_ascii_case table (ts_name schema) then Some (ts_columns schema) else None
    | RcExpr e _ => match e_kind e with EColumn _ _ name => Some [name] | _ => None end
    end) (sel_columns select).

Record CoveringIndexMatch := MkCovering { cm_index_position : Z; cm_operands : list Expr }.

Definition index_covers (schema : TableSchema) (index : IndexSchema) (name : str) : bool :=
  existsb (fun c => eq_ignore_ascii_case (Schema.name c) name) (ix_columns index) ||
  match (idx ← ts_rowid_alias schema; get_at (ts_columns schema) idx) with Some rc => eq_ignore_ascii_case rc name | None => false end.

Definition find_covering_index (schema : TableSchema) (select : Select) : option CoveringIndexMatch :=
  if is_distinct select then None else
  where_expr ← sel_where select;
  let constants := propagate_constants where_expr in
  let direct := find_map_from (fun i idx => leading ← head (ix_columns idx); operand ← constants !! lower_name (Schema.name leading); Some (i, [operand])) 0 (ts_indexes schema) in
  '(index_position, operands) ←
    match direct with
    | Some found => Some found
    | None =>
      find_map_from (fun i idx =>
        leading ← head (ix_columns idx);
        let matches e := match where_col e with Some n => eq_ignore_ascii_case n (Schema.name leading) | None => false end in
        operands ← or_chain_equality_operands where_expr matches; Some (i, operands)) 0 (ts_indexes schema)
    end;
  index ← get_at (ts_indexes schema) index_position;
  result_names ← bare_result_column_names select schema;
  if forallb (index_covers schema index) result_names then Some (MkCovering index_position operands) else None.

Record SkipScanMatch := MkSkip { sm_index_position : Z; sm_column_position : Z; sm_operand : Expr }.

Definition find_skip_scan_index (schema : TableSchema) (select : Select) (stats : Stats) : option SkipScanMatch :=
  if is_distinct select || ts_without_rowid schema then None else
  where_expr ← sel_where select;
  let constants := propagate_constants where_expr in
  find_map_from (fun i index =>
    column_position ← position (fun c => bool_decide (is_Some (constants !! lower_name (Schema.name c)))) (ix_columns index);
    if column_position =? 0 then None else
    if negb (is_skip_scan_worthwhile (ix_name index) stats) then None else
    matched ← get_at (ix_columns index) column_position;
    operand ← constants !! lower_name (Schema.name matched);
    Some (MkSkip i column_position operand)) 0 (ts_indexes schema).

(** ** WHERE subqueries lifted out of the loop ([src/codegen/subquery])

    Only a conjunct that is an [IN (SELECT ...)] or a comparison with a scalar
    subquery is looked at; how it is compiled is left open. *)

Fixpoint top_level_and_conjuncts (e : Expr) : list Expr :=
  match e with
  | MkExpr (EBinary BAnd lhs rhs) _ => top_level_and_conjuncts lhs ++ top_level_and_conjuncts rhs
  | MkExpr (EParen inner) _ => top_level_and_conjuncts inner
  | _ => [e]
  end.
Definition is_comparison_op (op : BinaryOp) : bool := match op with BEq | BNe | BLt | BLe | BGt | BGe => true | _ => false end.
Definition is_subquery (e : Expr) : bool := match e_kind e with ESubquery _ => true | _ => false end.
Definition is_subquery_conjunct (e : Expr) : bool :=
  match e_kind e with
  | EInSubquery _ _ _ => true
  | EBinary op lhs rhs => is_comparison_op op && (is_subquery lhs || is_subquery rhs)
  | _ => false
  end.

Section Scans.
(** [hoist] compiles the subqueries that need to run once, and with its flag
    opens the caches of those that depend on one column, and gives the subquery
    compiler that reads their results. *)
Context (sub : SubqueryCompiler) (hoist : bool -> TableSchema -> Scope -> Expr -> G SubqueryCompiler) (fuel : nat).
Abbreviation value := (compile_value sub fuel).

Definition hoist_where_subqueries (memoize : bool) (schema : TableSchema) (scope : Scope) (where_clause : option Expr) : G SubqueryCompiler :=
  match where_clause with
  | Some e => if existsb is_subquery_conjunct (top_level_and_conjuncts e) then hoist memoize schema scope e else mret sub
  | None => mret sub
  end.

Definition open_index_cursor (index : IndexSchema) (index_cursor : Z) : G unit :=
  root_page ← lift (valid_index_root_page index);
  _ ← emit (set_p5 (instruction OpOpenRead index_cursor root_page 0) 1); mret tt.

Definition leading_collation (index : IndexSchema) : Collation := match head (ix_columns index) with Some c => Schema.collation c | None => CBinary end.

(** A loop over the constants: the label a miss goes to is the end of the scan
    for the last one, a new one for the others. *)
Definition miss_label (rest : list Expr) (end_label : Label) : G Label := match rest with [] => mret end_label | _ => new_label end.
Definition place_miss (not_found end_label : Label) : G unit := if not_found =? end_label then mret tt else place not_found.

Section Scan.
Context (select : Select) (schema : TableSchema) (cursors : ScanCursors) (end_label : Label) (catalog : list TableSchema).
Abbreviation emit_result := (emit_row_via_sink sub fuel select schema).

(** ** The seek by rowid *)

Fixpoint seek_rowids (scope : Scope) (limit : option LimitState) (operands : list Expr) (sink : Sink) : G unit :=
  match operands with
  | [] => mret tt
  | operand :: rest =>
    value_reg ← value scope operand;
    seek_addr ← emit (instruction OpSeekRowid (cur_table cursors) 0 value_reg);
    not_found ← miss_label rest end_label;
    _ ← patch_p2 seek_addr not_found;
    row_skip ← new_label;
    _ ← emit_limit_guards limit row_skip end_label;
    _ ← emit_result (cur_table cursors) false catalog sink;
    _ ← place row_skip;
    _ ← place_miss not_found end_label;
    seek_rowids scope limit rest sink
  end.

Definition try_compile_rowid_seek (sink : Sink) : G bool :=
  if is_distinct select then mret false else
  match (e ← sel_where select; rowid_seek_operands schema e) with
  | None => mret false
  | Some operands =>
    let scope := scan_scope schema (cur_table cursors) catalog in
    limit ← compile_limit_setup sub fuel scope select;
    _ ← seek_rowids scope limit operands sink;
    mret true
  end.

(** ** The scan of an index that has every column *)

Definition read_indexed (index : IndexSchema) (index_cursor : Z) (name : str) : G Z :=
  r ← alloc;
  _ ← match position (fun c => eq_ignore_ascii_case (Schema.name c) name) (ix_columns index) with
      | Some col_idx => emit (instruction OpColumn index_cursor (count_or_zero col_idx) r)
      | None => emit (instruction OpIdxRowid index_cursor r 0)
      end;
  mret r.

Fixpoint covering_operands (index : IndexSchema) (index_cursor : Z) (scope : Scope) (limit : option LimitState) (result_names : list str)
    (operands : list Expr) (sink : Sink) : G unit :=
  match operands with
  | [] => mret tt
  | operand :: rest =>
    not_found ← miss_label rest end_label;
    value_reg ← value scope operand;
    _ ← emit_jump (instruction_p4 OpSeekIndexEq index_cursor 0 value_reg (P4SeekKey [leading_collation index])) not_found;
    loop_start ← new_label;
    _ ← place loop_start;
    row_skip ← new_label;
    _ ← emit_limit_guards limit row_skip end_label;
    regs ← compile_all (read_indexed index index_cursor) result_names;
    '(first, count) ← match head regs with Some first => mret (first, count_or_zero (len regs)) | None => r ← alloc; mret (r, 0) end;
    _ ← sink first count;
    _ ← place row_skip;
    next_addr ← emit (instruction OpIdxNext index_cursor 0 0);
    recheck ← new_label;
    _ ← patch_p2 next_addr recheck;
    _ ← emit_jump (instruction OpGoto 0 0 0) not_found;
    _ ← place recheck;
    leading ← alloc;
    _ ← emit (instruction OpColumn index_cursor 0 leading);
    _ ← emit_jump (instruction_p4 OpEq leading 0 value_reg (p4_coll_seq (leading_collation index) AffBlob)) loop_start;
    _ ← emit_jump (instruction OpGoto 0 0 0) not_found;
    _ ← place_miss not_found end_label;
    covering_operands index index_cursor scope limit result_names rest sink
  end.

Definition try_compile_covering_index_scan (sink : Sink) : G bool :=
  match (m ← find_covering_index schema select; index ← get_at (ts_indexes schema) (cm_index_position m); Some (m, index)) with
  | None => mret false
  | Some (m, index) =>
    let index_cursor := cur_sort cursors in
    _ ← open_index_cursor index index_cursor;
    let scope := scan_scope schema (cur_table cursors) catalog in
    limit ← compile_limit_setup sub fuel scope select;
    _ ← covering_operands index index_cursor scope limit (default [] (bare_result_column_names select schema)) (cm_operands m) sink;
    mret true
  end.

(** ** The skip scan *)

Definition try_compile_skip_scan_index (stats : Stats) (sink : Sink) : G bool :=
  match (m ← find_skip_scan_index schema select stats; index ← get_at (ts_indexes schema) (sm_index_position m); Some (m, index)) with
  | None => mret false
  | Some (m, index) =>
    let index_cursor := cur_sort cursors in
    _ ← open_index_cursor index index_cursor;
    let scope := scan_scope schema (cur_table cursors) catalog in
    limit ← compile_limit_setup sub fuel scope select;
    probe_reg ← value scope (sm_operand m);
    _ ← emit_jump (instruction OpIdxRewind index_cursor 0 0) end_label;
    loop_start ← new_label;
    _ ← place loop_start;
    row_skip ← new_label;
    col_reg ← alloc;
    _ ← emit (instruction OpColumn index_cursor (count_or_zero (sm_column_position m)) col_reg);
    eq_addr ← emit (instruction OpEq col_reg 0 probe_reg);
    matched ← new_label;
    _ ← patch_p2 eq_addr matched;
    _ ← emit_jump (instruction OpGoto 0 0 0) row_skip;
    _ ← place matched;
    rowid_reg ← alloc;
    _ ← emit (instruction OpIdxRowid index_cursor rowid_reg 0);
    _ ← emit_jump (instruction OpSeekRowid (cur_table cursors) 0 rowid_reg) row_skip;
    _ ← emit_limit_guards limit row_skip end_label;
    _ ← emit_result (cur_table cursors) false catalog sink;
    _ ← place row_skip;
    _ ← emit_jump (instruction OpIdxNext index_cursor 0 0) loop_start;
    mret true
  end.

(** ** The full scan *)

(** The WHERE clause: a row whose condition is not true is skipped. *)
Definition compile_where (sub : SubqueryCompiler) (scope : Scope) (row_skip : Label) : G unit :=
  match sel_where select with
  | Some e => compile_cond sub fuel scope e (null_is_false Fallthrough (Jump row_skip))
  | None => mret tt
  end.

Definition open_distinct : G unit := if is_distinct select then _ ← emit (instruction OpOpenEphemeral (cur_distinct cursors) 0 0); mret tt else mret tt.

(** The part of [compile_direct_scan] below its fast paths. *)
Definition compile_full_scan (sink : Sink) : G unit :=
  _ ← open_distinct;
  let scope := scan_scope schema (cur_table cursors) catalog in
  inner ← hoist_where_subqueries true schema scope (sel_where select);
  limit ← compile_limit_setup inner fuel scope select;
  _ ← emit_jump (instruction OpRewind (cur_table cursors) 0 0) end_label;
  loop_start ← new_label;
  _ ← place loop_start;
  row_skip ← new_label;
  _ ← compile_where inner scope row_skip;
  _ ← emit_distinct_guard sub fuel select schema (cur_table cursors) false (cur_distinct cursors) row_skip catalog;
  _ ← emit_limit_guards limit row_skip end_label;
  _ ← emit_result (cur_table cursors) false catalog sink;
  _ ← place row_skip;
  emit_jump (instruction OpNext (cur_table cursors) 0 0) loop_start.

(** ** The sorted scan *)

Fixpoint compile_sort_keys (scope : Scope) (inner : SubqueryCompiler) (first : Z) (plans : list OrderByPlan) : G (list SortKeyColumn) :=
  match plans with
  | [] => mret []
  | plan :: plans =>
    index ← match pl_target plan with
            | ObColumn idx => mret idx
            | ObExpr e => r ← compile_value inner fuel scope e; mret (Z.max 0 (r - first))
            end;
    keys ← compile_sort_keys scope inner first plans;
    mret (MkSortKeyColumn index (pl_descending plan) (pl_collation plan) (pl_nulls_first plan) :: keys)
  end.

(** The register that bounds the sorter: LIMIT + OFFSET. *)
Definition compile_sort_bound (limit : option LimitState) : G (option Z) :=
  if is_distinct select then mret None else
  match limit with
  | None => mret None
  | Some limit =>
    offset ← match offset_reg limit with Some r => mret r | None => zero ← alloc; _ ← emit (instruction OpInteger 0 zero 0); mret zero end;
    combined ← alloc;
    _ ← emit (instruction OpOffsetLimit (default 0 (limit_reg limit)) combined offset);
    mret (Some combined)
  end.

Definition compile_sorted_scan (plans : list OrderByPlan) (sink : Sink) : G unit :=
  _ ← open_distinct;
  let scope := scan_scope schema (cur_table cursors) catalog in
  inner ← hoist_where_subqueries true schema scope (sel_where select);
  limit ← compile_limit_setup inner fuel scope select;
  bound_reg ← compile_sort_bound limit;
  let sorter_open := instruction OpSorterOpen (cur_sort cursors) 0 0 in
  sorter_open_addr ← emit (match bound_reg with Some r => set_p5 (set_p2 sorter_open r) 1 | None => sorter_open end);
  scan_rewind ← emit (instruction OpRewind (cur_table cursors) 0 0);
  sort_step ← new_label;
  _ ← patch_p2 scan_rewind sort_step;
  scan_loop ← new_label;
  _ ← place scan_loop;
  scan_skip ← new_label;
  _ ← compile_where inner scope scan_skip;
  '(first, _) ← compile_row_values sub fuel schema (map RpColumn (ts_columns schema)) (cur_table cursors) false catalog;
  sort_keys ← compile_sort_keys scope inner first plans;
  _ ← patch_p4 sorter_open_addr (P4SortKey sort_keys);
  watermark ← peek_register;
  record_reg ← alloc;
  _ ← emit (instruction OpMakeRecord first (count_or_zero (Z.max 0 (watermark - first))) record_reg);
  _ ← emit (instruction OpSorterInsert (cur_sort cursors) record_reg 0);
  _ ← place scan_skip;
  _ ← emit_jump (instruction OpNext (cur_table cursors) 0 0) scan_loop;
  _ ← place sort_step;
  _ ← emit_jump (instruction OpSorterSort (cur_sort cursors) 0 0) end_label;
  sorted_loop ← new_label;
  _ ← place sorted_loop;
  sorter_data_reg ← alloc;
  _ ← emit (instruction OpSorterData (cur_sort cursors) sorter_data_reg 0);
  _ ← emit (instruction OpOpenPseudo (cur_pseudo cursors) sorter_data_reg 0);
  row_skip ← new_label;
  _ ← emit_distinct_guard sub fuel select schema (cur_pseudo cursors) true (cur_distinct cursors) row_skip catalog;
  _ ← emit_limit_guards limit row_skip end_label;
  _ ← emit_result (cur_pseudo cursors) true catalog sink;
  _ ← place row_skip;
  emit_jump (instruction OpSorterNext (cur_sort cursors) 0 0) sorted_loop.
End Scan.
End Scans.
