(* ===== verification/CodegenSeek.v ===== *)
(** * Scans of an index ([src/codegen/select/range_scan.rs],
    [src/codegen/select/index_scan.rs])

    BETWEEN, LIKE, IN and comparison seeks on the leading column of an index,
    and the walk of an index in the order of ORDER BY, whole or for a prefix
    of its terms. *)

From stdpp Require Import prelude list numbers gmap.
From Stdlib Require Import ZArith Lia.
From S2P Require Import Prelude Varint Text Record Float ValueOrder Format Coerce Functions Tokenizer Ast Program Codegen CodegenExpr CodegenSelect.

Local Open Scope Z_scope.

(** ** Which WHERE clauses an index serves *)

Definition is_supported_operand (e : Expr) : bool :=
  match e_kind e with
  | ELiteral (LInteger _) | ELiteral (LFloat _) | ELiteral (LStr _) => true
  | EParam PkAnonymous | EParam (PkNumbered _) => true
  | _ => false
  end.

Definition is_numeric_affinity (a : Affinity) : bool := match a with AffInteger | AffReal | AffNumeric => true | _ => false end.
Definition operand_matches_column_affinity (e : Expr) (a : Affinity) : bool :=
  match e_kind e with
  | ELiteral (LInteger _) | ELiteral (LFloat _) => is_numeric_affinity a
  | ELiteral (LStr _) => bool_decide (a = AffText)
  | EParam _ => true
  | _ => false
  end.

Definition declared_affinity (schema : TableSchema) (col_name : str) : Affinity :=
  match (i ← column_index schema col_name; get_at (ts_column_types schema) i) with Some ty => affinity_of ty | None => AffBlob end.

Definition find_leading_index (schema : TableSchema) (col_name : str) : option Z :=
  position (fun idx => match head (ix_columns idx) with Some c => eq_ignore_ascii_case (Schema.name c) col_name | None => false end) (ts_indexes schema).

(** The index, and its position, when every operand can be compared with what
    it stores. *)
Definition indexed_operands (schema : TableSchema) (col_name : str) (operands : list Expr) : option (Z * IndexSchema) :=
  if negb (forallb is_supported_operand operands) then None else
  index_position ← find_leading_index schema col_name;
  index ← get_at (ts_indexes schema) index_position;
  if forallb (fun e => operand_matches_column_affinity e (declared_affinity schema col_name)) operands then Some (index_position, index) else None.

Definition CHAR_MAX : Z := 1114111.
Definition prefix_upper_bound (prefix : str) : str := prefix ++ [CHAR_MAX].

Definition contains_char (s : str) (c : Z) : bool := existsb (Z.eqb c) s.
Definition strip_suffix_char (s : str) (c : Z) : option str :=
  match list.last s with Some x => if x =? c then Some (removelast s) else None | None => None end.

Definition like_literal_prefix (pattern : str) (glob : bool) : option str :=
  let wildcard := if glob then 42 else 37 in
  let single := if glob then 63 else 95 in
  match pattern with
  | [] => None
  | _ =>
    prefix ← strip_suffix_char pattern wildcard;
    match prefix with
    | [] => None
    | _ =>
      if contains_char prefix wildcard || contains_char prefix single then None else
      if negb glob && contains_char prefix 92 then None else
      if bool_decide (list.last prefix = Some CHAR_MAX) then None else Some prefix
    end
  end.

(** What each seek looks for: the column, its index and the operands. *)
Definition between_match (schema : TableSchema) (e : Expr) : option (str * Expr * Expr * (Z * IndexSchema)) :=
  match e_kind e with
  | EBetween inner lo hi false => col_name ← where_col inner; m ← indexed_operands schema col_name [lo; hi]; Some (col_name, lo, hi, m)
  | _ => None
  end.

Definition like_prefix_match (schema : TableSchema) (e : Expr) : option (str * str * (Z * IndexSchema)) :=
  match e_kind e with
  | ELike inner pattern glob false None =>
    col_name ← where_col inner;
    pattern_str ← match e_kind pattern with ELiteral (LStr s) => Some s | _ => None end;
    prefix ← like_literal_prefix pattern_str glob;
    index_position ← find_leading_index schema col_name;
    index ← get_at (ts_indexes schema) index_position;
    if bool_decide (declared_affinity schema col_name = AffText) then Some (col_name, prefix, (index_position, index)) else None
  | _ => None
  end.

Definition in_list_match (schema : TableSchema) (e : Expr) : option (str * list Expr * (Z * IndexSchema)) :=
  match e_kind e with
  | EIn inner list false =>
    match list with
    | [] => None
    | _ => col_name ← where_col inner; m ← indexed_operands schema col_name list; Some (col_name, list, m)
    end
  | _ => None
  end.

Definition as_forward_comparison (e : Expr) : option (str * Expr * bool) :=
  match e_kind e with
  | EBinary BGt lhs rhs => col ← where_col lhs; Some (col, rhs, false)
  | EBinary BGe lhs rhs => col ← where_col lhs; Some (col, rhs, true)
  | EBinary BLt lhs rhs => col ← where_col rhs; Some (col, lhs, false)
  | EBinary BLe lhs rhs => col ← where_col rhs; Some (col, lhs, true)
  | _ => None
  end.
Definition comparison_match (schema : TableSchema) (e : Expr) : option (str * Expr * bool * (Z * IndexSchema)) :=
  '(col_name, operand, inclusive) ← as_forward_comparison e;
  m ← indexed_operands schema col_name [operand];
  Some (col_name, operand, inclusive, m).

Definition range_seek_index_position (e : Expr) (schema : TableSchema) : option Z :=
  match e_kind e with
  | EBetween _ _ _ false => '(_, _, _, (position, _)) ← between_match schema e; Some position
  | ELike _ _ _ false None => '(_, _, (position, _)) ← like_prefix_match schema e; Some position
  | EIn _ _ false => '(_, _, (position, _)) ← in_list_match schema e; Some position
  | _ => '(_, _, _, (position, _)) ← comparison_match schema e; Some position
  end.

(** [EXPLAIN QUERY PLAN]'s line for the seek. *)
Definition search_detail (table_display index_name condition : str) : str :=
  lit "SEARCH " ++ table_display ++ lit " USING INDEX " ++ index_name ++ lit " (" ++ condition ++ lit ")".
Definition find_range_seek_detail (schema : TableSchema) (select : Select) (table_display : str) : option str :=
  e ← sel_where select;
  match e_kind e with
  | EBetween _ _ _ false =>
    '(col, _, _, (_, index)) ← between_match schema e; Some (search_detail table_display (ix_name index) (col ++ lit ">? AND " ++ col ++ lit "<?"))
  | ELike _ _ _ false None =>
    '(col, _, (_, index)) ← like_prefix_match schema e; Some (search_detail table_display (ix_name index) (col ++ lit ">? AND " ++ col ++ lit "<?"))
  | EIn _ _ false => '(col, _, (_, index)) ← in_list_match schema e; Some (search_detail table_display (ix_name index) (col ++ lit "=?"))
  | _ => '(col, _, _, (_, index)) ← comparison_match schema e; Some (search_detail table_display (ix_name index) (col ++ lit ">?"))
  end.

(** [Literal]'s derived equality. *)
Definition literal_eqb (a b : Literal) : bool :=
  match a, b with
  | LInteger x, LInteger y => x =? y
  | LFloat x, LFloat y => f64_eqb x y
  | LStr x, LStr y | LBlob x, LBlob y => bool_decide (x = y)
  | LNull, LNull | LTrue, LTrue | LFalse, LFalse => true
  | _, _ => false
  end.
(** The list of IN without the literals already seen. *)
Fixpoint dedup_literals (seen : list Literal) (values : list Expr) : list Expr :=
  match values with
  | [] => []
  | v :: values =>
    match e_kind v with
    | ELiteral l => if existsb (fun s => literal_eqb s l) seen then dedup_literals seen values else v :: dedup_literals (seen ++ [l]) values
    | _ => v :: dedup_literals seen values
    end
  end.

Definition bare_column_names (select : Select) : option (list str) :=
  mapM (fun col => match col with RcExpr e _ => match e_kind e with EColumn None None name => Some name | _ => None end | _ => None end) (sel_columns select).

(** ** Which index has the order of ORDER BY *)

Definition is_binary (c : Collation) : bool := match c with CBinary => true | _ => false end.
(** The state of the loop: the direction, the length of the run, and whether
    the loop was left. *)
Fixpoint ordering_prefix_from (schema : TableSchema) (index : IndexSchema) (plans : list OrderByPlan) (i : Z) (forward : option bool) (prefix_len : Z) : option bool * Z :=
  match plans with
  | [] => (forward, prefix_len)
  | plan :: plans =>
    match get_at (ix_columns index) i, pl_target plan with
    | Some index_col, ObColumn col_idx =>
      match get_at (ts_columns schema) col_idx with
      | Some col_name =>
        if negb (is_binary (pl_collation plan)) || Bool.eqb (pl_nulls_first plan) (pl_descending plan)
           || negb (eq_ignore_ascii_case (Schema.name index_col) col_name)
        then (forward, prefix_len) else
        let this_forward := Bool.eqb (pl_descending plan) (Schema.desc index_col) in
        match forward with
        | Some f => if Bool.eqb f this_forward then ordering_prefix_from schema index plans (i + 1) forward (sat_add i 1) else (forward, prefix_len)
        | None => ordering_prefix_from schema index plans (i + 1) (Some this_forward) (sat_add i 1)
        end
      | None => (forward, prefix_len)
      end
    | _, _ => (forward, prefix_len)
    end
  end.
Definition index_ordering_prefix (schema : TableSchema) (index : IndexSchema) (plans : list OrderByPlan) : option (Z * bool) :=
  let '(forward, prefix_len) := ordering_prefix_from schema index plans 0 None 0 in
  f ← forward; if 0 <? prefix_len then Some (prefix_len, f) else None.

Definition index_matches_ordering (schema : TableSchema) (index : IndexSchema) (plans : list OrderByPlan) : option bool :=
  if len (ix_columns index) <? len plans then None else
  '(n, forward) ← index_ordering_prefix schema index plans; if n =? len plans then Some forward else None.

Definition find_ordering_index (schema : TableSchema) (plans : list OrderByPlan) : option (Z * bool) :=
  match plans with
  | [] => None
  | _ => find_map_from (fun i index => forward ← index_matches_ordering schema index plans; Some (i, forward)) 0 (ts_indexes schema)
  end.

(** [max_by_key]: of several longest prefixes, the last. *)
Fixpoint longest_prefix (schema : TableSchema) (plans : list OrderByPlan) (i : Z) (indexes : list IndexSchema) (best : option (Z * Z * bool)) : option (Z * Z * bool) :=
  match indexes with
  | [] => best
  | index :: indexes =>
    let best' :=
      match index_ordering_prefix schema index plans with
      | Some (n, forward) =>
        if n <? len plans then match best with Some (_, m, _) => if m <=? n then Some (i, n, forward) else best | None => Some (i, n, forward) end else best
      | None => best
      end in
    longest_prefix schema plans (i + 1) indexes best'
  end.
Definition find_partial_ordering_index (schema : TableSchema) (plans : list OrderByPlan) : option (Z * Z * bool) :=
  if len plans <? 2 then None else longest_prefix schema plans 0 (ts_indexes schema) None.

Section Seeks.
Context (sub : SubqueryCompiler) (fuel : nat).
Abbreviation value := (compile_value sub fuel).

(** ** The walk of a range, for SELECT and for UPDATE and DELETE *)

Definition emit_indexed_column_read (schema : TableSchema) (index_cursor idx dest : Z) : G unit :=
  _ ← emit (instruction OpColumn index_cursor 0 dest);
  match get_at (ts_column_types schema) idx with
  | Some t => if bool_decide (affinity_of t = AffReal) then _ ← emit (instruction OpRealAffinity dest 0 0); mret tt else mret tt
  | None => mret tt
  end.

Definition index_probe (op : Opcode) (index : IndexSchema) (index_cursor probe : Z) (l : Label) : G unit :=
  emit_jump (instruction_p4 op index_cursor 0 probe (P4SeekKey [leading_collation index])) l.

(** [lo .. hi]: the walk stops at the first entry above [hi]. *)
Definition walk_between (index : IndexSchema) (index_cursor lo_reg hi_reg : Z) (end_label : Label) (body : Label -> G unit) : G unit :=
  _ ← index_probe OpSeekIndexGE index index_cursor lo_reg end_label;
  loop_start ← new_label;
  _ ← place loop_start;
  _ ← index_probe OpIdxCompareGT index index_cursor hi_reg end_label;
  row_skip ← new_label;
  _ ← body row_skip;
  _ ← place row_skip;
  emit_jump (instruction OpIdxNext index_cursor 0 0) loop_start.

(** From [bound] up: an exclusive bound skips the entries equal to it. *)
Definition walk_from (index : IndexSchema) (index_cursor bound_reg : Z) (inclusive : bool) (end_label : Label) (body : Label -> G unit) : G unit :=
  _ ← index_probe OpSeekIndexGE index index_cursor bound_reg end_label;
  _ ← (if inclusive then mret tt else
       skip_start ← new_label;
       _ ← place skip_start;
       past_bound ← new_label;
       _ ← index_probe OpIdxCompareGT index index_cursor bound_reg past_bound;
       _ ← emit_jump (instruction OpIdxNext index_cursor 0 0) skip_start;
       _ ← emit_jump (instruction OpGoto 0 0 0) end_label;
       place past_bound);
  loop_start ← new_label;
  _ ← place loop_start;
  row_skip ← new_label;
  _ ← body row_skip;
  _ ← place row_skip;
  emit_jump (instruction OpIdxNext index_cursor 0 0) loop_start.

(** The scan of UPDATE and DELETE: [sink] gets the index cursor and the label
    of the next entry. *)
Definition try_compile_range_row_seek (where_expr : Expr) (schema : TableSchema) (scope : Scope) (index_cursor : Z) (end_label : Label)
    (sink : Z -> Label -> G unit) : G bool :=
  match e_kind where_expr with
  | EBetween _ _ _ false =>
    match between_match schema where_expr with
    | None => mret false
    | Some (_, lo, hi, (_, index)) =>
      _ ← open_index_cursor index index_cursor;
      lo_reg ← value scope lo;
      hi_reg ← value scope hi;
      _ ← walk_between index index_cursor lo_reg hi_reg end_label (sink index_cursor);
      mret true
    end
  | _ =>
    match comparison_match schema where_expr with
    | None => mret false
    | Some (_, operand, inclusive, (_, index)) =>
      _ ← open_index_cursor index index_cursor;
      bound_reg ← value scope operand;
      _ ← walk_from index index_cursor bound_reg inclusive end_label (sink index_cursor);
      mret true
    end
  end.

Section Select.
Context (select : Select) (schema : TableSchema) (cursors : ScanCursors) (end_label : Label) (catalog : list TableSchema).
Abbreviation emit_result := (emit_row_via_sink sub fuel select schema).
Abbreviation index_cursor := (cur_sort cursors).

(** The row of the table that an index entry points to. *)
Definition seek_table_row (index_cursor : Z) (row_skip : Label) : G unit :=
  rowid_reg ← alloc;
  _ ← emit (instruction OpIdxRowid index_cursor rowid_reg 0);
  emit_jump (instruction OpSeekRowid (cur_table cursors) 0 rowid_reg) row_skip.

Definition read_matched_column (indexed_col_name name : str) : G Z :=
  idx ← lift (ok_or (column_index schema name) (UnknownColumn name));
  r ← alloc;
  _ ← (if eq_ignore_ascii_case name indexed_col_name && negb (bool_decide (ts_rowid_alias schema = Some idx))
       then emit_indexed_column_read schema index_cursor idx r
       else emit_column_read schema (cur_table cursors) idx r);
  mret r.

Definition emit_matched_row (indexed_col_name : str) (limit : option LimitState) (sink : Sink) (row_skip : Label) : G unit :=
  _ ← seek_table_row index_cursor row_skip;
  _ ← emit_limit_guards limit row_skip end_label;
  match bare_column_names select with
  | Some names =>
    regs ← compile_all (read_matched_column indexed_col_name) names;
    first ← match head regs with Some r => mret r | None => alloc end;
    sink first (count_or_zero (len names))
  | None => emit_result (cur_table cursors) false catalog sink
  end.

(** A WHERE clause of a SELECT that is not DISTINCT. *)
Definition seekable_where : option Expr := if is_distinct select then None else sel_where select.

Definition try_compile_between_seek (sink : Sink) : G bool :=
  match (e ← seekable_where; between_match schema e) with
  | None => mret false
  | Some (col_name, lo, hi, (_, index)) =>
    _ ← open_index_cursor index index_cursor;
    let scope := scan_scope schema (cur_table cursors) catalog in
    limit ← compile_limit_setup sub fuel scope select;
    lo_reg ← value scope lo;
    hi_reg ← value scope hi;
    _ ← walk_between index index_cursor lo_reg hi_reg end_label (emit_matched_row col_name limit sink);
    mret true
  end.

Definition literal_expr (l : Literal) : Expr := MkExpr (ELiteral l) (MkSpan 0 0 0 0).

Definition try_compile_like_prefix_seek (sink : Sink) : G bool :=
  match (e ← seekable_where; like_prefix_match schema e) with
  | None => mret false
  | Some (col_name, prefix, (_, index)) =>
    _ ← open_index_cursor index index_cursor;
    let scope := scan_scope schema (cur_table cursors) catalog in
    limit ← compile_limit_setup sub fuel scope select;
    lo_reg ← value scope (literal_expr (LStr prefix));
    hi_reg ← value scope (literal_expr (LStr (prefix_upper_bound prefix)));
    _ ← walk_between index index_cursor lo_reg hi_reg end_label (emit_matched_row col_name limit sink);
    mret true
  end.

Definition seek_in_value (index : IndexSchema) (scope : Scope) (col_name : str) (limit : option LimitState) (sink : Sink) (operand : Expr) : G unit :=
  value_reg ← value scope operand;
  next_value ← new_label;
  _ ← index_probe OpSeekIndexEq index index_cursor value_reg next_value;
  row_skip ← new_label;
  _ ← emit_matched_row col_name limit sink row_skip;
  _ ← place row_skip;
  place next_value.

Definition try_compile_in_list_seek (sink : Sink) : G bool :=
  match (e ← seekable_where; in_list_match schema e) with
  | None => mret false
  | Some (col_name, list, (_, index)) =>
    let operands := dedup_literals [] list in
    _ ← open_index_cursor index index_cursor;
    let scope := scan_scope schema (cur_table cursors) catalog in
    limit ← compile_limit_setup sub fuel scope select;
    _ ← for_each operands (seek_in_value index scope col_name limit sink);
    _ ← emit_jump (instruction OpGoto 0 0 0) end_label;
    mret true
  end.

Definition try_compile_forward_comparison_seek (sink : Sink) : G bool :=
  match (e ← seekable_where; comparison_match schema e) with
  | None => mret false
  | Some (col_name, operand, inclusive, (_, index)) =>
    _ ← open_index_cursor index index_cursor;
    let scope := scan_scope schema (cur_table cursors) catalog in
    limit ← compile_limit_setup sub fuel scope select;
    bound_reg ← value scope operand;
    _ ← walk_from index index_cursor bound_reg inclusive end_label (emit_matched_row col_name limit sink);
    mret true
  end.

(** ** The walk of an index in the order of ORDER BY *)

(** No WHERE, no DISTINCT, a table with rowids. *)
Definition ordered_scan_allowed : bool :=
  match sel_where select with Some _ => false | None => negb (is_distinct select) && negb (ts_without_rowid schema) end.

Definition walk_opcodes (forward : bool) : Opcode * Opcode := if forward then (OpIdxRewind, OpIdxNext) else (OpIdxLast, OpIdxPrev).

Definition try_compile_index_ordered_scan (plans : list OrderByPlan) (sink : Sink) : G bool :=
  match (if ordered_scan_allowed then '(i, forward) ← find_ordering_index schema plans; index ← get_at (ts_indexes schema) i; Some (index, forward) else None) with
  | None => mret false
  | Some (index, forward) =>
    _ ← open_index_cursor index index_cursor;
    let scope := scan_scope schema (cur_table cursors) catalog in
    limit ← compile_limit_setup sub fuel scope select;
    let '(rewind_op, next_op) := walk_opcodes forward in
    _ ← emit_jump (instruction rewind_op index_cursor 0 0) end_label;
    loop_start ← new_label;
    _ ← place loop_start;
    row_skip ← new_label;
    _ ← seek_table_row index_cursor row_skip;
    _ ← emit_limit_guards limit row_skip end_label;
    _ ← emit_result (cur_table cursors) false catalog sink;
    _ ← place row_skip;
    _ ← emit_jump (instruction next_op index_cursor 0 0) loop_start;
    mret true
  end.

Definition drain_sorted_group (limit : option LimitState) (sink : Sink) : G unit :=
  empty_label ← new_label;
  _ ← emit_jump (instruction OpSorterSort (cur_sort cursors) 0 0) empty_label;
  sorted_loop ← new_label;
  _ ← place sorted_loop;
  sorter_data_reg ← alloc;
  _ ← emit (instruction OpSorterData (cur_sort cursors) sorter_data_reg 0);
  _ ← emit (instruction OpOpenPseudo (cur_pseudo cursors) sorter_data_reg 0);
  row_skip ← new_label;
  _ ← emit_limit_guards limit row_skip end_label;
  _ ← emit_result (cur_pseudo cursors) true catalog sink;
  _ ← place row_skip;
  _ ← emit_jump (instruction OpSorterNext (cur_sort cursors) 0 0) sorted_loop;
  place empty_label.

(** [boundary_label] unless the two registers are both NULL or equal. *)
Definition same_group_column (boundary_label : Label) (column : Z * Z * P4) : G unit :=
  let '(cur, prev, p) := column in
  a_null ← new_label;
  same_col ← new_label;
  _ ← emit_jump (instruction OpIsNull cur 0 0) a_null;
  _ ← emit_jump (instruction OpIsNull prev 0 0) boundary_label;
  _ ← emit_jump (instruction_p4 OpEq cur 0 prev p) same_col;
  _ ← emit_jump (instruction OpGoto 0 0 0) boundary_label;
  _ ← place a_null;
  _ ← emit_jump (instruction OpNotNull prev 0 0) boundary_label;
  place same_col.

Definition partial_scan_match (plans : list OrderByPlan) : option (IndexSchema * Z * bool) :=
  if ordered_scan_allowed then '(i, n, forward) ← find_partial_ordering_index schema plans; index ← get_at (ts_indexes schema) i; Some (index, n, forward) else None.

Definition try_compile_partial_sorted_index_scan (plans : list OrderByPlan) (sink : Sink) : G bool :=
  match partial_scan_match plans with
  | None => mret false
  | Some (index, prefix_len, forward) =>
    let suffix_plans := drop (Z.to_nat prefix_len) plans in
    let prefix_p4s := map (fun c => p4_coll_seq (Schema.collation c) AffBlob) (take (Z.to_nat prefix_len) (ix_columns index)) in
    let index_cursor := cur_distinct cursors in
    _ ← open_index_cursor index index_cursor;
    let scope := scan_scope schema (cur_table cursors) catalog in
    limit ← compile_limit_setup sub fuel scope select;
    have_group_reg ← alloc;
    _ ← emit (instruction OpInteger 0 have_group_reg 0);
    zero_reg ← alloc;
    _ ← emit (instruction OpInteger 0 zero_reg 0);
    prev_key_regs ← compile_all (fun _ => alloc) prefix_p4s;
    let '(rewind_op, next_op) := walk_opcodes forward in
    _ ← emit_jump (instruction rewind_op index_cursor 0 0) end_label;
    loop_start ← new_label;
    _ ← place loop_start;
    cur_key_regs ← compile_all (fun i => r ← alloc; _ ← emit (instruction OpColumn index_cursor (count_or_zero i) r); mret r) (seqZ 0 prefix_len);
    row_skip ← new_label;
    _ ← seek_table_row index_cursor row_skip;
    '(first, _) ← compile_row_values sub fuel schema (map RpColumn (ts_columns schema)) (cur_table cursors) false catalog;
    sort_keys ← compile_sort_keys fuel scope sub first suffix_plans;
    watermark ← peek_register;
    record_reg ← alloc;
    _ ← emit (instruction OpMakeRecord first (count_or_zero (Z.max 0 (watermark - first))) record_reg);
    boundary_label ← new_label;
    merge_label ← new_label;
    _ ← emit_jump (instruction OpEq have_group_reg 0 zero_reg) boundary_label;
    _ ← for_each (zip (zip cur_key_regs prev_key_regs) prefix_p4s) (same_group_column boundary_label);
    _ ← emit_jump (instruction OpGoto 0 0 0) merge_label;
    _ ← place boundary_label;
    skip_flush ← new_label;
    _ ← emit_jump (instruction OpEq have_group_reg 0 zero_reg) skip_flush;
    _ ← drain_sorted_group limit sink;
    _ ← place skip_flush;
    _ ← emit (instruction_p4 OpSorterOpen (cur_sort cursors) 0 0 (P4SortKey sort_keys));
    _ ← for_each (zip cur_key_regs prev_key_regs) (fun '(cur, prev) => _ ← emit (instruction OpCopy cur prev 0); mret tt);
    _ ← emit (instruction OpInteger 1 have_group_reg 0);
    _ ← place merge_label;
    _ ← emit (instruction OpSorterInsert (cur_sort cursors) record_reg 0);
    _ ← place row_skip;
    _ ← emit_jump (instruction next_op index_cursor 0 0) loop_start;
    skip_final_flush ← new_label;
    _ ← emit_jump (instruction OpEq have_group_reg 0 zero_reg) skip_final_flush;
    _ ← drain_sorted_group limit sink;
    _ ← place skip_final_flush;
    mret true
  end.
End Select.
End Seeks.
