(* ===== verification/CodegenAggregate.v ===== *)
(** * Aggregate scans ([src/codegen/select/aggregate/accum.rs],
    [src/codegen/select/aggregate.rs])

    Finding and replacing aggregate calls, the steps and the flush of a group,
    the fast paths of [count] and [sum], and the scans of one group, of groups
    in index order and of sorted groups. *)

From stdpp Require Import prelude list numbers gmap.
From Stdlib Require Import ZArith Lia.
From S2P Require Import Prelude Varint Text Record Float ValueOrder Format Coerce Functions Tokenizer Ast Program Codegen CodegenExpr CodegenSelect CodegenSeek.

Local Open Scope Z_scope.

(** ** Equality of syntax trees (derived [PartialEq]: spans count) *)

Definition list_eqb {A} (f : A -> A -> bool) : list A -> list A -> bool :=
  fix go l k := match l, k with [], [] => true | x :: l, y :: k => f x y && go l k | _, _ => false end.
Definition option_eqb {A} (f : A -> A -> bool) (o p : option A) : bool :=
  match o, p with None, None => true | Some x, Some y => f x y | _, _ => false end.
Definition pair_eqb {A B} (f : A -> A -> bool) (g : B -> B -> bool) (x y : A * B) : bool := f x.1 y.1 && g x.2 y.2.

#[export] Instance span_eq_dec : EqDecision Span.
Proof. solve_decision. Defined.
#[export] Instance distinctness_eq_dec : EqDecision Distinctness.
Proof. solve_decision. Defined.
#[export] Instance compound_op_eq_dec : EqDecision CompoundOp.
Proof. solve_decision. Defined.
#[export] Instance join_op_eq_dec : EqDecision JoinOp.
Proof. solve_decision. Defined.
#[export] Instance unary_op_eq_dec : EqDecision UnaryOp.
Proof. solve_decision. Defined.
#[export] Instance binary_op_eq_dec : EqDecision BinaryOp.
Proof. solve_decision. Defined.
#[export] Instance param_kind_eq_dec : EqDecision ParamKind.
Proof. solve_decision. Defined.

Definition eqb {A} `{EqDecision A} (x y : A) : bool := bool_decide (x = y).

Fixpoint expr_eqb (x y : Expr) {struct x} : bool :=
  match x, y with MkExpr k s, MkExpr k' s' => expr_kind_eqb k k' && eqb s s' end
with expr_kind_eqb (x y : ExprKind) {struct x} : bool :=
  match x, y with
  | ELiteral a, ELiteral b => literal_eqb a b
  | EParam a, EParam b => eqb a b
  | EColumn t c n, EColumn t' c' n' => eqb t t' && eqb c c' && eqb n n'
  | EFunctionCall n d a, EFunctionCall n' d' a' => eqb n n' && eqb d d' && args_eqb a a'
  | EUnary o e, EUnary o' e' => eqb o o' && expr_eqb e e'
  | EBinary o l r, EBinary o' l' r' => eqb o o' && expr_eqb l l' && expr_eqb r r'
  | EIs l r n, EIs l' r' n' => expr_eqb l l' && expr_eqb r r' && eqb n n'
  | EIsNull e n, EIsNull e' n' => expr_eqb e e' && eqb n n'
  | EBetween e l h n, EBetween e' l' h' n' => expr_eqb e e' && expr_eqb l l' && expr_eqb h h' && eqb n n'
  | EIn e l n, EIn e' l' n' => expr_eqb e e' && list_eqb expr_eqb l l' && eqb n n'
  | ELike e p g n c, ELike e' p' g' n' c' => expr_eqb e e' && expr_eqb p p' && eqb g g' && eqb n n' && option_eqb expr_eqb c c'
  | ECase o w e, ECase o' w' e' => option_eqb expr_eqb o o' && list_eqb (fun a b => match a, b with (u, v), (u', v') => expr_eqb u u' && expr_eqb v v' end) w w' && option_eqb expr_eqb e e'
  | ECast e t, ECast e' t' => expr_eqb e e' && eqb t t'
  | ECollate e c, ECollate e' c' => expr_eqb e e' && eqb c c'
  | EParen e, EParen e' => expr_eqb e e'
  | ESubquery s, ESubquery s' => select_eqb s s'
  | EExists s n, EExists s' n' => select_eqb s s' && eqb n n'
  | EInSubquery e s n, EInSubquery e' s' n' => expr_eqb e e' && select_eqb s s' && eqb n n'
  | EInSubqueryMulti l s n, EInSubqueryMulti l' s' n' => list_eqb expr_eqb l l' && select_eqb s s' && eqb n n'
  | _, _ => false
  end
with args_eqb (x y : FunctionArgs) {struct x} : bool :=
  match x, y with FaStar, FaStar => true | FaList l, FaList l' => list_eqb expr_eqb l l' | _, _ => false end
with select_eqb (x y : Select) {struct x} : bool :=
  match x, y with
  | MkSelect w d c f e g h k o l s, MkSelect w' d' c' f' e' g' h' k' o' l' s' =>
    option_eqb with_eqb w w' && eqb d d' && list_eqb column_eqb c c' && option_eqb from_eqb f f' && option_eqb expr_eqb e e' && list_eqb expr_eqb g g' &&
    option_eqb expr_eqb h h' && list_eqb compound_eqb k k' && list_eqb ordering_eqb o o' && option_eqb limit_eqb l l' && eqb s s'
  end
with with_eqb (x y : WithClause) {struct x} : bool := match x, y with MkWith c s, MkWith c' s' => list_eqb cte_eqb c c' && eqb s s' end
with cte_eqb (x y : CommonTableExpr) {struct x} : bool :=
  match x, y with MkCte n c q s, MkCte n' c' q' s' => eqb n n' && eqb c c' && select_eqb q q' && eqb s s' end
with compound_eqb (x y : CompoundSelect) {struct x} : bool :=
  match x, y with
  | MkCompound o d c f e g h s, MkCompound o' d' c' f' e' g' h' s' =>
    eqb o o' && eqb d d' && list_eqb column_eqb c c' && option_eqb from_eqb f f' && option_eqb expr_eqb e e' && list_eqb expr_eqb g g' && option_eqb expr_eqb h h' && eqb s s'
  end
with column_eqb (x y : ResultColumn) {struct x} : bool :=
  match x, y with
  | RcStar, RcStar => true
  | RcTableStar t, RcTableStar t' => eqb t t'
  | RcExpr e a, RcExpr e' a' => expr_eqb e e' && eqb a a'
  | _, _ => false
  end
with table_ref_eqb (x y : TableRef) {struct x} : bool := match x, y with MkTableRef k a s, MkTableRef k' a' s' => table_kind_eqb k k' && eqb a a' && eqb s s' end
with table_kind_eqb (x y : TableRefKind) {struct x} : bool :=
  match x, y with TrName n, TrName n' => eqb n n' | TrSubquery s, TrSubquery s' => select_eqb s s' | _, _ => false end
with from_eqb (x y : FromClause) {struct x} : bool := match x, y with MkFrom t j, MkFrom t' j' => table_ref_eqb t t' && list_eqb join_eqb j j' end
with join_eqb (x y : Join) {struct x} : bool :=
  match x, y with MkJoin o t c n, MkJoin o' t' c' n' => eqb o o' && table_ref_eqb t t' && option_eqb constraint_eqb c c' && eqb n n' end
with constraint_eqb (x y : JoinConstraint) {struct x} : bool :=
  match x, y with JcOn e, JcOn e' => expr_eqb e e' | JcUsing c, JcUsing c' => eqb c c' | _, _ => false end
with ordering_eqb (x y : OrderingTerm) {struct x} : bool := match x, y with MkOrdering e d n, MkOrdering e' d' n' => expr_eqb e e' && eqb d d' && eqb n n' end
with limit_eqb (x y : Limit) {struct x} : bool := match x, y with MkLimit l o, MkLimit l' o' => expr_eqb l l' && option_eqb expr_eqb o o' end.

(** ** Aggregate calls *)

Record AggSlot := MkAggSlot { ag_call : Expr; ag_name : str; ag_arg : option Expr; ag_slot : Z; ag_eph_cursor : option Z }.

(** The calls of [e] not in [out] yet, in order. *)
Fixpoint find_aggregates (e : Expr) (out : list Expr) : list Expr :=
  match e with
  | MkExpr k _ =>
    let descend :=
      match k with
      | EParen inner | ECollate inner _ | EUnary _ inner => find_aggregates inner out
      | EBinary _ lhs rhs => find_aggregates rhs (find_aggregates lhs out)
      | _ => out
      end in
    match k with
    | EFunctionCall name _ args => if is_aggregate_call name args then (if existsb (expr_eqb e) out then out else out ++ [e]) else descend
    | _ => descend
    end
  end.

Definition column_aggregates (out : list Expr) (col : ResultColumn) : list Expr := match col with RcExpr e _ => find_aggregates e out | _ => out end.
(** Every aggregate call of the result columns and of HAVING. *)
Definition select_aggregates (select : Select) : list Expr :=
  let found := fold_left column_aggregates (sel_columns select) [] in
  match sel_having select with Some h => find_aggregates h found | None => found end.
Definition select_has_aggregate (select : Select) : bool := match select_aggregates select with [] => false | _ => true end.

Definition classify_aggregate (e : Expr) : result CodegenError (str * option Expr * bool) :=
  match e_kind e with
  | EFunctionCall name distinct args =>
    let lname := lower_name name in
    arg ← match args with
          | FaStar => Ok None
          | FaList [] => Ok None
          | FaList [a] => Ok (Some a)
          | FaList _ => Err (Unsupported (lit "aggregate function " ++ lname ++ lit " with more than one argument is not yet supported"))
          end;
    let has_arg := match arg with Some _ => true | None => false end in
    _ ← (if str_eqb lname (lit "count") then Ok tt
         else if existsb (str_eqb lname) [lit "sum"; lit "avg"; lit "min"; lit "max"] then
           (if has_arg then Ok tt else Err (Unsupported (lname ++ lit "() requires a single argument")))
         else Err (Unsupported (lit "aggregate function " ++ lname ++ lit " not yet supported in GROUP BY")));
    Ok (lname, arg, distinct && has_arg)
  | _ => Err (Unsupported (lit "classify_aggregate called on a non-call expression"))
  end.

Fixpoint classify_all (calls : list Expr) : result CodegenError (list (Expr * str * option Expr * bool)) :=
  match calls with
  | [] => Ok []
  | call :: calls => '(name, arg, distinct) ← classify_aggregate call; rest ← classify_all calls; Ok ((call, name, arg, distinct) :: rest)
  end.
Definition collect_aggregates (select : Select) : result CodegenError (list (Expr * str * option Expr * bool)) := classify_all (select_aggregates select).

Fixpoint substitute_aggregates (agg_slots : list AggSlot) (synthetic_names : list str) (e : Expr) : Expr :=
  match e with
  | MkExpr k span =>
    match position (fun slot => expr_eqb (ag_call slot) e) agg_slots with
    | Some pos => MkExpr (EColumn None None (default [] (get_at synthetic_names pos))) span
    | None =>
      let go := substitute_aggregates agg_slots synthetic_names in
      MkExpr (match k with
              | EParen inner => EParen (go inner)
              | ECollate inner c => ECollate (go inner) c
              | EUnary op inner => EUnary op (go inner)
              | EBinary op lhs rhs => EBinary op (go lhs) (go rhs)
              | other => other
              end) span
    end
  end.

(** ** Columns a grouped scan sorts *)

(** The lowercased names of the columns of [e]; [None] when it has a
    subquery. *)
Fixpoint walk_expr_for_column_refs (e : Expr) : option (gset str) :=
  match e with
  | MkExpr k _ =>
    let walk_list := fix go (l : list Expr) : option (gset str) :=
      match l with [] => Some ∅ | x :: l => a ← walk_expr_for_column_refs x; b ← go l; Some (a ∪ b) end in
    let walk_opt o := match o with Some x => walk_expr_for_column_refs x | None => Some ∅ end in
    match k with
    | EColumn _ _ name => Some {[ lower_name name ]}
    | ELiteral _ | EParam _ => Some ∅
    | EFunctionCall _ _ (FaList l) => walk_list l
    | EFunctionCall _ _ FaStar => Some ∅
    | EUnary _ e | EIsNull e _ | ECast e _ | ECollate e _ | EParen e => walk_expr_for_column_refs e
    | EBinary _ l r | EIs l r _ => a ← walk_expr_for_column_refs l; b ← walk_expr_for_column_refs r; Some (a ∪ b)
    | EBetween e l h _ => a ← walk_expr_for_column_refs e; b ← walk_expr_for_column_refs l; c ← walk_expr_for_column_refs h; Some (a ∪ b ∪ c)
    | EIn e l _ => a ← walk_expr_for_column_refs e; b ← walk_list l; Some (a ∪ b)
    | ELike e p _ _ esc => a ← walk_expr_for_column_refs e; b ← walk_expr_for_column_refs p; c ← walk_opt esc; Some (a ∪ b ∪ c)
    | ECase o w el =>
      a ← walk_opt o;
      b ← (fix go (l : list (Expr * Expr)) : option (gset str) :=
             match l with
             | [] => Some ∅
             | (x, y) :: l => a ← walk_expr_for_column_refs x; b ← walk_expr_for_column_refs y; c ← go l; Some (a ∪ b ∪ c)
             end) w;
      c ← walk_opt el; Some (a ∪ b ∪ c)
    | ESubquery _ | EExists _ _ | EInSubquery _ _ _ | EInSubqueryMulti _ _ _ => None
    end
  end.

Definition all_columns (schema : TableSchema) : list Z := seqZ 0 (len (ts_columns schema)).

(** The names the statement reads; [None] for a [*] or a subquery. *)
Definition projected_names (select : Select) : option (gset str) :=
  groups ← mapM walk_expr_for_column_refs (sel_group_by select);
  columns ← mapM (fun col => match col with RcExpr e _ => walk_expr_for_column_refs e | _ => None end) (sel_columns select);
  having ← match sel_having select with Some h => walk_expr_for_column_refs h | None => Some ∅ end;
  Some (⋃ groups ∪ ⋃ columns ∪ having).

Definition columns_needed_for_projection (select : Select) (schema : TableSchema) : gset Z :=
  match (names ← projected_names select; mapM (column_index schema) (elements names)) with
  | Some indices => list_to_set indices
  | None => list_to_set (all_columns schema)
  end.

Definition ordered_needed_columns (needed : gset Z) (schema : TableSchema) : list Z := filter (fun i => i ∈ needed) (all_columns schema).

(** The place of a column of the table in the narrowed record. *)
Definition compact_of (needed_order : list Z) (orig : Z) : option Z := position (Z.eqb orig) needed_order.

Definition compact_schema (schema : TableSchema) (needed_order : list Z) : TableSchema :=
  MkTableSchema (ts_name schema) 0
    (map (fun i => default [] (get_at (ts_columns schema) i)) needed_order) (ts_without_rowid schema) false
    (map (fun i => default [] (get_at (ts_column_types schema) i)) needed_order)
    (map (fun i => default CBinary (get_at (ts_column_collations schema) i)) needed_order) false [] [] false
    (orig ← ts_rowid_alias schema; compact_of needed_order orig).

Definition FLUSH_CURSOR : Z := 4.

Definition group_collation (scope : Scope) (e : Expr) : Collation := default CBinary (or_else (collation_of e) (expr_collation scope e)).

Section Aggregates.
Context (sub : SubqueryCompiler) (hoist : bool -> TableSchema -> Scope -> Expr -> G SubqueryCompiler) (fuel : nat).

Definition read_pseudo_column (schema : TableSchema) (cursor idx dest : Z) : G unit :=
  if bool_decide (ts_rowid_alias schema = Some idx) then emit_pseudo_column cursor idx dest else emit_column_read schema cursor idx dest.
Definition read_row_columns_into (schema : TableSchema) (cursor : Z) (dest : list Z) : G unit :=
  for_each (zip (seqZ 0 (len dest)) dest) (fun '(idx, r) => read_pseudo_column schema cursor idx r).

Definition emit_agg_step (inner : SubqueryCompiler) (scope : Scope) (reset : bool) (agg : AggSlot) : G unit :=
  '(arg_reg, arity, collation) ← match ag_arg agg with
    | Some e => r ← compile_value inner fuel scope e; mret (Some r, 1, group_collation scope e)
    | None => mret (None, 0, CBinary)
    end;
  let p := default 0 arg_reg in
  let instr := set_p5 (instruction_p4 OpAggStep (ag_slot agg) p 0 (P4AggFunc (ag_name agg) arity collation)) (if reset then 1 else 0) in
  match ag_eph_cursor agg with
  | None => _ ← emit instr; mret tt
  | Some eph_cursor =>
    _ ← (if reset then _ ← emit (instruction OpOpenEphemeral eph_cursor 0 0); mret tt else mret tt);
    skip_step ← new_label;
    _ ← emit_jump (instruction_p4 OpFound eph_cursor 0 p (P4Int 1)) skip_step;
    _ ← emit (instruction_p4 OpIdxInsert eph_cursor p 0 (P4Int 1));
    _ ← emit instr;
    place skip_step
  end.

Section Scan.
Context (select : Select) (schema : TableSchema) (cursors : ScanCursors) (end_label : Label) (catalog : list TableSchema).

Definition synthetic_schema (synthetic_names : list str) : TableSchema :=
  MkTableSchema (ts_name schema) 0 (ts_columns schema ++ synthetic_names) (ts_without_rowid schema) false
    (ts_column_types schema ++ map (fun _ => []) synthetic_names) [] false [] [] false None.

(** A row of a group: the snapshot of its columns, then its aggregates, in a
    record read through a cursor of its own. *)
Definition flush_group (snapshot_regs : list Z) (agg_slots : list AggSlot) (limit : option LimitState) (sink : Sink) : G unit :=
  let synthetic_names := map (fun i => lit "__agg" ++ to_string i) (seqZ 0 (len agg_slots)) in
  let synthetic := synthetic_schema synthetic_names in
  dests ← compile_all (fun _ => alloc) (seqZ 0 (len snapshot_regs + len agg_slots));
  synthetic_first ← match head dests with Some r => mret r | None => alloc end;
  _ ← for_each (zip snapshot_regs dests) (fun '(snap, dest) => _ ← emit (instruction OpCopy snap dest 0); mret tt);
  _ ← for_each (zip agg_slots (drop (length snapshot_regs) dests)) (fun '(agg, dest) =>
        _ ← emit (instruction_p4 OpAggFinal (ag_slot agg) 0 dest (P4Str (ag_name agg ++ lit "(" ++ to_string (match ag_arg agg with Some _ => 1 | None => 0 end) ++ lit ")"))); mret tt);
  record_reg ← alloc;
  _ ← emit (instruction OpMakeRecord synthetic_first (count_or_zero (len snapshot_regs + len agg_slots)) record_reg);
  _ ← emit (instruction OpOpenPseudo FLUSH_CURSOR record_reg 0);
  let flush_scope := scan_scope synthetic FLUSH_CURSOR catalog in
  skip_label ← new_label;
  _ ← match sel_having select with
      | Some h => compile_cond sub fuel flush_scope (substitute_aggregates agg_slots synthetic_names h) (null_is_false Fallthrough (Jump skip_label))
      | None => mret tt
      end;
  _ ← emit_limit_guards limit skip_label end_label;
  let rewritten := map (fun col => match col with RcExpr e alias => RcExpr (substitute_aggregates agg_slots synthetic_names e) alias | other => other end) (sel_columns select) in
  let throwaway := MkSelect None None rewritten None None [] None [] [] None (sel_span select) in
  '(proj_first, proj_count) ← compile_row_values sub fuel synthetic (result_columns throwaway synthetic) FLUSH_CURSOR true catalog;
  _ ← sink proj_first (count_or_zero proj_count);
  place skip_label.

Definition agg_slot_list (eph : bool) (aggs : list (Expr * str * option Expr * bool)) : list AggSlot :=
  imap_from (fun slot '(call, name, arg, distinct) =>
    let slot := count_or_zero slot in
    MkAggSlot call name arg slot (if eph && distinct then Some (i32_sat_add (i32_sat_add FLUSH_CURSOR 1) slot) else None)) 0 aggs.

(** ** [count] and [sum] of an index *)

Definition find_index (col_name : str) : option IndexSchema := i ← find_leading_index schema col_name; get_at (ts_indexes schema) i.

Definition is_count_star (e : Expr) : bool :=
  match e_kind e with EFunctionCall name false FaStar => eq_ignore_ascii_case name (lit "count") | _ => false end.

(** The column of the equality and the index it leads. *)
Definition count_index_match (e : Expr) : option (Expr * IndexSchema) :=
  '(lhs, rhs) ← top_level_equality_operands e;
  '(col, operand) ← match where_col lhs, where_col rhs with Some name, _ => Some (name, rhs) | None, Some name => Some (name, lhs) | None, None => None end;
  if is_supported_seek_operand operand then index ← find_index col; Some (operand, index) else None.

Definition count_by_index (count_reg : Z) (operand : Expr) (index : IndexSchema) : G unit :=
  let index_cursor := cur_sort cursors in
  _ ← open_index_cursor index index_cursor;
  value_reg ← compile_value sub fuel (scan_scope schema (cur_table cursors) catalog) operand;
  miss_label ← new_label;
  _ ← index_probe OpSeekIndexEq index index_cursor value_reg miss_label;
  loop_start ← new_label;
  _ ← place loop_start;
  one_reg ← alloc;
  _ ← emit (instruction OpInteger 1 one_reg 0);
  _ ← emit (instruction OpAdd one_reg count_reg count_reg);
  next_addr ← emit (instruction OpIdxNext index_cursor 0 0);
  recheck ← new_label;
  _ ← patch_p2 next_addr recheck;
  _ ← emit_jump (instruction OpGoto 0 0 0) miss_label;
  _ ← place recheck;
  leading ← alloc;
  _ ← emit (instruction OpColumn index_cursor 0 leading);
  _ ← emit_jump (instruction_p4 OpEq leading 0 value_reg (p4_coll_seq (leading_collation index) AffBlob)) loop_start;
  place miss_label.

(** The counter's register and its [Integer] come before the WHERE clause is
    looked at. *)
Definition try_compile_index_only_count (sink : Sink) : G bool :=
  match sel_having select, sel_limit select, sel_order_by select, sel_columns select with
  | None, None, [], [RcExpr e _] =>
    if negb (is_count_star e) then mret false else
    count_reg ← alloc;
    _ ← emit (instruction OpInteger 0 count_reg 0);
    match sel_where select with
    | None =>
      root_page ← lift (valid_table_root_page schema);
      _ ← emit (instruction OpCount root_page count_reg 0);
      _ ← sink count_reg 1; mret true
    | Some w =>
      match count_index_match w with
      | None => mret false
      | Some (operand, index) => _ ← count_by_index count_reg operand index; _ ← sink count_reg 1; mret true
      end
    end
  | _, _, _, _ => mret false
  end.

Definition sum_index_match : option (str * IndexSchema) :=
  match sel_where select, sel_having select, sel_limit select, sel_order_by select, sel_group_by select, sel_columns select with
  | None, None, None, [], [], [RcExpr e _] =>
    match e_kind e with
    | EFunctionCall name false (FaList [arg]) =>
      if eq_ignore_ascii_case name (lit "sum") || eq_ignore_ascii_case name (lit "avg") then
        col_name ← where_col arg; index ← find_index col_name; Some (name, index)
      else None
    | _ => None
    end
  | _, _, _, _, _, _ => None
  end.

Definition try_compile_index_only_sum (sink : Sink) : G bool :=
  match sum_index_match with
  | None => mret false
  | Some (name, index) =>
    let index_cursor := cur_sort cursors in
    _ ← open_index_cursor index index_cursor;
    let agg_name := lower_name name in
    done_label ← new_label;
    _ ← emit_jump (instruction OpIdxRewind index_cursor 0 0) done_label;
    loop_start ← new_label;
    _ ← place loop_start;
    value_reg ← alloc;
    _ ← emit (instruction OpColumn index_cursor 0 value_reg);
    _ ← emit (instruction_p4 OpAggStep 0 value_reg 0 (P4AggFunc agg_name 1 (leading_collation index)));
    _ ← emit_jump (instruction OpIdxNext index_cursor 0 0) loop_start;
    _ ← place done_label;
    final_reg ← alloc;
    _ ← emit (instruction_p4 OpAggFinal 0 0 final_reg (P4Str (agg_name ++ lit "(1)")));
    _ ← sink final_reg 1;
    mret true
  end.

(** ** One group, without a sorter *)

Definition compile_where_clause (inner : SubqueryCompiler) (scope : Scope) (skip : Label) : G unit := compile_where fuel select inner scope skip.

Definition null_registers (regs : list Z) : G unit := for_each regs (fun r => _ ← emit (instruction OpNull 0 r 0); mret tt).

Definition try_compile_direct_agg_scan (sink : Sink) : G bool :=
  aggs ← lift (collect_aggregates select);
  if existsb (fun '(_, _, _, distinct) => distinct) aggs then mret false else
  let table_scope := scan_scope schema (cur_table cursors) catalog in
  inner ← hoist_where_subqueries sub hoist false schema table_scope (sel_where select);
  limit ← compile_limit_setup inner fuel table_scope select;
  zero_reg ← alloc;
  _ ← emit (instruction OpInteger 0 zero_reg 0);
  have_group_reg ← alloc;
  _ ← emit (instruction OpInteger 0 have_group_reg 0);
  snapshot_regs ← compile_all (fun _ => alloc) (ts_columns schema);
  _ ← null_registers snapshot_regs;
  let agg_slots := agg_slot_list false aggs in
  scan_rewind ← emit (instruction OpRewind (cur_table cursors) 0 0);
  tail_label ← new_label;
  _ ← patch_p2 scan_rewind tail_label;
  scan_loop ← new_label;
  _ ← place scan_loop;
  scan_skip ← new_label;
  _ ← compile_where_clause inner table_scope scan_skip;
  boundary_label ← new_label;
  not_boundary_label ← new_label;
  _ ← emit_jump (instruction OpEq have_group_reg 0 zero_reg) boundary_label;
  _ ← emit_jump (instruction OpGoto 0 0 0) not_boundary_label;
  _ ← place boundary_label;
  _ ← emit (instruction OpInteger 1 have_group_reg 0);
  _ ← for_each agg_slots (emit_agg_step inner table_scope true);
  _ ← for_each (zip (seqZ 0 (len snapshot_regs)) snapshot_regs) (fun '(idx, r) => emit_column_read schema (cur_table cursors) idx r);
  after_accumulate ← new_label;
  _ ← emit_jump (instruction OpGoto 0 0 0) after_accumulate;
  _ ← place not_boundary_label;
  _ ← for_each agg_slots (emit_agg_step inner table_scope false);
  _ ← place after_accumulate;
  _ ← place scan_skip;
  _ ← emit_jump (instruction OpNext (cur_table cursors) 0 0) scan_loop;
  _ ← place tail_label;
  _ ← flush_group snapshot_regs agg_slots limit sink;
  mret true.

(** ** Sorted groups *)

Fixpoint resolve_targets (exprs : list Expr) : result CodegenError (list OrderByTarget) :=
  match exprs with
  | [] => Ok []
  | e :: exprs => t ← order_by_target_for_expr e schema; ts ← resolve_targets exprs; Ok (t :: ts)
  end.

Definition compile_row_values_compact (needed_order : list Z) (cursor : Z) : G Z :=
  regs ← compile_all (fun idx => r ← alloc; _ ← emit_column_read schema cursor idx r; mret r) needed_order;
  match head regs with Some r => mret r | None => alloc end.

Definition group_sort_key (inner : SubqueryCompiler) (table_scope : Scope) (needed_order : list Z) (first : Z) (term : Expr * OrderByTarget) : G SortKeyColumn :=
  let '(e, target) := term in
  index ← match target with
          | ObColumn idx => mret (default 0 (compact_of needed_order idx))
          | ObExpr e => r ← compile_value inner fuel table_scope e; mret (Z.max 0 (r - first))
          end;
  mret (MkSortKeyColumn index false (group_collation table_scope e) true).

Definition group_key_p4 (scope : Scope) (e : Expr) : P4 := p4_coll_seq (group_collation scope e) (comparison_affinity (expr_affinity scope e) None).

(** The start of a group: the group before it is flushed, its key and its
    first row are kept. *)
Definition group_boundary (keys : list (Z * Z * P4)) (have_group_reg zero_reg : Z) (flush first_row other_row : G unit) : G unit :=
  boundary_label ← new_label;
  not_boundary_label ← new_label;
  _ ← emit_jump (instruction OpEq have_group_reg 0 zero_reg) boundary_label;
  _ ← for_each keys (same_group_column boundary_label);
  _ ← emit_jump (instruction OpGoto 0 0 0) not_boundary_label;
  _ ← place boundary_label;
  skip_flush ← new_label;
  _ ← emit_jump (instruction OpEq have_group_reg 0 zero_reg) skip_flush;
  _ ← flush;
  _ ← place skip_flush;
  _ ← for_each keys (fun '(cur, prev, _) => _ ← emit (instruction OpCopy cur prev 0); mret tt);
  _ ← emit (instruction OpInteger 1 have_group_reg 0);
  _ ← first_row;
  after_accumulate ← new_label;
  _ ← emit_jump (instruction OpGoto 0 0 0) after_accumulate;
  _ ← place not_boundary_label;
  _ ← other_row;
  place after_accumulate.

Definition with_outer_opt (scope : Scope) (outer : option Scope) : Scope := match outer with Some o => with_outer scope o | None => scope end.

Definition compile_grouped_scan (implicit_group : bool) (outer_scope : option Scope) (sink : Sink) : G unit :=
  let table_scope := with_outer_opt (scan_scope schema (cur_table cursors) catalog) outer_scope in
  inner ← hoist_where_subqueries sub hoist false schema table_scope (sel_where select);
  group_targets ← lift (resolve_targets (sel_group_by select));
  let needed_order := ordered_needed_columns (columns_needed_for_projection select schema) schema in
  let pseudo_schema := compact_schema schema needed_order in
  let pseudo_scope := with_outer_opt (scan_scope pseudo_schema (cur_pseudo cursors) catalog) outer_scope in
  sorter_open_addr ← emit (instruction OpSorterOpen (cur_sort cursors) 0 0);
  scan_rewind ← emit (instruction OpRewind (cur_table cursors) 0 0);
  sort_step ← new_label;
  _ ← patch_p2 scan_rewind sort_step;
  scan_loop ← new_label;
  _ ← place scan_loop;
  scan_skip ← new_label;
  _ ← compile_where_clause inner table_scope scan_skip;
  first ← compile_row_values_compact needed_order (cur_table cursors);
  sort_keys ← compile_all (group_sort_key inner table_scope needed_order first) (zip (sel_group_by select) group_targets);
  _ ← patch_p4 sorter_open_addr (P4SortKey sort_keys);
  watermark ← peek_register;
  record_reg ← alloc;
  _ ← emit (instruction OpMakeRecord first (count_or_zero (Z.max 0 (watermark - first))) record_reg);
  _ ← emit (set_p5 (instruction OpSorterInsert (cur_sort cursors) record_reg first) 1);
  _ ← place scan_skip;
  _ ← emit_jump (instruction OpNext (cur_table cursors) 0 0) scan_loop;
  _ ← place sort_step;
  sort_addr ← emit (instruction OpSorterSort (cur_sort cursors) 0 0);
  empty_sorter_target ← (if implicit_group then new_label else mret end_label);
  _ ← patch_p2 sort_addr empty_sorter_target;
  limit ← compile_limit_setup inner fuel table_scope select;
  aggs ← lift (collect_aggregates select);
  zero_reg ← alloc;
  _ ← emit (instruction OpInteger 0 zero_reg 0);
  have_group_reg ← alloc;
  _ ← emit (instruction OpInteger 0 have_group_reg 0);
  prev_key_regs ← compile_all (fun _ => alloc) group_targets;
  snapshot_regs ← compile_all (fun _ => alloc) (ts_columns schema);
  _ ← null_registers snapshot_regs;
  let agg_slots := agg_slot_list true aggs in
  sorter_data_reg ← alloc;
  _ ← emit (instruction OpOpenPseudo (cur_pseudo cursors) sorter_data_reg 0);
  sorted_loop ← new_label;
  _ ← place sorted_loop;
  _ ← emit (instruction OpSorterData (cur_sort cursors) sorter_data_reg 0);
  cur_key_regs ← compile_all (fun '(target, e) =>
      match target with
      | ObColumn idx => r ← alloc; _ ← read_pseudo_column pseudo_schema (cur_pseudo cursors) (default 0 (compact_of needed_order idx)) r; mret r
      | ObExpr _ => compile_value sub fuel pseudo_scope e
      end) (zip group_targets (sel_group_by select));
  let keys := zip (zip cur_key_regs prev_key_regs) (map (group_key_p4 table_scope) (sel_group_by select)) in
  let flush := flush_group snapshot_regs agg_slots limit sink in
  let snapshot := for_each (zip (seqZ 0 (len snapshot_regs)) snapshot_regs) (fun '(orig_idx, dest) =>
      match compact_of needed_order orig_idx with
      | Some compact_idx => read_pseudo_column pseudo_schema (cur_pseudo cursors) compact_idx dest
      | None => mret tt
      end) in
  _ ← group_boundary keys have_group_reg zero_reg flush
        (_ ← for_each agg_slots (emit_agg_step sub pseudo_scope true); snapshot)
        (for_each agg_slots (emit_agg_step sub pseudo_scope false));
  _ ← emit_jump (instruction OpSorterNext (cur_sort cursors) 0 0) sorted_loop;
  _ ← (if implicit_group then place empty_sorter_target else mret tt);
  skip_tail_flush ← new_label;
  _ ← (if implicit_group then mret tt else emit_jump (instruction OpEq have_group_reg 0 zero_reg) skip_tail_flush);
  _ ← flush;
  place skip_tail_flush.

(** ** Groups in the order of an index *)

Definition target_columns (targets : list OrderByTarget) : option (list Z) := mapM (fun t => match t with ObColumn idx => Some idx | ObExpr _ => None end) targets.

Definition group_plan (term : Expr * OrderByTarget) : OrderByPlan :=
  let '(e, target) := term in
  let collation :=
    match collation_of e with
    | Some c => c
    | None => match target with ObColumn idx => default CBinary (get_at (ts_column_collations schema) idx) | ObExpr _ => CBinary end
    end in
  MkPlan target false collation true.

Definition group_by_index_ordering (implicit_group : bool) : result CodegenError (option (Z * bool)) :=
  match sel_group_by select, sel_where select with
  | [], _ | _, Some _ => Ok None
  | _, None =>
    if implicit_group || ts_without_rowid schema then Ok None else
    group_targets ← resolve_targets (sel_group_by select);
    match target_columns group_targets with
    | None => Ok None
    | Some _ => Ok (find_ordering_index schema (map group_plan (zip (sel_group_by select) group_targets)))
    end
  end.

Definition try_compile_index_ordered_group_by (implicit_group : bool) (sink : Sink) : G bool :=
  ordering ← lift (group_by_index_ordering implicit_group);
  match ordering with
  | None => mret false
  | Some (index_idx, forward) =>
    group_targets ← lift (resolve_targets (sel_group_by select));
    match target_columns group_targets, get_at (ts_indexes schema) index_idx with
    | Some group_col_indices, Some index =>
      let table_scope := scan_scope schema (cur_table cursors) catalog in
      let index_cursor := cur_sort cursors in
      _ ← open_index_cursor index index_cursor;
      limit ← compile_limit_setup sub fuel table_scope select;
      aggs ← lift (collect_aggregates select);
      zero_reg ← alloc;
      _ ← emit (instruction OpInteger 0 zero_reg 0);
      have_group_reg ← alloc;
      _ ← emit (instruction OpInteger 0 have_group_reg 0);
      prev_key_regs ← compile_all (fun _ => alloc) group_targets;
      snapshot_regs ← compile_all (fun _ => alloc) (ts_columns schema);
      _ ← null_registers snapshot_regs;
      let agg_slots := agg_slot_list true aggs in
      let '(rewind_op, next_op) := walk_opcodes forward in
      _ ← emit_jump (instruction rewind_op index_cursor 0 0) end_label;
      indexed_loop ← new_label;
      _ ← place indexed_loop;
      rowid_reg ← alloc;
      _ ← emit (instruction OpIdxRowid index_cursor rowid_reg 0);
      row_skip ← new_label;
      _ ← emit_jump (instruction OpSeekRowid (cur_table cursors) 0 rowid_reg) row_skip;
      cur_key_regs ← compile_all (fun idx => r ← alloc; _ ← read_pseudo_column schema (cur_table cursors) idx r; mret r) group_col_indices;
      let keys := zip (zip cur_key_regs prev_key_regs) (map (group_key_p4 table_scope) (sel_group_by select)) in
      let flush := flush_group snapshot_regs agg_slots limit sink in
      _ ← group_boundary keys have_group_reg zero_reg flush
            (for_each agg_slots (emit_agg_step sub table_scope true))
            (for_each agg_slots (emit_agg_step sub table_scope false));
      _ ← read_row_columns_into schema (cur_table cursors) snapshot_regs;
      _ ← place row_skip;
      _ ← emit_jump (instruction next_op index_cursor 0 0) indexed_loop;
      _ ← flush;
      mret true
    | _, _ => mret false
    end
  end.
End Scan.
End Aggregates.
