(* ===== verification/CodegenEntry.v ===== *)
(** * SELECT statements ([src/codegen/select/entry.rs])

    The choice of a scan, and the programs of a SELECT without FROM, of a
    SELECT from one table and of a UNION. *)

From stdpp Require Import prelude list numbers gmap.
From Stdlib Require Import ZArith Lia.
From S2P Require Import Prelude Varint Text Record Float ValueOrder Format Coerce Functions Tokenizer Ast Program Codegen CodegenExpr CodegenSelect CodegenSeek CodegenAggregate.

Local Open Scope Z_scope.

Definition EM_DASH : Z := 8212.
Definition refuse {A} (reason : str) : G A := throw (Unsupported reason).

(** [Emitter::new], [RegAlloc::new], the body, [em.finish()]. *)
Definition new_gen : Gen := MkGen new_emitter new_reg_alloc.
Definition program_of (body : G unit) : result CodegenError Program :=
  match body new_gen with (Ok _, s) => Ok (finish (em s)) | (Err e, _) => Err e end.

(** [Init], which jumps to the instruction after it. *)
Definition emit_init : G unit :=
  init_addr ← emit (instruction OpInit 0 0 0);
  body_start ← new_label;
  _ ← place body_start;
  patch_p2 init_addr body_start.

Definition no_table : TableSchema := MkTableSchema [] 0 [] false false [] [] false [] [] false None.

Definition select_result_column_count (select : Select) (schema : TableSchema) : Z := len (result_columns select schema).

Definition tr_alias (t : TableRef) : option str := let 'MkTableRef _ alias _ := t in alias.
Definition tr_name (t : TableRef) : option str := match t with MkTableRef (TrName name) _ _ => Some name | _ => None end.
Fixpoint joined_column_count (schemas : list TableSchema) (table_refs : list TableRef) (columns : list ResultColumn) (count : Z) : result CodegenError Z :=
  match columns with
  | [] => Ok count
  | RcStar :: columns => joined_column_count schemas table_refs columns (sat_add count (fold_right (fun s n => len (ts_columns s) + n) 0 schemas))
  | RcTableStar table :: columns =>
    idx ← ok_or (position (fun t => eq_ignore_ascii_case (default [] (or_else (tr_alias t) (tr_name t))) table) table_refs) (UnknownColumn (table ++ lit ".*"));
    joined_column_count schemas table_refs columns (sat_add count (match get_at schemas idx with Some s => len (ts_columns s) | None => 0 end))
  | RcExpr _ _ :: columns => joined_column_count schemas table_refs columns (sat_add count 1)
  end.
Definition select_result_column_count_joined (select : Select) (schemas : list TableSchema) (table_refs : list TableRef) : result CodegenError Z :=
  joined_column_count schemas table_refs (sel_columns select) 0.

Definition arm_as_select (arm : CompoundSelect) : Select :=
  let 'MkCompound _ distinct columns from where_clause group_by having span := arm in
  MkSelect None distinct columns from where_clause group_by having [] [] None span.
Definition arm_op (arm : CompoundSelect) : CompoundOp := let 'MkCompound op _ _ _ _ _ _ _ := arm in op.
Definition arm_from (arm : CompoundSelect) : option FromClause := let 'MkCompound _ _ _ from _ _ _ _ := arm in from.

(** [Select { order_by: Vec::new(), limit: None, ..first.clone() }]. *)
Definition without_order_and_limit (s : Select) : Select :=
  let 'MkSelect w d c f e g h k _ _ sp := s in MkSelect w d c f e g h k [] None sp.

Definition has_joins (from : option FromClause) : bool := match from with Some (MkFrom _ (_ :: _)) => true | _ => false end.
Definition from_subquery (from : option FromClause) : option Select := match from with Some (MkFrom (MkTableRef (TrSubquery q) _ _) _) => Some q | _ => None end.

Section Entry.
(** [materialize] fills a cursor with the rows of a subquery of FROM. *)
Context (sub : SubqueryCompiler) (hoist : bool -> TableSchema -> Scope -> Expr -> G SubqueryCompiler)
  (materialize : Select -> list TableSchema -> Z -> G unit) (fuel : nat).

(** The first path that applies. *)
Fixpoint first_path (paths : list (G bool)) (last : G unit) : G unit :=
  match paths with
  | [] => last
  | path :: paths => taken ← path; if (taken : bool) then mret tt else first_path paths last
  end.

Section Scan.
Context (select : Select) (schema : TableSchema) (cursors : ScanCursors) (end_label : Label) (catalog : list TableSchema) (stats : Stats) (sink : Sink).

Definition compile_direct_scan : G unit :=
  first_path
    [try_compile_rowid_seek sub fuel select schema cursors end_label catalog sink;
     try_compile_covering_index_scan sub fuel select schema cursors end_label catalog sink;
     try_compile_between_seek sub fuel select schema cursors end_label catalog sink;
     try_compile_like_prefix_seek sub fuel select schema cursors end_label catalog sink;
     try_compile_in_list_seek sub fuel select schema cursors end_label catalog sink;
     try_compile_forward_comparison_seek sub fuel select schema cursors end_label catalog sink;
     try_compile_skip_scan_index sub fuel select schema cursors end_label catalog stats sink]
    (compile_full_scan sub hoist fuel select schema cursors end_label catalog sink).

Definition compile_select_scan : G unit :=
  match sel_group_by select with
  | _ :: _ =>
    if match sel_order_by select with [] => false | _ => true end then refuse (lit "GROUP BY combined with ORDER BY not yet supported") else
    if match sel_distinct select with Some _ => true | None => false end then refuse (lit "GROUP BY combined with DISTINCT not yet supported") else
    first_path [try_compile_index_ordered_group_by sub fuel select schema cursors end_label catalog false sink]
      (compile_grouped_scan sub hoist fuel select schema cursors end_label catalog false None sink)
  | [] =>
    if select_has_aggregate select then
      if match sel_order_by select with [] => false | _ => true end then refuse (lit "ORDER BY combined with an aggregate (no GROUP BY) not yet supported") else
      if match sel_distinct select with Some _ => true | None => false end then refuse (lit "DISTINCT combined with an aggregate (no GROUP BY) not yet supported") else
      first_path
        [try_compile_index_only_count sub fuel select schema cursors catalog sink;
         try_compile_index_only_sum select schema cursors sink;
         try_compile_direct_agg_scan sub hoist fuel select schema cursors end_label catalog sink]
        (compile_grouped_scan sub hoist fuel select schema cursors end_label catalog true None sink)
    else
    if match sel_having select with Some _ => true | None => false end then refuse (lit "HAVING without GROUP BY not yet supported") else
    plans ← lift (resolve_order_by select schema);
    match plans with
    | [] => compile_direct_scan
    | _ =>
      first_path
        [try_compile_index_ordered_scan sub fuel select schema cursors end_label catalog plans sink;
         try_compile_partial_sorted_index_scan sub fuel select schema cursors end_label catalog plans sink]
        (compile_sorted_scan sub hoist fuel select schema cursors end_label catalog plans sink)
    end
  end.
End Scan.

(** ** A SELECT without FROM *)

Definition is_expr_column (col : ResultColumn) : bool := match col with RcExpr _ _ => true | _ => false end.
Definition is_bare_list (select : Select) : bool :=
  match sel_where select, sel_group_by select, sel_having select, sel_order_by select, sel_limit select, sel_distinct select, sel_compound select with
  | None, [], None, [], None, None, [] => true
  | _, _, _, _, _, _, _ => false
  end.

Definition no_from_body (select : Select) (catalog : list TableSchema) : G unit :=
  _ ← emit_init;
  '(first, count) ← compile_row_values sub fuel no_table (result_columns select no_table) (-1) false catalog;
  _ ← emit (instruction OpResultRow first (count_or_zero count) 0);
  _ ← emit (instruction OpHalt 0 0 0); mret tt.

Definition compile_select_no_from (select : Select) (catalog : list TableSchema) : result CodegenError Program :=
  if negb (forallb is_expr_column (sel_columns select)) then Err (Unsupported (lit "`*`/`tbl.*` has no table to expand in a FROM-less SELECT")) else
  if negb (is_bare_list select) then
    Err (Unsupported (lit "a FROM-less SELECT only supports a bare expression list " ++ [EM_DASH] ++ lit " no WHERE/GROUP BY/HAVING/ORDER BY/LIMIT/DISTINCT/compound clause"))
  else program_of (no_from_body select catalog).

(** ** A SELECT from one table *)

Definition open_table (select : Select) (schema : TableSchema) (catalog : list TableSchema) (cursor : Z) : G unit :=
  match from_subquery (sel_from select) with
  | Some subquery => materialize subquery catalog cursor
  | None => root_page ← lift (valid_table_root_page schema); _ ← emit (instruction OpOpenRead cursor root_page 0); mret tt
  end.

Definition result_row_sink : Sink := fun first count => _ ← emit (instruction OpResultRow first count 0); mret tt.

Definition select_body (select : Select) (schema : TableSchema) (catalog : list TableSchema) (stats : Stats) : G unit :=
  _ ← emit_init;
  let cursors := for_standalone_select in
  _ ← open_table select schema catalog (cur_table cursors);
  end_label ← new_label;
  _ ← compile_select_scan select schema cursors end_label catalog stats result_row_sink;
  _ ← place end_label;
  _ ← emit (instruction OpHalt 0 0 0); mret tt.

Definition compile_select_with_catalog_and_stats (select : Select) (schema : TableSchema) (catalog : list TableSchema) (stats : Stats) : result CodegenError Program :=
  match sel_from select with
  | None => compile_select_no_from select catalog
  | Some (MkFrom _ joins) =>
    match joins, sel_compound select with
    | _ :: _, _ =>
      Err (Unsupported (lit "this SELECT's FROM clause has a JOIN " ++ [EM_DASH] ++ lit " call compile_select_joined with every joined table's schema instead of compile_select"))
    | [], _ :: _ => Err (Unsupported (lit "this SELECT is a UNION compound " ++ [EM_DASH] ++ lit " call compile_select_compound instead"))
    | [], [] => program_of (select_body select schema catalog stats)
    end
  end.
Definition compile_select_with_catalog (select : Select) (schema : TableSchema) (catalog : list TableSchema) : result CodegenError Program :=
  compile_select_with_catalog_and_stats select schema catalog no_stats.
Definition compile_select (select : Select) (schema : TableSchema) : result CodegenError Program := compile_select_with_catalog select schema [schema].

(** ** UNION *)

Definition is_union (op : CompoundOp) : bool := match op with CoUnion => true | CoUnionAll => false end.

Definition output_schema (first : Select) (first_schema : TableSchema) (expected : Z) : TableSchema :=
  MkTableSchema [] 0 (output_column_names first first_schema) false false (replicate (Z.to_nat expected) []) [] false [] [] false None.

Fixpoint arm_selects (expected : Z) (arms : list (CompoundSelect * TableSchema)) : result CodegenError (list (Select * TableSchema)) :=
  match arms with
  | [] => Ok []
  | (arm, schema) :: arms =>
    if has_joins (arm_from arm) then Err (Unsupported (lit "UNION with a JOIN in one of its arms is not yet supported")) else
    let select := arm_as_select arm in
    let found := select_result_column_count select schema in
    if negb (found =? expected) then Err (CompoundColumnMismatch expected found) else
    rest ← arm_selects expected arms; Ok ((select, schema) :: rest)
  end.

Definition compound_key (plan : OrderByPlan) : SortKeyColumn :=
  MkSortKeyColumn (match pl_target plan with ObColumn index => index | ObExpr _ => 0 end) (pl_descending plan) (pl_collation plan) (pl_nulls_first plan).

Section Compound.
Context (has_union : bool) (dedup_cursor : Z) (plans : list OrderByPlan) (sorter_open_addr : option Z) (limit : option LimitState) (end_label : Label).
Abbreviation sort_cursor := (i32_sat_add dedup_cursor 1).
Abbreviation pseudo_cursor := (i32_sat_add dedup_cursor 2).

(** The key of the sorter is patched at the first row compiled; the same patch
    again changes nothing. *)
Definition compound_row (reg_first count : Z) : G unit :=
  match sorter_open_addr with
  | Some addr =>
    _ ← patch_p4 addr (P4SortKey (map compound_key plans));
    record_reg ← alloc;
    _ ← emit (instruction OpMakeRecord reg_first count record_reg);
    _ ← emit (instruction OpSorterInsert sort_cursor record_reg 0); mret tt
  | None =>
    match limit with
    | Some limit =>
      row_skip ← new_label;
      _ ← emit_offset_guard limit row_skip;
      _ ← emit_limit_guard limit end_label;
      _ ← emit (instruction OpResultRow reg_first count 0);
      place row_skip
    | None => _ ← emit (instruction OpResultRow reg_first count 0); mret tt
    end
  end.

Definition compound_sink : Sink := fun reg_first count =>
  if has_union then
    skip ← new_label;
    _ ← emit_dedup_check dedup_cursor reg_first (replicate (Z.to_nat count) CBinary) skip;
    _ ← compound_row reg_first count;
    place skip
  else compound_row reg_first count.

Definition compile_arm (catalog : list TableSchema) (arm_index : Z) (select : Select) (schema : TableSchema) : G unit :=
  let cursors := for_arm arm_index in
  _ ← open_table select schema catalog (cur_table cursors);
  arm_end ← new_label;
  _ ← compile_select_scan select schema cursors arm_end catalog no_stats compound_sink;
  place arm_end.
Fixpoint compile_arms (catalog : list TableSchema) (arm_index : Z) (arms : list (Select * TableSchema)) : G unit :=
  match arms with
  | [] => mret tt
  | (select, schema) :: arms => _ ← compile_arm catalog arm_index select schema; compile_arms catalog (sat_add arm_index 1) arms
  end.

(** The sorted rows of every arm. *)
Definition compound_drain (expected : Z) : G unit :=
  match sorter_open_addr with
  | None => mret tt
  | Some _ =>
    _ ← emit_jump (instruction OpSorterSort sort_cursor 0 0) end_label;
    sorted_loop ← new_label;
    _ ← place sorted_loop;
    sorter_data_reg ← alloc;
    _ ← emit (instruction OpSorterData sort_cursor sorter_data_reg 0);
    _ ← emit (instruction OpOpenPseudo pseudo_cursor sorter_data_reg 0);
    row_skip ← new_label;
    _ ← emit_limit_guards limit row_skip end_label;
    out_first ← peek_register;
    _ ← for_each (seqZ 0 expected) (fun i => r ← alloc; _ ← emit (instruction OpColumn pseudo_cursor (count_or_zero i) r); mret tt);
    _ ← emit (instruction OpResultRow out_first (count_or_zero expected) 0);
    _ ← place row_skip;
    emit_jump (instruction OpSorterNext sort_cursor 0 0) sorted_loop
  end.
End Compound.

Definition compound_body (first : Select) (first_schema : TableSchema) (catalog : list TableSchema) (plans : list OrderByPlan) (arms : list (Select * TableSchema)) : G unit :=
  let expected := select_result_column_count first first_schema in
  let has_union := existsb (fun arm => is_union (arm_op arm)) (sel_compound first) in
  let dedup_cursor := after_arms (sat_add (len arms) 1) in
  let pseudo_cursor := i32_sat_add dedup_cursor 2 in
  _ ← emit_init;
  _ ← (if has_union then _ ← emit (instruction OpOpenEphemeral dedup_cursor 0 0); mret tt else mret tt);
  limit ← compile_limit_setup sub fuel (single (output_schema first first_schema expected) pseudo_cursor) first;
  end_label ← new_label;
  sorter_open_addr ← match plans with
    | [] => mret None
    | _ => addr ← emit (instruction OpSorterOpen (i32_sat_add dedup_cursor 1) 0 0); mret (Some addr)
    end;
  _ ← compile_arms has_union dedup_cursor plans sorter_open_addr limit end_label catalog 0 ((without_order_and_limit first, first_schema) :: arms);
  _ ← compound_drain dedup_cursor sorter_open_addr limit end_label expected;
  _ ← place end_label;
  _ ← emit (instruction OpHalt 0 0 0); mret tt.

Definition compile_select_compound (first : Select) (first_schema : TableSchema) (arm_schemas catalog : list TableSchema) : result CodegenError Program :=
  if has_joins (sel_from first) then Err (Unsupported (lit "UNION with a JOIN in one of its arms is not yet supported")) else
  if negb (len (sel_compound first) =? len arm_schemas) then Err (Unsupported (lit "compile_select_compound: arm_schemas must have one entry per compound arm")) else
  let expected := select_result_column_count first first_schema in
  plans ← resolve_order_by first (output_schema first first_schema expected);
  if existsb (fun plan => match pl_target plan with ObExpr _ => true | ObColumn _ => false end) plans then
    Err (Unsupported (lit "ORDER BY on a UNION compound SELECT only supports an output column name or ordinal position, not an arbitrary expression"))
  else
  arms ← arm_selects expected (zip (sel_compound first) arm_schemas);
  program_of (compound_body first first_schema catalog plans arms).
End Entry.
