(* ===== verification/ExecRun.v ===== *)
(** * Runs of a program

    Paths of the machine through a program, with the rows they yield, and what
    [next_row] and [run] do along them; every call of [next_row] ends. *)

From stdpp Require Import prelude list numbers gmap.
From Stdlib Require Import ZArith Lia.
From S2P Require Import Prelude Varint Text Record Float ValueOrder Format Coerce Functions Tokenizer Header Freelist Vfs Journal Wal Lock Shm Checkpoint PageCache Pager Commit Transactions Allocator BtreePage LeafPage LeafSearch Btree Tree TreeSplit Overflow Table Cursor Program Vm VmCursor Sorter Exec Ast Codegen CodegenExpr CodegenState Eval CodegenRun.

Local Open Scope Z_scope.

(** ** The bounded loop, counted in unary *)

Fixpoint iter_nat {A B} (n : nat) (f : A -> A + B) (a : A) : A + B :=
  match n with
  | O => inl a
  | S n => match f a with inl a => iter_nat n f a | done => done end
  end.

Lemma iter_nat_add {A B} (f : A -> A + B) n : forall m a, iter_nat (n + m) f a = match iter_nat n f a with inl a => iter_nat m f a | done => done end.
Proof. induction n as [|n IH]; intros m a; [done|]. cbn. destruct (f a); [apply IH|done]. Qed.

Lemma iterate_nat {A B} (f : A -> A + B) n : forall a, iterate n f a = iter_nat (Pos.to_nat n) f a.
Proof.
  induction n as [n IH|n IH|]; intros a; cbn [iterate].
  - rewrite Pos2Nat.inj_xI. cbn [iter_nat]. destruct (f a) as [a'|]; [|done]. replace (2 * Pos.to_nat n)%nat with (Pos.to_nat n + Pos.to_nat n)%nat by lia.
    rewrite iter_nat_add, IH. destruct (iter_nat _ f a'); [apply IH|done].
  - rewrite Pos2Nat.inj_xO. replace (2 * Pos.to_nat n)%nat with (Pos.to_nat n + Pos.to_nat n)%nat by lia. rewrite iter_nat_add, IH. destruct (iter_nat _ f a); [apply IH|done].
  - change (Pos.to_nat 1) with 1%nat. cbn [iter_nat]. by destruct (f a).
Qed.

(** More iterations do not change a result. *)
Lemma iter_nat_done {A B} (f : A -> A + B) n m a b : (n <= m)%nat -> iter_nat n f a = inr b -> iter_nat m f a = inr b.
Proof. intros Hle E. replace m with (n + (m - n))%nat by lia. by rewrite iter_nat_add, E. Qed.

Section Run.
Context `{host : Host} {OS : Type} `{Fcntl OS} {Ext : Type} (env : Env).
Abbreviation MVm := (Vm (OS := OS) (Ext := Ext)).
Context (other_op : Instruction -> M MVm ExecError Step).
Abbreviation round := (Exec.tick env other_op).
Abbreviation fwd := (fwd env other_op).

(** ** Steps are counted *)

Definition steps_ok (e : Execution (OS := OS) (Ext := Ext)) : Prop := 0 <= ex_steps e <= MAX_STEPS.

(** A round counts one step, and an execution past the limit stops there. *)
Lemma tick_steps P e : 0 <= ex_steps e <= MAX_STEPS ->
  match round P e with
  | inl e' => ex_steps e' = ex_steps e + 1 /\ ex_steps e' <= MAX_STEPS
  | inr (out, e') => ex_steps e' = ex_steps e + 1 /\ (ex_steps e' = MAX_STEPS + 1 -> out = Err StepLimitExceeded)
  end.
Proof.
  intros Hs. unfold Exec.tick. set (e1 := count_step e). assert (E1 : ex_steps e1 = ex_steps e + 1) by (unfold e1; cbn; unfold U32_MAX, MAX_STEPS in *; lia).
  destruct (Z.ltb_spec MAX_STEPS (ex_steps e1)); [done|]. destruct (fetch P (ex_pc e1)); [|split; [exact E1|cbn [finished ex_steps]; lia]]. destruct (dispatch env other_op _ _ _) as [[[]|] vm].
  - destruct (vm_rows vm); cbn [continue_at ex_steps]; (split; [exact E1|lia]).
  - destruct (vm_rows vm); cbn [continue_at ex_steps]; (split; [exact E1|lia]).
  - destruct (_ =? 0); [destruct (commit_on_halt env vm) as [[]]|]; cbn [finished with_vm ex_steps]; (split; [exact E1|lia]).
  - cbn [with_vm ex_steps]. split; [exact E1|lia].
Qed.

Lemma iter_steps P n : forall e, 0 <= ex_steps e <= MAX_STEPS ->
  match iter_nat n (round P) e with
  | inl e' => ex_steps e' = ex_steps e + Z.of_nat n /\ ex_steps e' <= MAX_STEPS
  | inr (out, e') => ex_steps e < ex_steps e' <= ex_steps e + Z.of_nat n /\ ex_steps e' <= MAX_STEPS + 1 /\ (ex_steps e' = MAX_STEPS + 1 -> out = Err StepLimitExceeded)
  end.
Proof.
  induction n as [|n IH]; intros e Hs; cbn [iter_nat]; [lia|]. pose proof (tick_steps P e Hs) as Ht. destruct (round P e) as [e'|[out e']].
  - destruct Ht as [E1 E2]. specialize (IH e' ltac:(lia)). destruct (iter_nat n (round P) e') as [e2|[out e2]]; [lia|]. split; [lia|]. by destruct IH as (_ & ?).
  - destruct Ht as [E1 E2]. split; [lia|]. split; [lia|done].
Qed.

(** The loop of [next_row] always leaves through a return. *)
Lemma loop_returns P e : steps_ok e -> exists out e', iterate (steps_left e) (round P) e = inr (out, e') /\
  ex_steps e < ex_steps e' <= MAX_STEPS + 1 /\ (ex_steps e' = MAX_STEPS + 1 -> out = Err StepLimitExceeded).
Proof.
  intros Hs. rewrite iterate_nat. unfold steps_ok, steps_left in *. pose proof (iter_steps P (Pos.to_nat (Z.to_pos (MAX_STEPS + 1 - ex_steps e))) e Hs) as Hi.
  destruct (iter_nat _ _ _) as [e'|[out e']].
  - exfalso. pose proof (positive_nat_Z (Z.to_pos (MAX_STEPS + 1 - ex_steps e))). lia.
  - exists out, e'. split; [done|]. destruct Hi as (? & ? & ?). split; [lia|done].
Qed.

(** ** Paths *)

Definition goes (st : Step) (pc pc1 : Z) : Prop := st = SNext /\ pc1 = pc + 1 \/ st = SJump pc1.

(** [path P n pc vm rows pc' vm']: [n] steps that yield [rows]. *)
Inductive path (P : Program) : nat -> Z -> MVm -> list (list Value) -> Z -> MVm -> Prop :=
  | path_done pc vm : path P 0 pc vm [] pc vm
  | path_step n pc i st vm vm1 pc1 rows pc' vm' :
      fetch P pc = Some i -> dispatch env other_op pc i vm = (Ok st, vm1) -> vm_rows vm1 = [] -> goes st pc pc1 ->
      path P n pc1 vm1 rows pc' vm' -> path P (S n) pc vm rows pc' vm'
  | path_row n pc i st vm vm1 pc1 row rows pc' vm' :
      fetch P pc = Some i -> dispatch env other_op pc i vm = (Ok st, vm1) -> vm_rows vm1 = [row] -> goes st pc pc1 ->
      path P n pc1 (set_rows vm1 []) rows pc' vm' -> path P (S n) pc vm (row :: rows) pc' vm'.

Lemma path_trans P n pc vm rows pc1 vm1 m rows' pc2 vm2 : path P n pc vm rows pc1 vm1 -> path P m pc1 vm1 rows' pc2 vm2 -> path P (n + m) pc vm (rows ++ rows') pc2 vm2.
Proof. induction 1; cbn; [done|..]; intros; [eapply path_step|eapply path_row]; eauto. Qed.

Lemma fwd_path P pc vm pc' vm' : fwd P pc vm pc' vm' -> exists n, Z.of_nat n <= pc' - pc /\ path P n pc vm [] pc' vm'.
Proof.
  induction 1 as [pc vm|pc i st vm vm1 pc1 pc' vm' Hf Hd Hr Hg Hlt _ (n & Hn & Hp)].
  - exists O. split; [lia|constructor].
  - exists (S n). split; [lia|]. by eapply path_step.
Qed.

Lemma fetch_bound P pc i : fetch P pc = Some i -> 0 <= pc < len P.
Proof. unfold fetch, get_at. destruct (_ && _) eqn:E; [lia|done]. Qed.

(** One step of a path is one tick. *)
Lemma goes_next st pc pc1 : 0 <= pc <= I32_MAX -> goes st pc pc1 -> match st with SJump target => target | _ => sat_add pc 1 end = pc1.
Proof. unfold I32_MAX. intros Hb [[-> ->]| ->]; [|done]. rewrite sat_add_small by (unfold U64_MAX; lia). done. Qed.

Definition at_step (k pc : Z) (vm : MVm) : Execution := MkExecution vm pc k false [].

Lemma count_at k pc vm : 0 <= k < MAX_STEPS -> count_step (at_step k pc vm) = at_step (k + 1) pc vm.
Proof. intros Hk. unfold count_step, at_step. cbn. by rewrite Z.min_l by (unfold U32_MAX, MAX_STEPS in *; lia). Qed.

Lemma tick_quiet P k pc i st vm vm1 pc1 : 0 <= k < MAX_STEPS -> len P <= I32_MAX -> fetch P pc = Some i -> dispatch env other_op pc i vm = (Ok st, vm1) -> vm_rows vm1 = [] -> goes st pc pc1 ->
  round P (at_step k pc vm) = inl (at_step (k + 1) pc1 vm1).
Proof.
  intros Hk HP Hf Hd Hr Hg. pose proof (fetch_bound P pc i Hf) as Hb. unfold Exec.tick. rewrite count_at by done. cbn [ex_steps ex_pc ex_vm ex_done ex_pending at_step]. rewrite (proj2 (Z.ltb_ge _ _)) by lia. rewrite Hf, Hd.
  pose proof (goes_next st pc pc1 ltac:(lia) Hg) as En. destruct Hg as [[-> ->]| ->]; cbn in En; rewrite Hr; unfold continue_at, at_step; cbn -[sat_add]; rewrite ?En; reflexivity.
Qed.

Lemma tick_row P k pc i st vm vm1 pc1 row : 0 <= k < MAX_STEPS -> len P <= I32_MAX -> fetch P pc = Some i -> dispatch env other_op pc i vm = (Ok st, vm1) -> vm_rows vm1 = [row] -> goes st pc pc1 ->
  round P (at_step k pc vm) = inr (Ok (Some row), at_step (k + 1) pc1 (set_rows vm1 [])).
Proof.
  intros Hk HP Hf Hd Hr Hg. pose proof (fetch_bound P pc i Hf) as Hb. unfold Exec.tick. rewrite count_at by done. cbn [ex_steps ex_pc ex_vm ex_done ex_pending at_step]. rewrite (proj2 (Z.ltb_ge _ _)) by lia. rewrite Hf, Hd.
  pose proof (goes_next st pc pc1 ltac:(lia) Hg) as En. destruct Hg as [[-> ->]| ->]; cbn in En; rewrite Hr; unfold at_step; cbn -[sat_add]; rewrite ?En; reflexivity.
Qed.

(** The machine stops at [pc] with [Halt 0] and nothing to write. *)
Definition halts (P : Program) (pc : Z) (vm : MVm) : Prop := fetch P pc = Some (instruction OpHalt 0 0 0) /\ has_writer vm = false.

Lemma tick_halt P k pc vm : 0 <= k < MAX_STEPS -> halts P pc vm -> round P (at_step k pc vm) = inr (Ok None, MkExecution vm pc (k + 1) true []).
Proof.
  intros Hk [Hf Hw]. unfold Exec.tick. rewrite count_at by done. cbn [ex_steps ex_pc ex_vm ex_done ex_pending at_step]. rewrite (proj2 (Z.ltb_ge _ _)) by lia. rewrite Hf.
  change (dispatch env other_op pc (instruction OpHalt 0 0 0) vm) with ((Ok (SHalt 0 None), vm) : result ExecError Step * MVm). cbv iota beta. change (0 =? 0) with true. cbv iota.
  assert (E : commit_on_halt env vm = (Ok tt, vm)) by (unfold commit_on_halt, get_st; unfold mbind, M_bind; by rewrite Hw). by rewrite E.
Qed.

(** ** A path from the start to [Halt] *)

(** The first row of a path, or its end. *)
Lemma loop_path P n : forall k pc vm rows pc' vm', path P n pc vm rows pc' vm' -> halts P pc' vm' -> len P <= I32_MAX -> 0 <= k -> k + Z.of_nat n < MAX_STEPS ->
  match rows with
  | [] => exists m, (m <= S n)%nat /\ iter_nat m (round P) (at_step k pc vm) = inr (Ok None, MkExecution vm' pc' (k + Z.of_nat n + 1) true [])
  | row :: rows => exists m n' k' pc1 vm1, (m <= n)%nat /\ iter_nat m (round P) (at_step k pc vm) = inr (Ok (Some row), at_step k' pc1 vm1) /\
      path P n' pc1 vm1 rows pc' vm' /\ 0 <= k' /\ k' + Z.of_nat n' = k + Z.of_nat n
  end.
Proof.
  induction n as [|n IH]; intros k pc vm rows pc' vm' Hp Hh HP Hk Hn; inversion Hp as [|? ? i st ? vm1 pc1 ? ? ? Hf Hd Hr Hg Hp'|? ? i st ? vm1 pc1 row rs ? ? Hf Hd Hr Hg Hp']; subst.
  - exists 1%nat. split; [lia|]. cbn [iter_nat]. rewrite (tick_halt P k) by (done || lia). do 3 f_equal; lia.
  - specialize (IH (k + 1) pc1 vm1 rows pc' vm' Hp' Hh HP ltac:(lia) ltac:(lia)). pose proof (tick_quiet P k pc i st vm vm1 pc1 ltac:(lia) HP Hf Hd Hr Hg) as Ht.
    destruct rows as [|row rows].
    + destruct IH as (m & Hm & E). exists (S m). split; [lia|]. cbn [iter_nat]. rewrite Ht, E. do 3 f_equal; lia.
    + destruct IH as (m & n' & k' & pc2 & vm2 & Hm & E & Hp2 & Hk' & Hs). exists (S m), n', k', pc2, vm2. split; [lia|]. cbn [iter_nat]. rewrite Ht, E. split; [done|]. split; [done|]. lia.
  - exists 1%nat, n, (k + 1), pc1, (set_rows vm1 []). split; [lia|]. cbn [iter_nat]. rewrite (tick_row P k pc i st vm vm1 pc1 row ltac:(lia) HP Hf Hd Hr Hg). split; [done|]. split; [done|]. lia.
Qed.

Lemma steps_left_nat k pc vm : 0 <= k <= MAX_STEPS -> Z.of_nat (Pos.to_nat (steps_left (at_step k pc vm))) = MAX_STEPS + 1 - k.
Proof. intros Hk. unfold steps_left. cbn [ex_steps at_step]. rewrite positive_nat_Z. lia. Qed.

Lemma run_path P rows : forall fuel n k pc vm pc' vm' acc, path P n pc vm rows pc' vm' -> halts P pc' vm' -> len P <= I32_MAX -> 0 <= k -> k + Z.of_nat n < MAX_STEPS ->
  (length rows < fuel)%nat -> exists e', run_loop env other_op fuel P (at_step k pc vm) acc = (Ok (acc ++ rows, autocommit vm'), e').
Proof.
  induction rows as [|row rows IH]; intros [|fuel] n k pc vm pc' vm' acc Hp Hh HP Hk Hn Hf; try (cbn in Hf; lia); cbn [run_loop].
  - destruct (loop_path P n k pc vm [] pc' vm' Hp Hh HP Hk Hn) as (m & Hm & E). unfold next_row. cbn [ex_pending ex_done at_step]. fold (at_step k pc vm). rewrite iterate_nat.
    rewrite (iter_nat_done _ m (Pos.to_nat (steps_left (at_step k pc vm))) _ _ ltac:(pose proof (steps_left_nat k pc vm ltac:(lia)); lia) E). rewrite app_nil_r. by eexists.
  - destruct (loop_path P n k pc vm (row :: rows) pc' vm' Hp Hh HP Hk Hn) as (m & n' & k' & pc1 & vm1 & Hm & E & Hp' & Hk' & Hs).
    unfold next_row. cbn [ex_pending ex_done at_step]. fold (at_step k pc vm). rewrite iterate_nat.
    rewrite (iter_nat_done _ m (Pos.to_nat (steps_left (at_step k pc vm))) _ _ ltac:(pose proof (steps_left_nat k pc vm ltac:(lia)); lia) E).
    destruct (IH fuel n' k' pc1 vm1 pc' vm' (acc ++ [row]) Hp' Hh HP Hk' ltac:(lia) ltac:(cbn in Hf; lia)) as (e' & E'). exists e'. by rewrite E', <- app_assoc.
Qed.

Lemma run_of_path P n vm rows pc' vm' fuel : path P n 0 vm rows pc' vm' -> halts P pc' vm' -> len P <= I32_MAX -> Z.of_nat n < MAX_STEPS -> (length rows < fuel)%nat ->
  run env other_op fuel vm P = Ok (rows, autocommit vm').
Proof.
  intros Hp Hh HP Hn Hf. unfold run. destruct (run_path P rows fuel n 0 0 vm pc' vm' [] Hp Hh HP ltac:(lia) ltac:(lia) Hf) as (e' & E).
  change (new_execution vm) with (at_step 0 0 vm). by rewrite E.
Qed.
End Run.
