(* ===== verification/CodegenRows.v ===== *)
(** * The code of a result row

    [compile_row_values] puts the values of the result columns into
    consecutive registers, and [ResultRow] yields them. *)

From stdpp Require Import prelude list numbers gmap.
From Stdlib Require Import ZArith Lia.
From S2P Require Import Prelude Varint Text Record Float ValueOrder Format Coerce Functions Tokenizer Header Freelist Vfs Journal Wal Lock Shm Checkpoint PageCache Pager Commit Transactions Allocator BtreePage LeafPage LeafSearch Btree Tree TreeSplit Overflow Table Cursor Program Vm VmCursor Sorter Exec Ast Codegen CodegenExpr CodegenState Eval CodegenRun CodegenCond CodegenValue CodegenCall ExecRun CodegenSelect.

Local Open Scope Z_scope.

(** ** What a result column stands for *)

Definition plan_expr (col : ResultColumnPlan) : Expr := match col with RpColumn name => MkExpr (EColumn None None name) SYNTHETIC_SPAN | RpExpr e => e end.
Definition row_exprs (select : Select) (schema : TableSchema) : list Expr := map plan_expr (result_columns select schema).

Lemma resolve_single schema cursor catalog name idx : column_index schema name = Some idx ->
  resolve (scan_scope schema cursor catalog) None name = Ok (MkResolved cursor idx schema false).
Proof.
  intros E. unfold scan_scope, single, with_catalog. cbn [resolve]. unfold resolve_own, resolve_own_binding_index. cbn [sc_tables find_unique tb_schema].
  rewrite E, bool_decide_true by done. cbn -[column_index get_at]. match goal with |- context [get_at [?b] 0] => change (get_at [b] 0) with (Some b) end. cbn -[column_index]. by rewrite E.
Qed.

Lemma single_reach schema cursor catalog : in_reach (scan_scope schema cursor catalog) (fun c => c = cursor).
Proof.
  intros table name r Hr _. unfold scan_scope, single, with_catalog in Hr. cbn [resolve] in Hr.
  destruct (resolve_own _ table name) as [r'|] eqn:E; [|done]. injection Hr as <-. unfold resolve_own in E.
  destruct (resolve_own_binding_index _ table name) as [i|]; [|done]. cbn in E. destruct (get_at _ i) as [b|] eqn:Eb; [|done]. cbn in E. injection E as <-. cbn.
  unfold get_at in Eb. destruct (_ && _); [|done]. destruct (Z.to_nat i) as [|k]; [by injection Eb as <-|]. discriminate Eb.
Qed.

Section Rows.
Context `{host : Host} {OS : Type} `{Fcntl OS} {Ext : Type} (env : Env).
Abbreviation MVm := (Vm (OS := OS) (Ext := Ext)).
Context (other_op : Instruction -> M MVm ExecError Step) (sub : SubqueryCompiler) (fuel : nat).
Abbreviation value_code := (value_code env other_op).

Lemma row_value_code schema cursor catalog col s r s' : covered (plan_expr col) = true -> compile_row_value sub fuel schema cursor false catalog col s = (Ok r, s') ->
  value_code (scan_scope schema cursor catalog) (plan_expr col) s r s'.
Proof.
  intros Ce H1. destruct col as [name|e]; cbn [compile_row_value plan_expr] in *.
  - apply lift_inv in H1 as (idx & Ei & H1). apply compile_column_code. unfold compile_column. apply ok_or_inv in Ei.
    rewrite (resolve_single _ _ _ _ _ Ei). exact H1.
  - assert (H2 : compile_value sub fuel (scan_scope schema cursor catalog) e s = (Ok r, s')).
    { destruct (e_kind e); try exact H1. destruct table, catalog0; exact H1. }
    by apply (compile_codes env other_op sub _ fuel).
Qed.

(** The row: its values in the registers from [first]. *)
Definition row_code (scope : Scope) (cols : list ResultColumnPlan) (s : Gen) (first count : Z) (s' : Gen) : Prop :=
  code s s' (exists N, within s s' N /\ count = len cols /\ nreg s <= first /\ first + len cols <= nreg s' /\
    forall I row reach, RowSource other_op I row reach -> in_reach scope reach ->
    forall F vm vs, final F -> stage s' F -> I vm -> nulls N vm -> Forall2 (fun col v => eval scope row (plan_expr col) = Some v) cols vs ->
    exists vm', reaches env other_op F I N s s' vm (pos s') vm' /\ forall (k : nat) v, vs !! k = Some v -> rg vm' (first + Z.of_nat k) = v).

Lemma row_values_code schema cols cursor catalog s first count s' : forallb covered (map plan_expr cols) = true ->
  compile_row_values sub fuel schema cols cursor false catalog s = (Ok (first, count), s') -> row_code (scan_scope schema cursor catalog) cols s first count s'.
Proof.
  intros Ce H1. unfold compile_row_values in H1. gcall H1 regs s1 E1.
  destruct (compile_list_code env other_op (scan_scope schema cursor catalog) (compile_row_value sub fuel schema cursor false catalog) plan_expr cols) with (s := s) (regs := regs) (s' := s1) as [Hlen [B1 M1]]; [|exact E1|].
  { intros x t r t' Hx. apply row_value_code. rewrite forallb_forall in Ce. apply Ce. apply in_map. by apply list_elem_of_In. }
  unfold row_code. destruct regs as [|r0 regs].
  - destruct cols; [|discriminate Hlen]. gstep H1 s2 E2. apply last_ret in H1 as [[= -> ->] ->]. gcode s. gmeaning M1. destruct M1 as (N1 & W1 & _ & _ & M1). exists N1. split; [gwithin|].
    change (len (@nil ResultColumnPlan)) with 0. split; [done|]. split; [lia|]. split; [lia|]. intros I row reach Src Hre F vm vs Fin S Hi Hn Hvs.
    destruct (M1 I row reach Src Hre F vm vs Fin ltac:(gstage) Hi Hn Hvs) as (vm1 & (R1 & I1 & Fr1 & N1') & _). exists vm1. split; [greach|].
    apply Forall2_nil_inv_l in Hvs as ->. by intros k v Hk.
  - gcall H1 d s2 E2. apply last_ret in H1 as [[= -> ->] ->].
    destruct (contiguous_run_code env other_op r0 (r0 :: regs) _ _ _ ltac:(by intros ? [= <-]) E2) as [B2 M2]. gcode s. gmeaning M1. gmeaning M2.
    destruct M1 as (N1 & W1 & V1 & L1 & M1). assert (Hr0 : nreg s <= r0 < nreg s1) by (by apply Forall_cons in V1 as [? _]).
    destruct (M2 ltac:(lia)) as (Hf & Hfl & M2'); [eapply Forall_impl; [exact V1|]; cbn; lia|].
    assert (El : len (r0 :: regs) = len cols) by (unfold len; lia). rewrite El in Hfl. exists N1. split; [gwithin|]. split; [done|]. split; [lia|]. split; [lia|].
    intros I row reach Src Hre F vm vs Fin S Hi Hn Hvs. destruct (M1 I row reach Src Hre F vm vs Fin ltac:(gstage) Hi Hn Hvs) as (vm1 & (R1 & I1 & Fr1 & N1') & X1).
    destruct (M2' I row reach Src F vm1 Fin S I1) as (vm2 & R2 & I2 & Fr2 & X2). exists vm2. split; [greach|].
    intros k v Hk. destruct (Forall2_lookup_r _ _ _ _ _ X1 Hk) as (r & Er & Hv). by rewrite (X2 k r Er).
Qed.

(** ** [ResultRow]

    The registers of the row are moved out of the machine. *)
Definition row_taken (first : Z) (n : nat) (vm vm' : MVm) : Prop :=
  vm' = set_registers vm (registers vm') /\ forall x, 0 <= x -> rg vm' x = if (first <=? x) && (x <? first + Z.of_nat n) then Null else rg vm x.

Lemma take_one (vm : MVm) r : valid_reg r -> exists vm', take_register r vm = (Ok (rg vm r), vm') /\ row_taken r 1 vm vm'.
Proof.
  intros Hr. unfold take_register. rewrite (index_ok _ r Hr). eexists. split; [reflexivity|]. split; [by destruct vm|]. intros x Hx. unfold valid_reg in Hr.
  unfold rg, slot. cbn [registers set_registers]. change (Z.of_nat 1) with 1. destruct (decide (x = r)) as [->|Hne].
  - rewrite (proj2 (Z.leb_le r r)), (proj2 (Z.ltb_lt r (r + 1))) by lia. cbn.
    destruct (decide (Z.to_nat r < length (registers vm))%nat); [by rewrite list_lookup_insert_eq|]. rewrite list_insert_ge by lia. by rewrite lookup_ge_None_2 by lia.
  - rewrite list_lookup_insert_ne by lia. destruct ((r <=? x) && (x <? r + 1)) eqn:E; [lia|done].
Qed.

Lemma take_registers_ok opcode start vs : forall o (vm : MVm), 0 <= start -> 0 <= o -> start + o + len vs <= MAX_REGISTERS ->
  (forall (k : nat) v, vs !! k = Some v -> rg vm (start + o + Z.of_nat k) = v) ->
  exists vm', each_register opcode start (upto o (length vs)) take_register vm = (Ok vs, vm') /\ row_taken (start + o) (length vs) vm vm'.
Proof.
  induction vs as [|v vs IH]; intros o vm Hs Ho Hl Hv.
  - exists vm. split; [done|]. split; [by destruct vm|]. intros x Hx. destruct (Z.leb_spec (start + o) x), (Z.ltb_spec x (start + o + Z.of_nat (length (@nil Value)))); cbn [length andb] in *; try done; lia.
  - cbn [length upto each_register]. unfold MAX_REGISTERS in *. rewrite len_cons in Hl. pose proof (len_nonneg vs).
    assert (Ec : i32_checked_add start o = Some (start + o)) by (unfold i32_checked_add, i32_try_from, I32_MIN, I32_MAX; rewrite (proj2 (Z.leb_le _ _)), (proj2 (Z.leb_le _ _)) by lia; done).
    rewrite Ec. cbn [ok_or]. rewrite (M_bind_ok _ _ _ _ _ (eq_refl : lift (Ok (start + o)) vm = _)).
    destruct (take_one vm (start + o) ltac:(gvalid)) as (vm1 & E1 & Er1 & T1). rewrite (M_bind_ok _ _ _ _ _ E1).
    destruct (IH (o + 1) vm1 Hs ltac:(lia) ltac:(lia)) as (vm2 & E2 & Er2 & T2).
    { intros k w Hk. rewrite T1 by lia. change (Z.of_nat 1) with 1. rewrite (proj2 (Z.ltb_ge _ _)), andb_false_r by lia. specialize (Hv (Datatypes.S k) w Hk). by replace (start + (o + 1) + Z.of_nat k) with (start + o + Z.of_nat (Datatypes.S k)) by lia. }
    rewrite (M_bind_ok _ _ _ _ _ E2). exists vm2. split; [|split].
    + pose proof (Hv O v eq_refl) as E. rewrite Z.add_0_r in E. by rewrite E.
    + rewrite Er2, Er1. by destruct vm, vm1.
    + intros x Hx. rewrite T2, T1 by lia. destruct (Z.leb_spec (start + (o + 1)) x), (Z.leb_spec (start + o) x); cbn;
        repeat match goal with |- context [?a <? ?b] => destruct (Z.ltb_spec a b) end; cbn; try done; lia.
Qed.

(** One row comes out, and only the registers of the row change. *)
Lemma run_result_row I row reach F first vs s s1 (vm : MVm) : RowSource other_op I row reach -> s1 = push (instruction OpResultRow first (len vs) 0) s -> gen_wf s -> stage s1 F -> I vm ->
  0 <= first -> first + len vs <= MAX_REGISTERS -> (forall (k : nat) v, vs !! k = Some v -> rg vm (first + Z.of_nat k) = v) ->
  exists vm', path env other_op (finish (em F)) 1 (pos s) vm [vs] (pos s1) vm' /\ I vm' /\ row_taken first (length vs) vm vm'.
Proof.
  intros Src E1 W S Hi Hf Hl Hv. destruct (take_registers_ok (lit "ResultRow") first vs 0 vm Hf ltac:(lia) ltac:(lia)) as (vm' & E & Er & T).
  { intros k v Hk. rewrite Z.add_0_r. by apply Hv. }
  rewrite Z.add_0_r in T. assert (Hi' : I vm') by (rewrite Er; by apply (source_registers other_op (row := row) (reach := reach))). pose proof (source_quiet other_op (row := row) (reach := reach) vm' Hi') as Hq.
  exists vm'. split; [|done]. subst s1. rewrite pos_push. eapply (path_row _ _ _ 0 _ _ SNext _ (set_rows vm' [vs]) _ _ []); [by eapply fetch_push| | |by left|].
  - unfold dispatch. cbn [Program.opcode instruction]. unfold op_result_row. cbn [p1 p2 instruction]. unfold bounded_count. pose proof (len_nonneg vs).
    rewrite (proj2 (Z.leb_le _ _)), (proj2 (Z.leb_le _ _)) by lia. cbn [andb]. rewrite (M_bind_ok _ _ _ _ _ (eq_refl : lift (Ok (len vs)) vm = _)).
    unfold len at 1. rewrite Nat2Z.id, (M_bind_ok _ _ _ _ _ E). rewrite (M_bind_ok _ _ vm' tt (set_rows vm' [vs])); [done|]. unfold emit_row, modify. by rewrite Hq.
  - done.
  - assert (Es : set_rows (set_rows vm' [vs]) [] = vm') by (destruct vm'; cbn in Hq; by subst). rewrite Es. constructor.
Qed.
End Rows.

(** * LIMIT and OFFSET in generated code

    The two guards of a row against the list operation they implement, and the
    expressions that set them up. *)

(** ** LIMIT and OFFSET of a list *)

(** A negative LIMIT is no limit. *)
Definition limit_rows {A} (limit : option (Z * Z)) (rows : list A) : list A :=
  match limit with
  | None => rows
  | Some (o, l) => let rows := drop (Z.to_nat o) rows in if l <? 0 then rows else take (Z.to_nat l) rows
  end.

(** What one row does to the two counters. *)
Definition after_skip (limit : option (Z * Z)) : option (Z * Z) := match limit with None => None | Some (o, l) => Some (o - 1, l) end.
Definition after_row (limit : option (Z * Z)) : option (Z * Z) := match limit with None => None | Some (o, l) => Some (o, if 0 <? l then l - 1 else l) end.
Inductive verdict : Type := Skip | Stop | Give.
Definition judge (limit : option (Z * Z)) : verdict :=
  match limit with None => Give | Some (o, l) => if 0 <? o then Skip else if l =? 0 then Stop else Give end.

Lemma limit_rows_cons {A} limit (x : A) rows : limit_rows limit (x :: rows) =
  match judge limit with Skip => limit_rows (after_skip limit) rows | Stop => [] | Give => x :: limit_rows (after_row limit) rows end.
Proof.
  destruct limit as [[o l]|]; [|done]. cbn. destruct (Z.ltb_spec 0 o).
  - replace (Z.to_nat o) with (S (Z.to_nat (o - 1))) by lia. done.
  - replace (Z.to_nat o) with O by lia. cbn [drop]. destruct (Z.eqb_spec l 0) as [->|]; [done|]. destruct (Z.ltb_spec 0 l).
    + rewrite !(proj2 (Z.ltb_ge _ _)) by lia. replace (Z.to_nat l) with (S (Z.to_nat (l - 1))) by lia. cbn. by replace (Z.to_nat o) with O by lia.
    + rewrite !(proj2 (Z.ltb_lt _ _)) by lia. done.
Qed.

(** ** The state after the LIMIT guard

    Its two jumps are patched in the other order. *)
Definition guard (r : Z) (stop : Label) (s : Gen) : Gen :=
  MkGen (MkEmitter (instructions (em s) ++ [instruction OpIfNotZero r 0 0; instruction OpGoto 0 0 0]) (<[nlab s := pos s + 2]> (labels (em s)))
    (patches (em s) ++ [(pos s + 1, stop); (pos s, nlab s)]) (sat_add (nlab s) 1)) (reg s).

Lemma guard_inv o r stop s u s' : emit_limit_guard (MkLimitState o (Some r)) stop s = (Ok u, s') -> s' = guard r stop s.
Proof.
  intros [= _ <-]. unfold guard, pos, here. cbn. rewrite <- !app_assoc. cbn. rewrite !len_app. change (len [instruction OpIfNotZero r 0 0]) with 1.
  change (len [instruction OpIfNotZero r 0 0; instruction OpGoto 0 0 0]) with 2. done.
Qed.

Lemma facts_guard r stop s s1 : s1 = guard r stop s ->
  (pos s1 = pos s + 2 /\ nlab s1 = Z.min (nlab s + 1) U64_MAX /\ nreg s1 = nreg s) /\ (forall l, l <> nlab s -> lab s1 l = lab s l) /\ lab s1 (nlab s) = Some (pos s + 2) /\
  (nlab s < U64_MAX -> gen_wf s -> gen_wf s1) /\ (lab s (nlab s) = None -> stage s s1).
Proof.
  intros ->. assert (Ep : pos (guard r stop s) = pos s + 2) by (unfold pos, here, guard; cbn; by rewrite len_app).
  split; [by rewrite Ep|]. split; [intros l Hl; unfold lab; cbn; by rewrite lookup_insert_ne|]. split; [unfold lab; cbn; by rewrite lookup_insert_eq|]. split.
  - intros Hlt (Wp & Wl & Wr & Wn). pose proof (pos_nonneg s). split; [|split; [|split; [done|]]].
    + cbn [guard em patches]. apply Forall_app. split; [eapply Forall_impl; [exact Wp|]; cbn; intros p Hp; rewrite Ep; lia|]. rewrite Ep. apply Forall_cons. split; [cbn [fst]; lia|]. apply Forall_singleton. cbn [fst]. lia.
    + intros l a. assert (En : nlab (guard r stop s) = nlab s + 1) by (unfold nlab, guard; cbn; rewrite sat_add_small by (unfold U64_MAX, nlab in *; lia); done).
      rewrite Ep, En. unfold lab. cbn. destruct (decide (l = nlab s)) as [->|]; [rewrite lookup_insert_eq; intros [= <-]; lia|]. rewrite lookup_insert_ne by done.
      intros Hl. destruct (Wl l a Hl). lia.
    + unfold nlab, guard. cbn. unfold sat_add, U64_MAX in *. unfold nlab in *. lia.
  - intros Hn. split; [by eexists|]. split; [|intros l a Hl; unfold lab in *; cbn; rewrite lookup_insert_ne; [done|]; intros <-; congruence].
    eexists. split; [done|]. apply Forall_cons. split; [cbn [fst]; lia|]. apply Forall_singleton. cbn [fst]. lia.
Qed.

Lemma guard_block r stop s s1 : s1 = guard r stop s -> block s s1.
Proof.
  intros E. destruct (facts_guard r stop s s1 E) as (Num & Lab & Plc & Wf & Stg). unfold block, counters_ok, mono, gen_fits, U64_MAX, I32_MAX in *. intros C. split; [lia|]. split; [lia|].
  intros W Fi. split; [apply Wf; [lia|done]|]. split; [apply Stg; apply unplaced; [done|lia]|]. intros l Hl. apply Lab. lia.
Qed.

Lemma apply_patch_here ls code (p : Z * Label) t (a : nat) i : ls !! p.2 = Some t -> Z.to_nat p.1 = a -> code !! a = Some i -> apply_patch ls code p !! a = Some (set_p2 i (as_i32 t)).
Proof. intros Hl <- Hi. unfold apply_patch, update_instruction. by rewrite Hl, list_lookup_alter_eq, Hi. Qed.

(** What the finished program holds at the two instructions. *)
Lemma fetch_guard r stop s F : gen_wf s -> stage (guard r stop s) F ->
  fetch (finish (em F)) (pos s) = Some (set_p2 (instruction OpIfNotZero r 0 0) (as_i32 (pos s + 2))) /\
  fetch (finish (em F)) (pos s + 1) = Some (set_p2 (instruction OpGoto 0 0 0) (as_i32 (target F stop))).
Proof.
  intros W ((more & E) & (ps & P & Fs) & L). cbn [guard em patches instructions] in *. set (n := length (instructions (em s))) in *.
  assert (Hp : pos s = Z.of_nat n) by done. assert (Hp1 : pos s + 1 = Z.of_nat (S n)) by lia.
  assert (Eg : pos (guard r stop s) = pos s + 2) by (unfold pos, here, guard; cbn; by rewrite len_app).
  assert (Hlab : labels (em F) !! nlab s = Some (pos s + 2)) by (apply L; unfold lab; cbn; by rewrite lookup_insert_eq).
  assert (Hlate : forall a, (a <= S n)%nat -> Forall (fun p : Z * Label => Z.to_nat p.1 <> a) ps).
  { intros a Ha. eapply Forall_impl; [exact Fs|]. cbn. intros p Hq. rewrite Eg in Hq. lia. }
  assert (Hearly : forall a, (n <= a)%nat -> Forall (fun p : Z * Label => Z.to_nat p.1 <> a) (patches (em s))).
  { intros a Ha. destruct W as (Wp & _). eapply Forall_impl; [exact Wp|]. cbn. intros p Hq. lia. }
  assert (I0 : instructions (em F) !! n = Some (instruction OpIfNotZero r 0 0)) by (rewrite E, <- app_assoc; by apply list_lookup_middle).
  assert (I1 : instructions (em F) !! S n = Some (instruction OpGoto 0 0 0)).
  { rewrite E, <- app_assoc. rewrite lookup_app_r by lia. replace (S n - length (instructions (em s)))%nat with 1%nat by lia. done. }
  rewrite <- app_assoc in P. split.
  - replace (fetch (finish (em F)) (pos s)) with (fetch (finish (em F)) (Z.of_nat n)) by (by rewrite Hp). apply fetch_nat. unfold finish. rewrite P. destruct (finish_fold (labels (em F)) (patches (em s)) ([(pos s + 1, stop); (pos s, nlab s)] ++ ps) (instructions (em F)) n _ I0 (Hearly n ltac:(lia))) as [-> E2]. rewrite fold_left_app, patches_other by (apply Hlate; lia).
    cbn [app fold_left]. apply apply_patch_here; [exact Hlab|cbn [fst]; lia|]. by rewrite apply_patch_other by (cbn [fst]; lia).
  - replace (fetch (finish (em F)) (pos s + 1)) with (fetch (finish (em F)) (Z.of_nat (S n))) by (by rewrite Hp1). apply fetch_nat. unfold finish. rewrite P. destruct (finish_fold (labels (em F)) (patches (em s)) ([(pos s + 1, stop); (pos s, nlab s)] ++ ps) (instructions (em F)) (S n) _ I1 (Hearly (S n) ltac:(lia))) as [-> E2]. rewrite fold_left_app, patches_other by (apply Hlate; lia).
    cbn [app fold_left]. rewrite apply_patch_other by (cbn [fst]; lia). unfold target, lab. destruct (labels (em F) !! stop) as [a|] eqn:El; cbn [default].
    + apply apply_patch_here; [exact El|cbn [fst]; lia|done].
    + unfold apply_patch. cbn [snd]. by rewrite El.
Qed.

Section Guards.
Context `{host : Host} {OS : Type} `{Fcntl OS} {Ext : Type} (env : Env).
Abbreviation MVm := (Vm (OS := OS) (Ext := Ext)).
Context (other_op : Instruction -> M MVm ExecError Step).

(** The counters are in the registers of the guards. *)
Definition counters_at (limit : option LimitState) (state : option (Z * Z)) (vm : MVm) : Prop :=
  match limit, state with
  | None, None => True
  | Some (MkLimitState o (Some l)), Some (n, k) =>
    rg vm l = Integer k /\ I64_MIN <= k <= I64_MAX /\ match o with Some o => rg vm o = Integer n /\ n <= I64_MAX | None => n <= 0 end
  | _, _ => False
  end.
Definition counter_registers (limit : option LimitState) : list Z :=
  match limit with None => [] | Some s => match offset_reg s with Some o => [o] | None => [] end ++ match limit_reg s with Some l => [l] | None => [] end end.
Definition counters_below (limit : option LimitState) (n : Z) : Prop := NoDup (counter_registers limit) /\ Forall (fun r => 0 <= r < n) (counter_registers limit).

Lemma i64_pred k : 0 < k <= I64_MAX -> i64_sat_add k (-1) = k - 1.
Proof. unfold i64_sat_add, I64_MAX, I64_MIN. lia. Qed.

Lemma register_integer (vm : MVm) r k : valid_reg r -> rg vm r = Integer k -> register_as_i64 r vm = (Ok k, vm).
Proof. intros Hr E. unfold register_as_i64. rewrite (M_bind_ok _ _ _ _ _ (register_ok vm r Hr)). by rewrite E. Qed.

Lemma run_if_pos I row reach F l s s1 (vm : MVm) r n : RowSource other_op I row reach -> final F -> s1 = jump (instruction OpIfPos r 0 1) l s -> gen_wf s -> stage s1 F -> I vm -> valid_reg r ->
  rg vm r = Integer n -> n <= I64_MAX -> pos s < target F l ->
  exists vm', fwd env other_op (finish (em F)) (pos s) vm (if 0 <? n then target F l else pos s1) vm' /\ I vm' /\ rg vm' r = Integer (if 0 <? n then n - 1 else n) /\
    forall x, 0 <= x -> x <> r -> rg vm' x = rg vm x.
Proof.
  intros Src Fin E W S Hi Hr Ev Hn A. pose proof (target_bounds F l Fin) as Hb. set (vm' := if 0 <? n then rset vm r (Integer (n - 1)) else vm). exists vm'.
  assert (Hvr := Hr). unfold valid_reg in Hvr. assert (Hi' : I vm') by (unfold vm'; destruct (0 <? n); [by apply (source_registers other_op (row := row) (reach := reach))|done]).
  split; [|split; [done|]].
  - subst s1. eapply (fwd_step _ _ _ _ _ (if 0 <? n then SJump (target F l) else SNext) _ vm'); [by apply (fetch_jump (instruction OpIfPos r 0 1) l s F)| |by apply (source_quiet other_op (row := row) (reach := reach))| | |constructor].
    + unfold dispatch. cbn [Program.opcode instruction set_p2]. unfold op_if_pos. cbn [p1 p2 p3 instruction set_p2]. rewrite (M_bind_ok _ _ _ _ _ (register_integer vm r n Hr Ev)).
      rewrite as_i32_small by done. unfold to_pc. rewrite Z.max_l by lia. change (- (1)) with (-1). unfold vm'. destruct (Z.ltb_spec 0 n); [|done].
      rewrite i64_pred by lia. by rewrite (M_bind_ok _ _ _ _ _ (set_register_ok vm r _ Hr)).
    + destruct (0 <? n); [by right|left; by rewrite pos_jump].
    + rewrite pos_jump. destruct (0 <? n); lia.
  - unfold vm'. destruct (0 <? n); [|done]. rewrite rg_rset, bool_decide_true by lia. split; [done|]. intros x Hx Hne. by rewrite rg_rset, bool_decide_false by lia.
Qed.

Lemma run_guard I row reach F r stop s s1 (vm : MVm) k : RowSource other_op I row reach -> final F -> s1 = guard r stop s -> gen_wf s -> stage s1 F -> I vm -> valid_reg r ->
  rg vm r = Integer k -> I64_MIN <= k <= I64_MAX -> pos s1 <= target F stop ->
  exists vm', fwd env other_op (finish (em F)) (pos s) vm (if k =? 0 then target F stop else pos s1) vm' /\ I vm' /\ rg vm' r = Integer (if 0 <? k then k - 1 else k) /\
    forall x, 0 <= x -> x <> r -> rg vm' x = rg vm x.
Proof.
  intros Src Fin E W S Hi Hr Ev Hk A. pose proof (target_bounds F stop Fin) as Hb. destruct (facts_guard _ _ _ _ E) as ((Ep & _) & _). pose proof (pos_nonneg s).
  pose proof (stage_pos _ _ S) as Hle. destruct Fin as [_ Hmax]. subst s1. destruct (fetch_guard r stop s F W S) as [E0 E1].
  set (vm' := if 0 <? k then rset vm r (Integer (k - 1)) else vm). exists vm'. assert (Hvr := Hr). unfold valid_reg in Hvr.
  assert (Hi' : I vm') by (unfold vm'; destruct (0 <? k); [by apply (source_registers other_op (row := row) (reach := reach))|done]).
  assert (D0 : dispatch env other_op (pos s) (set_p2 (instruction OpIfNotZero r 0 0) (as_i32 (pos s + 2))) vm = (Ok (if k =? 0 then SNext else SJump (pos s + 2)), vm')).
  { unfold dispatch. cbn [Program.opcode instruction set_p2]. unfold op_if_not_zero. cbn [p1 p2 p3 instruction set_p2]. rewrite (M_bind_ok _ _ _ _ _ (register_integer vm r k Hr Ev)).
    rewrite as_i32_small by (unfold I32_MAX in *; lia). unfold vm', to_pc. rewrite Z.max_l by lia. destruct (Z.eqb_spec k 0) as [->|]; [done|]. cbn [negb]. destruct (Z.ltb_spec 0 k).
    - rewrite i64_pred by lia. by rewrite (M_bind_ok _ _ _ _ _ (set_register_ok vm r _ Hr)).
    - done. }
  split; [|split; [done|]].
  - rewrite Ep. eapply (fwd_step _ _ _ (pos s) _ _ _ _ (if k =? 0 then pos s + 1 else pos s + 2)); [exact E0|exact D0|by apply (source_quiet other_op (row := row) (reach := reach))| | |].
    + destruct (k =? 0); [by left|right; reflexivity].
    + destruct (k =? 0); lia.
    + destruct (Z.eqb_spec k 0) as [->|]; [|constructor]. eapply (fwd_step _ _ _ (pos s + 1) _ _ _ _ (target F stop)); [exact E1| |by apply (source_quiet other_op (row := row) (reach := reach))| |lia|constructor].
      * unfold dispatch. cbn [Program.opcode instruction set_p2]. unfold op_goto. cbn [p2 instruction set_p2]. rewrite as_i32_small by done. unfold to_pc. rewrite Z.max_l by lia. done.
      * by right.
  - unfold vm'. destruct (0 <? k); [|done]. rewrite rg_rset, bool_decide_true by lia. split; [done|]. intros x Hx Hne. by rewrite rg_rset, bool_decide_false by lia.
Qed.

(** The guards decide as [judge] does and move the counters on. *)
Definition guards_code (limit : option LimitState) (row_skip end_label : Label) (s s' : Gen) : Prop :=
  code s s' (nreg s' = nreg s /\ forall I row reach, RowSource other_op I row reach ->
    forall F vm state, final F -> stage s' F -> I vm -> counters_at limit state vm -> counters_below limit (nreg s) -> pos s' <= target F row_skip -> pos s' <= target F end_label ->
    exists vm', fwd env other_op (finish (em F)) (pos s) vm (match judge state with Skip => target F row_skip | Stop => target F end_label | Give => pos s' end) vm' /\ I vm' /\
      (forall x, 0 <= x -> x ∉ counter_registers limit -> rg vm' x = rg vm x) /\
      counters_at limit (match judge state with Skip => after_skip state | Stop => state | Give => after_row state end) vm').

Lemma guards_correct limit row_skip end_label s u s' : emit_limit_guards limit row_skip end_label s = (Ok u, s') ->
  match limit with Some st => limit_reg st <> None | None => True end -> guards_code limit row_skip end_label s s'.
Proof.
  intros H1 Hl. unfold guards_code. destruct limit as [[o [l|]]|]; [| done |].
  - cbn [emit_limit_guards] in H1. destruct o as [o|]; unfold emit_offset_guard in H1; cbn [offset_reg] in H1.
    + gstep H1 s1 E1. apply guard_inv in H1. pose proof (guard_block _ _ _ _ H1) as B. destruct (facts_guard _ _ _ _ H1) as ((Pg & _ & Rg) & _). gcode s. split; [lia|].
      intros I row reach Src F vm [[n k]|] Fin S Hi Hc Hb As Ae; [|done]. destruct Hc as (Ek & Hk & En & Hn). destruct Hb as [Hnd Hb].
      cbn in Hnd, Hb. apply Forall_cons in Hb as [Ho Hb]. apply Forall_cons in Hb as [Hb _]. apply NoDup_cons in Hnd as [Hol _]. apply not_elem_of_cons in Hol as [Hol _].
      destruct (run_if_pos I row reach F row_skip s s1 vm o n Src Fin E1 ltac:(assumption) ltac:(gstage) Hi ltac:(gvalid) En Hn ltac:(lia)) as (vm1 & R1 & I1 & X1 & Fr1).
      cbn [judge after_skip after_row counter_registers offset_reg limit_reg]. destruct (Z.ltb_spec 0 n).
      * exists vm1. split; [done|]. split; [done|]. split; [intros x Hx Hn'; apply Fr1; [done|set_solver]|]. unfold counters_at. rewrite (Fr1 l) by (cbn in Ho, Hb; lia). split; [done|]. split; [done|]. split; [done|lia].
      * destruct (run_guard I row reach F l end_label s1 s' vm1 k Src Fin H1 ltac:(assumption) S I1 ltac:(gvalid)) as (vm2 & R2 & I2 & X2 & Fr2); [by rewrite (Fr1 l) by (cbn in Ho, Hb; lia)|done|lia|].
        exists vm2. split; [eapply fwd_trans; [exact R1|]; destruct (Z.eqb_spec k 0); exact R2|]. split; [done|].
        split; [intros x Hx Hn'; rewrite Fr2, Fr1; [done|done|set_solver|done|set_solver]|].
        assert (Eo : rg vm2 o = Integer n) by (rewrite (Fr2 o) by (cbn in Ho, Hb; lia); done). destruct (Z.eqb_spec k 0) as [->|]; unfold counters_at; rewrite X2, Eo; (split; [done|]); (split; [|done]); [done|].
        destruct (Z.ltb_spec 0 k); unfold I64_MIN, I64_MAX in *; lia.
    + apply ret_inv in H1. apply guard_inv in H1. pose proof (guard_block _ _ _ _ H1) as B. destruct (facts_guard _ _ _ _ H1) as ((Pg & _ & Rg) & _). gcode s. split; [lia|].
      intros I row reach Src F vm [[n k]|] Fin S Hi Hc Hb As Ae; [|done]. destruct Hc as (Ek & Hk & Hn). destruct Hb as [Hnd Hb]. cbn in Hb. apply Forall_cons in Hb as [Hb _].
      destruct (run_guard I row reach F l end_label s s' vm k Src Fin H1 ltac:(assumption) S Hi ltac:(gvalid) Ek Hk ltac:(lia)) as (vm2 & R2 & I2 & X2 & Fr2).
      exists vm2. cbn [judge after_skip after_row counter_registers offset_reg limit_reg]. rewrite (proj2 (Z.ltb_ge 0 n)) by lia.
      split; [destruct (Z.eqb_spec k 0); exact R2|]. split; [done|]. split; [intros x Hx Hn'; apply Fr2; [done|set_solver]|].
      destruct (Z.eqb_spec k 0) as [->|]; unfold counters_at; rewrite X2; (split; [done|]); (split; [|done]); [done|]. destruct (Z.ltb_spec 0 k); unfold I64_MIN, I64_MAX in *; lia.
  - apply last_ret in H1 as [_ ->]. gcode s. split; [lia|]. intros I row reach Src F vm [[n k]|] Fin S Hi Hc Hb As Ae; [done|]. exists vm. split; [constructor|]. done.
Qed.
End Guards.
