(* ===== verification/CodegenLoop.v ===== *)
(** * The full scan

    The code of [compile_full_scan] run over a table cursor yields the rows of
    the table that satisfy WHERE, their result columns evaluated, cut by LIMIT
    and OFFSET.  The cursor is an interface: [TableScan] says what the opcodes
    of the scan do to it. *)

From stdpp Require Import prelude list numbers gmap.
From Stdlib Require Import ZArith Lia.
From S2P Require Import Prelude Varint Text Record Float ValueOrder Format Coerce Functions Tokenizer Header Freelist Vfs Journal Wal Lock Shm Checkpoint PageCache Pager Commit Transactions Allocator BtreePage LeafPage LeafSearch Btree Tree TreeSplit Overflow Table Cursor Program Vm VmCursor Sorter Exec Ast Codegen CodegenExpr CodegenState Eval CodegenRun CodegenCond CodegenValue CodegenCall ExecRun CodegenSelect CodegenRows CodegenSeek CodegenAggregate CodegenEntry.

Local Open Scope Z_scope.

(** ** What a SELECT means *)

(** The result of one row: nothing when the condition is not true. *)
Definition select_row (scope : Scope) (w : option Expr) (es : list Expr) (row : Row) : option (list (list Value)) :=
  keep ← match w with None => Some true | Some e => v ← eval scope row e; Some (bool_decide (truth v = Some true)) end;
  if keep : bool then vs ← mapM (eval scope row) es; Some [vs] else Some [].
Definition select_rows (scope : Scope) (w : option Expr) (es : list Expr) (rows : list Row) : option (list (list Value)) :=
  (fun out => List.concat out) <$> mapM (select_row scope w es) rows.

Lemma select_rows_cons scope w es row rows out : select_rows scope w es (row :: rows) = Some out ->
  exists o1 o2, select_row scope w es row = Some o1 /\ select_rows scope w es rows = Some o2 /\ out = o1 ++ o2.
Proof.
  unfold select_rows. intros E. apply fmap_Some in E as (os & E & ->). apply mapM_Some_1 in E. apply Forall2_cons_inv_l in E as (o1 & os' & E1 & E2 & ->).
  exists o1, (List.concat os'). split; [done|]. split; [|done]. by rewrite (mapM_Some_2 _ _ _ E2).
Qed.

Definition no_row (ps : list Value) : Row := MkRow (fun _ _ => Null) (fun _ => Null) ps.
Definition no_scope : Scope := scan_scope no_table (-1) [].

(** LIMIT and OFFSET, which are evaluated before the first row. *)
Definition eval_limit (ps : list Value) (limit : option Limit) : option (option (Z * Z)) :=
  match limit with
  | None => Some None
  | Some (MkLimit l o) =>
    lv ← eval no_scope (no_row ps) l;
    k ← match lv with Integer k => Some k | _ => None end;
    n ← match o with None => Some 0 | Some e => v ← eval no_scope (no_row ps) e; match v with Integer n => Some n | _ => None end end;
    if (I64_MIN <=? k) && (k <=? I64_MAX) && (n <=? I64_MAX) then Some (Some (n, k)) else None
  end.

(** An expression that reads no column. *)
Fixpoint constant (e : Expr) : bool :=
  match e with
  | MkExpr (ELiteral _) _ => true
  | MkExpr (EParam kind) _ => match kind with PkAnonymous => false | _ => true end
  | MkExpr (EParen inner) _ | MkExpr (EUnary _ inner) _ => constant inner
  | _ => false
  end.
Definition constant_limit (limit : option Limit) : bool :=
  match limit with None => true | Some (MkLimit l o) => constant l && match o with None => true | Some e => constant e end end.

Lemma constant_covered e : constant e = true -> covered e = true.
Proof.
  revert e. fix IH 1. intros [k sp] Hc. destruct k; try discriminate Hc; cbn in *; [done|done|by apply IH|by apply IH].
Qed.

Lemma constant_scope sub scope scope' fuel : forall e, constant e = true -> forall s, compile_value sub fuel scope e s = compile_value sub fuel scope' e s.
Proof.
  induction fuel as [|fuel IH]; [done|]. intros [k sp] Hc s. destruct k; try discriminate Hc; cbn [compile_value e_kind]; [done|done| |].
  - unfold value_unary. cbn in Hc. destruct op; unfold mbind, M_bind; by rewrite (IH expr Hc).
  - cbn in Hc. by apply IH.
Qed.

(** No subquery is compiled ahead of the loop. *)
Lemma covered_no_subquery e : covered e = true -> existsb is_subquery_conjunct (top_level_and_conjuncts e) = false.
Proof.
  revert e. fix IH 1. intros [k sp] Hc. destruct k; try discriminate Hc; try reflexivity.
  - destruct op; cbn in Hc; apply andb_true_iff in Hc as [Hl Hr]; cbn [top_level_and_conjuncts]; rewrite ?existsb_app.
    all: try (rewrite (IH lhs Hl), (IH rhs Hr); done).
    all: cbn; destruct lhs as [[] ?], rhs as [[] ?]; try done.
  - cbn in *. by apply IH.
Qed.

Lemma no_table_reach cursor catalog : in_reach (scan_scope no_table cursor catalog) (fun _ => False).
Proof.
  intros table name r Hr _. exfalso. unfold scan_scope, single, with_catalog in Hr. cbn [resolve] in Hr. unfold resolve_own, resolve_own_binding_index in Hr. cbn [sc_tables] in Hr.
  destruct table as [t|]; [|done]. cbn [position] in Hr. by destruct (matches_qualifier _ t).
Qed.
Lemma no_scope_reach : in_reach no_scope (fun _ => False).
Proof. apply no_table_reach. Qed.

(** The operand of [ResultRow]. *)
Lemma count_small n : 0 <= n <= 1048576 -> count_or_zero n = n.
Proof. intros Hn. unfold count_or_zero, i32_try_from, I32_MIN, I32_MAX. by rewrite (proj2 (Z.leb_le _ _)), (proj2 (Z.leb_le _ _)) by lia. Qed.

(** ** The interface of the scanned cursor *)

Section Interface.
Context `{host : Host} {OS : Type} `{Fcntl OS} {Ext : Type} (env : Env).
Abbreviation MVm := (Vm (OS := OS) (Ext := Ext)).
Context (other_op : Instruction -> M MVm ExecError Step).

Definition is_nil {A} (l : list A) : bool := match l with [] => true | _ => false end.

(** [Start]: the cursor is open.  [At k]: it stands on row [k].  [Over]: it is
    past the last row.  Apart from the registers, what the code of a row does
    keeps it there. *)
Class TableScan (c : Z) (ps : list Value) (rows : list Row) (Start : MVm -> Prop) (At : nat -> MVm -> Prop) (Over : MVm -> Prop) (ac : bool) := {
  scan_start : RowSource other_op Start (no_row ps) (fun _ => False);
  scan_row k row : rows !! k = Some row -> RowSource other_op (At k) row (fun c' => c' = c);
  scan_rewind vm a : Start vm -> exists vm', op_rewind (instruction OpRewind c a 0) vm = (Ok (jump_if (is_nil rows) a), vm') /\
    registers vm' = registers vm /\ if is_nil rows then Over vm' else At 0%nat vm';
  scan_next vm k a : At k vm -> (k < length rows)%nat -> exists vm', op_next (instruction OpNext c a 0) vm = (Ok (jump_if (bool_decide (S k < length rows)%nat) a), vm') /\
    registers vm' = registers vm /\ if bool_decide (S k < length rows)%nat then At (S k) vm' else Over vm';
  scan_quiet vm : ((exists k, At k vm) \/ Over vm) -> vm_rows vm = [] /\ has_writer vm = false /\ autocommit vm = ac }.

Lemma rg_same (vm vm' : MVm) x : registers vm' = registers vm -> rg vm' x = rg vm x.
Proof. intros E. unfold rg. by rewrite E. Qed.

(** ** One row through the two guards *)

Definition feed (state : option (Z * Z)) (out : list (list Value)) : list (list Value) * option (Z * Z) * bool :=
  match out with
  | [] => ([], state, false)
  | vs :: _ => match judge state with Skip => ([], after_skip state, false) | Stop => ([], state, true) | Give => ([vs], after_row state, false) end
  end.

Lemma limit_feed state out rest : (out = [] \/ exists vs, out = [vs]) ->
  limit_rows state (out ++ rest) = (feed state out).1.1 ++ (if (feed state out).2 then [] else limit_rows (feed state out).1.2 rest).
Proof. intros [->|[vs ->]]; cbn [feed app]; [done|]. rewrite limit_rows_cons. by destruct (judge state). Qed.

Lemma limit_nil {A} state : limit_rows state (@nil A) = [].
Proof. destruct state as [[o l]|]; [|done]. cbn. rewrite drop_nil, take_nil. by destruct (l <? 0). Qed.

Lemma select_row_shape scope w es row out : select_row scope w es row = Some out -> out = [] \/ exists vs, out = [vs].
Proof.
  unfold select_row. intros H1. destruct (match w with None => _ | Some e => _ end) as [[]|]; cbn in H1; [|injection H1 as <-; by left|done].
  destruct (mapM _ es) as [vs|]; [|done]. injection H1 as <-. right. by exists vs.
Qed.

(** ** Setting the counters up *)

Lemma counters_frame lim state (vm vm' : MVm) : (forall x, x ∈ counter_registers lim -> rg vm' x = rg vm x) -> counters_at lim state vm -> counters_at lim state vm'.
Proof.
  destruct lim as [[o [l|]]|], state as [[n k]|]; try done. intros Hr (El & Hk & Ho). split; [rewrite Hr; [done|cbn; destruct o; set_solver]|]. split; [done|].
  destruct o as [o|]; [|done]. by rewrite Hr by (cbn; set_solver).
Qed.

Lemma limit_setup_code sub fuel scope select s lim s' : constant_limit (sel_limit select) = true -> compile_limit_setup sub fuel scope select s = (Ok lim, s') ->
  match lim with Some st => limit_reg st <> None | None => True end /\
  code s s' (exists N, within s s' N /\ counters_below lim (nreg s') /\
    forall Start ps, RowSource other_op Start (no_row ps) (fun _ => False) ->
    forall F vm state, final F -> stage s' F -> Start vm -> nulls N vm -> eval_limit ps (sel_limit select) = Some state ->
    exists vm', reaches env other_op F Start N s s' vm (pos s') vm' /\ counters_at lim state vm').
Proof.
  intros Hc H1. unfold compile_limit_setup in H1. destruct (sel_limit select) as [[l o]|].
  2: { apply last_ret in H1 as [-> ->]. split; [done|]. gcode s. exists (fun _ => False). split; [gwithin|]. split; [split; constructor|].
       intros Start ps Src F vm state Fin S Hi Hn [= <-]. exists vm. split; [greach|done]. }
  cbn in Hc. apply andb_true_iff in Hc as [Cl Co]. gcall H1 r s1 E1. rewrite (constant_scope sub scope no_scope fuel l Cl) in E1.
  pose proof (proj1 (compile_codes env other_op sub no_scope fuel) l s r s1 (constant_covered l Cl) E1) as [B1 M1]. destruct o as [o|].
  - gcall H1 x s2 E2. apply M_bind_inv in E2 as (ro & s2' & E2 & E3). cbv beta in E3. apply last_ret in E3 as [-> ->]. apply last_ret in H1 as [-> ->].
    rewrite (constant_scope sub scope no_scope fuel o Co) in E2. pose proof (proj1 (compile_codes env other_op sub no_scope fuel) o s1 ro s2' (constant_covered o Co) E2) as [B2 M2].
    split; [done|]. gcode s. gmeaning M1. gmeaning M2. destruct M1 as (N1 & W1 & V1 & M1), M2 as (N2 & W2 & V2 & M2). exists (fun x => N1 x \/ N2 x). split; [gwithin|].
    split; [split; cbn; [apply NoDup_cons; split; [set_unfold; lia|apply NoDup_singleton]|apply Forall_cons; split; [lia|apply Forall_cons; split; [lia|constructor]]]|].
    intros Start ps Src F vm state Fin S Hi Hn Ev. gsplit. cbn -[eval no_scope no_row Z.leb I64_MIN I64_MAX] in Ev. destruct (eval no_scope (no_row ps) l) as [lv|] eqn:El; [|done]. cbn -[eval no_scope no_row Z.leb I64_MIN I64_MAX] in Ev.
    destruct lv as [|k| | |]; try done. cbn -[eval no_scope no_row Z.leb I64_MIN I64_MAX] in Ev. destruct (eval no_scope (no_row ps) o) as [ov|] eqn:Eo; [|done]. cbn -[eval no_scope no_row Z.leb I64_MIN I64_MAX] in Ev. destruct ov as [|n| | |]; try done. cbn -[eval no_scope no_row Z.leb I64_MIN I64_MAX] in Ev.
    destruct ((I64_MIN <=? k) && (k <=? I64_MAX) && (n <=? I64_MAX)) eqn:Eb; [|done]. injection Ev as <-.
    destruct (M1 Start _ _ Src no_scope_reach F vm _ Fin ltac:(gstage) Hi ltac:(gnulls) El) as (vm1 & (R1 & I1 & Fr1 & N1') & X1).
    destruct (M2 Start _ _ Src no_scope_reach F vm1 _ Fin ltac:(gstage) I1 ltac:(gnulls) Eo) as (vm2 & (R2 & I2 & Fr2 & N2') & X2).
    exists vm2. split; [greach|]. cbn [counters_at]. rewrite (Fr2 r) by lia. split; [done|]. split; [lia|]. split; [done|lia].
  - apply ret_inv in H1. apply last_ret in H1 as [-> ->]. split; [done|]. gcode s. gmeaning M1. destruct M1 as (N1 & W1 & V1 & M1). exists N1. split; [gwithin|].
    split; [split; cbn; [apply NoDup_singleton|apply Forall_cons; split; [lia|constructor]]|].
    intros Start ps Src F vm state Fin S Hi Hn Ev. cbn -[eval no_scope no_row Z.leb I64_MIN I64_MAX] in Ev. destruct (eval no_scope (no_row ps) l) as [lv|] eqn:El; [|done]. cbn -[eval no_scope no_row Z.leb I64_MIN I64_MAX] in Ev.
    destruct lv as [|k| | |]; try done. cbn -[eval no_scope no_row Z.leb I64_MIN I64_MAX] in Ev. destruct ((I64_MIN <=? k) && (k <=? I64_MAX) && (0 <=? I64_MAX)) eqn:Eb; [|done]. injection Ev as <-.
    destruct (M1 Start _ _ Src no_scope_reach F vm _ Fin ltac:(gstage) Hi ltac:(gnulls) El) as (vm1 & (R1 & I1 & Fr1 & N1') & X1).
    exists vm1. split; [greach|]. cbn [counters_at]. split; [done|]. split; [lia|lia].
Qed.

(** ** The parts of an iteration *)

Section Scan.
Context (sub : SubqueryCompiler) (hoist : bool -> TableSchema -> Scope -> Expr -> G SubqueryCompiler) (fuel : nat).
Context (select : Select) (schema : TableSchema) (cursors : ScanCursors) (end_label : Label) (catalog : list TableSchema).
Abbreviation scope := (scan_scope schema (cur_table cursors) catalog).

Definition row_kept (w : option Expr) (row : Row) : option bool :=
  match w with None => Some true | Some e => v ← eval scope row e; Some (bool_decide (truth v = Some true)) end.

Lemma where_code row_skip s u s' : match sel_where select with Some e => covered e = true | None => True end -> compile_where fuel select sub scope row_skip s = (Ok u, s') ->
  code s s' (exists N, within s s' N /\ forall I row reach, RowSource other_op I row reach -> in_reach scope reach ->
    forall F vm keep, final F -> stage s' F -> pos s' <= target F row_skip -> I vm -> nulls N vm -> row_kept (sel_where select) row = Some keep ->
    exists vm', reaches env other_op F I N s s' vm (if keep then pos s' else target F row_skip) vm').
Proof.
  intros Ce H1. unfold compile_where in H1. destruct (sel_where select) as [e|].
  - pose proof (proj2 (compile_codes env other_op sub scope fuel) e _ s u s' Ce H1) as [B1 M1]. gcode s. gmeaning M1. destruct M1 as (N & W & M). exists N. split; [done|].
    intros I row reach Src Hre F vm keep Fin S As Hi Hn Hk. unfold row_kept in Hk. destruct (eval scope row e) as [v|] eqn:Ev; [|done]. injection Hk as <-.
    destruct (M I row reach Src Hre F vm v Fin S ltac:(done) As Hi Hn Ev) as (vm' & R). exists vm'. destruct (truth v) as [[]|]; exact R.
  - apply last_ret in H1 as [_ ->]. gcode s. exists (fun _ => False). split; [gwithin|]. intros I row reach Src Hre F vm keep Fin S As Hi Hn [= <-]. exists vm. greach.
Qed.

Lemma emit_row_code s u s' : forallb covered (row_exprs select schema) = true -> emit_row_via_sink sub fuel select schema (cur_table cursors) false catalog result_row_sink s = (Ok u, s') ->
  code s s' (exists N, within s s' N /\ forall I row reach, RowSource other_op I row reach -> in_reach scope reach ->
    forall F vm vs, final F -> stage s' F -> I vm -> nulls N vm -> mapM (eval scope row) (row_exprs select schema) = Some vs ->
    exists n vm', Z.of_nat n <= pos s' - pos s /\ path env other_op (finish (em F)) n (pos s) vm [vs] (pos s') vm' /\ I vm' /\ frame s s' vm vm' /\ nulls N vm').
Proof.
  intros Ce H1. unfold emit_row_via_sink in H1. gcall H1 fc s1 E1. destruct fc as [first count]. cbv beta iota in H1. unfold result_row_sink in H1. gstep H1 s2 E2.
  apply last_ret in H1 as [_ ->]. destruct (row_values_code env other_op sub fuel schema _ _ _ _ _ _ _ Ce E1) as [B1 M1]. gcode s. gmeaning M1. destruct M1 as (N & W & -> & Hf & Hl & M).
  exists N. split; [gwithin|]. intros I row reach Src Hre F vm vs Fin S Hi Hn Ev.
  assert (Hvs : Forall2 (fun col v => eval scope row (plan_expr col) = Some v) (result_columns select schema) vs).
  { unfold row_exprs in Ev. apply mapM_Some_1 in Ev. by rewrite Forall2_fmap_l in Ev. }
  pose proof (Forall2_length _ _ _ Hvs) as Hlen. assert (El : len (result_columns select schema) = len vs) by (unfold len; lia). rewrite El in *. pose proof (len_nonneg vs).
  destruct (M I row reach Src Hre F vm vs Fin ltac:(gstage) Hi Hn Hvs) as (vm1 & (R1 & I1 & Fr1 & N1') & X1). destruct (fwd_path env other_op _ _ _ _ _ R1) as (n1 & Hn1 & P1).
  rewrite count_small in E2 by lia.
  destruct (run_result_row env other_op I row reach F first vs s1 s2 vm1 Src E2 ltac:(assumption) S I1 ltac:(lia) ltac:(unfold MAX_REGISTERS; lia) X1) as (vm2 & P2 & I2 & _ & T2).
  exists (n1 + 1)%nat, vm2. split; [lia|]. split; [by apply (path_trans _ _ _ _ _ _ _ _ _ _ _ _ _ P1 P2)|]. split; [done|]. unfold len in *. split.
  - intros x Hx Hnx. rewrite T2, (Fr1 x) by lia. destruct (Z.leb_spec first x), (Z.ltb_spec x (first + Z.of_nat (length vs))); cbn; try done. lia.
  - intros x Hx. pose proof (W x Hx). rewrite T2 by lia. destruct (_ && _); [done|]. by apply N1'.
Qed.

(** ** One iteration and the loop *)

Lemma select_row_kept w es row out : select_row scope w es row = Some out ->
  exists keep, row_kept w row = Some keep /\ if keep : bool then exists vs, mapM (eval scope row) es = Some vs /\ out = [vs] else out = [].
Proof.
  unfold select_row. change (match w with None => _ | Some e => _ end) with (row_kept w row). destruct (row_kept w row) as [[]|]; [|..|done]; cbn -[eval mapM]; intros E.
  - exists true. split; [done|]. destruct (mapM _ es) as [vs|]; [|done]. injection E as <-. by exists vs.
  - exists false. injection E as <-. done.
Qed.

Lemma counters_through lim state n (vm vm' : MVm) : counters_below lim n -> (forall x, 0 <= x < n -> rg vm' x = rg vm x) -> counters_at lim state vm -> counters_at lim state vm'.
Proof. intros [_ Hb] Hr. apply counters_frame. intros x Hx. apply Hr. rewrite Forall_forall in Hb. by apply Hb. Qed.

(** From the start of an iteration: the row is judged, and yielded or not. *)
Definition iteration (lim : option LimitState) (N : Z -> Prop) (F : Gen) (start stop over : Z) (At : MVm -> Prop) (row : Row) : Prop :=
  forall vm state out, At vm -> nulls N vm -> counters_at lim state vm -> select_row scope (sel_where select) (row_exprs select schema) row = Some out ->
  exists n vm', Z.of_nat n <= over - start /\ path env other_op (finish (em F)) n start vm (feed state out).1.1 (if (feed state out).2 then over else stop) vm' /\
    At vm' /\ nulls N vm' /\ counters_at lim (feed state out).1.2 vm'.

Definition row_body (lim : option LimitState) (row_skip : Label) : G unit :=
  _ ← compile_where fuel select sub scope row_skip;
  _ ← emit_limit_guards lim row_skip end_label;
  emit_row_via_sink sub fuel select schema (cur_table cursors) false catalog result_row_sink.

Lemma row_body_code lim row_skip s u s' : match sel_where select with Some e => covered e = true | None => True end -> forallb covered (row_exprs select schema) = true ->
  match lim with Some st => limit_reg st <> None | None => True end -> row_body lim row_skip s = (Ok u, s') ->
  code s s' (exists N, within s s' N /\ forall I row, RowSource other_op I row (fun c => c = cur_table cursors) ->
    forall F, final F -> stage s' F -> target F row_skip = pos s' -> pos s' <= target F end_label -> counters_below lim (nreg s) ->
    iteration lim N F (pos s) (pos s') (target F end_label) I row).
Proof.
  intros Cw Ce Hl H1. unfold row_body in H1. gcall H1 u1 s1 E1. gcall H1 u2 s2 E2. destruct (where_code row_skip _ _ _ Cw E1) as [B1 M1].
  destruct (guards_correct env other_op lim row_skip end_label _ _ _ E2 Hl) as [B2 M2]. destruct (emit_row_code _ _ _ Ce H1) as [B3 M3]. gcode s. gmeaning M1. gmeaning M2. gmeaning M3.
  destruct M1 as (N1 & W1 & M1), M2 as (R2 & M2), M3 as (N3 & W3 & M3). exists (fun x => N1 x \/ N3 x). split; [gwithin|].
  intros I row Src F Fin S Hs He Hb vm state out Hi Hn Hc Ho. gsplit. destruct (select_row_kept _ _ _ _ Ho) as (keep & Hk & Hout). pose proof (single_reach schema (cur_table cursors) catalog) as Hre.
  destruct (M1 I row _ Src Hre F vm keep Fin ltac:(gstage) ltac:(lia) Hi ltac:(assumption) Hk) as (vm1 & R1 & I1 & Fr1 & N1'). destruct (fwd_path env other_op _ _ _ _ _ R1) as (n1 & Hn1 & P1).
  assert (C1 : counters_at lim state vm1) by (apply (counters_through lim state (nreg s) vm); [done|intros x Hx; apply Fr1; lia|done]).
  assert (N3' : nulls N3 vm1) by gnulls.
  destruct keep; cbn [negb] in *.
  2: { subst out. exists n1, vm1. cbn [feed fst snd]. rewrite Hs in *. split; [lia|]. split; [done|]. split; [done|]. split; [|done]. intros x [Hx|Hx]; [by apply N1'|by apply N3']. }
  destruct Hout as (vs & Hvs & ->). assert (Hb1 : counters_below lim (nreg s1)). { destruct Hb as [Hd Hb]. split; [done|]. eapply Forall_impl; [exact Hb|]. cbn. lia. }
  destruct (M2 I row _ Src F vm1 state Fin ltac:(gstage) I1 C1 Hb1 ltac:(lia) ltac:(lia)) as (vm2 & R2' & I2 & Fr2 & C2). destruct (fwd_path env other_op _ _ _ _ _ R2') as (n2 & Hn2 & P2).
  assert (Hout : forall x, N1 x \/ N3 x -> rg vm2 x = Null).
  { intros x Hx. assert (nreg s <= x) by (destruct Hx as [Hx|Hx]; [specialize (W1 x Hx)|specialize (W3 x Hx)]; lia). rewrite Fr2; [destruct Hx; [by apply N1'|by apply N3']|lia|].
    intros Hin. destruct Hb as [_ Hb]. rewrite Forall_forall in Hb. specialize (Hb x Hin). cbn in Hb. lia. }
  pose proof (path_trans env other_op _ _ _ _ _ _ _ _ _ _ _ P1 P2) as P12. cbn [app] in P12.
  unfold feed. destruct (judge state) eqn:Ej; cbn [fst snd].
  - exists (n1 + n2)%nat, vm2. rewrite Hs in *. split; [lia|]. done.
  - exists (n1 + n2)%nat, vm2. split; [lia|]. done.
  - destruct (M3 I row _ Src Hre F vm2 vs Fin S I2 ltac:(intros x Hx; apply Hout; by right) Hvs) as (n3 & vm3 & Hn3 & P3 & I3 & Fr3 & N3'').
    exists (n1 + n2 + n3)%nat, vm3. split; [lia|]. split; [by apply (path_trans env other_op _ _ _ _ _ _ _ _ _ _ _ P12 P3)|]. split; [done|]. split.
    + intros x [Hx|Hx]; [|by apply N3'']. rewrite (Fr3 x) by (specialize (W1 x Hx); lia). apply Hout. by left.
    + apply (counters_through lim _ (nreg s) vm2); [done|intros x Hx; apply Fr3; lia|done].
Qed.

(** The rest of the scan from row [k]. *)
Lemma loop_path_code c ps rows Start At Over ac F lim N loop_start s2 s9 s' : TableScan c ps rows Start At Over ac -> c = cur_table cursors ->
  s' = jump (instruction OpNext c 0 0) loop_start s9 -> final F -> gen_wf s9 -> stage s' F -> target F loop_start = pos s2 -> pos s2 <= pos s9 -> target F end_label = pos s' ->
  (forall k row, rows !! k = Some row -> iteration lim N F (pos s2) (pos s9) (target F end_label) (At k) row) ->
  forall m k state vm out, (length rows - k = m)%nat -> (k < length rows)%nat -> At k vm -> nulls N vm -> counters_at lim state vm ->
  select_rows scope (sel_where select) (row_exprs select schema) (drop k rows) = Some out ->
  exists n vm', Z.of_nat n <= Z.of_nat m * (pos s' - pos s2 + 1) /\ path env other_op (finish (em F)) n (pos s2) vm (limit_rows state out) (pos s') vm' /\ ((exists k, At k vm') \/ Over vm').
Proof.
  intros Sc -> E Fin W S Tl Hle Te It. pose proof (pos_nonneg s2). assert (Ep : pos s' = pos s9 + 1) by (subst s'; by rewrite pos_jump). pose proof (target_bounds F loop_start Fin) as Hb.
  induction m as [|m IH]; intros k state vm out Hm Hk Ha Hn Hc Ho; [lia|].
  destruct (lookup_lt_is_Some_2 rows k Hk) as (row & Er). rewrite (drop_S _ _ _ Er) in Ho. apply select_rows_cons in Ho as (o1 & o2 & E1 & E2 & ->).
  destruct (It k row Er vm state o1 Ha Hn Hc E1) as (n1 & vm1 & Hn1 & P1 & A1 & Nl1 & C1). rewrite limit_feed by (by eapply select_row_shape). destruct (feed state o1) as [[got state'] stop] eqn:Ef. cbn [fst snd] in *.
  destruct stop.
  { exists n1, vm1. rewrite Te in *. split; [nia|]. rewrite app_nil_r. split; [done|]. left. by exists k. }
  destruct (scan_next vm1 k (as_i32 (pos s2)) A1 Hk) as (vm2 & D & Rg & A2). destruct Fin as [Wf Hmax]. pose proof (stage_pos _ _ S) as HsF.
  assert (Hq : vm_rows vm2 = []) by (apply (scan_quiet (TableScan := Sc)); case_bool_decide; [left; by exists (Datatypes.S k)|by right]).
  assert (P2 : path env other_op (finish (em F)) 1 (pos s9) vm1 [] (if bool_decide (Datatypes.S k < length rows)%nat then pos s2 else pos s') vm2).
  { eapply (path_step _ _ _ 0 _ _ (jump_if (bool_decide (Datatypes.S k < length rows)%nat) (as_i32 (pos s2))) _ vm2); [rewrite E in S; exact (fetch_jump (instruction OpNext (cur_table cursors) 0 0) loop_start s9 F eq_refl W S)| |done| |constructor].
    - rewrite Tl. exact D.
    - unfold goes, jump_if, to_pc. case_bool_decide; [right|by left]. rewrite as_i32_small by lia. by rewrite Z.max_l by lia. }
  pose proof (path_trans env other_op _ _ _ _ _ _ _ _ _ _ _ P1 P2) as P12. rewrite app_nil_r in P12.
  case_bool_decide.
  - destruct (IH (Datatypes.S k) state' vm2 o2 ltac:(lia) ltac:(done) A2) as (n3 & vm3 & Hn3 & P3 & A3).
    + intros x Hx. rewrite (rg_same vm1 vm2) by done. by apply Nl1.
    + apply (counters_frame lim state' vm1); [intros; by apply rg_same|done].
    + done.
    + exists (n1 + 1 + n3)%nat, vm3. split; [nia|]. split; [by apply (path_trans env other_op _ _ _ _ _ _ _ _ _ _ _ P12 P3)|done].
  - rewrite drop_ge in E2 by lia. injection E2 as <-. exists (n1 + 1)%nat, vm2. split; [nia|]. split; [|by right].
    by rewrite limit_nil, app_nil_r.
Qed.

Lemma full_scan_code s u s' : is_distinct select = false -> match sel_where select with Some e => covered e = true | None => True end -> forallb covered (row_exprs select schema) = true ->
  constant_limit (sel_limit select) = true -> compile_full_scan sub hoist fuel select schema cursors end_label catalog result_row_sink s = (Ok u, s') ->
  code s s' (exists N, within s s' N /\ forall ps rows Start At Over ac, TableScan (cur_table cursors) ps rows Start At Over ac ->
    forall F vm state out, final F -> stage s' F -> target F end_label = pos s' -> Start vm -> nulls N vm -> eval_limit ps (sel_limit select) = Some state ->
    select_rows scope (sel_where select) (row_exprs select schema) rows = Some out ->
    exists n vm', Z.of_nat n <= (len rows + 1) * (pos s' - pos s + 1) /\ path env other_op (finish (em F)) n (pos s) vm (limit_rows state out) (pos s') vm' /\ ((exists k, At k vm') \/ Over vm')).
Proof.
  intros Hd Cw Ce Cl H1. unfold compile_full_scan in H1. unfold open_distinct in H1. rewrite Hd in H1. apply ret_inv in H1.
  assert (Eh : hoist_where_subqueries sub hoist true schema scope (sel_where select) = mret sub).
  { unfold hoist_where_subqueries. destruct (sel_where select) as [e|]; [|done]. by rewrite covered_no_subquery. }
  rewrite Eh in H1. apply ret_inv in H1. gcall H1 lim s1 E1. destruct (limit_setup_code sub fuel scope select _ _ _ Cl E1) as [Hl [B1 M1]].
  gstep H1 s2 E2. gstep H1 s3 E3. gstep H1 s4 E4. gstep H1 s5 E5.
  assert (H2 : (_ ← row_body lim (nlab s4); _ ← place (nlab s4); emit_jump (instruction OpNext (cur_table cursors) 0 0) (nlab s2)) s5 = (Ok u, s')).
  { unfold row_body. revert H1. unfold emit_distinct_guard. rewrite Hd. cbn [negb]. unfold mbind, M_bind. destruct (compile_where _ _ _ _ _ s5) as [[]]; [|done]. cbn. destruct (emit_limit_guards _ _ _ g) as [[]]; [|done]. done. }
  clear H1. gcall H2 u2 s8 E8. destruct (row_body_code lim (nlab s4) _ _ _ Cw Ce Hl E8) as [B8 M8]. gstep H2 s9 E9. apply last_jump in H2. gcode s. gmeaning M1. gmeaning M8.
  destruct M1 as (N1 & W1 & Cb & M1), M8 as (N2 & W2 & M8). exists (fun x => N1 x \/ N2 x). split; [gwithin|].
  intros ps rows Start At Over ac Sc F vm state out Fin S Te Hi Hn Ev Ho. gsplit. pose proof (target_mark _ _ _ F E4 ltac:(gstage)) as Tl. pose proof (target_mark _ _ _ F E9 ltac:(gstage)) as Ts.
  destruct (M1 Start ps scan_start F vm state Fin ltac:(gstage) Hi ltac:(assumption) Ev) as (vm1 & (R1 & I1 & Fr1 & N1') & C1). destruct (fwd_path env other_op _ _ _ _ _ R1) as (n1 & Hn1 & P1).
  destruct (scan_rewind vm1 (as_i32 (target F end_label)) I1) as (vm2 & D & Rg & A2). rewrite Te in D.
  assert (Hq : vm_rows vm2 = []) by (apply (scan_quiet (TableScan := Sc)); destruct rows; [by right|left; by exists O]). pose proof (stage_pos _ _ S) as HsF. assert (Fin' := Fin). destruct Fin' as [_ Hmax]. unfold I32_MAX in Hmax. pose proof (pos_nonneg s1).
  assert (P2 : path env other_op (finish (em F)) 1 (pos s1) vm1 [] (if is_nil rows then pos s' else pos s2) vm2).
  { eapply (path_step _ _ _ 0 _ (set_p2 (instruction OpRewind (cur_table cursors) 0 0) (as_i32 (pos s'))) (jump_if (is_nil rows) (as_i32 (pos s'))) _ vm2); [|exact D|done| |constructor].
    - rewrite <- Te. apply (fetch_jump (instruction OpRewind (cur_table cursors) 0 0) end_label s1 F); [done|assumption|]. rewrite <- E2. gstage.
    - unfold goes, jump_if, to_pc. destruct (is_nil rows); [right|left; split; [done|lia]]. rewrite as_i32_small by (unfold I32_MAX; lia). by rewrite Z.max_l by lia. }
  pose proof (path_trans env other_op _ _ _ _ _ _ _ _ _ _ _ P1 P2) as P12. cbn [app] in P12. unfold len. destruct rows as [|row rows]; cbn [is_nil] in *.
  { injection Ho as <-. exists (n1 + 1)%nat, vm2. split; [cbn; lia|]. rewrite limit_nil. split; [done|by right]. }
  assert (It : forall k row', (row :: rows) !! k = Some row' -> iteration lim N2 F (pos s5) (pos s9) (target F end_label) (At k) row').
  { intros k row' Hk. replace (pos s9) with (pos s8) by lia. apply (M8 (At k) row'); [by apply scan_row|done|gstage|lia|lia|]. destruct Cb as [Nd Cb]. split; [done|]. eapply Forall_impl; [exact Cb|]. cbn. lia. }
  destruct (loop_path_code _ ps (row :: rows) Start At Over ac F lim N2 (nlab s2) s5 s9 s' Sc eq_refl H2 Fin ltac:(assumption) S ltac:(lia) ltac:(lia) ltac:(lia) It (length (row :: rows)) O state vm2 out ltac:(lia) ltac:(cbn; lia) A2) as (n3 & vm3 & Hn3 & P3 & A3).
  - intros x Hx. rewrite (rg_same vm1 vm2) by done. pose proof (W2 x Hx). gnull1.
  - apply (counters_frame lim state vm1); [intros; by apply rg_same|done].
  - exact Ho.
  - exists (n1 + 1 + n3)%nat, vm3. split; [nia|]. split; [|done]. replace (pos s2) with (pos s5) in P12 by lia. by apply (path_trans env other_op _ _ _ _ _ _ _ _ _ _ _ P12 P3).
Qed.
End Scan.
End Interface.
