(* ===== verification/SelectTable.v ===== *)
(** * The table under a scan

    A table b-tree read through the cursor opcodes is a [TableScan]: [Rewind]
    and [Next] visit its rows in the order of their rowids, and [Column] and
    [Rowid] read the values of the row the cursor stands on. *)

From stdpp Require Import prelude list numbers gmap.
From Stdlib Require Import ZArith Lia.
From S2P Require Import Prelude Varint Text Record Float ValueOrder Format Coerce Functions Tokenizer Header Freelist Vfs Journal Wal Lock Shm Checkpoint PageCache Pager Commit Transactions Allocator BtreePage LeafPage LeafSearch Btree Tree TreeSplit Overflow Table Cursor CursorScan Program Vm VmCursor Sorter Exec Ast Codegen CodegenExpr CodegenState Eval CodegenRun CodegenCond CodegenValue CodegenCall ExecRun CodegenSelect CodegenRows CodegenSeek CodegenAggregate CodegenEntry CodegenLoop.

Local Open Scope Z_scope.

(** A row of the table: its rowid and its values, NULL past the end. *)
Definition table_row (ps : list Value) (t : Z * list Value) : Row := MkRow (fun _ idx => nth (Z.to_nat idx) t.2 Null) (fun _ => Integer t.1) ps.

(** The header cache of a payload: a column of it is the value decoded. *)
Lemma ensure_column payload vs h : decode_record payload Utf8 = Ok vs -> (hc_valid h = true -> parse_header payload = Ok (hc_entries h)) ->
  exists h', ensure h payload = Ok h' /\ parse_header payload = Ok (hc_entries h') /\ hc_valid h' = true /\
    forall idx, 0 <= idx -> cache_column h' payload idx Utf8 = Ok (nth (Z.to_nat idx) vs Null).
Proof.
  intros Hd Hv. destruct (parse_header_of_record payload Utf8 vs Hd) as (hl & types & Hp & Hb).
  assert (Hcol : forall h', parse_header payload = Ok (hc_entries h') -> forall idx, 0 <= idx -> cache_column h' payload idx Utf8 = Ok (nth (Z.to_nat idx) vs Null)).
  { intros h' E idx Hi. rewrite Hp in E. injection E as E. unfold cache_column. rewrite <- E, get_at_lookup by done. apply (decode_bodies_column _ _ _ _ _ _ (Z.to_nat idx) Hb). }
  unfold ensure. destruct (hc_valid h) eqn:E.
  - exists h. split; [done|]. split; [by apply Hv|]. split; [done|]. apply Hcol. by apply Hv.
  - rewrite Hp. cbn [mbind result_bind]. eexists. split; [reflexivity|]. split; [done|]. split; [done|]. by apply Hcol.
Qed.

Section TableScans.
Context `{host : Host} {OS : Type} `{Fcntl OS} {Ext : Type}.
Abbreviation MVm := (Vm (OS := OS) (Ext := Ext)).
Context (other_op : Instruction -> M MVm ExecError Step).

(** ** Cursor slots *)

Lemma cursor_ok (vm : MVm) c x : valid_reg c -> slot None (cursors vm) c = Some x -> cursor c vm = (Ok x, vm).
Proof. intros Hc E. unfold cursor. rewrite (index_ok _ c Hc). unfold lift, get_st, mbind, M_bind. by rewrite E. Qed.
Lemma set_cursor_ok (vm : MVm) c x : valid_reg c -> set_cursor c x vm = (Ok tt, set_cursors vm (grow_set None (cursors vm) c (Some x))).
Proof. intros Hc. unfold set_cursor. by rewrite (index_ok _ c Hc). Qed.
Lemma slot_set (vm : MVm) c x : 0 <= c -> slot None (cursors (set_cursors vm (grow_set None (cursors vm) c x))) c = x.
Proof. intros Hc. cbn. rewrite slot_grow by lia. by rewrite bool_decide_true. Qed.

Context (usable : Z) (Husable : 480 <= usable <= 65536) (header : DatabaseHeader) (p : Pager OS) (ps : list Value) (ac : bool).
Context (c root : Z) (Hc : valid_reg c).
Context (rs : list row) (T : list (Z * list Z)) (V : list (Z * list Value)) (h : nat) (lo hi : Z) (pages : gset Z).
Context (Htree : tree usable p h root lo hi rs pages) (Hyields : Forall2 (yields usable p) rs T) (Hpages : Z.of_nat (base.size pages) <= MAX_PAGES_VISITED).
Context (Hvalues : Forall2 (fun t v => t.1 = v.1 /\ decode_record t.2 Utf8 = Ok v.2) T V).

(** The machine reads the database as it is in [p]. *)
Definition reading (vm : MVm) : Prop :=
  (exists q, vm_db vm = Some (MkVmDb q header false) /\ updated p q ∅) /\ vm_rows vm = [] /\ params vm = ps /\ autocommit vm = ac.

Definition opened (vm : MVm) : Prop :=
  reading vm /\ exists st, slot None (cursors vm) c = Some (SlotTable st) /\ tc_root_page (st_cursor st) = root /\ tc_usable_size (st_cursor st) = usable.

(** The cursor stands on row [k]; a cached payload or header is the row's. *)
Definition on_row (k : nat) (vm : MVm) : Prop :=
  reading vm /\ exists st r t cc n, slot None (cursors vm) c = Some (SlotTable st) /\ rs !! k = Some r /\ T !! k = Some t /\
    tc_usable_size (st_cursor st) = usable /\ pending usable p false (stack (st_cursor st)) (drop (S k) rs) n /\ pages_visited (st_cursor st) + Z.of_nat n <= MAX_PAGES_VISITED /\
    current (st_cursor st) = Some cc /\ stands_on cc r /\ forced_null st = false /\ current_rowid st = Some r.1 /\
    (cached_payload st = None \/ cached_payload st = Some t.2) /\ (hc_valid (header_cache st) = true -> parse_header t.2 = Ok (hc_entries (header_cache st))).

Lemma reading_registers vm x : reading vm -> reading (set_registers vm x).
Proof. done. Qed.
Lemma reading_cursors vm x : reading vm -> reading (set_cursors vm x).
Proof. done. Qed.
Lemma on_row_registers k vm x : on_row k vm -> on_row k (set_registers vm x).
Proof. done. Qed.

(** A move of the cursor leaves the machine reading the same database. *)
Lemma on_table_ok {A} opcode st (m : M (TableCursor * Pager OS) BtreeError A) (vm : MVm) q a c' q' :
  vm_db vm = Some (MkVmDb q header false) -> m (st_cursor st, q) = (Ok a, (c', q')) ->
  on_table opcode st m vm = (Ok (a, with_cursor st c'), set_db vm (Some (MkVmDb q' header false))).
Proof. intros E Em. unfold on_table. rewrite E. cbn. by rewrite Em. Qed.

Lemma reading_db vm q : reading vm -> updated p q ∅ -> reading (set_db vm (Some (MkVmDb q header false))).
Proof. intros (_ & Hr) Hq. split; [by exists q|done]. Qed.

(** ** The current row *)

Lemma payload_ok opcode k vm st r t cc : reading vm -> rs !! k = Some r -> T !! k = Some t -> tc_usable_size (st_cursor st) = usable -> current (st_cursor st) = Some cc -> stands_on cc r ->
  (cached_payload st = None \/ cached_payload st = Some t.2) ->
  exists vm', ensure_current_payload opcode st vm = (Ok (t.2, with_payload_cache st t.2), vm') /\ reading vm' /\ registers vm' = registers vm /\ cursors vm' = cursors vm.
Proof.
  intros Hr Er Et Hu Hcur Hst Hp. unfold ensure_current_payload. destruct Hp as [E|E]; rewrite E.
  - assert (Hr' := Hr). destruct Hr' as ((q & Edb & Hq) & _). destruct (Forall2_lookup_lr _ _ _ _ _ _ Hyields Er Et) as (_ & pgs & Hrp & Hmax & Hpg).
    destruct (current_payload_spec usable Husable p q (st_cursor st) cc r t.2 pgs Hcur Hst Hrp Hu Hq Hmax Hpg) as (q' & Em & Hq').
    rewrite (M_bind_ok _ _ _ _ _ (on_table_ok opcode st current_payload vm q t.2 _ q' Edb Em)). eexists. split; [reflexivity|]. split; [by apply reading_db|done].
  - exists vm. split; [|done]. assert (Es : with_payload_cache st t.2 = st) by (destruct st; cbn in E |- *; unfold with_payload_cache; cbn; by rewrite E). by rewrite Es.
Qed.

Lemma table_column k v (vm : MVm) idx d : V !! k = Some v -> on_row k vm -> 0 <= idx -> valid_reg d ->
  exists vm', op_column other_op (instruction OpColumn c idx d) vm = (Ok SNext, vm') /\ on_row k vm' /\ rg vm' d = nth (Z.to_nat idx) v.2 Null /\ (forall x, 0 <= x -> x <> d -> rg vm' x = rg vm x).
Proof.
  intros Ev (Hr & st & r & t & cc & n & Es & Er & Et & Hu & Hpe & Hb & Hcur & Hst & Hfn & Hid & Hcp & Hhc) Hi Hd.
  destruct (Forall2_lookup_lr _ _ _ _ _ _ Hvalues Et Ev) as [_ Hdec]. unfold op_column. cbn [p1 p2 p3 instruction]. rewrite (proj2 (Z.ltb_ge idx 0)) by lia.
  unfold read_row_column. rewrite (M_bind_ok _ _ _ _ _ (cursor_ok vm c _ Hc Es)). unfold read_table_column. rewrite Hfn, Hid.
  destruct (payload_ok (lit "Column") k vm st r t cc Hr Er Et Hu Hcur Hst Hcp) as (vm1 & E1 & Hr1 & R1 & C1).
  destruct (ensure_column t.2 v.2 (header_cache (with_payload_cache st t.2)) Hdec Hhc) as (hc & Eh & Hph & Hv & Hcol).
  set (vm2 := set_cursors vm1 (grow_set None (cursors vm1) c (Some (SlotTable (with_payload_cache st t.2))))).
  set (vm3 := set_cursors vm2 (grow_set None (cursors vm2) c (Some (SlotTable (with_header_cache (with_payload_cache st t.2) hc))))).
  assert (E : (v ← ('(payload, st) ← ensure_current_payload (lit "Column") st; _ ← set_cursor c (SlotTable st); h ← lift_record (lit "Column") (ensure (header_cache st) payload);
      _ ← set_cursor c (SlotTable (with_header_cache st h)); lift_record (lit "Column") (cache_column h payload idx Utf8)); _ ← set_register d v; mret SNext) vm =
    (Ok SNext, rset vm3 d (nth (Z.to_nat idx) v.2 Null))).
  { rewrite (M_bind_ok _ _ vm (nth (Z.to_nat idx) v.2 Null) vm3); [by rewrite (M_bind_ok _ _ _ _ _ (set_register_ok vm3 d _ Hd))|].
    rewrite (M_bind_ok _ _ _ _ _ E1). rewrite (M_bind_ok _ _ _ _ _ (set_cursor_ok vm1 c _ Hc)). fold vm2. rewrite Eh.
      rewrite (M_bind_ok (lift_record (lit "Column") (Ok hc)) _ vm2 hc vm2 eq_refl). rewrite (M_bind_ok _ _ _ _ _ (set_cursor_ok vm2 c _ Hc)). fold vm3. by rewrite Hcol. }
  exists (rset vm3 d (nth (Z.to_nat idx) v.2 Null)). split; [exact E|]. unfold valid_reg in Hc, Hd. split; [|split].
  - apply on_row_registers. split; [done|]. exists (with_header_cache (with_payload_cache st t.2) hc), r, t, cc, n. split; [apply slot_set; lia|]. do 9 (split; [done|]). split; [by right|]. intros _. exact Hph.
  - rewrite rg_rset by lia. by rewrite bool_decide_true.
  - intros x Hx Hne. rewrite rg_rset, bool_decide_false by lia. unfold rg. cbn. by rewrite R1.
Qed.

Lemma table_rowid k v (vm : MVm) d : V !! k = Some v -> on_row k vm -> valid_reg d ->
  exists vm', op_rowid (instruction OpRowid c d 0) vm = (Ok SNext, vm') /\ on_row k vm' /\ rg vm' d = Integer v.1 /\ (forall x, 0 <= x -> x <> d -> rg vm' x = rg vm x).
Proof.
  intros Ev Ho Hd. assert (Ho' := Ho). destruct Ho' as (Hr & st & r & t & cc & n & Es & Er & Et & Hu & Hpe & Hb & Hcur & Hst & Hfn & Hid & _).
  destruct (Forall2_lookup_lr _ _ _ _ _ _ Hvalues Et Ev) as [Ek _]. destruct (Forall2_lookup_lr _ _ _ _ _ _ Hyields Er Et) as (Ek' & _).
  exists (rset vm d (Integer v.1)). split; [|split; [by apply on_row_registers|]].
  - unfold op_rowid. cbn [p1 p2 instruction]. rewrite (M_bind_ok _ _ _ _ _ (cursor_ok vm c _ Hc Es)). rewrite Hfn, Hid. rewrite (M_bind_ok (mret (Integer r.1)) _ vm _ vm eq_refl).
    rewrite <- Ek', Ek. by rewrite (M_bind_ok _ _ _ _ _ (set_register_ok vm d _ Hd)).
  - unfold valid_reg in Hd. rewrite rg_rset, bool_decide_true by lia. split; [done|]. intros x Hx Hne. by rewrite rg_rset, bool_decide_false by lia.
Qed.

(** ** Moving *)

(** The outcome of a move with the rows from [k] still to come. *)
Lemma move_ok opcode i (clear_null : bool) place_at move (vm : MVm) q st c0 k : reading vm -> vm_db vm = Some (MkVmDb q header false) -> p1 i = c -> slot None (cursors vm) c = Some (SlotTable st) ->
  (if clear_null then True else forced_null st = false) -> tc_usable_size c0 = usable -> delivers usable p false c0 MAX_PAGES_VISITED (drop k rs) (move (st_cursor st, q)) ->
  exists vm', reposition opcode i clear_null move place_at vm = (Ok (bool_decide (k < length rs)%nat), vm') /\ registers vm' = registers vm /\
    if bool_decide (k < length rs)%nat then on_row k vm' else reading vm'.
Proof.
  intros Hr Edb Ei Es Hfn Hu Hdel. unfold reposition. rewrite Ei, (M_bind_ok _ _ _ _ _ (cursor_ok vm c _ Hc Es)). set (st0 := if clear_null then with_forced_null st false else st).
  assert (Ec : st_cursor st0 = st_cursor st) by (unfold st0; by destruct clear_null). assert (Efn : forced_null st0 = false) by (unfold st0; by destruct clear_null).
  destruct (drop k rs) as [|r rest] eqn:Ed.
  - destruct Hdel as (c' & q' & Em & Hq' & _). rewrite <- Ec in Em. rewrite (M_bind_ok _ _ _ _ _ (on_table_ok opcode st0 move vm q _ c' q' Edb Em)).
    apply (f_equal length) in Ed. rewrite length_drop in Ed. cbn in Ed. rewrite (bool_decide_false (k < _)%nat) by lia. rewrite (M_bind_ok _ _ _ _ _ (set_cursor_ok _ c _ Hc)). eexists. split; [reflexivity|]. split; [done|].
    apply reading_cursors. by apply reading_db.
  - destruct Hdel as (c' & q' & cc & n & Em & Hq' & Hpe & Hb & Hcur & Hst & (Hs1 & _)). rewrite <- Ec in Em. rewrite (M_bind_ok _ _ _ _ _ (on_table_ok opcode st0 move vm q _ c' q' Edb Em)).
    assert (Er : rs !! k = Some r) by (rewrite <- (Nat.add_0_r k), <- lookup_drop, Ed; done). pose proof (lookup_lt_Some _ _ _ Er) as Hlt. rewrite (bool_decide_true (k < _)%nat) by done.
    assert (Erest : rest = drop (S k) rs) by (rewrite (drop_S _ _ _ Er) in Ed; congruence). destruct (Forall2_lookup_l _ _ _ _ _ Hyields Er) as (t & Et & _). rewrite (M_bind_ok _ _ _ _ _ (set_cursor_ok _ c _ Hc)). eexists. split; [reflexivity|]. split; [done|].
    unfold valid_reg in Hc. split; [apply reading_cursors; by apply reading_db|]. eexists _, r, t, cc, n. split; [apply slot_set; lia|]. split; [done|]. split; [done|].
    split; [cbn; by rewrite Hs1|]. split; [by rewrite <- Erest|]. do 4 (split; [done|]). split; [done|]. split; [by left|]. cbn. done.
Qed.

Lemma table_scan_instance : TableScan other_op c ps (table_row ps <$> V) opened on_row reading ac.
Proof.
  pose proof (Forall2_length _ _ _ Hyields) as L1. pose proof (Forall2_length _ _ _ Hvalues) as L2. assert (El : length (table_row ps <$> V) = length rs) by (rewrite length_fmap; lia).
  split.
  - split; [by intros vm ((_ & ? & _) & _)|by intros vm ((_ & _ & ? & _) & _)|done|done|done].
  - intros k row Hk. rewrite list_lookup_fmap in Hk. destruct (V !! k) as [v|] eqn:Ev; [|done]. injection Hk as <-. split.
    + by intros vm ((_ & ? & _) & _).
    + by intros vm ((_ & _ & ? & _) & _).
    + intros vm x. apply on_row_registers.
    + intros vm c' idx d Ho -> Hi Hd. by apply (table_column k v).
    + intros vm c' d Ho -> Hd. by apply (table_rowid k v).
  - intros vm a (Hr & st & Es & Ert & Hu). assert (Hr' := Hr). destruct Hr' as ((q & Edb & Hq) & _). rewrite <- Ert in Htree.
    pose proof (start_spec usable p (st_cursor st) q false h lo hi rs pages Htree Hq Hpages) as Hd. cbn [turn] in Hd.
    destruct (move_ok (lit "Rewind") (instruction OpRewind c a 0) true (fun _ n => if n =? 0 then None else Some 0) first vm q st (rewind false (st_cursor st)) 0 Hr Edb eq_refl Es I Hu Hd) as (vm' & E & Rg & Hat).
    exists vm'. unfold op_rewind. rewrite (M_bind_ok _ _ _ _ _ E). cbn [p2 instruction]. destruct V; cbn [fmap list_fmap is_nil] in *; cbn [length] in *.
    + rewrite bool_decide_false in * by lia. done.
    + rewrite bool_decide_true in * by lia. done.
  - intros vm k a Ho Hk. assert (Ho' := Ho). destruct Ho' as (Hr & st & r & t & cc & n & Es & Er & Et & Hu & Hpe & Hb & Hcur & Hst & Hfn & _). assert (Hr' := Hr). destruct Hr' as ((q & Edb & Hq) & _).
    pose proof (advance_spec usable p (st_cursor st) q (drop (S k) rs) n MAX_PAGES_VISITED Hpe Hq Hb ltac:(lia)) as Hd.
    destruct (move_ok (lit "Next") (instruction OpNext c a 0) false (fun pos n => let k := match pos with Some p => sat_add p 1 | None => 0 end in if k <? n then Some k else None) next vm q st (st_cursor st) (S k) Hr Edb eq_refl Es Hfn Hu Hd) as (vm' & E & Rg & Hat).
    exists vm'. unfold op_next. rewrite (M_bind_ok _ _ _ _ _ E), El. done.
  - assert (Hq : forall vm, reading vm -> vm_rows vm = [] /\ has_writer vm = false /\ autocommit vm = ac) by (intros vm ((q & Edb & _) & H1 & _ & H2); split; [done|split; [unfold has_writer; by rewrite Edb|done]]).
    intros vm [[k [Hr _]]|Hr]; by apply Hq.
Qed.

(** [OpenRead] on a machine over the database. *)
Lemma run_open_read (vm : MVm) : reading vm -> 0 <= root <= U32_MAX -> usable_page_size header = usable ->
  exists vm', op_open_read other_op (instruction OpOpenRead c root 0) vm = (Ok SNext, vm') /\ opened vm' /\ registers vm' = registers vm.
Proof using Hc.
  clear Htree Hyields Hpages Hvalues.  intros Hr Hroot Hu. assert (Hr' := Hr). destruct Hr' as ((q & Edb & Hq) & _). unfold op_open_read. cbn [p1 p2 p5 instruction]. unfold u32_try_from. rewrite (proj2 (Z.leb_le _ _)), (proj2 (Z.leb_le _ _)) by lia. cbn [andb ok_or].
  rewrite (M_bind_ok (lift (Ok root)) _ vm root vm eq_refl). rewrite (M_bind_ok get_db _ vm (MkVmDb q header false) vm) by (unfold get_db, get_st, mbind, M_bind, lift; by rewrite Edb). change (negb (0 =? 0)) with false. cbv iota.
  rewrite (M_bind_ok _ _ _ _ _ (set_cursor_ok vm c _ Hc)). eexists. split; [reflexivity|]. split; [|done]. unfold valid_reg in Hc. split; [done|]. eexists. split; [apply slot_set; lia|done].
Qed.
End TableScans.

(** * Whole programs of SELECT

    The program of a SELECT without FROM and of a SELECT over one table,
    compiled and run: it ends, within a number of steps that the table and the
    program bound, and it yields the rows the statement means. *)

(** ** The SELECTs of the theorems *)

Definition found {A} (o : option A) : bool := match o with Some _ => true | None => false end.

(** A seek or an index takes the place of the full scan. *)
Definition has_fast_path (select : Select) (schema : TableSchema) (stats : Stats) : bool :=
  found (e ← sel_where select; rowid_seek_operands schema e) || found (find_covering_index schema select) ||
  found (e ← seekable_where select; between_match schema e) || found (e ← seekable_where select; like_prefix_match schema e) ||
  found (e ← seekable_where select; in_list_match schema e) || found (e ← seekable_where select; comparison_match schema e) ||
  found (find_skip_scan_index schema select stats).

(** SELECT of expressions from one table, with WHERE, LIMIT and OFFSET. *)
Definition plain_scan (select : Select) (schema : TableSchema) (stats : Stats) : bool :=
  match sel_from select with Some (MkFrom (MkTableRef (TrName _) _ _) []) => true | _ => false end &&
  is_nil (sel_compound select) && is_nil (sel_group_by select) && is_nil (sel_order_by select) && negb (select_has_aggregate select) &&
  negb (found (sel_having select)) && negb (is_distinct select) && negb (has_fast_path select schema stats) &&
  match sel_where select with Some e => covered e | None => true end && forallb covered (row_exprs select schema) && constant_limit (sel_limit select).

(** The emitter a body leaves behind. *)
Definition generated (body : G unit) : Gen := (body new_gen).2.

Lemma program_of_generated body P : program_of body = Ok P -> body new_gen = (Ok tt, generated body) /\ P = finish (em (generated body)).
Proof. unfold program_of, generated. destruct (body new_gen) as [[[]|] s]; [|done]. by intros [= <-]. Qed.

(** ** Init *)

Definition started : Gen := mark 0 (jump (instruction OpInit 0 0 0) 0 (declare new_gen)).

Lemma init_inv {A} (k : unit -> G A) a s' : (x ← emit_init; k x) new_gen = (Ok a, s') -> k tt started = (Ok a, s').
Proof. done. Qed.

Lemma declared_wf : gen_wf (declare new_gen) /\ counters_ok started /\ gen_wf started.
Proof.
  assert (W0 : gen_wf (declare new_gen)). { split; [constructor|]. split; [intros l a Hl; discriminate Hl|]. split; [done|]. vm_compute. discriminate. }
  split; [done|]. split; [split; split; vm_compute; discriminate|]. destruct (facts_mark 0 (jump (instruction OpInit 0 0 0) 0 (declare new_gen)) started eq_refl) as (_ & _ & _ & Wm & _). apply Wm; [done|].
  destruct (facts_jump (instruction OpInit 0 0 0) 0 (declare new_gen) _ eq_refl) as (_ & _ & Wj & _). by apply Wj.
Qed.

Section Programs.
Context `{host : Host} {OS : Type} `{Fcntl OS} {Ext : Type} (env : Env).
Abbreviation MVm := (Vm (OS := OS) (Ext := Ext)).
Context (other_op : Instruction -> M MVm ExecError Step).
Context (sub : SubqueryCompiler) (hoist : bool -> TableSchema -> Scope -> Expr -> G SubqueryCompiler) (materialize : Select -> list TableSchema -> Z -> G unit) (fuel : nat).

Lemma run_init F (vm : MVm) : final F -> stage started F -> vm_rows vm = [] -> path env other_op (finish (em F)) 1 0 vm [] 1 vm.
Proof.
  intros Fin S Hq. pose proof (target_mark 0 _ started F eq_refl S) as T. change (pos _) with 1 in T.
  eapply (path_step _ _ _ 0 _ (set_p2 (instruction OpInit 0 0 0) (as_i32 1)) (SJump 1) _ vm); [|done|done|by right|constructor].
  rewrite <- T. apply (fetch_jump (instruction OpInit 0 0 0) 0 (declare new_gen) F eq_refl (proj1 declared_wf)). eapply stage_trans; [|exact S]. by apply (facts_mark 0 (jump (instruction OpInit 0 0 0) 0 (declare new_gen)) started eq_refl).
Qed.

Lemma run_halt F (vm : MVm) s s1 : s1 = push (instruction OpHalt 0 0 0) s -> gen_wf s -> stage s1 F -> has_writer vm = false -> halts (finish (em F)) (pos s) vm.
Proof. intros -> W S Hw. split; [by apply fetch_push|done]. Qed.

(** The program fits the machine's addresses. *)
Lemma len_finish e : len (finish e) = here e.
Proof.
  unfold finish, here. generalize (instructions e). induction (patches e) as [|[a l] ps IH]; intros code; [done|]. cbn [fold_left]. rewrite IH. unfold len, apply_patch, update_instruction. cbn.
  destruct (labels e !! l); [|done]. by rewrite length_alter.
Qed.

(** ** A SELECT without FROM *)

Definition still (vm0 vm : MVm) : Prop := vm = set_registers vm0 (registers vm).

Lemma still_source vm0 ps : vm_rows vm0 = [] -> params vm0 = ps -> RowSource other_op (still vm0) (no_row ps) (fun _ => False).
Proof.
  intros Hr Hp. split; try done.
  - intros vm ->. done.
  - intros vm ->. done.
  - intros vm rs E. unfold still in *. rewrite E. done.
Qed.

Lemma no_from_code select catalog u s' : forallb covered (row_exprs select no_table) = true -> no_from_body sub fuel select catalog new_gen = (Ok u, s') ->
  gen_fits s' -> forall vm0 ps vs, vm_rows vm0 = [] -> params vm0 = ps -> registers vm0 = [] -> has_writer vm0 = false ->
  mapM (eval (scan_scope no_table (-1) catalog) (no_row ps)) (row_exprs select no_table) = Some vs ->
  exists n vm', Z.of_nat n <= pos s' /\ path env other_op (finish (em s')) n 0 vm0 [vs] (pos s' - 1) vm' /\ halts (finish (em s')) (pos s' - 1) vm' /\ autocommit vm' = autocommit vm0.
Proof.
  intros Ce H1 Fits vm0 ps vs Hq Hp Hreg Hw Hvs. apply init_inv in H1. destruct declared_wf as (W0 & C0 & W1).
  gcall H1 fc s1 E1. destruct fc as [first count]. cbv beta iota in H1. gstep H1 s2 E2. gstep H1 s3 E3. apply last_ret in H1 as [_ ->].
  destruct (row_values_code env other_op sub fuel no_table _ _ _ _ _ _ _ Ce E1) as [B1 M1].
  assert (Hcode : code started s3 (exists n vm', Z.of_nat n <= pos s3 /\ path env other_op (finish (em s3)) n 0 vm0 [vs] (pos s3 - 1) vm' /\ halts (finish (em s3)) (pos s3 - 1) vm' /\ autocommit vm' = autocommit vm0)).
  2: { destruct Hcode as [_ X]. by apply X. }
  gcode started. gmeaning M1. destruct M1 as (N & W & -> & Hf & Hl & M). assert (Fin : final s3) by (split; [done|unfold I32_MAX; lia]).
  pose proof (still_source vm0 ps Hq Hp) as Src. pose proof (no_table_reach (-1) catalog) as Hre.
  assert (Hvs' : Forall2 (fun col v => eval (scan_scope no_table (-1) catalog) (no_row ps) (plan_expr col) = Some v) (result_columns select no_table) vs).
  { unfold row_exprs in Hvs. apply mapM_Some_1 in Hvs. by rewrite Forall2_fmap_l in Hvs. }
  pose proof (Forall2_length _ _ _ Hvs') as Hlen. assert (El : len (result_columns select no_table) = len vs) by (unfold len; lia). rewrite El in *. pose proof (len_nonneg vs).
  assert (Hs0 : nreg started = 0 /\ pos started = 1) by done. destruct Hs0 as [Hr0 Hp0].
  assert (Hn : nulls N vm0) by (intros x Hx; unfold rg, slot; by rewrite Hreg). assert (Hi : still vm0 vm0) by (by destruct vm0).
  destruct (M (still vm0) (no_row ps) _ Src Hre s3 vm0 vs Fin ltac:(gstage) Hi Hn Hvs') as (vm1 & (R1 & I1 & Fr1 & N1') & X1). destruct (fwd_path env other_op _ _ _ _ _ R1) as (n1 & Hn1 & P1).
  rewrite count_small in E2 by lia.
  destruct (run_result_row env other_op (still vm0) (no_row ps) _ s3 first vs s1 s2 vm1 Src E2 ltac:(assumption) ltac:(gstage) I1 ltac:(lia) ltac:(unfold MAX_REGISTERS; lia) X1) as (vm2 & P2 & I2 & _ & T2).
  pose proof (run_init s3 vm0 Fin ltac:(gstage) Hq) as P0. rewrite Hp0 in P1. exists (1 + (n1 + 1))%nat, vm2. replace (pos s3 - 1) with (pos s2) by lia. split; [lia|].
  split; [apply (path_trans env other_op _ _ _ _ _ _ _ _ _ _ _ P0 (path_trans env other_op _ _ _ _ _ _ _ _ _ _ _ P1 P2))|].
  split; [eapply (run_halt s3 vm2 s2 s3); [done|assumption|gstage|]|]; rewrite I2; done.
Qed.

(** ** A SELECT from one table *)

Lemma direct_scan_full select schema cursors end_label catalog stats sink s : is_distinct select = false -> has_fast_path select schema stats = false ->
  compile_direct_scan sub hoist fuel select schema cursors end_label catalog stats sink s = compile_full_scan sub hoist fuel select schema cursors end_label catalog sink s.
Proof.
  intros Hd Hf. unfold has_fast_path in Hf. repeat (apply orb_false_elim in Hf as [Hf ?]). unfold compile_direct_scan, try_compile_rowid_seek, try_compile_covering_index_scan, try_compile_between_seek, try_compile_like_prefix_seek, try_compile_in_list_seek, try_compile_forward_comparison_seek, try_compile_skip_scan_index.
  rewrite Hd. repeat match goal with X : found ?o = false |- _ => destruct o eqn:?; [discriminate X|]; clear X end. done.
Qed.

Lemma plain_scan_inv select schema stats : plain_scan select schema stats = true ->
  (exists name alias sp, sel_from select = Some (MkFrom (MkTableRef (TrName name) alias sp) [])) /\ sel_compound select = [] /\ sel_group_by select = [] /\ sel_order_by select = [] /\
  select_has_aggregate select = false /\ sel_having select = None /\ is_distinct select = false /\ has_fast_path select schema stats = false /\
  (match sel_where select with Some e => covered e = true | None => True end) /\ forallb covered (row_exprs select schema) = true /\ constant_limit (sel_limit select) = true.
Proof.
  unfold plain_scan. intros Hp. repeat (apply andb_true_iff in Hp as [Hp ?]). repeat match goal with X : negb _ = true |- _ => apply negb_true_iff in X end.
  destruct (sel_from select) as [[[[name|] alias sp] []]|]; try discriminate Hp. destruct (sel_compound select); [|done]. destruct (sel_group_by select); [|done]. destruct (sel_order_by select); [|done].
  destruct (sel_having select); [done|]. destruct (sel_where select); repeat split; eauto.
Qed.

Lemma select_body_scan select schema catalog stats : plain_scan select schema stats = true ->
  forall a s', select_body sub hoist materialize fuel select schema catalog stats new_gen = (Ok a, s') -> exists root, positive_i32 (ts_root_page schema) = Some root /\
  (_ ← emit (instruction OpOpenRead 0 root 0); end_label ← new_label; _ ← compile_full_scan sub hoist fuel select schema for_standalone_select end_label catalog result_row_sink;
   _ ← place end_label; _ ← emit (instruction OpHalt 0 0 0); mret tt) started = (Ok a, s').
Proof.
  intros Hp a s' H1. destruct (plain_scan_inv _ _ _ Hp) as ((name & alias & sp & Ef) & Ec & Eg & Eo & Ea & Eh & Ed & Efp & _). apply init_inv in H1. unfold open_table in H1. rewrite Ef in H1. cbn [from_subquery] in H1.
  gcall H1 u1 s1 E1. apply lift_inv in E1 as (root & Er & E1). apply ok_or_inv in Er. exists root. split; [done|]. gstep E1 s2 E2. apply last_ret in E1 as [_ ->].
  assert (Es : forall l s, compile_select_scan sub hoist fuel select schema for_standalone_select l catalog stats result_row_sink s = compile_full_scan sub hoist fuel select schema for_standalone_select l catalog result_row_sink s).
  { intros l s. unfold compile_select_scan, resolve_order_by. rewrite Eg, Ea, Eh, Eo. by apply direct_scan_full. }
  gcall H1 l s3 E3. gcall H1 u s4 E4. rewrite Es in E4. rewrite (M_bind_ok (emit (instruction OpOpenRead 0 root 0)) _ started (pos started) s2) by (by rewrite E2).
  rewrite (M_bind_ok _ _ _ _ _ E3), (M_bind_ok _ _ _ _ _ E4). exact H1.
Qed.

Lemma select_code select schema catalog stats u s' : plain_scan select schema stats = true -> select_body sub hoist materialize fuel select schema catalog stats new_gen = (Ok u, s') -> gen_fits s' ->
  positive_i32 (ts_root_page schema) = Some (ts_root_page schema) /\
  forall ps rows Start At Over ac, TableScan other_op 0 ps rows Start At Over ac ->
  forall vm0 vm1 state out, vm_rows vm0 = [] -> registers vm0 = [] -> op_open_read other_op (instruction OpOpenRead 0 (ts_root_page schema) 0) vm0 = (Ok SNext, vm1) -> Start vm1 -> registers vm1 = registers vm0 ->
  eval_limit ps (sel_limit select) = Some state -> select_rows (scan_scope schema 0 catalog) (sel_where select) (row_exprs select schema) rows = Some out ->
  exists n vm', Z.of_nat n <= (len rows + 3) * (pos s' + 1) /\ path env other_op (finish (em s')) n 0 vm0 (limit_rows state out) (pos s' - 1) vm' /\ halts (finish (em s')) (pos s' - 1) vm' /\ autocommit vm' = ac.
Proof.
  intros Hp H1 Fits. destruct (plain_scan_inv _ _ _ Hp) as (_ & _ & _ & _ & _ & _ & Ed & _ & Cw & Ce & Cl). destruct (select_body_scan _ _ _ _ Hp _ _ H1) as (root & Er & H2). clear H1.
  assert (root = ts_root_page schema) as -> by (unfold positive_i32, i32_try_from in Er; destruct (_ && _); [|done]; cbn in Er; destruct (0 <? _); [by injection Er|done]). split; [done|].
  intros ps rows Start At Over ac Sc vm0 vm1 state out Hq Hreg Hopen Hi Rg Ev Ho. destruct declared_wf as (W0 & C0 & W1).
  gstep H2 s1 E1. gstep H2 s2 E2. gcall H2 u3 s3 E3. gstep H2 s4 E4. gstep H2 s5 E5. apply last_ret in H2 as [_ ->].
  destruct (full_scan_code env other_op sub hoist fuel select schema for_standalone_select (nlab s1) catalog _ _ _ Ed Cw Ce Cl E3) as [B3 M3].
  assert (Hcode : code started s5 (exists n vm', Z.of_nat n <= (len rows + 3) * (pos s5 + 1) /\ path env other_op (finish (em s5)) n 0 vm0 (limit_rows state out) (pos s5 - 1) vm' /\ halts (finish (em s5)) (pos s5 - 1) vm' /\ autocommit vm' = ac)).
  2: { destruct Hcode as [_ X]. by apply X. }
  gcode started. gmeaning M3. destruct M3 as (N & W & M). assert (Fin : final s5) by (split; [done|unfold I32_MAX; lia]). assert (Hs0 : nreg started = 0 /\ pos started = 1) by done. destruct Hs0 as [Hr0 Hp0].
  pose proof (target_mark _ _ _ s5 E4 ltac:(gstage)) as Te. assert (Hn : nulls N vm1) by (intros x Hx; unfold rg, slot; by rewrite Rg, Hreg).
  destruct (M ps rows Start At Over ac Sc s5 vm1 state out Fin ltac:(gstage) Te Hi Hn Ev Ho) as (n3 & vm3 & Hn3 & P3 & A3). assert (Hqt : vm_rows vm3 = [] /\ has_writer vm3 = false /\ autocommit vm3 = ac) by (destruct Sc as [_ _ _ _ Q]; by apply Q). destruct Hqt as (_ & Hw & Hac).
  pose proof (run_init s5 vm0 Fin ltac:(gstage) Hq) as P0. assert (Src0 : RowSource other_op Start (no_row ps) (fun _ => False)) by (by destruct Sc). pose proof (source_quiet other_op (row := no_row ps) (reach := fun _ => False) vm1 Hi) as Hq1.
  assert (P1 : path env other_op (finish (em s5)) 1 1 vm0 [] (pos s1) vm1).
  { eapply (path_step _ _ _ 0 _ (instruction OpOpenRead 0 (ts_root_page schema) 0) SNext _ vm1 (pos s1)); [|exact Hopen|done|left; split; [done|lia]|constructor]. rewrite <- Hp0. apply fetch_push; [done|]. rewrite <- E1. gstage. }
  exists (1 + (1 + n3))%nat, vm3. replace (pos s5 - 1) with (pos s3) by lia. replace (pos s2) with (pos s1) in P3 by lia. pose proof (len_nonneg rows).
  split; [nia|]. split; [apply (path_trans env other_op _ _ _ _ _ _ _ _ _ _ _ P0 (path_trans env other_op _ _ _ _ _ _ _ _ _ _ _ P1 P3))|].
  split; [|done]. replace (pos s3) with (pos s4) by lia. by eapply (run_halt s5 vm3 s4 s5); [|assumption|gstage|].
Qed.
End Programs.
