(* ===== verification/SelectProperties.v ===== *)
(** * Properties of SELECT

    What a compiled SELECT does when it runs, over the machine, the table
    cursors and the records of the database. *)

From stdpp Require Import prelude list numbers gmap sorting.
From Stdlib Require Import ZArith Lia.
From S2P Require Import Prelude Varint Text Record Float ValueOrder Format Coerce Functions Tokenizer Grammar Statements Header Freelist Vfs Journal Wal Lock Shm Checkpoint PageCache Pager Commit Transactions Allocator BtreePage LeafPage LeafSearch Btree Tree TreeSplit Overflow TableTree Table Cursor CursorScan TableProperties Program Vm VmCursor Sorter Exec Ast Codegen CodegenExpr CodegenState Eval CodegenRun CodegenCond CodegenValue CodegenCall ExecRun CodegenSelect CodegenRows CodegenSeek CodegenAggregate CodegenEntry CodegenLoop SelectTable.

Local Open Scope Z_scope.

(** The values of every row of a table. *)
Definition table_values (T : list (Z * list Z)) : option (list (Z * list Value)) :=
  mapM (fun t => match decode_record t.2 Utf8 with Ok vs => Some (t.1, vs) | Err _ => None end) T.

Lemma table_values_decode T V : table_values T = Some V -> Forall2 (fun t v => t.1 = v.1 /\ decode_record t.2 Utf8 = Ok v.2) T V.
Proof.
  intros E. apply mapM_Some_1 in E. eapply Forall2_impl; [exact E|]. cbn. intros t v Ev. destruct (decode_record t.2 Utf8) as [vs|]; [|done]. by injection Ev as <-.
Qed.

(** A map has one list of its entries in the order of the keys. *)
Lemma ordered_entries_unique (T T' : list (Z * list Z)) : ForallOrdPairs (fun a b => a.1 < b.1) T -> ForallOrdPairs (fun a b => a.1 < b.1) T' ->
  (list_to_map T : gmap Z (list Z)) = list_to_map T' -> T = T'.
Proof.
  assert (Hs : forall l : list (Z * list Z), ForallOrdPairs (fun a b => a.1 < b.1) l -> StronglySorted (fun a b => a.1 < b.1) l /\ NoDup l.*1).
  { induction 1 as [|x l Hx Hl [IH1 IH2]]; [split; constructor|]. split; [by constructor|]. cbn. constructor; [|done]. intros (y & Ey & Hy)%list_elem_of_fmap. rewrite Forall_forall in Hx. specialize (Hx y Hy). cbn in Hx. lia. }
  intros H1 H2 E. destruct (Hs _ H1) as [S1 N1], (Hs _ H2) as [S2 N2]. apply (StronglySorted_unique_strong (fun a b => a.1 < b.1)); [|done|done|by apply list_to_map_inj].
  intros x y _ _ Hxy Hyx. lia.
Qed.

Section Properties.
Context `{host : Host} {OS : Type} `{Fcntl OS} {Ext : Type} (env : Env).
Context (other_op : Instruction -> M (Vm (OS := OS) (Ext := Ext)) ExecError Step).
Context (sub : SubqueryCompiler) (hoist : bool -> TableSchema -> Scope -> Expr -> G SubqueryCompiler) (materialize : Select -> list TableSchema -> Z -> G unit) (fuel : nat).

(** C3. A compiled SELECT over one table returns what the statement means: for a
    statement that [plain_scan] admits (one table and no index or rowid search
    that shortens the scan; no DISTINCT, GROUP BY, HAVING, aggregate, ORDER BY,
    compound part, subquery or bare [?]; constant LIMIT and OFFSET), the
    program run over the table's b-tree yields the projections of the rows whose
    WHERE is true by [eval], in rowid order, cut to LIMIT and OFFSET, and halts. *)
Theorem select_scans_table usable header (p : Pager OS) h m pages ps select schema catalog stats P T V state out rounds :
  480 <= usable <= 65536 -> usable_page_size header = usable -> coherent p -> table usable p h (ts_root_page schema) m pages ->
  Z.of_nat (base.size pages) <= MAX_PAGES_VISITED -> map_Forall (fun _ v => len v <= MAX_PAYLOAD_LEN) m ->
  m = list_to_map T -> ForallOrdPairs (fun a b => a.1 < b.1) T -> table_values T = Some V ->
  plain_scan select schema stats = true -> compile_select_with_catalog_and_stats sub hoist materialize fuel select schema catalog stats = Ok P ->
  gen_fits (generated (select_body sub hoist materialize fuel select schema catalog stats)) ->
  eval_limit ps (sel_limit select) = Some state ->
  select_rows (scan_scope schema 0 catalog) (sel_where select) (row_exprs select schema) (table_row ps <$> V) = Some out ->
  (len V + 3) * (len P + 1) < MAX_STEPS -> (length (limit_rows state out) < rounds)%nat ->
  run env other_op rounds (bind_params (with_db p header) ps) P = Ok (limit_rows state out, true).
Proof.
  intros Hus Hu Hco Htab HM Hmax Em Hso HV Hp HP Fits Ev Ho Hst Hr.
  destruct (table_sorted _ _ _ _ _ _ Htab) as (rs & T' & tps & ops & Ht & Hstd & Hnd & Em' & Hsz & Hsr).
  assert (T' = T) as -> by (apply ordered_entries_unique; [by eapply stored_in_order|done|congruence]).
  destruct (plain_scan_inv _ _ _ Hp) as ((name & alias & sp & Ef) & Ec & _). unfold compile_select_with_catalog_and_stats in HP. rewrite Ef, Ec in HP.
  destruct (program_of_generated _ _ HP) as [E ->]. destruct (select_code env other_op sub hoist materialize fuel select schema catalog stats _ _ Hp E Fits) as [Hroot X].
  assert (Hy : Forall2 (yields usable p) rs T).
  { eapply stored_yields; [done|lia|]. apply Forall_forall. intros [k v] Hin. subst m. apply (map_Forall_lookup_1 _ _ k v Hmax). by apply elem_of_list_to_map_1. }
  set (vm0 := bind_params (with_db p header) ps : Vm (OS := OS) (Ext := Ext)). assert (Hr0 : reading header p ps true vm0) by (split; [exists p; split; [done|apply updated_read; [done|by destruct p]]|done]).
  assert (Hc : valid_reg 0) by (unfold valid_reg, MAX_REGISTERS; lia).
  assert (Hrb : 0 <= ts_root_page schema <= U32_MAX).
  { unfold positive_i32, i32_try_from in Hroot. unfold U32_MAX. destruct ((I32_MIN <=? _) && _) eqn:Eb; [|done]. cbn in Hroot. destruct (Z.ltb_spec 0 (ts_root_page schema)); [|done]. unfold I32_MAX in Eb. lia. }
  destruct (run_open_read other_op usable header p ps true 0 (ts_root_page schema) Hc _ Hr0 Hrb Hu) as (vm1 & Eo & Ho1 & Rg).
  assert (Hpg : Z.of_nat (base.size tps) <= MAX_PAGES_VISITED) by lia.
  pose proof (table_scan_instance other_op usable Hus header p ps true 0 (ts_root_page schema) Hc rs T V h MIN_KEY MAX_KEY tps Ht Hy Hpg (table_values_decode _ _ HV)) as Sc.
  destruct (X ps _ _ _ _ _ Sc vm0 vm1 state out eq_refl eq_refl Eo Ho1 Rg Ev Ho) as (n & vm' & Hn & Pa & Ha & Hac).
  rewrite <- Hac. rewrite len_finish in Hst. assert (El : len (table_row ps <$> V) = len V) by (unfold len; by rewrite length_fmap). rewrite El in Hn.
  eapply run_of_path; [exact Pa|done|rewrite len_finish; by destruct Fits|unfold pos in *; lia|done].
Qed.

(** C20. A SELECT without FROM returns one row, the values [eval] gives its
    expressions (which have no subquery and no bare [?]): the program compiled
    for it ends and yields nothing else. *)
Theorem select_without_from ps select catalog P vs :
  compile_select_no_from sub fuel select catalog = Ok P -> forallb covered (row_exprs select no_table) = true ->
  gen_fits (generated (no_from_body sub fuel select catalog)) -> len P < MAX_STEPS ->
  mapM (eval (scan_scope no_table (-1) catalog) (no_row ps)) (row_exprs select no_table) = Some vs ->
  run env other_op 2 (bind_params new_vm ps) P = Ok ([vs], true).
Proof.
  intros HP Ce Fits Hst Hvs. unfold compile_select_no_from in HP. destruct (negb (forallb _ _)); [done|]. destruct (negb (is_bare_list select)); [done|]. destruct (program_of_generated _ _ HP) as [E ->].
  destruct (no_from_code env other_op sub fuel select catalog _ _ Ce E Fits (bind_params new_vm ps) ps vs eq_refl eq_refl eq_refl eq_refl Hvs) as (n & vm' & Hn & Pa & Ha & Hac).
  rewrite len_finish in Hst. change true with (autocommit (bind_params new_vm ps : Vm (OS := OS) (Ext := Ext))). rewrite <- Hac. eapply run_of_path; [exact Pa|done|rewrite len_finish; by destruct Fits|unfold pos in *; lia|cbn; lia].
Qed.

(** C16. Every call of [next_row] returns. *)
Theorem next_row_returns P e : 0 <= ex_steps e <= MAX_STEPS -> ex_pending e = [] -> ex_done e = false ->
  exists n out e', (n <= Z.to_nat (MAX_STEPS + 1 - ex_steps e))%nat /\ iter_nat n (tick env other_op P) e = inr (out, e') /\ next_row env other_op P e = (out, e') /\
    ex_steps e < ex_steps e' <= MAX_STEPS + 1 /\ (ex_steps e' = MAX_STEPS + 1 -> out = Err StepLimitExceeded).
Proof.
  intros Hs Hp Hd. destruct (loop_returns env other_op P e Hs) as (out & e' & E & Hb). exists (Pos.to_nat (steps_left e)), out, e'. split; [unfold steps_left; lia|].
  split; [by rewrite <- iterate_nat|]. split; [|done]. unfold next_row. by rewrite Hp, Hd, E.
Qed.
End Properties.

(** ** Witnesses *)

#[local] Instance little : Host := true.
#[local] Instance plain_letters : Unicode := {| unicode_alphabetic := fun _ => false; unicode_numeric := fun _ => false |}.

Definition query (src : str) : Select := match parse_select src with Some (Accepted s) => s | _ => MkSelect None None [] None None [] None [] [] None SYNTHETIC_SPAN end.
Definition no_subquery : SubqueryCompiler := let none {A} : G A := throw (Codegen.Unsupported []) in MkSubqueries (fun _ _ => none) (fun _ _ _ _ => none) (fun _ _ _ _ _ => none) (fun _ _ _ _ _ => none).
Definition no_hoist (memoize : bool) (schema : TableSchema) (scope : Scope) (e : Expr) : G SubqueryCompiler := mret no_subquery.
Definition no_materialize (q : Select) (catalog : list TableSchema) (cursor : Z) : G unit := mret tt.
Definition no_op (i : Instruction) : M (Vm (OS := LockTable) (Ext := unit)) ExecError Step := throw (NoDatabase []).

(** The table [t(id INTEGER PRIMARY KEY, name TEXT, n INTEGER)] and four rows of it. *)
Definition people : TableSchema :=
  MkTableSchema (lit "t") 2 [lit "id"; lit "name"; lit "n"] false false [lit "INTEGER"; lit "TEXT"; lit "INTEGER"] [CBinary; CBinary; CBinary] false [] [] false (Some 0).
Definition people_rows : list (Z * list Z) :=
  [(1, encode_record [Null; VText (lit "ann"); Integer 7] Utf8); (2, encode_record [Null; VText (lit "bob"); Null] Utf8);
   (5, encode_record [Null; VText (lit "cy"); Integer 40] Utf8); (9, encode_record [Null; VText (lit "dan"); Integer 9] Utf8)].
Definition people_query : Select := query (lit "SELECT id, name, n + ?1 FROM t WHERE n > 5 AND NOT name LIKE 'a%' LIMIT 3 OFFSET 1").

Lemma people_small : small_entries people_rows.
Proof. split; [repeat constructor; by vm_compute|]. split; [|by vm_compute]. repeat constructor; by vm_compute. Qed.
Lemma people_short : map_Forall (fun _ v => len v <= MAX_PAYLOAD_LEN) (list_to_map people_rows : gmap Z (list Z)).
Proof. apply (bool_decide_unpack _). by vm_compute. Qed.

Lemma select_scans_table_witness : exists P, compile_select_with_catalog_and_stats no_subquery no_hoist no_materialize 60 people_query people [people] no_stats = Ok P /\
  run sample_env no_op 2 (bind_params (with_db (sample_table people_rows) (plain_header 2)) [Integer 100]) P = Ok ([[Integer 9; VText (lit "dan"); Integer 109]], true).
Proof.
  destruct (compile_select_with_catalog_and_stats no_subquery no_hoist no_materialize 60 people_query people [people] no_stats) as [P|] eqn:E; [|vm_compute in E; discriminate E]. exists P. split; [done|].
  destruct (table_values people_rows) as [V|] eqn:EV; [|vm_compute in EV; discriminate EV].
  apply (@select_scans_table little LockTable _ unit sample_env no_op no_subquery no_hoist no_materialize 60 512 (plain_header 2) (sample_table people_rows) 0 (list_to_map people_rows) {[2]} [Integer 100] people_query people [people] no_stats P people_rows V (Some (1, 3)) [[Integer 5; VText (lit "cy"); Integer 140]; [Integer 9; VText (lit "dan"); Integer 109]] 2);
    [lia|done|apply alloc_pager_coherent|apply (sample_ok people_rows), people_small|by rewrite size_singleton|apply people_short|reflexivity| |exact EV|by vm_compute|exact E| | | | |].
  - repeat constructor; by vm_compute.
  - repeat split; vm_compute; congruence.
  - by vm_compute.
  - vm_compute in EV. injection EV as <-. by vm_compute.
  - vm_compute in EV. injection EV as <-. vm_compute in E. injection E as <-. by vm_compute.
  - vm_compute. lia.
Defined.

Definition sum_query : Select := query (lit "SELECT 1 + 2.5, NULL OR 1, upper('ab') || ?1").
Lemma select_without_from_witness : exists P, compile_select_no_from no_subquery 60 sum_query [] = Ok P /\
  run sample_env no_op 2 (bind_params new_vm [Integer 7]) P = Ok ([[Real 4615063718147915776; Integer 1; VText (lit "AB7")]], true).
Proof.
  destruct (compile_select_no_from no_subquery 60 sum_query []) as [P|] eqn:E; [|vm_compute in E; discriminate E]. exists P. split; [done|].
  apply (@select_without_from little LockTable _ unit sample_env no_op no_subquery 60 [Integer 7] sum_query [] P); [exact E|by vm_compute| | |by vm_compute].
  - repeat split; vm_compute; congruence.
  - vm_compute in E. injection E as <-. by vm_compute.
Defined.

Lemma next_row_returns_witness : let e := new_execution new_vm in let P := [instruction OpGoto 0 0 0] in
  exists n out e', (n <= Z.to_nat (MAX_STEPS + 1 - ex_steps e))%nat /\ iter_nat n (tick sample_env no_op P) e = inr (out, e') /\ next_row sample_env no_op P e = (out, e') /\
    ex_steps e < ex_steps e' <= MAX_STEPS + 1 /\ (ex_steps e' = MAX_STEPS + 1 -> out = Err StepLimitExceeded).
Proof. intros e P. apply (@next_row_returns little LockTable _ unit sample_env no_op P e); [split; vm_compute; congruence|reflexivity|reflexivity]. Defined.

(** ** Statements the code gets wrong

    A statement over the sample table, from its text to its result. *)
Definition answer (rows : list (Z * list Z)) (src : str) : option (result ExecError (list (list Value) * bool)) :=
  match compile_select no_subquery no_hoist no_materialize 60 (query src) people with
  | Ok P => Some (run sample_env no_op 9 (with_db (sample_table rows) (plain_header 2)) P)
  | Err _ => None
  end.
Definition union_answer (rows : list (Z * list Z)) (src : str) : option (result ExecError (list (list Value) * bool)) :=
  match compile_select_compound no_subquery no_hoist no_materialize 60 (query src) people [people] [people] with
  | Ok P => Some (run sample_env no_op 9 (with_db (sample_table rows) (plain_header 2)) P)
  | Err _ => None
  end.

(** A rowid equality in a conjunction takes the place of the whole WHERE
    clause: the row with that rowid is returned although the other conjunct is
    not true of it, and the same conjunction without a rowid in it returns no
    row.  A rowid repeated in a disjunction returns its row twice. *)
Theorem rowid_seek_ignores_other_conjuncts :
  answer people_rows (lit "SELECT name FROM t WHERE id = 2 AND n > 5") = Some (Ok ([[VText (lit "bob")]], true)) /\
  answer people_rows (lit "SELECT name FROM t WHERE id + 0 = 2 AND n > 5") = Some (Ok ([], true)) /\
  answer people_rows (lit "SELECT name FROM t WHERE id = 2 OR id = 2") = Some (Ok ([[VText (lit "bob")]; [VText (lit "bob")]], true)).
Proof. by vm_compute. Qed.

(** On an empty table, an aggregate over DISTINCT values with a LIMIT fails
    instead of returning its row: the jump of the empty sorter goes past the
    instructions that set the counter of the LIMIT. *)
Theorem count_distinct_limit_fails_when_empty :
  answer [] (lit "SELECT count(DISTINCT n) FROM t") = Some (Ok ([[Integer 0]], true)) /\
  answer people_rows (lit "SELECT count(DISTINCT n) FROM t LIMIT 1") = Some (Ok ([[Integer 3]], true)) /\
  answer [] (lit "SELECT count(DISTINCT n) FROM t LIMIT 1") = Some (Err (TypeMismatch (lit "control counter") (lit "NULL"))).
Proof. by vm_compute. Qed.

(** In the second arm of a UNION the cursors of an aggregate over DISTINCT
    values are those of the arm's own scan, and the statement fails. *)
Theorem union_count_distinct_fails :
  cur_sort (for_arm 1) = FLUSH_CURSOR + 1 /\
  union_answer people_rows (lit "SELECT n FROM t UNION ALL SELECT count(DISTINCT n) FROM t") =
    Some (Err (CursorTypeMismatch (lit "SorterNext") 5 (lit "ephemeral cursor") (lit "sorter cursor"))).
Proof. by vm_compute. Qed.

(** A condition whose value is wanted is compiled twice, and an anonymous
    parameter in it takes a new number each time: [? AND 1] over the
    parameters 0, 1 is NULL, and the parameter written after it reads the third
    value and not the second.  With numbered parameters the same statements
    return what they should. *)
Theorem anonymous_parameter_numbered_twice :
  let values src ps := match compile_select_no_from no_subquery 60 (query src) [] with Ok P => Some (run sample_env no_op 3 (bind_params new_vm ps) P) | Err _ => None end in
  values (lit "SELECT ? AND 1") [Integer 0; Integer 1] = Some (Ok ([[Null]], true)) /\
  values (lit "SELECT ?1 AND 1") [Integer 0; Integer 1] = Some (Ok ([[Integer 0]], true)) /\
  values (lit "SELECT ? AND 1, ?") [Integer 1; Integer 5; Integer 9] = Some (Ok ([[Integer 1; Integer 9]], true)) /\
  values (lit "SELECT ?1 AND 1, ?2") [Integer 1; Integer 5; Integer 9] = Some (Ok ([[Integer 1; Integer 5]], true)).
Proof. by vm_compute. Qed.
